(* ===== verification/_CoqProject ===== *)
-Q . S2P
Prelude.v
Varint.v
Packet.v
EnigmaString.v
SyncQueue.v
ThreadPool.v
Promise.v
EventBus.v
CType.v
TokenTables.v
Tokenize.v
Complete.v
IntText.v
RowSet.v
Bitvec.v
HashTable.v
Utf.v
Like.v
ByteMem.v
PageHeap.v
PageAlloc.v
PageDefrag.v
PageFast.v
PageCell.v
PageEdit.v
LogSink.v
Logger.v
SqliteWrapper.v
OsFile.v
Memdb.v
WalCksum.v
WalIndex.v
WalFrame.v
WalLock.v
WalIndexRefine.v
WalIter.v
WalPages.v
WalRecover.v
WalRead.v
WalCkpt.v
WalBackfill.v
WalWrite.v
WalDurable.v
WalCommit.v
WalReader.v
WalSnapshot.v
