(* ===== verification/Prelude.v ===== *)
(** * Verification library for libenigma and its embedded SQLite core

    libenigma is a C++ base library: byte-stream packets, strings, a blocking queue with a
    thread pool and an event bus on top of it, promises, a logger, and a database wrapper
    over the SQLite amalgamation that the repository carries.  This library models the
    parts with state or arithmetic of their own, from src/include, src/src and
    src/src/db/sqlite3/core/sqlite3.c ("sqlite3.c" below), and proves them correct.

    ** How the code is modelled

    A function of the source is a definition of the same name; a loop is a [Fixpoint], a
    part of a long function that is worth a name is a definition that the function calls.
    Integers are [Z], and every conversion or operation that can wrap is written out
    ([u8] ... [i64]); signed overflow, an access outside an object, a use of a dead
    object or a lock taken twice is [UB] of the type [outcome], so that a theorem saying
    that a call is [Done] also says that none of these happens.  Memory is a list of
    bytes with checked access (ByteMem, [blk_read] and [blk_write] here), or a heap of
    nodes where pointers are shared (HashTable, EventBus, Promise); allocation failures
    are answers of a parameter.  Threads are transition systems, and the theorems are about
    every reachable state: in SyncQueue, ThreadPool, EventBus (the handler), Logger and
    Promise, any number of calls interleave, with one step for each critical section and
    for each access to shared data outside of one.  Three things are one step nevertheless:
    an operation of a task queue (SyncQueue takes it apart), the assignment of a
    [std::jthread] variable, and a thread's way through the sinks of a logger.  Where
    unlocked accesses to the vector of a pool's workers, or to a logger's sinks or
    level, meet, the execution is marked as undefined.  [Publish], the locks of memdb.c
    and the functions of wal.c are steps, each call as a whole.  Fuel: a loop that is not structural carries a number, and running out of it
    is [UB] or [None].  It is always chosen from the input (the length of the string, of
    the page, of the queue, the size of the table), and the theorems state the result
    outright, so they include that it is enough; the loops of [String::replace] and
    [String::split] are proved to end exactly when the pattern is not empty.

    ** libenigma

    - Packet (include/network/packet.h): [ema::network::packet], a buffer that grows by
      realloc.  Indeterminate bytes are distinguished.  No sequence of operations leaves
      the buffer, whatever allocations fail; what was written reads back.
    - EnigmaString (src/string/str.cpp): [replace], [split], [trim] and case conversion
      against their specifications on lists.
    - SyncQueue (include/container/sync_queue.h): first the operations and their interface
      [TaskQueue] with laws [TaskQueueLaws], which SyncQueue implements and which
      ThreadPool and EventBus are verified against; then consumers, mutex and condition
      variable as a transition system: the queue is first-in first-out across threads, a
      consumer does not sleep on items, but Stop can lose its wake-up.
    - ThreadPool (include/thread/thread_pool.h): workers on a heap, and any number of calls
      of [Submit], [Startup] and [Shutdown]; no task is lost and the task counter is right in
      every interleaving, the limit is off by one, [Submit] and [Shutdown] race, and
      restarting does not revive the workers.
    - Promise (include/thread/thread.h): the shared state with callbacks that may move the
      value, throw or re-enter, and the [Promise] and [Future] handles, whose accesses
      interleave.
    - EventBus (include/event_bus/): handlers with their threads, calls of [Start] and [Stop]
      that may overlap, and the bus; no event is handled twice, those of a handler that is
      not started twice at once are handled in order, [Publish] delivers to the subscribed
      handlers.
    - LogSink, Logger (include/log/, src/logger/): the sinks, of which the file sink rotates
      its files by renaming, are verified against the interface [Sink]; the logger with its
      threads, and calls of [Init] and [Uninit] that may overlap, uses a [TaskQueue] and sinks.
      The files hold the newest messages, in order; a logger that has been uninitialised does
      not log again.
    - SqliteWrapper (src/db/sqlite3/sqlite3_impl.cpp): the database class over the C API,
      which is the interface [SqliteApi]: [Exec] returns only for statements without rows,
      and a failed call leaves a dangling connection.

    ** SQLite

    - Varint (util.c): variable-length integers; writing and reading invert each other,
      the unrolled reader is the format's definition.
    - CType, TokenTables, Tokenize, Complete (global.c, tokenize.c, complete.c): C strings
      and characters; the tokenizer, its generated keyword hash against the list of
      keywords, the driver [sqlite3RunParser], which always ends with the whole text read
      (the parser is a parameter); the automaton of [sqlite3_complete] against the
      language it should accept.
    - IntText (util.c): overflow-checked arithmetic, and integers to and from text.
    - Utf, Like (utf.c, vdbemem.c, func.c): UTF-8 and UTF-16 translation of values; the
      matcher of LIKE and GLOB with its early exits against a plain specification.
    - RowSet, Bitvec, HashTable (rowset.c, bitvec.c, hash.c): each refines a finite set or
      a finite map, through all its representations and growth steps.
    - ByteMem, PageHeap, PageAlloc, PageDefrag, PageFast, PageCell, PageEdit (btree.c): the
      content of one b-tree page.  PageHeap has the allocator inside the page
      ([btreeComputeFreeSpace], [freeSpace], [allocateSpace], [pageFindSlot],
      [defragmentPage], [zeroPage]) on a record [MemPage] with the fields of the source's
      struct, and the specification: a layout, the list of the cells, free blocks and
      fragments of the content area ([page_ok]).  PageHeap proves [freeSpace] and the
      check of corrupt pages, PageAlloc the search of the free list, PageDefrag and
      PageFast the two ways of defragmentation and [allocateSpace].  These use the cells
      through the interface [CellFormat], with the law [CellFormatLaws] that a cell's size
      depends on its own bytes.  PageCell has the cell formats themselves and discharges
      that law; PageEdit has [insertCell] and [dropCell] and the refinement: a page is a
      list of byte strings ([page_holds]), and edits of the page are edits of the list.
    - OsFile, Memdb (os.c, memdb.c): the interface [OsFile] of a file with its laws
      [OsFileLaws], where a call may fail and a write may then be carried out in part.  Two
      instances: [FaultyFile], whose calls fail as a list of answers says, and the
      in-memory file of memdb.c, with its locks and the registry of named stores.
    - The write-ahead log (wal.c), from its bytes up:
      WalCksum, WalIndex: headers and checksums, and the shared index that maps pages to
      frames, hash tables with linear probing, with the operations of its writer and
      readers.  WalIndexRefine: the index is the list of the log's page numbers
      ([index_holds]), whatever frames, rollbacks and savepoints there have been.
      WalFrame: one frame, and what the bytes of a log mean, its valid frames
      ([valid_frames]).  WalLock: the interface [ShmLocks] of the shared-memory locks, which
      the lock table of os_unix.c implements, and the lock calls of wal.c.
      WalRecover: recovery; it makes of the valid frames up to the last commit
      ([upto_commit], [log_frames_of]) an index and a header.
      WalRead: the begin and the end of read and write transactions, restarting the log.
      WalIter, WalPages: the merge sort and the iterator of the checkpoint, which gives each
      page once with its newest frame.  WalCkpt, WalBackfill: the checkpoint, and that it
      keeps what every reader sees ([snapshot_page], [same_content]) and completes when
      nothing is in its way.
      WalWrite: [sqlite3WalFrames], writing the pages of a transaction.  WalDurable: the bytes
      of the log meanwhile ([log_file], [log_writer]), after every call that may fail.
      WalCommit: the states of a writer between two calls ([log_state], [log_broken]), its
      steps, and crashes.  WalReader: the begin of a read transaction, with its marks and
      locks ([reading], [reader_page]).  WalSnapshot: all together, a step relation
      ([sys_step]) of a reader, a writer and any other connections on one wal-index, two
      files and one lock table.

    ** Groups of theorems

    Refinements of an abstract specification: [page_edits_refine], [wal_index_refines],
    [recovery_finds_commits], [HashInsert_refines_map], [Bitvec_refines_set],
    [RowSet_test_refines], [file_sink_keeps_newest].  Transactions of the log: what has been
    committed stays recoverable whichever call fails ([commits_durable]) and through a crash
    and a recovery ([crash_keeps_commits]), and a checkpoint neither changes what a reader
    sees ([checkpoint_keeps_content]) nor leaves frames behind without need
    ([checkpoint_completes]).  A reader begins at the newest commit ([read_begins]) and
    goes on to see it whatever the others do ([snapshot_isolation]).  The states of these
    theorems are the same: a commit ends in a
    [log_state], a failure in a [log_broken] state from which the rollback leads to a
    [log_state], and so does recovery.  Equivalence with a reference definition: the
    varint reader, keywords, completeness, LIKE and GLOB, cell sizes.  Round trips: varints,
    packets, quoting, UTF.  Invariants of concurrent systems: the queue, the pool, event
    handlers, the logger.  Safety and bounds: packets, locks, arithmetic.  Errors: corrupt
    pages and dangling connections.  A theorem with hypotheses is followed by a witness, its
    use at a concrete input.

    Lemmas that are not among these show where the code does not do what it means to, for
    instance [stop_loses_wakeup], [pool_submit_race], [handler_two_starts],
    [logger_dead_after_uninit], [recover_header_overflow] and
    [savepoint_undo_loses_commit].

    ** Not modelled

    Of sqlite3.c: the pager, cursors and balancing (of btree.c only the inside of one page
    is here), the virtual machine, the code generator, the query planner, the operating
    system layer (but for the lock table) and the shell API.  Of the write-ahead log:
    the sqlite3_snapshot interface, read-only shared memory without a writer (a parameter of
    WalRead), the interleaving of two connections within one operation (between operations
    they meet in the shared memory, the locks and the files: [sys_step]), so also a
    checkpoint whose header is out of date because a writer has restarted the log since it
    was read, a recovery, or a writer that restarts the log, while somebody reads, and the loss of unsynced writes in a power
    failure: a crash keeps what has been written.  Calls from modelled code into the rest
    are parameters: the result of [sqlite3PagerWrite], the scratch page of the pager,
    allocation, randomness, the LALR parser.  Of libenigma: the Win32 layer, and thin wrappers of the standard
    library (clock, singleton, macros).  fmt, which makes the lines of a log, nlohmann json,
    Boost.Beast and googletest are third-party code. *)

From Stdlib Require Export ZArith Lia List Bool Btauto.
From stdpp Require Export base tactics numbers list option gmap strings relations.
Export ListNotations.
#[global] Open Scope Z_scope.

(** ** Notations of C expressions *)

Declare Scope c_scope.
Delimit Scope c_scope with c.
Notation "a '.&' b" := (Z.land a b) (at level 40, left associativity) : c_scope.
Notation "a '.^' b" := (Z.lxor a b) (at level 45, left associativity) : c_scope.
Notation "a '.|' b" := (Z.lor a b) (at level 46, left associativity) : c_scope.
Notation "a '<<' b" := (Z.shiftl a b) (at level 37, left associativity) : c_scope.
Notation "a '>>' b" := (Z.shiftr a b) (at level 37, left associativity) : c_scope.
#[global] Open Scope c_scope.

(** ** Machine integers

    A C integer of width [w] is a [Z] in range; every operation of the code
    that can wrap is followed by the conversion to its type. *)

Definition u8 (x : Z) : Z := x mod 2 ^ 8.
Definition u16 (x : Z) : Z := x mod 2 ^ 16.
Definition u32 (x : Z) : Z := x mod 2 ^ 32.
Definition u64 (x : Z) : Z := x mod 2 ^ 64.
Definition swrap (w x : Z) : Z := (x + 2 ^ (w - 1)) mod 2 ^ w - 2 ^ (w - 1).
Definition i8 (x : Z) : Z := swrap 8 x.
Definition i16 (x : Z) : Z := swrap 16 x.
Definition i32 (x : Z) : Z := swrap 32 x.
Definition i64 (x : Z) : Z := swrap 64 x.

Definition SMALLEST_INT64 : Z := - 2 ^ 63.
Definition LARGEST_INT64 : Z := 2 ^ 63 - 1.

(** In-range predicates; the proofs unfold them for [lia]. *)
Definition in_u (w x : Z) : Prop := 0 <= x < 2 ^ w.
Definition in_i (w x : Z) : Prop := - 2 ^ (w - 1) <= x < 2 ^ (w - 1).
Definition is_byte (b : Z) : Prop := 0 <= b < 256.
Abbreviation bytes := (list Z).
Abbreviation bytes_ok l := (Forall is_byte l).

(** The length of a list as an integer. *)
Abbreviation len l := (Z.of_nat (length l)).

(** [b2i]: the [int] value of a C comparison. *)
Definition b2i (b : bool) : Z := if b then 1 else 0.

Create HintDb cint discriminated.
Create HintDb bits.

#[export] Hint Unfold in_u in_i is_byte : cint.

Lemma u8_range x : 0 <= u8 x < 256.
Proof. apply (Z.mod_pos_bound x (2 ^ 8)). lia. Qed.

Lemma u16_range x : 0 <= u16 x < 65536.
Proof. apply (Z.mod_pos_bound x (2 ^ 16)). lia. Qed.

Lemma u32_range x : 0 <= u32 x < 2 ^ 32.
Proof. apply (Z.mod_pos_bound x (2 ^ 32)). lia. Qed.

Lemma u64_range x : 0 <= u64 x < 2 ^ 64.
Proof. apply (Z.mod_pos_bound x (2 ^ 64)). lia. Qed.

#[export] Hint Resolve u8_range u16_range u32_range u64_range : cint.

Lemma u8_id x : 0 <= x < 256 -> u8 x = x.
Proof. intros. apply Z.mod_small. lia. Qed.

Lemma u32_id x : 0 <= x < 2 ^ 32 -> u32 x = x.
Proof. intros. apply Z.mod_small. lia. Qed.

Lemma u64_id x : 0 <= x < 2 ^ 64 -> u64 x = x.
Proof. intros. apply Z.mod_small. lia. Qed.

Lemma swrap_id w x : 0 < w -> in_i w x -> swrap w x = x.
Proof.
  unfold swrap, in_i. intros Hw Hx.
  assert (2 ^ w = 2 * 2 ^ (w - 1)) by (rewrite <- Z.pow_succ_r by lia; f_equal; lia).
  rewrite Z.mod_small by lia. lia.
Qed.

Lemma swrap_range w x : 0 < w -> in_i w (swrap w x).
Proof.
  unfold swrap, in_i. intros Hw.
  assert (2 ^ w = 2 * 2 ^ (w - 1)) by (rewrite <- Z.pow_succ_r by lia; f_equal; lia).
  assert (0 < 2 ^ w) by (apply Z.pow_pos_nonneg; lia).
  pose proof (Z.mod_pos_bound (x + 2 ^ (w - 1)) (2 ^ w)). lia.
Qed.

(** ** Bit-level reasoning *)

Lemma testbit_mod_pow2 x n i :
  0 <= i -> 0 <= n -> Z.testbit (x mod 2 ^ n) i = ((i <? n) && Z.testbit x i)%bool.
Proof.
  intros Hi Hn. destruct (Z.ltb_spec i n); simpl.
  - by apply Z.mod_pow2_bits_low.
  - apply Z.mod_pow2_bits_high. lia.
Qed.

Lemma testbit_high x n i : 0 <= x < 2 ^ n -> n <= i -> Z.testbit x i = false.
Proof.
  intros Hx Hi. assert (0 <= n) by (destruct (Z.neg_nonneg_cases n); [rewrite Z.pow_neg_r in Hx|]; lia).
  rewrite <- (Z.mod_small x (2 ^ n)) by lia. apply Z.mod_pow2_bits_high. lia.
Qed.

Lemma bits_ext n x y :
  0 <= x < 2 ^ n -> 0 <= y < 2 ^ n ->
  (forall i, 0 <= i < n -> Z.testbit x i = Z.testbit y i) -> x = y.
Proof.
  intros Hx Hy H. apply Z.bits_inj'. intros i Hi.
  destruct (Z.lt_ge_cases i n); [by apply H|].
  by rewrite !(testbit_high _ n).
Qed.

Lemma lor_bound x y n : 0 <= x < 2 ^ n -> 0 <= y < 2 ^ n -> 0 <= x .| y < 2 ^ n.
Proof.
  intros Hx Hy. assert (0 <= n) by (destruct (Z.neg_nonneg_cases n); [rewrite Z.pow_neg_r in Hx|]; lia).
  assert (E : x .| y = (x .| y) mod 2 ^ n).
  { apply Z.bits_inj'. intros i Hi. rewrite testbit_mod_pow2 by lia.
    destruct (Z.ltb_spec i n); [done|].
    rewrite Z.lor_spec, !(testbit_high _ n) by lia. done. }
  rewrite E. apply Z.mod_pos_bound. lia.
Qed.

Lemma land_bound x y n : 0 <= x < 2 ^ n -> 0 <= x .& y < 2 ^ n.
Proof.
  intros Hx. assert (0 <= n) by (destruct (Z.neg_nonneg_cases n); [rewrite Z.pow_neg_r in Hx|]; lia).
  assert (E : x .& y = (x .& y) mod 2 ^ n).
  { apply Z.bits_inj'. intros i Hi. rewrite testbit_mod_pow2 by lia.
    destruct (Z.ltb_spec i n); [done|].
    by rewrite Z.land_spec, (testbit_high x n). }
  rewrite E. apply Z.mod_pos_bound. lia.
Qed.

Lemma land_nonneg_l x y : 0 <= x -> 0 <= x .& y.
Proof. intros. apply Z.land_nonneg. auto. Qed.

Lemma land_ones_mod x k : 0 <= k -> x .& (2 ^ k - 1) = x mod 2 ^ k.
Proof. intros. rewrite <- Z.land_ones by lia. f_equal. rewrite Z.ones_equiv. lia. Qed.

Lemma land_field x k m : 0 <= k -> 0 <= m -> x .& ((2 ^ m - 1) << k) = (x / 2 ^ k mod 2 ^ m) * 2 ^ k.
Proof.
  intros Hk Hm. rewrite <- Z.shiftl_mul_pow2, <- Z.shiftr_div_pow2, <- land_ones_mod by done.
  apply Z.bits_inj'. intros i Hi. rewrite Z.land_spec, !Z.shiftl_spec by done.
  destruct (Z.lt_ge_cases i k).
  - rewrite !(Z.testbit_neg_r _ (i - k)) by lia. apply andb_false_r.
  - rewrite Z.land_spec, Z.shiftr_spec by lia. by replace (i - k + k) with i by lia.
Qed.

Lemma testbit_byte b i : is_byte b -> 8 <= i -> Z.testbit b i = false.
Proof. intros Hb Hi. apply (testbit_high _ 8); [exact Hb|lia]. Qed.

Lemma testbit_shl a n i : 0 <= i -> Z.testbit (a << n) i = Z.testbit a (i - n).
Proof. apply Z.shiftl_spec. Qed.

Lemma testbit_shr a n i : 0 <= i -> Z.testbit (a >> n) i = Z.testbit a (i + n).
Proof. apply Z.shiftr_spec. Qed.

(** [bit_simpl]: push [Z.testbit] at a literal index through the C operators,
    down to bits of variables; bits of a byte above 7 are [false]. *)
Ltac is_zlit i :=
  match i with Z0 => idtac | Zpos _ => idtac | Zneg _ => idtac end.

Ltac bit_step :=
  match goal with
  | |- context [Z.testbit (Z.lor ?a ?b) ?i] => rewrite (Z.lor_spec a b i)
  | |- context [Z.testbit (Z.land ?a ?b) ?i] => rewrite (Z.land_spec a b i)
  | |- context [Z.testbit (Z.lxor ?a ?b) ?i] => rewrite (Z.lxor_spec a b i)
  | |- context [Z.testbit (Z.shiftl ?a ?n) ?i] =>
      is_zlit i; rewrite (testbit_shl a n i) by lia;
      let r := eval vm_compute in (i - n) in change (i - n) with r
  | |- context [Z.testbit (Z.shiftr ?a ?n) ?i] =>
      is_zlit i; rewrite (testbit_shr a n i) by lia;
      let r := eval vm_compute in (i + n) in change (i + n) with r
  | |- context [Z.testbit (?x mod 2 ^ ?n) ?i] =>
      is_zlit i; rewrite (testbit_mod_pow2 x n i) by lia;
      let r := eval vm_compute in (i <? n) in change (i <? n) with r
  | |- context [Z.testbit ?a (Zneg ?p)] => rewrite (Z.testbit_neg_r a (Zneg p)) by lia
  | |- context [Z.testbit ?c ?i] =>
      is_zlit c; is_zlit i;
      let r := eval vm_compute in (Z.testbit c i) in change (Z.testbit c i) with r
  | H : Z.testbit ?b ?i = _ |- context [Z.testbit ?b ?i] => rewrite H
  | H : is_byte ?b |- context [Z.testbit ?b ?i] =>
      is_zlit i; rewrite (testbit_byte b i H) by lia
  end.

Ltac bit_simpl :=
  unfold u8, u16, u32, u64;
  repeat (bit_step; cbn [andb orb xorb negb]);
  rewrite ?andb_false_r, ?andb_true_r, ?orb_false_r, ?orb_false_l.

(** Reduce a statement about all indices below a literal bound to one goal per
    index. *)
Lemma forall_below (n : nat) (P : Z -> Prop) :
  Forall P (seqZ 0 (Z.of_nat n)) -> forall i, 0 <= i < Z.of_nat n -> P i.
Proof. rewrite Forall_forall. intros H i Hi. apply H, elem_of_seqZ. lia. Qed.

Ltac each_bit n :=
  let i := fresh "i" in let H := fresh "H" in
  intros i H; pattern i; revert i H; apply (forall_below n);
  cbv [seqZ seq fmap list_fmap Z.of_nat Pos.of_succ_nat Pos.succ Z.to_nat Pos.to_nat Pos.iter_op Init.Nat.add Z.add Z.pos_sub Pos.add Pos.add_carry];
  cbv beta; repeat apply Forall_cons_2; try apply Forall_nil_2; cbv beta.

(** [a << k .| b] for a low part [b] that fits below bit [k]. *)
Lemma shl_lor_add a b k : 0 <= k -> 0 <= b < 2 ^ k -> (a << k) .| b = a * 2 ^ k + b.
Proof.
  intros Hk Hb. rewrite <- Z.shiftl_mul_pow2 by lia.
  rewrite Z.add_nocarry_lxor; apply Z.bits_inj'; intros i Hi.
  - rewrite Z.lor_spec, Z.lxor_spec, Z.shiftl_spec by lia.
    destruct (Z.lt_ge_cases i k).
    + rewrite (Z.testbit_neg_r a) by lia. by destruct (Z.testbit b i).
    + rewrite (testbit_high b k) by lia. by destruct (Z.testbit a (i - k)).
  - rewrite Z.land_spec, Z.shiftl_spec, Z.bits_0 by lia.
    destruct (Z.lt_ge_cases i k).
    + by rewrite (Z.testbit_neg_r a) by lia.
    + by rewrite (testbit_high b k), andb_false_r by lia.
Qed.

(** Equality of two terms of at most 64 bits, bit by bit: literal indices below
    64, and no bit set from 64 on. *)
Ltac bit_high_step :=
  match goal with
  | |- context [Z.testbit (Z.lor ?a ?b) ?i] => rewrite (Z.lor_spec a b i)
  | |- context [Z.testbit (Z.land ?a ?b) ?i] => rewrite (Z.land_spec a b i)
  | |- context [Z.testbit (Z.shiftl ?a ?n) ?i] => rewrite (testbit_shl a n i) by lia
  | |- context [Z.testbit (Z.shiftr ?a ?n) ?i] => rewrite (testbit_shr a n i) by lia
  | |- context [Z.testbit (?x mod 2 ^ ?n) ?i] => rewrite (Z.mod_pow2_bits_high x n i) by lia
  | |- context [Z.testbit 0 ?i] => rewrite (Z.testbit_0_l i)
  | |- context [Z.testbit ?c ?i] =>
      is_zlit c; let n := eval vm_compute in (Z.log2 c + 1) in
      rewrite (testbit_high c n i) by lia
  | H : is_byte ?b |- context [Z.testbit ?b ?i] => rewrite (testbit_byte b i H) by lia
  end.

Ltac bit_high :=
  unfold u8, u16, u32, u64; repeat (bit_high_step; cbn [andb orb xorb negb]);
  rewrite ?andb_false_r; reflexivity.

Lemma bits_ext_64 x y :
  (forall i, 0 <= i < 64 -> Z.testbit x i = Z.testbit y i) ->
  (forall i, 64 <= i -> Z.testbit x i = Z.testbit y i) -> x = y.
Proof.
  intros Hl Hh. apply Z.bits_inj'. intros i Hi.
  destruct (Z.lt_ge_cases i 64); auto.
Qed.

Ltac bits_eq :=
  apply bits_ext_64;
  [each_bit 64%nat; bit_simpl; first [reflexivity|btauto]|intros ? ?; bit_high].

(** ** Outcomes of C++ code

    [Done a] is a normal return, [Throw s] an exception, [UB] an access the
    language leaves undefined (a store or load outside its object, a call on an
    empty container, ...). *)
Inductive outcome (A : Type) : Type :=
| Done (a : A)
| Throw (what : string)
| UB.
Arguments Done {A} a.
Arguments Throw {A} what.
Arguments UB {A}.

#[export] Instance outcome_ret : MRet outcome := @Done.
#[export] Instance outcome_bind : MBind outcome := fun A B f m =>
  match m with Done a => f a | Throw s => Throw s | UB => UB end.

Definition is_UB {A} (m : outcome A) : bool := if m is UB then true else false.

(** ** Blocks of memory: list updates by range *)

(** Overwrite [length src] cells of [l] from index [i] on; [None] when a cell is
    outside [l]. *)
Definition blk_write {A} (l : list A) (i : Z) (src : list A) : option (list A) :=
  if (0 <=? i) && (i + Z.of_nat (length src) <=? Z.of_nat (length l)) then
    Some (take (Z.to_nat i) l ++ src ++ drop (Z.to_nat i + length src) l)
  else None.

Definition blk_read {A} (l : list A) (i n : Z) : option (list A) :=
  if (0 <=? i) && (0 <=? n) && (i + n <=? Z.of_nat (length l)) then
    Some (take (Z.to_nat n) (drop (Z.to_nat i) l))
  else None.

Lemma blk_write_Some {A} (l : list A) i src :
  0 <= i -> i + Z.of_nat (length src) <= Z.of_nat (length l) ->
  blk_write l i src = Some (take (Z.to_nat i) l ++ src ++ drop (Z.to_nat i + length src) l).
Proof.
  intros H1 H2. unfold blk_write.
  by rewrite (proj2 (Z.leb_le _ _) H1), (proj2 (Z.leb_le _ _) H2).
Qed.

Lemma blk_read_Some {A} (l : list A) i n :
  0 <= i -> 0 <= n -> i + n <= Z.of_nat (length l) ->
  blk_read l i n = Some (take (Z.to_nat n) (drop (Z.to_nat i) l)).
Proof.
  intros H1 H2 H3. unfold blk_read.
  by rewrite (proj2 (Z.leb_le _ _) H1), (proj2 (Z.leb_le _ _) H2), (proj2 (Z.leb_le _ _) H3).
Qed.

Lemma blk_write_length {A} (l l' : list A) i src :
  blk_write l i src = Some l' -> length l' = length l.
Proof.
  unfold blk_write. destruct (_ && _) eqn:E; [|done]. intros [= <-].
  apply andb_true_iff in E as [?%Z.leb_le ?%Z.leb_le].
  rewrite !length_app, length_take, length_drop. lia.
Qed.

(** The cells before the written range are kept, and the range reads back. *)
Lemma take_blk_write {A} (l l' : list A) i src :
  blk_write l i src = Some l' ->
  take (Z.to_nat i + length src) l' = take (Z.to_nat i) l ++ src.
Proof.
  unfold blk_write. destruct (_ && _) eqn:E; [|done]. intros [= <-].
  apply andb_true_iff in E as [?%Z.leb_le ?%Z.leb_le].
  rewrite app_assoc. apply take_app_length'. rewrite length_app, length_take. lia.
Qed.

Lemma blk_write_ok {A} (l : list A) i src :
  0 <= i -> i + Z.of_nat (length src) <= Z.of_nat (length l) ->
  exists l', blk_write l i src = Some l' /\ length l' = length l /\
    take (Z.to_nat i + length src) l' = take (Z.to_nat i) l ++ src.
Proof.
  intros H1 H2. eexists. pose proof (blk_write_Some l i src H1 H2) as W.
  split; [exact W|]. eauto using blk_write_length, take_blk_write.
Qed.

(** ** Invariants of transition systems *)

Lemma rtc_invariant {A} (R : relation A) (I : A -> Prop) x y :
  (forall a b, I a -> R a b -> I b) -> rtc R x y -> I x -> I y.
Proof. intros Hstep. induction 1; eauto. Qed.

(** Counting elements of a list in which one is replaced. *)
Lemma count_insert {A} (P : A -> Prop) `{forall x, Decision (P x)} (l : list A) i x y : l !! i = Some x ->
  Z.of_nat (length (filter P (<[i := y]> l))) = Z.of_nat (length (filter P l)) + (if decide (P y) then 1 else 0) - (if decide (P x) then 1 else 0).
Proof.
  intros Hi. rewrite <- (take_drop_middle l i x Hi) at 2. rewrite insert_take_drop by by eapply lookup_lt_Some.
  rewrite !filter_app, !filter_cons, !length_app. repeat case_decide; cbn [length]; lia.
Qed.

Lemma sublist_same_length {A} (l k : list A) : sublist l k -> (length k <= length l)%nat -> l = k.
Proof.
  induction 1 as [|x l k H IH|x l k H IH]; simpl; intros Hl; [done|f_equal; apply IH; lia|].
  apply sublist_length in H. lia.
Qed.

(** ** Updating one cell of a list *)

Lemma list_update_split {A} (l : list A) i x y :
  l !! i = Some x ->
  exists l1 l2, l = l1 ++ x :: l2 /\ <[i := y]> l = l1 ++ y :: l2 /\ length l1 = i.
Proof.
  intros H. exists (take i l), (drop (S i) l).
  assert (i < length l)%nat by (by eapply lookup_lt_Some).
  split_and!; [by rewrite take_drop_middle|by apply insert_take_drop|rewrite length_take; lia].
Qed.

(** What the elements of a list have together, when one of them changes. *)
Lemma bind_insert_perm {A B} (f : A -> list B) (l : list A) i x y :
  l !! i = Some x -> (<[i := y]> l ≫= f) ++ f x ≡ₚ (l ≫= f) ++ f y.
Proof.
  intros Hi. destruct (list_update_split _ _ _ y Hi) as (l1 & l2 & E1 & E2 & _).
  rewrite E2, E1, !bind_app, !bind_cons. solve_Permutation.
Qed.

Lemma bind_insert_same {A B} (f : A -> list B) (l : list A) i x y :
  l !! i = Some x -> f y = f x -> <[i := y]> l ≫= f = l ≫= f.
Proof.
  intros Hi Hf. destruct (list_update_split _ _ _ y Hi) as (l1 & l2 & E1 & E2 & _).
  by rewrite E2, E1, !bind_app, !bind_cons, Hf.
Qed.

Lemma bind_nil_all {A B} (f : A -> list B) (l : list A) : (forall i x, l !! i = Some x -> f x = []) -> l ≫= f = [].
Proof.
  induction l as [|x l IH]; intros Hf; [done|]. rewrite bind_cons, (Hf 0%nat x eq_refl). apply IH. intros i. apply (Hf (S i)).
Qed.

Lemma bind_single {A B} (f : A -> list B) (l : list A) i x :
  l !! i = Some x -> (forall j y, l !! j = Some y -> j <> i -> f y = []) -> l ≫= f = f x.
Proof.
  intros Hi Hf. rewrite <- (take_drop_middle _ _ _ Hi), bind_app, bind_cons. pose proof (lookup_lt_Some _ _ _ Hi).
  rewrite !bind_nil_all, app_nil_r; [done|..]; intros j y Hj.
  - rewrite lookup_drop in Hj. apply (Hf _ _ Hj). lia.
  - apply lookup_take_Some in Hj as [Hj ?]. apply (Hf _ _ Hj). lia.
Qed.

Lemma u64_add a b : u64 (u64 a + b) = u64 (a + b).
Proof. apply Z.add_mod_idemp_l. lia. Qed.

Lemma u64_sub a b : u64 (u64 a - b) = u64 (a - b).
Proof. apply Zminus_mod_idemp_l. Qed.
