(* ===== verification/Varint.v ===== *)
(** * Varint: variable-length and big-endian integers (util.c)

    [sqlite3PutVarint], [sqlite3GetVarint], [sqlite3GetVarint32],
    [sqlite3VarintLen] and the 2- and 4-byte big-endian accessors.  A buffer is
    the list of its bytes; a write returns the bytes stored from [p[0]] on, a read
    returns [None] when it would leave the buffer. *)

From S2P Require Import Prelude.

(** ** Writing *)

(** The [do ... while (v != 0)] loop over [buf[10]]; [fuel] is the room left in
    [buf], [None] an overflow of it. *)
Fixpoint putVarint64_loop (fuel : nat) (buf : bytes) (v : Z) : option bytes :=
  match fuel with
  | O => None
  | S fuel =>
      let buf := buf ++ [u8 ((v .& 0x7f) .| 0x80)] in
      let v := v >> 7 in
      if v =? 0 then Some buf else putVarint64_loop fuel buf v
  end.

(** The [for(i=7; i>=0; i--)] loop of the 9-byte case: the bytes [p[0..n-1]]. *)
Fixpoint putVarint64_high (n : nat) (v : Z) : bytes :=
  match n with
  | O => []
  | S n => putVarint64_high n (v >> 7) ++ [u8 ((v .& 0x7f) .| 0x80)]
  end.

Definition putVarint64 (v : Z) : option bytes :=
  if negb (v .& (0xff000000 << 32) =? 0) then
    Some (putVarint64_high 8 (v >> 8) ++ [u8 v])
  else
    buf ← putVarint64_loop 10 [] v;
    match buf with
    | b0 :: rest => Some (rev ((b0 .& 0x7f) :: rest))
    | [] => None
    end.

Definition sqlite3PutVarint (v : Z) : option bytes :=
  if v <=? 0x7f then Some [v .& 0x7f]
  else if v <=? 0x3fff then Some [((v >> 7) .& 0x7f) .| 0x80; v .& 0x7f]
  else putVarint64 v.

Definition putVarint32 (v : Z) : option bytes :=
  if u32 v <? 0x80 then Some [u8 v] else sqlite3PutVarint v.

Fixpoint sqlite3VarintLen_loop (fuel : nat) (v i : Z) : option Z :=
  match fuel with
  | O => None
  | S fuel =>
      let v := v >> 7 in
      if v =? 0 then Some i else sqlite3VarintLen_loop fuel v (i + 1)
  end.

(** The [assert( i<10 )] of the loop is the fuel. *)
Definition sqlite3VarintLen (v : Z) : option Z := sqlite3VarintLen_loop 10 v 1.

(** ** Reading *)

Definition SLOT_2_0 : Z := 0x001fc07f.
Definition SLOT_4_2_0 : Z := 0xf01fc07f.

(** The unrolled reader.  The result is the value and the number of bytes read;
    [u32] follows every shift of a [u32] variable that can lose bits. *)
Definition sqlite3GetVarint (p : bytes) : option (Z * Z) :=
  p0 ← p !! 0%nat;
  if p0 <? 0x80 then Some (p0, 1) else
  p1 ← p !! 1%nat;
  if p1 <? 0x80 then Some (((p0 .& 0x7f) << 7) .| p1, 2) else
  let a := p0 << 14 in
  let b := p1 in
  p2 ← p !! 2%nat;
  let a := a .| p2 in
  if a .& 0x80 =? 0 then
    let a := a .& SLOT_2_0 in
    let b := b .& 0x7f in
    let b := b << 7 in
    Some (a .| b, 3)
  else
  let a := a .& SLOT_2_0 in
  let b := b << 14 in
  p3 ← p !! 3%nat;
  let b := b .| p3 in
  if b .& 0x80 =? 0 then
    let b := b .& SLOT_2_0 in
    let a := a << 7 in
    Some (a .| b, 4)
  else
  let b := b .& SLOT_2_0 in
  let s := a in
  let a := u32 (a << 14) in
  p4 ← p !! 4%nat;
  let a := a .| p4 in
  if a .& 0x80 =? 0 then
    let b := b << 7 in
    let a := a .| b in
    let s := s >> 18 in
    Some ((s << 32) .| a, 5)
  else
  let s := s << 7 in
  let s := s .| b in
  let b := u32 (b << 14) in
  p5 ← p !! 5%nat;
  let b := b .| p5 in
  if b .& 0x80 =? 0 then
    let a := a .& SLOT_2_0 in
    let a := a << 7 in
    let a := a .| b in
    let s := s >> 18 in
    Some ((s << 32) .| a, 6)
  else
  let a := u32 (a << 14) in
  p6 ← p !! 6%nat;
  let a := a .| p6 in
  if a .& 0x80 =? 0 then
    let a := a .& SLOT_4_2_0 in
    let b := b .& SLOT_2_0 in
    let b := b << 7 in
    let a := a .| b in
    let s := s >> 11 in
    Some ((s << 32) .| a, 7)
  else
  let a := a .& SLOT_2_0 in
  let b := u32 (b << 14) in
  p7 ← p !! 7%nat;
  let b := b .| p7 in
  if b .& 0x80 =? 0 then
    let b := b .& SLOT_4_2_0 in
    let a := a << 7 in
    let a := a .| b in
    let s := s >> 4 in
    Some ((s << 32) .| a, 8)
  else
  let a := u32 (a << 15) in
  p8 ← p !! 8%nat;
  let a := a .| p8 in
  let b := b .& SLOT_2_0 in
  let b := b << 8 in
  let a := a .| b in
  let s := u32 (s << 4) in
  let b := p4 in
  let b := b .& 0x7f in
  let b := b >> 3 in
  let s := s .| b in
  Some ((s << 32) .| a, 9).

(** [p] points at a varint of at least two bytes: the macro [getVarint32] has
    dealt with the one-byte case. *)
Definition sqlite3GetVarint32 (p : bytes) : option (Z * Z) :=
  a ← p !! 0%nat;
  b ← p !! 1%nat;
  if b .& 0x80 =? 0 then
    let a := a .& 0x7f in
    let a := a << 7 in
    Some (a .| b, 2)
  else
  let a := a << 14 in
  p2 ← p !! 2%nat;
  let a := a .| p2 in
  if a .& 0x80 =? 0 then
    let a := a .& ((0x7f << 14) .| 0x7f) in
    let b := b .& 0x7f in
    let b := b << 7 in
    Some (a .| b, 3)
  else
    '(v64, n) ← sqlite3GetVarint p;
    if negb (v64 .& 0xffffffff =? v64) then Some (0xffffffff, n)
    else Some (u32 v64, n).

Definition getVarint32 (p : bytes) : option (Z * Z) :=
  p0 ← p !! 0%nat;
  if p0 <? 0x80 then Some (p0, 1) else sqlite3GetVarint32 p.

(** ** Four-byte integers *)

Definition sqlite3Get4byte (p : bytes) : option Z :=
  p0 ← p !! 0%nat; p1 ← p !! 1%nat; p2 ← p !! 2%nat; p3 ← p !! 3%nat;
  Some ((p0 << 24) .| (p1 << 16) .| (p2 << 8) .| p3).

Definition sqlite3Put4byte (v : Z) : bytes :=
  [u8 (v >> 24); u8 (v >> 16); u8 (v >> 8); u8 v].

(** ** The encoding the comments of util.c describe

    Seven bits per byte, most significant group first, the high bit set on every
    byte but the last; a ninth byte carries eight bits. *)
Fixpoint varint_ref (n : nat) (acc : Z) (p : bytes) : option (Z * Z) :=
  match n, p with
  | _, [] => None
  | O, b :: _ => Some (acc * 256 + b, 1)
  | S n, b :: p =>
      if b <? 128 then Some (acc * 128 + b, 1)
      else '(v, k) ← varint_ref n (acc * 128 + (b - 128)) p; Some (v, k + 1)
  end.

Definition varint_spec (p : bytes) : option (Z * Z) := varint_ref 8 0 p.

(** * The reader *)

Lemma byte_lt128 b : is_byte b -> (b <? 128) = negb (Z.testbit b 7).
Proof.
  intros Hb. rewrite Z.testbit_eqb by lia. unfold is_byte in Hb.
  change (2 ^ 7) with 128.
  destruct (Z.ltb_spec b 128).
  - by rewrite Z.div_small by lia.
  - replace (b / 128) with 1; [done|]. apply (Z.div_unique _ _ _ (b - 128)); lia.
Qed.

Lemma land_80 a : (a .& 0x80 =? 0) = negb (Z.testbit a 7).
Proof.
  change 0x80 with (2 ^ 7). destruct (Z.testbit a 7) eqn:E; simpl.
  - apply Z.eqb_neq. intros H. apply (f_equal (fun z => Z.testbit z 7)) in H.
    rewrite Z.land_spec, E in H. done.
  - apply Z.eqb_eq, Z.bits_inj'. intros i Hi.
    rewrite Z.land_spec, Z.bits_0, Z.pow2_bits_eqb by lia.
    destruct (Z.eqb_spec 7 i); [subst; by rewrite E|apply andb_false_r].
Qed.

Lemma vstep_more acc b : is_byte b -> Z.testbit b 7 = true ->
  acc * 128 + (b - 128) = (acc << 7) .| (b .& 0x7f).
Proof.
  intros Hb H7. pose proof (byte_lt128 b Hb) as H. rewrite H7 in H. simpl in H.
  apply Z.ltb_ge in H. unfold is_byte in Hb.
  assert (E : b .& 0x7f = b - 128).
  { change 0x7f with (2 ^ 7 - 1). rewrite land_ones_mod by lia.
    symmetry. apply (Z.mod_unique _ _ 1); lia. }
  rewrite E, shl_lor_add by lia. done.
Qed.

Lemma vstep_last acc b : is_byte b -> Z.testbit b 7 = false ->
  acc * 128 + b = (acc << 7) .| b.
Proof.
  intros Hb H7. pose proof (byte_lt128 b Hb) as H. rewrite H7 in H. simpl in H.
  apply Z.ltb_lt in H. unfold is_byte in Hb. rewrite shl_lor_add by lia. done.
Qed.

Lemma vstep_ninth acc b : is_byte b -> acc * 256 + b = (acc << 8) .| b.
Proof. intros Hb. unfold is_byte in Hb. rewrite shl_lor_add by lia. done. Qed.

(** Reduce one byte of [p]: the buffer ends, or the byte is the last one (bit 7
    clear) or is followed by another. *)
Ltac next_byte p :=
  let b := fresh "b" in let E := fresh "E" in
  destruct p as [|b p]; [reflexivity|];
  match goal with
  | H : Forall is_byte (b :: p) |- _ => apply Forall_cons in H; destruct H as [? H]
  end;
  cbn [varint_ref lookup list_lookup mbind option_bind];
  rewrite ?land_80, ?(byte_lt128 b) by done;
  repeat match goal with
  | |- context [Z.testbit (Z.lor ?x ?y) 7] =>
      let H := fresh in
      assert (Z.testbit (Z.lor x y) 7 = Z.testbit y 7) as H
        by (unfold SLOT_2_0, SLOT_4_2_0; bit_simpl; reflexivity);
      rewrite !H; clear H
  end;
  destruct (Z.testbit b 7) eqn:E; cbn [negb].

Ltac last_byte :=
  rewrite !vstep_more by done; rewrite ?vstep_last, ?vstep_ninth by done;
  cbn [mbind option_bind]; unfold SLOT_2_0, SLOT_4_2_0;
  match goal with
  | |- Some (?x, _) = Some (?y, _) => enough (x = y) as ->; [reflexivity|bits_eq]
  end.

Lemma getVarint_spec p : bytes_ok p -> sqlite3GetVarint p = varint_spec p.
Proof.
  intros H. unfold sqlite3GetVarint, varint_spec. change 0x80 with 128.
  next_byte p; [|reflexivity].
  do 7 (next_byte p; [|last_byte]).
  destruct p as [|b7 p]; [reflexivity|]. apply Forall_cons in H as [? H].
  cbn [varint_ref lookup list_lookup]. last_byte.
Qed.
(** * The writer *)

(** The [k] low base-128 digits of [v], most significant first. *)
Fixpoint be128 (k : nat) (v : Z) : bytes :=
  match k with
  | O => []
  | S k => be128 k (v / 128) ++ [v mod 128]
  end.

Lemma length_be128 k v : length (be128 k v) = k.
Proof. revert v; induction k; intros v; simpl; [done|]. rewrite length_app, IHk. simpl. lia. Qed.

Lemma group_byte v : u8 ((v .& 0x7f) .| 0x80) = 128 + v mod 128.
Proof.
  change 0x7f with (2 ^ 7 - 1). rewrite land_ones_mod by lia. change (2 ^ 7) with 128.
  pose proof (Z.mod_pos_bound v 128 ltac:(lia)). rewrite Z.lor_comm.
  pose proof (shl_lor_add 1 (v mod 128) 7 ltac:(lia) ltac:(lia)) as L.
  change (1 << 7) with 128 in L. rewrite L. rewrite u8_id by lia. lia.
Qed.

Lemma shr7 v : v >> 7 = v / 128.
Proof. by rewrite Z.shiftr_div_pow2 by lia. Qed.

Lemma putVarint64_high_digits n v : putVarint64_high n v = map (Z.add 128) (be128 n v).
Proof.
  revert v; induction n as [|n IH]; intros v; [done|]. cbn [putVarint64_high be128].
  by rewrite map_app, IH, shr7, group_byte.
Qed.

Lemma be128_rev_S k v : rev (be128 (S k) v) = v mod 128 :: rev (be128 k (v / 128)).
Proof. cbn [be128]. by rewrite rev_app_distr. Qed.

Lemma putVarint64_loop_digits fuel buf v k :
  0 <= v < 128 ^ Z.of_nat (S k) -> (v = 0 \/ 128 ^ Z.of_nat k <= v) -> (v = 0 -> k = 0%nat) ->
  (k < fuel)%nat ->
  putVarint64_loop fuel buf v = Some (buf ++ map (Z.add 128) (rev (be128 (S k) v))).
Proof.
  revert buf v k; induction fuel as [|fuel IH]; intros buf v k Hv Hlo H0 Hk; [lia|].
  cbn [putVarint64_loop]. rewrite group_byte, shr7, be128_rev_S.
  rewrite Nat2Z.inj_succ, Z.pow_succ_r in Hv by lia.
  assert (0 <= v / 128 < 128 ^ Z.of_nat k) by (split; [apply Z.div_pos; lia|apply Z.div_lt_upper_bound; lia]).
  destruct k as [|k].
  - replace (v / 128) with 0 by lia. simpl. done.
  - rewrite Nat2Z.inj_succ, Z.pow_succ_r in Hlo by lia.
    assert (128 ^ Z.of_nat k <= v / 128) by (apply Z.div_le_lower_bound; lia).
    assert (0 < 128 ^ Z.of_nat k) by (apply Z.pow_pos_nonneg; lia).
    destruct (Z.eqb_spec (v / 128) 0); [lia|].
    rewrite (IH _ _ k); [|lia..]. by rewrite <- app_assoc.
Qed.

(** The number of 7-bit groups. *)
Lemma digits_exist v n :
  0 <= v < 128 ^ Z.of_nat (S n) ->
  exists k, (k <= n)%nat /\ v < 128 ^ Z.of_nat (S k) /\ (v = 0 \/ 128 ^ Z.of_nat k <= v) /\ (v = 0 -> k = 0%nat).
Proof.
  induction n as [|n IH]; intros Hv.
  - exists 0%nat. change (128 ^ Z.of_nat 0) with 1. lia.
  - destruct (Z.lt_ge_cases v (128 ^ Z.of_nat (S n))) as [H|H].
    + destruct IH as (k & ? & ?); [lia|]. exists k. split; [lia|done].
    + assert (0 < 128 ^ Z.of_nat (S n)) by (apply Z.pow_pos_nonneg; lia).
      exists (S n). lia.
Qed.

Lemma varint_ref_groups k m acc v p :
  varint_ref (k + m) acc (map (Z.add 128) (be128 k v) ++ p) =
  '(w, n) ← varint_ref m (acc * 128 ^ Z.of_nat k + v mod 128 ^ Z.of_nat k) p;
  Some (w, n + Z.of_nat k).
Proof.
  revert m v p; induction k as [|k IH]; intros m v p.
  - change (128 ^ Z.of_nat 0) with 1. rewrite Z.mod_1_r, Z.mul_1_r, Z.add_0_r. simpl.
    destruct (varint_ref m acc p) as [[w n]|]; simpl; [|done]. by rewrite Z.add_0_r.
  - replace (S k + m)%nat with (k + S m)%nat by lia.
    cbn [be128]. rewrite map_app, <- app_assoc, IH. cbn [map app varint_ref].
    pose proof (Z.mod_pos_bound v 128 ltac:(lia)).
    destruct (Z.ltb_spec (128 + v mod 128) 128); [lia|].
    replace ((acc * 128 ^ Z.of_nat k + (v / 128) mod 128 ^ Z.of_nat k) * 128 + (128 + v mod 128 - 128))
      with (acc * 128 ^ Z.of_nat (S k) + v mod 128 ^ Z.of_nat (S k)).
    + destruct (varint_ref m _ p) as [[w n]|]; simpl; [|done]. do 2 f_equal. lia.
    + rewrite Nat2Z.inj_succ, Z.pow_succ_r by lia.
      rewrite Z.rem_mul_r by (try apply Z.pow_pos_nonneg; lia). ring.
Qed.


Lemma high_mask v : 0 <= v < 2 ^ 64 -> (v .& (0xff000000 << 32) =? 0) = (v <? 2 ^ 56).
Proof.
  intros Hv. change (0xff000000 << 32) with (255 << 56).
  assert (E : v .& (255 << 56) = (v >> 56) << 56).
  { apply Z.bits_inj'. intros i Hi. rewrite Z.land_spec, !Z.shiftl_spec by lia.
    destruct (Z.lt_ge_cases i 56).
    - by rewrite !(Z.testbit_neg_r _ (i - 56)), andb_false_r by lia.
    - rewrite Z.shiftr_spec by lia. replace (i - 56 + 56) with i by lia.
      destruct (Z.lt_ge_cases i 64).
      + change 255 with (Z.ones 8). by rewrite Z.ones_spec_low, andb_true_r by lia.
      + by rewrite (testbit_high v 64) by lia. }
  rewrite E, Z.shiftl_mul_pow2, Z.shiftr_div_pow2 by lia.
  destruct (Z.ltb_spec v (2 ^ 56)).
  - by rewrite Z.div_small by lia.
  - apply Z.eqb_neq. assert (1 <= v / 2 ^ 56) by (apply Z.div_le_lower_bound; lia). lia.
Qed.

(** What [sqlite3PutVarint] stores, as digits: up to eight 7-bit groups, or eight
    groups and a full byte. *)
Lemma putVarint_shape v :
  0 <= v < 2 ^ 64 ->
  (exists k, (k <= 7)%nat /\ v < 128 ^ Z.of_nat (S k) /\ (v = 0 \/ 128 ^ Z.of_nat k <= v) /\
     (v = 0 -> k = 0%nat) /\
     sqlite3PutVarint v = Some (map (Z.add 128) (be128 k (v / 128)) ++ [v mod 128])) \/
  (2 ^ 56 <= v /\
     sqlite3PutVarint v = Some (map (Z.add 128) (be128 8 (v / 256)) ++ [v mod 256])).
Proof.
  intros Hv. unfold sqlite3PutVarint.
  assert (M : forall x, x .& 0x7f = x mod 128)
    by (intros x; change 0x7f with (2 ^ 7 - 1); by rewrite land_ones_mod by lia).
  destruct (Z.leb_spec v 0x7f).
  { left. exists 0%nat. rewrite M. change (128 ^ Z.of_nat 1) with 128.
    change (128 ^ Z.of_nat 0) with 1. repeat split; lia. }
  destruct (Z.leb_spec v 0x3fff).
  { left. exists 1%nat. change (128 ^ Z.of_nat 1) with 128.
    change (128 ^ Z.of_nat 2) with 16384. repeat split; try lia.
    pose proof (group_byte (v >> 7)) as G. rewrite shr7 in *.
    rewrite u8_id in G; [rewrite G, M; done|].
    apply (lor_bound _ _ 8); [|lia]. rewrite M.
    pose proof (Z.mod_pos_bound (v / 128) 128 ltac:(lia)). lia. }
  unfold putVarint64. rewrite high_mask by done.
  destruct (Z.ltb_spec v (2 ^ 56)); cbn [negb].
  - left. destruct (digits_exist v 7) as (k & Hk & Hlt & Hlo & Hz);
      [change (128 ^ Z.of_nat 8) with (2 ^ 56); lia|].
    exists k. repeat split; try done.
    rewrite (putVarint64_loop_digits _ _ _ k) by (lia || done).
    rewrite be128_rev_S. cbn [app map mbind option_bind].
    rewrite M. replace ((128 + v mod 128) mod 128) with (v mod 128).
    2:{ rewrite Z.add_mod_idemp_r by lia. replace (128 + v) with (v + 1 * 128) by lia.
        by rewrite Z_mod_plus_full. }
    cbn [rev]. by rewrite <- map_rev, rev_involutive.
  - right. split; [done|]. rewrite putVarint64_high_digits.
    by rewrite Z.shiftr_div_pow2 by lia.
Qed.

Lemma be128_bytes k v : bytes_ok (map (Z.add 128) (be128 k v)).
Proof.
  revert v; induction k as [|k IH]; intros v; cbn [be128]; [constructor|].
  rewrite map_app. apply Forall_app; split; [apply IH|].
  pose proof (Z.mod_pos_bound v 128 ltac:(lia)).
  repeat constructor; unfold is_byte; lia.
Qed.

Lemma varint_spec_put v p rest :
  0 <= v < 2 ^ 64 -> sqlite3PutVarint v = Some p ->
  varint_spec (p ++ rest) = Some (v, Z.of_nat (length p)).
Proof.
  intros Hv Hp. unfold varint_spec.
  destruct (putVarint_shape v Hv) as [(k & Hk & Hlt & Hlo & H0 & E)|[Hlo E]];
    rewrite E in Hp; apply (inj Some) in Hp as <-; rewrite <- app_assoc, length_app, length_map, length_be128.
  - replace 8%nat with (k + (8 - k))%nat by lia. rewrite varint_ref_groups.
    destruct (8 - k)%nat as [|m] eqn:Em; [lia|]. cbn [app varint_ref].
    pose proof (Z.mod_pos_bound v 128 ltac:(lia)).
    destruct (Z.ltb_spec (v mod 128) 128); [|lia]. cbn [mbind option_bind length].
    rewrite Nat2Z.inj_succ, Z.pow_succ_r in Hlt by lia.
    rewrite (Z.mod_small (v / 128)).
    2:{ split; [apply Z.div_pos; lia|apply Z.div_lt_upper_bound; lia]. }
    do 2 f_equal; [|lia]. pose proof (Z.div_mod v 128). lia.
  - rewrite (varint_ref_groups 8 0). cbn [app varint_ref mbind option_bind length].
    rewrite (Z.mod_small (v / 256)).
    2:{ change (128 ^ Z.of_nat 8) with (2 ^ 56).
        split; [apply Z.div_pos; lia|apply Z.div_lt_upper_bound; lia]. }
    do 2 f_equal. pose proof (Z.div_mod v 256). lia.
Qed.

Lemma putVarint_total v : 0 <= v < 2 ^ 64 ->
  exists p, sqlite3PutVarint v = Some p /\ bytes_ok p /\ (1 <= length p <= 9)%nat.
Proof.
  intros Hv. pose proof (Z.mod_pos_bound v 128 ltac:(lia)).
  pose proof (Z.mod_pos_bound v 256 ltac:(lia)).
  destruct (putVarint_shape v Hv) as [(k & Hk & ? & ? & ? & E)|[? E]];
    rewrite E; eexists; (split; [done|]); rewrite length_app, length_map, length_be128;
    (split; [|simpl; lia]); (apply Forall_app; split; [apply be128_bytes|]);
    repeat constructor; unfold is_byte; lia.
Qed.

Lemma varintLen_loop_digits fuel v i k :
  0 <= v < 128 ^ Z.of_nat (S k) -> (v = 0 \/ 128 ^ Z.of_nat k <= v) -> (v = 0 -> k = 0%nat) ->
  (k < fuel)%nat ->
  sqlite3VarintLen_loop fuel v i = Some (i + Z.of_nat k).
Proof.
  revert v i k; induction fuel as [|fuel IH]; intros v i k Hv Hlo H0 Hk; [lia|].
  cbn [sqlite3VarintLen_loop]. rewrite shr7.
  rewrite Nat2Z.inj_succ, Z.pow_succ_r in Hv by lia.
  assert (0 <= v / 128 < 128 ^ Z.of_nat k) by (split; [apply Z.div_pos; lia|apply Z.div_lt_upper_bound; lia]).
  destruct k as [|k].
  - replace (v / 128) with 0 by lia. simpl. f_equal. lia.
  - rewrite Nat2Z.inj_succ, Z.pow_succ_r in Hlo by lia.
    assert (128 ^ Z.of_nat k <= v / 128) by (apply Z.div_le_lower_bound; lia).
    assert (0 < 128 ^ Z.of_nat k) by (apply Z.pow_pos_nonneg; lia).
    destruct (Z.eqb_spec (v / 128) 0); [lia|].
    rewrite (IH _ _ k); [f_equal; lia|lia..].
Qed.

(** * Properties *)

(** C25. Every 64-bit value written with [sqlite3PutVarint] takes 1 to 9 bytes and
    [sqlite3GetVarint] reads it back from the front of any buffer, together with
    the number of bytes written. *)
Theorem varint_roundtrip v rest :
  0 <= v < 2 ^ 64 -> bytes_ok rest ->
  exists p, sqlite3PutVarint v = Some p /\ (1 <= length p <= 9)%nat /\
    sqlite3GetVarint (p ++ rest) = Some (v, Z.of_nat (length p)).
Proof.
  intros Hv Hrest. destruct (putVarint_total v Hv) as (p & E & Hb & Hl).
  exists p. repeat split; try lia; [done|].
  rewrite getVarint_spec by (apply Forall_app; auto). by apply varint_spec_put.
Qed.

Lemma varint_roundtrip_witness :
  exists p, sqlite3PutVarint (2 ^ 63 + 5) = Some p /\ (1 <= length p <= 9)%nat /\
    sqlite3GetVarint (p ++ [7]) = Some (2 ^ 63 + 5, Z.of_nat (length p)).
Proof. apply (varint_roundtrip (2 ^ 63 + 5) [7]); [lia|repeat constructor; lia]. Defined.

(** C26. The unrolled [sqlite3GetVarint] computes, on every byte buffer, what the
    byte-by-byte decoder of the encoding's description computes, and reads no byte
    more. *)
Theorem getVarint_equiv p : bytes_ok p -> sqlite3GetVarint p = varint_spec p.
Proof. apply getVarint_spec. Qed.

Lemma getVarint_equiv_witness : sqlite3GetVarint [0x81; 0x80; 0x05] = varint_spec [0x81; 0x80; 0x05].
Proof. apply getVarint_equiv. repeat constructor; lia. Defined.

(** [sqlite3VarintLen] against the bytes really stored. *)
Lemma varintLen_put v p :
  0 <= v < 2 ^ 64 -> sqlite3PutVarint v = Some p ->
  sqlite3VarintLen v = Some (if v <? 2 ^ 63 then Z.of_nat (length p) else 10).
Proof.
  intros Hv Hp. unfold sqlite3VarintLen.
  destruct (putVarint_shape v Hv) as [(k & Hk & Hlt & Hlo & H0 & E)|[Hlo E]];
    rewrite E in Hp; apply (inj Some) in Hp as <-; rewrite length_app, length_map, length_be128.
  - assert (128 ^ Z.of_nat (S k) <= 128 ^ 8) by (apply Z.pow_le_mono_r; lia).
    destruct (Z.ltb_spec v (2 ^ 63)); [|lia].
    rewrite (varintLen_loop_digits _ _ _ k) by (lia || done). simpl. f_equal. lia.
  - destruct (Z.ltb_spec v (2 ^ 63)).
    + rewrite (varintLen_loop_digits _ _ _ 8); [done|..]; try lia.
    + rewrite (varintLen_loop_digits _ _ _ 9); [done|..]; try lia.
Qed.

Lemma varint_ref_take n acc p w k :
  varint_ref n acc p = Some (w, k) -> 1 <= k <= Z.of_nat n + 1.
Proof.
  revert acc p w k; induction n as [|n IH]; intros acc [|b p] w k; simpl; try done.
  - intros [= <- <-]. lia.
  - destruct (b <? 128); [intros [= <- <-]; lia|].
    destruct (varint_ref n _ p) as [[w' k']|] eqn:E; [|done].
    intros [= <- <-]. apply IH in E. lia.
Qed.

Lemma varint_ref_nonneg n acc p w k :
  bytes_ok p -> 0 <= acc -> varint_ref n acc p = Some (w, k) -> 0 <= w.
Proof.
  revert acc p w k; induction n as [|n IH]; intros acc [|b p] w k Hp Ha; try done; cbn [varint_ref];
    apply Forall_cons in Hp as [Hb Hp]; unfold is_byte in Hb.
  - intros [= <- <-]. lia.
  - destruct (Z.ltb_spec b 128); [intros [= <- <-]; lia|].
    destruct (varint_ref n _ p) as [[w' k']|] eqn:E; [|done].
    intros [= <- <-]. eapply IH; [done| |exact E]. lia.
Qed.

Lemma land_max_u32 v : 0 <= v -> (v .& 0xffffffff =? v) = (v <=? 0xffffffff).
Proof.
  intros Hv. change 0xffffffff with (2 ^ 32 - 1) at 1. rewrite land_ones_mod by lia.
  pose proof (Z.mod_pos_bound v (2 ^ 32)).
  destruct (Z.leb_spec v 0xffffffff); [apply Z.eqb_eq, Z.mod_small; lia|].
  apply Z.eqb_neq. lia.
Qed.


(** The value clamped to the largest [u32]. *)
Definition saturate32 (r : Z * Z) : Z * Z := (Z.min r.1 0xffffffff, r.2).

Lemma spec_two b0 b1 p : is_byte b0 -> is_byte b1 ->
  Z.testbit b0 7 = true -> Z.testbit b1 7 = false ->
  varint_spec (b0 :: b1 :: p) = Some (((b0 .& 0x7f) << 7) .| b1, 2) /\
  0 <= ((b0 .& 0x7f) << 7) .| b1 < 2 ^ 14.
Proof.
  intros H0 H1 E0 E1. pose proof (vstep_last (b0 .& 0x7f) b1 H1 E1) as L.
  pose proof (byte_lt128 b1 H1) as B1. rewrite E1 in B1. apply Z.ltb_lt in B1.
  change 0x7f with (2 ^ 7 - 1) in *. rewrite land_ones_mod in * by lia.
  pose proof (Z.mod_pos_bound b0 (2 ^ 7) ltac:(lia)). unfold is_byte in *.
  split; [|rewrite <- L; lia].
  unfold varint_spec. cbn [varint_ref]. rewrite (byte_lt128 b0), (byte_lt128 b1), E0, E1 by done.
  cbn [negb mbind option_bind]. rewrite <- L, !(vstep_more _ b0) by done.
  change 0x7f with (2 ^ 7 - 1). rewrite land_ones_mod by lia. done.
Qed.

Lemma getVarint32_long p v n :
  bytes_ok p -> varint_spec p = Some (v, n) ->
  (if negb (v .& 0xffffffff =? v) then Some (0xffffffff, n) else Some (u32 v, n)) =
  Some (saturate32 (v, n)).
Proof.
  intros Hp E. assert (0 <= v) by (eapply varint_ref_nonneg; [exact Hp| |exact E]; lia).
  unfold saturate32. rewrite land_max_u32 by done. simpl.
  destruct (Z.leb_spec v 0xffffffff); simpl; do 2 f_equal; [|lia].
  rewrite u32_id by lia. lia.
Qed.

Lemma sqlite3GetVarint32_spec b0 p :
  bytes_ok (b0 :: p) -> Z.testbit b0 7 = true ->
  sqlite3GetVarint32 (b0 :: p) = saturate32 <$> varint_spec (b0 :: p).
Proof.
  intros Hb E0. pose proof Hb as Hall. apply Forall_cons in Hb as [H0 Hp].
  unfold sqlite3GetVarint32. cbn [lookup list_lookup mbind option_bind].
  assert (F : forall q, varint_spec (b0 :: q) =
    '(v, k) ← varint_ref 7 (0 * 128 + (b0 - 128)) q; Some (v, k + 1)).
  { intros q. unfold varint_spec. cbn [varint_ref]. by rewrite byte_lt128, E0 by done. }
  destruct p as [|b1 p]; [by rewrite F|]. apply Forall_cons in Hp as [H1 Hp].
  cbn [lookup list_lookup mbind option_bind]. rewrite land_80.
  destruct (Z.testbit b1 7) eqn:E1; cbn [negb].
  2:{ destruct (spec_two b0 b1 p H0 H1 E0 E1) as [-> B]. simpl. unfold saturate32. simpl.
      do 2 f_equal. lia. }
  destruct p as [|b2 p].
  { rewrite F. cbn [varint_ref]. by rewrite byte_lt128, E1 by done. }
  apply Forall_cons in Hp as [H2 Hp]. cbn [lookup list_lookup mbind option_bind]. rewrite land_80.
  replace (Z.testbit (b0 << 14 .| b2) 7) with (Z.testbit b2 7) by (bit_simpl; reflexivity).
  destruct (Z.testbit b2 7) eqn:E2; cbn [negb].
  - rewrite getVarint_spec by done.
    destruct (varint_spec (b0 :: b1 :: b2 :: p)) as [[v n]|] eqn:E; [|done].
    cbn [mbind option_bind fmap option_fmap option_map]. by apply (getVarint32_long _ _ _ Hall).
  - rewrite F. cbn [varint_ref]. rewrite (byte_lt128 b1), (byte_lt128 b2), E1, E2 by done.
    cbn [negb mbind option_bind fmap option_fmap option_map fst snd].
    pose proof (byte_lt128 b2 H2) as B2. rewrite E2 in B2. apply Z.ltb_lt in B2.
    unfold saturate32. cbn [fst snd]. do 2 f_equal. rewrite Z.min_l by (unfold is_byte in *; lia).
    rewrite !vstep_more, vstep_last by done. bits_eq.
Qed.

(** The macro [getVarint32] reads the same bytes as [sqlite3GetVarint] and
    returns its value, or 0xffffffff when the value does not fit in 32 bits. *)
Theorem getVarint32_saturates p :
  bytes_ok p -> getVarint32 p = saturate32 <$> sqlite3GetVarint p.
Proof.
  intros Hp. rewrite getVarint_spec by done. unfold getVarint32.
  destruct p as [|b0 p]; [done|]. cbn [lookup list_lookup mbind option_bind].
  assert (H0 : is_byte b0) by by apply Forall_cons in Hp as [? _].
  change 0x80 with 128. rewrite byte_lt128 by done.
  destruct (Z.testbit b0 7) eqn:E0; cbn [negb].
  - by apply sqlite3GetVarint32_spec.
  - unfold varint_spec. cbn [varint_ref]. rewrite byte_lt128, E0 by done. simpl.
    unfold saturate32, is_byte in *. simpl. do 2 f_equal. lia.
Qed.

Lemma getVarint32_saturates_witness :
  getVarint32 [0x90; 0x80; 0x80; 0x80; 0x00] = saturate32 <$> sqlite3GetVarint [0x90; 0x80; 0x80; 0x80; 0x00].
Proof. apply getVarint32_saturates. repeat constructor; lia. Defined.

(** [sqlite3VarintLen v] is the number of bytes [sqlite3PutVarint] stores for
    every [v] below 2^63; from 2^63 on it answers 10, although 9 are stored. *)
Theorem varintLen_correct v :
  0 <= v < 2 ^ 64 ->
  exists p, sqlite3PutVarint v = Some p /\
    sqlite3VarintLen v = Some (if v <? 2 ^ 63 then Z.of_nat (length p) else 10) /\
    (2 ^ 63 <= v -> length p = 9%nat).
Proof.
  intros Hv. destruct (putVarint_total v Hv) as (p & E & _).
  exists p. split; [done|]. split; [by apply varintLen_put|]. intros Hhi.
  destruct (putVarint_shape v Hv) as [(k & Hk & Hlt & _)|[_ E']].
  - assert (128 ^ Z.of_nat (S k) <= 128 ^ 8) by (apply Z.pow_le_mono_r; lia). lia.
  - rewrite E' in E. apply (inj Some) in E as <-. by rewrite length_app, length_map, length_be128.
Qed.

Lemma varintLen_correct_witness :
  exists p, sqlite3PutVarint 300 = Some p /\
    sqlite3VarintLen 300 = Some (if 300 <? 2 ^ 63 then Z.of_nat (length p) else 10) /\
    (2 ^ 63 <= 300 -> length p = 9%nat).
Proof. apply varintLen_correct. lia. Defined.
