(* ===== verification/Packet.v ===== *)
(** * Packet: the growable read/write buffer (include/network/packet.h)

    [ema::network::packet]: a malloc'ed block [data_] of [size_] bytes, the write
    offset [offset_] and the read position [read_pos_].  A byte the program has not
    stored is indeterminate ([None]); [data_ = None] is the null pointer.
    [std::malloc] and [std::realloc] are the parameter [malloc_ok]. *)

From S2P Require Import Prelude.

Record packet := mk_packet {
  data_ : option (list (option Z));
  size_ : Z;
  offset_ : Z;
  read_pos_ : Z
}.

(** The member initialisers. *)
Definition packet_init : packet := mk_packet None 0 0 0.

Section packet.
Context (malloc_ok : Z -> bool).

Definition packet_malloc (p : packet) (length : Z) : outcome packet :=
  if length =? 0 then Done p
  else if malloc_ok length then
    Done (mk_packet (Some (replicate (Z.to_nat length) None)) length (offset_ p) (read_pos_ p))
  else Throw "out of memory".

Definition packet_realloc (p : packet) (len : Z) : outcome packet :=
  if (len =? 0) || (len <=? size_ p) then Done p
  else match data_ p with
  | None => packet_malloc p len
  | Some d =>
      if malloc_ok len then
        Done (mk_packet (Some (d ++ replicate (Z.to_nat len - length d) None)) len
                        (offset_ p) (read_pos_ p))
      else Throw "out of memory"
  end.

(** [std::memcpy]/[std::memset] into [data_ + at]. *)
Definition packet_store (p : packet) (at_ : Z) (src : list (option Z)) : outcome packet :=
  match data_ p with
  | None => if length src =? 0 then Done p else UB
  | Some d =>
      match blk_write d at_ src with
      | Some d' => Done (mk_packet (Some d') (size_ p) (offset_ p) (read_pos_ p))
      | None => UB
      end
  end%nat.

Definition set_offset (p : packet) (o : Z) : packet := mk_packet (data_ p) (size_ p) o (read_pos_ p).
Definition set_read_pos (p : packet) (r : Z) : packet := mk_packet (data_ p) (size_ p) (offset_ p) r.

Definition packet_new (size : Z) : outcome packet := packet_malloc packet_init size.

Definition packet_empty (p : packet) : bool := size_ p =? 0.
Definition packet_remaining (p : packet) : Z :=
  if offset_ p <? size_ p then size_ p - offset_ p else 0.
Definition packet_set_pos (p : packet) (pos : Z) : packet :=
  set_read_pos p (if pos <? offset_ p then pos else offset_ p).
Definition packet_reset_pos (p : packet) : packet := set_read_pos p 0.
Definition packet_read_remaining (p : packet) : Z :=
  if read_pos_ p <? offset_ p then offset_ p - read_pos_ p else 0.

(** The body both [write] overloads share: grow, copy, advance. *)
Definition packet_append (p : packet) (src : bytes) : outcome packet :=
  let data_size := Z.of_nat (length src) in
  p ← (if size_ p <? u64 (offset_ p + data_size)
       then packet_realloc p (Z.max (u64 (size_ p * 2)) (u64 (offset_ p + data_size)))
       else Done p);
  p ← packet_store p (offset_ p) (map Some src);
  Done (set_offset p (u64 (offset_ p + data_size))).

(** [write<T>(value)]: [src] is the object representation of [value]. *)
Definition packet_write_value (p : packet) (src : bytes) : outcome (bool * packet) :=
  p ← packet_append p src; Done (true, p).

(** [write(const void* data, u64 data_size)]; [data] is null or points at the
    bytes given. *)
Definition packet_write (p : packet) (data : option bytes) (data_size : Z) : outcome (bool * packet) :=
  match data with
  | None => Done (false, p)
  | Some src =>
      if data_size =? 0 then Done (false, p)
      else match blk_read src 0 data_size with
      | None => UB
      | Some src => p ← packet_append p src; Done (true, p)
      end
  end.

(** [read<T>(value)] and, for a non-null buffer, [read(buffer, n)]: the bytes
    copied out when the call answers [true]. *)
Definition packet_read_value (p : packet) (n : Z) : outcome (option (list (option Z)) * packet) :=
  if offset_ p <? u64 (read_pos_ p + n) then Done (None, p)
  else match data_ p with
  | None => if n =? 0 then Done (Some [], p) else UB
  | Some d =>
      match blk_read d (read_pos_ p) n with
      | None => UB
      | Some out => Done (Some out, set_read_pos p (u64 (read_pos_ p + n)))
      end
  end.

Definition packet_read (p : packet) (buffer : bool) (n : Z) : outcome (option (list (option Z)) * packet) :=
  if negb buffer || (n =? 0) then Done (None, p) else packet_read_value p n.

Definition packet_clear (p : packet) : outcome packet :=
  if packet_empty p || (offset_ p =? 0) then Done p
  else
    p ← packet_store p 0 (replicate (Z.to_nat (offset_ p)) (Some 0));
    Done (mk_packet (data_ p) (size_ p) 0 0).

Definition packet_free (p : packet) : packet :=
  if packet_empty p then p
  else match data_ p with
  | None => p
  | Some _ => mk_packet None 0 0 0
  end.

(** The body of [operator=(const packet&)] for [this != &lvalue]. *)
Definition packet_assign_body (p lvalue : packet) : outcome packet :=
  if size_ lvalue =? 0 then Done (packet_free p)
  else if offset_ lvalue =? 0 then packet_clear p
  else
    p ← (if size_ p <? size_ lvalue then packet_realloc p (size_ lvalue) else Done p);
    match data_ lvalue with
    | None => UB
    | Some d =>
        match blk_read d 0 (offset_ lvalue) with
        | None => UB
        | Some src =>
            p ← packet_store p 0 src;
            p ← (if offset_ lvalue <? size_ p
                 then packet_store p (offset_ lvalue)
                        (replicate (Z.to_nat (size_ p - offset_ lvalue)) (Some 0))
                 else Done p);
            Done (set_offset p (offset_ lvalue))
        end
    end.

(** The operator is [noexcept]: an exception that leaves it ends the program. *)
Definition terminated : string := "std::terminate".
Definition noexcept (m : outcome packet) : outcome packet :=
  match m with Throw _ => Throw terminated | m => m end.
Definition packet_assign (p lvalue : packet) : outcome packet := noexcept (packet_assign_body p lvalue).

(** [operator=(packet&&)]: the new values of [*this] and of [rvalue]. *)
Definition packet_move_assign (p rvalue : packet) : packet * packet :=
  (mk_packet (data_ rvalue) (size_ rvalue) (offset_ rvalue) (read_pos_ p),
   mk_packet None 0 0 (read_pos_ rvalue)).

Definition packet_copy_ctor (lvalue : packet) : outcome packet := packet_assign packet_init lvalue.
Definition packet_move_ctor (rvalue : packet) : packet * packet :=
  packet_move_assign packet_init rvalue.
End packet.

(** ** Call sequences *)

(** The constructors. *)
Inductive packet_ctor := CSize (size : Z) | CCopy (l : packet) | CMove (r : packet).

Definition packet_construct (malloc_ok : Z -> bool) (c : packet_ctor) : outcome packet :=
  match c with
  | CSize size => packet_new malloc_ok size
  | CCopy l => packet_copy_ctor malloc_ok l
  | CMove r => Done (fst (packet_move_ctor r))
  end.

(** A call on one packet; [OpAssign l] copies the packet [l] into it, [OpMove r] moves [r]
    into it; [None] is the packet itself. *)
Inductive packet_op :=
| OpWriteValue (src : bytes)
| OpWrite (data : option bytes) (data_size : Z)
| OpReadValue (n : Z)
| OpRead (buffer : bool) (n : Z)
| OpSetPos (pos : Z)
| OpResetPos
| OpClear
| OpFree
| OpAssign (l : option packet)
| OpMove (r : option packet).

(** A packet moved into itself loses its block. *)
Definition packet_step (malloc_ok : Z -> bool) (p : packet) (op : packet_op) : outcome packet :=
  match op with
  | OpWriteValue src => '(_, p) ← packet_write_value malloc_ok p src; Done p
  | OpWrite data n => '(_, p) ← packet_write malloc_ok p data n; Done p
  | OpReadValue n => '(_, p) ← packet_read_value p n; Done p
  | OpRead b n => '(_, p) ← packet_read p b n; Done p
  | OpSetPos pos => Done (packet_set_pos p pos)
  | OpResetPos => Done (packet_reset_pos p)
  | OpClear => packet_clear p
  | OpFree => Done (packet_free p)
  | OpAssign None => Done p
  | OpAssign (Some l) => packet_assign malloc_ok p l
  | OpMove None => Done (snd (packet_move_assign p p))
  | OpMove (Some r) => Done (fst (packet_move_assign p r))
  end.

Fixpoint packet_run (malloc_ok : Z -> bool) (p : packet) (ops : list packet_op) : outcome packet :=
  match ops with
  | [] => Done p
  | op :: ops => p ← packet_step malloc_ok p op; packet_run malloc_ok p ops
  end.

Fixpoint packet_write_all (malloc_ok : Z -> bool) (p : packet) (chunks : list bytes) : outcome packet :=
  match chunks with
  | [] => Done p
  | c :: cs =>
      '(_, p) ← packet_write malloc_ok p (Some c) (Z.of_nat (length c));
      packet_write_all malloc_ok p cs
  end.

Fixpoint packet_read_all (p : packet) (sizes : list nat) : outcome (list (option (list (option Z)))) :=
  match sizes with
  | [] => Done []
  | n :: ns =>
      '(r, p) ← packet_read p true (Z.of_nat n);
      rs ← packet_read_all p ns; Done (r :: rs)
  end.

(** * Invariant *)

Section packet_proofs.
Context (malloc_ok : Z -> bool).
(** No allocation of 2^63 bytes or more succeeds (PTRDIFF_MAX). *)
Context (malloc_bound : forall n, malloc_ok n = true -> n < 2 ^ 63).

Definition packet_wf (p : packet) : Prop :=
  match data_ p with
  | None => size_ p = 0
  | Some d => Z.of_nat (length d) = size_ p /\ Forall is_Some (take (Z.to_nat (offset_ p)) d)
  end /\
  0 <= offset_ p <= size_ p /\ size_ p < 2 ^ 63 /\ 0 <= read_pos_ p < 2 ^ 63.

(** What has been written. *)
Definition packet_content (p : packet) : list (option Z) :=
  match data_ p with None => [] | Some d => take (Z.to_nat (offset_ p)) d end.

(** The outcome is defined; [E] holds of an exception. *)
Definition wf_outcome {A} (E : string -> Prop) (P : A -> Prop) (m : outcome A) : Prop :=
  match m with Done a => P a | Throw e => E e | UB => False end.

Lemma wf_outcome_bind {A B} (E : string -> Prop) (P : A -> Prop) (Q : B -> Prop) (m : outcome A) f :
  wf_outcome E P m -> (forall a, P a -> wf_outcome E Q (f a)) -> wf_outcome E Q (m ≫= f).
Proof. destruct m; simpl; auto. Qed.

Lemma wf_outcome_mono {A} (E E' : string -> Prop) (P P' : A -> Prop) m :
  wf_outcome E P m -> (forall e, E e -> E' e) -> (forall a, P a -> P' a) -> wf_outcome E' P' m.
Proof. destruct m; simpl; auto. Qed.

(** An allocation has failed. *)
Definition oom (e : string) : Prop := e = "out of memory" /\ exists n, malloc_ok n = false.

Lemma packet_content_length p : packet_wf p -> Z.of_nat (length (packet_content p)) = offset_ p.
Proof.
  unfold packet_wf, packet_content. destruct (data_ p); simpl; [|lia].
  rewrite length_take. lia.
Qed.

(** Growing keeps what was written and makes room for [len] bytes. *)
Lemma packet_realloc_spec p len :
  packet_wf p -> 0 <= len ->
  wf_outcome oom (fun p' => packet_wf p' /\ packet_content p' = packet_content p /\
    offset_ p' = offset_ p /\ read_pos_ p' = read_pos_ p /\ len <= size_ p' /\ size_ p <= size_ p')
    (packet_realloc malloc_ok p len).
Proof.
  intros (Hd & Ho & Hs & Hr) Hlen. unfold packet_realloc, packet_malloc.
  destruct ((len =? 0) || (len <=? size_ p)) eqn:E.
  { apply orb_true_iff in E. simpl. repeat split; try done; destruct E; lia. }
  apply orb_false_iff in E as [E0%Z.eqb_neq E1%Z.leb_gt].
  destruct (data_ p) as [d|] eqn:Ed; [destruct Hd as [Hl Hi]|rewrite (proj2 (Z.eqb_neq _ _) E0)];
    (destruct (malloc_ok len) eqn:Em; [apply malloc_bound in Em|by split; eauto]);
    unfold packet_wf, packet_content; simpl; rewrite ?Ed.
  - assert (Z.to_nat (offset_ p) <= length d)%nat by lia.
    rewrite take_app_le by lia. rewrite length_app, length_replicate. repeat split; try done; lia.
  - replace (offset_ p) with 0 by lia. simpl. rewrite length_replicate.
    repeat split; try constructor; lia.
Qed.

(** Storing initialised bytes right after the content. *)
Lemma packet_store_append p src :
  packet_wf p -> offset_ p + Z.of_nat (length src) <= size_ p ->
  Forall is_Some src ->
  exists d, packet_store p (offset_ p) src = Done (mk_packet d (size_ p) (offset_ p) (read_pos_ p)) /\
    packet_wf (mk_packet d (size_ p) (offset_ p + Z.of_nat (length src)) (read_pos_ p)) /\
    packet_content (mk_packet d (size_ p) (offset_ p + Z.of_nat (length src)) (read_pos_ p)) =
      packet_content p ++ src.
Proof.
  intros (Hd & Ho & Hs & Hr) Hfit Hsrc. unfold packet_store, packet_wf, packet_content.
  destruct (data_ p) as [d|] eqn:Ed; simpl.
  - destruct Hd as [Hl Hi].
    destruct (blk_write_ok d (offset_ p) src) as (d' & -> & L & T); [lia..|].
    eexists; split; [done|]. simpl.
    replace (Z.to_nat (offset_ p + Z.of_nat (length src))) with (Z.to_nat (offset_ p) + length src)%nat by lia.
    rewrite T, L. split; [|done]. repeat split; try lia. by apply Forall_app.
  - assert (length src = 0)%nat as E by lia. rewrite E. destruct src; [|done].
    exists None. destruct p as [dd s o r]; simpl in *. subst dd. split; [done|].
    rewrite Z.add_0_r. repeat split; lia.
Qed.

Lemma packet_append_spec p src :
  packet_wf p -> Z.of_nat (length src) < 2 ^ 63 ->
  wf_outcome oom (fun p' => packet_wf p' /\ packet_content p' = packet_content p ++ map Some src /\
      read_pos_ p' = read_pos_ p)
    (packet_append malloc_ok p src).
Proof.
  intros Hwf Hlen. pose proof Hwf as (Hd & Ho & Hs & Hr). unfold packet_append.
  rewrite !u64_id by lia.
  apply (wf_outcome_bind oom (fun q => packet_wf q /\ packet_content q = packet_content p /\
    offset_ q = offset_ p /\ read_pos_ q = read_pos_ p /\
    offset_ p + Z.of_nat (length src) <= size_ q)).
  - destruct (Z.ltb_spec (size_ p) (offset_ p + Z.of_nat (length src))) as [Hlt|Hge].
    + pose proof (packet_realloc_spec p (Z.max (size_ p * 2) (offset_ p + Z.of_nat (length src)))
        Hwf ltac:(lia)) as R.
      destruct (packet_realloc _ _ _); simpl in *; try done.
      destruct R as (? & ? & ? & ? & ? & ?). split_and!; try done; lia.
    + simpl. split_and!; done.
  - intros q (Hq & Hc & Hoq & Hrq & Hfit).
    destruct (packet_store_append q (map Some src) Hq) as (d & E & Hw & Hcc).
    { rewrite length_map. lia. }
    { apply Forall_forall. intros x (y & -> & _)%list_elem_of_fmap. by eexists. }
    rewrite E. unfold set_offset. simpl. rewrite u64_id by lia.
    rewrite length_map in Hw, Hcc. rewrite <- Hc. split_and!; done.
Qed.

Lemma packet_read_value_spec p n :
  packet_wf p -> 0 <= n < 2 ^ 63 ->
  packet_read_value p n =
    Done (if read_pos_ p + n <=? offset_ p then
            (Some (take (Z.to_nat n) (drop (Z.to_nat (read_pos_ p)) (packet_content p))),
             set_read_pos p (read_pos_ p + n))
          else (None, p)).
Proof.
  intros (Hd & Ho & Hs & Hr) Hn. unfold packet_read_value, packet_content.
  rewrite u64_id by lia. rewrite Z.leb_antisym.
  destruct (Z.ltb_spec (offset_ p) (read_pos_ p + n)); [done|]. simpl.
  destruct (data_ p) as [d|] eqn:Ed.
  - destruct Hd as [Hl _]. rewrite blk_read_Some by lia.
    do 3 f_equal. rewrite skipn_firstn_comm, take_take. f_equal. lia.
  - assert (n = 0 /\ read_pos_ p = 0) as [-> Hz] by lia. simpl.
    destruct p; simpl in *. by subst.
Qed.

Lemma packet_wf_set_read_pos p r : packet_wf p -> 0 <= r < 2 ^ 63 -> packet_wf (set_read_pos p r).
Proof. intros (Hd & Ho & Hs & Hr) H. unfold packet_wf. simpl. split_and!; done || lia. Qed.

Lemma packet_clear_spec E p :
  packet_wf p -> wf_outcome E (fun p' => packet_wf p' /\ packet_content p' = []) (packet_clear p).
Proof.
  intros Hwf. pose proof Hwf as (Hd & Ho & Hs & Hr). unfold packet_clear, packet_empty.
  destruct ((size_ p =? 0) || (offset_ p =? 0)) eqn:Ez.
  - simpl. split; [done|]. apply nil_length_inv, Nat2Z.inj.
    rewrite packet_content_length by done. apply orb_true_iff in Ez. lia.
  - apply orb_false_iff in Ez as [E0%Z.eqb_neq E1%Z.eqb_neq]. unfold packet_store.
    destruct (data_ p) as [d|] eqn:Ed; [|lia]. destruct Hd as [Hl Hi].
    destruct (blk_write_ok d 0 (replicate (Z.to_nat (offset_ p)) (Some 0))) as (d' & -> & L & _);
      [done|rewrite length_replicate; lia|]. unfold packet_wf, packet_content.
    cbn [mbind outcome_bind wf_outcome data_ size_ offset_ read_pos_].
    rewrite L. split_and!; try done; try lia.
Qed.

Lemma packet_free_wf p : packet_wf p -> packet_wf (packet_free p).
Proof.
  intros Hwf. unfold packet_free. destruct (packet_empty p); [done|].
  destruct (data_ p); [|done]. unfold packet_wf. simpl. lia.
Qed.

Lemma packet_assign_body_spec p l :
  packet_wf p -> packet_wf l ->
  wf_outcome oom (fun p' => packet_wf p' /\ packet_content p' = packet_content l)
    (packet_assign_body malloc_ok p l).
Proof.
  intros Hp Hl. pose proof Hl as (Hld & Hlo & Hls & Hlr). unfold packet_assign_body.
  assert (Hcl := packet_content_length l Hl).
  destruct (Z.eqb_spec (size_ l) 0) as [E|E].
  { simpl. split; [by apply packet_free_wf|]. rewrite (nil_length_inv (packet_content l)) by lia.
    destruct Hp as (Hd & Ho & Hs & Hr). unfold packet_free, packet_empty, packet_content.
    destruct (Z.eqb_spec (size_ p) 0); [|by destruct (data_ p) eqn:Ed; simpl; rewrite ?Ed].
    destruct (data_ p) as [d|]; [|done]. destruct Hd as [Hd _]. by destruct d; [rewrite take_nil|simpl in Hd; lia]. }
  destruct (Z.eqb_spec (offset_ l) 0) as [E'|E'].
  { rewrite (nil_length_inv (packet_content l)) by lia. by apply packet_clear_spec. }
  apply (wf_outcome_bind oom (fun q => packet_wf q /\ offset_ l <= size_ q)).
  { destruct (Z.ltb_spec (size_ p) (size_ l)); [|simpl; split; [done|lia]].
    pose proof (packet_realloc_spec p (size_ l) Hp ltac:(lia)) as R.
    destruct (packet_realloc _ _ _); simpl in *; try done.
    destruct R as (? & ? & ? & ? & ? & ?). split; [done|lia]. }
  intros q [(Hqd & Hqo & Hqs & Hqr) Hfit]. destruct (data_ l) as [dl|] eqn:Edl; [|lia].
  destruct Hld as [Hll Hli]. rewrite blk_read_Some by lia.
  change (drop (Z.to_nat 0) dl) with dl.
  replace (packet_content l) with (take (Z.to_nat (offset_ l)) dl)
    by (unfold packet_content; by rewrite Edl).
  set (src := take (Z.to_nat (offset_ l)) dl).
  assert (Hsrc : Z.of_nat (length src) = offset_ l) by (unfold src; rewrite length_take; lia).
  unfold packet_store. destruct (data_ q) as [dq|] eqn:Edq; [|lia]. destruct Hqd as [Hql Hqi].
  destruct (blk_write_ok dq 0 src) as (dq' & -> & WL & WT); [lia..|].
  cbn [mbind outcome_bind data_ size_ offset_ read_pos_].
  assert (Ht : take (Z.to_nat (offset_ l)) dq' = src) by (by rewrite <- Hsrc, Nat2Z.id).
  destruct (Z.ltb_spec (offset_ l) (size_ q)).
  - destruct (blk_write_ok dq' (offset_ l) (replicate (Z.to_nat (size_ q - offset_ l)) (Some 0)))
      as (dq2 & -> & W2L & W2T); [lia|rewrite length_replicate; lia|].
    apply (f_equal (take (Z.to_nat (offset_ l)))) in W2T.
    rewrite take_take, Nat.min_l, Ht, take_app_length' in W2T by lia.
    unfold set_offset, packet_wf, packet_content. simpl. rewrite W2T, W2L.
    split_and!; try done; lia.
  - unfold set_offset, packet_wf, packet_content. simpl. rewrite Ht. split_and!; try done; lia.
Qed.

(** Only a failed allocation ends a copy, and with it the program. *)
Definition dies (e : string) : Prop := e = terminated /\ exists n, malloc_ok n = false.

Lemma packet_assign_spec p l :
  packet_wf p -> packet_wf l ->
  wf_outcome dies (fun p' => packet_wf p' /\ packet_content p' = packet_content l) (packet_assign malloc_ok p l).
Proof.
  intros Hp Hl. pose proof (packet_assign_body_spec p l Hp Hl) as H. unfold packet_assign.
  destruct (packet_assign_body malloc_ok p l); [done| |done]. destruct H as [_ Hn]. by split.
Qed.

(** What the caller of an operation guarantees: sizes are sizes of objects, a
    source buffer holds the bytes announced, the source of a copy or a move is itself a
    well-formed packet. *)
Definition packet_op_ok (op : packet_op) : Prop :=
  match op with
  | OpWriteValue src => Z.of_nat (length src) < 2 ^ 63
  | OpWrite (Some src) n => 0 <= n <= Z.of_nat (length src) /\ n < 2 ^ 63
  | OpReadValue n | OpRead _ n => 0 <= n < 2 ^ 63
  | OpSetPos pos => 0 <= pos < 2 ^ 63
  | OpAssign (Some l) | OpMove (Some l) => packet_wf l
  | _ => True
  end.

(** How a call may end but normally: writing throws, copying ends the program. *)
Definition op_raises (op : packet_op) (e : string) : Prop :=
  match op with OpWriteValue _ | OpWrite _ _ => oom e | OpAssign (Some _) => dies e | _ => False end.

Lemma packet_step_wf p op :
  packet_wf p -> packet_op_ok op -> wf_outcome (op_raises op) packet_wf (packet_step malloc_ok p op).
Proof.
  intros Hp Hop. pose proof Hp as (Hd & Ho & Hs & Hr).
  assert (App : forall src, Z.of_nat (length src) < 2 ^ 63 ->
    wf_outcome oom packet_wf (packet_append malloc_ok p src)).
  { intros src Hsrc. eapply wf_outcome_mono; [by apply packet_append_spec|done|]. by intros ? [? _]. }
  assert (Rd : forall n, 0 <= n < 2 ^ 63 ->
    wf_outcome (fun _ => False) packet_wf ('(_, q) ← packet_read_value p n; Done q)).
  { intros n Hn. rewrite packet_read_value_spec by done. simpl.
    destruct (Z.leb_spec (read_pos_ p + n) (offset_ p)); simpl; [|done].
    apply packet_wf_set_read_pos; [done|lia]. }
  destruct op as [src|data data_size|n|b n|pos| | | |[l|]|[r|]]; simpl in *; try done.
  - unfold packet_write_value. specialize (App src Hop). by destruct (packet_append _ _ _).
  - unfold packet_write. destruct data as [src|]; [|done]. destruct (data_size =? 0); [done|].
    rewrite blk_read_Some by lia.
    specialize (App (take (Z.to_nat data_size) (drop (Z.to_nat 0) src))).
    rewrite length_take, length_drop in App. specialize (App ltac:(lia)).
    by destruct (packet_append _ _ _).
  - by apply Rd.
  - unfold packet_read. destruct (_ || _); [done|]. by apply Rd.
  - unfold packet_set_pos. apply packet_wf_set_read_pos; [done|].
    destruct (Z.ltb_spec pos (offset_ p)); lia.
  - eapply wf_outcome_mono; [by apply packet_clear_spec|done|]. by intros ? [? _].
  - by apply packet_free_wf.
  - eapply wf_outcome_mono; [by apply packet_assign_spec|done|]. by intros ? [? _].
  - destruct Hop as (Hd' & Ho' & Hs' & Hr'). unfold packet_wf; simpl. split_and!; done || lia.
Qed.

Lemma packet_new_spec size :
  0 <= size -> wf_outcome oom (fun p => packet_wf p /\ packet_content p = [] /\ size_ p = size /\
    offset_ p = 0 /\ read_pos_ p = 0) (packet_new malloc_ok size).
Proof.
  intros Hs. unfold packet_new, packet_malloc, packet_init.
  destruct (Z.eqb_spec size 0); [subst; simpl; unfold packet_wf; simpl; split_and!; done || lia|].
  destruct (malloc_ok size) eqn:E; [|by split; eauto]. apply malloc_bound in E. simpl.
  unfold packet_wf; simpl. rewrite length_replicate. split_and!; try done; lia.
Qed.

(** What the caller of a constructor guarantees, and how it may end but normally. *)
Definition packet_ctor_ok (c : packet_ctor) : Prop :=
  match c with CSize size => 0 <= size | CCopy l | CMove l => packet_wf l end.
Definition ctor_raises (c : packet_ctor) (e : string) : Prop :=
  match c with CSize _ => oom e | CCopy _ => dies e | CMove _ => False end.

Lemma packet_init_wf : packet_wf packet_init.
Proof. unfold packet_wf. simpl. lia. Qed.

Lemma packet_construct_wf c :
  packet_ctor_ok c -> wf_outcome (ctor_raises c) packet_wf (packet_construct malloc_ok c).
Proof.
  destruct c as [size|l|r]; simpl; intros Hc.
  - eapply wf_outcome_mono; [by apply packet_new_spec|done|]. by intros ? [? _].
  - eapply wf_outcome_mono; [apply packet_assign_spec; [apply packet_init_wf|done]|done|]. by intros ? [? _].
  - destruct Hc as (Hd & Ho & Hs & Hr). unfold packet_wf; simpl. split_and!; done || lia.
Qed.

(** C23. Starting from any constructor call, copies and moves included, no sequence of
    [write], [read], [set_pos], [reset_pos], [clear], [free], copy and move assignments
    (from other packets or from itself) accesses memory outside the block, with sources
    that are valid: well-formed packets, and buffers that hold the bytes announced, of less
    than 2^63.  The run ends normally in a well-formed packet; or, and only after a failed
    allocation, with the out-of-memory exception of [packet(size)] or a [write], or with
    [std::terminate] where a copy could not allocate, since copy assignment is [noexcept]. *)
Theorem packet_memory_safe c ops :
  packet_ctor_ok c -> Forall packet_op_ok ops ->
  match p ← packet_construct malloc_ok c; packet_run malloc_ok p ops with
  | Done p => packet_wf p
  | Throw e => (exists n, malloc_ok n = false) /\
      (e = "out of memory" /\ ((exists size, c = CSize size) \/ exists op, op ∈ ops /\ op_raises op e) \/
       e = terminated /\ ((exists l, c = CCopy l) \/ exists l, OpAssign (Some l) ∈ ops))
  | UB => False
  end.
Proof.
  intros Hc Hops.
  assert (wf_outcome (fun e => ctor_raises c e \/ exists op, op ∈ ops /\ op_raises op e) packet_wf
    (p ← packet_construct malloc_ok c; packet_run malloc_ok p ops)) as H.
  { apply (wf_outcome_bind _ packet_wf).
    { eapply wf_outcome_mono; [by apply packet_construct_wf| |done]. auto. }
    intros p Hp. apply (wf_outcome_mono (fun e => exists op, op ∈ ops /\ op_raises op e) _ packet_wf packet_wf); [|auto|done].
    revert p Hp. induction Hops as [|op ops Hop _ IH]; intros p Hp; [done|]. cbn [packet_run].
    apply (wf_outcome_bind _ packet_wf).
    - eapply wf_outcome_mono; [by apply packet_step_wf| |done]. intros e He. exists op. set_solver.
    - intros q Hq. eapply wf_outcome_mono; [by apply IH| |done]. intros e (op' & ? & ?). exists op'. set_solver. }
  destruct (p ← packet_construct malloc_ok c; packet_run malloc_ok p ops) as [p|e|]; [done| |done].
  destruct H as [H|(op & Hin & H)].
  - destruct c; simpl in H; try done; destruct H as [-> Hn]; (split; [done|]); eauto 6.
  - destruct op as [| | | | | | | |[l|]|]; simpl in H; try done; pose proof H as [-> Hn]; (split; [done|]); eauto 8.
Qed.

(** ** The byte stream *)

Lemma packet_append_grows p src :
  packet_wf p -> Z.of_nat (length src) < 2 ^ 62 -> offset_ p < 2 ^ 62 -> size_ p < 2 ^ 62 ->
  (forall n, 0 < n < 2 ^ 63 -> malloc_ok n = true) ->
  exists p', packet_append malloc_ok p src = Done p' /\
    size_ p' <= Z.max (size_ p) (2 * (offset_ p + Z.of_nat (length src))).
Proof.
  intros Hwf Hlen Ho62 Hs62 Hm. pose proof (packet_append_spec p src Hwf ltac:(lia)) as A.
  pose proof Hwf as (Hd & Ho & Hs & Hr). unfold packet_append in *.
  rewrite !u64_id in * by lia.
  destruct (Z.ltb_spec (size_ p) (offset_ p + Z.of_nat (length src))).
  - unfold packet_realloc, packet_malloc in *.
    destruct (_ || _) eqn:E; [apply orb_true_iff in E; lia|].
    rewrite Hm in * by lia. destruct (_ =? 0) eqn:E0 in *; [lia|].
    unfold packet_store in *. destruct (data_ p) eqn:Ed; simpl in *;
      (destruct (blk_write _ _ _); simpl in *; [|done]); eexists; (split; [done|]); simpl; lia.
  - unfold packet_store in *. simpl in *. destruct (data_ p); simpl in *.
    + destruct (blk_write _ _ _); simpl in *; [|done]. eexists; split; [done|]; simpl; lia.
    + destruct (length _ =? 0)%nat; simpl in *; [|done]. eexists; split; [done|]; simpl; lia.
Qed.

Lemma packet_write_chunk p c :
  c <> [] ->
  packet_write malloc_ok p (Some c) (Z.of_nat (length c)) =
    (q ← packet_append malloc_ok p c; Done (true, q)).
Proof.
  intros Hc. unfold packet_write.
  destruct (Z.eqb_spec (Z.of_nat (length c)) 0); [destruct c; simpl in *; [done|lia]|].
  rewrite blk_read_Some, Nat2Z.id by lia.
  change (drop (Z.to_nat 0) c) with c. by rewrite firstn_all.
Qed.

Lemma packet_write_all_spec chunks : forall p,
  packet_wf p -> Forall (fun c => c <> []) chunks ->
  (forall n, 0 < n < 2 ^ 63 -> malloc_ok n = true) ->
  offset_ p + Z.of_nat (length (concat chunks)) < 2 ^ 60 -> size_ p < 2 ^ 62 ->
  exists p', packet_write_all malloc_ok p chunks = Done p' /\ packet_wf p' /\
    packet_content p' = packet_content p ++ map Some (concat chunks) /\
    read_pos_ p' = read_pos_ p /\
    size_ p' <= Z.max (size_ p) (2 * (offset_ p + Z.of_nat (length (concat chunks)))).
Proof.
  induction chunks as [|c cs IH]; intros p Hwf Hne Hm Hlen Hs.
  { exists p. simpl. rewrite app_nil_r. split_and!; try done. lia. }
  apply Forall_cons in Hne as [Hc Hne]. cbn [packet_write_all concat] in *.
  rewrite length_app in *.
  pose proof Hwf as (Hd & Ho & _ & _).
  destruct (packet_append_grows p c) as (q & E & Hq); try done; try lia.
  pose proof (packet_append_spec p c Hwf ltac:(lia)) as A. rewrite E in A.
  destruct A as (Hqwf & Hqc & Hqr).
  pose proof (packet_content_length q Hqwf) as Lq. pose proof (packet_content_length p Hwf) as Lp.
  rewrite Hqc, length_app, length_map in Lq.
  rewrite packet_write_chunk by done. rewrite E. cbn [mbind outcome_bind].
  destruct (IH q) as (p' & E' & Hwf' & Hc' & Hr' & Hs'); try done; try lia.
  exists p'. split_and!; [done|done| |congruence|lia].
  by rewrite Hc', Hqc, <- app_assoc, map_app.
Qed.

Lemma packet_read_all_spec chunks : forall p pre,
  packet_wf p -> Forall (fun c => c <> []) chunks ->
  packet_content p = pre ++ map Some (concat chunks) -> read_pos_ p = Z.of_nat (length pre) ->
  packet_read_all p (map length chunks) = Done (map (fun c => Some (map Some c)) chunks).
Proof.
  induction chunks as [|c cs IH]; intros p pre Hwf Hne Hc Hr; [done|].
  apply Forall_cons in Hne as [Hcne Hne]. pose proof (packet_content_length p Hwf) as L.
  pose proof Hwf as (_ & Ho & Hs & _). simpl in *.
  rewrite map_app in Hc. rewrite Hc, !length_app, !length_map in L.
  unfold packet_read. simpl. destruct (Z.eqb_spec (Z.of_nat (length c)) 0); [destruct c; simpl in *; [done|lia]|].
  rewrite packet_read_value_spec by (done || lia).
  destruct (Z.leb_spec (read_pos_ p + Z.of_nat (length c)) (offset_ p)); [|lia].
  simpl. rewrite (IH _ (pre ++ map Some c)); try done.
  - simpl. do 3 f_equal. rewrite Hr, Hc, !Nat2Z.id, drop_app_length.
    by rewrite take_app_length' by by rewrite length_map.
  - apply packet_wf_set_read_pos; [done|lia].
  - by rewrite <- app_assoc.
  - simpl. rewrite length_app, length_map. lia.
Qed.

(** C24. The packet is a byte stream: with memory available, any sequence of
    non-empty writes succeeds on a fresh packet, reading the same sizes from
    position 0 returns exactly the chunks written, and the block never exceeds
    twice the bytes written (or the initial size). *)
Theorem packet_stream_roundtrip size chunks :
  0 <= size < 2 ^ 60 -> Forall (fun c => c <> []) chunks ->
  Z.of_nat (length (concat chunks)) < 2 ^ 60 ->
  (forall n, 0 < n < 2 ^ 63 -> malloc_ok n = true) ->
  exists p, (q ← packet_new malloc_ok size; packet_write_all malloc_ok q chunks) = Done p /\
    size_ p <= Z.max size (2 * Z.of_nat (length (concat chunks))) /\
    packet_read_all (packet_reset_pos p) (map length chunks) =
      Done (map (fun c => Some (map Some c)) chunks).
Proof.
  intros Hs Hne Hlen Hm. pose proof (packet_new_spec size ltac:(lia)) as N.
  destruct (packet_new malloc_ok size) as [q| |] eqn:E; simpl in *; [|exfalso|done].
  2:{ unfold packet_new, packet_malloc in E. destruct (Z.eqb_spec size 0); [done|].
      by rewrite Hm in E by lia. }
  destruct N as (Hwf & Hc & Hsz & Ho & Hr).
  destruct (packet_write_all_spec chunks q) as (p & Ep & Hwf' & Hc' & Hr' & Hs'); try done; try lia.
  exists p. split_and!; [done|lia|].
  apply (packet_read_all_spec chunks _ []); try done; [|by rewrite Hc in Hc'].
  apply packet_wf_set_read_pos; [done|lia].
Qed.
End packet_proofs.

Definition malloc_63 (n : Z) : bool := n <? 2 ^ 63.

Lemma malloc_63_bound n : malloc_63 n = true -> n < 2 ^ 63.
Proof. apply Z.ltb_lt. Qed.

(** A copy that cannot allocate its 4 bytes. *)
Lemma packet_memory_safe_witness :
  (exists p, (p ← packet_construct malloc_63 (CSize 2); packet_run malloc_63 p [OpWriteValue [1; 2; 3]; OpRead true 2; OpMove None]) = Done p /\
     packet_wf p) /\
  let l := mk_packet (Some [Some 1; Some 2; None; None]) 4 2 0 in
  let small n := n <? 4 in
  (p ← packet_construct small (CSize 2); packet_run small p [OpAssign (Some l)]) = Throw terminated /\
  exists l', OpAssign (Some l') ∈ [OpAssign (Some l)].
Proof.
  split.
  - pose proof (packet_memory_safe malloc_63 malloc_63_bound (CSize 2) [OpWriteValue [1; 2; 3]; OpRead true 2; OpMove None]
      ltac:(simpl; lia) ltac:(repeat constructor; simpl; lia)) as H.
    eexists. split; [vm_compute; reflexivity|]. vm_compute in H |- *. exact H.
  - intros l small.
    pose proof (packet_memory_safe small ltac:(intros n Hn; apply Z.ltb_lt in Hn; lia) (CSize 2) [OpAssign (Some l)]
      ltac:(simpl; lia) ltac:(constructor; [unfold l, packet_op_ok, packet_wf; vm_compute; repeat split; try done; repeat constructor; eauto|constructor])) as H.
    split; [reflexivity|].
    assert (E : (p ← packet_construct small (CSize 2); packet_run small p [OpAssign (Some l)]) = Throw terminated) by reflexivity.
    rewrite E in H. destruct H as [_ [[H _]|[_ [[l' H]|H]]]]; [done|done|exact H].
Defined.

Lemma packet_stream_roundtrip_witness :
  exists p, (q ← packet_new malloc_63 2; packet_write_all malloc_63 q [[1; 2]; [3; 4; 5]]) = Done p /\
    size_ p <= Z.max 2 (2 * Z.of_nat (length (concat [[1; 2]; [3; 4; 5]]))) /\
    packet_read_all (packet_reset_pos p) (map length [[1; 2]; [3; 4; 5]]) =
      Done (map (fun c => Some (map Some c)) [[1; 2]; [3; 4; 5]]).
Proof.
  apply packet_stream_roundtrip; [apply malloc_63_bound|lia|by repeat constructor|simpl; lia|].
  intros n Hn. apply Z.ltb_lt. lia.
Defined.
