(* ===== verification/EnigmaString.v ===== *)
(** * EnigmaString: the methods of [ema::String] (src/string/str.cpp)

    A [std::string] is the list of its bytes.  [String::replace] and
    [String::split] loop on [std::string::find]; the loops carry fuel and the
    theorems say for which arguments they end. *)

From S2P Require Import Prelude.

(** ** The [std::string] operations the code calls *)

Fixpoint prefixb (pat s : bytes) : bool :=
  match pat, s with
  | [], _ => true
  | _, [] => false
  | a :: pat, b :: s => (a =? b) && prefixb pat s
  end.

Fixpoint find_go (pat s : bytes) (i : nat) : option nat :=
  if prefixb pat s then Some i
  else match s with [] => None | _ :: s => find_go pat s (S i) end.

(** [s.find(pat, pos)]; [None] is [npos]. *)
Definition str_find (s pat : bytes) (pos : nat) : option nat :=
  if (length s <? pos)%nat then None else find_go pat (drop pos s) pos.

(** [s.replace(pos, n, str)] for [pos <= s.size()]. *)
Definition str_splice (s : bytes) (pos n : nat) (str : bytes) : bytes :=
  take pos s ++ str ++ drop (pos + n) s.

(** [s.substr(pos, n)] for [pos <= s.size()]. *)
Definition str_substr (s : bytes) (pos n : nat) : bytes := take n (drop pos s).

(** [::isspace], [::tolower] and [::toupper] in the "C" locale. *)
Definition isspace (c : Z) : bool := (c =? 32) || ((9 <=? c) && (c <=? 13)).
Definition c_tolower (c : Z) : Z := if (65 <=? c) && (c <=? 90) then c + 32 else c.
Definition c_toupper (c : Z) : Z := if (97 <=? c) && (c <=? 122) then c - 32 else c.

(** ** The methods *)

Definition to_lower (s : bytes) : bytes := map c_tolower s.
Definition to_upper (s : bytes) : bytes := map c_toupper s.

(** [std::find_if_not(begin, end, is_space)] as an index. *)
Fixpoint find_if_not_space (s : bytes) : nat :=
  match s with
  | [] => 0
  | c :: s => if isspace c then S (find_if_not_space s) else 0
  end.

Definition trim (s : bytes) : bytes :=
  let start_it := find_if_not_space s in
  let end_it := (length s - find_if_not_space (rev s))%nat in
  let s1 := if (end_it <=? start_it)%nat then [] else s in
  if (start_it <? end_it)%nat then str_substr s start_it (end_it - start_it) else s1.

Fixpoint replace_loop (fuel : nat) (s from to : bytes) (start_pos : nat) : option bytes :=
  match fuel with
  | O => None
  | S fuel =>
      match str_find s from start_pos with
      | None => Some s
      | Some start_pos =>
          let s := str_splice s start_pos (length from) to in
          replace_loop fuel s from to (start_pos + length to)
      end
  end.

Definition replace (fuel : nat) (s from to : bytes) : option bytes := replace_loop fuel s from to 0.

(** The [do ... while] loop of [split]; [tokens] is the vector so far. *)
Fixpoint split_loop (fuel : nat) (s delimiter : bytes) (keep_empty : bool)
    (prev : nat) (tokens : list bytes) : option (list bytes) :=
  match fuel with
  | O => None
  | S fuel =>
      let pos := match str_find s delimiter prev with Some p => p | None => length s end in
      let token := str_substr s prev (pos - prev) in
      let tokens := if negb (length token =? 0)%nat || keep_empty then tokens ++ [token] else tokens in
      let prev := (pos + length delimiter)%nat in
      if ((pos <? length s)%nat && (prev <? length s)%nat)%bool
      then split_loop fuel s delimiter keep_empty prev tokens
      else Some tokens
  end.

Definition split (fuel : nat) (s delimiter : bytes) (keep_empty : bool) : option (list bytes) :=
  if (length s =? 0)%nat then Some [] else split_loop fuel s delimiter keep_empty 0 [].

(** ** Reference definitions *)

(** Left-to-right replacement of non-overlapping occurrences, [n] a bound on the
    length of [s]. *)
Fixpoint replace_ref (n : nat) (from to s : bytes) : bytes :=
  match n with
  | O => s
  | S n =>
      if prefixb from s then to ++ replace_ref n from to (drop (length from) s)
      else match s with [] => [] | c :: s => c :: replace_ref n from to s end
  end.

Fixpoint join (sep : bytes) (l : list bytes) : bytes :=
  match l with
  | [] => []
  | [x] => x
  | x :: l => x ++ sep ++ join sep l
  end.

Definition occurs (pat s : bytes) : Prop := exists a b, s = a ++ pat ++ b.

(** * Searching *)

Lemma prefixb_spec pat s : prefixb pat s = true <-> exists b, s = pat ++ b.
Proof.
  revert s; induction pat as [|a pat IH]; intros s; simpl; [split; eauto|].
  destruct s as [|c s]; [split; [done|intros [b H]; discriminate H]|].
  rewrite andb_true_iff, Z.eqb_eq, IH. split.
  - intros [-> [b ->]]. by exists b.
  - intros [b [= -> ->]]. eauto.
Qed.

Lemma prefixb_drop pat s : prefixb pat s = true -> s = pat ++ drop (length pat) s.
Proof. intros [b ->]%prefixb_spec. by rewrite drop_app_length. Qed.

(** The first match, or none at all. *)
Lemma find_go_spec pat s i :
  match find_go pat s i with
  | Some p => exists a b, s = a ++ pat ++ b /\ p = (i + length a)%nat /\
      (forall a' b', s = a' ++ pat ++ b' -> (length a <= length a')%nat)
  | None => ~ occurs pat s
  end.
Proof.
  revert i; induction s as [|c s IH]; intros i; simpl.
  - destruct (prefixb pat []) eqn:E.
    + apply prefixb_spec in E as [b ->]. exists [], b. split_and!; simpl; [done|lia|lia].
    + intros (a & b & H). symmetry in H. apply app_eq_nil in H as [-> H].
      apply app_eq_nil in H as [-> ->]. discriminate E.
  - destruct (prefixb pat (c :: s)) eqn:E.
    + apply prefixb_spec in E as [b ->]. exists [], b. split_and!; simpl; [done|lia|lia].
    + specialize (IH (S i)). destruct (find_go pat s (S i)) as [p|].
      * destruct IH as (a & b & -> & -> & Hmin). exists (c :: a), b.
        split_and!; simpl; [done|lia|]. intros [|c' a'] b' H.
        -- exfalso. apply not_true_iff_false in E. apply E, prefixb_spec. eauto.
        -- injection H as _ H. apply Hmin in H. simpl. lia.
      * intros ([|c' a'] & b' & H).
        -- apply not_true_iff_false in E. apply E, prefixb_spec. eauto.
        -- injection H as _ H. apply IH. red; eauto.
Qed.

Lemma str_find_app pre rest pat :
  str_find (pre ++ rest) pat (length pre) = find_go pat rest (length pre).
Proof.
  unfold str_find. rewrite length_app.
  destruct (Nat.ltb_spec (length pre + length rest) (length pre)); [lia|].
  by rewrite drop_app_length.
Qed.

Lemma prefixb_false_min pat c s :
  (forall a' b', c :: s = a' ++ pat ++ b' -> (0 < length a')%nat) -> prefixb pat (c :: s) = false.
Proof.
  intros H. apply not_true_iff_false. intros [b E]%prefixb_spec.
  specialize (H [] b E). simpl in H. lia.
Qed.

(** * [replace] *)

Section replace.
Context (from to : bytes) (from_ne : from <> []).

Lemma replace_ref_found a b n :
  (forall a' b', a ++ from ++ b = a' ++ from ++ b' -> (length a <= length a')%nat) ->
  (length (a ++ from ++ b) <= n)%nat ->
  exists m, (length b <= m)%nat /\ replace_ref n from to (a ++ from ++ b) = a ++ to ++ replace_ref m from to b.
Proof.
  revert n; induction a as [|c a IH]; intros n Hmin Hn; (destruct n as [|n]; [destruct from; simpl in Hn; [done|lia]|]).
  - exists n. simpl in *. rewrite length_app in Hn. assert (length from <> 0)%nat by (by destruct from).
    split; [lia|]. rewrite (proj2 (prefixb_spec _ _)) by eauto. by rewrite drop_app_length.
  - simpl in Hn. destruct (IH n) as (m & Hm & E); [|lia|].
    { intros a' b' H. specialize (Hmin (c :: a') b'). simpl in Hmin. rewrite H in Hmin.
      specialize (Hmin eq_refl). lia. }
    exists m. split; [done|]. cbn [replace_ref app]. rewrite prefixb_false_min.
    + by rewrite E.
    + intros a' b' H. specialize (Hmin a' b' H). simpl in Hmin. lia.
Qed.

Lemma replace_ref_absent s n : ~ occurs from s -> replace_ref n from to s = s.
Proof.
  revert n; induction s as [|c s IH]; intros [|n] H; try done; simpl.
  - destruct (prefixb from []) eqn:E; [|done]. apply prefixb_spec in E as [b E].
    exfalso. apply H. by exists [], b.
  - destruct (prefixb from (c :: s)) eqn:E.
    + apply prefixb_spec in E as [b E]. exfalso. apply H. by exists [], b.
    + rewrite IH; [done|]. intros (a & b & ->). apply H. by exists (c :: a), b.
Qed.

Lemma replace_loop_spec fuel : forall pre rest n,
  (length rest < fuel)%nat -> (length rest <= n)%nat ->
  replace_loop fuel (pre ++ rest) from to (length pre) = Some (pre ++ replace_ref n from to rest).
Proof.
  induction fuel as [|fuel IH]; intros pre rest n Hf Hn; [lia|]. cbn [replace_loop].
  rewrite str_find_app. pose proof (find_go_spec from rest (length pre)) as F.
  destruct (find_go from rest (length pre)) as [p|]; [|by rewrite replace_ref_absent].
  destruct F as (a & b & -> & -> & Hmin).
  destruct (replace_ref_found a b n Hmin Hn) as (m & Hm & ->).
  unfold str_splice.
  replace (take (length pre + length a) (pre ++ a ++ from ++ b)) with (pre ++ a).
  2:{ rewrite app_assoc. symmetry. apply take_app_length'. rewrite length_app. lia. }
  replace (drop (length pre + length a + length from) (pre ++ a ++ from ++ b)) with b.
  2:{ rewrite !app_assoc. symmetry. apply drop_app_length'. rewrite !length_app. lia. }
  rewrite !app_assoc. replace (length pre + length a + length to)%nat with (length ((pre ++ a) ++ to))
    by (rewrite !length_app; lia).
  rewrite (IH _ b m); [by rewrite <- !app_assoc| |done].
  rewrite !length_app in Hf. assert (length from <> 0)%nat by (by destruct from). lia.
Qed.
End replace.

Lemma replace_loop_diverges fuel s to start :
  (start <= length s)%nat -> replace_loop fuel s [] to start = None.
Proof.
  revert s start; induction fuel as [|fuel IH]; intros s start H; [done|]. simpl.
  unfold str_find. destruct (Nat.ltb_spec (length s) start); [lia|].
  assert (E : find_go [] (drop start s) start = Some start) by by destruct (drop start s).
  rewrite E. apply IH. unfold str_splice. rewrite !length_app, length_take. lia.
Qed.

(** For a non-empty [from], [String::replace] terminates and returns the string
    with the occurrences of [from] replaced from left to right, never looking again
    at replaced text; for an empty [from] the loop never ends. *)
Theorem replace_correct s from to :
  (from <> [] -> replace (S (length s)) s from to = Some (replace_ref (length s) from to s)) /\
  (from = [] -> forall fuel, replace fuel s from to = None).
Proof.
  split.
  - intros H. apply (replace_loop_spec from to H _ []); lia.
  - intros -> fuel. apply replace_loop_diverges. lia.
Qed.

Lemma replace_correct_witness :
  replace 4 [97; 98; 97] [97] [98; 97] = Some (replace_ref 3 [97] [98; 97] [97; 98; 97]).
Proof. apply (proj1 (replace_correct [97; 98; 97] [97] [98; 97])). done. Defined.

(** * [split] *)

Definition kept (keep_empty : bool) (ts : list bytes) : list bytes :=
  List.filter (fun t => negb (length t =? 0)%nat || keep_empty) ts.

Lemma push_kept ke t tokens :
  (if negb (length t =? 0)%nat || ke then tokens ++ [t] else tokens) = tokens ++ kept ke [t].
Proof. unfold kept. simpl. destruct (_ || _); [done|by rewrite app_nil_r]. Qed.

Lemma kept_cons ke t ts : kept ke (t :: ts) = kept ke [t] ++ kept ke ts.
Proof. unfold kept. simpl. by destruct (_ || _). Qed.

Lemma split_loop_spec fuel s delim : forall pre rest,
  delim <> [] -> s = pre ++ rest -> rest <> [] -> (length rest <= fuel)%nat ->
  exists ts, ts <> [] /\
    (forall ke tokens, split_loop fuel s delim ke (length pre) tokens = Some (tokens ++ kept ke ts)) /\
    (join delim ts = rest \/ join delim ts ++ delim = rest) /\
    Forall (fun t => ~ occurs delim t) ts.
Proof.
  induction fuel as [|fuel IH]; intros pre rest Hd -> Hr Hf; [destruct rest; simpl in *; [done|lia]|].
  assert (length delim <> 0)%nat as Hdl by (by destruct delim).
  cbn [split_loop]. rewrite str_find_app. pose proof (find_go_spec delim rest (length pre)) as F.
  unfold str_substr. rewrite drop_app_length, !length_app.
  destruct (find_go delim rest (length pre)) as [p|].
  - destruct F as (a & b & -> & -> & Hmin).
    replace (length pre + length a - length pre)%nat with (length a) by lia.
    rewrite take_app_length, !length_app in *.
    assert (Ha : ~ occurs delim a).
    { intros (x & y & ->). specialize (Hmin x (y ++ delim ++ b)). rewrite <- !app_assoc in Hmin.
      specialize (Hmin eq_refl). rewrite !length_app in Hmin. lia. }
    destruct (Nat.ltb_spec (length pre + length a) (length pre + (length a + (length delim + length b)))); [|lia].
    destruct (Nat.ltb_spec (length pre + length a + length delim) (length pre + (length a + (length delim + length b))));
      cbn [andb].
    + replace (length pre + length a + length delim)%nat with (length (pre ++ a ++ delim)) by (rewrite !length_app; lia).
      destruct (IH (pre ++ a ++ delim) b) as (ts & Hne & E & Hj & Ho);
        [done|by rewrite <- !app_assoc|by intros ->; simpl in *; lia|lia|].
      exists (a :: ts). split_and!; [done| | |by constructor].
      * intros ke tokens. rewrite push_kept, (kept_cons ke a ts), E. by rewrite <- app_assoc.
      * destruct ts as [|t ts]; [done|]. change (join delim (a :: t :: ts)) with (a ++ delim ++ join delim (t :: ts)).
        destruct Hj as [<-|<-]; [by left|right]. by rewrite <- !app_assoc.
    + exists [a]. split_and!; [done|intros; by rewrite push_kept| |by constructor]. right. simpl.
      destruct b; [by rewrite app_nil_r|simpl in *; lia].
  - destruct (Nat.ltb_spec (length pre + length rest) (length pre + length rest)); [lia|]. cbn [andb].
    exists [rest]. split_and!; [done| |by left|by constructor].
    intros ke tokens. rewrite take_ge, push_kept by lia. done.
Qed.

Lemma split_loop_diverges fuel s ke tokens :
  s <> [] -> split_loop fuel s [] ke 0 tokens = None.
Proof.
  intros Hs. revert tokens; induction fuel as [|fuel IH]; intros tokens; [done|]. simpl.
  assert (E : str_find s [] 0 = Some 0%nat) by by destruct s. rewrite E. simpl.
  destruct s; [done|]. simpl. apply IH.
Qed.

(** For a non-empty delimiter, [String::split] terminates; its tokens hold no
    delimiter, and with [keep_empty] they join back to the string, except that one
    delimiter at the very end is dropped; without [keep_empty] exactly the empty
    tokens are missing.  An empty delimiter makes the loop endless. *)
Theorem split_correct s delim :
  s <> [] ->
  (delim <> [] -> exists ts,
     split (length s) s delim true = Some ts /\
     split (length s) s delim false = Some (kept false ts) /\
     (join delim ts = s \/ join delim ts ++ delim = s) /\
     Forall (fun t => ~ occurs delim t) ts) /\
  (delim = [] -> forall fuel ke, split fuel s delim ke = None).
Proof.
  intros Hs. unfold split. assert ((length s =? 0)%nat = false) as -> by (by destruct s). split.
  - intros Hd. destruct (split_loop_spec (length s) s delim [] s) as (ts & _ & E & Hj & Ho); [done..|].
    exists ts. simpl in E. rewrite !E. split_and!; [|done|done|done].
    simpl. f_equal. clear. induction ts as [|t ts IH]; [done|]. rewrite kept_cons, IH.
    unfold kept. simpl. by rewrite orb_true_r.
  - intros -> fuel ke. by apply split_loop_diverges.
Qed.

Lemma split_correct_witness :
  exists ts, split 4 [97; 44; 44; 98] [44] true = Some ts /\
     split 4 [97; 44; 44; 98] [44] false = Some (kept false ts) /\
     (join [44] ts = [97; 44; 44; 98] \/ join [44] ts ++ [44] = [97; 44; 44; 98]) /\
     Forall (fun t => ~ occurs [44] t) ts.
Proof. apply (proj1 (split_correct [97; 44; 44; 98] [44] ltac:(done))). done. Defined.

(** * [trim] *)

Lemma find_if_not_space_spec s :
  exists l r, s = l ++ r /\ length l = find_if_not_space s /\ Forall (fun c => isspace c = true) l /\
    (match r with [] => True | c :: _ => isspace c = false end).
Proof.
  induction s as [|c s (l & r & -> & Hl & Hs & Hr)].
  - exists [], []. simpl. split_and!; done.
  - simpl. destruct (isspace c) eqn:E.
    + exists (c :: l), r. simpl. split_and!; [done|by rewrite Hl|by constructor|done].
    + exists [], (c :: l ++ r). simpl. split_and!; done.
Qed.

Lemma all_space_find s : Forall (fun c => isspace c = true) s -> find_if_not_space s = length s.
Proof. induction 1 as [|c s E _ IH]; simpl; [done|]. by rewrite E, IH. Qed.

Lemma trim_bounds s l r mid :
  s = l ++ mid ++ r -> mid <> [] -> find_if_not_space s = length l -> find_if_not_space (rev s) = length r ->
  trim s = mid.
Proof.
  intros -> Hmid Hl Hr. unfold trim. rewrite Hl, Hr, !length_app.
  assert (length mid <> 0)%nat by (by destruct mid).
  destruct (Nat.ltb_spec (length l) (length l + (length mid + length r) - length r)); [|lia].
  unfold str_substr. rewrite drop_app_length. apply take_app_length'. lia.
Qed.

Lemma trim_cases s :
  (Forall (fun c => isspace c = true) s /\ trim s = []) \/
  (exists l mid r, s = l ++ mid ++ r /\ trim s = mid /\
    Forall (fun c => isspace c = true) l /\ Forall (fun c => isspace c = true) r /\
    (exists c t, mid = c :: t /\ isspace c = false) /\
    (exists c t, mid = t ++ [c] /\ isspace c = false)).
Proof.
  destruct (find_if_not_space_spec s) as (l & m & Hs & Hl & Hls & Hm).
  destruct m as [|c m].
  { left. rewrite app_nil_r in Hs. rewrite Hs. split; [done|].
    unfold trim. rewrite !all_space_find, length_rev by (done || by apply Forall_rev).
    destruct (Nat.leb_spec (length l - length l) (length l)); [|lia].
    by destruct (Nat.ltb_spec (length l) (length l - length l)); [lia|]. }
  right. destruct (find_if_not_space_spec (rev s)) as (r & m' & Hrs & Hr & Hrsp & Hm').
  apply (f_equal (@rev Z)) in Hrs. rewrite rev_involutive, rev_app_distr in Hrs.
  destruct m' as [|c' m'].
  { exfalso. assert (Forall (fun c => isspace c = true) s) as F by (rewrite Hrs; by apply Forall_rev).
    rewrite Hs in F. apply Forall_app in F as [_ F]. apply Forall_cons in F as [F _]. congruence. }
  simpl in Hrs. destruct (app_eq_app _ _ _ _ (eq_trans (eq_sym Hs) Hrs)) as (k & [[El Er]|[El Er]]).
  { exfalso. rewrite El, !Forall_app in Hls. destruct Hls as [[_ F] _].
    apply Forall_cons in F as [F _]. congruence. }
  assert (k <> []).
  { intros ->. rewrite app_nil_r in El. rewrite <- El, Forall_app in Hls.
    destruct Hls as [_ F]. apply Forall_cons in F as [F _]. congruence. }
  exists l, k, (rev r). split_and!; [by rewrite <- Er| |done|by apply Forall_rev| |].
  - apply (trim_bounds s l (rev r) k); [by rewrite <- Er|done|done|by rewrite length_rev].
  - destruct k as [|c1 k]; [done|]. injection Er as -> _. eauto.
  - destruct k as [|c1 k _] using rev_ind; [done|]. rewrite app_assoc in El.
    apply app_inj_tail in El as [_ ->]. eauto.
Qed.

(** [String::trim] removes exactly the longest runs of white space at both
    ends: the removed ends are white space, and what is left neither starts nor
    ends with a white-space character. *)
Theorem trim_correct s :
  exists l r, s = l ++ trim s ++ r /\
    Forall (fun c => isspace c = true) l /\ Forall (fun c => isspace c = true) r /\
    (forall c t, trim s = c :: t -> isspace c = false) /\
    (forall c t, trim s = t ++ [c] -> isspace c = false).
Proof.
  destruct (trim_cases s) as [[Hs ->]|(l & mid & r & Hs & -> & Hl & Hr & (c & t & E & Hc) & (c' & t' & E' & Hc'))].
  - exists s, []. rewrite app_nil_r. split_and!; [done|done|constructor|done|by intros ? []].
  - exists l, r. split_and!; [done|done|done| |].
    + intros x y H. rewrite H in E. by injection E as -> _.
    + intros x y H. rewrite H in E'. by apply app_inj_tail in E' as [_ ->].
Qed.
