(* ===== verification/SyncQueue.v ===== *)
(** * SyncQueue: the blocking queue (include/container/sync_queue.h)

    First the operations of [ema::SyncQueue<T>] as functions on its state, and the
    interface its users (thread pool, event handler, logger) are verified against;
    then its concurrent behaviour as a transition system of consumer threads, the
    mutex, the condition variable and the callers of [Push], [Clear] and [Stop]. *)

From S2P Require Import Prelude.

(** ** State and operations *)

Record sync_queue (A : Type) := mk_queue {
  queue_ : list A;
  stop_requested : bool  (* [stop_source_.stop_requested()] *)
}.
Arguments mk_queue {A}.
Arguments queue_ {A}.
Arguments stop_requested {A}.

Section ops.
Context {A : Type}.
Implicit Types q : sync_queue A.

Definition sq_empty : sync_queue A := mk_queue [] false.

Definition sq_push (v : A) q : sync_queue A := mk_queue (queue_ q ++ [v]) (stop_requested q).

(** The wait predicate of [Pop(cond)]; [Pop()] is the case [cond = false]. *)
Definition sq_ready (cond : bool) q : bool :=
  negb (length (queue_ q) =? 0)%nat || stop_requested q || cond.

(** [Pop] after the wait has returned; [front()] of an empty queue is undefined. *)
Definition sq_pop q : outcome (option A * sync_queue A) :=
  if stop_requested q then Done (None, q)
  else match queue_ q with
  | [] => UB
  | v :: l => Done (Some v, mk_queue l (stop_requested q))
  end.

(** [while (!queue_.empty()) queue_.pop();] *)
Fixpoint sq_clear_loop (l : list A) : list A :=
  match l with [] => [] | _ :: l => sq_clear_loop l end.
Definition sq_clear q : sync_queue A := mk_queue (sq_clear_loop (queue_ q)) (stop_requested q).

Definition sq_stop q : sync_queue A := mk_queue (queue_ q) true.
Definition sq_size q : nat := length (queue_ q).
End ops.

(** ** The interface of a task queue

    What the users of the queue rely on: a stoppable FIFO of items. *)
Class TaskQueue (Q : Type -> Type) := {
  tq_empty : forall A, Q A;
  tq_push : forall A, A -> Q A -> Q A;
  tq_ready : forall A, bool -> Q A -> bool;
  tq_pop : forall A, Q A -> outcome (option A * Q A);
  tq_clear : forall A, Q A -> Q A;
  tq_stop : forall A, Q A -> Q A;
  tq_items : forall A, Q A -> list A;
  tq_stopped : forall A, Q A -> bool
}.
Arguments tq_empty {Q _ A}.
Arguments tq_push {Q _ A}.
Arguments tq_ready {Q _ A}.
Arguments tq_pop {Q _ A}.
Arguments tq_clear {Q _ A}.
Arguments tq_stop {Q _ A}.
Arguments tq_items {Q _ A}.
Arguments tq_stopped {Q _ A}.

Class TaskQueueLaws (Q : Type -> Type) `{TaskQueue Q} := {
  tq_items_empty : forall A, tq_items (tq_empty : Q A) = [];
  tq_stopped_empty : forall A, tq_stopped (tq_empty : Q A) = false;
  tq_items_push : forall A (v : A) (q : Q A), tq_items (tq_push v q) = tq_items q ++ [v];
  tq_stopped_push : forall A (v : A) (q : Q A), tq_stopped (tq_push v q) = tq_stopped q;
  tq_items_clear : forall A (q : Q A), tq_items (tq_clear q) = [];
  tq_stopped_clear : forall A (q : Q A), tq_stopped (tq_clear q) = tq_stopped q;
  tq_items_stop : forall A (q : Q A), tq_items (tq_stop q) = tq_items q;
  tq_stopped_stop : forall A (q : Q A), tq_stopped (tq_stop q) = true;
  tq_ready_iff : forall A c (q : Q A),
    tq_ready c q = true <-> tq_items q <> [] \/ tq_stopped q = true \/ c = true;
  tq_pop_stopped : forall A (q : Q A), tq_stopped q = true -> tq_pop q = Done (None, q);
  tq_pop_item : forall A (q : Q A) v l,
    tq_stopped q = false -> tq_items q = v :: l ->
    exists q', tq_pop q = Done (Some v, q') /\ tq_items q' = l /\ tq_stopped q' = false;
  tq_pop_empty : forall A (q : Q A),
    tq_stopped q = false -> tq_items q = [] -> tq_pop q = UB
}.

#[export] Instance sync_queue_ops : TaskQueue sync_queue := {
  tq_empty A := sq_empty;
  tq_push A := sq_push;
  tq_ready A := sq_ready;
  tq_pop A := sq_pop;
  tq_clear A := sq_clear;
  tq_stop A := sq_stop;
  tq_items A := queue_;
  tq_stopped A := stop_requested
}.

Lemma sq_clear_loop_nil {A} (l : list A) : sq_clear_loop l = [].
Proof. by induction l. Qed.

#[export] Instance sync_queue_laws : TaskQueueLaws sync_queue.
Proof.
  split; simpl; try done.
  - intros A q. apply sq_clear_loop_nil.
  - intros A c q. unfold sq_ready. rewrite !orb_true_iff, negb_true_iff, Nat.eqb_neq.
    destruct (queue_ q); simpl; intuition (done || lia).
  - intros A q H. unfold sq_pop. by rewrite H.
  - intros A q v l Hs Hq. unfold sq_pop. rewrite Hs, Hq. by eexists.
  - intros A q Hs Hq. unfold sq_pop. by rewrite Hs, Hq.
Qed.

(** ** Concurrent executions

    Consumer threads run [Pop(cond)]; [cond] is a flag other threads raise.  The
    mutex and the condition variable are explicit: evaluating the wait predicate
    and going to sleep are two steps under the mutex, [Stop] is two steps without
    it, exactly as in the source. *)

Inductive pop_pc (A : Type) :=
| PLock                      (* about to lock the mutex and evaluate the predicate *)
| PEval                      (* holds the mutex *)
| PSleep                     (* holds the mutex, the predicate was false *)
| PBlocked                   (* sleeps in [cv_.wait] *)
| PDone (r : option A)       (* [Pop] has returned *)
| PCrash.                    (* undefined behaviour *)
Arguments PLock {A}.
Arguments PEval {A}.
Arguments PSleep {A}.
Arguments PBlocked {A}.
Arguments PDone {A}.
Arguments PCrash {A}.

Section conc.
Context {A : Type}.

Record qsys := mk_qsys {
  s_q : sync_queue A;
  s_cond : bool;
  s_lock : option nat;            (* the consumer holding [mutex_] *)
  s_pc : gmap nat (pop_pc A);
  s_pushed : list A;              (* history: values pushed, popped *)
  s_popped : list A;
  s_cleared : nat                 (* and the number of values [Clear] removed *)
}.

Definition set_pc (s : qsys) (t : nat) (c : pop_pc A) (lock : option nat) : qsys :=
  mk_qsys (s_q s) (s_cond s) lock (<[t := c]> (s_pc s)) (s_pushed s) (s_popped s) (s_cleared s).

(** [notify_all]: every sleeping thread goes back for the mutex. *)
Definition wake (c : pop_pc A) : pop_pc A := match c with PBlocked => PLock | c => c end.

Inductive qstep : qsys -> qsys -> Prop :=
(** A consumer locks the mutex. *)
| q_lock s t :
    s_lock s = None -> s_pc s !! t = Some PLock ->
    qstep s (set_pc s t PEval (Some t))
(** The predicate is false: decide to sleep, then sleep and release the mutex. *)
| q_sleep s t :
    s_pc s !! t = Some PEval -> sq_ready (s_cond s) (s_q s) = false ->
    qstep s (set_pc s t PSleep (s_lock s))
| q_block s t :
    s_pc s !! t = Some PSleep -> qstep s (set_pc s t PBlocked None)
(** The predicate is true: the rest of [Pop], then release the mutex. *)
| q_pop s t r q' :
    s_pc s !! t = Some PEval -> sq_ready (s_cond s) (s_q s) = true ->
    sq_pop (s_q s) = Done (r, q') ->
    qstep s (mk_qsys q' (s_cond s) None (<[t := PDone r]> (s_pc s)) (s_pushed s)
               (s_popped s ++ option_list r) (s_cleared s))
| q_crash s t :
    s_pc s !! t = Some PEval -> sq_ready (s_cond s) (s_q s) = true ->
    sq_pop (s_q s) = UB -> qstep s (set_pc s t PCrash None)
(** The consumer calls [Pop] again. *)
| q_again s t r :
    s_pc s !! t = Some (PDone r) -> qstep s (set_pc s t PLock (s_lock s))
(** [Push]: the whole body runs under the mutex; [notify_one] wakes one sleeper,
    if there is one. *)
| q_push_wake s v t :
    s_lock s = None -> s_pc s !! t = Some PBlocked ->
    qstep s (mk_qsys (sq_push v (s_q s)) (s_cond s) None (<[t := PLock]> (s_pc s))
               (s_pushed s ++ [v]) (s_popped s) (s_cleared s))
| q_push_nobody s v :
    s_lock s = None -> (forall t, s_pc s !! t <> Some PBlocked) ->
    qstep s (mk_qsys (sq_push v (s_q s)) (s_cond s) None (s_pc s)
               (s_pushed s ++ [v]) (s_popped s) (s_cleared s))
| q_clear s :
    s_lock s = None ->
    qstep s (mk_qsys (sq_clear (s_q s)) (s_cond s) None (s_pc s) (s_pushed s) (s_popped s)
               (s_cleared s + sq_size (s_q s)))
(** [Stop]: [request_stop], then [notify_all]; neither takes the mutex. *)
| q_stop_request s :
    qstep s (mk_qsys (sq_stop (s_q s)) (s_cond s) (s_lock s) (s_pc s) (s_pushed s) (s_popped s) (s_cleared s))
| q_notify_all s :
    qstep s (mk_qsys (s_q s) (s_cond s) (s_lock s) (wake <$> s_pc s) (s_pushed s) (s_popped s) (s_cleared s))
(** The condition of [Pop(cond)] becomes true. *)
| q_cond s :
    qstep s (mk_qsys (s_q s) true (s_lock s) (s_pc s) (s_pushed s) (s_popped s) (s_cleared s)).

Definition qsys_init (consumers : gset nat) : qsys :=
  mk_qsys sq_empty false None (gset_to_gmap PLock consumers) [] [] 0.

Definition qreach (consumers : gset nat) : qsys -> Prop := rtc qstep (qsys_init consumers).
End conc.
Arguments qsys : clear implicits.

(** * Ordering *)

Section conc_proofs.
Context {A : Type}.
Implicit Types s : qsys A.

Definition fifo_inv s : Prop :=
  sublist (s_popped s ++ queue_ (s_q s)) (s_pushed s) /\
  length (s_pushed s) = (length (s_popped s) + length (queue_ (s_q s)) + s_cleared s)%nat.

Lemma sq_pop_items (q q' : sync_queue A) r :
  sq_pop q = Done (r, q') -> queue_ q = option_list r ++ queue_ q'.
Proof.
  unfold sq_pop. destruct (stop_requested q); [by intros [= <- <-]|].
  destruct (queue_ q); [done|]. by intros [= <- <-].
Qed.

Lemma fifo_step s s' : fifo_inv s -> qstep s s' -> fifo_inv s'.
Proof.
  intros [Hs Hl] Hstep. destruct Hstep; unfold fifo_inv in *; simpl in *; try by split.
  - apply sq_pop_items in H1. rewrite H1 in *. rewrite <- app_assoc, !length_app in *.
    split; [done|lia].
  - rewrite app_assoc, !length_app. split; [by apply sublist_app|simpl; lia].
  - rewrite app_assoc, !length_app. split; [by apply sublist_app|simpl; lia].
  - rewrite sq_clear_loop_nil, app_nil_r. unfold sq_size. split; [|simpl; lia].
    etrans; [|exact Hs]. apply sublist_inserts_r. done.
Qed.

(** C1. In every reachable state of any number of producers and consumers, the
    values popped so far followed by the queue are a subsequence of the values
    pushed, in order, and only [Clear] loses values: without it they are exactly
    the values pushed. *)
Theorem queue_fifo consumers s :
  qreach consumers s ->
  sublist (s_popped s ++ queue_ (s_q s)) (s_pushed s) /\
  (s_cleared s = 0%nat -> s_popped s ++ queue_ (s_q s) = s_pushed s).
Proof.
  intros Hr. assert (fifo_inv s) as [Hs Hl].
  { eapply rtc_invariant; [apply fifo_step|exact Hr|]. split; simpl; [constructor|lia]. }
  split; [done|]. intros H0. apply sublist_same_length; [done|]. rewrite length_app. lia.
Qed.

(** * Sleeping and waking *)

(** The thread inside the critical section of [Pop] holds the mutex. *)
Definition mutex_inv s : Prop :=
  forall t c, s_pc s !! t = Some c -> c = PEval \/ c = PSleep -> s_lock s = Some t.

(** Decide an updated program counter. *)
Ltac pc_cases :=
  repeat match goal with
  | H : <[_ := _]> _ !! _ = Some _ |- _ => apply lookup_insert_Some in H as [[? ?]|[? ?]]; subst
  | H : (wake <$> _) !! _ = Some _ |- _ => rewrite lookup_fmap in H; apply fmap_Some in H as (? & ? & ?)
  end.

Lemma mutex_step s s' : mutex_inv s -> qstep s s' -> mutex_inv s'.
Proof.
  intros Hi Hstep t' c' Hc Hor. destruct Hstep; simpl in *; pc_cases;
    try (destruct Hor; discriminate); try (by eapply Hi; eauto); try done;
    try (assert (s_lock s = Some t') as Ht' by (eapply Hi; eauto);
         try assert (s_lock s = Some t) as Ht by (eapply Hi; eauto); congruence).
  destruct x; simpl in *; destruct Hor; subst; try done; eapply Hi; eauto.
Qed.

Lemma mutex_reach consumers s : qreach consumers s -> mutex_inv s.
Proof.
  intros Hr. eapply rtc_invariant; [apply mutex_step|exact Hr|].
  intros t c H. simpl in H. apply lookup_gset_to_gmap_Some in H as [_ <-]. by intros [|].
Qed.

(** A single consumer [t] that is about to sleep, or sleeps, has an empty queue. *)
Definition sleep_inv (t : nat) s : Prop :=
  (forall t' c, s_pc s !! t' = Some c -> t' = t) /\
  (s_pc s !! t = Some PSleep \/ s_pc s !! t = Some PBlocked -> queue_ (s_q s) = []).

Lemma not_ready_empty cond (q : sync_queue A) : sq_ready cond q = false -> queue_ q = [].
Proof. unfold sq_ready. by destruct (queue_ q). Qed.

Lemma sleep_step t s s' : mutex_inv s -> sleep_inv t s -> qstep s s' -> sleep_inv t s'.
Proof.
  intros Hm [Hdom Hq] Hstep. split.
  - intros t' c' H. destruct Hstep; simpl in *; pc_cases; eauto.
  - intros Hor. destruct Hstep; simpl in *;
      try (by apply Hq); try (by eapply not_ready_empty; eauto);
      try (match goal with H : s_pc _ !! ?x = Some _ |- _ => assert (x = t) as -> by eauto end;
           rewrite lookup_insert_eq in Hor; destruct Hor; try discriminate; eauto).
    + exfalso. destruct Hor as [Hs|Hs]; [|by apply (H0 t)]. specialize (Hm t _ Hs ltac:(auto)). congruence.
    + by rewrite sq_clear_loop_nil.
    + rewrite lookup_fmap in Hor. apply Hq.
      destruct (s_pc s !! t) as [[]|]; simpl in Hor; destruct Hor; try discriminate; auto.
Qed.

(** C2. No push is lost on a queue with one consumer (every queue of the library
    has one): the consumer never sleeps on a non-empty queue.  Moreover [Pop]
    reaches undefined behaviour ([front()] of an empty queue) only when its extra
    wait condition has been raised. *)
Theorem consumer_never_sleeps_on_items t s :
  qreach {[t]} s ->
  (s_pc s !! t = Some PBlocked -> queue_ (s_q s) = []) /\
  (s_pc s !! t = Some PCrash -> s_cond s = true).
Proof.
  intros Hr. split.
  - intros Hb. assert (mutex_inv s /\ sleep_inv t s) as [_ [_ Hq]]; [|auto].
    eapply (rtc_invariant _ (fun s => mutex_inv s /\ sleep_inv t s)); [|exact Hr|].
    + intros a b [Hm Hs] Hstep. split; [by eapply mutex_step|by eapply sleep_step].
    + split; [eapply mutex_reach, rtc_refl|]. split; simpl.
      * intros t' c H. apply lookup_gset_to_gmap_Some in H as [H _]. set_solver.
      * done.
  - revert s Hr. assert (forall s, qreach {[t]} s -> forall t' , s_pc s !! t' = Some PCrash -> s_cond s = true) as G; [|eauto].
    intros s Hr. eapply (rtc_invariant _ (fun s => forall t', s_pc s !! t' = Some PCrash -> s_cond s = true)); [|exact Hr|].
    + intros a b IH Hstep t' Hc. destruct Hstep; simpl in *; pc_cases; try done; eauto.
      * unfold sq_ready, sq_pop in *. destruct (stop_requested (s_q s0)); [done|].
        destruct (queue_ (s_q s0)); [|done]. by rewrite !orb_false_l in *.
      * destruct x; simplify_eq/=; eauto.
    + simpl. intros t' H. apply lookup_gset_to_gmap_Some in H as [_ H]. discriminate.
Qed.
End conc_proofs.

(** * A lost wake-up on [Stop] *)

(** [Stop] can miss a consumer: it does not take the mutex, so its
    [notify_all] may run after the consumer has evaluated the wait predicate and
    before it sleeps.  A state is reachable in which [Stop] has returned, the queue
    is stopped, and the consumer sleeps; from there only another [Push] or another
    [notify_all] can ever wake it. *)
Theorem stop_loses_wakeup :
  exists s : qsys nat, qreach {[0%nat]} s /\
    stop_requested (s_q s) = true /\ s_pc s !! 0%nat = Some PBlocked /\
    forall s', qstep s s' ->
      s_pc s' !! 0%nat = Some PBlocked \/ s_pushed s' <> s_pushed s \/
      s_pc s' = wake <$> s_pc s.
Proof.
  set (s0 := qsys_init {[0%nat]} : qsys nat).
  set (s1 := set_pc s0 0 PEval (Some 0%nat)).
  set (s2 := set_pc s1 0 PSleep (s_lock s1)).
  set (s3 := mk_qsys (sq_stop (s_q s2)) (s_cond s2) (s_lock s2) (s_pc s2) (s_pushed s2) (s_popped s2) (s_cleared s2)).
  set (s4 := mk_qsys (s_q s3) (s_cond s3) (s_lock s3) (wake <$> s_pc s3) (s_pushed s3) (s_popped s3) (s_cleared s3)).
  exists (set_pc s4 0 PBlocked None). split.
  { unfold qreach. fold s0.
    eapply rtc_l; [apply (q_lock s0 0); reflexivity|fold s1].
    eapply rtc_l; [apply (q_sleep s1 0); reflexivity|fold s2].
    eapply rtc_l; [apply (q_stop_request s2)|fold s3].
    eapply rtc_l; [apply (q_notify_all s3)|fold s4].
    apply rtc_once, q_block. reflexivity. }
  split; [reflexivity|]. split; [reflexivity|].
  intros s' Hstep. inversion Hstep; subst; clear Hstep; simpl in *; auto;
    try (right; left; intros E; apply (f_equal length) in E; simpl in E; discriminate);
    left; match goal with
    | H : _ !! ?t = Some ?c |- _ => destruct (decide (t = 0%nat)) as [->|]; [discriminate H|by rewrite lookup_insert_ne]
    end.
Qed.

Lemma queue_fifo_witness :
  let s := mk_qsys (sq_push 7 (sq_empty)) false None (gset_to_gmap PLock {[0%nat]}) [7] [] 0 : qsys Z in
  sublist (s_popped s ++ queue_ (s_q s)) (s_pushed s) /\
  (s_cleared s = 0%nat -> s_popped s ++ queue_ (s_q s) = s_pushed s).
Proof.
  intros s. apply (queue_fifo {[0%nat]} s). apply rtc_once.
  apply (q_push_nobody (qsys_init {[0%nat]}) 7); [done|].
  intros t H. apply lookup_gset_to_gmap_Some in H as [_ H]. discriminate.
Defined.

Lemma consumer_never_sleeps_on_items_witness :
  let s := set_pc (qsys_init {[0%nat]} : qsys Z) 0 PEval (Some 0%nat) in
  (s_pc s !! 0%nat = Some PBlocked -> queue_ (s_q s) = []) /\
  (s_pc s !! 0%nat = Some PCrash -> s_cond s = true).
Proof.
  intros s. apply (consumer_never_sleeps_on_items 0 s). apply rtc_once.
  by apply (q_lock (qsys_init {[0%nat]}) 0).
Defined.
