(* ===== verification/ThreadPool.v ===== *)
(** * ThreadPool: workers, submission and shutdown (include/thread/thread_pool.h)

    [detail::Worker] and [ThreadPool] over any queue with the [TaskQueue] interface.
    [Startup], [Submit] and [Shutdown] are state machines with one step for each access
    to the pool's shared variables; any number of threads may be in them, and their steps
    interleave with those of the workers.  The workers are objects on a heap, [_workers]
    has their addresses.  [Submit] and [Startup] use that vector under [_worker_mtx],
    [Shutdown] clears it without: where two of them use it at the same time the behaviour
    is undefined ([p_undef]), and an execution ends there. *)

From S2P Require Import Prelude SyncQueue.

Section pool.
Context {Q : Type -> Type} `{TaskQueueLaws Q} {task : Type}.

(** ** Workers *)

(** Where the worker's thread is in the loop of its constructor. *)
Inductive wpc :=
| WTop                        (* [while (!stop_token.stop_requested())] *)
| WFree                       (* [_busy = false] *)
| WPop                        (* in [_tasks.Pop] *)
| WGot (r : option task)      (* [Pop] has returned; [_busy = true] *)
| WRun (t : task)             (* [task()] *)
| WDec                        (* [_counter--] *)
| WExit                       (* the thread has ended *)
| WCrash.                     (* undefined behaviour in [Pop] *)

Record worker := mk_worker { _busy : bool; w_pc : wpc; _tasks : Q task }.

Definition worker_new : worker := mk_worker false WTop tq_empty.

Inductive weffect := ENone | EExec (t : task) | EDec | ECrash.

(** One step of a worker; [stop] is the pool's stop token. *)
Inductive wstep (stop : bool) : worker -> weffect -> worker -> Prop :=
| w_exit b q : stop = true -> wstep stop (mk_worker b WTop q) ENone (mk_worker b WExit q)
| w_top b q : stop = false -> wstep stop (mk_worker b WTop q) ENone (mk_worker b WFree q)
| w_free b q : wstep stop (mk_worker b WFree q) ENone (mk_worker false WPop q)
| w_pop b q r q' :
    tq_ready stop q = true -> tq_pop q = Done (r, q') ->
    wstep stop (mk_worker b WPop q) ENone (mk_worker b (WGot r) q')
| w_crash b q :
    tq_ready stop q = true -> tq_pop q = UB ->
    wstep stop (mk_worker b WPop q) ECrash (mk_worker b WCrash q)
| w_none b q : wstep stop (mk_worker b (WGot None) q) ENone (mk_worker true WTop q)
| w_some b q t : wstep stop (mk_worker b (WGot (Some t)) q) ENone (mk_worker true (WRun t) q)
| w_run b q t : wstep stop (mk_worker b (WRun t) q) (EExec t) (mk_worker b WDec q)
| w_dec b q : wstep stop (mk_worker b WDec q) EDec (mk_worker b WTop q).

Definition push_task (w : worker) (t : task) : worker :=
  mk_worker (_busy w) (w_pc w) (tq_push t (_tasks w)).
Definition clear_tasks (w : worker) : worker := mk_worker (_busy w) (w_pc w) (tq_clear (_tasks w)).
Definition stop_tasks (w : worker) : worker := mk_worker (_busy w) (w_pc w) (tq_stop (_tasks w)).

(** ** The pool *)

(** [~Worker] in progress: [_tasks.Clear(); _tasks.Stop(); _thread.join();] *)
Inductive cphase := CClear | CStop | CJoin.

(** A call of a member function: what it does next. *)
Inductive call :=
| UStartup (thread_count max_task_count : Z) (allow_expand : bool)   (* [if (_start)] *)
| UMax (thread_count max_task_count : Z) (allow_expand : bool)       (* [_max_task_count = ] *)
| UAllow (thread_count : Z) (allow_expand : bool)                    (* [_allow_expand = ] *)
| ULockS (create_count : Z)                                          (* [lock_guard lock(_worker_mtx)] *)
| UEnterS (create_count : Z)
| UCreate (left : Z)                                                 (* the loop of [emplace_back] *)
| UStarted                                                           (* [_start = true] *)
| UUnlockS
| USubmit (t : task)                     (* [if (!_start)] *)
| ULock (t : task)                       (* [lock_guard lock(_worker_mtx)] *)
| ULimit (t : task)                      (* reads [_curr_task_count] *)
| ULimit2 (t : task) (curr : Z)          (* reads [_max_task_count] *)
| UScan (t : task) (i : nat)             (* [IsBusy] of the worker at [i] *)
| UExpand (t : task)                     (* no worker's idle *)
| UCount (t : task) (id : nat) (new : bool)   (* [push_task]: [_counter++] *)
| UPush (t : task) (id : nat) (new : bool)    (* [push_task]: [_tasks.Push] *)
| UEmplace (id : nat)                    (* [_workers.emplace_back(new_worker)] *)
| UUnlock (r : outcome bool)
| UShutdown                              (* [if (!_start)] *)
| UStop                                  (* [_stop_source.request_stop()] *)
| UClear                                 (* [_workers.clear()] begins *)
| UDestroy (i : nat) (ph : cphase)       (* and is at this worker *)
| UStopped                               (* [_start = false] *)
| UDone (r : outcome bool)               (* [Submit] has answered *)
| UVoid.                                 (* [Startup] or [Shutdown] has returned *)

(** The call that uses the vector [_workers], or clears it. *)
Inductive vec_use := VFree | VUse (me : nat) | VClear (me : nat).

Record pool := mk_pool {
  _allow_expand : bool;
  _start : bool;
  _curr_task_count : Z;
  _max_task_count : Z;
  _worker_mtx : option nat;
  _workers : list nat;
  _stop_source : bool;
  p_heap : list worker;                (* every worker made, by its address *)
  p_calls : list call;                 (* the calls made, by any threads *)
  p_vec : vec_use;
  p_undef : bool;
  p_accepted : list task;              (* history: tasks queued, executed and dropped *)
  p_executed : list task;
  p_dropped : list task
}.

Definition pool_init : pool := mk_pool true false 0 0 None [] false [] [] VFree false [] [] [].

Definition with_start (p : pool) (allow start : bool) : pool :=
  mk_pool allow start (_curr_task_count p) (_max_task_count p) (_worker_mtx p) (_workers p)
    (_stop_source p) (p_heap p) (p_calls p) (p_vec p) (p_undef p) (p_accepted p) (p_executed p) (p_dropped p).
Definition with_max (p : pool) (max : Z) : pool :=
  mk_pool (_allow_expand p) (_start p) (_curr_task_count p) max (_worker_mtx p) (_workers p)
    (_stop_source p) (p_heap p) (p_calls p) (p_vec p) (p_undef p) (p_accepted p) (p_executed p) (p_dropped p).
Definition with_mtx (p : pool) (m : option nat) : pool :=
  mk_pool (_allow_expand p) (_start p) (_curr_task_count p) (_max_task_count p) m (_workers p)
    (_stop_source p) (p_heap p) (p_calls p) (p_vec p) (p_undef p) (p_accepted p) (p_executed p) (p_dropped p).
Definition with_stop (p : pool) : pool :=
  mk_pool (_allow_expand p) (_start p) (_curr_task_count p) (_max_task_count p) (_worker_mtx p) (_workers p)
    true (p_heap p) (p_calls p) (p_vec p) (p_undef p) (p_accepted p) (p_executed p) (p_dropped p).
Definition with_workers (p : pool) (ids : list nat) (ws : list worker) (v : vec_use) : pool :=
  mk_pool (_allow_expand p) (_start p) (_curr_task_count p) (_max_task_count p) (_worker_mtx p) ids
    (_stop_source p) ws (p_calls p) v (p_undef p) (p_accepted p) (p_executed p) (p_dropped p).
Definition with_vec (p : pool) (v : vec_use) : pool := with_workers p (_workers p) (p_heap p) v.
Definition with_calls (p : pool) (cs : list call) (undef : bool) : pool :=
  mk_pool (_allow_expand p) (_start p) (_curr_task_count p) (_max_task_count p) (_worker_mtx p) (_workers p)
    (_stop_source p) (p_heap p) cs (p_vec p) undef (p_accepted p) (p_executed p) (p_dropped p).

(** [_counter++] *)
Definition pool_count (p : pool) : pool :=
  mk_pool (_allow_expand p) (_start p) (u64 (_curr_task_count p + 1)) (_max_task_count p) (_worker_mtx p)
    (_workers p) (_stop_source p) (p_heap p) (p_calls p) (p_vec p) (p_undef p) (p_accepted p) (p_executed p) (p_dropped p).

(** [_tasks.Push(task)] on the worker [w] at [id]. *)
Definition pool_push (p : pool) (t : task) (id : nat) (w : worker) : pool :=
  mk_pool (_allow_expand p) (_start p) (_curr_task_count p) (_max_task_count p) (_worker_mtx p)
    (_workers p) (_stop_source p) (<[id := push_task w t]> (p_heap p)) (p_calls p) (p_vec p) (p_undef p)
    (p_accepted p ++ [t]) (p_executed p) (p_dropped p).

(** [_tasks.Clear()] on the worker [w] at [id]. *)
Definition pool_clear (p : pool) (id : nat) (w : worker) : pool :=
  mk_pool (_allow_expand p) (_start p) (_curr_task_count p) (_max_task_count p) (_worker_mtx p)
    (_workers p) (_stop_source p) (<[id := clear_tasks w]> (p_heap p)) (p_calls p) (p_vec p) (p_undef p)
    (p_accepted p) (p_executed p) (p_dropped p ++ tq_items (_tasks w)).

(** A step of the worker at [id]. *)
Definition set_worker (p : pool) (id : nat) (w : worker) (e : weffect) : pool :=
  mk_pool (_allow_expand p) (_start p)
    (match e with EDec => u64 (_curr_task_count p - 1) | _ => _curr_task_count p end)
    (_max_task_count p) (_worker_mtx p) (_workers p) (_stop_source p) (<[id := w]> (p_heap p)) (p_calls p)
    (p_vec p) (match e with ECrash => true | _ => p_undef p end) (p_accepted p)
    (match e with EExec t => p_executed p ++ [t] | _ => p_executed p end) (p_dropped p).

(** ** The member functions *)

(** A step of the call [me]: it waits for a mutex or a thread, or is undefined, or changes
    the pool and goes on. *)
Inductive cres := CWaits | CUndef | CNext (p : pool) (c : call).

Definition lock_mtx (me : nat) (p : pool) (c : call) : cres :=
  match _worker_mtx p with Some _ => CWaits | None => CNext (with_mtx p (Some me)) c end.

(** The call begins to use [_workers]. *)
Definition enter (me : nat) (v : vec_use) (p : pool) (c : call) : cres :=
  match p_vec p with VFree => CNext (with_vec p v) c | _ => CUndef end.

(** [emplace_back] of a new worker. *)
Definition add_worker (p : pool) : pool :=
  with_workers p (_workers p ++ [length (p_heap p)]) (p_heap p ++ [worker_new]) (p_vec p).

Definition Startup (me : nat) (p : pool) (c : call) : cres :=
  match c with
  | UStartup n m e => CNext p (if _start p then UVoid else UMax n m e)
  | UMax n m e => CNext (with_max p (if m =? 0 then 999 else m)) (UAllow n e)
  | UAllow n e => CNext (with_start p e (_start p)) (ULockS (if n =? 0 then 1 else n))
  | ULockS n => lock_mtx me p (UEnterS n)
  | UEnterS n => enter me (VUse me) p (UCreate n)
  | UCreate n =>
      if 0 <? n then CNext (add_worker p) (UCreate (n - 1)) else CNext (with_vec p VFree) UStarted
  | UStarted => CNext (with_start p (_allow_expand p) true) UUnlockS
  | UUnlockS => CNext (with_mtx p None) UVoid
  | _ => CWaits
  end.

(** [hw] is [std::thread::hardware_concurrency()], [r] the index drawn by the random
    generator.  The operands of [_curr_task_count > _max_task_count] are read from left
    to right. *)
Definition Submit (hw : Z) (r : nat) (me : nat) (p : pool) (c : call) : cres :=
  match c with
  | USubmit t => CNext p (if _start p then ULock t else UDone (Done false))
  | ULock t => lock_mtx me p (ULimit t)
  | ULimit t => CNext p (ULimit2 t (_curr_task_count p))
  | ULimit2 t curr =>
      if _max_task_count p <? curr then CNext p (UUnlock (Done false)) else enter me (VUse me) p (UScan t 0)
  | UScan t i =>
      match _workers p !! i with
      | None => CNext p (UExpand t)
      | Some id =>
          match p_heap p !! id with
          | None => CUndef
          | Some w => CNext p (if _busy w then UScan t (S i) else UCount t id false)
          end
      end
  | UExpand t =>
      let max_thread_count := u32 (hw * 2) in
      if negb (_allow_expand p) || (max_thread_count <? Z.of_nat (length (_workers p)) + 1) then
        match _workers p !! r with
        | Some id => CNext p (UCount t id false)
        | None => CNext (with_vec p VFree) (UUnlock (Throw "out_of_range"))
        end
      else CNext (with_workers p (_workers p) (p_heap p ++ [worker_new]) (p_vec p)) (UCount t (length (p_heap p)) true)
  | UCount t id new => CNext (pool_count p) (UPush t id new)
  | UPush t id new =>
      match p_heap p !! id with
      | None => CUndef
      | Some w =>
          let p := pool_push p t id w in
          if new then CNext p (UEmplace id) else CNext (with_vec p VFree) (UUnlock (Done true))
      end
  | UEmplace id => CNext (with_workers p (_workers p ++ [id]) (p_heap p) VFree) (UUnlock (Done true))
  | UUnlock r => CNext (with_mtx p None) (UDone r)
  | _ => CWaits
  end.

Definition Shutdown (me : nat) (p : pool) (c : call) : cres :=
  match c with
  | UShutdown => CNext p (if _start p then UStop else UVoid)
  | UStop => CNext (with_stop p) UClear
  | UClear => enter me (VClear me) p (UDestroy 0 CClear)
  | UDestroy i ph =>
      match _workers p !! i with
      | None => CNext (with_workers p [] (p_heap p) VFree) UStopped
      | Some id =>
          match p_heap p !! id with
          | None => CUndef
          | Some w =>
              match ph with
              | CClear => CNext (pool_clear p id w) (UDestroy i CStop)
              | CStop => CNext (with_workers p (_workers p) (<[id := stop_tasks w]> (p_heap p)) (p_vec p)) (UDestroy i CJoin)
              | CJoin => match w_pc w with WExit => CNext p (UDestroy (S i) CClear) | _ => CWaits end
              end
          end
      end
  | UStopped => CNext (with_start p (_allow_expand p) false) UVoid
  | _ => CWaits
  end.

Definition call_step (hw : Z) (r : nat) (me : nat) (p : pool) (c : call) : cres :=
  match c with
  | UStartup _ _ _ | UMax _ _ _ | UAllow _ _ | ULockS _ | UEnterS _ | UCreate _ | UStarted | UUnlockS => Startup me p c
  | UShutdown | UStop | UClear | UDestroy _ _ | UStopped => Shutdown me p c
  | _ => Submit hw r me p c
  end.

(** ** Executions *)

Definition call_begin (c : call) : Prop :=
  match c with
  | UStartup n m _ => in_u 64 n /\ in_u 64 m
  | USubmit _ | UShutdown => True
  | _ => False
  end.

(** The random index is drawn from [0, _workers.size() - 1]; of an empty vector that
    is any [size_t]. *)
Definition in_range (p : pool) (r : nat) : Prop := _workers p = [] \/ (r < length (_workers p))%nat.

Inductive pstep : pool -> pool -> Prop :=
| p_call p c : p_undef p = false -> call_begin c -> pstep p (with_calls p (p_calls p ++ [c]) false)
| p_next p hw r me c p' c' :
    p_undef p = false -> p_calls p !! me = Some c -> in_range p r ->
    call_step hw r me p c = CNext p' c' -> pstep p (with_calls p' (<[me := c']> (p_calls p')) false)
| p_race p hw r me c :
    p_undef p = false -> p_calls p !! me = Some c -> in_range p r ->
    call_step hw r me p c = CUndef -> pstep p (with_calls p (p_calls p) true)
| p_worker p id w e w' :
    p_undef p = false -> p_heap p !! id = Some w -> wstep (_stop_source p) w e w' -> pstep p (set_worker p id w' e).

Definition preach : pool -> Prop := rtc pstep pool_init.

(** * Task accounting *)

(** Tasks a worker holds, and what it counts for in [_curr_task_count]. *)
Definition inflight (c : wpc) : list task :=
  match c with WGot (Some t) | WRun t => [t] | _ => [] end.
Definition held (w : worker) : list task := inflight (w_pc w) ++ tq_items (_tasks w).
Definition busy_count (c : wpc) : nat :=
  match c with WGot (Some _) | WRun _ | WDec => 1 | _ => 0 end.
Definition cnt (w : worker) : nat := busy_count (w_pc w) + length (tq_items (_tasks w)).
Definition exec_of (e : weffect) : list task := match e with EExec t => [t] | _ => [] end.
Definition dec_of (e : weffect) : nat := match e with EDec => 1 | _ => 0 end.

(** A [Submit] that has counted its task and not yet queued it. *)
Definition announced (c : call) : nat := match c with UPush _ _ _ => 1 | _ => 0 end.

Lemma pop_items (q q' : Q task) r :
  tq_pop q = Done (r, q') -> tq_items q = option_list r ++ tq_items q'.
Proof.
  intros E. destruct (tq_stopped q) eqn:Es.
  - rewrite tq_pop_stopped in E by done. by injection E as <- <-.
  - destruct (tq_items q) as [|v l] eqn:Ei; [by rewrite tq_pop_empty in E|].
    destruct (tq_pop_item _ q v l Es Ei) as (q'' & E' & Hi & _).
    rewrite E' in E. injection E as <- <-. by rewrite Hi.
Qed.

Lemma wstep_effect stop w e w' :
  wstep stop w e w' ->
  cnt w = (cnt w' + dec_of e)%nat /\ held w ≡ₚ exec_of e ++ held w'.
Proof.
  intros Hs. destruct Hs as [| | |b q r q' _ E| | | | |]; unfold cnt, held; simpl;
    try (split; [lia|done]).
  apply pop_items in E. rewrite E, length_app.
  destruct r; simpl; split; done || lia.
Qed.

(** A closed worker's queue stays empty, an exited one does not move. *)
Lemma wstep_closed stop w e w' :
  wstep stop w e w' ->
  w_pc w <> WExit /\ (tq_items (_tasks w) = [] -> tq_items (_tasks w') = []).
Proof.
  intros Hs. destruct Hs as [| | |b q r q' _ E| | | | |]; simpl; try done.
  split; [done|]. apply pop_items in E. rewrite E. by destruct r.
Qed.

Lemma worker_new_cnt : cnt worker_new = 0%nat.
Proof. unfold cnt. simpl. by rewrite tq_items_empty. Qed.

Lemma worker_new_held : held worker_new = [].
Proof. unfold held. simpl. by rewrite tq_items_empty. Qed.

Lemma cnt_held w : cnt w = 0%nat -> held w = [].
Proof.
  unfold cnt, held. intros Hc. rewrite (nil_length_inv (tq_items (_tasks w))) by lia.
  destruct (w_pc w) as [| | |[]| | | |]; simpl in *; done || lia.
Qed.

Lemma push_task_cnt w t : cnt (push_task w t) = S (cnt w).
Proof. unfold cnt. simpl. rewrite tq_items_push, length_app. simpl. lia. Qed.

Lemma push_task_held w t : held (push_task w t) ≡ₚ t :: held w.
Proof. unfold held. simpl. rewrite tq_items_push, app_assoc. symmetry. apply Permutation_cons_append. Qed.

Lemma clear_tasks_cnt w : cnt w = (cnt (clear_tasks w) + length (tq_items (_tasks w)))%nat.
Proof. unfold cnt. simpl. rewrite tq_items_clear. simpl. lia. Qed.

Lemma clear_tasks_held w : held w ≡ₚ tq_items (_tasks w) ++ held (clear_tasks w).
Proof. unfold held. simpl. rewrite tq_items_clear, app_nil_r. apply Permutation_app_comm. Qed.

Lemma stop_tasks_cnt w : cnt (stop_tasks w) = cnt w.
Proof. unfold cnt. simpl. by rewrite tq_items_stop. Qed.

Lemma stop_tasks_held w : held (stop_tasks w) = held w.
Proof. unfold held. simpl. by rewrite tq_items_stop. Qed.

(** Replacing one element of a list that is counted. *)
Lemma sum_update {A} (f : A -> nat) (l : list A) i x y :
  l !! i = Some x ->
  (sum_list_with f (<[i := y]> l) + f x = sum_list_with f l + f y)%nat.
Proof.
  intros Hi. destruct (list_update_split _ _ _ y Hi) as (l1 & l2 & E1 & E2 & _).
  rewrite E2, E1, !sum_list_with_app. simpl. lia.
Qed.

(** The number of tasks that are counted, and the tasks that are held. *)
Definition total (p : pool) : nat :=
  sum_list_with cnt (p_heap p) + length (p_dropped p) + sum_list_with announced (p_calls p).
Definition held_all (p : pool) : list task := p_heap p ≫= held.

Definition counts_inv (p : pool) : Prop :=
  _curr_task_count p = u64 (Z.of_nat (total p)) /\
  p_accepted p ≡ₚ p_executed p ++ p_dropped p ++ held_all p.

(** The same worker changed: what its tasks are. *)
Lemma heap_update_held (ws : list worker) id w w' l :
  ws !! id = Some w -> (held w' ≡ₚ l ++ held w) -> (<[id := w']> ws) ≫= held ≡ₚ l ++ (ws ≫= held).
Proof.
  intros Hw Hl. destruct (list_update_split _ _ _ w' Hw) as (l1 & l2 & E1 & E2 & _).
  rewrite E2, E1, !bind_app, !bind_cons, Hl. solve_Permutation.
Qed.

Lemma heap_update_held' (ws : list worker) id w w' l :
  ws !! id = Some w -> (held w ≡ₚ l ++ held w') -> ws ≫= held ≡ₚ l ++ ((<[id := w']> ws) ≫= held).
Proof.
  intros Hw Hl. destruct (list_update_split _ _ _ w' Hw) as (l1 & l2 & E1 & E2 & _).
  rewrite E2, E1, !bind_app, !bind_cons, Hl. solve_Permutation.
Qed.

(** Steps that neither count, queue nor move a task. *)
Lemma counts_same p p' :
  _curr_task_count p' = _curr_task_count p -> total p' = total p -> p_accepted p' = p_accepted p ->
  p_executed p' = p_executed p -> p_dropped p' = p_dropped p -> held_all p' = held_all p ->
  counts_inv p -> counts_inv p'.
Proof. intros E1 E2 E3 E4 E5 E6 [Hc Hp]. split; [by rewrite E1, E2|by rewrite E3, E4, E5, E6]. Qed.

Lemma new_worker_counts ws :
  sum_list_with cnt (ws ++ [worker_new]) = sum_list_with cnt ws /\ (ws ++ [worker_new]) ≫= held = ws ≫= held.
Proof.
  rewrite sum_list_with_app, bind_app. simpl. rewrite worker_new_cnt, worker_new_held, !app_nil_r. split; [lia|done].
Qed.

(** A step of a call that leaves the tasks alone. *)
Lemma counts_silent p p' me c c' :
  p_calls p !! me = Some c -> announced c' = announced c ->
  p_calls p' = p_calls p -> _curr_task_count p' = _curr_task_count p -> p_accepted p' = p_accepted p ->
  p_executed p' = p_executed p -> p_dropped p' = p_dropped p ->
  (p_heap p' = p_heap p \/ p_heap p' = p_heap p ++ [worker_new]) ->
  counts_inv p -> counts_inv (with_calls p' (<[me := c']> (p_calls p')) false).
Proof.
  intros Hcs Ea E0 E1 E3 E4 E5 E6. pose proof (sum_update announced _ _ _ c' Hcs) as Ha.
  apply counts_same; try done; unfold total, held_all; cbn; rewrite ?E0, ?E5; destruct E6 as [->| ->];
    rewrite ?(proj1 (new_worker_counts _)), ?(proj2 (new_worker_counts _)); done || lia.
Qed.

Lemma counts_push p me t id new w c' :
  p_calls p !! me = Some (UPush t id new) -> announced c' = 0%nat -> p_heap p !! id = Some w ->
  counts_inv p -> counts_inv (with_calls (pool_push p t id w) (<[me := c']> (p_calls p)) false).
Proof.
  intros Hcs Ea Hw [Hc Hp]. pose proof (sum_update announced _ _ _ c' Hcs) as Ha.
  pose proof (sum_update cnt _ _ _ (push_task w t) Hw) as Hs. rewrite push_task_cnt in Hs.
  split; unfold total, held_all in *; cbn in *.
  - rewrite Hc. do 2 f_equal. lia.
  - rewrite Hp, (heap_update_held _ _ _ _ [t] Hw) by apply push_task_held. solve_Permutation.
Qed.

Lemma counts_clear p me id w c c' :
  p_calls p !! me = Some c -> announced c' = announced c -> p_heap p !! id = Some w ->
  counts_inv p -> counts_inv (with_calls (pool_clear p id w) (<[me := c']> (p_calls p)) false).
Proof.
  intros Hcs Ea Hw [Hc Hp]. pose proof (sum_update announced _ _ _ c' Hcs) as Ha.
  pose proof (sum_update cnt _ _ _ (clear_tasks w) Hw) as Hs. pose proof (clear_tasks_cnt w).
  split; unfold total, held_all in *; cbn in *.
  - rewrite Hc, length_app. do 2 f_equal. lia.
  - rewrite Hp, (heap_update_held' _ _ _ (clear_tasks w) _ Hw) by apply clear_tasks_held. solve_Permutation.
Qed.

Lemma counts_stop p me id w v c c' :
  p_calls p !! me = Some c -> announced c' = announced c -> p_heap p !! id = Some w -> counts_inv p ->
  counts_inv (with_calls (with_workers p (_workers p) (<[id := stop_tasks w]> (p_heap p)) v) (<[me := c']> (p_calls p)) false).
Proof.
  intros Hcs Ea Hw [Hc Hp]. pose proof (sum_update announced _ _ _ c' Hcs) as Ha.
  pose proof (sum_update cnt _ _ _ (stop_tasks w) Hw) as Hs. pose proof (stop_tasks_cnt w).
  split; unfold total, held_all in *; cbn in *.
  - rewrite Hc. do 2 f_equal. lia.
  - rewrite (heap_update_held _ _ _ _ [] Hw); [done|]. by rewrite stop_tasks_held.
Qed.

(** [split_step E]: the cases of a step. *)
Ltac split_step E :=
  unfold lock_mtx, enter in E;
  repeat match type of E with context [match ?x with _ => _ end] => destruct x eqn:? end;
  simplify_eq.

Lemma call_step_counts hw r me p c p' c' :
  counts_inv p -> p_calls p !! me = Some c -> call_step hw r me p c = CNext p' c' ->
  counts_inv (with_calls p' (<[me := c']> (p_calls p')) false).
Proof.
  intros Hc Hcs E. destruct c; cbn in E; split_step E;
    try solve [eapply counts_silent; eauto; cbn; auto];
    try match goal with Hw : p_heap _ !! _ = Some ?w |- counts_inv (with_calls _ (<[_ := ?c']> _) _) =>
      first [exact (counts_push p me _ _ _ w c' Hcs eq_refl Hw Hc)
            |exact (counts_clear p me _ w _ c' Hcs eq_refl Hw Hc)
            |exact (counts_stop p me _ w (p_vec p) _ c' Hcs eq_refl Hw Hc)] end.
  pose proof (sum_update announced _ _ _ (UPush t id new) Hcs). destruct Hc as [Hc Hp].
  split; unfold total in *; cbn in *; [|done]. rewrite Hc, u64_add. f_equal. lia.
Qed.

Lemma worker_step_counts p id w e w' :
  counts_inv p -> p_heap p !! id = Some w -> wstep (_stop_source p) w e w' -> counts_inv (set_worker p id w' e).
Proof.
  intros [Hc Hp] Hw Hs. destruct (wstep_effect _ _ _ _ Hs) as [Hn Hh].
  pose proof (sum_update cnt _ _ _ w' Hw) as Hu. split; unfold total, held_all in *; cbn in *.
  - destruct e; cbn in *; rewrite Hc; rewrite ?u64_sub; f_equal; lia.
  - rewrite Hp, (heap_update_held' _ _ _ w' _ Hw Hh). destruct e; cbn; solve_Permutation.
Qed.

Lemma pool_counts p : preach p -> counts_inv p.
Proof.
  intros Hr. eapply rtc_invariant; [|exact Hr|by split]. clear Hr. intros p1 p2 Hc Hs.
  destruct Hs as [p1 c Hu Hb|p1 hw r me c p' c' Hu Hcs Hr E|p1 hw r me c Hu Hcs Hr E|p1 id w e w' Hu Hw Hs].
  - revert Hc. apply counts_same; try done. unfold total; cbn. rewrite sum_list_with_app.
    destruct c; cbn in *; done || lia.
  - by eapply call_step_counts.
  - exact Hc.
  - by eapply worker_step_counts.
Qed.

(** ** Where the workers are *)

(** Calls that use the vector, and calls that clear it. *)
Definition uses (c : call) : bool :=
  match c with UCreate _ | UScan _ _ | UExpand _ | UCount _ _ _ | UPush _ _ _ | UEmplace _ => true | _ => false end.
Definition clearing (c : call) : bool := match c with UDestroy _ _ => true | _ => false end.

(** The workers that [_workers.clear()] has passed have ended with nothing to do. *)
Definition closed (p : pool) (i : nat) (ph : cphase) : Prop :=
  forall j id w, _workers p !! j = Some id -> p_heap p !! id = Some w ->
    ((j < i)%nat -> w_pc w = WExit /\ tq_items (_tasks w) = []) /\
    (j = i -> ph <> CClear -> tq_items (_tasks w) = []).

(** What a call relies on while it is at its place. *)
Definition call_data (p : pool) (c : call) : Prop :=
  match c with
  | UCount _ id false | UPush _ id false => id ∈ _workers p
  | UDestroy i ph => closed p i ph
  | _ => True
  end.

Record call_ok (p : pool) (me : nat) (c : call) : Prop := {
  ok_uses : uses c = true <-> p_vec p = VUse me;
  ok_clearing : clearing c = true <-> p_vec p = VClear me;
  ok_data : call_data p c
}.

(** A worker with something to do is in the vector, or about to be put there. *)
Definition placed (p : pool) : Prop :=
  forall id w, p_heap p !! id = Some w -> cnt w <> 0%nat ->
    id ∈ _workers p \/ exists me, p_calls p !! me = Some (UEmplace id).

Record place_inv (p : pool) : Prop := {
  pl_calls : forall me c, p_calls p !! me = Some c -> call_ok p me c;
  pl_placed : placed p;
  pl_vec : forall me, p_vec p = VUse me \/ p_vec p = VClear me -> (me < length (p_calls p))%nat
}.

Lemma call_data_same p p' c :
  _workers p' = _workers p -> p_heap p' = p_heap p -> call_data p c -> call_data p' c.
Proof. unfold call_data, closed. by intros -> ->. Qed.

Lemma call_data_idle p c : uses c = false -> clearing c = false -> call_data p c.
Proof. by destruct c. Qed.

(** The calls other than [me] after its step. *)
Lemma others_ok p p' me k c :
  k <> me -> call_ok p k c ->
  (p_vec p' = p_vec p \/
   p_vec p = VFree /\ (p_vec p' = VUse me \/ p_vec p' = VClear me) \/
   p_vec p' = VFree /\ (p_vec p = VUse me \/ p_vec p = VClear me)) ->
  (_workers p' = _workers p /\ p_heap p' = p_heap p \/ p_vec p = VUse me \/ p_vec p = VClear me) ->
  call_ok p' k c.
Proof.
  intros Hk [H1 H2 H3] Hv Hd. split.
  - destruct Hv as [->|[[Ev [-> | ->]]|[-> [Ev|Ev]]]]; rewrite ?Ev in H1; [done|..]; rewrite H1; split; congruence.
  - destruct Hv as [->|[[Ev [-> | ->]]|[-> [Ev|Ev]]]]; rewrite ?Ev in H2; [done|..]; rewrite H2; split; congruence.
  - destruct Hd as [[E1 E2]|Hd]; [by apply (call_data_same p)|].
    apply call_data_idle; apply not_true_iff_false; [rewrite H1|rewrite H2]; destruct Hd as [->| ->]; congruence.
Qed.

(** A step that loses sight of no worker with something to do. *)
Definition keeps (p : pool) (c c' : call) (ids : list nat) (ws : list worker) : Prop :=
  forall id w, ws !! id = Some w -> cnt w <> 0%nat ->
    id ∈ ids \/ c' = UEmplace id \/
    c <> UEmplace id /\ exists w0, p_heap p !! id = Some w0 /\ cnt w0 <> 0%nat /\ (id ∈ _workers p -> id ∈ ids).

(** The step of [me] itself: the new place fits the use of the vector. *)
Lemma step_ok p p' me c c' undef :
  place_inv p -> p_calls p !! me = Some c -> p_calls p' = p_calls p ->
  (p_vec p' = p_vec p \/
   p_vec p = VFree /\ (p_vec p' = VUse me \/ p_vec p' = VClear me) \/
   p_vec p' = VFree /\ (p_vec p = VUse me \/ p_vec p = VClear me)) ->
  (_workers p' = _workers p /\ p_heap p' = p_heap p \/ p_vec p = VUse me \/ p_vec p = VClear me) ->
  call_ok p' me c' ->
  keeps p c c' (_workers p') (p_heap p') ->
  place_inv (with_calls p' (<[me := c']> (p_calls p')) undef).
Proof.
  intros [Hcs Hpl Hlen] Hme E0 Hv Hd Hok Hp. rewrite E0. split; cbn.
  - intros k d [(<- & <- & _)|[Hk Hkd]]%list_lookup_insert_Some.
    + destruct Hok as [H1 H2 H3]. split; [done|done|]. by eapply call_data_same.
    + destruct (others_ok p p' me k d) as [H1 H2 H3]; auto. split; [done|done|]. by eapply call_data_same.
  - intros id w Hw Hn. cbn in *. destruct (Hp id w Hw Hn) as [?|[->|(Hne & w0 & Hw0 & Hn0 & Hin)]]; [by left| |].
    + right. exists me. apply list_lookup_insert_eq. by eapply lookup_lt_Some.
    + destruct (Hpl id w0 Hw0 Hn0) as [?|[k Hk]]; [left; auto|]. right. exists k.
      rewrite list_lookup_insert_ne; [done|]. intros ->. congruence.
  - intros k Hk. rewrite length_insert. destruct Hv as [Ev|[[_ [Ev|Ev]]|[Ev _]]]; rewrite Ev in Hk.
    + by apply Hlen.
    + destruct Hk as [[= <-]|]; [by eapply lookup_lt_Some|done].
    + destruct Hk as [|[= <-]]; [done|by eapply lookup_lt_Some].
    + by destruct Hk.
Qed.

(** A worker that is new, or where the step has not changed it. *)
Lemma placed_kept p c (ids : list nat) ws id w :
  (forall i, c <> UEmplace i) -> (ws = p_heap p \/ ws = p_heap p ++ [worker_new]) ->
  (id ∈ _workers p -> id ∈ ids) -> ws !! id = Some w -> cnt w <> 0%nat ->
  c <> UEmplace id /\ exists w0, p_heap p !! id = Some w0 /\ cnt w0 <> 0%nat /\ (id ∈ _workers p -> id ∈ ids).
Proof.
  intros Hc Hws Hids Hw Hn. split; [done|]. exists w. split_and!; try done.
  destruct Hws as [-> | ->]; [done|]. apply lookup_app_Some in Hw as [?|[_ Hw]]; [done|].
  apply list_lookup_singleton_Some in Hw as [_ <-]. by rewrite worker_new_cnt in Hn.
Qed.

(** A worker replaced by one with no more to do. *)
Lemma placed_less p c (ids : list nat) id' w' w'' id w :
  (forall i, c <> UEmplace i) -> (id ∈ _workers p -> id ∈ ids) ->
  p_heap p !! id' = Some w' -> (cnt w' = 0 -> cnt w'' = 0)%nat ->
  <[id' := w'']> (p_heap p) !! id = Some w -> cnt w <> 0%nat ->
  c <> UEmplace id /\ exists w0, p_heap p !! id = Some w0 /\ cnt w0 <> 0%nat /\ (id ∈ _workers p -> id ∈ ids).
Proof.
  intros Hc Hids Hw' Hle Hw Hn. split; [done|].
  apply list_lookup_insert_Some in Hw as [(<- & <- & _)|[_ Hw]]; eauto 10.
Qed.

Lemma closed_update p i ph id w w' ph' :
  closed p i ph -> _workers p !! i = Some id -> p_heap p !! id = Some w ->
  w_pc w' = w_pc w -> (tq_items (_tasks w) = [] -> tq_items (_tasks w') = []) ->
  (ph' <> CClear -> tq_items (_tasks w') = []) ->
  closed (with_workers p (_workers p) (<[id := w']> (p_heap p)) (p_vec p)) i ph'.
Proof.
  intros Hcl Hid Hw Hpc Hit Hph j jd wj Hj Hwj. cbn in *.
  apply list_lookup_insert_Some in Hwj as [(<- & <- & _)|[Hne Hwj]].
  - destruct (Hcl j id w Hj Hw) as [H1 H2]. rewrite Hpc. split; [|auto].
    intros Hlt. destruct (H1 Hlt). auto.
  - destruct (Hcl j jd wj Hj Hwj) as [H1 H2]. split; [done|]. intros ->. congruence.
Qed.

Lemma closed_next p i id w :
  closed p i CJoin -> _workers p !! i = Some id -> p_heap p !! id = Some w -> w_pc w = WExit -> closed p (S i) CClear.
Proof.
  intros Hcl Hid Hw Hpc j jd wj Hj Hwj. split; [|done]. intros Hlt. destruct (Hcl j jd wj Hj Hwj) as [H1 H2].
  destruct (decide (j = i)) as [->|]; [|apply H1; lia]. assert (wj = w) as -> by congruence. auto.
Qed.

Lemma closed_all p i ph id w :
  closed p i ph -> _workers p !! i = None -> id ∈ _workers p -> p_heap p !! id = Some w -> cnt w = 0%nat.
Proof.
  intros Hcl Hi [j Hj]%list_elem_of_lookup Hw. destruct (Hcl j id w Hj Hw) as [H1 _].
  destruct H1 as [Hpc Hit]; [apply lookup_lt_Some in Hj; apply lookup_ge_None in Hi; lia|].
  unfold cnt. by rewrite Hpc, Hit.
Qed.

(** The kinds of steps: that leave the vector and the workers alone, that begin to use the
    vector, that go on to use it, and that end to. *)
Lemma keeps_same p c c' : (forall i, c <> UEmplace i) -> keeps p c c' (_workers p) (p_heap p).
Proof. intros Hc id w Hw Hn. right; right. split; [done|]. eauto. Qed.

Lemma place_quiet p p' me c c' :
  place_inv p -> p_calls p !! me = Some c -> p_calls p' = p_calls p -> p_vec p' = p_vec p ->
  _workers p' = _workers p -> p_heap p' = p_heap p -> uses c' = uses c -> clearing c' = clearing c ->
  (forall i, c <> UEmplace i) -> (call_data p c -> call_data p c') ->
  place_inv (with_calls p' (<[me := c']> (p_calls p')) false).
Proof.
  intros Hi Hcs E0 Ev Ew Eh Eu Ec Hc Hd. destruct (pl_calls p Hi me c Hcs) as [H1 H2 H3].
  eapply step_ok; [exact Hi|exact Hcs|exact E0|by left|by left| |].
  - split; [by rewrite Eu, Ev|by rewrite Ec, Ev|]. eapply call_data_same; [exact Ew|exact Eh|auto].
  - rewrite Ew, Eh. by apply keeps_same.
Qed.

Lemma place_enter p me c c' v :
  place_inv p -> p_calls p !! me = Some c -> p_vec p = VFree -> (forall i, c <> UEmplace i) ->
  (v = VUse me /\ uses c' = true /\ clearing c' = false \/ v = VClear me /\ uses c' = false /\ clearing c' = true) ->
  call_data p c' ->
  place_inv (with_calls (with_vec p v) (<[me := c']> (p_calls (with_vec p v))) false).
Proof.
  intros Hi Hcs Ev Hc Hv Hd.
  apply (step_ok p (with_vec p v) me c c'); [exact Hi|exact Hcs|done| |by left| |exact (keeps_same p c c' Hc)].
  - right; left. split; [done|]. destruct Hv as [[-> _]|[-> _]]; auto.
  - destruct Hv as [(-> & Hu & Hcl)|(-> & Hu & Hcl)]; (split; [by rewrite Hu|by rewrite Hcl|exact Hd]).
Qed.

Lemma place_work p p' me c c' :
  place_inv p -> p_calls p !! me = Some c -> p_calls p' = p_calls p -> p_vec p' = p_vec p ->
  uses c' = uses c -> clearing c' = clearing c -> uses c = true \/ clearing c = true ->
  (call_data p c -> call_data p' c') -> keeps p c c' (_workers p') (p_heap p') ->
  place_inv (with_calls p' (<[me := c']> (p_calls p')) false).
Proof.
  intros Hi Hcs E0 Ev Eu Ec Hu Hd Hk. destruct (pl_calls p Hi me c Hcs) as [H1 H2 H3].
  eapply step_ok; [exact Hi|exact Hcs|exact E0|by left| | |exact Hk].
  - right. destruct Hu as [Hu|Hu]; [left; by apply H1|right; by apply H2].
  - split; [by rewrite Eu, Ev|by rewrite Ec, Ev|auto].
Qed.

Lemma place_leave p p' me c c' :
  place_inv p -> p_calls p !! me = Some c -> p_calls p' = p_calls p -> p_vec p' = VFree ->
  uses c' = false -> clearing c' = false -> uses c = true \/ clearing c = true ->
  keeps p c c' (_workers p') (p_heap p') ->
  place_inv (with_calls p' (<[me := c']> (p_calls p')) false).
Proof.
  intros Hi Hcs E0 Ev Eu Ec Hu Hk. destruct (pl_calls p Hi me c Hcs) as [H1 H2 H3].
  assert (p_vec p = VUse me \/ p_vec p = VClear me) as Hv by (destruct Hu; [left; by apply H1|right; by apply H2]).
  eapply step_ok; [exact Hi|exact Hcs|exact E0|by right; right|by right| |exact Hk].
  split; [by rewrite Eu, Ev|by rewrite Ec, Ev|by apply call_data_idle].
Qed.

Lemma keeps_new p c c' ids :
  (forall i, c <> UEmplace i) -> (forall id, id ∈ _workers p -> id ∈ ids) -> keeps p c c' ids (p_heap p ++ [worker_new]).
Proof. intros Hc Hids id w Hw Hn. right; right. eapply placed_kept; eauto. Qed.

Lemma keeps_less p c c' id w w' :
  (forall i, c <> UEmplace i) -> p_heap p !! id = Some w -> (cnt w = 0 -> cnt w' = 0)%nat ->
  keeps p c c' (_workers p) (<[id := w']> (p_heap p)).
Proof. intros Hc Hw Hle jd wj Hj Hn. right; right. by eapply placed_less. Qed.

(** [push_task] on a worker of the vector, or on the new one. *)
Lemma keeps_push p c c' id w w' :
  (forall i, c <> UEmplace i) -> id ∈ _workers p \/ c' = UEmplace id -> p_heap p !! id = Some w ->
  keeps p c c' (_workers p) (<[id := w']> (p_heap p)).
Proof.
  intros Hc Hid Hw jd wj [(<- & <- & _)|[Hne Hj]]%list_lookup_insert_Some Hn; [tauto|].
  right; right. split; [done|]. eauto.
Qed.

Lemma startup_place me p c p' c' :
  place_inv p -> p_calls p !! me = Some c -> Startup me p c = CNext p' c' ->
  place_inv (with_calls p' (<[me := c']> (p_calls p')) false).
Proof.
  intros Hi Hcs E. destruct c; cbn in E; split_step E; try solve [by eapply place_quiet].
  - eapply place_enter; [exact Hi|exact Hcs|done|done|by left|done].
  - eapply place_work; eauto; cbn; auto. apply keeps_new; [done|]. intros id. rewrite elem_of_app. auto.
  - eapply place_leave; eauto; cbn; auto. by apply keeps_same.
Qed.

Lemma submit_place hw r me p c p' c' :
  place_inv p -> p_calls p !! me = Some c -> Submit hw r me p c = CNext p' c' ->
  place_inv (with_calls p' (<[me := c']> (p_calls p')) false).
Proof.
  intros Hi Hcs E. pose proof (ok_data _ _ _ (pl_calls p Hi me c Hcs)) as H3.
  assert (forall i id, _workers p !! i = Some id -> id ∈ _workers p) as Hin by (intros; by eapply list_elem_of_lookup_2).
  destruct c; cbn in E; split_step E; try solve [by eapply place_quiet; eauto].
  - eapply place_enter; [exact Hi|exact Hcs|done|done|by left|done].
  - eapply place_quiet; [exact Hi|exact Hcs|done..|]. cbn. eauto.
  - eapply place_quiet; [exact Hi|exact Hcs|done..|]. cbn. eauto.
  - eapply place_leave; [exact Hi|exact Hcs|done|done|done|done|by left|]. cbn. by apply keeps_same.
  - eapply place_work; [exact Hi|exact Hcs|done|done|done|done|by left|done|]. cbn. by apply keeps_new.
  - eapply place_work; [exact Hi|exact Hcs|done|done|done|done|by left|done|]. cbn. apply keeps_push with w; auto.
  - eapply place_leave; [exact Hi|exact Hcs|done|done|done|done|by left|]. cbn. apply keeps_push with w; auto.
  - eapply place_leave; [exact Hi|exact Hcs|done|done|done|done|by left|].
    intros jd w Hw Hn. cbn in *. destruct (decide (jd = id)) as [->|Hne]; [left; set_solver|].
    right; right. split; [congruence|]. exists w. set_solver.
Qed.

Lemma shutdown_place me p c p' c' :
  place_inv p -> p_calls p !! me = Some c -> Shutdown me p c = CNext p' c' ->
  place_inv (with_calls p' (<[me := c']> (p_calls p')) false).
Proof.
  intros Hi Hcs E. pose proof (ok_data _ _ _ (pl_calls p Hi me c Hcs)) as H3.
  destruct c; cbn in E; split_step E; try solve [by eapply place_quiet; eauto].
  - eapply place_enter; [exact Hi|exact Hcs|done|done|by right|]. intros j id w _ _. split; [lia|done].
  - eapply place_work; [exact Hi|exact Hcs|done|done|done|done|by right| |].
    + intros Hcl. apply (closed_update p i CClear n w (clear_tasks w)); try done; intros _; apply tq_items_clear.
    + cbn. apply keeps_less with w; [done|done|]. pose proof (clear_tasks_cnt w). lia.
  - eapply place_work; [exact Hi|exact Hcs|done|done|done|done|by right| |].
    + intros Hcl. assert (tq_items (_tasks w) = []) as Hit by (by eapply Hcl).
      apply (closed_update p i CStop n w (stop_tasks w)); try done; intros _; cbn; by rewrite tq_items_stop.
    + cbn. apply keeps_less with w; [done|done|]. by rewrite stop_tasks_cnt.
  - eapply place_quiet; [exact Hi|exact Hcs|done..|]. cbn. intros Hcl. by eapply closed_next.
  - eapply place_leave; [exact Hi|exact Hcs|done|done|done|done|by right|].
    intros id w Hw Hn. right; right. split; [done|]. exists w. split_and!; [done|done|].
    intros Hid. destruct Hn. by eapply closed_all.
Qed.

Lemma place_step p p' : place_inv p -> pstep p p' -> place_inv p'.
Proof.
  intros Hi Hs. destruct Hs as [p c Hu Hb|p hw r me c p' c' Hu Hcs Hr E|p hw r me c Hu Hcs Hr E|p id w e w' Hu Hw Hs].
  - destruct Hi as [Hcs Hpl Hlen].
    assert (forall v, p_vec p = v -> v <> VUse (length (p_calls p)) /\ v <> VClear (length (p_calls p))) as Hv.
    { intros v Ev. split; intros ->; specialize (Hlen _ ltac:(eauto)); lia. }
    destruct (Hv _ eq_refl) as [Hv1 Hv2]. split; cbn.
    + intros me d [Hd|[Hge Hd]]%lookup_app_Some; [by destruct (Hcs me d Hd); split|].
      apply list_lookup_singleton_Some in Hd as [Hme <-]. replace me with (length (p_calls p)) by lia.
      split; cbn; [|by destruct c|by apply call_data_idle; destruct c]; destruct c; done.
    + intros id w Hw Hn. destruct (Hpl id w Hw Hn) as [?|[k Hk]]; [by left|]. right. exists k. cbn.
      by apply lookup_app_l_Some.
    + intros k Hk. rewrite length_app. specialize (Hlen k Hk). cbn. lia.
  - destruct c; cbn in E; solve [by eapply startup_place|by eapply (submit_place hw r)|by eapply shutdown_place|done].
  - destruct Hi as [Hc Hpl Hlen]. split; [|done|done]. intros k d Hd. by destruct (Hc k d Hd); split.
  - destruct Hi as [Hcs Hpl Hlen]. destruct (wstep_effect _ _ _ _ Hs) as [Hn _].
    destruct (wstep_closed _ _ _ _ Hs) as [Hne Hit]. split; [| |done]; cbn.
    + intros me c Hme. destruct (Hcs me c Hme) as [H1 H2 H3]. split; [done|done|].
      destruct c as [| | | | | | | | | | | | | |? ? []|? ? []| | | | | |i ph| | |]; try done. cbn in *.
      intros j jd wj Hj Hwj. cbn in *. apply list_lookup_insert_Some in Hwj as [(<- & <- & _)|[_ Hwj]]; [|by eapply H3].
      destruct (H3 j id w Hj Hw) as [H4 H5]. split; [|auto]. intros Hlt. by destruct (H4 Hlt).
    + intros jd wj Hj Hwj. cbn in *. apply list_lookup_insert_Some in Hj as [(<- & <- & _)|[_ Hj]]; [|by eapply Hpl].
      apply (Hpl id w Hw). lia.
Qed.

Lemma pool_place p : preach p -> place_inv p.
Proof.
  intros Hr. eapply rtc_invariant; [apply place_step|exact Hr|]. split; cbn; [done| |by intros ? [?|?]].
  intros id w Hw. done.
Qed.

(** C3. In every reachable state of the pool, whatever calls of [Startup], [Submit] and
    [Shutdown] any threads are in, each task that has been queued is in exactly one place:
    executed (so at most once), held by a worker, or dropped by a shutdown; a worker with
    something to do is in [_workers], or is the one its [Submit] is about to put there, so
    no shutdown destroys one; and [_curr_task_count] is (modulo 2^64) the number of tasks
    queued, taken or finishing, plus those counted and about to be queued, plus the tasks
    shutdowns have dropped, which are never uncounted.  An execution ends where it becomes
    undefined, as when [Shutdown] clears the vector another call uses. *)
Theorem pool_accounting p :
  preach p ->
  p_accepted p ≡ₚ p_executed p ++ p_dropped p ++ (p_heap p ≫= held) /\
  (forall id w, p_heap p !! id = Some w -> held w <> [] ->
    id ∈ _workers p \/ exists me, p_calls p !! me = Some (UEmplace id)) /\
  _curr_task_count p = u64 (Z.of_nat
    (sum_list_with cnt (p_heap p) + length (p_dropped p) + sum_list_with announced (p_calls p))).
Proof.
  intros Hr. destruct (pool_counts p Hr) as [Hc Hp]. split; [exact Hp|]. split; [|exact Hc].
  intros id w Hw Hh. apply (pl_placed p (pool_place p Hr) id w Hw). intros Hn. by apply Hh, cnt_held.
Qed.


(** * Runs *)

(** The calls step in the order given, with a generator that draws 0. *)
Fixpoint run_calls (ids : list nat) (p : pool) : option pool :=
  match ids with
  | [] => Some p
  | me :: ids =>
      match p_calls p !! me with
      | None => None
      | Some c =>
          match call_step 0 0 me p c with
          | CNext p' c' => run_calls ids (with_calls p' (<[me := c']> (p_calls p')) false)
          | _ => None
          end
      end
  end.

Lemma run_calls_rtc ids : forall p p', p_undef p = false -> run_calls ids p = Some p' -> rtc pstep p p'.
Proof.
  induction ids as [|me ids IH]; intros p p' Hu; cbn [run_calls]; [by intros [= ->]|].
  destruct (p_calls p !! me) as [c|] eqn:Hc; [|done].
  destruct (call_step 0 0 me p c) as [| |p1 c1] eqn:E; [done|done|]. intros Hr.
  eapply rtc_l; [eapply (p_next p 0 0); eauto|by apply IH].
  unfold in_range. destruct (_workers p); [by left|right; cbn; lia].
Qed.

(** All of [cs] are called at once, then they step. *)
Definition run_pool (cs : list call) (ids : list nat) : option pool := run_calls ids (with_calls pool_init cs false).

Lemma run_pool_reach cs ids p : Forall call_begin cs -> run_pool cs ids = Some p -> preach p.
Proof.
  intros Hcs Hr. unfold preach. etrans; [|by apply (run_calls_rtc ids (with_calls pool_init cs false))].
  clear Hr ids. induction cs as [|c cs IH] using rev_ind; [apply rtc_refl|].
  apply Forall_app in Hcs as [Hcs Hc]. etrans; [by apply IH|]. apply rtc_once.
  apply (p_call (with_calls pool_init cs false) c); [done|]. by inversion Hc.
Qed.

(** * The task limit *)

(** The test of [Submit] lets one task more than the maximum in. *)
Theorem pool_task_limit (t : task) : exists p,
  preach p /\ _max_task_count p = 1 /\ _curr_task_count p = 2 /\ p_accepted p = [t; t].
Proof.
  assert (exists p, run_pool [UStartup 1 1 false; USubmit t; USubmit t] (replicate 9 0 ++ replicate 8 1 ++ replicate 8 2)%nat = Some p) as [p E] by (vm_compute; eauto).
  exists p. split; [eapply run_pool_reach; [|exact E]|vm_compute in E; by injection E as <-].
  repeat constructor; unfold in_u; lia.
Qed.

(** * Restarting *)

(** The stop token is set and no worker thread is past the loop test. *)
Definition dead (p : pool) : Prop :=
  _stop_source p = true /\ Forall (fun w => w_pc w = WTop \/ w_pc w = WExit) (p_heap p).

Lemma dead_call hw r me p c p' c' :
  dead p -> call_step hw r me p c = CNext p' c' -> dead p' /\ p_executed p' = p_executed p.
Proof.
  intros [Hstop Hall] E.
  assert (forall id w w', p_heap p !! id = Some w -> w_pc w' = w_pc w ->
    Forall (fun w => w_pc w = WTop \/ w_pc w = WExit) (<[id := w']> (p_heap p))) as Upd.
  { intros id w w' Hw Hpc. apply Forall_insert; [done|]. rewrite Hpc. by eapply Forall_lookup_1 in Hall. }
  assert (Forall (fun w => w_pc w = WTop \/ w_pc w = WExit) (p_heap p ++ [worker_new])) as New.
  { apply Forall_app. split; [done|]. constructor; [by left|done]. }
  destruct c; cbn in E; split_step E; (split; [split|]); try done; cbn; by eapply Upd.
Qed.

Lemma dead_step p p' : dead p -> pstep p p' -> dead p' /\ p_executed p' = p_executed p.
Proof.
  intros Hd Hs. destruct Hs as [p c Hu Hb|p hw r me c p' c' Hu Hcs Hr E|p hw r me c Hu Hcs Hr E|p id w e w' Hu Hw Hs]; try done.
  - destruct (dead_call _ _ _ _ _ _ _ Hd E) as [[? ?] ?]. done.
  - destruct Hd as [Hstop Hall]. assert (w_pc w = WTop \/ w_pc w = WExit) as Hpc by (by eapply Forall_lookup_1 in Hall).
    rewrite Hstop in Hs. destruct Hs; cbn in *; try done; try (by destruct Hpc).
    split; [|done]. split; [done|]. cbn. apply Forall_insert; [done|by right].
Qed.

(** [Shutdown] is final: the stop source is never renewed, so once it is stopped and the
    workers have ended no later task is ever executed, whatever [Startup]s and [Submit]s
    follow -- although [Submit] still answers [true]. *)
Theorem pool_restart_dead p p' :
  _stop_source p = true -> Forall (fun w => w_pc w = WExit) (p_heap p) -> rtc pstep p p' -> p_executed p' = p_executed p.
Proof.
  intros Hs Hw Hr. assert (dead p) as Hd by (split; [done|by eapply Forall_impl; [exact Hw|auto]]).
  enough (dead p' /\ p_executed p' = p_executed p) by tauto.
  eapply (rtc_invariant _ (fun q => dead q /\ p_executed q = p_executed p)); [|exact Hr|done].
  intros a b [Ha <-] Hab. by apply dead_step.
Qed.

(** * Undefined behaviour during shutdown *)

(** [Shutdown] can make a worker call [front()] on its empty queue: the stop
    token ends the wait of [Pop(cond)] before the queue itself is stopped. *)
Theorem pool_shutdown_race : exists p w, preach p /\ p_heap p = [w] /\ w_pc w = WCrash.
Proof.
  assert (exists p, run_pool [UStartup 1 1 false; UShutdown] (replicate 9 0)%nat = Some p) as [p1 E1] by (vm_compute; eauto).
  assert (preach p1) as R1 by (eapply run_pool_reach; [|exact E1]; repeat constructor; unfold in_u; lia).
  vm_compute in E1. injection E1 as <-.
  match type of R1 with preach ?p => set (p1 := p) in R1 end.
  set (w1 := mk_worker false WFree tq_empty). set (p2 := set_worker p1 0 w1 ENone).
  set (w2 := mk_worker false WPop tq_empty). set (p3 := set_worker p2 0 w2 ENone).
  assert (exists q, run_calls [1; 1]%nat p3 = Some q) as [p4 E2] by (vm_compute; eauto).
  assert (rtc pstep p3 p4) as R2 by (eapply run_calls_rtc; [|exact E2]; done).
  vm_compute in E2. injection E2 as <-.
  match type of R2 with rtc _ _ ?p => set (p4 := p) in R2 end.
  set (w3 := mk_worker false WCrash tq_empty). exists (set_worker p4 0 w3 ECrash), w3. split; [|done].
  unfold preach in *. etrans; [exact R1|].
  eapply rtc_l; [by apply (p_worker p1 0 worker_new ENone w1); [..|constructor]|fold p2].
  eapply rtc_l; [by apply (p_worker p2 0 w1 ENone w2); [..|constructor]|fold p3].
  etrans; [exact R2|]. apply rtc_once. apply (p_worker p4 0 w2 ECrash w3); [done|done|]. apply w_crash.
  - apply tq_ready_iff. auto.
  - apply tq_pop_empty; [apply tq_stopped_empty|apply tq_items_empty].
Qed.

(** [Shutdown] clears [_workers] without the mutex under which [Submit] reads it: calls of
    the two that meet there are undefined. *)
Theorem pool_submit_race (t : task) : exists p,
  preach p /\ p_calls p = [UVoid; UScan t 0; UClear] /\ p_undef p = true.
Proof.
  assert (exists p, run_pool [UStartup 1 1 false; USubmit t; UShutdown] (replicate 9 0 ++ replicate 4 1 ++ replicate 2 2)%nat = Some p) as [p E] by (vm_compute; eauto).
  assert (preach p) as R by (eapply run_pool_reach; [|exact E]; repeat constructor; unfold in_u; lia).
  vm_compute in E. injection E as <-. match type of R with preach ?p => set (p1 := p) in R end.
  exists (with_calls p1 (p_calls p1) true). split; [|done]. eapply rtc_r; [exact R|].
  eapply (p_race p1 0 0 2); try done. right. cbn. lia.
Qed.
End pool.

(** A task is submitted, to a pool of one worker, while a second [Submit] waits. *)
Lemma pool_accounting_witness : exists p : pool (Q := sync_queue) (task := Z),
  p_accepted p = [7] /\ p_calls p = [UVoid; UUnlock (Done true); ULock 8] /\
  p_accepted p ≡ₚ p_executed p ++ p_dropped p ++ (p_heap p ≫= held) /\
  (forall id w, p_heap p !! id = Some w -> held w <> [] ->
    id ∈ _workers p \/ exists me, p_calls p !! me = Some (UEmplace id)) /\
  _curr_task_count p = u64 (Z.of_nat
    (sum_list_with cnt (p_heap p) + length (p_dropped p) + sum_list_with announced (p_calls p))).
Proof.
  assert (exists p, run_pool (Q := sync_queue) [UStartup 1 5 true; USubmit 7; USubmit 8] (replicate 9 0 ++ replicate 7 1 ++ [2])%nat = Some p) as [p E] by (vm_compute; eauto).
  exists p. split; [vm_compute in E; by injection E as <-|]. split; [vm_compute in E; by injection E as <-|].
  apply (pool_accounting p). eapply run_pool_reach; [|exact E]. repeat constructor; unfold in_u; lia.
Defined.

Lemma pool_restart_dead_witness :
  let p := mk_pool true false 0 3 None [] true [] [UStartup 1 3 true] VFree false [] [] [] : pool (Q := sync_queue) (task := Z) in
  exists p', run_calls (replicate 9 0%nat) p = Some p' /\ _start p' = true /\ p_executed p' = p_executed p.
Proof.
  intros p. assert (exists q, run_calls (replicate 9 0%nat) p = Some q) as [p' E] by (vm_compute; eauto). exists p'. split; [done|].
  split; [vm_compute in E; by injection E as <-|].
  apply (pool_restart_dead p p'); [done|constructor|]. by eapply run_calls_rtc.
Defined.
