(* ===== verification/Promise.v ===== *)
(** * Promise: promises and futures (include/thread/thread.h)

    [detail::_SharedPromiseState<F, S>], whose members all run under its mutex, so that
    any use from several threads is a sequence of them; and the [Promise] and [Future]
    handles on shared states.

    A callback runs while the mutex is held.  What the state needs to know of it: whether
    it moves the value out of the rvalue it gets, whether it throws, and whether it calls
    a member of the same state again, which locks a [std::mutex] the thread already owns
    and is undefined.  [void_s] and [void_f] tell which of [S] and [F] is [void]. *)

From S2P Require Import Prelude.

Record callback := mk_callback {
  cb_name : nat;
  cb_takes : bool;
  cb_throws : bool;
  cb_reenters : bool
}.

(** A stored value; [Moved] once a callback has moved it out, the [optional] staying
    engaged. *)
Inductive slot (A : Type) := Value (a : A) | Moved.
Arguments Value {A} a.
Arguments Moved {A}.

Section promise.
Context {S F : Type} (void_s void_f : bool).

(** Calls made, oldest first: a callback and its argument, none for [void]. *)
Inductive event :=
| OnSuccess (c : callback) (arg : option (slot S))
| OnFail (c : callback) (arg : option (slot F)).

(** ** The shared state *)

Record pstate := mk_pstate {
  _is_finished : bool;
  _is_successed : bool;
  _s_func : option callback;
  _f_func : option callback;
  _success_value : option (slot S);
  _fail_value : option (slot F);
  calls : list event
}.

Definition pstate_new : pstate := mk_pstate false false None None None None [].

(** Calling a success (failure) callback; the result tells whether it threw. *)
Definition taken {A} (c : callback) (x : slot A) : slot A := if cb_takes c then Moved else x.

Definition call_success (st : pstate) (c : callback) : outcome (bool * pstate) :=
  if cb_reenters c then UB
  else
    let arg := if void_s then None else _success_value st in
    Done (cb_throws c,
          mk_pstate (_is_finished st) (_is_successed st) (_s_func st) (_f_func st)
            (if void_s then _success_value st else taken c <$> _success_value st) (_fail_value st)
            (calls st ++ [OnSuccess c arg])).

Definition call_fail (st : pstate) (c : callback) : outcome (bool * pstate) :=
  if cb_reenters c then UB
  else
    let arg := if void_f then None else _fail_value st in
    Done (cb_throws c,
          mk_pstate (_is_finished st) (_is_successed st) (_s_func st) (_f_func st)
            (_success_value st) (if void_f then _fail_value st else taken c <$> _fail_value st)
            (calls st ++ [OnFail c arg])).

(** [v] is an empty [std::function] when [None]. *)
Definition SetFailFunc (st : pstate) (v : option callback) : outcome (bool * pstate) :=
  match v with
  | None => Done (false, st)
  | Some c =>
      if _is_finished st && negb (_is_successed st) then
        if void_f then call_fail st c
        else match _fail_value st with Some _ => call_fail st c | None => Done (false, st) end
      else
        Done (false, mk_pstate (_is_finished st) (_is_successed st) (_s_func st) (Some c)
                       (_success_value st) (_fail_value st) (calls st))
  end.

Definition SetSuccessFunc (st : pstate) (v : option callback) : outcome (bool * pstate) :=
  match v with
  | None => Done (false, st)
  | Some c =>
      if _is_finished st && _is_successed st then
        if void_s then call_success st c
        else match _success_value st with Some _ => call_success st c | None => Done (false, st) end
      else
        Done (false, mk_pstate (_is_finished st) (_is_successed st) (Some c) (_f_func st)
                       (_success_value st) (_fail_value st) (calls st))
  end.

Definition SetFailed (st : pstate) (a : F) : outcome (bool * pstate) :=
  if _is_finished st then Done (false, st)
  else
    let st := mk_pstate true false (_s_func st) (_f_func st) (_success_value st)
                (if void_f then _fail_value st else Some (Value a)) (calls st) in
    match _f_func st with Some c => call_fail st c | None => Done (false, st) end.

Definition SetSuccessed (st : pstate) (a : S) : outcome (bool * pstate) :=
  if _is_finished st then Done (false, st)
  else
    let st := mk_pstate true true (_s_func st) (_f_func st)
                (if void_s then _success_value st else Some (Value a)) (_fail_value st) (calls st) in
    match _s_func st with Some c => call_success st c | None => Done (false, st) end.

Definition IsFinished (st : pstate) : bool := _is_finished st.
Definition IsSuccessed (st : pstate) : bool := _is_finished st && _is_successed st.

(** ** Uses of one state *)

Inductive pop := Then (c : option callback) | Fail_ (c : option callback) | Succeed (a : S) | FailWith (a : F).

Definition promise_step (st : pstate) (o : pop) : outcome (bool * pstate) :=
  match o with
  | Then c => SetSuccessFunc st c
  | Fail_ c => SetFailFunc st c
  | Succeed a => SetSuccessed st a
  | FailWith a => SetFailed st a
  end.

(** An exception leaves the call that threw; the other threads go on. *)
Fixpoint promise_run (st : pstate) (os : list pop) : outcome pstate :=
  match os with
  | [] => Done st
  | o :: os => '(_, st) ← promise_step st o; promise_run st os
  end.

(** ** The specification *)

Inductive settled := Success (a : S) | Failure (a : F).

(** The first settling operation, with what came before and after. *)
Fixpoint first_settle (os : list pop) : option (list pop * settled * list pop) :=
  match os with
  | [] => None
  | Succeed a :: os => Some ([], Success a, os)
  | FailWith a :: os => Some ([], Failure a, os)
  | o :: os => match first_settle os with Some (pre, r, post) => Some (o :: pre, r, post) | None => None end
  end.

(** The callbacks registered for success (for failure). *)
Definition thens (os : list pop) : list callback := omap (fun o => match o with Then c => c | _ => None end) os.
Definition fails (os : list pop) : list callback := omap (fun o => match o with Fail_ c => c | _ => None end) os.

(** Handing the value to callbacks in turn: the first that takes it has it. *)
Fixpoint deliver {A} (void : bool) (mk : callback -> option (slot A) -> event) (x : slot A) (cs : list callback) : list event :=
  match cs with
  | [] => []
  | c :: cs => mk c (if void then None else Some x) :: deliver void mk (taken c x) cs
  end.

Definition listeners (before after : list callback) : list callback := option_list (last before) ++ after.

Definition spec_calls (os : list pop) : list event :=
  match first_settle os with
  | None => []
  | Some (pre, Success a, post) => deliver void_s OnSuccess (Value a) (listeners (thens pre) (thens post))
  | Some (pre, Failure a, post) => deliver void_f OnFail (Value a) (listeners (fails pre) (fails post))
  end.

Definition spec_finished (os : list pop) : bool := if first_settle os is Some _ then true else false.
Definition spec_successed (os : list pop) : bool := if first_settle os is Some (_, Success _, _) then true else false.

Definition event_cb (e : event) : callback := match e with OnSuccess c _ | OnFail c _ => c end.

(** ** The state meets its specification *)

Abbreviation state := pstate.
Abbreviation reenters := (existsb (fun e => cb_reenters (event_cb e))).

Lemma deliver_reenters {A} (void : bool) (mk : callback -> option (slot A) -> event) cs : forall x,
  (forall c a, event_cb (mk c a) = c) -> reenters (deliver void mk x cs) = existsb cb_reenters cs.
Proof. induction cs as [|c cs IH]; intros x Hmk; [done|]. cbn. rewrite Hmk. by rewrite IH. Qed.

(** A state settled with success; [x] is what is left of the value. *)
Definition succeeded (s f : option callback) (x : option (slot S)) (fv : option (slot F)) (l : list event) : state :=
  mk_pstate true true s f x fv l.
Definition failed (s f : option callback) (x : option (slot F)) (sv : option (slot S)) (l : list event) : state :=
  mk_pstate true false s f sv x l.

(** The slot of a void state stays empty. *)
Definition stored (void : bool) {A} (x : slot A) : option (slot A) := if void then None else Some x.

Lemma stored_taken {A} (void : bool) c (x : slot A) :
  (if void then stored void x else taken c <$> stored void x) = stored void (taken c x).
Proof. by destruct void. Qed.

Lemma stored_arg {A} (void : bool) (x : slot A) :
  (if void then None else stored void x) = (if void then None else Some x).
Proof. by destruct void. Qed.

Lemma stored_match {A B} (void : bool) (x : slot A) (y z : B) :
  (if void then y else match stored void x with Some _ => y | None => z end) = y.
Proof. by destruct void. Qed.

(** One more listener of a settled state. *)
Lemma then_succeeded s f (x : slot S) fv l c :
  promise_step (succeeded s f (stored void_s x) fv l) (Then (Some c)) =
  if cb_reenters c then UB
  else Done (cb_throws c, succeeded s f (stored void_s (taken c x)) fv
                            (l ++ [OnSuccess c (if void_s then None else Some x)])).
Proof.
  cbn [promise_step]. unfold SetSuccessFunc, call_success, succeeded.
  cbn [_is_finished _is_successed _s_func _f_func _success_value _fail_value calls andb].
  by rewrite stored_match, stored_taken, stored_arg.
Qed.

Lemma fail_failed s f (x : slot F) sv l c :
  promise_step (failed s f (stored void_f x) sv l) (Fail_ (Some c)) =
  if cb_reenters c then UB
  else Done (cb_throws c, failed s f (stored void_f (taken c x)) sv
                            (l ++ [OnFail c (if void_f then None else Some x)])).
Proof.
  cbn [promise_step]. unfold SetFailFunc, call_fail, failed.
  cbn [_is_finished _is_successed _s_func _f_func _success_value _fail_value calls andb negb].
  by rewrite stored_match, stored_taken, stored_arg.
Qed.

Lemma run_succeeded os : forall s f (x : slot S) fv l,
  exists s' f' x', promise_run (succeeded s f (stored void_s x) fv l) os =
    if existsb cb_reenters (thens os) then UB
    else Done (succeeded s' f' x' fv (l ++ deliver void_s OnSuccess x (thens os))).
Proof.
  induction os as [|o os IH]; intros s f x fv l.
  - exists s, f, (stored void_s x). cbn. by rewrite app_nil_r.
  - destruct o as [[c|]|[c|]|a|a]; cbn [promise_run].
    + rewrite then_succeeded. change (thens (Then (Some c) :: os)) with (c :: thens os). cbn [existsb].
      destruct (cb_reenters c); [by exists s, f, (stored void_s x)|]. cbn [mbind outcome_bind orb].
      destruct (IH s f (taken c x) fv (l ++ [OnSuccess c (if void_s then None else Some x)])) as (s' & f' & x' & E).
      exists s', f', x'. rewrite E, <- app_assoc. done.
    + apply IH.
    + apply (IH s (Some c)).
    + apply IH.
    + apply IH.
    + apply IH.
Qed.

Lemma run_failed os : forall s f (x : slot F) sv l,
  exists s' f' x', promise_run (failed s f (stored void_f x) sv l) os =
    if existsb cb_reenters (fails os) then UB
    else Done (failed s' f' x' sv (l ++ deliver void_f OnFail x (fails os))).
Proof.
  induction os as [|o os IH]; intros s f x sv l.
  - exists s, f, (stored void_f x). cbn. by rewrite app_nil_r.
  - destruct o as [[c|]|[c|]|a|a]; cbn [promise_run].
    + apply (IH (Some c)).
    + apply IH.
    + rewrite fail_failed. change (fails (Fail_ (Some c) :: os)) with (c :: fails os). cbn [existsb].
      destruct (cb_reenters c); [by exists s, f, (stored void_f x)|]. cbn [mbind outcome_bind orb].
      destruct (IH s f (taken c x) sv (l ++ [OnFail c (if void_f then None else Some x)])) as (s' & f' & x' & E).
      exists s', f', x'. rewrite E, <- app_assoc. done.
    + apply IH.
    + apply IH.
    + apply IH.
Qed.

(** The last of the callbacks registered so far. *)
Definition latest (o : option callback) (cs : list callback) : option callback := last (option_list o ++ cs).

Lemma latest_none o : latest o [] = o.
Proof. by destruct o. Qed.

Lemma latest_cons o c cs : latest o (c :: cs) = latest (Some c) cs.
Proof. by destruct o. Qed.

(** What a run from a pending state with callbacks [s] and [f] calls, and how it ends. *)
Definition pending_calls (s f : option callback) (os : list pop) : list event :=
  match first_settle os with
  | None => []
  | Some (pre, Success a, post) => deliver void_s OnSuccess (Value a) (option_list (latest s (thens pre)) ++ thens post)
  | Some (pre, Failure a, post) => deliver void_f OnFail (Value a) (option_list (latest f (fails pre)) ++ fails post)
  end.

Lemma pending_calls_nil os : pending_calls None None os = spec_calls os.
Proof. done. Qed.

(** The final state agrees with the specification. *)
Definition agrees (l : list event) (os : list pop) (r : outcome state) : Prop :=
  if reenters l then r = UB
  else exists st, r = Done st /\ calls st = l /\ IsFinished st = spec_finished os /\ IsSuccessed st = spec_successed os.

Lemma agrees_succeeded os post a cs s f fv l0 :
  spec_finished os = true -> spec_successed os = true ->
  (cs = [] /\ l0 = [] \/ exists c, cs = [c] /\ cb_reenters c = false /\ l0 = [OnSuccess c (if void_s then None else Some (Value a))]) ->
  agrees (deliver void_s OnSuccess (Value a) (cs ++ thens post)) os
    (promise_run (succeeded s f (stored void_s (foldl (fun x c => taken c x) (Value a) cs)) fv l0) post).
Proof.
  intros Hf Hs Hcs. destruct (run_succeeded post s f (foldl (fun x c => taken c x) (Value a) cs) fv l0) as (s' & f' & x' & E).
  rewrite E. unfold agrees. rewrite deliver_reenters by done. rewrite existsb_app.
  assert (existsb cb_reenters cs = false) as -> by (destruct Hcs as [[-> _]|(c & -> & Hc & _)]; [done|cbn; by rewrite Hc]).
  cbn [orb]. destruct (existsb cb_reenters (thens post)); [done|]. eexists. split; [done|].
  unfold IsFinished, IsSuccessed. rewrite Hf, Hs. split; [|done]. cbn [calls succeeded].
  by destruct Hcs as [[-> ->]|(c & -> & Hc & ->)].
Qed.

Lemma agrees_failed os post a cs s f sv l0 :
  spec_finished os = true -> spec_successed os = false ->
  (cs = [] /\ l0 = [] \/ exists c, cs = [c] /\ cb_reenters c = false /\ l0 = [OnFail c (if void_f then None else Some (Value a))]) ->
  agrees (deliver void_f OnFail (Value a) (cs ++ fails post)) os
    (promise_run (failed s f (stored void_f (foldl (fun x c => taken c x) (Value a) cs)) sv l0) post).
Proof.
  intros Hf Hs Hcs. destruct (run_failed post s f (foldl (fun x c => taken c x) (Value a) cs) sv l0) as (s' & f' & x' & E).
  rewrite E. unfold agrees. rewrite deliver_reenters by done. rewrite existsb_app.
  assert (existsb cb_reenters cs = false) as -> by (destruct Hcs as [[-> _]|(c & -> & Hc & _)]; [done|cbn; by rewrite Hc]).
  cbn [orb]. destruct (existsb cb_reenters (fails post)); [done|]. eexists. split; [done|].
  unfold IsFinished, IsSuccessed. rewrite Hf, Hs. split; [|done]. cbn [calls failed].
  by destruct Hcs as [[-> ->]|(c & -> & Hc & ->)].
Qed.

(** An operation that does not settle passes through the specification. *)
Lemma first_settle_other o os :
  (match o with Then _ | Fail_ _ => True | _ => False end) ->
  spec_finished (o :: os) = spec_finished os /\ spec_successed (o :: os) = spec_successed os.
Proof.
  unfold spec_finished, spec_successed. intros Ho. destruct o; try done; cbn [first_settle];
    (destruct (first_settle os) as [[[pre r] post]|]; [by destruct r|done]).
Qed.

Lemma agrees_other l o os r :
  (match o with Then _ | Fail_ _ => True | _ => False end) -> agrees l os r -> agrees l (o :: os) r.
Proof. intros Ho. destruct (first_settle_other o os Ho) as [E1 E2]. unfold agrees. by rewrite E1, E2. Qed.

Lemma run_pending os : forall s f,
  agrees (pending_calls s f os) os (promise_run (mk_pstate false false s f None None []) os).
Proof.
  induction os as [|o os IH]; intros s f.
  - cbn. eexists. by split.
  - destruct o as [[c|]|[c|]|a|a]; cbn [promise_run promise_step].
    + apply agrees_other; [done|]. cbn [SetSuccessFunc _is_finished _is_successed andb mbind outcome_bind].
      specialize (IH (Some c) f). unfold pending_calls in *. cbn [first_settle].
      destruct (first_settle os) as [[[pre [a|a]] post]|]; [|exact IH|exact IH].
      change (thens (Then (Some c) :: pre)) with (c :: thens pre). rewrite latest_cons. exact IH.
    + apply agrees_other; [done|]. cbn [SetSuccessFunc mbind outcome_bind].
      specialize (IH s f). unfold pending_calls in *. cbn [first_settle].
      by destruct (first_settle os) as [[[pre [a|a]] post]|].
    + apply agrees_other; [done|]. cbn [SetFailFunc _is_finished _is_successed andb negb mbind outcome_bind].
      specialize (IH s (Some c)). unfold pending_calls in *. cbn [first_settle].
      destruct (first_settle os) as [[[pre [a|a]] post]|]; [exact IH| |exact IH].
      change (fails (Fail_ (Some c) :: pre)) with (c :: fails pre). rewrite latest_cons. exact IH.
    + apply agrees_other; [done|]. cbn [SetFailFunc mbind outcome_bind].
      specialize (IH s f). unfold pending_calls in *. cbn [first_settle].
      by destruct (first_settle os) as [[[pre [a|a]] post]|].
    + unfold pending_calls. cbn [first_settle]. change (thens []) with (@nil callback). rewrite latest_none.
      unfold SetSuccessed. cbn [_is_finished _s_func _f_func _success_value _fail_value calls].
      change (if void_s then None else Some (Value a)) with (stored void_s (Value a)).
      destruct s as [c|]; cbn [option_list].
      * unfold call_success. cbn [_is_finished _is_successed _s_func _f_func _success_value _fail_value calls].
        destruct (cb_reenters c) eqn:Ec; [unfold agrees; cbn; by rewrite Ec|]. cbn [mbind outcome_bind].
        rewrite stored_taken, stored_arg. apply (agrees_succeeded _ _ a [c]); [done|done|]. right. by exists c.
      * cbn [mbind outcome_bind]. apply (agrees_succeeded _ _ a []); [done|done|]. by left.
    + unfold pending_calls. cbn [first_settle]. change (fails []) with (@nil callback). rewrite latest_none.
      unfold SetFailed. cbn [_is_finished _s_func _f_func _success_value _fail_value calls].
      change (if void_f then None else Some (Value a)) with (stored void_f (Value a)).
      destruct f as [c|]; cbn [option_list].
      * unfold call_fail. cbn [_is_finished _is_successed _s_func _f_func _success_value _fail_value calls].
        destruct (cb_reenters c) eqn:Ec; [unfold agrees; cbn; by rewrite Ec|]. cbn [mbind outcome_bind].
        rewrite stored_taken, stored_arg. apply (agrees_failed _ _ a [c]); [done|done|]. right. by exists c.
      * cbn [mbind outcome_bind]. apply (agrees_failed _ _ a []); [done|done|]. by left.
Qed.

(** C4. A promise is settled once, and order does not matter.  For every sequence of
    [Then], [Fail], [SetSuccessed], [SetFailed] on one shared state, in any interleaving
    of the threads that make the calls: the first settling call decides the outcome and
    every later one is ignored; the callbacks called are, in order, the one registered
    last before it for that outcome and every one registered after it, none of the other
    kind ever; each is called once, with the value, until one of them has moved the value
    out (the later ones get what is left of it); a callback that throws changes nothing
    of this.  Only a callback that uses the promise again is undefined. *)
Theorem promise_settles_once os :
  if reenters (spec_calls os) then promise_run pstate_new os = UB
  else exists st, promise_run pstate_new os = Done st /\ calls st = spec_calls os /\
    IsFinished st = spec_finished os /\ IsSuccessed st = spec_successed os.
Proof. exact (run_pending os None None). Qed.
End promise.
Arguments pstate : clear implicits.
Arguments event : clear implicits.
Arguments pop : clear implicits.
Arguments pstate_new {S F}.

(** ** Handles

    The variables of type [Promise<F, S>] and [Future<F, S>], each an atomic shared
    pointer to a state, null once it has been moved from.  Any threads use them: a call of a
    member function is a sequence of atomic accesses, each a step, which interleave with
    those of other calls.  A state stays allocated while a handle, or a local variable of
    a call, refers to it, so the model keeps them all. *)

Section handles.
Context {S F : Type} (void_s void_f : bool).

Inductive var := PVar (p : nat) | FVar (f : nat).
#[local] Instance var_eq : EqDecision var.
Proof. solve_decision. Defined.

Record world := mk_world {
  states : list (pstate S F);
  promises : gmap nat (option nat);
  futures : gmap nat (option nat)
}.

(** [_state.load()] and [_state.store(v)] of a variable. *)
Definition load (w : world) (x : var) : option nat :=
  match x with PVar p => default None (promises w !! p) | FVar f => default None (futures w !! f) end.
Definition store (w : world) (x : var) (v : option nat) : world :=
  match x with
  | PVar p => mk_world (states w) (<[p := v]> (promises w)) (futures w)
  | FVar f => mk_world (states w) (promises w) (<[f := v]> (futures w))
  end.

(** The calls of a program that uses promises. *)
Inductive hop :=
| HNew (p : nat) | HMove (p q : nat) | HAssign (p q : nat) | HGetFuture (f p : nat)
| HSucceed (p : nat) (a : S) | HFail (p : nat) (a : F)
| HFutureMove (f g : nat) | HFutureAssignMove (f g : nat) | HFutureAssign (f g : nat)
| HThen (f : nat) (c : option callback) | HOnFail (f : nat) (c : option callback)
| HIsFinished (f : nat) | HIsSuccessed (f : nat).

(** What a call does next. *)
Inductive hcall :=
| KBegin (o : hop)
| KStore (x y : var) (v : option nat)  (* a move has loaded [v] from [y], stores it to [x] *)
| KNull (x y : var)                    (* and then null to [y] *)
| KSet (x : var) (v : option nat)      (* stores [v] to [x] *)
| KCall (i : nat) (o : pop S F)        (* calls the state [i] *)
| KAsk (i : nat) (succ : bool)
| KDone (threw : bool)
| KAnswer (b : bool).

(** The first access of each member function, and what is left to do. *)
Definition Promise_new (w : world) (p : nat) : world * hcall :=
  (mk_world (states w ++ [pstate_new]) (promises w) (futures w), KSet (PVar p) (Some (length (states w)))).
Definition Promise_move (w : world) (p q : nat) : world * hcall := (w, KStore (PVar p) (PVar q) (load w (PVar q))).

(** [Promise::operator=(Promise&&)] does not test for [this == &other]. *)
Definition Promise_assign (w : world) (p q : nat) : world * hcall := Promise_move w p q.

(** The constructor of [Future] throws "bad shared state". *)
Definition Promise_GetFuture (w : world) (f p : nat) : world * hcall :=
  (w, match load w (PVar p) with Some i => KSet (FVar f) (Some i) | None => KDone true end).

Definition Future_move (w : world) (f g : nat) : world * hcall := (w, KStore (FVar f) (FVar g) (load w (FVar g))).
Definition Future_assign_move (w : world) (f g : nat) : world * hcall :=
  if decide (f = g) then (w, KDone false) else Future_move w f g.
Definition Future_assign (w : world) (f g : nat) : world * hcall :=
  if decide (f = g) then (w, KDone false) else (w, KSet (FVar f) (load w (FVar g))).

(** [if (auto s = _state.load()) s->...] *)
Definition call_state (w : world) (x : var) (o : pop S F) : world * hcall :=
  (w, match load w x with Some i => KCall i o | None => KDone false end).
Definition ask_state (w : world) (x : var) (succ : bool) : world * hcall :=
  (w, match load w x with Some i => KAsk i succ | None => KAnswer false end).

Definition Promise_SetSuccessed (w : world) (p : nat) (a : S) := call_state w (PVar p) (Succeed a).
Definition Promise_SetFailed (w : world) (p : nat) (a : F) := call_state w (PVar p) (FailWith a).
Definition Future_Then (w : world) (f : nat) (c : option callback) : world * hcall :=
  match c with None => (w, KDone false) | Some c => call_state w (FVar f) (Then (Some c)) end.
Definition Future_Fail (w : world) (f : nat) (c : option callback) : world * hcall :=
  match c with None => (w, KDone false) | Some c => call_state w (FVar f) (Fail_ (Some c)) end.
Definition Future_IsFinished (w : world) (f : nat) := ask_state w (FVar f) false.
Definition Future_IsSuccessed (w : world) (f : nat) := ask_state w (FVar f) true.

Definition begin_call (w : world) (o : hop) : world * hcall :=
  match o with
  | HNew p => Promise_new w p
  | HMove p q => Promise_move w p q
  | HAssign p q => Promise_assign w p q
  | HGetFuture f p => Promise_GetFuture w f p
  | HSucceed p a => Promise_SetSuccessed w p a
  | HFail p a => Promise_SetFailed w p a
  | HFutureMove f g => Future_move w f g
  | HFutureAssignMove f g => Future_assign_move w f g
  | HFutureAssign f g => Future_assign w f g
  | HThen f c => Future_Then w f c
  | HOnFail f c => Future_Fail w f c
  | HIsFinished f => Future_IsFinished w f
  | HIsSuccessed f => Future_IsSuccessed w f
  end.

(** One step of a call.  A member of the state runs under its mutex, in one step. *)
Definition call_step (w : world) (c : hcall) : outcome (world * hcall) :=
  match c with
  | KBegin o => Done (begin_call w o)
  | KStore x y v => Done (store w x v, KNull x y)
  | KNull x y => Done (store w y None, KDone false)
  | KSet x v => Done (store w x v, KDone false)
  | KCall i o =>
      match states w !! i with
      | None => UB
      | Some st =>
          '(threw, st) ← promise_step void_s void_f st o;
          Done (mk_world (<[i := st]> (states w)) (promises w) (futures w), KDone threw)
      end
  | KAsk i succ =>
      match states w !! i with
      | None => UB
      | Some st => Done (w, KAnswer (if succ then IsSuccessed st else IsFinished st))
      end
  | KDone _ | KAnswer _ => Done (w, c)
  end.

(** The [Promise] variables a call changes until it returns. *)
Definition changes (c : hcall) : list nat :=
  match c with
  | KBegin (HNew p) | KSet (PVar p) _ => [p]
  | KBegin (HMove p q) | KBegin (HAssign p q) | KStore (PVar p) (PVar q) _ | KNull (PVar p) (PVar q) => [p; q]
  | _ => []
  end.

Definition conflict (c d : hcall) : bool := existsb (fun p => bool_decide (p ∈ changes d)) (changes c).

(** All calls, returned ones included; [m_overlap] when two that were at work at the same
    time changed the same [Promise] variable. *)
Record machine := mk_machine { m_world : world; m_calls : list hcall; m_overlap : bool }.

Definition no_world : world := mk_world [] ∅ ∅.
Definition machine_new : machine := mk_machine no_world [] false.

Inductive mstep : machine -> machine -> Prop :=
| m_call w cs ov o :
    mstep (mk_machine w cs ov)
      (mk_machine w (cs ++ [KBegin o]) (ov || existsb (conflict (KBegin o)) cs))
| m_next w cs ov k c w' c' :
    cs !! k = Some c -> call_step w c = Done (w', c') ->
    mstep (mk_machine w cs ov) (mk_machine w' (<[k := c']> cs) ov).

(** *** Every interleaving is well typed *)

Definition reachable_state (st : pstate S F) : Prop :=
  exists os, promise_run void_s void_f pstate_new os = Done st.

Definition ref_ok (w : world) (v : option nat) : Prop := forall i, v = Some i -> (i < length (states w))%nat.

Record world_ok (w : world) : Prop := {
  handle_valid : forall x, ref_ok w (load w x);
  state_reachable : Forall reachable_state (states w)
}.

(** What a call has loaded refers to an existing state; a move is between variables of one
    type. *)
Definition call_ok (w : world) (c : hcall) : Prop :=
  match c with
  | KStore (PVar _) (PVar _) v | KStore (FVar _) (FVar _) v | KSet _ v => ref_ok w v
  | KStore _ _ _ | KNull (PVar _) (FVar _) | KNull (FVar _) (PVar _) => False
  | KCall i _ | KAsk i _ => (i < length (states w))%nat
  | _ => True
  end.

Definition machine_ok (m : machine) : Prop := world_ok (m_world m) /\ Forall (call_ok (m_world m)) (m_calls m).

Lemma load_store w x v y : load (store w x v) y = if decide (x = y) then v else load w y.
Proof.
  unfold load, store. destruct x as [p|f], y as [q|g]; cbn; case_decide as E; try done;
    try (injection E as ->; by rewrite lookup_insert_eq); rewrite lookup_insert_ne; congruence.
Qed.

Lemma states_store w x v : states (store w x v) = states w.
Proof. by destruct x. Qed.

Lemma ref_ok_mono w w' v : (length (states w) <= length (states w'))%nat -> ref_ok w v -> ref_ok w' v.
Proof. intros Hl Hv i Hi. specialize (Hv i Hi). lia. Qed.

Lemma call_ok_mono w w' c : (length (states w) <= length (states w'))%nat -> call_ok w c -> call_ok w' c.
Proof.
  intros Hl. destruct c as [o|[|] [|] v|[|] [|]|x v|i o|i b|b|b]; cbn; try done; try (by apply ref_ok_mono); intros ?; lia.
Qed.

Lemma store_ok w x v : world_ok w -> ref_ok w v -> world_ok (store w x v).
Proof.
  intros [H1 H2] Hv. split; rewrite ?states_store; [|done].
  intros y i. rewrite load_store, states_store. case_decide; [apply Hv|apply H1].
Qed.

Lemma promise_run_snoc (os : list (pop S F)) : forall st st1 st2 threw o,
  promise_run void_s void_f st os = Done st1 -> promise_step void_s void_f st1 o = Done (threw, st2) ->
  promise_run void_s void_f st (os ++ [o]) = Done st2.
Proof.
  induction os as [|o' os IH]; intros st st1 st2 threw o; cbn [promise_run app].
  - intros [= <-] H. by rewrite H.
  - intros H1 H2. destruct (promise_step void_s void_f st o') as [[t st']| |]; cbn in *; try done. eauto.
Qed.

Lemma begin_ok w o : world_ok w -> world_ok (begin_call w o).1 /\ call_ok (begin_call w o).1 (begin_call w o).2 /\
  (length (states w) <= length (states (begin_call w o).1))%nat.
Proof.
  intros [H1 H2].
  assert (forall x, match load w x with Some i => (i < length (states w))%nat | None => True end) as Hx.
  { intros x. destruct (load w x) eqn:E; [|done]. by apply (H1 x). }
  destruct o as [p|p q|p q|f p|p a|p a|f g|f g|f g|f [c|]|f [c|]|f|f]; cbn [begin_call];
    unfold Promise_assign, Future_assign_move, Future_assign, Promise_move, Future_move, Promise_new, Promise_GetFuture,
      Promise_SetSuccessed, Promise_SetFailed, Future_Then, Future_Fail, Future_IsFinished, Future_IsSuccessed, call_state, ask_state;
    repeat case_decide; cbn [fst snd]; try (split; [by split|split; [|done]]; cbn [call_ok]; try done;
      match goal with |- context [load w ?x] => specialize (Hx x) end; destruct (load w _); cbn; try done; by intros ? [= <-]).
  split; [|split; cbn; [intros i [= <-]|]; cbn; rewrite length_app; cbn; lia]. split; cbn.
  - intros x i Hi. pose proof (H1 x i) as H. cbn. rewrite length_app. cbn. destruct x; cbn in *; specialize (H Hi); lia.
  - apply Forall_app. split; [done|]. constructor; [|done]. by exists [].
Qed.

Lemma access_ok w c w' c' : world_ok w -> call_ok w c -> call_step w c = Done (w', c') ->
  world_ok w' /\ call_ok w' c' /\ (length (states w) <= length (states w'))%nat.
Proof.
  intros Hw Hc E. destruct c as [o|x y v|x y|x v|i o|i b|b|b]; cbn in E.
  - injection E as E. pose proof (begin_ok w o Hw) as Hb. by rewrite E in Hb.
  - injection E as <- <-. rewrite states_store. destruct x, y; try done; (split; [by apply store_ok|done]).
  - injection E as <- <-. rewrite states_store. split; [by apply store_ok|done].
  - injection E as <- <-. rewrite states_store. split; [by apply store_ok|done].
  - destruct (states w !! i) as [st|] eqn:Ei; [|done]. destruct (promise_step void_s void_f st o) as [[t st']| |] eqn:Es; cbn in E; try done.
    injection E as <- <-. destruct Hw as [H1 H2]. split; [|split; [done|by cbn; rewrite length_insert]]. split; cbn.
    + intros x j Hj. cbn. rewrite length_insert. by apply (H1 x).
    + apply Forall_insert; [done|]. destruct (Forall_lookup_1 _ _ _ _ H2 Ei) as [os Hos].
      exists (os ++ [o]). by eapply promise_run_snoc.
  - destruct (states w !! i); [|done]. by injection E as <- <-.
  - by injection E as <- <-.
  - by injection E as <- <-.
Qed.

Lemma machine_step_ok m m' : machine_ok m -> mstep m m' -> machine_ok m'.
Proof.
  intros [Hw Hc] Hs. destruct Hs as [w cs ov o|w cs ov k c w' c' Hk E]; cbn in *.
  - split; [done|]. cbn. apply Forall_app. split; [done|]. by constructor.
  - destruct (access_ok w c w' c' Hw (Forall_lookup_1 _ _ _ _ Hc Hk) E) as (Hw' & Hc' & Hl). split; [done|]. cbn.
    apply Forall_insert; [|done]. eapply Forall_impl; [exact Hc|]. intros d. by apply call_ok_mono.
Qed.

(** *** One owner *)

(** The call is about to clear one of the two variables that own the state it moves. *)
Definition moving (c : hcall) (p q : nat) : Prop := c = KNull (PVar p) (PVar q) \/ c = KNull (PVar q) (PVar p).

(** The state a [Promise] under construction will own. *)
Definition new_state (c : hcall) : option nat := match c with KSet (PVar _) v => v | _ => None end.

Record owners (w : world) (cs : list hcall) : Prop := {
  own_disjoint : forall k k' c c' p, cs !! k = Some c -> cs !! k' = Some c' -> p ∈ changes c -> p ∈ changes c' -> k = k';
  own_source : forall k p q v, cs !! k = Some (KStore (PVar p) (PVar q) v) -> load w (PVar q) = v;
  own_fresh : forall k c i p, cs !! k = Some c -> new_state c = Some i -> load w (PVar p) <> Some i;
  own_distinct : forall k k' c c' i, cs !! k = Some c -> cs !! k' = Some c' -> new_state c = Some i -> new_state c' = Some i -> k = k';
  own_unique : forall p q i, load w (PVar p) = Some i -> load w (PVar q) = Some i -> p = q \/ exists k c, cs !! k = Some c /\ moving c p q
}.

Lemma own_begin w cs o : existsb (conflict (KBegin o)) cs = false -> owners w cs -> owners w (cs ++ [KBegin o]).
Proof.
  intros Hn [H1 H2 H3 H4 H5].
  assert (forall k c p, cs !! k = Some c -> p ∈ changes c -> p ∈ changes (KBegin o) -> False) as Hno.
  { intros k c p Hk Hp Ho. apply not_true_iff_false in Hn. apply Hn. apply existsb_exists. exists c.
    split; [by eapply list_elem_of_In, list_elem_of_lookup_2|]. unfold conflict. apply existsb_exists. exists p.
    split; [by apply list_elem_of_In|by apply bool_decide_eq_true]. }
  split.
  - intros k k' c c' p [Hk|[? [? <-]%list_lookup_singleton_Some]]%lookup_app_Some [Hk'|[? [? <-]%list_lookup_singleton_Some]]%lookup_app_Some Hp Hp';
      [by eapply H1|exfalso; by eapply Hno|exfalso; by eapply Hno|lia].
  - intros k p q v [Hk|[_ [_ [=]]%list_lookup_singleton_Some]]%lookup_app_Some. by eapply H2.
  - intros k c i p [Hk|[_ [_ <-]%list_lookup_singleton_Some]]%lookup_app_Some Hi; [by eapply H3|done].
  - intros k k' c c' i [Hk|[_ [_ <-]%list_lookup_singleton_Some]]%lookup_app_Some [Hk'|[_ [_ <-]%list_lookup_singleton_Some]]%lookup_app_Some Hi Hi';
      [by eapply H4|done..].
  - intros p q i Hp Hq. destruct (H5 p q i Hp Hq) as [?|(k & c & Hk & Hm)]; [by left|]. right. exists k, c.
    split; [by apply lookup_app_l_Some|done].
Qed.

(** A step of the call [k] from [c] to [c']; what it does to the variables is left open. *)
Lemma own_step w w' cs k c c' :
  owners w cs -> cs !! k = Some c -> (forall p, p ∈ changes c' -> p ∈ changes c) ->
  (forall p, p ∉ changes c -> load w' (PVar p) = load w (PVar p)) ->
  (forall p q v, c' = KStore (PVar p) (PVar q) v -> load w' (PVar q) = v) ->
  (forall i p, new_state c' = Some i -> load w' (PVar p) <> Some i) ->
  (forall i k' d, k' <> k -> cs !! k' = Some d -> new_state d = Some i -> new_state c' <> Some i /\ forall p, load w' (PVar p) <> Some i) ->
  (forall p q i, load w' (PVar p) = Some i -> load w' (PVar q) = Some i ->
    p = q \/ moving c' p q \/ exists k' d, k' <> k /\ cs !! k' = Some d /\ moving d p q) ->
  owners w' (<[k := c']> cs).
Proof.
  intros [H1 H2 H3 H4 H5] Hk Hch Hw Hsrc Hnew Hoth Huni. split.
  - intros j j' d d' p [(<- & <- & _)|[? Hj]]%list_lookup_insert_Some [(<- & <- & _)|[? Hj']]%list_lookup_insert_Some Hp Hp';
      [done|apply (H1 k j' c d' p); auto|apply (H1 j k d c p); auto|by eapply H1].
  - intros j p q v [(<- & E & _)|[Hne Hj]]%list_lookup_insert_Some; [by apply (Hsrc p)|].
    rewrite Hw; [by eapply H2|]. intros Hq. apply Hne. eapply (H1 k j c _ q Hk Hj Hq). cbn. set_solver.
  - intros j d i p [(<- & <- & _)|[Hne Hj]]%list_lookup_insert_Some Hi; [by apply Hnew|]. by eapply (Hoth i j d).
  - intros j j' d d' i [(<- & <- & _)|[Hne Hj]]%list_lookup_insert_Some [(<- & <- & _)|[Hne' Hj']]%list_lookup_insert_Some Hi Hi'; [done|..].
    + destruct (Hoth i j' d' ltac:(congruence) Hj' Hi') as [? _]. congruence.
    + destruct (Hoth i j d ltac:(congruence) Hj Hi) as [? _]. congruence.
    + by eapply H4.
  - intros p q i Hp Hq. destruct (Huni p q i Hp Hq) as [?|[?|(k' & d & Hne & Hd & Hm)]]; [by left|right..].
    + exists k, c'. split; [|done]. apply list_lookup_insert_eq. by eapply lookup_lt_Some.
    + exists k', d. split; [|done]. by rewrite list_lookup_insert_ne.
Qed.

(** A step that leaves the [Promise] variables alone. *)
Lemma own_quiet w w' cs k c c' :
  owners w cs -> cs !! k = Some c -> (forall p, p ∈ changes c' -> p ∈ changes c) ->
  (forall p, load w' (PVar p) = load w (PVar p)) ->
  (forall p q v, c' = KStore (PVar p) (PVar q) v -> load w (PVar q) = v) ->
  (forall i p, new_state c' = Some i -> load w (PVar p) <> Some i) ->
  (forall i k' d, k' <> k -> cs !! k' = Some d -> new_state d = Some i -> new_state c' <> Some i) ->
  (forall p q, c <> KNull (PVar p) (PVar q)) ->
  owners w' (<[k := c']> cs).
Proof.
  intros Ho Hk Hch Hw Hsrc Hnew Hoth Hc. eapply own_step; eauto.
  - intros p q v E. rewrite Hw. eauto.
  - intros i p E. rewrite Hw. eauto.
  - intros i k' d Hne Hd Hi. split; [by eapply Hoth|]. intros p. rewrite Hw. by eapply (own_fresh _ _ Ho).
  - intros p q i. rewrite !Hw. intros Hp Hq. destruct (own_unique _ _ Ho p q i Hp Hq) as [?|(k' & d & Hd & Hm)]; [by left|].
    right; right. exists k', d. split; [|done]. intros ->. rewrite Hk in Hd. injection Hd as <-. destruct Hm as [-> | ->]; by eapply Hc.
Qed.

Lemma own_move_store w cs k x y v :
  owners w cs -> cs !! k = Some (KStore (PVar x) (PVar y) v) ->
  owners (store w (PVar x) v) (<[k := KNull (PVar x) (PVar y)]> cs).
Proof.
  intros Ho Hk. pose proof (own_source _ _ Ho _ _ _ _ Hk) as Hy. eapply own_step; eauto; try done.
  - intros p Hp. rewrite load_store. case_decide as E; [injection E as ->; set_solver|done].
  - intros i k' d Hne Hd Hi. split; [done|]. intros p. rewrite load_store.
    case_decide; [rewrite <- Hy|]; by eapply (own_fresh _ _ Ho).
  - assert (forall p q i, load w (PVar p) = Some i -> load w (PVar q) = Some i ->
      p = q \/ moving (KNull (PVar x) (PVar y)) p q \/ exists k' d, k' <> k /\ cs !! k' = Some d /\ moving d p q) as Hold.
    { intros p q i Hp Hq. destruct (own_unique _ _ Ho p q i Hp Hq) as [?|(k' & d & Hd & Hm)]; [by left|]. right; right.
      exists k', d. split; [|done]. intros ->. rewrite Hk in Hd. injection Hd as <-. by destruct Hm. }
    assert (forall q i, v = Some i -> load w (PVar q) = Some i -> q <> y -> x = y \/ x = q) as Hx.
    { intros q i Hv Hq Hqy. rewrite Hv in Hy. destruct (own_unique _ _ Ho q y i Hq Hy) as [?|(k' & d & Hd & Hm)]; [done|].
      assert (k' = k) as ->; [|rewrite Hk in Hd; injection Hd as <-; by destruct Hm].
      apply (own_disjoint _ _ Ho k' k d _ y Hd Hk); [|cbn; set_solver]. destruct Hm as [-> | ->]; cbn; set_solver. }
    assert (forall p, load (store w (PVar x) v) (PVar p) = if decide (x = p) then v else load w (PVar p)) as Hl.
    { intros p. rewrite load_store. repeat case_decide; congruence. }
    destruct (decide (x = y)) as [->|Hxy].
    { intros p q i. rewrite !Hl. intros Hp Hq. apply (Hold p q i); repeat case_decide; congruence. }
    intros p q i. rewrite !Hl. repeat case_decide; subst; intros Hp Hq; try by (left; congruence).
    + destruct (decide (q = y)) as [->|Hqy]; [right; left; by left|]. by destruct (Hx q i Hp Hq Hqy).
    + destruct (decide (p = y)) as [->|Hpy]; [right; left; by right|]. by destruct (Hx p i Hq Hp Hpy).
    + by apply (Hold p q i).
Qed.

Lemma own_move_null w cs k x y :
  owners w cs -> cs !! k = Some (KNull (PVar x) (PVar y)) ->
  owners (store w (PVar y) None) (<[k := KDone false]> cs).
Proof.
  intros Ho Hk.
  assert (forall p, load (store w (PVar y) None) (PVar p) = if decide (y = p) then None else load w (PVar p)) as Hl.
  { intros p. rewrite load_store. repeat case_decide; congruence. }
  eapply own_step; eauto; try done.
  - cbn. set_solver.
  - intros p Hp. rewrite Hl. case_decide as E; [subst; cbn in Hp; set_solver|done].
  - intros i k' d Hne Hd Hi. split; [done|]. intros p. rewrite Hl. case_decide; [done|]. by eapply (own_fresh _ _ Ho).
  - intros p q i. rewrite !Hl. repeat case_decide; try done. intros Hp Hq.
    destruct (own_unique _ _ Ho p q i Hp Hq) as [?|(k' & d & Hd & Hm)]; [by left|]. right; right. exists k', d.
    split; [|done]. intros ->. rewrite Hk in Hd. injection Hd as <-. by destruct Hm; simplify_eq.
Qed.

Lemma own_set w cs k x v :
  owners w cs -> cs !! k = Some (KSet (PVar x) v) -> owners (store w (PVar x) v) (<[k := KDone false]> cs).
Proof.
  intros Ho Hk.
  assert (forall p, load (store w (PVar x) v) (PVar p) = if decide (x = p) then v else load w (PVar p)) as Hl.
  { intros p. rewrite load_store. repeat case_decide; congruence. }
  eapply own_step; eauto; try done.
  - cbn. set_solver.
  - intros p Hp. rewrite Hl. case_decide as E; [subst; cbn in Hp; set_solver|done].
  - intros i k' d Hne Hd Hi. split; [done|]. intros p. rewrite Hl. case_decide; [|by eapply (own_fresh _ _ Ho)].
    intros ->. apply Hne. by eapply (own_distinct _ _ Ho).
  - intros p q i. rewrite !Hl. repeat case_decide; subst; intros Hp Hq; try by (left; congruence).
    + by destruct (own_fresh _ _ Ho k (KSet (PVar p) v) i q Hk Hp).
    + by destruct (own_fresh _ _ Ho k (KSet (PVar q) v) i p Hk Hq).
    + destruct (own_unique _ _ Ho p q i Hp Hq) as [?|(k' & d & Hd & Hm)]; [by left|]. right; right. exists k', d.
      split; [|done]. intros ->. rewrite Hk in Hd. injection Hd as <-. by destruct Hm.
Qed.

(** The first step of a call: only [Promise_new] makes a state. *)
Lemma own_call_begin w cs k o :
  world_ok w -> Forall (call_ok w) cs -> owners w cs -> cs !! k = Some (KBegin o) ->
  owners (begin_call w o).1 (<[k := (begin_call w o).2]> cs).
Proof.
  intros [Hv _] Hcs Ho Hk.
  destruct o as [p|p q|p q|f p|p a|p a|f g|f g|f g|f [c|]|f [c|]|f|f]; cbn [begin_call];
    unfold Promise_assign, Future_assign_move, Future_assign, Promise_move, Future_move, Promise_new, Promise_GetFuture,
      Promise_SetSuccessed, Promise_SetFailed, Future_Then, Future_Fail, Future_IsFinished, Future_IsSuccessed, call_state, ask_state;
    repeat case_decide; cbn [fst snd]; eapply own_quiet; eauto; try done;
    try (destruct (load w _) eqn:?); try done; try (cbn; set_solver); try (intros; simplify_eq; done).
  - intros i q [= <-] Hq. specialize (Hv (PVar q) _ Hq). lia.
  - intros i k' d _ Hd Hi [= <-]. apply (Forall_lookup_1 _ _ _ _ Hcs) in Hd. destruct d as [| | |[]| | | |]; try done.
    cbn in Hi, Hd. specialize (Hd _ Hi). lia.
Qed.

Lemma own_call_step w cs k c w' c' :
  world_ok w -> Forall (call_ok w) cs -> owners w cs -> cs !! k = Some c -> call_step w c = Done (w', c') ->
  owners w' (<[k := c']> cs).
Proof.
  intros Hw Hcs Ho Hk E. pose proof (Forall_lookup_1 _ _ _ _ Hcs Hk) as Hc.
  destruct c as [o|[x|x] [y|y] v|[x|x] [y|y]|[x|x] v|i o|i b|b|b]; cbn in E, Hc; try done.
  - injection E as E. pose proof (own_call_begin w cs k o Hw Hcs Ho Hk) as H. by rewrite E in H.
  - injection E as <- <-. by apply own_move_store.
  - injection E as <- <-. by eapply own_quiet.
  - injection E as <- <-. by eapply own_move_null.
  - injection E as <- <-. by eapply own_quiet.
  - injection E as <- <-. by eapply own_set.
  - injection E as <- <-. by eapply own_quiet.
  - destruct (states w !! i) as [st|]; [|done]. destruct (promise_step void_s void_f st o) as [[t st']| |]; cbn in E; try done.
    injection E as <- <-. by eapply own_quiet.
  - destruct (states w !! i); [|done]. injection E as <- <-. by eapply own_quiet.
  - injection E as <- <-. by eapply own_quiet.
  - injection E as <- <-. by eapply own_quiet.
Qed.

Definition machine_inv (m : machine) : Prop :=
  machine_ok m /\ (m_overlap m = false -> owners (m_world m) (m_calls m)).

Lemma machine_step_inv m m' : machine_inv m -> mstep m m' -> machine_inv m'.
Proof.
  intros [Hok Ho] Hs. split; [by eapply machine_step_ok|]. destruct Hok as [Hw Hcs].
  destruct Hs as [w cs ov o|w cs ov k c w' c' Hk E]; cbn in *.
  - intros [Hov Hn]%orb_false_iff. by apply own_begin; [|apply Ho].
  - intros Hov. eapply own_call_step; eauto.
Qed.

Lemma machine_reach m : rtc mstep machine_new m -> machine_inv m.
Proof.
  intros Hr. eapply rtc_invariant; [apply machine_step_inv|exact Hr|]. split.
  - split; [|done]. split; cbn; [|done]. intros [p|f] i; cbn; by rewrite lookup_empty.
  - intros _. by split.
Qed.

(** C35. Promises and futures stay well typed in every interleaving of any threads that use
    them, each atomic access a step of its own: a non-null handle, and every state a call
    has loaded, refers to an existing state, so a call through it is never undefined for
    that reason, and each state is one that [promise_settles_once] describes.  Unless two
    calls that move into or out of, or construct, the same [Promise] variable ran at the
    same time, two [Promise] variables own the same state only in the midst of a move from
    one to the other, which is about to clear the source: so one owner alone can settle it
    otherwise. *)
Theorem handles_well_typed m :
  rtc mstep machine_new m ->
  (forall x i, load (m_world m) x = Some i -> exists st, states (m_world m) !! i = Some st /\ reachable_state st) /\
  (forall c, c ∈ m_calls m -> match c with
    | KStore _ _ v | KSet _ v => forall i, v = Some i -> (i < length (states (m_world m)))%nat
    | KCall i _ | KAsk i _ => (i < length (states (m_world m)))%nat
    | _ => True
    end) /\
  (m_overlap m = false ->
    forall p q i, load (m_world m) (PVar p) = Some i -> load (m_world m) (PVar q) = Some i ->
      p = q \/ KNull (PVar p) (PVar q) ∈ m_calls m \/ KNull (PVar q) (PVar p) ∈ m_calls m).
Proof.
  intros Hr. destruct (machine_reach m Hr) as [[[Hv Hs] Hcs] Ho]. split; [|split].
  - intros x i Hi. destruct (lookup_lt_is_Some_2 (states (m_world m)) i (Hv x i Hi)) as [st Hst].
    exists st. split; [done|]. by apply (Forall_lookup_1 _ _ _ _ Hs Hst).
  - intros c Hc. rewrite Forall_forall in Hcs. specialize (Hcs c Hc).
    destruct c as [o|[|] [|] v|[|] [|]|x v|i o|i b|b|b]; done.
  - intros Hov p q i Hp Hq. destruct (own_unique _ _ (Ho Hov) p q i Hp Hq) as [?|(k & c & Hk & Hm)]; [by left|].
    right. apply list_elem_of_lookup_2 in Hk. destruct Hm as [-> | ->]; auto.
Qed.
End handles.
Arguments world : clear implicits.
Arguments hop : clear implicits.
Arguments hcall : clear implicits.
Arguments machine : clear implicits.

(** *** Runs *)

(** A call begins, or the call with the given number goes on. *)
Inductive mact := ABegin (o : hop Z Z) | ANext (k : nat).

Fixpoint run_machine (m : machine Z Z) (l : list mact) : option (machine Z Z) :=
  match l with
  | [] => Some m
  | ABegin o :: l =>
      run_machine (mk_machine (m_world m) (m_calls m ++ [KBegin o])
        (m_overlap m || existsb (conflict (KBegin o)) (m_calls m))) l
  | ANext k :: l =>
      c ← m_calls m !! k;
      match call_step false false (m_world m) c with
      | Done (w', c') => run_machine (mk_machine w' (<[k := c']> (m_calls m)) (m_overlap m)) l
      | _ => None
      end
  end.

Lemma run_machine_rtc l : forall m m', run_machine m l = Some m' -> rtc (mstep false false) m m'.
Proof.
  induction l as [|[o|k] l IH]; intros [w cs ov] m'; cbn [run_machine].
  - intros [= <-]. apply rtc_refl.
  - intros Hr. eapply rtc_l; [apply m_call|by apply IH].
  - cbn. destruct (cs !! k) as [c|] eqn:Hk; [|done]. cbn. destruct (call_step false false w c) as [[w1 c1]| |] eqn:E; try done.
    intros Hr. eapply rtc_l; [by eapply m_next|by apply IH].
Qed.

(** Each call runs to its end before the next begins. *)
Fixpoint one_by_one (os : list (hop Z Z)) (k : nat) : list mact :=
  match os with [] => [] | o :: os => ABegin o :: replicate 3 (ANext k) ++ one_by_one os (S k) end.

(** A [Promise] assigned to itself loses its state; a [Future] does not. *)
Example promise_self_assign :
  m_world <$> run_machine machine_new (one_by_one [HNew 0; HGetFuture 1 0; HAssign 0 0; HFutureAssignMove 1 1; HSucceed 0 7] 0) =
  Some (mk_world [@pstate_new Z Z] {[ 0%nat := None ]} {[ 1%nat := Some 0%nat ]}).
Proof. reflexivity. Qed.

(** Two threads that move the same [Promise] at the same time both get its state. *)
Lemma promise_two_owners : exists m : machine Z Z,
  rtc (mstep false false) machine_new m /\ m_calls m = [KDone false; KDone false; KDone false] /\
  load (m_world m) (PVar 1) = Some 0%nat /\ load (m_world m) (PVar 2) = Some 0%nat.
Proof.
  assert (exists m, run_machine machine_new (one_by_one [HNew 0] 0 ++
    [ABegin (HMove 1 0); ABegin (HMove 2 0); ANext 1; ANext 2; ANext 1; ANext 2; ANext 1; ANext 2]) = Some m) as [m E] by (vm_compute; eauto).
  exists m. split; [by eapply run_machine_rtc|]. vm_compute in E. by injection E as <-.
Qed.

(** A state in the midst of a move. *)
Lemma handles_well_typed_witness : exists m : machine Z Z,
  m_overlap m = false /\ load (m_world m) (PVar 0) = Some 0%nat /\ load (m_world m) (PVar 2) = Some 0%nat /\
  (exists st, states (m_world m) !! 0%nat = Some st /\ reachable_state false false st) /\
  (KNull (PVar 0) (PVar 2) ∈ m_calls m \/ KNull (PVar 2) (PVar 0) ∈ m_calls m).
Proof.
  assert (exists m, run_machine machine_new
    (one_by_one [HNew 0; HGetFuture 1 0; HThen 1 (Some (mk_callback 5 true false false))] 0 ++ [ABegin (HMove 2 0); ANext 3; ANext 3]) = Some m)
    as [m E] by (vm_compute; eauto).
  assert (rtc (mstep false false) machine_new m) as Hr by (by eapply run_machine_rtc).
  assert (m_overlap m = false /\ load (m_world m) (PVar 0) = Some 0%nat /\ load (m_world m) (PVar 2) = Some 0%nat) as (E1 & E2 & E3)
    by (vm_compute in E; by injection E as <-).
  exists m. split; [done|]. split; [done|]. split; [done|].
  destruct (handles_well_typed false false m Hr) as (H1 & _ & H2). split; [by apply (H1 (PVar 0))|].
  by destruct (H2 E1 0%nat 2%nat 0%nat E2 E3) as [|].
Defined.
