(* ===== verification/EventBus.v ===== *)
(** * EventBus: event handlers and the bus (include/event_bus/)

    [EventHandler] (event_handler.h) owns a blocking queue of events, a map from type
    names to callbacks, and a thread that takes events from the queue; any thread may
    register callbacks, deliver events, start and stop it.  [Start] and [Stop] hold no lock:
    they are state machines with a step for each access to shared data, and calls of them
    may overlap, so that a handler can have several threads ([h_threads]).  A callback is
    not taken to start or stop its own handler.  [EventBus] (event_bus.h)
    delivers a published event to the subscribed handlers that have its type.

    The queue is used through its interface [TaskQueue], so the theorems hold for every
    queue that meets [TaskQueueLaws].  The values of messages are of a type [V]; a
    [std::any] holds one together with its type name, or nothing. *)

From Stdlib Require Import Sorted.
From S2P Require Import Prelude SyncQueue.

(** What the handler needs to know of a user's function: whether it throws, and whether
    it calls back into the handler or a bus the handler is on, which locks a [std::mutex]
    its thread holds. *)
Record callback := mk_callback {
  cb_name : nat;
  cb_throws : bool;
  cb_locks : bool
}.

Section events.
Context {V : Type}.

Inductive any :=
| any_empty
| any_of (t : string) (v : V).

(** [std::any_cast<T>]; [None] when it throws [std::bad_any_cast]. *)
Definition any_cast (t : string) (a : any) : option V :=
  match a with
  | any_empty => None
  | any_of t' v => if decide (t' = t) then Some v else None
  end.

Record Event := mk_event {
  type : string;
  ev : any;
  ack : option callback
}.

(** A value of [_event_handles]: the lambda [On<T>] makes, or the function given to
    [OnType]. *)
Inductive handle :=
| handle_on (t : string) (cb : callback)
| handle_type (cb : callback).

(** Calls of user functions. *)
Inductive effect :=
| Called (cb : nat) (target_event : V)
| CalledType (cb : nat) (event : Event)
| Acked (cb : nat).

(** [it->second(event)] *)
Definition run_handle (hd : handle) (event : Event) : outcome (list effect) :=
  match hd with
  | handle_on t cb =>
      match any_cast t (ev event) with
      | None => Done []
      | Some target_event =>
          if cb_locks cb then UB
          else if cb_throws cb then Done [Called (cb_name cb) target_event]
          else match ack event with
          | None => Done [Called (cb_name cb) target_event]
          | Some a => if cb_locks a then UB else Done [Called (cb_name cb) target_event; Acked (cb_name a)]
          end
      end
  | handle_type cb =>
      if cb_locks cb then UB
      else if cb_throws cb then Throw "exception of the callback"
      else Done [CalledType (cb_name cb) event]
  end.
End events.
Arguments any : clear implicits.
Arguments Event : clear implicits.
Arguments effect : clear implicits.

(** ** The handler *)

(** Where the thread of a handler is. *)
Inductive thread_pc (V : Type) :=
| TLoop                  (* evaluates [stop_requested()] *)
| TPop                   (* in [_events.Pop()] *)
| THave (event : Event V) (* has an event, is about to lock [_mutex] *)
| TExited                (* left the loop *)
| TTerminate             (* an exception left the thread's function: [std::terminate] *)
| TCrash.                (* undefined behaviour *)
Arguments TLoop {V}.
Arguments TPop {V}.
Arguments THave {V} event.
Arguments TExited {V}.
Arguments TTerminate {V}.
Arguments TCrash {V}.

(** A thread and its stop source. *)
Record hthread (V : Type) := mk_thread { t_pc : thread_pc V; t_stop : bool }.
Arguments mk_thread {V}.
Arguments t_pc {V}.
Arguments t_stop {V}.

(** A call of [Start] or [Stop]: what it does next.  [_thread] is assigned as in libstdc++:
    it is swapped with the new [jthread], and the old one is then stopped and joined. *)
Inductive lifecall :=
| HStart                 (* [if (_start) return] *)
| HCreate                (* makes the new thread *)
| HSwap (new : nat)      (* [_thread = ] it *)
| HStopOld (old : nat)
| HJoinOld (old : nat)
| HSet                   (* [_start = true] *)
| HStop                  (* [if (!_start) return] *)
| HRequest               (* [_thread.request_stop()] *)
| HQueueStop             (* [_events.Stop()] *)
| HJoin                  (* [if (_thread.joinable()) _thread.join()] *)
| HClear                 (* [_events.Clear()] *)
| HUnset                 (* [_start = false] *)
| HDone.

Section handler.
Context {V : Type} {Q : Type -> Type} `{!TaskQueue Q}.

Record EventHandler := mk_handler {
  _events : Q (Event V);
  _event_handles : gmap string handle;
  _start : bool;
  _thread : option nat;                          (* the joinable thread in [_thread] *)
  h_threads : list (hthread V);                  (* all threads made *)
  h_calls : list lifecall;                       (* all calls of [Start] and [Stop] *)
  h_overlap : bool;                              (* some of these ran at the same time *)
  (* history *)
  h_delivered : list (Event V);                  (* events delivered *)
  h_done : list (Event V * option handle);       (* events looked up, with what was found *)
  h_effects : list (effect V);                   (* calls of user functions *)
  h_lost : nat                                   (* events removed by a [Clear] *)
}.

Definition handler_new : EventHandler :=
  mk_handler tq_empty ∅ false None [] [] false [] [] [] 0.

Definition with_events (h : EventHandler) (q : Q (Event V)) (lost : nat) : EventHandler :=
  mk_handler q (_event_handles h) (_start h) (_thread h) (h_threads h) (h_calls h) (h_overlap h)
    (h_delivered h) (h_done h) (h_effects h) (h_lost h + lost).
Definition with_handles (h : EventHandler) (m : gmap string handle) : EventHandler :=
  mk_handler (_events h) m (_start h) (_thread h) (h_threads h) (h_calls h) (h_overlap h)
    (h_delivered h) (h_done h) (h_effects h) (h_lost h).
Definition with_start (h : EventHandler) (start : bool) : EventHandler :=
  mk_handler (_events h) (_event_handles h) start (_thread h) (h_threads h) (h_calls h) (h_overlap h)
    (h_delivered h) (h_done h) (h_effects h) (h_lost h).
Definition with_threads (h : EventHandler) (th : option nat) (ts : list (hthread V)) : EventHandler :=
  mk_handler (_events h) (_event_handles h) (_start h) th ts (h_calls h) (h_overlap h)
    (h_delivered h) (h_done h) (h_effects h) (h_lost h).
Definition with_calls (h : EventHandler) (cs : list lifecall) (overlap : bool) : EventHandler :=
  mk_handler (_events h) (_event_handles h) (_start h) (_thread h) (h_threads h) cs overlap
    (h_delivered h) (h_done h) (h_effects h) (h_lost h).

(** [On<T>] and [OnType]; an empty function is [None]. *)
Definition On (h : EventHandler) (t : string) (callback : option callback) : bool * EventHandler :=
  match callback with
  | None => (false, h)
  | Some cb =>
      match _event_handles h !! t with
      | None => (true, with_handles h (<[t := handle_on t cb]> (_event_handles h)))
      | Some _ => (false, h)
      end
  end.

Definition OnType (h : EventHandler) (t : string) (callback : option callback) : bool * EventHandler :=
  match callback with
  | None => (false, h)
  | Some cb =>
      if decide (t = "") then (false, h)
      else match _event_handles h !! t with
      | None => (true, with_handles h (<[t := handle_type cb]> (_event_handles h)))
      | Some _ => (false, h)
      end
  end.

Definition Cancel (h : EventHandler) (t : string) : EventHandler :=
  with_handles h (delete t (_event_handles h)).

Definition Clear (h : EventHandler) : EventHandler :=
  with_events h (tq_clear (_events h)) (length (tq_items (_events h))).

Definition IsStart (h : EventHandler) : bool := _start h.

Definition _HasType (h : EventHandler) (type_name : string) : bool :=
  bool_decide (is_Some (_event_handles h !! type_name)).

Definition _Deliver (h : EventHandler) (e : Event V) : EventHandler :=
  mk_handler (tq_push e (_events h)) (_event_handles h) (_start h) (_thread h) (h_threads h) (h_calls h)
    (h_overlap h) (h_delivered h ++ [e]) (h_done h) (h_effects h) (h_lost h).

(** [request_stop] of the thread [i], and whether it has ended. *)
Definition request_stop (i : nat) (ts : list (hthread V)) : list (hthread V) :=
  match ts !! i with Some t => <[i := mk_thread (t_pc t) true]> ts | None => ts end.
Definition has_exited (i : nat) (ts : list (hthread V)) : bool :=
  match ts !! i with Some t => match t_pc t with TExited => true | _ => false end | None => false end.

(** One step of a call of [Start]; [None] where it waits. *)
Definition Start (h : EventHandler) (c : lifecall) : option (EventHandler * lifecall) :=
  match c with
  | HStart => Some (h, if _start h then HDone else HCreate)
  | HCreate => Some (with_threads h (_thread h) (h_threads h ++ [mk_thread TLoop false]), HSwap (length (h_threads h)))
  | HSwap new => Some (with_threads h (Some new) (h_threads h), match _thread h with Some old => HStopOld old | None => HSet end)
  | HStopOld old => Some (with_threads h (_thread h) (request_stop old (h_threads h)), HJoinOld old)
  | HJoinOld old => if has_exited old (h_threads h) then Some (h, HSet) else None
  | HSet => Some (with_start h true, HDone)
  | _ => None
  end.

(** And of [Stop]. *)
Definition Stop (h : EventHandler) (c : lifecall) : option (EventHandler * lifecall) :=
  match c with
  | HStop => Some (h, if _start h then HRequest else HDone)
  | HRequest =>
      Some (match _thread h with Some i => with_threads h (_thread h) (request_stop i (h_threads h)) | None => h end, HQueueStop)
  | HQueueStop => Some (with_events h (tq_stop (_events h)) 0, HJoin)
  | HJoin =>
      match _thread h with
      | Some i => if has_exited i (h_threads h) then Some (with_threads h None (h_threads h), HClear) else None
      | None => Some (h, HClear)
      end
  | HClear => Some (Clear h, HUnset)
  | HUnset => Some (with_start h false, HDone)
  | _ => None
  end.

Definition life_step (h : EventHandler) (c : lifecall) : option (EventHandler * lifecall) :=
  match c with
  | HStart | HCreate | HSwap _ | HStopOld _ | HJoinOld _ | HSet => Start h c
  | _ => Stop h c
  end.

(** One step of the loop of the thread [i], which is [t]. *)
Definition with_thread (h : EventHandler) (i : nat) (t : hthread V) (pc : thread_pc V) : EventHandler :=
  with_threads h (_thread h) (<[i := mk_thread pc (t_stop t)]> (h_threads h)).

Definition thread_loop (h : EventHandler) (i : nat) (t : hthread V) : EventHandler :=
  with_thread h i t (if t_stop t then TExited else TPop).

Definition thread_pop (h : EventHandler) (i : nat) (t : hthread V) : EventHandler :=
  match tq_pop (_events h) with
  | Done (None, q) => with_thread (with_events h q 0) i t TLoop
  | Done (Some event, q) => with_thread (with_events h q 0) i t (THave event)
  | Throw _ => with_thread h i t TTerminate
  | UB => with_thread h i t TCrash
  end.

(** The lookup and the callback, under [_mutex]. *)
Definition handle_event (h : EventHandler) (event : Event V) : outcome (list (effect V)) :=
  match _event_handles h !! type event with None => Done [] | Some hd => run_handle hd event end.
Definition handle_pc (r : outcome (list (effect V))) : thread_pc V :=
  match r with Done _ => TLoop | Throw _ => TTerminate | UB => TCrash end.

Definition thread_handle (h : EventHandler) (i : nat) (t : hthread V) (event : Event V) : EventHandler :=
  let r := handle_event h event in
  let h := with_thread h i t (handle_pc r) in
  mk_handler (_events h) (_event_handles h) (_start h) (_thread h) (h_threads h) (h_calls h) (h_overlap h)
    (h_delivered h) (h_done h ++ [(event, _event_handles h !! type event)])
    (h_effects h ++ match r with Done l => l | _ => [] end) (h_lost h).

(** A call of [Start] or [Stop] that has not returned. *)
Definition active (c : lifecall) : bool := match c with HDone => false | _ => true end.

(** The program goes on: no thread has ended it. *)
Definition faulty (t : hthread V) : bool := match t_pc t with TTerminate | TCrash => true | _ => false end.
Definition alive (h : EventHandler) : Prop := forall i t, h_threads h !! i = Some t -> faulty t = false.

(** The steps of a handler: of its threads, of calls of [Start] and [Stop], an access to
    shared data each, and of the other operations, in any order. *)
Inductive hstep : EventHandler -> EventHandler -> Prop :=
| h_on h t cb : alive h -> hstep h (snd (On h t cb))
| h_on_type h t cb : alive h -> hstep h (snd (OnType h t cb))
| h_cancel h t : alive h -> hstep h (Cancel h t)
| h_clear h : alive h -> hstep h (Clear h)
| h_deliver h e : alive h -> hstep h (_Deliver h e)
| h_call h c :
    alive h -> c = HStart \/ c = HStop ->
    hstep h (with_calls h (h_calls h ++ [c]) (h_overlap h || existsb active (h_calls h)))
| h_life h k c h' c' :
    alive h -> h_calls h !! k = Some c -> life_step h c = Some (h', c') ->
    hstep h (with_calls h' (<[k := c']> (h_calls h')) (h_overlap h'))
| h_loop h i t : alive h -> h_threads h !! i = Some t -> t_pc t = TLoop -> hstep h (thread_loop h i t)
| h_pop h i t :
    alive h -> h_threads h !! i = Some t -> t_pc t = TPop -> tq_ready false (_events h) = true -> hstep h (thread_pop h i t)
| h_handle h i t event :
    alive h -> h_threads h !! i = Some t -> t_pc t = THave event -> hstep h (thread_handle h i t event).

Definition hreach : EventHandler -> Prop := rtc hstep handler_new.
End handler.
Arguments EventHandler : clear implicits.

(** ** The bus *)

Section bus.
Context {V : Type} {Q : Type -> Type} `{!TaskQueue Q}.

(** What the standard library leaves in a [std::any] that was moved from: valid, but not
    specified. *)
Variable any_moved : any V -> any V.

(** The handlers are shared objects, named by their addresses; [std::set] keeps the
    subscribed ones in the order of the addresses. *)
Record EventBus := mk_bus { _handlers : list nat }.

Definition bus_new : EventBus := mk_bus [].

Abbreviation heap := (gmap nat (EventHandler V Q)).

(** [std::set::insert] and [erase]. *)
Fixpoint set_insert (x : nat) (l : list nat) : bool * list nat :=
  match l with
  | [] => (true, [x])
  | y :: l' =>
      if (x <? y)%nat then (true, x :: l)
      else if (x =? y)%nat then (false, l)
      else let '(b, l'') := set_insert x l' in (b, y :: l'')
  end.

Fixpoint set_erase (x : nat) (l : list nat) : list nat :=
  match l with [] => [] | y :: l => if (x =? y)%nat then l else y :: set_erase x l end.

(** A null handler is [None]. *)
Definition Subscribe (b : EventBus) (handler : option nat) : bool * EventBus :=
  match handler with
  | None => (false, b)
  | Some h => let '(r, l) := set_insert h (_handlers b) in (r, mk_bus l)
  end.

Definition Unsubscribe (b : EventBus) (handler : option nat) : EventBus :=
  match handler with
  | None => b
  | Some h => mk_bus (set_erase h (_handlers b))
  end.

(** The loop of both overloads of [Publish]; [next] is what is left in the value to send
    after a delivery.  A subscribed handler is kept alive by the bus. *)
Fixpoint publish_loop (next : any V -> any V) (handlers : list nat) (hp : heap)
    (type_name : string) (a : any V) (ack_callback : option callback) (result : bool) : outcome (bool * heap) :=
  match handlers with
  | [] => Done (result, hp)
  | x :: handlers =>
      match hp !! x with
      | None => UB
      | Some handler =>
          if _HasType handler type_name then
            publish_loop next handlers (<[x := _Deliver handler (mk_event type_name a ack_callback)]> hp)
              type_name (next a) ack_callback true
          else publish_loop next handlers hp type_name a ack_callback result
      end
  end.

(** [Publish<T>(msg)]: every event gets a copy of the message. *)
Definition Publish (b : EventBus) (hp : heap) (type_name : string) (msg : V) (ack_callback : option callback) :=
  publish_loop (fun a => a) (_handlers b) hp type_name (any_of type_name msg) ack_callback false.

(** [Publish(type_name, any)]: the value is moved into the event. *)
Definition Publish_any (b : EventBus) (hp : heap) (type_name : string) (a : any V) (ack_callback : option callback) :=
  publish_loop any_moved (_handlers b) hp type_name a ack_callback false.
End bus.

(** * Theorems on the handler *)

Section handler_proofs.
Context {V : Type} {Q : Type -> Type} `{!TaskQueue Q} `{!TaskQueueLaws Q}.
Implicit Types h : EventHandler V Q.
Implicit Types ts : list (hthread V).

(** The events the threads have taken and not yet looked up. *)
Definition in_hand (t : hthread V) : list (Event V) := if t_pc t is THave e then [e] else [].
Definition hands ts : list (Event V) := ts ≫= in_hand.
#[local] Arguments hands : simpl never.

(** The calls an entry of the history made. *)
Definition entry_effects (x : Event V * option handle) : list (effect V) :=
  match x with
  | (e, Some hd) => match run_handle hd e with Done l => l | _ => [] end
  | (_, None) => []
  end.

Definition taken (h : EventHandler V Q) : list (Event V) := (fst <$> h_done h) ++ hands (h_threads h).

Record handler_inv (h : EventHandler V Q) : Prop := {
  inv_items : taken h ++ tq_items (_events h) ⊆+ h_delivered h;
  inv_count : length (h_delivered h) = (length (taken h) + length (tq_items (_events h)) + h_lost h)%nat;
  inv_effects : h_effects h = h_done h ≫= entry_effects;
  inv_keys : forall t t' cb, _event_handles h !! t = Some (handle_on t' cb) -> t' = t;
  inv_typed : Forall (fun x => if snd x is Some (handle_on t _) then t = type (fst x) else True) (h_done h);
  inv_fault : forall i t, h_threads h !! i = Some t -> faulty t = true ->
    exists e hd, last (h_done h) = Some (e, Some hd) /\ forall l, run_handle hd e <> Done l
}.

Lemma hands_update ts i t t' : ts !! i = Some t -> hands (<[i := t']> ts) ++ in_hand t ≡ₚ hands ts ++ in_hand t'.
Proof. apply bind_insert_perm. Qed.

Lemma hands_same ts i t t' : ts !! i = Some t -> in_hand t' = in_hand t -> hands (<[i := t']> ts) = hands ts.
Proof. apply bind_insert_same. Qed.

Lemma hands_request i ts : hands (request_stop i ts) = hands ts.
Proof. unfold request_stop. destruct (ts !! i) eqn:E; [|done]. by eapply hands_same. Qed.

Lemma hands_new ts : hands (ts ++ [mk_thread TLoop false]) = hands ts.
Proof. unfold hands. rewrite bind_app. cbn. by rewrite app_nil_r. Qed.

(** Steps that change neither the queue's items nor what the threads have. *)
Lemma handler_inv_other h h' :
  tq_items (_events h') = tq_items (_events h) -> hands (h_threads h') = hands (h_threads h) ->
  h_delivered h' = h_delivered h -> h_done h' = h_done h -> h_effects h' = h_effects h -> h_lost h' = h_lost h ->
  (forall t t' cb, _event_handles h' !! t = Some (handle_on t' cb) ->
    _event_handles h !! t = Some (handle_on t' cb) \/ t' = t) ->
  (forall i t, h_threads h' !! i = Some t -> faulty t = true -> exists j t', h_threads h !! j = Some t' /\ faulty t' = true) ->
  handler_inv h -> handler_inv h'.
Proof.
  intros E1 E2 E3 E4 E5 E6 Hk Hf [H1 H2 H3 H4 H5 H6]. split; unfold taken in *.
  - by rewrite E1, E2, E3, E4.
  - by rewrite E1, E2, E3, E4, E6.
  - by rewrite E4, E5.
  - intros t t' cb [H| ->]%Hk; eauto.
  - by rewrite E4.
  - intros i t Hi Ht. rewrite E4. destruct (Hf i t Hi Ht) as (j & t' & Hj & Ht'). eauto.
Qed.

(** A thread that is not at fault changed into another. *)
Lemma fault_update ts i t' : faulty t' = false -> forall j t, <[i := t']> ts !! j = Some t -> faulty t = true ->
  exists j t, ts !! j = Some t /\ faulty t = true.
Proof. intros Ht' j t [(<- & <- & _)|[_ Hj]]%list_lookup_insert_Some Hf; [congruence|eauto]. Qed.

Lemma fault_request ts i : forall j t, request_stop i ts !! j = Some t -> faulty t = true ->
  exists j t, ts !! j = Some t /\ faulty t = true.
Proof.
  intros j t. unfold request_stop. destruct (ts !! i) as [ti|] eqn:Ei; [|eauto].
  intros [(<- & <- & _)|[_ Hj]]%list_lookup_insert_Some Hf; eauto.
Qed.

Lemma fault_new ts : forall j t, (ts ++ [mk_thread TLoop false]) !! j = Some t -> faulty t = true ->
  exists j t, ts !! j = Some t /\ faulty t = true.
Proof. intros j t [Hj|[_ [_ <-]%list_lookup_singleton_Some]]%lookup_app_Some Hf; [eauto|done]. Qed.

Lemma handler_inv_clear h : handler_inv h -> handler_inv (Clear h).
Proof.
  intros [H1 H2 H3 H4 H5 H6]. split; try done; unfold Clear, with_events, taken in *; cbn in *; rewrite tq_items_clear.
  - etrans; [|exact H1]. apply submseteq_app; [done|apply submseteq_nil_l].
  - cbn. lia.
Qed.

Lemma handler_inv_life h c h' c' k ov : handler_inv h -> life_step h c = Some (h', c') ->
  handler_inv (with_calls h' (<[k := c']> (h_calls h')) ov).
Proof.
  intros Hi E.
  assert (forall h', handler_inv h' -> forall cs, handler_inv (with_calls h' cs ov)) as Hcalls.
  { intros h1 H1 cs. revert H1. apply handler_inv_other; cbn; eauto. }
  apply Hcalls. clear Hcalls.
  destruct c; cbn in E; repeat match type of E with context [match ?x with _ => _ end] => destruct x eqn:? end; simplify_eq; try done;
    try (by apply handler_inv_clear); revert Hi; apply handler_inv_other; cbn; eauto using tq_items_stop, hands_request, hands_new, fault_request, fault_new.
Qed.

(** What [Pop] does to a queue that is ready. *)
Lemma ready_pop (q : Q (Event V)) : tq_ready false q = true ->
  tq_pop q = Done (None, q) \/
  exists e l q', tq_items q = e :: l /\ tq_pop q = Done (Some e, q') /\ tq_items q' = l.
Proof.
  intros Hr. destruct (tq_stopped q) eqn:Hs; [left; by apply tq_pop_stopped|]. right.
  apply tq_ready_iff in Hr as [Hne|[|]]; [|congruence|done].
  destruct (tq_items q) as [|e l] eqn:Hq; [done|].
  destruct (tq_pop_item _ _ _ _ Hs Hq) as (q' & Hp & Hq' & _). eauto 8.
Qed.

Lemma handler_inv_pop h i t :
  h_threads h !! i = Some t -> t_pc t = TPop -> tq_ready false (_events h) = true -> handler_inv h -> handler_inv (thread_pop h i t).
Proof.
  intros Hi Ht Hr Hinv. unfold thread_pop. destruct (ready_pop _ Hr) as [->|(e & l & q' & Hq & -> & Hq')].
  - revert Hinv. apply handler_inv_other; cbn; auto.
    + eapply hands_same; [exact Hi|]. unfold in_hand. cbn. by rewrite Ht.
    + by apply fault_update.
  - destruct Hinv as [H1 H2 H3 H4 H5 H6]. pose proof (hands_update _ _ _ (mk_thread (THave e) (t_stop t)) Hi) as Hp.
    unfold in_hand in Hp. cbn in Hp. rewrite Ht, app_nil_r in Hp. split; unfold taken in *; cbn; auto.
    + rewrite Hq', Hp. rewrite Hq in H1. etrans; [|exact H1]. apply Permutation_submseteq. solve_Permutation.
    + rewrite Hq', !length_app, Hp, length_app. rewrite Hq, !length_app in H2. cbn in *. lia.
    + intros j t' Hj Hf. destruct (fault_update _ _ (mk_thread (THave e) (t_stop t)) eq_refl j t' Hj Hf) as (? & ? & ? & ?). eauto.
Qed.

Lemma handler_inv_handle h i t e :
  alive h -> h_threads h !! i = Some t -> t_pc t = THave e -> handler_inv h -> handler_inv (thread_handle h i t e).
Proof.
  intros Hal Hi Ht [H1 H2 H3 H4 H5 H6].
  assert (in_hand (mk_thread (handle_pc (handle_event h e)) (t_stop t)) = []) as Hn
    by (unfold in_hand; cbn; by destruct (handle_event h e)).
  pose proof (hands_update _ _ _ (mk_thread (handle_pc (handle_event h e)) (t_stop t)) Hi) as Hp.
  rewrite Hn, app_nil_r in Hp. unfold in_hand in Hp. rewrite Ht in Hp.
  split; unfold taken in *; cbn.
  - rewrite fmap_app. etrans; [|exact H1]. apply Permutation_submseteq. rewrite <- Hp. cbn. solve_Permutation.
  - rewrite H2, fmap_app, !length_app, <- Hp, length_app. cbn. lia.
  - rewrite H3, bind_app. cbn. rewrite app_nil_r. f_equal. unfold handle_event. by destruct (_event_handles h !! type e).
  - done.
  - apply Forall_app. split; [done|]. constructor; [|done]. cbn.
    destruct (_event_handles h !! type e) as [[t' cb|cb]|] eqn:E; try done. by apply H4 in E.
  - intros j tj [(<- & <- & _)|[_ Hj]]%list_lookup_insert_Some Hf; [|by rewrite (Hal j tj Hj) in Hf].
    rewrite last_snoc. unfold faulty, handle_event in Hf. cbn in Hf. destruct (_event_handles h !! type e) as [hd|]; [|done].
    exists e, hd. split; [done|]. intros l Hl. by rewrite Hl in Hf.
Qed.

Lemma handler_inv_step h h' : handler_inv h -> hstep h h' -> handler_inv h'.
Proof.
  intros Hi Hstep. destruct Hstep as [h t cb _|h t cb _|h t _|h _|h e _|h c _ Hc|h k c h' c' _ Hk E|h i t _ Ht Hpc|h i t _ Ht Hpc Hr|h i t e Hal Ht Hpc].
  - unfold On. destruct cb as [cb|]; [|done]. destruct (_event_handles h !! t) eqn:E; [done|].
    revert Hi. apply handler_inv_other; try done; cbn; [|eauto]. intros t1 t2 cb'.
    intros [[-> [= <- <-]]|[_ H]]%lookup_insert_Some; auto.
  - unfold OnType. destruct cb as [cb|]; [|done]. case_decide; [done|]. destruct (_event_handles h !! t) eqn:E; [done|].
    revert Hi. apply handler_inv_other; try done; cbn; [|eauto]. intros t1 t2 cb'.
    intros [[-> H']|[_ H']]%lookup_insert_Some; [done|auto].
  - revert Hi. apply handler_inv_other; try done; cbn; [|eauto]. intros t1 t2 cb' [_ H]%lookup_delete_Some. auto.
  - by apply handler_inv_clear.
  - destruct Hi as [H1 H2 H3 H4 H5 H6]. split; cbn; try done; unfold taken in *; cbn; rewrite tq_items_push.
    + rewrite (app_assoc _ _ [e]). by apply submseteq_app.
    + rewrite !length_app in *. cbn. lia.
  - revert Hi. apply handler_inv_other; cbn; eauto.
  - by eapply handler_inv_life.
  - revert Hi. apply handler_inv_other; cbn; auto.
    + eapply hands_same; [exact Ht|]. unfold in_hand. cbn. rewrite Hpc. by destruct (t_stop t).
    + apply fault_update. unfold faulty. cbn. by destruct (t_stop t).
  - by apply handler_inv_pop.
  - by apply handler_inv_handle.
Qed.

Lemma handler_inv_reach h : hreach h -> handler_inv h.
Proof.
  intros Hr. eapply rtc_invariant; [apply handler_inv_step|exact Hr|].
  split; cbn; unfold taken, hands; cbn; rewrite ?tq_items_empty; done.
Qed.

(** *** Calls that do not overlap *)

(** The threads that may still run while the call of [Start] or [Stop] at work is at [c]
    ([HDone]: none is at work). *)
Definition may_live h (c : lifecall) (i : nat) : Prop :=
  match c with
  | HStart | HStop | HDone => _start h = true /\ _thread h = Some i
  | HCreate | HClear | HUnset => False
  | HSwap new => i = new
  | HStopOld _ | HJoinOld _ | HSet | HRequest | HQueueStop | HJoin => _thread h = Some i
  end.

Definition live_in (S : nat -> Prop) ts : Prop := forall i t, ts !! i = Some t -> t_pc t <> TExited -> S i.

Definition at_work h (o : option nat) : lifecall := default HDone (o ≫= (h_calls h !!.)).

Record serial (h : EventHandler V Q) (o : option nat) : Prop := {
  ser_active : forall k c, h_calls h !! k = Some c -> active c = true -> o = Some k;
  ser_live : live_in (may_live h (at_work h o)) (h_threads h);
  ser_stopped : forall k c, h_calls h !! k = Some c -> c = HJoin \/ c = HClear -> tq_stopped (_events h) = true;
  ser_order : sublist (taken h ++ tq_items (_events h)) (h_delivered h)
}.

Lemma may_live_unique h c i j : may_live h c i -> may_live h c j -> i = j.
Proof. destruct c; cbn; try done; first [intros [_ H1] [_ H2]|intros H1 H2]; congruence. Qed.

Lemma live_update (S : nat -> Prop) ts i t t' : ts !! i = Some t -> t_pc t <> TExited -> live_in S ts -> live_in S (<[i := t']> ts).
Proof.
  intros Hi Ht Hl j tj [(<- & <- & _)|[_ Hj]]%list_lookup_insert_Some Hne; [by apply (Hl i t)|by apply (Hl j tj)].
Qed.

Lemma live_request (S : nat -> Prop) ts i : live_in S ts -> live_in S (request_stop i ts).
Proof.
  intros Hl j tj. unfold request_stop. destruct (ts !! i) as [ti|] eqn:Ei; [|apply Hl].
  intros [(<- & <- & _)|[_ Hj]]%list_lookup_insert_Some Hne; [by apply (Hl i ti)|by apply (Hl j tj)].
Qed.

Lemma live_exited (S : nat -> Prop) ts i : live_in (fun j => Some i = Some j) ts -> has_exited i ts = true -> live_in S ts.
Proof.
  intros Hl He j t Hj Ht. injection (Hl j t Hj Ht) as <-. unfold has_exited in He. rewrite Hj in He. by destruct (t_pc t).
Qed.

Lemma live_weaken (S S' : nat -> Prop) ts : (forall i, S i -> S' i) -> live_in S ts -> live_in S' ts.
Proof. unfold live_in. eauto. Qed.

(** With one thread that runs, its event is all the threads have. *)
Lemma hands_single (S : nat -> Prop) ts i t :
  (forall j, S i -> S j -> j = i) -> live_in S ts -> ts !! i = Some t -> t_pc t <> TExited -> hands ts = in_hand t.
Proof.
  intros Hu Hl Hi Ht. apply (bind_single _ _ i t Hi). intros j tj Hj Hne. unfold in_hand.
  destruct (t_pc tj) eqn:E; try done. destruct Hne. apply Hu; [by apply (Hl i t)|]. apply (Hl j tj Hj). by rewrite E.
Qed.

(** Steps of a thread and of the other operations, which leave the calls alone. *)
Lemma serial_same h h' o :
  h_calls h' = h_calls h -> _start h' = _start h -> _thread h' = _thread h -> tq_stopped (_events h') = tq_stopped (_events h) ->
  live_in (may_live h (at_work h o)) (h_threads h') -> sublist (taken h' ++ tq_items (_events h')) (h_delivered h') ->
  serial h o -> serial h' o.
Proof.
  intros E1 E2 E3 E4 Hl Hs [H1 H2 H3 H4]. split; [by rewrite E1| |by rewrite E1, E4|done].
  unfold at_work. rewrite E1. unfold at_work in Hl. revert Hl. apply live_weaken. intros i.
  destruct (default HDone _); cbn; by rewrite ?E2, ?E3.
Qed.

Lemma serial_pop h o i t :
  h_threads h !! i = Some t -> t_pc t = TPop -> tq_ready false (_events h) = true -> serial h o -> serial (thread_pop h i t) o.
Proof.
  intros Hi Ht Hr Hser. assert (t_pc t <> TExited) as Hne by congruence.
  pose proof (ser_live _ _ Hser) as Hl. pose proof (live_update _ _ _ _ (mk_thread TLoop (t_stop t)) Hi Hne Hl) as Hl1.
  pose proof (ser_order _ _ Hser) as Ho. unfold thread_pop.
  destruct (ready_pop _ Hr) as [->|(e & l & q' & Hq & E & Hq')].
  - revert Hser. apply serial_same; try done. revert Ho. unfold taken. cbn.
    erewrite hands_same; [done|exact Hi|]. unfold in_hand. cbn. by rewrite Ht.
  - rewrite E. pose proof (live_update _ _ _ _ (mk_thread (THave e) (t_stop t)) Hi Hne Hl) as Hl2.
    revert Hser. apply serial_same; try done; cbn.
    + destruct (tq_stopped (_events h)) eqn:Hs; [rewrite (tq_pop_stopped _ _ Hs) in E; by injection E|].
      destruct (tq_pop_item _ _ _ _ Hs Hq) as (q2 & E2 & _ & Hs2). rewrite E2 in E. by injection E as <-.
    + revert Ho. unfold taken. cbn. rewrite Hq', Hq.
      assert (forall j, may_live h (at_work h o) i -> may_live h (at_work h o) j -> j = i) as Hu by (intros; by eapply may_live_unique).
      rewrite (hands_single _ _ _ _ Hu Hl Hi Hne), (hands_single _ _ i (mk_thread (THave e) (t_stop t)) Hu Hl2);
        [|by apply list_lookup_insert_eq; eapply lookup_lt_Some|done].
      unfold in_hand. cbn. by rewrite Ht, app_nil_r, <- app_assoc.
Qed.

Lemma serial_handle h o i t e :
  h_threads h !! i = Some t -> t_pc t = THave e -> serial h o -> serial (thread_handle h i t e) o.
Proof.
  intros Hi Ht Hser. assert (t_pc t <> TExited) as Hne by congruence. pose proof (ser_live _ _ Hser) as Hl.
  pose proof (live_update _ _ _ _ (mk_thread (handle_pc (handle_event h e)) (t_stop t)) Hi Hne Hl) as Hl2.
  pose proof (ser_order _ _ Hser) as Ho. revert Hser. apply serial_same; try done. revert Ho. unfold taken. cbn.
  assert (forall j, may_live h (at_work h o) i -> may_live h (at_work h o) j -> j = i) as Hu by (intros; by eapply may_live_unique).
  rewrite (hands_single _ _ _ _ Hu Hl Hi Hne), (hands_single _ _ i (mk_thread (handle_pc (handle_event h e)) (t_stop t)) Hu Hl2);
    [|by apply list_lookup_insert_eq; eapply lookup_lt_Some|cbn; by destruct (handle_event h e)].
  unfold in_hand. cbn. rewrite Ht, fmap_app. cbn. destruct (handle_event h e); cbn; by rewrite app_nil_r.
Qed.

(** A step of the call at work. *)
Lemma serial_call h h' k c c' ov :
  serial h (Some k) -> h_calls h !! k = Some c -> h_calls h' = h_calls h -> taken h' = taken h ->
  sublist (taken h ++ tq_items (_events h')) (h_delivered h) -> h_delivered h' = h_delivered h ->
  (live_in (may_live h c) (h_threads h) -> live_in (may_live h' c') (h_threads h')) ->
  (tq_stopped (_events h) = true -> tq_stopped (_events h') = true) ->
  (c' = HJoin \/ c' = HClear -> c = HJoin \/ tq_stopped (_events h') = true) ->
  serial (with_calls h' (<[k := c']> (h_calls h')) ov) (Some k).
Proof.
  intros [H1 H2 H3 H4] Hk Ec Et Es Ed Hl Hst Hst'. assert (k < length (h_calls h))%nat as Hlt by (by eapply lookup_lt_Some). split; cbn; rewrite ?Ec.
  - intros j d [(<- & <- & _)|[_ Hj]]%list_lookup_insert_Some Ha; [done|by eapply H1].
  - unfold at_work. cbn. rewrite ?Ec, list_lookup_insert_eq by done. unfold at_work in H2. cbn in H2. rewrite Hk in H2. cbn in *.
    specialize (Hl H2). revert Hl. apply live_weaken. intros i. by destruct c'.
  - intros j d [(<- & <- & _)|[_ Hj]]%list_lookup_insert_Some Hor; [|by eauto].
    destruct (Hst' Hor) as [->|]; [|done]. apply Hst. eauto.
  - unfold taken in *. cbn. by rewrite Et, Ed.
Qed.

Lemma serial_life h k c h' c' : serial h (Some k) -> h_calls h !! k = Some c -> life_step h c = Some (h', c') ->
  serial (with_calls h' (<[k := c']> (h_calls h')) (h_overlap h')) (Some k).
Proof.
  intros Hser Hk E. pose proof (ser_order _ _ Hser) as Ho.
  destruct c; cbn in E; repeat match type of E with context [match ?x with _ => _ end] => destruct x eqn:? end; simplify_eq;
    (eapply serial_call; [exact Hser|exact Hk|..]; cbn; auto; unfold taken; cbn;
       rewrite ?hands_request, ?hands_new, ?tq_items_stop, ?tq_items_clear, ?tq_stopped_stop, ?tq_stopped_clear; try done; try tauto;
       try (by intros [|])).
  - apply live_weaken. cbn. intros i [? _]. congruence.
  - intros Hl i t [Hi|[Hge Hi]]%lookup_app_Some Hne; [by destruct (Hl i t Hi Hne)|].
    apply list_lookup_singleton_Some in Hi as [Hi _]. cbn. lia.
  - apply live_weaken. cbn. congruence.
  - apply live_weaken. cbn. congruence.
  - intros Hl. by apply live_request.
  - apply live_weaken. cbn. auto.
  - apply live_weaken. cbn. tauto.
  - intros Hl. apply live_request. revert Hl. apply live_weaken. cbn. congruence.
  - intros Hl. eapply live_exited; [|eassumption]. revert Hl. apply live_weaken. cbn. congruence.
  - apply live_weaken. cbn. congruence.
  - etrans; [|exact Ho]. apply sublist_app; [done|apply sublist_nil_l].
  - by apply live_weaken.
Qed.

Lemma existsb_active (cs : list lifecall) k c : existsb active cs = false -> cs !! k = Some c -> active c = false.
Proof.
  intros He Hk. destruct (active c) eqn:E; [|done]. rewrite <- He. symmetry. apply existsb_exists.
  exists c. split; [|done]. by eapply list_elem_of_In, list_elem_of_lookup_2.
Qed.

Lemma serial_step h h' o : hstep h h' -> serial h o -> h_overlap h' = false -> exists o', serial h' o'.
Proof.
  intros Hstep Hser Hov. pose proof (ser_order _ _ Hser) as Ho. pose proof (ser_live _ _ Hser) as Hl.
  destruct Hstep as [h t cb _|h t cb _|h t _|h _|h e _|h c _ Hc|h k c h' c' _ Hk E|h i t _ Ht Hpc|h i t _ Ht Hpc Hr|h i t e Hal Ht Hpc].
  - exists o. unfold On. destruct cb; [|done]. destruct (_event_handles h !! t); [done|]. by revert Hser; apply serial_same.
  - exists o. unfold OnType. destruct cb; [|done]. case_decide; [done|]. destruct (_event_handles h !! t); [done|].
    by revert Hser; apply serial_same.
  - exists o. by revert Hser; apply serial_same.
  - exists o. revert Hser; apply serial_same; try done; cbn; [by rewrite tq_stopped_clear|]. unfold taken in *. cbn. rewrite tq_items_clear.
    etrans; [|exact Ho]. apply sublist_app; [done|apply sublist_nil_l].
  - exists o. revert Hser; apply serial_same; try done; cbn; [by rewrite tq_stopped_push|]. unfold taken in *. cbn. rewrite tq_items_push, app_assoc.
    by apply sublist_app.
  - cbn in Hov. apply orb_false_iff in Hov as [_ Hov]. exists (Some (length (h_calls h))). destruct Hser as [H1 H2 H3 H4]. split; cbn.
    + intros k d [Hk|[Hge Hk]]%lookup_app_Some Ha; [by rewrite (existsb_active _ _ _ Hov Hk) in Ha|].
      apply list_lookup_singleton_Some in Hk as [Hk _]. f_equal. lia.
    + unfold at_work. cbn. rewrite lookup_app_r, Nat.sub_diag by done. cbn. revert H2. apply live_weaken. intros i.
      assert (at_work h o = HDone) as ->.
      { unfold at_work. destruct o as [k|]; [|done]. cbn. destruct (h_calls h !! k) as [d|] eqn:Hk; [|done]. cbn.
        apply (existsb_active _ _ _ Hov) in Hk. by destruct d. }
      by destruct Hc as [-> | ->].
    + intros k d [Hk|[Hge Hk]]%lookup_app_Some Hor; [by eapply H3|].
      apply list_lookup_singleton_Some in Hk as [_ <-]. destruct Hc as [-> | ->], Hor; done.
    + done.
  - assert (o = Some k) as ->; [|exists (Some k); by eapply serial_life].
    apply (ser_active _ _ Hser k c Hk). by destruct c.
  - exists o. assert (t_pc t <> TExited) as Hne by congruence.
    pose proof (live_update _ _ _ _ (mk_thread (if t_stop t then TExited else TPop) (t_stop t)) Ht Hne Hl).
    revert Hser; apply serial_same; try done. unfold taken in *. cbn. erewrite hands_same; [done|exact Ht|].
    unfold in_hand. cbn. rewrite Hpc. by destruct (t_stop t).
  - exists o. by apply serial_pop.
  - exists o. by apply serial_handle.
Qed.

Lemma overlap_step h h' : hstep h h' -> h_overlap h' = false -> h_overlap h = false.
Proof.
  intros Hstep. destruct Hstep as [h t cb _|h t cb _|h t _|h _|h e _|h c _ Hc|h k c h' c' _ Hk E|h i t _ Ht Hpc|h i t _ Ht Hpc Hr|h i t e Hal Ht Hpc]; try done.
  - unfold On. destruct cb; [|done]. by destruct (_event_handles h !! t).
  - unfold OnType. destruct cb; [|done]. case_decide; [done|]. by destruct (_event_handles h !! t).
  - cbn. by intros [? _]%orb_false_iff.
  - cbn. intros Ho. destruct c; cbn in E; repeat match type of E with context [match ?x with _ => _ end] => destruct x eqn:? end; by simplify_eq.
  - unfold thread_pop. by destruct (tq_pop (_events h)) as [[[] ?]| |].
Qed.

Lemma serial_reach h : hreach h -> h_overlap h = false -> exists o, serial h o.
Proof.
  intros Hr. eapply (rtc_invariant _ (fun h => h_overlap h = false -> exists o, serial h o)); [|exact Hr|].
  - intros h1 h2 IH Hs Hov. destruct (IH (overlap_step _ _ Hs Hov)) as [o Ho]. by eapply serial_step.
  - intros _. exists None. split; cbn; [done|done|done|]. unfold taken, hands. cbn. by rewrite tq_items_empty.
Qed.

(** C5. An event handler calls its callbacks for each event at most once, and in the order
    of delivery.  In every reachable state, with any threads registering, cancelling,
    delivering, starting and stopping in any interleaving, as long as no callback ends the
    program: the events looked up so far, those its threads have in hand and those queued
    are different ones of the events delivered, and all of them when no [Clear] (nor a
    [Stop], which clears) has removed any; the user functions called are exactly the calls
    of the callbacks found for the events looked up, in order; a callback registered by
    [On<T>] is only called for events of type [T]; and a thread fails only by an exception
    or a relock in the callback of the last event.  If no call of [Start] or [Stop] ran while another
    one did, one thread at most is running, and the events looked up, in hand and queued are
    in the order of their delivery. *)
Theorem handler_fifo h :
  hreach h ->
  taken h ++ tq_items (_events h) ⊆+ h_delivered h /\
  (h_lost h = 0%nat -> taken h ++ tq_items (_events h) ≡ₚ h_delivered h) /\
  h_effects h = h_done h ≫= entry_effects /\
  Forall (fun x => if snd x is Some (handle_on t _) then t = type (fst x) else True) (h_done h) /\
  (forall i t, h_threads h !! i = Some t -> faulty t = true ->
    exists e hd, last (h_done h) = Some (e, Some hd) /\ forall l, run_handle hd e <> Done l) /\
  (h_overlap h = false ->
    (forall i j t t', h_threads h !! i = Some t -> h_threads h !! j = Some t' ->
      t_pc t <> TExited -> t_pc t' <> TExited -> i = j) /\
    sublist (taken h ++ tq_items (_events h)) (h_delivered h) /\
    (h_lost h = 0%nat -> taken h ++ tq_items (_events h) = h_delivered h)).
Proof.
  intros Hr. destruct (handler_inv_reach h Hr) as [H1 H2 H3 H4 H5 H6]. repeat split; try done.
  - intros Hl. apply submseteq_length_Permutation; [done|]. rewrite length_app. lia.
  - destruct (serial_reach h Hr) as [o Ho]; [done|]. intros i j t t' Hi Hj Ht Ht'.
    eapply may_live_unique; by eapply (ser_live _ _ Ho).
  - destruct (serial_reach h Hr) as [o Ho]; [done|]. by apply ser_order in Ho.
  - destruct (serial_reach h Hr) as [o Ho]; [done|]. apply ser_order in Ho. intros Hl.
    apply sublist_same_length; [done|]. rewrite length_app. lia.
Qed.

(** *** A stopped handler *)

(** Nothing in the threads and a stopped queue: no thread will ever get an event. *)
Definition dead h : Prop := tq_stopped (_events h) = true /\ hands (h_threads h) = [].

Lemma stopped_handler_step h h' : dead h -> hstep h h' -> dead h' /\ h_done h' = h_done h /\ h_effects h' = h_effects h.
Proof.
  intros [Hs Hh] Hstep. unfold dead.
  destruct Hstep as [h t cb _|h t cb _|h t _|h _|h e _|h c _ Hc|h k c h' c' _ Hk E|h i t _ Ht Hpc|h i t _ Ht Hpc Hr|h i t e Hal Ht Hpc]; cbn; try done.
  - unfold On. destruct cb; [|done]. by destruct (_event_handles h !! t).
  - unfold OnType. destruct cb; [|done]. case_decide; [done|]. by destruct (_event_handles h !! t).
  - by rewrite tq_stopped_clear.
  - by rewrite tq_stopped_push.
  - destruct c; cbn in E; repeat match type of E with context [match ?x with _ => _ end] => destruct x eqn:? end; simplify_eq; cbn;
      by rewrite ?hands_request, ?hands_new, ?tq_stopped_stop, ?tq_stopped_clear.
  - split; [|done]. split; [done|]. rewrite <- Hh. eapply hands_same; [exact Ht|]. unfold in_hand. cbn. rewrite Hpc. by destruct (t_stop t).
  - unfold thread_pop. rewrite (tq_pop_stopped _ _ Hs). cbn. split; [|done]. split; [done|]. rewrite <- Hh.
    eapply hands_same; [exact Ht|]. unfold in_hand. cbn. by rewrite Hpc.
  - exfalso. rewrite <- (take_drop_middle _ _ _ Ht) in Hh. unfold hands in Hh. rewrite bind_app, bind_cons in Hh.
    apply app_nil in Hh as [_ Hh]. unfold in_hand in Hh at 1. by rewrite Hpc in Hh.
Qed.

(** A handler that has been stopped never handles an event again.  [Stop] stops the
    queue for good, and [Start] does not renew it: from a state where a [Stop], at work
    alone, has joined the thread, whatever happens, [Start] and any deliveries included, no
    event is looked up and no callback is called, though [IsStart] answers true after a
    [Start]. *)
Theorem handler_dead_after_stop h h' k :
  hreach h -> h_overlap h = false -> h_calls h !! k = Some HClear -> rtc hstep h h' ->
  h_done h' = h_done h /\ h_effects h' = h_effects h /\ tq_stopped (_events h') = true.
Proof.
  intros Hr Hov Hk Hh'.
  assert (dead h) as Hd.
  { destruct (serial_reach h Hr Hov) as [o [H1 H2 H3 _]]. split; [by eapply H3; eauto|].
    pose proof (H1 k _ Hk eq_refl) as ->. unfold at_work in H2. cbn in H2. rewrite Hk in H2. cbn in H2.
    unfold hands. revert H2. generalize (h_threads h). intros ts Hl. induction ts as [|t ts IH]; [done|]. rewrite bind_cons.
    rewrite IH by (intros i ti Hi; apply (Hl (S i) ti Hi)). rewrite app_nil_r. unfold in_hand.
    destruct (t_pc t) eqn:E; try done. destruct (Hl 0%nat t eq_refl). congruence. }
  assert (dead h' /\ h_done h' = h_done h /\ h_effects h' = h_effects h) as [[Hs _] ?]; [|tauto].
  clear Hov Hk Hr. revert Hd. induction Hh' as [x|x y z Hstep _ IH]; intros Hd; [done|].
  destruct (stopped_handler_step _ _ Hd Hstep) as (Hy & E1 & E2). destruct (IH Hy) as (Hz & E3 & E4).
  split; [done|]. split; congruence.
Qed.
End handler_proofs.


(** * Theorems on the bus *)

Section bus_proofs.
Context {V : Type} {Q : Type -> Type} `{!TaskQueue Q} `{!TaskQueueLaws Q}.

Definition sorted (l : list nat) : Prop := StronglySorted lt l.

(** The handler at [x] has a callback for the type. *)
Definition has_type (hp : gmap nat (EventHandler V Q)) (t : string) (x : nat) : bool :=
  if hp !! x is Some h then _HasType h t else false.

Lemma set_insert_sorted x l : sorted l ->
  sorted (snd (set_insert x l)) /\ (forall y, y ∈ snd (set_insert x l) <-> y = x \/ y ∈ l) /\
  fst (set_insert x l) = bool_decide (x ∉ l).
Proof.
  induction l as [|y l IH]; intros Hs; cbn [set_insert].
  - cbn. split; [by repeat constructor|]. split; [set_solver|done].
  - apply StronglySorted_inv in Hs as [Hs Hy0]. pose proof Hy0 as Hy. rewrite List.Forall_forall in Hy.
    destruct (Nat.ltb_spec x y); [|destruct (Nat.eqb_spec x y) as [->|]].
    + cbn. split; [|split; [set_solver|]].
      * constructor; [by constructor|]. constructor; [done|]. apply List.Forall_forall. intros z Hz%Hy. lia.
      * symmetry. apply bool_decide_eq_true. intros [->|Hx]%elem_of_cons; [lia|]. apply list_elem_of_In, Hy in Hx. lia.
    + cbn. split; [by constructor|]. split; [set_solver|].
      symmetry. apply bool_decide_eq_false. set_solver.
    + destruct (IH Hs) as (Hs' & He & Hf). destruct (set_insert x l) as [b l'] eqn:E. cbn in *. split; [|split].
      * constructor; [done|]. apply List.Forall_forall. intros z Hz%list_elem_of_In%He. destruct Hz as [->|Hz]; [lia|].
        by apply Hy, list_elem_of_In.
      * intros z. rewrite !elem_of_cons, He. tauto.
      * rewrite Hf. apply bool_decide_ext. rewrite elem_of_cons. naive_solver.
Qed.

Lemma set_erase_sorted x l : sorted l ->
  sorted (set_erase x l) /\ forall y, y ∈ set_erase x l <-> y <> x /\ y ∈ l.
Proof.
  induction l as [|y l IH]; intros Hs; cbn [set_erase]; [split; [done|set_solver]|].
  apply StronglySorted_inv in Hs as [Hs Hy]. rewrite List.Forall_forall in Hy.
  destruct (Nat.eqb_spec x y) as [->|].
  - split; [done|]. intros z. rewrite elem_of_cons. split; [|tauto]. intros Hz. split; [|tauto].
    intros ->. apply list_elem_of_In, Hy in Hz. lia.
  - destruct (IH Hs) as [Hs' He]. split.
    + constructor; [done|]. apply List.Forall_forall. intros z Hz%list_elem_of_In%He. apply Hy, list_elem_of_In. tauto.
    + intros z. rewrite !elem_of_cons, He. naive_solver.
Qed.

Lemma sorted_NoDup l : sorted l -> NoDup l.
Proof.
  induction 1 as [|y l Hs IH Hy]; constructor; [|done]. rewrite List.Forall_forall in Hy.
  intros H%list_elem_of_In%Hy. lia.
Qed.

(** One delivery changes no handler's callbacks. *)
Lemma deliver_has_type (hp : gmap nat (EventHandler V Q)) x h e t y :
  hp !! x = Some h -> has_type (<[x := _Deliver h e]> hp) t y = has_type hp t y.
Proof.
  intros Hx. unfold has_type. destruct (decide (x = y)) as [<-|]; [by rewrite lookup_insert_eq, Hx|by rewrite lookup_insert_ne].
Qed.

Lemma publish_loop_spec next t ack l : forall (hp : gmap nat (EventHandler V Q)) a r,
  NoDup l -> (forall x, x ∈ l -> is_Some (hp !! x)) ->
  exists hp', publish_loop next l hp t a ack r = Done (r || existsb (has_type hp t) l, hp') /\
    (forall i x h, filter (has_type hp t) l !! i = Some x -> hp !! x = Some h ->
      hp' !! x = Some (_Deliver h (mk_event t (Nat.iter i next a) ack))) /\
    (forall x, x ∉ filter (has_type hp t) l -> hp' !! x = hp !! x).
Proof.
  induction l as [|x l IH]; intros hp a r Hnd Hex; cbn [publish_loop existsb].
  - exists hp. rewrite orb_false_r. by split.
  - apply NoDup_cons in Hnd as [Hx Hnd]. destruct (Hex x) as [h Hh]; [set_solver|]. rewrite Hh.
    assert (has_type hp t x = _HasType h t) as E by (unfold has_type; by rewrite Hh).
    rewrite E. destruct (_HasType h t) eqn:Ht.
    + destruct (IH (<[x := _Deliver h (mk_event t a ack)]> hp) (next a) true) as (hp' & E' & Hin & Hout); [done| |].
      { intros y Hy. destruct (decide (x = y)) as [<-|]; [by rewrite lookup_insert_eq|rewrite lookup_insert_ne by done; set_solver]. }
      assert (filter (has_type (<[x := _Deliver h (mk_event t a ack)]> hp) t) l = filter (has_type hp t) l) as Ef.
      { apply list_filter_iff. intros y. by rewrite deliver_has_type. }
      exists hp'. rewrite E', orb_true_r. split; [done|]. rewrite filter_cons_True by (by rewrite E). rewrite Ef in Hin, Hout.
      assert (x ∉ filter (has_type hp t) l) as Hx' by (rewrite list_elem_of_filter; tauto).
      split.
      * intros [|i] y h' Hi Hy; cbn in Hi.
        -- injection Hi as <-. rewrite Hout, lookup_insert_eq by done. cbn. congruence.
        -- rewrite (Hin i y h'); [|done|].
           ++ by rewrite Nat.iter_succ_r.
           ++ rewrite lookup_insert_ne; [done|]. intros <-. by apply list_elem_of_lookup_2 in Hi.
      * intros y Hy. rewrite Hout by set_solver. rewrite lookup_insert_ne; [done|set_solver].
    + destruct (IH hp a r) as (hp' & E' & Hin & Hout); [done|set_solver|].
      exists hp'. rewrite E'. split; [done|]. rewrite filter_cons_False by (rewrite E; by intros []). by split.
Qed.

(** C8. Publishing.  On a bus with subscribed handlers, [Publish] returns whether some
    subscribed handler has the type, appends one event to the queue of each of those and
    touches no other.  With [Publish<T>(msg)] every one gets a copy of the message.  With
    [Publish(type, any)] the first handler gets the value and each later one what the
    move before it left: with the usual library, an empty [any]. *)
Theorem publish_delivers any_moved (b : EventBus) (hp : gmap nat (EventHandler V Q)) t msg a ack :
  sorted (_handlers b) -> (forall x, x ∈ _handlers b -> is_Some (hp !! x)) ->
  let receivers := filter (has_type hp t) (_handlers b) in
  let delivered (e : nat -> any V) hp' :=
    (forall i x h, receivers !! i = Some x -> hp !! x = Some h -> hp' !! x = Some (_Deliver h (mk_event t (e i) ack))) /\
    (forall x, x ∉ receivers -> hp' !! x = hp !! x) in
  exists hp1 hp2,
    Publish b hp t msg ack = Done (bool_decide (receivers <> []), hp1) /\ delivered (fun _ => any_of t msg) hp1 /\
    Publish_any any_moved b hp t a ack = Done (bool_decide (receivers <> []), hp2) /\
    delivered (fun i => Nat.iter i any_moved a) hp2.
Proof.
  intros Hs Hex receivers delivered. apply sorted_NoDup in Hs.
  assert (existsb (has_type hp t) (_handlers b) = bool_decide (receivers <> [])) as Er.
  { unfold receivers. induction (_handlers b) as [|x l IH]; [done|]. cbn [existsb].
    destruct (has_type hp t x) eqn:E; [rewrite filter_cons_True by (by rewrite E); by symmetry; apply bool_decide_eq_true|].
    rewrite filter_cons_False by (rewrite E; by intros []). apply IH; [by apply NoDup_cons in Hs as [_ ?]|set_solver]. }
  destruct (publish_loop_spec (fun a => a) t ack _ hp (any_of t msg) false Hs Hex) as (hp1 & E1 & Hin1 & Hout1).
  destruct (publish_loop_spec any_moved t ack _ hp a false Hs Hex) as (hp2 & E2 & Hin2 & Hout2).
  rewrite Er in E1, E2. exists hp1, hp2. repeat split; try done.
  intros i x h Hi Hx. rewrite (Hin1 i x h Hi Hx).
  by assert (Nat.iter i (fun a => a) (any_of t msg) = any_of t msg) as -> by (clear; by induction i).
Qed.

(** The set of subscribed handlers: [Subscribe] adds a non-null handler and tells
    whether it is new, [Unsubscribe] removes it, both keep the set sorted and free of
    duplicates, from the empty bus on. *)
Theorem subscribe_correct (b : EventBus) (x : option nat) :
  sorted (_handlers bus_new) /\
  (sorted (_handlers b) ->
    sorted (_handlers (snd (Subscribe b x))) /\ sorted (_handlers (Unsubscribe b x)) /\
    fst (Subscribe b x) = (if x is Some h then bool_decide (h ∉ _handlers b) else false) /\
    (forall y, y ∈ _handlers (snd (Subscribe b x)) <-> Some y = x \/ y ∈ _handlers b) /\
    (forall y, y ∈ _handlers (Unsubscribe b x) <-> Some y <> x /\ y ∈ _handlers b)).
Proof.
  split; [constructor|]. intros Hs. destruct x as [h|]; cbn; [|naive_solver].
  destruct (set_insert_sorted h _ Hs) as (H1 & H2 & H3). destruct (set_erase_sorted h _ Hs) as (H4 & H5).
  destruct (set_insert h (_handlers b)) as [r l]. cbn in *. split; [done|]. split; [done|]. split; [done|].
  split; intros y; rewrite ?H2, ?H5; naive_solver.
Qed.
End bus_proofs.

(** * Concrete runs *)

(** What happens next: a call of [Start] or [Stop] begins or goes on, a thread goes on, an
    event is delivered. *)
Inductive act := ACall (c : lifecall) | ALife (k : nat) | AThread (i : nat) | ADeliver (e : Event Z).

Definition do_act (h : EventHandler Z sync_queue) (a : act) : option (EventHandler Z sync_queue) :=
  if negb (forallb (fun t => negb (faulty t)) (h_threads h)) then None else
  match a with
  | ACall (HStart as c) | ACall (HStop as c) =>
      Some (with_calls h (h_calls h ++ [c]) (h_overlap h || existsb active (h_calls h)))
  | ACall _ => None
  | ALife k =>
      c ← h_calls h !! k; '(h', c') ← life_step h c; Some (with_calls h' (<[k := c']> (h_calls h')) (h_overlap h'))
  | AThread i =>
      t ← h_threads h !! i;
      match t_pc t with
      | TLoop => Some (thread_loop h i t)
      | TPop => if tq_ready false (_events h) then Some (thread_pop h i t) else None
      | THave e => Some (thread_handle h i t e)
      | _ => None
      end
  | ADeliver e => Some (_Deliver h e)
  end.

Fixpoint do_acts (h : EventHandler Z sync_queue) (l : list act) : option (EventHandler Z sync_queue) :=
  match l with [] => Some h | a :: l => h' ← do_act h a; do_acts h' l end.

Lemma do_act_step h a h' : do_act h a = Some h' -> hstep h h'.
Proof.
  unfold do_act. destruct (forallb _ (h_threads h)) eqn:Hf; [|done]. cbn [negb].
  assert (alive h) as Ha.
  { intros i t Hi. rewrite forallb_forall in Hf. specialize (Hf t). apply negb_true_iff, Hf.
    by eapply list_elem_of_In, list_elem_of_lookup_2. }
  destruct a as [c|k|i|e].
  - destruct c; try done; intros [= <-]; apply h_call; auto.
  - destruct (h_calls h !! k) as [c|] eqn:Hk; [|done]. cbn. destruct (life_step h c) as [[h1 c1]|] eqn:E; [|done].
    intros [= <-]. by eapply h_life.
  - destruct (h_threads h !! i) as [t|] eqn:Hi; [|done]. cbn. destruct (t_pc t) eqn:E; try done.
    + intros [= <-]. by apply h_loop.
    + destruct (sq_ready false (_events h)) eqn:Hr; [|done]. intros [= <-]. by apply h_pop.
    + intros [= <-]. by apply h_handle.
  - intros [= <-]. by apply h_deliver.
Qed.

Lemma do_acts_rtc l : forall h h', do_acts h l = Some h' -> rtc hstep h h'.
Proof.
  induction l as [|a l IH]; intros h h'; cbn [do_acts]; [by intros [= ->]|].
  destruct (do_act h a) as [h1|] eqn:E; [|done]. intros Hl. eapply rtc_l; [by eapply do_act_step|by apply IH].
Qed.

Definition run_cb := mk_callback 5 false false.
Definition run_event : Event Z := mk_event "int" (any_of "int" 42) (Some (mk_callback 6 false false)).
Definition run_event2 : Event Z := mk_event "int" (any_of "int" 43) None.
Definition run_h1 : EventHandler Z sync_queue := snd (On handler_new "int" (Some run_cb)).

Lemma run_reach l h : do_acts run_h1 l = Some h -> hreach h.
Proof.
  intros H. eapply rtc_l; [apply h_on with (t := "int") (cb := Some run_cb); by intros i t|]. by eapply do_acts_rtc.
Qed.

(** Started; two events are delivered, the first is handled and the thread holds the second. *)
Definition run_started : list act := ACall HStart :: replicate 4 (ALife 0).
Definition run_handled : list act :=
  run_started ++ [ADeliver run_event; ADeliver run_event2; AThread 0; AThread 0; AThread 0; AThread 0; AThread 0].

Lemma handler_fifo_witness : exists h : EventHandler Z sync_queue,
  h_effects h = [Called 5 42; Acked 6] /\ taken h = [run_event; run_event2] /\ h_lost h = 0%nat /\
  taken h ++ tq_items (_events h) ⊆+ h_delivered h /\
  taken h ++ tq_items (_events h) = h_delivered h.
Proof.
  assert (exists h, do_acts run_h1 run_handled = Some h) as [h E] by (vm_compute; eauto).
  assert (hreach h) as Hr by (by eapply run_reach). exists h.
  assert (h_effects h = [Called 5 42; Acked 6] /\ taken h = [run_event; run_event2] /\ h_lost h = 0%nat /\ h_overlap h = false)
    as (E1 & E2 & E3 & E4) by (vm_compute in E; by injection E as <-).
  do 3 (split; [done|]). destruct (handler_fifo h Hr) as (H1 & _ & _ & _ & _ & H2). split; [done|]. by apply H2.
Defined.

(** Stopped, restarted after that, and an event delivered. *)
Lemma handler_dead_after_stop_witness : exists h h' : EventHandler Z sync_queue,
  h_calls h !! 1%nat = Some HClear /\ rtc hstep h h' /\ IsStart h' = true /\ tq_items (_events h') = [run_event] /\
  h_done h' = h_done h /\ h_effects h' = h_effects h /\ tq_stopped (_events h') = true.
Proof.
  assert (exists h, do_acts run_h1 (run_started ++ [ACall HStop; ALife 1; ALife 1; ALife 1; AThread 0; ALife 1]) = Some h) as [h E]
    by (vm_compute; eauto).
  assert (hreach h) as Hr by (by eapply run_reach). vm_compute in E. injection E as <-.
  match type of Hr with hreach ?h => set (h0 := h) in Hr end.
  assert (exists h, do_acts h0 ([ALife 1; ALife 1; ACall HStart] ++ replicate 4 (ALife 2) ++ [ADeliver run_event]) = Some h) as [h' E']
    by (vm_compute; eauto).
  assert (rtc hstep h0 h') as Hr' by (by eapply do_acts_rtc). exists h0, h'.
  split; [done|]. split; [done|]. split; [vm_compute in E'; by injection E' as <-|]. split; [vm_compute in E'; by injection E' as <-|].
  by apply (handler_dead_after_stop h0 h' 1).
Defined.

(** Two calls of [Start] that overlap both pass the test of [_start]: the handler has two
    threads, which take an event each, and the later event is handled first. *)
Lemma handler_two_starts : exists h : EventHandler Z sync_queue,
  hreach h /\ h_delivered h = [run_event; run_event2] /\ fst <$> h_done h = [run_event2; run_event].
Proof.
  assert (exists h, do_acts run_h1
    ([ACall HStart; ACall HStart; ALife 0; ALife 1; ALife 0; ALife 1; ADeliver run_event; ADeliver run_event2] ++
     [AThread 0; AThread 0; AThread 1; AThread 1; AThread 1; AThread 0]) = Some h) as [h E] by (vm_compute; eauto).
  exists h. split; [by eapply run_reach|]. vm_compute in E. by injection E as <-.
Qed.

(** Two handlers of one type: the second gets an empty [any] from [Publish_any]. *)
Definition run_hp : gmap nat (EventHandler Z sync_queue) := {[ 1%nat := run_h1; 2%nat := run_h1; 3%nat := handler_new ]}.

Example publish_any_moves :
  match Publish_any (fun _ => any_empty) (mk_bus [1; 2; 3])%nat run_hp "int" (any_of "int" 42) None with
  | Done (r, run_hp') => (r, (tq_items ∘ _events) <$> run_hp')
  | _ => (false, ∅)
  end = (true, {[ 1%nat := [mk_event "int" (any_of "int" 42) None]; 2%nat := [mk_event "int" any_empty None]; 3%nat := [] ]}).
Proof. reflexivity. Qed.

Lemma publish_delivers_witness :
  exists hp1 hp2,
    Publish (mk_bus [1; 2; 3])%nat run_hp "int" 42 None = Done (true, hp1) /\
    Publish_any (fun _ => any_empty) (mk_bus [1; 2; 3])%nat run_hp "int" (any_of "int" 42) None = Done (true, hp2) /\
    hp1 !! 2%nat = Some (_Deliver run_h1 (mk_event "int" (any_of "int" 42) None)) /\
    hp2 !! 2%nat = Some (_Deliver run_h1 (mk_event "int" any_empty None)).
Proof.
  destruct (publish_delivers (fun _ => any_empty) (mk_bus [1; 2; 3])%nat run_hp "int" 42 (any_of "int" 42) None)
    as (hp1 & hp2 & E1 & [H1 _] & E2 & [H2 _]).
  - repeat constructor; lia.
  - intros x Hx. cbn in Hx. repeat (apply elem_of_cons in Hx as [->|Hx]; [by eexists|]). by apply not_elem_of_nil in Hx.
  - exists hp1, hp2. split; [exact E1|]. split; [exact E2|].
    split; [by apply (H1 1%nat)|by apply (H2 1%nat)].
Defined.

Lemma subscribe_correct_witness :
  let b := mk_bus [1; 3]%nat in
  fst (Subscribe b (Some 2%nat)) = true /\ sorted (_handlers (snd (Subscribe b (Some 2%nat)))).
Proof.
  destruct (subscribe_correct (mk_bus [1; 3]%nat) (Some 2%nat)) as [_ H].
  destruct H as (H1 & _ & _); [repeat constructor; lia|]. by split.
Defined.
