(* ===== verification/CType.v ===== *)
(** * CType: C strings, character classes, case-independent comparison

    Models [sqlite3UpperToLower], [sqlite3CtypeMap] and the macros on them
    (sqlite3.c, global.c and sqliteInt.h, the ASCII build), and the string helpers of
    util.c: [sqlite3StrICmp], [sqlite3_strnicmp], [sqlite3StrIHash], [sqlite3HexToInt],
    [sqlite3Dequote].

    A [char *] is the list of the bytes of memory from the pointer on; [z.[i]] is
    [z[i]].  A C string is [t ++ 0 :: g]: the text [t] without NUL, the terminator,
    and whatever follows it in memory; that code does not look at [g] is a theorem of
    the files that use it.  Bytes are [unsigned char] values: where the source reads a
    (signed) [char], it only compares it with ASCII characters or casts it. *)

From S2P Require Import Prelude.

Definition ld (z : bytes) (i : Z) : Z := nth (Z.to_nat i) z 0.
Notation "z .[ i ]" := (ld z i) (at level 1, left associativity, format "z .[ i ]") : c_scope.

(** Lower case of each byte; the last 18 entries are the comparison tables. *)
Definition sqlite3UpperToLower : bytes := [
  0; 1; 2; 3; 4; 5; 6; 7; 8; 9; 10; 11; 12; 13; 14; 15; 16; 17; 18; 19; 20; 21; 22; 23; 24; 25;
  26; 27; 28; 29; 30; 31; 32; 33; 34; 35; 36; 37; 38; 39; 40; 41; 42; 43; 44; 45; 46; 47; 48;
  49; 50; 51; 52; 53; 54; 55; 56; 57; 58; 59; 60; 61; 62; 63; 64; 97; 98; 99; 100; 101; 102;
  103; 104; 105; 106; 107; 108; 109; 110; 111; 112; 113; 114; 115; 116; 117; 118; 119; 120;
  121; 122; 91; 92; 93; 94; 95; 96; 97; 98; 99; 100; 101; 102; 103; 104; 105; 106; 107; 108;
  109; 110; 111; 112; 113; 114; 115; 116; 117; 118; 119; 120; 121; 122; 123; 124; 125; 126;
  127; 128; 129; 130; 131; 132; 133; 134; 135; 136; 137; 138; 139; 140; 141; 142; 143; 144;
  145; 146; 147; 148; 149; 150; 151; 152; 153; 154; 155; 156; 157; 158; 159; 160; 161; 162;
  163; 164; 165; 166; 167; 168; 169; 170; 171; 172; 173; 174; 175; 176; 177; 178; 179; 180;
  181; 182; 183; 184; 185; 186; 187; 188; 189; 190; 191; 192; 193; 194; 195; 196; 197; 198;
  199; 200; 201; 202; 203; 204; 205; 206; 207; 208; 209; 210; 211; 212; 213; 214; 215; 216;
  217; 218; 219; 220; 221; 222; 223; 224; 225; 226; 227; 228; 229; 230; 231; 232; 233; 234;
  235; 236; 237; 238; 239; 240; 241; 242; 243; 244; 245; 246; 247; 248; 249; 250; 251; 252;
  253; 254; 255; 1; 0; 0; 1; 1; 0; 0; 1; 0; 1; 0; 1; 1; 0; 1; 0; 0; 1].

(** Character classes, a bit set per byte. *)
Definition sqlite3CtypeMap : bytes := [
  0; 0; 0; 0; 0; 0; 0; 0; 0; 1; 1; 1; 1; 1; 0; 0; 0; 0; 0; 0; 0; 0; 0; 0; 0; 0; 0; 0; 0; 0; 0;
  0; 1; 0; 128; 0; 64; 0; 0; 128; 0; 0; 0; 0; 0; 0; 0; 0; 12; 12; 12; 12; 12; 12; 12; 12; 12;
  12; 0; 0; 0; 0; 0; 0; 0; 10; 10; 10; 10; 10; 10; 2; 2; 2; 2; 2; 2; 2; 2; 2; 2; 2; 2; 2; 2; 2;
  2; 2; 2; 2; 2; 128; 0; 0; 0; 64; 128; 42; 42; 42; 42; 42; 42; 34; 34; 34; 34; 34; 34; 34; 34;
  34; 34; 34; 34; 34; 34; 34; 34; 34; 34; 34; 34; 0; 0; 0; 0; 0; 64; 64; 64; 64; 64; 64; 64;
  64; 64; 64; 64; 64; 64; 64; 64; 64; 64; 64; 64; 64; 64; 64; 64; 64; 64; 64; 64; 64; 64; 64;
  64; 64; 64; 64; 64; 64; 64; 64; 64; 64; 64; 64; 64; 64; 64; 64; 64; 64; 64; 64; 64; 64; 64;
  64; 64; 64; 64; 64; 64; 64; 64; 64; 64; 64; 64; 64; 64; 64; 64; 64; 64; 64; 64; 64; 64; 64;
  64; 64; 64; 64; 64; 64; 64; 64; 64; 64; 64; 64; 64; 64; 64; 64; 64; 64; 64; 64; 64; 64; 64;
  64; 64; 64; 64; 64; 64; 64; 64; 64; 64; 64; 64; 64; 64; 64; 64; 64; 64; 64; 64; 64; 64; 64;
  64; 64; 64; 64; 64; 64].

(** The macros of sqliteInt.h, as conditions. *)
Definition cclass (mask c : Z) : bool := negb (sqlite3CtypeMap.[c] .& mask =? 0).
Definition sqlite3Isspace : Z -> bool := cclass 0x01.
Definition sqlite3Isalnum : Z -> bool := cclass 0x06.
Definition sqlite3Isalpha : Z -> bool := cclass 0x02.
Definition sqlite3Isdigit : Z -> bool := cclass 0x04.
Definition sqlite3Isxdigit : Z -> bool := cclass 0x08.
Definition sqlite3Isquote : Z -> bool := cclass 0x80.
Definition IdChar : Z -> bool := cclass 0x46.
Definition sqlite3Tolower (c : Z) : Z := sqlite3UpperToLower.[c].
Definition sqlite3Toupper (c : Z) : Z := c .& Z.lnot (sqlite3CtypeMap.[c] .& 0x20).

(** ** Scanning *)

(** [for(i=i0; P(z[i]); i++){}]: the number of leading bytes that satisfy [P], and the
    index the loop ends at. *)
Fixpoint span_len (P : Z -> bool) (l : bytes) : Z :=
  match l with
  | c :: r => if P c then 1 + span_len P r else 0
  | [] => 0
  end.
Definition skip (P : Z -> bool) (z : bytes) (i : Z) : Z := i + span_len P (drop (Z.to_nat i) z).

(** A memory that holds the text [t] at its start: [t] has no NUL. *)
Definition no_nul (t : bytes) : Prop := Forall (fun c => is_byte c /\ c <> 0) t.

Lemma ld_app_l (a b : bytes) i : 0 <= i < len a -> (a ++ b).[i] = a.[i].
Proof. intros. unfold ld. rewrite app_nth1 by lia. done. Qed.

Lemma ld_app_r (a b : bytes) i : len a <= i -> (a ++ b).[i] = b.[i - len a].
Proof. intros. unfold ld. rewrite app_nth2 by lia. f_equal. lia. Qed.

Lemma ld_map (f : Z -> Z) (l : bytes) k : 0 <= k < len l -> (map f l).[k] = f l.[k].
Proof.
  intros Hk. unfold ld. rewrite (nth_indep _ 0 (f 0)) by (rewrite length_map; lia). apply map_nth.
Qed.

Lemma ld_app (l1 l2 : bytes) j : 0 <= j -> (l1 ++ l2).[j] = if j <? len l1 then l1.[j] else l2.[j - len l1].
Proof.
  intros Hj. unfold ld. destruct (Z.ltb_spec j (len l1)).
  - apply app_nth1. lia.
  - rewrite app_nth2 by lia. f_equal. lia.
Qed.

Lemma ld_take (l : bytes) n j : 0 <= j < n -> (take (Z.to_nat n) l).[j] = l.[j].
Proof. intros Hj. unfold ld. rewrite !nth_lookup. by rewrite lookup_take_lt by lia. Qed.

Lemma ld_beyond (l : list Z) i : len l <= i -> l.[i] = 0.
Proof. intros. unfold ld. apply nth_overflow. lia. Qed.

Lemma ld_drop (z : bytes) i j : 0 <= i -> 0 <= j -> ld (drop (Z.to_nat i) z) j = z.[i + j].
Proof.
  intros. unfold ld. rewrite <- (take_drop (Z.to_nat i) z) at 2.
  destruct (Nat.le_gt_cases (length z) (Z.to_nat i)).
  - rewrite drop_ge by lia. rewrite app_nil_r. rewrite !nth_overflow; simpl; rewrite ?length_take; lia || done.
  - rewrite app_nth2 by (rewrite length_take; lia). f_equal. rewrite length_take. lia.
Qed.

Lemma drop_ld (z : bytes) i : 0 <= i < len z -> drop (Z.to_nat i) z = z.[i] :: drop (Z.to_nat (i + 1)) z.
Proof.
  intros. destruct (lookup_lt_is_Some_2 z (Z.to_nat i)) as [c Hc]; [lia|].
  replace (Z.to_nat (i + 1)) with (S (Z.to_nat i)) by lia.
  rewrite (drop_S _ c) by done. unfold ld. f_equal. symmetry. by apply nth_lookup_Some.
Qed.

Lemma ld_is_byte (l : bytes) i : bytes_ok l -> is_byte l.[i].
Proof.
  intros H. unfold ld. destruct (Nat.lt_ge_cases (Z.to_nat i) (length l)).
  - destruct (lookup_lt_is_Some_2 l (Z.to_nat i)) as [c Hc]; [lia|].
    rewrite (nth_lookup_Some _ _ _ _ Hc). exact (Forall_lookup_1 _ _ _ _ H Hc).
  - rewrite nth_overflow by lia. unfold is_byte. lia.
Qed.

Section text.
Context (t : bytes) (Ht : no_nul t).

Lemma text_end g : (t ++ 0 :: g).[len t] = 0.
Proof. rewrite ld_app_r by lia. by replace (len t - len t) with 0 by lia. Qed.

Lemma text_byte g i : 0 <= i < len t -> is_byte (t ++ 0 :: g).[i] /\ (t ++ 0 :: g).[i] <> 0.
Proof.
  intros. rewrite ld_app_l by lia. unfold ld.
  destruct (lookup_lt_is_Some_2 t (Z.to_nat i)) as [c Hc]; [lia|].
  rewrite (nth_lookup_Some _ _ _ _ Hc). exact (Forall_lookup_1 _ _ _ _ Ht Hc).
Qed.

(** The key to bounds: a byte that is not NUL is inside the text, so the next one
    can be read. *)
Lemma text_inside g i : 0 <= i <= len t -> (t ++ 0 :: g).[i] <> 0 -> i < len t.
Proof. intros Hi H. destruct (decide (i = len t)) as [->|]; [by rewrite text_end in H|lia]. Qed.

Lemma text_any_byte g i : 0 <= i <= len t -> is_byte (t ++ 0 :: g).[i].
Proof.
  intros Hi. destruct (decide (i = len t)) as [->|]; [rewrite text_end; unfold is_byte; lia|].
  apply text_byte. lia.
Qed.

Lemma text_same g g' i : 0 <= i <= len t -> (t ++ 0 :: g).[i] = (t ++ 0 :: g').[i].
Proof.
  intros Hi. destruct (decide (i = len t)) as [->|]; [by rewrite !text_end|].
  by rewrite !ld_app_l by lia.
Qed.

(** Reading the terminated text is reading the text with 0 past its end. *)
Lemma ld_text g i : 0 <= i <= len t -> (t ++ 0 :: g).[i] = t.[i].
Proof.
  intros Hi. destruct (decide (i = len t)) as [->|]; [|by rewrite ld_app_l by lia].
  rewrite text_end. unfold ld. by rewrite nth_overflow by lia.
Qed.

Lemma ld_inside i : 0 <= i -> t.[i] <> 0 -> i < len t.
Proof.
  intros Hi H. destruct (Z.lt_ge_cases i (len t)); [done|]. exfalso. apply H.
  unfold ld. by rewrite nth_overflow by lia.
Qed.

Lemma ld_byte i : 0 <= i -> is_byte t.[i].
Proof.
  intros Hi. destruct (Z.lt_ge_cases i (len t)).
  - rewrite <- (ld_text []) by lia. apply text_any_byte. lia.
  - unfold ld. rewrite nth_overflow by lia. unfold is_byte. lia.
Qed.

Lemma ld_nonzero i : 0 <= i < len t -> t.[i] <> 0.
Proof. intros. rewrite <- (ld_text []) by lia. by apply text_byte. Qed.

Lemma drop_text g i : 0 <= i <= len t ->
  drop (Z.to_nat i) (t ++ 0 :: g) = drop (Z.to_nat i) t ++ 0 :: g.
Proof. intros. by rewrite drop_app_le by lia. Qed.
End text.

Lemma no_nul_drop t n : no_nul t -> no_nul (drop n t).
Proof. apply Forall_drop. Qed.

Lemma span_len_text P (t g : bytes) :
  P 0 = false -> span_len P (t ++ 0 :: g) = span_len P t /\ 0 <= span_len P t <= len t.
Proof.
  intros H0. induction t as [|c t [IH1 IH2]]; simpl; [rewrite H0; lia|].
  destruct (P c); [rewrite IH1|]; lia.
Qed.

Lemma skip_text P (t g : bytes) i :
  P 0 = false -> 0 <= i <= len t ->
  skip P (t ++ 0 :: g) i = skip P t i /\ i <= skip P t i <= len t.
Proof.
  intros H0 Hi. unfold skip. rewrite drop_text by done.
  destruct (span_len_text P (drop (Z.to_nat i) t) g H0) as [-> H].
  rewrite length_drop in H. lia.
Qed.

(** ** Case-independent comparison (util.c) *)

Fixpoint sqlite3StrICmp (a b : bytes) : Z :=
  match a with
  | [] => sqlite3Tolower 0 - sqlite3Tolower b.[0]
  | c :: a' =>
      let x := b.[0] in
      if c =? x then if c =? 0 then c else sqlite3StrICmp a' (tail b)
      else
        let d := sqlite3Tolower c - sqlite3Tolower x in
        if d =? 0 then sqlite3StrICmp a' (tail b) else d
  end.

(** The loop runs while [N-- > 0], [a] is not at its end and the bytes agree; then the
    difference unless [N<0]. *)
Fixpoint sqlite3_strnicmp (a b : bytes) (N : Z) : Z :=
  if N <=? 0 then 0
  else match a with
       | [] => sqlite3Tolower 0 - sqlite3Tolower b.[0]
       | c :: a' =>
           if negb (c =? 0) && (sqlite3Tolower c =? sqlite3Tolower b.[0])
           then sqlite3_strnicmp a' (tail b) (N - 1)
           else sqlite3Tolower c - sqlite3Tolower b.[0]
       end.

(** The loop over the NUL-terminated bytes of [z], with [h] a [u8]. *)
Fixpoint StrIHash_loop (h : Z) (z : bytes) : Z :=
  match z with
  | [] => h
  | c :: z' => if c =? 0 then h else StrIHash_loop (u8 (h + sqlite3Tolower c)) z'
  end.
Definition sqlite3StrIHash (z : bytes) : Z := StrIHash_loop 0 z.

Definition sqlite3HexToInt (h : Z) : Z := u8 ((h + 9 * (1 .& (h >> 6))) .& 0xf).

(** ** sqlite3Dequote *)

(** The in-place loop; [None] when the text ends before the closing quote (an
    assertion of the source, a read past the end of the string without it). *)
Fixpoint dequote_loop (fuel : nat) (quote : Z) (z : bytes) (i j : Z) : option (bytes * Z) :=
  match fuel with
  | O => None
  | S fuel =>
      if z.[i] =? 0 then None
      else if z.[i] =? quote then
        if z.[i + 1] =? quote then
          dequote_loop fuel quote (<[Z.to_nat j := quote]> z) (i + 2) (j + 1)
        else Some (z, j)
      else dequote_loop fuel quote (<[Z.to_nat j := z.[i]]> z) (i + 1) (j + 1)
  end.

Definition sqlite3Dequote (z : bytes) : option bytes :=
  let quote := z.[0] in
  if negb (sqlite3Isquote quote) then Some z
  else
    let quote := if quote =? 91 (* [ *) then 93 (* ] *) else quote in
    match dequote_loop (length z) quote z 1 0 with
    | Some (z, j) => Some (<[Z.to_nat j := 0]> z)
    | None => None
    end.

(** ** Facts about the tables, by computation over all bytes *)

Lemma byte_cases (f : Z -> bool) : forallb f (seqZ 0 256) = true -> forall c, is_byte c -> f c = true.
Proof.
  rewrite forallb_forall. intros H c Hc. apply H. rewrite <- list_elem_of_In, elem_of_seqZ. exact Hc.
Qed.

Lemma tolower_upper c :
  is_byte c ->
  sqlite3Tolower c = if (65 <=? c) && (c <=? 90) then c + 32 else c.
Proof.
  intros Hc. apply Z.eqb_eq. revert c Hc.
  apply (byte_cases (fun c => sqlite3Tolower c =? if (65 <=? c) && (c <=? 90) then c + 32 else c)).
  vm_compute. reflexivity.
Qed.

Lemma tolower_zero c : is_byte c -> sqlite3Tolower c = 0 -> c = 0.
Proof. intros Hc. rewrite tolower_upper by done. destruct (_ && _) eqn:E; lia. Qed.

Lemma tolower_byte c : is_byte c -> is_byte (sqlite3Tolower c).
Proof.
  intros Hc. rewrite tolower_upper by done. unfold is_byte in *.
  destruct (Z.leb_spec 65 c), (Z.leb_spec c 90); simpl; lia.
Qed.

(** Case-folding a text. *)
Abbreviation fold_case t := (map sqlite3Tolower t).

Lemma tolower_neq_0 c : is_byte c -> c <> 0 -> sqlite3Tolower c <> 0.
Proof. intros Hc H E. by apply H, tolower_zero. Qed.

Lemma ld_cons_0 c (l : bytes) : (c :: l).[0] = c.
Proof. done. Qed.

Lemma ld_cons_S c (l : bytes) i : 0 <= i -> (c :: l).[i + 1] = l.[i].
Proof. intros. unfold ld. by replace (Z.to_nat (i + 1)) with (S (Z.to_nat i)) by lia. Qed.

Lemma StrICmp_eq (a b g h : bytes) :
  no_nul a -> no_nul b ->
  (sqlite3StrICmp (a ++ 0 :: g) (b ++ 0 :: h) = 0 <-> fold_case a = fold_case b).
Proof.
  intros Ha. revert b. induction Ha as [|c a [Hc H0] Ha IH]; intros b Hb.
  - destruct Hb as [|x b [Hx H1] Hb]; [done|]. cbn [app sqlite3StrICmp map].
    rewrite ld_cons_0, (proj2 (Z.eqb_neq 0 x)) by done. pose proof (tolower_neq_0 x Hx H1).
    change (sqlite3Tolower 0) with 0. cbv zeta. rewrite (proj2 (Z.eqb_neq _ 0)) by lia.
    split; [lia|done].
  - pose proof (tolower_neq_0 c Hc H0). cbn [app sqlite3StrICmp map].
    destruct Hb as [|x b [Hx H1] Hb]; cbn [app map tail]; rewrite ld_cons_0; cbv zeta.
    + change (sqlite3Tolower 0) with 0.
      rewrite !(proj2 (Z.eqb_neq _ 0)) by lia. split; [lia|done].
    + destruct (Z.eqb_spec c x) as [->|Hne].
      * rewrite (proj2 (Z.eqb_neq x 0)) by done. rewrite (IH b Hb). split; [by intros ->|congruence].
      * destruct (Z.eqb_spec (sqlite3Tolower c - sqlite3Tolower x) 0) as [E|E].
        -- rewrite (IH b Hb). split; [intros ->; f_equal; lia|congruence].
        -- split; [done|]. intros [= E2 _]. lia.
Qed.
