(* ===== verification/TokenTables.v ===== *)
(** * TokenTables: the tables of the SQL tokenizer

    Token codes (parse.h), character classes (tokenize.c), the generated keyword hash
    (keywordhash.h) and the parser's fallback table (parse.c), all in sqlite3.c; and the
    keyword list the hash is meant to represent, for the specification. *)

From S2P Require Import Prelude CType.

(** Token codes. *)
Definition TK_SEMI : Z := 1.
Definition TK_EXPLAIN : Z := 2.
Definition TK_QUERY : Z := 3.
Definition TK_PLAN : Z := 4.
Definition TK_BEGIN : Z := 5.
Definition TK_TRANSACTION : Z := 6.
Definition TK_DEFERRED : Z := 7.
Definition TK_IMMEDIATE : Z := 8.
Definition TK_EXCLUSIVE : Z := 9.
Definition TK_COMMIT : Z := 10.
Definition TK_END : Z := 11.
Definition TK_ROLLBACK : Z := 12.
Definition TK_SAVEPOINT : Z := 13.
Definition TK_RELEASE : Z := 14.
Definition TK_TO : Z := 15.
Definition TK_TABLE : Z := 16.
Definition TK_CREATE : Z := 17.
Definition TK_IF : Z := 18.
Definition TK_NOT : Z := 19.
Definition TK_EXISTS : Z := 20.
Definition TK_TEMP : Z := 21.
Definition TK_LP : Z := 22.
Definition TK_RP : Z := 23.
Definition TK_AS : Z := 24.
Definition TK_COMMA : Z := 25.
Definition TK_WITHOUT : Z := 26.
Definition TK_ABORT : Z := 27.
Definition TK_ACTION : Z := 28.
Definition TK_AFTER : Z := 29.
Definition TK_ANALYZE : Z := 30.
Definition TK_ASC : Z := 31.
Definition TK_ATTACH : Z := 32.
Definition TK_BEFORE : Z := 33.
Definition TK_BY : Z := 34.
Definition TK_CASCADE : Z := 35.
Definition TK_CAST : Z := 36.
Definition TK_CONFLICT : Z := 37.
Definition TK_DATABASE : Z := 38.
Definition TK_DESC : Z := 39.
Definition TK_DETACH : Z := 40.
Definition TK_EACH : Z := 41.
Definition TK_FAIL : Z := 42.
Definition TK_OR : Z := 43.
Definition TK_AND : Z := 44.
Definition TK_IS : Z := 45.
Definition TK_MATCH : Z := 46.
Definition TK_LIKE_KW : Z := 47.
Definition TK_BETWEEN : Z := 48.
Definition TK_IN : Z := 49.
Definition TK_ISNULL : Z := 50.
Definition TK_NOTNULL : Z := 51.
Definition TK_NE : Z := 52.
Definition TK_EQ : Z := 53.
Definition TK_GT : Z := 54.
Definition TK_LE : Z := 55.
Definition TK_LT : Z := 56.
Definition TK_GE : Z := 57.
Definition TK_ESCAPE : Z := 58.
Definition TK_ID : Z := 59.
Definition TK_COLUMNKW : Z := 60.
Definition TK_DO : Z := 61.
Definition TK_FOR : Z := 62.
Definition TK_IGNORE : Z := 63.
Definition TK_INITIALLY : Z := 64.
Definition TK_INSTEAD : Z := 65.
Definition TK_NO : Z := 66.
Definition TK_KEY : Z := 67.
Definition TK_OF : Z := 68.
Definition TK_OFFSET : Z := 69.
Definition TK_PRAGMA : Z := 70.
Definition TK_RAISE : Z := 71.
Definition TK_RECURSIVE : Z := 72.
Definition TK_REPLACE : Z := 73.
Definition TK_RESTRICT : Z := 74.
Definition TK_ROW : Z := 75.
Definition TK_ROWS : Z := 76.
Definition TK_TRIGGER : Z := 77.
Definition TK_VACUUM : Z := 78.
Definition TK_VIEW : Z := 79.
Definition TK_VIRTUAL : Z := 80.
Definition TK_WITH : Z := 81.
Definition TK_NULLS : Z := 82.
Definition TK_FIRST : Z := 83.
Definition TK_LAST : Z := 84.
Definition TK_CURRENT : Z := 85.
Definition TK_FOLLOWING : Z := 86.
Definition TK_PARTITION : Z := 87.
Definition TK_PRECEDING : Z := 88.
Definition TK_RANGE : Z := 89.
Definition TK_UNBOUNDED : Z := 90.
Definition TK_EXCLUDE : Z := 91.
Definition TK_GROUPS : Z := 92.
Definition TK_OTHERS : Z := 93.
Definition TK_TIES : Z := 94.
Definition TK_GENERATED : Z := 95.
Definition TK_ALWAYS : Z := 96.
Definition TK_MATERIALIZED : Z := 97.
Definition TK_REINDEX : Z := 98.
Definition TK_RENAME : Z := 99.
Definition TK_CTIME_KW : Z := 100.
Definition TK_BITAND : Z := 102.
Definition TK_BITOR : Z := 103.
Definition TK_LSHIFT : Z := 104.
Definition TK_RSHIFT : Z := 105.
Definition TK_PLUS : Z := 106.
Definition TK_MINUS : Z := 107.
Definition TK_STAR : Z := 108.
Definition TK_SLASH : Z := 109.
Definition TK_REM : Z := 110.
Definition TK_CONCAT : Z := 111.
Definition TK_COLLATE : Z := 112.
Definition TK_BITNOT : Z := 113.
Definition TK_ON : Z := 114.
Definition TK_INDEXED : Z := 115.
Definition TK_STRING : Z := 116.
Definition TK_JOIN_KW : Z := 117.
Definition TK_CONSTRAINT : Z := 118.
Definition TK_DEFAULT : Z := 119.
Definition TK_NULL : Z := 120.
Definition TK_PRIMARY : Z := 121.
Definition TK_UNIQUE : Z := 122.
Definition TK_CHECK : Z := 123.
Definition TK_REFERENCES : Z := 124.
Definition TK_AUTOINCR : Z := 125.
Definition TK_INSERT : Z := 126.
Definition TK_DELETE : Z := 127.
Definition TK_UPDATE : Z := 128.
Definition TK_SET : Z := 129.
Definition TK_DEFERRABLE : Z := 130.
Definition TK_FOREIGN : Z := 131.
Definition TK_DROP : Z := 132.
Definition TK_UNION : Z := 133.
Definition TK_ALL : Z := 134.
Definition TK_EXCEPT : Z := 135.
Definition TK_INTERSECT : Z := 136.
Definition TK_SELECT : Z := 137.
Definition TK_VALUES : Z := 138.
Definition TK_DISTINCT : Z := 139.
Definition TK_DOT : Z := 140.
Definition TK_FROM : Z := 141.
Definition TK_JOIN : Z := 142.
Definition TK_USING : Z := 143.
Definition TK_ORDER : Z := 144.
Definition TK_GROUP : Z := 145.
Definition TK_HAVING : Z := 146.
Definition TK_LIMIT : Z := 147.
Definition TK_WHERE : Z := 148.
Definition TK_RETURNING : Z := 149.
Definition TK_INTO : Z := 150.
Definition TK_NOTHING : Z := 151.
Definition TK_FLOAT : Z := 152.
Definition TK_BLOB : Z := 153.
Definition TK_INTEGER : Z := 154.
Definition TK_VARIABLE : Z := 155.
Definition TK_CASE : Z := 156.
Definition TK_WHEN : Z := 157.
Definition TK_THEN : Z := 158.
Definition TK_ELSE : Z := 159.
Definition TK_INDEX : Z := 160.
Definition TK_ALTER : Z := 161.
Definition TK_ADD : Z := 162.
Definition TK_WINDOW : Z := 163.
Definition TK_OVER : Z := 164.
Definition TK_FILTER : Z := 165.
Definition TK_SPACE : Z := 182.
Definition TK_ILLEGAL : Z := 183.

(** Character classes. *)
Definition CC_X : Z := 0.
Definition CC_KYWD0 : Z := 1.
Definition CC_KYWD : Z := 2.
Definition CC_DIGIT : Z := 3.
Definition CC_DOLLAR : Z := 4.
Definition CC_VARALPHA : Z := 5.
Definition CC_VARNUM : Z := 6.
Definition CC_SPACE : Z := 7.
Definition CC_QUOTE : Z := 8.
Definition CC_QUOTE2 : Z := 9.
Definition CC_PIPE : Z := 10.
Definition CC_MINUS : Z := 11.
Definition CC_LT : Z := 12.
Definition CC_GT : Z := 13.
Definition CC_EQ : Z := 14.
Definition CC_BANG : Z := 15.
Definition CC_SLASH : Z := 16.
Definition CC_LP : Z := 17.
Definition CC_RP : Z := 18.
Definition CC_SEMI : Z := 19.
Definition CC_PLUS : Z := 20.
Definition CC_STAR : Z := 21.
Definition CC_PERCENT : Z := 22.
Definition CC_COMMA : Z := 23.
Definition CC_AND : Z := 24.
Definition CC_TILDA : Z := 25.
Definition CC_DOT : Z := 26.
Definition CC_ID : Z := 27.
Definition CC_ILLEGAL : Z := 28.
Definition CC_NUL : Z := 29.
Definition CC_BOM : Z := 30.

(** The character class of each byte (the [CC_] codes). *)
Definition aiClass : bytes := [
  29; 28; 28; 28; 28; 28; 28; 28; 28; 7; 7; 28; 7; 7; 28; 28; 28; 28; 28; 28; 28; 28; 28; 28;
  28; 28; 28; 28; 28; 28; 28; 28; 7; 15; 8; 5; 4; 22; 24; 8; 17; 18; 21; 20; 23; 11; 26; 16; 3;
  3; 3; 3; 3; 3; 3; 3; 3; 3; 5; 19; 12; 14; 13; 6; 5; 1; 1; 1; 1; 1; 1; 1; 1; 1; 1; 1; 1; 1; 1;
  1; 1; 1; 1; 1; 1; 1; 1; 1; 0; 2; 2; 9; 28; 28; 28; 2; 8; 1; 1; 1; 1; 1; 1; 1; 1; 1; 1; 1; 1;
  1; 1; 1; 1; 1; 1; 1; 1; 1; 1; 1; 0; 2; 2; 28; 10; 28; 25; 28; 27; 27; 27; 27; 27; 27; 27; 27;
  27; 27; 27; 27; 27; 27; 27; 27; 27; 27; 27; 27; 27; 27; 27; 27; 27; 27; 27; 27; 27; 27; 27;
  27; 27; 27; 27; 27; 27; 27; 27; 27; 27; 27; 27; 27; 27; 27; 27; 27; 27; 27; 27; 27; 27; 27;
  27; 27; 27; 27; 27; 27; 27; 27; 27; 27; 27; 27; 27; 27; 27; 27; 27; 27; 27; 27; 27; 27; 27;
  27; 27; 27; 27; 27; 27; 27; 27; 27; 27; 27; 27; 27; 27; 27; 27; 27; 27; 27; 27; 27; 27; 27;
  27; 27; 27; 27; 27; 27; 27; 27; 27; 27; 27; 30; 27; 27; 27; 27; 27; 27; 27; 27; 27; 27; 27;
  27; 27; 27; 27; 27].

(** The keyword texts, overlapping. *)
Definition zKWText : bytes := [
  82; 69; 73; 78; 68; 69; 88; 69; 68; 69; 83; 67; 65; 80; 69; 65; 67; 72; 69; 67; 75; 69; 89;
  66; 69; 70; 79; 82; 69; 73; 71; 78; 79; 82; 69; 71; 69; 88; 80; 76; 65; 73; 78; 83; 84; 69;
  65; 68; 68; 65; 84; 65; 66; 65; 83; 69; 76; 69; 67; 84; 65; 66; 76; 69; 70; 84; 72; 69; 78;
  68; 69; 70; 69; 82; 82; 65; 66; 76; 69; 76; 83; 69; 88; 67; 76; 85; 68; 69; 76; 69; 84; 69;
  77; 80; 79; 82; 65; 82; 89; 73; 83; 78; 85; 76; 76; 83; 65; 86; 69; 80; 79; 73; 78; 84; 69;
  82; 83; 69; 67; 84; 73; 69; 83; 78; 79; 84; 78; 85; 76; 76; 73; 75; 69; 88; 67; 69; 80; 84;
  82; 65; 78; 83; 65; 67; 84; 73; 79; 78; 65; 84; 85; 82; 65; 76; 84; 69; 82; 65; 73; 83; 69;
  88; 67; 76; 85; 83; 73; 86; 69; 88; 73; 83; 84; 83; 67; 79; 78; 83; 84; 82; 65; 73; 78; 84;
  79; 70; 70; 83; 69; 84; 82; 73; 71; 71; 69; 82; 65; 78; 71; 69; 78; 69; 82; 65; 84; 69; 68;
  69; 84; 65; 67; 72; 65; 86; 73; 78; 71; 76; 79; 66; 69; 71; 73; 78; 78; 69; 82; 69; 70; 69;
  82; 69; 78; 67; 69; 83; 85; 78; 73; 81; 85; 69; 82; 89; 87; 73; 84; 72; 79; 85; 84; 69; 82;
  69; 76; 69; 65; 83; 69; 65; 84; 84; 65; 67; 72; 66; 69; 84; 87; 69; 69; 78; 79; 84; 72; 73;
  78; 71; 82; 79; 85; 80; 83; 67; 65; 83; 67; 65; 68; 69; 70; 65; 85; 76; 84; 67; 65; 83; 69;
  67; 79; 76; 76; 65; 84; 69; 67; 82; 69; 65; 84; 69; 67; 85; 82; 82; 69; 78; 84; 95; 68; 65;
  84; 69; 73; 77; 77; 69; 68; 73; 65; 84; 69; 74; 79; 73; 78; 83; 69; 82; 84; 77; 65; 84; 67;
  72; 80; 76; 65; 78; 65; 76; 89; 90; 69; 80; 82; 65; 71; 77; 65; 84; 69; 82; 73; 65; 76; 73;
  90; 69; 68; 69; 70; 69; 82; 82; 69; 68; 73; 83; 84; 73; 78; 67; 84; 85; 80; 68; 65; 84; 69;
  86; 65; 76; 85; 69; 83; 86; 73; 82; 84; 85; 65; 76; 87; 65; 89; 83; 87; 72; 69; 78; 87; 72;
  69; 82; 69; 67; 85; 82; 83; 73; 86; 69; 65; 66; 79; 82; 84; 65; 70; 84; 69; 82; 69; 78; 65;
  77; 69; 65; 78; 68; 82; 79; 80; 65; 82; 84; 73; 84; 73; 79; 78; 65; 85; 84; 79; 73; 78; 67;
  82; 69; 77; 69; 78; 84; 67; 65; 83; 84; 67; 79; 76; 85; 77; 78; 67; 79; 77; 77; 73; 84; 67;
  79; 78; 70; 76; 73; 67; 84; 67; 82; 79; 83; 83; 67; 85; 82; 82; 69; 78; 84; 95; 84; 73; 77;
  69; 83; 84; 65; 77; 80; 82; 69; 67; 69; 68; 73; 78; 71; 70; 65; 73; 76; 65; 83; 84; 70; 73;
  76; 84; 69; 82; 69; 80; 76; 65; 67; 69; 70; 73; 82; 83; 84; 70; 79; 76; 76; 79; 87; 73; 78;
  71; 70; 82; 79; 77; 70; 85; 76; 76; 73; 77; 73; 84; 73; 70; 79; 82; 68; 69; 82; 69; 83; 84;
  82; 73; 67; 84; 79; 84; 72; 69; 82; 83; 79; 86; 69; 82; 69; 84; 85; 82; 78; 73; 78; 71; 82;
  73; 71; 72; 84; 82; 79; 76; 76; 66; 65; 67; 75; 82; 79; 87; 83; 85; 78; 66; 79; 85; 78; 68;
  69; 68; 85; 78; 73; 79; 78; 85; 83; 73; 78; 71; 86; 65; 67; 85; 85; 77; 86; 73; 69; 87; 73;
  78; 68; 79; 87; 66; 89; 73; 78; 73; 84; 73; 65; 76; 76; 89; 80; 82; 73; 77; 65; 82; 89].

(** 1 + the first keyword of each hash bucket. *)
Definition aKWHash : bytes := [
  84; 92; 134; 82; 105; 29; 0; 0; 94; 0; 85; 72; 0; 53; 35; 86; 15; 0; 42; 97; 54; 89; 135; 19;
  0; 0; 140; 0; 40; 129; 0; 22; 107; 0; 9; 0; 0; 123; 80; 0; 78; 6; 0; 65; 103; 147; 0; 136;
  115; 0; 0; 48; 0; 90; 24; 0; 17; 0; 27; 70; 23; 26; 5; 60; 142; 110; 122; 0; 73; 91; 71; 145;
  61; 120; 74; 0; 49; 0; 11; 41; 0; 113; 0; 0; 0; 109; 10; 111; 116; 125; 14; 50; 124; 0; 100;
  0; 18; 121; 144; 56; 130; 139; 88; 83; 37; 30; 126; 0; 0; 108; 51; 131; 128; 0; 34; 0; 0;
  132; 0; 98; 38; 39; 0; 20; 45; 117; 93].

(** 1 + the next keyword with the same hash. *)
Definition aKWNext : bytes := [
  0; 0; 0; 0; 4; 0; 43; 0; 0; 106; 114; 0; 0; 0; 2; 0; 0; 143; 0; 0; 0; 13; 0; 0; 0; 0; 141; 0;
  0; 119; 52; 0; 0; 137; 12; 0; 0; 62; 0; 138; 0; 133; 0; 0; 36; 0; 0; 28; 77; 0; 0; 0; 0; 59;
  0; 47; 0; 0; 0; 0; 0; 0; 0; 0; 0; 0; 69; 0; 0; 0; 0; 0; 146; 3; 0; 58; 0; 1; 75; 0; 0; 0; 31;
  0; 0; 0; 0; 0; 127; 0; 104; 0; 64; 66; 63; 0; 0; 0; 0; 0; 46; 0; 16; 8; 0; 0; 0; 0; 0; 0; 0;
  0; 0; 0; 81; 101; 0; 112; 21; 7; 67; 0; 79; 96; 118; 0; 0; 68; 0; 0; 99; 44; 0; 55; 0; 76; 0;
  95; 32; 33; 57; 25; 0; 102; 0; 0; 87].

(** Keyword lengths. *)
Definition aKWLen : bytes := [
  7; 7; 5; 4; 6; 4; 5; 3; 6; 7; 3; 6; 6; 7; 7; 3; 8; 2; 6; 5; 4; 4; 3; 10; 4; 7; 6; 9; 4; 2; 6;
  5; 9; 9; 4; 7; 3; 2; 4; 4; 6; 11; 6; 2; 7; 5; 5; 9; 6; 10; 4; 6; 2; 3; 7; 5; 9; 6; 6; 4; 5;
  5; 10; 6; 5; 7; 4; 5; 7; 6; 7; 7; 6; 5; 7; 3; 7; 4; 7; 6; 12; 9; 4; 6; 5; 4; 7; 6; 12; 8; 8;
  2; 6; 6; 7; 6; 4; 5; 9; 5; 5; 6; 3; 4; 9; 13; 2; 2; 4; 6; 6; 8; 5; 17; 12; 7; 9; 4; 4; 6; 7;
  5; 9; 4; 4; 5; 2; 5; 8; 6; 4; 9; 5; 8; 4; 3; 9; 5; 5; 6; 4; 6; 2; 2; 9; 3; 7].

(** Where each keyword starts in [zKWText]. *)
Definition aKWOffset : bytes := [
  0; 2; 2; 8; 9; 14; 16; 20; 23; 25; 25; 29; 33; 36; 41; 46; 48; 53; 54; 59; 62; 65; 67; 69;
  78; 81; 86; 90; 90; 94; 99; 101; 105; 111; 119; 123; 123; 123; 126; 129; 132; 137; 142; 146;
  147; 152; 156; 160; 168; 174; 181; 184; 184; 187; 189; 195; 198; 206; 211; 216; 219; 222;
  226; 236; 239; 244; 244; 248; 252; 259; 265; 271; 277; 277; 283; 284; 288; 295; 299; 306;
  312; 324; 333; 335; 341; 346; 348; 355; 359; 370; 377; 378; 385; 391; 397; 402; 408; 412;
  415; 424; 429; 433; 439; 441; 444; 453; 455; 457; 466; 470; 476; 482; 490; 495; 495; 495;
  511; 520; 523; 527; 532; 539; 544; 553; 557; 560; 565; 567; 571; 579; 585; 588; 597; 602;
  610; 610; 614; 623; 628; 633; 639; 642; 645; 648; 650; 655; 659].

(** The token code of each keyword. *)
Definition aKWCode : bytes := [
  TK_REINDEX; TK_INDEXED; TK_INDEX; TK_DESC; TK_ESCAPE; TK_EACH; TK_CHECK; TK_KEY; TK_BEFORE;
  TK_FOREIGN; TK_FOR; TK_IGNORE; TK_LIKE_KW; TK_EXPLAIN; TK_INSTEAD; TK_ADD; TK_DATABASE;
  TK_AS; TK_SELECT; TK_TABLE; TK_JOIN_KW; TK_THEN; TK_END; TK_DEFERRABLE; TK_ELSE; TK_EXCLUDE;
  TK_DELETE; TK_TEMP; TK_TEMP; TK_OR; TK_ISNULL; TK_NULLS; TK_SAVEPOINT; TK_INTERSECT; TK_TIES;
  TK_NOTNULL; TK_NOT; TK_NO; TK_NULL; TK_LIKE_KW; TK_EXCEPT; TK_TRANSACTION; TK_ACTION; TK_ON;
  TK_JOIN_KW; TK_ALTER; TK_RAISE; TK_EXCLUSIVE; TK_EXISTS; TK_CONSTRAINT; TK_INTO; TK_OFFSET;
  TK_OF; TK_SET; TK_TRIGGER; TK_RANGE; TK_GENERATED; TK_DETACH; TK_HAVING; TK_LIKE_KW;
  TK_BEGIN; TK_JOIN_KW; TK_REFERENCES; TK_UNIQUE; TK_QUERY; TK_WITHOUT; TK_WITH; TK_JOIN_KW;
  TK_RELEASE; TK_ATTACH; TK_BETWEEN; TK_NOTHING; TK_GROUPS; TK_GROUP; TK_CASCADE; TK_ASC;
  TK_DEFAULT; TK_CASE; TK_COLLATE; TK_CREATE; TK_CTIME_KW; TK_IMMEDIATE; TK_JOIN; TK_INSERT;
  TK_MATCH; TK_PLAN; TK_ANALYZE; TK_PRAGMA; TK_MATERIALIZED; TK_DEFERRED; TK_DISTINCT; TK_IS;
  TK_UPDATE; TK_VALUES; TK_VIRTUAL; TK_ALWAYS; TK_WHEN; TK_WHERE; TK_RECURSIVE; TK_ABORT;
  TK_AFTER; TK_RENAME; TK_AND; TK_DROP; TK_PARTITION; TK_AUTOINCR; TK_TO; TK_IN; TK_CAST;
  TK_COLUMNKW; TK_COMMIT; TK_CONFLICT; TK_JOIN_KW; TK_CTIME_KW; TK_CTIME_KW; TK_CURRENT;
  TK_PRECEDING; TK_FAIL; TK_LAST; TK_FILTER; TK_REPLACE; TK_FIRST; TK_FOLLOWING; TK_FROM;
  TK_JOIN_KW; TK_LIMIT; TK_IF; TK_ORDER; TK_RESTRICT; TK_OTHERS; TK_OVER; TK_RETURNING;
  TK_JOIN_KW; TK_ROLLBACK; TK_ROWS; TK_ROW; TK_UNBOUNDED; TK_UNION; TK_USING; TK_VACUUM;
  TK_VIEW; TK_WINDOW; TK_DO; TK_BY; TK_INITIALLY; TK_ALL; TK_PRIMARY].

(** The fallback token of each token, 0 for none. *)
Definition yyFallback : bytes := [
  0; 0; 59; 59; 59; 59; 0; 59; 59; 59; 0; 59; 59; 59; 59; 0; 0; 0; 59; 0; 0; 59; 0; 0; 0; 0;
  59; 59; 59; 59; 59; 59; 59; 59; 59; 59; 59; 59; 59; 59; 59; 59; 59; 0; 0; 0; 59; 59; 0; 0; 0;
  0; 0; 0; 0; 0; 0; 0; 0; 0; 59; 59; 59; 59; 59; 59; 59; 59; 59; 59; 59; 59; 59; 59; 59; 59;
  59; 59; 59; 59; 59; 59; 59; 59; 59; 59; 59; 59; 59; 59; 59; 59; 59; 59; 59; 59; 59; 59; 59;
  59; 59; 0; 0; 0; 0; 0; 0; 0; 0; 0; 0; 0; 0; 0; 0; 0; 0; 0; 0; 0; 0; 0; 0; 0; 0; 0; 0; 0; 0;
  0; 0; 0; 0; 0; 0; 0; 0; 0; 0; 0; 0; 0; 0; 0; 0; 0; 0; 0; 0; 0; 0; 0; 0; 0; 0; 0; 0; 0; 0; 0;
  0; 0; 0; 0; 0; 0; 0; 0; 0; 0; 0; 0; 0; 0; 0; 0; 0; 0; 0; 0; 0; 0; 0; 0].

(** The keywords, in the order of the [testcase] comments of [keywordCode]. *)
Definition keywords : list (string * Z) := [
  ("REINDEX", TK_REINDEX); ("INDEXED", TK_INDEXED); ("INDEX", TK_INDEX); ("DESC", TK_DESC);
  ("ESCAPE", TK_ESCAPE); ("EACH", TK_EACH); ("CHECK", TK_CHECK); ("KEY", TK_KEY); ("BEFORE",
  TK_BEFORE); ("FOREIGN", TK_FOREIGN); ("FOR", TK_FOR); ("IGNORE", TK_IGNORE); ("REGEXP",
  TK_LIKE_KW); ("EXPLAIN", TK_EXPLAIN); ("INSTEAD", TK_INSTEAD); ("ADD", TK_ADD); ("DATABASE",
  TK_DATABASE); ("AS", TK_AS); ("SELECT", TK_SELECT); ("TABLE", TK_TABLE); ("LEFT", TK_JOIN_KW);
  ("THEN", TK_THEN); ("END", TK_END); ("DEFERRABLE", TK_DEFERRABLE); ("ELSE", TK_ELSE);
  ("EXCLUDE", TK_EXCLUDE); ("DELETE", TK_DELETE); ("TEMPORARY", TK_TEMP); ("TEMP", TK_TEMP);
  ("OR", TK_OR); ("ISNULL", TK_ISNULL); ("NULLS", TK_NULLS); ("SAVEPOINT", TK_SAVEPOINT);
  ("INTERSECT", TK_INTERSECT); ("TIES", TK_TIES); ("NOTNULL", TK_NOTNULL); ("NOT", TK_NOT);
  ("NO", TK_NO); ("NULL", TK_NULL); ("LIKE", TK_LIKE_KW); ("EXCEPT", TK_EXCEPT); ("TRANSACTION",
  TK_TRANSACTION); ("ACTION", TK_ACTION); ("ON", TK_ON); ("NATURAL", TK_JOIN_KW); ("ALTER",
  TK_ALTER); ("RAISE", TK_RAISE); ("EXCLUSIVE", TK_EXCLUSIVE); ("EXISTS", TK_EXISTS);
  ("CONSTRAINT", TK_CONSTRAINT); ("INTO", TK_INTO); ("OFFSET", TK_OFFSET); ("OF", TK_OF);
  ("SET", TK_SET); ("TRIGGER", TK_TRIGGER); ("RANGE", TK_RANGE); ("GENERATED", TK_GENERATED);
  ("DETACH", TK_DETACH); ("HAVING", TK_HAVING); ("GLOB", TK_LIKE_KW); ("BEGIN", TK_BEGIN);
  ("INNER", TK_JOIN_KW); ("REFERENCES", TK_REFERENCES); ("UNIQUE", TK_UNIQUE); ("QUERY",
  TK_QUERY); ("WITHOUT", TK_WITHOUT); ("WITH", TK_WITH); ("OUTER", TK_JOIN_KW); ("RELEASE",
  TK_RELEASE); ("ATTACH", TK_ATTACH); ("BETWEEN", TK_BETWEEN); ("NOTHING", TK_NOTHING);
  ("GROUPS", TK_GROUPS); ("GROUP", TK_GROUP); ("CASCADE", TK_CASCADE); ("ASC", TK_ASC);
  ("DEFAULT", TK_DEFAULT); ("CASE", TK_CASE); ("COLLATE", TK_COLLATE); ("CREATE", TK_CREATE);
  ("CURRENT_DATE", TK_CTIME_KW); ("IMMEDIATE", TK_IMMEDIATE); ("JOIN", TK_JOIN); ("INSERT",
  TK_INSERT); ("MATCH", TK_MATCH); ("PLAN", TK_PLAN); ("ANALYZE", TK_ANALYZE); ("PRAGMA",
  TK_PRAGMA); ("MATERIALIZED", TK_MATERIALIZED); ("DEFERRED", TK_DEFERRED); ("DISTINCT",
  TK_DISTINCT); ("IS", TK_IS); ("UPDATE", TK_UPDATE); ("VALUES", TK_VALUES); ("VIRTUAL",
  TK_VIRTUAL); ("ALWAYS", TK_ALWAYS); ("WHEN", TK_WHEN); ("WHERE", TK_WHERE); ("RECURSIVE",
  TK_RECURSIVE); ("ABORT", TK_ABORT); ("AFTER", TK_AFTER); ("RENAME", TK_RENAME); ("AND",
  TK_AND); ("DROP", TK_DROP); ("PARTITION", TK_PARTITION); ("AUTOINCREMENT", TK_AUTOINCR);
  ("TO", TK_TO); ("IN", TK_IN); ("CAST", TK_CAST); ("COLUMN", TK_COLUMNKW); ("COMMIT",
  TK_COMMIT); ("CONFLICT", TK_CONFLICT); ("CROSS", TK_JOIN_KW); ("CURRENT_TIMESTAMP",
  TK_CTIME_KW); ("CURRENT_TIME", TK_CTIME_KW); ("CURRENT", TK_CURRENT); ("PRECEDING",
  TK_PRECEDING); ("FAIL", TK_FAIL); ("LAST", TK_LAST); ("FILTER", TK_FILTER); ("REPLACE",
  TK_REPLACE); ("FIRST", TK_FIRST); ("FOLLOWING", TK_FOLLOWING); ("FROM", TK_FROM); ("FULL",
  TK_JOIN_KW); ("LIMIT", TK_LIMIT); ("IF", TK_IF); ("ORDER", TK_ORDER); ("RESTRICT",
  TK_RESTRICT); ("OTHERS", TK_OTHERS); ("OVER", TK_OVER); ("RETURNING", TK_RETURNING); ("RIGHT",
  TK_JOIN_KW); ("ROLLBACK", TK_ROLLBACK); ("ROWS", TK_ROWS); ("ROW", TK_ROW); ("UNBOUNDED",
  TK_UNBOUNDED); ("UNION", TK_UNION); ("USING", TK_USING); ("VACUUM", TK_VACUUM); ("VIEW",
  TK_VIEW); ("WINDOW", TK_WINDOW); ("DO", TK_DO); ("BY", TK_BY); ("INITIALLY", TK_INITIALLY);
  ("ALL", TK_ALL); ("PRIMARY", TK_PRIMARY)]%string.
