(* ===== verification/Tokenize.v ===== *)
(** * Tokenize: the SQL tokenizer (tokenize.c)

    [keywordCode], [sqlite3GetToken], the window-function keyword analysis and the
    tokenizer loop of [sqlite3RunParser], over C strings as in CType.  A function
    that stores [*tokenType] returns the pair of its result and that store. *)

From S2P Require Import Prelude CType TokenTables.

(** ** Keywords *)

Definition charMap (c : Z) : Z := sqlite3UpperToLower.[c].

(** [while( j<n && (z[j]&~0x20)==zKW[j] ){ j++; }] *)
Fixpoint kw_cmp (fuel : nat) (z zKW : bytes) (j n : Z) : Z :=
  match fuel with
  | O => j
  | S fuel =>
      if (j <? n) && (z.[j] .& Z.lnot 0x20 =? zKW.[j]) then kw_cmp fuel z zKW (j + 1) n else j
  end.

(** The body of the search loop: does keyword [i] match? *)
Definition kw_match (z : bytes) (n i : Z) : bool :=
  let zKW := drop (Z.to_nat aKWOffset.[i]) zKWText in
  (aKWLen.[i] =? n) && (z.[0] .& Z.lnot 0x20 =? zKW.[0]) && (z.[1] .& Z.lnot 0x20 =? zKW.[1]) &&
  negb (kw_cmp (Z.to_nat n) z zKW 2 n <? n).

(** The chain from keyword [i] on; a chain visits each of the 147 keywords at most
    once. *)
Fixpoint kw_search (fuel : nat) (z : bytes) (n i : Z) : option Z :=
  match fuel with
  | O => None
  | S fuel =>
      if i <? 0 then None
      else if kw_match z n i then Some aKWCode.[i]
      else kw_search fuel z n (aKWNext.[i] - 1)
  end.

Definition kw_hash (z : bytes) (n : Z) : Z :=
  Z.rem (Z.lxor (Z.lxor (charMap z.[0] * 4) (charMap z.[n - 1] * 3)) (n * 1)) 127.

(** [*pType] after the call, [None] when it is not written. *)
Definition keywordCode (z : bytes) (n : Z) : option Z :=
  if 2 <=? n then kw_search 148 z n (aKWHash.[kw_hash z n] - 1) else None.

Definition sqlite3KeywordCode (z : bytes) (n : Z) : Z := default TK_ID (keywordCode z n).
Definition sqlite3_keyword_check (zName : bytes) (nName : Z) : bool :=
  negb (TK_ID =? sqlite3KeywordCode zName nName).

(** ** sqlite3GetToken, by character class *)

(** A C-style comment: [for(i=3, c=z[2]; (c!='*' || z[i]!='/') && (c=z[i])!=0; i++){}]. *)
Fixpoint comment_end (c : Z) (l : bytes) (i : Z) : Z * Z :=
  match l with
  | [] => (0, i)
  | x :: r =>
      if negb (c =? 42) || negb (x =? 47)
      then if x =? 0 then (0, i) else comment_end x r (i + 1)
      else (c, i)
  end.

Definition tokenSlash (z : bytes) : Z * Z :=
  if negb (z.[1] =? 42) || (z.[2] =? 0) then (1, TK_SLASH)
  else
    let (c, i) := comment_end z.[2] (drop 3 z) 3 in
    (if c =? 0 then i else i + 1, TK_SPACE).

(** A quoted string: the loop ends on the closing quote or on the terminator. *)
Fixpoint quote_end (delim : Z) (l : bytes) (i : Z) : Z * Z :=
  match l with
  | [] => (0, i)
  | c :: r =>
      if c =? 0 then (0, i)
      else if c =? delim then
        match r with
        | d :: r' => if d =? delim then quote_end delim r' (i + 2) else (c, i)
        | [] => (c, i)
        end
      else quote_end delim r (i + 1)
  end.

Definition tokenQuote (z : bytes) : Z * Z :=
  let (c, i) := quote_end z.[0] (drop 1 z) 1 in
  if c =? 39 then (i + 1, TK_STRING)
  else if negb (c =? 0) then (i + 1, TK_ID)
  else (i, TK_ILLEGAL).

(** [while( IdChar(z[i]) ){ *tokenType = TK_ILLEGAL; i++; }] at the end of a number. *)
Definition number_tail (z : bytes) (i tokenType : Z) : Z * Z :=
  (skip IdChar z i, if IdChar z.[i] then TK_ILLEGAL else tokenType).

Definition tokenNumber (z : bytes) : Z * Z :=
  if (z.[0] =? 48) && ((z.[1] =? 120) || (z.[1] =? 88)) && sqlite3Isxdigit z.[2]
  then (skip sqlite3Isxdigit z 3, TK_INTEGER)
  else
    let i := skip sqlite3Isdigit z 0 in
    let (i, tokenType) :=
      if z.[i] =? 46 then (skip sqlite3Isdigit z (i + 1), TK_FLOAT) else (i, TK_INTEGER) in
    let (i, tokenType) :=
      if ((z.[i] =? 101) || (z.[i] =? 69)) &&
         (sqlite3Isdigit z.[i + 1] ||
          ((z.[i + 1] =? 43) || (z.[i + 1] =? 45)) && sqlite3Isdigit z.[i + 2])
      then (skip sqlite3Isdigit z (i + 2), TK_FLOAT) else (i, tokenType) in
    number_tail z i tokenType.

(** A [[...]] identifier: [for(i=1, c=z[0]; c!=']' && (c=z[i])!=0; i++){}]. *)
Fixpoint bracket_end (c : Z) (l : bytes) (i : Z) : Z * Z :=
  if c =? 93 then (c, i)
  else match l with
       | [] => (0, i)
       | x :: r => if x =? 0 then (0, i) else bracket_end x r (i + 1)
       end.

Definition tokenQuote2 (z : bytes) : Z * Z :=
  let (c, i) := bracket_end z.[0] (drop 1 z) 1 in
  (i, if c =? 93 then TK_ID else TK_ILLEGAL).

(** The body of a variable; [n] counts identifier characters. *)
Definition tcl_arg (c : Z) : bool := negb (c =? 0) && negb (sqlite3Isspace c) && negb (c =? 41).

Fixpoint variable_end (z : bytes) (l : bytes) (i n tokenType : Z) : Z * Z * Z :=
  match l with
  | [] => (i, n, tokenType)
  | c :: r =>
      if c =? 0 then (i, n, tokenType)
      else if IdChar c then variable_end z r (i + 1) (n + 1) tokenType
      else if (c =? 40) && (0 <? n) then
        let i := skip tcl_arg z (i + 1) in
        if z.[i] =? 41 then (i + 1, n, tokenType) else (i, n, TK_ILLEGAL)
      else if c =? 58 then
        match r with
        | d :: r' => if d =? 58 then variable_end z r' (i + 2) n tokenType else (i, n, tokenType)
        | [] => (i, n, tokenType)
        end
      else (i, n, tokenType)
  end.

Definition tokenVariable (z : bytes) : Z * Z :=
  let '(i, n, tokenType) := variable_end z (drop 1 z) 1 0 TK_VARIABLE in
  (i, if n =? 0 then TK_ILLEGAL else tokenType).

(** The end of the function: an identifier from index [i] on. *)
Definition tokenId (z : bytes) (i : Z) : Z * Z := (skip IdChar z i, TK_ID).

Definition is_kywd (c : Z) : bool := aiClass.[c] <=? CC_KYWD.

Definition tokenKeyword (z : bytes) : Z * Z :=
  let i := skip is_kywd z 1 in
  if IdChar z.[i] then tokenId z (i + 1)
  else (i, default TK_ID (keywordCode z i)).

Definition not_quote (c : Z) : bool := negb (c =? 0) && negb (c =? 39).

Definition tokenBlob (z : bytes) : Z * Z :=
  if z.[1] =? 39 then
    let i := skip sqlite3Isxdigit z 2 in
    let (i, tokenType) :=
      if negb (z.[i] =? 39) || negb (Z.rem i 2 =? 0) then (skip not_quote z i, TK_ILLEGAL)
      else (i, TK_BLOB) in
    (if z.[i] =? 0 then i else i + 1, tokenType)
  else tokenId z 1.

Definition tokenLt (c : Z) : Z * Z :=
  if c =? 61 then (2, TK_LE) else if c =? 62 then (2, TK_NE)
  else if c =? 60 then (2, TK_LSHIFT) else (1, TK_LT).

Definition tokenGt (c : Z) : Z * Z :=
  if c =? 61 then (2, TK_GE) else if c =? 62 then (2, TK_RSHIFT) else (1, TK_GT).

(** Returns the length of the token at [z] and [*tokenType]. *)
Definition sqlite3GetToken (z : bytes) : Z * Z :=
  let cc := aiClass.[z.[0]] in
  if cc =? CC_SPACE then (skip sqlite3Isspace z 1, TK_SPACE)
  else if cc =? CC_MINUS then
    if z.[1] =? 45 then (skip (fun c => negb (c =? 0) && negb (c =? 10)) z 2, TK_SPACE)
    else (1, TK_MINUS)
  else if cc =? CC_LP then (1, TK_LP)
  else if cc =? CC_RP then (1, TK_RP)
  else if cc =? CC_SEMI then (1, TK_SEMI)
  else if cc =? CC_PLUS then (1, TK_PLUS)
  else if cc =? CC_STAR then (1, TK_STAR)
  else if cc =? CC_SLASH then tokenSlash z
  else if cc =? CC_PERCENT then (1, TK_REM)
  else if cc =? CC_EQ then (1 + b2i (z.[1] =? 61), TK_EQ)
  else if cc =? CC_LT then tokenLt z.[1]
  else if cc =? CC_GT then tokenGt z.[1]
  else if cc =? CC_BANG then if negb (z.[1] =? 61) then (1, TK_ILLEGAL) else (2, TK_NE)
  else if cc =? CC_PIPE then if negb (z.[1] =? 124) then (1, TK_BITOR) else (2, TK_CONCAT)
  else if cc =? CC_COMMA then (1, TK_COMMA)
  else if cc =? CC_AND then (1, TK_BITAND)
  else if cc =? CC_TILDA then (1, TK_BITNOT)
  else if cc =? CC_QUOTE then tokenQuote z
  else if cc =? CC_DOT then if negb (sqlite3Isdigit z.[1]) then (1, TK_DOT) else tokenNumber z
  else if cc =? CC_DIGIT then tokenNumber z
  else if cc =? CC_QUOTE2 then tokenQuote2 z
  else if cc =? CC_VARNUM then (skip sqlite3Isdigit z 1, TK_VARIABLE)
  else if (cc =? CC_DOLLAR) || (cc =? CC_VARALPHA) then tokenVariable z
  else if cc =? CC_KYWD0 then tokenKeyword z
  else if cc =? CC_X then tokenBlob z
  else if (cc =? CC_KYWD) || (cc =? CC_ID) then tokenId z 1
  else if cc =? CC_BOM then
    if (z.[1] =? 0xbb) && (z.[2] =? 0xbf) then (3, TK_SPACE) else tokenId z 1
  else if cc =? CC_NUL then (0, TK_ILLEGAL)
  else (1, TK_ILLEGAL).

(** ** The tokenizer stays inside the text

    For a text [t] (no NUL) in a memory [t ++ 0 :: g], a token function gives the
    result it gives on [t] alone -- so it does not read past the terminator -- and a
    length within the text. *)

Definition stays (F : bytes -> Z * Z) (t : bytes) : Prop :=
  (forall g, F (t ++ 0 :: g) = F t) /\ 1 <= fst (F t) <= len t.

Lemma comment_end_text (t g : bytes) c i :
  no_nul t -> c <> 0 ->
  comment_end c (t ++ 0 :: g) i = comment_end c t i /\
  i <= snd (comment_end c t i) <= i + len t /\
  (fst (comment_end c t i) <> 0 -> snd (comment_end c t i) < i + len t).
Proof.
  intros Ht. revert c i. induction Ht as [|x t [Hx H0] Ht IH]; intros c i Hc; simpl.
  - rewrite orb_true_r. simpl. split_and!; [done|lia|lia|done].
  - rewrite (proj2 (Z.eqb_neq x 0)) by done.
    destruct (negb (c =? 42) || negb (x =? 47)); simpl; [|split_and!; [done|lia..]].
    destruct (IH x (i + 1) H0) as (-> & H1 & H2). split_and!; [done|lia..].
Qed.

Lemma quote_end_text (t g : bytes) d i :
  no_nul t -> d <> 0 ->
  quote_end d (t ++ 0 :: g) i = quote_end d t i /\
  i <= snd (quote_end d t i) <= i + len t /\
  (fst (quote_end d t i) <> 0 -> snd (quote_end d t i) < i + len t).
Proof.
  intros Ht Hd. revert i. remember (length t) as n eqn:E. revert t E Ht.
  induction (lt_wf n) as [n _ IH]. intros t -> Ht i.
  destruct Ht as [|c r [Hc H0] Hr]; cbn [app quote_end length]; [split_and!; [done|simpl; lia..|done]|].
  rewrite (proj2 (Z.eqb_neq c 0)) by done. destruct (c =? d) eqn:Ed.
  - destruct Hr as [|c' r [Hc' H0'] Hr]; cbn [app length].
    + rewrite (proj2 (Z.eqb_neq 0 d)) by lia. cbn [fst snd]. split_and!; [done|simpl; lia..].
    + destruct (c' =? d); [|split_and!; [done|simpl; lia..]].
      destruct (IH (length r) ltac:(simpl; lia) r eq_refl Hr (i + 2)) as (-> & H1 & H2).
      split_and!; [done|simpl; lia..].
  - destruct (IH (length r) ltac:(simpl; lia) r eq_refl Hr (i + 1)) as (-> & H1 & H2).
    split_and!; [done|simpl; lia..].
Qed.

Lemma bracket_end_text (t g : bytes) c i :
  no_nul t ->
  bracket_end c (t ++ 0 :: g) i = bracket_end c t i /\ i <= snd (bracket_end c t i) <= i + len t.
Proof.
  intros Ht. revert c i. induction Ht as [|x t [Hx H0] Ht IH]; intros c i; simpl.
  - destruct (c =? 93); simpl; split; done || lia.
  - rewrite (proj2 (Z.eqb_neq x 0)) by done. destruct (c =? 93); simpl; [split; [done|lia]|].
    destruct (IH x (i + 1)) as [-> H1]. split; [done|lia].
Qed.

(** [variable_end] walks [l], the rest of the text from index [i] on. *)
Lemma variable_end_text (t g : bytes) i n ty :
  no_nul t -> 0 <= i <= len t ->
  let R := variable_end t (drop (Z.to_nat i) t) i n ty in
  variable_end (t ++ 0 :: g) (drop (Z.to_nat i) t ++ 0 :: g) i n ty = R /\
  i <= fst (fst R) <= len t.
Proof.
  intros Ht. remember (Z.to_nat (len t - i)) as k eqn:E. revert i n ty E.
  induction (lt_wf k) as [k _ IH]. intros i n ty E Hi.
  destruct (decide (i = len t)) as [->|Hne].
  { rewrite drop_ge by lia. simpl. split; [done|lia]. }
  rewrite drop_ld by lia. cbn [app variable_end].
  assert (H0 : t.[i] <> 0) by (apply ld_nonzero; [done|lia]).
  rewrite (proj2 (Z.eqb_neq _ 0)) by done.
  assert (Next : forall j n, i < j <= len t ->
    let R := variable_end t (drop (Z.to_nat j) t) j n ty in
    variable_end (t ++ 0 :: g) (drop (Z.to_nat j) t ++ 0 :: g) j n ty = R /\
    i <= fst (fst R) <= len t).
  { intros j m Hj. destruct (IH (Z.to_nat (len t - j)) ltac:(lia) j m ty eq_refl ltac:(lia)).
    split; [done|lia]. }
  destruct (IdChar t.[i]); [apply Next; lia|].
  destruct (_ && _) eqn:Ep.
  - destruct (skip_text tcl_arg t g (i + 1) eq_refl ltac:(lia)) as [-> Hs].
    rewrite ld_text by (done || lia).
    destruct (_ =? 41) eqn:E1; simpl; split; try done; [|lia].
    assert (t.[skip tcl_arg t (i + 1)] <> 0) as HI%ld_inside by lia; lia.
  - destruct (_ =? 58); [|split; [done|simpl; lia]].
    destruct (decide (i + 1 = len t)) as [E1|E1].
    + rewrite E1, drop_ge by lia. simpl. split; [done|lia].
    + rewrite (drop_ld t (i + 1)) by lia. cbn [app].
      destruct (_ =? 58); [|split; [done|simpl; lia]].
      replace (i + 1 + 1) with (i + 2) by lia.
      apply Next. lia.
Qed.

Section stays.
Context (t : bytes) (Ht : no_nul t) (Hlen : 0 < len t).

Lemma ld_past i : len t <= i -> t.[i] = 0.
Proof. intros. unfold ld. apply nth_overflow. lia. Qed.

Lemma stays_intro (F : bytes -> Z * Z) :
  (forall g, F (t ++ 0 :: g) = F t) -> 1 <= fst (F t) <= len t -> stays F t.
Proof. done. Qed.

(** A scan from [i] over a class without NUL. *)
Lemma scan_stays P i (ty : Z) :
  P 0 = false -> 1 <= i <= len t -> stays (fun z => (skip P z i, ty)) t.
Proof.
  intros H0 Hi. split; [intros g|]; destruct (skip_text P t [] i H0 ltac:(lia)) as [E H];
    [|simpl; lia].
  by destruct (skip_text P t g i H0 ltac:(lia)) as [-> _].
Qed.

Lemma tokenId_stays i : 1 <= i <= len t -> stays (fun z => tokenId z i) t.
Proof. by apply scan_stays. Qed.

(** Reading [z[1]] and testing it against a non-NUL character. *)
Lemma second_inside c : c <> 0 -> (t.[1] =? c) = true -> 2 <= len t.
Proof. intros Hc E. assert (1 < len t) by (apply ld_inside; lia). lia. Qed.

Lemma tokenSlash_stays : stays tokenSlash t.
Proof.
  unfold tokenSlash. destruct (decide (2 <= len t)) as [H2|H2].
  - split; [intros g; rewrite !ld_text by (done || lia)|].
    all: destruct (t.[1] =? 42); simpl negb; cbn [orb]; [|simpl; done || lia].
    all: destruct (Z.eqb_spec t.[2] 0) as [E|E]; [simpl; done || lia|].
    all: assert (2 < len t) by (apply ld_inside; lia).
    + change (drop 3 (t ++ 0 :: g)) with (drop (Z.to_nat 3) (t ++ 0 :: g)).
      rewrite drop_text by (done || lia).
      destruct (comment_end_text (drop (Z.to_nat 3) t) g t.[2] 3) as [-> _]; [by apply no_nul_drop|done|].
      done.
    + destruct (comment_end_text (drop (Z.to_nat 3) t) [] t.[2] 3) as (_ & H3 & H4);
        [by apply no_nul_drop|done|].
      change (drop 3 t) with (drop (Z.to_nat 3) t). rewrite length_drop in H3, H4.
      destruct (comment_end _ _ _) as [c i]; simpl in *. destruct (Z.eqb_spec c 0); simpl; [lia|].
      specialize (H4 ltac:(done)). lia.
  - assert (t.[1] = 0) as E by (apply ld_past; lia).
    split; [intros g; rewrite ld_text by (done || lia)|]; rewrite E; simpl; done || lia.
Qed.

Lemma tokenQuote_stays : stays tokenQuote t.
Proof.
  unfold tokenQuote. assert (H0 : t.[0] <> 0) by (apply ld_nonzero; done || lia).
  assert (Hd : no_nul (drop (Z.to_nat 1) t)) by by apply no_nul_drop.
  split; [intros g; rewrite ld_text by (done || lia)|].
  - change (drop 1 ?l) with (drop (Z.to_nat 1) l). rewrite drop_text by (done || lia).
    by destruct (quote_end_text (drop (Z.to_nat 1) t) g t.[0] 1 Hd H0) as [-> _].
  - destruct (quote_end_text (drop (Z.to_nat 1) t) [] t.[0] 1 Hd H0) as (_ & H3 & H4).
    change (drop 1 t) with (drop (Z.to_nat 1) t). rewrite length_drop in H3, H4.
    destruct (quote_end _ _ _) as [c i]; simpl in *.
    destruct (Z.eqb_spec c 39) as [->|]; [specialize (H4 ltac:(done)); simpl; lia|].
    destruct (Z.eqb_spec c 0); simpl; [lia|]. specialize (H4 ltac:(done)). lia.
Qed.

Lemma number_tail_stays g i ty :
  0 <= i <= len t ->
  number_tail (t ++ 0 :: g) i ty = number_tail t i ty /\ i <= fst (number_tail t i ty) <= len t.
Proof.
  intros Hi. unfold number_tail. rewrite ld_text by done.
  destruct (skip_text IdChar t g i eq_refl Hi) as [-> ?]. done.
Qed.

Lemma exponent_text g i :
  0 <= i <= len t ->
  let cond z := ((z.[i] =? 101) || (z.[i] =? 69)) &&
    (sqlite3Isdigit z.[i + 1] ||
     ((z.[i + 1] =? 43) || (z.[i + 1] =? 45)) && sqlite3Isdigit z.[i + 2]) in
  cond (t ++ 0 :: g) = cond t /\ (cond t = true -> i + 2 <= len t).
Proof.
  intros Hi. cbv beta zeta. rewrite (ld_text t g i) by done.
  destruct (Z.lt_ge_cases i (len t)).
  - rewrite (ld_text t g (i + 1)) by lia. destruct (Z.lt_ge_cases (i + 1) (len t)).
    + rewrite (ld_text t g (i + 2)) by lia. split; [done|lia].
    + rewrite (ld_past (i + 1)) by lia. change (sqlite3Isdigit 0) with false. simpl.
      rewrite !andb_false_r. done.
  - rewrite (ld_past i) by lia. done.
Qed.

Lemma skip_first P : P t.[0] = true -> P 0 = false -> 1 <= skip P t 0.
Proof.
  intros H1 H0. unfold skip. change (drop (Z.to_nat 0) t) with t.
  destruct t as [|c r]; [simpl in Hlen; lia|]. cbn [span_len]. rewrite ld_cons_0 in H1. rewrite H1.
  pose proof (span_len_text P r [] H0). lia.
Qed.

Lemma tokenNumber_stays :
  t.[0] = 46 \/ sqlite3Isdigit t.[0] = true -> stays tokenNumber t.
Proof.
  intros Hfirst. apply stays_intro; unfold tokenNumber; [intros g|].
  - assert (E : (((t ++ 0 :: g).[0] =? 48) && (((t ++ 0 :: g).[1] =? 120) || ((t ++ 0 :: g).[1] =? 88))
        && sqlite3Isxdigit (t ++ 0 :: g).[2]) =
      ((t.[0] =? 48) && ((t.[1] =? 120) || (t.[1] =? 88)) && sqlite3Isxdigit t.[2]) /\
      (((t.[0] =? 48) && ((t.[1] =? 120) || (t.[1] =? 88)) && sqlite3Isxdigit t.[2]) = true ->
       3 <= len t)).
    { rewrite (ld_text t g 0), (ld_text t g 1) by lia.
      destruct (Z.lt_ge_cases 1 (len t)); [rewrite (ld_text t g 2) by lia|].
      - split; [done|]. destruct (Z.lt_ge_cases 2 (len t)); [lia|].
        rewrite (ld_past 2) by lia. change (sqlite3Isxdigit 0) with false. by rewrite andb_false_r.
      - rewrite (ld_past 1) by lia. simpl. by rewrite !andb_false_r. }
    destruct E as [-> E]. destruct (_ && _).
    { by destruct (skip_text sqlite3Isxdigit t g 3 eq_refl ltac:(lia)) as [-> _]. }
    destruct (skip_text sqlite3Isdigit t g 0 eq_refl ltac:(lia)) as [-> H1].
    set (i := skip sqlite3Isdigit t 0) in *. rewrite ld_text by done.
    assert (D : (t.[i] =? 46) = true -> i + 1 <= len t).
    { intros Ed. assert (i < len t) by (apply ld_inside; lia). lia. }
    assert (P2 : exists i2 ty2,
      (if t.[i] =? 46 then (skip sqlite3Isdigit (t ++ 0 :: g) (i + 1), TK_FLOAT) else (i, TK_INTEGER)) = (i2, ty2) /\
      (if t.[i] =? 46 then (skip sqlite3Isdigit t (i + 1), TK_FLOAT) else (i, TK_INTEGER)) = (i2, ty2) /\
      0 <= i2 <= len t).
    { destruct (_ =? 46); [|by eauto].
      destruct (skip_text sqlite3Isdigit t g (i + 1) eq_refl ltac:(lia)) as [-> ?].
      do 2 eexists. split_and!; [done|done|lia..]. }
    destruct P2 as (i2 & ty2 & -> & -> & H2).
    destruct (exponent_text g i2 H2) as [-> E2]. destruct (_ && _).
    + destruct (skip_text sqlite3Isdigit t g (i2 + 2) eq_refl ltac:(lia)) as [-> ?].
      by apply number_tail_stays; lia.
    + by apply number_tail_stays.
  - destruct (_ && sqlite3Isxdigit _) eqn:E.
    { apply andb_true_iff in E as [_ E2]. assert (2 < len t).
      { apply ld_inside; [lia|]. intros E0. by rewrite E0 in E2. }
      destruct (skip_text sqlite3Isxdigit t [] 3 eq_refl ltac:(lia)) as [_ ?]. simpl. lia. }
    clear E. destruct (skip_text sqlite3Isdigit t [] 0 eq_refl ltac:(lia)) as [_ H1].
    assert (P2 : exists i2 ty2,
      (if t.[skip sqlite3Isdigit t 0] =? 46
       then (skip sqlite3Isdigit t (skip sqlite3Isdigit t 0 + 1), TK_FLOAT)
       else (skip sqlite3Isdigit t 0, TK_INTEGER)) = (i2, ty2) /\ 1 <= i2 <= len t).
    { destruct (Z.eqb_spec t.[skip sqlite3Isdigit t 0] 46) as [Ed|Ed].
      - assert (skip sqlite3Isdigit t 0 < len t) by (apply ld_inside; lia).
        destruct (skip_text sqlite3Isdigit t [] (skip sqlite3Isdigit t 0 + 1) eq_refl ltac:(lia)) as [_ ?].
        do 2 eexists. split_and!; [done|lia..].
      - do 2 eexists. split_and!; [done| |lia].
        destruct Hfirst as [E0|E0]; [|by apply skip_first].
        destruct (Z.eq_dec (skip sqlite3Isdigit t 0) 0) as [E1|]; [by rewrite E1 in Ed|lia]. }
    destruct P2 as (i2 & ty2 & -> & H2).
    destruct (exponent_text [] i2 ltac:(lia)) as [_ E2].
    destruct (((t.[i2] =? 101) || _) && _).
    + specialize (E2 eq_refl).
      destruct (skip_text sqlite3Isdigit t [] (i2 + 2) eq_refl ltac:(lia)) as [_ ?].
      destruct (number_tail_stays [] (skip sqlite3Isdigit t (i2 + 2)) TK_FLOAT ltac:(lia)); lia.
    + destruct (number_tail_stays [] i2 ty2 ltac:(lia)); lia.
Qed.

Lemma tokenQuote2_stays : stays tokenQuote2 t.
Proof.
  unfold tokenQuote2. change (drop 1 ?l) with (drop (Z.to_nat 1) l).
  assert (Hd : no_nul (drop (Z.to_nat 1) t)) by by apply no_nul_drop.
  split; [intros g; rewrite ld_text, drop_text by lia|].
  - by destruct (bracket_end_text (drop (Z.to_nat 1) t) g t.[0] 1 Hd) as [-> _].
  - destruct (bracket_end_text (drop (Z.to_nat 1) t) [] t.[0] 1 Hd) as [_ H].
    rewrite length_drop in H. destruct (bracket_end _ _ _); simpl in *. lia.
Qed.

Lemma tokenVariable_stays : stays tokenVariable t.
Proof.
  unfold tokenVariable. change (drop 1 ?l) with (drop (Z.to_nat 1) l).
  split; [intros g; rewrite drop_text by lia|].
  - by destruct (variable_end_text t g 1 0 TK_VARIABLE Ht ltac:(lia)) as [-> _].
  - destruct (variable_end_text t [] 1 0 TK_VARIABLE Ht ltac:(lia)) as [_ H].
    destruct (variable_end _ _ _ _ _) as [[i n] ty]; simpl in *. lia.
Qed.

Lemma kw_cmp_text fuel g zKW j n :
  0 <= j -> n <= len t -> kw_cmp fuel (t ++ 0 :: g) zKW j n = kw_cmp fuel t zKW j n.
Proof.
  revert j. induction fuel as [|fuel IH]; intros j Hj Hn; simpl; [done|].
  destruct (Z.ltb_spec j n); simpl; [|done]. rewrite ld_text by lia.
  destruct (_ =? _); [|done]. apply IH; lia.
Qed.

Lemma keywordCode_text g n : n <= len t -> keywordCode (t ++ 0 :: g) n = keywordCode t n.
Proof.
  intros Hn. unfold keywordCode. destruct (Z.leb_spec 2 n); [|done].
  unfold kw_hash. rewrite !ld_text by lia.
  generalize (aKWHash.[Z.rem ((charMap t.[0] * 4) .^ (charMap t.[n - 1] * 3) .^ (n * 1)) 127] - 1) as i.
  generalize 148%nat as fuel. induction fuel as [|fuel IH]; intros i; simpl; [done|].
  rewrite IH. unfold kw_match. rewrite !ld_text, kw_cmp_text by lia. done.
Qed.

Lemma tokenKeyword_stays : stays tokenKeyword t.
Proof.
  unfold tokenKeyword.
  destruct (skip_text is_kywd t [] 1 eq_refl ltac:(lia)) as [_ H1].
  assert (H2 : IdChar t.[skip is_kywd t 1] = true -> skip is_kywd t 1 < len t).
  { intros E. apply ld_inside; [lia|]. intros E0. by rewrite E0 in E. }
  split; [intros g|].
  - destruct (skip_text is_kywd t g 1 eq_refl ltac:(lia)) as [-> _]. rewrite ld_text by lia.
    destruct (IdChar _); [|by rewrite keywordCode_text by lia].
    specialize (H2 eq_refl). by apply tokenId_stays; lia.
  - destruct (IdChar _); [|simpl; lia].
    specialize (H2 eq_refl).
    destruct (tokenId_stays (skip is_kywd t 1 + 1) ltac:(lia)) as [_ ?]. lia.
Qed.

Lemma tokenBlob_stays : stays tokenBlob t.
Proof.
  unfold tokenBlob. destruct (Z.eqb_spec t.[1] 39) as [E1|E1].
  - assert (1 < len t) by (apply ld_inside; lia).
    destruct (skip_text sqlite3Isxdigit t [] 2 eq_refl ltac:(lia)) as [_ H1].
    destruct (skip_text not_quote t [] (skip sqlite3Isxdigit t 2) eq_refl ltac:(lia)) as [_ H2].
    split; [intros g; rewrite ld_text, E1 by lia; simpl|rewrite E1; simpl].
    + destruct (skip_text sqlite3Isxdigit t g 2 eq_refl ltac:(lia)) as [-> _].
      rewrite ld_text by lia. destruct (_ || _).
      * destruct (skip_text not_quote t g (skip sqlite3Isxdigit t 2) eq_refl ltac:(lia)) as [-> _].
        by rewrite ld_text by lia.
      * by rewrite ld_text by lia.
    + assert (In : forall i, 0 <= i <= len t -> t.[i] <> 0 -> i + 1 <= len t)
        by (intros i Hi Hz%ld_inside; lia).
      destruct (_ || _); cbv beta iota zeta.
      * destruct (t.[skip not_quote t (skip sqlite3Isxdigit t 2)] =? 0) eqn:Hz; cbn [fst]; [simpl; lia|].
        apply Z.eqb_neq in Hz. apply In in Hz; [simpl|]; lia.
      * destruct (t.[skip sqlite3Isxdigit t 2] =? 0) eqn:Hz; cbn [fst]; [simpl; lia|].
        apply Z.eqb_neq in Hz. apply In in Hz; [simpl|]; lia.
  - destruct (tokenId_stays 1 ltac:(lia)) as [H1 H2].
    split; [intros g; rewrite ld_text by lia|]; rewrite (proj2 (Z.eqb_neq t.[1] 39)) by done; done.
Qed.

Lemma const_stays n ty : 1 <= n <= len t -> stays (fun _ => (n, ty)) t.
Proof. done. Qed.

(** A token that is longer when the second character is [c]. *)
Lemma second_stays c r1 r2 :
  c <> 0 -> fst r1 = 2 -> fst r2 = 1 -> stays (fun z => if z.[1] =? c then r1 else r2) t.
Proof.
  intros Hc H1 H2. split; [intros g; by rewrite ld_text by lia|].
  destruct (Z.eqb_spec t.[1] c); [|lia]. assert (1 < len t) by (apply ld_inside; lia). lia.
Qed.

Lemma tokenLt_stays : stays (fun z => tokenLt z.[1]) t.
Proof.
  split; [intros g; by rewrite ld_text by lia|]. unfold tokenLt.
  destruct (decide (t.[1] = 0)) as [->|H%ld_inside]; [simpl; lia| |lia].
  repeat case_match; simpl; lia.
Qed.

Lemma tokenGt_stays : stays (fun z => tokenGt z.[1]) t.
Proof.
  split; [intros g; by rewrite ld_text by lia|]. unfold tokenGt.
  destruct (decide (t.[1] = 0)) as [->|H%ld_inside]; [simpl; lia| |lia].
  repeat case_match; simpl; lia.
Qed.

Lemma tokenBom_stays :
  stays (fun z => if (z.[1] =? 0xbb) && (z.[2] =? 0xbf) then (3, TK_SPACE) else tokenId z 1) t.
Proof.
  destruct (tokenId_stays 1 ltac:(lia)) as [Hi1 Hi2].
  destruct (Z.eqb_spec t.[1] 0xbb) as [E|E].
  - assert (1 < len t) by (apply ld_inside; lia).
    split; [intros g; rewrite !ld_text, E by lia; simpl|rewrite E; simpl].
    + destruct (_ =? _); [done|apply Hi1].
    + destruct (Z.eqb_spec t.[2] 0xbf); [|done].
      assert (2 < len t) by (apply ld_inside; lia). simpl. lia.
  - split; [intros g; rewrite ld_text by lia|]; rewrite (proj2 (Z.eqb_neq _ _)) by done; simpl; done.
Qed.

Lemma stays_if (b : bytes -> bool) F1 F2 :
  (forall g, b (t ++ 0 :: g) = b t) ->
  (b t = true -> stays F1 t) -> (b t = false -> stays F2 t) ->
  stays (fun z => if b z then F1 z else F2 z) t.
Proof.
  intros Hb H1 H2. destruct (b t) eqn:E.
  - destruct (H1 eq_refl) as [Ha Hc]. split; [intros g; by rewrite Hb, E|by rewrite E].
  - destruct (H2 eq_refl) as [Ha Hc]. split; [intros g; by rewrite Hb, E|by rewrite E].
Qed.

(** What some classes say of the first byte. *)
Lemma class_first :
  (aiClass.[t.[0]] = CC_DOT -> t.[0] = 46) /\
  (aiClass.[t.[0]] = CC_DIGIT -> sqlite3Isdigit t.[0] = true) /\
  aiClass.[t.[0]] <> CC_NUL.
Proof.
  assert (t.[0] <> 0) by (apply ld_nonzero; done || lia).
  assert (Hb : is_byte t.[0]) by (apply ld_byte; done || lia).
  pose proof (byte_cases (fun c =>
    implb (aiClass.[c] =? CC_DOT) (c =? 46) && (implb (aiClass.[c] =? CC_DIGIT) (sqlite3Isdigit c) &&
    implb (aiClass.[c] =? CC_NUL) (c =? 0))) ltac:(vm_compute; reflexivity) _ Hb) as T.
  cbv beta in T. apply andb_true_iff in T as [T1 [T2 T3]%andb_true_iff].
  split_and!; intros E; rewrite E in *; simpl in *; [lia|done|lia].
Qed.

Ltac next_class H tac :=
  refine (stays_if (fun z => _) (fun z => _) (fun z => _) _ _ _);
    [intros ?; rewrite H; reflexivity|intros Hcc; cbv beta; tac|intros _; cbv beta].
Ltac by_const := apply const_stays; lia.
Ltac by_scan := apply scan_stays; [done|lia].

Lemma GetToken_stays : stays sqlite3GetToken t.
Proof.
  destruct class_first as (Hdot & Hdigit & Hnul).
  assert (H0 : forall g, (t ++ 0 :: g).[0] = t.[0]) by (intros g; apply ld_text; lia).
  assert (H1 : forall g, (t ++ 0 :: g).[1] = t.[1]) by (intros g; apply ld_text; lia).
  unfold sqlite3GetToken.
  next_class H0 by_scan. (* SPACE *)
  next_class H0 ltac:(refine (stays_if (fun z => z.[1] =? 45) (fun z => _) (fun z => _) _ _ _)).
  { intros g. by rewrite H1. }
  { intros E. assert (1 < len t) by (apply ld_inside; lia). by_scan. }
  { intros _. by_const. }
  do 5 next_class H0 by_const.
  next_class H0 ltac:(apply tokenSlash_stays).
  next_class H0 by_const.
  next_class H0 ltac:(split; [intros g; by rewrite H1|]).
  { destruct (Z.eqb_spec t.[1] 61); [assert (1 < len t) by (apply ld_inside; lia)|]; simpl; lia. }
  next_class H0 ltac:(apply tokenLt_stays).
  next_class H0 ltac:(apply tokenGt_stays).
  next_class H0 ltac:(split; [intros g; by rewrite H1|]).
  { destruct (Z.eqb_spec t.[1] 61); [assert (1 < len t) by (apply ld_inside; lia)|]; simpl; lia. }
  next_class H0 ltac:(split; [intros g; by rewrite H1|]).
  { destruct (Z.eqb_spec t.[1] 124); [assert (1 < len t) by (apply ld_inside; lia)|]; simpl; lia. }
  do 3 next_class H0 by_const.
  next_class H0 ltac:(apply tokenQuote_stays).
  next_class H0 ltac:(refine (stays_if (fun z => negb (sqlite3Isdigit z.[1])) (fun z => _) (fun z => _) _ _ _)).
  { intros g. by rewrite H1. }
  { intros _. by_const. }
  { intros _. apply tokenNumber_stays. left. apply Hdot. lia. }
  next_class H0 ltac:(apply tokenNumber_stays; right; apply Hdigit; lia).
  next_class H0 ltac:(apply tokenQuote2_stays).
  next_class H0 by_scan.
  next_class H0 ltac:(apply tokenVariable_stays).
  next_class H0 ltac:(apply tokenKeyword_stays).
  next_class H0 ltac:(apply tokenBlob_stays).
  next_class H0 ltac:(apply tokenId_stays; lia).
  next_class H0 ltac:(apply tokenBom_stays).
  next_class H0 ltac:(lia).
  by_const.
Qed.
End stays.

(** ** The keyword hash is the keyword list *)

Definition string_bytes (s : string) : bytes :=
  map (fun a => Z.of_N (Ascii.N_of_ascii a)) (String.list_ascii_of_string s).

(** The reference: look the upper-case word up in the list. *)
Definition keyword_lookup (w : bytes) : option Z :=
  snd <$> List.find (fun k => bool_decide (string_bytes (fst k) = map sqlite3Toupper w)) keywords.

(** The case folding of [keywordCode]. *)
Definition mask20 (c : Z) : Z := c .& Z.lnot 0x20.

Definition kw_name (i : Z) : bytes :=
  take (Z.to_nat aKWLen.[i]) (drop (Z.to_nat aKWOffset.[i]) zKWText).

Definition kw_alphabet (c : Z) : bool := (65 <=? c) && (c <=? 90) || (c =? 95).

Lemma kw_cmp_spec fuel z zKW j n :
  (Z.to_nat (n - j) <= fuel)%nat -> 0 <= j <= n ->
  (kw_cmp fuel z zKW j n <? n) = false <->
  (forall k, j <= k < n -> mask20 z.[k] = zKW.[k]).
Proof.
  revert j. induction fuel as [|fuel IH]; intros j Hf Hj; cbn [kw_cmp].
  - assert (j = n) as -> by lia. rewrite Z.ltb_irrefl. split; [intros _ k Hk; lia|done].
  - destruct (Z.ltb_spec j n) as [Hlt|]; cbn [andb].
    + fold (mask20 z.[j]). destruct (Z.eqb_spec (mask20 z.[j]) zKW.[j]) as [E|E].
      * rewrite IH by lia. split; intros H k Hk; [|apply H; lia].
        destruct (decide (k = j)) as [->|]; [done|apply H; lia].
      * rewrite (proj2 (Z.ltb_lt j n)) by lia. split; [done|]. intros H. by rewrite H in E by lia.
    + assert (j = n) as -> by lia. rewrite Z.ltb_irrefl. split; [intros _ k Hk; lia|done].
Qed.

Lemma kw_match_spec z n i :
  2 <= n ->
  kw_match z n i = true <->
  aKWLen.[i] = n /\ forall k, 0 <= k < n -> mask20 z.[k] = (drop (Z.to_nat aKWOffset.[i]) zKWText).[k].
Proof.
  intros Hn. unfold kw_match. set (zKW := drop _ _). fold (mask20 z.[0]) (mask20 z.[1]).
  rewrite !andb_true_iff, negb_true_iff, kw_cmp_spec, !Z.eqb_eq by lia.
  split; [intros [[[H1 H2] H3] H4]|intros [H1 H2]].
  - split; [done|]. intros k Hk. destruct (decide (k = 0)) as [->|]; [done|].
    destruct (decide (k = 1)) as [->|]; [done|]. apply H4. lia.
  - split_and!; [done|apply H2; lia|apply H2; lia|]. intros k Hk. apply H2. lia.
Qed.

(** The search only looks at the case-folded word. *)
Lemma kw_search_ext fuel z z' n i :
  2 <= n -> (forall k, 0 <= k < n -> mask20 z.[k] = mask20 z'.[k]) ->
  kw_search fuel z n i = kw_search fuel z' n i.
Proof.
  intros Hn H. revert i. induction fuel as [|fuel IH]; intros i; simpl; [done|].
  assert (E : kw_match z n i = kw_match z' n i).
  { apply eq_true_iff_eq. rewrite !kw_match_spec by done.
    split; intros [H1 H2]; (split; [done|]); intros k Hk; rewrite <- H2 by done;
      [symmetry|]; by apply H. }
  by rewrite E, IH.
Qed.

Lemma kw_search_found fuel z n i c :
  2 <= n -> i < 147 -> kw_search fuel z n i = Some c ->
  exists j, 0 <= j < 147 /\ c = aKWCode.[j] /\ kw_match z n j = true.
Proof.
  intros Hn. revert i. induction fuel as [|fuel IH]; intros i Hi; simpl; [done|].
  destruct (Z.ltb_spec i 0); [done|]. destruct (kw_match z n i) eqn:E.
  - intros [= <-]. exists i. split_and!; done || lia.
  - apply IH. assert (T : forallb (fun i => aKWNext.[i] <? 148) (seqZ 0 147) = true) by (vm_compute; done).
    rewrite forallb_forall in T. specialize (T i). rewrite <- list_elem_of_In, elem_of_seqZ in T.
    specialize (T ltac:(lia)). lia.
Qed.

(** What the tables satisfy, by computation over the 147 keywords. *)
Definition kw_table_ok (j : Z) : bool :=
  let w := kw_name j in
  bool_decide (keywordCode w (len w) = Some aKWCode.[j]) &&
  bool_decide (snd <$> List.find (fun k => bool_decide (string_bytes (fst k) = w)) keywords = Some aKWCode.[j]) &&
  ((2 <=? aKWLen.[j]) && (len w =? aKWLen.[j]) && forallb kw_alphabet w &&
   negb (w.[0] =? 95) && negb (w.[len w - 1] =? 95)).

Lemma kw_tables j : 0 <= j < 147 -> kw_table_ok j = true.
Proof.
  assert (T : forallb kw_table_ok (seqZ 0 147) = true) by (vm_compute; reflexivity).
  rewrite forallb_forall in T. intros Hj. apply T. rewrite <- list_elem_of_In, elem_of_seqZ. lia.
Qed.

Lemma kw_list k :
  In k keywords -> exists j, 0 <= j < 147 /\ string_bytes (fst k) = kw_name j.
Proof.
  assert (T : map (fun k => string_bytes (fst k)) keywords = map kw_name (seqZ 0 147))
    by (vm_compute; reflexivity).
  intros Hk. apply (in_map (fun k => string_bytes (fst k))) in Hk. rewrite T in Hk.
  apply in_map_iff in Hk as (j & E & Hj). rewrite <- list_elem_of_In, elem_of_seqZ in Hj.
  exists j. split; [lia|done].
Qed.

Lemma mask20_facts c :
  is_byte c ->
  (c <> 127 -> kw_alphabet (mask20 c) = true -> sqlite3Toupper c = mask20 c) /\
  (kw_alphabet (sqlite3Toupper c) = true -> mask20 c = sqlite3Toupper c) /\
  (kw_alphabet (mask20 c) = true -> mask20 (mask20 c) = mask20 c) /\
  (kw_alphabet (mask20 c) = true -> mask20 c <> 95 -> charMap c = charMap (mask20 c)).
Proof.
  intros Hc. pose proof (byte_cases (fun c =>
    implb (negb (c =? 127) && kw_alphabet (mask20 c)) (sqlite3Toupper c =? mask20 c) &&
    (implb (kw_alphabet (sqlite3Toupper c)) (mask20 c =? sqlite3Toupper c) &&
    (implb (kw_alphabet (mask20 c)) (mask20 (mask20 c) =? mask20 c) &&
     implb (kw_alphabet (mask20 c) && negb (mask20 c =? 95)) (charMap c =? charMap (mask20 c)))))
    ltac:(vm_compute; reflexivity) c Hc) as T.
  cbv beta in T. apply andb_true_iff in T as [T1 [T2 [T3 T4]%andb_true_iff]%andb_true_iff].
  split_and!.
  - intros H1 H2. rewrite (proj2 (Z.eqb_neq c 127)), H2 in T1 by done. simpl in T1. lia.
  - intros H. rewrite H in T2. simpl in T2. lia.
  - intros H. rewrite H in T3. simpl in T3. lia.
  - intros H1 H2. rewrite H1, (proj2 (Z.eqb_neq _ 95)) in T4 by done. simpl in T4. lia.
Qed.

Lemma find_none_false {A} (f : A -> bool) l : (forall x, In x l -> f x = false) -> List.find f l = None.
Proof.
  intros H. induction l as [|x l IH]; simpl; [done|].
  rewrite (H x) by (by left). apply IH. intros y Hy. apply H. by right.
Qed.

Lemma list_eq_ld (a b : bytes) :
  length a = length b -> (forall k, 0 <= k < len a -> a.[k] = b.[k]) -> a = b.
Proof.
  intros Hl H. apply (nth_ext _ _ 0 0 Hl). intros n Hn.
  specialize (H (Z.of_nat n) ltac:(lia)). unfold ld in H. by rewrite Nat2Z.id in H.
Qed.

Lemma keyword_hit (w g : bytes) j :
  Forall is_byte w -> 0 <= j < 147 -> kw_name j = map sqlite3Toupper w ->
  keywordCode (w ++ g) (len w) = Some aKWCode.[j].
Proof.
  intros Hw Hj E. pose proof (kw_tables j Hj) as T. unfold kw_table_ok in T.
  rewrite !andb_true_iff in T. destruct T as [[T1 _] [[[[T3 T4] T5] T6] T7]].
  apply bool_decide_eq_true in T1. assert (El : len (kw_name j) = len w) by (by rewrite E, length_map).
  rewrite El in T1, T4, T7. rewrite negb_true_iff, Z.eqb_neq in T6, T7.
  assert (M : forall k, 0 <= k < len w -> mask20 w.[k] = (kw_name j).[k] /\ kw_alphabet (mask20 w.[k]) = true).
  { intros k Hk. assert (Hb : is_byte w.[k]) by by apply ld_is_byte.
    destruct (mask20_facts _ Hb) as (_ & F2 & _).
    rewrite forallb_forall in T5. assert (Hin : In (kw_name j).[k] (kw_name j)) by (apply nth_In; lia).
    specialize (T5 _ Hin). rewrite E, ld_map in * by lia. rewrite F2 by done. done. }
  rewrite <- T1. unfold keywordCode. assert (2 <= len w) by lia.
  rewrite !(proj2 (Z.leb_le 2 (len w))) by done.
  assert (Eh : kw_hash (w ++ g) (len w) = kw_hash (kw_name j) (len w)).
  { unfold kw_hash. rewrite !ld_app_l by lia.
    assert (C : forall k, 0 <= k < len w -> (kw_name j).[k] <> 95 -> charMap w.[k] = charMap (kw_name j).[k]).
    { intros k Hk H95. destruct (M k Hk) as [M1 M2].
      assert (Hb : is_byte w.[k]) by by apply ld_is_byte.
      destruct (mask20_facts _ Hb) as (_ & _ & _ & F4). rewrite <- M1 in *. by apply F4. }
    rewrite !C by (done || lia). done. }
  rewrite Eh. apply kw_search_ext; [done|]. intros k Hk. rewrite ld_app_l by lia.
  destruct (M k Hk) as [M1 M2]. rewrite <- M1.
  assert (Hb : is_byte w.[k]) by by apply ld_is_byte.
  destruct (mask20_facts _ Hb) as (_ & _ & F3 & _). symmetry. by apply F3.
Qed.

Lemma keyword_miss (w g : bytes) :
  Forall is_byte w -> ~ In 127 w ->
  (forall j, 0 <= j < 147 -> kw_name j <> map sqlite3Toupper w) ->
  keywordCode (w ++ g) (len w) = None.
Proof.
  intros Hw H127 Hno. unfold keywordCode. destruct (Z.leb_spec 2 (len w)); [|done].
  destruct (kw_search _ _ _ _) as [c|] eqn:E; [exfalso|done].
  apply kw_search_found in E as (j & Hj & _ & E); [|done|].
  - apply kw_match_spec in E as [E1 E2]; [|done]. pose proof (kw_tables j Hj) as T. unfold kw_table_ok in T.
    rewrite !andb_true_iff in T. destruct T as [_ [[[[_ T4] T5] _] _]].
    apply (Hno j Hj). apply list_eq_ld; [rewrite length_map; lia|].
    intros k Hk. rewrite ld_map by lia. rewrite E1 in T4.
    specialize (E2 k ltac:(lia)). rewrite ld_app_l in E2 by lia.
    assert (En : (kw_name j).[k] = (drop (Z.to_nat aKWOffset.[j]) zKWText).[k]).
    { unfold kw_name, ld. rewrite <- (firstn_skipn (Z.to_nat aKWLen.[j]) (drop _ _)) at 2.
      symmetry. apply app_nth1. change (Z.to_nat k < length (kw_name j))%nat. lia. }
    rewrite En, <- E2. assert (Hb : is_byte w.[k]) by by apply ld_is_byte.
    destruct (mask20_facts _ Hb) as [F1 _]. symmetry. apply F1.
    + intros E127. apply H127. rewrite <- E127. apply nth_In. lia.
    + rewrite E2, <- En. rewrite forallb_forall in T5. apply T5, nth_In. lia.
  - assert (T : forallb (fun h => aKWHash.[h] <? 148) (seqZ (-127) 254) = true) by (vm_compute; done).
    rewrite forallb_forall in T. specialize (T (kw_hash (w ++ g) (len w))).
    rewrite <- list_elem_of_In, elem_of_seqZ in T.
    pose proof (Z.rem_bound_abs ((charMap (w ++ g).[0] * 4) .^ (charMap (w ++ g).[len w - 1] * 3) .^ (len w * 1)) 127 ltac:(lia)) as Hr.
    fold (kw_hash (w ++ g) (len w)) in Hr. specialize (T ltac:(lia)). lia.
Qed.

(** C28. [keywordCode] on any word of [n] bytes (that does not use DEL) answers what a
    case-insensitive search of the list of SQLite's 147 keywords answers: the
    generated perfect-hash tables represent exactly that list. *)
Theorem keywordCode_correct (w g : bytes) :
  Forall is_byte w -> ~ In 127 w -> keywordCode (w ++ g) (len w) = keyword_lookup w.
Proof.
  intros Hw H127. destruct (decide (Exists (fun j => kw_name j = map sqlite3Toupper w) (seqZ 0 147))) as [Hex|Hno].
  - apply Exists_exists in Hex as (j & Hj & E). rewrite elem_of_seqZ in Hj.
    rewrite (keyword_hit w g j Hw ltac:(lia) E).
    pose proof (kw_tables j ltac:(lia)) as T. unfold kw_table_ok in T.
    rewrite !andb_true_iff in T. destruct T as [[_ T2] _].
    apply bool_decide_eq_true in T2. unfold keyword_lookup. by rewrite <- E.
  - assert (Hn : forall j, 0 <= j < 147 -> kw_name j <> map sqlite3Toupper w).
    { intros j Hj E. apply Hno, Exists_exists. exists j. split; [|done].
      rewrite elem_of_seqZ. lia. }
    rewrite (keyword_miss w g Hw H127 Hn). unfold keyword_lookup. rewrite find_none_false; [done|].
    intros k Hk. apply bool_decide_eq_false. intros E. destruct (kw_list k Hk) as (j & Hj & Ej).
    apply (Hn j Hj). by rewrite <- Ej.
Qed.

(** DEL is why the restriction is there: [&~0x20] maps it to the underscore. *)
Example keyword_del :
  keywordCode (string_bytes "CURRENT" ++ [127] ++ string_bytes "DATE") 12 = Some TK_CTIME_KW.
Proof. reflexivity. Qed.

Lemma keywordCode_correct_witness :
  keywordCode (string_bytes "seLect" ++ [32]) 6 = keyword_lookup (string_bytes "seLect").
Proof.
  apply (keywordCode_correct (string_bytes "seLect")).
  - repeat constructor; unfold is_byte; vm_compute; intros; discriminate.
  - vm_compute. intros H. repeat destruct H as [H|H]; done.
Defined.

(** ** Window-function keywords *)

Definition sqlite3ParserFallback (iToken : Z) : Z := yyFallback.[iToken].

(** [getToken(&z)]: the type of the next token that is not a space, and the advanced
    pointer; the loop runs on while tokens are spaces. *)
Fixpoint getToken (fuel : nat) (z : bytes) : option (Z * bytes) :=
  match fuel with
  | O => None
  | S fuel =>
      let (n, t) := sqlite3GetToken z in
      let z := drop (Z.to_nat n) z in
      if t =? TK_SPACE then getToken fuel z
      else
        let t := if (t =? TK_ID) || (t =? TK_STRING) || (t =? TK_JOIN_KW) || (t =? TK_WINDOW) ||
                    (t =? TK_OVER) || (sqlite3ParserFallback t =? TK_ID)
                 then TK_ID else t in
        Some (t, z)
  end.

(** The three functions look at the tokens after the keyword; enough fuel for [getToken]
    is the length of what is left. *)
Definition analyzeWindowKeyword (z : bytes) : option Z :=
  match getToken (S (length z)) z with
  | None => None
  | Some (t, z) =>
      if negb (t =? TK_ID) then Some TK_ID
      else match getToken (S (length z)) z with
           | None => None
           | Some (t, _) => if negb (t =? TK_AS) then Some TK_ID else Some TK_WINDOW
           end
  end.

Definition analyzeOverKeyword (z : bytes) (lastToken : Z) : option Z :=
  if lastToken =? TK_RP then
    match getToken (S (length z)) z with
    | None => None
    | Some (t, _) => if (t =? TK_LP) || (t =? TK_ID) then Some TK_OVER else Some TK_ID
    end
  else Some TK_ID.

Definition analyzeFilterKeyword (z : bytes) (lastToken : Z) : option Z :=
  if lastToken =? TK_RP then
    match getToken (S (length z)) z with
    | None => None
    | Some (t, _) => if t =? TK_LP then Some TK_FILTER else Some TK_ID
    end
  else Some TK_ID.

(** ** sqlite3RunParser: the token loop

    The generated LALR(1) engine is a parameter: a state, what a token does to it, and
    the [pParse->rc] it leaves. [isInterrupted k] is what the [k]-th read of the
    interrupt flag sees.  The result is the engine state, [pParse->rc], the final
    [zSql], and the tokens handed to the engine, in order. *)
Definition SQLITE_OK : Z := 0.
Definition SQLITE_ERROR : Z := 1.
Definition SQLITE_INTERRUPT : Z := 9.
Definition SQLITE_TOOBIG : Z := 18.

Section RunParser.
Context {St : Type} (sqlite3Parser : St -> Z -> bytes -> St) (parse_rc : St -> Z).
Context (isInterrupted : nat -> bool).

Record parse_result := mk_result {
  pr_state : St; pr_rc : Z; pr_zSql : bytes; pr_fed : list (Z * bytes)
}.

Fixpoint RunParser_loop (fuel : nat) (s : St) (k : nat) (zSql : bytes)
    (mxSqlLen lastTokenParsed : Z) (fed : list (Z * bytes)) : option parse_result :=
  match fuel with
  | O => None
  | S fuel =>
      let (n, tokenType) := sqlite3GetToken zSql in
      let mxSqlLen := mxSqlLen - n in
      if mxSqlLen <? 0 then Some (mk_result s SQLITE_TOOBIG zSql fed)
      else
        let feed n tokenType :=
          let tok := take (Z.to_nat n) zSql in
          let s := sqlite3Parser s tokenType tok in
          let zSql := drop (Z.to_nat n) zSql in
          let fed := fed ++ [(tokenType, tok)] in
          if negb (parse_rc s =? SQLITE_OK) then Some (mk_result s (parse_rc s) zSql fed)
          else RunParser_loop fuel s (S k) zSql mxSqlLen tokenType fed in
        let feed_as t := match t with Some tokenType => feed n tokenType | None => None end in
        if TK_WINDOW <=? tokenType then
          if isInterrupted k then Some (mk_result s SQLITE_INTERRUPT zSql fed)
          else if tokenType =? TK_SPACE then
            RunParser_loop fuel s (S k) (drop (Z.to_nat n) zSql) mxSqlLen lastTokenParsed fed
          else if zSql.[0] =? 0 then
            if lastTokenParsed =? TK_SEMI then feed 0 0
            else if lastTokenParsed =? 0 then Some (mk_result s SQLITE_OK zSql fed)
            else feed 0 TK_SEMI
          else if tokenType =? TK_WINDOW then feed_as (analyzeWindowKeyword (drop 6 zSql))
          else if tokenType =? TK_OVER then feed_as (analyzeOverKeyword (drop 4 zSql) lastTokenParsed)
          else if tokenType =? TK_FILTER then feed_as (analyzeFilterKeyword (drop 6 zSql) lastTokenParsed)
          else Some (mk_result s SQLITE_ERROR zSql fed)
        else feed n tokenType
  end.

Definition sqlite3RunParser (s : St) (zSql : bytes) (mxSqlLen : Z) : option parse_result :=
  RunParser_loop (length zSql + 4) s 0 zSql mxSqlLen (-1) [].
End RunParser.

(** The tokens of a text, spaces included. *)
Fixpoint tokens (fuel : nat) (z : bytes) : list (Z * bytes) :=
  match fuel with
  | O => []
  | S fuel =>
      let (n, ty) := sqlite3GetToken z in
      if n =? 0 then [] else (ty, take (Z.to_nat n) z) :: tokens fuel (drop (Z.to_nat n) z)
  end.
Definition tokens_of (t : bytes) : list (Z * bytes) := tokens (length t) t.
Definition not_space (x : Z * bytes) : bool := negb (fst x =? TK_SPACE).

Lemma memory_split (z : bytes) :
  bytes_ok z -> exists t, no_nul t /\ (z = t \/ exists g, z = t ++ 0 :: g).
Proof.
  induction 1 as [|c z Hc Hz (t & Ht & IH)]; [exists []; split; [constructor|auto]|].
  destruct (decide (c = 0)) as [->|H0]; [exists []; split; [constructor|by eauto]|].
  exists (c :: t). split; [by constructor|].
  destruct IH as [->|[g ->]]; [by left|right; by exists g].
Qed.

(** On any memory, a token that does not start at a NUL makes progress. *)
Lemma GetToken_progress z :
  bytes_ok z ->
  if z.[0] =? 0 then sqlite3GetToken z = (0, TK_ILLEGAL)
  else 1 <= fst (sqlite3GetToken z) <= len z.
Proof.
  intros Hz. destruct (Z.eqb_spec z.[0] 0) as [E|E].
  { unfold sqlite3GetToken. rewrite E. reflexivity. }
  destruct (memory_split z Hz) as (t & Ht & Hzt).
  assert (0 < len t).
  { destruct t; [|simpl; lia]. destruct Hzt as [->|[g ->]]; done. }
  destruct (GetToken_stays t Ht ltac:(done)) as [H1 H2].
  destruct Hzt as [->|[g ->]]; [done|]. rewrite H1, length_app. lia.
Qed.

Lemma getToken_total fuel z :
  bytes_ok z -> (length z < fuel)%nat -> exists t z', getToken fuel z = Some (t, z') /\ bytes_ok z'.
Proof.
  revert z. induction fuel as [|fuel IH]; intros z Hz Hf; [lia|]. cbn [getToken].
  pose proof (GetToken_progress z Hz) as P. destruct (sqlite3GetToken z) as [n t].
  destruct (Z.eqb_spec z.[0] 0).
  - injection P as -> ->. do 2 eexists. split; [reflexivity|]. by apply Forall_drop.
  - simpl in P. destruct (t =? TK_SPACE).
    + apply IH; [by apply Forall_drop|]. rewrite length_drop. lia.
    + do 2 eexists. split; [reflexivity|]. by apply Forall_drop.
Qed.

Lemma analyze_total z last :
  bytes_ok z ->
  is_Some (analyzeWindowKeyword z) /\ is_Some (analyzeOverKeyword z last) /\
  is_Some (analyzeFilterKeyword z last).
Proof.
  intros Hz. destruct (getToken_total (S (length z)) z Hz ltac:(lia)) as (t & z' & E & Hz').
  destruct (getToken_total (S (length z')) z' Hz' ltac:(lia)) as (t' & z'' & E' & _).
  unfold analyzeWindowKeyword, analyzeOverKeyword, analyzeFilterKeyword. rewrite E, E'.
  split_and!; repeat case_match; eauto.
Qed.

Lemma tokens_step t :
  no_nul t -> t <> [] ->
  let (n, ty) := sqlite3GetToken t in
  forall fuel, tokens (S fuel) t = (ty, take (Z.to_nat n) t) :: tokens fuel (drop (Z.to_nat n) t).
Proof.
  intros Ht Hne. assert (Hl : 0 < len t) by (destruct t; [done|simpl; lia]).
  destruct (GetToken_stays t Ht Hl) as [_ H]. simpl.
  destruct (sqlite3GetToken t) as [n ty]; simpl in *. intros fuel.
  by rewrite (proj2 (Z.eqb_neq n 0)) by lia.
Qed.

Lemma tokens_nil fuel : tokens fuel [] = [].
Proof. by destruct fuel. Qed.

Lemma tokens_fuel t fuel : no_nul t -> (length t <= fuel)%nat -> tokens fuel t = tokens_of t.
Proof.
  unfold tokens_of. remember (length t) as m eqn:E. revert t fuel E.
  induction (lt_wf m) as [m _ IH]. intros t fuel -> Ht Hf.
  destruct (decide (t = [])) as [->|Hne]; [by rewrite !tokens_nil|].
  pose proof (tokens_step t Ht Hne) as Stp. destruct (GetToken_stays t Ht) as [_ Hn]; [destruct t; [done|simpl; lia]|].
  destruct (sqlite3GetToken t) as [n ty]; simpl in Hn.
  destruct fuel as [|fuel]; [lia|]. destruct (length t) as [|m'] eqn:El; [lia|]. rewrite !Stp. f_equal.
  rewrite (IH (length (drop (Z.to_nat n) t)) ltac:(rewrite length_drop; lia) _ fuel eq_refl);
    [|by apply no_nul_drop|rewrite length_drop; lia].
  rewrite (IH (length (drop (Z.to_nat n) t)) ltac:(rewrite length_drop; lia) _ m' eq_refl);
    [done|by apply no_nul_drop|rewrite length_drop; lia].
Qed.

Lemma tokens_of_cons t n ty :
  no_nul t -> t <> [] -> sqlite3GetToken t = (n, ty) ->
  tokens_of t = (ty, take (Z.to_nat n) t) :: tokens_of (drop (Z.to_nat n) t).
Proof.
  intros Ht Hne E. pose proof (tokens_step t Ht Hne) as Stp. rewrite E in Stp.
  rewrite <- (tokens_fuel t (S (length t))), Stp by (done || lia).
  rewrite (tokens_fuel (drop _ _)); [done|by apply no_nul_drop|rewrite length_drop; lia].
Qed.

Lemma tokens_concat t : no_nul t -> concat (map snd (tokens_of t)) = t.
Proof.
  remember (length t) as m eqn:E. revert t E. induction (lt_wf m) as [m _ IH]. intros t -> Ht.
  destruct (decide (t = [])) as [->|Hne]; [done|].
  destruct (sqlite3GetToken t) as [n ty] eqn:Eg. rewrite (tokens_of_cons t n ty) by done. simpl.
  destruct (GetToken_stays t Ht) as [_ Hn]; [destruct t; [done|simpl; lia]|]. rewrite Eg in Hn. simpl in Hn.
  rewrite (IH (length (drop (Z.to_nat n) t))); [apply take_drop| |done|by apply no_nul_drop].
  rewrite length_drop. lia.
Qed.

Section RunParser_spec.
Context {St : Type} (sqlite3Parser : St -> Z -> bytes -> St) (parse_rc : St -> Z).
Context (isInterrupted : nat -> bool).
Abbreviation loop := (RunParser_loop sqlite3Parser parse_rc isInterrupted).

Definition nonempty (x : bytes) : bool := match x with [] => false | _ => true end.

(** What the loop has done when it returns [r] from the text [t]: it has stopped inside
    the text; and unless it reports an error it has handed over every token and the
    end marker. *)
Definition run_post (t g : bytes) (fed : list (Z * bytes)) (r : @parse_result St) : Prop :=
  (exists j, 0 <= j <= len t /\ pr_zSql r = drop (Z.to_nat j) t ++ 0 :: g) /\
  (pr_rc r = SQLITE_OK ->
   pr_zSql r = 0 :: g /\
   (exists new, pr_fed r = fed ++ new /\
    List.filter nonempty (map snd new) = map snd (List.filter not_space (tokens_of t))) /\
   last (map fst (pr_fed r)) = Some 0).

Definition last_ok (lastTokenParsed : Z) (fed : list (Z * bytes)) : Prop :=
  lastTokenParsed = default (-1) (last (map fst fed)).

Lemma last_ok_app ty tok fed : last_ok ty (fed ++ [(ty, tok)]).
Proof. unfold last_ok. rewrite map_app. simpl. by rewrite last_snoc. Qed.

Lemma post_stop t g fed s rc :
  rc <> SQLITE_OK -> run_post t g fed (mk_result s rc (t ++ 0 :: g) fed).
Proof. intros H. split; [exists 0; split; [lia|done]|done]. Qed.

Lemma post_advance t g fed n (r : @parse_result St) :
  0 <= n <= len t ->
  (exists j, 0 <= j <= len (drop (Z.to_nat n) t) /\
     pr_zSql r = drop (Z.to_nat j) (drop (Z.to_nat n) t) ++ 0 :: g) ->
  (pr_rc r = SQLITE_OK -> run_post t g fed r) -> run_post t g fed r.
Proof.
  intros Hn (j & Hj & E) H. split; [|intros E0; by apply H].
  exists (n + j). rewrite length_drop in Hj. split; [lia|].
  rewrite E, drop_drop. do 2 f_equal. lia.
Qed.

(** A step over a token that is handed to the engine, or over a space. *)
Lemma post_token t g fed n ty ty' r :
  no_nul t -> t <> [] -> sqlite3GetToken t = (n, ty) -> 1 <= n <= len t -> ty <> TK_SPACE ->
  run_post (drop (Z.to_nat n) t) g (fed ++ [(ty', take (Z.to_nat n) t)]) r -> run_post t g fed r.
Proof.
  intros Ht Hne E Hn Hty [H1 H2]. apply (post_advance _ _ _ n); [lia|done|]. intros E0.
  destruct (H2 E0) as (H3 & (new & H4 & H5) & H6). split.
  { exists (len t). split; [lia|]. by rewrite H3, drop_ge by lia. }
  intros _. split_and!; [done| |done].
  exists ((ty', take (Z.to_nat n) t) :: new). split; [by rewrite H4, <- app_assoc|].
  rewrite (tokens_of_cons t n ty) by done. simpl. unfold not_space at 1. simpl.
  rewrite (proj2 (Z.eqb_neq ty _)) by done. simpl. rewrite <- H5.
  destruct (take (Z.to_nat n) t) eqn:Et; [|done].
  apply (f_equal length) in Et. rewrite length_take in Et. simpl in Et. lia.
Qed.

Lemma post_space t g fed n r :
  no_nul t -> t <> [] -> sqlite3GetToken t = (n, TK_SPACE) -> 1 <= n <= len t ->
  run_post (drop (Z.to_nat n) t) g fed r -> run_post t g fed r.
Proof.
  intros Ht Hne E Hn [H1 H2]. apply (post_advance _ _ _ n); [lia|done|]. intros E0.
  destruct (H2 E0) as (H3 & H4 & H6). split.
  { exists (len t). split; [lia|]. by rewrite H3, drop_ge by lia. }
  intros _. by rewrite (tokens_of_cons t n TK_SPACE) by done.
Qed.

Lemma loop_at_nul fuel s k g mx last fed :
  loop (S fuel) s k (0 :: g) mx last fed =
    if mx - 0 <? 0 then Some (mk_result s SQLITE_TOOBIG (0 :: g) fed)
    else if isInterrupted k then Some (mk_result s SQLITE_INTERRUPT (0 :: g) fed)
    else
      let feed ty :=
        let s := sqlite3Parser s ty [] in
        if negb (parse_rc s =? SQLITE_OK)
        then Some (mk_result s (parse_rc s) (0 :: g) (fed ++ [(ty, [])]))
        else loop fuel s (S k) (0 :: g) (mx - 0) ty (fed ++ [(ty, [])]) in
      if last =? TK_SEMI then feed 0
      else if last =? 0 then Some (mk_result s SQLITE_OK (0 :: g) fed)
      else feed TK_SEMI.
Proof.
  cbn [RunParser_loop]. change (sqlite3GetToken (0 :: g)) with (0, TK_ILLEGAL). reflexivity.
Qed.

(** At the terminator: a semicolon if the last token was none, then 0, then stop. *)
Lemma loop_end fuel s k g mx last fed :
  (3 <= fuel)%nat -> last_ok last fed ->
  exists r, loop fuel s k (0 :: g) mx last fed = Some r /\ run_post [] g fed r.
Proof.
  intros Hf Hlast.
  assert (Stop : forall s rc fed', rc <> SQLITE_OK -> run_post [] g fed (mk_result s rc (0 :: g) fed')).
  { intros. split; [exists 0; split; [lia|done]|done]. }
  assert (Fin : forall fuel s k mx fed' last', (1 <= fuel)%nat -> last' = 0 -> last_ok last' fed' ->
    (exists new, fed' = fed ++ new /\ List.filter nonempty (map snd new) = []) ->
    exists r, loop fuel s k (0 :: g) mx last' fed' = Some r /\ run_post [] g fed r).
  { clear - Stop. intros fuel s k mx fed' last' Hf -> Hlast (new & -> & Hnew).
    destruct fuel as [|fuel]; [lia|]. rewrite loop_at_nul.
    destruct (mx - 0 <? 0); [eexists; split; [done|]; apply Stop; by vm_compute|].
    destruct (isInterrupted k); [eexists; split; [done|]; apply Stop; by vm_compute|].
    eexists. split; [done|]. split; [exists 0; split; [lia|done]|]. intros _.
    split_and!; [done|by exists new|]. unfold last_ok in Hlast. simpl.
    destruct (last (map fst (fed ++ new))) as [z|]; simpl in *; congruence. }
  assert (Zero : forall fuel s k mx fed', (2 <= fuel)%nat -> last_ok TK_SEMI fed' ->
    (exists new, fed' = fed ++ new /\ List.filter nonempty (map snd new) = []) ->
    exists r, loop fuel s k (0 :: g) mx TK_SEMI fed' = Some r /\ run_post [] g fed r).
  { intros fuel' s' k' mx' fed' Hf' Hl (new & -> & Hnew). destruct fuel' as [|fuel']; [lia|]. rewrite loop_at_nul.
    destruct (mx' - 0 <? 0); [eexists; split; [done|]; apply Stop; by vm_compute|].
    destruct (isInterrupted k'); [eexists; split; [done|]; apply Stop; by vm_compute|].
    rewrite Z.eqb_refl. cbv beta zeta.
    destruct (parse_rc (sqlite3Parser s' 0 []) =? SQLITE_OK) eqn:Erc; simpl; [|eexists; split; [done|]; apply Stop; unfold SQLITE_OK in *; lia].
    apply Fin; [lia|done|apply last_ok_app|]. exists (new ++ [(0, [])]).
    rewrite app_assoc. split; [done|]. rewrite map_app, List.filter_app. simpl. by rewrite Hnew. }
  destruct (decide (last = TK_SEMI)) as [->|HS].
  { apply Zero; [lia|done|]. exists []. by rewrite app_nil_r. }
  destruct (decide (last = 0)) as [->|H0].
  { apply Fin; [lia|done|done|]. exists []. by rewrite app_nil_r. }
  destruct fuel as [|fuel]; [lia|]. rewrite loop_at_nul.
  destruct (mx - 0 <? 0); [eexists; split; [done|]; apply Stop; by vm_compute|].
  destruct (isInterrupted k); [eexists; split; [done|]; apply Stop; by vm_compute|].
  rewrite (proj2 (Z.eqb_neq last TK_SEMI)), (proj2 (Z.eqb_neq last 0)) by done. cbv beta zeta.
  destruct (parse_rc (sqlite3Parser s TK_SEMI []) =? SQLITE_OK) eqn:Erc; simpl; [|eexists; split; [done|]; apply Stop; unfold SQLITE_OK in *; lia].
  apply Zero; [lia|apply last_ok_app|]. by eexists.
Qed.

Lemma loop_spec t g :
  no_nul t -> bytes_ok g -> forall fuel s k mx last fed,
  (length t + 3 < fuel)%nat -> last_ok last fed ->
  exists r, loop fuel s k (t ++ 0 :: g) mx last fed = Some r /\ run_post t g fed r.
Proof.
  intros Ht Hg. remember (length t) as m eqn:E. revert t E Ht.
  induction (lt_wf m) as [m _ IH]. intros t -> Ht fuel s k mx last fed Hf Hlast.
  destruct (decide (t = [])) as [->|Hne]; [apply loop_end; [lia|done]|].
  assert (Hl : 0 < len t) by (destruct t; [done|simpl; lia]).
  destruct (GetToken_stays t Ht Hl) as [HG Hn]. specialize (HG g).
  assert (H0 : (t ++ 0 :: g).[0] <> 0) by (rewrite ld_text by lia; apply ld_nonzero; done || lia).
  destruct fuel as [|fuel]; [lia|]. cbn [RunParser_loop]. rewrite HG.
  destruct (sqlite3GetToken t) as [n ty] eqn:EG. simpl in Hn.
  cbv beta zeta. rewrite (take_app_le t (0 :: g) (Z.to_nat n)), (drop_app_le t (0 :: g) (Z.to_nat n)) by lia.
  assert (Hm : bytes_ok (t ++ 0 :: g)).
  { apply Forall_app. split; [|constructor; [unfold is_byte; lia|done]].
    eapply Forall_impl; [exact Ht|]. by intros ? []. }
  assert (Hfeed : forall ty', ty <> TK_SPACE ->
    exists r, (let s := sqlite3Parser s ty' (take (Z.to_nat n) t) in
       if negb (parse_rc s =? SQLITE_OK)
       then Some (mk_result s (parse_rc s) (drop (Z.to_nat n) t ++ 0 :: g)
                    (fed ++ [(ty', take (Z.to_nat n) t)]))
       else loop fuel s (S k) (drop (Z.to_nat n) t ++ 0 :: g) (mx - n) ty'
              (fed ++ [(ty', take (Z.to_nat n) t)])) = Some r /\ run_post t g fed r).
  { intros ty' Hty. cbv zeta. destruct (parse_rc _ =? SQLITE_OK) eqn:Erc; simpl.
    - destruct (IH (length (drop (Z.to_nat n) t)) ltac:(rewrite length_drop; lia) _ eq_refl
        (no_nul_drop _ _ Ht) fuel (sqlite3Parser s ty' (take (Z.to_nat n) t)) (S k) (mx - n) ty'
        (fed ++ [(ty', take (Z.to_nat n) t)])) as (r & E1 & E2);
        [rewrite length_drop; lia|apply last_ok_app|].
      exists r. split; [done|]. by eapply post_token.
    - eexists. split; [done|]. split; [exists n; split; [lia|done]|].
      simpl. intros E0. unfold SQLITE_OK in *. lia. }
  destruct (mx - n <? 0); [eexists; split; [done|]; apply post_stop; by vm_compute|].
  destruct (TK_WINDOW <=? ty) eqn:Ew; [|apply Hfeed; intros E; rewrite E in Ew; discriminate Ew].
  destruct (isInterrupted k); [eexists; split; [done|]; apply post_stop; by vm_compute|].
  destruct (Z.eqb_spec ty TK_SPACE) as [->|Hty].
  { destruct (IH (length (drop (Z.to_nat n) t)) ltac:(rewrite length_drop; lia) _ eq_refl
      (no_nul_drop _ _ Ht) fuel s (S k) (mx - n) last fed) as (r & E1 & E2);
      [rewrite length_drop; lia|done|].
    exists r. split; [done|]. by eapply post_space. }
  rewrite (proj2 (Z.eqb_neq _ 0)) by done.
  destruct (analyze_total (drop 6 (t ++ 0 :: g)) last (Forall_drop _ _ _ Hm)) as ([a ->] & _ & [c ->]).
  destruct (analyze_total (drop 4 (t ++ 0 :: g)) last (Forall_drop _ _ _ Hm)) as (_ & [b ->] & _).
  destruct (ty =? TK_WINDOW); [by apply Hfeed|].
  destruct (ty =? TK_OVER); [by apply Hfeed|].
  destruct (ty =? TK_FILTER); [by apply Hfeed|].
  eexists; split; [done|]; apply post_stop; by vm_compute.
Qed.

(** C27. [sqlite3RunParser] on a NUL-terminated statement always returns, with [zSql]
    still inside the text; the tokens of the text are consecutive and cover it; and
    when it returns [SQLITE_OK] the engine has been given exactly the tokens that are
    not white space or comments, each with its own text and in order, then the
    end-of-input marker. *)
Theorem RunParser_reads_all (s : St) (t g : bytes) (mxSqlLen : Z) :
  no_nul t -> bytes_ok g ->
  exists r, sqlite3RunParser sqlite3Parser parse_rc isInterrupted s (t ++ 0 :: g) mxSqlLen = Some r /\
    (exists j, 0 <= j <= len t /\ pr_zSql r = drop (Z.to_nat j) t ++ 0 :: g) /\
    concat (map snd (tokens_of t)) = t /\
    (pr_rc r = SQLITE_OK ->
       pr_zSql r = 0 :: g /\ last (map fst (pr_fed r)) = Some 0 /\
       List.filter nonempty (map snd (pr_fed r)) = map snd (List.filter not_space (tokens_of t))).
Proof.
  intros Ht Hg. destruct (loop_spec t g Ht Hg (length (t ++ 0 :: g) + 4) s 0 mxSqlLen (-1) [])
    as (r & E & H1 & H2); [rewrite length_app; simpl; lia|done|].
  exists r. split_and!; [done|done|by apply tokens_concat|].
  intros E0. destruct (H2 E0) as (H3 & (new & -> & H5) & H6). done.
Qed.
End RunParser_spec.

Lemma RunParser_reads_all_witness :
  exists r, sqlite3RunParser (fun s _ _ => s) (fun _ => 0) (fun _ => false) tt
    (string_bytes "SELECT 'a' -- x" ++ 0 :: [7]) 100 = Some r /\
    (exists j, 0 <= j <= 15 /\ pr_zSql r = drop (Z.to_nat j) (string_bytes "SELECT 'a' -- x") ++ 0 :: [7]) /\
    concat (map snd (tokens_of (string_bytes "SELECT 'a' -- x"))) = string_bytes "SELECT 'a' -- x" /\
    (pr_rc r = SQLITE_OK ->
       pr_zSql r = 0 :: [7] /\ last (map fst (pr_fed r)) = Some 0 /\
       List.filter nonempty (map snd (pr_fed r)) =
         map snd (List.filter not_space (tokens_of (string_bytes "SELECT 'a' -- x")))).
Proof.
  apply (RunParser_reads_all (fun s _ _ => s) (fun _ => 0) (fun _ => false) tt
    (string_bytes "SELECT 'a' -- x") [7] 100).
  - repeat constructor; try (unfold is_byte; vm_compute; intros; discriminate); by vm_compute.
  - repeat constructor; by vm_compute.
Defined.

(** ** Quoting *)

(** The SQL literal of [s] with quote character [q]: [q] doubled inside. *)
Definition double_quotes (q : Z) (s : bytes) : bytes := s ≫= (fun c => if c =? q then [q; q] else [c]).
Definition sql_quote (q : Z) (s : bytes) : bytes := q :: double_quotes q s ++ [q].

Lemma quote_end_doubled q s rest i :
  no_nul s -> q <> 0 -> rest.[0] <> q ->
  quote_end q (double_quotes q s ++ q :: rest) i = (q, i + len (double_quotes q s)).
Proof.
  intros Hs Hq Hr. revert i. induction Hs as [|c s [_ H0] Hs IH]; intros i; cbn -[Z.eqb Z.add].
  - rewrite (proj2 (Z.eqb_neq q 0)), Z.eqb_refl by done.
    destruct rest as [|d rest]; cbn -[Z.eqb Z.add] in *; [by rewrite Z.add_0_r|].
    unfold ld in Hr. simpl in Hr. rewrite (proj2 (Z.eqb_neq d q)) by done. by rewrite Z.add_0_r.
  - destruct (Z.eqb_spec c q) as [->|Hne]; cbn -[Z.eqb Z.add].
    + rewrite (proj2 (Z.eqb_neq q 0)), Z.eqb_refl by done. rewrite IH. f_equal.
      unfold double_quotes. lia.
    + rewrite (proj2 (Z.eqb_neq c 0)), (proj2 (Z.eqb_neq c q)) by done. rewrite IH. f_equal.
      unfold double_quotes. lia.
Qed.

Lemma insert_middle (out ms r : bytes) m c :
  <[Z.to_nat (len out) := c]> (out ++ m :: ms ++ r) = (out ++ [c]) ++ ms ++ r.
Proof. rewrite Nat2Z.id, insert_app_r_alt, Nat.sub_diag by lia. simpl. by rewrite <- app_assoc. Qed.

Lemma dequote_loop_eq fuel q z i j a b z' i' j' a' b' :
  dequote_loop fuel q z i j = Some (a, b) -> z = z' -> i = i' -> j = j' -> a = a' -> b = b' ->
  dequote_loop fuel q z' i' j' = Some (a', b').
Proof. congruence. Qed.

Lemma dequote_loop_spec q s tl :
  no_nul s -> q <> 0 -> tl.[0] <> q -> forall fuel out m ms,
  (length (double_quotes q s) < fuel)%nat ->
  exists junk,
    dequote_loop fuel q (out ++ m :: ms ++ double_quotes q s ++ q :: tl)
      (len out + 1 + len ms) (len out) = Some (out ++ s ++ junk, len out + len s) /\ junk <> [].
Proof.
  intros Hs Hq Ht. induction Hs as [|c s [_ H0] Hs IH]; intros fuel out m ms Hf.
  - destruct fuel as [|fuel]; [simpl in Hf; lia|]. cbn [dequote_loop double_quotes mbind list_bind app].
    assert (E : forall k, 0 <= k -> (out ++ m :: ms ++ q :: tl).[len out + 1 + len ms + k] = (q :: tl).[k]).
    { intros k Hk. rewrite ld_app_r by lia.
      replace (m :: ms ++ q :: tl) with ((m :: ms) ++ q :: tl) by done.
      rewrite ld_app_r by (simpl; lia). f_equal. simpl length. lia. }
    pose proof (E 0 ltac:(lia)) as E0. rewrite Z.add_0_r in E0. rewrite E0, (E 1) by lia.
    rewrite ld_cons_0, (proj2 (Z.eqb_neq q 0)), Z.eqb_refl by done.
    change 1 with (0 + 1). rewrite ld_cons_S, (proj2 (Z.eqb_neq _ q)) by (done || lia).
    exists (m :: ms ++ q :: tl). simpl. split; [f_equal; f_equal; lia|done].
  - cbn [double_quotes mbind list_bind] in *. fold (double_quotes q s) in *.
    destruct fuel as [|fuel]; [lia|]. cbn [dequote_loop].
    assert (E : forall k R, 0 <= k -> (out ++ m :: ms ++ R).[len out + 1 + len ms + k] = R.[k]).
    { intros k R Hk. rewrite ld_app_r by lia.
      replace (m :: ms ++ R) with ((m :: ms) ++ R) by done.
      rewrite ld_app_r by (simpl; lia). f_equal. simpl length. lia. }
    destruct (Z.eqb_spec c q) as [->|Hne]; cbn [app] in *.
    + pose proof (E 0 (q :: q :: double_quotes q s ++ q :: tl) ltac:(lia)) as E0.
      rewrite Z.add_0_r in E0. rewrite E0, (E 1) by lia.
      assert ((q :: q :: double_quotes q s ++ q :: tl).[1] = q) as -> by done.
      rewrite !ld_cons_0, (proj2 (Z.eqb_neq q 0)), Z.eqb_refl by (done || lia).
      rewrite insert_middle.
      destruct (IH fuel (out ++ [q]) (match ms with [] => q | m' :: _ => m' end)
        (match ms with [] => [q] | _ :: ms' => ms' ++ [q; q] end)) as (junk & EI & Hj);
        [simpl in Hf; lia|].
      exists junk. split; [|done]. eapply dequote_loop_eq; [exact EI|..]; destruct ms as [|m' ms];
        solve [list_simplifier; done | rewrite ?length_app; simpl; rewrite ?length_app; simpl; lia].
    + pose proof (E 0 (c :: double_quotes q s ++ q :: tl) ltac:(lia)) as E0.
      rewrite Z.add_0_r in E0. rewrite E0.
      rewrite ld_cons_0, (proj2 (Z.eqb_neq c 0)), (proj2 (Z.eqb_neq c q)) by done.
      rewrite insert_middle.
      destruct (IH fuel (out ++ [c]) (match ms with [] => c | m' :: _ => m' end)
        (match ms with [] => [] | _ :: ms' => ms' ++ [c] end)) as (junk & EI & Hj);
        [simpl in Hf; lia|].
      exists junk. split; [|done]. eapply dequote_loop_eq; [exact EI|..]; destruct ms as [|m' ms];
        solve [list_simplifier; done | rewrite ?length_app; simpl; rewrite ?length_app; simpl; lia].
Qed.

(** C29. Quoting round trip: a text written as an SQL literal with any of the three
    doubling quote characters is read back as one token of that very length -- a
    string for the single quote, an identifier for the others -- and [sqlite3Dequote],
    which works in place, restores the text and terminates it. *)
Theorem quote_roundtrip (q : Z) (s rest g : bytes) :
  q = 39 \/ q = 34 \/ q = 96 -> no_nul s -> rest.[0] <> q ->
  sqlite3GetToken (sql_quote q s ++ rest) =
    (len (sql_quote q s), if q =? 39 then TK_STRING else TK_ID) /\
  (exists junk, sqlite3Dequote (sql_quote q s ++ 0 :: g) = Some (s ++ 0 :: junk)).
Proof.
  intros Hq Hs Hr. assert (Hq0 : q <> 0) by lia. split.
  - unfold sqlite3GetToken, sql_quote. simpl app. rewrite ld_cons_0. rewrite <- app_assoc. simpl app.
    assert (EQ : tokenQuote (q :: double_quotes q s ++ q :: rest) =
      (len (q :: double_quotes q s ++ [q]), if q =? 39 then TK_STRING else TK_ID)).
    { unfold tokenQuote. rewrite ld_cons_0.
      change (drop 1 (q :: ?l)) with l.
      rewrite quote_end_doubled by done. rewrite (proj2 (Z.eqb_neq q 0)) by done. simpl.
      rewrite length_app. simpl. destruct (q =? 39); f_equal; lia. }
    destruct Hq as [Hq|[Hq|Hq]]; subst q; exact EQ.
  - unfold sqlite3Dequote, sql_quote. simpl app. rewrite ld_cons_0, <- app_assoc. simpl app.
    destruct (dequote_loop_spec q s (0 :: g) Hs Hq0 ltac:(by rewrite ld_cons_0)
      (length (q :: double_quotes q s ++ q :: 0 :: g)) [] q []) as (junk & E & Hj).
    { simpl. rewrite length_app. simpl. lia. }
    assert (E' : dequote_loop (length (q :: double_quotes q s ++ q :: 0 :: g)) q
      (q :: double_quotes q s ++ q :: 0 :: g) 1 0 = Some (s ++ junk, len s)) by exact E.
    assert (EQ : exists junk', (match dequote_loop (length (q :: double_quotes q s ++ q :: 0 :: g)) q
        (q :: double_quotes q s ++ q :: 0 :: g) 1 0 with
      | Some (z, j) => Some (<[Z.to_nat j := 0]> z) | None => None end) = Some (s ++ 0 :: junk')).
    { rewrite E'. destruct junk as [|x junk]; [done|]. exists junk.
      rewrite Nat2Z.id, insert_app_r_alt, Nat.sub_diag by lia. done. }
    destruct Hq as [Hq|[Hq|Hq]]; subst q; exact EQ.
Qed.

Lemma quote_roundtrip_witness :
  sqlite3GetToken (sql_quote 39 (string_bytes "it's") ++ [59]) = (7, TK_STRING) /\
  (exists junk, sqlite3Dequote (sql_quote 39 (string_bytes "it's") ++ [0; 9]) =
    Some (string_bytes "it's" ++ 0 :: junk)).
Proof.
  apply (quote_roundtrip 39 (string_bytes "it's") [59] [9]); [by left| |done].
  repeat constructor; try (unfold is_byte; vm_compute; intros; discriminate); by vm_compute.
Defined.
