(* ===== verification/Complete.v ===== *)
(** * Complete: sqlite3_complete() (complete.c)

    The scanner and the 8-state automaton that decide whether an SQL text ends with a
    complete statement, and what language the automaton accepts. *)

From S2P Require Import Prelude CType TokenTables Tokenize.

(** ** The code *)

Inductive ctoken := tkSEMI | tkWS | tkOTHER | tkEXPLAIN | tkCREATE | tkTEMP | tkTRIGGER | tkEND.

Definition token_code (k : ctoken) : Z :=
  match k with
  | tkSEMI => 0 | tkWS => 1 | tkOTHER => 2 | tkEXPLAIN => 3
  | tkCREATE => 4 | tkTEMP => 5 | tkTRIGGER => 6 | tkEND => 7
  end.

Definition trans_table : list (list Z) := [
  (*              SEMI WS OTHER EXPLAIN CREATE TEMP TRIGGER END *)
  (* 0 INVALID *) [1; 0; 2; 3; 4; 2; 2; 2];
  (* 1   START *) [1; 1; 2; 3; 4; 2; 2; 2];
  (* 2  NORMAL *) [1; 2; 2; 2; 2; 2; 2; 2];
  (* 3 EXPLAIN *) [1; 3; 3; 2; 4; 2; 2; 2];
  (* 4  CREATE *) [1; 4; 2; 2; 2; 4; 5; 2];
  (* 5 TRIGGER *) [6; 5; 5; 5; 5; 5; 5; 5];
  (* 6    SEMI *) [6; 6; 5; 5; 5; 5; 5; 7];
  (* 7     END *) [1; 7; 5; 5; 5; 5; 5; 5]].

Definition trans (state : Z) (k : ctoken) : Z := (nth (Z.to_nat state) trans_table []).[token_code k].

(** One turn of the [while] loop up to [token]: the token and the pointer to its last
    byte, or an unterminated construct ([return 0]), or an SQL comment that runs to the
    end ([return state==1]). *)
Inductive scan := Tok (token : ctoken) (zSql : bytes) | Unterminated | CommentAtEnd.

(** [while( zSql[0] && (zSql[0]!='*' || zSql[1]!='/') ){ zSql++; }] *)
Fixpoint find_comment_end (z : bytes) : bytes :=
  match z with
  | [] => []
  | c :: r =>
      if negb (c =? 0) && (negb (c =? 42) || negb (r.[0] =? 47)) then find_comment_end r else z
  end.

(** [while( *zSql && *zSql!=c ){ zSql++; }] *)
Fixpoint find_char (c : Z) (z : bytes) : bytes :=
  match z with
  | [] => []
  | x :: r => if negb (x =? 0) && negb (x =? c) then find_char c r else z
  end.

(** The keyword cases of an identifier of [nId] bytes. *)
Definition id_token (z : bytes) (nId : Z) : ctoken :=
  let kw w := (nId =? len (string_bytes w)) && (sqlite3_strnicmp z (string_bytes w ++ [0]) nId =? 0) in
  if (z.[0] =? 99) || (z.[0] =? 67) (* c C *) then
    if kw "create"%string then tkCREATE else tkOTHER
  else if (z.[0] =? 116) || (z.[0] =? 84) (* t T *) then
    if kw "trigger"%string then tkTRIGGER
    else if kw "temp"%string then tkTEMP
    else if kw "temporary"%string then tkTEMP
    else tkOTHER
  else if (z.[0] =? 101) || (z.[0] =? 69) (* e E *) then
    if kw "end"%string then tkEND
    else if kw "explain"%string then tkEXPLAIN
    else tkOTHER
  else tkOTHER.

Definition complete_scan (z : bytes) : scan :=
  let c := z.[0] in
  if c =? 59 (* ; *) then Tok tkSEMI z
  else if (c =? 32) || (c =? 13) || (c =? 9) || (c =? 10) || (c =? 12) then Tok tkWS z
  else if c =? 47 (* / *) then
    if negb (z.[1] =? 42) then Tok tkOTHER z
    else
      let z := find_comment_end (drop 2 z) in
      if z.[0] =? 0 then Unterminated else Tok tkWS (drop 1 z)
  else if c =? 45 (* - *) then
    if negb (z.[1] =? 45) then Tok tkOTHER z
    else
      let z := find_char 10 z in
      if z.[0] =? 0 then CommentAtEnd else Tok tkWS z
  else if c =? 91 (* [ *) then
    let z := find_char 93 (drop 1 z) in
    if z.[0] =? 0 then Unterminated else Tok tkOTHER z
  else if (c =? 96) || (c =? 34) || (c =? 39) then
    let z := find_char c (drop 1 z) in
    if z.[0] =? 0 then Unterminated else Tok tkOTHER z
  else if IdChar c then
    let nId := skip IdChar z 1 in
    Tok (id_token z nId) (drop (Z.to_nat (nId - 1)) z)
  else Tok tkOTHER z.

Fixpoint complete_loop (fuel : nat) (state : Z) (zSql : bytes) : option Z :=
  match fuel with
  | O => None
  | S fuel =>
      if zSql.[0] =? 0 then Some (b2i (state =? 1))
      else match complete_scan zSql with
           | Tok token z => complete_loop fuel (trans state token) (drop 1 z)
           | Unterminated => Some 0
           | CommentAtEnd => Some (b2i (state =? 1))
           end
  end.

Definition sqlite3_complete (zSql : bytes) : option Z := complete_loop (S (length zSql)) 0 zSql.

(** ** The tokens of a text *)

(** The token sequence, [None] when the text ends inside a string, a bracketed name or
    a C comment. *)
Fixpoint ctokens (fuel : nat) (z : bytes) : option (list ctoken) :=
  match fuel with
  | O => None
  | S fuel =>
      if z.[0] =? 0 then Some []
      else match complete_scan z with
           | Tok k z' => cons k <$> ctokens fuel (drop 1 z')
           | Unterminated => None
           | CommentAtEnd => Some []
           end
  end.

Definition run (state : Z) (ks : list ctoken) : Z := fold_left trans ks state.

Lemma find_comment_end_length z : (length (find_comment_end z) <= length z)%nat.
Proof. induction z as [|c z IH]; simpl; [done|]. destruct (_ && _); simpl; lia. Qed.

Lemma find_char_length c z : (length (find_char c z) <= length z)%nat.
Proof. induction z as [|x z IH]; simpl; [done|]. destruct (_ && _); simpl; lia. Qed.

(** Every turn of the loop consumes a byte. *)
Lemma complete_scan_progress z k z' :
  z.[0] <> 0 -> complete_scan z = Tok k z' -> (length (drop 1 z') < length z)%nat.
Proof.
  intros Hz. assert (1 <= length z)%nat by (destruct z; [done|simpl; lia]).
  unfold complete_scan. rewrite length_drop.
  repeat match goal with |- context [if ?b then _ else _] => destruct b end;
    intros [= _ <-]; try lia.
  - pose proof (find_comment_end_length (drop 2 z)). rewrite length_drop in *. lia.
  - pose proof (find_char_length 10 z). lia.
  - pose proof (find_char_length 93 (drop 1 z)). rewrite length_drop in *. lia.
  - pose proof (find_char_length z.[0] (drop 1 z)). rewrite length_drop in *. lia.
  - rewrite length_drop. lia.
Qed.

(** The loop is a fold of the automaton over the tokens. *)
Lemma complete_loop_run fuel state z :
  (length z < fuel)%nat ->
  complete_loop fuel state z =
    Some (match ctokens fuel z with Some ks => b2i (run state ks =? 1) | None => 0 end).
Proof.
  revert state z. induction fuel as [|fuel IH]; intros state z Hf; [lia|]. cbn [complete_loop ctokens].
  destruct (Z.eqb_spec z.[0] 0); [done|].
  destruct (complete_scan z) as [k z'| |] eqn:E; [|done|done].
  pose proof (complete_scan_progress z k z' n E). rewrite IH by lia.
  destruct (ctokens fuel (drop 1 z')); done.
Qed.

(** ** The language of complete texts *)

#[export] Instance ctoken_eq_dec : EqDecision ctoken.
Proof. solve_decision. Defined.

Definition significant (ks : list ctoken) : list ctoken :=
  List.filter (fun k => negb (bool_decide (k = tkWS))) ks.

(** [EXPLAIN] and other words, then [CREATE], then [TEMP]s, then [TRIGGER]. *)
Definition explain_prefix (e : list ctoken) : Prop :=
  e = [] \/ exists o, e = tkEXPLAIN :: o /\ Forall (eq tkOTHER) o.
Definition create_prefix (h : list ctoken) : Prop :=
  exists e c, h = e ++ tkCREATE :: c /\ explain_prefix e /\ Forall (eq tkTEMP) c.
Definition trigger_header (h : list ctoken) : Prop :=
  exists c, h = c ++ [tkTRIGGER] /\ create_prefix c.

(** [;END;] *)
Definition semi_end_semi : list ctoken := [tkSEMI; tkEND; tkSEMI].

(** A statement: up to the first semicolon, unless it starts like a trigger; then up to
    the first [;END;]. *)
Inductive stmt : list ctoken -> Prop :=
| stmt_plain u :
    tkSEMI ∉ u -> (forall h, trigger_header h -> ~ h `prefix_of` u) -> stmt (u ++ [tkSEMI])
| stmt_trigger h b :
    trigger_header h -> semi_end_semi `suffix_of` b ->
    (forall p x r, b = p ++ x :: r -> ~ semi_end_semi `suffix_of` p) -> stmt (h ++ b).

Definition no_ws (ks : list ctoken) : Prop := Forall (fun k => k <> tkWS) ks.

Lemma run_app s a b : run s (a ++ b) = run (run s a) b.
Proof. apply fold_left_app. Qed.

Definition is_state (s : Z) : Prop := 0 <= s < 8.

Lemma state_cases s : is_state s ->
  s = 0 \/ s = 1 \/ s = 2 \/ s = 3 \/ s = 4 \/ s = 5 \/ s = 6 \/ s = 7.
Proof. unfold is_state. lia. Qed.

Lemma trans_state s k : is_state s -> is_state (trans s k).
Proof. intros H%state_cases. unfold is_state. repeat destruct H as [->|H]; subst; destruct k; vm_compute; split; congruence. Qed.

Lemma run_state s ks : is_state s -> is_state (run s ks).
Proof. revert s. induction ks as [|k ks IH]; intros s Hs; simpl; [done|]. by apply IH, trans_state. Qed.

Lemma trans_ws s : is_state s -> trans s tkWS = s.
Proof. intros H%state_cases. repeat destruct H as [->|H]; subst; done. Qed.

Lemma run_significant s ks : is_state s -> run s (significant ks) = run s ks.
Proof.
  revert s. induction ks as [|k ks IH]; intros s Hs; [done|]. unfold significant in *. simpl.
  destruct (bool_decide_reflect (k = tkWS)) as [->|]; simpl.
  - rewrite trans_ws by done. by apply IH.
  - apply IH. by apply trans_state.
Qed.

Lemma significant_no_ws ks : no_ws (significant ks).
Proof.
  unfold no_ws, significant. induction ks as [|k ks IH]; simpl; [constructor|].
  destruct (bool_decide_reflect (k = tkWS)); simpl; [done|by constructor].
Qed.

(** State 0 differs from state 1 only in not accepting. *)
Lemma run_from_0 k ks : k <> tkWS -> run 0 (k :: ks) = run 1 (k :: ks).
Proof. intros H. simpl. by destruct k. Qed.

(** What each state says of the tokens since the start of the statement. *)
Definition header_inside (u : list ctoken) : Prop := exists h, trigger_header h /\ h `prefix_of` u.

Lemma prefix_of_snoc {A} (h u : list A) k : h `prefix_of` u ++ [k] -> h `prefix_of` u \/ h = u ++ [k].
Proof.
  intros [r E]. destruct r as [|x r _] using rev_ind; [right; by rewrite app_nil_r in E|].
  rewrite app_assoc in E. apply app_inj_tail in E as [-> _]. left. by exists r.
Qed.

Lemma header_inside_snoc u k :
  header_inside (u ++ [k]) <-> header_inside u \/ (k = tkTRIGGER /\ create_prefix u).
Proof.
  split.
  - intros (h & Hh & Hp). apply prefix_of_snoc in Hp as [Hp|Hp]; [left; by exists h|].
    right. destruct Hh as (c & -> & Hc). apply app_inj_tail in Hp as [-> ->]. done.
  - intros [(h & Hh & Hp)|[-> Hc]].
    + exists h. split; [done|]. by apply prefix_app_r.
    + exists (u ++ [tkTRIGGER]). split; [by exists u|done].
Qed.

Lemma explain_snoc u k :
  explain_prefix (u ++ [k]) <->
  (u = [] /\ k = tkEXPLAIN) \/ (u <> [] /\ explain_prefix u /\ k = tkOTHER).
Proof.
  unfold explain_prefix. split.
  - intros [H|(o & H & Ho)]; [by destruct u|]. destruct u as [|x u]; simpl in H.
    + injection H as -> <-. by left.
    + injection H as -> <-. right. apply Forall_app in Ho as [Ho Hk].
      split_and!; [done|right; eauto|]. by inversion Hk.
  - intros [[-> ->]|(Hne & [->|(o & -> & Ho)] & ->)]; [right; by exists []|done|].
    right. exists (o ++ [tkOTHER]). split; [done|]. apply Forall_app. by repeat constructor.
Qed.

Lemma create_snoc u k :
  create_prefix (u ++ [k]) <->
  (k = tkCREATE /\ explain_prefix u) \/ (k = tkTEMP /\ create_prefix u).
Proof.
  unfold create_prefix. split.
  - intros (e & c & H & He & Hc). destruct c as [|x c _] using rev_ind.
    + apply app_inj_tail in H as [-> ->]. by left.
    + rewrite app_comm_cons, app_assoc in H. apply app_inj_tail in H as [-> ->].
      apply Forall_app in Hc as [Hc Hx]. right. inversion Hx. split; [done|by exists e, c].
  - intros [[-> He]|[-> (e & c & -> & He & Hc)]].
    + exists u, []. split_and!; [done|done|constructor].
    + exists e, (c ++ [tkTEMP]). split_and!; [by rewrite <- app_assoc|done|].
      apply Forall_app. by repeat constructor.
Qed.

(** While no semicolon has been read: which state the automaton is in. *)
Definition header_state (u : list ctoken) (s : Z) : Prop :=
  (s = 5 /\ header_inside u) \/
  (~ header_inside u /\
   ((s = 1 /\ u = []) \/
    (s = 3 /\ u <> [] /\ explain_prefix u) \/
    (s = 4 /\ create_prefix u) \/
    (s = 2 /\ u <> [] /\ ~ explain_prefix u /\ ~ create_prefix u))).

Lemma create_not_explain u : create_prefix u -> ~ explain_prefix u.
Proof.
  intros (e & c & -> & He & _). intros [H|(o & H & Ho)]; [by destruct e|].
  destruct He as [->|(o' & -> & _)]; [done|]. simpl in H. injection H as <-.
  apply Forall_app in Ho as [_ Ho]. by inversion Ho.
Qed.

Lemma create_not_nil u : create_prefix u -> u <> [].
Proof. intros (e & c & -> & _). by destruct e. Qed.

Lemma header_nil : ~ header_inside [].
Proof. intros (h & (c & -> & _) & Hp). apply prefix_nil_inv in Hp. by destruct c. Qed.

Lemma run_header u : no_ws u -> tkSEMI ∉ u -> header_state u (run 1 u).
Proof.
  induction u as [|k u IH] using rev_ind; intros Hw Hs.
  - right. split; [apply header_nil|]. by left.
  - apply Forall_app in Hw as [Hw Hk]. inversion_clear Hk as [|? ? Hk' _].
    rewrite not_elem_of_app, list_elem_of_singleton in Hs. destruct Hs as [Hs Hks].
    specialize (IH Hw Hs). rewrite run_app. unfold header_state.
    rewrite header_inside_snoc, explain_snoc, create_snoc. simpl.
    pose proof (create_not_explain u). pose proof (create_not_nil u).
    assert (He0 : explain_prefix []) by by left. assert (Hnn : u ++ [k] <> []) by by destruct u.
    assert (Hc0 : u = [] -> ~ create_prefix u) by (intros -> Hc; by eapply create_not_nil).
    destruct IH as [[-> Hh]|[Hh IH]].
    + left. split; [by destruct k|by left].
    + destruct IH as [[-> ->]|[(-> & Hne & He)|[[-> Hc]|(-> & Hne & He & Hc)]]];
        destruct k; try done; vm_compute trans; intuition congruence.
Qed.

(** No [;END;] ends at any point of [b]. *)
Definition no_match (b : list ctoken) : Prop := forall p r, b = p ++ r -> ~ semi_end_semi `suffix_of` p.
Definition first_match (b : list ctoken) : Prop :=
  semi_end_semi `suffix_of` b /\ forall p x r, b = p ++ x :: r -> ~ semi_end_semi `suffix_of` p.

Lemma suffix_snoc {A} (a b : list A) x y : a ++ [x] `suffix_of` b ++ [y] <-> x = y /\ a `suffix_of` b.
Proof.
  split.
  - intros [r E]. rewrite app_assoc in E. apply app_inj_tail in E as [-> ->]. split; [done|by exists r].
  - intros [-> [r ->]]. exists r. by rewrite app_assoc.
Qed.

Lemma no_match_snoc b k : no_match (b ++ [k]) -> no_match b.
Proof. intros H p r E. apply (H p (r ++ [k])). by rewrite E, app_assoc. Qed.

Lemma suffix1 (k : ctoken) b x : [k] `suffix_of` b ++ [x] <-> k = x.
Proof. change [k] with ([] ++ [k]). rewrite (suffix_snoc [] b). pose proof (suffix_nil b). tauto. Qed.

Lemma run_body b :
  no_ws b -> no_match b ->
  (run 5 b = 7 /\ [tkSEMI; tkEND] `suffix_of` b) \/ (run 5 b = 6 /\ [tkSEMI] `suffix_of` b) \/
  (run 5 b = 5 /\ ~ [tkSEMI] `suffix_of` b /\ ~ [tkSEMI; tkEND] `suffix_of` b).
Proof.
  induction b as [|k b IH] using rev_ind; intros Hw Hm.
  - right; right. split_and!; [done| |]; intros E%suffix_nil_inv; done.
  - apply Forall_app in Hw as [Hw Hk]. inversion_clear Hk as [|? ? Hk' _].
    specialize (IH Hw (no_match_snoc _ _ Hm)). rewrite run_app. simpl.
    assert (Hx : [tkSEMI] `suffix_of` b -> ~ [tkSEMI; tkEND] `suffix_of` b).
    { intros [p ->]. change [tkSEMI; tkEND] with ([tkSEMI] ++ [tkEND]). rewrite suffix_snoc. by intros []. }
    assert (H3 : ~ semi_end_semi `suffix_of` b ++ [k]) by (apply (Hm _ []); by rewrite app_nil_r).
    change semi_end_semi with ([tkSEMI; tkEND] ++ [tkSEMI]) in H3. rewrite suffix_snoc in H3.
    change [tkSEMI; tkEND] with ([tkSEMI] ++ [tkEND]). rewrite (suffix_snoc [tkSEMI] b), suffix1.
    destruct IH as [[-> H]|[[-> H]|(-> & H & H')]]; destruct k; try done; vm_compute trans; intuition congruence.
Qed.

Lemma find_match b : no_match b \/ exists b0 r, b = b0 ++ r /\ first_match b0.
Proof.
  induction b as [|k b IH] using rev_ind.
  - left. intros p r E%symmetry%app_nil. destruct E as [-> _]. intros E%suffix_nil_inv. done.
  - destruct IH as [Hno|(b0 & r & -> & H)].
    + destruct (decide (semi_end_semi `suffix_of` b ++ [k])) as [Hy|Hn].
      * right. exists (b ++ [k]), []. rewrite app_nil_r. split; [done|]. split; [done|].
        intros p x r E. destruct r as [|y r _] using rev_ind.
        -- apply app_inj_tail in E as [-> _]. apply (Hno _ []). by rewrite app_nil_r.
        -- rewrite app_comm_cons, app_assoc in E. apply app_inj_tail in E as [-> _]. by eapply Hno.
      * left. intros p r E. destruct r as [|y r _] using rev_ind.
        -- rewrite app_nil_r in E. by subst.
        -- rewrite app_assoc in E. apply app_inj_tail in E as [-> _]. by eapply Hno.
    + right. exists b0, (r ++ [k]). by rewrite app_assoc.
Qed.

Lemma run_first_match b : no_ws b -> first_match b -> run 5 b = 1.
Proof.
  intros Hw [[p ->] Hf].
  change (p ++ semi_end_semi) with (p ++ [tkSEMI; tkEND] ++ [tkSEMI]) in *.
  rewrite app_assoc in *. apply Forall_app in Hw as [Hw _]. rewrite run_app.
  assert (Hm : no_match (p ++ [tkSEMI; tkEND])).
  { intros q r E. destruct r as [|x r]; [apply (Hf q tkSEMI []); by rewrite app_nil_r in E; subst|].
    apply (Hf q x (r ++ [tkSEMI])). by rewrite E, <- app_assoc. }
  pose proof (suffix_app_r [tkSEMI; tkEND] [tkSEMI; tkEND] p) as Hs.
  destruct (run_body _ Hw Hm) as [[-> _]|[[_ H]|(_ & _ & H)]]; [done| |].
  - change (p ++ [tkSEMI; tkEND]) with (p ++ [tkSEMI] ++ [tkEND]) in H.
    rewrite app_assoc, suffix1 in H. done.
  - exfalso. apply H. by exists p.
Qed.

Lemma header_no_semi h : trigger_header h -> no_ws h /\ tkSEMI ∉ h.
Proof.
  intros (c & -> & e & d & -> & He & Hd). unfold no_ws.
  assert (H : Forall (fun k => k <> tkWS /\ tkSEMI <> k) ((e ++ tkCREATE :: d) ++ [tkTRIGGER])).
  { apply Forall_app. split; [|by repeat constructor]. apply Forall_app. split.
    - destruct He as [->|(o & -> & Ho)]; [constructor|]. constructor; [done|].
      eapply Forall_impl; [exact Ho|]. by intros ? <-.
    - constructor; [done|]. eapply Forall_impl; [exact Hd|]. by intros ? <-. }
  split; [eapply Forall_impl; [exact H|]; naive_solver|].
  intros Hin. rewrite Forall_forall in H. specialize (H _ Hin). naive_solver.
Qed.

Lemma run_trigger_header h : trigger_header h -> run 1 h = 5.
Proof.
  intros Hh. destruct (header_no_semi h Hh) as [Hw Hs].
  destruct (run_header h Hw Hs) as [[H _]|[H _]]; [done|]. exfalso. apply H. by exists h.
Qed.

Lemma run_stmt w : no_ws w -> stmt w -> run 1 w = 1.
Proof.
  intros Hw Hst. destruct Hst as [u Hs Hh|h b Hh Hb Hf].
  - apply Forall_app in Hw as [Hw _]. rewrite run_app.
    destruct (run_header u Hw Hs) as [[_ (h & H1 & H2)]|[_ H]]; [by destruct (Hh h)|].
    by destruct H as [[-> _]|[[-> _]|[[-> _]|[-> _]]]].
  - apply Forall_app in Hw as [_ Hw]. rewrite run_app, run_trigger_header by done.
    by apply run_first_match.
Qed.

Lemma run_script w : no_ws w -> run 1 w = 1 -> exists ss, w = concat ss /\ Forall stmt ss.
Proof.
  remember (length w) as n eqn:E. revert w E. induction (lt_wf n) as [n _ IH]. intros w -> Hw Hr.
  destruct (decide (tkSEMI ∈ w)) as [Hin|Hno].
  - apply list_elem_of_split_l in Hin as (u & r & -> & Hu).
    apply Forall_app in Hw as [Hwu Hwr]. inversion_clear Hwr as [|? ? _ Hwr'].
    destruct (run_header u Hwu Hu) as [[Es (h & Hh & v & ->)]|[Hno Hst]].
    + (* a trigger *)
      rewrite <- app_assoc in *. rewrite run_app, run_trigger_header in Hr by done.
      set (b := v ++ tkSEMI :: r) in *.
      assert (Hwb : no_ws b).
      { apply Forall_app in Hwu as [_ Hwv]. apply Forall_app. split; [done|]. by constructor. }
      destruct (find_match b) as [Hm|(b0 & r' & Eb & Hf)].
      { destruct (run_body b Hwb Hm) as [[E _]|[[E _]|(E & _)]]; congruence. }
      rewrite Eb in Hwb. apply Forall_app in Hwb as [Hw0 Hw1].
      rewrite Eb, run_app, run_first_match in Hr by done.
      destruct (IH (length r')) with (w := r') as (ss & -> & Hss); [|done|done|done|].
      { rewrite Eb, !length_app. destruct Hh as (c & -> & _). rewrite length_app. simpl. lia. }
      exists ((h ++ b0) :: ss). split; [by rewrite Eb; simpl; rewrite <- app_assoc|].
      constructor; [|done]. destruct Hf. by apply stmt_trigger.
    + assert (E1 : run 1 (u ++ [tkSEMI]) = 1).
      { rewrite run_app. by destruct Hst as [[-> _]|[[-> _]|[[-> _]|[-> _]]]]. }
      change (u ++ tkSEMI :: r) with (u ++ [tkSEMI] ++ r) in *. rewrite app_assoc in *.
      rewrite run_app, E1 in Hr.
      destruct (IH (length r)) with (w := r) as (ss & -> & Hss); [|done|done|done|].
      { rewrite !length_app. simpl. lia. }
      exists ((u ++ [tkSEMI]) :: ss). split; [done|]. constructor; [|done].
      apply stmt_plain; [done|]. intros h Hh Hp. apply Hno. by exists h.
  - destruct (run_header w Hw Hno) as [[E _]|[_ [[_ ->]|[[E _]|[[E _]|[E _]]]]]]; try congruence.
    exists []. by repeat constructor.
Qed.

(** C30. [sqlite3_complete] always answers, 0 or 1; and it answers 1 exactly when no
    string, bracketed name or C comment is left open and the tokens other than white
    space form one or more complete statements: each runs to its first semicolon,
    except that a statement beginning with
    [EXPLAIN ... CREATE TEMP TRIGGER] runs to its first [;END;]. *)
Theorem complete_correct (z : bytes) :
  exists v, sqlite3_complete z = Some v /\ (v = 0 \/ v = 1) /\
    (v = 1 <-> exists ks ss, ctokens (S (length z)) z = Some ks /\
       ss <> [] /\ Forall stmt ss /\ significant ks = concat ss).
Proof.
  unfold sqlite3_complete. rewrite complete_loop_run by lia. eexists. split; [done|].
  destruct (ctokens (S (length z)) z) as [ks|]; [|split; [by left|]; split; [done|]; intros (? & ? & ? & _); done].
  split; [destruct (_ =? 1); auto|].
  rewrite <- (run_significant 0 ks) by (unfold is_state; lia).
  pose proof (significant_no_ws ks) as Hw. split.
  - destruct (Z.eqb_spec (run 0 (significant ks)) 1) as [E|]; [|done]. intros _.
    destruct (significant ks) as [|k r] eqn:Ek; [done|]. rewrite run_from_0 in E by (by inversion Hw).
    destruct (run_script _ Hw E) as (ss & E2 & Hss). exists ks, ss. rewrite Ek, E2. split_and!; try done.
    intros ->. done.
  - intros (ks' & ss & [= <-] & Hne & Hss & E).
    assert (E1 : run 1 (significant ks) = 1).
    { rewrite E in *. clear E. induction Hss as [|w ss Hw1 Hss IH]; simpl in *; [done|].
      apply Forall_app in Hw as [Hwa Hwb]. rewrite run_app, run_stmt by done.
      destruct ss; [done|]. by apply IH. }
    destruct (significant ks) as [|k r] eqn:Ek.
    + destruct Hss as [|w ss Hw1 Hss]; [done|]. destruct Hw1 as [u|h b (c & -> & _)].
      * by destruct u. * by destruct c.
    + rewrite run_from_0 by (by inversion Hw). by rewrite E1.
Qed.
