(* ===== verification/IntText.v ===== *)
(** * IntText: 64-bit integers and their text (util.c)

    Overflow-checked arithmetic ([sqlite3AddInt64] and the like, the portable code that
    compilers other than GCC use), rendering ([sqlite3Int64ToText]) and parsing
    ([sqlite3Atoi64], [sqlite3DecOrHexToI64], [sqlite3GetInt32], [sqlite3GetUInt32]). *)

From S2P Require Import Prelude CType.

(** ** Checked arithmetic

    Signed overflow is undefined: [ck64] is a signed operation's result when it fits. *)
Definition ck64 (x : Z) : outcome Z :=
  if (SMALLEST_INT64 <=? x) && (x <=? LARGEST_INT64) then Done x else UB.

(** Each returns the C result and [*pA]. *)
Definition sqlite3AddInt64 (iA iB : Z) : outcome (Z * Z) :=
  if 0 <=? iB then
    t ← (if 0 <? iA then r ← ck64 (LARGEST_INT64 - iA); Done (r <? iB) else Done false);
    if (t : bool) then Done (1, iA) else r ← ck64 (iA + iB); Done (0, r)
  else
    t ← (if iA <? 0 then
           r ← ck64 (iA + LARGEST_INT64); r ← ck64 (- r); s ← ck64 (iB + 1); Done (s <? r)
         else Done false);
    if (t : bool) then Done (1, iA) else r ← ck64 (iA + iB); Done (0, r).

Definition sqlite3SubInt64 (iA iB : Z) : outcome (Z * Z) :=
  if iB =? SMALLEST_INT64 then
    if 0 <=? iA then Done (1, iA) else r ← ck64 (iA - iB); Done (0, r)
  else nB ← ck64 (- iB); sqlite3AddInt64 iA nB.

(** C division truncates; [SMALLEST_INT64/-1] would overflow. *)
Definition div64 (a b : Z) : outcome Z := if b =? 0 then UB else ck64 (Z.quot a b).

Definition sqlite3MulInt64 (iA iB : Z) : outcome (Z * Z) :=
  let fits := r ← ck64 (iA * iB); Done (0, r) in
  let over := Done (1, iA) in
  if 0 <? iB then
    q ← div64 LARGEST_INT64 iB;
    if q <? iA then over
    else q ← div64 SMALLEST_INT64 iB; if iA <? q then over else fits
  else if iB <? 0 then
    if 0 <? iA then q ← div64 SMALLEST_INT64 iA; if iB <? q then over else fits
    else if iA <? 0 then
      if iB =? SMALLEST_INT64 then over
      else if iA =? SMALLEST_INT64 then over
      else
        nA ← ck64 (- iA); nB ← ck64 (- iB); q ← div64 LARGEST_INT64 nB;
        if q <? nA then over else fits
    else fits
  else fits.

Definition sqlite3AbsInt32 (x : Z) : Z :=
  if 0 <=? x then x else if x =? - 2 ^ 31 then 0x7fffffff else - x.

(** ** Rendering *)

(** The bytes of [zTemp] from [i+1] on; each turn stores one digit and decrements [i].
    A 64-bit value has at most 20 digits. *)
Fixpoint text_digits (fuel : nat) (x : Z) (zTemp : bytes) : bytes :=
  match fuel with
  | O => zTemp
  | S fuel =>
      let zTemp := (x mod 10 + 48) :: zTemp in
      let x := x / 10 in
      if x =? 0 then zTemp else text_digits fuel x zTemp
  end.

(** The bytes stored at [zOut], the terminator included. *)
Definition sqlite3Int64ToText (v : Z) : bytes :=
  let x := if v <? 0 then if v =? SMALLEST_INT64 then 1 << 63 else u64 (- v) else v in
  let zTemp := text_digits 20 x [0] in
  if v <? 0 then 45 :: zTemp else zTemp.

(** ** Parsing *)

Definition SQLITE_UTF8 : Z := 1.
Definition SQLITE_UTF16LE : Z := 2.
Definition SQLITE_UTF16BE : Z := 3.

Definition pow63 : bytes := [57; 50; 50; 51; 51; 55; 50; 48; 51; 54; 56; 53; 52; 55; 55; 53; 56; 48].

(** [for(i=0; c==0 && i<18; i++){ c = (zNum[i*incr]-pow63[i])*10; }] *)
Fixpoint compare_loop (k : nat) (zNum : bytes) (p incr i c : Z) : Z :=
  match k with
  | O => c
  | S k =>
      if c =? 0 then compare_loop k zNum p incr (i + 1) ((zNum.[p + i * incr] - pow63.[i]) * 10)
      else c
  end.

Definition compare2pow63 (zNum : bytes) (p incr : Z) : Z :=
  let c := compare_loop 18 zNum p incr 0 0 in
  if c =? 0 then zNum.[p + 18 * incr] - 56 else c.

(** While [p<zEnd] and the byte at [p] satisfies [P], add [incr]. *)
Fixpoint scan_while (fuel : nat) (P : Z -> bool) (z : bytes) (p zEnd incr : Z) : Z :=
  match fuel with
  | O => p
  | S fuel => if (p <? zEnd) && P z.[p] then scan_while fuel P z (p + incr) zEnd incr else p
  end.

(** The digit loop: the offset [i] it ends at, and [u], which wraps. *)
Fixpoint digit_loop (fuel : nat) (z : bytes) (p zEnd incr i u : Z) : Z * Z :=
  match fuel with
  | O => (i, u)
  | S fuel =>
      if (p + i <? zEnd) && ((48 <=? z.[p + i]) && (z.[p + i] <=? 57))
      then digit_loop fuel z p zEnd incr (i + incr) (u64 (u * 10 + z.[p + i] - 48))
      else (i, u)
  end.

(** From the skipping of spaces on: [z] is the whole buffer and pointers are offsets
    in it. Returns the C result and [*pNum]. *)
Definition Atoi64_body (z : bytes) (zNum zEnd incr : Z) (nonNum : bool) : Z * Z :=
  let fuel := length z in
  let zNum := scan_while fuel sqlite3Isspace z zNum zEnd incr in
  let '(neg, zNum) :=
    if zNum <? zEnd then
      if z.[zNum] =? 45 then (true, zNum + incr)
      else if z.[zNum] =? 43 then (false, zNum + incr) else (false, zNum)
    else (false, zNum) in
  let zStart := zNum in
  let zNum := scan_while fuel (Z.eqb 48) z zNum zEnd incr in
  let '(i, u) := digit_loop fuel z zNum zEnd incr 0 0 in
  let pNum :=
    if LARGEST_INT64 <? u then (if neg : bool then SMALLEST_INT64 else LARGEST_INT64)
    else if neg : bool then - u else u in
  let rc :=
    if (i =? 0) && (zStart =? zNum) then -1
    else if nonNum then 1
    else if zNum + i <? zEnd then
      (* the do-while looks for a byte that is not a space *)
      if scan_while fuel sqlite3Isspace z (zNum + i) zEnd incr <? zEnd then 1 else 0
    else 0 in
  if i <? 19 * incr then (rc, pNum)
  else
    let c := if 19 * incr <? i then 1 else compare2pow63 z zNum incr in
    if c <? 0 then (rc, pNum)
    else
      let pNum := if neg : bool then SMALLEST_INT64 else LARGEST_INT64 in
      if 0 <? c then (2, pNum) else (if neg : bool then rc else 3, pNum).

(** [for(i=3-enc; i<length && zNum[i]==0; i+=2){}] *)
Definition high_bytes (z : bytes) (length enc : Z) : Z :=
  scan_while (Datatypes.length z) (Z.eqb 0) z (3 - enc) length 2.

Definition sqlite3Atoi64 (zNum : bytes) (length enc : Z) : Z * Z :=
  if enc =? SQLITE_UTF8 then Atoi64_body zNum 0 length 1 false
  else
    let length := length .& Z.lnot 1 in
    let i := high_bytes zNum length enc in
    Atoi64_body zNum (enc .& 1) (i .^ 1) 2 (i <? length).

(** [for(k=i; sqlite3Isxdigit(z[k]); k++){ u = u*16 + hex(z[k]); }] *)
Fixpoint hex_loop (l : bytes) (u : Z) : Z :=
  match l with
  | c :: r => if sqlite3Isxdigit c then hex_loop r (u64 (u * 16 + sqlite3HexToInt c)) else u
  | [] => u
  end.

Definition sqlite3Strlen30 (z : bytes) : Z := span_len (fun c => negb (c =? 0)) z .& 0x3fffffff.

Definition sqlite3DecOrHexToI64 (z : bytes) : Z * Z :=
  if (z.[0] =? 48) && ((z.[1] =? 120) || (z.[1] =? 88)) then
    let i := skip (Z.eqb 48) z 2 in
    let k := skip sqlite3Isxdigit z i in
    let u := hex_loop (drop (Z.to_nat i) z) 0 in
    (if (z.[k] =? 0) && (k - i <=? 16) then 0 else 2, i64 u)
  else sqlite3Atoi64 z (sqlite3Strlen30 z) SQLITE_UTF8.

(** [for(i=0; i<max && digit(z[i]); i++){ v = v*base + digit }] with the count. *)
Fixpoint hex8_loop (max : nat) (l : bytes) (i u : Z) : Z * Z :=
  match max, l with
  | S max, c :: r =>
      if sqlite3Isxdigit c then hex8_loop max r (i + 1) (u32 (u * 16 + sqlite3HexToInt c)) else (i, u)
  | _, _ => (i, u)
  end.
Fixpoint dec11_loop (max : nat) (l : bytes) (i v : Z) : Z * Z :=
  match max, l with
  | S max, c :: r =>
      if (0 <=? c - 48) && (c - 48 <=? 9) then dec11_loop max r (i + 1) (v * 10 + (c - 48)) else (i, v)
  | _, _ => (i, v)
  end.

(** From the sign on: the decimal case. *)
Definition GetInt32_decimal (zNum : bytes) (neg : Z) : option Z :=
  if negb (sqlite3Isdigit zNum.[0]) then None
  else
    let zNum := drop (Z.to_nat (skip (Z.eqb 48) zNum 0)) zNum in
    let (i, v) := dec11_loop 11 zNum 0 0 in
    if 10 <? i then None
    else if 2147483647 <? v - neg then None
    else Some (i32 (if neg =? 0 then v else - v)).

(** [Some] of the value written when the function returns 1. *)
Definition sqlite3GetInt32 (zNum : bytes) : option Z :=
  if zNum.[0] =? 45 then GetInt32_decimal (drop 1 zNum) 1
  else if zNum.[0] =? 43 then GetInt32_decimal (drop 1 zNum) 0
  else if (zNum.[0] =? 48) && ((zNum.[1] =? 120) || (zNum.[1] =? 88)) && sqlite3Isxdigit zNum.[2] then
    let zNum := drop (Z.to_nat (skip (Z.eqb 48) zNum 2)) zNum in
    let (i, u) := hex8_loop 8 zNum 0 0 in
    if (u .& 0x80000000 =? 0) && negb (sqlite3Isxdigit zNum.[i]) then Some u else None
  else GetInt32_decimal zNum 0.

Definition sqlite3Atoi (z : bytes) : Z := default 0 (sqlite3GetInt32 z).

(** The C result and [*pI]. *)
Fixpoint GetUInt32_loop (l : bytes) (i v : Z) : Z * Z :=
  match l with
  | c :: r =>
      if sqlite3Isdigit c then
        let v := u64 (v * 10 + c - 48) in
        if 4294967296 <? v then (0, 0) else GetUInt32_loop r (i + 1) v
      else if (i =? 0) || negb (c =? 0) then (0, 0) else (1, u32 v)
  | [] => if i =? 0 then (0, 0) else (1, u32 v)
  end.
Definition sqlite3GetUInt32 (z : bytes) : Z * Z := GetUInt32_loop z 0 0.

(** ** Exactness of the arithmetic *)

Definition fits64 (x : Z) : bool := (SMALLEST_INT64 <=? x) && (x <=? LARGEST_INT64).

(** The specification of the three: the mathematical result when it fits. *)
Definition exact64 (iA r : Z) : outcome (Z * Z) := Done (if fits64 r then (0, r) else (1, iA)).

Lemma fits64_true x : - 2 ^ 63 <= x < 2 ^ 63 -> fits64 x = true.
Proof. intros. unfold fits64, SMALLEST_INT64, LARGEST_INT64. lia. Qed.

Lemma fits64_false x : ~ (- 2 ^ 63 <= x < 2 ^ 63) -> fits64 x = false.
Proof. intros. unfold fits64, SMALLEST_INT64, LARGEST_INT64. lia. Qed.

Lemma ck64_ok x : - 2 ^ 63 <= x < 2 ^ 63 -> ck64 x = Done x.
Proof. intros H. unfold ck64. by rewrite (fits64_true x H : (_ && _) = true). Qed.

Lemma exact64_fits a r : - 2 ^ 63 <= r < 2 ^ 63 -> exact64 a r = Done (0, r).
Proof. intros. unfold exact64. by rewrite fits64_true. Qed.

Lemma exact64_over a r : ~ (- 2 ^ 63 <= r < 2 ^ 63) -> exact64 a r = Done (1, a).
Proof. intros. unfold exact64. by rewrite fits64_false. Qed.

Lemma le_div_iff a b c : 0 < b -> (a <= c / b <-> a * b <= c).
Proof. intros Hb. pose proof (Z.div_mod c b ltac:(lia)). pose proof (Z.mod_pos_bound c b Hb). nia. Qed.

Lemma div64_pos b : 0 < b < 2 ^ 63 -> div64 LARGEST_INT64 b = Done (LARGEST_INT64 / b).
Proof.
  intros Hb. unfold div64. rewrite (proj2 (Z.eqb_neq b 0)) by lia.
  rewrite Z.quot_div_nonneg by (unfold LARGEST_INT64; lia). apply ck64_ok.
  pose proof (Z.div_pos LARGEST_INT64 b). pose proof (Z.div_le_upper_bound LARGEST_INT64 b LARGEST_INT64).
  unfold LARGEST_INT64 in *. nia.
Qed.

Lemma div64_smallest b : 0 < b < 2 ^ 63 -> div64 SMALLEST_INT64 b = Done (- (2 ^ 63 / b)).
Proof.
  intros Hb. unfold div64. rewrite (proj2 (Z.eqb_neq b 0)) by lia.
  unfold SMALLEST_INT64. rewrite Z.quot_opp_l, Z.quot_div_nonneg by lia. apply ck64_ok.
  pose proof (Z.div_pos (2 ^ 63) b). pose proof (Z.div_le_upper_bound (2 ^ 63) b (2 ^ 63)). nia.
Qed.

Lemma AddInt64_exact a b : in_i 64 a -> in_i 64 b -> sqlite3AddInt64 a b = exact64 a (a + b).
Proof.
  unfold in_i. intros Ha Hb. unfold sqlite3AddInt64, SMALLEST_INT64, LARGEST_INT64.
  destruct (Z.leb_spec 0 b).
  - destruct (Z.ltb_spec 0 a); [rewrite (ck64_ok (_ - a)) by lia|]; cbn [mbind outcome_bind].
    + destruct (Z.ltb_spec (2 ^ 63 - 1 - a) b); [by rewrite exact64_over by lia|].
      by rewrite exact64_fits, ck64_ok by lia.
    + by rewrite exact64_fits, ck64_ok by lia.
  - destruct (Z.ltb_spec a 0); [rewrite (ck64_ok (a + (2 ^ 63 - 1))) by lia|]; cbn [mbind outcome_bind].
    + rewrite (ck64_ok (- _)), (ck64_ok (b + 1)) by lia; cbn [mbind outcome_bind].
      destruct (Z.ltb_spec (b + 1) (- (a + (2 ^ 63 - 1)))); [by rewrite exact64_over by lia|].
      by rewrite exact64_fits, ck64_ok by lia.
    + by rewrite exact64_fits, ck64_ok by lia.
Qed.

Lemma SubInt64_exact a b : in_i 64 a -> in_i 64 b -> sqlite3SubInt64 a b = exact64 a (a - b).
Proof.
  intros Ha Hb. unfold sqlite3SubInt64. destruct (Z.eqb_spec b SMALLEST_INT64) as [->|Hne].
  - unfold in_i, SMALLEST_INT64 in *. destruct (Z.leb_spec 0 a); [by rewrite exact64_over by lia|].
    by rewrite exact64_fits, ck64_ok by lia.
  - unfold in_i, SMALLEST_INT64 in *. rewrite ck64_ok by lia; cbn [mbind outcome_bind].
    rewrite AddInt64_exact by (unfold in_i; lia). done.
Qed.

(** A product with a positive factor compared with the bounds, through the quotients. *)
Lemma mul_pos_cases a b (over fits : outcome (Z * Z)) :
  0 < b < 2 ^ 63 ->
  (if LARGEST_INT64 / b <? a then over else if a <? - (2 ^ 63 / b) then over else fits) =
  if fits64 (a * b) then fits else over.
Proof.
  intros Hb. pose proof (le_div_iff a b LARGEST_INT64 ltac:(lia)) as H1.
  pose proof (le_div_iff (- a) b (2 ^ 63) ltac:(lia)) as H2. unfold fits64.
  unfold LARGEST_INT64, SMALLEST_INT64 in *.
  destruct (Z.ltb_spec ((2 ^ 63 - 1) / b) a), (Z.ltb_spec a (- (2 ^ 63 / b))),
    (Z.leb_spec (- 2 ^ 63) (a * b)), (Z.leb_spec (a * b) (2 ^ 63 - 1)); simpl; done || lia.
Qed.

Lemma MulInt64_exact a b : in_i 64 a -> in_i 64 b -> sqlite3MulInt64 a b = exact64 a (a * b).
Proof.
  unfold in_i. intros Ha Hb. unfold sqlite3MulInt64.
  assert (Hfit : forall x, fits64 x = true -> (r ← ck64 x; Done (0, r)) = Done (0, x)).
  { intros x Hx. unfold ck64. by rewrite (Hx : (_ && _) = true). }
  assert (Hif : forall x, (if fits64 x then r ← ck64 x; Done (0, r) else Done (1, a)) = exact64 a x).
  { intros x. unfold exact64. destruct (fits64 x) eqn:E; [by apply Hfit|done]. }
  destruct (Z.ltb_spec 0 b).
  - rewrite div64_pos, div64_smallest by lia; cbn [mbind outcome_bind].
    rewrite mul_pos_cases by lia. apply Hif.
  - destruct (Z.ltb_spec b 0); [|assert (b = 0) as -> by lia; rewrite Z.mul_0_r; by rewrite Hfit].
    destruct (Z.ltb_spec 0 a).
    + rewrite div64_smallest by lia; cbn [mbind outcome_bind].
      rewrite <- Hif, Z.mul_comm, <- (mul_pos_cases b a) by lia.
      destruct (Z.ltb_spec (LARGEST_INT64 / a) b); [|done].
      pose proof (Z.div_pos LARGEST_INT64 a). unfold LARGEST_INT64 in *. lia.
    + destruct (Z.ltb_spec a 0); [|assert (a = 0) as -> by lia; by rewrite Hfit].
      destruct (Z.eqb_spec b SMALLEST_INT64) as [->|].
      { rewrite exact64_over; [done|]. unfold SMALLEST_INT64. nia. }
      destruct (Z.eqb_spec a SMALLEST_INT64) as [->|].
      { rewrite exact64_over; [done|]. unfold SMALLEST_INT64. nia. }
      unfold SMALLEST_INT64 in *. rewrite (ck64_ok (- a)), (ck64_ok (- b)) by lia; cbn [mbind outcome_bind].
      rewrite div64_pos by lia; cbn [mbind outcome_bind].
      rewrite <- Hif. replace (a * b) with ((- a) * (- b)) by lia.
      rewrite <- (mul_pos_cases (- a) (- b)) by lia.
      destruct (LARGEST_INT64 / - b <? - a); [done|].
      destruct (Z.ltb_spec (- a) (- (2 ^ 63 / - b))); [|f_equal; f_equal; lia].
      pose proof (Z.div_pos (2 ^ 63) (- b)). lia.
Qed.

(** C38. The portable overflow-checked operations are exact: for all 64-bit operands no
    intermediate operation overflows, the result is 0 with the mathematical sum,
    difference or product when it fits in 64 bits, and 1 with [*pA] unchanged when it
    does not. *)
Theorem int64_arith_exact (iA iB : Z) :
  in_i 64 iA -> in_i 64 iB ->
  sqlite3AddInt64 iA iB = exact64 iA (iA + iB) /\
  sqlite3SubInt64 iA iB = exact64 iA (iA - iB) /\
  sqlite3MulInt64 iA iB = exact64 iA (iA * iB).
Proof. auto using AddInt64_exact, SubInt64_exact, MulInt64_exact. Qed.

Lemma int64_arith_exact_witness :
  sqlite3AddInt64 LARGEST_INT64 1 = exact64 LARGEST_INT64 (LARGEST_INT64 + 1) /\
  sqlite3SubInt64 LARGEST_INT64 1 = exact64 LARGEST_INT64 (LARGEST_INT64 - 1) /\
  sqlite3MulInt64 LARGEST_INT64 1 = exact64 LARGEST_INT64 (LARGEST_INT64 * 1).
Proof. apply (int64_arith_exact LARGEST_INT64 1); vm_compute; split; congruence. Defined.

(** ** What sqlite3Atoi64 computes *)

Definition isdig (c : Z) : bool := (48 <=? c) && (c <=? 57).
Definition take_span (P : Z -> bool) (t : bytes) : bytes := take (Z.to_nat (span_len P t)) t.
Definition drop_span (P : Z -> bool) (t : bytes) : bytes := drop (Z.to_nat (span_len P t)) t.

(** The value of a list of digits, unbounded, after [u]. *)
Definition dec_val (u : Z) (ds : bytes) : Z := fold_left (fun a c => a * 10 + (c - 48)) ds u.

Definition clamp64 (v : Z) : Z := Z.max SMALLEST_INT64 (Z.min v LARGEST_INT64).

(** The reference: spaces, a sign, digits, then the rest; [nonNum] says that the text was
    cut at a non-ASCII UTF-16 unit. *)
Definition atoi64_spec (t : bytes) (nonNum : bool) : Z * Z :=
  let t := drop_span sqlite3Isspace t in
  let neg := t.[0] =? 45 in
  let t := if (t.[0] =? 45) || (t.[0] =? 43) then drop 1 t else t in
  let ds := take_span isdig t in
  let N := dec_val 0 ds in
  let rc :=
    if bool_decide (ds = []) then -1
    else if nonNum then 1
    else if forallb sqlite3Isspace (drop_span isdig t) then 0 else 1 in
  (if 2 ^ 63 <? N then 2 else if (N =? 2 ^ 63) && negb neg then 3 else rc,
   clamp64 (if neg then - N else N)).

Lemma span_len_bounds P t : 0 <= span_len P t <= len t.
Proof. induction t as [|c t IH]; simpl; [lia|]. destruct (P c); lia. Qed.

Lemma dec_val_acc u ds : dec_val u ds = u * 10 ^ len ds + dec_val 0 ds.
Proof.
  revert u. induction ds as [|c ds IH]; intros u; [simpl; lia|].
  change (dec_val u (c :: ds)) with (dec_val (u * 10 + (c - 48)) ds).
  change (dec_val 0 (c :: ds)) with (dec_val (0 * 10 + (c - 48)) ds).
  rewrite (IH (u * 10 + _)), (IH (0 * 10 + _)).
  simpl length. rewrite Nat2Z.inj_succ, Z.pow_succ_r by lia. lia.
Qed.

Lemma dec_val_bounds ds : Forall (fun c => isdig c = true) ds -> 0 <= dec_val 0 ds < 10 ^ len ds.
Proof.
  induction 1 as [|c ds Hc Hds IH]; [simpl; unfold dec_val; simpl; lia|].
  change (dec_val 0 (c :: ds)) with (dec_val (0 * 10 + (c - 48)) ds). rewrite dec_val_acc.
  unfold isdig in Hc. simpl length. rewrite Nat2Z.inj_succ, Z.pow_succ_r by lia. nia.
Qed.

Lemma dec_val_cons c ds : dec_val 0 (c :: ds) = (c - 48) * 10 ^ len ds + dec_val 0 ds.
Proof. change (dec_val 0 (c :: ds)) with (dec_val (0 * 10 + (c - 48)) ds). rewrite dec_val_acc. lia. Qed.

Lemma dec_val_app u a b : dec_val u (a ++ b) = dec_val (dec_val u a) b.
Proof. apply fold_left_app. Qed.

Lemma take_span_all P t : Forall (fun c => P c = true) (take_span P t).
Proof.
  unfold take_span. induction t as [|c t IH]; [constructor|]. cbn [span_len].
  destruct (P c) eqn:E; [|constructor]. pose proof (span_len_bounds P t).
  replace (Z.to_nat (1 + span_len P t)) with (S (Z.to_nat (span_len P t))) by lia.
  by constructor.
Qed.

Lemma length_take_span P t : len (take_span P t) = span_len P t.
Proof. unfold take_span. rewrite length_take. pose proof (span_len_bounds P t). lia. Qed.

Lemma span_len_cons P c t : span_len P (c :: t) = if P c then 1 + span_len P t else 0.
Proof. done. Qed.

Lemma drop_span_cons P c t : drop_span P (c :: t) = if P c then drop_span P t else c :: t.
Proof.
  unfold drop_span. cbn [span_len]. destruct (P c); [|done]. pose proof (span_len_bounds P t).
  by replace (Z.to_nat (1 + span_len P t)) with (S (Z.to_nat (span_len P t))) by lia.
Qed.

Lemma take_span_cons P c t : take_span P (c :: t) = if P c then c :: take_span P t else [].
Proof.
  unfold take_span. cbn [span_len]. destruct (P c); [|done]. pose proof (span_len_bounds P t).
  by replace (Z.to_nat (1 + span_len P t)) with (S (Z.to_nat (span_len P t))) by lia.
Qed.

(** Leading zeros are digits. *)
Lemma zeros_digits t :
  take_span isdig t = take_span (Z.eqb 48) t ++ take_span isdig (drop_span (Z.eqb 48) t) /\
  drop_span isdig t = drop_span isdig (drop_span (Z.eqb 48) t) /\
  dec_val 0 (take_span (Z.eqb 48) t) = 0 /\ (drop_span (Z.eqb 48) t).[0] <> 48.
Proof.
  induction t as [|c t (IH1 & IH2 & IH3 & IH4)]; [done|].
  rewrite !take_span_cons, !drop_span_cons. destruct (Z.eqb_spec 48 c) as [<-|Hne].
  - change (isdig 48) with true. split_and!; [by rewrite IH1|by rewrite IH2|exact IH3|exact IH4].
  - split_and!; [by rewrite take_span_cons|by rewrite drop_span_cons|done|].
    rewrite ld_cons_0. done.
Qed.

(** ** The buffer of any encoding, seen as text *)

Section view.
Context (z t : bytes) (off incr : Z) (Hincr : 0 < incr).
Hypothesis Hview : forall k, 0 <= k < len t -> z.[off + k * incr] = t.[k].
Hypothesis Hfuel : (length t <= length z)%nat.
Abbreviation zEnd := (off + len t * incr).
Abbreviation at_ k := (drop (Z.to_nat k) t).

Lemma before_end k : (off + k * incr <? zEnd) = (k <? len t).
Proof. destruct (Z.ltb_spec k (len t)); [apply Z.ltb_lt|apply Z.ltb_ge]; nia. Qed.

Lemma scan_view P k fuel :
  0 <= k <= len t -> (Z.to_nat (len t - k) <= fuel)%nat ->
  scan_while fuel P z (off + k * incr) zEnd incr = off + (k + span_len P (at_ k)) * incr.
Proof.
  revert k. induction fuel as [|fuel IH]; intros k Hk Hf; cbn [scan_while].
  - rewrite drop_ge by lia. simpl. lia.
  - rewrite before_end. destruct (Z.ltb_spec k (len t)); simpl; [|rewrite drop_ge by lia; simpl; lia].
    rewrite Hview by lia. rewrite (drop_ld t k) by lia. cbn [span_len]. destruct (P t.[k]); [|lia].
    replace (off + k * incr + incr) with (off + (k + 1) * incr) by lia. rewrite IH by lia. lia.
Qed.

Lemma digit_view k j u fuel :
  0 <= k -> 0 <= j -> k + j <= len t -> (Z.to_nat (len t - (k + j)) <= fuel)%nat ->
  digit_loop fuel z (off + k * incr) zEnd incr (j * incr) (u64 u) =
    ((j + span_len isdig (at_ (k + j))) * incr, u64 (dec_val u (take_span isdig (at_ (k + j))))).
Proof.
  revert j u. induction fuel as [|fuel IH]; intros j u Hk Hj Hn Hf; cbn [digit_loop].
  - rewrite drop_ge by lia. simpl. f_equal; lia.
  - replace (off + k * incr + j * incr) with (off + (k + j) * incr) by lia. rewrite before_end.
    destruct (Z.ltb_spec (k + j) (len t)); simpl; [|rewrite drop_ge by lia; simpl; f_equal; lia].
    rewrite Hview, (drop_ld t (k + j)) by lia. rewrite take_span_cons. cbn [span_len].
    unfold isdig at 1 3. destruct (_ && _); [|simpl; f_equal; lia].
    replace (j * incr + incr) with ((j + 1) * incr) by lia.
    replace (u64 (u64 u * 10 + t.[k + j] - 48)) with (u64 (u * 10 + (t.[k + j] - 48))).
    + rewrite IH by lia. replace (k + (j + 1)) with (k + j + 1) by lia. f_equal. lia.
    + unfold u64. rewrite <- Z.add_sub_assoc, <- (Zplus_mod_idemp_l (u mod 2 ^ 64 * 10)).
      by rewrite Zmult_mod_idemp_l, Zplus_mod_idemp_l.
Qed.
End view.

(** ** compare2pow63 *)

Fixpoint first_diff (a b : bytes) : Z :=
  match a, b with
  | x :: a, y :: b => if x - y =? 0 then first_diff a b else x - y
  | _, _ => 0
  end.

Lemma first_diff_val a b :
  Forall (fun c => isdig c = true) a -> Forall (fun c => isdig c = true) b -> length a = length b ->
  Z.sgn (first_diff a b) = Z.sgn (dec_val 0 a - dec_val 0 b).
Proof.
  intros Ha. revert b. induction Ha as [|x a Hx Ha IH]; intros b Hb Hl.
  - destruct b; done.
  - destruct Hb as [|y b Hy Hb]; [done|]. simpl in Hl. injection Hl as Hl. cbn [first_diff].
    rewrite !dec_val_cons, Hl. pose proof (dec_val_bounds a Ha) as Ba. pose proof (dec_val_bounds b Hb) as Bb.
    rewrite Hl in Ba. unfold isdig in Hx, Hy. destruct (Z.eqb_spec (x - y) 0).
    + rewrite (IH b Hb Hl). f_equal. replace x with y by lia. lia.
    + destruct (Z.lt_ge_cases (x - y) 0); [rewrite !Z.sgn_neg by nia|rewrite !Z.sgn_pos by nia]; done.
Qed.

Lemma compare_loop_stop k z p incr i c : c <> 0 -> compare_loop k z p incr i c = c.
Proof. intros Hc. destruct k; simpl; [done|]. by rewrite (proj2 (Z.eqb_neq c 0)). Qed.

Lemma compare_loop_diff k z p incr i a :
  (forall j, 0 <= j < len a -> z.[p + (i + j) * incr] = a.[j]) -> len a = Z.of_nat k ->
  0 <= i -> i + Z.of_nat k = 18 ->
  Z.sgn (compare_loop k z p incr i 0) = Z.sgn (first_diff a (drop (Z.to_nat i) pow63)).
Proof.
  revert i a. induction k as [|k IH]; intros i a Hz Hl Hi Hk.
  - destruct a; [done|simpl in Hl; lia].
  - destruct a as [|x a]; [simpl in Hl; lia|]. cbn [compare_loop]. change (0 =? 0) with true. cbv iota.
    rewrite (drop_ld pow63 i) by (simpl; lia). cbn [first_diff].
    pose proof (Hz 0 ltac:(simpl; lia)) as E. rewrite Z.add_0_r in E. rewrite E, ld_cons_0.
    destruct (Z.eqb_spec (x - pow63.[i]) 0) as [E0|E0].
    + rewrite E0. simpl (0 * 10). apply IH; [|simpl in Hl; lia|lia|lia].
      intros j Hj. replace (i + 1 + j) with (i + (j + 1)) by lia. rewrite Hz by (simpl; lia).
      by rewrite ld_cons_S by lia.
    + rewrite compare_loop_stop by lia. rewrite Z.sgn_mul. simpl. lia.
Qed.

Lemma compare2pow63_sgn z p incr ds :
  Forall (fun c => isdig c = true) ds -> len ds = 19 ->
  (forall j, 0 <= j < 19 -> z.[p + j * incr] = ds.[j]) ->
  Z.sgn (compare2pow63 z p incr) = Z.sgn (dec_val 0 ds - 2 ^ 63).
Proof.
  intros Hd Hl Hz. unfold compare2pow63.
  assert (E : ds = take 18 ds ++ [ds.[18]]).
  { rewrite <- (take_drop 18 ds) at 1. f_equal. change 18%nat with (Z.to_nat 18).
    rewrite drop_ld by lia. rewrite drop_ge by lia. done. }
  set (A := take 18 ds) in *. set (x := ds.[18]) in *.
  rewrite E in Hd. apply Forall_app in Hd as [HA Hx]. inversion_clear Hx as [|? ? Hx' _].
  assert (HlA : len A = 18) by (unfold A; rewrite length_take; lia).
  pose proof (compare_loop_diff 18 z p incr 0 A) as C. rewrite HlA in C.
  specialize (C ltac:(intros j Hj; rewrite Z.add_0_l, Hz, E, ld_app_l by lia; done) ltac:(lia) ltac:(lia) ltac:(lia)).
  rewrite first_diff_val in C by (done || (repeat constructor) || (simpl; lia)).
  change (drop (Z.to_nat 0) pow63) with pow63 in C.
  change (dec_val 0 pow63) with 922337203685477580 in C.
  rewrite E, dec_val_app. change (dec_val (dec_val 0 A) [x]) with (dec_val 0 A * 10 + (x - 48)).
  unfold isdig in Hx'. rewrite (Hz 18) by lia. fold x.
  destruct (Z.eqb_spec (compare_loop 18 z p incr 0 0) 0) as [E0|E0].
  - rewrite E0 in C. simpl in C. f_equal. lia.
  - rewrite C. destruct (Z.lt_ge_cases (dec_val 0 A) 922337203685477580).
    + rewrite !Z.sgn_neg by lia. done.
    + rewrite !Z.sgn_pos by lia. done.
Qed.

Lemma span_len_lt P l : (span_len P l <? len l) = negb (forallb P l).
Proof.
  induction l as [|c l IH]; [done|]. cbn [span_len forallb]. pose proof (span_len_bounds P l).
  destruct (P c); simpl negb; [|apply Z.ltb_lt; simpl; lia].
  simpl in *. rewrite <- IH. destruct (Z.ltb_spec (span_len P l) (len l));
    [apply Z.ltb_lt|apply Z.ltb_ge]; lia.
Qed.

Lemma ld_drop_span P (t : bytes) k : 0 <= k -> (drop_span P t).[k] = t.[span_len P t + k].
Proof. intros. unfold drop_span. apply ld_drop; [apply span_len_bounds|done]. Qed.

Lemma clamp64_id v : - 2 ^ 63 <= v < 2 ^ 63 -> clamp64 v = v.
Proof. intros. unfold clamp64, SMALLEST_INT64, LARGEST_INT64. lia. Qed.

Lemma clamp64_big (neg : bool) N :
  2 ^ 63 <= N -> clamp64 (if neg then - N else N) = if neg then SMALLEST_INT64 else LARGEST_INT64.
Proof. intros. unfold clamp64, SMALLEST_INT64, LARGEST_INT64. destruct neg; lia. Qed.

(** The tail of the routine, from the start of the digits at offset [k]. *)
Definition atoi64_tail (z : bytes) (fuel : nat) (neg nonNum : bool) (zNum zEnd incr : Z) : Z * Z :=
  let zStart := zNum in
  let zNum := scan_while fuel (Z.eqb 48) z zNum zEnd incr in
  let '(i, u) := digit_loop fuel z zNum zEnd incr 0 0 in
  let pNum :=
    if LARGEST_INT64 <? u then (if neg then SMALLEST_INT64 else LARGEST_INT64)
    else if neg then - u else u in
  let rc :=
    if (i =? 0) && (zStart =? zNum) then -1
    else if nonNum then 1
    else if zNum + i <? zEnd then
      if scan_while fuel sqlite3Isspace z (zNum + i) zEnd incr <? zEnd then 1 else 0
    else 0 in
  if i <? 19 * incr then (rc, pNum)
  else
    let c := if 19 * incr <? i then 1 else compare2pow63 z zNum incr in
    if c <? 0 then (rc, pNum)
    else
      let pNum := if neg then SMALLEST_INT64 else LARGEST_INT64 in
      if 0 <? c then (2, pNum) else (if neg then rc else 3, pNum).

(** A digit string that does not start with 0 is as large as its length says. *)
Lemma digits_low r :
  r.[0] <> 48 -> 0 < span_len isdig r -> 10 ^ (span_len isdig r - 1) <= dec_val 0 (take_span isdig r).
Proof.
  destruct r as [|c r]; [simpl; lia|]. rewrite ld_cons_0, take_span_cons. cbn [span_len].
  destruct (isdig c) eqn:Ec; [|lia]. intros H48 _. rewrite dec_val_cons, length_take_span.
  pose proof (dec_val_bounds _ (take_span_all isdig r)). unfold isdig in Ec.
  pose proof (Z.pow_nonneg 10 (span_len isdig r)).
  replace (1 + span_len isdig r - 1) with (span_len isdig r) by lia. nia.
Qed.

(** The value decision at the end, for [m] digits of value [N] whose comparison is [c]. *)
Lemma overflow_decision (neg : bool) incr m N rc c :
  0 < incr -> 0 <= m -> 0 <= N < 10 ^ m -> (0 < m -> 10 ^ (m - 1) <= N) ->
  (m = 19 -> Z.sgn c = Z.sgn (N - 2 ^ 63)) ->
  (let pNum := if LARGEST_INT64 <? u64 N then (if neg then SMALLEST_INT64 else LARGEST_INT64)
               else if neg then - u64 N else u64 N in
   if m * incr <? 19 * incr then (rc, pNum)
   else
     let c := if 19 * incr <? m * incr then 1 else c in
     if c <? 0 then (rc, pNum)
     else
       let pNum := if neg then SMALLEST_INT64 else LARGEST_INT64 in
       if 0 <? c then (2, pNum) else (if neg then rc else 3, pNum)) =
  (if 2 ^ 63 <? N then 2 else if (N =? 2 ^ 63) && negb neg then 3 else rc,
   clamp64 (if neg then - N else N)).
Proof.
  intros Hi Hm Hb Hlow Hc. cbv zeta.
  assert (Small : N < 2 ^ 63 -> (rc, if LARGEST_INT64 <? u64 N then (if neg then SMALLEST_INT64 else LARGEST_INT64)
       else if neg then - u64 N else u64 N) =
    (if 2 ^ 63 <? N then 2 else if (N =? 2 ^ 63) && negb neg then 3 else rc,
     clamp64 (if neg then - N else N))).
  { intros HN. rewrite u64_id by lia. rewrite (proj2 (Z.ltb_ge LARGEST_INT64 N)) by (unfold LARGEST_INT64; lia).
    rewrite (proj2 (Z.ltb_ge (2 ^ 63) N)), (proj2 (Z.eqb_neq N (2 ^ 63))) by lia. simpl andb. cbv iota.
    f_equal. rewrite clamp64_id by (destruct neg; lia). done. }
  destruct (Z.ltb_spec (m * incr) (19 * incr)) as [Hlt|Hge].
  - apply Small. assert (10 ^ m <= 10 ^ 18) by (apply Z.pow_le_mono_r; nia). lia.
  - destruct (Z.ltb_spec (19 * incr) (m * incr)) as [Hgt|Hle].
    + assert (10 ^ 19 <= 10 ^ (m - 1)) by (apply Z.pow_le_mono_r; nia).
      specialize (Hlow ltac:(nia)). rewrite (proj2 (Z.ltb_lt (2 ^ 63) N)) by lia. simpl.
      by rewrite clamp64_big by lia.
    + specialize (Hc ltac:(nia)). destruct (Z.ltb_spec c 0) as [H0|H0].
      { apply Small. rewrite Z.sgn_neg in Hc by lia. lia. }
      rewrite clamp64_big by lia. destruct (Z.ltb_spec 0 c) as [H1|H1].
      * rewrite (proj2 (Z.ltb_lt (2 ^ 63) N)) by lia. done.
      * assert (N = 2 ^ 63) as -> by lia. rewrite Z.ltb_irrefl, Z.eqb_refl. by destruct neg.
Qed.

Section tail.
Context (z t : bytes) (off incr : Z) (Hincr : 0 < incr).
Hypothesis Hview : forall k, 0 <= k < len t -> z.[off + k * incr] = t.[k].
Hypothesis Hfuel : (length t <= length z)%nat.

(** The return code before the overflow test: [m0] zeros and [m] digits from [k] on. *)
Lemma tail_rc (nonNum : bool) k :
  0 <= k <= len t ->
  let r := drop (Z.to_nat k) t in
  let m0 := span_len (Z.eqb 48) r in let m := span_len isdig (drop_span (Z.eqb 48) r) in
  (if (m * incr =? 0) && (off + k * incr =? off + (k + m0) * incr) then -1
   else if nonNum then 1
   else if off + (k + m0) * incr + m * incr <? off + len t * incr then
     if scan_while (length z) sqlite3Isspace z (off + (k + m0) * incr + m * incr)
          (off + len t * incr) incr <? off + len t * incr then 1 else 0
   else 0) =
  (if bool_decide (take_span isdig r = []) then -1
   else if nonNum then 1
   else if forallb sqlite3Isspace (drop_span isdig r) then 0 else 1).
Proof.
  intros Hk r m0 m. destruct (zeros_digits r) as (Z1 & Z2 & _).
  pose proof (span_len_bounds (Z.eqb 48) r) as Hm0. fold m0 in Hm0.
  set (r' := drop_span (Z.eqb 48) r) in *. pose proof (span_len_bounds isdig r') as Hm. fold m in Hm.
  assert (Hlr : len r = len t - k) by (unfold r; rewrite length_drop; lia).
  assert (Hlr' : len r' = len r - m0) by (unfold r', drop_span; rewrite length_drop; fold m0; lia).
  assert (E1 : (m * incr =? 0) && (off + k * incr =? off + (k + m0) * incr) =
    bool_decide (take_span isdig r = [])).
  { assert (EL : len (take_span isdig r) = m0 + m)
      by (rewrite Z1, length_app, Nat2Z.inj_add, !length_take_span; fold r'; lia).
    apply eq_true_iff_eq. rewrite andb_true_iff, !Z.eqb_eq, bool_decide_eq_true. split.
    - intros [H1 H2]. apply nil_length_inv. nia.
    - intros H. rewrite H in EL. simpl in EL. split; nia. }
  rewrite E1, Z2. destruct (bool_decide _); [done|]. destruct nonNum; [done|].
  replace (off + (k + m0) * incr + m * incr) with (off + (k + m0 + m) * incr) by lia.
  assert (Ed : drop (Z.to_nat (k + m0 + m)) t = drop_span isdig r').
  { change (drop_span isdig r') with (drop (Z.to_nat m) (drop (Z.to_nat m0) (drop (Z.to_nat k) t))).
    rewrite !drop_drop. f_equal. lia. }
  rewrite (before_end z t off incr Hincr Hfuel), (scan_view z t off incr Hincr Hview Hfuel), Ed by lia.
  rewrite (before_end z t off incr Hincr Hfuel).
  assert (Hl : len (drop_span isdig r') = len t - (k + m0 + m)) by (rewrite <- Ed, length_drop; lia).
  pose proof (span_len_lt sqlite3Isspace (drop_span isdig r')) as Hs. rewrite Hl in Hs.
  destruct (Z.ltb_spec (k + m0 + m) (len t)).
  - destruct (Z.ltb_spec (k + m0 + m + span_len sqlite3Isspace (drop_span isdig r')) (len t)),
      (Z.ltb_spec (span_len sqlite3Isspace (drop_span isdig r')) (len t - (k + m0 + m)));
      try lia; destruct (forallb _ _); done.
  - rewrite (nil_length_inv (drop_span isdig r')) by lia. done.
Qed.

Lemma tail_spec (neg nonNum : bool) k :
  0 <= k <= len t ->
  let r := drop (Z.to_nat k) t in
  let N := dec_val 0 (take_span isdig r) in
  atoi64_tail z (length z) neg nonNum (off + k * incr) (off + len t * incr) incr =
    (if 2 ^ 63 <? N then 2 else if (N =? 2 ^ 63) && negb neg then 3
     else if bool_decide (take_span isdig r = []) then -1
     else if nonNum then 1
     else if forallb sqlite3Isspace (drop_span isdig r) then 0 else 1,
     clamp64 (if neg then - N else N)).
Proof.
  intros Hk. cbv zeta. rewrite <- (tail_rc nonNum k Hk). cbv zeta.
  set (r := drop (Z.to_nat k) t). set (m0 := span_len (Z.eqb 48) r).
  assert (Hlr : len r = len t - k) by (unfold r; rewrite length_drop; lia).
  pose proof (span_len_bounds (Z.eqb 48) r) as Hm0. fold m0 in Hm0.
  unfold atoi64_tail. rewrite (scan_view z t off incr Hincr Hview Hfuel) by lia. fold r m0.
  pose proof (digit_view z t off incr Hincr Hview Hfuel (k + m0) 0 0 (length z)) as D.
  rewrite Z.mul_0_l in D. change (u64 0) with 0 in D. rewrite D by lia. clear D.
  rewrite Z.add_0_l, Z.add_0_r. destruct (zeros_digits r) as (Z1 & _ & Z3 & Z4).
  assert (Er : drop (Z.to_nat (k + m0)) t = drop_span (Z.eqb 48) r).
  { change (drop_span (Z.eqb 48) r) with (drop (Z.to_nat m0) (drop (Z.to_nat k) t)).
    rewrite drop_drop. f_equal. lia. }
  rewrite Er, Z1, dec_val_app, Z3. set (r' := drop_span (Z.eqb 48) r) in *.
  pose proof (take_span_all isdig r') as Hds. pose proof (dec_val_bounds _ Hds) as Hb.
  rewrite length_take_span in Hb. pose proof (span_len_bounds isdig r').
  rewrite <- (overflow_decision neg incr (span_len isdig r') _ _ (compare2pow63 z (off + (k + m0) * incr) incr));
    [done|done|lia|done|by apply digits_low|].
  intros E19. apply compare2pow63_sgn; [done|by rewrite length_take_span|].
  intros j Hj. replace (off + (k + m0) * incr + j * incr) with (off + (k + m0 + j) * incr) by lia.
  assert (Hlr' : len r' = len r - m0) by (unfold r', drop_span; rewrite length_drop; fold m0; lia).
  rewrite Hview by lia. unfold take_span. rewrite E19. rewrite <- (ld_app_l (take (Z.to_nat 19) r') (drop (Z.to_nat 19) r')).
  - rewrite take_drop, <- Er. rewrite ld_drop by lia. done.
  - rewrite length_take. lia.
Qed.
End tail.

Lemma body_tail z zNum zEnd incr nonNum :
  Atoi64_body z zNum zEnd incr nonNum =
    let zNum := scan_while (length z) sqlite3Isspace z zNum zEnd incr in
    if (zNum <? zEnd) && (z.[zNum] =? 45) then
      atoi64_tail z (length z) true nonNum (zNum + incr) zEnd incr
    else if (zNum <? zEnd) && (z.[zNum] =? 43) then
      atoi64_tail z (length z) false nonNum (zNum + incr) zEnd incr
    else atoi64_tail z (length z) false nonNum zNum zEnd incr.
Proof.
  unfold Atoi64_body. cbv zeta. destruct (_ <? zEnd); [|done].
  destruct (_ =? 45); [done|]. by destruct (_ =? 43).
Qed.

(** For any buffer that shows the text [t] at stride [incr]. *)
Lemma body_spec z t off incr nonNum :
  0 < incr -> (forall k, 0 <= k < len t -> z.[off + k * incr] = t.[k]) ->
  (length t <= length z)%nat ->
  Atoi64_body z off (off + len t * incr) incr nonNum = atoi64_spec t nonNum.
Proof.
  intros Hi Hv Hf. rewrite body_tail. cbv zeta.
  pose proof (scan_view z t off incr Hi Hv Hf sqlite3Isspace 0 (length z) ltac:(lia) ltac:(lia)) as E.
  rewrite Z.mul_0_l, !Z.add_0_l, Z.add_0_r in E. change (drop (Z.to_nat 0) t) with t in E. rewrite E. clear E.
  pose proof (span_len_bounds sqlite3Isspace t) as Hs. set (s := span_len sqlite3Isspace t) in *.
  rewrite (before_end z t off incr Hi Hf).
  replace (off + s * incr + incr) with (off + (s + 1) * incr) by lia.
  assert (E0 : (drop_span sqlite3Isspace t).[0] = t.[s]) by (rewrite ld_drop_span by lia; f_equal; fold s; lia).
  assert (Ed : forall k, 0 <= k -> drop (Z.to_nat (s + k)) t = drop (Z.to_nat k) (drop_span sqlite3Isspace t)).
  { intros k Hk. unfold drop_span. fold s. rewrite drop_drop. f_equal. lia. }
  unfold atoi64_spec. cbv zeta. rewrite E0. destruct (Z.ltb_spec s (len t)); simpl andb.
  - rewrite Hv by lia. destruct (Z.eqb_spec t.[s] 45) as [E45|]; simpl orb; cbv iota.
    + rewrite (tail_spec z t off incr Hi Hv Hf) by lia. rewrite (Ed 1) by lia. reflexivity.
    + destruct (Z.eqb_spec t.[s] 43) as [E43|]; cbv iota.
      * rewrite (tail_spec z t off incr Hi Hv Hf) by lia. rewrite (Ed 1) by lia. reflexivity.
      * rewrite (tail_spec z t off incr Hi Hv Hf) by lia.
        specialize (Ed 0 ltac:(lia)). rewrite Z.add_0_r in Ed. rewrite Ed. reflexivity.
  - assert (t.[s] = 0) as -> by (unfold ld; apply nth_overflow; lia). simpl.
    rewrite (tail_spec z t off incr Hi Hv Hf) by lia.
    specialize (Ed 0 ltac:(lia)). rewrite Z.add_0_r in Ed. rewrite Ed. reflexivity.
Qed.

(** ASCII text as UTF-16. *)
Definition utf16 (enc : Z) (t : bytes) : bytes :=
  t ≫= (fun c => if enc =? SQLITE_UTF16LE then [c; 0] else [0; c]).

Lemma utf16_length enc t : len (utf16 enc t) = 2 * len t.
Proof.
  induction t as [|c t IH]; [done|]. unfold utf16 in *. rewrite bind_cons, length_app.
  destruct (enc =? SQLITE_UTF16LE); simpl length; lia.
Qed.

Lemma utf16_view enc t k :
  0 <= k < len t ->
  (utf16 enc t).[k * 2 + b2i (negb (enc =? SQLITE_UTF16LE))] = t.[k] /\
  (utf16 enc t).[k * 2 + b2i (enc =? SQLITE_UTF16LE)] = 0.
Proof.
  revert k. induction t as [|c t IH]; intros k Hk; [simpl in Hk; lia|].
  assert (E : utf16 enc (c :: t) = (if enc =? SQLITE_UTF16LE then [c; 0] else [0; c]) ++ utf16 enc t) by done.
  rewrite E. destruct (Z.eq_dec k 0) as [->|].
  - by destruct (enc =? SQLITE_UTF16LE).
  - specialize (IH (k - 1) ltac:(simpl in Hk; lia)).
    assert (El : len (if enc =? SQLITE_UTF16LE then [c; 0] else [0; c]) = 2) by by destruct (enc =? SQLITE_UTF16LE).
    rewrite !ld_app_r by (rewrite El; destruct (enc =? SQLITE_UTF16LE); simpl; lia). rewrite El.
    replace (k * 2 + b2i (negb (enc =? SQLITE_UTF16LE)) - 2)
      with ((k - 1) * 2 + b2i (negb (enc =? SQLITE_UTF16LE))) by lia.
    replace (k * 2 + b2i (enc =? SQLITE_UTF16LE) - 2)
      with ((k - 1) * 2 + b2i (enc =? SQLITE_UTF16LE)) by lia.
    destruct IH as [-> ->]. split; [|done].
    replace k with ((k - 1) + 1) at 2 by lia. by rewrite ld_cons_S by lia.
Qed.

(** The scan of the high bytes runs to the end of ASCII text. *)
Lemma scan_zeros fuel z p n :
  0 <= n -> (Z.to_nat n <= fuel)%nat -> (forall k, 0 <= k < n -> z.[p + k * 2] = 0) ->
  forall len', p + 2 * n - 1 <= len' <= p + 2 * n ->
  scan_while fuel (Z.eqb 0) z p len' 2 = p + 2 * n.
Proof.
  intros Hn Hf Hz len' Hl. revert p n Hn Hf Hz Hl. induction fuel as [|fuel IH]; intros p n Hn Hf Hz Hl;
    cbn [scan_while]; [lia|].
  destruct (Z.eq_dec n 0) as [->|].
  - rewrite (proj2 (Z.ltb_ge p len')) by lia. simpl. lia.
  - rewrite (proj2 (Z.ltb_lt p len')) by lia. pose proof (Hz 0 ltac:(lia)) as H0.
    rewrite Z.add_0_r in H0. rewrite H0. simpl. rewrite (IH (p + 2) (n - 1)); [lia..| |lia].
    intros k Hk. replace (p + 2 + k * 2) with (p + (k + 1) * 2) by lia. apply Hz. lia.
Qed.

Lemma Atoi64_utf16 enc t :
  enc = SQLITE_UTF16LE \/ enc = SQLITE_UTF16BE ->
  sqlite3Atoi64 (utf16 enc t) (2 * len t) enc = atoi64_spec t false.
Proof.
  intros He. unfold sqlite3Atoi64.
  assert (El : (2 * len t) .& Z.lnot 1 = 2 * len t).
  { rewrite <- Z.ldiff_land. apply Z.bits_inj'. intros i Hi. rewrite Z.ldiff_spec.
    destruct (Z.eq_dec i 0) as [->|]; [by rewrite Z.testbit_even_0|].
    change 1 with (2 ^ 0). rewrite Z.pow2_bits_false by lia. by rewrite andb_true_r. }
  rewrite El. unfold high_bytes. pose proof (utf16_length enc t) as Hl.
  assert (Hlen : (length t <= length (utf16 enc t))%nat) by lia.
  destruct He as [->| ->]; simpl (_ =? SQLITE_UTF8); cbv iota.
  - change (3 - SQLITE_UTF16LE) with 1. change (SQLITE_UTF16LE .& 1) with 0.
    rewrite (scan_zeros _ _ 1 (len t)); [|lia|lia| |lia].
    2:{ intros k Hk. replace (1 + k * 2) with (k * 2 + 1) by lia. by apply (utf16_view SQLITE_UTF16LE t k). }
    rewrite (proj2 (Z.ltb_ge _ _)) by lia.
    replace ((1 + 2 * len t) .^ 1) with (0 + len t * 2).
    + apply body_spec; [lia| |done]. intros k Hk.
      rewrite <- (proj1 (utf16_view SQLITE_UTF16LE t k Hk)). f_equal. simpl. lia.
    + apply Z.bits_inj'. intros i Hi. rewrite Z.lxor_spec.
      replace (0 + len t * 2) with (2 * len t) by lia. replace (1 + 2 * len t) with (2 * len t + 1) by lia.
      destruct (Z.eq_dec i 0) as [->|]; [by rewrite Z.testbit_even_0, Z.testbit_odd_0|].
      change 1 with (2 ^ 0) at 2. rewrite Z.pow2_bits_false, xorb_false_r by lia.
      replace i with (Z.succ (Z.pred i)) by lia. by rewrite Z.testbit_even_succ, Z.testbit_odd_succ by lia.
  - change (3 - SQLITE_UTF16BE) with 0. change (SQLITE_UTF16BE .& 1) with 1.
    rewrite (scan_zeros _ _ 0 (len t)); [|lia|lia| |lia].
    2:{ intros k Hk. rewrite Z.add_0_l. pose proof (proj2 (utf16_view SQLITE_UTF16BE t k Hk)) as E.
        simpl b2i in E. by rewrite Z.add_0_r in E. }
    rewrite (proj2 (Z.ltb_ge _ _)) by lia. rewrite Z.add_0_l.
    replace ((2 * len t) .^ 1) with (1 + len t * 2).
    + apply body_spec; [lia| |done]. intros k Hk.
      rewrite <- (proj1 (utf16_view SQLITE_UTF16BE t k Hk)). f_equal. simpl. lia.
    + apply Z.bits_inj'. intros i Hi. rewrite Z.lxor_spec.
      replace (1 + len t * 2) with (2 * len t + 1) by lia.
      destruct (Z.eq_dec i 0) as [->|]; [by rewrite Z.testbit_even_0, Z.testbit_odd_0|].
      change 1 with (2 ^ 0) at 2. rewrite Z.pow2_bits_false, xorb_false_r by lia.
      replace i with (Z.succ (Z.pred i)) by lia. by rewrite Z.testbit_even_succ, Z.testbit_odd_succ by lia.
Qed.

Lemma Atoi64_utf8 t g : sqlite3Atoi64 (t ++ g) (len t) SQLITE_UTF8 = atoi64_spec t false.
Proof.
  unfold sqlite3Atoi64. simpl (_ =? SQLITE_UTF8). cbv iota.
  replace (len t) with (0 + len t * 1) by lia. apply body_spec; [lia| |rewrite length_app; lia].
  intros k Hk. rewrite ld_app_l by lia. f_equal. lia.
Qed.

(** [sqlite3Atoi64] computes its specification on every text, in all three
    encodings: it skips spaces, takes a sign and the digits, and stores the value of the
    digits -- as an unbounded integer -- clamped to 64 bits; the result is 2 exactly when
    the magnitude exceeds 2^63, 3 for +2^63, and otherwise says whether there were
    digits and nothing but spaces after them.  The wrapping accumulator and the
    digit-by-digit comparison with 2^63 are never observable. *)
Theorem Atoi64_correct (t g : bytes) :
  sqlite3Atoi64 (t ++ g) (len t) SQLITE_UTF8 = atoi64_spec t false /\
  sqlite3Atoi64 (utf16 SQLITE_UTF16LE t) (2 * len t) SQLITE_UTF16LE = atoi64_spec t false /\
  sqlite3Atoi64 (utf16 SQLITE_UTF16BE t) (2 * len t) SQLITE_UTF16BE = atoi64_spec t false.
Proof. split_and!; [apply Atoi64_utf8|apply Atoi64_utf16; auto..]. Qed.

(** ** Round trip *)

Lemma isdig_facts c : isdig c = true -> sqlite3Isspace c = false /\ c <> 45 /\ c <> 43 /\ c <> 0 /\ is_byte c.
Proof.
  unfold isdig. intros H. assert (Hc : is_byte c) by (unfold is_byte; lia).
  pose proof (byte_cases (fun c => implb (isdig c) (negb (sqlite3Isspace c)))
    ltac:(vm_compute; reflexivity) c Hc) as T. cbv beta in T. unfold isdig in T. rewrite H in T.
  simpl in T. apply negb_true_iff in T. split_and!; done || lia.
Qed.

Lemma span_all P ds : Forall (fun c => P c = true) ds -> take_span P ds = ds /\ drop_span P ds = [].
Proof.
  induction 1 as [|c ds Hc Hds [IH1 IH2]]; [done|].
  rewrite take_span_cons, drop_span_cons, Hc. by rewrite IH1, IH2.
Qed.

(** The specification on a bare number. *)
Lemma spec_number (neg : bool) ds :
  Forall (fun c => isdig c = true) ds -> ds <> [] ->
  let N := dec_val 0 ds in
  atoi64_spec ((if neg then [45] else []) ++ ds) false =
    (if 2 ^ 63 <? N then 2 else if (N =? 2 ^ 63) && negb neg then 3 else 0,
     clamp64 (if neg then - N else N)).
Proof.
  intros Hd Hne. cbv zeta. unfold atoi64_spec. destruct Hd as [|c ds Hc Hds]; [done|].
  destruct (isdig_facts c Hc) as (H1 & H2 & H3 & _).
  destruct neg; simpl app.
  - rewrite drop_span_cons. change (sqlite3Isspace 45) with false. cbv iota zeta.
    rewrite ld_cons_0. simpl drop. change (45 =? 45) with true. simpl orb. cbv iota.
    destruct (span_all isdig (c :: ds)) as [-> ->]; [by constructor|].
    rewrite bool_decide_eq_false_2 by done. done.
  - rewrite drop_span_cons, H1. cbv zeta. rewrite ld_cons_0.
    rewrite (proj2 (Z.eqb_neq c 45)), (proj2 (Z.eqb_neq c 43)) by done. simpl orb. cbv iota.
    destruct (span_all isdig (c :: ds)) as [-> ->]; [by constructor|].
    rewrite bool_decide_eq_false_2 by done. done.
Qed.

Lemma text_digits_spec fuel k x acc :
  (1 <= k <= Z.of_nat fuel) -> 0 <= x < 10 ^ k ->
  exists ds, text_digits fuel x acc = ds ++ acc /\ Forall (fun c => isdig c = true) ds /\
    ds <> [] /\ dec_val 0 ds = x /\ len ds <= k.
Proof.
  revert k x acc. induction fuel as [|fuel IH]; intros k x acc Hk Hx; [lia|]. cbn [text_digits].
  pose proof (Z.mod_pos_bound x 10 ltac:(lia)) as Hm. pose proof (Z.div_mod x 10 ltac:(lia)) as Hd.
  assert (Hdig : isdig (x mod 10 + 48) = true) by (unfold isdig; lia).
  destruct (Z.eqb_spec (x / 10) 0) as [E|E].
  - exists [x mod 10 + 48]. split_and!; [done|by constructor|done| |simpl; lia].
    change (0 * 10 + (x mod 10 + 48 - 48) = x). lia.
  - assert (1 < k) by (destruct (Z.eq_dec k 1) as [->|]; [|lia]; exfalso; apply E; apply Z.div_small; lia).
    assert (Ek : 10 ^ k = 10 * 10 ^ (k - 1)) by (rewrite <- Z.pow_succ_r by lia; f_equal; lia).
    destruct (IH (k - 1) (x / 10) (x mod 10 + 48 :: acc)) as (ds & E1 & E2 & E3 & E4 & E5);
      [lia|split; [apply Z.div_pos; lia|apply Z.div_lt_upper_bound; lia]|].
    exists (ds ++ [x mod 10 + 48]). split_and!.
    + by rewrite E1, <- app_assoc.
    + apply Forall_app. split; [done|by constructor].
    + by destruct ds.
    + rewrite dec_val_app, E4. change (x / 10 * 10 + (x mod 10 + 48 - 48) = x). lia.
    + rewrite length_app. simpl. lia.
Qed.

Lemma Int64ToText_shape v :
  in_i 64 v ->
  exists ds, sqlite3Int64ToText v = (if v <? 0 then [45] else []) ++ ds ++ [0] /\
    Forall (fun c => isdig c = true) ds /\ ds <> [] /\ dec_val 0 ds = Z.abs v /\ len ds <= 19.
Proof.
  unfold in_i. intros Hv. unfold sqlite3Int64ToText.
  assert (Ex : (if v <? 0 then if v =? SMALLEST_INT64 then 1 << 63 else u64 (- v) else v) = Z.abs v).
  { unfold SMALLEST_INT64. destruct (Z.ltb_spec v 0); [|lia].
    destruct (Z.eqb_spec v (- 2 ^ 63)) as [->|]; [done|]. rewrite u64_id; lia. }
  rewrite Ex. destruct (text_digits_spec 20 19 (Z.abs v) [0]) as (ds & -> & H1 & H2 & H3 & H4); [lia|lia|].
  exists ds. split_and!; try done. by destruct (v <? 0).
Qed.

Lemma clamp64_abs v : in_i 64 v -> clamp64 (if v <? 0 then - Z.abs v else Z.abs v) = v.
Proof.
  unfold in_i. intros Hv. rewrite clamp64_id; destruct (Z.ltb_spec v 0); lia.
Qed.

(** Every 64-bit integer survives [sqlite3Int64ToText] followed by
    [sqlite3Atoi64] or [sqlite3DecOrHexToI64], and its text with the terminator fits
    the 21 bytes the caller must provide -- [SMALLEST_INT64] included. *)
Theorem Int64_text_roundtrip (v : Z) :
  in_i 64 v ->
  let text := sqlite3Int64ToText v in
  len text <= 21 /\
  sqlite3Atoi64 text (len text - 1) SQLITE_UTF8 = (0, v) /\
  sqlite3DecOrHexToI64 text = (0, v).
Proof.
  intros Hv. cbv zeta. destruct (Int64ToText_shape v Hv) as (ds & -> & H1 & H2 & H3 & H4).
  set (t := (if v <? 0 then [45] else []) ++ ds). rewrite app_assoc. fold t.
  assert (Ht : len t = len ds + b2i (v <? 0)) by (unfold t; rewrite length_app; destruct (v <? 0); simpl; lia).
  assert (Hspec : atoi64_spec t false = (0, v)).
  { unfold t. rewrite spec_number by done. rewrite H3, clamp64_abs by done. unfold in_i in Hv. f_equal.
    rewrite (proj2 (Z.ltb_ge (2 ^ 63) (Z.abs v))) by lia.
    destruct (Z.eqb_spec (Z.abs v) (2 ^ 63)); [|done]. by rewrite (proj2 (Z.ltb_lt v 0)) by lia. }
  assert (Hnn : no_nul t).
  { unfold t. apply Forall_app. split; [destruct (v <? 0); repeat constructor; done|].
    eapply Forall_impl; [exact H1|]. intros c Hc. destruct (isdig_facts c Hc) as (_ & _ & _ & ? & ?). done. }
  rewrite length_app. split_and!; [destruct (v <? 0); simpl in *; lia| |].
  - replace (Z.of_nat (length t + length [0]) - 1) with (len t) by (simpl; lia).
    by rewrite Atoi64_utf8.
  - unfold sqlite3DecOrHexToI64.
    assert (Hx : ((t ++ [0]).[1] =? 120) || ((t ++ [0]).[1] =? 88) = false).
    { assert (Hn1 : (t ++ [0]).[1] = 0 \/ isdig (t ++ [0]).[1] = true \/ (t ++ [0]).[1] = 45).
      { assert (Hall : Forall (fun c => c = 0 \/ isdig c = true \/ c = 45) (t ++ [0])).
        { apply Forall_app. split; [|apply Forall_singleton; by left]. unfold t. apply Forall_app.
          split; [destruct (v <? 0); [apply Forall_singleton; auto|constructor]|]. eapply Forall_impl; [exact H1|]. auto. }
        destruct (nth_in_or_default 1 (t ++ [0]) 0) as [Hin|Hd]; [|left; exact Hd].
        rewrite Forall_forall in Hall. apply Hall. by apply list_elem_of_In. }
      unfold isdig in Hn1. lia. }
    rewrite Hx, andb_false_r. unfold sqlite3Strlen30.
    assert (El : span_len (fun c => negb (c =? 0)) (t ++ [0]) = len t).
    { clear -Hnn. induction Hnn as [|c t [_ H0] Hnn IH]; [done|]. simpl app. cbn [span_len].
      rewrite (proj2 (Z.eqb_neq c 0)) by done. simpl negb. cbv iota. rewrite IH. simpl. lia. }
    rewrite El. change 0x3fffffff with (2 ^ 30 - 1). rewrite land_ones_mod, Z.mod_small by (destruct (v <? 0); simpl in *; lia).
    by rewrite Atoi64_utf8.
Qed.

Lemma Int64_text_roundtrip_witness :
  let text := sqlite3Int64ToText SMALLEST_INT64 in
  len text <= 21 /\ sqlite3Atoi64 text (len text - 1) SQLITE_UTF8 = (0, SMALLEST_INT64) /\
  sqlite3DecOrHexToI64 text = (0, SMALLEST_INT64).
Proof. apply (Int64_text_roundtrip SMALLEST_INT64). vm_compute. split; congruence. Defined.

(** ** sqlite3GetUInt32 *)

Lemma isdigit_isdig c : is_byte c -> sqlite3Isdigit c = isdig c.
Proof.
  intros Hc. apply eqb_prop. revert c Hc.
  apply (byte_cases (fun c => Bool.eqb (sqlite3Isdigit c) (isdig c))). vm_compute. reflexivity.
Qed.

Lemma dec_val_mono u ds : Forall (fun c => isdig c = true) ds -> 0 <= u -> u <= dec_val u ds.
Proof.
  intros H Hu. rewrite dec_val_acc. pose proof (dec_val_bounds ds H).
  assert (1 <= 10 ^ len ds) by (apply (Z.pow_le_mono_r 10 0); lia). nia.
Qed.

Lemma GetUInt32_loop_spec t g i v :
  no_nul t -> 0 <= i -> 0 <= v <= 2 ^ 32 ->
  GetUInt32_loop (t ++ 0 :: g) i v =
    if forallb isdig t && negb (i + len t =? 0) && (dec_val v t <=? 2 ^ 32) then (1, u32 (dec_val v t))
    else (0, 0).
Proof.
  intros Ht. revert i v. induction Ht as [|c t [Hc H0] Ht IH]; intros i v Hi Hv.
  - cbn [app GetUInt32_loop forallb length]. change (sqlite3Isdigit 0) with false. cbv iota.
    change (0 =? 0) with true. change (dec_val v []) with v. rewrite Z.add_0_r.
    rewrite (proj2 (Z.leb_le v (2 ^ 32))) by lia. by destruct (i =? 0).
  - cbn [app GetUInt32_loop forallb]. rewrite isdigit_isdig by done. destruct (isdig c) eqn:Ec.
    + assert (Ev : u64 (v * 10 + c - 48) = v * 10 + (c - 48)) by (unfold isdig in Ec; rewrite u64_id; lia).
      rewrite Ev. change (dec_val v (c :: t)) with (dec_val (v * 10 + (c - 48)) t).
      rewrite (proj2 (Z.eqb_neq (i + len (c :: t)) 0)) by (simpl; lia). simpl andb.
      destruct (Z.ltb_spec 4294967296 (v * 10 + (c - 48))).
      * destruct (forallb isdig t) eqn:Ef; simpl; [|done].
        pose proof (dec_val_mono (v * 10 + (c - 48)) t) as Hm.
        rewrite forallb_forall in Ef. specialize (Hm ltac:(by apply Forall_forall; intros x Hx; apply Ef, list_elem_of_In) ltac:(lia)).
        by rewrite (proj2 (Z.leb_gt (dec_val _ t) (2 ^ 32))) by lia.
      * unfold isdig in Ec. rewrite IH by lia.
        by rewrite (proj2 (Z.eqb_neq (i + 1 + len t) 0)) by lia.
    + rewrite (proj2 (Z.eqb_neq c 0)) by done. by rewrite orb_true_r.
Qed.

(** [sqlite3GetUInt32] accepts exactly the non-empty decimal texts of value at most
    2^32 -- one more than fits: for "4294967296" it returns true and stores 0. *)
Theorem GetUInt32_correct (t g : bytes) :
  no_nul t ->
  sqlite3GetUInt32 (t ++ 0 :: g) =
    if forallb isdig t && negb (len t =? 0) && (dec_val 0 t <=? 2 ^ 32) then (1, u32 (dec_val 0 t))
    else (0, 0).
Proof. intros Ht. apply (GetUInt32_loop_spec t g 0 0 Ht); lia. Qed.

(** The text "4294967296". *)
Lemma GetUInt32_correct_witness :
  sqlite3GetUInt32 ([52; 50; 57; 52; 57; 54; 55; 50; 57; 54] ++ [0]) = (1, 0).
Proof.
  apply (GetUInt32_correct [52; 50; 57; 52; 57; 54; 55; 50; 57; 54] []).
  repeat constructor; try (unfold is_byte; vm_compute; intros; discriminate); by vm_compute.
Defined.
