(* ===== verification/RowSet.v ===== *)
(** * RowSet: collections of rowids (rowset.c)

    A RowSet collects rowids and is used in one of two ways: [sqlite3RowSetInsert]s
    followed by [sqlite3RowSetNext]s, or [sqlite3RowSetInsert]s mixed with
    [sqlite3RowSetTest]s.  Its nodes are never shared, so a list linked by [pRight] is a
    [list], a tree linked by [pLeft] and [pRight] a [tree], and relinking a node is
    rebuilding the value; [pLast] always points to the last node of [pEntry], so only
    its value is kept.  The caller's [oom] answers say whether the next chunk
    allocation fails. *)

From Stdlib Require Import Sorted.
From S2P Require Import Prelude.

(** ** State *)

Inductive tree := Leaf | Node (pLeft : tree) (v : Z) (pRight : tree).

Record RowSet := mk_rowset {
  nChunk : nat;                   (* chunks allocated *)
  pEntry : list Z;
  pLast : option Z;
  nFresh : Z;                     (* entries left in the current chunk *)
  pForest : list tree;            (* [pLeft] of each node of the forest list *)
  rs_sorted : bool;               (* ROWSET_SORTED *)
  rs_next : bool;                 (* ROWSET_NEXT *)
  iBatch : Z
}.

(** [(1024-8)/sizeof(struct RowSetEntry)], with 8-byte pointers. *)
Definition ROWSET_ENTRY_PER_CHUNK : Z := 42.

(** [extra]: the entries that fit behind the RowSet in its own allocation. *)
Definition sqlite3RowSetInit (extra : Z) : RowSet :=
  mk_rowset 0 [] None (u16 extra) [] true false 0.

Definition sqlite3RowSetClear (p : RowSet) : RowSet :=
  mk_rowset 0 [] None 0 [] true false (iBatch p).

(** ** Sorting *)

(** Merge two sorted lists without duplicates; the source's loop, in which a list is
    never empty at the top. *)
Fixpoint rowSetEntryMerge (pA : list Z) : list Z -> list Z :=
  fix merge_a (pB : list Z) : list Z :=
    match pA, pB with
    | [], _ => pB
    | _, [] => pA
    | a :: pA', b :: pB' =>
        if a <=? b then
          let rest := match pA' with [] => pB | _ => rowSetEntryMerge pA' pB end in
          if a <? b then a :: rest else rest
        else b :: match pB' with [] => pA | _ => merge_a pB' end
    end.

(** [for(i=0; aBucket[i]; i++){ pIn = merge(aBucket[i], pIn); aBucket[i] = 0; }
    aBucket[i] = pIn;]  [None]: [i] has run off the array. *)
Fixpoint bucket_add (aBucket : list (list Z)) (pIn : list Z) : option (list (list Z)) :=
  match aBucket with
  | [] => None
  | [] :: r => Some (pIn :: r)
  | b :: r => match bucket_add r (rowSetEntryMerge b pIn) with
              | Some r' => Some ([] :: r')
              | None => None
              end
  end.

Fixpoint sort_loop (aBucket : list (list Z)) (pIn : list Z) : option (list (list Z)) :=
  match pIn with
  | [] => Some aBucket
  | v :: pNext => match bucket_add aBucket [v] with
                  | Some aBucket => sort_loop aBucket pNext
                  | None => None
                  end
  end.

(** The last loop: merge the buckets. *)
Definition merge_buckets (aBucket : list (list Z)) : list Z :=
  fold_left (fun pIn b => match b with [] => pIn | _ => match pIn with [] => b | _ => rowSetEntryMerge pIn b end end)
    aBucket [].

Definition rowSetEntrySort (pIn : list Z) : outcome (list Z) :=
  match sort_loop (replicate 40 []) pIn with
  | Some aBucket => Done (merge_buckets aBucket)
  | None => UB
  end.

(** ** Trees *)

Fixpoint rowSetTreeToList (pIn : tree) : list Z :=
  match pIn with
  | Leaf => []
  | Node l v r => rowSetTreeToList l ++ v :: rowSetTreeToList r
  end.

(** The tree and the entries left. *)
Fixpoint rowSetNDeepTree (iDepth : nat) (pList : list Z) : tree * list Z :=
  match pList with
  | [] => (Leaf, [])
  | v :: rest =>
      match iDepth with
      | O | 1%nat => (Node Leaf v Leaf, rest)
      | S d =>
          let (pLeft, pList) := rowSetNDeepTree d pList in
          match pList with
          | [] => (pLeft, [])
          | v :: pList =>
              let (pRight, pList) := rowSetNDeepTree d pList in
              (Node pLeft v pRight, pList)
          end
      end
  end.

(** [for(iDepth=1; pList; iDepth++)]; every turn takes an entry off the list. *)
Fixpoint ListToTree_loop (fuel : nat) (p : tree) (pList : list Z) (iDepth : nat) : tree :=
  match fuel, pList with
  | S fuel, v :: pList =>
      let (r, pList) := rowSetNDeepTree iDepth pList in
      ListToTree_loop fuel (Node p v r) pList (S iDepth)
  | _, _ => p
  end.

Definition rowSetListToTree (pList : list Z) : tree :=
  match pList with
  | [] => Leaf
  | v :: pList => ListToTree_loop (length pList) (Node Leaf v Leaf) pList 1
  end.

(** ** Operations *)

Definition set_fresh (p : RowSet) (c : nat) (n : Z) : RowSet :=
  mk_rowset c (pEntry p) (pLast p) n (pForest p) (rs_sorted p) (rs_next p) (iBatch p).

(** [None]: no memory. *)
Definition rowSetEntryAlloc (oom : bool) (p : RowSet) : option RowSet :=
  if nFresh p =? 0 then
    if oom then None else Some (set_fresh p (S (nChunk p)) (ROWSET_ENTRY_PER_CHUNK - 1))
  else Some (set_fresh p (nChunk p) (nFresh p - 1)).

Definition sqlite3RowSetInsert (oom : bool) (p : RowSet) (rowid : Z) : RowSet :=
  match rowSetEntryAlloc oom p with
  | None => p
  | Some p =>
      let sorted := match pLast p with
                    | Some l => if rowid <=? l then false else rs_sorted p
                    | None => rs_sorted p
                    end in
      let entry := match pLast p with Some _ => pEntry p ++ [rowid] | None => [rowid] end in
      mk_rowset (nChunk p) entry (Some rowid) (nFresh p) (pForest p) sorted (rs_next p) (iBatch p)
  end.

Definition sqlite3RowSetNext (p : RowSet) : outcome (option Z * RowSet) :=
  p ← (if rs_next p then Done p
       else
         e ← (if rs_sorted p then Done (pEntry p) else rowSetEntrySort (pEntry p));
         Done (mk_rowset (nChunk p) e (pLast p) (nFresh p) (pForest p) true true (iBatch p)));
  match pEntry p with
  | [] => Done (None, p)
  | v :: rest =>
      let p := mk_rowset (nChunk p) rest (pLast p) (nFresh p) (pForest p) (rs_sorted p) (rs_next p) (iBatch p) in
      Done (Some v, match rest with [] => sqlite3RowSetClear p | _ => p end)
  end.

(** The loop over the forest when a batch ends: the first empty tree takes the merge
    of the batch and of the trees before it; [None] in the second part: there was no
    empty tree, and this list is left. *)
Fixpoint forest_add (forest : list tree) (p : list Z) : list tree * option (list Z) :=
  match forest with
  | [] => ([], Some p)
  | Leaf :: f => (rowSetListToTree p :: f, None)
  | t :: f =>
      let (f', left) := forest_add f (rowSetEntryMerge (rowSetTreeToList t) p) in (Leaf :: f', left)
  end.

Fixpoint tree_search (p : tree) (iRowid : Z) : bool :=
  match p with
  | Leaf => false
  | Node l v r =>
      if v <? iRowid then tree_search r iRowid
      else if iRowid <? v then tree_search l iRowid
      else true
  end.

Definition end_batch (oom : bool) (b : Z) (p : RowSet) : outcome RowSet :=
  match pEntry p with
  | [] => Done (mk_rowset (nChunk p) (pEntry p) (pLast p) (nFresh p) (pForest p) (rs_sorted p) (rs_next p) b)
  | _ =>
      e ← (if rs_sorted p then Done (pEntry p) else rowSetEntrySort (pEntry p));
      let (forest, left) := forest_add (pForest p) e in
      let p' :=
        match left with
        | None => set_fresh p (nChunk p) (nFresh p)
        | Some _ => match rowSetEntryAlloc oom p with Some p' => p' | None => p end
        end in
      let forest :=
        match left with
        | None => forest
        | Some e => match rowSetEntryAlloc oom p with
                    | Some _ => forest ++ [rowSetListToTree e]
                    | None => forest
                    end
        end in
      Done (mk_rowset (nChunk p') [] None (nFresh p') forest true (rs_next p) b)
  end.

Definition sqlite3RowSetTest (oom : bool) (p : RowSet) (b iRowid : Z) : outcome (bool * RowSet) :=
  p ← (if b =? iBatch p then Done p else end_batch oom b p);
  Done (existsb (fun t => tree_search t iRowid) (pForest p), p).

(** ** Sorted lists *)

Abbreviation increasing := (StronglySorted Z.lt).

Lemma merge_nil_r pA : rowSetEntryMerge pA [] = pA.
Proof. by destruct pA. Qed.

Lemma merge_nil_l pB : rowSetEntryMerge [] pB = pB.
Proof. by destruct pB. Qed.

Lemma merge_cons a A b B :
  rowSetEntryMerge (a :: A) (b :: B) =
    if a <=? b then
      if a <? b then a :: rowSetEntryMerge A (b :: B) else rowSetEntryMerge A (b :: B)
    else b :: rowSetEntryMerge (a :: A) B.
Proof. by destruct A, B. Qed.

Lemma increasing_cons x l : increasing (x :: l) <-> increasing l /\ Forall (Z.lt x) l.
Proof. split; [intros H; by inversion H|intros [? ?]; by constructor]. Qed.

Lemma Forall_lt_trans x y l : x <= y -> Forall (Z.lt y) l -> Forall (Z.lt x) l.
Proof. intros Hxy H. eapply Forall_impl; [exact H|]. simpl. lia. Qed.

Lemma elem_of_merge x A B : x ∈ rowSetEntryMerge A B <-> x ∈ A \/ x ∈ B.
Proof.
  revert B. induction A as [|a A IHA]; intros B; [rewrite merge_nil_l; set_solver|].
  induction B as [|b B IHB]; [rewrite merge_nil_r; set_solver|].
  rewrite merge_cons. destruct (Z.leb_spec a b).
  - destruct (Z.ltb_spec a b).
    + rewrite elem_of_cons, IHA. set_solver.
    + replace a with b by lia. rewrite IHA. set_solver.
  - rewrite elem_of_cons, IHB. set_solver.
Qed.

Lemma merge_increasing A B : increasing A -> increasing B -> increasing (rowSetEntryMerge A B).
Proof.
  intros HA. revert B. induction HA as [|a A HA IHA Ha]; intros B HB; [by rewrite merge_nil_l|].
  induction HB as [|b B HB IHB Hb]; [rewrite merge_nil_r; by constructor|].
  rewrite merge_cons.
  assert (HB' : increasing (b :: B)) by by constructor.
  destruct (Z.leb_spec a b); [destruct (Z.ltb_spec a b)|].
  - apply increasing_cons. split; [by apply IHA|]. apply Forall_forall. intros x Hx%elem_of_merge.
    rewrite !Forall_forall in Ha, Hb. destruct Hx as [Hx|[->|Hx]%elem_of_cons]; auto.
    specialize (Hb x Hx). lia.
  - by apply IHA.
  - apply increasing_cons. split; [done|]. apply Forall_forall. intros x Hx%elem_of_merge.
    rewrite !Forall_forall in Ha, Hb. destruct Hx as [[->|Hx]%elem_of_cons|Hx]; [lia| |auto].
    specialize (Ha x Hx). lia.
Qed.

Lemma merge_nonempty A B : A <> [] \/ B <> [] -> rowSetEntryMerge A B <> [].
Proof.
  intros H E. destruct H as [H|H].
  - destruct A as [|a A]; [done|]. assert (a ∈ rowSetEntryMerge (a :: A) B) by (rewrite elem_of_merge; set_solver).
    rewrite E in *. set_solver.
  - destruct B as [|b B]; [done|]. assert (b ∈ rowSetEntryMerge A (b :: B)) by (rewrite elem_of_merge; set_solver).
    rewrite E in *. set_solver.
Qed.

(** ** Sorting *)

(** The buckets are a binary counter: bucket [i] stands for [2^i] entries. *)
Fixpoint weight (bk : list (list Z)) : Z :=
  match bk with [] => 0 | b :: r => (match b with [] => 0 | _ => 1 end) + 2 * weight r end.

Lemma weight_bounds bk : 0 <= weight bk <= 2 ^ len bk - 1.
Proof.
  induction bk as [|b r IH]; [simpl; lia|]. simpl length. rewrite Nat2Z.inj_succ, Z.pow_succ_r by lia.
  cbn [weight]. destruct b; lia.
Qed.

Lemma bucket_add_spec bk l :
  l <> [] -> weight bk < 2 ^ len bk - 1 ->
  exists bk', bucket_add bk l = Some bk' /\ length bk' = length bk /\ weight bk' = weight bk + 1 /\
    (forall x, x ∈ concat bk' <-> x ∈ l \/ x ∈ concat bk) /\
    (Forall increasing bk -> increasing l -> Forall increasing bk').
Proof.
  revert l. induction bk as [|b r IH]; intros l Hl Hw; [simpl in Hw; lia|].
  cbn [bucket_add]. destruct b as [|v b].
  - exists (l :: r). cbn [weight]. split_and!; [done|done|destruct l; [done|lia]|simpl; set_solver|].
    intros H Hs. inversion_clear H. by constructor.
  - simpl length in Hw. rewrite Nat2Z.inj_succ, Z.pow_succ_r in Hw by lia. cbn [weight] in Hw.
    destruct (IH (rowSetEntryMerge (v :: b) l)) as (bk' & -> & H1 & H2 & H3 & H4);
      [by apply merge_nonempty; right|lia|].
    exists ([] :: bk'). cbn [weight]. split_and!; [done|simpl; lia|lia| |].
    + intros x. simpl concat. rewrite H3, elem_of_merge. set_solver.
    + intros H Hs. inversion_clear H. constructor; [constructor|]. apply H4; [done|]. by apply merge_increasing.
Qed.

Lemma sort_loop_spec bk l :
  weight bk + len l < 2 ^ len bk -> Forall increasing bk ->
  exists bk', sort_loop bk l = Some bk' /\ Forall increasing bk' /\
    (forall x, x ∈ concat bk' <-> x ∈ l \/ x ∈ concat bk).
Proof.
  revert bk. induction l as [|v l IH]; intros bk Hw Hbk; cbn [sort_loop].
  - exists bk. split_and!; [done|done|set_solver].
  - simpl length in Hw. destruct (bucket_add_spec bk [v]) as (bk1 & -> & H1 & H2 & H3 & H4); [done|lia|].
    destruct (IH bk1) as (bk2 & -> & H5 & H6).
    + rewrite H2, H1. lia.
    + apply H4; [done|]. repeat constructor.
    + exists bk2. split_and!; [done|done|]. intros x. rewrite H6, H3. set_solver.
Qed.

Lemma merge_buckets_spec bk :
  Forall increasing bk ->
  increasing (merge_buckets bk) /\ (forall x, x ∈ merge_buckets bk <-> x ∈ concat bk).
Proof.
  unfold merge_buckets. intros H.
  set (f := fun pIn b : list Z => _).
  assert (Hf : forall acc b, f acc b = rowSetEntryMerge acc b).
  { intros acc b. unfold f. destruct b, acc; rewrite ?merge_nil_l, ?merge_nil_r; done. }
  assert (G : forall acc, increasing acc ->
    increasing (fold_left f bk acc) /\ (forall x, x ∈ fold_left f bk acc <-> x ∈ acc \/ x ∈ concat bk)).
  { induction H as [|b bk Hb Hbk IH]; intros acc Hacc; simpl; [split; [done|set_solver]|].
    rewrite Hf. destruct (IH (rowSetEntryMerge acc b)) as [G1 G2]; [by apply merge_increasing|].
    split; [done|]. intros x. rewrite G2, elem_of_merge. set_solver. }
  destruct (G []) as [G1 G2]; [constructor|]. split; [done|]. intros x. rewrite G2. set_solver.
Qed.

Lemma sort_spec l :
  len l < 2 ^ 40 ->
  exists s, rowSetEntrySort l = Done s /\ increasing s /\ (forall x, x ∈ s <-> x ∈ l).
Proof.
  intros Hl. unfold rowSetEntrySort.
  destruct (sort_loop_spec (replicate 40 []) l) as (bk & -> & H1 & H2).
  - change (weight (replicate 40 [])) with 0. rewrite length_replicate. lia.
  - apply Forall_replicate. constructor.
  - destruct (merge_buckets_spec bk H1) as [H3 H4]. eexists. split_and!; [done|done|].
    intros x. rewrite H4, H2. change (concat (replicate 40 [])) with ([] : list Z). set_solver.
Qed.

(** ** Trees *)

Lemma NDeepTree_spec d l :
  let r := rowSetNDeepTree d l in
  rowSetTreeToList (fst r) ++ snd r = l /\ (l <> [] -> (length (snd r) < length l)%nat).
Proof.
  revert l. induction d as [|d IH]; intros l; cbv zeta.
  - destruct l; simpl; [done|]. split; [done|lia].
  - destruct l as [|v l]; [done|]. cbn [rowSetNDeepTree]. destruct d as [|d]; [simpl; split; [done|lia]|].
    pose proof (IH (v :: l)) as H1. destruct (rowSetNDeepTree (S d) (v :: l)) as [tl r1]; cbn [fst snd] in *.
    destruct H1 as [H1 H1']. specialize (H1' ltac:(done)). destruct r1 as [|v1 r1]; [simpl in *; split; [done|lia]|].
    pose proof (IH r1) as H2. destruct (rowSetNDeepTree (S d) r1) as [tr r2]; cbn [fst snd] in *.
    destruct H2 as [H2 H2']. split.
    + rewrite <- H1, <- H2. cbn [rowSetTreeToList]. by rewrite <- app_assoc.
    + intros _. assert (length r2 <= length r1)%nat by (rewrite <- H2, length_app; lia). simpl in *. lia.
Qed.

Lemma ListToTree_loop_spec fuel p l d :
  (length l <= fuel)%nat -> rowSetTreeToList (ListToTree_loop fuel p l d) = rowSetTreeToList p ++ l.
Proof.
  revert p l d. induction fuel as [|fuel IH]; intros p l d Hf.
  - destruct l; [|simpl in Hf; lia]. by rewrite app_nil_r.
  - destruct l as [|v l]; [by rewrite app_nil_r|]. cbn [ListToTree_loop].
    destruct (NDeepTree_spec d l) as [H1 _]. destruct (rowSetNDeepTree d l) as [tr r]; cbn [fst snd] in H1.
    rewrite IH; [|simpl in Hf; assert (length r <= length l)%nat by (rewrite <- H1, length_app; lia); lia].
    cbn [rowSetTreeToList]. rewrite <- H1, <- !app_assoc. done.
Qed.

Lemma ListToTree_list l : rowSetTreeToList (rowSetListToTree l) = l.
Proof. destruct l as [|v l]; [done|]. simpl. by rewrite ListToTree_loop_spec by lia. Qed.

Lemma increasing_app A B :
  increasing (A ++ B) <-> increasing A /\ increasing B /\ (forall x y, x ∈ A -> y ∈ B -> x < y).
Proof.
  induction A as [|a A IH]; simpl.
  - split; [intros H; split_and!; [constructor|done|set_solver]|by intros (_ & H & _)].
  - rewrite !increasing_cons, IH, Forall_app, !Forall_forall. set_solver.
Qed.

Lemma tree_search_spec t x :
  increasing (rowSetTreeToList t) -> tree_search t x = true <-> x ∈ rowSetTreeToList t.
Proof.
  induction t as [|l IHl v r IHr]; simpl; [set_solver|].
  intros (Hl & [Hr Hv]%increasing_cons & Hlr)%increasing_app. rewrite Forall_forall in Hv.
  rewrite elem_of_app, elem_of_cons.
  destruct (Z.ltb_spec v x) as [H1|H1]; [|destruct (Z.ltb_spec x v) as [H2|H2]].
  - rewrite IHr by done. split; [auto|]. intros [H|[->|H]]; [|lia|done].
    specialize (Hlr x v H ltac:(set_solver)). lia.
  - rewrite IHl by done. split; [auto|]. intros [H|[->|H]]; [done|lia|]. specialize (Hv x H). lia.
  - split; [intros _|done]. right. left. lia.
Qed.

(** ** The collection as a whole *)

(** What a RowSet that is tested holds: the rowids of finished batches, those of the
    current batch, and its number. *)
Record rs_spec := mk_spec { visible : list Z; pending : list Z; batch : Z }.

Inductive rs_op := OpInsert (rowid : Z) | OpTest (b iRowid : Z).

Definition spec_step (s : rs_spec) (op : rs_op) : option bool * rs_spec :=
  match op with
  | OpInsert v => (None, mk_spec (visible s) (pending s ++ [v]) (batch s))
  | OpTest b x =>
      let s := if b =? batch s then s else mk_spec (visible s ++ pending s) [] b in
      (Some (bool_decide (x ∈ visible s)), s)
  end.

Definition rs_step (p : RowSet) (op : rs_op) : outcome (option bool * RowSet) :=
  match op with
  | OpInsert v => Done (None, sqlite3RowSetInsert false p v)
  | OpTest b x => r ← sqlite3RowSetTest false p b x; Done (Some (fst r), snd r)
  end.

Fixpoint spec_run (s : rs_spec) (ops : list rs_op) : list (option bool) :=
  match ops with
  | [] => []
  | op :: ops => let (r, s) := spec_step s op in r :: spec_run s ops
  end.

Fixpoint rs_run (p : RowSet) (ops : list rs_op) : outcome (list (option bool)) :=
  match ops with
  | [] => Done []
  | op :: ops => r ← rs_step p op; rs ← rs_run (snd r) ops; Done (fst r :: rs)
  end.

(** The invariant: the list ends in [pLast], is increasing when flagged so; trees are
    search trees. *)
Definition rs_ok (p : RowSet) : Prop :=
  rs_next p = false /\ pLast p = last (pEntry p) /\ (rs_sorted p = true -> increasing (pEntry p)) /\
  Forall (fun t => increasing (rowSetTreeToList t)) (pForest p).

Definition forest_elems (f : list tree) : list Z := concat (map rowSetTreeToList f).

Definition rs_rel (p : RowSet) (s : rs_spec) : Prop :=
  rs_ok p /\ iBatch p = batch s /\ pEntry p = pending s /\
  (forall x, x ∈ forest_elems (pForest p) <-> x ∈ visible s).

Lemma alloc_some p : exists p', rowSetEntryAlloc false p = Some p' /\
  pEntry p' = pEntry p /\ pLast p' = pLast p /\ pForest p' = pForest p /\
  rs_sorted p' = rs_sorted p /\ rs_next p' = rs_next p /\ iBatch p' = iBatch p.
Proof. unfold rowSetEntryAlloc. destruct (_ =? 0); eexists; split_and!; done. Qed.

Lemma increasing_snoc l v : increasing l -> (forall x, last l = Some x -> x < v) -> increasing (l ++ [v]).
Proof.
  intros Hl Hv. apply increasing_app. split_and!; [done|repeat constructor|].
  intros x y Hx ->%list_elem_of_singleton. destruct l as [|z l _] using rev_ind; [set_solver|].
  rewrite last_snoc in Hv. specialize (Hv z eq_refl).
  apply increasing_app in Hl as (_ & _ & H). apply elem_of_app in Hx as [Hx|Hx%list_elem_of_singleton]; [|lia].
  specialize (H x z Hx ltac:(set_solver)). lia.
Qed.

Lemma Insert_ok p v :
  rs_ok p ->
  let p' := sqlite3RowSetInsert false p v in
  rs_ok p' /\ pEntry p' = pEntry p ++ [v] /\ pForest p' = pForest p /\ iBatch p' = iBatch p.
Proof.
  intros (Hn & Hl & Hs & Hf). unfold sqlite3RowSetInsert.
  destruct (alloc_some p) as (p' & -> & E1 & E2 & E3 & E4 & E5 & E6). rewrite E1, E2, E3, E4, E5, E6.
  unfold rs_ok; simpl. rewrite Hl.
  assert (Ea : (match last (pEntry p) with Some _ => pEntry p ++ [v] | None => [v] end) = pEntry p ++ [v]).
  { destruct (pEntry p) as [|z l _] using rev_ind; [done|]. by rewrite last_snoc. }
  rewrite Ea. split_and!; try done; [by rewrite last_snoc|].
  destruct (last (pEntry p)) as [z|] eqn:Ez.
  - destruct (Z.leb_spec v z); [done|]. intros Hs'. apply increasing_snoc; [by apply Hs|].
    rewrite Ez. by intros x [= ->].
  - intros Hs'. apply increasing_snoc; [by apply Hs|]. by rewrite Ez.
Qed.

Lemma forest_add_spec f l :
  Forall (fun t => increasing (rowSetTreeToList t)) f -> increasing l ->
  let r := forest_add f l in
  Forall (fun t => increasing (rowSetTreeToList t)) (fst r) /\
  match snd r with Some l' => increasing l' | None => True end /\
  (forall x, (x ∈ forest_elems (fst r) \/ x ∈ default [] (snd r)) <-> x ∈ forest_elems f \/ x ∈ l).
Proof.
  intros Hf. revert l. induction Hf as [|t f Ht Hf IH]; intros l Hl; cbv zeta.
  - simpl. split_and!; [constructor|done|done].
  - cbn [forest_add]. destruct t as [|tl v tr].
    + cbn [fst snd default]. split_and!; [|done|].
      * constructor; [by rewrite ListToTree_list|done].
      * intros x. unfold forest_elems. cbn [map concat rowSetTreeToList]. rewrite ListToTree_list. set_solver.
    + set (t := Node tl v tr) in *.
      destruct (IH (rowSetEntryMerge (rowSetTreeToList t) l)) as (H1 & H2 & H3); [by apply merge_increasing|].
      destruct (forest_add f _) as [f' left]; cbn [fst snd] in *. split_and!; [|done|].
      * constructor; [constructor|done].
      * intros x. specialize (H3 x). rewrite elem_of_merge in H3.
        change (forest_elems (Leaf :: f')) with (forest_elems f').
        change (forest_elems (t :: f)) with (rowSetTreeToList t ++ forest_elems f).
        rewrite H3, elem_of_app. tauto.
Qed.

Lemma forest_elems_app f g : forest_elems (f ++ g) = forest_elems f ++ forest_elems g.
Proof. unfold forest_elems. by rewrite map_app, concat_app. Qed.

Lemma end_batch_ok p b :
  rs_ok p -> len (pEntry p) < 2 ^ 40 ->
  exists p', end_batch false b p = Done p' /\ rs_ok p' /\ iBatch p' = b /\ pEntry p' = [] /\
    (forall x, x ∈ forest_elems (pForest p') <-> x ∈ forest_elems (pForest p) \/ x ∈ pEntry p).
Proof.
  intros (Hn & Hl & Hs & Hf) Hlen. unfold end_batch. destruct (pEntry p) as [|v e] eqn:Ee.
  - eexists. split; [done|]. unfold rs_ok; simpl. split_and!; try done. intros x. set_solver.
  - set (l := v :: e) in *.
    assert (exists s, (if rs_sorted p then Done l else rowSetEntrySort l) = Done s /\ increasing s /\
      (forall x, x ∈ s <-> x ∈ l)) as (s & -> & H1 & H2).
    { destruct (rs_sorted p) eqn:Es; [|by apply sort_spec].
      exists l. split_and!; try done. apply Hs. done. }
    cbn [mbind outcome_bind]. destruct (forest_add_spec (pForest p) s Hf H1) as (H3 & H4 & H5).
    destruct (forest_add (pForest p) s) as [f left]; cbn [fst snd] in *.
    destruct left as [l'|].
    + destruct (alloc_some p) as (p' & -> & _). eexists. split; [done|]. unfold rs_ok; simpl.
      split_and!; try done; [by constructor| |].
      * apply Forall_app. split; [done|]. constructor; [by rewrite ListToTree_list|constructor].
      * intros x. rewrite forest_elems_app, elem_of_app. specialize (H5 x). simpl in H5.
        unfold forest_elems at 2. cbn [map concat]. rewrite ListToTree_list, app_nil_r, H5, H2. done.
    + eexists. split; [done|]. unfold rs_ok; simpl. split_and!; try done; [by constructor|].
      intros x. specialize (H5 x). simpl in H5. rewrite <- H2, <- H5. set_solver.
Qed.

Lemma existsb_search f x :
  Forall (fun t => increasing (rowSetTreeToList t)) f ->
  existsb (fun t => tree_search t x) f = true <-> x ∈ forest_elems f.
Proof.
  unfold forest_elems. induction 1 as [|t f Ht Hf IH]; simpl; [split; [done|set_solver]|].
  by rewrite orb_true_iff, IH, tree_search_spec, elem_of_app.
Qed.

Lemma Test_ok p s b x :
  rs_rel p s -> len (pending s) < 2 ^ 40 ->
  exists p', sqlite3RowSetTest false p b x = Done (bool_decide (x ∈ visible (snd (spec_step s (OpTest b x)))), p') /\
    rs_rel p' (snd (spec_step s (OpTest b x))).
Proof.
  intros (Hok & Hb & Hp & Hv) Hlen. unfold sqlite3RowSetTest. simpl. rewrite <- Hb.
  assert (Out : forall p' (v : list Z), rs_ok p' -> (forall x : Z, x ∈ forest_elems (pForest p') <-> x ∈ v) ->
    existsb (fun t => tree_search t x) (pForest p') = bool_decide (x ∈ v)).
  { intros p' v (_ & _ & _ & Hf) E. apply eq_true_iff_eq. rewrite existsb_search, bool_decide_eq_true by done. apply E. }
  destruct (Z.eqb_spec b (iBatch p)) as [->|Hne]; cbn [mbind outcome_bind].
  - exists p. split; [by rewrite (Out p (visible s))|]. by split_and!.
  - destruct (end_batch_ok p b Hok) as (p' & -> & H1 & H2 & H3 & H4); [by rewrite Hp|].
    cbn [mbind outcome_bind]. simpl.
    assert (E : forall y, y ∈ forest_elems (pForest p') <-> y ∈ visible s ++ pending s)
      by (intros y; by rewrite H4, Hv, Hp, elem_of_app).
    exists p'. split; [by rewrite (Out p' (visible s ++ pending s))|]. by split_and!.
Qed.

Definition inserts (ops : list rs_op) : Z :=
  Z.of_nat (length (List.filter (fun o => match o with OpInsert _ => true | _ => false end) ops)).

Lemma inserts_insert v ops : inserts (OpInsert v :: ops) = 1 + inserts ops.
Proof. unfold inserts. cbn [List.filter length]. lia. Qed.

Lemma rs_run_spec p s ops :
  rs_rel p s -> len (pending s) + inserts ops < 2 ^ 40 -> rs_run p ops = Done (spec_run s ops).
Proof.
  revert p s. induction ops as [|op ops IH]; intros p s Hr Hn; [done|]. cbn [rs_run spec_run].
  destruct op as [v|b x].
  - destruct Hr as (Hok & Hb & Hp & Hv). destruct (Insert_ok p v Hok) as (H1 & H2 & H3 & H4).
    cbn [rs_step mbind outcome_bind spec_step snd]. rewrite (IH _ (mk_spec (visible s) (pending s ++ [v]) (batch s))).
    + done.
    + unfold rs_rel; simpl. rewrite H2, H3, H4, Hp. by split_and!.
    + rewrite inserts_insert in Hn. cbn [pending]. rewrite length_app. simpl length. lia.
  - change (inserts (OpTest b x :: ops)) with (inserts ops) in Hn. assert (0 <= inserts ops) by (unfold inserts; lia).
    destruct (Test_ok p s b x Hr ltac:(lia)) as (p' & E & Hr').
    cbn [rs_step]. rewrite E. cbn [mbind outcome_bind fst snd].
    rewrite (IH p' _ Hr').
    + done.
    + cbn [spec_step snd]. destruct (b =? batch s); cbn [pending length]; lia.
Qed.

Lemma init_ok extra : rs_rel (sqlite3RowSetInit extra) (mk_spec [] [] 0).
Proof. unfold rs_rel, rs_ok. simpl. split_and!; try done; constructor. Qed.

(** C36. Used with [sqlite3RowSetTest], a RowSet refines a set with batches: for every
    sequence of insertions and tests (fewer than 2^40 insertions, memory available), no
    array is overrun and every test answers whether the rowid was inserted before the
    last change of batch number. *)
Theorem RowSet_test_refines (extra : Z) (ops : list rs_op) :
  inserts ops < 2 ^ 40 ->
  rs_run (sqlite3RowSetInit extra) ops = Done (spec_run (mk_spec [] [] 0) ops).
Proof. intros H. apply rs_run_spec; [apply init_ok|]. simpl. lia. Qed.

Lemma RowSet_test_refines_witness :
  rs_run (sqlite3RowSetInit 5) [OpInsert 7; OpTest 1 7; OpInsert 3; OpTest 1 3; OpTest 2 3] =
  Done [None; Some true; None; Some false; Some true].
Proof.
  apply (RowSet_test_refines 5 [OpInsert 7; OpTest 1 7; OpInsert 3; OpTest 1 3; OpTest 2 3]).
  vm_compute. reflexivity.
Defined.

(** ** Extraction *)

(** Call [sqlite3RowSetNext] until it returns 0. *)
Fixpoint drain (fuel : nat) (p : RowSet) : outcome (list Z) :=
  match fuel with
  | O => UB
  | S fuel =>
      r ← sqlite3RowSetNext p;
      match fst r with
      | None => Done []
      | Some v => vs ← drain fuel (snd r); Done (v :: vs)
      end
  end.

Definition insert_all (p : RowSet) (l : list Z) : RowSet := fold_left (sqlite3RowSetInsert false) l p.

Lemma insert_all_ok p l :
  rs_ok p -> rs_ok (insert_all p l) /\ pEntry (insert_all p l) = pEntry p ++ l.
Proof.
  revert p. induction l as [|v l IH]; intros p Hp; simpl; [by rewrite app_nil_r|].
  destruct (Insert_ok p v Hp) as (H1 & H2 & _). destruct (IH _ H1) as [H3 H4].
  split; [done|]. by rewrite H4, H2, <- app_assoc.
Qed.

(** Once the list is sorted and flagged, extraction returns it. *)
Lemma drain_sorted fuel p :
  rs_next p = true \/ rs_sorted p = true -> (length (pEntry p) < fuel)%nat -> drain fuel p = Done (pEntry p).
Proof.
  revert p. induction fuel as [|fuel IH]; intros p Hp Hf; [lia|]. cbn [drain].
  unfold sqlite3RowSetNext.
  assert (exists p', (if rs_next p then Done p else
      e ← (if rs_sorted p then Done (pEntry p) else rowSetEntrySort (pEntry p));
      Done (mk_rowset (nChunk p) e (pLast p) (nFresh p) (pForest p) true true (iBatch p))) = Done p' /\
    rs_next p' = true /\ pEntry p' = pEntry p) as (p' & -> & Hn & He).
  { destruct (rs_next p) eqn:En; [by eauto|]. destruct Hp as [|Hp]; [done|]. rewrite Hp. by eexists. }
  cbn [mbind outcome_bind]. rewrite He. destruct (pEntry p) as [|v rest] eqn:Ee; [done|].
  cbn [mbind outcome_bind fst snd]. destruct rest as [|w rest].
  - rewrite IH; [done|by right|simpl in *; lia].
  - rewrite IH; [done|by left|simpl in *; lia].
Qed.

(** Used with [sqlite3RowSetNext], a RowSet sorts: after inserting any list of fewer
    than 2^40 rowids, extraction returns the distinct rowids of the list in increasing
    order, and then 0. *)
Theorem RowSet_next_sorts (extra : Z) (l : list Z) :
  len l < 2 ^ 40 ->
  exists s, drain (S (length l)) (insert_all (sqlite3RowSetInit extra) l) = Done s /\
    StronglySorted Z.lt s /\ (forall x, x ∈ s <-> x ∈ l).
Proof.
  intros Hl. destruct (init_ok extra) as (Hok & _).
  destruct (insert_all_ok _ l Hok) as [(Hn & _ & Hs & _) He]. simpl in He.
  set (p := insert_all (sqlite3RowSetInit extra) l) in *.
  destruct (rs_sorted p) eqn:Es.
  - exists (pEntry p). split_and!; [|by apply Hs|by rewrite He].
    apply drain_sorted; [by right|rewrite He; lia].
  - destruct (sort_spec l Hl) as (s & E & H1 & H2). exists s. split_and!; [|done|done].
    assert (Hls : (length s <= length l)%nat).
    { assert (Hnd : NoDup s).
      { clear -H1. induction H1 as [|x s Hs IH Hx]; constructor; [|done].
        intros Hin. rewrite Forall_forall in Hx. specialize (Hx x Hin). lia. }
      apply submseteq_length, NoDup_submseteq; [done|]. intros x Hx. by apply H2. }
    cbn [drain]. unfold sqlite3RowSetNext. rewrite Hn, Es, He, E. cbn [mbind outcome_bind pEntry].
    destruct s as [|v rest]; [done|]. cbn [mbind outcome_bind fst snd]. destruct rest as [|w rest].
    + rewrite drain_sorted; [done|by right|]. simpl in *. lia.
    + rewrite drain_sorted; [done|by left|]. simpl in *. lia.
Qed.

Lemma RowSet_next_sorts_witness :
  exists s, drain 5 (insert_all (sqlite3RowSetInit 2) [5; 3; 5; 1]) = Done s /\
    StronglySorted Z.lt s /\ (forall x, x ∈ s <-> x ∈ [5; 3; 5; 1]).
Proof. apply (RowSet_next_sorts 2 [5; 3; 5; 1]). vm_compute. reflexivity. Defined.
