(* ===== verification/Bitvec.v ===== *)
(** * Bitvec: sparse bitmaps (bitvec.c)

    The three representations of a Bitvec -- a bitmap, an open-addressing hash table of
    values, an array of smaller Bitvecs -- with [sqlite3BitvecSet] moving from the
    second to the third.  The union [u] is one of three arrays; a fresh, zeroed union is
    the one the other fields select, and accessing it as another is undefined.
    Pointers have 8 bytes.  [m] is the list of answers of [malloc], true for success; an
    exhausted list goes on answering true. *)

From S2P Require Import Prelude.

(** ** Constants and state *)

Definition BITVEC_SZ : Z := 512.
Definition BITVEC_USIZE : Z := (BITVEC_SZ - 3 * 4) / 8 * 8.
Definition BITVEC_SZELEM : Z := 8.
Definition BITVEC_NELEM : Z := BITVEC_USIZE / 1.
Definition BITVEC_NBIT : Z := BITVEC_NELEM * BITVEC_SZELEM.
Definition BITVEC_NINT : Z := BITVEC_USIZE / 4.
Definition BITVEC_MXHASH : Z := BITVEC_NINT / 2.
Definition BITVEC_HASH (x : Z) : Z := u32 (x * 1) mod BITVEC_NINT.
Definition BITVEC_NPTR : Z := BITVEC_USIZE / 8.

Inductive Bitvec := mk_bitvec (iSize nSet iDivisor : Z) (u : bv_union)
with bv_union :=
| aBitmap (l : list Z)
| aHash (l : list Z)
| apSub (l : list (option Bitvec)).

Definition iSize (p : Bitvec) : Z := let 'mk_bitvec s _ _ _ := p in s.
Definition iDivisor (p : Bitvec) : Z := let 'mk_bitvec _ _ d _ := p in d.

(** The zeroed union, seen as the array that [iSize] selects. *)
Definition zero_union (iSize : Z) : bv_union :=
  if iSize <=? BITVEC_NBIT then aBitmap (replicate (Z.to_nat BITVEC_NELEM) 0)
  else aHash (replicate (Z.to_nat BITVEC_NINT) 0).

Abbreviation mallocs := (list bool).
Definition malloc (m : mallocs) : bool * mallocs :=
  match m with [] => (true, []) | b :: m => (b, m) end.

Definition sqlite3BitvecCreate (m : mallocs) (iSize : Z) : option Bitvec * mallocs :=
  let (ok, m) := malloc m in
  (if ok then Some (mk_bitvec iSize 0 0 (zero_union iSize)) else None, m).

(** Array accesses; outside the array is undefined. *)
Definition rd (l : list Z) (i : Z) : outcome Z :=
  if 0 <=? i then match l !! Z.to_nat i with Some x => Done x | None => UB end else UB.
Definition wr (l : list Z) (i x : Z) : outcome (list Z) :=
  if (0 <=? i) && (i <? len l) then Done (<[Z.to_nat i := x]> l) else UB.

(** ** Test *)

(** [while( p->u.aHash[h] ){ if( p->u.aHash[h]==i ) return 1; h = (h+1)%BITVEC_NINT; }
    return 0;] *)
Fixpoint hash_test (fuel : nat) (l : list Z) (i h : Z) : outcome bool :=
  match fuel with
  | O => UB
  | S fuel =>
      x ← rd l h;
      if x =? 0 then Done false
      else if x =? i then Done true
      else hash_test fuel l i ((h + 1) mod BITVEC_NINT)
  end.

(** The part of a test below the [while( p->iDivisor )] loop; [i] is 0-based. *)
Definition leaf_test (iSize : Z) (u : bv_union) (i : Z) : outcome bool :=
  if iSize <=? BITVEC_NBIT then
    match u with
    | aBitmap l => x ← rd l (i / BITVEC_SZELEM); Done (negb (x .& (1 << (i .& (BITVEC_SZELEM - 1))) =? 0))
    | _ => UB
    end
  else
    match u with
    | aHash l => hash_test (S (length l)) l (u32 (i + 1)) (BITVEC_HASH i)
    | _ => UB
    end.

(** The loop over [apSub]: [fuel] levels. *)
Fixpoint test_loop (fuel : nat) (p : Bitvec) (i : Z) : outcome bool :=
  match fuel with
  | O => UB
  | S fuel =>
      let 'mk_bitvec sz _ dv u := p in
      if dv =? 0 then leaf_test sz u i
      else match u with
           | apSub l => match l !! Z.to_nat (i / dv) with
                        | None => UB
                        | Some None => Done false
                        | Some (Some q) => test_loop fuel q (i mod dv)
                        end
           | _ => UB
           end
  end.

(** Levels of sub-bitmaps an [iSize] below 2^32 can have, with room. *)
Definition DEPTH : nat := 8.

Definition sqlite3BitvecTestNotNull (p : Bitvec) (i : Z) : outcome bool :=
  let i := u32 (i - 1) in
  if iSize p <=? i then Done false else test_loop DEPTH p i.

Definition sqlite3BitvecTest (p : option Bitvec) (i : Z) : outcome bool :=
  match p with None => Done false | Some p => sqlite3BitvecTestNotNull p i end.

(** ** Set *)

Inductive slot := AlreadySet | FreeAt (h : Z).

(** [do { if( aHash[h]==i ) return SQLITE_OK; h++; if( h>=BITVEC_NINT ) h = 0; }
    while( aHash[h] );] *)
Fixpoint hash_probe (fuel : nat) (l : list Z) (i h : Z) : outcome slot :=
  match fuel with
  | O => UB
  | S fuel =>
      x ← rd l h;
      if x =? i then Done AlreadySet
      else
        let h := if BITVEC_NINT <=? h + 1 then 0 else h + 1 in
        y ← rd l h;
        if y =? 0 then Done (FreeAt h) else hash_probe fuel l i h
  end.

Definition SQLITE_OK : Z := 0.
Definition SQLITE_NOMEM : Z := 7.

(** The result, the new object and the remaining answers of [malloc]. *)
Abbreviation set_result := (outcome (Z * Bitvec * mallocs)).

(** [i] is 1-based as in the source; each level takes one unit of fuel, and the
    recursive calls of the re-hash one more. *)
Fixpoint bitvec_set (fuel : nat) (m : mallocs) (p : Bitvec) (i : Z) : set_result :=
  match fuel with
  | O => UB
  | S fuel =>
      let 'mk_bitvec sz nSet dv u := p in
      let i := u32 (i - 1) in
      if (BITVEC_NBIT <? sz) && negb (dv =? 0) then
        (* one turn of the loop over [apSub], then the rest on the sub-bitmap *)
        match u with
        | apSub l =>
            let bin := i / dv in
            let i := i mod dv in
            match l !! Z.to_nat bin with
            | None => UB
            | Some q =>
                let (q, m) := match q with Some q => (Some q, m) | None => sqlite3BitvecCreate m dv end in
                match q with
                | None => Done (SQLITE_NOMEM, p, m)
                | Some q =>
                    '(rc, q, m) ← bitvec_set fuel m q (i + 1);
                    Done (rc, mk_bitvec sz nSet dv (apSub (<[Z.to_nat bin := Some q]> l)), m)
                end
            end
        | _ => UB
        end
      else if sz <=? BITVEC_NBIT then
        match u with
        | aBitmap l =>
            x ← rd l (i / BITVEC_SZELEM);
            l ← wr l (i / BITVEC_SZELEM) (x .| u8 (1 << (i .& (BITVEC_SZELEM - 1))));
            Done (SQLITE_OK, mk_bitvec sz nSet dv (aBitmap l), m)
        | _ => UB
        end
      else
        match u with
        | aHash l =>
            let h := BITVEC_HASH i in
            let i := u32 (i + 1) in
            let set_end h :=
              l ← wr l h i; Done (SQLITE_OK, mk_bitvec sz (u32 (nSet + 1)) dv (aHash l), m) in
            let set_rehash h :=
              if BITVEC_MXHASH <=? nSet then
                let (ok, m) := malloc m in
                if negb ok then Done (SQLITE_NOMEM, p, m)
                else
                  let dv := u32 (sz + BITVEC_NPTR - 1) / BITVEC_NPTR in
                  let p := mk_bitvec sz nSet dv
                             (if dv =? 0 then zero_union sz
                              else apSub (replicate (Z.to_nat BITVEC_NPTR) None)) in
                  r ← bitvec_set fuel m p i;
                  fold_left (fun acc v =>
                      '(rc, p, m) ← acc;
                      if v =? 0 then Done (rc, p, m)
                      else '(rc', p, m) ← bitvec_set fuel m p v; Done (rc .| rc', p, m))
                    l (Done r)
              else set_end h in
            x ← rd l h;
            if x =? 0 then
              if nSet <? BITVEC_NINT - 1 then set_end h else set_rehash h
            else
              s ← hash_probe (S (length l)) l i h;
              match s with
              | AlreadySet => Done (SQLITE_OK, p, m)
              | FreeAt h => set_rehash h
              end
        | _ => UB
        end
  end.

Definition sqlite3BitvecSet (m : mallocs) (p : option Bitvec) (i : Z) : outcome (Z * option Bitvec * mallocs) :=
  match p with
  | None => Done (SQLITE_OK, None, m)
  | Some p => '(rc, p, m) ← bitvec_set (2 * DEPTH) m p i; Done (rc, Some p, m)
  end.

(** ** Clear *)

(** [while( aHash[h] ){ h++; if( h>=BITVEC_NINT ) h = 0; }] *)
Fixpoint hash_free (fuel : nat) (l : list Z) (h : Z) : outcome Z :=
  match fuel with
  | O => UB
  | S fuel =>
      x ← rd l h;
      if x =? 0 then Done h else hash_free fuel l (if BITVEC_NINT <=? h + 1 then 0 else h + 1)
  end.

(** The loop that rebuilds the table: [nSet] and the table so far. *)
Fixpoint clear_loop (aiValues : list Z) (i nSet : Z) (l : list Z) : outcome (Z * list Z) :=
  match aiValues with
  | [] => Done (nSet, l)
  | v :: vs =>
      if negb (v =? 0) && negb (v =? u32 (i + 1)) then
        h ← hash_free (S (length l)) l (BITVEC_HASH (u32 (v - 1)));
        l ← wr l h v;
        clear_loop vs i (u32 (nSet + 1)) l
      else clear_loop vs i nSet l
  end.

Fixpoint clear_walk (fuel : nat) (p : Bitvec) (i : Z) : outcome Bitvec :=
  match fuel with
  | O => UB
  | S fuel =>
      let 'mk_bitvec sz nSet dv u := p in
      if negb (dv =? 0) then
        match u with
        | apSub l => match l !! Z.to_nat (i / dv) with
                     | None => UB
                     | Some None => Done p
                     | Some (Some q) =>
                         q ← clear_walk fuel q (i mod dv);
                         Done (mk_bitvec sz nSet dv (apSub (<[Z.to_nat (i / dv) := Some q]> l)))
                     end
        | _ => UB
        end
      else if sz <=? BITVEC_NBIT then
        match u with
        | aBitmap l =>
            x ← rd l (i / BITVEC_SZELEM);
            l ← wr l (i / BITVEC_SZELEM) (x .& u8 (Z.lnot (1 << (i .& (BITVEC_SZELEM - 1)))));
            Done (mk_bitvec sz nSet dv (aBitmap l))
        | _ => UB
        end
      else
        match u with
        | aHash l =>
            r ← clear_loop l i 0 (replicate (Z.to_nat BITVEC_NINT) 0);
            Done (mk_bitvec sz (fst r) dv (aHash (snd r)))
        | _ => UB
        end
  end.

Definition sqlite3BitvecClear (p : option Bitvec) (i : Z) : outcome (option Bitvec) :=
  match p with
  | None => Done None
  | Some p => p ← clear_walk DEPTH p (u32 (i - 1)); Done (Some p)
  end.

Definition sqlite3BitvecSize (p : Bitvec) : Z := iSize p.

(** ** Open addressing *)

Section hash.
Abbreviation N := 124.
Abbreviation hcells l := (length l = 124%nat).

(** The cell at offset [k] from position [h], cyclically. *)
Definition cell (l : list Z) (h k : Z) : Z := nth (Z.to_nat ((h + k) mod N)) l 0.

Lemma hash_pos_range h k : 0 <= (h + k) mod N < N.
Proof. apply Z.mod_pos_bound. lia. Qed.

Lemma rd_cell l h k : hcells l -> rd l ((h + k) mod N) = Done (cell l h k).
Proof.
  intros Hl. pose proof (hash_pos_range h k). unfold rd, cell.
  rewrite (proj2 (Z.leb_le 0 _)) by lia.
  destruct (lookup_lt_is_Some_2 l (Z.to_nat ((h + k) mod N))) as [x Hx]; [lia|].
  by rewrite Hx, (nth_lookup_Some _ _ _ _ Hx).
Qed.

Lemma next_mod h k : ((h + k) mod N + 1) mod N = (h + (k + 1)) mod N.
Proof. rewrite Zplus_mod_idemp_l. f_equal. lia. Qed.

Lemma next_wrap h k : (if N <=? (h + k) mod N + 1 then 0 else (h + k) mod N + 1) = (h + (k + 1)) mod N.
Proof.
  rewrite <- next_mod. pose proof (hash_pos_range h k). destruct (Z.leb_spec N ((h + k) mod N + 1)).
  - replace ((h + k) mod N + 1) with (1 * N) by lia. by rewrite Z.mod_mul by lia.
  - symmetry. apply Z.mod_small. lia.
Qed.

Lemma start_mod h : 0 <= h < N -> h = (h + 0) mod N.
Proof. intros. by rewrite Z.add_0_r, Z.mod_small. Qed.

(** The first empty offset from [h]. *)
Definition first_empty (l : list Z) (h e : Z) : Prop :=
  0 <= e < N /\ cell l h e = 0 /\ forall k, 0 <= k < e -> cell l h k <> 0.

Lemma first_empty_exists l h e : 0 <= e < N -> cell l h e = 0 -> exists e0, first_empty l h e0.
Proof.
  intros He. replace e with (Z.of_nat (Z.to_nat e)) by lia.
  assert (Z.to_nat e < 124)%nat as Hn by lia. revert Hn. generalize (Z.to_nat e) as n. clear e He.
  intros n. induction n as [n IH] using lt_wf_ind. intros Hn Hc.
  destruct (decide (Exists (fun k => cell l h k = 0) (seqZ 0 (Z.of_nat n)))) as [Hex|Hno].
  - apply Exists_exists in Hex as (k & Hk%elem_of_seqZ & Ek).
    apply (IH (Z.to_nat k)); [lia|lia|by rewrite Z2Nat.id by lia].
  - exists (Z.of_nat n). split_and!; [lia|lia|done|]. intros k Hk Ek. apply Hno, Exists_exists.
    exists k. rewrite elem_of_seqZ. split; [lia|done].
Qed.

Definition occupied (x : Z) : bool := negb (x =? 0).
Definition nz (l : list Z) : Z := len (List.filter occupied l).

Lemma nz_lt_exists l h : hcells l -> nz l < N -> exists e, first_empty l h e.
Proof.
  intros Hl Hn. assert (exists c, l !! c = Some 0) as [c Hc].
  { destruct (decide (0 ∈ l)) as [Hin|Hno]; [by apply list_elem_of_lookup_1|]. exfalso.
    assert (List.filter occupied l = l).
    { clear -Hno. induction l as [|x l IH]; [done|]. simpl. unfold occupied at 1.
      rewrite not_elem_of_cons in Hno. destruct Hno as [H1 H2].
      rewrite (proj2 (Z.eqb_neq x 0)) by done. simpl. by rewrite IH. }
    unfold nz in Hn. rewrite H in Hn. lia. }
  pose proof (lookup_lt_Some _ _ _ Hc) as Hlt.
  apply (first_empty_exists l h ((Z.of_nat c - h) mod N)); [apply Z.mod_pos_bound; lia|].
  unfold cell. rewrite Zplus_mod_idemp_r. replace (h + (Z.of_nat c - h)) with (Z.of_nat c) by lia.
  rewrite Z.mod_small, Nat2Z.id by lia. by apply nth_lookup_Some.
Qed.

(** The loops, started at offset [k] before the first empty cell. *)
Lemma hash_test_spec l h i e fuel k :
  hcells l -> first_empty l h e -> i <> 0 -> 0 <= k <= e -> (Z.to_nat (e - k) < fuel)%nat ->
  exists b, hash_test fuel l i ((h + k) mod N) = Done b /\
    (b = true <-> exists j, k <= j < e /\ cell l h j = i).
Proof.
  intros Hl (He & Ee & Hf) Hi. revert k. induction fuel as [|fuel IH]; intros k Hk Hfuel; [lia|].
  cbn [hash_test]. rewrite rd_cell by done. cbn [mbind outcome_bind].
  destruct (Z.eqb_spec (cell l h k) 0) as [E0|E0].
  - assert (k = e) as -> by (destruct (Z.eq_dec k e); [done|]; exfalso; apply (Hf k); lia || done).
    exists false. split; [done|]. split; [done|]. intros (j & Hj & _). lia.
  - assert (k <> e) by congruence. destruct (Z.eqb_spec (cell l h k) i) as [E1|E1].
    + exists true. split; [done|]. split; [intros _; exists k; split; [lia|done]|done].
    + change BITVEC_NINT with N. rewrite next_mod. destruct (IH (k + 1)) as (b & -> & Hb); [lia|lia|].
      exists b. split; [done|]. rewrite Hb. split; intros (j & Hj & Ej).
      * exists j. split; [lia|done].
      * exists j. destruct (Z.eq_dec j k) as [->|]; [done|]. split; [lia|done].
Qed.

Lemma hash_probe_spec l h i e fuel k :
  hcells l -> first_empty l h e -> 0 <= k < e -> (Z.to_nat (e - k) < fuel)%nat ->
  exists s, hash_probe fuel l i ((h + k) mod N) = Done s /\
    (if s is FreeAt c then c = (h + e) mod N /\ (forall j, k <= j < e -> cell l h j <> i)
     else exists j, k <= j < e /\ cell l h j = i).
Proof.
  intros Hl (He & Ee & Hf). revert k. induction fuel as [|fuel IH]; intros k Hk Hfuel; [lia|].
  cbn [hash_probe]. rewrite rd_cell by done. cbn [mbind outcome_bind].
  destruct (Z.eqb_spec (cell l h k) i) as [E1|E1].
  - exists AlreadySet. split; [done|]. exists k. split; [lia|done].
  - change BITVEC_NINT with N. rewrite next_wrap, rd_cell by done. cbn [mbind outcome_bind].
    destruct (Z.eqb_spec (cell l h (k + 1)) 0) as [E0|E0].
    + assert (k + 1 = e) as <- by (destruct (Z.eq_dec (k + 1) e); [done|]; exfalso; apply (Hf (k + 1)); lia || done).
      eexists. split; [done|]. simpl. split; [done|]. intros j Hj. by replace j with k by lia.
    + assert (k + 1 <> e) by congruence. destruct (IH (k + 1)) as (s & -> & Hs); [lia|lia|].
      exists s. split; [done|]. destruct s.
      * destruct Hs as (j & Hj & Ej). exists j. split; [lia|done].
      * destruct Hs as [-> Hs]. split; [done|]. intros j Hj.
        destruct (Z.eq_dec j k) as [->|]; [done|]. apply Hs. lia.
Qed.

Lemma hash_free_spec l h e fuel k :
  hcells l -> first_empty l h e -> 0 <= k <= e -> (Z.to_nat (e - k) < fuel)%nat ->
  hash_free fuel l ((h + k) mod N) = Done ((h + e) mod N).
Proof.
  intros Hl (He & Ee & Hf). revert k. induction fuel as [|fuel IH]; intros k Hk Hfuel; [lia|].
  cbn [hash_free]. rewrite rd_cell by done. cbn [mbind outcome_bind].
  destruct (Z.eqb_spec (cell l h k) 0) as [E0|E0].
  - assert (k = e) as -> by (destruct (Z.eq_dec k e); [done|]; exfalso; apply (Hf k); lia || done). done.
  - assert (k <> e) by congruence. change BITVEC_NINT with N. rewrite next_wrap. apply IH; lia.
Qed.

(** Every stored value is reached from its hash without crossing an empty cell. *)
Definition hash_of (v : Z) : Z := BITVEC_HASH (v - 1).
Definition hash_ok (l : list Z) : Prop :=
  forall c v, 0 <= c < N -> nth (Z.to_nat c) l 0 = v -> v <> 0 ->
  exists k, 0 <= k < N /\ c = (hash_of v + k) mod N /\ forall k', 0 <= k' < k -> cell l (hash_of v) k' <> 0.

Lemma hash_of_range v : 0 <= hash_of v < N.
Proof. unfold hash_of, BITVEC_HASH. change BITVEC_NINT with N. apply Z.mod_pos_bound. lia. Qed.

Lemma in_cells l v : hcells l -> In v l <-> exists c, 0 <= c < N /\ nth (Z.to_nat c) l 0 = v.
Proof.
  intros Hl. split.
  - intros (n & Hn & E)%(In_nth _ _ 0). exists (Z.of_nat n). rewrite Nat2Z.id. split; [lia|done].
  - intros (c & Hc & <-). apply nth_In. lia.
Qed.

(** A value is in the table when it is before the first empty cell. *)
Lemma hash_found l v e :
  hcells l -> hash_ok l -> v <> 0 -> first_empty l (hash_of v) e ->
  In v l <-> exists j, 0 <= j < e /\ cell l (hash_of v) j = v.
Proof.
  intros Hl Hok Hv (He & Ee & Hf). rewrite in_cells by done. split.
  - intros (c & Hc & E). destruct (Hok c v Hc E Hv) as (k & Hk & -> & Hb). exists k. split; [|exact E].
    destruct (Z.lt_total k e) as [?|[->|?]]; [lia| |].
    + unfold cell in Ee. congruence.
    + exfalso. by apply (Hb e); [lia|].
  - intros (j & Hj & E). exists ((hash_of v + j) mod N). split; [apply hash_pos_range|exact E].
Qed.

Lemma nth_insert (l : list Z) c c' v :
  0 <= c < len l -> 0 <= c' < len l ->
  nth (Z.to_nat c') (<[Z.to_nat c := v]> l) 0 = if c' =? c then v else nth (Z.to_nat c') l 0.
Proof.
  intros Hc Hc'. destruct (Z.eqb_spec c' c) as [->|Hne].
  - apply nth_lookup_Some, list_lookup_insert_eq. lia.
  - rewrite !nth_lookup. rewrite list_lookup_insert_ne by lia. done.
Qed.

Lemma cell_insert_nonzero l h k c v :
  hcells l -> 0 <= c < N -> v <> 0 -> cell l h k <> 0 -> cell (<[Z.to_nat c := v]> l) h k <> 0.
Proof.
  intros Hl Hc Hv Hk. unfold cell in *. pose proof (hash_pos_range h k).
  rewrite nth_insert by lia. by destruct (_ =? _).
Qed.

(** Storing a value at its first empty cell. *)
Lemma hash_insert l v e :
  hcells l -> hash_ok l -> v <> 0 -> first_empty l (hash_of v) e ->
  let l' := <[Z.to_nat ((hash_of v + e) mod N) := v]> l in
  hcells l' /\ hash_ok l' /\ nz l' = nz l + 1 /\
  (forall x, x <> 0 -> In x l' <-> x = v \/ In x l).
Proof.
  intros Hl Hok Hv (He & Ee & Hf). set (c := (hash_of v + e) mod N).
  pose proof (hash_pos_range (hash_of v) e) as Hc. fold c in Hc. intros l'.
  assert (Hl' : hcells l') by (unfold l'; by rewrite length_insert).
  assert (Hc0 : nth (Z.to_nat c) l 0 = 0) by exact Ee.
  split_and!; [done| | |].
  - intros c' x Hc' E Hx. unfold l' in E. rewrite nth_insert in E by lia.
    destruct (Z.eqb_spec c' c) as [->|Hne].
    + subst x. exists e. split_and!; [lia|lia|done|]. intros k' Hk'. apply cell_insert_nonzero; auto.
    + destruct (Hok c' x Hc' E Hx) as (k & Hk & -> & Hb). exists k. split_and!; [lia|lia|done|].
      intros k' Hk'. apply cell_insert_nonzero; auto.
  - destruct (lookup_lt_is_Some_2 l (Z.to_nat c)) as [y Hy]; [lia|].
    rewrite (nth_lookup_Some _ _ _ _ Hy) in Hc0. subst y.
    destruct (list_update_split l _ 0 v Hy) as (l1 & l2 & E1 & E2 & _). unfold l'.
    rewrite E2, E1. unfold nz. rewrite !List.filter_app, !length_app. simpl.
    unfold occupied. simpl. rewrite (proj2 (Z.eqb_neq v 0)) by done. simpl. lia.
  - intros x Hx. rewrite !in_cells by done. unfold l'. split.
    + intros (c' & Hc' & E). rewrite nth_insert in E by lia. destruct (c' =? c); [by left|right; eauto].
    + intros [->|(c' & Hc' & E)].
      * exists c. split; [done|]. rewrite nth_insert by lia. by rewrite Z.eqb_refl.
      * exists c'. split; [done|]. rewrite nth_insert by lia.
        destruct (Z.eqb_spec c' c) as [->|]; [congruence|done].
Qed.

Lemma empty_table_ok :
  let l := replicate 124 0 in hcells l /\ hash_ok l /\ nz l = 0 /\ (forall x, x <> 0 -> ~ In x l).
Proof.
  cbv zeta. split_and!; [done| |done|].
  - intros c v Hc E Hv. exfalso. apply Hv. rewrite <- E.
    by rewrite nth_lookup, lookup_replicate_2 by lia.
  - intros x Hx Hin. apply list_elem_of_In, elem_of_replicate in Hin as [? _]. done.
Qed.
End hash.

(** ** Bitmaps *)

Section bitmap.
Abbreviation bmcells l := (length l = 496%nat).

(** Bit [j] of a bitmap. *)
Definition bm_bit (l : list Z) (j : Z) : bool := Z.testbit (nth (Z.to_nat (j / 8)) l 0) (j mod 8).

Lemma bm_index j : 0 <= j < 3968 -> 0 <= j / 8 < 496.
Proof. intros. split; [apply Z.div_pos|apply Z.div_lt_upper_bound]; lia. Qed.

Lemma rd_bm l j : bmcells l -> 0 <= j < 3968 -> rd l (j / 8) = Done (nth (Z.to_nat (j / 8)) l 0).
Proof.
  intros Hl Hj%bm_index. unfold rd.
  rewrite (proj2 (Z.leb_le 0 _)) by lia.
  destruct (lookup_lt_is_Some_2 l (Z.to_nat (j / 8))) as [x Hx]; [lia|].
  by rewrite Hx, (nth_lookup_Some _ _ _ _ Hx).
Qed.

Lemma wr_bm l j x : bmcells l -> 0 <= j < 3968 -> wr l (j / 8) x = Done (<[Z.to_nat (j / 8) := x]> l).
Proof.
  intros Hl Hj%bm_index. unfold wr. rewrite (proj2 (Z.leb_le 0 _)), (proj2 (Z.ltb_lt _ _)) by lia. done.
Qed.

Lemma bm_byte l j : bmcells l -> bytes_ok l -> 0 <= j < 3968 -> is_byte (nth (Z.to_nat (j / 8)) l 0).
Proof.
  intros Hl Hb Hj%bm_index. rewrite Forall_forall in Hb. apply Hb, list_elem_of_In, nth_In. lia.
Qed.

Lemma land7 j : j .& (8 - 1) = j mod 8.
Proof. exact (land_ones_mod j 3 ltac:(lia)). Qed.

Lemma test_bit x k : 0 <= k -> negb (x .& (1 << k) =? 0) = Z.testbit x k.
Proof.
  intros Hk. destruct (Z.testbit x k) eqn:E.
  - apply negb_true_iff, Z.eqb_neq. intros H0. assert (H : Z.testbit (x .& (1 << k)) k = false) by (rewrite H0; apply Z.bits_0).
    rewrite Z.land_spec, E, Z.shiftl_spec, Z.sub_diag in H by lia. done.
  - apply negb_false_iff, Z.eqb_eq, Z.bits_inj'. intros i Hi.
    rewrite Z.land_spec, Z.bits_0. destruct (Z.eq_dec i k) as [->|]; [by rewrite E|].
    rewrite Z.shiftl_mul_pow2, Z.mul_1_l, Z.pow2_bits_false by lia. apply andb_false_r.
Qed.

Lemma set_bit x k b : is_byte x -> 0 <= k < 8 -> 0 <= b < 8 ->
  is_byte (x .| u8 (1 << k)) /\ Z.testbit (x .| u8 (1 << k)) b = (b =? k) || Z.testbit x b.
Proof.
  intros Hx Hk Hb. split; [apply (lor_bound _ _ 8); [exact Hx|apply (u8_range (1 << k))]|].
  rewrite Z.lor_spec. unfold u8. rewrite testbit_mod_pow2 by lia.
  rewrite (proj2 (Z.ltb_lt b 8)), Z.shiftl_mul_pow2, Z.mul_1_l by lia. simpl.
  rewrite orb_comm. f_equal. destruct (Z.eqb_spec b k) as [->|].
  - apply Z.pow2_bits_true; lia.
  - apply Z.pow2_bits_false; lia.
Qed.

Lemma clear_bit x k b : is_byte x -> 0 <= k < 8 -> 0 <= b < 8 ->
  is_byte (x .& u8 (Z.lnot (1 << k))) /\
  Z.testbit (x .& u8 (Z.lnot (1 << k))) b = negb (b =? k) && Z.testbit x b.
Proof.
  intros Hx Hk Hb. split; [apply (land_bound _ _ 8), Hx|].
  rewrite Z.land_spec. unfold u8. rewrite testbit_mod_pow2, Z.lnot_spec by lia.
  rewrite (proj2 (Z.ltb_lt b 8)), Z.shiftl_mul_pow2, Z.mul_1_l by lia. simpl.
  rewrite andb_comm. f_equal. f_equal. destruct (Z.eqb_spec b k) as [->|].
  - apply Z.pow2_bits_true; lia.
  - apply Z.pow2_bits_false; lia.
Qed.

(** Replacing the byte of bit [i] by one that differs in that bit only. *)
Lemma bm_update l i j y f :
  bmcells l -> bytes_ok l -> 0 <= i < 3968 -> 0 <= j < 3968 -> is_byte y ->
  (forall b, 0 <= b < 8 -> Z.testbit y b = if b =? i mod 8 then f else Z.testbit (nth (Z.to_nat (i / 8)) l 0) b) ->
  let l' := <[Z.to_nat (i / 8) := y]> l in
  bmcells l' /\ bytes_ok l' /\ bm_bit l' j = if j =? i then f else bm_bit l j.
Proof.
  intros Hl Hb Hi Hj Hy Hf l'. split_and!; [by unfold l'; rewrite length_insert|by apply Forall_insert|].
  unfold bm_bit, l'. pose proof (bm_index i Hi). pose proof (bm_index j Hj).
  rewrite nth_insert by lia. pose proof (Z.mod_pos_bound j 8).
  destruct (Z.eqb_spec (j / 8) (i / 8)) as [E|E].
  - rewrite Hf by lia. rewrite E.
    destruct (Z.eqb_spec (j mod 8) (i mod 8)), (Z.eqb_spec j i); try done; [|by subst].
    exfalso. pose proof (Z.div_mod i 8). pose proof (Z.div_mod j 8). lia.
  - destruct (Z.eqb_spec j i); [by subst|done].
Qed.
End bitmap.

(** ** Well-formed objects and their members *)

(** The largest size an object with [n] levels covers. *)
Fixpoint cap (n : nat) : Z :=
  match n with O => 0 | 1%nat => 3968 | S n => 62 * cap n end.

Definition size_ok (sz : Z) : Prop := 0 < sz <= 2 ^ 32 - 62.

Fixpoint wf (n : nat) (p : Bitvec) : Prop :=
  match n with
  | O => False
  | S n =>
      let 'mk_bitvec sz ns dv u := p in
      size_ok sz /\ sz <= cap (S n) /\
      match u with
      | aBitmap l => sz <= 3968 /\ dv = 0 /\ length l = 496%nat /\ bytes_ok l
      | aHash l => 3968 < sz /\ dv = 0 /\ length l = 124%nat /\ hash_ok l /\ ns = nz l /\ nz l < 124 /\
                   Forall (fun v => 0 <= v <= sz) l
      | apSub l => 3968 < sz /\ dv = (sz + 61) / 62 /\ length l = 62%nat /\
                   Forall (fun q => match q with Some q => wf n q /\ iSize q = dv | None => True end) l
      end
  end.

(** The 0-based members. *)
Fixpoint mem (n : nat) (p : Bitvec) (j : Z) : Prop :=
  match n with
  | O => False
  | S n =>
      let 'mk_bitvec _ _ dv u := p in
      match u with
      | aBitmap l => bm_bit l j = true
      | aHash l => In (j + 1) l
      | apSub l => match l !! Z.to_nat (j / dv) with Some (Some q) => mem n q (j mod dv) | _ => False end
      end
  end.

Lemma mem_sub n sz ns dv l j : mem (S n) (mk_bitvec sz ns dv (apSub l)) j =
  match l !! Z.to_nat (j / dv) with Some (Some q) => mem n q (j mod dv) | _ => False end.
Proof. done. Qed.

Lemma wf_sub n sz ns dv l : wf (S n) (mk_bitvec sz ns dv (apSub l)) =
  (size_ok sz /\ sz <= cap (S n) /\ 3968 < sz /\ dv = (sz + 61) / 62 /\ length l = 62%nat /\
   Forall (fun q => match q with Some q => wf n q /\ iSize q = dv | None => True end) l).
Proof. done. Qed.

Lemma cap_S n : cap (S (S n)) = 62 * cap (S n).
Proof. done. Qed.

(** The slot of [apSub] an index falls in. *)
Lemma sub_slot n sz dv j :
  size_ok sz -> sz <= cap (S (S n)) -> 3968 < sz -> dv = (sz + 61) / 62 -> 0 <= j < sz ->
  size_ok dv /\ dv <= cap (S n) /\ 0 <= j / dv < 62 /\ 0 <= j mod dv < dv.
Proof.
  unfold size_ok. rewrite cap_S. intros Hs Hc Hb Hdv Hj.
  pose proof (Z.div_mod (sz + 61) 62). pose proof (Z.mod_pos_bound (sz + 61) 62).
  assert (0 < dv) by lia. pose proof (Z.mod_pos_bound j dv).
  split_and!; try lia; [apply Z.div_pos; lia|apply Z.div_lt_upper_bound; lia].
Qed.

Lemma sub_level n sz ns dv l : wf (S n) (mk_bitvec sz ns dv (apSub l)) -> exists k, n = S k.
Proof. destruct n; [|eauto]. simpl. lia. Qed.

Lemma div_pair_eq dv i j : 0 < dv -> 0 <= i -> 0 <= j -> j / dv = i / dv -> j mod dv = i mod dv -> j = i.
Proof. intros. rewrite (Z.div_mod j dv), (Z.div_mod i dv) by lia. congruence. Qed.

(** A fresh object is well-formed and empty. *)
Lemma create_wf n sz : size_ok sz -> sz <= cap (S n) ->
  wf (S n) (mk_bitvec sz 0 0 (zero_union sz)) /\
  forall j, 0 <= j < sz -> ~ mem (S n) (mk_bitvec sz 0 0 (zero_union sz)) j.
Proof.
  intros Hs Hc. unfold zero_union. change BITVEC_NBIT with 3968. cbn [wf mem].
  destruct (Z.leb_spec sz 3968); (split; [split_and!; try done|]).
  - apply Forall_replicate. unfold is_byte. lia.
  - intros j Hj. unfold bm_bit. rewrite nth_lookup, lookup_replicate_2; [by rewrite Z.bits_0|].
    assert (0 <= j / 8 < 496) by (apply bm_index; lia). change (Z.to_nat BITVEC_NELEM) with 496%nat. lia.
  - apply empty_table_ok.
  - apply Forall_replicate. unfold size_ok in Hs. lia.
  - intros j Hj. apply empty_table_ok. lia.
Qed.

(** ** Test *)

Lemma leaf_test_hash sz l i :
  3968 < sz -> length l = 124%nat -> hash_ok l -> nz l < 124 -> 0 <= i < 2 ^ 32 - 1 ->
  exists b, leaf_test sz (aHash l) i = Done b /\ (b = true <-> In (i + 1) l).
Proof.
  intros Hb Hl Hok Hn Hi. unfold leaf_test. change BITVEC_NBIT with 3968.
  rewrite (proj2 (Z.leb_gt _ _)) by lia. rewrite (u32_id (i + 1)) by lia.
  replace (BITVEC_HASH i) with (hash_of (i + 1)) by (unfold hash_of; f_equal; lia).
  pose proof (hash_of_range (i + 1)). destruct (nz_lt_exists l (hash_of (i + 1)) Hl Hn) as [e He].
  destruct (hash_test_spec l (hash_of (i + 1)) (i + 1) e (S (length l)) 0) as (b & E & Hbt);
    [done|done|lia|destruct He; lia|destruct He; lia|].
  rewrite <- start_mod in E by done. rewrite E.
  exists b. split; [done|]. rewrite Hbt. symmetry. apply hash_found; auto; lia.
Qed.

Lemma test_spec n : forall fuel p i,
  wf n p -> 0 <= i < iSize p -> (n <= fuel)%nat ->
  exists b, test_loop fuel p i = Done b /\ (b = true <-> mem n p i).
Proof.
  induction n as [|n IH]; [done|]. intros [|fuel] [sz ns dv u] i Hwf Hi Hf; [lia|].
  pose proof Hwf as (Hs & Hc & Hu). cbn [iSize] in Hi. cbn [test_loop mem]. destruct u as [l|l|l].
  - destruct Hu as (Hb & -> & Hl & Hby). simpl. unfold leaf_test. change BITVEC_NBIT with 3968.
    rewrite (proj2 (Z.leb_le _ _)) by lia. change BITVEC_SZELEM with 8. rewrite rd_bm by (done || lia).
    cbn [mbind outcome_bind]. eexists. split; [reflexivity|].
    rewrite land7. pose proof (Z.mod_pos_bound i 8). by rewrite test_bit by lia.
  - destruct Hu as (Hb & -> & Hl & Hok & _ & Hn & _). simpl. unfold size_ok in Hs. apply leaf_test_hash; auto; lia.
  - destruct (sub_level _ _ _ _ _ Hwf) as [k ->]. destruct Hu as (Hb & Hdv & Hl & Hq).
    destruct (sub_slot k sz dv i) as (Hds & Hdc & Hbin & Hr); [done..|]. unfold size_ok in Hds.
    rewrite (proj2 (Z.eqb_neq dv 0)) by lia.
    destruct (lookup_lt_is_Some_2 l (Z.to_nat (i / dv))) as [q Eq]; [lia|]. rewrite Eq.
    rewrite Forall_lookup in Hq. specialize (Hq _ _ Eq). destruct q as [q|].
    + destruct Hq as [Hwq Hsz]. apply IH; [done|by rewrite Hsz|lia].
    + exists false. done.
Qed.

(** ** Clear *)

(** Storing a value of the table through [hash_free], as the rebuilding loop does. *)
Lemma hash_store l v :
  length l = 124%nat -> hash_ok l -> nz l < 124 -> v <> 0 ->
  exists h, hash_free (S (length l)) l (hash_of v) = Done h /\ 0 <= h < 124 /\
    let l' := <[Z.to_nat h := v]> l in
    length l' = 124%nat /\ hash_ok l' /\ nz l' = nz l + 1 /\ (forall x, x <> 0 -> In x l' <-> x = v \/ In x l).
Proof.
  intros Hl Hok Hn Hv. destruct (nz_lt_exists l (hash_of v) Hl Hn) as [e He].
  exists ((hash_of v + e) mod 124). split_and!; [|apply hash_pos_range|apply hash_pos_range|by apply hash_insert..].
  pose proof (hash_free_spec l (hash_of v) e (S (length l)) 0) as E.
  rewrite <- start_mod in E by apply hash_of_range. apply E; [done|done|destruct He; lia|destruct He; lia].
Qed.

Lemma wr_in l h x : 0 <= h < len l -> wr l h x = Done (<[Z.to_nat h := x]> l).
Proof. intros. unfold wr. rewrite (proj2 (Z.leb_le _ _)), (proj2 (Z.ltb_lt _ _)) by lia. done. Qed.

Lemma nz_cons v l : nz (v :: l) = (if v =? 0 then 0 else 1) + nz l.
Proof. unfold nz, occupied. simpl. destruct (v =? 0); simpl; lia. Qed.

Lemma nz_nonneg l : 0 <= nz l.
Proof. unfold nz. lia. Qed.

Lemma clear_loop_spec vs i : 0 <= i < 2 ^ 32 - 1 -> forall l,
  Forall (fun v => 0 <= v < 2 ^ 32) vs ->
  length l = 124%nat -> hash_ok l -> nz l + nz vs < 124 ->
  exists l', clear_loop vs i (nz l) l = Done (nz l', l') /\
    length l' = 124%nat /\ hash_ok l' /\ nz l' <= nz l + nz vs /\
    (forall x, x <> 0 -> In x l' <-> In x l \/ (In x vs /\ x <> i + 1)).
Proof.
  intros Hi. induction vs as [|v vs IH]; intros l Hvs Hl Hok Hn.
  - exists l. cbn [clear_loop]. split_and!; [done|done|done|change (nz []) with 0; lia|].
    simpl. intuition.
  - inversion_clear Hvs as [|? ? Hv Hvs']. rewrite nz_cons in Hn. cbn [clear_loop].
    rewrite (u32_id (i + 1)) by lia. pose proof (nz_nonneg vs).
    destruct (Z.eqb_spec v 0) as [->|Hv0]; [|destruct (Z.eqb_spec v (i + 1)) as [->|Hv1]]; cbn [negb andb].
    + destruct (IH l Hvs' Hl Hok ltac:(lia)) as (l' & -> & Hl' & Hok' & Hn' & Hin). exists l'.
      rewrite nz_cons. split_and!; [done..|rewrite Z.eqb_refl; lia|].
      intros x Hx. rewrite Hin by done. simpl. intuition congruence.
    + destruct (IH l Hvs' Hl Hok ltac:(lia)) as (l' & -> & Hl' & Hok' & Hn' & Hin). exists l'.
      rewrite nz_cons. split_and!; [done..|destruct (_ =? 0); lia|].
      intros x Hx. rewrite Hin by done. simpl. intuition congruence.
    + rewrite (u32_id (v - 1)) by lia. fold (hash_of v).
      destruct (hash_store l v Hl Hok ltac:(lia) Hv0) as (h & -> & Hh & Hl2 & Hok2 & Hn2 & Hin2).
      cbn [mbind outcome_bind]. rewrite wr_in by lia. cbn [mbind outcome_bind].
      rewrite u32_id by (pose proof (nz_nonneg l); lia). rewrite <- Hn2.
      destruct (IH _ Hvs' Hl2 Hok2 ltac:(lia)) as (l' & -> & Hl' & Hok' & Hn' & Hin). exists l'.
      rewrite nz_cons, (proj2 (Z.eqb_neq v 0)) by done. split_and!; [done..|lia|].
      intros x Hx. rewrite Hin, Hin2 by done. simpl. intuition congruence.
Qed.

Lemma clear_loop_from_empty l i : 0 <= i < 2 ^ 32 - 1 ->
  Forall (fun v => 0 <= v < 2 ^ 32) l -> nz l < 124 ->
  exists l', clear_loop l i 0 (replicate 124 0) = Done (nz l', l') /\
    length l' = 124%nat /\ hash_ok l' /\ nz l' < 124 /\ (forall x, x <> 0 -> In x l' <-> In x l /\ x <> i + 1).
Proof.
  intros Hi Hl Hn. destruct empty_table_ok as (He1 & He2 & He3 & He4).
  destruct (clear_loop_spec l i Hi _ Hl He1 He2 ltac:(lia)) as (l' & E & H1 & H2 & H3 & H4).
  rewrite He3 in E. exists l'. split_and!; [done..|lia|]. intros x Hx. rewrite H4 by done.
  pose proof (He4 x Hx). intuition.
Qed.

Lemma clear_spec n : forall fuel p i,
  wf n p -> 0 <= i < iSize p -> (n <= fuel)%nat ->
  exists p', clear_walk fuel p i = Done p' /\ wf n p' /\ iSize p' = iSize p /\
    (forall j, 0 <= j < iSize p -> mem n p' j <-> mem n p j /\ j <> i).
Proof.
  induction n as [|n IH]; [done|]. intros [|fuel] [sz ns dv u] i Hwf Hi Hf; [lia|].
  pose proof Hwf as (Hs & Hc & Hu). cbn [iSize] in *. cbn [clear_walk]. destruct u as [l|l|l].
  - destruct Hu as (Hb & -> & Hl & Hby). cbn [negb Z.eqb]. change BITVEC_NBIT with 3968.
    rewrite (proj2 (Z.leb_le _ _)) by lia. change BITVEC_SZELEM with 8. rewrite rd_bm by (done || lia).
    cbn [mbind outcome_bind]. rewrite wr_bm by (done || lia). cbn [mbind outcome_bind]. rewrite land7.
    pose proof (Z.mod_pos_bound i 8) as Hm.
    assert (Hx : is_byte (nth (Z.to_nat (i / 8)) l 0)) by (apply bm_byte; auto; lia).
    assert (Hup : forall j, 0 <= j < sz ->
      let l' := <[Z.to_nat (i / 8) := nth (Z.to_nat (i / 8)) l 0 .& u8 (Z.lnot (1 << (i mod 8)))]> l in
      length l' = 496%nat /\ bytes_ok l' /\ bm_bit l' j = if j =? i then false else bm_bit l j).
    { intros j Hj. apply bm_update; try (done || lia).
      - apply (clear_bit _ (i mod 8) 0); auto; lia.
      - intros b Hb'. destruct (clear_bit (nth (Z.to_nat (i / 8)) l 0) (i mod 8) b Hx) as [_ ->]; [lia..|].
        by destruct (b =? i mod 8). }
    eexists. split; [reflexivity|]. destruct (Hup i ltac:(lia)) as (H1 & H2 & _). cbn [wf mem].
    split_and!; try done. intros j Hj. destruct (Hup j Hj) as (_ & _ & ->).
    destruct (Z.eqb_spec j i); intuition congruence.
  - destruct Hu as (Hb & -> & Hl & Hok & _ & Hn & Hv). cbn [negb Z.eqb]. change BITVEC_NBIT with 3968.
    rewrite (proj2 (Z.leb_gt _ _)) by lia. unfold size_ok in Hs.
    destruct (clear_loop_from_empty l i) as (l' & E & Hl' & Hok' & Hn' & Hin);
      [lia|eapply Forall_impl; [exact Hv|simpl; lia]|done|].
    change (Z.to_nat BITVEC_NINT) with 124%nat. rewrite E. cbn [mbind outcome_bind fst snd].
    eexists. split; [reflexivity|]. cbn [wf mem]. split_and!; try done.
    + apply Forall_forall. intros v Hv'. destruct (Z.eq_dec v 0) as [->|Hv0]; [lia|].
      rewrite Forall_forall in Hv. apply Hv, list_elem_of_In, Hin; [done|by apply list_elem_of_In].
    + intros j Hj. rewrite Hin by lia. intuition lia.
  - destruct (sub_level _ _ _ _ _ Hwf) as [k ->]. destruct Hu as (Hb & Hdv & Hl & Hq).
    destruct (sub_slot k sz dv i) as (Hds & Hdc & Hbin & Hr); [done..|]. unfold size_ok in Hds.
    rewrite (proj2 (Z.eqb_neq dv 0)) by lia. cbn [negb].
    destruct (lookup_lt_is_Some_2 l (Z.to_nat (i / dv))) as [q Eq]; [lia|]. rewrite Eq.
    pose proof Hq as Hq0. rewrite Forall_lookup in Hq. specialize (Hq _ _ Eq). destruct q as [q|].
    + destruct Hq as [Hwq Hsz]. destruct (IH fuel q (i mod dv)) as (q' & -> & Hwq' & Hsz' & Hmem); [done|lia|lia|].
      cbn [mbind outcome_bind]. eexists. split; [reflexivity|]. split_and!.
      * rewrite wf_sub. split_and!; try done; [by rewrite length_insert|]. apply Forall_insert; [done|].
        split; [done|lia].
      * done.
      * intros j Hj. rewrite !mem_sub. destruct (sub_slot k sz dv j) as (_ & _ & Hbj & Hrj); [done..|].
        destruct (Z.eq_dec (j / dv) (i / dv)) as [E|E].
        -- rewrite E, list_lookup_insert_eq, Eq by lia. rewrite Hmem by lia.
           split; (intros [? Hne]; split; [done|]); [congruence|]. intros ?. apply Hne. apply (div_pair_eq dv); lia.
        -- rewrite list_lookup_insert_ne by lia. intuition congruence.
    + eexists. split; [reflexivity|]. split_and!; try done. intros j Hj. split; [|tauto]. intros Hm. split; [done|].
      intros ->. rewrite mem_sub, Eq in Hm. done.
Qed.

(** ** Set *)

Definition is_sub (p : Bitvec) : Prop :=
  let 'mk_bitvec _ _ _ u := p in if u is apSub _ then True else False.

(** Adding the 0-based indices [S] to [p]: no undefined access; without a failed
    allocation they are all added; after one the object is still well-formed and holds
    nothing else. *)
Definition set_post (n : nat) (m : mallocs) (p : Bitvec) (S : Z -> Prop) (r : set_result) : Prop :=
  exists rc p' m', r = Done (rc, p', m') /\ wf n p' /\ iSize p' = iSize p /\ (is_sub p -> is_sub p') /\
    (rc = 0 \/ rc = 7) /\ (m = [] -> rc = 0 /\ m' = []) /\
    (forall j, 0 <= j < iSize p -> mem n p' j -> mem n p j \/ S j) /\
    (rc = 0 -> forall j, 0 <= j < iSize p -> mem n p j \/ S j -> mem n p' j).

(** The induction hypothesis of the levels below. *)
Definition set_works (n : nat) : Prop := forall fuel m p i,
  wf n p -> 1 <= i <= iSize p -> (2 * n <= fuel)%nat ->
  set_post n m p (fun j => j = i - 1) (bitvec_set fuel m p i).

Lemma set_post_iff n m p S S' r :
  set_post n m p S r -> (forall j, S j <-> S' j) -> set_post n m p S' r.
Proof.
  intros (rc & p' & m' & -> & Hw & Hs & Hb & Hrc & Hm & H1 & H2) HS.
  exists rc, p', m'. split_and!; try done.
  - intros j Hj Hin. rewrite <- HS. auto.
  - intros E j Hj Hin. apply H2; [done|done|]. by rewrite HS.
Qed.

Lemma set_post_nop n m m' p S rc :
  wf n p -> (rc = 0 -> forall j, S j -> mem n p j) -> (rc = 0 \/ rc = 7) -> (m = [] -> rc = 0 /\ m' = []) ->
  set_post n m p S (Done (rc, p, m')).
Proof. intros Hw HS Hrc Hm. exists rc, p, m'. split_and!; naive_solver. Qed.

(** Setting one more value after others. *)
Lemma set_post_seq n m p S rc p1 m1 S' r' :
  set_post n m p S (Done (rc, p1, m1)) -> set_post n m1 p1 S' r' ->
  set_post n m p (fun j => S j \/ S' j) ('(rc', p', m') ← r'; Done (rc .| rc', p', m')).
Proof.
  intros (rc0 & p0 & m0 & [= <- <- <-] & Hw & Hs & Hb & Hrc & Hm & H1 & H2).
  intros (rc' & p' & m' & -> & Hw' & Hs' & Hb' & Hrc' & Hm' & H1' & H2').
  exists (rc .| rc'), p', m'. rewrite Hs in *. split_and!; try done; [tauto| | | |].
  - destruct Hrc as [-> | ->], Hrc' as [-> | ->]; auto.
  - intros E. destruct (Hm E) as [-> E1]. destruct (Hm' E1) as [-> E2]. done.
  - intros j Hj Hin. destruct (H1' j Hj Hin) as [Hin1|]; [|tauto]. destruct (H1 j Hj Hin1); tauto.
  - intros E. assert (rc = 0 /\ rc' = 0) as [-> ->] by (destruct Hrc as [-> | ->], Hrc' as [-> | ->]; done).
    intros j Hj Hin. apply H2'; [done|done|]. destruct Hin as [?|[?|?]]; [left|left|by right]; apply H2; auto.
Qed.

Lemma create_spec m sz : size_ok sz ->
  exists o m', sqlite3BitvecCreate m sz = (o, m') /\ (m = [] -> m' = []) /\
    ((o = None /\ m <> []) \/ o = Some (mk_bitvec sz 0 0 (zero_union sz))).
Proof.
  intros Hs. unfold sqlite3BitvecCreate, malloc. destruct m as [|[] m]; do 2 eexists;
    (split; [done|]; split; [done|]); [by right|by right|by left].
Qed.

(** The union's members after a set in one slot. *)
Lemma sub_insert_post n m m1 sz ns dv l i q r :
  wf (S n) (mk_bitvec sz ns dv (apSub l)) -> 0 <= i < sz ->
  (m = [] -> m1 = []) -> wf n q -> iSize q = dv ->
  (forall j, 0 <= j < sz -> j / dv = i / dv ->
     mem n q (j mod dv) <-> mem (S n) (mk_bitvec sz ns dv (apSub l)) j) ->
  set_post n m1 q (fun j => j = i mod dv) r ->
  set_post (S n) m (mk_bitvec sz ns dv (apSub l)) (fun j => j = i)
    ('(rc, q, m) ← r; Done (rc, mk_bitvec sz ns dv (apSub (<[Z.to_nat (i / dv) := Some q]> l)), m)).
Proof.
  intros Hwf Hi Hmm Hwq Hq Hold (rc & q' & m' & -> & Hw & Hs & _ & Hrc & Hm & H1 & H2).
  destruct (sub_level _ _ _ _ _ Hwf) as [k ->]. rewrite wf_sub in Hwf.
  destruct Hwf as (Hsz & Hc & Hb & Hdv & Hl & Hqs).
  destruct (sub_slot k sz dv i) as (Hds & Hdc & Hbin & Hr); [done..|]. unfold size_ok in Hds.
  assert (Hslot : forall j, 0 <= j < sz ->
    mem (S (S k)) (mk_bitvec sz ns dv (apSub (<[Z.to_nat (i / dv) := Some q']> l))) j =
    if j / dv =? i / dv then mem (S k) q' (j mod dv) else mem (S (S k)) (mk_bitvec sz ns dv (apSub l)) j).
  { intros j Hj. destruct (sub_slot k sz dv j) as (_ & _ & Hbj & _); [done..|]. rewrite !mem_sub.
    destruct (Z.eqb_spec (j / dv) (i / dv)) as [E|E].
    - by rewrite E, list_lookup_insert_eq by lia.
    - by rewrite list_lookup_insert_ne by lia. }
  eexists _, _, _. split; [reflexivity|]. split_and!; try done.
  - rewrite wf_sub. split_and!; try done; [by rewrite length_insert|]. apply Forall_insert; [done|]. split; [done|lia].
  - auto.
  - intros j Hj. cbn [iSize] in Hj. rewrite Hslot by done. destruct (Z.eqb_spec (j / dv) (i / dv)) as [E|E]; [|tauto].
    destruct (sub_slot k sz dv j) as (_ & _ & _ & Hrj); [done..|]. intros [Hin|Hj']%H1; [..|lia].
    + left. by apply Hold.
    + right. apply (div_pair_eq dv); lia.
  - intros E0 j Hj. cbn [iSize] in Hj. rewrite Hslot by done.
    destruct (sub_slot k sz dv j) as (_ & _ & _ & Hrj); [done..|].
    destruct (Z.eqb_spec (j / dv) (i / dv)) as [E|E].
    + intros [Hin| ->]; (apply H2; [done|lia|]); [left; by apply Hold|by right].
    + intros [Hin| ->]; [done|lia].
Qed.

Lemma set_sub n fuel m sz ns dv l i :
  set_works n -> wf (S n) (mk_bitvec sz ns dv (apSub l)) -> 1 <= i <= sz -> (2 * n + 1 <= fuel)%nat ->
  set_post (S n) m (mk_bitvec sz ns dv (apSub l)) (fun j => j = i - 1)
    (bitvec_set fuel m (mk_bitvec sz ns dv (apSub l)) i).
Proof.
  intros IH Hwf Hi Hfuel. destruct fuel as [|fuel]; [lia|].
  destruct (sub_level _ _ _ _ _ Hwf) as [k ->]. pose proof Hwf as Hwf0. rewrite wf_sub in Hwf.
  destruct Hwf as (Hsz & Hc & Hb & Hdv & Hl & Hqs). cbn [bitvec_set].
  unfold size_ok in Hsz. rewrite (u32_id (i - 1)) by lia.
  destruct (sub_slot k sz dv (i - 1)) as (Hds & Hdc & Hbin & Hr); [done || lia..|]. pose proof Hds as Hds'. unfold size_ok in Hds.
  change BITVEC_NBIT with 3968. rewrite (proj2 (Z.ltb_lt _ _)), (proj2 (Z.eqb_neq dv 0)) by lia. cbn [andb negb].
  destruct (lookup_lt_is_Some_2 l (Z.to_nat ((i - 1) / dv))) as [q Eq]; [lia|]. rewrite Eq.
  rewrite Forall_lookup in Hqs. specialize (Hqs _ _ Eq). destruct q as [q|].
  - destruct Hqs as [Hwq Hq]. eapply sub_insert_post; eauto; [lia| |].
    + intros j Hj Ej. by rewrite mem_sub, Ej, Eq.
    + eapply set_post_iff; [apply IH; [done|lia|lia]|simpl; lia].
  - destruct (create_spec m dv Hds') as (o & m1 & -> & Hm1 & [[-> Hm0]| ->]).
    + apply set_post_nop; [done|done|by right|done].
    + destruct (create_wf k dv Hds' Hdc) as [Hwq Hempty].
      eapply sub_insert_post; eauto; [lia| |].
      * intros j Hj Ej. rewrite mem_sub, Ej, Eq. split; [|done]. apply Hempty.
        apply (sub_slot k sz dv j); done.
      * eapply set_post_iff; [apply IH; [done|cbn [iSize]; lia|lia]|simpl; lia].
Qed.

(** The re-hash: the values of the table set in turn. *)
Lemma set_fold n f fuel m p :
  set_works n -> f = (fun acc v => '(rc, p, m) ← acc;
    if v =? 0 then Done (rc, p, m)
    else '(rc', p, m) ← bitvec_set fuel m p v; Done (rc .| rc', p, m)) ->
  is_sub p -> (2 * n + 1 <= fuel)%nat ->
  forall vs S r, Forall (fun v => 0 <= v <= iSize p) vs -> set_post (Datatypes.S n) m p S r ->
  set_post (Datatypes.S n) m p (fun j => S j \/ (0 <= j /\ In (j + 1) vs)) (fold_left f vs r).
Proof.
  intros IH Hf Hsub Hfuel. induction vs as [|v vs IHvs]; intros S r Hvs Hr; cbn [fold_left].
  - eapply set_post_iff; [exact Hr|]. simpl. tauto.
  - inversion_clear Hvs as [|? ? Hv Hvs'].
    assert (Hstep : set_post (Datatypes.S n) m p (fun j => S j \/ (0 <= j /\ j + 1 = v)) (f r v)).
    { pose proof Hr as (rc & p1 & m1 & -> & Hw & Hs & Hsb & _). subst f. cbn [mbind outcome_bind].
      destruct (Z.eqb_spec v 0) as [->|Hv0].
      - eapply set_post_iff; [exact Hr|]. intros j. simpl. split; [by left|]. intros [?|?]; [done|lia].
      - eapply set_post_iff.
        + eapply set_post_seq; [exact Hr|]. destruct p1 as [sz1 ns1 dv1 u1]. specialize (Hsb Hsub).
          destruct u1 as [| |l1]; [done|done|]. apply set_sub; [done|exact Hw|cbn [iSize] in Hs; lia|lia].
        + intros j. simpl. split; (intros [?|?]; [by left|right; lia]). }
    eapply set_post_iff; [apply IHvs; [exact Hvs'|exact Hstep]|]. intros j. simpl. split; intuition congruence.
Qed.

Definition rehash_fold (fuel : nat) := fun acc v => '(rc, p, m) ← acc;
    if v =? 0 then Done (rc, p, m)
    else '(rc', p, m) ← bitvec_set fuel m p v; Done (rc .| rc', p, m).

(** The re-hash of a full table, from the set of the new value on. *)
Lemma rehash_spec n fuel m sz ns l i :
  set_works n -> wf (S n) (mk_bitvec sz ns 0 (aHash l)) -> 1 <= i <= sz -> (2 * n + 1 <= fuel)%nat ->
  set_post (S n) m (mk_bitvec sz ns 0 (aHash l)) (fun j => j = i - 1)
    (let (ok, m') := malloc m in
     if negb ok then Done (SQLITE_NOMEM, mk_bitvec sz ns 0 (aHash l), m')
     else
       let dv := u32 (sz + BITVEC_NPTR - 1) / BITVEC_NPTR in
       let p := mk_bitvec sz ns dv
                  (if dv =? 0 then zero_union sz else apSub (replicate (Z.to_nat BITVEC_NPTR) None)) in
       r ← bitvec_set fuel m' p i; fold_left (rehash_fold fuel) l (Done r)).
Proof.
  intros IH Hwf Hi Hfuel. pose proof Hwf as (Hs & Hc & Hb & _ & Hl & Hok & Hns & Hn & Hv). unfold size_ok in Hs.
  destruct (malloc m) as [ok m'] eqn:Em.
  assert (Hm : m = [] -> ok = true /\ m' = []) by (intros ->; simplify_eq Em; auto).
  destruct ok; cbn [negb]; [|apply set_post_nop; [done|done|by right|intros E; by destruct (Hm E)]].
  change BITVEC_NPTR with 62. rewrite u32_id by lia. replace (sz + 62 - 1) with (sz + 61) by lia.
  set (dv := (sz + 61) / 62). cbv zeta.
  assert (Hdv : 0 < dv) by (unfold dv; apply Z.div_str_pos; lia). rewrite (proj2 (Z.eqb_neq dv 0)) by lia.
  set (p0 := mk_bitvec sz ns dv (apSub (replicate 62 None))). change (Z.to_nat 62) with 62%nat. fold p0.
  assert (Hw0 : wf (S n) p0).
  { unfold p0. rewrite wf_sub. split_and!; try done; try lia. by apply Forall_replicate. }
  assert (Hempty : forall j, ~ mem (S n) p0 j).
  { intros j. unfold p0. rewrite mem_sub. destruct (replicate 62 None !! _) as [q|] eqn:E; [|tauto].
    apply lookup_replicate in E as [-> _]. tauto. }
  assert (Hset : set_post (S n) m' p0 (fun j => j = i - 1) (bitvec_set fuel m' p0 i)) by (by apply set_sub).
  pose proof Hset as (rc1 & p1 & m1 & E1 & _). rewrite E1 in *. cbn [mbind outcome_bind].
  eapply (set_fold n (rehash_fold fuel) fuel m' p0 IH) in Hset; [|done|done|done|exact Hv].
  destruct Hset as (rc & p' & m2 & -> & Hw' & Hs' & _ & Hrc & Hm2 & H1 & H2).
  exists rc, p', m2. split_and!; try done.
  - intros E. apply Hm2, Hm, E.
  - intros j Hj Hin. apply H1 in Hin as [Hin|[?|[_ ?]]]; [by apply Hempty in Hin|by right|by left|done].
  - intros E j Hj Hin. apply H2; [done|done|]. right. destruct Hin as [?|?]; [right|by left]. split; [lia|done].
Qed.

(** Storing the new value in the table. *)
Lemma hash_set_end n m sz ns l i h e :
  wf (S n) (mk_bitvec sz ns 0 (aHash l)) -> 1 <= i <= sz -> nz l < 123 ->
  first_empty l (hash_of i) e -> h = (hash_of i + e) mod 124 ->
  set_post (S n) m (mk_bitvec sz ns 0 (aHash l)) (fun j => j = i - 1)
    (l ← wr l h i; Done (SQLITE_OK, mk_bitvec sz (u32 (ns + 1)) 0 (aHash l), m)).
Proof.
  intros (Hs & Hc & Hb & _ & Hl & Hok & Hns & Hn & Hv) Hi Hn1 He ->.
  pose proof (hash_pos_range (hash_of i) e). rewrite wr_in by lia. cbn [mbind outcome_bind].
  destruct (hash_insert l i e Hl Hok ltac:(lia) He) as (Hl' & Hok' & Hn' & Hin). pose proof (nz_nonneg l).
  rewrite u32_id by lia.
  eexists _, _, _. split; [reflexivity|]. cbn [wf iSize mem]. unfold SQLITE_OK. split_and!; try done; try lia.
  - apply Forall_insert; [done|lia].
  - intros j Hj. rewrite Hin by lia. intros [?|?]; [right; lia|by left].
  - intros _ j Hj. rewrite Hin by lia. intros [?| ->]; [by right|left; lia].
Qed.

Lemma set_hash n fuel m sz ns l i :
  set_works n -> wf (S n) (mk_bitvec sz ns 0 (aHash l)) -> 1 <= i <= sz -> (2 * S n <= S fuel)%nat ->
  set_post (S n) m (mk_bitvec sz ns 0 (aHash l)) (fun j => j = i - 1)
    (bitvec_set (S fuel) m (mk_bitvec sz ns 0 (aHash l)) i).
Proof.
  intros IH Hwf Hi Hfuel. pose proof Hwf as (Hs & Hc & Hb & _ & Hl & Hok & Hns & Hn & Hv). unfold size_ok in Hs.
  cbn [bitvec_set]. rewrite (u32_id (i - 1)) by lia. replace (i - 1 + 1) with i by lia. rewrite (u32_id i) by lia.
  rewrite Z.eqb_refl, andb_false_r. change BITVEC_NBIT with 3968. rewrite (proj2 (Z.leb_gt _ _)) by lia.
  fold (hash_of i). pose proof (hash_of_range i) as Hh. destruct (nz_lt_exists l (hash_of i) Hl Hn) as [e He].
  rewrite (start_mod (hash_of i) Hh), rd_cell by done. cbn [mbind outcome_bind]. rewrite <- (start_mod (hash_of i) Hh).
  pose proof (nz_nonneg l) as Hnn. pose proof (rehash_spec n fuel m sz ns l i IH Hwf Hi ltac:(lia)) as Hre.
  change BITVEC_MXHASH with 62. change (BITVEC_NINT - 1) with 123.
  destruct (Z.eqb_spec (cell l (hash_of i) 0) 0) as [E0|E0].
  - assert (e = 0) as -> by (destruct (Z.eq_dec e 0); [done|]; destruct He as (? & ? & H); exfalso; apply (H 0); [lia|done]).
    destruct (Z.ltb_spec ns 123) as [Hlt|Hge].
    + apply (hash_set_end n m sz ns l i _ 0); try done; [lia|by apply start_mod].
    + rewrite (proj2 (Z.leb_le _ _)) by lia. exact Hre.
  - assert (0 < e) by (destruct (Z.eq_dec e 0) as [->|]; destruct He as (? & ? & _); [done|lia]).
    destruct (hash_probe_spec l (hash_of i) i e (S (length l)) 0 Hl He) as (s & E & Hspec);
      [lia|destruct He; lia|]. rewrite <- (start_mod (hash_of i) Hh) in E. rewrite E. cbn [mbind outcome_bind].
    destruct s as [|h].
    + apply set_post_nop; [done| |by left|done]. intros _ j ->. cbn [mem]. replace (i - 1 + 1) with i by lia.
      apply (hash_found l i e Hl Hok); [lia|done|]. destruct Hspec as (k & ? & ?). exists k. split; [lia|done].
    + destruct Hspec as [-> _]. destruct (Z.leb_spec 62 ns) as [Hge|Hlt]; [exact Hre|].
      apply (hash_set_end n m sz ns l i _ e); try done. lia.
Qed.

Lemma set_bitmap n fuel m sz ns l i :
  wf (S n) (mk_bitvec sz ns 0 (aBitmap l)) -> 1 <= i <= sz ->
  set_post (S n) m (mk_bitvec sz ns 0 (aBitmap l)) (fun j => j = i - 1)
    (bitvec_set (S fuel) m (mk_bitvec sz ns 0 (aBitmap l)) i).
Proof.
  intros (Hs & Hc & Hb & _ & Hl & Hby) Hi. unfold size_ok in Hs. cbn [bitvec_set].
  rewrite (u32_id (i - 1)) by lia. rewrite Z.eqb_refl, andb_false_r. change BITVEC_NBIT with 3968.
  rewrite (proj2 (Z.leb_le _ _)) by lia. change BITVEC_SZELEM with 8. rewrite rd_bm by (done || lia).
  cbn [mbind outcome_bind]. rewrite wr_bm by (done || lia). cbn [mbind outcome_bind]. rewrite land7.
  set (i0 := i - 1). assert (Hi0 : 0 <= i0 < 3968) by (unfold i0; lia).
  assert (Hm : 0 <= i0 mod 8 < 8) by (apply Z.mod_pos_bound; lia).
  assert (Hx : is_byte (nth (Z.to_nat (i0 / 8)) l 0)) by (by apply bm_byte).
  assert (Hup : forall j, 0 <= j < sz ->
    let l' := <[Z.to_nat (i0 / 8) := nth (Z.to_nat (i0 / 8)) l 0 .| u8 (1 << (i0 mod 8))]> l in
    length l' = 496%nat /\ bytes_ok l' /\ bm_bit l' j = if j =? i0 then true else bm_bit l j).
  { intros j Hj. apply bm_update; try (done || lia).
    - apply (set_bit _ (i0 mod 8) 0); auto; lia.
    - intros b Hb'. destruct (set_bit (nth (Z.to_nat (i0 / 8)) l 0) (i0 mod 8) b Hx Hm Hb') as [_ ->].
      by destruct (b =? i0 mod 8). }
  destruct (Hup 0 ltac:(lia)) as (H1 & H2 & _).
  eexists _, _, _. split; [reflexivity|]. unfold SQLITE_OK. cbn [wf mem iSize]. split_and!; try done; [by left| |].
  - intros j Hj. destruct (Hup j Hj) as (_ & _ & ->). destruct (Z.eqb_spec j i0); auto.
  - intros _ j Hj. destruct (Hup j Hj) as (_ & _ & ->). destruct (Z.eqb_spec j i0); tauto.
Qed.

Lemma set_spec n : set_works n.
Proof.
  induction n as [|n IH]; intros fuel m [sz ns dv u] i Hwf Hi Hfuel; [done|].
  destruct fuel as [|fuel]; [lia|]. cbn [iSize] in Hi. destruct u as [l|l|l].
  - assert (dv = 0) as -> by apply Hwf. by apply set_bitmap.
  - assert (dv = 0) as -> by apply Hwf. by apply set_hash.
  - apply set_sub; auto. lia.
Qed.

(** ** The object implements a set *)

(** An iSize below 2^32 - 61 needs at most 5 levels. *)
Definition LEVELS : nat := 5.

Lemma size_levels sz : size_ok sz -> sz <= cap LEVELS.
Proof. unfold size_ok. assert (2 ^ 32 <= cap LEVELS) by (vm_compute; discriminate). lia. Qed.

(** [p] stores exactly the 1-based members [s]. *)
Definition represents (p : Bitvec) (s : gset Z) : Prop :=
  wf LEVELS p /\ forall i, 1 <= i <= iSize p -> mem LEVELS p (i - 1) <-> i ∈ s.

(** [sqlite3BitvecSet] at any of the three representations: never an access outside
    its arrays or to the wrong one, never a search that does not end; the result is
    SQLITE_OK or SQLITE_NOMEM, the object stays well-formed with its size; after
    SQLITE_OK its members are exactly the old ones and [i]; after SQLITE_NOMEM, whatever
    the moment an allocation failed in, it holds no other; and without failing
    allocations the answer is SQLITE_OK. *)
Theorem Bitvec_set_correct m p i :
  wf LEVELS p -> 1 <= i <= iSize p ->
  exists rc p' m', sqlite3BitvecSet m (Some p) i = Done (rc, Some p', m') /\
    wf LEVELS p' /\ iSize p' = iSize p /\ (rc = SQLITE_OK \/ rc = SQLITE_NOMEM) /\
    (m = [] -> rc = SQLITE_OK /\ m' = []) /\
    (forall j, 1 <= j <= iSize p -> mem LEVELS p' (j - 1) -> mem LEVELS p (j - 1) \/ j = i) /\
    (rc = SQLITE_OK -> forall j, 1 <= j <= iSize p -> mem LEVELS p' (j - 1) <-> mem LEVELS p (j - 1) \/ j = i).
Proof.
  intros Hwf Hi. destruct (set_spec LEVELS (2 * DEPTH)%nat m p i Hwf Hi) as
    (rc & p' & m' & E & Hw & Hs & _ & Hrc & Hm & H1 & H2); [unfold LEVELS, DEPTH; lia|].
  exists rc, p', m'. unfold sqlite3BitvecSet. rewrite E. split_and!; try done.
  - intros j Hj Hin. apply H1 in Hin as [?|?]; [by left|right; lia|lia].
  - intros E0 j Hj. split.
    + intros Hin. apply H1 in Hin as [?|?]; [by left|right; lia|lia].
    + intros Hin. apply H2; [done|lia|]. destruct Hin as [?|?]; [by left|right; lia].
Qed.

Lemma set_represents p s i : represents p s -> 1 <= i <= iSize p ->
  exists p', sqlite3BitvecSet [] (Some p) i = Done (SQLITE_OK, Some p', []) /\
    iSize p' = iSize p /\ represents p' ({[i]} ∪ s).
Proof.
  intros [Hwf Hs] Hi. destruct (set_spec LEVELS (2 * DEPTH)%nat [] p i Hwf Hi) as
    (rc & p' & m' & E & Hw & Hsz & _ & _ & Hm & H1 & H2); [unfold LEVELS, DEPTH; lia|].
  destruct (Hm eq_refl) as [-> ->]. exists p'. unfold sqlite3BitvecSet. rewrite E.
  split_and!; [done|done|]. split; [done|]. intros j Hj. rewrite elem_of_union, elem_of_singleton, <- Hs by lia. split.
  - intros Hin. apply H1 in Hin as [?|?]; [by right|left; lia|lia].
  - intros Hin. apply H2; [done|lia|]. destruct Hin as [?|?]; [right; lia|by left].
Qed.

Lemma clear_represents p s i : represents p s -> 1 <= i <= iSize p ->
  exists p', sqlite3BitvecClear (Some p) i = Done (Some p') /\
    iSize p' = iSize p /\ represents p' (s ∖ {[i]}).
Proof.
  intros [Hwf Hs] Hi. pose proof Hwf as Hsz. destruct p as [sz ns dv u]. cbn [iSize] in *. destruct Hsz as [Hsz _].
  unfold size_ok in Hsz. unfold sqlite3BitvecClear. rewrite u32_id by lia.
  destruct (clear_spec LEVELS DEPTH (mk_bitvec sz ns dv u) (i - 1)) as (p' & E & Hw & Hsz' & Hmem);
    [done|cbn [iSize]; lia|unfold LEVELS, DEPTH; lia|].
  rewrite E. exists p'. split_and!; [done|done|]. split; [done|]. rewrite Hsz'. cbn [iSize] in *. intros j Hj.
  rewrite elem_of_difference, elem_of_singleton, <- Hs, Hmem by lia. split; (intros [? ?]; split; [done|lia]).
Qed.

Lemma test_represents p s i : represents p s -> 0 <= i < 2 ^ 32 ->
  sqlite3BitvecTest (Some p) i = Done (bool_decide (1 <= i <= iSize p /\ i ∈ s)).
Proof.
  intros [Hwf Hs] Hi. pose proof Hwf as Hsz. destruct p as [sz ns dv u]. destruct Hsz as [Hsz _].
  unfold size_ok in Hsz. unfold sqlite3BitvecTest, sqlite3BitvecTestNotNull. cbn [iSize] in *.
  destruct (Z.eq_dec i 0) as [->|Hi0].
  - change (u32 (0 - 1)) with 4294967295. rewrite (proj2 (Z.leb_le _ _)) by lia.
    by rewrite bool_decide_eq_false_2 by lia.
  - rewrite u32_id by lia. destruct (Z.leb_spec sz (i - 1)).
    + by rewrite bool_decide_eq_false_2 by lia.
    + destruct (test_spec LEVELS DEPTH (mk_bitvec sz ns dv u) (i - 1)) as (b & -> & Hb);
        [done|cbn [iSize]; lia|unfold LEVELS, DEPTH; lia|].
      rewrite Hs in Hb by lia. f_equal. apply eq_true_iff_eq. rewrite Hb, bool_decide_eq_true.
      split; [intros ?; split; [lia|done]|by intros [_ ?]].
Qed.

(** Operations and their observable results; [None] where the caller's argument breaks
    the documented precondition. *)
Inductive bv_op := OSet (i : Z) | OClear (i : Z) | OTest (i : Z) | OSize.

Definition bv_step (p : Bitvec) (o : bv_op) : outcome (Z * Bitvec) :=
  match o with
  | OSet i => '(rc, q, _) ← sqlite3BitvecSet [] (Some p) i; Done (rc, default p q)
  | OClear i => q ← sqlite3BitvecClear (Some p) i; Done (0, default p q)
  | OTest i => b ← sqlite3BitvecTest (Some p) i; Done (b2i b, p)
  | OSize => Done (sqlite3BitvecSize p, p)
  end.

Fixpoint bv_run (p : Bitvec) (os : list bv_op) : outcome (list Z) :=
  match os with
  | [] => Done []
  | o :: os => '(x, p) ← bv_step p o; xs ← bv_run p os; Done (x :: xs)
  end.

(** The specification: a set of numbers up to [n]. *)
Definition spec_step (n : Z) (s : gset Z) (o : bv_op) : Z * gset Z :=
  match o with
  | OSet i => (SQLITE_OK, {[i]} ∪ s)
  | OClear i => (0, s ∖ {[i]})
  | OTest i => (b2i (bool_decide (i ∈ s)), s)
  | OSize => (n, s)
  end.

Fixpoint spec_run (n : Z) (s : gset Z) (os : list bv_op) : list Z :=
  match os with
  | [] => []
  | o :: os => let (x, s) := spec_step n s o in x :: spec_run n s os
  end.

Definition op_ok (n : Z) (o : bv_op) : bool :=
  match o with
  | OSet i | OClear i => (1 <=? i) && (i <=? n)
  | OTest i => (0 <=? i) && (i <? 2 ^ 32)
  | OSize => true
  end.

Definition in_range (n : Z) (s : gset Z) : Prop := forall i, i ∈ s -> 1 <= i <= n.

Lemma step_refines n p s o : represents p s -> in_range n s -> iSize p = n -> op_ok n o = true ->
  exists p', bv_step p o = Done ((spec_step n s o).1, p') /\ represents p' (spec_step n s o).2 /\
    in_range n (spec_step n s o).2 /\ iSize p' = n.
Proof.
  intros Hr Hin <- Hok. unfold op_ok in Hok.
  destruct o as [i|i|i|]; try apply andb_prop in Hok as [H1%Z.leb_le H2]; cbn [bv_step spec_step fst snd].
  - apply Z.leb_le in H2. destruct (set_represents p s i Hr ltac:(lia)) as (p' & -> & Hs & Hr').
    exists p'. split_and!; [done|done| |done]. intros j. rewrite elem_of_union, elem_of_singleton.
    intros [->|?]; [lia|auto].
  - apply Z.leb_le in H2. destruct (clear_represents p s i Hr ltac:(lia)) as (p' & -> & Hs & Hr').
    exists p'. split_and!; [done|done| |done]. intros j. rewrite elem_of_difference. intros [? _]; auto.
  - apply Z.ltb_lt in H2. rewrite (test_represents p s i Hr) by lia. exists p. split_and!; try done.
    cbn [mbind outcome_bind]. do 3 f_equal. apply bool_decide_ext. split; [by intros [_ ?]|auto].
  - by exists p.
Qed.

(** C33. A Bitvec of any size from 1 to 2^32 - 62 behaves as a set of numbers, with memory available: from
    [sqlite3BitvecCreate] on, every sequence of Set, Clear, Test and Size whose
    arguments are in range returns what the same sequence returns on a mathematical
    set, through all the changes of representation. *)
Theorem Bitvec_refines_set n os :
  size_ok n -> forallb (op_ok n) os = true ->
  exists p, sqlite3BitvecCreate [] n = (Some p, []) /\ bv_run p os = Done (spec_run n ∅ os).
Proof.
  intros Hn Hos. eexists. split; [reflexivity|]. destruct (create_wf 4 n Hn (size_levels n Hn)) as [Hwf Hempty].
  assert (Hr : represents (mk_bitvec n 0 0 (zero_union n)) ∅).
  { split; [exact Hwf|]. intros i Hi. cbn [iSize] in Hi. split; [|set_solver]. intros H. by apply Hempty in H; [|lia]. }
  assert (Hin : in_range n ∅) by (intros i; set_solver).
  assert (Hs : iSize (mk_bitvec n 0 0 (zero_union n)) = n) by done.
  revert Hr Hin Hs. generalize (mk_bitvec n 0 0 (zero_union n)) as p. generalize (∅ : gset Z) as s.
  induction os as [|o os IH]; intros s p Hr Hin Hs; [done|].
  cbn [forallb] in Hos. apply andb_prop in Hos as [Ho Hos]. cbn [bv_run spec_run].
  destruct (step_refines n p s o Hr Hin Hs Ho) as (p' & -> & Hr' & Hin' & Hs').
  destruct (spec_step n s o) as [x s']. cbn [mbind outcome_bind fst snd] in *. by rewrite (IH Hos s' p').
Qed.

Lemma Bitvec_set_correct_witness :
  exists rc p' m', sqlite3BitvecSet [] (Some (mk_bitvec 100 0 0 (zero_union 100))) 7 = Done (rc, Some p', m') /\
    (rc = SQLITE_OK \/ rc = SQLITE_NOMEM).
Proof.
  destruct (Bitvec_set_correct [] (mk_bitvec 100 0 0 (zero_union 100)) 7) as (rc & p' & m' & H1 & _ & _ & H2 & _);
    [apply (create_wf 4 100); [unfold size_ok; lia|vm_compute; discriminate]|cbn; lia|eauto].
Defined.

Lemma Bitvec_refines_set_witness :
  exists p, sqlite3BitvecCreate [] 5000 = (Some p, []) /\
    bv_run p (map (fun k => OSet (k * 70)) (seqZ 1 64) ++ [OTest 140; OClear 140; OTest 140; OTest 4480; OSize]) =
      Done (replicate 64 0 ++ [1; 0; 0; 1; 5000]).
Proof.
  apply (Bitvec_refines_set 5000
    (map (fun k => OSet (k * 70)) (seqZ 1 64) ++ [OTest 140; OClear 140; OTest 140; OTest 4480; OSize]));
    [unfold size_ok; lia|vm_compute; reflexivity].
Defined.
