(* ===== verification/HashTable.v ===== *)
(** * HashTable: the generic hash table (hash.c)

    All elements are on one doubly linked list; the bucket array, allocated once the
    table holds ten elements, points into that list.  The elements live in a heap of
    [HashElem]s: pointers are [option positive], and using a pointer to no element is
    undefined.  Keys are C strings ([CType]); the data pointer is a [Z], 0 for NULL.
    The allocator answers from the list [m] (true for success, also when the list is
    exhausted); [msize n] is the usable size of a block of [n] bytes. *)

From S2P Require Import Prelude CType.

(** ** The data structure *)

Abbreviation ptr := (option positive).

Record HashElem := mk_elem { next : ptr; prev : ptr; data : Z; pKey : bytes }.

(** [struct _ht] *)
Record bucket := mk_bucket { b_count : Z; chain : ptr }.

Record Hash := mk_hash {
  htsize : Z;
  count : Z;
  first : ptr;
  ht : option (list bucket);
  heap : gmap positive HashElem;
  brk : positive  (* the next address of the heap *)
}.

Definition set_heap (pH : Hash) (hp : gmap positive HashElem) : Hash :=
  mk_hash (htsize pH) (count pH) (first pH) (ht pH) hp (brk pH).
Definition set_first (pH : Hash) (p : ptr) : Hash :=
  mk_hash (htsize pH) (count pH) p (ht pH) (heap pH) (brk pH).
Definition set_count (pH : Hash) (n : Z) : Hash :=
  mk_hash (htsize pH) n (first pH) (ht pH) (heap pH) (brk pH).
Definition set_ht (pH : Hash) (n : Z) (t : option (list bucket)) : Hash :=
  mk_hash n (count pH) (first pH) t (heap pH) (brk pH).

Definition elem (pH : Hash) (a : positive) : outcome HashElem :=
  match heap pH !! a with Some e => Done e | None => UB end.

(** [a->f = ...] for a function [f] that changes one field. *)
Definition upd_elem (pH : Hash) (a : positive) (f : HashElem -> HashElem) : outcome Hash :=
  e ← elem pH a; Done (set_heap pH (<[a := f e]> (heap pH))).

Definition with_next (p : ptr) (e : HashElem) : HashElem := mk_elem p (prev e) (data e) (pKey e).
Definition with_prev (p : ptr) (e : HashElem) : HashElem := mk_elem (next e) p (data e) (pKey e).
Definition with_data (d : Z) (k : bytes) (e : HashElem) : HashElem := mk_elem (next e) (prev e) d k.

Definition get_bucket (pH : Hash) (h : Z) : outcome bucket :=
  match ht pH with
  | Some t => match t !! Z.to_nat h with Some b => Done b | None => UB end
  | None => UB
  end.

Definition put_bucket (pH : Hash) (h : Z) (b : bucket) : outcome Hash :=
  match ht pH with
  | Some t => Done (set_ht pH (htsize pH) (Some (<[Z.to_nat h := b]> t)))
  | None => UB
  end.

(** The allocator. *)
Abbreviation mallocs := (list bool).
Definition malloc (m : mallocs) : bool * mallocs :=
  match m with [] => (true, []) | b :: m => (b, m) end.
Definition sqlite3Malloc (m : mallocs) (n : Z) : bool * mallocs :=
  if (n =? 0) || (0x7fffff00 <=? n) then (false, m) else malloc m.

Definition SQLITE_MALLOC_SOFT_LIMIT : Z := 1024.
Definition sizeof_ht : Z := 16.
Definition sizeof_HashElem : Z := 32.

(** ** Operations *)

Definition sqlite3HashInit (a : positive) : Hash := mk_hash 0 0 None None ∅ a.

(** The loop that frees the elements. *)
Fixpoint free_loop (fuel : nat) (pH : Hash) (elm : ptr) : outcome Hash :=
  match elm with
  | None => Done pH
  | Some a =>
      match fuel with
      | O => UB
      | S fuel => e ← elem pH a; free_loop fuel (set_heap pH (delete a (heap pH))) (next e)
      end
  end.

Definition sqlite3HashClear (pH : Hash) : outcome Hash :=
  let elm := first pH in
  let pH := set_ht (set_first pH None) 0 None in
  pH ← free_loop (size (heap pH)) pH elm; Done (set_count pH 0).

Fixpoint strHash_loop (h : Z) (z : bytes) : Z :=
  match z with
  | [] => h
  | c :: z => if c =? 0 then h else strHash_loop (u32 (u32 (h + sqlite3UpperToLower.[c]) * 0x9e3779b1)) z
  end.
Definition strHash (z : bytes) : Z := strHash_loop 0 z.

(** [pEntry] is the index of the bucket, [None] without a bucket. *)
Definition insertElement (pH : Hash) (pEntry : option Z) (pNew : positive) : outcome Hash :=
  '(pH, pHead) ← match pEntry with
    | Some h =>
        b ← get_bucket pH h;
        pH ← put_bucket pH h (mk_bucket (u32 (b_count b + 1)) (Some pNew));
        Done (pH, if b_count b =? 0 then None else chain b)
    | None => Done (pH, None)
    end;
  match pHead with
  | Some x =>
      e ← elem pH x;
      pH ← upd_elem pH pNew (with_next (Some x));
      pH ← upd_elem pH pNew (with_prev (prev e));
      pH ← match prev e with
           | Some y => upd_elem pH y (with_next (Some pNew))
           | None => Done (set_first pH (Some pNew))
           end;
      upd_elem pH x (with_prev (Some pNew))
  | None =>
      pH ← upd_elem pH pNew (with_next (first pH));
      pH ← match first pH with
           | Some y => upd_elem pH y (with_prev (Some pNew))
           | None => Done pH
           end;
      pH ← upd_elem pH pNew (with_prev None);
      Done (set_first pH (Some pNew))
  end.

(** [for(elem=pH->first, pH->first=0; elem; elem=next_elem)] *)
Fixpoint rehash_loop (fuel : nat) (pH : Hash) (new_size : Z) (elm : ptr) : outcome Hash :=
  match elm with
  | None => Done pH
  | Some a =>
      match fuel with
      | O => UB
      | S fuel =>
          e ← elem pH a;
          let h := strHash (pKey e) mod new_size in
          pH ← insertElement pH (Some h) a;
          rehash_loop fuel pH new_size (next e)
      end
  end.

Section operations.
Variable msize : Z -> Z.

Definition rehash (m : mallocs) (pH : Hash) (new_size : Z) : outcome (bool * mallocs * Hash) :=
  let new_size := if SQLITE_MALLOC_SOFT_LIMIT <? new_size * sizeof_ht
                  then SQLITE_MALLOC_SOFT_LIMIT / sizeof_ht else new_size in
  if new_size =? htsize pH then Done (false, m, pH)
  else
    let (ok, m) := sqlite3Malloc m (new_size * sizeof_ht) in
    if negb ok then Done (false, m, pH)
    else
      let new_size := u32 (msize (new_size * sizeof_ht) / sizeof_ht) in
      let pH := set_ht pH new_size (Some (replicate (Z.to_nat new_size) (mk_bucket 0 None))) in
      pH' ← rehash_loop (size (heap pH)) (set_first pH None) new_size (first pH);
      Done (true, m, pH').

(** [while( count-- )]; the comparison with a NULL [elem] is the failed assertion. *)
Fixpoint find_loop (cnt : nat) (pH : Hash) (elm : ptr) (key : bytes) : outcome ptr :=
  match cnt with
  | O => Done None
  | S cnt =>
      match elm with
      | None => UB
      | Some a =>
          e ← elem pH a;
          if sqlite3StrICmp (pKey e) key =? 0 then Done (Some a) else find_loop cnt pH (next e) key
      end
  end.

(** The element ([None] for the static null element) and the hash. *)
Definition findElementWithHash (pH : Hash) (key : bytes) : outcome (ptr * Z) :=
  match ht pH with
  | Some _ =>
      let h := strHash key mod htsize pH in
      b ← get_bucket pH h;
      r ← find_loop (Z.to_nat (b_count b)) pH (chain b) key;
      Done (r, h)
  | None =>
      r ← find_loop (Z.to_nat (count pH)) pH (first pH) key;
      Done (r, 0)
  end.

Definition removeElementGivenHash (pH : Hash) (a : positive) (h : Z) : outcome Hash :=
  e ← elem pH a;
  pH ← match prev e with
       | Some y => upd_elem pH y (with_next (next e))
       | None => Done (set_first pH (next e))
       end;
  pH ← match next e with
       | Some y => upd_elem pH y (with_prev (prev e))
       | None => Done pH
       end;
  pH ← match ht pH with
       | Some _ =>
           b ← get_bucket pH h;
           let ch := if decide (chain b = Some a) then next e else chain b in
           put_bucket pH h (mk_bucket (u32 (b_count b - 1)) ch)
       | None => Done pH
       end;
  let pH := set_heap pH (delete a (heap pH)) in
  let pH := set_count pH (u32 (count pH - 1)) in
  if count pH =? 0 then sqlite3HashClear pH else Done pH.

Definition sqlite3HashFind (pH : Hash) (key : bytes) : outcome Z :=
  '(a, _) ← findElementWithHash pH key;
  match a with
  | Some a => e ← elem pH a; Done (data e)
  | None => Done 0
  end.

(** A new element, its fields not yet written (the source writes [pKey] and [data]
    next, and [insertElement] the links). *)
Definition new_elem (pH : Hash) (key : bytes) (d : Z) : Hash * positive :=
  (mk_hash (htsize pH) (count pH) (first pH) (ht pH)
     (<[brk pH := mk_elem None None d key]> (heap pH)) (Pos.succ (brk pH)), brk pH).

(** [if( pH->count>=10 && pH->count > 2*pH->htsize )], with the bucket to insert in. *)
Definition grow (m : mallocs) (pH : Hash) (key : bytes) (h : Z) : outcome (Z * mallocs * Hash) :=
  if (10 <=? count pH) && (u32 (2 * htsize pH) <? count pH) then
    '(b, m, pH) ← rehash m pH (u32 (count pH * 2));
    Done (if b : bool then strHash key mod htsize pH else h, m, pH)
  else Done (h, m, pH).

Definition sqlite3HashInsert (m : mallocs) (pH : Hash) (key : bytes) (d : Z) : outcome (Z * mallocs * Hash) :=
  '(a, h) ← findElementWithHash pH key;
  old ← match a with Some a => e ← elem pH a; Done (data e) | None => Done 0 end;
  if negb (old =? 0) then
    match a with
    | Some a =>
        pH ← (if d =? 0 then removeElementGivenHash pH a h else upd_elem pH a (with_data d key));
        Done (old, m, pH)
    | None => UB  (* a write to the static null element; [old] is 0 there *)
    end
  else if d =? 0 then Done (0, m, pH)
  else
    let (ok, m) := sqlite3Malloc m sizeof_HashElem in
    if negb ok then Done (d, m, pH)
    else
      let (pH, a) := new_elem pH key d in
      let pH := set_count pH (u32 (count pH + 1)) in
      '(h, m, pH) ← grow m pH key h;
      pH ← insertElement pH (match ht pH with Some _ => Some h | None => None end) a;
      Done (0, m, pH).

(** [for(p=sqliteHashFirst(H); p; p=sqliteHashNext(p))]: the keys and data met. *)
Fixpoint hash_iter (fuel : nat) (pH : Hash) (p : ptr) : outcome (list (bytes * Z)) :=
  match p with
  | None => Done []
  | Some a =>
      match fuel with
      | O => UB
      | S fuel => e ← elem pH a; l ← hash_iter fuel pH (next e); Done ((pKey e, data e) :: l)
      end
  end.

Definition sqliteHashCount (pH : Hash) : Z := count pH.
End operations.

(** ** Keys *)

(** The case-folded text of a C string. *)
Fixpoint ckey (z : bytes) : bytes :=
  match z with
  | [] => []
  | c :: z => if c =? 0 then [] else sqlite3Tolower c :: ckey z
  end.

Definition cstr (z : bytes) : Prop := exists t g, no_nul t /\ z = t ++ 0 :: g.

Lemma ckey_text t g : no_nul t -> ckey (t ++ 0 :: g) = fold_case t.
Proof.
  induction 1 as [|c t [Hc H0] _ IH]; [done|]. cbn [app ckey map].
  by rewrite (proj2 (Z.eqb_neq c 0)), IH.
Qed.

Lemma StrICmp_ckey a b : cstr a -> cstr b -> (sqlite3StrICmp a b =? 0) = bool_decide (ckey a = ckey b).
Proof.
  intros (t & g & Ht & ->) (u & h & Hu & ->). rewrite !ckey_text by done.
  apply eq_true_iff_eq. rewrite Z.eqb_eq, bool_decide_eq_true. by apply StrICmp_eq.
Qed.

Fixpoint hash_folded (h : Z) (k : bytes) : Z :=
  match k with [] => h | c :: k => hash_folded (u32 (u32 (h + c) * 0x9e3779b1)) k end.

(** Keys equal up to case have the same hash. *)
Lemma strHash_ckey z : strHash z = hash_folded 0 (ckey z).
Proof.
  unfold strHash. generalize 0 at 1 2 as h. induction z as [|c z IH]; intros h; [done|].
  cbn [strHash_loop ckey]. destruct (c =? 0); [done|]. apply IH.
Qed.

(** ** Lists of addresses *)

Definition ins_at (k : nat) (n : positive) (ps : list positive) : list positive :=
  take k ps ++ n :: drop k ps.

Lemma lookup_ins_at k n ps i : (k <= length ps)%nat ->
  ins_at k n ps !! i = if decide (i < k)%nat then ps !! i else if decide (i = k) then Some n else ps !! (i - 1)%nat.
Proof.
  intros Hk. unfold ins_at. assert (length (take k ps) = k) as Hl by (rewrite length_take; lia).
  repeat case_decide.
  - rewrite lookup_app_l, lookup_take_lt by lia. done.
  - subst i. by rewrite list_lookup_middle by lia.
  - rewrite lookup_app_r, Hl, lookup_cons_ne_0, lookup_drop by lia. f_equal. lia.
Qed.

Lemma ins_at_elem k n ps a : a ∈ ins_at k n ps <-> a = n \/ a ∈ ps.
Proof.
  unfold ins_at. rewrite elem_of_app, elem_of_cons. rewrite <- (take_drop k ps) at 3. rewrite elem_of_app. tauto.
Qed.

Lemma ins_at_NoDup k n ps : NoDup ps -> n ∉ ps -> NoDup (ins_at k n ps).
Proof.
  intros Hnd Hn. assert (Hp : n :: ps ≡ₚ ins_at k n ps).
  { unfold ins_at. rewrite <- Permutation_middle. by rewrite take_drop. }
  rewrite <- Hp. by apply NoDup_cons.
Qed.

Lemma ins_at_length k n ps : length (ins_at k n ps) = S (length ps).
Proof. unfold ins_at. rewrite length_app, length_cons, length_take, length_drop. lia. Qed.

(** The element before position [i]. *)
Definition prv (ps : list positive) (i : nat) : ptr :=
  match i with O => None | S j => ps !! j end.

(** ** The doubly linked list *)

Abbreviation heapT := (gmap positive HashElem).

(** The elements [ps], linked in this order. *)
Definition links (hp : heapT) (fst : ptr) (ps : list positive) : Prop :=
  fst = ps !! 0%nat /\
  forall i a, ps !! i = Some a -> exists e, hp !! a = Some e /\ next e = ps !! S i /\ prev e = prv ps i.

(** The heap without its links. *)
Definition ents (hp : heapT) : gmap positive (bytes * Z) := (fun e => (pKey e, data e)) <$> hp.

Lemma ents_update hp a e e' :
  hp !! a = Some e -> pKey e' = pKey e -> data e' = data e -> ents (<[a := e']> hp) = ents hp.
Proof.
  intros He Hk Hd. unfold ents. rewrite fmap_insert. apply insert_id. by rewrite lookup_fmap, He, Hk, Hd.
Qed.

Lemma ents_lookup hp a e : hp !! a = Some e -> ents hp !! a = Some (pKey e, data e).
Proof. intros He. unfold ents. by rewrite lookup_fmap, He. Qed.

Lemma ents_inv hp a z d : ents hp !! a = Some (z, d) -> exists e, hp !! a = Some e /\ pKey e = z /\ data e = d.
Proof.
  unfold ents. rewrite lookup_fmap. destruct (hp !! a) as [e|]; [|done]. simpl. intros [= <- <-]. eauto.
Qed.

Lemma upd_elem_Done pH a f e : heap pH !! a = Some e ->
  upd_elem pH a f = Done (set_heap pH (<[a := f e]> (heap pH))).
Proof. intros He. unfold upd_elem, elem. by rewrite He. Qed.

(** The links after [n] was put before position [k]. *)
Lemma links_insert hp hp' fst ps k n en :
  links hp fst ps -> (k <= length ps)%nat ->
  hp' !! n = Some en -> next en = ps !! k -> prev en = prv ps k ->
  (forall i a e, ps !! i = Some a -> hp !! a = Some e -> exists e', hp' !! a = Some e' /\
     next e' = (if decide (S i = k) then Some n else next e) /\
     prev e' = (if decide (i = k) then Some n else prev e)) ->
  links hp' (if decide (k = 0%nat) then Some n else fst) (ins_at k n ps).
Proof.
  intros [Hf Hl] Hk Hn Hnx Hpv Hupd. split.
  - rewrite lookup_ins_at by done. repeat case_decide; subst; try done; lia.
  - intros i a Ha. rewrite lookup_ins_at in Ha by done.
    assert (Hprv : forall j, prv (ins_at k n ps) j =
      if decide (j <= k)%nat then prv ps j else if decide (j = S k) then Some n else prv ps (j - 1)).
    { intros [|j]; [done|]. cbn [prv]. rewrite lookup_ins_at by done.
      replace (S j - 1)%nat with j by lia.
      repeat case_decide; try lia; try done; try congruence; destruct j; try lia; cbn [prv]; f_equal; lia. }
    rewrite Hprv, lookup_ins_at by done. repeat case_decide; try lia; simplify_eq.
    + destruct (Hl _ _ Ha) as (e & He & Hne & Hpe). destruct (Hupd _ _ _ Ha He) as (e' & He' & Hn' & Hp').
      exists e'. rewrite Hn', Hp'. repeat case_decide; try lia; done.
    + destruct (Hl _ _ Ha) as (e & He & Hne & Hpe). destruct (Hupd _ _ _ Ha He) as (e' & He' & Hn' & Hp').
      exists e'. rewrite Hn', Hp'. repeat case_decide; try lia; done.
    + exists en. rewrite Hnx, Hpv. split_and!; try done. f_equal. lia.
    + destruct (Hl _ _ Ha) as (e & He & Hne & Hpe). destruct (Hupd _ _ _ Ha He) as (e' & He' & Hn' & Hp').
      exists e'. rewrite Hn', Hp', Hne, Hpe. repeat case_decide; try lia. split_and!; try done. f_equal. lia.
    + destruct (Hl _ _ Ha) as (e & He & Hne & Hpe). destruct (Hupd _ _ _ Ha He) as (e' & He' & Hn' & Hp').
      exists e'. rewrite Hn', Hp', Hne, Hpe. repeat case_decide; try lia. split_and!; try done. f_equal. lia.
Qed.

Lemma lookup_delete_at {A} k (ps : list A) i :
  delete k ps !! i = if decide (i < k)%nat then ps !! i else ps !! S i.
Proof. case_decide; [by rewrite list_lookup_delete_lt|by rewrite list_lookup_delete_ge by lia]. Qed.

(** The links after the element at position [k] was taken out. *)
Lemma links_delete hp hp' fst ps k :
  links hp fst ps -> (k < length ps)%nat ->
  (forall i a e, i <> k -> ps !! i = Some a -> hp !! a = Some e -> exists e', hp' !! a = Some e' /\
     next e' = (if decide (S i = k) then ps !! S k else next e) /\
     prev e' = (if decide (i = S k) then prv ps k else prev e)) ->
  links hp' (if decide (k = 0%nat) then ps !! 1%nat else fst) (delete k ps).
Proof.
  intros [Hf Hl] Hk Hupd.
  assert (Hprv : forall j, prv (delete k ps) j =
    if decide (j <= k)%nat then prv ps j else prv ps (S j)).
  { intros [|j]; [by rewrite decide_True by lia|]. cbn [prv]. rewrite lookup_delete_at.
    repeat case_decide; try lia; done. }
  split.
  - rewrite lookup_delete_at. repeat case_decide; subst; try done; lia.
  - intros i a Ha. rewrite lookup_delete_at in Ha. rewrite Hprv, lookup_delete_at.
    destruct (decide (i < k)%nat) as [Hik|Hik].
    + destruct (Hl _ _ Ha) as (e & He & Hne & Hpe). destruct (Hupd i _ e ltac:(lia) Ha He) as (e' & He' & Hn' & Hp').
      exists e'. rewrite Hn', Hp', Hne, Hpe.
      repeat case_decide; try lia; subst; split_and!; try done; f_equal; lia.
    + destruct (Hl _ _ Ha) as (e & He & Hne & Hpe). destruct (Hupd (S i) _ e ltac:(lia) Ha He) as (e' & He' & Hn' & Hp').
      exists e'. rewrite Hn', Hp', Hne, Hpe.
      repeat case_decide; try lia; simplify_eq; split_and!; try done; f_equal; lia.
Qed.

(** *** The link part of [insertElement] *)

(** Changing the [prev] or [next] of one element. *)
Lemma set_heap_id pH : set_heap pH (heap pH) = pH.
Proof. by destruct pH. Qed.

(** In front of position [k], the element there (or the first) being [x]. *)
Lemma link_before pH n x e en k ps :
  links (heap pH) (first pH) ps -> NoDup ps -> n ∉ ps -> ps !! k = Some x ->
  heap pH !! x = Some e -> heap pH !! n = Some en ->
  exists pH',
    (pH ← upd_elem pH n (with_next (Some x));
     pH ← upd_elem pH n (with_prev (prev e));
     pH ← match prev e with
          | Some y => upd_elem pH y (with_next (Some n))
          | None => Done (set_first pH (Some n))
          end;
     upd_elem pH x (with_prev (Some n))) = Done pH' /\
    pH' = mk_hash (htsize pH) (count pH) (first pH') (ht pH) (heap pH') (brk pH) /\
    ents (heap pH') = ents (heap pH) /\
    links (heap pH') (first pH') (ins_at k n ps) /\
    (forall a, a <> n -> a ∉ ps -> heap pH' !! a = heap pH !! a).
Proof.
  intros Hlinks Hnd Hn Hk He Hen. pose proof Hlinks as [Hf Hl].
  assert (Hxps : x ∈ ps) by (by eapply list_elem_of_lookup_2).
  assert (Hxn : x <> n) by (by intros ->). pose proof (lookup_lt_Some _ _ _ Hk) as Hlt.
  destruct (Hl _ _ Hk) as (e0 & He0 & Hne & Hpe). simplify_eq.
  rewrite (upd_elem_Done _ _ _ en) by done. cbn [mbind outcome_bind].
  rewrite (upd_elem_Done _ _ _ (with_next (Some x) en)) by (apply lookup_insert_eq). cbn [mbind outcome_bind heap set_heap].
  rewrite insert_insert_eq.
  set (hp1 := <[n := with_prev (prev e) (with_next (Some x) en)]> (heap pH)).
  assert (Hfin : forall hp2, hp2 !! x = Some e ->
    hp2 !! n = Some (with_prev (prev e) (with_next (Some x) en)) ->
    (forall i a ea, i <> k -> ps !! i = Some a -> heap pH !! a = Some ea ->
       hp2 !! a = Some (if decide (S i = k) then with_next (Some n) ea else ea)) ->
    links (<[x := with_prev (Some n) e]> hp2) (if decide (k = 0%nat) then Some n else first pH) (ins_at k n ps)).
  { intros hp2 H1 H2 H3. apply (links_insert (heap pH) _ _ _ k n (with_prev (prev e) (with_next (Some x) en))).
    - exact Hlinks.
    - lia.
    - by rewrite lookup_insert_ne.
    - by rewrite Hk.
    - by rewrite <- Hpe.
    - intros i a ea Ha Hea. destruct (decide (i = k)) as [->|Hne'].
      + simplify_eq. eexists. rewrite lookup_insert_eq. split; [done|]. rewrite decide_False by lia. done.
      + assert (a <> x) by (intros ->; apply Hne'; by eapply NoDup_lookup).
        eexists. rewrite lookup_insert_ne by done. split; [by apply H3|]. by case_decide. }
  assert (Hx1 : hp1 !! x = Some e) by (unfold hp1; by rewrite lookup_insert_ne).
  assert (Hn1 : hp1 !! n = Some (with_prev (prev e) (with_next (Some x) en))) by apply lookup_insert_eq.
  assert (Ho1 : forall i a ea, ps !! i = Some a -> heap pH !! a = Some ea -> hp1 !! a = Some ea).
  { intros i a ea Ha Hea. unfold hp1. rewrite lookup_insert_ne; [done|]. intros ->. apply Hn. by eapply list_elem_of_lookup_2. }
  assert (He1 : ents hp1 = ents (heap pH)) by (by apply ents_update with en).
  destruct k as [|j]; cbn [prv] in Hpe.
  - rewrite Hpe. cbn [mbind outcome_bind]. rewrite (upd_elem_Done _ _ _ e) by done.
    eexists. split; [done|]. split; [done|]. cbn [heap first set_heap set_first]. split_and!.
    + by rewrite (ents_update _ _ e).
    + apply Hfin; [done|exact Hn1|]. intros i a ea Hi Ha Hea. rewrite decide_False by lia. by eapply Ho1.
    + intros a Han Ha. assert (a <> x) by congruence. unfold hp1. by rewrite !lookup_insert_ne.
  - destruct (lookup_lt_is_Some_2 ps j) as [y Hy]; [lia|]. rewrite Hy in Hpe. rewrite Hpe.
    destruct (Hl _ _ Hy) as (ey & Hey & _). assert (y <> x).
    { intros ->. pose proof (NoDup_lookup _ _ _ _ Hnd Hy Hk). lia. }
    assert (y <> n) by (intros ->; apply Hn; by eapply list_elem_of_lookup_2).
    rewrite (upd_elem_Done _ _ _ ey) by (by eapply Ho1). cbn [mbind outcome_bind].
    rewrite (upd_elem_Done _ _ _ e) by (cbn [heap set_heap]; by rewrite lookup_insert_ne).
    eexists. split; [done|]. split; [done|]. cbn [heap first set_heap set_first]. split_and!.
    + rewrite (ents_update _ _ e); [|by rewrite lookup_insert_ne|done|done].
      by rewrite (ents_update _ _ ey); [|by eapply Ho1|done|done].
    + apply (Hfin (<[y := with_next (Some n) ey]> hp1)).
      * by rewrite lookup_insert_ne.
      * rewrite lookup_insert_ne by done. done.
      * intros i a ea Hi Ha Hea. destruct (decide (S i = S j)) as [[= ->]|Hij].
        -- simplify_eq. apply lookup_insert_eq.
        -- assert (a <> y) by (intros ->; apply Hij; f_equal; by eapply NoDup_lookup).
           rewrite lookup_insert_ne by done. by eapply Ho1.
    + intros a Han Ha. assert (a <> x) by congruence.
      assert (a <> y) by (intros ->; apply Ha; by eapply list_elem_of_lookup_2). unfold hp1. by rewrite !lookup_insert_ne.
Qed.

(** At the head of the list. *)
Lemma link_front pH n en ps :
  links (heap pH) (first pH) ps -> NoDup ps -> n ∉ ps -> heap pH !! n = Some en ->
  exists pH',
    (pH ← upd_elem pH n (with_next (first pH));
     pH ← match first pH with
          | Some y => upd_elem pH y (with_prev (Some n))
          | None => Done pH
          end;
     pH ← upd_elem pH n (with_prev None);
     Done (set_first pH (Some n))) = Done pH' /\
    pH' = mk_hash (htsize pH) (count pH) (first pH') (ht pH) (heap pH') (brk pH) /\
    ents (heap pH') = ents (heap pH) /\
    links (heap pH') (first pH') (ins_at 0 n ps) /\
    (forall a, a <> n -> a ∉ ps -> heap pH' !! a = heap pH !! a).
Proof.
  intros Hlinks Hnd Hn Hen. pose proof Hlinks as [Hf Hl].
  rewrite (upd_elem_Done _ _ _ en) by done. cbn [mbind outcome_bind first set_heap heap].
  set (hp1 := <[n := with_next (first pH) en]> (heap pH)).
  assert (He1 : ents hp1 = ents (heap pH)) by (by apply ents_update with en).
  assert (Hn1 : hp1 !! n = Some (with_next (first pH) en)) by apply lookup_insert_eq.
  assert (Hne : forall i a, ps !! i = Some a -> a <> n) by (intros i a Ha ->; apply Hn; by eapply list_elem_of_lookup_2).
  destruct (first pH) as [y|] eqn:Efst.
  - symmetry in Hf. destruct (Hl _ _ Hf) as (ey & Hey & _). pose proof (Hne _ _ Hf) as Hyn.
    rewrite (upd_elem_Done _ _ _ ey) by (cbn [heap set_heap]; unfold hp1; by rewrite lookup_insert_ne).
    cbn [mbind outcome_bind set_heap heap].
    rewrite (upd_elem_Done _ _ _ (with_next (Some y) en)) by (cbn [heap set_heap]; by rewrite lookup_insert_ne).
    cbn [mbind outcome_bind]. eexists. split; [done|]. split; [done|]. cbn [heap first set_first set_heap]. split_and!.
    + rewrite (ents_update _ _ (with_next (Some y) en)); [|by rewrite lookup_insert_ne|done|done].
      rewrite (ents_update _ _ ey); [done|unfold hp1; by rewrite lookup_insert_ne|done|done].
    + apply (links_insert (heap pH) _ (first pH) _ 0 n (with_prev None (with_next (Some y) en)));
        [by rewrite Efst|lia|by rewrite lookup_insert_eq|done|done|].
      intros i a e Ha He. rewrite lookup_insert_ne by (apply not_eq_sym; eauto). rewrite decide_False by lia.
      destruct i as [|i].
      * simplify_eq. rewrite lookup_insert_eq. eexists. split; [done|]. done.
      * assert (a <> y) by (intros ->; pose proof (NoDup_lookup _ _ _ _ Hnd Hf Ha); lia).
        rewrite lookup_insert_ne by done. unfold hp1. rewrite lookup_insert_ne by (apply not_eq_sym; eauto).
        exists e. by rewrite decide_False by lia.
    + intros a Han Ha. assert (a <> y) by (intros ->; apply Ha; by eapply list_elem_of_lookup_2).
      unfold hp1. by rewrite !lookup_insert_ne.
  - cbn [mbind outcome_bind]. rewrite (upd_elem_Done _ _ _ (with_next None en)) by done.
    cbn [mbind outcome_bind]. eexists. split; [done|]. split; [done|]. cbn [heap first set_first set_heap].
    assert (ps = []) as -> by (by destruct ps). split_and!.
    + by rewrite (ents_update _ _ (with_next None en)).
    + split; [done|]. intros [|[|i]] a Ha; simplify_eq/=. eexists. by rewrite lookup_insert_eq.
    + intros a Han Ha. unfold hp1. by rewrite !lookup_insert_ne.
Qed.

(** ** The buckets *)

(** Bucket [b] of the list [ps], [f] giving the bucket of an element: its elements are
    the [b_count] ones from [chain] on. *)
Definition bucket_ok (f : positive -> Z) (b : Z) (bk : bucket) (ps : list positive) : Prop :=
  exists s n, (s + n <= length ps)%nat /\ b_count bk = Z.of_nat n /\
    (forall i a, ps !! i = Some a -> f a = b <-> (s <= i < s + n)%nat) /\
    ((0 < n)%nat -> chain bk = ps !! s).

Definition buckets_ok (f : positive -> Z) (t : list bucket) (ps : list positive) : Prop :=
  forall b bk, t !! b = Some bk -> bucket_ok f (Z.of_nat b) bk ps.

(** Where [insertElement] puts an element of bucket [bk]. *)
Definition ins_pos (bk : bucket) (s : nat) : nat := if b_count bk =? 0 then 0%nat else s.

Lemma bucket_ok_insert f b bk k n ps :
  (k <= length ps)%nat -> bucket_ok f b bk ps -> f n <> b ->
  (forall x, ps !! k = Some x -> k <> 0%nat -> f x <> b) ->
  bucket_ok f b bk (ins_at k n ps).
Proof.
  intros Hk (s & m & Hlen & Hc & Hf & Hch) Hn Hx.
  destruct (decide (m = 0)%nat) as [->|Hm].
  { exists 0%nat, 0%nat. rewrite ins_at_length. split_and!; [lia|done| |lia].
    intros i a Ha. rewrite lookup_ins_at in Ha by done. split; [|lia]. intros E. exfalso.
    repeat case_decide; first [apply (Hf _ _ Ha) in E; lia|congruence]. }
  assert (Hks : (k <= s \/ s + m <= k)%nat).
  { destruct (decide (k = 0%nat)) as [->|Hk0]; [lia|].
    destruct (decide (s <= k < s + m)%nat) as [Hin|]; [|lia]. exfalso.
    destruct (lookup_lt_is_Some_2 ps k) as [x Ex]; [lia|]. apply (Hx x Ex Hk0), (Hf k x Ex), Hin. }
  exists (if decide (k <= s)%nat then S s else s), m. rewrite ins_at_length. split_and!; [case_decide; lia|done| |].
  - intros i a Ha. rewrite lookup_ins_at in Ha by done. repeat case_decide; simplify_eq; try lia;
      try (rewrite (Hf _ _ Ha); lia); (split; [done|lia]).
  - intros _. rewrite lookup_ins_at, Hch by lia. repeat case_decide; try lia; f_equal; lia.
Qed.

(** The bucket of the new element. *)
Lemma bucket_ok_insert_same f b bk n ps s m :
  n ∉ ps -> f n = b -> len ps + 1 < 2 ^ 32 ->
  (s + m <= length ps)%nat -> b_count bk = Z.of_nat m ->
  (forall i a, ps !! i = Some a -> f a = b <-> (s <= i < s + m)%nat) ->
  bucket_ok f b (mk_bucket (u32 (b_count bk + 1)) (Some n)) (ins_at (ins_pos bk s) n ps).
Proof.
  intros Hn Hfn Hlen Hs Hc Hf. unfold ins_pos. rewrite Hc.
  assert (Hk : forall k, (k <= length ps)%nat -> ((m = 0%nat /\ k = 0%nat) \/ (m <> 0%nat /\ k = s)) ->
    bucket_ok f b (mk_bucket (u32 (Z.of_nat m + 1)) (Some n)) (ins_at k n ps)).
  { intros k Hk Hcase. exists k, (S m). cbn [b_count chain]. rewrite ins_at_length, u32_id by lia. split_and!; [lia|lia| |].
    - intros i a Ha. rewrite lookup_ins_at in Ha by done. repeat case_decide; simplify_eq.
      + rewrite (Hf _ _ Ha). lia.
      + split; [lia|done].
      + rewrite (Hf _ _ Ha). lia.
    - intros _. rewrite lookup_ins_at by done. by rewrite decide_False, decide_True by lia. }
  apply Hk; destruct (Z.eqb_spec (Z.of_nat m) 0); lia.
Qed.

(** The bucket [b] at position [s] when an element is taken out at [k]. *)
Lemma bucket_ok_delete f b bk ps k a :
  ps !! k = Some a -> bucket_ok f b bk ps -> f a <> b -> bucket_ok f b bk (delete k ps).
Proof.
  intros Hk (s & m & Hlen & Hc & Hf & Hch) Hn. pose proof (lookup_lt_Some _ _ _ Hk) as Hlt.
  assert (Hks : ~ (s <= k < s + m)%nat) by (intros H; by apply Hn, (Hf _ _ Hk)).
  destruct (decide (m = 0)%nat) as [->|Hm].
  { exists 0%nat, 0%nat. split_and!; [lia|done| |lia]. intros i x Hx. rewrite lookup_delete_at in Hx. split; [|lia].
    intros E. exfalso. case_decide; apply (Hf _ _ Hx) in E; lia. }
  exists (if decide (k < s)%nat then (s - 1)%nat else s), m. rewrite length_delete by (by eexists).
  split_and!; [case_decide; lia|done| |].
  - intros i x Hx. rewrite lookup_delete_at in Hx. repeat case_decide; rewrite (Hf _ _ Hx); lia.
  - intros _. rewrite Hch by lia. rewrite lookup_delete_at. repeat case_decide; try lia; f_equal; lia.
Qed.

Lemma bucket_ok_delete_same f b bk ps k a :
  NoDup ps -> ps !! k = Some a -> len ps < 2 ^ 32 -> bucket_ok f b bk ps -> f a = b ->
  bucket_ok f b (mk_bucket (u32 (b_count bk - 1))
    (if decide (chain bk = Some a) then ps !! S k else chain bk)) (delete k ps).
Proof.
  intros Hnd Hk Hlen32 (s & m & Hlen & Hc & Hf & Hch) Hn. pose proof (lookup_lt_Some _ _ _ Hk) as Hlt.
  assert (Hks : (s <= k < s + m)%nat) by (by apply (Hf _ _ Hk)).
  exists s, (m - 1)%nat. rewrite length_delete by (by eexists). cbn [b_count chain].
  rewrite u32_id by lia. split_and!; [lia|lia| |].
  - intros i x Hx. rewrite lookup_delete_at in Hx. case_decide; rewrite (Hf _ _ Hx); lia.
  - intros Hm. rewrite Hch by lia. rewrite lookup_delete_at.
    destruct (decide (s < k)%nat) as [Hsk|Hsk].
    + rewrite decide_False; [done|]. intros Ha. pose proof (NoDup_lookup _ _ _ _ Hnd Ha Hk). lia.
    + replace s with k by lia. by rewrite decide_True.
Qed.

(** ** insertElement *)

(** [pH'] is [pH] with [n] linked in front of position [k], the rest of the heap as it was. *)
Definition inserted (pH pH' : Hash) (n : positive) (ps ps' : list positive) : Prop :=
  htsize pH' = htsize pH /\ count pH' = count pH /\ brk pH' = brk pH /\
  ents (heap pH') = ents (heap pH) /\ links (heap pH') (first pH') ps' /\
  (forall a, a <> n -> a ∉ ps -> heap pH' !! a = heap pH !! a) /\
  NoDup ps' /\ length ps' = S (length ps) /\ (forall a, a ∈ ps' <-> a = n \/ a ∈ ps).

Lemma inserted_intro pH pH' t n ps k :
  NoDup ps -> n ∉ ps -> pH' = mk_hash (htsize pH) (count pH) (first pH') t (heap pH') (brk pH) ->
  ents (heap pH') = ents (heap pH) -> links (heap pH') (first pH') (ins_at k n ps) ->
  (forall a, a <> n -> a ∉ ps -> heap pH' !! a = heap pH !! a) ->
  inserted pH pH' n ps (ins_at k n ps) /\ ht pH' = t.
Proof.
  intros Hnd Hn Heq He Hl Hfr. assert (Hs : htsize pH' = htsize pH /\ count pH' = count pH /\ brk pH' = brk pH /\ ht pH' = t)
    by (rewrite Heq; done). destruct Hs as (? & ? & ? & ?). split; [|done]. unfold inserted.
  do 6 (split; [done|]). split; [by apply ins_at_NoDup|]. split; [apply ins_at_length|]. intros a. apply ins_at_elem.
Qed.

Lemma insertElement_list pH n en ps :
  links (heap pH) (first pH) ps -> NoDup ps -> n ∉ ps -> heap pH !! n = Some en ->
  exists pH' ps', insertElement pH None n = Done pH' /\ inserted pH pH' n ps ps' /\ ht pH' = ht pH.
Proof.
  intros Hl Hnd Hn Hen. unfold insertElement. cbn [mbind outcome_bind].
  destruct (link_front pH n en ps Hl Hnd Hn Hen) as (pH' & -> & Heq & He & Hl' & Hfr).
  exists pH', (ins_at 0 n ps). split; [done|]. by apply inserted_intro.
Qed.

Lemma insertElement_bucket pH n en ps h t bk f :
  links (heap pH) (first pH) ps -> NoDup ps -> n ∉ ps -> heap pH !! n = Some en ->
  ht pH = Some t -> 0 <= h -> t !! Z.to_nat h = Some bk -> buckets_ok f t ps -> f n = h -> len ps + 1 < 2 ^ 32 ->
  exists pH' ps' t', insertElement pH (Some h) n = Done pH' /\ inserted pH pH' n ps ps' /\
    ht pH' = Some t' /\ length t' = length t /\ buckets_ok f t' ps'.
Proof.
  intros Hl Hnd Hn Hen Ht Hh0 Hbk Hbs Hfn Hlen.
  pose proof (Hbs _ _ Hbk) as Hb. rewrite Z2Nat.id in Hb by done. destruct Hb as (s & m & Hs & Hc & Hf & Hch).
  set (t' := <[Z.to_nat h := mk_bucket (u32 (b_count bk + 1)) (Some n)]> t).
  set (pH1 := set_ht pH (htsize pH) (Some t')). unfold insertElement, get_bucket, put_bucket. rewrite Ht, Hbk.
  cbn [mbind outcome_bind]. fold t' pH1.
  assert (Hgoal : forall k, k = ins_pos bk s -> (k <= length ps)%nat ->
    (forall x, ps !! k = Some x -> k <> 0%nat -> f x = h) -> buckets_ok f t' (ins_at k n ps)).
  { intros k -> Hk Hx b bk' Hb'. unfold t' in Hb'. destruct (decide (b = Z.to_nat h)) as [->|Hne].
    - rewrite list_lookup_insert_eq in Hb' by (by eapply lookup_lt_Some). simplify_eq.
      rewrite Z2Nat.id by done. by apply (bucket_ok_insert_same f (f n) bk n ps s m).
    - rewrite list_lookup_insert_ne in Hb' by done. apply bucket_ok_insert; [done|by apply Hbs|lia|].
      intros x Ex Hk0. rewrite (Hx x Ex Hk0). lia. }
  unfold ins_pos in Hgoal. destruct (Z.eqb_spec (b_count bk) 0) as [E0|E0].
  - destruct (link_front pH1 n en ps Hl Hnd Hn Hen) as (pH' & -> & Heq & He & Hl' & Hfr).
    exists pH', (ins_at 0 n ps), t'. split; [done|].
    destruct (inserted_intro pH pH' (Some t') n ps 0 Hnd Hn Heq He Hl' Hfr) as [Hins ->].
    split; [done|]. split; [done|]. split; [by unfold t'; rewrite length_insert|].
    apply Hgoal; [done|lia|done].
  - rewrite Hch by lia. destruct (lookup_lt_is_Some_2 ps s) as [x Ex]; [lia|]. rewrite Ex.
    destruct (proj2 Hl _ _ Ex) as (e & Hex & _).
    unfold elem. change (heap pH1) with (heap pH). rewrite Hex. cbn [mbind outcome_bind].
    destruct (link_before pH1 n x e en s ps Hl Hnd Hn Ex Hex Hen) as (pH' & -> & Heq & He & Hl' & Hfr).
    exists pH', (ins_at s n ps), t'. split; [done|].
    destruct (inserted_intro pH pH' (Some t') n ps s Hnd Hn Heq He Hl' Hfr) as [Hins ->].
    split; [done|]. split; [done|]. split; [by unfold t'; rewrite length_insert|].
    apply Hgoal; [done|lia|]. intros y Ey _. apply (Hf _ _ Ey). lia.
Qed.

(** ** The invariant *)

(** The bucket of an element among [sz]. *)
Definition bkt (en : gmap positive (bytes * Z)) (sz : Z) (a : positive) : Z :=
  match en !! a with Some (z, _) => strHash z mod sz | None => -1 end.

Definition table_ok (pH : Hash) (ps : list positive) : Prop :=
  match ht pH with
  | None => htsize pH = 0
  | Some t => htsize pH = len t /\ 0 < htsize pH < 2 ^ 32 /\
              buckets_ok (bkt (ents (heap pH)) (htsize pH)) t ps
  end.

(** Contents: C strings, no NULL data, no two keys equal up to case. *)
Definition contents_ok (en : gmap positive (bytes * Z)) : Prop :=
  (forall a z d, en !! a = Some (z, d) -> cstr z /\ d <> 0) /\
  (forall a b z d z' d', en !! a = Some (z, d) -> en !! b = Some (z', d') -> ckey z = ckey z' -> a = b).

(** The heap holds exactly the elements of the list (nothing is leaked), and an empty
    table has no bucket array. *)
Record hinv (pH : Hash) (ps : list positive) : Prop := mk_hinv {
  h_links : links (heap pH) (first pH) ps;
  h_nodup : NoDup ps;
  h_dom : forall a, is_Some (heap pH !! a) <-> a ∈ ps;
  h_brk : forall a, a ∈ ps -> (a < brk pH)%positive;
  h_count : count pH = len ps;
  h_len : len ps < 2 ^ 32;
  h_table : table_ok pH ps;
  h_contents : contents_ok (ents (heap pH));
  h_empty : ps = [] -> ht pH = None
}.

(** The map from folded keys to data that the table stands for. *)
Definition entries (pH : Hash) (M : gmap bytes Z) : Prop :=
  forall k d, M !! k = Some d <-> exists a z, ents (heap pH) !! a = Some (z, d) /\ ckey z = k.

Definition rep (pH : Hash) (M : gmap bytes Z) : Prop := exists ps, hinv pH ps /\ entries pH M.

Lemma bkt_key en sz a z d : en !! a = Some (z, d) -> bkt en sz a = strHash z mod sz.
Proof. intros E. unfold bkt. by rewrite E. Qed.

Lemma list_elem hp fst ps a : links hp fst ps -> a ∈ ps -> exists e, hp !! a = Some e.
Proof. intros [_ Hl] [i Hi]%list_elem_of_lookup_1. destruct (Hl _ _ Hi) as (e & He & _). eauto. Qed.

(** ** Lookup *)

(** The search of [cnt] elements from position [s]. *)
Lemma find_loop_spec pH ps key cnt : forall s,
  links (heap pH) (first pH) ps -> contents_ok (ents (heap pH)) -> cstr key -> (s + cnt <= length ps)%nat ->
  exists r, find_loop cnt pH (ps !! s) key = Done r /\
    match r with
    | Some a => a ∈ ps /\ exists e, heap pH !! a = Some e /\ ckey (pKey e) = ckey key
    | None => forall i a e, (s <= i < s + cnt)%nat -> ps !! i = Some a -> heap pH !! a = Some e -> ckey (pKey e) <> ckey key
    end.
Proof.
  induction cnt as [|cnt IH]; intros s Hl Hc Hk Hlen.
  - exists None. split; [done|]. intros. lia.
  - destruct (lookup_lt_is_Some_2 ps s) as [a Ha]; [lia|]. destruct (proj2 Hl _ _ Ha) as (e & He & Hn & _).
    cbn [find_loop]. rewrite Ha. unfold elem. rewrite He. cbn [mbind outcome_bind].
    destruct (proj1 Hc a (pKey e) (data e)) as [Hcs _]; [by apply ents_lookup|].
    rewrite StrICmp_ckey by done. case_bool_decide as E.
    + exists (Some a). split; [done|]. split; [by eapply list_elem_of_lookup_2|eauto].
    + rewrite Hn. destruct (IH (S s) Hl Hc Hk ltac:(lia)) as (r & -> & Hr). exists r. split; [done|].
      destruct r; [done|]. intros i b eb Hi Hb Heb. destruct (decide (i = s)) as [->|]; [by simplify_eq|].
      apply (Hr i b eb); [lia|done|done].
Qed.

(** [findElementWithHash] finds the element with the key, and the key's bucket. *)
Lemma find_spec pH ps key :
  hinv pH ps -> cstr key ->
  exists r h, findElementWithHash pH key = Done (r, h) /\
    (ht pH <> None -> h = strHash key mod htsize pH) /\
    match r with
    | Some a => a ∈ ps /\ exists e, heap pH !! a = Some e /\ ckey (pKey e) = ckey key
    | None => forall a e, heap pH !! a = Some e -> ckey (pKey e) <> ckey key
    end.
Proof.
  intros Hi Hk. pose proof (h_links _ _ Hi) as Hl. pose proof (h_table _ _ Hi) as Ht.
  unfold findElementWithHash, table_ok in *. destruct (ht pH) as [t|] eqn:Et.
  - destruct Ht as (Hsz & Hpos & Hb). set (h := strHash key mod htsize pH).
    assert (Hh : 0 <= h < htsize pH) by (apply Z.mod_pos_bound; lia).
    unfold get_bucket. rewrite Et. destruct (lookup_lt_is_Some_2 t (Z.to_nat h)) as [bk Ebk]; [lia|]. rewrite Ebk.
    cbn [mbind outcome_bind]. destruct (Hb _ _ Ebk) as (s & m & Hs & Hc & Hf & Hch). rewrite Z2Nat.id in Hf by lia.
    rewrite Hc, Nat2Z.id.
    assert (exists r, find_loop m pH (chain bk) key = Done r /\
      match r with
      | Some a => a ∈ ps /\ exists e, heap pH !! a = Some e /\ ckey (pKey e) = ckey key
      | None => forall i a e, (s <= i < s + m)%nat -> ps !! i = Some a -> heap pH !! a = Some e -> ckey (pKey e) <> ckey key
      end) as (r & -> & Hr).
    { destruct m as [|m]; [exists None; split; [done|]; intros; lia|].
      rewrite Hch by lia. apply find_loop_spec; auto. apply (h_contents _ _ Hi). }
    cbn [mbind outcome_bind]. exists r, h. split; [done|]. split; [done|]. destruct r as [a|]; [done|].
    intros a e He E. assert (a ∈ ps) as [i Hia]%list_elem_of_lookup_1 by (apply (h_dom _ _ Hi); eauto).
    apply (Hr i a e); [|done|done|done]. apply (Hf _ _ Hia). rewrite (bkt_key _ _ _ (pKey e) (data e)) by (by apply ents_lookup).
    unfold h. by rewrite !strHash_ckey, E.
  - rewrite (h_count _ _ Hi), Nat2Z.id. destruct Hl as [Hfst Hl'] eqn:El. rewrite Hfst.
    destruct (find_loop_spec pH ps key (length ps) 0 Hl (h_contents _ _ Hi) Hk ltac:(lia)) as (r & -> & Hr).
    cbn [mbind outcome_bind]. exists r, 0. split; [done|]. split; [done|]. destruct r as [a|]; [done|].
    intros a e He. assert (a ∈ ps) as [i Hia]%list_elem_of_lookup_1 by (apply (h_dom _ _ Hi); eauto).
    apply (Hr i a e); [|done|done]. apply lookup_lt_Some in Hia. lia.
Qed.

(** ** Rehash *)

Lemma buckets_ok_ext f g t ps : (forall a, a ∈ ps -> f a = g a) -> buckets_ok f t ps -> buckets_ok g t ps.
Proof.
  intros Hfg Hb b bk Hbk. destruct (Hb b bk Hbk) as (s & m & H1 & H2 & H3 & H4). exists s, m. split_and!; try done.
  intros i a Ha. rewrite <- Hfg by (by eapply list_elem_of_lookup_2). by apply H3.
Qed.

Lemma buckets_ok_empty f n : buckets_ok f (replicate n (mk_bucket 0 None)) [].
Proof.
  intros b bk [-> _]%lookup_replicate. exists 0%nat, 0%nat. split_and!; [done|done|intros i a Ha; done|lia].
Qed.

Lemma heap_size (hp : heapT) ps : NoDup ps -> (forall a, a ∈ ps -> is_Some (hp !! a)) -> (length ps <= size hp)%nat.
Proof.
  intros Hnd Hin. rewrite <- (size_list_to_set (C:=gset positive) ps Hnd), <- size_dom.
  apply subseteq_size. intros a Ha%elem_of_list_to_set. by apply elem_of_dom, Hin.
Qed.

(** Links, order and buckets of a hash whose heap may also hold an element not yet
    linked. *)
Record shape (pH : Hash) (ps : list positive) : Prop := mk_shape {
  s_links : links (heap pH) (first pH) ps;
  s_nodup : NoDup ps;
  s_table : table_ok pH ps
}.

Lemma table_ok_Some pH ps t : ht pH = Some t -> htsize pH = len t -> 0 < htsize pH < 2 ^ 32 ->
  buckets_ok (bkt (ents (heap pH)) (htsize pH)) t ps -> table_ok pH ps.
Proof. intros Ht ???. unfold table_ok. by rewrite Ht. Qed.

Lemma table_ok_inv pH ps t : table_ok pH ps -> ht pH = Some t ->
  htsize pH = len t /\ 0 < htsize pH < 2 ^ 32 /\ buckets_ok (bkt (ents (heap pH)) (htsize pH)) t ps.
Proof. unfold table_ok. intros H E. by rewrite E in H. Qed.

(** Linking an element into its bucket keeps the shape. *)
Lemma insert_shape pH ps n en h :
  shape pH ps -> n ∉ ps -> heap pH !! n = Some en -> len ps + 1 < 2 ^ 32 ->
  (ht pH <> None -> h = strHash (pKey en) mod htsize pH) ->
  exists pH' ps', insertElement pH (match ht pH with Some _ => Some h | None => None end) n = Done pH' /\
    inserted pH pH' n ps ps' /\ shape pH' ps' /\ (ht pH = None <-> ht pH' = None).
Proof.
  intros [Hl Hnd Ht] Hn Hen Hlen Hh. destruct (ht pH) as [t|] eqn:Et.
  - destruct (table_ok_inv _ _ _ Ht Et) as (Hsz & Hpos & Hb). specialize (Hh ltac:(done)).
    assert (Hh0 : 0 <= h < htsize pH) by (subst h; apply Z.mod_pos_bound; lia).
    destruct (lookup_lt_is_Some_2 t (Z.to_nat h)) as [bk Ebk]; [lia|].
    assert (Hfn : bkt (ents (heap pH)) (htsize pH) n = h) by (by rewrite (bkt_key _ _ _ _ _ (ents_lookup _ _ _ Hen))).
    destruct (insertElement_bucket pH n en ps h t bk _ Hl Hnd Hn Hen Et (proj1 Hh0) Ebk Hb Hfn Hlen) as
      (pH' & ps' & t' & E & Hins & Et' & Hlt & Hb').
    exists pH', ps'. split; [exact E|]. split; [exact Hins|].
    destruct Hins as (Hs & _ & _ & He & Hl' & _ & Hnd' & _ & _). split; [|by rewrite Et'].
    constructor; [done|done|]. eapply table_ok_Some; [done|lia|lia|]. by rewrite Hs, He.
  - destruct (insertElement_list pH n en ps Hl Hnd Hn Hen) as (pH' & ps' & E & Hins & Et').
    exists pH', ps'. split; [exact E|]. split; [exact Hins|].
    destruct Hins as (Hs & _ & _ & He & Hl' & _ & Hnd' & _ & _). rewrite Et', Et. split; [|done].
    constructor; [done|done|]. unfold table_ok in *. by rewrite Et', Et, Hs in *.
Qed.

Lemma rehash_loop_spec rs : forall fuel pH ps,
  shape pH ps -> ht pH <> None -> NoDup (ps ++ rs) -> len ps + len rs < 2 ^ 32 -> (length rs <= fuel)%nat ->
  (forall i a, rs !! i = Some a -> exists e, heap pH !! a = Some e /\ next e = rs !! S i) ->
  exists pH' ps', rehash_loop fuel pH (htsize pH) (rs !! 0%nat) = Done pH' /\ shape pH' ps' /\ ht pH' <> None /\
    ents (heap pH') = ents (heap pH) /\ count pH' = count pH /\ brk pH' = brk pH /\ htsize pH' = htsize pH /\
    length ps' = (length ps + length rs)%nat /\ (forall a, a ∈ ps' <-> a ∈ ps \/ a ∈ rs).
Proof.
  induction rs as [|a rs IH]; intros fuel pH ps Hsh Ht Hnd Hlen Hfuel Hrs.
  - exists pH, ps. destruct fuel; (split; [done|]; do 6 (split; [done|]); split; [simpl; lia|]; intros b; rewrite elem_of_nil; tauto).
  - destruct fuel as [|fuel]; [simpl in Hfuel; lia|].
    destruct (Hrs 0%nat a eq_refl) as (e & He & Hne). change ((a :: rs) !! 0%nat) with (Some a).
    cbn [rehash_loop]. unfold elem. rewrite He. cbn [mbind outcome_bind].
    change ((a :: rs) !! 1%nat) with (rs !! 0%nat) in Hne.
    apply NoDup_app in Hnd as (Hnd1 & Hdis & Hnd2). apply NoDup_cons in Hnd2 as [Har Hnd2].
    assert (Hap : a ∉ ps) by (intros Hin; apply (Hdis a Hin); by left).
    cbn [length] in Hlen. destruct (insert_shape pH ps a e (strHash (pKey e) mod htsize pH) Hsh Hap He ltac:(lia) ltac:(done))
      as (pH1 & ps1 & E & Hins & Hsh1 & Hht).
    destruct (ht pH) as [t|] eqn:Et; [|done]. rewrite E. cbn [mbind outcome_bind].
    destruct Hins as (Hs1 & Hc1 & Hb1 & He1 & Hl1 & Hfr & Hndp & Hlp & Helem). rewrite Hne, <- Hs1.
    destruct (IH fuel pH1 ps1) as (pH' & ps' & E' & Hsh' & Ht' & He' & Hc' & Hb' & Hs' & Hl' & Hel'); try done.
    + intros Hn. by apply Hht in Hn.
    + apply NoDup_app. split_and!; [done| |done]. intros x Hx Hxr. apply Helem in Hx as [->|Hx]; [done|].
      apply (Hdis x Hx). by right.
    + lia.
    + cbn [length] in Hfuel. lia.
    + intros i b Hi. destruct (Hrs (S i) b Hi) as (eb & Heb & Hnb). exists eb. rewrite Hfr; [done| |].
      * intros ->. apply Har. by eapply list_elem_of_lookup_2.
      * intros Hin. apply (Hdis b Hin). right. by eapply list_elem_of_lookup_2.
    + exists pH', ps'. split; [exact E'|]. rewrite He', Hc', Hb', Hs', Hl', Hlp. do 6 (split; [done|]). split; [simpl; lia|].
      intros x. rewrite Hel', Helem, elem_of_cons. tauto.
Qed.

(** The same elements, linked in some order; the fields the relinking leaves. *)
Definition relinked (pH pH' : Hash) (ps ps' : list positive) : Prop :=
  shape pH' ps' /\ ents (heap pH') = ents (heap pH) /\ count pH' = count pH /\ brk pH' = brk pH /\
  length ps' = length ps /\ (forall a, a ∈ ps' <-> a ∈ ps).

(** The usable size of a block is at least the requested one. *)
Definition msize_ok (msize : Z -> Z) : Prop := forall n, 0 < n <= SQLITE_MALLOC_SOFT_LIMIT -> n <= msize n < 2 ^ 36.

Lemma table_rehash_spec msize m pH new_size ps :
  msize_ok msize -> shape pH ps -> (forall a, a ∈ ps -> is_Some (heap pH !! a)) -> len ps < 2 ^ 32 -> 0 <= new_size ->
  exists b m' pH' ps', rehash msize m pH new_size = Done (b, m', pH') /\ relinked pH pH' ps ps' /\
    (b = false -> ht pH' = ht pH /\ htsize pH' = htsize pH) /\ (b = true -> ht pH' <> None).
Proof.
  intros Hms Hsh Hin Hlen Hns.
  assert (Hfail : forall m' : mallocs, exists b m'' pH' ps', Done (false, m', pH) = Done (b, m'', pH') /\ relinked pH pH' ps ps' /\
    (b = false -> ht pH' = ht pH /\ htsize pH' = htsize pH) /\ (b = true -> ht pH' <> None)).
  { intros m'. exists false, m', pH, ps. split; [done|]. split; [|done]. split; [done|]. done. }
  unfold rehash. change SQLITE_MALLOC_SOFT_LIMIT with 1024. change sizeof_ht with 16. change (1024 / 16) with 64.
  set (ns := if 1024 <? new_size * 16 then 64 else new_size).
  assert (Hns' : 0 <= ns <= 64) by (unfold ns; destruct (Z.ltb_spec 1024 (new_size * 16)); lia).
  destruct (ns =? htsize pH); [apply Hfail|]. unfold sqlite3Malloc.
  destruct (Z.eqb_spec (ns * 16) 0); [apply Hfail|]. rewrite (proj2 (Z.leb_gt 0x7fffff00 (ns * 16))) by lia. cbn [orb].
  destruct (malloc m) as [[] m']; cbn [negb]; [|apply Hfail].
  pose proof (Hms (ns * 16) ltac:(unfold SQLITE_MALLOC_SOFT_LIMIT; lia)) as Hsz. set (sz := u32 (msize (ns * 16) / 16)).
  assert (Hszr : 0 < sz < 2 ^ 32).
  { unfold sz. assert (0 < msize (ns * 16) / 16 < 2 ^ 32); [|by rewrite u32_id by lia].
    split; [apply Z.div_str_pos; lia|apply Z.div_lt_upper_bound; lia]. }
  set (pH1 := set_first (set_ht pH sz (Some (replicate (Z.to_nat sz) (mk_bucket 0 None)))) None).
  destruct Hsh as [[Hf Hl] Hnd Ht].
  destruct (rehash_loop_spec ps (size (heap pH)) pH1 []) as (pH' & ps' & E & Hsh' & Ht' & He & Hc & Hb & Hs & Hlp & Hel); try done.
  - constructor; [done|constructor|]. eapply table_ok_Some; [done|cbn [htsize pH1 set_first set_ht]; rewrite length_replicate; lia|done|].
    apply buckets_ok_empty.
  - by apply heap_size.
  - intros i a Hi. destruct (Hl i a Hi) as (e & He & Hne & _). eauto.
  - change (htsize pH1) with sz in E. cbv zeta.
    match goal with |- context [rehash_loop ?f ?h sz ?e] =>
      change f with (size (heap pH)); change h with pH1; change e with (first pH) end. rewrite Hf.
    rewrite E. cbn [mbind outcome_bind]. exists true, m', pH', ps'. split; [done|]. split; [|done].
    do 5 (split; [done|]). intros a. rewrite Hel, elem_of_nil. tauto.
Qed.

(** ** Clear and remove *)

Lemma free_loop_spec rs : forall fuel pH,
  NoDup rs -> (length rs <= fuel)%nat ->
  (forall i a, rs !! i = Some a -> exists e, heap pH !! a = Some e /\ next e = rs !! S i) ->
  exists hp', free_loop fuel pH (rs !! 0%nat) = Done (set_heap pH hp') /\
    forall a, hp' !! a = if decide (a ∈ rs) then None else heap pH !! a.
Proof.
  induction rs as [|a rs IH]; intros fuel pH Hnd Hfuel Hrs.
  - exists (heap pH). rewrite set_heap_id. split; [by destruct fuel|]. intros a. rewrite decide_False; [done|apply not_elem_of_nil].
  - destruct fuel as [|fuel]; [simpl in Hfuel; lia|].
    destruct (Hrs 0%nat a eq_refl) as (e & He & Hne). change ((a :: rs) !! 0%nat) with (Some a).
    change ((a :: rs) !! 1%nat) with (rs !! 0%nat) in Hne. cbn [free_loop]. unfold elem. rewrite He. cbn [mbind outcome_bind].
    apply NoDup_cons in Hnd as [Ha Hnd]. rewrite Hne.
    destruct (IH fuel (set_heap pH (delete a (heap pH))) Hnd) as (hp' & E & Hl).
    + simpl in Hfuel. lia.
    + intros i b Hi. destruct (Hrs (S i) b Hi) as (eb & Heb & Hnb). exists eb. split; [|done].
      cbn [heap set_heap]. rewrite lookup_delete_ne; [done|]. intros ->. apply Ha. by eapply list_elem_of_lookup_2.
    + exists hp'. rewrite E. split; [done|]. intros x. rewrite Hl. cbn [heap set_heap].
      destruct (decide (x = a)) as [->|Hxa].
      * rewrite lookup_delete_eq, (decide_True (P := a ∈ a :: rs)) by (by left). by case_decide.
      * rewrite lookup_delete_ne by done. rewrite (decide_ext (x ∈ rs) (x ∈ a :: rs)); [done|].
        rewrite elem_of_cons. tauto.
Qed.

Lemma empty_hinv (b : positive) : hinv (mk_hash 0 0 None None ∅ b) [].
Proof.
  constructor; cbn [heap first count brk ht htsize]; try done.
  - constructor.
  - intros a. rewrite lookup_empty, elem_of_nil. split; [by intros [? ?]|done].
  - intros a Ha. by apply elem_of_nil in Ha.
Qed.

Lemma HashClear_spec pH ps :
  links (heap pH) (first pH) ps -> NoDup ps -> (forall a, is_Some (heap pH !! a) <-> a ∈ ps) ->
  sqlite3HashClear pH = Done (mk_hash 0 0 None None ∅ (brk pH)).
Proof.
  intros [Hf Hl] Hnd Hdom. unfold sqlite3HashClear.
  destruct (free_loop_spec ps (size (heap pH)) (set_ht (set_first pH None) 0 None) Hnd) as (hp' & E & Hhp).
  - apply heap_size; [done|]. intros a. apply Hdom.
  - intros i a Ha. destruct (Hl i a Ha) as (e & He & Hne & _). eauto.
  - rewrite Hf. change (size (heap (set_ht (set_first pH None) 0 None))) with (size (heap pH)). cbv zeta. rewrite E.
    assert (hp' = ∅) as ->; [|done]. apply map_empty. intros a. rewrite Hhp. case_decide as Ha; [done|].
    destruct (heap pH !! a) eqn:Ea; [|done]. exfalso. apply Ha, Hdom. eauto.
Qed.

Lemma upd_elem_alter pH a e f : heap pH !! a = Some e ->
  upd_elem pH a f = Done (set_heap pH (alter f a (heap pH))).
Proof.
  intros He. rewrite (upd_elem_Done _ _ _ e He). do 2 f_equal. apply map_eq. intros b.
  destruct (decide (b = a)) as [->|]; [by rewrite lookup_insert_eq, lookup_alter_eq, He|].
  by rewrite lookup_insert_ne, lookup_alter_ne by done.
Qed.

Lemma ents_alter f a hp : (forall e, pKey (f e) = pKey e /\ data (f e) = data e) -> ents (alter f a hp) = ents hp.
Proof.
  intros Hf. apply map_eq. intros b. unfold ents. rewrite !lookup_fmap.
  destruct (decide (b = a)) as [->|]; [|by rewrite lookup_alter_ne].
  rewrite lookup_alter_eq. destruct (hp !! a) as [e|]; [|done]. simpl. by destruct (Hf e) as [-> ->].
Qed.

(** [alter] at an optional address. *)
Definition alter_at (f : HashElem -> HashElem) (p : ptr) (hp : heapT) : heapT :=
  match p with Some a => alter f a hp | None => hp end.

Lemma lookup_alter_at f p hp b :
  alter_at f p hp !! b = if decide (p = Some b) then f <$> hp !! b else hp !! b.
Proof.
  destruct p as [a|]; cbn [alter_at]; [|done]. case_decide as E; simplify_eq; [apply lookup_alter_eq|].
  apply lookup_alter_ne. congruence.
Qed.

Lemma ents_alter_at f p hp : (forall e, pKey (f e) = pKey e /\ data (f e) = data e) -> ents (alter_at f p hp) = ents hp.
Proof. destruct p; [apply ents_alter|done]. Qed.

(** The heap and the head after the links around position [k] were closed. *)
Lemma unlink_spec pH ps k a e :
  links (heap pH) (first pH) ps -> NoDup ps -> ps !! k = Some a -> heap pH !! a = Some e ->
  let hp' := alter_at (with_prev (prev e)) (next e) (alter_at (with_next (next e)) (prev e) (heap pH)) in
  let fst' := match prev e with Some _ => first pH | None => next e end in
  (pH ← match prev e with
        | Some y => upd_elem pH y (with_next (next e))
        | None => Done (set_first pH (next e))
        end;
   match next e with
   | Some y => upd_elem pH y (with_prev (prev e))
   | None => Done pH
   end) = Done (set_first (set_heap pH hp') fst') /\
  ents hp' = ents (heap pH) /\ links (delete a hp') fst' (delete k ps).
Proof.
  intros Hlinks Hnd Hk He hp' fst'. pose proof Hlinks as [Hf Hl].
  destruct (Hl _ _ Hk) as (e0 & He0 & Hne & Hpe). simplify_eq. pose proof (lookup_lt_Some _ _ _ Hk) as Hlt.
  assert (Hnx : forall b, next e = Some b -> exists eb, heap pH !! b = Some eb).
  { intros b Hb. rewrite Hne in Hb. destruct (Hl _ _ Hb) as (eb & ? & _). eauto. }
  assert (Hpx : forall b, prev e = Some b -> exists eb, heap pH !! b = Some eb).
  { intros b Hb. rewrite Hpe in Hb. destruct k; [done|]. destruct (Hl _ _ Hb) as (eb & ? & _). eauto. }
  assert (Hne' : forall b, next e = Some b -> exists eb, alter_at (with_next (next e)) (prev e) (heap pH) !! b = Some eb).
  { intros b Hb. rewrite lookup_alter_at. destruct (Hnx b Hb) as [eb ->]. case_decide; simpl; eauto. }
  split_and!.
  - unfold hp', fst'. destruct (prev e) as [y|] eqn:Ep; cbn [alter_at] in *.
    + destruct (Hpx y eq_refl) as [ey Hey]. rewrite (upd_elem_alter _ _ ey) by done. cbn [mbind outcome_bind].
      destruct (next e) as [z|] eqn:En; cbn [alter_at]; [|done].
      destruct (Hne' z eq_refl) as [ez Hez]. by rewrite (upd_elem_alter _ _ ez).
    + cbn [mbind outcome_bind]. destruct (next e) as [z|] eqn:En; cbn [alter_at]; [|done].
      destruct (Hne' z eq_refl) as [ez Hez]. by rewrite (upd_elem_alter _ _ ez).
  - unfold hp'. by rewrite !ents_alter_at.
  - assert (fst' = if decide (k = 0%nat) then ps !! 1%nat else first pH) as ->.
    { unfold fst'. rewrite Hpe. destruct k as [|j]; cbn [prv]; [by rewrite Hne|].
      destruct (lookup_lt_is_Some_2 ps j) as [y ->]; [lia|]. done. }
    apply (links_delete (heap pH)); [done|done|]. intros i b eb Hik Hi Heb.
    assert (b <> a) by (intros ->; apply Hik; by eapply NoDup_lookup).
    rewrite lookup_delete_ne by done. unfold hp'. rewrite !lookup_alter_at, Heb.
    rewrite (decide_ext (next e = Some b) (i = S k)), (decide_ext (prev e = Some b) (S i = k)).
    + repeat case_decide; try lia; (eexists; split; [simpl; done|]; cbn [next prev with_next with_prev]; split; try done; congruence).
    + rewrite Hpe. destruct k as [|j]; cbn [prv]; [split; [done|lia]|]. split; [|by intros [= ->]].
      intros Hj. f_equal. by eapply NoDup_lookup.
    + rewrite Hne. split; [|by intros ->]. intros Hj. by eapply NoDup_lookup.
Qed.

Lemma bind_chain {A B C} (m : outcome A) (f : A -> outcome B) (K : B -> outcome C) y :
  (x ← m; f x) = Done y -> (x ← m; z ← f x; K z) = K y.
Proof. destruct m; cbn; intros E; [by rewrite E|done|done]. Qed.

Lemma delete_at_elem (ps : list positive) k a :
  NoDup ps -> ps !! k = Some a ->
  NoDup (delete k ps) /\ (forall x, x ∈ delete k ps <-> x ∈ ps /\ x <> a) /\ S (length (delete k ps)) = length ps.
Proof.
  intros Hnd Hk. pose proof (delete_Permutation ps k a Hk) as Hp. pose proof (Permutation_length Hp) as Hlen.
  assert (Hel : forall x, x ∈ ps <-> x = a \/ x ∈ delete k ps)
    by (intros x; rewrite <- elem_of_cons; by apply elem_of_Permutation_proper).
  rewrite Hp in Hnd. apply NoDup_cons in Hnd as [Hn Hnd].
  split; [done|]. split; [|by rewrite Hlen]. intros x. rewrite Hel. split; [|tauto].
  intros Hx. split; [by right|]. by intros ->.
Qed.

Lemma contents_delete en a : contents_ok en -> contents_ok (delete a en).
Proof.
  intros [H1 H2]. split.
  - intros x z d [_ Hx]%lookup_delete_Some. eauto.
  - intros x y z d z' d' [_ Hx]%lookup_delete_Some [_ Hy]%lookup_delete_Some. eauto.
Qed.

(** The bucket array after a removal. *)
Lemma bucket_remove pH ps k a e t h :
  hinv pH ps -> ps !! k = Some a -> heap pH !! a = Some e -> ht pH = Some t ->
  h = strHash (pKey e) mod htsize pH ->
  exists bk, t !! Z.to_nat h = Some bk /\
    forall t', t' = <[Z.to_nat h := mk_bucket (u32 (b_count bk - 1))
                       (if decide (chain bk = Some a) then ps !! S k else chain bk)]> t ->
    length t' = length t /\ buckets_ok (bkt (delete a (ents (heap pH))) (htsize pH)) t' (delete k ps).
Proof.
  intros Hi Hk He Et Hh. destruct (table_ok_inv _ _ _ (h_table _ _ Hi) Et) as (Hsz & Hpos & Hb).
  pose proof (h_nodup _ _ Hi) as Hnd. destruct (delete_at_elem ps k a Hnd Hk) as (_ & Hel & _).
  assert (Hh0 : 0 <= h < htsize pH) by (subst h; apply Z.mod_pos_bound; lia).
  assert (Hfa : bkt (ents (heap pH)) (htsize pH) a = h) by (by rewrite (bkt_key _ _ _ _ _ (ents_lookup _ _ _ He))).
  destruct (lookup_lt_is_Some_2 t (Z.to_nat h)) as [bk Ebk]; [lia|]. exists bk. split; [done|]. intros t' ->.
  split; [apply length_insert|]. eapply (buckets_ok_ext (bkt (ents (heap pH)) (htsize pH))).
  - intros x [_ Hxa]%Hel. unfold bkt. by rewrite lookup_delete_ne.
  - intros b bk' Hb'. destruct (decide (b = Z.to_nat h)) as [->|Hne].
    + rewrite list_lookup_insert_eq in Hb' by lia. simplify_eq. rewrite Z2Nat.id by lia.
      eapply bucket_ok_delete_same; [done|done|apply (h_len _ _ Hi)| |done].
      specialize (Hb _ _ Ebk). by rewrite Z2Nat.id in Hb by lia.
    + rewrite list_lookup_insert_ne in Hb' by done. eapply bucket_ok_delete; [done|by apply Hb|]. lia.
Qed.

Lemma remove_spec pH ps a e h :
  hinv pH ps -> heap pH !! a = Some e -> (ht pH <> None -> h = strHash (pKey e) mod htsize pH) ->
  exists pH' ps', removeElementGivenHash pH a h = Done pH' /\ hinv pH' ps' /\
    ents (heap pH') = delete a (ents (heap pH)).
Proof.
  intros Hi He Hh. assert (a ∈ ps) as [k Hk]%list_elem_of_lookup_1 by (apply (h_dom _ _ Hi); eauto).
  pose proof (h_links _ _ Hi) as Hlinks. pose proof (h_nodup _ _ Hi) as Hnd.
  destruct (unlink_spec pH ps k a e Hlinks Hnd Hk He) as (E & Hents & Hl').
  destruct (proj2 Hlinks _ _ Hk) as (e0 & He0 & Hne & _). simplify_eq.
  destruct (delete_at_elem ps k a Hnd Hk) as (Hnd' & Hel & Hlen).
  set (hp' := alter_at _ _ _) in *. set (fst' := match prev e with Some _ => first pH | None => next e end) in *.
  set (pH1 := set_first (set_heap pH hp') fst') in *.
  assert (Hed : ents (delete a hp') = delete a (ents (heap pH))) by (unfold ents at 1; rewrite fmap_delete; by f_equal).
  assert (Hdom : forall x, is_Some (delete a hp' !! x) <-> x ∈ delete k ps).
  { intros x. rewrite Hel, <- (h_dom _ _ Hi). rewrite lookup_delete_is_Some.
    assert (is_Some (hp' !! x) <-> is_Some (heap pH !! x)) as ->; [|naive_solver].
    unfold hp'. rewrite !lookup_alter_at. repeat case_decide; by rewrite ?fmap_is_Some. }
  assert (exists t', ( match ht pH1 with
       | Some _ =>
           b ← get_bucket pH1 h;
           put_bucket pH1 h (mk_bucket (u32 (b_count b - 1)) (if decide (chain b = Some a) then next e else chain b))
       | None => Done pH1
       end) = Done (set_ht pH1 (htsize pH) t') /\
      (t' = None <-> ht pH = None) /\
      forall c, table_ok (mk_hash (htsize pH) c fst' t' (delete a hp') (brk pH)) (delete k ps)) as (t' & Et' & Htn & Htab).
  { unfold table_ok. cbn [ht htsize heap]. rewrite Hed. unfold get_bucket, put_bucket. change (ht pH1) with (ht pH).
    pose proof (h_table _ _ Hi) as Htb. unfold table_ok in Htb. destruct (ht pH) as [t|] eqn:Et.
    - destruct (bucket_remove pH ps k a e t h Hi Hk He Et (Hh ltac:(done))) as (bk & -> & Hb).
      destruct (Hb _ eq_refl) as [Hlt Hb']. cbn [mbind outcome_bind]. rewrite Hne. eexists (Some _). split; [done|]. split; [done|].
      intros _. cbn beta iota. rewrite Hlt. tauto.
    - exists None. split; [|done]. unfold pH1. by destruct pH; cbn in *; subst. }
  unfold removeElementGivenHash. unfold elem at 1. rewrite He. cbn [mbind outcome_bind].
  rewrite (bind_chain _ _ _ _ E). cbv beta. rewrite Et'. cbn [mbind outcome_bind].
  set (pH2 := set_count (set_heap (set_ht pH1 (htsize pH) t') (delete a (heap (set_ht pH1 (htsize pH) t')))) _).
  assert (Hc2 : count pH2 = len (delete k ps)).
  { unfold pH2. cbn [count set_count set_heap set_ht set_first pH1]. rewrite (h_count _ _ Hi).
    pose proof (h_len _ _ Hi). rewrite u32_id by lia. lia. }
  assert (Hp2 : pH2 = mk_hash (htsize pH) (count pH2) fst' t' (delete a hp') (brk pH)) by done.
  pose proof (h_len _ _ Hi) as Hlen32. destruct (Z.eqb_spec (count pH2) 0) as [E0|E0].
  - assert (delete k ps = []) as Hnil by (apply nil_length_inv; lia). rewrite Hnil in *.
    rewrite (HashClear_spec pH2 [] Hl' Hnd' Hdom).
    exists (mk_hash 0 0 None None ∅ (brk pH2)), (@nil positive). split; [done|]. split; [exact (empty_hinv _)|].
    cbn [heap]. rewrite <- Hed. f_equal. symmetry. apply map_empty. intros x.
    destruct (delete a hp' !! x) eqn:Ex; [|done]. exfalso. apply (not_elem_of_nil x), Hdom. eauto.
  - exists pH2, (delete k ps). split; [done|]. split; [|by rewrite Hp2]. rewrite Hp2.
    constructor; cbn [heap first brk count ht htsize]; try done.
    + intros x [Hx _]%Hel. by apply (h_brk _ _ Hi).
    + lia.
    + rewrite Hed. by apply contents_delete, (h_contents _ _ Hi).
    + intros Hnil. rewrite Hnil in Hc2. by cbn in Hc2.
Qed.

(** ** Enumeration, and the number of entries *)

Lemma hash_iter_spec pH rs : forall fuel,
  (length rs <= fuel)%nat ->
  (forall i a, rs !! i = Some a -> exists e, heap pH !! a = Some e /\ next e = rs !! S i) ->
  exists l, hash_iter fuel pH (rs !! 0%nat) = Done l /\ Forall2 (fun a x => ents (heap pH) !! a = Some x) rs l.
Proof.
  induction rs as [|a rs IH]; intros fuel Hfuel Hrs.
  - exists []. by destruct fuel.
  - destruct fuel as [|fuel]; [simpl in Hfuel; lia|].
    destruct (Hrs 0%nat a eq_refl) as (e & He & Hne). change ((a :: rs) !! 0%nat) with (Some a).
    change ((a :: rs) !! 1%nat) with (rs !! 0%nat) in Hne. cbn [hash_iter]. unfold elem. rewrite He. cbn [mbind outcome_bind].
    rewrite Hne. destruct (IH fuel) as (l & -> & Hl); [simpl in Hfuel; lia|intros i b Hb; exact (Hrs (S i) b Hb)|].
    exists ((pKey e, data e) :: l). split; [done|]. constructor; [by apply ents_lookup|done].
Qed.

(** The list of an enumeration, by folded keys, is the map. *)
Lemma entries_perm pH ps M l :
  hinv pH ps -> entries pH M -> Forall2 (fun a x => ents (heap pH) !! a = Some x) ps l ->
  map (fun x => (ckey x.1, x.2)) l ≡ₚ map_to_list M.
Proof.
  intros Hi HM Hl. destruct (h_contents _ _ Hi) as [_ Hinj].
  change (map (fun x => (ckey x.1, x.2)) l) with ((fun x => (ckey x.1, x.2)) <$> l). apply NoDup_Permutation.
  - apply NoDup_alt. intros i j x Hx Hy.
    rewrite list_lookup_fmap in Hx, Hy. destruct (l !! i) as [[z d]|] eqn:Ei; [|done]. destruct (l !! j) as [[z' d']|] eqn:Ej; [|done].
    simpl in Hx, Hy. simplify_eq.
    destruct (Forall2_lookup_r _ _ _ _ _ Hl Ei) as (a & Ha & Hea). destruct (Forall2_lookup_r _ _ _ _ _ Hl Ej) as (b & Hb & Heb).
    cbn beta in Hea, Heb. assert (a = b) as -> by (eapply Hinj; eauto). eapply NoDup_lookup; [apply (h_nodup _ _ Hi)|done|done].
  - apply NoDup_map_to_list.
  - intros [k d]. rewrite elem_of_map_to_list, (HM k d), list_elem_of_fmap. split.
    + intros ([z d'] & [= -> ->] & Hin). apply list_elem_of_lookup_1 in Hin as [i Hin].
      destruct (Forall2_lookup_r _ _ _ _ _ Hl Hin) as (a & _ & Ha). eauto.
    + intros (a & z & Ha & <-). destruct (ents_inv _ _ _ _ Ha) as (e & He & _).
      assert (a ∈ ps) as [i Hia]%list_elem_of_lookup_1 by (apply (h_dom _ _ Hi); eauto).
      destruct (Forall2_lookup_l _ _ _ _ _ Hl Hia) as (x & Hx & Hax). cbn beta in Hax. rewrite Ha in Hax. simplify_eq.
      exists (z, d). split; [done|]. by eapply list_elem_of_lookup_2.
Qed.

Lemma rep_size pH ps M : hinv pH ps -> entries pH M -> length ps = size M.
Proof.
  intros Hi HM. destruct (hash_iter_spec pH ps (length ps) (Nat.le_refl _)) as (l & _ & Hl).
  - intros i a Ha. destruct (proj2 (h_links _ _ Hi) i a Ha) as (e & He & Hne & _). eauto.
  - pose proof (Permutation_length (entries_perm _ _ _ _ Hi HM Hl)) as Hp. rewrite length_map, length_map_to_list in Hp.
    rewrite <- Hp. by eapply Forall2_length.
Qed.

(** ** Insert *)

Lemma contents_insert (en : gmap positive (bytes * Z)) a z d :
  contents_ok en -> cstr z -> d <> 0 ->
  (forall b z' d', b <> a -> en !! b = Some (z', d') -> ckey z' <> ckey z) ->
  contents_ok (<[a := (z, d)]> en).
Proof.
  intros [H1 H2] Hz Hd Hnew. split.
  - intros x y e [[? ?]|[? ?]]%lookup_insert_Some; simplify_eq; eauto.
  - intros x y z1 d1 z2 d2 Hx Hy E. apply lookup_insert_Some in Hx, Hy.
    destruct Hx as [[? ?]|[? Hx]], Hy as [[? ?]|[? Hy]]; simplify_eq; eauto.
    + exfalso. eapply Hnew; [|exact Hy|]; congruence.
    + exfalso. eapply Hnew; [|exact Hx|]; congruence.
Qed.

Lemma entries_insert (en : gmap positive (bytes * Z)) (M : gmap bytes Z) a z d :
  (forall k d', M !! k = Some d' <-> exists b z', en !! b = Some (z', d') /\ ckey z' = k) ->
  (forall b z' d', b <> a -> en !! b = Some (z', d') -> ckey z' <> ckey z) ->
  (forall z' d', en !! a = Some (z', d') -> ckey z' = ckey z) ->
  forall k d', <[ckey z := d]> M !! k = Some d' <->
    exists b z', <[a := (z, d)]> en !! b = Some (z', d') /\ ckey z' = k.
Proof.
  intros HM Hother Hsame k d'. rewrite lookup_insert_Some. split.
  - intros [[<- <-]|[Hk Hin]].
    + exists a, z. by rewrite lookup_insert_eq.
    + apply HM in Hin as (b & z' & Hb & <-). exists b, z'. split; [|done].
      rewrite lookup_insert_ne; [done|]. intros ->. apply Hk. symmetry. by eapply Hsame.
  - intros (b & z' & [[<- [= -> ->]]|[Hb Hin]]%lookup_insert_Some & <-); [by left|]. right.
    split; [|apply HM; eauto]. intros E. by eapply Hother.
Qed.

Lemma grow_spec msize m pH key h ps :
  msize_ok msize -> shape pH ps -> (forall a, a ∈ ps -> is_Some (heap pH !! a)) -> len ps < 2 ^ 32 ->
  (ht pH <> None -> h = strHash key mod htsize pH) ->
  exists h' m' pH' ps', grow msize m pH key h = Done (h', m', pH') /\ relinked pH pH' ps ps' /\
    (ht pH' <> None -> h' = strHash key mod htsize pH').
Proof.
  intros Hms Hsh Hin Hlen Hh. unfold grow. destruct (_ && _).
  - destruct (table_rehash_spec msize m pH (u32 (count pH * 2)) ps Hms Hsh Hin Hlen ltac:(apply u32_range)) as
      (b & m' & pH' & ps' & -> & Hre & Hf & Ht). cbn [mbind outcome_bind].
    do 4 eexists. split; [reflexivity|]. split; [exact Hre|]. destruct b; [done|].
    destruct (Hf eq_refl) as [-> ->]. exact Hh.
  - exists h, m, pH, ps. split; [done|]. split; [|done]. split; [done|]. done.
Qed.

(** The new element: allocation, growth, linking. *)
Lemma insert_new_spec msize m pH ps key d h :
  msize_ok msize -> hinv pH ps -> cstr key -> d <> 0 -> len ps + 1 < 2 ^ 32 ->
  (ht pH <> None -> h = strHash key mod htsize pH) ->
  (forall a e, heap pH !! a = Some e -> ckey (pKey e) <> ckey key) ->
  let (pH1, a) := new_elem pH key d in
  exists m' pH' ps',
    ('(h, m, pH) ← grow msize m (set_count pH1 (u32 (count pH1 + 1))) key h;
     pH ← insertElement pH (match ht pH with Some _ => Some h | None => None end) a;
     Done (0, m, pH)) = Done (0, m', pH') /\
    hinv pH' ps' /\ ents (heap pH') = <[a := (key, d)]> (ents (heap pH)).
Proof.
  intros Hms Hi Hk Hd Hlen Hh Hnew. unfold new_elem. set (a := brk pH). cbn [count].
  set (e := mk_elem None None d key). set (pH1 := set_count _ _).
  assert (Ha : a ∉ ps) by (intros Hin%(h_brk _ _ Hi); unfold a in Hin; lia).
  assert (Hheap1 : heap pH1 = <[a := e]> (heap pH)) by done.
  assert (Hold : forall b, b ∈ ps -> heap pH1 !! b = heap pH !! b).
  { intros b Hb. rewrite Hheap1. rewrite lookup_insert_ne; [done|]. by intros ->. }
  assert (He1 : ents (heap pH1) = <[a := (key, d)]> (ents (heap pH))) by (rewrite Hheap1; unfold ents; by rewrite fmap_insert).
  assert (Hc1 : count pH1 = len ps + 1) by (cbn [count pH1 set_count]; rewrite (h_count _ _ Hi); apply u32_id; lia).
  assert (Hsh1 : shape pH1 ps).
  { constructor.
    - destruct (h_links _ _ Hi) as [Hf Hl]. split; [exact Hf|]. intros i b Hb. rewrite Hold by (by eapply list_elem_of_lookup_2). by apply Hl.
    - apply (h_nodup _ _ Hi).
    - pose proof (h_table _ _ Hi) as Ht. unfold table_ok in *. change (ht pH1) with (ht pH). change (htsize pH1) with (htsize pH).
      destruct (ht pH) as [t|]; [|done]. destruct Ht as (H1 & H2 & H3). split_and!; try done; try lia.
      eapply buckets_ok_ext; [|exact H3]. intros b Hb. unfold bkt. rewrite He1, lookup_insert_ne; [done|]. by intros ->. }
  destruct (grow_spec msize m pH1 key h ps Hms Hsh1) as (h2 & m2 & pH2 & ps2 & -> & Hre & Hh2).
  { intros b Hb. rewrite Hold by done. by apply (h_dom _ _ Hi). } { lia. } { exact Hh. }
  destruct Hre as (Hsh2 & He2 & Hc2 & Hb2 & Hlen2 & Hel2). cbn [mbind outcome_bind].
  assert (Hen : ents (heap pH2) !! a = Some (key, d)) by (rewrite He2, He1; apply lookup_insert_eq).
  destruct (ents_inv _ _ _ _ Hen) as (en & Hea & Hek & _).
  destruct (insert_shape pH2 ps2 a en h2 Hsh2) as (pH' & ps' & -> & Hins & Hsh' & _); [by rewrite Hel2|done|lia|by rewrite Hek|].
  destruct Hins as (_ & Hc & Hb & He & _ & _ & _ & Hl' & Hel). destruct Hsh' as [Hlk Hnd Htab].
  cbn [mbind outcome_bind]. exists m2, pH', ps'. split; [done|].
  assert (Hee : ents (heap pH') = <[a := (key, d)]> (ents (heap pH))) by (by rewrite He, He2, He1).
  split; [|done]. constructor; try done.
  - intros x. rewrite Hel, Hel2, <- (h_dom _ _ Hi). transitivity (is_Some (ents (heap pH') !! x)).
    + unfold ents. rewrite lookup_fmap. by rewrite fmap_is_Some.
    + rewrite Hee, lookup_insert_is_Some'. unfold ents. rewrite lookup_fmap, fmap_is_Some. naive_solver.
  - intros x Hx. rewrite Hb, Hb2. cbn [brk pH1 set_count]. apply Hel in Hx as [->|Hx]; [unfold a; lia|].
    apply Hel2, (h_brk _ _ Hi) in Hx. lia.
  - rewrite Hc, Hc2, Hc1, Hl', Hlen2. lia.
  - lia.
  - rewrite Hee. apply contents_insert; [apply (h_contents _ _ Hi)|done|done|].
    intros b z' d' _ Hb'. apply ents_inv in Hb' as (eb & Heb & <- & _). by apply (Hnew b).
  - intros ->. simpl in Hl'. lia.
Qed.

(** Replacing the data (and the key pointer) of an element. *)
Lemma replace_spec pH ps a e key d :
  hinv pH ps -> heap pH !! a = Some e -> ckey (pKey e) = ckey key -> cstr key -> d <> 0 ->
  exists pH', upd_elem pH a (with_data d key) = Done pH' /\ hinv pH' ps /\
    ents (heap pH') = <[a := (key, d)]> (ents (heap pH)).
Proof.
  intros Hi He Hek Hk Hd. rewrite (upd_elem_Done _ _ _ e) by done. eexists. split; [reflexivity|].
  set (hp' := <[a := with_data d key e]> (heap pH)).
  assert (Hee : ents hp' = <[a := (key, d)]> (ents (heap pH))) by (unfold hp', ents; by rewrite fmap_insert).
  split; [|exact Hee]. constructor; cbn [heap first brk count set_heap]; try apply Hi.
  - destruct (h_links _ _ Hi) as [Hf Hl]. split; [done|]. intros i b Hb. destruct (Hl i b Hb) as (eb & Heb & Hn & Hp).
    fold hp'. unfold hp'. destruct (decide (b = a)) as [->|Hne].
    + simplify_eq. rewrite lookup_insert_eq. by eexists.
    + rewrite lookup_insert_ne by done. eauto.
  - intros b. unfold hp'. rewrite lookup_insert_is_Some', <- (h_dom _ _ Hi). naive_solver.
  - pose proof (h_table _ _ Hi) as Ht. unfold table_ok in *. cbn [ht htsize heap set_heap] in *.
    destruct (ht pH) as [t|]; [|done]. destruct Ht as (H1 & H2 & H3). split_and!; try done; try lia.
    eapply buckets_ok_ext; [|exact H3]. intros b _. unfold bkt. fold hp'. rewrite Hee.
    destruct (decide (b = a)) as [->|Hne]; [|by rewrite lookup_insert_ne].
    rewrite lookup_insert_eq, (ents_lookup _ _ _ He). by rewrite !strHash_ckey, Hek.
  - fold hp'. rewrite Hee. apply contents_insert; [apply (h_contents _ _ Hi)|done|done|].
    intros b z' d' Hb Hin E. apply Hb. eapply (proj2 (h_contents _ _ Hi)); [exact Hin|by apply ents_lookup|congruence].
Qed.

(** Whether [pH] holds the key, as the functions see it. *)
Lemma find_map pH ps M key :
  hinv pH ps -> entries pH M -> cstr key ->
  exists r h, findElementWithHash pH key = Done (r, h) /\ (ht pH <> None -> h = strHash key mod htsize pH) /\
    match r with
    | Some a => exists e, heap pH !! a = Some e /\ ckey (pKey e) = ckey key /\ data e <> 0 /\ M !! ckey key = Some (data e)
    | None => M !! ckey key = None /\ forall a e, heap pH !! a = Some e -> ckey (pKey e) <> ckey key
    end.
Proof.
  intros Hi HM Hk. destruct (find_spec pH ps key Hi Hk) as (r & h & E & Hh & Hr). exists r, h. split_and!; try done.
  destruct r as [a|].
  - destruct Hr as (_ & e & He & Hek). exists e. split_and!; try done.
    + eapply (proj1 (h_contents _ _ Hi)). by apply ents_lookup.
    + apply HM. exists a, (pKey e). split; [by apply ents_lookup|done].
  - split; [|done]. destruct (M !! ckey key) as [d|] eqn:EM; [|done]. exfalso.
    apply HM in EM as (a & z & Ha & Hz). apply ents_inv in Ha as (e & He & <- & _). by apply (Hr a e He).
Qed.

(** What [sqlite3HashInsert] means for the map: the answer and the map after. *)
Definition insert_result (M : gmap bytes Z) (k : bytes) (d : Z) (nomem : bool) : Z * gmap bytes Z :=
  match M !! k with
  | Some old => (old, if d =? 0 then delete k M else <[k := d]> M)
  | None => if d =? 0 then (0, M) else if nomem then (d, M) else (0, <[k := d]> M)
  end.

(** C32. The hash table implements a map keyed by text up to case.  For every table that
    stands for [M] (all its elements linked in both directions, each bucket a contiguous
    run of the list, nothing else in memory), [sqlite3HashInsert] with any C string key
    and any data uses no dangling or NULL pointer and always returns; it answers the old
    data, and the table then stands for [M] with the key bound, replaced or removed;
    exactly if the first allocation of the call, that of an element for a new key, fails,
    it answers the new data and [M] is unchanged; whether later allocations, of the bucket
    array, fail makes no difference to either.  [sqlite3HashFind] answers the data [M]
    binds to the key, 0 if none. *)
Theorem HashInsert_refines_map msize m pH M key d :
  msize_ok msize -> rep pH M -> cstr key -> Z.of_nat (size M) + 1 < 2 ^ 32 ->
  sqlite3HashFind pH key = Done (default 0 (M !! ckey key)) /\
  let nomem := negb (malloc m).1 in
  exists m' pH',
    sqlite3HashInsert msize m pH key d = Done ((insert_result M (ckey key) d nomem).1, m', pH') /\
    rep pH' (insert_result M (ckey key) d nomem).2.
Proof.
  intros Hms (ps & Hi & HM) Hk Hsize. rewrite <- (rep_size pH ps M Hi HM) in Hsize.
  destruct (find_map pH ps M key Hi HM Hk) as (r & h & E & Hh & Hr). split.
  { unfold sqlite3HashFind. rewrite E. cbn [mbind outcome_bind]. destruct r as [a|].
    - destruct Hr as (e & He & _ & _ & ->). unfold elem. by rewrite He.
    - by destruct Hr as [-> _]. }
  unfold sqlite3HashInsert. rewrite E. cbn [mbind outcome_bind]. destruct r as [a|].
  - destruct Hr as (e & He & Hek & Hd0 & EM). unfold elem. rewrite He. cbn [mbind outcome_bind].
    rewrite (proj2 (Z.eqb_neq (data e) 0)) by done. cbn [negb]. exists m. unfold insert_result. rewrite EM.
    destruct (Z.eqb_spec d 0) as [->|Hd].
    + destruct (remove_spec pH ps a e h Hi He ltac:(by rewrite strHash_ckey, Hek, <- strHash_ckey)) as (pH' & ps' & -> & Hi' & Hen').
      exists pH'. cbn [mbind outcome_bind fst snd]. split_and!; try done. exists ps'. split; [done|].
      intros k x. rewrite Hen', lookup_delete_Some. rewrite (HM k x). split.
      * intros (Hne & b & z & Hb & <-). exists b, z. split; [|done]. rewrite lookup_delete_ne; [done|]. intros ->.
        rewrite (ents_lookup _ _ _ He) in Hb. simplify_eq.
      * intros (b & z & [Hb Hin]%lookup_delete_Some & <-). split; [|eauto]. intros Ek. apply Hb.
        eapply (proj2 (h_contents _ _ Hi)); [by apply ents_lookup|exact Hin|congruence].
    + destruct (replace_spec pH ps a e key d Hi He Hek Hk Hd) as (pH' & -> & Hi' & Hen').
      exists pH'. cbn [mbind outcome_bind fst snd]. split_and!; try done. exists ps. split; [done|].
      unfold entries. rewrite Hen'. apply entries_insert; [exact HM| |].
      * intros b z' d' Hb Hin Ez. apply Hb. eapply (proj2 (h_contents _ _ Hi)); [exact Hin|by apply ents_lookup|congruence].
      * intros z' d' Hin. rewrite (ents_lookup _ _ _ He) in Hin. by simplify_eq.
  - destruct Hr as [EM Hnew]. cbn [mbind outcome_bind Z.eqb negb]. unfold insert_result. rewrite EM.
    destruct (Z.eqb_spec d 0) as [->|Hd].
    { exists m, pH. split_and!; try done. by exists ps. }
    unfold sqlite3Malloc. cbn [sizeof_HashElem Z.eqb Z.leb Z.compare Pos.compare Pos.compare_cont orb].
    destruct (malloc m) as [ok m1] eqn:Em. destruct ok; cbn [negb fst].
    + pose proof (insert_new_spec msize m1 pH ps key d h Hms Hi Hk Hd Hsize Hh Hnew) as Hins.
      unfold new_elem in *. destruct Hins as (m' & pH' & ps' & -> & Hi' & Hen').
      exists m', pH'. split_and!; try done. exists ps'. split; [done|].
      unfold entries. rewrite Hen'. apply entries_insert; [exact HM| |].
      * intros b z' d' _ Hin. apply ents_inv in Hin as (eb & Heb & <- & _). by apply (Hnew b).
      * intros z' d' Hin. apply ents_inv in Hin as (eb & Heb & <- & _).
        assert (brk pH ∈ ps) as Hb%(h_brk _ _ Hi) by (apply (h_dom _ _ Hi); eauto). lia.
    + exists m1, pH. split_and!; [done|]. by exists ps.
Qed.

(** Enumerating a table from [sqliteHashFirst] by [sqliteHashNext] meets every entry
    of the map it stands for exactly once, [sqliteHashCount] of them, in a walk that
    ends; and [sqlite3HashClear] frees every element and the bucket array, leaving the
    empty table. *)
Theorem Hash_enumerates_and_clears pH M :
  rep pH M ->
  (exists l, hash_iter (size M) pH (first pH) = Done l /\
     map (fun x => (ckey x.1, x.2)) l ≡ₚ map_to_list M /\ sqliteHashCount pH = len l) /\
  (exists pH', sqlite3HashClear pH = Done pH' /\ heap pH' = ∅ /\ ht pH' = None /\ rep pH' ∅).
Proof.
  intros (ps & Hi & HM). pose proof (h_links _ _ Hi) as [Hf Hl]. split.
  - destruct (hash_iter_spec pH ps (size M)) as (l & E & Hl2); [by rewrite <- (rep_size pH ps M)| |].
    + intros i a Ha. destruct (Hl i a Ha) as (e & He & Hne & _). eauto.
    + rewrite <- Hf in E. exists l. split; [done|]. split; [by apply (entries_perm pH ps)|].
      unfold sqliteHashCount. rewrite (h_count _ _ Hi). by rewrite (Forall2_length _ _ _ Hl2).
  - rewrite (HashClear_spec pH ps); [|done|apply (h_nodup _ _ Hi)|apply (h_dom _ _ Hi)].
    eexists. split; [done|]. split_and!; try done. exists []. split; [apply empty_hinv|].
    intros k d. rewrite lookup_empty. split; [done|]. by intros (a & z & ? & _).
Qed.

Lemma rep_init a : rep (sqlite3HashInit a) ∅.
Proof.
  exists []. split; [apply empty_hinv|]. intros k d. rewrite lookup_empty. split; [done|]. by intros (b & z & ? & _).
Qed.

Lemma HashInsert_refines_map_witness :
  sqlite3HashFind (sqlite3HashInit 1) [84; 49; 0] = Done (default 0 ((∅ : gmap bytes Z) !! ckey [84; 49; 0])) /\
  (exists m' pH', sqlite3HashInsert (fun n => n) [false] (sqlite3HashInit 1) [84; 49; 0] 5 = Done (5, m', pH') /\ rep pH' ∅) /\
  exists m' pH', sqlite3HashInsert (fun n => n) [true; false] (sqlite3HashInit 1) [84; 49; 0] 5 = Done (0, m', pH') /\
    rep pH' {[ ckey [84; 49; 0] := 5 ]}.
Proof.
  assert (forall m, let nomem := negb (malloc m).1 in
    sqlite3HashFind (sqlite3HashInit 1) [84; 49; 0] = Done (default 0 ((∅ : gmap bytes Z) !! ckey [84; 49; 0])) /\
    exists m' pH', sqlite3HashInsert (fun n => n) m (sqlite3HashInit 1) [84; 49; 0] 5 =
      Done ((insert_result ∅ (ckey [84; 49; 0]) 5 nomem).1, m', pH') /\
    rep pH' (insert_result ∅ (ckey [84; 49; 0]) 5 nomem).2) as H.
  { intros m. apply (HashInsert_refines_map (fun n => n) m (sqlite3HashInit 1) ∅ [84; 49; 0] 5);
      [unfold msize_ok, SQLITE_MALLOC_SOFT_LIMIT; lia|apply rep_init|exists [84; 49], []; split; [repeat constructor; lia|done]|vm_compute; reflexivity]. }
  destruct (H [false]) as [H1 H2]. destruct (H [true; false]) as [_ H3]. split; [exact H1|]. split; [exact H2|exact H3].
Defined.

(** A table of twelve entries, past the allocation of the bucket array. *)
Example hash_example :
  let add pH i := '(_, _, pH) ← sqlite3HashInsert (fun n => n) [] pH [97 + i; 0] (i + 1); Done pH in
  (pH ← foldl (fun r i => pH ← r; add pH i) (Done (sqlite3HashInit 1)) (seqZ 0 12);
   '(_, _, pH) ← sqlite3HashInsert (fun n => n) [] pH [67; 0] 0;
   a ← sqlite3HashFind pH [68; 0]; b ← sqlite3HashFind pH [99; 0]; Done (htsize pH, sqliteHashCount pH, a, b)) =
  Done (20, 11, 4, 0).
Proof. vm_compute. reflexivity. Qed.

Lemma Hash_enumerates_and_clears_witness :
  (exists l, hash_iter 0 (sqlite3HashInit 1) None = Done l /\ map (fun x => (ckey x.1, x.2)) l ≡ₚ [] /\ 0 = len l) /\
  (exists pH', sqlite3HashClear (sqlite3HashInit 1) = Done pH' /\ heap pH' = ∅ /\ ht pH' = None /\ rep pH' ∅).
Proof. exact (Hash_enumerates_and_clears (sqlite3HashInit 1) ∅ (rep_init 1)). Defined.
