(* ===== verification/Utf.v ===== *)
(** * Utf: translation between UTF-8 and UTF-16 (utf.c, part of vdbemem.c)

    The macros [READ_UTF8], [WRITE_UTF8], [WRITE_UTF16LE], [WRITE_UTF16BE], and the
    functions that change the encoding of a [Mem].  The input of a reading macro is the
    list of the bytes up to [zTerm]; output is written to a block of the size the code
    computes, and a byte past it is undefined.  [SQLITE_REPLACE_INVALID_UTF] is not
    defined.  A machine character [c] is an unsigned 32-bit integer. *)

From S2P Require Import Prelude CType.

(** ** Characters *)

Definition sqlite3Utf8Trans1 : bytes := [
  0x00; 0x01; 0x02; 0x03; 0x04; 0x05; 0x06; 0x07;
  0x08; 0x09; 0x0a; 0x0b; 0x0c; 0x0d; 0x0e; 0x0f;
  0x10; 0x11; 0x12; 0x13; 0x14; 0x15; 0x16; 0x17;
  0x18; 0x19; 0x1a; 0x1b; 0x1c; 0x1d; 0x1e; 0x1f;
  0x00; 0x01; 0x02; 0x03; 0x04; 0x05; 0x06; 0x07;
  0x08; 0x09; 0x0a; 0x0b; 0x0c; 0x0d; 0x0e; 0x0f;
  0x00; 0x01; 0x02; 0x03; 0x04; 0x05; 0x06; 0x07;
  0x00; 0x01; 0x02; 0x03; 0x00; 0x01; 0x00; 0x00].

Definition WRITE_UTF8 (c : Z) : bytes :=
  if c <? 0x80 then [u8 (c .& 0xFF)]
  else if c <? 0x800 then [u8 (0xC0 + u8 ((c >> 6) .& 0x1F)); u8 (0x80 + u8 (c .& 0x3F))]
  else if c <? 0x10000 then
    [u8 (0xE0 + u8 ((c >> 12) .& 0x0F)); u8 (0x80 + u8 ((c >> 6) .& 0x3F)); u8 (0x80 + u8 (c .& 0x3F))]
  else
    [u8 (0xF0 + u8 ((c >> 18) .& 0x07)); u8 (0x80 + u8 ((c >> 12) .& 0x3F));
     u8 (0x80 + u8 ((c >> 6) .& 0x3F)); u8 (0x80 + u8 (c .& 0x3F))].

Definition WRITE_UTF16LE (c : Z) : bytes :=
  if c <=? 0xFFFF then [u8 (c .& 0xFF); u8 ((c >> 8) .& 0xFF)]
  else
    [u8 (((c >> 10) .& 0x3F) + ((u32 (c - 0x10000) >> 10) .& 0xC0));
     u8 (0xD8 + ((u32 (c - 0x10000) >> 18) .& 0x03));
     u8 (c .& 0xFF); u8 (0xDC + ((c >> 8) .& 0x03))].

Definition WRITE_UTF16BE (c : Z) : bytes :=
  if c <=? 0xFFFF then [u8 ((c >> 8) .& 0xFF); u8 (c .& 0xFF)]
  else
    [u8 (0xD8 + ((u32 (c - 0x10000) >> 18) .& 0x03));
     u8 (((c >> 10) .& 0x3F) + ((u32 (c - 0x10000) >> 10) .& 0xC0));
     u8 (0xDC + ((c >> 8) .& 0x03)); u8 (c .& 0xFF)].

(** A continuation byte. *)
Definition is_cont (b : Z) : bool := b .& 0xc0 =? 0x80.

(** The loop of [READ_UTF8] over the continuation bytes. *)
Fixpoint read_cont (z : bytes) (c : Z) : Z * bytes :=
  match z with
  | b :: z' => if is_cont b then read_cont z' (u32 (u32 (c << 6) + (0x3f .& b))) else (c, z)
  | [] => (c, z)
  end.

(** The test after the loop. *)
Definition fix_char (c : Z) : Z :=
  if (c <? 0x80) || (c .& 0xFFFFF800 =? 0xD800) || (c .& 0xFFFFFFFE =? 0xFFFE) then 0xFFFD else c.

Definition READ_UTF8 (z : bytes) : outcome (Z * bytes) :=
  match z with
  | [] => UB
  | c :: z =>
      if 0xc0 <=? c then
        let (c, z) := read_cont z sqlite3Utf8Trans1.[c - 0xc0] in Done (fix_char c, z)
      else Done (c, z)
  end.

(** Without [zTerm]: [z] is the memory from the pointer on; the loop that leaves it is
    undefined. *)
Definition sqlite3Utf8Read (z : bytes) : outcome (Z * bytes) :=
  match z with
  | [] => UB
  | c :: z =>
      if 0xc0 <=? c then
        let (c, z) := read_cont z sqlite3Utf8Trans1.[c - 0xc0] in
        match z with [] => UB | _ => Done (fix_char c, z) end
      else Done (c, z)
  end.

(** ** Translation loops *)

(** [while( zIn<zTerm ){ READ_UTF8(zIn, zTerm, c); WRITE(z, c); }] *)
Fixpoint from_utf8 (fuel : nat) (write : Z -> bytes) (zIn : bytes) : outcome bytes :=
  match zIn with
  | [] => Done []
  | _ =>
      match fuel with
      | O => UB
      | S fuel => '(c, zIn) ← READ_UTF8 zIn; out ← from_utf8 fuel write zIn; Done (write c ++ out)
      end
  end.

(** Two bytes of UTF-16, in either order; past the input is undefined. *)
Definition read_pair (le : bool) (z : bytes) : outcome (Z * bytes) :=
  match z with
  | b1 :: b2 :: z => Done (if le then b1 + (b2 << 8) else (b1 << 8) + b2, z)
  | _ => UB
  end.

Fixpoint from_utf16 (fuel : nat) (le : bool) (zIn : bytes) : outcome bytes :=
  match zIn with
  | [] => Done []
  | _ =>
      match fuel with
      | O => UB
      | S fuel =>
          '(c, zIn) ← read_pair le zIn;
          '(c, zIn) ← (if (0xd800 <=? c) && (c <? 0xe000) then
              match zIn with
              | [] => Done (c, zIn)
              | _ =>
                  '(c2, zIn) ← read_pair le zIn;
                  Done ((c2 .& 0x03FF) + ((c .& 0x003F) << 10) + (((c .& 0x03C0) + 0x0040) << 10), zIn)
              end
            else Done (c, zIn));
          out ← from_utf16 fuel le zIn;
          Done (WRITE_UTF8 c ++ out)
      end
  end.

(** The in-place byte swap, over an even number of bytes. *)
Fixpoint swap_bytes (z : bytes) : bytes :=
  match z with b1 :: b2 :: z => b2 :: b1 :: swap_bytes z | _ => z end.

(** ** Mem *)

Definition SQLITE_UTF8 : Z := 1.
Definition SQLITE_UTF16LE : Z := 2.
Definition SQLITE_UTF16BE : Z := 3.
Definition SQLITE_UTF16NATIVE : Z := SQLITE_UTF16LE.
Definition MEM_Str : Z := 0x0002.
Definition MEM_Blob : Z := 0x0010.
Definition MEM_AffMask : Z := 0x003f.
Definition MEM_Term : Z := 0x0200.
Definition MEM_Dyn : Z := 0x0400.
Definition MEM_Static : Z := 0x0800.
Definition MEM_Ephem : Z := 0x1000.
Definition MEM_Subtype : Z := 0x8000.
Definition SQLITE_OK : Z := 0.
Definition SQLITE_NOMEM : Z := 7.

(** [z] is the initialised memory from [pMem->z] on; [own] is
    [szMalloc>0 && z==zMalloc]. *)
Record Mem := mk_mem { flags : Z; enc : Z; n : Z; z : bytes; own : bool }.

Definition has (f mask : Z) : bool := negb (f .& mask =? 0).

(** [sqlite3VdbeMemGrow(pMem, n+3, 1)] for a string whose memory is not its own, and the
    terminator; a failed allocation leaves a NULL value. *)
Definition vdbeMemAddTerminator (oom : bool) (m : Mem) : Z * Mem :=
  if oom then (SQLITE_NOMEM, mk_mem 1 (enc m) (n m) [] false)
  else (SQLITE_OK,
        mk_mem ((flags m .& Z.lnot (MEM_Dyn .| MEM_Ephem .| MEM_Static)) .| MEM_Term) (enc m) (n m)
               (take (Z.to_nat (n m)) (z m) ++ [0; 0; 0]) true).

Definition clear_flag (f : Z) (m : Mem) : Mem := mk_mem (flags m .& Z.lnot f) (enc m) (n m) (z m) (own m).

Definition sqlite3VdbeMemMakeWriteable (oom : bool) (m : Mem) : Z * Mem :=
  let '(rc, m) := if has (flags m) (MEM_Str .| MEM_Blob) && negb (own m) then vdbeMemAddTerminator oom m
                  else (SQLITE_OK, m) in
  if rc =? SQLITE_OK then (SQLITE_OK, clear_flag MEM_Ephem m) else (rc, m).

(** The swap of [sqlite3VdbeMemTranslate] between the two UTF-16 encodings. *)
Definition translate_swap (oom : bool) (m : Mem) (desiredEnc : Z) : Z * Mem :=
  let (rc, m) := sqlite3VdbeMemMakeWriteable oom m in
  if negb (rc =? SQLITE_OK) then (SQLITE_NOMEM, m)
  else
    let k := Z.to_nat (n m .& Z.lnot 1) in
    (SQLITE_OK, mk_mem (flags m) desiredEnc (n m) (swap_bytes (take k (z m)) ++ drop k (z m)) (own m)).

(** [oom]: the allocation of the output fails. *)
Definition sqlite3VdbeMemTranslate (oom : bool) (m : Mem) (desiredEnc : Z) : outcome (Z * Mem) :=
  if negb (enc m =? SQLITE_UTF8) && negb (desiredEnc =? SQLITE_UTF8) then
    Done (translate_swap oom m desiredEnc)
  else
    let n' := if desiredEnc =? SQLITE_UTF8 then n m .& Z.lnot 1 else n m in
    let len := if desiredEnc =? SQLITE_UTF8 then 2 * n' + 1 else 2 * n' + 2 in
    let m := mk_mem (flags m) (enc m) n' (z m) (own m) in
    if oom then Done (SQLITE_NOMEM, m)
    else
      let zIn := take (Z.to_nat n') (z m) in
      out ← (if enc m =? SQLITE_UTF8 then
               from_utf8 (length zIn) (if desiredEnc =? SQLITE_UTF16LE then WRITE_UTF16LE else WRITE_UTF16BE) zIn
             else from_utf16 (length zIn) (enc m =? SQLITE_UTF16LE) zIn);
      let zOut := out ++ (if enc m =? SQLITE_UTF8 then [0; 0] else [0]) in
      if len <? Z.of_nat (length zOut) then UB
      else Done (SQLITE_OK,
             mk_mem (MEM_Str .| MEM_Term .| (flags m .& (MEM_AffMask .| MEM_Subtype))) desiredEnc
                    (i32 (Z.of_nat (length out))) zOut true).

Definition sqlite3VdbeChangeEncoding (oom : bool) (m : Mem) (desiredEnc : Z) : outcome (Z * Mem) :=
  if negb (has (flags m) MEM_Str) || (enc m =? desiredEnc) then Done (SQLITE_OK, m)
  else sqlite3VdbeMemTranslate oom m desiredEnc.

Definition sqlite3VdbeMemHandleBom (oom : bool) (m : Mem) : Z * Mem :=
  let bom := if 1 <? n m then
               if ((z m).[0] =? 0xFF) && ((z m).[1] =? 0xFE) then SQLITE_UTF16LE
               else if ((z m).[0] =? 0xFE) && ((z m).[1] =? 0xFF) then SQLITE_UTF16BE else 0
             else 0 in
  if bom =? 0 then (SQLITE_OK, m)
  else
    let (rc, m) := sqlite3VdbeMemMakeWriteable oom m in
    if rc =? SQLITE_OK then
      let n' := n m - 2 in
      (SQLITE_OK,
       mk_mem (flags m .| MEM_Term) bom n'
         (take (Z.to_nat n') (drop 2 (z m)) ++ [0; 0] ++ drop (Z.to_nat n' + 2) (z m)) (own m))
    else (rc, m).

(** ** Lengths *)

(** [SQLITE_SKIP_UTF8]: memory read past its end is undefined. *)
Fixpoint skip_cont (z : bytes) : outcome bytes :=
  match z with
  | [] => UB
  | b :: z' => if is_cont b then skip_cont z' else Done z
  end.
Definition SQLITE_SKIP_UTF8 (z : bytes) : outcome bytes :=
  match z with [] => UB | b :: z => if 0xc0 <=? b then skip_cont z else Done z end.

(** [nByte] counts down to [zTerm]; a negative one has no [zTerm]. *)
Fixpoint charlen_loop (fuel : nat) (z : bytes) (term : option Z) (r : Z) : outcome Z :=
  match fuel with
  | O => UB
  | S fuel =>
      match z with
      | [] => UB
      | b :: _ =>
          if b =? 0 then Done r
          else if match term with Some t => t <=? 0 | None => false end then Done r
          else z' ← SQLITE_SKIP_UTF8 z;
               charlen_loop fuel z' (match term with Some t => Some (t - (len z - len z')) | None => None end) (r + 1)
      end
  end.

Definition sqlite3Utf8CharLen (zIn : bytes) (nByte : Z) : outcome Z :=
  charlen_loop (S (length zIn)) zIn (if 0 <=? nByte then Some nByte else None) 0.

(** [z] starts at the high byte of the first pair (the native order is little-endian);
    the bytes read so far. *)
Fixpoint bytelen_loop (k : nat) (z : bytes) (used : Z) : outcome Z :=
  match k with
  | O => Done used
  | S k =>
      match z with
      | c :: z1 =>
          let z2 := drop 1 z1 in
          if (0xd8 <=? c) && (c <? 0xdc) then
            match z2 with
            | [] => UB
            | d :: _ => if (0xdc <=? d) && (d <? 0xe0) then bytelen_loop k (drop 2 z2) (used + 4)
                        else bytelen_loop k z2 (used + 2)
            end
          else bytelen_loop k z2 (used + 2)
      | [] => UB
      end
  end.

Definition sqlite3Utf16ByteLen (zIn : bytes) (nChar : Z) : outcome Z :=
  bytelen_loop (Z.to_nat nChar) (drop 1 zIn) 0.

(** ** Masks as arithmetic *)

(** A mask of [m] ones at bit [k]. *)
Lemma land_low x m : 0 <= m -> x .& (2 ^ m - 1) = x mod 2 ^ m.
Proof. apply land_ones_mod. Qed.

(** Each mask of the file. *)
Lemma mask_3f x : x .& 0x3f = x mod 64.
Proof. exact (land_low x 6 ltac:(lia)). Qed.
Lemma mask_ff x : x .& 0xff = x mod 256.
Proof. exact (land_low x 8 ltac:(lia)). Qed.
Lemma mask_1f x : x .& 0x1f = x mod 32.
Proof. exact (land_low x 5 ltac:(lia)). Qed.
Lemma mask_0f x : x .& 0x0f = x mod 16.
Proof. exact (land_low x 4 ltac:(lia)). Qed.
Lemma mask_07 x : x .& 0x07 = x mod 8.
Proof. exact (land_low x 3 ltac:(lia)). Qed.
Lemma mask_03 x : x .& 0x03 = x mod 4.
Proof. exact (land_low x 2 ltac:(lia)). Qed.
Lemma mask_3ff x : x .& 0x3ff = x mod 1024.
Proof. exact (land_low x 10 ltac:(lia)). Qed.
Lemma mask_c0 x : x .& 0xc0 = (x / 64 mod 4) * 64.
Proof. exact (land_field x 6 2 ltac:(lia) ltac:(lia)). Qed.
Lemma mask_3c0 x : x .& 0x3c0 = (x / 64 mod 16) * 64.
Proof. exact (land_field x 6 4 ltac:(lia) ltac:(lia)). Qed.
Lemma mask_surrogate x : x .& 0xFFFFF800 = (x / 2048 mod 2097152) * 2048.
Proof. exact (land_field x 11 21 ltac:(lia) ltac:(lia)). Qed.
Lemma mask_nonchar x : x .& 0xFFFFFFFE = (x / 2 mod 2147483648) * 2.
Proof. exact (land_field x 1 31 ltac:(lia) ltac:(lia)). Qed.

Lemma shr_div x k : 0 <= k -> x >> k = x / 2 ^ k.
Proof. apply Z.shiftr_div_pow2. Qed.
Lemma shl_mul x k : 0 <= k -> x << k = x * 2 ^ k.
Proof. apply Z.shiftl_mul_pow2. Qed.

(** Everything to division and remainder, for [lia]. *)
Ltac arith :=
  unfold u8, u32 in *;
  rewrite ?mask_3f, ?mask_ff, ?mask_1f, ?mask_0f, ?mask_07, ?mask_03, ?mask_3ff, ?mask_c0, ?mask_3c0,
    ?mask_surrogate, ?mask_nonchar in *;
  rewrite ?shr_div, ?shl_mul in * by lia;
  repeat match goal with
  | |- context [2 ^ ?k] => is_zlit k; let r := eval vm_compute in (2 ^ k) in change (2 ^ k) with r
  end;
  Z.to_euclidean_division_equations; lia.

(** ** READ_UTF8 after WRITE_UTF8 *)

(** The character the reading macro makes of a written one: the surrogates and the two
    non-characters of the first plane are replaced. *)
Definition readable (c : Z) : Z :=
  if (0xD800 <=? c) && (c <=? 0xDFFF) || (c =? 0xFFFE) || (c =? 0xFFFF) then 0xFFFD else c.

Lemma fix_char_readable c : 0x80 <= c < 2 ^ 32 -> fix_char c = readable c.
Proof.
  intros Hc. unfold fix_char, readable. rewrite mask_surrogate, mask_nonchar.
  rewrite (proj2 (Z.ltb_ge c 0x80)) by lia. cbn [orb]. f_equal.
  assert (E1 : (c / 2048 mod 2097152 * 2048 =? 0xD800) = (0xD800 <=? c) && (c <=? 0xDFFF)).
  { apply eq_true_iff_eq. rewrite andb_true_iff, Z.eqb_eq, !Z.leb_le. arith. }
  assert (E2 : (c / 2 mod 2147483648 * 2 =? 0xFFFE) = (c =? 0xFFFE) || (c =? 0xFFFF)).
  { apply eq_true_iff_eq. rewrite orb_true_iff, !Z.eqb_eq. arith. }
  by rewrite E1, E2, orb_assoc.
Qed.

Lemma cont_byte x : 0 <= x < 64 -> is_cont (u8 (0x80 + u8 x)) = true /\ 0x3f .& u8 (0x80 + u8 x) = x.
Proof.
  intros Hx. pose proof (byte_cases (fun x => (64 <=? x) ||
    (is_cont (u8 (0x80 + u8 x)) && (0x3f .& u8 (0x80 + u8 x) =? x))) eq_refl x) as H.
  specialize (H ltac:(unfold is_byte; lia)). cbv beta in H. rewrite (proj2 (Z.leb_gt 64 x)) in H by lia.
  apply andb_prop in H as [? ?%Z.eqb_eq]. done.
Qed.

Lemma read_cont_step b x z c : b = u8 (0x80 + u8 x) -> 0 <= x < 64 -> 0 <= c < 2 ^ 26 ->
  read_cont (b :: z) c = read_cont z (c * 64 + x).
Proof.
  intros -> Hx Hc. destruct (cont_byte x Hx) as [E1 E2]. cbn [read_cont]. rewrite E1, E2, shl_mul by lia.
  rewrite !u32_id; rewrite ?u32_id; try lia. done.
Qed.

(** The rest of the input does not start with a continuation byte. *)
Definition starts_char (z : bytes) : Prop := match z with [] => True | b :: _ => is_cont b = false end.

Lemma read_cont_stop z c : starts_char z -> read_cont z c = (c, z).
Proof. destruct z as [|b z]; [done|]. cbn. by intros ->. Qed.

(** The first byte of the three long forms. *)
Lemma lead_byte base k x : (base, k) ∈ [(0xC0, 32); (0xE0, 16); (0xF0, 8)] -> 0 <= x < k ->
  0xc0 <= u8 (base + u8 x) < 256 /\ sqlite3Utf8Trans1.[u8 (base + u8 x) - 0xc0] = x.
Proof.
  intros Hb Hx. assert (H : forallb (fun x => implb (x <? k) ((0xc0 <=? u8 (base + u8 x)) && (u8 (base + u8 x) <? 256) &&
    (sqlite3Utf8Trans1.[u8 (base + u8 x) - 0xc0] =? x))) (seqZ 0 256) = true).
  { apply list_elem_of_In in Hb. cbn [In] in Hb. destruct Hb as [[= <- <-]|[[= <- <-]|[[= <- <-]|[]]]]; vm_compute; reflexivity. }
  assert (Hx256 : is_byte x).
  { apply list_elem_of_In in Hb. cbn [In] in Hb. unfold is_byte. destruct Hb as [[= <- <-]|[[= <- <-]|[[= <- <-]|[]]]]; lia. }
  apply (byte_cases _ H) in Hx256. cbv beta in Hx256. rewrite (proj2 (Z.ltb_lt x k)) in Hx256 by lia. cbn [implb] in Hx256.
  apply andb_prop in Hx256 as [[H1%Z.leb_le H2%Z.ltb_lt]%andb_prop H3%Z.eqb_eq]. done.
Qed.

Lemma lead_ge base k x : (base, k) ∈ [(0xC0, 32); (0xE0, 16); (0xF0, 8)] -> 0 <= x < k ->
  (0xc0 <=? u8 (base + u8 x)) = true.
Proof. intros Hb Hx. apply Z.leb_le. by apply (lead_byte base k x). Qed.

Lemma write_utf8_starts c z : 0 <= c < 0x110000 -> starts_char (WRITE_UTF8 c ++ z).
Proof.
  intros Hc. unfold WRITE_UTF8.
  destruct (Z.ltb_spec c 0x80); [|destruct (Z.ltb_spec c 0x800); [|destruct (Z.ltb_spec c 0x10000)]];
    cbn [app starts_char]; unfold is_cont; rewrite mask_c0; apply Z.eqb_neq; arith.
Qed.

Lemma read_write_utf8 c z : 0 <= c < 0x110000 -> starts_char z ->
  READ_UTF8 (WRITE_UTF8 c ++ z) = Done (readable c, z).
Proof.
  intros Hc Hz. unfold WRITE_UTF8.
  destruct (Z.ltb_spec c 0x80); [|destruct (Z.ltb_spec c 0x800); [|destruct (Z.ltb_spec c 0x10000)]]; cbn [app READ_UTF8].
  - rewrite mask_ff. unfold u8. rewrite Z.mod_mod, Z.mod_small by lia. rewrite (proj2 (Z.leb_gt _ _)) by lia.
    unfold readable. do 2 f_equal. destruct (_ || _) eqn:E; [|done]. lia.
  - destruct (lead_byte 0xC0 32 (c / 64)) as [Hb E]; [by left|arith|].
    replace ((c >> 6) .& 0x1F) with (c / 64) by arith. rewrite E, (proj2 (Z.leb_le 0xc0 _)) by lia.
    rewrite (read_cont_step _ (c mod 64)) by (try apply (f_equal (fun x => u8 (128 + u8 x))), mask_3f; arith).
    rewrite read_cont_stop by done. cbv iota. replace (c / 64 * 64 + c mod 64) with c by arith.
    by rewrite fix_char_readable by lia.
  - destruct (lead_byte 0xE0 16 (c / 4096)) as [Hb E]; [by right; left|arith|].
    replace ((c >> 12) .& 0x0F) with (c / 4096) by arith. rewrite E, (proj2 (Z.leb_le 0xc0 _)) by lia.
    replace ((c >> 6) .& 0x3F) with (c / 64 mod 64) by arith. rewrite mask_3f.
    do 2 (rewrite (read_cont_step _ _ _ _ eq_refl) by arith). rewrite read_cont_stop by done. cbv iota.
    replace ((c / 4096 * 64 + c / 64 mod 64) * 64 + c mod 64) with c by arith.
    by rewrite fix_char_readable by lia.
  - destruct (lead_byte 0xF0 8 (c / 262144)) as [Hb E]; [by right; right; left|arith|].
    replace ((c >> 18) .& 0x07) with (c / 262144) by arith. rewrite E, (proj2 (Z.leb_le 0xc0 _)) by lia.
    replace ((c >> 12) .& 0x3F) with (c / 4096 mod 64) by arith.
    replace ((c >> 6) .& 0x3F) with (c / 64 mod 64) by arith. rewrite mask_3f.
    do 3 (rewrite (read_cont_step _ _ _ _ eq_refl) by arith). rewrite read_cont_stop by done. cbv iota.
    replace (((c / 262144 * 64 + c / 4096 mod 64) * 64 + c / 64 mod 64) * 64 + c mod 64) with c by arith.
    by rewrite fix_char_readable by lia.
Qed.

(** ** The translation of a text *)

(** A text: characters that survive UTF-8. *)
Definition is_text (cs : list Z) : Prop := Forall (fun c => 0 <= c < 0x110000 /\ readable c = c) cs.

Definition writer (e : Z) : Z -> bytes :=
  if e =? SQLITE_UTF8 then WRITE_UTF8 else if e =? SQLITE_UTF16LE then WRITE_UTF16LE else WRITE_UTF16BE.

(** The text in an encoding. *)
Definition encode (e : Z) (cs : list Z) : bytes := concat (map (writer e) cs).

Lemma encode_cons e c cs : encode e (c :: cs) = writer e c ++ encode e cs.
Proof. done. Qed.

Lemma text_starts cs : is_text cs -> starts_char (encode SQLITE_UTF8 cs).
Proof.
  intros Ht. destruct Ht as [|c cs [Hc _] _]; [done|]. rewrite encode_cons. by apply write_utf8_starts.
Qed.

Lemma write_utf8_length c : (1 <= length (WRITE_UTF8 c) <= 4)%nat.
Proof. unfold WRITE_UTF8. repeat (destruct (_ <? _)); simpl; lia. Qed.

Lemma from_utf8_text w cs : is_text cs -> forall fuel, (length (encode SQLITE_UTF8 cs) <= fuel)%nat ->
  from_utf8 fuel w (encode SQLITE_UTF8 cs) = Done (concat (map w cs)).
Proof.
  induction 1 as [|c cs [Hc Hr] Ht IH]; intros fuel Hf; [by destruct fuel|].
  rewrite encode_cons in *. change (writer SQLITE_UTF8 c) with (WRITE_UTF8 c) in *.
  pose proof (write_utf8_length c). rewrite length_app in Hf. destruct fuel as [|fuel]; [lia|].
  assert (E : READ_UTF8 (WRITE_UTF8 c ++ encode SQLITE_UTF8 cs) = Done (readable c, encode SQLITE_UTF8 cs))
    by (apply read_write_utf8; [done|by apply text_starts]).
  cbn [from_utf8]. destruct (WRITE_UTF8 c ++ encode SQLITE_UTF8 cs) as [|b l] eqn:El.
  { apply app_nil in El as [El _]. rewrite El in *. simpl in *. lia. }
  rewrite E. cbn [mbind outcome_bind]. rewrite IH by lia. by rewrite Hr.
Qed.

(** The writer of one UTF-16 encoding. *)
Definition write16 (le : bool) : Z -> bytes := if le then WRITE_UTF16LE else WRITE_UTF16BE.

(** A character written in UTF-16: one pair below 0x10000, else the surrogate pair. *)
Lemma write16_pairs le c : 0 <= c < 0x110000 ->
  exists b1 b2,
    (c < 0x10000 /\ write16 le c = [b1; b2] /\ read_pair le [b1; b2] = Done (c, [])) \/
    (0x10000 <= c /\ exists b3 b4, write16 le c = [b1; b2; b3; b4] /\
       read_pair le [b1; b2] = Done (0xD800 + (c - 0x10000) / 1024, []) /\
       read_pair le [b3; b4] = Done (0xDC00 + (c - 0x10000) mod 1024, [])).
Proof.
  intros Hc. destruct le; cbn [write16]; unfold WRITE_UTF16LE, WRITE_UTF16BE; destruct (Z.leb_spec c 0xFFFF).
  - do 2 eexists. left. split_and!; [lia|done|]. cbn [read_pair]. do 2 f_equal. arith.
  - do 2 eexists. right. split; [lia|]. do 2 eexists. split; [done|]. cbn [read_pair]. split; do 2 f_equal; arith.
  - do 2 eexists. left. split_and!; [lia|done|]. cbn [read_pair]. do 2 f_equal. arith.
  - do 2 eexists. right. split; [lia|]. do 2 eexists. split; [done|]. cbn [read_pair]. split; do 2 f_equal; arith.
Qed.

Lemma read_pair_app le a b p z : read_pair le [a; b] = Done (p, []) -> read_pair le (a :: b :: z) = Done (p, z).
Proof. cbn [read_pair]. intros [= <-]. done. Qed.

(** The three terms of the source for a surrogate pair. *)
Lemma surrogate_value v : 0 <= v < 0x100000 ->
  let c := 0xD800 + v / 1024 in let c2 := 0xDC00 + v mod 1024 in
  (c2 .& 0x03FF) + ((c .& 0x003F) << 10) + (((c .& 0x03C0) + 0x0040) << 10) = v + 0x10000.
Proof. intros Hv. cbv zeta. change 0x003F with 0x3f. change 0x03FF with 0x3ff. change 0x03C0 with 0x3c0. arith. Qed.

Lemma from_utf16_text le cs : is_text cs -> forall fuel, (length (concat (map (write16 le) cs)) <= fuel)%nat ->
  from_utf16 fuel le (concat (map (write16 le) cs)) = Done (encode SQLITE_UTF8 cs).
Proof.
  induction 1 as [|c cs [Hc Hr] Ht IH]; intros fuel Hf; [by destruct fuel|].
  cbn [map concat] in *. rewrite encode_cons. change (writer SQLITE_UTF8 c) with (WRITE_UTF8 c).
  destruct (write16_pairs le c Hc) as (b1 & b2 & [(Hlo & E & Hp)|(Hhi & b3 & b4 & E & Hp1 & Hp2)]); rewrite E in *;
    cbn [app length] in *; (destruct fuel as [|fuel]; [lia|]); cbn [from_utf16].
  - rewrite (read_pair_app _ _ _ _ _ Hp). cbn [mbind outcome_bind].
    assert ((0xd800 <=? c) && (c <? 0xe000) = false) as ->.
    { unfold readable in Hr. destruct (Z.leb_spec 0xd800 c), (Z.ltb_spec c 0xe000); try done. exfalso.
      rewrite (proj2 (Z.leb_le c 0xDFFF)) in Hr by lia. cbn in Hr. lia. }
    cbn [mbind outcome_bind]. rewrite IH by lia. done.
  - rewrite (read_pair_app _ _ _ _ _ Hp1). cbn [mbind outcome_bind].
    set (v := c - 0x10000) in *. assert (0 <= v < 0x100000) by (unfold v; lia).
    rewrite (proj2 (Z.leb_le 0xd800 _)), (proj2 (Z.ltb_lt _ 0xe000)) by arith. cbn [andb].
    rewrite (read_pair_app _ _ _ _ _ Hp2). cbn [mbind outcome_bind].
    pose proof (surrogate_value v ltac:(done)) as Hv. cbv zeta in Hv. rewrite Hv.
    rewrite IH by lia. cbn [mbind outcome_bind]. by replace (v + 0x10000) with c by (unfold v; lia).
Qed.

Lemma swap_text le cs : swap_bytes (concat (map (write16 le) cs)) = concat (map (write16 (negb le)) cs).
Proof.
  induction cs as [|c cs IH]; [done|]. cbn [map concat].
  assert (exists a b, (write16 le c = [a; b] /\ write16 (negb le) c = [b; a]) \/
     exists a' b', write16 le c = [a; b; a'; b'] /\ write16 (negb le) c = [b; a; b'; a']) as (a & b & H).
  { destruct le; cbn [write16 negb]; unfold WRITE_UTF16LE, WRITE_UTF16BE; destruct (c <=? 0xFFFF); eauto 10. }
  destruct H as [[-> ->]|(a' & b' & -> & ->)]; cbn [app swap_bytes]; by rewrite IH.
Qed.

Lemma write16_length le c : length (write16 le c) = (if c <=? 0xFFFF then 2%nat else 4%nat).
Proof. destruct le; cbn [write16]; unfold WRITE_UTF16LE, WRITE_UTF16BE; by destruct (c <=? 0xFFFF). Qed.

(** Sizes of one text in the three encodings. *)
Lemma encode_lengths le cs :
  (length (concat (map (write16 le) cs)) <= 2 * length (encode SQLITE_UTF8 cs))%nat /\
  (length (encode SQLITE_UTF8 cs) <= 2 * length (concat (map (write16 le) cs)))%nat /\
  Nat.Even (length (concat (map (write16 le) cs))).
Proof.
  induction cs as [|c cs (IH1 & IH2 & k & IH3)]; [split_and!; [done|done|by exists 0%nat]|].
  rewrite encode_cons. cbn [map concat]. rewrite !length_app, write16_length.
  change (writer SQLITE_UTF8 c) with (WRITE_UTF8 c). pose proof (write_utf8_length c).
  assert ((if (c <=? 0xFFFF)%Z then 2 else 4) <= 2 * length (WRITE_UTF8 c))%nat.
  { destruct (Z.leb_spec c 0xFFFF); [lia|]. unfold WRITE_UTF8.
    repeat (rewrite (proj2 (Z.ltb_ge c _)) by lia). simpl. lia. }
  assert (length (WRITE_UTF8 c) <= 2 * (if (c <=? 0xFFFF)%Z then 2 else 4))%nat by (destruct (c <=? 0xFFFF); lia).
  split_and!; [lia|lia|]. destruct (c <=? 0xFFFF); [exists (S k)|exists (S (S k))]; lia.
Qed.

(** ** Arbitrary bytes *)

Lemma read_cont_total z : bytes_ok z -> forall c, 0 <= c < 2 ^ 32 ->
  exists c' z', read_cont z c = (c', z') /\ 0 <= c' < 2 ^ 32 /\ bytes_ok z' /\ (length z' <= length z)%nat /\
    (length z' = length z -> c' = c).
Proof.
  induction 1 as [|b z Hb Hz IH]; intros c Hc; [by exists c, []|].
  cbn [read_cont]. destruct (is_cont b); [|exists c, (b :: z); split_and!; try done; try lia; by constructor].
  destruct (IH (u32 (u32 (c << 6) + (0x3f .& b)))) as (c' & z' & E & Hc' & Hz' & Hl & _); [apply u32_range|].
  exists c', z'. split_and!; try done; simpl; lia.
Qed.

Lemma trans1_range i : 0 <= sqlite3Utf8Trans1.[i] < 32.
Proof.
  unfold ld. assert (H : Forall (fun x => 0 <= x < 32) sqlite3Utf8Trans1) by (repeat constructor; lia).
  rewrite Forall_forall in H. destruct (nth_in_or_default (Z.to_nat i) sqlite3Utf8Trans1 0) as [Hin| ->]; [|lia].
  by apply H, list_elem_of_In.
Qed.

Lemma fix_char_range c : 0 <= c < 2 ^ 32 -> 0 <= fix_char c < 2 ^ 32.
Proof. unfold fix_char. destruct (_ || _); lia. Qed.

(** A long output character costs at least two input bytes. *)
Lemma READ_UTF8_total z : bytes_ok z -> z <> [] ->
  exists c z', READ_UTF8 z = Done (c, z') /\ 0 <= c < 2 ^ 32 /\ bytes_ok z' /\ (length z' < length z)%nat /\
    (0xFFFF < c -> (length z' + 2 <= length z)%nat).
Proof.
  intros Hz Hne. destruct Hz as [|b z Hb Hz]; [done|]. cbn [READ_UTF8].
  destruct (Z.leb_spec 0xc0 b).
  - pose proof (trans1_range (b - 0xc0)).
    destruct (read_cont_total z Hz sqlite3Utf8Trans1.[b - 0xc0] ltac:(lia)) as (c & z' & -> & Hc & Hz' & Hl & Heq).
    exists (fix_char c), z'. split_and!; try done; [by apply fix_char_range|by apply fix_char_range|simpl; lia|].
    intros Hbig. simpl. destruct (decide (length z' = length z)) as [E|]; [|lia]. exfalso.
    specialize (Heq E). subst c. unfold fix_char in Hbig. destruct (_ || _); lia.
  - unfold is_byte in Hb. exists b, z. split_and!; try done; try lia; simpl; lia.
Qed.

Lemma writer_bytes e c : bytes_ok (writer e c).
Proof.
  unfold writer, WRITE_UTF8, WRITE_UTF16LE, WRITE_UTF16BE.
  repeat match goal with |- context [if ?b then _ else _] => destruct b end; repeat constructor; apply u8_range.
Qed.

Lemma write16_writer le : write16 le = writer (if le then SQLITE_UTF16LE else SQLITE_UTF16BE).
Proof. by destruct le. Qed.

Lemma write16_bytes le c : bytes_ok (write16 le c).
Proof. rewrite write16_writer. apply writer_bytes. Qed.

Lemma from_utf8_total le fuel : forall z, bytes_ok z -> (length z <= fuel)%nat ->
  exists out, from_utf8 fuel (write16 le) z = Done out /\ bytes_ok out /\ (length out <= 2 * length z)%nat.
Proof.
  induction fuel as [|fuel IH]; intros z Hz Hf.
  - destruct z; [|simpl in Hf; lia]. by exists [].
  - destruct z as [|b z0] eqn:Ez; [by exists []|]. rewrite <- Ez in *.
    destruct (READ_UTF8_total z Hz) as (c & z' & E & Hc & Hz' & Hl & Hbig); [by rewrite Ez|].
    destruct (IH z' Hz' ltac:(lia)) as (out & Eo & Hob & Hol).
    exists (write16 le c ++ out). rewrite Ez. cbn [from_utf8]. rewrite <- Ez, E. cbn [mbind outcome_bind]. rewrite Eo.
    split; [done|]. split; [by apply Forall_app; split; [apply write16_bytes|]|].
    rewrite length_app, write16_length. destruct (Z.leb_spec c 0xFFFF); [lia|]. specialize (Hbig ltac:(lia)). lia.
Qed.

Lemma from_utf16_total le fuel : forall z, bytes_ok z -> Nat.Even (length z) -> (length z <= fuel)%nat ->
  exists out, from_utf16 fuel le z = Done out /\ bytes_ok out /\ (length out <= 2 * length z)%nat.
Proof.
  induction fuel as [fuel IH] using lt_wf_ind. intros z Hz [k Hk] Hf.
  destruct z as [|a [|b z]]; [exists []; by destruct fuel|simpl in Hk; lia|].
  destruct fuel as [|fuel]; [simpl in Hf; lia|]. apply Forall_cons in Hz as [Ha Hz]. apply Forall_cons in Hz as [Hb Hz].
  cbn [from_utf16 read_pair mbind outcome_bind]. set (c := if le then _ else _).
  assert (Hgo : forall z' x, bytes_ok z' -> Nat.Even (length z') -> (length z' <= fuel)%nat -> (length z' <= length z)%nat ->
    exists out, (out ← from_utf16 fuel le z'; Done (WRITE_UTF8 x ++ out)) = Done out /\ bytes_ok out /\
      (length out <= 2 * length (a :: b :: z))%nat).
  { intros z' x Hz' Hev Hl1 Hl2. destruct (IH fuel ltac:(lia) z' Hz' Hev Hl1) as (out & -> & Hob & Hol).
    exists (WRITE_UTF8 x ++ out). cbn [mbind outcome_bind]. split; [done|].
    split; [apply Forall_app; split; [exact (writer_bytes SQLITE_UTF8 x)|done]|].
    pose proof (write_utf8_length x). rewrite length_app. simpl. lia. }
  assert (Hev : Nat.Even (length z)) by (exists (k - 1)%nat; simpl in Hk; lia). simpl in Hf.
  destruct ((0xd800 <=? c) && (c <? 0xe000)); [|apply Hgo; auto; lia].
  destruct z as [|a2 [|b2 z2]]; [apply Hgo; auto; simpl; lia|destruct Hev; simpl in *; lia|].
  cbn [read_pair mbind outcome_bind]. apply Forall_cons in Hz as [_ Hz]. apply Forall_cons in Hz as [_ Hz].
  apply Hgo; [done| |simpl in Hf; lia|simpl; lia]. destruct Hev as [j Hj]. exists (j - 1)%nat. simpl in Hj. lia.
Qed.

Lemma swap_bytes_ok z : bytes_ok z -> bytes_ok (swap_bytes z) /\ length (swap_bytes z) = length z.
Proof.
  remember (length z) as k eqn:Ek. revert z Ek. induction k as [k IH] using lt_wf_ind. intros z -> Hz.
  destruct z as [|a [|b z]]; [done|done|]. apply Forall_cons in Hz as [Ha Hz]. apply Forall_cons in Hz as [Hb Hz].
  destruct (IH (length z) ltac:(simpl; lia) z eq_refl Hz) as [H1 H2]. cbn [swap_bytes]. split; [by do 2 (constructor; [done|])|simpl; lia].
Qed.

Lemma clear_low_bit x : x .& Z.lnot 1 = x - x mod 2.
Proof.
  rewrite <- Z.ldiff_land. change 1 with (Z.ones 1). rewrite Z.ldiff_ones_r, Z.shiftr_div_pow2, Z.shiftl_mul_pow2 by lia.
  change (2 ^ 1) with 2. pose proof (Z.div_mod x 2). lia.
Qed.

(** ** The claims *)

Definition is_enc (e : Z) : Prop := e = SQLITE_UTF8 \/ e = SQLITE_UTF16LE \/ e = SQLITE_UTF16BE.

(** A string value: its [n] bytes are initialised. *)
Definition mem_ok (m : Mem) : Prop := 0 <= n m <= len (z m) /\ bytes_ok (z m) /\ is_enc (enc m).

(** Every code point up to 0x10FFFF written by [WRITE_UTF8] takes 1 to 4 bytes and is
    read back by [READ_UTF8], up to the end of the input, and by [sqlite3Utf8Read] up to
    a byte that starts a character, with all its bytes consumed and none after them --
    as itself, the surrogates and 0xFFFE and 0xFFFF as 0xFFFD. *)
Theorem utf8_write_read c rest :
  0 <= c < 0x110000 -> starts_char rest -> rest <> [] ->
  (1 <= length (WRITE_UTF8 c) <= 4)%nat /\
  READ_UTF8 (WRITE_UTF8 c ++ rest) = Done (readable c, rest) /\ READ_UTF8 (WRITE_UTF8 c) = Done (readable c, []) /\
  sqlite3Utf8Read (WRITE_UTF8 c ++ rest) = Done (readable c, rest).
Proof.
  intros Hc Hr Hne. pose proof (read_write_utf8 c rest Hc Hr) as E. split; [|split_and!].
  - apply write_utf8_length.
  - exact E.
  - rewrite <- (app_nil_r (WRITE_UTF8 c)). by apply read_write_utf8.
  - unfold sqlite3Utf8Read. unfold READ_UTF8 in E. destruct (WRITE_UTF8 c ++ rest) as [|b l]; [done|].
    destruct (0xc0 <=? b); [|done]. destruct (read_cont l _) as [x y]. injection E as <- ->. by destruct rest.
Qed.

(** The bytes of the value that take part in the translation. *)
Definition input (m : Mem) : bytes :=
  take (Z.to_nat (if enc m =? SQLITE_UTF8 then n m else n m .& Z.lnot 1)) (z m).

Lemma input_utf16 m : mem_ok m -> enc m <> SQLITE_UTF8 ->
  Nat.Even (length (input m)) /\ len (input m) = n m .& Z.lnot 1 /\ 0 <= n m .& Z.lnot 1 <= n m.
Proof.
  intros ((Hn & Hl) & _) He. unfold input. rewrite (proj2 (Z.eqb_neq _ _) He), clear_low_bit.
  assert (0 <= n m - n m mod 2 <= n m) by (pose proof (Z.mod_pos_bound (n m) 2); pose proof (Z.mod_le (n m) 2); lia).
  rewrite length_take_le by lia. split_and!; [|lia|lia|lia].
  exists (Z.to_nat (n m / 2)). pose proof (Z.div_mod (n m) 2). pose proof (Z.div_pos (n m) 2). lia.
Qed.

Lemma makeWriteable_spec oom m : mem_ok m ->
  let r := sqlite3VdbeMemMakeWriteable oom m in
  (r.1 = SQLITE_NOMEM /\ oom = true) \/
  (r.1 = SQLITE_OK /\ mem_ok r.2 /\ n r.2 = n m /\ enc r.2 = enc m /\
   take (Z.to_nat (n m)) (z r.2) = take (Z.to_nat (n m)) (z m)).
Proof.
  intros ((Hn & Hl) & Hb & He). unfold sqlite3VdbeMemMakeWriteable, vdbeMemAddTerminator, clear_flag, mem_ok.
  destruct (_ && _); [destruct oom|]; cbn [Z.eqb SQLITE_NOMEM SQLITE_OK fst snd n z enc]; [by left|right|by right].
  assert (length (take (Z.to_nat (n m)) (z m)) = Z.to_nat (n m)) as Ht by (rewrite length_take; lia).
  split_and!; try done; try lia; try (rewrite length_app, Ht; simpl; lia).
  - apply Forall_app. split; [by apply Forall_take|]. repeat constructor; unfold is_byte; lia.
  - rewrite take_app_le, take_take by lia. f_equal. lia.
Qed.

(** [SQLITE_MAX_LENGTH], the longest string. *)
Definition SQLITE_MAX_LENGTH : Z := 1000000000.

Lemma i32_id x : - 2 ^ 31 <= x < 2 ^ 31 -> i32 x = x.
Proof. intros. apply swrap_id; [lia|exact H]. Qed.

(** [NUL]-terminated after its [n] bytes, by a byte in UTF-8 and two in UTF-16. *)
Definition terminated (m : Mem) : Prop :=
  exists out, z m = out ++ (if enc m =? SQLITE_UTF8 then [0] else [0; 0]) /\ n m = len out.

(** [sqlite3VdbeMemTranslate] is safe on every byte sequence, well-formed or not, in
    any of the three encodings: it always returns, never reads past the string nor
    writes past the block it allocated, and fails only when an allocation does; on
    success the value has the new encoding and a translation between UTF-8 and UTF-16
    is NUL-terminated. *)
Theorem translate_safe oom m d :
  mem_ok m -> is_enc d -> enc m <> d -> n m <= SQLITE_MAX_LENGTH ->
  exists rc m', sqlite3VdbeMemTranslate oom m d = Done (rc, m') /\
    ((rc = SQLITE_NOMEM /\ oom = true) \/
     (rc = SQLITE_OK /\ mem_ok m' /\ enc m' = d /\
      (enc m = SQLITE_UTF8 \/ d = SQLITE_UTF8 -> terminated m' /\ flags m' .& MEM_Term <> 0))).
Proof.
  intros Hm Hd Hne Hmax. pose proof Hm as ((Hn & Hl) & Hb & He). unfold sqlite3VdbeMemTranslate, SQLITE_MAX_LENGTH in *.
  assert (Hterm : (MEM_Str .| MEM_Term .| (flags m .& (MEM_AffMask .| MEM_Subtype))) .& MEM_Term <> 0).
  { intros E. assert (H : Z.testbit 0 9 = true); [|done]. rewrite <- E.
    rewrite Z.land_spec, Z.lor_spec, Z.lor_spec. done. }
  destruct (Z.eqb_spec (enc m) SQLITE_UTF8) as [E8|E8]; cbn [negb andb].
  - rewrite (proj2 (Z.eqb_neq d SQLITE_UTF8)) by congruence. destruct oom; [do 2 eexists; split; [done|by left]|].
    set (zIn := take (Z.to_nat (n m)) (z m)). assert (Hlen : len zIn = n m) by (unfold zIn; rewrite length_take; lia).
    cbn [z enc flags]. rewrite (proj2 (Z.eqb_eq _ _) E8).
    change (if d =? SQLITE_UTF16LE then WRITE_UTF16LE else WRITE_UTF16BE) with (write16 (d =? SQLITE_UTF16LE)).
    destruct (from_utf8_total (d =? SQLITE_UTF16LE) (length zIn) zIn) as (out & Eo & Hob & Hol); [by apply Forall_take|lia|].
    fold zIn. rewrite Eo. cbn [mbind outcome_bind]. rewrite length_app. cbn [length].
    rewrite (proj2 (Z.ltb_ge _ _)) by lia. eexists _, _. split; [done|]. right. unfold mem_ok. cbn [enc n z flags].
    rewrite i32_id by lia. split_and!; try done; try lia; try (rewrite length_app; simpl; lia).
    + apply Forall_app. split; [done|]. repeat constructor; lia.
    + intros _. split; [|done]. exists out. cbn [enc z n]. by rewrite (proj2 (Z.eqb_neq d SQLITE_UTF8)) by congruence.
  - destruct (input_utf16 m Hm E8) as (Hev & Hlen & Hn'). unfold input in *. rewrite (proj2 (Z.eqb_neq _ _) E8) in *.
    set (n' := n m .& Z.lnot 1) in *. destruct (Z.eqb_spec d SQLITE_UTF8) as [Ed|Ed]; cbn [negb].
    + destruct oom; [do 2 eexists; split; [done|by left]|]. cbn [z enc flags].
      rewrite (proj2 (Z.eqb_neq _ _) E8).
      destruct (from_utf16_total (enc m =? SQLITE_UTF16LE) _ _ (Forall_take _ (Z.to_nat n') _ Hb) Hev (Nat.le_refl _)) as (out & Eo & Hob & Hol).
      rewrite Eo. cbn [mbind outcome_bind]. rewrite length_app. cbn [length].
      rewrite (proj2 (Z.ltb_ge _ _)) by lia. eexists _, _. split; [done|]. right. unfold mem_ok. cbn [enc n z flags].
      rewrite i32_id by lia. split_and!; try done; try lia; try (rewrite length_app; simpl; lia).
      * apply Forall_app. split; [done|]. repeat constructor; lia.
      * intros _. split; [|done]. exists out. cbn [enc z n]. by rewrite Ed.
    + unfold translate_swap. pose proof (makeWriteable_spec oom m Hm) as Hw. destruct (sqlite3VdbeMemMakeWriteable oom m) as [rc m1].
      cbn [fst snd] in Hw. destruct Hw as [[-> ->]|(-> & Hm1 & Hn1 & He1 & Ht1)]; cbn [negb Z.eqb SQLITE_NOMEM SQLITE_OK].
      * do 2 eexists. split; [done|by left].
      * eexists _, _. split; [done|]. right. split_and!; try done; [|by intros [?|?]].
        destruct Hm1 as ((Hn2 & Hl2) & Hb2 & He2). unfold mem_ok. cbn [n z enc]. rewrite Hn1 in *. fold n'.
        destruct (swap_bytes_ok (take (Z.to_nat n') (z m1))) as [Hs1 Hs2]; [by apply Forall_take|].
        split; [|split; [by apply Forall_app; split; [|apply Forall_drop]|done]].
        rewrite length_app, Hs2, length_take, length_drop. lia.
Qed.

Lemma writer_is_write16 d : is_enc d -> d <> SQLITE_UTF8 -> writer d = write16 (d =? SQLITE_UTF16LE).
Proof. intros [->|[-> | ->]] H; done. Qed.

Lemma from_utf8_writer d cs fuel : is_text cs -> is_enc d -> d <> SQLITE_UTF8 -> (length (encode SQLITE_UTF8 cs) <= fuel)%nat ->
  from_utf8 fuel (if d =? SQLITE_UTF16LE then WRITE_UTF16LE else WRITE_UTF16BE) (encode SQLITE_UTF8 cs) = Done (encode d cs).
Proof.
  intros Ht Hd Hne Hf. rewrite from_utf8_text by done. unfold encode. by rewrite writer_is_write16.
Qed.

(** C37. Translation is correct: a text of any characters (none a surrogate or one of
    0xFFFE, 0xFFFF), of at most SQLITE_MAX_LENGTH bytes, stored in one of the encodings UTF-8,
    UTF-16LE, UTF-16BE is, when the allocations succeed, translated to its encoding in any
    other, so that translating there and back gives the same bytes. *)
Theorem translate_correct m e d cs rest :
  is_text cs -> is_enc e -> is_enc d -> e <> d -> enc m = e -> mem_ok m ->
  z m = encode e cs ++ rest -> n m = len (encode e cs) -> n m <= SQLITE_MAX_LENGTH ->
  exists m', sqlite3VdbeMemTranslate false m d = Done (SQLITE_OK, m') /\
    enc m' = d /\ n m' = len (encode d cs) /\ take (length (encode d cs)) (z m') = encode d cs.
Proof.
  intros Ht He Hd Hne Henc Hm Hz Hn Hmax. unfold sqlite3VdbeMemTranslate, SQLITE_MAX_LENGTH in *.
  assert (Hin : forall k, Z.of_nat k = n m -> take k (z m) = encode e cs).
  { intros k Hk. rewrite Hz. apply take_app_length'. lia. }
  rewrite Henc. destruct (Z.eqb_spec e SQLITE_UTF8) as [E8|E8]; cbn [negb andb].
  - revert Henc. subst e. intros Henc. rewrite (proj2 (Z.eqb_neq d SQLITE_UTF8)) by congruence. cbn [z enc flags]. rewrite Z.eqb_refl.
    rewrite Hin by lia. rewrite from_utf8_writer by (done || congruence || lia). cbn [mbind outcome_bind].
    destruct (encode_lengths (d =? SQLITE_UTF16LE) cs) as (H1 & _ & _).
    rewrite <- writer_is_write16 in H1 by (done || congruence). fold (encode d cs) in H1.
    rewrite length_app. cbn [length]. rewrite (proj2 (Z.ltb_ge _ _)) by lia.
    eexists. split; [done|]. cbn [enc n z]. rewrite i32_id by lia. split_and!; try done. by rewrite take_app_length.
  - destruct (encode_lengths (e =? SQLITE_UTF16LE) cs) as (H1 & H2 & H3).
    rewrite <- writer_is_write16 in H1, H2, H3 by done. fold (encode e cs) in H1, H2, H3.
    assert (Hnn : n m .& Z.lnot 1 = n m).
    { rewrite clear_low_bit, Hn. destruct H3 as [k ->]. rewrite Nat2Z.inj_mul, Z.mul_comm, Z.mod_mul by lia. lia. }
    rewrite Hnn. destruct (Z.eqb_spec d SQLITE_UTF8) as [Ed|Ed]; cbn [negb].
    + subst d. cbn [z enc flags]. rewrite Hin by lia. rewrite (proj2 (Z.eqb_neq _ _) E8).
      assert (Hu : from_utf16 (length (encode e cs)) (e =? SQLITE_UTF16LE) (encode e cs) = Done (encode SQLITE_UTF8 cs)).
      { unfold encode at 1 2. rewrite writer_is_write16 by done. by apply from_utf16_text. }
      rewrite Hu. cbn [mbind outcome_bind]. rewrite length_app. cbn [length]. rewrite (proj2 (Z.ltb_ge _ _)) by lia.
      eexists. split; [done|]. cbn [enc n z]. rewrite i32_id by lia. split_and!; try done. by rewrite take_app_length.
    + unfold translate_swap. pose proof (makeWriteable_spec false m Hm) as Hw.
      destruct (sqlite3VdbeMemMakeWriteable false m) as [rc m1].
      cbn [fst snd] in Hw. destruct Hw as [[_ ?]|(-> & Hm1 & Hn1 & He1 & Ht1)]; [done|]. cbn [negb Z.eqb SQLITE_OK].
      eexists. split; [done|]. cbn [enc n z]. rewrite Hn1, Hnn, Ht1, Hin by lia.
      assert (Hs : swap_bytes (encode e cs) = encode d cs).
      { unfold encode. rewrite !writer_is_write16, swap_text by done. do 3 f_equal.
        destruct He as [->|[-> | ->]], Hd as [->|[-> | ->]]; done. }
      rewrite Hs. assert (length (encode d cs) = length (encode e cs)) as El.
      { rewrite <- Hs. apply swap_bytes_ok. unfold encode. apply Forall_concat, Forall_map, Forall_forall. intros x _. apply writer_bytes. }
      split_and!; [done|lia|]. by rewrite take_app_length.
Qed.

Lemma readable_ascii c : 0 <= c < 0x80 -> readable c = c.
Proof. intros Hc. unfold readable. destruct (_ || _) eqn:E; [|done]. lia. Qed.

Lemma is_text_forallb cs :
  forallb (fun c => (0 <=? c) && (c <? 0x110000) && (readable c =? c)) cs = true -> is_text cs.
Proof.
  intros H. apply Forall_forall. intros c Hc%list_elem_of_In. rewrite forallb_forall in H. specialize (H c Hc). lia.
Qed.

Lemma utf8_write_read_witness :
  (1 <= length (WRITE_UTF8 0x10348) <= 4)%nat /\
  READ_UTF8 (WRITE_UTF8 0x10348 ++ [0]) = Done (readable 0x10348, [0]) /\
  READ_UTF8 (WRITE_UTF8 0x10348) = Done (readable 0x10348, []) /\
  sqlite3Utf8Read (WRITE_UTF8 0x10348 ++ [0]) = Done (readable 0x10348, [0]).
Proof. apply (utf8_write_read 0x10348 [0]); [lia|reflexivity|discriminate]. Defined.

(** An ill-formed value: a lone lead byte and a cut sequence. *)
Lemma translate_safe_witness :
  let m := mk_mem MEM_Str SQLITE_UTF8 3 [0xf0; 0xc3; 0x41] false in
  exists rc m', sqlite3VdbeMemTranslate false m SQLITE_UTF16LE = Done (rc, m') /\
    ((rc = SQLITE_NOMEM /\ false = true) \/
     (rc = SQLITE_OK /\ mem_ok m' /\ enc m' = SQLITE_UTF16LE /\
      (enc m = SQLITE_UTF8 \/ SQLITE_UTF16LE = SQLITE_UTF8 -> terminated m' /\ flags m' .& MEM_Term <> 0))).
Proof.
  apply (translate_safe false (mk_mem MEM_Str SQLITE_UTF8 3 [0xf0; 0xc3; 0x41] false) SQLITE_UTF16LE);
    [split; [cbn; lia|split; [repeat constructor; lia|by left]]|right; by left|discriminate|vm_compute; discriminate].
Defined.

Lemma translate_correct_witness :
  is_text [0x41; 0xe9; 0x20ac; 0x10348] /\
  exists m', sqlite3VdbeMemTranslate false (mk_mem MEM_Str SQLITE_UTF8 10 (encode SQLITE_UTF8 [0x41; 0xe9; 0x20ac; 0x10348] ++ []) false)
      SQLITE_UTF16BE = Done (SQLITE_OK, m') /\
    enc m' = SQLITE_UTF16BE /\ n m' = len (encode SQLITE_UTF16BE [0x41; 0xe9; 0x20ac; 0x10348]) /\
    take (length (encode SQLITE_UTF16BE [0x41; 0xe9; 0x20ac; 0x10348])) (z m') = encode SQLITE_UTF16BE [0x41; 0xe9; 0x20ac; 0x10348].
Proof.
  assert (Ht : is_text [0x41; 0xe9; 0x20ac; 0x10348]) by (apply is_text_forallb; vm_compute; reflexivity).
  split; [exact Ht|].
  apply (translate_correct (mk_mem MEM_Str SQLITE_UTF8 10 (encode SQLITE_UTF8 [0x41; 0xe9; 0x20ac; 0x10348] ++ []) false)
    SQLITE_UTF8 SQLITE_UTF16BE [0x41; 0xe9; 0x20ac; 0x10348] []); try reflexivity;
    [exact Ht|by left|right; by right|discriminate| |vm_compute; discriminate].
  split; [vm_compute; split; discriminate|]. split; [|by left]. repeat constructor; vm_compute; try discriminate; reflexivity.
Defined.

(** ** Byte order mark *)

Definition bom (e : Z) : bytes := if e =? SQLITE_UTF16LE then [0xFF; 0xFE] else [0xFE; 0xFF].

(** A value that starts with a byte order mark gets the encoding it announces, without
    the mark. *)
Lemma HandleBom_spec m e cs rest :
  e = SQLITE_UTF16LE \/ e = SQLITE_UTF16BE -> mem_ok m ->
  z m = bom e ++ encode e cs ++ rest -> n m = 2 + len (encode e cs) ->
  exists m', sqlite3VdbeMemHandleBom false m = (SQLITE_OK, m') /\ enc m' = e /\ n m' = len (encode e cs) /\
    take (length (encode e cs)) (z m') = encode e cs.
Proof.
  intros He Hm Hz Hn. pose proof (makeWriteable_spec false m Hm) as Hw. unfold sqlite3VdbeMemHandleBom.
  destruct (sqlite3VdbeMemMakeWriteable false m) as [rc m1]. cbn [fst snd] in Hw.
  destruct Hw as [[_ ?]|(-> & ((Hn1 & Hl1) & _) & Hnn & _ & Ht)]; [done|].
  rewrite (proj2 (Z.ltb_lt 1 (n m))) by lia.
  assert (Hd : take (Z.to_nat (n m)) (z m) = bom e ++ encode e cs).
  { rewrite Hz, app_assoc. apply take_app_length'. rewrite length_app, Hn.
    destruct He as [-> | ->]; simpl; lia. }
  assert (Hd1 : exists k, z m1 = bom e ++ encode e cs ++ k).
  { exists (drop (Z.to_nat (n m)) (z m1)). rewrite app_assoc, <- Hd, <- Ht. symmetry. apply take_drop. }
  destruct Hd1 as [k Hk]. assert (E : take (Z.to_nat (n m1 - 2)) (drop 2 (z m1)) = encode e cs).
  { rewrite Hk. rewrite drop_app_length' by (by destruct He as [-> | ->]). apply take_app_length'. lia. }
  assert (Hb : (if ((z m).[0] =? 0xFF) && ((z m).[1] =? 0xFE) then SQLITE_UTF16LE
               else if ((z m).[0] =? 0xFE) && ((z m).[1] =? 0xFF) then SQLITE_UTF16BE else 0) = e)
    by (rewrite Hz; by destruct He as [-> | ->]).
  rewrite Hb. rewrite (proj2 (Z.eqb_neq e 0)) by (destruct He as [-> | ->]; done).
  rewrite Z.eqb_refl. eexists. split; [done|]. cbn [enc n z]. rewrite E. split_and!; [done|lia|]. by rewrite take_app_length.
Qed.

(** ** Lengths *)

Lemma skip_cont_step x z : 0 <= x < 64 -> skip_cont (u8 (0x80 + u8 x) :: z) = skip_cont z.
Proof. intros Hx. cbn [skip_cont]. by rewrite (proj1 (cont_byte x Hx)). Qed.

Lemma skip_write_utf8 c z : 0 <= c < 0x110000 -> starts_char z -> z <> [] ->
  SQLITE_SKIP_UTF8 (WRITE_UTF8 c ++ z) = Done z.
Proof.
  intros Hc Hz Hne. assert (Hstop : skip_cont z = Done z) by (destruct z; [done|]; cbn in *; by rewrite Hz).
  unfold WRITE_UTF8.
  destruct (Z.ltb_spec c 0x80); [|destruct (Z.ltb_spec c 0x800); [|destruct (Z.ltb_spec c 0x10000)]]; cbn [app SQLITE_SKIP_UTF8].
  - rewrite (proj2 (Z.leb_gt _ _)); [done|]. arith.
  - rewrite (lead_ge 0xC0 32) by (by left || arith).
    rewrite skip_cont_step by arith. done.
  - rewrite (lead_ge 0xE0 16) by ((by right; left) || arith).
    do 2 (rewrite skip_cont_step by arith). done.
  - rewrite (lead_ge 0xF0 8) by ((by right; right; left) || arith).
    do 3 (rewrite skip_cont_step by arith). done.
Qed.

(** A text without NUL characters. *)
Definition no_zero (cs : list Z) : Prop := Forall (fun c => c <> 0) cs.

Lemma write_utf8_head c : 0 < c < 0x110000 -> exists b l, WRITE_UTF8 c = b :: l /\ b <> 0.
Proof.
  intros Hc. unfold WRITE_UTF8.
  destruct (Z.ltb_spec c 0x80); [|destruct (Z.ltb_spec c 0x800); [|destruct (Z.ltb_spec c 0x10000)]];
    do 2 eexists; (split; [done|]); arith.
Qed.

Lemma text_zero_starts cs g : is_text cs -> starts_char (encode SQLITE_UTF8 cs ++ 0 :: g).
Proof.
  intros Ht. destruct Ht as [|c cs [Hc _] _]; [done|]. rewrite encode_cons, <- app_assoc. by apply write_utf8_starts.
Qed.

Lemma charlen_text g cs2 cs1 : is_text (cs1 ++ cs2) -> no_zero cs1 -> forall fuel term r,
  (length (encode SQLITE_UTF8 cs1) < fuel)%nat ->
  (match term with Some t => t = len (encode SQLITE_UTF8 cs1) | None => cs2 = [] end) ->
  charlen_loop fuel (encode SQLITE_UTF8 (cs1 ++ cs2) ++ 0 :: g) term r = Done (r + len cs1).
Proof.
  induction cs1 as [|c cs1 IH]; intros Ht Hz fuel term r Hf Hterm; (destruct fuel as [|fuel]; [lia|]); cbn [app charlen_loop].
  - destruct term as [t|].
    + subst t. assert (Hex : exists b l, encode SQLITE_UTF8 cs2 ++ 0 :: g = b :: l).
      { destruct (encode SQLITE_UTF8 cs2); cbn; eauto. } destruct Hex as (b & l & ->). cbn. destruct (b =? 0); f_equal; lia.
    + subst cs2. cbn. f_equal. lia.
  - apply Forall_cons in Ht as [[Hc Hr] Ht]. apply Forall_cons in Hz as [Hc0 Hz]. rewrite encode_cons in *.
    change (writer SQLITE_UTF8 c) with (WRITE_UTF8 c) in *. rewrite length_app in Hf.
    pose proof (write_utf8_length c) as Hwl. rewrite <- app_assoc.
    set (rest := encode SQLITE_UTF8 (cs1 ++ cs2) ++ 0 :: g).
    assert (Hskip : SQLITE_SKIP_UTF8 (WRITE_UTF8 c ++ rest) = Done rest).
    { apply skip_write_utf8; [done| |by intros [_ ?]%app_nil]. by apply text_zero_starts. }
    destruct (write_utf8_head c ltac:(lia)) as (b & l & Eb & Hb).
    assert (Hterm0 : (match term with Some t => t <=? 0 | None => false end) = false).
    { destruct term as [t|]; [|done]. rewrite ?encode_cons, length_app in Hterm.
      change (writer SQLITE_UTF8 c) with (WRITE_UTF8 c) in Hterm. lia. }
    rewrite Hskip. rewrite Eb. cbn [app]. rewrite (proj2 (Z.eqb_neq b 0)) by done. rewrite Hterm0.
    cbn [mbind outcome_bind]. unfold rest at 1. rewrite IH; [f_equal; simpl; lia|done|done|lia|].
    destruct term as [t|]; [|done]. rewrite ?encode_cons, length_app in Hterm.
    change (writer SQLITE_UTF8 c) with (WRITE_UTF8 c) in Hterm. rewrite Eb in Hterm. cbn [length] in *. rewrite length_app. lia.
Qed.

Lemma bytelen_text g cs2 cs1 : is_text (cs1 ++ cs2) -> forall used,
  (2 <= length g)%nat -> Forall (fun b => b = 0) (take 2 g) ->
  bytelen_loop (length cs1) (drop 1 (encode SQLITE_UTF16LE (cs1 ++ cs2) ++ g)) used =
    Done (used + len (encode SQLITE_UTF16LE cs1)).
Proof.
  induction cs1 as [|c cs1 IH]; intros Ht used Hg Hg0; [cbn; f_equal; lia|].
  apply Forall_cons in Ht as [[Hc Hr] Ht]. cbn [app length bytelen_loop]. rewrite !encode_cons, length_app, <- app_assoc.
  set (rest := encode SQLITE_UTF16LE (cs1 ++ cs2) ++ g). assert (IH' := fun u => IH Ht u Hg Hg0). fold rest in IH'.
  change (writer SQLITE_UTF16LE c) with (WRITE_UTF16LE c).
  assert (Hrest : (2 <= length rest)%nat) by (unfold rest; rewrite length_app; lia).
  unfold WRITE_UTF16LE. destruct (Z.leb_spec c 0xFFFF); cbn [app drop length].
  - assert ((0xd8 <=? u8 ((c >> 8) .& 0xFF)) && (u8 ((c >> 8) .& 0xFF) <? 0xdc) = false) as ->.
    { unfold readable in Hr. destruct (Z.leb_spec 0xd8 (u8 ((c >> 8) .& 0xFF))), (Z.ltb_spec (u8 ((c >> 8) .& 0xFF)) 0xdc); try done.
      exfalso. assert (0xD800 <= c < 0xDC00) by (revert H0 H1; arith).
      rewrite (proj2 (Z.leb_le 0xD800 c)), (proj2 (Z.leb_le c 0xDFFF)) in Hr by lia. cbn in Hr. lia. }
    change (drop 0 rest) with rest. rewrite IH'. f_equal. lia.
  - set (v := c - 0x10000). rewrite !mask_03. rewrite (u32_id v) by (unfold v; lia).
    rewrite (proj2 (Z.leb_le 0xd8 _)), (proj2 (Z.ltb_lt _ 0xdc)) by (unfold v; arith). cbn [andb].
    rewrite (proj2 (Z.leb_le 0xdc _)), (proj2 (Z.ltb_lt _ 0xe0)) by arith. cbn [andb].
    rewrite IH'. f_equal. lia.
Qed.

(** The lengths are right: on a NUL-terminated UTF-8 text, [sqlite3Utf8CharLen] is
    the number of characters before the terminator, and of the characters in the first
    [nByte] bytes when these end a character; on a terminated UTF-16 text,
    [sqlite3Utf16ByteLen] is the number of bytes of the first [nChar] characters.  Both
    read no byte after the terminator. *)
Theorem text_lengths cs1 cs2 g :
  is_text (cs1 ++ cs2) -> no_zero (cs1 ++ cs2) ->
  sqlite3Utf8CharLen (encode SQLITE_UTF8 (cs1 ++ cs2) ++ 0 :: g) (-1) = Done (len (cs1 ++ cs2)) /\
  sqlite3Utf8CharLen (encode SQLITE_UTF8 (cs1 ++ cs2) ++ 0 :: g) (len (encode SQLITE_UTF8 cs1)) = Done (len cs1) /\
  sqlite3Utf16ByteLen (encode SQLITE_UTF16LE (cs1 ++ cs2) ++ 0 :: 0 :: g) (len cs1) = Done (len (encode SQLITE_UTF16LE cs1)).
Proof.
  intros Ht Hz. unfold sqlite3Utf8CharLen, sqlite3Utf16ByteLen. split_and!.
  - cbn [Z.leb Z.compare]. pose proof (charlen_text g [] (cs1 ++ cs2)) as H. rewrite app_nil_r in H.
    rewrite H by (done || (rewrite length_app; lia)). done.
  - rewrite (proj2 (Z.leb_le 0 _)) by lia. rewrite (charlen_text g cs2 cs1); [f_equal; lia|done|exact (proj1 (proj1 (Forall_app _ _ _) Hz))| |done].
    rewrite length_app. unfold encode. rewrite map_app, concat_app, length_app. lia.
  - rewrite Nat2Z.id, (bytelen_text _ cs2 cs1); [f_equal; lia|done|simpl; lia|by repeat constructor].
Qed.

Lemma text_lengths_witness :
  sqlite3Utf8CharLen (encode SQLITE_UTF8 ([0xe9; 0x10348] ++ [0x41]) ++ [0]) (-1) = Done (len ([0xe9; 0x10348] ++ [0x41])) /\
  sqlite3Utf8CharLen (encode SQLITE_UTF8 ([0xe9; 0x10348] ++ [0x41]) ++ [0]) (len (encode SQLITE_UTF8 [0xe9; 0x10348])) =
    Done (len [0xe9; 0x10348]) /\
  sqlite3Utf16ByteLen (encode SQLITE_UTF16LE ([0xe9; 0x10348] ++ [0x41]) ++ [0; 0]) (len [0xe9; 0x10348]) =
    Done (len (encode SQLITE_UTF16LE [0xe9; 0x10348])).
Proof.
  apply (text_lengths [0xe9; 0x10348] [0x41] []); [apply is_text_forallb; vm_compute; reflexivity|repeat constructor; lia].
Defined.
