(* ===== verification/Like.v ===== *)
(** * Like: LIKE and GLOB (func.c of src/src/db/sqlite3/core/sqlite3.c)

    [patternCompare], the matcher behind the LIKE and GLOB operators and behind
    [sqlite3_strglob] and [sqlite3_strlike], and the SQL function [likeFunc].  Strings are
    NUL-terminated UTF-8; a pointer is the memory from it on.  The specification splits a
    pattern into tokens and says which texts they match. *)

From S2P Require Import Prelude CType Utf.

Record compareInfo := mk_compareInfo {
  matchAll : Z;
  matchOne : Z;
  matchSet : Z;
  noCase : bool
}.

(** [globInfo] is [{ '*', '?', '[', 0 }], [likeInfoNorm] is [{ '%', '_', 0, 1 }] and
    [likeInfoAlt] is [{ '%', '_', 0, 0 }]. *)
Definition globInfo : compareInfo := mk_compareInfo 42 63 91 false.
Definition likeInfoNorm : compareInfo := mk_compareInfo 37 95 0 true.
Definition likeInfoAlt : compareInfo := mk_compareInfo 37 95 0 false.

Definition SQLITE_MATCH : Z := 0.
Definition SQLITE_NOMATCH : Z := 1.
Definition SQLITE_NOWILDCARDMATCH : Z := 2.

Definition Utf8Read (A : bytes) : outcome (Z * bytes) :=
  match A with
  | [] => UB
  | b :: A' => if b <? 0x80 then Done (b, A') else sqlite3Utf8Read A
  end.

(** [*z] *)
Definition deref (z : bytes) : outcome Z := match z with [] => UB | b :: _ => Done b end.

(** [zString += strcspn(zString, zStop)] *)
Fixpoint strcspn (zString zStop : bytes) : outcome bytes :=
  match zString with
  | [] => UB
  | b :: z => if (b =? 0) || existsb (Z.eqb b) zStop then Done zString else strcspn z zStop
  end.

(** Every loop below runs on a fuel that the length of the string it advances bounds. *)

(** Skip over a run of wildcards, [None] when it returns [SQLITE_NOWILDCARDMATCH]: the
    character after the run, the rest of the pattern and the rest of the string. *)
Fixpoint skip_wildcards (fuel : nat) (p : compareInfo) (zPattern zString : bytes) : outcome (option (Z * bytes * bytes)) :=
  match fuel with
  | O => UB
  | S fuel =>
      '(c, zPattern) ← Utf8Read zPattern;
      if (c =? matchAll p) || ((c =? matchOne p) && negb (matchOne p =? 0)) then
        if c =? matchOne p then
          '(c2, zString) ← sqlite3Utf8Read zString;
          if c2 =? 0 then Done None else skip_wildcards fuel p zPattern zString
        else skip_wildcards fuel p zPattern zString
      else Done (Some (c, zPattern, zString))
  end.

(** The three searches for a place where the rest matches; [rec] is [patternCompare] on
    the rest of the pattern. *)
Section search.
Variable rec : bytes -> outcome Z.

(** [while( *zString ){ ... }] *)
Fixpoint search_set (fuel : nat) (zString : bytes) : outcome Z :=
  match fuel with
  | O => UB
  | S fuel =>
      b ← deref zString;
      if b =? 0 then Done SQLITE_NOWILDCARDMATCH
      else
        bMatch ← rec zString;
        if negb (bMatch =? SQLITE_NOMATCH) then Done bMatch
        else zString ← SQLITE_SKIP_UTF8 zString; search_set fuel zString
  end.

(** [while(1){ zString += strcspn(zString, zStop); ... }] *)
Fixpoint search_stop (fuel : nat) (zStop zString : bytes) : outcome Z :=
  match fuel with
  | O => UB
  | S fuel =>
      zString ← strcspn zString zStop;
      match zString with
      | [] => UB
      | b :: zString =>
          if b =? 0 then Done SQLITE_NOWILDCARDMATCH
          else
            bMatch ← rec zString;
            if negb (bMatch =? SQLITE_NOMATCH) then Done bMatch else search_stop fuel zStop zString
      end
  end.

(** [while( (c2 = Utf8Read(zString))!=0 ){ ... }] *)
Fixpoint search_char (fuel : nat) (c : Z) (zString : bytes) : outcome Z :=
  match fuel with
  | O => UB
  | S fuel =>
      '(c2, zString) ← Utf8Read zString;
      if c2 =? 0 then Done SQLITE_NOWILDCARDMATCH
      else if negb (c2 =? c) then search_char fuel c zString
      else
        bMatch ← rec zString;
        if negb (bMatch =? SQLITE_NOMATCH) then Done bMatch else search_char fuel c zString
  end.
End search.

(** The loop over the characters of a set, from the one in [c2] on: whether [c] was seen,
    the [c2] it stops at and the rest of the pattern. *)
Fixpoint scan_set (fuel : nat) (c c2 : Z) (seen : bool) (prior_c : Z) (zPattern : bytes) : outcome (bool * Z * bytes) :=
  match fuel with
  | O => UB
  | S fuel =>
      if (c2 =? 0) || (c2 =? 93) then Done (seen, c2, zPattern)
      else
        b ← deref zPattern;
        if (c2 =? 45) && negb (b =? 93) && negb (b =? 0) && (0 <? prior_c) then
          '(c2, zPattern) ← sqlite3Utf8Read zPattern;
          let seen := if (prior_c <=? c) && (c <=? c2) then true else seen in
          '(c2, zPattern) ← sqlite3Utf8Read zPattern;
          scan_set fuel c c2 seen 0 zPattern
        else
          let seen := if c =? c2 then true else seen in
          let prior_c := c2 in
          '(c2, zPattern) ← sqlite3Utf8Read zPattern;
          scan_set fuel c c2 seen prior_c zPattern
  end.

(** The set after a ['[']: [None] when it returns [SQLITE_NOMATCH], otherwise the two
    pointers after it. *)
Definition compare_set (zPattern zString : bytes) : outcome (option (bytes * bytes)) :=
  '(c, zString) ← sqlite3Utf8Read zString;
  if c =? 0 then Done None
  else
    '(c2, zPattern) ← sqlite3Utf8Read zPattern;
    '(invert, c2, zPattern) ← (if c2 =? 94 then '(c2, zPattern) ← sqlite3Utf8Read zPattern; Done (true, c2, zPattern)
                               else Done (false, c2, zPattern));
    '(seen, c2, zPattern) ← (if c2 =? 93 then '(c2', zPattern) ← sqlite3Utf8Read zPattern; Done (c =? 93, c2', zPattern)
                             else Done (false, c2, zPattern));
    '(seen, c2, zPattern) ← scan_set (S (length zPattern)) c c2 seen 0 zPattern;
    if (c2 =? 0) || negb (xorb seen invert) then Done None else Done (Some (zPattern, zString)).

(** The comparison of one character at the end of the loop's body. *)
Definition compare_char (p : compareInfo) (c c2 : Z) (escaped : bool) : bool :=
  (c =? c2) ||
  (noCase p && (sqlite3Tolower (u8 c) =? sqlite3Tolower (u8 c2)) && (c <? 0x80) && (c2 <? 0x80)) ||
  ((c =? matchOne p) && negb escaped && negb (c2 =? 0)).

(** The search for the character [c] after a ["*"]. *)
Definition search (p : compareInfo) (rec : bytes -> outcome Z) (c : Z) (zString : bytes) : outcome Z :=
  if c <=? 0x80 then
    let zStop := if noCase p then [sqlite3Toupper (u8 c); sqlite3Tolower (u8 c)] else [c] in
    search_stop rec (S (length zString)) zStop zString
  else search_char rec (S (length zString)) c zString.

(** One call of [patternCompare] per iteration of its loop; [zEscaped] is the distance of
    that pointer from the end of the memory, which tells pointers into one string apart. *)
Fixpoint patternCompare (fuel : nat) (p : compareInfo) (matchOther : Z) (zEscaped : option nat)
    (zPattern zString : bytes) : outcome Z :=
  match fuel with
  | O => UB
  | S fuel =>
      let rec := patternCompare fuel p matchOther in
      '(c, zPattern) ← Utf8Read zPattern;
      if c =? 0 then
        b ← deref zString; Done (if b =? 0 then SQLITE_MATCH else SQLITE_NOMATCH)
      else if c =? matchAll p then
        r ← skip_wildcards (S (length zPattern)) p zPattern zString;
        match r with
        | None => Done SQLITE_NOWILDCARDMATCH
        | Some (c, zPattern, zString) =>
            if c =? 0 then Done SQLITE_MATCH
            else if c =? matchOther then
              if matchSet p =? 0 then
                '(c, zPattern) ← sqlite3Utf8Read zPattern;
                if c =? 0 then Done SQLITE_NOWILDCARDMATCH
                else search p (rec None zPattern) c zString
              else search_set (rec None (c :: zPattern)) (S (length zString)) zString
            else search p (rec None zPattern) c zString
        end
      else
        let compare c zPattern zEscaped :=
          '(c2, zString) ← Utf8Read zString;
          if compare_char p c c2 (bool_decide (zEscaped = Some (length zPattern))) then rec zEscaped zPattern zString
          else Done SQLITE_NOMATCH in
        if c =? matchOther then
          if matchSet p =? 0 then
            '(c, zPattern) ← sqlite3Utf8Read zPattern;
            if c =? 0 then Done SQLITE_NOMATCH else compare c zPattern (Some (length zPattern))
          else
            r ← compare_set zPattern zString;
            match r with
            | None => Done SQLITE_NOMATCH
            | Some (zPattern, zString) => rec zEscaped zPattern zString
            end
        else compare c zPattern zEscaped
  end.

Definition pattern_compare (p : compareInfo) (matchOther : Z) (zPattern zString : bytes) : outcome Z :=
  patternCompare (S (length zPattern)) p matchOther None zPattern zString.

Definition sqlite3_strglob (zGlobPattern zString : bytes) : outcome Z := pattern_compare globInfo 91 zGlobPattern zString.
Definition sqlite3_strlike (zPattern zStr : bytes) (esc : Z) : outcome Z := pattern_compare likeInfoNorm esc zPattern zStr.

(** ** The SQL function *)

Inductive sql_result :=
| result_null                (* no result set *)
| result_int (b : bool)
| result_error (msg : string).

(** The copy of [pInfo] without the wildcard that the escape character is. *)
Definition escapeInfo (pInfo : compareInfo) (escape : Z) : compareInfo :=
  mk_compareInfo (if escape =? matchAll pInfo then 0 else matchAll pInfo)
    (if escape =? matchOne pInfo then 0 else matchOne pInfo) (matchSet pInfo) (noCase pInfo).

(** The arguments as text, [None] for NULL; [limit] is
    [db->aLimit[SQLITE_LIMIT_LIKE_PATTERN_LENGTH]] and [nPat] the length of the pattern. *)
Definition likeFunc (limit : Z) (pInfo : compareInfo) (nPat : Z) (zB zA : option bytes) (zEsc : option (option bytes)) : outcome sql_result :=
  if limit <? nPat then Done (result_error "LIKE or GLOB pattern too complex")
  else
    let run pInfo escape :=
      match zA, zB with
      | Some zA, Some zB => r ← pattern_compare pInfo escape zB zA; Done (result_int (r =? SQLITE_MATCH))
      | _, _ => Done result_null
      end in
    match zEsc with
    | None => run pInfo (matchSet pInfo)
    | Some None => Done result_null
    | Some (Some zEsc) =>
        n ← sqlite3Utf8CharLen zEsc (-1);
        if negb (n =? 1) then Done (result_error "ESCAPE expression must be a single character")
        else
          '(escape, _) ← sqlite3Utf8Read zEsc;
          run (escapeInfo pInfo escape) escape
    end.

(** ** The specification *)

Inductive token :=
| TAny                                         (* any sequence of characters *)
| TOne                                         (* any character *)
| TLit (c : Z)                                 (* this character *)
| TSet (invert : bool) (ranges : list (Z * Z)) (* a character in, or not in, the ranges *)
| TFail.                                       (* nothing *)

(** The inside of a set, up to its []]; [prior] is the character a ["-"] continues. *)
Fixpoint parse_ranges (fuel : nat) (prior : option Z) (l : list Z) : option (list (Z * Z) * list Z) :=
  match fuel, l with
  | S fuel, c :: l =>
      if c =? 93 then Some ([], l)
      else
        match c =? 45, prior, l with
        | true, Some a, e :: l' =>
            if e =? 93 then
              '(rs, l) ← parse_ranges fuel (Some c) l; Some ((c, c) :: rs, l)
            else '(rs, l) ← parse_ranges fuel None l'; Some ((a, e) :: rs, l)
        | _, _, _ => '(rs, l) ← parse_ranges fuel (Some c) l; Some ((c, c) :: rs, l)
        end
  | _, _ => None
  end.

(** The first character, or the terminator. *)
Definition head0 (l : list Z) : Z := match l with [] => 0 | c :: _ => c end.

Definition parse_set (l : list Z) : option (bool * list (Z * Z) * list Z) :=
  let invert := head0 l =? 94 in
  let l := if invert then tail l else l in
  let first := head0 l =? 93 in
  let l := if first then tail l else l in
  '(rs, l) ← parse_ranges (length l) None l; Some (invert, (if first then [(93, 93)] else []) ++ rs, l).

Fixpoint tokens (fuel : nat) (p : compareInfo) (other : Z) (l : list Z) : list token :=
  match fuel, l with
  | S fuel, c :: l =>
      if c =? matchAll p then TAny :: tokens fuel p other l
      else if c =? other then
        if matchSet p =? 0 then
          match l with [] => [TFail] | c :: l => TLit c :: tokens fuel p other l end
        else
          match parse_set l with
          | None => [TFail]
          | Some (invert, rs, l) => TSet invert rs :: tokens fuel p other l
          end
      else if c =? matchOne p then TOne :: tokens fuel p other l
      else TLit c :: tokens fuel p other l
  | _, _ => []
  end.

Definition same_char (p : compareInfo) (c x : Z) : bool :=
  (c =? x) || (noCase p && (c <? 0x80) && (x <? 0x80) && (sqlite3Tolower c =? sqlite3Tolower x)).

Definition accepts (p : compareInfo) (t : token) (x : Z) : bool :=
  match t with
  | TOne => true
  | TLit c => same_char p c x
  | TSet invert rs => xorb (existsb (fun '(a, b) => (a <=? x) && (x <=? b)) rs) invert
  | TAny | TFail => false
  end.

Fixpoint matches (p : compareInfo) (ts : list token) (s : list Z) : Prop :=
  match ts with
  | [] => s = []
  | TAny :: ts => exists s1 s2, s = s1 ++ s2 /\ matches p ts s2
  | t :: ts => exists x s', s = x :: s' /\ accepts p t x = true /\ matches p ts s'
  end.

(** The three results. *)
Definition result_ok (p : compareInfo) (ts : list token) (s : list Z) (r : Z) : Prop :=
  (r = SQLITE_MATCH /\ matches p ts s) \/
  (r = SQLITE_NOMATCH /\ ~ matches p ts s) \/
  (r = SQLITE_NOWILDCARDMATCH /\ forall s1 s2, s = s1 ++ s2 -> ~ matches p ts s2).

(** Concrete patterns: *)
Definition chars (s : string) : list Z := Z.of_nat ∘ Ascii.nat_of_ascii <$> String.list_ascii_of_string s.
Definition cstring (s : string) : bytes := chars s ++ [0].

Example glob1 : sqlite3_strglob (cstring "a*[b-dx]?z") (cstring "aQQcxz") = Done SQLITE_MATCH.
Proof. vm_compute. reflexivity. Qed.
Example glob2 : sqlite3_strglob (cstring "*[]^-]b") (cstring "aa-b") = Done SQLITE_MATCH.
Proof. vm_compute. reflexivity. Qed.
Example glob3 : tokens 20 globInfo 91 (chars "*[^]a-c-]b") = [TAny; TSet true [(93, 93); (97, 97); (97, 99); (45, 45)]; TLit 98].
Proof. reflexivity. Qed.
Example like1 : sqlite3_strlike (cstring "%oX\%%") (cstring "fOx%bar") 92 = Done SQLITE_MATCH.
Proof. vm_compute. reflexivity. Qed.
Example like2 : sqlite3_strlike (cstring "a%b%c") (cstring "aXbX") 0 = Done SQLITE_NOWILDCARDMATCH.
Proof. vm_compute. reflexivity. Qed.

(** U+0080 after a ["*"] matches the last byte of U+00C0. *)
Example like_u0080 :
  pattern_compare likeInfoNorm 0 ([37] ++ WRITE_UTF8 0x80 ++ [0]) (WRITE_UTF8 0xC0 ++ [0]) = Done SQLITE_MATCH.
Proof. vm_compute. reflexivity. Qed.

(** * Strings as lists of characters *)

Definition cstr (l : list Z) (g : bytes) : bytes := encode SQLITE_UTF8 l ++ 0 :: g.
Definition txt (l : list Z) : Prop := is_text l /\ no_zero l.

Lemma txt_cons c l : txt (c :: l) <-> (0 < c < 0x110000 /\ readable c = c) /\ txt l.
Proof.
  unfold txt, is_text, no_zero. rewrite !Forall_cons. split; [intros [[? ?] [? ?]]|intros [? [? ?]]]; repeat split; try tauto; try lia.
Qed.

Lemma txt_app l1 l2 : txt (l1 ++ l2) <-> txt l1 /\ txt l2.
Proof. unfold txt, is_text, no_zero. rewrite !Forall_app. tauto. Qed.

Lemma cstr_cons c l g : cstr (c :: l) g = WRITE_UTF8 c ++ cstr l g.
Proof. unfold cstr. rewrite encode_cons. by rewrite <- app_assoc. Qed.

Lemma cstr_starts l g : txt l -> starts_char (cstr l g).
Proof. intros [Ht _]. by apply text_zero_starts. Qed.

(** The first byte of a character. *)
Lemma write_head c : 0 < c < 0x110000 ->
  (c < 0x80 /\ WRITE_UTF8 c = [c]) \/ (0x80 <= c /\ exists b l, WRITE_UTF8 c = b :: l /\ 0xc0 <= b < 0x100 /\ Forall (fun x => 0x80 <= x) l).
Proof.
  intros Hc. unfold WRITE_UTF8.
  destruct (Z.ltb_spec c 0x80); [left|right; split; [lia|]].
  - split; [done|]. rewrite mask_ff, u8_id by (pose proof (Z.mod_pos_bound c 256); lia). by rewrite Z.mod_small by lia.
  - destruct (Z.ltb_spec c 0x800); [|destruct (Z.ltb_spec c 0x10000)]; eexists _, _; (split; [reflexivity|]).
    + rewrite mask_1f, mask_3f. split; [|repeat constructor]; arith.
    + rewrite mask_0f, !mask_3f. split; [|repeat constructor]; arith.
    + rewrite mask_07, !mask_3f. split; [|repeat constructor]; arith.
Qed.

Lemma cstr_ne l g : cstr l g <> [].
Proof. unfold cstr. by destruct (encode _ _). Qed.

Lemma Utf8Read_slow_cons c l g : txt (c :: l) -> sqlite3Utf8Read (cstr (c :: l) g) = Done (c, cstr l g).
Proof.
  intros [[Hc Hr] Ht]%txt_cons. rewrite cstr_cons.
  assert (READ_UTF8 (WRITE_UTF8 c ++ cstr l g) = Done (c, cstr l g)) as E.
  { rewrite read_write_utf8; [by rewrite Hr|lia|by apply cstr_starts]. }
  unfold sqlite3Utf8Read, READ_UTF8 in *. destruct (WRITE_UTF8 c ++ cstr l g) as [|b z]; [done|].
  destruct (0xc0 <=? b); [|done]. destruct (read_cont z _) as [x y]. injection E as <- ->.
  pose proof (cstr_ne l g). by destruct (cstr l g).
Qed.

Lemma Utf8Read_cons c l g : txt (c :: l) -> Utf8Read (cstr (c :: l) g) = Done (c, cstr l g).
Proof.
  intros Ht. pose proof (Utf8Read_slow_cons _ _ g Ht) as E. apply txt_cons in Ht as [[Hc _] _]. rewrite cstr_cons in *.
  unfold Utf8Read. destruct (write_head c Hc) as [[H ->]|(H & b & z & Ew & Hb & _)].
  - cbn [app]. by rewrite (proj2 (Z.ltb_lt c 0x80)).
  - rewrite Ew in *. cbn [app] in *. by rewrite (proj2 (Z.ltb_ge b 0x80)) by lia.
Qed.

Lemma Utf8Read_nil g : Utf8Read (cstr [] g) = Done (0, g).
Proof. done. Qed.

Lemma Utf8Read_slow_nil g : sqlite3Utf8Read (cstr [] g) = Done (0, g).
Proof. done. Qed.

Lemma deref_nil g : deref (cstr [] g) = Done 0.
Proof. done. Qed.

Lemma deref_cons c l g : txt (c :: l) ->
  exists b, deref (cstr (c :: l) g) = Done b /\ b <> 0 /\ (forall x, x < 0x80 -> (b =? x) = (c =? x)).
Proof.
  intros [[Hc _] _]%txt_cons. rewrite cstr_cons. destruct (write_head c Hc) as [[H ->]|(H & b & z & -> & Hb & _)].
  - exists c. split; [done|]. split; [lia|done].
  - exists b. split; [done|]. split; [lia|]. intros x Hx. by rewrite !(proj2 (Z.eqb_neq _ _)) by lia.
Qed.

Lemma skip_cons c l g : txt (c :: l) -> SQLITE_SKIP_UTF8 (cstr (c :: l) g) = Done (cstr l g).
Proof.
  intros [[Hc _] Ht]%txt_cons. rewrite cstr_cons. apply skip_write_utf8; [lia|by apply cstr_starts|apply cstr_ne].
Qed.

Lemma cstr_length c l g : (length (cstr l g) < length (cstr (c :: l) g))%nat.
Proof. rewrite cstr_cons, length_app. pose proof (write_utf8_length c). lia. Qed.

(** Each character is a byte at least. *)
Lemma cstr_count l g : (length l < length (cstr l g))%nat.
Proof.
  induction l as [|c l IH]; [cbn; lia|]. rewrite cstr_cons, length_app. pose proof (write_utf8_length c). simpl. lia.
Qed.

Lemma strcspn_high z rest stops : Forall (fun x => 0x80 <= x) z -> Forall (fun x => x < 0x80) stops ->
  strcspn (z ++ rest) stops = strcspn rest stops.
Proof.
  intros Hz Hs. induction Hz as [|b z Hb Hz IH]; [done|]. cbn [app strcspn].
  rewrite (proj2 (Z.eqb_neq b 0)) by lia. destruct (existsb (Z.eqb b) stops) eqn:E; [|exact IH].
  apply existsb_exists in E as (x & Hx & ->%Z.eqb_eq). rewrite List.Forall_forall in Hs. specialize (Hs x Hx). lia.
Qed.

(** [strcspn] stops at the first character of an ASCII set. *)
Lemma strcspn_cons c l g stops : txt (c :: l) -> Forall (fun x => x < 0x80) stops ->
  strcspn (cstr (c :: l) g) stops = if existsb (Z.eqb c) stops then Done (cstr (c :: l) g) else strcspn (cstr l g) stops.
Proof.
  intros [[Hc _] Ht]%txt_cons Hs. rewrite cstr_cons. destruct (write_head c Hc) as [[H ->]|(H & b & z & -> & Hb & Hz)].
  - cbn [app strcspn]. by rewrite (proj2 (Z.eqb_neq c 0)) by lia.
  - rewrite <- app_comm_cons. cbn [strcspn]. rewrite (proj2 (Z.eqb_neq b 0)) by lia.
    assert (forall x, 0x80 <= x -> existsb (Z.eqb x) stops = false) as Hno.
    { intros x Hx. apply not_true_iff_false. intros (y & Hy & ->%Z.eqb_eq)%existsb_exists.
      rewrite List.Forall_forall in Hs. specialize (Hs y Hy). lia. }
    rewrite !Hno by lia. by apply strcspn_high.
Qed.

(** * Matching *)

Section matching.
Variable p : compareInfo.

Lemma matches_any ts s1 s2 : matches p (TAny :: ts) s2 -> matches p (TAny :: ts) (s1 ++ s2).
Proof. intros (a & b & -> & H). exists (s1 ++ a), b. by rewrite app_assoc. Qed.

Lemma matches_any_nil ts s : matches p ts s -> matches p (TAny :: ts) s.
Proof. intros H. by exists [], s. Qed.

Lemma matches_any_any ts s : matches p (TAny :: TAny :: ts) s <-> matches p (TAny :: ts) s.
Proof.
  split; [|apply matches_any_nil]. intros (a & b & -> & H). by apply matches_any.
Qed.

Lemma matches_any_cons ts x s : matches p (TAny :: ts) (x :: s) <-> matches p ts (x :: s) \/ matches p (TAny :: ts) s.
Proof.
  split.
  - intros ([|y a] & b & E & H); [left; by rewrite E|]. right. injection E as -> ->. by exists a, b.
  - intros [H|(a & b & -> & H)]; [by apply matches_any_nil|]. by exists (x :: a), b.
Qed.

Lemma matches_any_end ts : matches p (TAny :: ts) [] <-> matches p ts [].
Proof.
  split; [|apply matches_any_nil]. intros (a & b & E & H). symmetry in E. apply app_nil in E as [-> ->]. done.
Qed.

Lemma matches_any_one ts s : matches p (TAny :: TOne :: ts) s <-> exists x s', s = x :: s' /\ matches p (TAny :: ts) s'.
Proof.
  split.
  - intros (a & b & -> & x & s' & -> & _ & H). destruct a as [|y a].
    + exists x, s'. split; [done|]. by apply matches_any_nil.
    + exists y, (a ++ x :: s'). split; [done|]. apply (matches_any _ a). rewrite matches_any_cons. right. by apply matches_any_nil.
  - intros (x & s' & -> & a & b & -> & H). revert x. induction a as [|y a IH]; intros x.
    + apply matches_any_nil. by exists x, b.
    + apply (matches_any _ [x]). apply IH.
Qed.

Definition single (t : token) : Prop := t <> TAny.

Lemma matches_single t ts s : single t -> matches p (t :: ts) s <-> exists x s', s = x :: s' /\ accepts p t x = true /\ matches p ts s'.
Proof. by destruct t. Qed.

(** Nothing matches when no suffix does. *)
Lemma result_any_fail ts s : ~ matches p (TAny :: ts) s -> result_ok p (TAny :: ts) s SQLITE_NOWILDCARDMATCH.
Proof. intros H. right. right. split; [done|]. intros s1 s2 -> Hm. by apply H, matches_any. Qed.

Lemma result_not_single t ts s : single t -> (forall x s', s = x :: s' -> accepts p t x = false) -> result_ok p (t :: ts) s SQLITE_NOMATCH.
Proof.
  intros Ht Hs. right. left. split; [done|]. rewrite matches_single by done. intros (x & s' & -> & Ha & _).
  by rewrite (Hs x s') in Ha.
Qed.

Lemma result_single t ts x s r : single t -> accepts p t x = true -> result_ok p ts s r -> result_ok p (t :: ts) (x :: s) r.
Proof.
  intros Ht Hx [[-> H]|[[-> H]|[-> H]]].
  - left. split; [done|]. rewrite matches_single by done. by exists x, s.
  - right. left. split; [done|]. rewrite matches_single by done. by intros (y & s' & [= <- <-] & _ & H').
  - right. right. split; [done|]. intros s1 s2 E. rewrite matches_single by done. intros (y & s' & -> & _ & H').
    destruct s1 as [|z s1]; cbn in E; injection E as -> ->; [by apply (H [] _ eq_refl)|].
    apply (H (s1 ++ [y]) s'); [|done]. by rewrite <- app_assoc.
Qed.

Lemma result_fail s r : r <> SQLITE_MATCH -> r = SQLITE_NOMATCH \/ r = SQLITE_NOWILDCARDMATCH -> result_ok p [TFail] s r.
Proof.
  intros _ [->| ->]; [right; left|right; right]; (split; [done|]); [|intros s1 s2 _]; by intros (x & s' & _ & H & _).
Qed.
(** *** The searches after a ["*"] *)

(** The results of a search: it never answers [SQLITE_NOMATCH]. *)
Definition search_ok (ts : list token) (s : list Z) (r : Z) : Prop :=
  result_ok p (TAny :: ts) s r /\ r <> SQLITE_NOMATCH.

Lemma search_end t ts : single t -> search_ok (t :: ts) [] SQLITE_NOWILDCARDMATCH.
Proof.
  intros Ht. split; [|done]. apply result_any_fail. rewrite matches_any_end, matches_single by done.
  by intros (x & s' & E & _).
Qed.

(** The rest does not match here: go on. *)
Lemma search_next ts x s r : ~ matches p ts (x :: s) -> search_ok ts s r -> search_ok ts (x :: s) r.
Proof.
  intros Hx [[[-> H]|[[-> H]|[-> H]]] Hr]; [|done|]; split; try done.
  - left. split; [done|]. rewrite matches_any_cons. by right.
  - apply result_any_fail. rewrite matches_any_cons. intros [H'|H']; [done|]. by apply (H [] s).
Qed.

(** The result of the rest ends the search. *)
Lemma search_stops t ts s r : single t -> result_ok p (t :: ts) s r -> r <> SQLITE_NOMATCH -> search_ok (t :: ts) s r.
Proof.
  intros Ht [[-> H]|[[-> H]|[-> H]]] Hr; [|done|]; split; try done.
  - left. split; [done|]. by apply matches_any_nil.
  - apply result_any_fail. intros (a & b & -> & H'). by apply (H a b).
Qed.

Context (gs : bytes) (rec : bytes -> outcome Z) (t : token) (ts : list token).
Hypothesis t_single : single t.

Lemma search_set_ok :
  (forall s, txt s -> exists r, rec (cstr s gs) = Done r /\ result_ok p (t :: ts) s r) ->
  forall s fuel, txt s -> (length s < fuel)%nat ->
  exists r, search_set rec fuel (cstr s gs) = Done r /\ search_ok (t :: ts) s r.
Proof.
  intros Hrec s. induction s as [|x s IH]; intros fuel Hs Hf; (destruct fuel as [|fuel]; [lia|]); cbn [search_set].
  - exists SQLITE_NOWILDCARDMATCH. split; [done|]. by apply search_end.
  - destruct (deref_cons x s gs Hs) as (b & -> & Hb & _). cbn [mbind outcome_bind].
    rewrite (proj2 (Z.eqb_neq b 0)) by done. destruct (Hrec _ Hs) as (r & -> & Hr). cbn [mbind outcome_bind].
    destruct (Z.eqb_spec r SQLITE_NOMATCH) as [->|Hne]; cbn [negb].
    + rewrite skip_cons by done. cbn [mbind outcome_bind].
      destruct (IH fuel) as (r' & -> & Hr'); [by apply txt_cons in Hs as [_ ?]|simpl in Hf; lia|].
      exists r'. split; [done|]. apply search_next; [|done]. by destruct Hr as [[? _]|[[_ ?]|[? _]]].
    + exists r. split; [done|]. by apply search_stops.
Qed.

Hypothesis rec_ok : forall s, txt s -> exists r, rec (cstr s gs) = Done r /\ result_ok p ts s r.

(** At a character the search stops at. *)
Lemma search_at x s r cont : txt (x :: s) -> accepts p t x = true -> rec (cstr s gs) = Done r -> result_ok p ts s r ->
  (exists r', cont = Done r' /\ search_ok (t :: ts) s r') ->
  exists r', (if negb (r =? SQLITE_NOMATCH) then Done r else cont) = Done r' /\ search_ok (t :: ts) (x :: s) r'.
Proof.
  intros Hx Ha Hrec Hr (r' & -> & Hr'). pose proof (result_single t ts x s r t_single Ha Hr) as Hr1.
  destruct (Z.eqb_spec r SQLITE_NOMATCH) as [->|Hne]; cbn [negb].
  - exists r'. split; [done|]. apply search_next; [|done]. by destruct Hr1 as [[? _]|[[_ ?]|[? _]]].
  - exists r. split; [done|]. by apply search_stops.
Qed.

Lemma search_pass x s r : accepts p t x = false -> search_ok (t :: ts) s r -> search_ok (t :: ts) (x :: s) r.
Proof.
  intros Ha. apply search_next. rewrite matches_single by done. intros (y & s' & [= <- <-] & Ha' & _). congruence.
Qed.

Lemma search_char_ok c : (forall x, 0 < x -> accepts p t x = (x =? c)) -> forall s fuel, txt s -> (length s < fuel)%nat ->
  exists r, search_char rec fuel c (cstr s gs) = Done r /\ search_ok (t :: ts) s r.
Proof.
  intros Hc s. induction s as [|x s IH]; intros fuel Hs Hf; (destruct fuel as [|fuel]; [lia|]); cbn [search_char].
  - exists SQLITE_NOWILDCARDMATCH. split; [done|]. by apply search_end.
  - rewrite Utf8Read_cons by done. cbn [mbind outcome_bind]. pose proof (proj1 (txt_cons _ _) Hs) as [[Hx _] Hs'].
    rewrite (proj2 (Z.eqb_neq x 0)) by lia. destruct (IH fuel) as (r' & Er & Hr'); [done|simpl in Hf; lia|].
    destruct (x =? c) eqn:E; cbn [negb].
    + destruct (rec_ok s Hs') as (r & Er' & Hr). rewrite Er'. cbn [mbind outcome_bind].
      apply search_at; try done; [by rewrite Hc by lia|]. by exists r'.
    + exists r'. split; [done|]. apply search_pass; [by rewrite Hc by lia|done].
Qed.

Lemma search_stop_ok stops : Forall (fun x => x < 0x80) stops ->
  (forall x, 0 < x -> accepts p t x = existsb (Z.eqb x) stops) -> forall s fuel, txt s -> (length s < fuel)%nat ->
  exists r, search_stop rec fuel stops (cstr s gs) = Done r /\ search_ok (t :: ts) s r.
Proof.
  intros Hst Hc s. induction s as [|x s IH]; intros fuel Hs Hf; (destruct fuel as [|fuel]; [lia|]).
  - exists SQLITE_NOWILDCARDMATCH. split; [done|]. by apply search_end.
  - pose proof (proj1 (txt_cons _ _) Hs) as [[Hx _] Hs'].
    destruct (existsb (Z.eqb x) stops) eqn:E.
    + cbn [search_stop]. rewrite strcspn_cons, E by done. cbn [mbind outcome_bind].
      assert (x < 0x80) as Hlt.
      { apply existsb_exists in E as (y & Hy & ->%Z.eqb_eq). rewrite List.Forall_forall in Hst. by apply Hst. }
      rewrite cstr_cons. destruct (write_head x Hx) as [[_ ->]|[? _]]; [|lia]. cbn [app].
      rewrite (proj2 (Z.eqb_neq x 0)) by lia.
      destruct (rec_ok s Hs') as (r & Er' & Hr). rewrite Er'. cbn [mbind outcome_bind].
      apply search_at; try done; [by rewrite Hc by lia|]. apply IH; [done|simpl in Hf; lia].
    + destruct (IH (S fuel)) as (r' & Er & Hr'); [done|simpl in Hf; lia|]. exists r'.
      split; [|apply search_pass; [by rewrite Hc by lia|done]]. rewrite <- Er. cbn [search_stop]. by rewrite strcspn_cons, E.
Qed.
End matching.

(** ** Sets *)

(** What is left after reading a character of [l], the terminator included. *)
Definition tail0 (l : list Z) (g : bytes) : bytes := match l with [] => g | _ :: l => cstr l g end.

Lemma read0 l g : txt l -> sqlite3Utf8Read (cstr l g) = Done (head0 l, tail0 l g).
Proof. destruct l; [done|]. apply Utf8Read_slow_cons. Qed.

Lemma txt_tail c l : txt (c :: l) -> txt l.
Proof. by intros [_ ?]%txt_cons. Qed.

Lemma deref_head l g : txt l -> exists b, deref (cstr l g) = Done b /\ (b =? 93) = (head0 l =? 93) /\ (b =? 0) = (head0 l =? 0).
Proof.
  intros Hl. destruct l as [|c l]; [by exists 0|]. destruct (deref_cons c l g Hl) as (b & E & _ & Hb).
  exists b. split; [done|]. split; apply Hb; lia.
Qed.

Definition in_ranges (x : Z) (rs : list (Z * Z)) : bool := existsb (fun '(a, b) => (a <=? x) && (x <=? b)) rs.

Lemma in_ranges_single x c rs : in_ranges x ((c, c) :: rs) = (x =? c) || in_ranges x rs.
Proof.
  cbn. f_equal. destruct (Z.leb_spec c x), (Z.leb_spec x c), (Z.eqb_spec x c); cbn; congruence || lia.
Qed.

Lemma parse_ranges_cons fuel prior c l : parse_ranges (S fuel) prior (c :: l) =
  if c =? 93 then Some ([], l)
  else if (c =? 45) && negb (head0 l =? 93) && negb (bool_decide (l = [])) && (if prior is Some _ then true else false) then
    '(rs, l') ← parse_ranges fuel None (tail l); Some ((default 0 prior, head0 l) :: rs, l')
  else '(rs, l') ← parse_ranges fuel (Some c) l; Some ((c, c) :: rs, l').
Proof.
  cbn [parse_ranges]. destruct (c =? 93); [done|]. destruct (c =? 45); [|done]. destruct prior as [a|]; [|by rewrite andb_false_r].
  destruct l as [|e l]; [done|]. cbn [head0]. by destruct (e =? 93).
Qed.

Lemma parse_ranges_length fuel : forall prior l rs l', parse_ranges fuel prior l = Some (rs, l') -> exists l0, l = l0 ++ l' /\ l0 <> [].
Proof.
  induction fuel as [|fuel IH]; intros prior l rs l'; [done|]. destruct l as [|c l]; [done|].
  rewrite parse_ranges_cons. destruct (c =? 93); [intros [= <- <-]; by exists [c]|].
  assert (forall l1 pre q, l = pre ++ l1 -> parse_ranges fuel q l1 ≫= (fun '(rs, l') => Some ((default 0 prior, head0 l) :: rs, l')) = Some (rs, l') \/
    parse_ranges fuel q l1 ≫= (fun '(rs, l') => Some ((c, c) :: rs, l')) = Some (rs, l') -> exists l0, c :: l = l0 ++ l' /\ l0 <> []) as Hgo.
  { intros l1 pre q -> H. destruct (parse_ranges fuel q l1) as [[rs1 l1']|] eqn:E; [|by destruct H].
    destruct (IH _ _ _ _ E) as (l0 & -> & _). exists (c :: pre ++ l0). split; [|done].
    destruct H as [[= _ ->]|[= _ ->]]; by rewrite <- app_comm_cons, <- app_assoc. }
  destruct (_ && _) eqn:Ec.
  - destruct l as [|e l]; [by rewrite !andb_false_r in Ec|]. intros H. apply (Hgo l [e] None); [done|by left].
  - intros H. apply (Hgo l [] (Some c)); [done|by right].
Qed.

(** The scan of a set against its parse. *)
Lemma scan_set_ok x g fuel : forall pfuel l seen prior,
  txt l -> (length l < fuel)%nat -> (length l <= pfuel)%nat -> (forall a, prior = Some a -> 0 < a) ->
  match parse_ranges pfuel prior l with
  | None => exists seen', scan_set fuel x (head0 l) seen (default 0 prior) (tail0 l g) = Done (seen', 0, g)
  | Some (rs, l') =>
      scan_set fuel x (head0 l) seen (default 0 prior) (tail0 l g) = Done (seen || in_ranges x rs, 93, cstr l' g)
  end.
Proof.
  induction fuel as [|fuel IH]; intros pfuel l seen prior Hl Hf Hp Hpr; [lia|].
  destruct l as [|c l].
  { destruct pfuel; cbn; by exists seen. }
  destruct pfuel as [|pfuel]; [simpl in Hp; lia|]. rewrite parse_ranges_cons. cbn [scan_set head0 tail0 length] in *.
  pose proof (txt_tail _ _ Hl) as Hl'. apply txt_cons in Hl as [[Hc _] _]. rewrite (proj2 (Z.eqb_neq c 0)) by lia. cbn [orb].
  destruct (Z.eqb_spec c 93) as [->|Hc93]; [by rewrite orb_false_r|].
  destruct (deref_head l g Hl') as (b & -> & E1 & E2). cbn [mbind outcome_bind]. rewrite E1, E2.
  assert ((c =? 45) && negb (head0 l =? 93) && negb (head0 l =? 0) && (0 <? default 0 prior) =
    (c =? 45) && negb (head0 l =? 93) && negb (bool_decide (l = [])) && (if prior is Some _ then true else false)) as ->.
  { f_equal; [f_equal|].
    - destruct l as [|e l]; [done|]. apply txt_cons in Hl' as [[He _] _]. cbn. by rewrite (proj2 (Z.eqb_neq e 0)) by lia.
    - destruct prior as [a|]; [|done]. cbn. apply Z.ltb_lt. by apply Hpr. }
  rewrite (read0 l g Hl'). cbn [mbind outcome_bind].
  destruct (_ && _) eqn:Ec.
  - destruct l as [|e l]; [by rewrite !andb_false_r in Ec|]. cbn [head0 tail0 tail length] in *.
    pose proof (txt_tail _ _ Hl') as Hl''. rewrite (read0 l g Hl''). cbn [mbind outcome_bind].
    specialize (IH pfuel l (if (default 0 prior <=? x) && (x <=? e) then true else seen) None Hl'' ltac:(lia) ltac:(lia) ltac:(done)).
    cbn [default] in IH. destruct (parse_ranges pfuel None l) as [[rs l']|]; cbn [mbind option_bind]; [|exact IH].
    etrans; [exact IH|]. cbn [in_ranges existsb]. do 3 f_equal. destruct (_ && _), seen; done.
  - specialize (IH pfuel l (if x =? c then true else seen) (Some c) Hl' ltac:(lia) ltac:(lia)).
    destruct (parse_ranges pfuel (Some c) l) as [[rs l']|]; cbn [mbind option_bind default] in *.
    + etrans; [apply IH; intros a [= <-]; lia|]. rewrite in_ranges_single. do 3 f_equal. by destruct (x =? c), seen.
    + apply IH. intros a [= <-]; lia.
Qed.

Lemma txt_tl l : txt l -> txt (tail l).
Proof. destruct l; [done|apply txt_tail]. Qed.

(** [compare_set] against the parse of the set. *)
Lemma compare_set_ok x s l gp gs : txt (x :: s) -> txt l ->
  compare_set (cstr l gp) (cstr (x :: s) gs) =
  match parse_set l with
  | None => Done None
  | Some (invert, rs, l') => Done (if xorb (in_ranges x rs) invert then Some (cstr l' gp, cstr s gs) else None)
  end.
Proof.
  intros Hs Hl. unfold compare_set, parse_set. rewrite Utf8Read_slow_cons by done. cbn [mbind outcome_bind].
  pose proof (proj1 (txt_cons _ _) Hs) as [[Hx _] _]. rewrite (proj2 (Z.eqb_neq x 0)) by lia.
  rewrite (read0 l gp Hl). cbn [mbind outcome_bind].
  set (invert := head0 l =? 94). set (l1 := if invert then tail l else l).
  assert (txt l1) as Hl1 by (unfold l1; destruct invert; [by apply txt_tl|done]).
  assert ((if invert then '(c2, zPattern) ← sqlite3Utf8Read (tail0 l gp); Done (true, c2, zPattern)
           else Done (false, head0 l, tail0 l gp)) = Done (invert, head0 l1, tail0 l1 gp)) as ->.
  { unfold l1. destruct invert eqn:E; [|done]. unfold invert in E. destruct l as [|c l]; [done|]. cbn [tail0 tail].
    by rewrite (read0 l gp) by (by apply txt_tail in Hl). }
  cbn [mbind outcome_bind]. set (first := head0 l1 =? 93). set (l2 := if first then tail l1 else l1).
  assert (txt l2) as Hl2 by (unfold l2; destruct first; [by apply txt_tl|done]).
  assert ((if first then '(c2', zPattern) ← sqlite3Utf8Read (tail0 l1 gp); Done (x =? 93, c2', zPattern)
           else Done (false, head0 l1, tail0 l1 gp)) = Done (first && (x =? 93), head0 l2, tail0 l2 gp)) as ->.
  { unfold l2. destruct first eqn:E; [|done]. unfold first in E. destruct l1 as [|c l1]; [done|]. cbn [tail0 tail].
    by rewrite (read0 l1 gp) by (by apply txt_tail in Hl1). }
  cbn [mbind outcome_bind].
  assert (length l2 < S (length (tail0 l2 gp)))%nat as Hlen.
  { destruct l2 as [|c l3]; [simpl; lia|]. cbn [tail0 length]. pose proof (cstr_count l3 gp). lia. }
  pose proof (scan_set_ok x gp _ (length l2) l2 (first && (x =? 93)) None Hl2 Hlen (Nat.le_refl _) ltac:(done)) as H.
  cbn [default] in H. destruct (parse_ranges (length l2) None l2) as [[rs l']|]; cbn [mbind option_bind].
  - rewrite H. cbn [mbind outcome_bind Z.eqb orb].
    assert (in_ranges x ((if first then [(93, 93)] else []) ++ rs) = first && (x =? 93) || in_ranges x rs) as ->.
    { destruct first; [|done]. change ([(93, 93)] ++ rs) with ((93, 93) :: rs). by rewrite in_ranges_single. }
    by destruct (xorb _ _).
  - destruct H as [seen' ->]. done.
Qed.

Lemma compare_set_end l gp gs : compare_set (cstr l gp) (cstr [] gs) = Done None.
Proof. done. Qed.

Lemma parse_set_suffix l invert rs l' : parse_set l = Some (invert, rs, l') -> exists l0, l = l0 ++ l'.
Proof.
  unfold parse_set. intros H.
  set (l1 := if head0 l =? 94 then tail l else l) in H. set (l2 := if head0 l1 =? 93 then tail l1 else l1) in H.
  assert (forall (t : bool) (q : list Z), exists l0, q = l0 ++ (if t then tail q else q)) as Htl
    by (intros [|] [|c q]; (by exists []) || by exists [c]).
  destruct (Htl (head0 l =? 94) l) as [a Ha]. destruct (Htl (head0 l1 =? 93) l1) as [b Hb]. fold l1 in Ha. fold l2 in Hb.
  destruct (parse_ranges _ None l2) as [[rs' l3]|] eqn:E; [|done]. injection H as _ _ ->.
  apply parse_ranges_length in E as (c & E & _). exists (a ++ b ++ c). by rewrite Ha, Hb, E, <- !app_assoc.
Qed.

(** ** patternCompare *)

Lemma tolower_ascii c x : 0 < c < 0x80 -> 0 < x < 0x80 ->
  (c =? x) || (sqlite3Tolower c =? sqlite3Tolower x) = existsb (Z.eqb x) [sqlite3Toupper c; sqlite3Tolower c] /\
  sqlite3Toupper c < 0x80 /\ sqlite3Tolower c < 0x80.
Proof.
  intros Hc Hx.
  assert (forallb (fun c => forallb (fun x => Bool.eqb ((c =? x) || (sqlite3Tolower c =? sqlite3Tolower x))
      (existsb (Z.eqb x) [sqlite3Toupper c; sqlite3Tolower c]) && (sqlite3Toupper c <? 0x80) && (sqlite3Tolower c <? 0x80))
      (seqZ 0 128)) (seqZ 0 128) = true) as H by (vm_compute; reflexivity).
  rewrite forallb_forall in H. specialize (H c). rewrite forallb_forall in H.
  specialize (H (proj1 (list_elem_of_In _ _) (proj2 (elem_of_seqZ 0 128 c) ltac:(lia))) x
    (proj1 (list_elem_of_In _ _) (proj2 (elem_of_seqZ 0 128 x) ltac:(lia)))).
  apply andb_prop in H as [[H1%Bool.eqb_prop H2%Z.ltb_lt]%andb_prop H3%Z.ltb_lt]. done.
Qed.

Section compare.
Variable p : compareInfo.
Variable other : Z.

(** The wildcards and the escape are told apart, and [matchOther] is an ASCII character
    when it opens a set. *)
Record info_ok : Prop := {
  all_one : matchOne p = matchAll p -> matchAll p = 0;
  all_other : matchAll p = other -> other = 0;
  one_other : matchOne p = other -> other = 0;
  set_ascii : matchSet p <> 0 -> other < 0x80
}.
Hypothesis Hinfo : info_ok.

Abbreviation tk l := (tokens (length l) p other l).

Lemma pattern_tokens_fuel n : forall m l, (length l <= n)%nat -> (length l <= m)%nat -> tokens n p other l = tokens m p other l.
Proof.
  induction n as [|n IH]; intros m l Hn Hm.
  { destruct l; [by destruct m|simpl in Hn; lia]. }
  destruct l as [|c l]; [by destruct m|]. destruct m as [|m]; [simpl in Hm; lia|]. cbn [tokens length] in *.
  destruct (c =? matchAll p); [f_equal; apply IH; lia|]. destruct (c =? other).
  - destruct (matchSet p =? 0).
    + destruct l as [|c2 l]; [done|]. cbn [length] in *. f_equal. apply IH; lia.
    + destruct (parse_set l) as [[[inv rs] l']|] eqn:E; [|done]. apply parse_set_suffix in E as [l0 ->].
      rewrite length_app in *. f_equal. apply IH; lia.
  - destruct (c =? matchOne p); f_equal; apply IH; lia.
Qed.

Lemma tk_cons c l : tk (c :: l) =
  if c =? matchAll p then TAny :: tk l
  else if c =? other then
    if matchSet p =? 0 then match l with [] => [TFail] | c :: l => TLit c :: tk l end
    else match parse_set l with None => [TFail] | Some (invert, rs, l) => TSet invert rs :: tk l end
  else if c =? matchOne p then TOne :: tk l
  else TLit c :: tk l.
Proof.
  cbn [tokens length]. destruct (c =? matchAll p); [done|]. destruct (c =? other); [|done]. destruct (matchSet p =? 0).
  - destruct l as [|c2 l]; [done|]. f_equal. apply pattern_tokens_fuel; simpl; lia.
  - destruct (parse_set l) as [[[inv rs] l']|] eqn:E; [|done]. apply parse_set_suffix in E as [l0 ->].
    f_equal. apply pattern_tokens_fuel; rewrite ?length_app; lia.
Qed.

Lemma skip_wildcards_ok gp gs fuel : matchAll p <> 0 -> forall l s, txt l -> txt s -> (length l < fuel)%nat ->
  (exists l0 l' s', skip_wildcards fuel p (cstr l gp) (cstr s gs) = Done (Some (head0 l', tail0 l' gp, cstr s' gs)) /\
    l = l0 ++ l' /\ txt s' /\ (matches p (TAny :: tk l) s <-> matches p (TAny :: tk l') s') /\
    (l' = [] \/ head0 l' <> matchAll p /\ head0 l' <> matchOne p)) \/
  (skip_wildcards fuel p (cstr l gp) (cstr s gs) = Done None /\ ~ matches p (TAny :: tk l) s).
Proof.
  intros Hall.
  induction fuel as [|fuel IH]; intros l s Hl Hs Hf; [lia|]. destruct l as [|c l].
  - left. exists [], [], s. cbn [skip_wildcards]. rewrite Utf8Read_nil. cbn [mbind outcome_bind].
    assert ((0 =? matchAll p) || (0 =? matchOne p) && negb (matchOne p =? 0) = false) as -> by lia.
    split; [done|split; [done|split; [done|split; [done|by left]]]].
  - cbn [skip_wildcards]. rewrite Utf8Read_cons by done. cbn [mbind outcome_bind].
    pose proof (proj1 (txt_cons _ _) Hl) as [[Hc _] Hl']. cbn [length] in Hf. rewrite tk_cons.
    destruct Hinfo as [I1 I2 I3 _].
    destruct (Z.eqb_spec c (matchAll p)) as [->|Hna]; cbn [orb].
    + rewrite (proj2 (Z.eqb_neq (matchAll p) (matchOne p))) by lia.
      destruct (IH l s Hl' Hs ltac:(lia)) as [(l0 & l' & s' & -> & -> & Hs' & Hiff & Hst)|[-> Hno]].
      * left. exists (matchAll p :: l0), l', s'. split; [done|split; [done|split; [done|split; [rewrite matches_any_any; exact Hiff|done]]]].
      * right. split; [done|]. by rewrite matches_any_any.
    + destruct (Z.eqb_spec c (matchOne p)) as [->|Hno]; cbn [andb].
      * rewrite (proj2 (Z.eqb_neq (matchOne p) 0)) by lia. cbn [negb]. rewrite (proj2 (Z.eqb_neq (matchOne p) other)) by lia.
        destruct s as [|x s]; [right|].
        { rewrite Utf8Read_slow_nil. split; [done|]. rewrite matches_any_one. by intros (x & s' & E & _). }
        rewrite Utf8Read_slow_cons by done. cbn [mbind outcome_bind]. pose proof (proj1 (txt_cons _ _) Hs) as [[Hx _] Hs'].
        rewrite (proj2 (Z.eqb_neq x 0)) by lia.
        assert (matches p (TAny :: TOne :: tk l) (x :: s) <-> matches p (TAny :: tk l) s) as Hm.
        { rewrite matches_any_one. split; [by intros (y & s' & [= <- <-] & H)|]. intros H. by exists x, s. }
        destruct (IH l s Hl' Hs' ltac:(lia)) as [(l0 & l' & s' & -> & -> & Hs1 & Hiff & Hst)|[-> Hno]].
        -- left. exists (matchOne p :: l0), l', s'. split; [done|split; [done|split; [done|split; [rewrite Hm; exact Hiff|done]]]].
        -- right. split; [done|]. by rewrite Hm.
      * left. exists [], (c :: l), s. rewrite tk_cons. rewrite (proj2 (Z.eqb_neq c (matchAll p))), (proj2 (Z.eqb_neq c (matchOne p))) by done.
        split; [done|split; [done|split; [done|split; [done|by right]]]].
Qed.

(** *** Single characters *)

Lemma compare_char_end c escaped : 0 < c -> compare_char p c 0 escaped = false.
Proof.
  intros Hc. unfold compare_char. rewrite (proj2 (Z.eqb_neq c 0)) by lia. rewrite andb_false_r, orb_false_r. cbn [orb].
  destruct (Z.ltb_spec c 0x80); [|by rewrite andb_false_r]. rewrite u8_id by lia.
  pose proof (tolower_neq_0 c ltac:(unfold is_byte; lia) ltac:(lia)) as Hn.
  change (sqlite3Tolower (u8 0)) with 0. rewrite (proj2 (Z.eqb_neq _ _)) by done. by rewrite andb_false_r.
Qed.

Lemma compare_char_lit c x escaped : 0 < c -> 0 < x -> (c = matchOne p -> escaped = true) ->
  compare_char p c x escaped = same_char p c x.
Proof.
  intros Hc Hx He. unfold compare_char, same_char.
  assert ((c =? matchOne p) && negb escaped = false) as ->.
  { destruct (Z.eqb_spec c (matchOne p)); [by rewrite He|done]. }
  cbn [andb]. rewrite orb_false_r. f_equal. destruct (noCase p); [|done]. cbn [andb].
  destruct (Z.ltb_spec c 0x80), (Z.ltb_spec x 0x80); rewrite ?andb_false_r; try done.
  rewrite !u8_id by lia. by rewrite !andb_true_r.
Qed.

Lemma compare_char_one x : 0 < x -> compare_char p (matchOne p) x false = true.
Proof. intros Hx. unfold compare_char. rewrite Z.eqb_refl. rewrite (proj2 (Z.eqb_neq x 0)) by lia. by rewrite orb_true_r. Qed.

(** The search for a literal. *)
Lemma search_lit gs rec c ts : 0 < c -> c <> 0x80 ->
  (forall s, txt s -> exists r, rec (cstr s gs) = Done r /\ result_ok p ts s r) ->
  forall s, txt s -> exists r, search p rec c (cstr s gs) = Done r /\ search_ok p (TLit c :: ts) s r.
Proof.
  intros Hc Hc80 Hrec s Hs. unfold search. assert (length s < S (length (cstr s gs)))%nat as Hf by (pose proof (cstr_count s gs); lia).
  destruct (Z.leb_spec c 0x80).
  - assert (c < 0x80) as Hlt by lia. destruct (noCase p) eqn:Hn.
    + destruct (tolower_ascii c c) as (_ & Hu & Hl); [lia|lia|]. rewrite u8_id by lia.
      apply search_stop_ok; try done; [by repeat constructor|]. intros x Hx. cbn [accepts]. unfold same_char. rewrite Hn.
      rewrite (proj2 (Z.ltb_lt c 0x80)) by lia. cbn [andb]. destruct (Z.ltb_spec x 0x80).
      * cbn [andb]. by apply tolower_ascii.
      * cbn [andb existsb]. rewrite !(proj2 (Z.eqb_neq _ _)) by lia. done.
    + apply search_stop_ok; try done; [by repeat constructor|]. intros x Hx. cbn [accepts existsb]. unfold same_char. rewrite Hn.
      rewrite !orb_false_r. apply Z.eqb_sym.
  - apply search_char_ok; try done. intros x Hx. cbn [accepts]. unfold same_char. rewrite (proj2 (Z.ltb_ge c 0x80)) by lia.
    rewrite andb_false_r. cbn [andb]. rewrite orb_false_r. apply Z.eqb_sym.
Qed.
(** From the result of a search after the run of wildcards to that of the whole. *)
Lemma result_of_search ts ts' s s' (o : outcome Z) :
  (matches p (TAny :: ts) s <-> matches p (TAny :: ts') s') -> (exists r, o = Done r /\ search_ok p ts' s' r) ->
  exists r, o = Done r /\ result_ok p (TAny :: ts) s r.
Proof.
  intros Hiff (r & -> & [[-> H]|[[-> H]|[-> H]]] & Hr); [|done|]; eexists; (split; [done|]).
  - left. split; [done|]. by apply Hiff.
  - apply result_any_fail. rewrite Hiff. by apply (H [] s').
Qed.

Definition good_rec (fuel : nat) (gp gs : bytes) : Prop := forall l s zE,
  txt l -> txt s -> 0x80 ∉ l -> (length (cstr l gp) < fuel)%nat ->
  (forall n, zE = Some n -> (length (cstr l gp) <= n)%nat) ->
  exists r, patternCompare fuel p other zE (cstr l gp) (cstr s gs) = Done r /\ result_ok p (tk l) s r.

(** The part of the body for a ["*"]. *)
Lemma star_ok fuel gp gs l s : matchAll p <> 0 -> good_rec fuel gp gs -> txt l -> txt s -> 0x80 ∉ l ->
  (length (cstr l gp) < fuel)%nat ->
  exists r, (r ← skip_wildcards (S (length (cstr l gp))) p (cstr l gp) (cstr s gs);
    match r with
    | None => Done SQLITE_NOWILDCARDMATCH
    | Some (c, zPattern, zString) =>
        if c =? 0 then Done SQLITE_MATCH
        else if c =? other then
          if matchSet p =? 0 then
            '(c, zPattern) ← sqlite3Utf8Read zPattern;
            if c =? 0 then Done SQLITE_NOWILDCARDMATCH
            else search p (patternCompare fuel p other None zPattern) c zString
          else search_set (patternCompare fuel p other None (c :: zPattern)) (S (length zString)) zString
        else search p (patternCompare fuel p other None zPattern) c zString
    end) = Done r /\ result_ok p (TAny :: tk l) s r.
Proof.
  intros Hall Hrec Hl Hs H80 Hf. pose proof (cstr_count l gp) as Hcnt.
  destruct (skip_wildcards_ok gp gs (S (length (cstr l gp))) Hall l s Hl Hs ltac:(lia)) as [(l0 & l' & s' & -> & El & Hs' & Hiff & Hst)|[-> Hno]];
    cbn [mbind outcome_bind]; [|eexists; split; [done|]; by apply result_any_fail].
  assert (txt l') as Hl' by (rewrite El in Hl; by apply txt_app in Hl as [_ ?]).
  assert (length (cstr l' gp) <= length (cstr l gp))%nat as Hlen.
  { rewrite El. clear. induction l0 as [|c l0 IH]; [done|]. pose proof (cstr_length c (l0 ++ l') gp). cbn [app] in *. lia. }
  assert (0x80 ∉ l') as H80' by set_solver.
  destruct l' as [|c l']; cbn [head0 tail0].
  { eexists. split; [done|]. left. split; [done|]. apply Hiff. by exists s', []; rewrite app_nil_r. }
  destruct Hst as [|[Hna Hno]]; [done|]. cbn [head0] in *. pose proof (proj1 (txt_cons _ _) Hl') as [[Hc _] Hl'']. 
  rewrite (proj2 (Z.eqb_neq c 0)) by lia. apply not_elem_of_cons in H80' as [Hc80 H80'].
  pose proof (cstr_length c l' gp) as Hlc.
  assert (forall l2, txt l2 -> 0x80 ∉ l2 -> (length (cstr l2 gp) < fuel)%nat -> forall s2, txt s2 ->
    exists r, patternCompare fuel p other None (cstr l2 gp) (cstr s2 gs) = Done r /\ result_ok p (tk l2) s2 r) as Hrec'
    by (intros l2 ? ? ? s2 ?; by apply Hrec).
  pose proof (tk_cons c l') as Etk. rewrite (proj2 (Z.eqb_neq c (matchAll p))), (proj2 (Z.eqb_neq c (matchOne p))) in Etk by done.
  rewrite Etk in Hiff. destruct (Z.eqb_spec c other) as [->|Hco].
  - destruct (Z.eqb_spec (matchSet p) 0) as [Hset|Hset].
    + rewrite (read0 l' gp Hl''). cbn [mbind outcome_bind]. destruct l' as [|c' l']; cbn [head0 tail0].
      * eexists. split; [done|]. apply result_any_fail. rewrite Hiff. by intros (a & b & _ & x & s2 & _ & H & _).
      * pose proof (proj1 (txt_cons _ _) Hl'') as [[Hc' _] Hl3]. rewrite (proj2 (Z.eqb_neq c' 0)) by lia.
        apply not_elem_of_cons in H80' as [Hc80' H80']. pose proof (cstr_length c' l' gp).
        eapply result_of_search; [exact Hiff|]. apply search_lit; try done; [lia|]. apply Hrec'; try done. lia.
    + eapply result_of_search; [exact Hiff|].
      assert (other :: cstr l' gp = cstr (other :: l') gp) as ->.
      { rewrite cstr_cons. destruct (write_head other Hc) as [[_ ->]|[? _]]; [done|]. pose proof (set_ascii Hinfo Hset). lia. }
      specialize (Hrec' (other :: l') Hl' ltac:(set_solver) ltac:(lia)). rewrite Etk in Hrec'.
      pose proof (cstr_count s' gs).
      destruct (parse_set l') as [[[inv rs] l3]|]; apply search_set_ok; try done; lia.
  - eapply result_of_search; [exact Hiff|]. apply search_lit; try done; [lia|]. apply Hrec'; try done. lia.
Qed.

(** The comparison of one character. *)
Lemma compare_ok fuel gp gs l s c t zE escaped : good_rec fuel gp gs -> txt l -> txt s -> 0x80 ∉ l -> (length (cstr l gp) < fuel)%nat ->
  (forall n, zE = Some n -> (length (cstr l gp) <= n)%nat) -> 0 < c -> single t ->
  (forall x, 0 < x -> compare_char p c x escaped = accepts p t x) ->
  exists r, ('(c2, zString) ← Utf8Read (cstr s gs);
    if compare_char p c c2 escaped then patternCompare fuel p other zE (cstr l gp) zString else Done SQLITE_NOMATCH) = Done r /\
    result_ok p (t :: tk l) s r.
Proof.
  intros Hrec Hl Hs H80 Hf HzE Hc Ht Hacc. destruct s as [|x s].
  - rewrite Utf8Read_nil. cbn [mbind outcome_bind]. rewrite compare_char_end by done. eexists. split; [done|].
    by apply result_not_single.
  - rewrite Utf8Read_cons by done. cbn [mbind outcome_bind]. pose proof (proj1 (txt_cons _ _) Hs) as [[Hx _] Hs'].
    rewrite Hacc by lia. destruct (accepts p t x) eqn:E.
    + destruct (Hrec l s zE Hl Hs' H80 Hf HzE) as (r & -> & Hr). exists r. split; [done|]. by apply result_single.
    + eexists. split; [done|]. apply result_not_single; [done|]. by intros y s' [= <- <-].
Qed.

Lemma patternCompare_ok gp gs fuel : good_rec fuel gp gs.
Proof.
  induction fuel as [|fuel IH]; intros l s zE Hl Hs H80 Hf HzE; [lia|]. cbn [patternCompare].
  destruct l as [|c l].
  { rewrite Utf8Read_nil. cbn [mbind outcome_bind Z.eqb tokens length]. destruct s as [|x s].
    - eexists. split; [done|]. by left.
    - destruct (deref_cons x s gs Hs) as (b & -> & Hb & _). cbn [mbind outcome_bind]. rewrite (proj2 (Z.eqb_neq b 0)) by done.
      eexists. split; [done|]. right. left. by split. }
  rewrite Utf8Read_cons by done. cbn [mbind outcome_bind]. pose proof (proj1 (txt_cons _ _) Hl) as [[Hc _] Hl'].
  apply not_elem_of_cons in H80 as [Hc80 H80]. pose proof (cstr_length c l gp) as Hlc.
  rewrite (proj2 (Z.eqb_neq c 0)) by lia. rewrite tk_cons.
  assert (forall n, zE = Some n -> (length (cstr l gp) <= n)%nat) as HzE' by (intros n Hn; specialize (HzE n Hn); lia).
  assert (bool_decide (zE = Some (length (cstr l gp))) = false) as Hesc.
  { apply bool_decide_eq_false. intros Hn. specialize (HzE _ Hn). lia. }
  destruct (Z.eqb_spec c (matchAll p)) as [->|Hna]; [apply star_ok; done || lia|].
  destruct (Z.eqb_spec c other) as [->|Hco].
  - destruct (matchSet p =? 0).
    + rewrite (read0 l gp Hl'). cbn [mbind outcome_bind]. destruct l as [|c' l]; cbn [head0 tail0].
      * eexists. split; [done|]. apply result_fail; [done|by left].
      * pose proof (proj1 (txt_cons _ _) Hl') as [[Hc' _] Hl'']. rewrite (proj2 (Z.eqb_neq c' 0)) by lia.
        apply not_elem_of_cons in H80 as [Hc80' H80']. pose proof (cstr_length c' l gp).
        rewrite (bool_decide_eq_true_2 (Some (length (cstr l gp)) = _)) by done.
        apply compare_ok; try done; [lia|by intros n [= <-]|lia|].
        intros x Hx. apply compare_char_lit; [lia|done|done].
    + destruct s as [|x s].
      { rewrite compare_set_end. cbn [mbind outcome_bind]. eexists. split; [done|].
        destruct (parse_set l) as [[[inv rs] l']|]; by apply result_not_single. }
      rewrite compare_set_ok by done. pose proof (proj1 (txt_cons _ _) Hs) as [_ Hs'].
      destruct (parse_set l) as [[[inv rs] l']|] eqn:E; cbn [mbind outcome_bind].
      * apply parse_set_suffix in E as [l0 ->]. apply txt_app in Hl' as [_ Hl'].
        assert (length (cstr l' gp) <= length (cstr (l0 ++ l') gp))%nat as Hlen.
        { clear. induction l0 as [|c l0 IH]; [done|]. pose proof (cstr_length c (l0 ++ l') gp). cbn [app] in *. lia. }
        destruct (xorb (in_ranges x rs) inv) eqn:Ex; cbn [mbind outcome_bind].
        -- destruct (IH l' s zE) as (r & -> & Hr); [done|done|set_solver|lia|intros n Hn; specialize (HzE' n Hn); lia|].
           exists r. split; [done|]. by apply result_single.
        -- eexists. split; [done|]. apply result_not_single; [done|]. by intros y s' [= <- <-].
      * eexists. split; [done|]. apply result_fail; [done|by left].
  - rewrite Hesc. destruct (Z.eqb_spec c (matchOne p)) as [->|Hno].
    + apply compare_ok; try done; [lia|lia|]. intros x Hx. by apply compare_char_one.
    + apply compare_ok; try done; [lia|lia|]. intros x Hx. apply compare_char_lit; [lia|done|done].
Qed.

Lemma pattern_compare_ok l s gp gs :
  txt l -> txt s -> 0x80 ∉ l ->
  exists r, pattern_compare p other (cstr l gp) (cstr s gs) = Done r /\ result_ok p (tk l) s r.
Proof. intros Hl Hs H80. apply patternCompare_ok; try done. lia. Qed.
End compare.

(** C34. [patternCompare] decides its pattern.  For a pattern and a string that are valid
    UTF-8 for characters other than U+FFFE and U+FFFF (which the reader turns into U+FFFD)
    and without zero bytes inside ([txt]), the pattern without U+0080, it returns, never reads past a
    terminator, and answers [SQLITE_MATCH] exactly when the string matches the tokens of the
    pattern.  Its backtracking stops at the first [SQLITE_NOWILDCARDMATCH], which is right: no
    suffix of the string matches then. *)
Theorem patternCompare_correct p other l s gp gs :
  info_ok p other -> txt l -> txt s -> 0x80 ∉ l ->
  exists r, pattern_compare p other (cstr l gp) (cstr s gs) = Done r /\
    result_ok p (tokens (length l) p other l) s r.
Proof. intros Hi. by apply pattern_compare_ok. Qed.

(** ** The operators *)

Lemma result_match p ts s r : result_ok p ts s r -> (r =? SQLITE_MATCH) = true <-> matches p ts s.
Proof.
  intros [[-> H]|[[-> H]|[-> H]]]; (split; [try done|intros H']); try done.
  by destruct (H [] s).
Qed.

Lemma charlen_txt e g : txt e -> sqlite3Utf8CharLen (cstr e g) (-1) = Done (len e).
Proof.
  intros [He Hn]. unfold sqlite3Utf8CharLen. cbn [Z.leb Z.compare].
  pose proof (charlen_text g [] e ltac:(by rewrite app_nil_r) Hn (S (length (cstr e g))) None 0) as H.
  rewrite app_nil_r in H. apply H; [|done]. unfold cstr. rewrite length_app. simpl. lia.
Qed.

Lemma info_ok_base info : info ∈ [globInfo; likeInfoNorm; likeInfoAlt] -> info_ok info (matchSet info).
Proof.
  intros H%list_elem_of_In. cbn in H. destruct H as [<-|[<-|[<-|[]]]]; by split.
Qed.

Lemma info_ok_escape info e : info ∈ [likeInfoNorm; likeInfoAlt] -> 0 < e -> info_ok (escapeInfo info e) e.
Proof.
  intros H%list_elem_of_In He. cbn in H.
  destruct H as [<-|[<-|[]]]; (destruct (Z.eqb_spec e 37) as [->|]; [by split|]; destruct (Z.eqb_spec e 95) as [->|]; [by split|]);
    unfold escapeInfo; cbn [likeInfoNorm likeInfoAlt matchAll matchOne matchSet noCase];
    rewrite !(proj2 (Z.eqb_neq _ _)) by done; split; cbn; done || lia.
Qed.

(** The LIKE and GLOB operators.  For any valid UTF-8 arguments with a pattern without
    U+0080, [likeFunc] rejects a pattern longer than the limit and an ESCAPE text that is
    not one character, and otherwise tells whether the string matches the tokens of the
    pattern; the escape character takes precedence over the wildcard it may be. *)
Theorem likeFunc_correct limit info l s gp gs (esc : option (list Z)) ge :
  info ∈ [likeInfoNorm; likeInfoAlt] \/ (info = globInfo /\ esc = None) ->
  txt l -> txt s -> (forall e, esc = Some e -> txt e) -> 0x80 ∉ l ->
  let nPat := len (encode SQLITE_UTF8 l) in
  let result := likeFunc limit info nPat (Some (cstr l gp)) (Some (cstr s gs)) (option_map (fun e => Some (cstr e ge)) esc) in
  let decides info other := exists b, result = Done (result_int b) /\
    (b = true <-> matches info (tokens (length l) info other l) s) in
  if limit <? nPat then result = Done (result_error "LIKE or GLOB pattern too complex")
  else match esc with
  | None => decides info (matchSet info)
  | Some [e] => decides (escapeInfo info e) e
  | Some _ => result = Done (result_error "ESCAPE expression must be a single character")
  end.
Proof.
  intros Hinfo Hl Hs Hesc H80 nPat. unfold likeFunc. destruct (limit <? nPat); [done|].
  assert (forall info other, info_ok info other -> exists b,
    (r ← pattern_compare info other (cstr l gp) (cstr s gs); Done (result_int (r =? SQLITE_MATCH))) = Done (result_int b) /\
    (b = true <-> matches info (tokens (length l) info other l) s)) as Hrun.
  { intros i o Hi. destruct (pattern_compare_ok i o Hi l s gp gs Hl Hs H80) as (r & -> & Hr).
    exists (r =? SQLITE_MATCH). split; [done|]. by apply result_match. }
  destruct esc as [e|]; cbn [option_map].
  - specialize (Hesc e eq_refl). rewrite charlen_txt by done. cbn [mbind outcome_bind].
    destruct e as [|c [|c' e]]; cbn [length]; [done| |].
    + cbn [Z.of_nat Z.eqb negb Pos.of_succ_nat Pos.eqb]. rewrite Utf8Read_slow_cons by done. cbn [mbind outcome_bind].
      apply Hrun, info_ok_escape; [by destruct Hinfo as [?|[_ ?]]|]. apply txt_cons in Hesc as [[? _] _]. lia.
    + rewrite (proj2 (Z.eqb_neq _ 1)) by lia. done.
  - apply Hrun, info_ok_base. destruct Hinfo as [H|[-> _]]; [|by left]. by right.
Qed.

Lemma txt_forallb l :
  forallb (fun c => (0 <? c) && (c <? 0x110000) && (readable c =? c)) l = true -> txt l.
Proof.
  intros H. induction l as [|c l IH]; [by split; constructor|]. cbn in H.
  apply andb_prop in H as [[[H1%Z.ltb_lt H2%Z.ltb_lt]%andb_prop H3%Z.eqb_eq]%andb_prop H4]. apply txt_cons. auto.
Qed.

Lemma no_u0080 l : forallb (fun c => negb (c =? 0x80)) l = true -> 0x80 ∉ l.
Proof.
  rewrite forallb_forall. intros H Hin%list_elem_of_In%H. done.
Qed.

Lemma patternCompare_correct_witness :
  exists r, pattern_compare globInfo 91 (cstr (chars "a*[b-d]") []) (cstr (chars "abc") []) = Done r /\
    result_ok globInfo [TLit 97; TAny; TSet false [(98, 98); (98, 100)]] (chars "abc") r.
Proof.
  apply (patternCompare_correct globInfo 91 (chars "a*[b-d]")).
  - by split.
  - by apply txt_forallb.
  - by apply txt_forallb.
  - by apply no_u0080.
Defined.

Lemma likeFunc_correct_witness :
  exists b, likeFunc 50000 likeInfoNorm 4 (Some (cstr (chars "A%%b") [])) (Some (cstr (chars "a%B") [])) (Some (Some (cstr [37] []))) =
    Done (result_int b) /\ (b = true <-> matches (escapeInfo likeInfoNorm 37) [TLit 65; TLit 37; TLit 98] (chars "a%B")).
Proof.
  apply (likeFunc_correct 50000 likeInfoNorm (chars "A%%b") (chars "a%B") [] [] (Some [37]) []).
  - left. by left.
  - by apply txt_forallb.
  - by apply txt_forallb.
  - intros e [= <-]. by apply txt_forallb.
  - by apply no_u0080.
Defined.
