(* ===== verification/ByteMem.v ===== *)
(** * ByteMem: a buffer of bytes with checked access

    A buffer is the list of its bytes; reading or writing outside it is undefined.  The
    big-endian accessors [get2byte], [put2byte] and [get2byteNotZero] of SQLite's b-tree
    (src/src/db/sqlite3/core/sqlite3.c, btreeInt.h), and [memset], [memcpy], [memmove].
    The lemmas view a buffer as a function of the index: what an access changes is stated
    by [same_outside]. *)

From S2P Require Import Prelude CType.

Definition rd (d : bytes) (i : Z) : outcome Z :=
  if (0 <=? i) && (i <? len d) then Done d.[i] else UB.

Definition wr (d : bytes) (i v : Z) : outcome bytes :=
  if (0 <=? i) && (i <? len d) then Done (<[Z.to_nat i := v]> d) else UB.

Definition get2byte (d : bytes) (x : Z) : outcome Z :=
  a ← rd d x; b ← rd d (x + 1); Done ((a << 8) .| b).

Definition put2byte (d : bytes) (p v : Z) : outcome bytes :=
  d ← wr d p (u8 (v >> 8)); wr d (p + 1) (u8 v).

(** [(((((int)get2byte(X))-1)&0xffff)+1)] *)
Definition get2byteNotZero (d : bytes) (x : Z) : outcome Z :=
  a ← get2byte d x; Done (((a - 1) .& 0xffff) + 1).

Definition memset (d : bytes) (p c n : Z) : outcome bytes :=
  if (n <? 0) then UB else match blk_write d p (replicate (Z.to_nat n) c) with Some d => Done d | None => UB end.

(** From the buffer [s], which may be [d] itself, as [memmove] allows. *)
Definition memcpy (d : bytes) (p : Z) (s : bytes) (q n : Z) : outcome bytes :=
  match blk_read s q n with
  | None => UB
  | Some l => match blk_write d p l with Some d => Done d | None => UB end
  end.
Definition memmove (d : bytes) (p q n : Z) : outcome bytes := memcpy d p d q n.

(** * Lemmas *)

(** The value of two bytes. *)
Definition g2 (d : bytes) (x : Z) : Z := d.[x] * 256 + d.[x + 1].

(** [d'] is [d] but for the bytes from [a] up to [b]. *)
Definition same_outside (d d' : bytes) (a b : Z) : Prop :=
  length d' = length d /\ bytes_ok d' /\ forall j, 0 <= j -> ~ (a <= j < b) -> d'.[j] = d.[j].

Lemma ld_ok (d : bytes) i : bytes_ok d -> 0 <= d.[i] < 256.
Proof. intros Hd. by apply (ld_is_byte d i). Qed.

Lemma g2_range d x : bytes_ok d -> 0 <= g2 d x < 65536.
Proof. intros Hd. unfold g2. pose proof (ld_ok d x Hd). pose proof (ld_ok d (x + 1) Hd). lia. Qed.

Lemma rd_ok d i : 0 <= i < len d -> rd d i = Done d.[i].
Proof. intros Hi. unfold rd. by rewrite (proj2 (Z.leb_le _ _)), (proj2 (Z.ltb_lt _ _)) by lia. Qed.

Lemma ld_insert (d : bytes) i v j : 0 <= i < len d -> 0 <= j -> (<[Z.to_nat i := v]> d).[j] = if decide (i = j) then v else d.[j].
Proof.
  intros Hi Hj. unfold ld. rewrite !nth_lookup. case_decide as E.
  - subst. by rewrite list_lookup_insert_eq by lia.
  - by rewrite list_lookup_insert_ne by lia.
Qed.

Lemma wr_ok d i v : bytes_ok d -> is_byte v -> 0 <= i < len d ->
  exists d', wr d i v = Done d' /\ same_outside d d' i (i + 1) /\ d'.[i] = v.
Proof.
  intros Hd Hv Hi. unfold wr. rewrite (proj2 (Z.leb_le _ _)), (proj2 (Z.ltb_lt _ _)) by lia.
  eexists. split; [done|]. split; [split; [|split]|].
  - by rewrite length_insert.
  - by apply Forall_insert.
  - intros j Hj Hout. rewrite ld_insert by done. rewrite decide_False by lia. done.
  - rewrite ld_insert by lia. by rewrite decide_True.
Qed.

Lemma get2byte_ok d x : bytes_ok d -> 0 <= x -> x + 1 < len d -> get2byte d x = Done (g2 d x).
Proof.
  intros Hd Hx Hl. unfold get2byte. rewrite !rd_ok by lia. cbn [mbind outcome_bind]. f_equal.
  pose proof (ld_ok d (x + 1) Hd). unfold g2.
  rewrite shl_lor_add by lia. done.
Qed.

Lemma same_outside_trans d d1 d2 a b : same_outside d d1 a b -> same_outside d1 d2 a b -> same_outside d d2 a b.
Proof. intros (L1 & B1 & H1) (L2 & B2 & H2). split; [congruence|]. split; [done|]. intros j ? ?. by rewrite H2, H1. Qed.

Lemma same_outside_weaken d d' a b a' b' : same_outside d d' a b -> a' <= a -> b <= b' -> same_outside d d' a' b'.
Proof. intros (L & B & H) ? ?. split; [done|]. split; [done|]. intros j ? ?. apply H; lia. Qed.

Lemma same_outside_refl d a b : bytes_ok d -> same_outside d d a b.
Proof. done. Qed.

Lemma put2byte_ok d x v : bytes_ok d -> 0 <= x -> x + 1 < len d ->
  exists d', put2byte d x v = Done d' /\ same_outside d d' x (x + 2) /\ g2 d' x = v mod 65536.
Proof.
  intros Hd Hx Hl. unfold put2byte.
  destruct (wr_ok d x (u8 (v >> 8)) Hd) as (d1 & -> & (L1 & B1 & H1) & E1); [apply u8_range|lia|]. cbn [mbind outcome_bind].
  destruct (wr_ok d1 (x + 1) (u8 v) B1) as (d2 & -> & (L2 & B2 & H2) & E2); [apply u8_range|lia|].
  exists d2. split; [done|]. split; [split; [congruence|split; [done|]]|].
  - intros j ? ?. rewrite H2, H1 by lia. done.
  - unfold g2. rewrite E2, H2, E1 by lia. unfold u8. rewrite Z.shiftr_div_pow2 by lia.
    change (2 ^ 8) with 256. Z.to_euclidean_division_equations. lia.
Qed.

Lemma get2byteNotZero_ok d x : bytes_ok d -> 0 <= x -> x + 1 < len d ->
  get2byteNotZero d x = Done (if g2 d x =? 0 then 65536 else g2 d x).
Proof.
  intros Hd Hx Hl. unfold get2byteNotZero. rewrite get2byte_ok by done. cbn [mbind outcome_bind]. f_equal.
  pose proof (g2_range d x Hd). change 0xffff with (Z.ones 16). rewrite Z.land_ones by lia. change (2 ^ 16) with 65536.
  destruct (Z.eqb_spec (g2 d x) 0) as [->|]; [done|]. rewrite Z.mod_small by lia. lia.
Qed.

Lemma memset_ok d p c n : bytes_ok d -> is_byte c -> 0 <= p -> 0 <= n -> p + n <= len d ->
  exists d', memset d p c n = Done d' /\ same_outside d d' p (p + n).
Proof.
  intros Hd Hc Hp Hn Hl. unfold memset. rewrite (proj2 (Z.ltb_ge _ _)) by lia.
  rewrite blk_write_Some by (rewrite ?length_replicate; lia). eexists. split; [done|].
  rewrite length_replicate. split; [|split].
  - rewrite !length_app, length_take, length_replicate, length_drop. lia.
  - apply Forall_app. split; [by apply Forall_take|]. apply Forall_app. split; [by apply Forall_replicate|by apply Forall_drop].
  - intros j Hj Hout. unfold ld. rewrite !nth_lookup. destruct (Z.lt_ge_cases j p).
    + rewrite lookup_app_l by (rewrite length_take; lia). by rewrite lookup_take_lt by lia.
    + rewrite lookup_app_r by (rewrite length_take; lia). rewrite lookup_app_r by (rewrite length_take, length_replicate; lia).
      rewrite lookup_drop, length_take, length_replicate. do 2 f_equal. lia.
Qed.

Lemma memset_fills d p c n d' : 0 <= p -> 0 <= n -> p + n <= len d -> memset d p c n = Done d' ->
  forall j, p <= j < p + n -> d'.[j] = c.
Proof.
  intros Hp Hn Hl. unfold memset. rewrite (proj2 (Z.ltb_ge _ _)) by lia.
  rewrite blk_write_Some by (rewrite ?length_replicate; lia). intros [= <-] j Hj. unfold ld. rewrite nth_lookup.
  rewrite lookup_app_r, lookup_app_l by (rewrite ?length_take, ?length_replicate; lia). rewrite length_take.
  by rewrite lookup_replicate_2 by lia.
Qed.

(** The bytes [memcpy] writes are those of the source. *)
Lemma memcpy_ok d p s q n : bytes_ok d -> bytes_ok s -> 0 <= p -> 0 <= q -> 0 <= n -> p + n <= len d -> q + n <= len s ->
  exists d', memcpy d p s q n = Done d' /\ same_outside d d' p (p + n) /\ forall j, 0 <= j < n -> d'.[p + j] = s.[q + j].
Proof.
  intros Hd Hs Hp Hq Hn Hl Hl'. unfold memcpy. rewrite blk_read_Some by lia.
  assert (length (take (Z.to_nat n) (drop (Z.to_nat q) s)) = Z.to_nat n) as El by (rewrite length_take, length_drop; lia).
  rewrite blk_write_Some by lia. eexists. split; [done|]. rewrite El. split; [split; [|split]|].
  - rewrite !length_app, El, length_take, length_drop. lia.
  - apply Forall_app. split; [by apply Forall_take|]. apply Forall_app. split; [by apply Forall_take, Forall_drop|by apply Forall_drop].
  - intros j Hj Hout. unfold ld. rewrite !nth_lookup. destruct (Z.lt_ge_cases j p).
    + rewrite lookup_app_l by (rewrite length_take; lia). by rewrite lookup_take_lt by lia.
    + rewrite lookup_app_r by (rewrite length_take; lia). rewrite lookup_app_r by (rewrite El, length_take; lia).
      rewrite lookup_drop, El, length_take. do 2 f_equal. lia.
  - intros j Hj. unfold ld. rewrite !nth_lookup. rewrite lookup_app_r by (rewrite length_take; lia).
    rewrite lookup_app_l by (rewrite El, length_take; lia). rewrite length_take, lookup_take_lt by lia.
    rewrite lookup_drop. do 2 f_equal. lia.
Qed.
