(* ===== verification/PageHeap.v ===== *)
(** * PageHeap: the space of a b-tree page (btree.c of src/src/db/sqlite3/core/sqlite3.c)

    A page holds a header, an array of cell pointers that grows up, and a cell content
    area that grows down.  Inside the content area a chain of free blocks, each with its
    successor and its size in its first four bytes, and a count of fragment bytes, too
    few for a block, make a memory allocator: [btreeComputeFreeSpace] checks a page,
    [freeSpace] gives a cell back, [allocateSpace] finds room for one with
    [pageFindSlot] or [defragmentPage], [zeroPage] makes an empty page.

    The specification describes the content area as a layout: a list of cells, free
    blocks and fragments, one after the other. *)

From S2P Require Import Prelude CType ByteMem.

Definition SQLITE_OK : Z := 0.
Definition SQLITE_CORRUPT : Z := 11.

(** A [MemPage] with the two fields of its [BtShared] that the operations read. *)
Record MemPage := mk_page {
  aData : bytes;
  hdrOffset : Z;
  childPtrSize : Z;
  cellOffset : Z;
  nCell : Z;
  nFree : Z;
  usableSize : Z;
  fast_secure : bool       (* [btsFlags & BTS_FAST_SECURE] *)
}.

Definition with_data (pg : MemPage) (d : bytes) : MemPage :=
  mk_page d (hdrOffset pg) (childPtrSize pg) (cellOffset pg) (nCell pg) (nFree pg) (usableSize pg) (fast_secure pg).
Definition with_nFree (pg : MemPage) (n : Z) : MemPage :=
  mk_page (aData pg) (hdrOffset pg) (childPtrSize pg) (cellOffset pg) (nCell pg) n (usableSize pg) (fast_secure pg).

(** Every loop along the chain of free blocks advances in the page; the fuel is the length
    of the page. *)

(** ** btreeComputeFreeSpace *)

(** The loop, from the free block [pc] on: [None] when a block is off the page, otherwise
    the last [next], [pc], [size] and [nFree]. *)
Fixpoint compute_loop (fuel : nat) (data : bytes) (iCellLast pc nFree : Z) : outcome (option (Z * Z * Z * Z)) :=
  match fuel with
  | O => UB
  | S fuel =>
      if iCellLast <? pc then Done None
      else
        next ← get2byte data pc;
        size ← get2byte data (pc + 2);
        let nFree := nFree + size in
        if next <=? pc + size + 3 then Done (Some (next, pc, size, nFree))
        else compute_loop fuel data iCellLast next nFree
  end.

Definition btreeComputeFreeSpace (pPage : MemPage) : outcome (Z * MemPage) :=
  let data := aData pPage in
  let hdr := hdrOffset pPage in
  top ← get2byteNotZero data (hdr + 5);
  let iCellFirst := hdr + 8 + childPtrSize pPage + 2 * nCell pPage in
  let iCellLast := usableSize pPage - 4 in
  pc ← get2byte data (hdr + 1);
  frag ← rd data (hdr + 7);
  let nFree := frag + top in
  r ← (if 0 <? pc then
         if pc <? top then Done None
         else
           r ← compute_loop (length data) data iCellLast pc nFree;
           match r with
           | None => Done None
           | Some (next, pc, size, nFree) =>
               if 0 <? next then Done None
               else if usableSize pPage <? pc + size then Done None else Done (Some nFree)
           end
       else Done (Some nFree));
  match r with
  | None => Done (SQLITE_CORRUPT, pPage)
  | Some nFree =>
      if (usableSize pPage <? nFree) || (nFree <? iCellFirst) then Done (SQLITE_CORRUPT, pPage)
      else Done (SQLITE_OK, with_nFree pPage (u16 (nFree - iCellFirst)))
  end.

(** ** zeroPage *)

(** [leaf] is [flags & PTF_LEAF]; [flags] is one [decodeFlags] accepts. *)
Definition zeroPage (pPage : MemPage) (flags : Z) (leaf : bool) : outcome MemPage :=
  let hdr := hdrOffset pPage in
  data ← (if fast_secure pPage then memset (aData pPage) hdr 0 (usableSize pPage - hdr) else Done (aData pPage));
  data ← wr data hdr (u8 flags);
  let first := hdr + (if leaf then 8 else 12) in
  data ← memset data (hdr + 1) 0 4;
  data ← wr data (hdr + 7) 0;
  data ← put2byte data (hdr + 5) (usableSize pPage);
  Done (mk_page data hdr (if leaf then 0 else 4) (u16 first) 0 (u16 (usableSize pPage - first)) (usableSize pPage) (fast_secure pPage)).

(** ** freeSpace *)

(** The search for the place of [iStart]: [None] when it finds corruption. *)
Fixpoint free_search (fuel : nat) (data : bytes) (iPtr iStart : Z) : outcome (option (Z * Z)) :=
  match fuel with
  | O => UB
  | S fuel =>
      iFreeBlk ← get2byte data iPtr;
      if iFreeBlk <? iStart then
        if iFreeBlk <? iPtr + 4 then
          if iFreeBlk =? 0 then Done (Some (iPtr, iFreeBlk)) else Done None
        else free_search fuel data iFreeBlk iStart
      else Done (Some (iPtr, iFreeBlk))
  end.

(** Coalescing with the next block, then with the previous one.  The results are
    [iStart], [iSize], [iEnd], [iFreeBlk] and the reduction of the fragments. *)
Definition coalesce_next (data : bytes) (usable iStart iSize iEnd iFreeBlk : Z) : outcome (option (Z * Z * Z * Z)) :=
  if negb (iFreeBlk =? 0) && (iFreeBlk <=? iEnd + 3) then
    let nFrag := u8 (iFreeBlk - iEnd) in
    if iFreeBlk <? iEnd then Done None
    else
      n ← get2byte data (iFreeBlk + 2);
      let iEnd := iFreeBlk + n in
      if usable <? iEnd then Done None
      else
        next ← get2byte data iFreeBlk;
        Done (Some (u16 (iEnd - iStart), iEnd, next, nFrag))
  else Done (Some (iSize, iEnd, iFreeBlk, 0)).

Definition coalesce_prev (data : bytes) (hdr iPtr iStart iSize iEnd nFrag : Z) : outcome (option (Z * Z * Z)) :=
  if hdr + 1 <? iPtr then
    n ← get2byte data (iPtr + 2);
    let iPtrEnd := iPtr + n in
    if iStart <=? iPtrEnd + 3 then
      if iStart <? iPtrEnd then Done None
      else Done (Some (iPtr, u16 (iEnd - iPtr), u8 (nFrag + (iStart - iPtrEnd))))
    else Done (Some (iStart, iSize, nFrag))
  else Done (Some (iStart, iSize, nFrag)).

(** The part on a free list that is not empty: [iPtr], [iFreeBlk], [iStart], [iSize],
    [iEnd] and the data with the fragments reduced. *)
Definition free_place (pPage : MemPage) (iStart iSize iEnd : Z) : outcome (option (Z * Z * Z * Z * Z * bytes)) :=
  let data := aData pPage in
  let hdr := hdrOffset pPage in
  r ← free_search (length data) data (hdr + 1) iStart;
  match r with
  | None => Done None
  | Some (iPtr, iFreeBlk) =>
      if usableSize pPage - 4 <? iFreeBlk then Done None
      else
        r ← coalesce_next data (usableSize pPage) iStart iSize iEnd iFreeBlk;
        match r with
        | None => Done None
        | Some (iSize, iEnd, iFreeBlk, nFrag) =>
            r ← coalesce_prev data hdr iPtr iStart iSize iEnd nFrag;
            match r with
            | None => Done None
            | Some (iStart, iSize, nFrag) =>
                frag ← rd data (hdr + 7);
                if frag <? nFrag then Done None
                else
                  data ← wr data (hdr + 7) (u8 (frag - nFrag));
                  Done (Some (iPtr, iFreeBlk, iStart, iSize, iEnd, data))
            end
        end
  end.

(** The new block is linked: [None] when [iStart] lies before the content area. *)
Definition free_link (pPage : MemPage) (data : bytes) (iPtr iFreeBlk iStart iEnd : Z) : outcome (option bytes) :=
  let hdr := hdrOffset pPage in
  x ← get2byte data (hdr + 5);
  if iStart <=? x then
    if iStart <? x then Done None
    else if negb (iPtr =? hdr + 1) then Done None
    else
      data ← put2byte data (hdr + 1) iFreeBlk;
      data ← put2byte data (hdr + 5) iEnd;
      Done (Some data)
  else
    data ← put2byte data iPtr iStart;
    Done (Some data).

(** From the linking of the block to the end. *)
Definition free_finish (pPage : MemPage) (iOrigSize iPtr iFreeBlk iStart iSize iEnd : Z) (data : bytes) : outcome (Z * MemPage) :=
  r ← free_link pPage data iPtr iFreeBlk iStart iEnd;
  match r with
  | None => Done (SQLITE_CORRUPT, with_data pPage data)
  | Some data =>
      data ← (if fast_secure pPage then memset data iStart 0 iSize else Done data);
      data ← put2byte data iStart iFreeBlk;
      data ← put2byte data (iStart + 2) iSize;
      Done (SQLITE_OK, with_nFree (with_data pPage data) (nFree pPage + iOrigSize))
  end.

Definition freeSpace (pPage : MemPage) (iStart iSize : Z) : outcome (Z * MemPage) :=
  let data := aData pPage in
  let hdr := hdrOffset pPage in
  let iEnd := iStart + iSize in
  b1 ← rd data (hdr + 2);
  b0 ← rd data (hdr + 1);
  r ← (if (b1 =? 0) && (b0 =? 0) then Done (Some (hdr + 1, 0, iStart, iSize, iEnd, data))
       else free_place pPage iStart iSize iEnd);
  match r with
  | None => Done (SQLITE_CORRUPT, pPage)
  | Some (iPtr, iFreeBlk, iStart', iSize', iEnd, data) => free_finish pPage iSize iPtr iFreeBlk iStart' iSize' iEnd data
  end.

(** ** pageFindSlot *)

(** The loop, at the block [pc] whose address is stored at [iAddr]: the result code, the
    slot found and the data. *)
Fixpoint find_slot_loop (fuel : nat) (hdr usable nByte : Z) (data : bytes) (iAddr pc : Z) : outcome (Z * option Z * bytes) :=
  let maxPC := usable - nByte in
  match fuel with
  | O => UB
  | S fuel =>
      if pc <=? maxPC then
        size ← get2byte data (pc + 2);
        let x := size - nByte in
        if 0 <=? x then
          if x <? 4 then
            frag ← rd data (hdr + 7);
            if 57 <? frag then Done (SQLITE_OK, None, data)
            else
              data ← memcpy data iAddr data pc 2;
              data ← wr data (hdr + 7) (u8 (frag + u8 x));
              Done (SQLITE_OK, Some (pc + x), data)
          else if maxPC <? x + pc then Done (SQLITE_CORRUPT, None, data)
          else
            data ← put2byte data (pc + 2) x;
            Done (SQLITE_OK, Some (pc + x), data)
        else
          next ← get2byte data pc;
          if next <=? pc + size then
            Done (if negb (next =? 0) then SQLITE_CORRUPT else SQLITE_OK, None, data)
          else find_slot_loop fuel hdr usable nByte data pc next
      else Done (if maxPC + nByte - 4 <? pc then SQLITE_CORRUPT else SQLITE_OK, None, data)
  end.

Definition pageFindSlot (pPg : MemPage) (nByte : Z) : outcome (Z * option Z * bytes) :=
  let data := aData pPg in
  let hdr := hdrOffset pPg in
  pc ← get2byte data (hdr + 1);
  find_slot_loop (length data) hdr (usableSize pPg) nByte data (hdr + 1) pc.

(** ** defragmentPage *)

(** What the pages of one kind of b-tree know of their cells: [xCellSize] reads the size
    of the cell at an offset of a buffer. *)
Class CellFormat := xCellSize : bytes -> Z -> outcome Z.

(** Adding the size of the free blocks to the pointers of the cells before them. *)
Fixpoint adjust_pointers (n : nat) (data : bytes) (pAddr iFree iFree2 sz sz2 : Z) : outcome bytes :=
  match n with
  | O => Done data
  | S n =>
      pc ← get2byte data pAddr;
      data ← (if pc <? iFree then put2byte data pAddr (pc + sz)
              else if pc <? iFree2 then put2byte data pAddr (pc + sz2) else Done data);
      adjust_pointers n data (pAddr + 2) iFree iFree2 sz sz2
  end.

Inductive fast_result :=
| fast_corrupt
| fast_no                            (* not applicable: go on with the general case *)
| fast_done (cbrk : Z) (data : bytes).

(** The block for two or fewer free blocks and at most [nMaxFrag] fragments; it returns
    the data as it is when it finds corruption. *)
Definition defragment_fast (pPage : MemPage) (nMaxFrag : Z) : outcome fast_result :=
  let data := aData pPage in
  let hdr := hdrOffset pPage in
  let usable := usableSize pPage in
  frag ← rd data (hdr + 7);
  if nMaxFrag <? frag then Done fast_no
  else
    iFree ← get2byte data (hdr + 1);
    if usable - 4 <? iFree then Done fast_corrupt
    else if iFree =? 0 then Done fast_no
    else
      iFree2 ← get2byte data iFree;
      if usable - 4 <? iFree2 then Done fast_corrupt
      else
        last ← (if iFree2 =? 0 then Done true
                else b0 ← rd data iFree2; b1 ← rd data (iFree2 + 1); Done ((b0 =? 0) && (b1 =? 0)));
        if negb last then Done fast_no
        else
          sz ← get2byte data (iFree + 2);
          top ← get2byte data (hdr + 5);
          if iFree <=? top then Done fast_corrupt
          else
            r ← (if negb (iFree2 =? 0) then
                   if iFree2 <? iFree + sz then Done None
                   else
                     sz2 ← get2byte data (iFree2 + 2);
                     if usable <? iFree2 + sz2 then Done None
                     else
                       data ← memmove data (iFree + sz + sz2) (iFree + sz) (iFree2 - (iFree + sz));
                       Done (Some (sz + sz2, sz2, data))
                 else if usable <? iFree + sz then Done None
                 else Done (Some (sz, 0, data)));
            match r with
            | None => Done fast_corrupt
            | Some (sz, sz2, data) =>
                let cbrk := top + sz in
                data ← memmove data cbrk top (iFree - top);
                data ← adjust_pointers (Z.to_nat (nCell pPage)) data (cellOffset pPage) iFree iFree2 sz sz2;
                Done (fast_done cbrk data)
            end.

Section defragment.
Context `{!CellFormat}.

(** The general case: the cells are copied, in the order of their pointers, to the end of
    the page.  [temp] is [None] until a cell has to move; [temp0] is what the scratch
    page of the pager holds before.  The result is [inl] when it finds corruption. *)
Fixpoint defragment_loop (n : nat) (usable iCellStart : Z) (temp0 data : bytes) (temp : option bytes)
    (pAddr cbrk : Z) : outcome (bytes + Z * bytes) :=
  match n with
  | O => Done (inr (cbrk, data))
  | S n =>
      pc ← get2byte data pAddr;
      if (pc <? iCellStart) || (usable - 4 <? pc) then Done (inl data)
      else
        size ← xCellSize (default data temp) pc;
        let cbrk := cbrk - size in
        if (cbrk <? iCellStart) || (usable <? pc + size) then Done (inl data)
        else
          data ← put2byte data pAddr cbrk;
          match temp with
          | None =>
              if cbrk =? pc then defragment_loop n usable iCellStart temp0 data None (pAddr + 2) cbrk
              else
                temp ← memcpy temp0 iCellStart data iCellStart (usable - iCellStart);
                data ← memcpy data cbrk temp pc size;
                defragment_loop n usable iCellStart temp0 data (Some temp) (pAddr + 2) cbrk
          | Some temp =>
              data ← memcpy data cbrk temp pc size;
              defragment_loop n usable iCellStart temp0 data (Some temp) (pAddr + 2) cbrk
          end
  end.

(** From the label [defragment_out] on. *)
Definition defragment_out (pPage : MemPage) (cbrk : Z) (data : bytes) : outcome (Z * MemPage) :=
  let hdr := hdrOffset pPage in
  let iCellFirst := cellOffset pPage + 2 * nCell pPage in
  frag ← rd data (hdr + 7);
  if negb (frag + cbrk - iCellFirst =? nFree pPage) then Done (SQLITE_CORRUPT, with_data pPage data)
  else
    data ← put2byte data (hdr + 5) cbrk;
    data ← wr data (hdr + 1) 0;
    data ← wr data (hdr + 2) 0;
    data ← memset data iCellFirst 0 (cbrk - iCellFirst);
    Done (SQLITE_OK, with_data pPage data).

Definition defragmentPage (temp0 : bytes) (pPage : MemPage) (nMaxFrag : Z) : outcome (Z * MemPage) :=
  let hdr := hdrOffset pPage in
  r ← defragment_fast pPage nMaxFrag;
  match r with
  | fast_corrupt => Done (SQLITE_CORRUPT, pPage)
  | fast_done cbrk data => defragment_out pPage cbrk data
  | fast_no =>
      iCellStart ← get2byte (aData pPage) (hdr + 5);
      r ← defragment_loop (Z.to_nat (nCell pPage)) (usableSize pPage) iCellStart temp0 (aData pPage) None
            (cellOffset pPage) (usableSize pPage);
      match r with
      | inl data => Done (SQLITE_CORRUPT, with_data pPage data)
      | inr (cbrk, data) => data ← wr data (hdr + 7) 0; defragment_out pPage cbrk data
      end
  end.

(** ** allocateSpace *)

(** The part after the free list has been tried: [None] when it returns an error. *)
Definition allocate_gap (temp0 : bytes) (pPage : MemPage) (nByte gap top : Z) : outcome (Z * option Z * MemPage) :=
  let hdr := hdrOffset pPage in
  '(rc, top, pPage) ← (if top <? gap + 2 + nByte then
                         '(rc, pPage) ← defragmentPage temp0 pPage (Z.min 4 (nFree pPage - (2 + nByte)));
                         if negb (rc =? SQLITE_OK) then Done (rc, top, pPage)
                         else top ← get2byteNotZero (aData pPage) (hdr + 5); Done (rc, top, pPage)
                       else Done (SQLITE_OK, top, pPage));
  if negb (rc =? SQLITE_OK) then Done (rc, None, pPage)
  else
    let top := top - nByte in
    data ← put2byte (aData pPage) (hdr + 5) top;
    Done (SQLITE_OK, Some top, with_data pPage data).

(** The result code, [*pIdx] and the page. *)
Definition allocateSpace (temp0 : bytes) (pPage : MemPage) (nByte : Z) : outcome (Z * option Z * MemPage) :=
  let hdr := hdrOffset pPage in
  let data := aData pPage in
  let gap := cellOffset pPage + 2 * nCell pPage in
  top ← get2byte data (hdr + 5);
  if (top <? gap) && negb ((top =? 0) && (usableSize pPage =? 65536)) then Done (SQLITE_CORRUPT, None, pPage)
  else
    let top := if top <? gap then 65536 else top in
    b1 ← rd data (hdr + 2);
    b0 ← rd data (hdr + 1);
    if (negb (b1 =? 0) || negb (b0 =? 0)) && (gap + 2 <=? top) then
      '(rc, pSpace, data) ← pageFindSlot pPage nByte;
      match pSpace with
      | Some g2 =>
          if g2 <=? gap then Done (SQLITE_CORRUPT, Some g2, with_data pPage data)
          else Done (SQLITE_OK, Some g2, with_data pPage data)
      | None =>
          if negb (rc =? SQLITE_OK) then Done (rc, None, with_data pPage data)
          else allocate_gap temp0 (with_data pPage data) nByte gap top
      end
    else allocate_gap temp0 pPage nByte gap top.
End defragment.

(** * Layouts *)

(** A part of the content area. *)
Inductive seg := Cell (n : Z) | Free (n : Z) | Frag (n : Z).

Definition seg_size (s : seg) : Z := match s with Cell n | Free n | Frag n => n end.
Definition seg_ok (s : seg) : Prop := match s with Cell n | Free n => 4 <= n | Frag n => 0 < n end.

Fixpoint total (l : list seg) : Z := match l with [] => 0 | s :: l => seg_size s + total l end.
Fixpoint frags (l : list seg) : Z := match l with [] => 0 | Frag n :: l => n + frags l | _ :: l => frags l end.
Fixpoint frees (l : list seg) : Z := match l with [] => 0 | Free n :: l => n + frees l | _ :: l => frees l end.

(** The free blocks, and the cells, of a layout that starts at [a]: address and size. *)
Fixpoint blocks (a : Z) (l : list seg) : list (Z * Z) :=
  match l with [] => [] | Free n :: l => (a, n) :: blocks (a + n) l | s :: l => blocks (a + seg_size s) l end.
Fixpoint cells (a : Z) (l : list seg) : list (Z * Z) :=
  match l with [] => [] | Cell n :: l => (a, n) :: cells (a + n) l | s :: l => cells (a + seg_size s) l end.

(** The blocks start at [e] or later, at least four bytes apart. *)
Fixpoint far (e : Z) (bs : list (Z * Z)) : Prop :=
  match bs with [] => True | (a, n) :: bs => e <= a /\ far (a + n + 4) bs end.

(** The chain of free blocks whose first address is stored at [p]. *)
Definition head_addr (bs : list (Z * Z)) : Z := match bs with [] => 0 | (a, _) :: _ => a end.
Fixpoint free_chain (d : bytes) (p : Z) (bs : list (Z * Z)) : Prop :=
  g2 d p = head_addr bs /\ match bs with [] => True | (a, n) :: bs => g2 d (a + 2) = n /\ free_chain d a bs end.

(** Where the address of what follows [bs] is stored. *)
Definition chain_end (p : Z) (bs : list (Z * Z)) : Z := foldl (fun _ '(a, _) => a) p bs.

Definition top_of (d : bytes) (hdr : Z) : Z := if g2 d (hdr + 5) =? 0 then 65536 else g2 d (hdr + 5).

(** A page with a layout; [top] is where its content area starts. *)
Record page_ok (pg : MemPage) (top : Z) (l : list seg) : Prop := {
  ok_bytes : bytes_ok (aData pg);
  ok_len : usableSize pg <= len (aData pg);
  ok_usable : usableSize pg <= 65536;
  ok_hdr : 0 <= hdrOffset pg /\ 0 <= childPtrSize pg /\ 0 <= nCell pg /\ cellOffset pg = hdrOffset pg + 8 + childPtrSize pg;
  ok_gap : cellOffset pg + 2 * nCell pg <= top;
  ok_top : top_of (aData pg) (hdrOffset pg) = top;
  ok_total : top + total l = usableSize pg;
  ok_segs : Forall seg_ok l;
  ok_first : match l with Free _ :: _ => False | _ => True end;
  ok_far : far 0 (blocks top l);
  ok_frag : (aData pg).[hdrOffset pg + 7] = frags l;
  ok_chain : free_chain (aData pg) (hdrOffset pg + 1) (blocks top l);
  ok_nFree : nFree pg = top - (cellOffset pg + 2 * nCell pg) + frags l + frees l
}.

(** ** Lemmas on layouts *)

Lemma total_app l1 l2 : total (l1 ++ l2) = total l1 + total l2.
Proof. induction l1 as [|s l1 IH]; cbn [app total]; lia. Qed.
Lemma frags_app l1 l2 : frags (l1 ++ l2) = frags l1 + frags l2.
Proof. induction l1 as [|[] l1 IH]; cbn [app frags]; lia. Qed.
Lemma frees_app l1 l2 : frees (l1 ++ l2) = frees l1 + frees l2.
Proof. induction l1 as [|[] l1 IH]; cbn [app frees]; lia. Qed.

Lemma blocks_app l1 l2 : forall a, blocks a (l1 ++ l2) = blocks a l1 ++ blocks (a + total l1) l2.
Proof.
  induction l1 as [|s l1 IH]; intros a; cbn [app blocks total]; [by rewrite Z.add_0_r|].
  rewrite Z.add_assoc. destruct s; cbn [seg_size]; by rewrite IH.
Qed.
Lemma cells_app l1 l2 : forall a, cells a (l1 ++ l2) = cells a l1 ++ cells (a + total l1) l2.
Proof.
  induction l1 as [|s l1 IH]; intros a; cbn [app cells total]; [by rewrite Z.add_0_r|].
  rewrite Z.add_assoc. destruct s; cbn [seg_size]; by rewrite IH.
Qed.

Lemma seg_ok_pos s : seg_ok s -> 0 < seg_size s.
Proof. destruct s; cbn; lia. Qed.

Lemma total_nonneg l : Forall seg_ok l -> 0 <= total l.
Proof. induction 1 as [|s l Hs Hl IH]; cbn [total]; [lia|]. apply seg_ok_pos in Hs. lia. Qed.


Lemma total_pos l : Forall seg_ok l -> l <> [] -> 0 < total l.
Proof.
  destruct 1 as [|s l Hs Hl]; [done|]. intros _. cbn [total]. apply seg_ok_pos in Hs. pose proof (total_nonneg l Hl). lia.
Qed.

Lemma frags_bound l : Forall seg_ok l -> 0 <= frags l /\ 0 <= frees l /\ frags l + frees l <= total l.
Proof.
  induction 1 as [|s l Hs Hl IH]; cbn [frags frees total]; [lia|]. destruct s; cbn [seg_ok seg_size] in *; lia.
Qed.

(** A block or cell lies inside its layout. *)
Lemma blocks_in l : Forall seg_ok l -> forall a b n, (b, n) ∈ blocks a l -> a <= b /\ b + n <= a + total l /\ 4 <= n.
Proof.
  induction 1 as [|s l Hs Hl IH]; intros a b n; cbn [blocks total]; [by intros ?%not_elem_of_nil|].
  pose proof (seg_ok_pos s Hs). pose proof (total_nonneg l Hl).
  destruct s; cbn [seg_size seg_ok] in *; rewrite ?elem_of_cons; try (intros [[= -> ->]|H']); try intros H';
    try (apply IH in H'); lia.
Qed.

Lemma cells_in l : Forall seg_ok l -> forall a b n, (b, n) ∈ cells a l -> a <= b /\ b + n <= a + total l /\ 4 <= n.
Proof.
  induction 1 as [|s l Hs Hl IH]; intros a b n; cbn [cells total]; [by intros ?%not_elem_of_nil|].
  pose proof (seg_ok_pos s Hs). pose proof (total_nonneg l Hl).
  destruct s; cbn [seg_size seg_ok] in *; rewrite ?elem_of_cons; try (intros [[= -> ->]|H']); try intros H';
    try (apply IH in H'); lia.
Qed.

Lemma blocks_length l : Forall seg_ok l -> forall a, 4 * len (blocks a l) <= total l.
Proof.
  induction 1 as [|s l Hs Hl IH]; intros a; cbn [blocks total]; [done|]. specialize (IH (a + seg_size s)).
  destruct s; cbn [seg_size seg_ok length] in *; lia.
Qed.

(** Cells and blocks do not overlap. *)
Lemma cells_blocks l : Forall seg_ok l -> forall a b n c m, (b, n) ∈ cells a l -> (c, m) ∈ blocks a l -> b + n <= c \/ c + m <= b.
Proof.
  induction 1 as [|s l Hs Hl IH]; intros a b n c m; cbn [cells blocks]; [by intros ?%not_elem_of_nil|].
  destruct s as [k|k|k]; cbn [seg_size seg_ok] in *; rewrite ?elem_of_cons.
  - intros [[= -> ->]|Hc] Hb; [apply (blocks_in l Hl) in Hb; lia|eauto].
  - intros Hc [[= -> ->]|Hb]; [apply (cells_in l Hl) in Hc; lia|eauto].
  - eauto.
Qed.

(** ** Lemmas on chains *)

Lemma chain_end_app p b1 b2 : chain_end p (b1 ++ b2) = chain_end (chain_end p b1) b2.
Proof. unfold chain_end. by rewrite foldl_app. Qed.

Lemma chain_end_cons p a n bs : chain_end p ((a, n) :: bs) = chain_end a bs.
Proof. done. Qed.

Lemma chain_end_in bs : forall p, chain_end p bs = p /\ bs = [] \/ exists n, (chain_end p bs, n) ∈ bs.
Proof.
  induction bs as [|[a n] bs IH]; intros p; [by left|]. right. rewrite chain_end_cons.
  destruct (IH a) as [[-> ->]|[m H]]; eexists; [by left|by right].
Qed.

Lemma far_weaken e e' bs : e' <= e -> far e bs -> far e' bs.
Proof. destruct bs as [|[a n] bs]; cbn; intuition lia. Qed.

Lemma far_in bs : forall e a n, (forall a n, (a, n) ∈ bs -> 4 <= n) -> far e bs -> (a, n) ∈ bs -> e <= a.
Proof.
  induction bs as [|[b m] bs IH]; intros e a n Hn; cbn; [by intros _ ?%not_elem_of_nil|].
  intros [He Hf] [[= -> ->]|Hin]%elem_of_cons; [done|].
  assert (4 <= m) by (apply (Hn b); by left).
  specialize (IH (b + m + 4) a n ltac:(intros; eapply Hn; by right) Hf Hin). lia.
Qed.

Lemma far_app e b1 b2 : far e (b1 ++ b2) <-> far e b1 /\ far (foldl (fun _ '(a, n) => a + n + 4) e b1) b2.
Proof. revert e. induction b1 as [|[a n] b1 IH]; intros e; cbn; [tauto|]. rewrite IH. tauto. Qed.

(** A chain survives changes outside it. *)
Lemma free_chain_frame d d' bs : forall p,
  (forall j, p <= j < p + 2 -> d'.[j] = d.[j]) -> (forall a n j, (a, n) ∈ bs -> a <= j < a + 4 -> d'.[j] = d.[j]) ->
  free_chain d p bs -> free_chain d' p bs.
Proof.
  induction bs as [|[a n] bs IH]; intros p Hp Hbs; cbn [free_chain]; intros [H1 H2].
  - split; [|done]. unfold g2 in *. by rewrite !Hp by lia.
  - destruct H2 as [H2 H3]. assert (forall j, a <= j < a + 4 -> d'.[j] = d.[j]) as Ha by (intros j; apply (Hbs a n); by left).
    split; [unfold g2 in *; by rewrite !Hp by lia|]. split; [unfold g2 in *; by rewrite !Ha by lia|].
    apply IH; [intros j ?; apply Ha; lia|intros; eapply Hbs; [by right|done]|done].
Qed.

Lemma free_chain_app d bs2 bs1 : forall p, free_chain d p (bs1 ++ bs2) -> free_chain d (chain_end p bs1) bs2.
Proof. induction bs1 as [|[a n] bs1 IH]; intros p; [done|]. cbn. intros (_ & _ & H). by apply IH. Qed.

(** Another continuation is linked behind [bs1]. *)
Lemma free_chain_replace d d' bs2 bs2' bs1 : forall p,
  free_chain d p (bs1 ++ bs2) -> (forall a n, (a, n) ∈ bs1 -> 4 <= n) -> far (p + 2) bs1 ->
  let q := chain_end p bs1 in
  (forall j, p <= j < p + 2 -> ~ (q <= j < q + 2) -> d'.[j] = d.[j]) ->
  (forall a n j, (a, n) ∈ bs1 -> a <= j < a + 4 -> ~ (q <= j < q + 2) -> d'.[j] = d.[j]) ->
  free_chain d' q bs2' -> free_chain d' p (bs1 ++ bs2').
Proof.
  induction bs1 as [|[a n] bs1 IH]; intros p Hc Hn Hf q Hp Hbs Hq; [done|].
  cbn [app free_chain] in *. destruct Hc as (H1 & H2 & H3), Hf as [Hfa Hf]. unfold q in *. clear q. rewrite chain_end_cons in *.
  assert (4 <= n) by (apply (Hn a); by left).
  assert (chain_end a bs1 = a \/ a + n + 4 <= chain_end a bs1) as Hend.
  { destruct (chain_end_in bs1 a) as [[-> _]|[m Hm]]; [by left|]. right. eapply far_in; [|exact Hf|exact Hm]. intros; eapply Hn; by right. }
  assert (forall j, a <= j < a + 4 -> ~ (chain_end a bs1 <= j < chain_end a bs1 + 2) -> d'.[j] = d.[j]) as Ha
    by (intros j; apply (Hbs a n); by left).
  split; [|split].
  - cbn [head_addr] in *. unfold g2 in *. rewrite !Hp by lia. done.
  - unfold g2 in *. rewrite !Ha by lia. done.
  - apply IH; try done.
    + intros; eapply Hn; by right.
    + eapply far_weaken; [|exact Hf]. lia.
    + intros j ?. apply Ha. lia.
    + intros b m j ?. apply (Hbs b m). by right.
Qed.

(** * btreeComputeFreeSpace *)

Section compute.
Context (d : bytes) (usable : Z).
Hypothesis d_bytes : bytes_ok d.
Hypothesis d_len : usable <= len d.

Definition inside (b : Z * Z) : Prop := fst b <= usable - 4 /\ fst b + snd b <= usable.

(** The rest of a chain that starts with the block [pc]. *)
Definition chain_from (pc n : Z) (bs : list (Z * Z)) : Prop :=
  g2 d (pc + 2) = n /\ free_chain d pc bs /\ far (pc + n + 4) bs /\ Forall inside ((pc, n) :: bs).

Definition sizes (bs : list (Z * Z)) : Z := foldr (fun b s => snd b + s) 0 bs.

(** The test of the loop's result. *)
Definition compute_finish (r : option (Z * Z * Z * Z)) : option Z :=
  match r with
  | None => None
  | Some (next, pc, size, nFree) => if 0 <? next then None else if usable <? pc + size then None else Some nFree
  end.

Lemma compute_loop_ok fuel : forall pc nFree, 0 <= pc -> (0 < fuel)%nat -> len d - pc <= Z.of_nat fuel ->
  exists r, compute_loop fuel d (usable - 4) pc nFree = Done r /\
  match compute_finish r with
  | Some s => exists n bs, chain_from pc n bs /\ s = nFree + sizes ((pc, n) :: bs)
  | None => forall n bs, ~ chain_from pc n bs
  end.
Proof.
  induction fuel as [|fuel IH]; intros pc nFree Hpc Hf0 Hf; [lia|]. cbn [compute_loop].
  destruct (Z.ltb_spec (usable - 4) pc).
  { exists None. split; [done|]. intros n bs (_ & _ & _ & [[H' _] _]%Forall_cons). cbn in H'. lia. }
  rewrite !get2byte_ok by (done || lia). cbn [mbind outcome_bind].
  pose proof (g2_range d pc d_bytes). pose proof (g2_range d (pc + 2) d_bytes).
  destruct (Z.leb_spec (g2 d pc) (pc + g2 d (pc + 2) + 3)).
  - eexists. split; [done|]. cbn [compute_finish]. destruct (Z.ltb_spec 0 (g2 d pc)).
    + intros n bs (H4 & H5 & H6 & _). destruct bs as [|[a m] bs]; cbn in H5, H6; lia.
    + destruct (Z.ltb_spec usable (pc + g2 d (pc + 2))).
      * intros n bs (<- & _ & _ & [[_ H'] _]%Forall_cons). cbn in H'. lia.
      * exists (g2 d (pc + 2)), []. split; [|cbn; lia]. split; [done|]. split; [|split; [done|]].
        -- cbn. lia.
        -- constructor; [|done]. split; cbn; lia.
  - destruct (IH (g2 d pc) (nFree + g2 d (pc + 2))) as (r & Er & Hr); [lia|lia|lia|].
    exists r. split; [done|]. destruct (compute_finish r) as [s|].
    + destruct Hr as (n & bs & (C1 & C2 & C3 & C4) & ->). exists (g2 d (pc + 2)), ((g2 d pc, n) :: bs).
      split; [|cbn; lia]. split; [done|]. split; [|split].
      * by split.
      * cbn. split; [lia|done].
      * constructor; [|done]. apply Forall_cons in C4 as [[C5 _] _]. split; cbn in *; lia.
    + intros n bs (<- & C2 & C3 & C4). destruct bs as [|[a m] bs]; cbn in C2; [lia|]. destruct C2 as [<- C2].
      apply (Hr m bs). split; [by destruct C2|]. split; [by destruct C2|]. cbn in C3. split; [by destruct C3|].
      by apply Forall_cons in C4 as [_ C4].
Qed.
End compute.

(** A page has one chain. *)
Lemma chain_unique d (Hd : bytes_ok d) bs : forall bs' p e e', 0 < e -> 0 < e' ->
  free_chain d p bs -> free_chain d p bs' -> far e bs -> far e' bs' -> bs = bs'.
Proof.
  induction bs as [|[a n] bs IH]; intros [|[a' n'] bs'] p e e' He He'; cbn; [done| | |].
  - intros [H _] [H' _] _ [F _]. lia.
  - intros [H _] [H' _] [F _] _. lia.
  - intros (H1 & H2 & H3) (H1' & H2' & H3') [F1 F2] [F1' F2']. assert (a' = a) as -> by congruence.
    assert (n' = n) as -> by congruence. f_equal. pose proof (g2_range d (a + 2) Hd).
    eapply (IH bs' a (a + n + 4) (a + n + 4)); done || lia.
Qed.

(** What [btreeComputeFreeSpace] checks of a page: the free blocks [bs] are linked in
    ascending order at least four bytes apart, inside the content area, and the free bytes
    fit. *)
Record space_ok (pg : MemPage) (bs : list (Z * Z)) : Prop := {
  space_chain : free_chain (aData pg) (hdrOffset pg + 1) bs;
  space_far : far (top_of (aData pg) (hdrOffset pg)) bs;
  space_inside : Forall (inside (usableSize pg)) bs;
  space_sum :
    let n := (aData pg).[hdrOffset pg + 7] + top_of (aData pg) (hdrOffset pg) + sizes bs in
    hdrOffset pg + 8 + childPtrSize pg + 2 * nCell pg <= n <= usableSize pg
}.

(** The part of a [MemPage] that the reading of the page has set. *)
Record geometry_ok (pg : MemPage) : Prop := {
  geo_bytes : bytes_ok (aData pg);
  geo_len : hdrOffset pg + 8 <= usableSize pg <= len (aData pg);
  geo_usable : usableSize pg <= 65536;
  geo_hdr : 0 <= hdrOffset pg /\ 0 <= childPtrSize pg /\ 0 <= nCell pg
}.

(** C21. [btreeComputeFreeSpace] decides whether the free list of a page is sound.  On a
    page of any bytes, corrupted ones included, it returns without an access outside the
    page; it answers [SQLITE_OK] exactly when the list satisfies [space_ok], with the
    number of free bytes in [nFree], and otherwise [SQLITE_CORRUPT] with the page
    unchanged. *)
Theorem computeFreeSpace_correct pg :
  geometry_ok pg ->
  exists rc pg', btreeComputeFreeSpace pg = Done (rc, pg') /\
    ((rc = SQLITE_OK /\ exists bs, space_ok pg bs /\
        pg' = with_nFree pg ((aData pg).[hdrOffset pg + 7] + top_of (aData pg) (hdrOffset pg) + sizes bs -
                              (hdrOffset pg + 8 + childPtrSize pg + 2 * nCell pg))) \/
     (rc = SQLITE_CORRUPT /\ pg' = pg /\ forall bs, ~ space_ok pg bs)).
Proof.
  intros [Hb Hl Hu Hh]. unfold btreeComputeFreeSpace.
  rewrite get2byteNotZero_ok, get2byte_ok, rd_ok by (done || lia). cbn [mbind outcome_bind].
  fold (top_of (aData pg) (hdrOffset pg)). set (top := top_of _ _). set (frag := (aData pg).[hdrOffset pg + 7]).
  set (pc := g2 (aData pg) (hdrOffset pg + 1)). set (first := hdrOffset pg + 8 + childPtrSize pg + 2 * nCell pg).
  assert (0 < top) as Htop by (unfold top, top_of; pose proof (g2_range (aData pg) (hdrOffset pg + 5) Hb); destruct (_ =? _) eqn:E; lia).
  pose proof (g2_range (aData pg) (hdrOffset pg + 1) Hb) as Hpc. fold pc in Hpc.
  match goal with |- context [mbind _ ?o] => set (o1 := o) end.
  assert (exists r, o1 = Done r /\ match r with
    | Some s => exists bs, free_chain (aData pg) (hdrOffset pg + 1) bs /\ far top bs /\ Forall (inside (usableSize pg)) bs /\ s = frag + top + sizes bs
    | None => forall bs, ~ space_ok pg bs end) as (r & -> & Hr).
  { unfold o1. destruct (Z.ltb_spec 0 pc).
    - destruct (Z.ltb_spec pc top).
      + exists None. split; [done|]. intros bs [C F _ _]. destruct bs as [|[a n] bs]; cbn in C, F; unfold pc in *; [lia|].
        destruct C as [C _]. rewrite C in *. lia.
      + destruct (compute_loop_ok (aData pg) (usableSize pg) Hb ltac:(lia) (length (aData pg)) pc (frag + top)) as (r & -> & Hr);
          [lia|lia|lia|]. cbn [mbind outcome_bind]. exists (compute_finish (usableSize pg) r). split.
        * destruct r as [[[[next pc'] size] nF]|]; [|done]. cbn. by repeat destruct (_ <? _).
        * destruct (compute_finish _ r) as [s|].
          -- destruct Hr as (n & bs & (C1 & C2 & C3 & C4) & ->). exists ((pc, n) :: bs). repeat split; try done.
          -- intros bs [C F I _]. destruct bs as [|[a n] bs]; cbn in C; [unfold pc in *; lia|]. destruct C as (C1 & C2 & C3).
             apply (Hr n bs). unfold pc. rewrite C1. split; [done|split; [done|split; [apply F|done]]].
    - eexists. split; [done|]. exists []. cbn. unfold pc in *. repeat split; try done; lia. }
  cbn [mbind outcome_bind]. destruct r as [s|].
  - destruct Hr as (bs & C & F & I & ->). fold first. destruct (_ || _) eqn:E.
    + eexists _, _. split; [done|]. right. split; [done|]. split; [done|]. intros bs' [C' F' _ S'].
      assert (bs' = bs) as ->; [|cbv zeta in S'; unfold first, frag, top in *; lia]. by apply (chain_unique (aData pg) Hb bs' bs (hdrOffset pg + 1) top top).
    + eexists _, _. split; [done|]. left. split; [done|]. exists bs.
      unfold first, frag, top in *. split; [split; try done; cbv zeta; lia|]. f_equal. apply Z.mod_small. lia.
  - eexists _, _. split; [done|]. by right.
Qed.

Lemma sizes_blocks l : forall a, sizes (blocks a l) = frees l.
Proof. induction l as [|[] l IH]; intros a; cbn; rewrite ?IH; done. Qed.

Lemma far_blocks l a e : Forall seg_ok l -> far e (blocks a l) -> far a (blocks a l).
Proof.
  intros Hl. destruct (blocks a l) as [|[b n] bs] eqn:E; [done|]. intros [_ H]. split; [|done].
  assert ((b, n) ∈ blocks a l) as Hin by (rewrite E; by left). apply (blocks_in l Hl) in Hin. lia.
Qed.

(** A page with a layout passes the check. *)
Lemma page_space_ok pg top l : page_ok pg top l -> space_ok pg (blocks top l).
Proof.
  intros []. split; rewrite ?ok_top0; try done.
  - by eapply far_blocks.
  - apply Forall_forall. intros [a n] Hin. apply (blocks_in l ok_segs0) in Hin. split; cbn; lia.
  - cbv zeta. rewrite sizes_blocks, ok_frag0. pose proof (frags_bound l ok_segs0). lia.
Qed.

(** * freeSpace *)

(** No free block among these. *)
Abbreviation no_free l := (blocks 0 l = []).

Lemma blocks_nil l : forall a b, blocks a l = [] -> blocks b l = [].
Proof. induction l as [|[] l IH]; intros a b; cbn; eauto. done. Qed.

Lemma cells_nil l : forall a b, cells a l = [] -> cells b l = [].
Proof. induction l as [|[] l IH]; intros a b; cbn; eauto. done. Qed.

(** The first, and the last, free block of a layout. *)
Lemma first_free l : no_free l \/ exists f k r, l = f ++ Free k :: r /\ no_free f.
Proof.
  induction l as [|[n|n|n] l IH]; [by left| | |].
  - destruct IH as [H|(f & k & r & -> & H)]; [left; cbn; by eapply blocks_nil|]. right. exists (Cell n :: f), k, r.
    split; [done|]. cbn. by eapply blocks_nil.
  - right. by exists [], n, l.
  - destruct IH as [H|(f & k & r & -> & H)]; [left; cbn; by eapply blocks_nil|]. right. exists (Frag n :: f), k, r.
    split; [done|]. cbn. by eapply blocks_nil.
Qed.

Lemma last_free l : no_free l \/ exists r k f, l = r ++ Free k :: f /\ no_free f.
Proof.
  induction l as [|s l IH]; [by left|]. destruct IH as [H|(r & k & f & -> & H)].
  - destruct s as [n|n|n]; [left; cbn; by eapply blocks_nil| |left; cbn; by eapply blocks_nil].
    right. by exists [], n, l.
  - right. by exists (s :: r), k, f.
Qed.

(** Less than four bytes without a free block are all fragments. *)
Lemma small_gap f : Forall seg_ok f -> no_free f -> total f <= 3 -> total f = frags f /\ cells 0 f = [] /\ frees f = 0.
Proof.
  induction 1 as [|s f Hs Hf IH]; [done|]. pose proof (total_nonneg f Hf). destruct s as [n|n|n]; cbn [total seg_size seg_ok blocks cells frags frees] in *.
  - lia.
  - done.
  - intros Hb Ht. apply (blocks_nil f _ 0) in Hb. destruct IH as (E1 & E2 & E3); [done|lia|]. split; [lia|]. split; [|done].
    by eapply cells_nil.
Qed.

Lemma no_free_frees l a : blocks a l = [] -> frees l = 0.
Proof. intros H. by rewrite <- (sizes_blocks l a), H. Qed.

(** The search stops at the first block behind [iStart]. *)
Lemma free_search_ok d usable iStart b2 b1 : bytes_ok d -> usable <= len d -> 0 < iStart ->
  (b2 = [] \/ iStart <= head_addr b2) -> forall p fuel,
  0 <= p -> p + 2 <= len d -> free_chain d p (b1 ++ b2) -> far (p + 4) b1 ->
  (forall a n, (a, n) ∈ b1 -> a < iStart /\ a + 4 <= usable /\ 0 <= n) -> (length b1 < fuel)%nat ->
  free_search fuel d p iStart = Done (Some (chain_end p b1, head_addr b2)).
Proof.
  intros Hd Hl Hi Hb2. induction b1 as [|[a n] b1 IH]; intros p fuel Hp Hp2 Hc Hf Hb1 Hfu; (destruct fuel as [|fuel]; [simpl in Hfu; lia|]);
    cbn [free_search]; rewrite get2byte_ok by (done || lia); cbn [mbind outcome_bind].
  - cbn [app] in Hc. assert (g2 d p = head_addr b2) as -> by (destruct b2 as [|[c m] b2]; by destruct Hc).
    destruct Hb2 as [->|Hb2]; cbn [head_addr].
    + rewrite (proj2 (Z.ltb_lt 0 _)) by lia. by destruct (0 <? p + 4) eqn:E; [|lia].
    + by rewrite (proj2 (Z.ltb_ge _ _)) by lia.
  - cbn [app free_chain head_addr] in Hc. destruct Hc as (-> & _ & Hc), Hf as [Hf1 Hf2].
    destruct (Hb1 a n) as (Ha & Ha2 & Hn); [by left|]. rewrite (proj2 (Z.ltb_lt _ _)), (proj2 (Z.ltb_ge _ _)) by lia.
    rewrite chain_end_cons. apply IH; try done; [lia|lia|eapply far_weaken; [|exact Hf2]; lia| |simpl in Hfu; lia].
    intros b m ?. apply (Hb1 b m). by right.
Qed.

Definition far_end (e : Z) (bs : list (Z * Z)) : Z := foldl (fun _ '(a, n) => a + n + 4) e bs.

Lemma cells_no_free_gap f a : Forall seg_ok f -> no_free f -> total f <= 3 -> cells a f = [].
Proof. intros Hf Hb Ht. destruct (small_gap f Hf Hb Ht) as (_ & H & _). by eapply cells_nil. Qed.

(** The block behind [iStart] after the coalescing with the next one: [n2] bytes, and
    [rest] is the layout behind it. *)
Record next_ok (d : bytes) (iStart n : Z) (l2 : list seg) (n2 nf : Z) (rest : list seg) : Prop := {
  next_segs : Forall seg_ok rest;
  next_frag : 0 <= nf <= 3 /\ frags l2 = nf + frags rest;
  next_total : n2 + total rest = n + total l2 /\ n <= n2;
  next_frees : frees l2 + n + nf = frees rest + n2;
  next_cells : cells (iStart + n2) rest = cells (iStart + n) l2;
  next_chain : exists q, free_chain d q (blocks (iStart + n2) rest);
  next_far : far (iStart + n2 + 4) (blocks (iStart + n2) rest)
}.

Section coalesce.
Context (d : bytes) (usable : Z).
Hypothesis d_bytes : bytes_ok d.
Hypothesis d_len : usable <= len d.
Hypothesis d_usable : usable <= 65536.

Lemma coalesce_next_ok q iStart n l2 :
  Forall seg_ok l2 -> 0 <= iStart -> 4 <= n -> iStart + n + total l2 = usable -> 0 < iStart ->
  free_chain d q (blocks (iStart + n) l2) -> far 0 (blocks (iStart + n) l2) ->
  exists n2 nf rest, next_ok d iStart n l2 n2 nf rest /\
    coalesce_next d usable iStart n (iStart + n) (head_addr (blocks (iStart + n) l2)) =
      Done (Some (n2, iStart + n2, head_addr (blocks (iStart + n2) rest), nf)).
Proof.
  intros Hl2 Hs Hn Ht Hs0 Hc Hf. unfold coalesce_next. destruct (first_free l2) as [Hno|(f & k & rest & -> & Hno)].
  - pose proof (blocks_nil l2 _ (iStart + n) Hno) as E. rewrite E. cbn [head_addr Z.eqb negb andb].
    exists n, 0, l2. split; [split; try done; try lia|by rewrite E].
    + by exists q.
    + by rewrite E.
  - pose proof (blocks_nil f _ (iStart + n) Hno) as E. rewrite blocks_app, E in *. cbn [app blocks head_addr] in *.
    apply Forall_app in Hl2 as [Hfo [Hk Hrest]%Forall_cons]. cbn [seg_ok] in Hk.
    rewrite total_app in Ht. cbn [total seg_size] in Ht. pose proof (total_nonneg f Hfo). pose proof (total_nonneg rest Hrest).
    set (c := iStart + n + total f) in *. rewrite (proj2 (Z.eqb_neq c 0)) by lia. cbn [negb andb].
    pose proof Hc as Hc0. cbn [free_chain head_addr far] in Hc, Hf. destruct Hc as (_ & Hk2 & Hc), Hf as [_ Hf].
    destruct (Z.leb_spec c (iStart + n + 3)) as [Hle|Hgt].
    + destruct (small_gap f Hfo Hno ltac:(lia)) as (Et & _ & Ef). rewrite (proj2 (Z.ltb_ge c _)) by lia.
      rewrite (get2byte_ok d (c + 2)), (get2byte_ok d c) by (done || lia). cbn [mbind outcome_bind]. rewrite Hk2. rewrite (proj2 (Z.ltb_ge usable _)) by lia.
      assert (g2 d c = head_addr (blocks (c + k) rest)) as -> by (destruct (blocks (c + k) rest) as [|[? ?] ?]; by destruct Hc).
      exists (n + total f + k), (total f), rest. replace (iStart + (n + total f + k)) with (c + k) by lia.
      assert (u16 (c + k - iStart) = n + total f + k) as -> by (unfold u16; rewrite Z.mod_small; lia).
      assert (u8 (c - (iStart + n)) = total f) as -> by (unfold u8; rewrite Z.mod_small; lia).
      split; [|done].
      split; rewrite ?frags_app, ?frees_app, ?total_app; cbn [frags frees total seg_size]; try done; try lia.
      * rewrite cells_app, (cells_no_free_gap f) by (done || lia). cbn [app cells seg_size].
        f_equal. lia.
      * replace (iStart + (n + total f + k)) with (c + k) by lia. by exists c.
      * replace (iStart + (n + total f + k)) with (c + k) by lia. done.
    + exists n, 0, (f ++ Free k :: rest). rewrite blocks_app, E. cbn [app blocks head_addr]. fold c.
      split; [|done]. split; try done; try lia.
      * apply Forall_app. split; [done|]. by apply Forall_cons.
      * exists q. by rewrite blocks_app, E.
      * rewrite blocks_app, E. cbn [app blocks far]. fold c. split; [lia|done].
Qed.

(** The block before [iEnd] after the coalescing with the previous one: [pre] is the
    layout before it. *)
Record prev_ok (hdr top : Z) (l1 : list seg) (iEnd n2 nf : Z) (pre : list seg) (s nf' : Z) : Prop := {
  prev_prefix : exists r, l1 = pre ++ r;
  prev_end : top + total pre + s = iEnd /\ n2 <= s;
  prev_frag : nf <= nf' <= nf + 3 /\ frags l1 + nf = frags pre + nf';
  prev_frees : frees l1 + n2 + (nf' - nf) = frees pre + s;
  prev_cells : cells top pre = cells top l1;
  prev_far : far_end 0 (blocks top pre) <= top + total pre;
  prev_link :
    (pre = l1 /\ s = n2) \/
    (pre <> [] /\ chain_end (hdr + 1) (blocks top l1) = top + total pre /\ exists m, blocks top l1 = blocks top pre ++ [(top + total pre, m)])
}.

Lemma coalesce_prev_ok hdr top l1 n2 nf bs :
  Forall seg_ok l1 -> 0 <= hdr -> hdr + 1 < top -> 4 <= n2 -> top + total l1 + n2 <= usable -> 0 <= nf <= 3 ->
  (match l1 with Free _ :: _ => False | _ => True end) ->
  free_chain d (hdr + 1) (blocks top l1 ++ bs) -> far 0 (blocks top l1) ->
  let iStart := top + total l1 in
  exists pre s nf', prev_ok hdr top l1 (iStart + n2) n2 nf pre s nf' /\
    coalesce_prev d hdr (chain_end (hdr + 1) (blocks top l1)) iStart n2 (iStart + n2) nf =
      Done (Some (top + total pre, s, nf')).
Proof.
  intros Hl1 Hhdr Htop Hn2 Hend Hnf Hfirst Hc Hf iStart. unfold coalesce_prev.
  destruct (last_free l1) as [Hno|(r & m & f & -> & Hno)].
  - pose proof (blocks_nil l1 _ top Hno) as E. rewrite E. cbn [chain_end foldl]. rewrite (proj2 (Z.ltb_ge _ _)) by lia.
    exists l1, n2, nf. split; [|done]. split; try done; try lia.
    + exists []. by rewrite app_nil_r.
    + rewrite E. cbn. pose proof (total_nonneg l1 Hl1). lia.
    + by left.
  - apply Forall_app in Hl1 as [Hr [Hm Hfo]%Forall_cons]. cbn [seg_ok] in Hm.
    set (a := top + total r). assert (blocks top (r ++ Free m :: f) = blocks top r ++ [(a, m)]) as E.
    { rewrite blocks_app. cbn [blocks]. by rewrite (blocks_nil f _ (top + total r + m) Hno). }
    rewrite E in *. rewrite chain_end_app. cbn [chain_end foldl].
    pose proof (total_nonneg r Hr). pose proof (total_nonneg f Hfo).
    assert (iStart = a + m + total f) as Ei by (unfold iStart, a; rewrite total_app; cbn [total seg_size]; lia).
    fold iStart in Hend. rewrite (proj2 (Z.ltb_lt (hdr + 1) a)) by lia.
    rewrite <- app_assoc in Hc. apply free_chain_app in Hc. cbn [app free_chain] in Hc. destruct Hc as (_ & Em & _).
    apply far_app in Hf as [_ [Hfe _]]. fold (far_end 0 (blocks top r)) in Hfe.
    rewrite get2byte_ok by (done || lia). cbn [mbind outcome_bind]. rewrite Em.
    destruct (Z.leb_spec iStart (a + m + 3)) as [Hle|Hgt].
    + destruct (small_gap f Hfo Hno ltac:(lia)) as (Et & _ & Ef). rewrite (proj2 (Z.ltb_ge iStart _)) by lia.
      exists r, (m + total f + n2), (nf + total f).
      assert (u16 (iStart + n2 - a) = m + total f + n2) as -> by (unfold u16; rewrite Z.mod_small; lia).
      assert (u8 (nf + (iStart - (a + m))) = nf + total f) as -> by (unfold u8; rewrite Z.mod_small; lia).
      split; [|done]. split; rewrite ?frags_app, ?frees_app; cbn [frags frees]; try lia.
      * by exists (Free m :: f).
      * rewrite cells_app. cbn [cells seg_size]. by rewrite (cells_no_free_gap f), app_nil_r by (done || lia).
      * right. split; [by intros ->|]. fold a. rewrite E, chain_end_app. split; [done|]. by exists m.
    + exists (r ++ Free m :: f), n2, nf. fold iStart. split; [|done]. split; try lia.
      * exists []. by rewrite app_nil_r.
      * done.
      * fold iStart. rewrite E. unfold far_end. rewrite foldl_app. cbn. lia.
      * by left.
Qed.
End coalesce.

(** ** The place of the new block *)

(** What the first half of [freeSpace] finds: the values it goes on with describe the
    layout [pre ++ Free s :: rest], the fragments of which are already counted. *)
Record place_ok (pg : MemPage) (top : Z) (l1 : list seg) (n : Z) (l2 : list seg)
    (iFreeBlk iStart s iEnd : Z) (data : bytes) (n2 nf nf' : Z) (pre rest : list seg) : Prop := {
  place_next : next_ok (aData pg) (top + total l1) n l2 n2 nf rest;
  place_prev : prev_ok (hdrOffset pg) top l1 (top + total l1 + n2) n2 nf pre s nf';
  place_values : iStart = top + total pre /\ iEnd = top + total l1 + n2 /\ iFreeBlk = head_addr (blocks iEnd rest);
  place_data : same_outside (aData pg) data (hdrOffset pg + 7) (hdrOffset pg + 8);
  place_frag : data.[hdrOffset pg + 7] = frags pre + frags rest
}.

Section free.
Context (pg : MemPage) (top : Z) (l1 : list seg) (n : Z) (l2 : list seg).
Hypothesis Hpg : page_ok pg top (l1 ++ Cell n :: l2).

Lemma free_segs : Forall seg_ok l1 /\ 4 <= n /\ Forall seg_ok l2.
Proof. destruct Hpg as [_ _ _ _ _ _ _ [H1 [H2 H3]%Forall_cons]%Forall_app _ _ _ _ _]. done. Qed.

Lemma free_blocks : blocks top (l1 ++ Cell n :: l2) = blocks top l1 ++ blocks (top + total l1 + n) l2.
Proof. by rewrite blocks_app. Qed.

Lemma free_first : match l1 with Free _ :: _ => False | _ => True end.
Proof. pose proof (ok_first _ _ _ Hpg) as H. by destruct l1 as [|[] ?]. Qed.

Lemma free_page_range :
  0 <= hdrOffset pg /\ hdrOffset pg + 8 <= top /\ top + total l1 + n + total l2 = usableSize pg /\
  usableSize pg <= len (aData pg) /\ usableSize pg <= 65536 /\ 0 <= total l1 /\ 0 <= total l2.
Proof.
  destruct free_segs as (H1 & _ & H2). destruct Hpg as [_ Hl Hu Hh Hg _ Ht _ _ _ _ _ _]. rewrite total_app in Ht. cbn in Ht.
  pose proof (total_nonneg l1 H1). pose proof (total_nonneg l2 H2). lia.
Qed.

(** The head of a chain is zero when nothing is free. *)
Lemma free_list_empty : g2 (aData pg) (hdrOffset pg + 1) = 0 -> blocks top l1 = [] /\ blocks (top + total l1 + n) l2 = [].
Proof.
  intros H0. pose proof (ok_chain _ _ _ Hpg) as Hc. rewrite free_blocks in Hc. destruct free_segs as (H1 & Hn & H2).
  pose proof free_page_range as Hr. destruct (blocks top l1 ++ _) as [|[a m] bs] eqn:E; [by apply app_nil in E|].
  cbn in Hc. destruct Hc as [Ha _]. rewrite H0 in Ha. subst a.
  assert ((0, m) ∈ blocks top l1 ++ blocks (top + total l1 + n) l2) as [Hin|Hin]%elem_of_app by (rewrite E; by left).
  - apply (blocks_in l1 H1) in Hin. lia.
  - apply (blocks_in l2 H2) in Hin. lia.
Qed.

Lemma place_of_parts n2 nf rest pre s nf' : next_ok (aData pg) (top + total l1) n l2 n2 nf rest ->
  prev_ok (hdrOffset pg) top l1 (top + total l1 + n2) n2 nf pre s nf' ->
  frags (l1 ++ Cell n :: l2) = frags pre + frags rest + nf' /\ 0 <= frags pre + frags rest.
Proof.
  intros [] []. destruct free_segs as (H1 & _ & H2). rewrite frags_app. cbn [frags].
  destruct prev_prefix0 as [r ->]. apply Forall_app in H1 as [H1 _]. pose proof (frags_bound pre H1). pose proof (frags_bound rest next_segs0).
  lia.
Qed.

Lemma free_place_ok :
  exists r n2 nf nf' pre rest, free_place pg (top + total l1) n (top + total l1 + n) = Done (Some r) /\
    let '(iPtr, iFreeBlk, iStart, s, iEnd, data) := r in
    iPtr = chain_end (hdrOffset pg + 1) (blocks top l1) /\
    place_ok pg top l1 n l2 iFreeBlk iStart s iEnd data n2 nf nf' pre rest.
Proof.
  destruct free_segs as (H1 & Hn & H2). pose proof free_page_range as (Hh & Ht8 & Ht & Hl & Hu & Hp1 & Hp2).
  pose proof (ok_bytes _ _ _ Hpg) as Hb. pose proof (ok_far _ _ _ Hpg) as Hfar. pose proof (ok_chain _ _ _ Hpg) as Hc.
  rewrite free_blocks in Hfar, Hc. assert (0 < top + total l1) as Hi0 by lia. set (iStart := top + total l1) in *. unfold free_place.
  pose proof (proj1 (proj1 (far_app _ _ _) Hfar)) as Hf1.
  assert (far 0 (blocks (iStart + n) l2)) as Hf2.
  { apply (proj1 (far_app _ _ _)) in Hfar as [_ Hfar]. eapply far_weaken; [|eapply far_blocks; [done|exact Hfar]]. lia. }
  rewrite (free_search_ok (aData pg) (usableSize pg) iStart (blocks (iStart + n) l2) (blocks top l1)); try done; try lia.
  - cbn [mbind outcome_bind].
    assert (head_addr (blocks (iStart + n) l2) <= usableSize pg - 4) as Hhd.
    { destruct (blocks (iStart + n) l2) as [|[a m] bs] eqn:E; cbn; [lia|].
      assert ((a, m) ∈ blocks (iStart + n) l2) as Hin by (rewrite E; by left). apply (blocks_in l2 H2) in Hin. lia. }
    rewrite (proj2 (Z.ltb_ge (usableSize pg - 4) _)) by lia.
    destruct (coalesce_next_ok (aData pg) (usableSize pg) Hb Hl Hu (chain_end (hdrOffset pg + 1) (blocks top l1)) iStart n l2)
      as (n2 & nf & rest & Hnext & ->); try done; try lia; [by apply free_chain_app|]. cbn [mbind outcome_bind].
    pose proof (next_total _ _ _ _ _ _ _ Hnext) as [Hnt Hnn]. pose proof (total_nonneg rest (next_segs _ _ _ _ _ _ _ Hnext)).
    destruct (coalesce_prev_ok (aData pg) (usableSize pg) Hb Hl Hu (hdrOffset pg) top l1 n2 nf (blocks (iStart + n) l2))
      as (pre & s & nf' & Hprev & E); try done; try lia; [apply (next_frag _ _ _ _ _ _ _ Hnext)|apply free_first|].
    fold iStart in E. rewrite E. clear E. cbn [mbind outcome_bind]. rewrite rd_ok by lia. cbn [mbind outcome_bind].
    destruct (place_of_parts n2 nf rest pre s nf' Hnext Hprev) as [Efr Hfr]. rewrite (ok_frag _ _ _ Hpg), Efr.
    pose proof (ld_ok (aData pg) (hdrOffset pg + 7) Hb) as Hbyte. rewrite (ok_frag _ _ _ Hpg), Efr in Hbyte.
    pose proof (prev_frag _ _ _ _ _ _ _ _ _ Hprev) as [? _]. pose proof (next_frag _ _ _ _ _ _ _ Hnext) as [? _].
    rewrite (proj2 (Z.ltb_ge _ nf')) by lia.
    destruct (wr_ok (aData pg) (hdrOffset pg + 7) (u8 (frags pre + frags rest + nf' - nf')) Hb) as (d1 & -> & Hs1 & E1);
      [apply u8_range|lia|]. cbn [mbind outcome_bind].
    eexists _, n2, nf, nf', pre, rest. split; [done|]. split; [done|]. split; try done.
    + eapply same_outside_weaken; [exact Hs1|lia|lia].
    + rewrite E1, u8_id; lia.
  - destruct (blocks (iStart + n) l2) as [|[a m] bs] eqn:E; [by left|right]. cbn.
    assert ((a, m) ∈ blocks (iStart + n) l2) as Hin by (rewrite E; by left). apply (blocks_in l2 H2) in Hin. lia.
  - eapply far_weaken; [|eapply far_blocks; [exact H1|exact Hf1]]. lia.
  - intros a m Hin. apply (blocks_in l1 H1) in Hin. lia.
  - pose proof (blocks_length l1 H1 top). lia.
Qed.

(** The header of the new block. *)
Lemma write_block_ok data iStart iFreeBlk s :
  bytes_ok data -> 0 <= iStart -> 4 <= s -> iStart + s <= len data -> s < 65536 -> 0 <= iFreeBlk < 65536 ->
  exists d', (data ← (if fast_secure pg then memset data iStart 0 s else Done data);
              data ← put2byte data iStart iFreeBlk;
              data ← put2byte data (iStart + 2) s;
              Done (SQLITE_OK, with_nFree (with_data pg data) (nFree pg + n)))
             = Done (SQLITE_OK, with_nFree (with_data pg d') (nFree pg + n)) /\
    same_outside data d' iStart (iStart + s) /\ g2 d' iStart = iFreeBlk /\ g2 d' (iStart + 2) = s.
Proof.
  intros Hd Hi Hs Hl Hs2 Hf.
  assert (exists d1, (if fast_secure pg then memset data iStart 0 s else Done data) = Done d1 /\ same_outside data d1 iStart (iStart + s))
    as (d1 & -> & S1).
  { destruct (fast_secure pg); [apply memset_ok; try done; unfold is_byte; lia|]. by exists data. }
  cbn [mbind outcome_bind]. destruct S1 as (L1 & B1 & F1).
  destruct (put2byte_ok d1 iStart iFreeBlk B1) as (d2 & -> & (L2 & B2 & F2) & G2); [lia|lia|]. cbn [mbind outcome_bind].
  destruct (put2byte_ok d2 (iStart + 2) s B2) as (d3 & -> & (L3 & B3 & F3) & G3); [lia|lia|]. cbn [mbind outcome_bind].
  exists d3. split; [done|]. split; [split; [congruence|split; [done|]]|split].
  - intros j Hj Hout. rewrite F3, F2, F1 by lia. done.
  - unfold g2 in *. rewrite !F3 by lia. rewrite G2. apply Z.mod_small. lia.
  - rewrite G3. apply Z.mod_small. lia.
Qed.

(** The bytes a call keeps: all but the header fields, the links of the free list and the
    block given back. *)
Definition kept (j : Z) : Prop :=
  j < hdrOffset pg + 1 \/ hdrOffset pg + 3 <= j < hdrOffset pg + 5 \/ hdrOffset pg + 8 <= j < top \/ usableSize pg <= j \/
  exists a m, (a, m) ∈ cells top l1 ++ cells (top + total l1 + n) l2 /\ a <= j < a + m.

(** *** The new page *)

Section finish.
Context (iFreeBlk iStart s iEnd : Z) (data : bytes) (n2 nf nf' : Z) (pre rest : list seg).
Hypothesis Hplace : place_ok pg top l1 n l2 iFreeBlk iStart s iEnd data n2 nf nf' pre rest.

Lemma place_bounds :
  Forall seg_ok pre /\ Forall seg_ok rest /\ 4 <= s /\ iStart = top + total pre /\ iStart + s = iEnd /\ 0 <= total pre /\ 0 <= total rest /\
  iEnd + total rest = usableSize pg /\ iEnd = top + total l1 + n2 /\ 0 <= iFreeBlk < 65536 /\ n <= n2 <= s /\ nf <= 3 /\ nf' <= 6 /\ 0 <= nf.
Proof.
  destruct Hplace as [Hn Hp (-> & -> & ->) _ _]. destruct free_segs as (H1 & Hn4 & H2). pose proof free_page_range as Hr.
  destruct Hn as [Hrest Hnf Ht _ _ _ _], Hp as [[r Er] He Hnf' _ _ _ _].
  assert (Forall seg_ok pre) as Hpre by (rewrite Er in H1; by apply Forall_app in H1 as [? _]).
  pose proof (total_nonneg pre Hpre). pose proof (total_nonneg rest Hrest).
  assert (0 <= head_addr (blocks (top + total l1 + n2) rest) < 65536).
  { destruct (blocks _ rest) as [|[a m] bs] eqn:E; cbn; [lia|]. assert ((a, m) ∈ blocks (top + total l1 + n2) rest) as Hin by (rewrite E; by left).
    apply (blocks_in rest Hrest) in Hin. lia. }
  repeat split; try done; try lia.
Qed.

(** A cell that stays, or a block behind the new one, does not meet what is written. *)
Lemma kept_cell a m : (a, m) ∈ cells top l1 ++ cells (top + total l1 + n) l2 ->
  4 <= m /\ ((top <= a /\ a + m <= iStart /\ (a, m) ∈ cells top pre) \/ (iEnd <= a /\ a + m <= usableSize pg)).
Proof.
  destruct place_bounds as (Hpre & Hrest & _ & Hi & _ & _ & _ & Ht & He & _).
  destruct Hplace as [Hn Hp _ _ _]. rewrite <- (next_cells _ _ _ _ _ _ _ Hn), <- (prev_cells _ _ _ _ _ _ _ _ _ Hp).
  rewrite <- He. intros [Hin|Hin]%elem_of_app.
  - pose proof (cells_in pre Hpre _ _ _ Hin). split; [lia|left]. split; [lia|split; [lia|done]].
  - apply (cells_in rest Hrest) in Hin. lia.
Qed.

Lemma new_page d' top' l' :
  bytes_ok d' -> length d' = length (aData pg) -> top_of d' (hdrOffset pg) = top' -> top <= top' -> top' + total l' = usableSize pg ->
  Forall seg_ok l' -> (match l' with Free _ :: _ => False | _ => True end) -> far 0 (blocks top' l') ->
  d'.[hdrOffset pg + 7] = frags l' -> free_chain d' (hdrOffset pg + 1) (blocks top' l') ->
  top' + frags l' + frees l' = top + frags (l1 ++ Cell n :: l2) + frees (l1 ++ Cell n :: l2) + n ->
  page_ok (with_nFree (with_data pg d') (nFree pg + n)) top' l'.
Proof.
  intros. destruct Hpg as [Hb Hl Hu Hh Hg _ _ _ _ _ _ _ Hn]. split; cbn; try done; lia.
Qed.

(** The free bytes of the new layout. *)
Lemma finish_sum : iEnd + frags rest + frees rest + frags pre + frees pre + (s - n2) = top + total l1 + frags (l1 ++ Cell n :: l2) + frees (l1 ++ Cell n :: l2) + n.
Proof.
  destruct place_bounds as (_ & _ & _ & Hi & He & _ & _ & Ht & He2 & _). destruct Hplace as [Hn Hp _ _ _].
  destruct Hn as [_ [_ Hf2] [Ht2 _] Hfr2 _ _ _], Hp as [_ [He3 _] [_ Hf1] Hfr1 _ _ _].
  rewrite frags_app, frees_app. cbn [frags frees]. lia.
Qed.

Lemma rest_first : match rest with Free _ :: _ => False | _ => True end.
Proof.
  destruct Hplace as [Hn _ (_ & _ & _) _ _]. pose proof (next_far _ _ _ _ _ _ _ Hn) as H. destruct rest as [|[m|m|m] r]; try done.
  cbn in H. lia.
Qed.

Lemma rest_far : far (iEnd + 4) (blocks iEnd rest).
Proof.
  destruct place_bounds as (_ & _ & _ & _ & _ & _ & _ & _ & He & _). destruct Hplace as [Hn _ _ _ _].
  pose proof (next_far _ _ _ _ _ _ _ Hn) as H. by rewrite <- He in H.
Qed.

(** The blocks behind the new one. *)
Lemma rest_blocks d' : (forall j, iEnd <= j < usableSize pg -> d'.[j] = (aData pg).[j]) ->
  forall q, (g2 d' q = iFreeBlk) -> free_chain d' q (blocks iEnd rest).
Proof.
  intros Hsame q Hq. destruct place_bounds as (_ & Hrest & _ & _ & _ & _ & _ & Ht & He & _).
  destruct Hplace as [Hn _ (_ & _ & Hfb) _ _]. destruct (next_chain _ _ _ _ _ _ _ Hn) as [q0 Hc]. rewrite <- He in Hc.
  assert (forall a m, (a, m) ∈ blocks iEnd rest -> forall j, a <= j < a + 4 -> d'.[j] = (aData pg).[j]) as Hin.
  { intros a m Hin j Hj. apply (blocks_in rest Hrest) in Hin. apply Hsame. lia. }
  rewrite Hfb in Hq. clear Hfb. destruct (blocks iEnd rest) as [|[a m] bs]; [by split|].
  cbn [free_chain head_addr] in *. destruct Hc as (_ & H2 & H3). split; [done|].
  assert (forall j, a <= j < a + 4 -> d'.[j] = (aData pg).[j]) as Ha by (apply (Hin a m); by left).
  split; [unfold g2 in *; by rewrite !Ha by lia|]. eapply free_chain_frame; [| |exact H3].
  - intros j Hj. apply Ha. lia.
  - intros b k j Hb. apply (Hin b k). by right.
Qed.

Lemma top_small : g2 (aData pg) (hdrOffset pg + 5) = top.
Proof.
  pose proof free_page_range as Hr. destruct free_segs as (_ & Hn & _). pose proof (ok_top _ _ _ Hpg) as Ht. unfold top_of in Ht.
  destruct (Z.eqb_spec (g2 (aData pg) (hdrOffset pg + 5)) 0); lia.
Qed.

Lemma finish_top : pre = [] ->
  exists d', free_finish pg n (chain_end (hdrOffset pg + 1) (blocks top l1)) iFreeBlk iStart s iEnd data =
    Done (SQLITE_OK, with_nFree (with_data pg d') (nFree pg + n)) /\
    page_ok (with_nFree (with_data pg d') (nFree pg + n)) iEnd rest /\
    forall j, 0 <= j -> kept j -> d'.[j] = (aData pg).[j].
Proof.
  intros Hpre. destruct place_bounds as (_ & Hrest & Hs & Hi & He & Hp1 & Hp2 & Ht & He2 & Hfb & Hnn & Hn3 & _).
  pose proof free_page_range as (Hh & Ht8 & Ht' & Hl & Hu & _). destruct free_segs as (_ & Hn4 & _).
  pose proof finish_sum as Hsum. pose proof rest_first as Hfirst. pose proof kept_cell as Hkc.
  pose proof (place_frag _ _ _ _ _ _ _ _ _ _ _ _ _ _ _ Hplace) as Hfrag.
  pose proof (place_data _ _ _ _ _ _ _ _ _ _ _ _ _ _ _ Hplace) as (L0 & B0 & F0).
  assert (l1 = []) as El1.
  { pose proof (prev_link _ _ _ _ _ _ _ _ _ (place_prev _ _ _ _ _ _ _ _ _ _ _ _ _ _ _ Hplace)) as [[? _]|[? _]]; congruence. }
  assert (frags pre = 0 /\ frees pre = 0 /\ total pre = 0) as (Ez1 & Ez2 & Ez3) by (by rewrite Hpre).
  assert (total l1 = 0) as Ez4 by (by rewrite El1).
  assert (s = n2) as Es by lia.
  replace (chain_end (hdrOffset pg + 1) (blocks top l1)) with (hdrOffset pg + 1) by (by rewrite El1).
  unfold free_finish, free_link. rewrite get2byte_ok by (done || lia). cbn [mbind outcome_bind].
  assert (g2 data (hdrOffset pg + 5) = top) as ->.
  { rewrite <- top_small. unfold g2. rewrite !F0 by lia. done. }
  rewrite (proj2 (Z.leb_le iStart top)), (proj2 (Z.ltb_ge iStart top)), Z.eqb_refl by lia. cbn [negb].
  destruct (put2byte_ok data (hdrOffset pg + 1) iFreeBlk B0) as (d1 & -> & (L1 & B1 & F1) & G1); [lia|lia|]. cbn [mbind outcome_bind].
  destruct (put2byte_ok d1 (hdrOffset pg + 5) iEnd B1) as (d2 & -> & (L2 & B2 & F2) & G2); [lia|lia|]. cbn [mbind outcome_bind].
  destruct (write_block_ok d2 iStart iFreeBlk s B2) as (d3 & E3 & (L3 & B3 & F3) & G3 & G4); [lia|lia|lia|lia|done|].
  rewrite E3. exists d3. split; [done|].
  assert (forall j, 0 <= j -> ~ (hdrOffset pg + 1 <= j < hdrOffset pg + 3) -> ~ (hdrOffset pg + 5 <= j < hdrOffset pg + 8) ->
    ~ (iStart <= j < iEnd) -> d3.[j] = (aData pg).[j]) as Hsame.
  { intros j ? ? ? ?. rewrite F3, F2, F1, F0 by lia. done. }
  assert (g2 d3 (hdrOffset pg + 5) = iEnd mod 65536) as G5 by (unfold g2 in *; rewrite !F3 by lia; exact G2).
  split.
  - apply new_page; try done; try lia.
    + unfold top_of. rewrite G5. destruct (Z.eqb_spec (iEnd mod 65536) 0) as [Hz|Hz]; Z.to_euclidean_division_equations; lia.
    + eapply far_weaken; [|exact rest_far]. lia.
    + rewrite F3, F2, F1 by lia. rewrite Hfrag. lia.
    + apply rest_blocks; [intros j Hj; apply Hsame; lia|]. unfold g2 in *. rewrite !F3, !F2 by lia. rewrite G1. apply Z.mod_small. lia.
  - intros j Hj Hk. destruct Hk as [?|[?|[?|[?|(a & m & Hin & Hk)]]]]; try (apply Hsame; lia).
    apply Hkc in Hin. apply Hsame; lia.
Qed.

(** Where the link to the new block is. *)
Abbreviation link := (chain_end (hdrOffset pg + 1) (blocks top pre)).

Lemma link_place : link = hdrOffset pg + 1 \/ exists k, (link, k) ∈ blocks top pre /\ top <= link /\ link + 4 <= iStart.
Proof.
  destruct place_bounds as (Hpre & _ & _ & Hi & _). destruct (chain_end_in (blocks top pre) (hdrOffset pg + 1)) as [[-> _]|[k Hk]]; [by left|].
  right. exists k. split; [done|]. apply (blocks_in pre Hpre) in Hk. lia.
Qed.

(** The writes when the content area stays. *)
Lemma finish_writes : pre <> [] ->
  exists d', free_finish pg n (chain_end (hdrOffset pg + 1) (blocks top l1)) iFreeBlk iStart s iEnd data =
    Done (SQLITE_OK, with_nFree (with_data pg d') (nFree pg + n)) /\
    bytes_ok d' /\ length d' = length (aData pg) /\
    (forall j, 0 <= j -> ~ (link <= j < link + 2) -> j <> hdrOffset pg + 7 -> ~ (iStart <= j < iEnd) -> d'.[j] = (aData pg).[j]) /\
    d'.[hdrOffset pg + 7] = frags pre + frags rest /\ g2 d' link = iStart /\ g2 d' iStart = iFreeBlk /\ g2 d' (iStart + 2) = s.
Proof.
  intros Hpre. destruct place_bounds as (Hpo & Hrest & Hs & Hi & He & Hp1 & Hp2 & Ht & He2 & Hfb & Hnn & Hn3 & _).
  pose proof free_page_range as (Hh & Ht8 & Ht' & Hl & Hu & _).
  pose proof (place_frag _ _ _ _ _ _ _ _ _ _ _ _ _ _ _ Hplace) as Hfrag.
  pose proof (place_data _ _ _ _ _ _ _ _ _ _ _ _ _ _ _ Hplace) as (L0 & B0 & F0).
  pose proof (prev_link _ _ _ _ _ _ _ _ _ (place_prev _ _ _ _ _ _ _ _ _ _ _ _ _ _ _ Hplace)) as Hlink.
  pose proof link_place as Hlp. pose proof (total_pos pre Hpo Hpre).
  set (iPtr := chain_end (hdrOffset pg + 1) (blocks top l1)) in *.
  assert (iPtr = link \/ iPtr = iStart /\ g2 (aData pg) link = iStart) as Hptr.
  { destruct Hlink as [[El _]|(_ & Hp & m & Hm)]; [left; unfold iPtr; by rewrite El|right]. split; [lia|].
    pose proof (ok_chain _ _ _ Hpg) as Hc. rewrite free_blocks, Hm, <- app_assoc in Hc. apply free_chain_app in Hc.
    cbn in Hc. destruct Hc as [Hc _]. rewrite Hc. lia. }
  assert (0 <= iPtr /\ iPtr + 2 <= iEnd) as Hpr by (destruct Hptr as [->|[-> _]]; destruct Hlp as [Hlq|(k & _ & ? & ?)]; lia).
  unfold free_finish, free_link. rewrite get2byte_ok by (done || lia). cbn [mbind outcome_bind].
  assert (g2 data (hdrOffset pg + 5) = top) as ->.
  { rewrite <- top_small. unfold g2. rewrite !F0 by lia. done. }
  rewrite (proj2 (Z.leb_gt iStart top)) by lia.
  destruct (put2byte_ok data iPtr iStart B0) as (d1 & -> & (L1 & B1 & F1) & G1); [lia|lia|]. cbn [mbind outcome_bind].
  destruct (write_block_ok d1 iStart iFreeBlk s B1) as (d3 & E3 & (L3 & B3 & F3) & G3 & G4); [lia|lia|lia|lia|done|].
  rewrite E3. exists d3. split; [done|]. split; [done|]. split; [congruence|]. split; [|split; [|split; [|done]]].
  - intros j ? ? ? ?. rewrite F3 by lia. rewrite F1 by (destruct Hptr as [->|[-> _]]; lia). rewrite F0 by lia. done.
  - rewrite F3 by lia. rewrite F1; [exact Hfrag|lia|]. destruct Hptr as [->|[-> _]]; destruct Hlp as [Hlq|(k & _ & ? & ?)]; lia.
  - destruct Hptr as [Hq|[Hq Hg]].
    + rewrite Hq in G1. unfold g2 in *. rewrite !F3 by (destruct Hlp as [Hlq|(k & _ & ? & ?)]; lia). rewrite G1. apply Z.mod_small. lia.
    + transitivity (g2 (aData pg) link); [|exact Hg]. unfold g2. rewrite !F3, !F1, !F0; destruct Hlp as [Hlq|(k & _ & ? & ?)]; lia || done.
Qed.

Lemma finish_block : pre <> [] ->
  exists d', free_finish pg n (chain_end (hdrOffset pg + 1) (blocks top l1)) iFreeBlk iStart s iEnd data =
    Done (SQLITE_OK, with_nFree (with_data pg d') (nFree pg + n)) /\
    page_ok (with_nFree (with_data pg d') (nFree pg + n)) top (pre ++ Free s :: rest) /\
    forall j, 0 <= j -> kept j -> d'.[j] = (aData pg).[j].
Proof.
  intros Hpre. destruct (finish_writes Hpre) as (d' & -> & B & L & F & Ff & G1 & G2 & G3). exists d'. split; [done|].
  destruct place_bounds as (Hpo & Hrest & Hs & Hi & He & Hp1 & Hp2 & Ht & He2 & Hfb & Hnn & Hn3 & _).
  pose proof free_page_range as (Hh & Ht8 & Ht' & Hl & Hu & _). pose proof link_place as Hlp. pose proof finish_sum as Hsum.
  pose proof (prev_far _ _ _ _ _ _ _ _ _ (place_prev _ _ _ _ _ _ _ _ _ _ _ _ _ _ _ Hplace)) as Hpf.
  destruct (prev_prefix _ _ _ _ _ _ _ _ _ (place_prev _ _ _ _ _ _ _ _ _ _ _ _ _ _ _ Hplace)) as [r Er].
  pose proof (ok_far _ _ _ Hpg) as Hfar. rewrite free_blocks, Er, blocks_app, <- app_assoc in Hfar.
  apply (proj1 (far_app _ _ _)) in Hfar as [Hfar _].
  assert (blocks top (pre ++ Free s :: rest) = blocks top pre ++ (iStart, s) :: blocks iEnd rest) as Eb.
  { rewrite blocks_app. cbn [blocks]. rewrite <- Hi, He. done. }
  split.
  - apply new_page; try done; try lia.
    + unfold top_of. assert (g2 d' (hdrOffset pg + 5) = top) as ->; [|destruct (Z.eqb_spec top 0); lia].
      rewrite <- top_small. unfold g2. rewrite !F; destruct Hlp as [Hlq|(k & _ & ? & ?)]; lia || done.
    + rewrite total_app. cbn [total seg_size]. lia.
    + apply Forall_app. split; [done|]. by constructor.
    + pose proof free_first as Hff. rewrite Er in Hff. by destruct pre as [|[] ?].
    + rewrite Eb. apply far_app. split; [done|]. split; [rewrite Hi; exact Hpf|]. rewrite He. apply rest_far.
    + rewrite Ff, frags_app. done.
    + rewrite Eb. pose proof (ok_chain _ _ _ Hpg) as Hc. rewrite free_blocks, Er, blocks_app, <- app_assoc in Hc.
      eapply free_chain_replace; [exact Hc| | | | |].
      * intros a m Hin. apply (blocks_in pre Hpo) in Hin. lia.
      * eapply far_weaken; [|eapply far_blocks; [exact Hpo|exact Hfar]]. lia.
      * intros j Hj Hq. apply F; try done; lia.
      * intros a m j Hin Hj Hq. apply (blocks_in pre Hpo) in Hin. apply F; lia.
      * cbn [free_chain head_addr]. split; [done|]. split; [done|]. apply rest_blocks; [|done].
        intros j Hj. apply F; try lia. destruct Hlp as [Hlq|(k & _ & ? & ?)]; lia.
    + rewrite (frags_app pre), (frees_app pre). cbn [frags frees]. lia.
  - intros j Hj Hk. destruct Hk as [?|[?|[?|[?|(a & m & Hin & Hk)]]]];
      try (apply F; destruct Hlp as [Hlq|(k & _ & ? & ?)]; lia).
    pose proof (kept_cell a m Hin) as [Hm Ha]. apply F; try lia. destruct Hlp as [Hlq|(k & Hin' & ? & ?)]; [lia|].
    destruct Ha as [(_ & _ & Ha)|?]; [|lia]. pose proof (cells_blocks pre Hpo _ _ _ _ _ Ha Hin').
    apply (blocks_in pre Hpo) in Hin'. lia.
Qed.

(** Both cases. *)
Lemma free_finish_ok :
  exists d' top' l', free_finish pg n (chain_end (hdrOffset pg + 1) (blocks top l1)) iFreeBlk iStart s iEnd data =
    Done (SQLITE_OK, with_nFree (with_data pg d') (nFree pg + n)) /\
    page_ok (with_nFree (with_data pg d') (nFree pg + n)) top' l' /\ top <= top' /\
    cells top' l' = cells top l1 ++ cells (top + total l1 + n) l2 /\
    forall j, 0 <= j -> kept j -> d'.[j] = (aData pg).[j].
Proof.
  destruct place_bounds as (Hpo & _ & _ & Hi & He & Hp1 & _ & _ & He2 & _). pose proof free_page_range as Hr.
  pose proof (next_cells _ _ _ _ _ _ _ (place_next _ _ _ _ _ _ _ _ _ _ _ _ _ _ _ Hplace)) as Hc2. rewrite <- He2 in Hc2.
  pose proof (prev_cells _ _ _ _ _ _ _ _ _ (place_prev _ _ _ _ _ _ _ _ _ _ _ _ _ _ _ Hplace)) as Hc1.
  destruct (decide (pre = [])) as [Hp|Hp].
  - destruct (finish_top Hp) as (d' & E & H & Hk). exists d', iEnd, rest. split; [done|]. split; [done|].
    destruct place_bounds as (_ & _ & ? & _). split; [lia|]. split; [|done]. rewrite <- Hc1, <- Hc2, Hp. done.
  - destruct (finish_block Hp) as (d' & E & H & Hk). exists d', top, (pre ++ Free s :: rest). split; [done|]. split; [done|].
    split; [lia|]. split; [|done]. rewrite <- Hc1, <- Hc2, cells_app. cbn [cells seg_size].
    by replace (top + total pre + s) with iEnd by lia.
Qed.
End finish.

Lemma freeSpace_ok :
  exists d' top' l', freeSpace pg (top + total l1) n = Done (SQLITE_OK, with_nFree (with_data pg d') (nFree pg + n)) /\
    page_ok (with_nFree (with_data pg d') (nFree pg + n)) top' l' /\ top <= top' /\
    cells top' l' = cells top l1 ++ cells (top + total l1 + n) l2 /\
    forall j, 0 <= j -> kept j -> d'.[j] = (aData pg).[j].
Proof.
  pose proof free_page_range as (Hh & Ht8 & Ht' & Hl & Hu & Hp1 & Hp2). pose proof (ok_bytes _ _ _ Hpg) as Hb.
  destruct free_segs as (H1 & Hn4 & H2). unfold freeSpace. rewrite !rd_ok by lia. cbn [mbind outcome_bind].
  pose proof (ld_ok (aData pg) (hdrOffset pg + 1) Hb). pose proof (ld_ok (aData pg) (hdrOffset pg + 2) Hb).
  destruct (_ && _) eqn:E0.
  - cbn [mbind outcome_bind]. destruct free_list_empty as [E1 E2].
    { unfold g2. replace (hdrOffset pg + 1 + 1) with (hdrOffset pg + 2) by lia. lia. }
    assert (place_ok pg top l1 n l2 0 (top + total l1) n (top + total l1 + n) (aData pg) n 0 0 l1 l2) as Hplace.
    { split.
      - split; try done; try lia; rewrite E2; [|done]. exists (hdrOffset pg + 1).
        pose proof (ok_chain _ _ _ Hpg) as Hc. by rewrite free_blocks, E1, E2 in Hc.
      - split; try done; try lia; [by exists []; rewrite app_nil_r| |by left]. rewrite E1. cbn. lia.
      - by rewrite E2.
      - by apply same_outside_refl.
      - rewrite (ok_frag _ _ _ Hpg), frags_app. done. }
    pose proof (free_finish_ok _ _ _ _ _ _ _ _ _ _ Hplace) as Hf. rewrite E1 in Hf. exact Hf.
  - destruct free_place_ok as ([[[[[iPtr iFreeBlk] iStart] s] iEnd] data] & n2 & nf & nf' & pre & rest & -> & -> & Hplace).
    cbn [mbind outcome_bind]. exact (free_finish_ok _ _ _ _ _ _ _ _ _ _ Hplace).
Qed.
End free.

(** C20. [freeSpace] gives a cell back.  On a page with any layout and for any of its cells:
    it succeeds, never finding the page corrupt nor touching a byte outside it; the new
    page has a layout again, with the chain of free blocks, the fragment count, the start
    of the content area and [nFree] all consistent; its cells are the others, where they
    were; and no byte of these, of the cell pointers or of the rest of the page changes. *)
Theorem freeSpace_correct pg top l1 n l2 :
  page_ok pg top (l1 ++ Cell n :: l2) ->
  exists d' top' l', freeSpace pg (top + total l1) n = Done (SQLITE_OK, with_nFree (with_data pg d') (nFree pg + n)) /\
    page_ok (with_nFree (with_data pg d') (nFree pg + n)) top' l' /\ top <= top' /\
    cells top' l' = cells top l1 ++ cells (top + total l1 + n) l2 /\
    forall j, 0 <= j -> kept pg top l1 n l2 j -> d'.[j] = (aData pg).[j].
Proof. apply freeSpace_ok. Qed.

(** ** Witnesses *)

(** A leaf page of 32 bytes with two cells and a free block between them. *)
Definition sample_page : MemPage :=
  mk_page [13; 0; 21; 0; 2; 0; 16; 0; 0; 16; 0; 25; 0; 0; 0; 0; 3; 1; 97; 98; 99; 0; 0; 0; 4; 5; 2; 1; 2; 3; 4; 5]
    0 0 8 2 8 32 false.

Lemma sample_page_ok : page_ok sample_page 16 ([Cell 5; Free 4] ++ [Cell 7]).
Proof. split; try done; try (vm_compute; done); repeat constructor; done. Qed.

Lemma computeFreeSpace_correct_witness :
  exists pg', btreeComputeFreeSpace sample_page = Done (SQLITE_OK, pg') /\ nFree pg' = 8.
Proof.
  destruct (computeFreeSpace_correct sample_page) as (rc & pg' & E & _).
  - split; try done; repeat constructor; done.
  - exists pg'. assert (E' := E). vm_compute in E'. injection E' as <- <-. by split.
Defined.

Lemma freeSpace_correct_witness :
  exists d', freeSpace sample_page 25 7 = Done (SQLITE_OK, with_nFree (with_data sample_page d') 15).
Proof.
  destruct (freeSpace_correct sample_page 16 [Cell 5; Free 4] 7 [] sample_page_ok) as (d' & _ & _ & E & _). by exists d'.
Defined.
