(* ===== verification/PageAlloc.v ===== *)
(** * PageAlloc: allocation in a b-tree page

    Theorems on [pageFindSlot], [defragmentPage] and [allocateSpace] of PageHeap.v: they
    keep the layout of a page, and the cells keep their bytes. *)

From S2P Require Import Prelude CType ByteMem PageHeap.

(** * pageFindSlot *)

Lemma blocks_split l : forall a bs1 b n bs2, blocks a l = bs1 ++ (b, n) :: bs2 ->
  exists l1 l2, l = l1 ++ Free n :: l2 /\ blocks a l1 = bs1 /\ b = a + total l1 /\ bs2 = blocks (b + n) l2.
Proof.
  induction l as [|s l IH]; intros a bs1 b n bs2 H; cbn [blocks] in H; [by destruct bs1|].
  assert (forall bs1', blocks (a + seg_size s) l = bs1' ++ (b, n) :: bs2 ->
    exists l1 l2, l = l1 ++ Free n :: l2 /\ blocks (a + seg_size s) l1 = bs1' /\ b = a + seg_size s + total l1 /\ bs2 = blocks (b + n) l2) as Hgo
    by (intros bs1'; apply IH). clear IH.
  destruct s as [m|m|m]; cbn [seg_size] in Hgo.
  - destruct (Hgo bs1 H) as (l1 & l2 & -> & <- & -> & ->). exists (Cell m :: l1), l2. cbn [app blocks total seg_size].
    split; [done|]. split; [done|]. split; [lia|done].
  - destruct bs1 as [|c bs1]; cbn [app] in H.
    + injection H as -> -> <-. exists [], l. cbn [app blocks total]. split; [done|]. split; [done|]. split; [lia|done].
    + injection H as <- H. destruct (Hgo bs1 H) as (l1 & l2 & -> & <- & -> & ->). exists (Free m :: l1), l2. cbn [app blocks total seg_size].
      split; [done|]. split; [done|]. split; [lia|done].
  - destruct (Hgo bs1 H) as (l1 & l2 & -> & <- & -> & ->). exists (Frag m :: l1), l2. cbn [app blocks total seg_size].
    split; [done|]. split; [done|]. split; [lia|done].
Qed.

(** A slot of [nByte] bytes at the end of a free block of [n] bytes. *)
Record slot_ok (d : bytes) (hdr top : Z) (l : list seg) (nByte slot : Z) (d' : bytes) (l1 : list seg) (n : Z) (l2 : list seg) : Prop := {
  slot_layout : l = l1 ++ Free n :: l2;
  slot_fits : nByte <= n;
  slot_addr : slot = top + total l1 + (n - nByte);
  slot_data :
    let pc := top + total l1 in
    let q := chain_end (hdr + 1) (blocks top l1) in
    let x := n - nByte in
    bytes_ok d' /\ length d' = length d /\
    ((x < 4 /\ (forall j, 0 <= j -> ~ (q <= j < q + 2) -> j <> hdr + 7 -> d'.[j] = d.[j]) /\
       g2 d' q = head_addr (blocks (pc + n) l2) /\ d'.[hdr + 7] = d.[hdr + 7] + x) \/
     (4 <= x /\ (forall j, 0 <= j -> ~ (pc + 2 <= j < pc + 4) -> d'.[j] = d.[j]) /\ g2 d' (pc + 2) = x))
}.

Section find.
Context (pg : MemPage) (top : Z) (l : list seg) (nByte : Z).
Hypothesis Hpg : page_ok pg top l.
Hypothesis HnByte : 4 <= nByte.

Lemma page_range :
  0 <= hdrOffset pg /\ hdrOffset pg + 8 <= top /\ top + total l = usableSize pg /\
  usableSize pg <= len (aData pg) /\ usableSize pg <= 65536 /\ 0 <= total l.
Proof.
  destruct Hpg as [_ Hl Hu Hh Hg _ Ht Hs _ _ _ _ _]. pose proof (total_nonneg l Hs). lia.
Qed.

Lemma slot_block l1 n l2 : l = l1 ++ Free n :: l2 ->
  let pc := top + total l1 in
  let q := chain_end (hdrOffset pg + 1) (blocks top l1) in
  Forall seg_ok l1 /\ 4 <= n /\ Forall seg_ok l2 /\ top <= pc /\ pc + n + total l2 = usableSize pg /\
  blocks top l = blocks top l1 ++ (pc, n) :: blocks (pc + n) l2 /\
  g2 (aData pg) q = pc /\ g2 (aData pg) (pc + 2) = n /\ free_chain (aData pg) pc (blocks (pc + n) l2) /\
  (q = hdrOffset pg + 1 \/ (top <= q /\ q + 4 <= pc /\ exists k, (q, k) ∈ blocks top l1)).
Proof.
  intros El pc q. pose proof page_range as (Hh & Ht8 & Ht & Hl & Hu & Hp).
  pose proof (ok_segs _ _ _ Hpg) as Hs. pose proof (ok_chain _ _ _ Hpg) as Hc. rewrite El in *.
  apply Forall_app in Hs as [H1 [Hn H2]%Forall_cons]. cbn [seg_ok] in Hn. rewrite total_app in *. cbn [total seg_size] in *.
  pose proof (total_nonneg l1 H1). rewrite blocks_app in *. cbn [blocks] in *. apply free_chain_app in Hc. fold q pc in Hc.
  cbn [free_chain head_addr] in Hc. destruct Hc as (E1 & E2 & E3). fold pc.
  repeat (split; [done || lia|]). 
  destruct (chain_end_in (blocks top l1) (hdrOffset pg + 1)) as [[Hq _]|[k Hk]]; [by left|right].
  fold q in Hk. pose proof (blocks_in l1 H1 _ _ _ Hk). split; [lia|]. split; [lia|]. by exists k.
Qed.

(** A block that is large enough. *)
Lemma find_fit l1 n l2 fuel : l = l1 ++ Free n :: l2 -> nByte <= n ->
  exists slot d', find_slot_loop (S fuel) (hdrOffset pg) (usableSize pg) nByte (aData pg)
      (chain_end (hdrOffset pg + 1) (blocks top l1)) (top + total l1) = Done (SQLITE_OK, slot, d') /\
    match slot with
    | None => d' = aData pg
    | Some a => slot_ok (aData pg) (hdrOffset pg) top l nByte a d' l1 n l2
    end.
Proof.
  intros El Hfit. pose proof page_range as (Hh & Ht8 & Ht & Hl & Hu & Hp). pose proof (ok_bytes _ _ _ Hpg) as Hb.
  destruct (slot_block l1 n l2 El) as (H1 & Hn & H2 & Hpc & Hend & _ & Gq & Gn & Gc & Hq).
  pose proof (total_nonneg l2 H2). set (pc := top + total l1) in *. set (q := chain_end (hdrOffset pg + 1) (blocks top l1)) in *.
  cbn [find_slot_loop]. rewrite (proj2 (Z.leb_le pc _)) by lia. rewrite (get2byte_ok _ (pc + 2)) by (done || lia).
  cbn [mbind outcome_bind]. rewrite Gn. rewrite (proj2 (Z.leb_le 0 (n - nByte))) by lia.
  destruct (Z.ltb_spec (n - nByte) 4) as [Hx|Hx].
  - rewrite rd_ok by lia. cbn [mbind outcome_bind].
    destruct (Z.ltb_spec 57 ((aData pg).[hdrOffset pg + 7])) as [Hfr|Hfr]; [by eexists None, _|].
    pose proof (ld_ok (aData pg) (hdrOffset pg + 7) Hb).
    destruct (memcpy_ok (aData pg) q (aData pg) pc 2 Hb Hb) as (d1 & -> & (L1 & B1 & F1) & C1); [lia|lia|lia|lia|lia|]. cbn [mbind outcome_bind].
    destruct (wr_ok d1 (hdrOffset pg + 7) (u8 ((aData pg).[hdrOffset pg + 7] + u8 (n - nByte))) B1) as (d2 & -> & (L2 & B2 & F2) & G2);
      [apply u8_range|lia|]. cbn [mbind outcome_bind].
    exists (Some (pc + (n - nByte))), d2. split; [done|]. split; try done. cbv zeta. fold pc q.
    split; [done|]. split; [congruence|]. left. split; [done|]. split; [|split].
    + intros j ? ? ?. rewrite F2, F1 by lia. done.
    + assert (g2 (aData pg) pc = head_addr (blocks (pc + n) l2)) as <- by (destruct (blocks (pc + n) l2) as [|[? ?] ?]; by destruct Gc).
      unfold g2. rewrite !F2 by lia. pose proof (C1 0 ltac:(lia)) as E0. pose proof (C1 1 ltac:(lia)) as E1.
      rewrite !Z.add_0_r in E0. by rewrite E0, E1.
    + rewrite G2, (u8_id (n - nByte)), u8_id by lia. done.
  - rewrite (proj2 (Z.ltb_ge (usableSize pg - nByte) _)) by lia.
    destruct (put2byte_ok (aData pg) (pc + 2) (n - nByte) Hb) as (d1 & -> & (L1 & B1 & F1) & G1); [lia|lia|]. cbn [mbind outcome_bind].
    exists (Some (pc + (n - nByte))), d1. split; [done|]. split; try done. cbv zeta. fold pc q.
    split; [done|]. split; [done|]. right. split; [done|]. split.
    + intros j ? ?. apply F1; lia.
    + rewrite G1. apply Z.mod_small. lia.
Qed.

Lemma find_slot_loop_ok bs2 : forall bs1 pc n fuel,
  blocks top l = bs1 ++ (pc, n) :: bs2 -> (length bs2 < fuel)%nat ->
  exists slot d', find_slot_loop fuel (hdrOffset pg) (usableSize pg) nByte (aData pg) (chain_end (hdrOffset pg + 1) bs1) pc
      = Done (SQLITE_OK, slot, d') /\
    match slot with
    | None => d' = aData pg
    | Some a => exists l1 m l2, slot_ok (aData pg) (hdrOffset pg) top l nByte a d' l1 m l2
    end.
Proof.
  pose proof page_range as (Hh & Ht8 & Ht & Hl & Hu & Hp). pose proof (ok_bytes _ _ _ Hpg) as Hb.
  induction bs2 as [|[c k] bs2 IH]; intros bs1 pc n fuel E Hf; (destruct fuel as [|fuel]; [lia|]);
    destruct (blocks_split _ _ _ _ _ _ E) as (l1 & l2 & El & Eb1 & Epc & Eb2);
    (destruct (Z.le_gt_cases nByte n) as [Hfit|Hfit];
     [rewrite <- Eb1, Epc; destruct (find_fit l1 n l2 fuel El Hfit) as (slot & d' & -> & Hs); exists slot, d'; split; [done|];
      destruct slot; [by exists l1, n, l2|done]|]);
    destruct (slot_block l1 n l2 El) as (H1 & Hn & H2 & Hpc & Hend & _ & Gq & Gn & Gc & Hq); rewrite <- Epc, <- Eb2 in *; rewrite Eb1 in *;
    pose proof (total_nonneg l2 H2); cbn [find_slot_loop].
  - destruct (Z.leb_spec pc (usableSize pg - nByte)).
    + rewrite !get2byte_ok by (done || lia). cbn [mbind outcome_bind]. rewrite Gn. rewrite (proj2 (Z.leb_gt 0 _)) by lia.
      destruct Gc as [-> _]. cbn [head_addr]. rewrite (proj2 (Z.leb_le 0 _)) by lia. cbn. by eexists None, _.
    + rewrite (proj2 (Z.ltb_ge _ pc)) by lia. by eexists None, _.
  - destruct (Z.leb_spec pc (usableSize pg - nByte)).
    + rewrite !get2byte_ok by (done || lia). cbn [mbind outcome_bind]. rewrite Gn. rewrite (proj2 (Z.leb_gt 0 _)) by lia.
      destruct Gc as [-> _]. cbn [head_addr].
      assert (pc + n + 4 <= c) as Hc.
      { pose proof (ok_far _ _ _ Hpg) as Hfar. rewrite E in Hfar. apply far_app in Hfar as [_ [_ [Hfar _]]]. done. }
      rewrite (proj2 (Z.leb_gt c _)) by lia.
      specialize (IH (bs1 ++ [(pc, n)]) c k fuel). rewrite chain_end_app in IH. cbn [chain_end foldl] in IH. apply IH.
      * by rewrite E, <- app_assoc.
      * simpl in Hf. lia.
    + rewrite (proj2 (Z.ltb_ge _ pc)) by lia. by eexists None, _.
Qed.
End find.

(** The bytes an allocation keeps: all but the header fields and the free space. *)
Definition steady (pg : MemPage) (top : Z) (l : list seg) (j : Z) : Prop :=
  j < hdrOffset pg + 1 \/ hdrOffset pg + 3 <= j < hdrOffset pg + 5 \/
  hdrOffset pg + 8 <= j < cellOffset pg + 2 * nCell pg \/ usableSize pg <= j \/
  exists a m, (a, m) ∈ cells top l /\ a <= j < a + m.

(** A new cell among the others. *)
Definition cell_added (old new : list (Z * Z)) (a n : Z) : Prop := exists c1 c2, old = c1 ++ c2 /\ new = c1 ++ (a, n) :: c2.

Definition taken_page (pg : MemPage) (d' : bytes) (nByte : Z) : MemPage := with_nFree (with_data pg d') (nFree pg - nByte).

(** The layout in place of the block. *)
Definition slot_layout_of (l1 : list seg) (x nByte : Z) (l2 : list seg) : list seg :=
  l1 ++ (if x <? 4 then if x =? 0 then [] else [Frag x] else [Free x]) ++ Cell nByte :: l2.

Section slot.
Context (pg : MemPage) (top : Z) (l : list seg) (nByte : Z).
Hypothesis Hpg : page_ok pg top l.
Hypothesis HnByte : 4 <= nByte.
Context (a : Z) (d' : bytes) (l1 : list seg) (n : Z) (l2 : list seg).
Hypothesis Hslot : slot_ok (aData pg) (hdrOffset pg) top l nByte a d' l1 n l2.

Abbreviation x := (n - nByte).
Abbreviation pc := (top + total l1).

Lemma slot_facts :
  l = l1 ++ Free n :: l2 /\ 0 <= x /\ 0 <= total l1 /\ 0 <= total l2 /\ Forall seg_ok l1 /\ Forall seg_ok l2.
Proof.
  destruct Hslot as [El Hf _ _]. destruct (slot_block pg top l Hpg l1 n l2 El) as (H1 & _ & H2 & _).
  pose proof (total_nonneg l1 H1). pose proof (total_nonneg l2 H2). split; [done|]. split; [lia|]. done.
Qed.

Lemma slot_blocks :
  blocks top (slot_layout_of l1 x nByte l2) = blocks top l1 ++ (if x <? 4 then [] else [(pc, x)]) ++ blocks (pc + n) l2.
Proof.
  unfold slot_layout_of. rewrite blocks_app. f_equal.
  destruct (x <? 4); [destruct (Z.eqb_spec x 0) as [E|E]|]; cbn [app blocks seg_size].
  - by replace (pc + nByte) with (pc + n) by lia.
  - by replace (pc + x + nByte) with (pc + n) by lia.
  - by replace (pc + x + nByte) with (pc + n) by lia.
Qed.

Lemma slot_cells : cell_added (cells top l) (cells top (slot_layout_of l1 x nByte l2)) a nByte.
Proof.
  destruct slot_facts as (El & _). pose proof (slot_addr _ _ _ _ _ _ _ _ _ _ Hslot) as Ea.
  exists (cells top l1), (cells (pc + n) l2). split.
  - rewrite El, cells_app. done.
  - unfold slot_layout_of. rewrite cells_app. f_equal.
    destruct (x <? 4); [destruct (Z.eqb_spec x 0) as [E|E]|]; cbn [app cells seg_size].
    + replace pc with a at 1 by lia. by replace (pc + nByte) with (pc + n) by lia.
    + replace (pc + x) with a at 1 by lia. by replace (pc + x + nByte) with (pc + n) by lia.
    + replace (pc + x) with a at 1 by lia. by replace (pc + x + nByte) with (pc + n) by lia.
Qed.

Lemma slot_sums :
  total (slot_layout_of l1 x nByte l2) = total l /\
  frags (slot_layout_of l1 x nByte l2) = frags l + (if x <? 4 then x else 0) /\
  frags (slot_layout_of l1 x nByte l2) + frees (slot_layout_of l1 x nByte l2) = frags l + frees l - nByte.
Proof.
  destruct slot_facts as (-> & _). unfold slot_layout_of. rewrite !total_app, !frags_app, !frees_app.
  destruct (x <? 4); [destruct (Z.eqb_spec x 0)|]; cbn [app total frags frees seg_size]; lia.
Qed.

(** The chain of the new layout. *)
Lemma slot_chain : free_chain d' (hdrOffset pg + 1) (blocks top (slot_layout_of l1 x nByte l2)).
Proof.
  destruct slot_facts as (El & Hx & Hp1 & Hp2 & H1 & H2). destruct (slot_block pg top l Hpg l1 n l2 El) as (_ & _ & _ & _ & Hend & Eb & Gq & _ & Gc & Hq).
  destruct (page_range pg top l Hpg) as (Hh & Ht8 & _). destruct Hslot as [_ _ _ (B & L & Hd)].
  pose proof (ok_chain _ _ _ Hpg) as Hc. rewrite Eb in Hc. pose proof (ok_far _ _ _ Hpg) as Hfar. rewrite Eb in Hfar.
  apply (proj1 (far_app _ _ _)) in Hfar as [Hfar _]. rewrite slot_blocks.
  assert (forall b m, (b, m) ∈ blocks (pc + n) l2 -> pc + n <= b) as Hb2.
  { intros b m Hin. apply (blocks_in l2 H2) in Hin. lia. }
  set (q := chain_end (hdrOffset pg + 1) (blocks top l1)) in *.
  assert (hdrOffset pg + 1 <= q /\ (q = hdrOffset pg + 1 \/ hdrOffset pg + 8 <= q) /\ q + 4 <= pc) as Hq' by (destruct Hq as [->|(? & ? & _)]; lia).
  eapply free_chain_replace; [exact Hc| | | | |].
  - intros b m Hin. apply (blocks_in l1 H1) in Hin. lia.
  - eapply far_weaken; [|eapply far_blocks; [exact H1|exact Hfar]]. lia.
  - intros j Hj Hnq. fold q in Hnq. destruct Hd as [(Hx4 & F & _)|(Hx4 & F & _)]; apply F; lia.
  - intros b m j Hin Hj Hnq. fold q in Hnq. apply (blocks_in l1 H1) in Hin. destruct Hd as [(Hx4 & F & _)|(Hx4 & F & _)]; apply F; lia.
  - fold q. destruct Hd as [(Hx4 & F & G & _)|(Hx4 & F & G)].
    + rewrite (proj2 (Z.ltb_lt _ _)) by lia. cbn [app].
      destruct (blocks (pc + n) l2) as [|[b m] bs]; [by split|]. cbn [free_chain head_addr] in *. destruct Gc as (_ & G2 & G3).
      assert (pc + n <= b) by (apply (Hb2 b m); by left).
      split; [done|]. split; [unfold g2 in *; rewrite !F by lia; done|]. eapply free_chain_frame; [| |exact G3].
      * intros j Hj. apply F; lia.
      * intros c k j Hin Hj. assert (pc + n <= c) by (apply (Hb2 c k); by right). apply F; lia.
    + rewrite (proj2 (Z.ltb_ge _ _)) by lia. cbn [app free_chain head_addr]. split; [|split].
      * unfold g2 in *. rewrite !F by lia. done.
      * done.
      * eapply free_chain_frame; [| |exact Gc]; [intros j Hj; apply F; lia|].
        intros c k j Hin Hj. apply Hb2 in Hin. apply F; lia.
Qed.

Lemma slot_page :
  page_ok (taken_page pg d' nByte) top (slot_layout_of l1 x nByte l2) /\
  forall j, 0 <= j -> steady pg top l j -> d'.[j] = (aData pg).[j].
Proof.
  destruct slot_facts as (El & Hx & Hp1 & Hp2 & H1 & H2). destruct slot_sums as (Es1 & Es2 & Es3). pose proof slot_chain as Hc.
  destruct (slot_block pg top l Hpg l1 n l2 El) as (_ & Hn4 & _ & _ & Hend & Eb & Gq & _ & Gc & Hq).
  pose proof (page_range pg top l Hpg) as Hr. pose proof (ok_segs _ _ _ Hpg) as Hsegs. pose proof slot_blocks as Esb. pose proof (ok_gap _ _ _ Hpg).
  destruct Hslot as [_ Hfit _ (B & L & Hd)]. set (q := chain_end (hdrOffset pg + 1) (blocks top l1)) in *.
  pose proof (proj1 (ok_hdr _ _ _ Hpg)). pose proof (proj2 (ok_hdr _ _ _ Hpg)) as Hhdr2.
  assert (forall j, 0 <= j -> ~ (q <= j < q + 2) -> ~ (pc <= j < pc + 4) -> j <> hdrOffset pg + 7 -> d'.[j] = (aData pg).[j]) as Hsame.
  { intros j ? ? ? ?. destruct Hd as [(_ & F & _)|(_ & F & _)]; apply F; lia. }
  split.
  - pose proof Hpg as Hpg'. destruct Hpg' as [Hb Hl Hu Hh Hg Ht Htot _ Hfirst Hfar Hfrag _ Hn]. split; cbn; try done; try lia.
    + unfold top_of in *. assert (g2 d' (hdrOffset pg + 5) = g2 (aData pg) (hdrOffset pg + 5)) as ->; [|done].
      unfold g2. rewrite !Hsame; lia || done || (destruct Hq as [->|(? & ? & _)]; lia).
    + unfold slot_layout_of. apply Forall_app. split; [done|]. apply Forall_app. split; [|by constructor].
      destruct (Z.ltb_spec x 4); [destruct (Z.eqb_spec x 0)|]; repeat constructor; cbn; lia.
    + unfold slot_layout_of. rewrite El in Hfirst. by destruct l1 as [|[] ?].
    + rewrite Esb. rewrite Eb in Hfar. apply far_app in Hfar as [Hf1 [Hf2 Hf3]]. apply far_app. split; [done|].
      destruct (Z.ltb_spec x 4); cbn [app far].
      * eapply far_weaken; [|exact Hf3]. lia.
      * split; [done|]. eapply far_weaken; [|exact Hf3]. lia.
    + rewrite Es2, <- Hfrag. destruct Hd as [(Hx4 & _ & _ & G)|(Hx4 & F & _)].
      * etrans; [exact G|]. by rewrite (proj2 (Z.ltb_lt _ _)) by lia.
      * etrans; [apply F; lia|]. rewrite (proj2 (Z.ltb_ge _ _)) by lia. lia.
  - intros j Hj Hk.
    assert (forall b m, (b, m) ∈ cells top l -> forall c k, (c, k) ∈ blocks top l -> b + m <= c \/ c + k <= b) as Hdis
      by (intros ? ? ? ? ? ?; by eapply cells_blocks).
    assert ((pc, n) ∈ blocks top l) as Hpcin by (rewrite Eb; apply elem_of_app; right; by left).
    destruct Hk as [?|[?|[?|[?|(b & m & Hin & Hk)]]]]; try (apply Hsame; destruct Hq as [Hq|(? & ? & _)]; lia).
    pose proof (Hdis b m Hin pc n Hpcin). pose proof (cells_in l Hsegs _ _ _ Hin).
    apply Hsame; try lia. destruct Hq as [Hq|(? & ? & k & Hqin)]; [lia|].
    assert ((q, k) ∈ blocks top l) as Hqin' by (rewrite Eb; apply elem_of_app; by left).
    pose proof (Hdis b m Hin q k Hqin'). apply (blocks_in l Hsegs) in Hqin'. lia.
Qed.
End slot.
