(* ===== verification/PageDefrag.v ===== *)
(** * PageDefrag: defragmentation of a b-tree page

    [defragmentPage] of PageHeap.v brings all the free space of a page together, and
    [allocateSpace], which uses it, always finds room when there are enough free bytes.
    The cells of a page are named by their pointers; what they hold is their bytes. *)

From S2P Require Import Prelude CType ByteMem PageHeap PageAlloc.

(** The size of a cell depends on the bytes of the cell alone. *)
Class CellFormatLaws `{CellFormat} := cell_local : forall d d' a a' n,
  bytes_ok d -> bytes_ok d' -> 0 <= a -> a + n <= len d -> 0 <= a' -> a' + n <= len d' ->
  xCellSize d a = Done n -> (forall j, 0 <= j < n -> d'.[a' + j] = d.[a + j]) -> xCellSize d' a' = Done n.

(** The cells of a page in the order of their pointers. *)
Record listed `{CellFormat} (pg : MemPage) (ps : list (Z * Z)) : Prop := {
  listed_length : len ps = nCell pg;
  listed_pointer : forall i a n, ps !! i = Some (a, n) -> g2 (aData pg) (cellOffset pg + 2 * Z.of_nat i) = a;
  listed_size : forall a n, (a, n) ∈ ps -> xCellSize (aData pg) a = Done n
}.

(** Every cell of [ps] has the same bytes as the cell of [ps'] in its place. *)
Definition moved (d : bytes) (ps : list (Z * Z)) (d' : bytes) (ps' : list (Z * Z)) : Prop :=
  Forall2 (fun '(a, n) '(a', n') => n' = n /\ forall j, 0 <= j < n -> d'.[a' + j] = d.[a + j]) ps ps'.

Lemma total_cells l : forall a, foldr (fun c s => snd c + s) 0 (cells a l) = total l - frags l - frees l.
Proof. induction l as [|[n|n|n] l IH]; intros a; cbn; rewrite ?IH; lia. Qed.

Lemma sum_perm (ps qs : list (Z * Z)) : ps ≡ₚ qs -> foldr (fun c s => snd c + s) 0 ps = foldr (fun c s => snd c + s) 0 qs.
Proof. induction 1; cbn; lia. Qed.

(** ** The end of both ways *)

Lemma defragment_out_ok pg data cbrk l' :
  geometry_ok pg -> cellOffset pg = hdrOffset pg + 8 + childPtrSize pg -> bytes_ok data -> length data = length (aData pg) ->
  data.[hdrOffset pg + 7] = frags l' -> cbrk + total l' = usableSize pg -> Forall seg_ok l' -> no_free l' ->
  cellOffset pg + 2 * nCell pg <= cbrk -> nFree pg = frags l' + cbrk - (cellOffset pg + 2 * nCell pg) ->
  exists d', defragment_out pg cbrk data = Done (SQLITE_OK, with_data pg d') /\ page_ok (with_data pg d') cbrk l' /\ length d' = length data /\
    forall j, 0 <= j -> hdrOffset pg + 8 <= j < cellOffset pg + 2 * nCell pg \/ cbrk <= j \/ j < hdrOffset pg + 1 \/ hdrOffset pg + 3 <= j < hdrOffset pg + 5 ->
      d'.[j] = data.[j].
Proof.
  intros [_ Hl Hu Hh] Hco Hb L Hfr Ht Hs Hno Hgap Hn. pose proof (total_nonneg l' Hs).
  unfold defragment_out. set (first := cellOffset pg + 2 * nCell pg) in *. set (hdr := hdrOffset pg) in *.
  rewrite rd_ok by lia. cbn [mbind outcome_bind]. rewrite Hfr, (proj2 (Z.eqb_eq _ _)) by lia. cbn [negb].
  destruct (put2byte_ok data (hdr + 5) cbrk Hb) as (d1 & -> & (L1 & B1 & F1) & G1); [lia|lia|]. cbn [mbind outcome_bind].
  destruct (wr_ok d1 (hdr + 1) 0 B1) as (d2 & -> & (L2 & B2 & F2) & G2); [unfold is_byte; lia|lia|]. cbn [mbind outcome_bind].
  destruct (wr_ok d2 (hdr + 2) 0 B2) as (d3 & -> & (L3 & B3 & F3) & G3); [unfold is_byte; lia|lia|]. cbn [mbind outcome_bind].
  destruct (memset_ok d3 first 0 (cbrk - first) B3) as (d4 & -> & (L4 & B4 & F4)); [unfold is_byte; lia|lia|lia|lia|]. cbn [mbind outcome_bind].
  exists d4. split; [done|].
  assert (blocks cbrk l' = []) as Hbl by (by eapply blocks_nil).
  split.
  - split; cbn; fold hdr first; rewrite ?Hbl; try done; try lia.
    + unfold top_of, g2 in *. rewrite !F4, !F3, !F2 by lia. rewrite G1.
      destruct (Z.eqb_spec (cbrk mod 65536) 0); Z.to_euclidean_division_equations; lia.
    + destruct l' as [|[] ?]; done.
    + etrans; [apply F4; lia|]. rewrite F3, F2, F1 by lia. done.
    + cbn. split; [|done]. unfold g2. replace (hdr + 1 + 1) with (hdr + 2) by lia.
      rewrite !F4 by lia. rewrite G3, F3, G2 by lia. done.
    + rewrite (no_free_frees l' cbrk Hbl). lia.
  - split; [congruence|]. intros j Hj Hk. rewrite F4, F3, F2, F1 by lia. done.
Qed.

(** ** The general case *)

Section general.
Context {CF : CellFormat} {CL : CellFormatLaws}.
Context (pg : MemPage) (top : Z) (l : list seg) (ps : list (Z * Z)) (temp0 : bytes).
Hypothesis Hpg : page_ok pg top l.
Hypothesis Hps : listed pg ps.
Hypothesis Hperm : ps ≡ₚ cells top l.
Hypothesis Htemp : bytes_ok temp0 /\ usableSize pg <= len temp0.

Abbreviation d := (aData pg).
Abbreviation off := (cellOffset pg).
Abbreviation sum := (foldr (fun c s => snd c + s) 0).

Lemma ps_in a n : (a, n) ∈ ps -> top <= a /\ a + n <= usableSize pg /\ 4 <= n.
Proof.
  intros Hin. rewrite Hperm in Hin. pose proof (ok_total _ _ _ Hpg). apply (cells_in l (ok_segs _ _ _ Hpg)) in Hin. lia.
Qed.

Lemma ps_sum : sum ps = total l - frags l - frees l.
Proof. by rewrite (sum_perm _ _ Hperm), total_cells. Qed.

Lemma sum_nonneg (qs : list (Z * Z)) : (forall a n, (a, n) ∈ qs -> 4 <= n) -> 0 <= sum qs.
Proof.
  induction qs as [|[a n] qs IH]; intros H; cbn; [done|]. assert (4 <= n) by (apply (H a); by left).
  assert (0 <= sum qs) by (apply IH; intros b m ?; apply (H b); by right). lia.
Qed.

Lemma sum_app (qs rs : list (Z * Z)) : sum (qs ++ rs) = sum qs + sum rs.
Proof. induction qs as [|c qs IH]; cbn; [done|]. rewrite IH. lia. Qed.

(** Where the cells are put: each right before the one put before it. *)
Fixpoint packed (cbrk : Z) (qs : list (Z * Z)) : list (Z * Z) :=
  match qs with [] => [] | (a, n) :: qs => (cbrk - n, n) :: packed (cbrk - n) qs end.

(** The state of the loop before the cells [rest], with the cells [fin] done. *)
Record loop_inv (fin rest : list (Z * Z)) (data : bytes) (temp : option bytes) : Prop := {
  inv_split : ps = fin ++ rest;
  inv_data : bytes_ok data /\ length data = length d;
  inv_done : moved d fin data (packed (usableSize pg) fin);
  inv_fin : forall i a n, packed (usableSize pg) fin !! i = Some (a, n) -> g2 data (off + 2 * Z.of_nat i) = a;
  inv_rest : forall i a n, rest !! i = Some (a, n) -> g2 data (off + 2 * (len fin + Z.of_nat i)) = a;
  inv_temp : match temp with
             | None => forall j, top <= j < usableSize pg -> data.[j] = d.[j]
             | Some t => bytes_ok t /\ usableSize pg <= len t /\ forall j, top <= j < usableSize pg -> t.[j] = d.[j]
             end;
  inv_else : forall j, 0 <= j -> j < off \/ off + 2 * nCell pg <= j < top \/ usableSize pg <= j -> data.[j] = d.[j]
}.

Lemma packed_snoc qs a n : forall cbrk, packed cbrk (qs ++ [(a, n)]) = packed cbrk qs ++ [(cbrk - sum qs - n, n)].
Proof.
  induction qs as [|[b m] qs IH]; intros cbrk; cbn [app packed foldr snd]; [by rewrite Z.sub_0_r|].
  rewrite IH. do 4 f_equal; lia.
Qed.

Lemma packed_length qs : forall cbrk, length (packed cbrk qs) = length qs.
Proof. induction qs as [|[a n] qs IH]; intros cbrk; cbn; [done|]. by rewrite IH. Qed.

Lemma packed_in qs : (forall a n, (a, n) ∈ qs -> 4 <= n) -> forall cbrk a n, (a, n) ∈ packed cbrk qs -> cbrk - sum qs <= a /\ a + n <= cbrk /\ 4 <= n.
Proof.
  induction qs as [|[b m] qs IH]; intros H cbrk a n; cbn; [by intros ?%not_elem_of_nil|].
  assert (4 <= m) by (apply (H b); by left).
  assert (forall a n, (a, n) ∈ qs -> 4 <= n) as H' by (intros c k ?; apply (H c); by right). pose proof (sum_nonneg qs H').
  intros [[= -> ->]|Hin]%elem_of_cons; [lia|]. apply (IH H') in Hin. lia.
Qed.

Lemma moved_snoc data fin a n data' b :
  (forall j c m, (c, m) ∈ packed (usableSize pg) fin -> c <= j < c + m -> data'.[j] = data.[j]) ->
  moved d fin data (packed (usableSize pg) fin) ->
  b = usableSize pg - sum fin - n -> (forall j, 0 <= j < n -> data'.[b + j] = d.[a + j]) ->
  moved d (fin ++ [(a, n)]) data' (packed (usableSize pg) (fin ++ [(a, n)])).
Proof.
  intros Hsame Hm -> Hnew. rewrite packed_snoc. apply Forall2_app; [|constructor; [by split|constructor]].
  unfold moved in *. rewrite Forall2_lookup in Hm |- *. intros i. specialize (Hm i). 
  destruct (fin !! i) as [[c m]|] eqn:E1; destruct (packed (usableSize pg) fin !! i) as [[c' m']|] eqn:E2; inversion Hm; subst; constructor.
  destruct H1 as [-> H1]. split; [done|]. intros j Hj. rewrite <- H1 by done. eapply Hsame; [by eapply list_elem_of_lookup_2|lia].
Qed.

Lemma page_nums :
  0 <= hdrOffset pg /\ 0 <= nCell pg /\ hdrOffset pg + 8 <= off /\ off + 2 * nCell pg <= top /\ top + total l = usableSize pg /\
  usableSize pg <= len d /\ usableSize pg <= 65536 /\ 0 <= total l /\ bytes_ok d.
Proof.
  destruct Hpg as [Hb Hl Hu Hh Hg _ Ht Hs _ _ _ _ _]. pose proof (total_nonneg l Hs). repeat split; try done; lia.
Qed.

(** The pointer to the next cell is written. *)
Lemma pointer_step fin rest a n data temp b : loop_inv fin ((a, n) :: rest) data temp -> b = usableSize pg - sum fin - n ->
  exists data', put2byte data (off + 2 * len fin) b = Done data' /\ bytes_ok data' /\ length data' = length d /\
    g2 data' (off + 2 * len fin) = b /\ top <= b /\ b + n <= usableSize pg /\
    (forall j, 0 <= j -> ~ (off + 2 * len fin <= j < off + 2 * len fin + 2) -> data'.[j] = data.[j]) /\
    off + 2 * len fin + 2 <= off + 2 * nCell pg.
Proof.
  intros [Hsp [Hb L] _ _ _ _ _] ->. destruct page_nums as (Hh & Hn & Ho & Hg & Ht & Hl & Hu & Hp & _).
  pose proof (listed_length _ _ Hps) as Hlen. rewrite Hsp, length_app in Hlen. cbn [length] in Hlen.
  pose proof ps_sum as Hsum. rewrite Hsp, sum_app in Hsum. cbn [foldr snd] in Hsum.
  pose proof (frags_bound l (ok_segs _ _ _ Hpg)) as Hfb.
  assert (forall c m, (c, m) ∈ fin ++ (a, n) :: rest -> 4 <= m) as H4 by (intros c m Hin; rewrite <- Hsp in Hin; apply ps_in in Hin; lia).
  assert (0 <= sum fin) by (apply sum_nonneg; intros c m ?; apply (H4 c); apply elem_of_app; by left).
  assert (0 <= sum rest) by (apply sum_nonneg; intros c m ?; apply (H4 c); apply elem_of_app; right; by right).
  assert (4 <= n) by (apply (H4 a); apply elem_of_app; right; by left).
  destruct (put2byte_ok data (off + 2 * len fin) (usableSize pg - sum fin - n) Hb) as (data' & E & (L' & B' & F) & G); [lia|lia|].
  exists data'. split; [done|]. split; [done|]. split; [congruence|]. split; [rewrite G; apply Z.mod_small; lia|].
  split; [lia|]. split; [lia|]. split; [exact F|lia].
Qed.

(** The invariant after a step: [data'] is [data] with the pointer written and, maybe, the
    cell copied. *)
Lemma inv_step fin rest a n data temp temp' data' b :
  loop_inv fin ((a, n) :: rest) data temp -> b = usableSize pg - sum fin - n -> top <= b -> 0 <= off ->
  bytes_ok data' -> length data' = length d -> g2 data' (off + 2 * len fin) = b ->
  off + 2 * len fin + 2 <= off + 2 * nCell pg -> off + 2 * nCell pg <= top -> b + n <= usableSize pg ->
  (forall j, 0 <= j -> ~ (off + 2 * len fin <= j < off + 2 * len fin + 2) -> ~ (b <= j < b + n) -> data'.[j] = data.[j]) ->
  (forall j, 0 <= j < n -> data'.[b + j] = d.[a + j]) ->
  (match temp' with
   | None => forall j, top <= j < usableSize pg -> data'.[j] = d.[j]
   | Some t => bytes_ok t /\ usableSize pg <= len t /\ forall j, top <= j < usableSize pg -> t.[j] = d.[j]
   end) ->
  loop_inv (fin ++ [(a, n)]) rest data' temp'.
Proof.
  intros [Hsp [Hb L] Hdone Hfin Hrest _ Helse] Eb Htb Hoff B' L' G Hlt Hlt2 Hbn F Hnew Htemp'.
  assert (forall c m, (c, m) ∈ fin ++ (a, n) :: rest -> 4 <= m) as H4 by (intros c m Hin; rewrite <- Hsp in Hin; apply ps_in in Hin; lia).
  assert (forall c m, (c, m) ∈ fin -> 4 <= m) as H4f by (intros c m ?; apply (H4 c); apply elem_of_app; by left).
  assert (4 <= n) by (apply (H4 a); apply elem_of_app; right; by left).
  split; try done.
  - by rewrite Hsp, <- app_assoc.
  - eapply moved_snoc; [|exact Hdone|exact Eb|exact Hnew].
    intros j c m Hin Hj. apply (packed_in fin H4f) in Hin. apply F; lia.
  - intros i c m. rewrite packed_snoc. intros [Hi|[Hge Hi]]%lookup_app_Some.
    + pose proof (lookup_lt_Some _ _ _ Hi) as Hlti. rewrite packed_length in Hlti. rewrite <- (Hfin i c m Hi).
      unfold g2. rewrite !F by lia. done.
    + rewrite packed_length in *. apply list_lookup_singleton_Some in Hi as [Hi [= <- <-]].
      replace (Z.of_nat i) with (len fin) by lia. lia.
  - intros i c m Hi. rewrite length_app. cbn [length].
    specialize (Hrest (S i) c m Hi). rewrite <- Hrest.
    assert (off + 2 * (len fin + Z.of_nat (S i)) + 2 <= off + 2 * nCell pg).
    { pose proof (listed_length _ _ Hps) as Hlen. rewrite Hsp, length_app in Hlen. cbn [length] in Hlen. apply lookup_lt_Some in Hi. lia. }
    replace (off + 2 * (Z.of_nat (length fin + 1) + Z.of_nat i)) with (off + 2 * (len fin + Z.of_nat (S i))) by lia.
    unfold g2. rewrite !F by lia. done.
  - intros j Hj Hk. rewrite F by lia. apply Helse; [done|lia].
Qed.

Lemma defragment_loop_ok rest : forall fin data temp, loop_inv fin rest data temp ->
  (rest = [] \/ g2 d (hdrOffset pg + 5) = top) ->
  exists data' temp', defragment_loop (length rest) (usableSize pg) (g2 d (hdrOffset pg + 5)) temp0 data temp
      (off + 2 * len fin) (usableSize pg - sum fin) = Done (inr (usableSize pg - sum ps, data')) /\
    loop_inv ps [] data' temp'.
Proof.
  induction rest as [|[a n] rest IH]; intros fin data temp Hinv Htop.
  { pose proof (inv_split _ _ _ _ Hinv) as Hsp. rewrite app_nil_r in Hsp. subst fin. by exists data, temp. }
  destruct Htop as [|Htop]; [done|]. specialize (IH (fin ++ [(a, n)])). rewrite Htop in *.
  destruct page_nums as (Hh & Hn & Ho & Hg & Ht & Hl & Hu & Hp & Hb).
  cbn [length defragment_loop]. pose proof Hinv as [Hsp [Hbd L] _ _ Hrest Htmp _].
  assert ((a, n) ∈ ps) as Hin by (rewrite Hsp; apply elem_of_app; right; by left).
  destruct (ps_in a n Hin) as (Ha & Han & Hn4).
  destruct (pointer_step fin rest a n data temp _ Hinv eq_refl) as (data1 & Ep & B1 & L1 & G1 & Hb1 & Hb2 & F1 & Hlast).
  set (b := usableSize pg - sum fin - n) in *.
  rewrite get2byte_ok by (done || lia). cbn [mbind outcome_bind].
  assert (g2 data (off + 2 * len fin) = a) as -> by (specialize (Hrest 0%nat a n eq_refl); by rewrite Z.add_0_r in Hrest).
  rewrite (proj2 (Z.ltb_ge a top)), (proj2 (Z.ltb_ge (usableSize pg - 4) a)) by lia. cbn [orb].
  assert (xCellSize (default data temp) a = Done n) as ->.
  { destruct temp as [t|]; cbn [default].
    - destruct Htmp as (Bt & Lt & Ft). apply (cell_local d t a a n); try done; try lia; [by apply (listed_size _ _ Hps)|]. intros j ?. apply Ft. lia.
    - apply (cell_local d data a a n); try done; try lia; [by apply (listed_size _ _ Hps)|]. intros j ?. apply Htmp. lia. }
  cbn [mbind outcome_bind]. fold b. rewrite (proj2 (Z.ltb_ge b top)), (proj2 (Z.ltb_ge (usableSize pg) (a + n))) by lia. cbn [orb].
  rewrite Ep. cbn [mbind outcome_bind].
  assert (len (fin ++ [(a, n)]) = len fin + 1) as Elen by (rewrite length_app; simpl; lia).
  assert (usableSize pg - sum (fin ++ [(a, n)]) = b) as Esum by (rewrite sum_app; cbn; unfold b; lia).
  rewrite Esum, Elen in IH. replace (off + 2 * (len fin + 1)) with (off + 2 * len fin + 2) in IH by lia.
  assert (forall t data2, bytes_ok t /\ usableSize pg <= len t /\ (forall j, top <= j < usableSize pg -> t.[j] = d.[j]) ->
    same_outside data1 data2 b (b + n) -> (forall j, 0 <= j < n -> data2.[b + j] = t.[a + j]) ->
    loop_inv (fin ++ [(a, n)]) rest data2 (Some t)) as Hcopy.
  { intros t data2 Ht' (L2 & B2 & F2) C2. eapply inv_step; [exact Hinv|reflexivity| | | | | | | | | | |exact Ht']; fold b; try done; try lia; try congruence.
    - rewrite <- G1. unfold g2. rewrite !F2 by lia. done.
    - intros j ? ? ?. rewrite F2, F1 by lia. done.
    - intros j Hj. rewrite C2 by lia. apply Ht'. lia. }
  destruct temp as [t|].
  - destruct Htmp as (Bt & Lt & Ft).
    destruct (memcpy_ok data1 b t a n B1 Bt) as (data2 & -> & S2 & C2); [lia|lia|lia|lia|lia|]. cbn [mbind outcome_bind].
    apply IH; [by apply Hcopy|by right].
  - destruct (Z.eqb_spec b a) as [Eba|Eba].
    + apply IH; [|by right]. eapply inv_step; [exact Hinv|reflexivity| | | | | | | | | | |]; fold b; try done; try lia.
      * intros j ? ? ?. apply F1; lia.
      * intros j Hj. rewrite Eba, F1 by lia. apply Htmp. lia.
      * intros j Hj. rewrite F1 by lia. by apply Htmp.
    + destruct Htemp as [Bt Lt].
      destruct (memcpy_ok temp0 top data1 top (usableSize pg - top) Bt B1) as (t & -> & (L2 & B2 & F2) & C2); [lia|lia|lia|lia|lia|].
      cbn [mbind outcome_bind].
      assert (forall j, top <= j < usableSize pg -> t.[j] = d.[j]) as Ht'.
      { intros j Hj. specialize (C2 (j - top) ltac:(lia)). replace (top + (j - top)) with j in C2 by lia. rewrite C2, F1 by lia. by apply Htmp. }
      destruct (memcpy_ok data1 b t a n B1 B2) as (data2 & -> & S2 & C3); [lia|lia|lia|lia|lia|]. cbn [mbind outcome_bind].
      apply IH; [|by right]. apply Hcopy; try done. split; [done|]. split; [lia|done].
Qed.

(** The layout of the packed cells. *)
Definition pack_layout (qs : list (Z * Z)) : list seg := reverse (map (fun c => Cell (snd c)) qs).

Lemma pack_layout_cons a n qs : pack_layout ((a, n) :: qs) = pack_layout qs ++ [Cell n].
Proof. unfold pack_layout. cbn [map]. by rewrite reverse_cons. Qed.

Lemma pack_total qs : total (pack_layout qs) = sum qs /\ frags (pack_layout qs) = 0 /\ no_free (pack_layout qs).
Proof.
  induction qs as [|[a n] qs (IH1 & IH2 & IH3)]; [done|]. rewrite pack_layout_cons, total_app, frags_app, blocks_app, IH3, IH1, IH2.
  cbn. split; [lia|done].
Qed.

Lemma pack_cells qs : forall cbrk, cells (cbrk - sum qs) (pack_layout qs) = reverse (packed cbrk qs).
Proof.
  induction qs as [|[a n] qs IH]; intros cbrk; [done|]. rewrite pack_layout_cons, cells_app.
  destruct (pack_total qs) as (-> & _). cbn [foldr snd packed cells]. rewrite reverse_cons, <- IH.
  f_equal; [f_equal; lia|]. do 2 f_equal. lia.
Qed.

(** What defragmentation does to the page. *)
Definition defragmented (nMaxFrag : Z) (pg' : MemPage) : Prop :=
  exists d' top' l' ps', pg' = with_data pg d' /\ page_ok pg' top' l' /\ no_free l' /\ frags l' <= Z.max 0 nMaxFrag /\
    listed pg' ps' /\ ps' ≡ₚ cells top' l' /\ moved d ps d' ps' /\
    forall j, 0 <= j -> j < hdrOffset pg + 1 \/ hdrOffset pg + 3 <= j < hdrOffset pg + 5 \/ usableSize pg <= j -> d'.[j] = d.[j].

Lemma moved_sizes d' ps' : bytes_ok d' -> length d' = length d -> moved d ps d' ps' ->
  (forall a n, (a, n) ∈ ps' -> 0 <= a /\ a + n <= usableSize pg) ->
  forall a n, (a, n) ∈ ps' -> xCellSize d' a = Done n.
Proof.
  intros B L Hm Hin a' n' [i Hi]%list_elem_of_lookup. unfold moved in Hm. rewrite Forall2_lookup in Hm. specialize (Hm i).
  rewrite Hi in Hm. destruct (ps !! i) as [[a n]|] eqn:Ei; inversion Hm; subst. destruct H1 as [-> H1].
  destruct page_nums as (Hh & Hnn & Ho & Hg & _ & Hl & _ & _ & Hb). apply list_elem_of_lookup_2 in Ei, Hi.
  pose proof (ps_in a n Ei). specialize (Hin a' n Hi).
  apply (cell_local d d' a a' n); try done; try lia. by apply (listed_size _ _ Hps).
Qed.

Lemma moved_frame data d' ps' : moved d ps data ps' -> (forall a n, (a, n) ∈ ps' -> forall j, a <= j < a + n -> d'.[j] = data.[j]) ->
  moved d ps d' ps'.
Proof.
  unfold moved. rewrite !Forall2_lookup. intros Hm F i. specialize (Hm i).
  destruct (ps !! i) as [[a n]|] eqn:E1, (ps' !! i) as [[a' n']|] eqn:E2; inversion Hm; subst; constructor.
  destruct H1 as [-> H1]. split; [done|]. intros j Hj. rewrite <- H1 by done. eapply F; [by eapply list_elem_of_lookup_2|lia].
Qed.

(** From the data before [defragment_out] to the new page. *)
Lemma defragmented_out nMaxFrag data cbrk l' ps' :
  bytes_ok data -> length data = length d -> data.[hdrOffset pg + 7] = frags l' -> cbrk + total l' = usableSize pg ->
  Forall seg_ok l' -> no_free l' -> top <= cbrk -> nFree pg = frags l' + cbrk - (off + 2 * nCell pg) -> frags l' <= Z.max 0 nMaxFrag ->
  (forall i a n, ps' !! i = Some (a, n) -> g2 data (off + 2 * Z.of_nat i) = a) -> ps' ≡ₚ cells cbrk l' -> moved d ps data ps' ->
  (forall j, 0 <= j -> j < hdrOffset pg + 1 \/ hdrOffset pg + 3 <= j < hdrOffset pg + 5 \/ usableSize pg <= j -> data.[j] = d.[j]) ->
  exists pg', defragment_out pg cbrk data = Done (SQLITE_OK, pg') /\ defragmented nMaxFrag pg'.
Proof.
  intros B L Hfr Ht Hs Hno Htc Hn Hmax Hptr Hp' Hm Helse. destruct page_nums as (Hh & Hnc & Ho & Hg & Ht0 & Hl & Hu & Hp & Hb).
  destruct (defragment_out_ok pg data cbrk l') as (d' & E & Hpg' & L' & F); try done; try lia.
  { pose proof (ok_hdr _ _ _ Hpg). split; done || lia. }
  { apply (ok_hdr _ _ _ Hpg). }
  exists (with_data pg d'). split; [done|]. exists d', cbrk, l', ps'.
  assert (forall a n, (a, n) ∈ ps' -> cbrk <= a /\ a + n <= usableSize pg) as Hin.
  { intros a n Hin. rewrite Hp' in Hin. apply (cells_in l' Hs) in Hin. lia. }
  assert (moved d ps d' ps') as Hm' by (eapply moved_frame; [exact Hm|]; intros a n Hain j Hj; apply Hin in Hain; apply F; lia).
  split; [done|]. split; [done|]. split; [done|]. split; [done|]. split; [|split; [done|split; [done|]]].
  - assert (length ps' = length ps) as Elen by (symmetry; by eapply Forall2_length).
    pose proof (listed_length _ _ Hps) as Hlen. split; cbn.
    + lia.
    + intros i a n Hi. rewrite <- (Hptr i a n Hi). apply lookup_lt_Some in Hi. unfold g2. rewrite !F by lia. done.
    + apply moved_sizes; try done; [apply (ok_bytes _ _ _ Hpg')| |].
      * congruence.
      * intros a n Hain. apply Hin in Hain. lia.
  - intros j Hj Hk. pose proof (total_nonneg l' Hs). rewrite F by lia. by apply Helse.
Qed.

Lemma pack_ok qs : (forall a n, (a, n) ∈ qs -> 4 <= n) -> Forall seg_ok (pack_layout qs).
Proof.
  intros H. unfold pack_layout. apply Forall_reverse, Forall_forall. intros s [[a n] [-> Hin]]%list_elem_of_fmap. by apply (H a).
Qed.

Lemma defragment_general nMaxFrag : defragment_fast pg nMaxFrag = Done fast_no ->
  exists pg', defragmentPage temp0 pg nMaxFrag = Done (SQLITE_OK, pg') /\ defragmented nMaxFrag pg'.
Proof.
  intros E. destruct page_nums as (Hh & Hnc & Ho & Hg & Ht & Hl & Hu & Hp & Hb). unfold defragmentPage. rewrite E. cbn [mbind outcome_bind].
  rewrite get2byte_ok by (done || lia). cbn [mbind outcome_bind].
  assert (ps = [] \/ g2 d (hdrOffset pg + 5) = top) as Htop.
  { destruct (ps !! 0%nat) as [[a n]|] eqn:E0; [right|left; apply nil_length_inv; apply lookup_ge_None in E0; lia].
    apply list_elem_of_lookup_2, ps_in in E0. pose proof (ok_top _ _ _ Hpg) as H. unfold top_of in H.
    destruct (Z.eqb_spec (g2 d (hdrOffset pg + 5)) 0); lia. }
  assert (loop_inv [] ps d None) as Hinv.
  { split; try done; [constructor|]. intros i a n Hi. rewrite Z.add_0_l. by apply (listed_pointer _ _ Hps i a n). }
  destruct (defragment_loop_ok ps [] d None Hinv Htop) as (data' & temp' & El & [_ [B L] Hm Hf _ _ Helse]).
  replace (Z.to_nat (nCell pg)) with (length ps) by (pose proof (listed_length _ _ Hps); lia).
  cbn [length foldr] in El. rewrite Z.sub_0_r, Z.mul_0_r, Z.add_0_r in El. rewrite El. cbn [mbind outcome_bind].
  destruct (wr_ok data' (hdrOffset pg + 7) 0 B) as (d2 & -> & (L2 & B2 & F2) & G2); [unfold is_byte; lia|lia|]. cbn [mbind outcome_bind].
  assert (forall a n, (a, n) ∈ ps -> 4 <= n) as H4 by (intros a n Hin; apply ps_in in Hin; lia).
  destruct (pack_total ps) as (Et & Ef & Ebl). pose proof ps_sum as Hsum. pose proof (frags_bound l (ok_segs _ _ _ Hpg)).
  apply defragmented_out with (l' := pack_layout ps) (ps' := packed (usableSize pg) ps); try done; try lia; try congruence.
  - by apply pack_ok.
  - pose proof (ok_nFree _ _ _ Hpg). lia.
  - intros i a n Hi. rewrite <- (Hf i a n Hi). unfold g2. rewrite !F2 by lia. done.
  - rewrite pack_cells. by rewrite reverse_Permutation.
  - eapply moved_frame; [exact Hm|]. intros a n Hin j Hj. apply (packed_in ps H4) in Hin. apply F2; lia.
  - intros j Hj Hk. rewrite F2 by lia. apply Helse; lia.
Qed.
End general.
