(* ===== verification/PageFast.v ===== *)
(** * PageFast: the fast way of defragmentation, and allocation

    With at most two free blocks [defragmentPage] of PageHeap.v moves the cells before
    them as they are ([defragment_fast]).  With this and the general case of
    PageDefrag.v, [allocateSpace] always finds room when there are enough free bytes. *)

From S2P Require Import Prelude CType ByteMem PageHeap PageAlloc PageDefrag.

Lemma cells_shift k l : forall a, cells (a + k) l = map (fun c => (fst c + k, snd c)) (cells a l).
Proof.
  induction l as [|s l IH]; intros a; cbn [cells map]; [done|].
  assert (cells (a + k + seg_size s) l = map (fun c => (fst c + k, snd c)) (cells (a + seg_size s) l)) as Hn
    by (rewrite <- IH; f_equal; lia).
  destruct s; cbn [seg_size map fst snd] in *; by rewrite Hn.
Qed.

(** The same for a move [f] that shifts the cells of [l]. *)
Lemma cells_map f k l a a' : a' = a + k -> (forall b n, (b, n) ∈ cells a l -> f b = b + k) ->
  cells a' l = map (fun c => (f (fst c), snd c)) (cells a l).
Proof.
  intros -> Hf. rewrite cells_shift. apply map_ext_in. intros [b n] Hin. cbn [fst snd]. apply list_elem_of_In in Hin.
  by rewrite (Hf b n Hin).
Qed.

(** Where a cell goes. *)
Definition shift (iFree iFree2 sz sz2 a : Z) : Z := if a <? iFree then a + sz else if a <? iFree2 then a + sz2 else a.

Lemma adjust_pointers_ok iFree iFree2 sz sz2 (qs : list (Z * Z)) : forall data off, bytes_ok data -> 0 <= off -> off + 2 * len qs <= len data ->
  (forall i a n, qs !! i = Some (a, n) -> g2 data (off + 2 * Z.of_nat i) = a) ->
  (forall a n, (a, n) ∈ qs -> 0 <= shift iFree iFree2 sz sz2 a < 65536) ->
  exists data', adjust_pointers (length qs) data off iFree iFree2 sz sz2 = Done data' /\
    same_outside data data' off (off + 2 * len qs) /\
    forall i a n, qs !! i = Some (a, n) -> g2 data' (off + 2 * Z.of_nat i) = shift iFree iFree2 sz sz2 a.
Proof.
  induction qs as [|[a n] qs IH]; intros data off B Hoff Hlen Hptr Hin.
  { exists data. split; [done|]. split; [by apply same_outside_refl|done]. }
  cbn [length adjust_pointers] in *. rewrite get2byte_ok by (done || lia). cbn [mbind outcome_bind].
  assert (g2 data off = a) as Ea by (specialize (Hptr 0%nat a n eq_refl); by rewrite Z.add_0_r in Hptr).
  assert (0 <= shift iFree iFree2 sz sz2 a < 65536) as Hsa by (apply (Hin a n); by left).
  assert (exists d1, (if g2 data off <? iFree then put2byte data off (g2 data off + sz)
            else if g2 data off <? iFree2 then put2byte data off (g2 data off + sz2) else Done data) = Done d1 /\
          same_outside data d1 off (off + 2) /\ g2 d1 off = shift iFree iFree2 sz sz2 a) as (d1 & -> & (L1 & B1 & F1) & G1).
  { rewrite Ea. unfold shift in *. destruct (a <? iFree); [|destruct (a <? iFree2)].
    - destruct (put2byte_ok data off (a + sz) B) as (d1 & -> & S1 & G1); [lia|lia|]. exists d1. split; [done|]. split; [done|].
      rewrite G1. by apply Z.mod_small.
    - destruct (put2byte_ok data off (a + sz2) B) as (d1 & -> & S1 & G1); [lia|lia|]. exists d1. split; [done|]. split; [done|].
      rewrite G1. by apply Z.mod_small.
    - exists data. split; [done|]. by split; [apply same_outside_refl|]. }
  cbn [mbind outcome_bind]. destruct (IH d1 (off + 2)) as (d2 & -> & (L2 & B2 & F2) & G2); try done; try lia.
  - intros i b m Hi. rewrite <- (Hptr (S i) b m Hi). replace (off + 2 * Z.of_nat (S i)) with (off + 2 + 2 * Z.of_nat i) by lia.
    unfold g2. rewrite !F1 by lia. done.
  - intros b m Hb. apply (Hin b m). by right.
  - exists d2. split; [done|]. split; [split; [congruence|]; split; [done|]|].
    + intros j ? ?. rewrite F2, F1 by lia. done.
    + intros [|i] b m Hi; cbn in Hi.
      * injection Hi as -> ->. rewrite <- G1, Z.add_0_r. unfold g2. rewrite !F2 by lia. done.
      * rewrite <- (G2 i b m Hi). f_equal. lia.
Qed.

Section fast.
Context {CF : CellFormat} {CL : CellFormatLaws}.
Context (pg : MemPage) (top : Z) (l : list seg) (ps : list (Z * Z)).
Hypothesis Hpg : page_ok pg top l.
Hypothesis Hps : listed pg ps.
Hypothesis Hperm : ps ≡ₚ cells top l.

Abbreviation d := (aData pg).

(** The cells are moved by [f], to the layout [l'] at [cbrk]; the pointers are not. *)
Record moves_ok (data : bytes) (cbrk : Z) (f : Z -> Z) (l' : list seg) : Prop := {
  moves_data : bytes_ok data /\ length data = length d;
  moves_else : forall j, 0 <= j -> j < top \/ usableSize pg <= j -> data.[j] = d.[j];
  moves_bytes : forall a n, (a, n) ∈ cells top l -> forall j, 0 <= j < n -> data.[f a + j] = d.[a + j];
  moves_cells : cells cbrk l' = map (fun c => (f (fst c), snd c)) (cells top l);
  moves_total : cbrk + total l' = usableSize pg /\ cbrk = top + frees l /\ frags l' = frags l;
  moves_segs : Forall seg_ok l' /\ no_free l'
}.

Lemma fast_finish nMaxFrag data cbrk iFree iFree2 sz sz2 l' :
  moves_ok data cbrk (shift iFree iFree2 sz sz2) l' -> frags l <= nMaxFrag ->
  exists d1, adjust_pointers (Z.to_nat (nCell pg)) data (cellOffset pg) iFree iFree2 sz sz2 = Done d1 /\
  exists pg', defragment_out pg cbrk d1 = Done (SQLITE_OK, pg') /\ defragmented pg ps nMaxFrag pg'.
Proof.
  intros [[B L] Helse Hbytes Hcells (Ht & Ec & Ef) [Hs Hno]] Hmax. set (f := shift iFree iFree2 sz sz2) in *.
  destruct (page_nums pg top l d Hpg) as (Hh & Hnc & Ho & Hg & Ht0 & Hl & Hu & Hp & Hb). pose proof (listed_length _ _ Hps) as Hlen.
  pose proof (frags_bound l (ok_segs _ _ _ Hpg)) as Hfb.
  set (ps' := map (fun c => (f (fst c), snd c)) ps).
  assert (ps' ≡ₚ cells cbrk l') as Hperm' by (rewrite Hcells; unfold ps'; by rewrite Hperm).
  assert (forall a n, (a, n) ∈ ps -> cbrk <= f a /\ f a + n <= usableSize pg /\ 4 <= n) as Hin.
  { intros a n Hin. assert ((f a, n) ∈ cells cbrk l') as H; [|apply (cells_in l' Hs) in H; lia].
    rewrite <- Hperm'. apply list_elem_of_fmap. by exists (a, n). }
  destruct (adjust_pointers_ok iFree iFree2 sz sz2 ps data (cellOffset pg)) as (d1 & E & (L1 & B1 & F1) & G1); try done; try lia.
  { intros i a n Hi. rewrite <- (listed_pointer _ _ Hps i a n Hi). apply lookup_lt_Some in Hi. unfold g2. rewrite !Helse by lia. done. }
  { intros a n Hain. apply Hin in Hain. fold f. lia. }
  exists d1. replace (Z.to_nat (nCell pg)) with (length ps) by lia. split; [done|].
  apply defragmented_out with (top := top) (l := l) (temp0 := d) (l' := l') (ps' := ps'); try done; try lia; try congruence.
  - rewrite F1, Helse by lia. pose proof (ok_frag _ _ _ Hpg). lia.
  - pose proof (ok_nFree _ _ _ Hpg). lia.
  - intros i a n Hi. unfold ps' in Hi. apply list_lookup_fmap_Some in Hi as ([a0 n0] & [= -> ->] & Hi). by rewrite (G1 i a0 n0 Hi).
  - unfold moved, ps'. apply Forall2_fmap_r, Forall_Forall2_diag, Forall_forall. intros [a n] Hain. split; [done|]. intros j Hj.
    pose proof (Hin a n Hain). cbn [fst]. rewrite F1 by lia. apply (Hbytes a n); [by rewrite <- Hperm|done].
  - intros j Hj Hk. rewrite F1, Helse by lia. done.
Qed.
(** ** One free block *)

Lemma one_block A sz C : l = A ++ Free sz :: C -> no_free A -> no_free C ->
  exists data, memmove d (top + sz) top (total A) = Done data /\
    moves_ok data (top + sz) (shift (top + total A) 0 sz 0) (A ++ C).
Proof.
  intros El HA HC. destruct (page_nums pg top l d Hpg) as (Hh & Hnc & Ho & Hg & Ht0 & Hl & Hu & Hp & Hb).
  pose proof (ok_segs _ _ _ Hpg) as Hs. rewrite El in Hs, Ht0. apply Forall_app in Hs as [HsA [Hsz HsC]%Forall_cons]. cbn [seg_ok] in Hsz.
  rewrite total_app in Ht0. cbn [total seg_size] in Ht0. pose proof (total_nonneg A HsA). pose proof (total_nonneg C HsC).
  destruct (memcpy_ok d (top + sz) d top (total A) Hb Hb) as (data & E & (L & B & F) & C0); [lia|lia|lia|lia|lia|].
  exists data. split; [exact E|].
  assert (cells top l = cells top A ++ cells (top + total A + sz) C) as Ecells by (rewrite El, cells_app; done).
  assert (forall a n, (a, n) ∈ cells top A -> top <= a /\ a + n <= top + total A /\ 4 <= n) as HinA by (intros a n; by apply cells_in).
  assert (forall a n, (a, n) ∈ cells (top + total A + sz) C -> top + total A + sz <= a /\ a + n <= usableSize pg /\ 4 <= n) as HinC
    by (intros a n Hin; apply (cells_in C HsC) in Hin; lia).
  split; [done| | | | |].
  - intros j Hj Hk. apply F; lia.
  - intros a n Hin j Hj. rewrite Ecells in Hin. apply elem_of_app in Hin as [Hin|Hin]; unfold shift.
    + apply HinA in Hin. rewrite (proj2 (Z.ltb_lt a _)) by lia. specialize (C0 (a - top + j) ltac:(lia)).
      replace (top + sz + (a - top + j)) with (a + sz + j) in C0 by lia. rewrite C0. f_equal. lia.
    + apply HinC in Hin. rewrite (proj2 (Z.ltb_ge a (top + total A))), (proj2 (Z.ltb_ge a 0)) by lia. apply F; lia.
  - rewrite Ecells, cells_app, map_app. f_equal; (eapply cells_map; [|intros a n Hin]).
    + done.
    + apply HinA in Hin. unfold shift. by rewrite (proj2 (Z.ltb_lt a _)) by lia.
    + rewrite Z.add_0_r. lia.
    + apply HinC in Hin. unfold shift. rewrite (proj2 (Z.ltb_ge a (top + total A))), (proj2 (Z.ltb_ge a 0)) by lia. lia.
  - rewrite El, total_app, !frags_app, !frees_app. cbn [frags frees].
    rewrite (no_free_frees A 0 HA), (no_free_frees C 0 HC). lia.
  - split; [by apply Forall_app|]. rewrite blocks_app, HA. by eapply blocks_nil.
Qed.

(** ** Two free blocks *)

Lemma two_blocks A sz B sz2 C : l = A ++ Free sz :: B ++ Free sz2 :: C -> no_free A -> no_free B -> no_free C ->
  let iFree := top + total A in
  let iFree2 := iFree + sz + total B in
  exists d1 data, memmove d (iFree + sz + sz2) (iFree + sz) (total B) = Done d1 /\
    memmove d1 (top + (sz + sz2)) top (total A) = Done data /\
    moves_ok data (top + (sz + sz2)) (shift iFree iFree2 (sz + sz2) sz2) (A ++ B ++ C).
Proof.
  intros El HA HB HC iFree iFree2. destruct (page_nums pg top l d Hpg) as (Hh & Hnc & Ho & Hg & Ht0 & Hl & Hu & Hp & Hb).
  pose proof (ok_segs _ _ _ Hpg) as Hs. rewrite El in Hs, Ht0. apply Forall_app in Hs as [HsA [Hsz Hs]%Forall_cons].
  apply Forall_app in Hs as [HsB [Hsz2 HsC]%Forall_cons]. cbn [seg_ok] in Hsz, Hsz2. rewrite !total_app in Ht0. cbn [total seg_size] in Ht0.
  rewrite total_app in Ht0. cbn [total seg_size] in Ht0.
  pose proof (total_nonneg A HsA). pose proof (total_nonneg B HsB). pose proof (total_nonneg C HsC).
  assert (iFree = top + total A /\ iFree2 = top + total A + sz + total B) as [E1 E2] by done. clearbody iFree iFree2.
  destruct (memcpy_ok d (iFree + sz + sz2) d (iFree + sz) (total B) Hb Hb) as (d1 & Em1 & (L1 & B1 & F1) & C1); [lia|lia|lia|lia|lia|].
  destruct (memcpy_ok d1 (top + (sz + sz2)) d1 top (total A) B1 B1) as (data & Em2 & (L2 & B2 & F2) & C2); [lia|lia|lia|lia|lia|].
  exists d1, data. split; [exact Em1|]. split; [exact Em2|].
  assert (cells top l = cells top A ++ cells (iFree + sz) B ++ cells (iFree2 + sz2) C) as Ecells.
  { rewrite El, cells_app. cbn [cells seg_size]. rewrite cells_app. cbn [cells seg_size].
    by replace (top + total A + sz + total B + sz2) with (iFree2 + sz2) by lia; replace (top + total A + sz) with (iFree + sz) by lia. }
  assert (forall a n, (a, n) ∈ cells top A -> top <= a /\ a + n <= iFree /\ 4 <= n) as HinA
    by (intros a n Hin; apply (cells_in A HsA) in Hin; lia).
  assert (forall a n, (a, n) ∈ cells (iFree + sz) B -> iFree + sz <= a /\ a + n <= iFree2 /\ 4 <= n) as HinB
    by (intros a n Hin; apply (cells_in B HsB) in Hin; lia).
  assert (forall a n, (a, n) ∈ cells (iFree2 + sz2) C -> iFree2 + sz2 <= a /\ a + n <= usableSize pg /\ 4 <= n) as HinC
    by (intros a n Hin; apply (cells_in C HsC) in Hin; lia).
  split; [split; [done|congruence]| | | | |].
  - intros j Hj Hk. rewrite F2, F1 by lia. done.
  - intros a n Hin j Hj. rewrite Ecells in Hin. rewrite !elem_of_app in Hin. unfold shift. destruct Hin as [Hin|[Hin|Hin]].
    + apply HinA in Hin. rewrite (proj2 (Z.ltb_lt a _)) by lia. specialize (C2 (a - top + j) ltac:(lia)).
      replace (top + (sz + sz2) + (a - top + j)) with (a + (sz + sz2) + j) in C2 by lia. rewrite C2, F1 by lia. f_equal. lia.
    + apply HinB in Hin. rewrite (proj2 (Z.ltb_ge a iFree)), (proj2 (Z.ltb_lt a iFree2)) by lia. rewrite F2 by lia.
      specialize (C1 (a - (iFree + sz) + j) ltac:(lia)).
      replace (iFree + sz + sz2 + (a - (iFree + sz) + j)) with (a + sz2 + j) in C1 by lia. rewrite C1. f_equal. lia.
    + apply HinC in Hin. rewrite (proj2 (Z.ltb_ge a iFree)), (proj2 (Z.ltb_ge a iFree2)) by lia. rewrite F2, F1 by lia. done.
  - rewrite Ecells, !cells_app, !map_app. f_equal; [|f_equal]; (eapply cells_map; [|intros a n Hin]); unfold shift.
    + done.
    + apply HinA in Hin. by rewrite (proj2 (Z.ltb_lt a _)) by lia.
    + instantiate (1 := sz2). lia.
    + apply HinB in Hin. by rewrite (proj2 (Z.ltb_ge a iFree)), (proj2 (Z.ltb_lt a iFree2)) by lia.
    + rewrite Z.add_0_r. lia.
    + apply HinC in Hin. rewrite (proj2 (Z.ltb_ge a iFree)), (proj2 (Z.ltb_ge a iFree2)) by lia. lia.
  - rewrite El, !total_app, !frags_app, !frees_app. cbn [frags frees]. rewrite !frags_app, !frees_app. cbn [frags frees].
    rewrite (no_free_frees A 0 HA), (no_free_frees B 0 HB), (no_free_frees C 0 HC). lia.
  - split; [by rewrite !Forall_app|]. rewrite !blocks_app, HA. cbn [app]. rewrite (blocks_nil _ _ _ HB). by eapply blocks_nil.
Qed.
(** ** The fast way *)

Definition fast_spec (nMaxFrag : Z) (r : fast_result) : Prop :=
  match r with
  | fast_corrupt => False
  | fast_no => True
  | fast_done cbrk d1 => exists pg', defragment_out pg cbrk d1 = Done (SQLITE_OK, pg') /\ defragmented pg ps nMaxFrag pg'
  end.

(** The first block of the chain, behind cells. *)
Lemma first_block a n bs : blocks top l = (a, n) :: bs ->
  exists A l2, l = A ++ Free n :: l2 /\ no_free A /\ a = top + total A /\ bs = blocks (a + n) l2 /\ 0 < total A /\ 4 <= n /\
    a + n + total l2 = usableSize pg /\ Forall seg_ok l2 /\ g2 d (hdrOffset pg + 1) = a /\ g2 d (a + 2) = n /\ g2 d a = head_addr bs /\
    g2 d (hdrOffset pg + 5) = top.
Proof.
  intros Eb. destruct (page_nums pg top l d Hpg) as (Hh & Hnc & Ho & Hg & Ht0 & Hl & Hu & Hp & Hb).
  destruct (blocks_split l top [] a n bs Eb) as (A & l2 & El & HA & Ea & Ebs).
  pose proof (ok_segs _ _ _ Hpg) as Hs. rewrite El in Hs. apply Forall_app in Hs as [HsA [Hn Hs2]%Forall_cons]. cbn [seg_ok] in Hn.
  assert (A <> []) as HneA by (intros ->; pose proof (ok_first _ _ _ Hpg) as Hf; by rewrite El in Hf).
  pose proof (total_pos A HsA HneA). rewrite El, total_app in Ht0. cbn [total seg_size] in Ht0.
  pose proof (total_nonneg l2 Hs2). pose proof (ok_chain _ _ _ Hpg) as Hc. rewrite Eb in Hc. cbn [free_chain head_addr] in Hc.
  destruct Hc as (G1 & G2 & G3). pose proof (ok_top _ _ _ Hpg) as Ht. unfold top_of in Ht.
  exists A, l2. split; [done|]. split; [by eapply blocks_nil|]. repeat (split; [done || lia|]). split; [by destruct bs as [|[? ?] ?], G3|].
  destruct (Z.eqb_spec (g2 d (hdrOffset pg + 5)) 0); lia.
Qed.

Lemma fast_one_ok nMaxFrag a n : blocks top l = [(a, n)] -> frags l <= nMaxFrag ->
  exists r, defragment_fast pg nMaxFrag = Done r /\ fast_spec nMaxFrag r.
Proof.
  intros Eb Hmax. destruct (page_nums pg top l d Hpg) as (Hh & Hnc & Ho & Hg & Ht0 & Hl & Hu & Hp & Hb).
  destruct (first_block _ _ _ Eb) as (A & C & El & HA & Ea & EC & HpA & Hn & Hend & HsC & G1 & G2 & G3 & G4).
  pose proof (total_nonneg C HsC). symmetry in EC. apply (blocks_nil C _ 0) in EC. cbn [head_addr] in G3.
  unfold defragment_fast. rewrite rd_ok by lia. cbn [mbind outcome_bind]. rewrite (ok_frag _ _ _ Hpg), (proj2 (Z.ltb_ge _ _)) by lia.
  rewrite (get2byte_ok _ (hdrOffset pg + 1)) by (done || lia). cbn [mbind outcome_bind]. rewrite G1.
  rewrite (proj2 (Z.ltb_ge _ a)), (proj2 (Z.eqb_neq a 0)) by lia. rewrite (get2byte_ok _ a) by (done || lia). cbn [mbind outcome_bind].
  rewrite G3, (proj2 (Z.ltb_ge _ 0)) by lia. cbn [Z.eqb negb mbind outcome_bind].
  rewrite !get2byte_ok by (done || lia). cbn [mbind outcome_bind]. rewrite G2, G4.
  rewrite (proj2 (Z.leb_gt a top)), (proj2 (Z.ltb_ge _ (a + n))) by lia. cbn [mbind outcome_bind].
  destruct (one_block A n C El HA EC) as (data & E & Hm). replace (a - top) with (total A) by lia. rewrite E. cbn [mbind outcome_bind].
  rewrite <- Ea in Hm. destruct (fast_finish nMaxFrag _ _ _ _ _ _ _ Hm Hmax) as (d1 & -> & Hout). cbn [mbind outcome_bind].
  eexists. split; [done|]. exact Hout.
Qed.

Lemma fast_two_ok nMaxFrag a n b m bs : blocks top l = (a, n) :: (b, m) :: bs -> frags l <= nMaxFrag ->
  exists r, defragment_fast pg nMaxFrag = Done r /\ fast_spec nMaxFrag r.
Proof.
  intros Eb Hmax. destruct (page_nums pg top l d Hpg) as (Hh & Hnc & Ho & Hg & Ht0 & Hl & Hu & Hp & Hb).
  destruct (first_block _ _ _ Eb) as (A & l2 & El & HA & Ea & El2 & HpA & Hn & Hend & Hs2 & G1 & G2 & G3 & G4).
  symmetry in El2. destruct (blocks_split l2 (a + n) [] b m bs El2) as (B & C & E2 & HB & Eb2 & EC). subst l2.
  apply Forall_app in Hs2 as [HsB [Hm HsC]%Forall_cons]. cbn [seg_ok head_addr] in *. rewrite total_app in Hend. cbn [total seg_size] in Hend.
  pose proof (total_nonneg B HsB). pose proof (total_nonneg C HsC).
  pose proof (ok_chain _ _ _ Hpg) as Hc. rewrite Eb in Hc. cbn [free_chain head_addr] in Hc. destruct Hc as (_ & _ & _ & G5 & G6).
  unfold defragment_fast. rewrite rd_ok by lia. cbn [mbind outcome_bind]. rewrite (ok_frag _ _ _ Hpg), (proj2 (Z.ltb_ge _ _)) by lia.
  rewrite (get2byte_ok _ (hdrOffset pg + 1)) by (done || lia). cbn [mbind outcome_bind]. rewrite G1.
  rewrite (proj2 (Z.ltb_ge _ a)), (proj2 (Z.eqb_neq a 0)) by lia. rewrite (get2byte_ok _ a) by (done || lia). cbn [mbind outcome_bind].
  rewrite G3, (proj2 (Z.ltb_ge _ b)), (proj2 (Z.eqb_neq b 0)) by lia. rewrite !rd_ok by lia. cbn [mbind outcome_bind].
  destruct (Z.eqb_spec d.[b] 0) as [Z0|Z0]; [destruct (Z.eqb_spec d.[b + 1] 0) as [Z1|Z1]|]; cbn [andb negb]; try by exists fast_no.
  assert (bs = []) as Ebs.
  { destruct bs as [|[c k] bs]; [done|]. destruct G6 as [G6 _]. cbn [head_addr] in G6. unfold g2 in G6. rewrite Z0, Z1 in G6.
    assert ((c, k) ∈ blocks top l) as Hin by (rewrite Eb; right; right; by left).
    apply (blocks_in l (ok_segs _ _ _ Hpg)) in Hin. lia. }
  rewrite Ebs in EC. symmetry in EC. apply (blocks_nil C _ 0) in EC.
  rewrite !get2byte_ok by (done || lia). cbn [mbind outcome_bind]. rewrite G2, G4, G5.
  rewrite (proj2 (Z.leb_gt a top)), (proj2 (Z.ltb_ge b (a + n))), (proj2 (Z.ltb_ge _ (b + m))) by lia.
  destruct (two_blocks A n B m C El HA ltac:(by eapply blocks_nil) EC) as (d1 & data & E1 & E2 & Hmoves). rewrite <- Ea in *.
  replace (b - (a + n)) with (total B) by lia. rewrite E1. cbn [mbind outcome_bind].
  replace (a - top) with (total A) by lia. rewrite E2. cbn [mbind outcome_bind]. rewrite <- Eb2 in Hmoves.
  destruct (fast_finish nMaxFrag _ _ _ _ _ _ _ Hmoves Hmax) as (d2 & -> & Hout). cbn [mbind outcome_bind].
  eexists. split; [done|]. exact Hout.
Qed.

Lemma defragment_fast_ok nMaxFrag : exists r, defragment_fast pg nMaxFrag = Done r /\ fast_spec nMaxFrag r.
Proof.
  destruct (Z.le_gt_cases (frags l) nMaxFrag) as [Hmax|Hmax].
  - destruct (blocks top l) as [|[a n] [|[b m] bs]] eqn:Eb; [|by eapply fast_one_ok|by eapply fast_two_ok].
    destruct (page_nums pg top l d Hpg) as (Hh & Hnc & Ho & Hg & Ht0 & Hl & Hu & Hp & Hb).
    exists fast_no. split; [|done]. unfold defragment_fast. rewrite rd_ok by lia. cbn [mbind outcome_bind].
    rewrite (ok_frag _ _ _ Hpg), (proj2 (Z.ltb_ge _ _)) by lia. rewrite (get2byte_ok _ (hdrOffset pg + 1)) by (done || lia). cbn [mbind outcome_bind].
    pose proof (ok_chain _ _ _ Hpg) as Hc. rewrite Eb in Hc. destruct Hc as [-> _]. cbn [head_addr].
    by rewrite (proj2 (Z.ltb_ge _ 0)) by lia.
  - destruct (page_nums pg top l d Hpg) as (Hh & Hnc & Ho & Hg & Ht0 & Hl & Hu & Hp & Hb).
    exists fast_no. split; [|done]. unfold defragment_fast. rewrite rd_ok by lia. cbn [mbind outcome_bind].
    by rewrite (ok_frag _ _ _ Hpg), (proj2 (Z.ltb_lt _ _)) by lia.
Qed.

Lemma defragmentPage_ok temp0 nMaxFrag : bytes_ok temp0 -> usableSize pg <= len temp0 ->
  exists pg', defragmentPage temp0 pg nMaxFrag = Done (SQLITE_OK, pg') /\ defragmented pg ps nMaxFrag pg'.
Proof.
  intros B L. destruct (defragment_fast_ok nMaxFrag) as ([| |cbrk d1] & E & Hr); [done|by eapply defragment_general|].
  unfold defragmentPage. rewrite E. exact Hr.
Qed.
End fast.

(** * allocateSpace *)

Lemma steady_moved `{CF : CellFormat, CL : !CellFormatLaws} pg top l ps d' :
  page_ok pg top l -> listed pg ps -> ps ≡ₚ cells top l -> bytes_ok d' -> length d' = length (aData pg) ->
  (forall j, 0 <= j -> steady pg top l j -> d'.[j] = (aData pg).[j]) ->
  listed (with_data pg d') ps /\ moved (aData pg) ps d' ps.
Proof.
  intros Hpg Hps Hperm B L Hsame. destruct (page_nums pg top l (aData pg) Hpg) as (Hh & Hnc & Ho & Hg & Ht0 & Hl & Hu & Hp & Hb).
  assert (forall a n, (a, n) ∈ ps -> (a, n) ∈ cells top l /\ top <= a /\ a + n <= usableSize pg) as Hin.
  { intros a n Hin. rewrite Hperm in Hin. split; [done|]. apply (cells_in l (ok_segs _ _ _ Hpg)) in Hin. lia. }
  assert (moved (aData pg) ps d' ps) as Hm.
  { apply Forall_Forall2_diag, Forall_forall. intros [a n] Hain. split; [done|]. intros j Hj. apply Hin in Hain as (Hain & ? & ?).
    apply Hsame; [lia|]. right. right. right. right. exists a, n. split; [done|lia]. }
  split; [|done]. split; cbn.
  - apply (listed_length _ _ Hps).
  - intros i a n Hi. rewrite <- (listed_pointer _ _ Hps i a n Hi). apply lookup_lt_Some in Hi. pose proof (listed_length _ _ Hps).
    unfold g2. rewrite !Hsame; try done; try lia; right; right; left; lia.
  - apply (moved_sizes pg top l ps (aData pg) Hpg Hps Hperm d' ps B L Hm). intros a n Hain. apply Hin in Hain. lia.
Qed.

(** The space from the gap. *)
Lemma gap_take pg top l nByte : page_ok pg top l -> 4 <= nByte -> cellOffset pg + 2 * nCell pg + 2 + nByte <= top ->
  exists d', put2byte (aData pg) (hdrOffset pg + 5) (top - nByte) = Done d' /\
    page_ok (taken_page pg d' nByte) (top - nByte) (Cell nByte :: l) /\
    forall j, 0 <= j -> ~ (hdrOffset pg + 5 <= j < hdrOffset pg + 7) -> d'.[j] = (aData pg).[j].
Proof.
  intros Hpg Hn Hgap. destruct (page_nums pg top l (aData pg) Hpg) as (Hh & Hnc & Ho & Hg & Ht0 & Hl & Hu & Hp & Hb).
  destruct (put2byte_ok (aData pg) (hdrOffset pg + 5) (top - nByte) Hb) as (d' & E & (L & B & F) & G); [lia|lia|].
  exists d'. split; [done|]. split; [|intros j ? ?; apply F; lia].
  pose proof Hpg as [_ _ _ Hhdr _ _ _ Hs _ Hfar Hfrag Hc HnF].
  assert (blocks (top - nByte + nByte) l = blocks top l) as Eb by (f_equal; lia).
  split; cbn; rewrite ?Eb; try done; try lia.
  - unfold top_of. rewrite G. rewrite Z.mod_small by lia. by rewrite (proj2 (Z.eqb_neq _ 0)) by lia.
  - by constructor.
  - etrans; [apply F; lia|exact Hfrag].
  - eapply free_chain_frame; [| |exact Hc]; [intros j Hj; apply F; lia|].
    intros a n j Hin Hj. apply (blocks_in l Hs) in Hin. apply F; lia.
Qed.

(** The free list is searched. *)
Lemma pageFindSlot_ok pg top l nByte : page_ok pg top l -> 4 <= nByte -> g2 (aData pg) (hdrOffset pg + 1) <> 0 ->
  exists slot d', pageFindSlot pg nByte = Done (SQLITE_OK, slot, d') /\
    match slot with
    | None => d' = aData pg
    | Some a => exists l1 m l2, slot_ok (aData pg) (hdrOffset pg) top l nByte a d' l1 m l2
    end.
Proof.
  intros Hpg Hn Hne. destruct (page_nums pg top l (aData pg) Hpg) as (Hh & Hnc & Ho & Hg & Ht0 & Hl & Hu & Hp & Hb).
  unfold pageFindSlot. rewrite get2byte_ok by (done || lia). cbn [mbind outcome_bind].
  pose proof (ok_chain _ _ _ Hpg) as Hc. destruct (blocks top l) as [|[pc n] bs] eqn:Eb; [by destruct Hc|].
  destruct Hc as [-> _]. cbn [head_addr]. pose proof (blocks_length l (ok_segs _ _ _ Hpg) top) as Hlen. rewrite Eb in Hlen. cbn [length] in Hlen.
  apply (find_slot_loop_ok pg top l nByte Hpg Hn bs [] pc n); [done|lia].
Qed.

(** The page after an allocation: the new cell at [a], the others with their bytes, room
    for a pointer to the new cell; its user subtracts [nByte] from [nFree]. *)
Definition allocated `{CellFormat} (pg : MemPage) (ps : list (Z * Z)) (nByte a : Z) (pg' : MemPage) : Prop :=
  exists d' top' l' ps', pg' = with_data pg d' /\ page_ok (with_nFree pg' (nFree pg - nByte)) top' l' /\
    cellOffset pg + 2 * nCell pg + 2 <= top' /\ cells top' l' ≡ₚ (a, nByte) :: ps' /\ listed pg' ps' /\ moved (aData pg) ps d' ps' /\
    forall j, 0 <= j -> j < hdrOffset pg + 1 \/ hdrOffset pg + 3 <= j < hdrOffset pg + 5 \/ usableSize pg <= j -> d'.[j] = (aData pg).[j].

Section allocate.
Context {CF : CellFormat} {CL : CellFormatLaws}.
Context (temp0 : bytes) (nByte : Z).
Hypothesis HnByte : 4 <= nByte.

Lemma take_allocated pg top l ps : page_ok pg top l -> listed pg ps -> ps ≡ₚ cells top l -> cellOffset pg + 2 * nCell pg + 2 + nByte <= top ->
  exists d', put2byte (aData pg) (hdrOffset pg + 5) (top - nByte) = Done d' /\ allocated pg ps nByte (top - nByte) (with_data pg d').
Proof using HnByte CL.
  intros Hpg Hps Hperm Hgap. destruct (page_nums pg top l (aData pg) Hpg) as (Hh & Hnc & Ho & Hg & Ht0 & Hl & Hu & Hp & Hb).
  destruct (gap_take pg top l nByte Hpg HnByte Hgap) as (d' & E & Hpg' & F). exists d'. split; [done|].
  destruct (put2byte_ok (aData pg) (hdrOffset pg + 5) (top - nByte) Hb) as (d2 & E2 & (L & B & _) & _); [lia|lia|].
  assert (d2 = d') as -> by congruence. clear E2.
  destruct (steady_moved pg top l ps d' Hpg Hps Hperm B L) as [Hls Hm].
  { intros j Hj Hk. apply F; [done|]. destruct Hk as [?|[?|[?|[?|(a & m & Hin & ?)]]]]; try lia.
    apply (cells_in l (ok_segs _ _ _ Hpg)) in Hin. lia. }
  exists d', (top - nByte), (Cell nByte :: l), ps. split; [done|]. split; [exact Hpg'|]. split; [lia|].
  split; [|split; [done|split; [done|]]].
  - cbn [cells]. rewrite Hperm. by replace (top - nByte + nByte) with top by lia.
  - intros j Hj Hk. apply F; lia.
Qed.

Lemma slot_allocated pg top l ps a d' l1 n l2 : page_ok pg top l -> listed pg ps -> ps ≡ₚ cells top l ->
  cellOffset pg + 2 * nCell pg + 2 <= top -> slot_ok (aData pg) (hdrOffset pg) top l nByte a d' l1 n l2 ->
  top <= a /\ allocated pg ps nByte a (with_data pg d').
Proof using HnByte CL.
  intros Hpg Hps Hperm Hgap Hslot. destruct (slot_page pg top l nByte Hpg HnByte a d' l1 n l2 Hslot) as [Hpg' F].
  destruct (slot_cells pg top l nByte Hpg a d' l1 n l2 Hslot) as (c1 & c2 & Ec & Ec').
  pose proof (slot_data _ _ _ _ _ _ _ _ _ _ Hslot) as (B & L & _).
  destruct (slot_facts pg top l nByte Hpg a d' l1 n l2 Hslot) as (_ & ? & ? & _). pose proof (slot_addr _ _ _ _ _ _ _ _ _ _ Hslot).
  destruct (steady_moved pg top l ps d' Hpg Hps Hperm B L F) as [Hls Hm]. split; [lia|].
  exists d', top, (slot_layout_of l1 (n - nByte) nByte l2), ps. split; [done|]. split; [exact Hpg'|]. split; [done|].
  split; [|split; [done|split; [done|]]].
  - rewrite Ec', Hperm, Ec. by rewrite Permutation_middle.
  - intros j Hj Hk. apply F; [done|]. unfold steady. lia.
Qed.

Lemma moved_trans d1 ps1 d2 ps2 d3 ps3 : moved d1 ps1 d2 ps2 -> moved d2 ps2 d3 ps3 -> moved d1 ps1 d3 ps3.
Proof.
  unfold moved. intros H. revert ps3. induction H as [|[a n] [b m] ps1 ps2 [-> H1] _ IH]; intros ps3; [by inversion 1|].
  intros H'. apply Forall2_cons_inv_l in H' as ([c k] & ps3' & [-> H3] & H4 & ->). constructor; [|by apply IH].
  split; [done|]. intros j Hj. by rewrite H3, H1.
Qed.

Lemma allocate_gap_ok pg top l ps : page_ok pg top l -> listed pg ps -> ps ≡ₚ cells top l ->
  bytes_ok temp0 -> usableSize pg <= len temp0 -> nByte + 2 <= nFree pg ->
  exists a pg', allocate_gap temp0 pg nByte (cellOffset pg + 2 * nCell pg) top = Done (SQLITE_OK, Some a, pg') /\ allocated pg ps nByte a pg'.
Proof using HnByte CL.
  intros Hpg Hps Hperm Bt Lt Hfree. unfold allocate_gap. destruct (Z.ltb_spec top (cellOffset pg + 2 * nCell pg + 2 + nByte)) as [Hlt|Hge].
  - destruct (defragmentPage_ok pg top l ps Hpg Hps Hperm temp0 (Z.min 4 (nFree pg - (2 + nByte))) Bt Lt) as (pg1 & -> & Hdef).
    destruct Hdef as (d1 & top1 & l1 & ps1 & -> & Hpg1 & Hno & Hfr & Hps1 & Hperm1 & Hm1 & F1).
    cbn [mbind outcome_bind]. change (SQLITE_OK =? SQLITE_OK) with true. cbn [negb].
    destruct (page_nums _ _ _ d1 Hpg1) as (Hh & Hnc & Ho & Hg & Ht0 & Hl & Hu & Hp & Hb). cbn in Hh, Hnc, Ho, Hg, Ht0, Hl, Hu, Hb.
    rewrite get2byteNotZero_ok by (done || (cbn; lia)). cbn [mbind outcome_bind]. change (SQLITE_OK =? SQLITE_OK) with true. cbn [negb].
    pose proof (ok_top _ _ _ Hpg1) as Ht1. pose proof (ok_nFree _ _ _ Hpg1) as Hn1. unfold top_of in Ht1. cbn in Ht1, Hn1 |- *.
    rewrite (no_free_frees l1 0 Hno) in Hn1. rewrite Ht1.
    destruct (take_allocated (with_data pg d1) top1 l1 ps1 Hpg1 Hps1 Hperm1) as (d' & E & Hal); [cbn; lia|].
    cbn in E. rewrite E. cbn [mbind outcome_bind]. exists (top1 - nByte), (with_data pg d'). split; [done|].
    destruct Hal as (d2 & top2 & l2 & ps2 & [= <-] & Hpg2 & Hr2 & Hc2 & Hps2 & Hm2 & F2).
    exists d', top2, l2, ps2. split; [done|]. split; [done|]. split; [done|]. split; [done|]. split; [done|].
    split; [by eapply moved_trans|]. intros j Hj Hk. rewrite F2 by done. by apply F1.
  - cbn [mbind outcome_bind]. change (SQLITE_OK =? SQLITE_OK) with true. cbn [negb].
    destruct (take_allocated pg top l ps Hpg Hps Hperm Hge) as (d' & -> & Hal). cbn [mbind outcome_bind]. by exists (top - nByte), (with_data pg d').
Qed.

Lemma allocateSpace_ok pg top l ps : page_ok pg top l -> listed pg ps -> ps ≡ₚ cells top l ->
  bytes_ok temp0 -> usableSize pg <= len temp0 -> nByte + 2 <= nFree pg ->
  exists a pg', allocateSpace temp0 pg nByte = Done (SQLITE_OK, Some a, pg') /\ allocated pg ps nByte a pg'.
Proof using HnByte CL.
  intros Hpg Hps Hperm Bt Lt Hfree. destruct (page_nums pg top l (aData pg) Hpg) as (Hh & Hnc & Ho & Hg & Ht0 & Hl & Hu & Hp & Hb).
  unfold allocateSpace. rewrite get2byte_ok by (done || lia). cbn [mbind outcome_bind].
  set (gap := cellOffset pg + 2 * nCell pg) in *. set (raw := g2 (aData pg) (hdrOffset pg + 5)).
  assert ((raw <? gap) && negb ((raw =? 0) && (usableSize pg =? 65536)) = false /\ (if raw <? gap then 65536 else raw) = top) as [-> ->].
  { pose proof (ok_top _ _ _ Hpg) as Ht. unfold top_of in Ht. fold raw in Ht. pose proof (g2_range (aData pg) (hdrOffset pg + 5) Hb) as Hr. fold raw in Hr.
    destruct (Z.eqb_spec raw 0), (Z.ltb_spec raw gap), (Z.eqb_spec (usableSize pg) 65536); cbn; try lia; done. }
  rewrite !rd_ok by lia. cbn [mbind outcome_bind].
  destruct ((negb _ || negb _) && _) eqn:Ec; [|by apply allocate_gap_ok with (top := top) (l := l)].
  assert (g2 (aData pg) (hdrOffset pg + 1) <> 0 /\ gap + 2 <= top) as [Hne Hgap].
  { pose proof (ld_ok (aData pg) (hdrOffset pg + 1) Hb). pose proof (ld_ok (aData pg) (hdrOffset pg + 2) Hb). unfold g2.
    replace (hdrOffset pg + 1 + 1) with (hdrOffset pg + 2) by lia. lia. }
  destruct (pageFindSlot_ok pg top l nByte Hpg HnByte Hne) as (slot & d' & -> & Hslot). cbn [mbind outcome_bind].
  destruct slot as [a|].
  - destruct Hslot as (l1 & m & l2 & Hslot). destruct (slot_allocated pg top l ps a d' l1 m l2 Hpg Hps Hperm Hgap Hslot) as [Ha Hal].
    rewrite (proj2 (Z.leb_gt a gap)) by lia. by exists a, (with_data pg d').
  - subst d'. change (SQLITE_OK =? SQLITE_OK) with true. cbn [negb].
    replace (with_data pg (aData pg)) with pg by (by destruct pg). by apply allocate_gap_ok with (top := top) (l := l).
Qed.
End allocate.

(** C19. [allocateSpace] always finds room.  On a page with any layout, whose pointers name
    its cells in any order, and for a cell that [nFree] has room for together with its
    pointer: whether the space comes from the free list, from the gap or after
    [defragmentPage], the call succeeds and never finds the page corrupt; the new page has
    a layout again, whose cells are the new one and the old ones, each under its pointer
    and with the bytes it had; two bytes are left for the pointer of the new cell; and no
    byte outside the free-space fields, the pointers and the content area changes. *)
Theorem allocateSpace_correct `{CF : CellFormat, CL : !CellFormatLaws} temp0 nByte pg top l ps :
  page_ok pg top l -> listed pg ps -> ps ≡ₚ cells top l -> bytes_ok temp0 -> usableSize pg <= len temp0 ->
  4 <= nByte -> nByte + 2 <= nFree pg ->
  exists a pg', allocateSpace temp0 pg nByte = Done (SQLITE_OK, Some a, pg') /\ allocated pg ps nByte a pg'.
Proof. intros. by eapply allocateSpace_ok. Qed.

(** [defragmentPage] leaves no free block.  On a page with any layout whose pointers
    name its cells in any order, by [memmove] of at most two runs of cells or by copying
    every cell: it succeeds; the new page has a layout with no free block and at most
    [nMaxFrag] fragment bytes, the same [nFree] and the same cells, each under its pointer
    and with the bytes it had. *)
Theorem defragmentPage_correct `{CF : CellFormat, CL : !CellFormatLaws} temp0 nMaxFrag pg top l ps :
  page_ok pg top l -> listed pg ps -> ps ≡ₚ cells top l -> bytes_ok temp0 -> usableSize pg <= len temp0 ->
  exists pg', defragmentPage temp0 pg nMaxFrag = Done (SQLITE_OK, pg') /\ defragmented pg ps nMaxFrag pg'.
Proof. intros. by eapply defragmentPage_ok. Qed.
