(* ===== verification/PageCell.v ===== *)
(** * PageCell: the cells of b-tree pages (btree.c of src/src/db/sqlite3/core/sqlite3.c)

    [decodeFlags] chooses by the first byte of a page how its cells are read:
    [btreeParseCellPtr] (leaves of tables), [btreeParseCellPtrNoPayload] (interior pages of
    tables) and [btreeParseCellPtrIndex] parse a cell, [cellSizePtr] and
    [cellSizePtrNoPayload] compute its size alone.  The results: the two ways to read a cell agree, the inlined integer readers are
    [sqlite3GetVarint], the part of the payload kept on the page is within its limits,
    and a cell's size depends on the bytes of the cell alone, which the theorems on the
    space of a page rely on. *)

From S2P Require Import Prelude CType Varint ByteMem PageHeap PageAlloc PageDefrag PageFast.

(** ** The kinds of pages *)

(** The limits of a [BtShared]. *)
Record BtShared := mk_bt {
  bt_usableSize : Z;
  bt_maxLocal : Z;
  bt_minLocal : Z;
  bt_maxLeaf : Z;
  bt_minLeaf : Z;
  bt_max1bytePayload : Z
}.

(** The end of [lockBtree]: the limits that follow from the usable size. *)
Definition lockBtree_limits (usableSize : Z) : BtShared :=
  let maxLocal := u16 ((usableSize - 12) * 64 / 255 - 23) in
  let minLocal := u16 ((usableSize - 12) * 32 / 255 - 23) in
  let maxLeaf := u16 (usableSize - 35) in
  let minLeaf := u16 ((usableSize - 12) * 32 / 255 - 23) in
  mk_bt usableSize maxLocal minLocal maxLeaf minLeaf (if 127 <? maxLocal then 127 else u8 maxLocal).

Inductive cell_sizer := cellSizePtr_fn | cellSizePtrNoPayload_fn.
Inductive cell_parser := btreeParseCellPtr_fn | btreeParseCellPtrNoPayload_fn | btreeParseCellPtrIndex_fn.

(** The fields of a [MemPage] that say how its cells are read. *)
Record PageKind := mk_kind {
  leaf : Z;
  intKey : bool;
  intKeyLeaf : bool;
  kChildPtrSize : Z;
  maxLocal : Z;
  minLocal : Z;
  max1bytePayload : Z;
  xCellSize_fn : cell_sizer;
  xParseCell_fn : cell_parser
}.

Definition PTF_INTKEY : Z := 0x01.
Definition PTF_ZERODATA : Z := 0x02.
Definition PTF_LEAFDATA : Z := 0x04.
Definition PTF_LEAF : Z := 0x08.

Definition decodeFlags (pBt : BtShared) (k : PageKind) (flagByte : Z) : Z * PageKind :=
  let leaf := u8 (flagByte >> 3) in
  let flagByte := flagByte .& 0xfffffff7 in
  let child := u8 (4 - 4 * leaf) in
  if flagByte =? (PTF_LEAFDATA .| PTF_INTKEY) then
    (SQLITE_OK,
     if negb (leaf =? 0) then
       mk_kind leaf true true child (bt_maxLeaf pBt) (bt_minLeaf pBt) (bt_max1bytePayload pBt) cellSizePtr_fn btreeParseCellPtr_fn
     else
       mk_kind leaf true false child (bt_maxLeaf pBt) (bt_minLeaf pBt) (bt_max1bytePayload pBt) cellSizePtrNoPayload_fn btreeParseCellPtrNoPayload_fn)
  else if flagByte =? PTF_ZERODATA then
    (SQLITE_OK, mk_kind leaf false false child (bt_maxLocal pBt) (bt_minLocal pBt) (bt_max1bytePayload pBt) cellSizePtr_fn btreeParseCellPtrIndex_fn)
  else
    (SQLITE_CORRUPT, mk_kind leaf (intKey k) (intKeyLeaf k) child (maxLocal k) (minLocal k) (max1bytePayload k) cellSizePtr_fn (xParseCell_fn k)).

(** ** Reading integers *)

(** [do{ nSize = (nSize<<7) | ( *++pIter & 0x7f); }while( *pIter>=0x80 && pIter<pEnd );] *)
Fixpoint payload_loop (fuel : nat) (d : bytes) (pIter pEnd nSize : Z) : outcome (Z * Z) :=
  match fuel with
  | O => UB
  | S fuel =>
      let pIter := pIter + 1 in
      b ← rd d pIter;
      let nSize := u32 (nSize << 7) .| (b .& 0x7f) in
      if (0x80 <=? b) && (pIter <? pEnd) then payload_loop fuel d pIter pEnd nSize else Done (pIter, nSize)
  end.

(** The varint of the payload's size at [pIter]: the address behind it and its value. *)
Definition read_payload (d : bytes) (pIter : Z) : outcome (Z * Z) :=
  nSize ← rd d pIter;
  '(pIter, nSize) ← (if 0x80 <=? nSize then payload_loop 8 d pIter (pIter + 8) (nSize .& 0x7f) else Done (pIter, nSize));
  Done (pIter + 1, nSize).

(** [while( ( *pIter++)&0x80 && pIter<pEnd );] *)
Fixpoint skip_loop (fuel : nat) (d : bytes) (pIter pEnd : Z) : outcome Z :=
  match fuel with
  | O => UB
  | S fuel =>
      b ← rd d pIter;
      if negb (b .& 0x80 =? 0) && (pIter + 1 <? pEnd) then skip_loop fuel d (pIter + 1) pEnd else Done (pIter + 1)
  end.

(** The [while(1)] loop of [btreeParseCellPtr]. *)
Fixpoint key_loop (fuel : nat) (d : bytes) (pIter pEnd iKey : Z) : outcome (Z * Z) :=
  match fuel with
  | O => UB
  | S fuel =>
      let pIter := pIter + 1 in
      b ← rd d pIter;
      let iKey := u64 (iKey << 7) .| (b .& 0x7f) in
      if b <? 0x80 then Done (pIter, iKey)
      else if pEnd <=? pIter then
        let pIter := pIter + 1 in
        b ← rd d pIter;
        Done (pIter, u64 (iKey << 8) .| b)
      else key_loop fuel d pIter pEnd iKey
  end.

Definition read_key (d : bytes) (pIter : Z) : outcome (Z * Z) :=
  iKey ← rd d pIter;
  '(pIter, iKey) ← (if 0x80 <=? iKey then key_loop 7 d pIter (pIter + 7) (iKey .& 0x7f) else Done (pIter, iKey));
  Done (pIter + 1, iKey).

(** ** Sizes and parts of a cell *)

Record CellInfo := mk_info { nKey : Z; pPayload : Z; nPayload : Z; nLocal : Z; nSize : Z }.

Section cell.
Context (usable : Z) (k : PageKind).

Definition btreePayloadToLocal (nPayload : Z) : Z :=
  if nPayload <=? maxLocal k then nPayload
  else
    let surplus := minLocal k + Z.rem (nPayload - minLocal k) (usable - 4) in
    if surplus <=? maxLocal k then surplus else minLocal k.

Definition btreeParseCellAdjustSizeForOverflow (pCell : Z) (info : CellInfo) : CellInfo :=
  let surplus := i32 (u32 (minLocal k + u32 (nPayload info - minLocal k) mod u32 (usable - 4))) in
  let nLocal := if surplus <=? maxLocal k then u16 surplus else u16 (minLocal k) in
  mk_info (nKey info) (pPayload info) (nPayload info) nLocal (u16 (u16 (pPayload info + nLocal - pCell) + 4)).

(** The common end of two parsers. *)
Definition local_info (pCell pIter nPayload nKey : Z) : CellInfo :=
  if nPayload <=? maxLocal k then
    let nSize := u16 (nPayload + u16 (pIter - pCell)) in
    mk_info nKey pIter nPayload (u16 nPayload) (if nSize <? 4 then 4 else nSize)
  else btreeParseCellAdjustSizeForOverflow pCell (mk_info nKey pIter nPayload 0 0).

Definition btreeParseCellPtr (d : bytes) (pCell : Z) : outcome CellInfo :=
  '(pIter, nPayload) ← read_payload d pCell;
  '(pIter, iKey) ← read_key d pIter;
  Done (local_info pCell pIter nPayload (i64 iKey)).

Definition btreeParseCellPtrIndex (d : bytes) (pCell : Z) : outcome CellInfo :=
  '(pIter, nPayload) ← read_payload d (pCell + kChildPtrSize k);
  Done (local_info pCell pIter nPayload nPayload).

Definition btreeParseCellPtrNoPayload (d : bytes) (pCell : Z) : outcome CellInfo :=
  match sqlite3GetVarint (drop (Z.to_nat (pCell + 4)) d) with
  | None => UB
  | Some (key, n) => Done (mk_info (i64 key) 0 0 0 (u16 (4 + n)))
  end.

Definition cellSizePtr (d : bytes) (pCell : Z) : outcome Z :=
  '(pIter, nSize) ← read_payload d (pCell + kChildPtrSize k);
  pIter ← (if intKey k then skip_loop 9 d pIter (pIter + 9) else Done pIter);
  if nSize <=? maxLocal k then
    let nSize := u32 (nSize + u32 (pIter - pCell)) in
    Done (u16 (if nSize <? 4 then 4 else nSize))
  else
    let nSize := u32 (minLocal k + u32 (nSize - minLocal k) mod u32 (usable - 4)) in
    let nSize := if maxLocal k <? nSize then minLocal k else nSize in
    Done (u16 (u32 (nSize + (4 + u16 (pIter - pCell))))).

Definition cellSizePtrNoPayload (d : bytes) (pCell : Z) : outcome Z :=
  let pIter := pCell + 4 in
  pIter ← skip_loop 9 d pIter (pIter + 9);
  Done (u16 (pIter - pCell)).

(** The method calls. *)
Definition page_xCellSize (d : bytes) (pCell : Z) : outcome Z :=
  match xCellSize_fn k with
  | cellSizePtr_fn => cellSizePtr d pCell
  | cellSizePtrNoPayload_fn => cellSizePtrNoPayload d pCell
  end.

Definition page_xParseCell (d : bytes) (pCell : Z) : outcome CellInfo :=
  match xParseCell_fn k with
  | btreeParseCellPtr_fn => btreeParseCellPtr d pCell
  | btreeParseCellPtrNoPayload_fn => btreeParseCellPtrNoPayload d pCell
  | btreeParseCellPtrIndex_fn => btreeParseCellPtrIndex d pCell
  end.
End cell.

(** * The inlined readers *)

Lemma rd_drop d i : 0 <= i -> rd d i = match drop (Z.to_nat i) d with [] => UB | b :: _ => Done b end.
Proof.
  intros Hi. unfold rd, ld. rewrite (proj2 (Z.leb_le _ _)) by lia. cbn [andb]. destruct (Z.ltb_spec i (len d)).
  - destruct (lookup_lt_is_Some_2 d (Z.to_nat i)) as [b Hb]; [lia|]. rewrite nth_lookup, Hb. by rewrite (drop_S _ _ _ Hb).
  - by rewrite drop_ge by lia.
Qed.

Lemma drop_next (d : bytes) i : 0 <= i -> drop (Z.to_nat (i + 1)) d = tail (drop (Z.to_nat i) d).
Proof. intros Hi. replace (Z.to_nat (i + 1)) with (Z.to_nat i + 1)%nat by lia. rewrite <- drop_drop. by destruct (drop _ d). Qed.

Lemma drop_bytes (d : bytes) n b r : bytes_ok d -> drop n d = b :: r -> is_byte b.
Proof. intros Hd E. apply (Forall_drop _ n) in Hd. rewrite E in Hd. by apply Forall_cons in Hd as [? _]. Qed.

Lemma is_byte_high b : is_byte b -> (b .& 0x80 =? 0) = (b <? 128).
Proof. intros Hb. rewrite land_80, byte_lt128 by done. by destruct (Z.testbit b 7). Qed.

Lemma is_byte_low b : is_byte b -> b .& 0x7f = if b <? 128 then b else b - 128.
Proof.
  intros Hb. unfold is_byte in Hb. change 0x7f with (2 ^ 7 - 1). rewrite land_ones_mod by lia. change (2 ^ 7) with 128.
  destruct (Z.ltb_spec b 128); [apply Z.mod_small; lia|]. symmetry. apply (Z.mod_unique _ _ 1); lia.
Qed.

Lemma add_group acc b : is_byte b -> 0 <= acc -> acc * 128 < 2 ^ 64 ->
  u64 (acc << 7) .| (b .& 0x7f) = acc * 128 + (if b <? 128 then b else b - 128).
Proof.
  intros Hb Ha Hlt. unfold u64. rewrite Z.shiftl_mul_pow2 by lia. change (2 ^ 7) with 128. rewrite Z.mod_small by lia.
  rewrite (is_byte_low b Hb). unfold is_byte in Hb. change 128 with (2 ^ 7) at 1. rewrite <- Z.shiftl_mul_pow2 by lia.
  apply shl_lor_add; [lia|]. destruct (Z.ltb_spec b 128); lia.
Qed.

(** One turn of each loop. *)
Lemma skip_loop_S fuel d i e : skip_loop (S fuel) d i e =
  (b ← rd d i; if negb (b .& 0x80 =? 0) && (i + 1 <? e) then skip_loop fuel d (i + 1) e else Done (i + 1)).
Proof. done. Qed.

Lemma key_loop_S fuel d i e v : key_loop (S fuel) d i e v =
  (b ← rd d (i + 1);
   let v := u64 (v << 7) .| (b .& 0x7f) in
   if b <? 0x80 then Done (i + 1, v)
   else if e <=? i + 1 then b ← rd d (i + 1 + 1); Done (i + 1 + 1, u64 (v << 8) .| b)
   else key_loop fuel d (i + 1) e v).
Proof. done. Qed.

Lemma payload_loop_S fuel d i e v : payload_loop (S fuel) d i e v =
  (b ← rd d (i + 1);
   let v := u32 (v << 7) .| (b .& 0x7f) in
   if (0x80 <=? b) && (i + 1 <? e) then payload_loop fuel d (i + 1) e v else Done (i + 1, v)).
Proof. done. Qed.

Lemma varint_ref_S n acc b r : varint_ref (S n) acc (b :: r) =
  if b <? 128 then Some (acc * 128 + b, 1) else '(v, c) ← varint_ref n (acc * 128 + (b - 128)) r; Some (v, c + 1).
Proof. done. Qed.

(** The loop that skips a varint stops where [sqlite3GetVarint] does. *)
Lemma skip_loop_spec d (Hd : bytes_ok d) n : forall i acc, 0 <= i ->
  skip_loop (S n) d i (i + Z.of_nat n + 1) =
    match varint_ref n acc (drop (Z.to_nat i) d) with None => UB | Some (_, c) => Done (i + c) end.
Proof.
  induction n as [|n IH]; intros i acc Hi; rewrite skip_loop_S, (rd_drop d i) by done;
    (destruct (drop (Z.to_nat i) d) as [|b r] eqn:E; [done|]); cbn [mbind outcome_bind varint_ref];
    pose proof (drop_bytes _ _ _ _ Hd E) as Hb.
  - rewrite (proj2 (Z.ltb_ge (i + 1) _)) by lia. rewrite andb_false_r. done.
  - rewrite is_byte_high by done. destruct (b <? 128); cbn [negb andb]; [done|]. rewrite (proj2 (Z.ltb_lt (i + 1) _)) by lia.
    specialize (IH (i + 1) (acc * 128 + (b - 128)) ltac:(lia)). rewrite drop_next, E in IH by done. cbn [tail] in IH.
    replace (i + 1 + Z.of_nat n + 1) with (i + Z.of_nat (S n) + 1) in IH by lia. rewrite IH.
    destruct (varint_ref n _ r) as [[v c]|]; cbn [mbind option_bind]; [|done]. f_equal. lia.
Qed.

Lemma key_loop_spec d (Hd : bytes_ok d) n : forall i acc, 0 <= i -> 0 <= acc < 2 ^ (56 - 7 * Z.of_nat n) -> (n <= 7)%nat -> 
  (0 < n)%nat ->
  key_loop n d i (i + Z.of_nat n) acc =
    match varint_ref n acc (drop (Z.to_nat (i + 1)) d) with None => UB | Some (v, c) => Done (i + c, v) end.
Proof.
  induction n as [|n IH]; intros i acc Hi Hacc Hn Hn0; [lia|]. rewrite key_loop_S, (rd_drop d (i + 1)) by lia.
  destruct (drop (Z.to_nat (i + 1)) d) as [|b r] eqn:E; [done|]. cbn [mbind outcome_bind varint_ref]. cbv zeta.
  pose proof (drop_bytes _ _ _ _ Hd E) as Hb. assert (acc * 128 < 2 ^ (56 - 7 * Z.of_nat n)) as Hacc'.
  { replace (56 - 7 * Z.of_nat n) with (56 - 7 * Z.of_nat (S n) + 7) by lia. rewrite Z.pow_add_r by lia. lia. }
  assert (2 ^ (56 - 7 * Z.of_nat n) <= 2 ^ 56) by (apply Z.pow_le_mono_r; lia).
  rewrite add_group by (done || lia). destruct (Z.ltb_spec b 128) as [Hlt|Hge]; [done|].
  assert (drop (Z.to_nat (i + 1 + 1)) d = r) as Er by (rewrite drop_next, E by lia; done).
  destruct n as [|n].
  - rewrite (proj2 (Z.leb_le _ (i + 1))) by lia. rewrite (rd_drop d (i + 1 + 1)), Er by lia. destruct r as [|c r]; [done|].
    cbn [mbind outcome_bind varint_ref option_bind].
    assert (is_byte c) as Hc by (eapply drop_bytes; [exact Hd|exact Er]).
    unfold is_byte in Hb, Hc. unfold u64. rewrite Z.shiftl_mul_pow2 by lia. rewrite Z.mod_small by lia. rewrite <- Z.shiftl_mul_pow2 by lia.
    rewrite shl_lor_add by lia. f_equal. f_equal; lia.
  - rewrite (proj2 (Z.leb_gt _ (i + 1))) by lia. unfold is_byte in Hb.
    replace (i + Z.of_nat (S (S n))) with (i + 1 + Z.of_nat (S n)) by lia. rewrite IH, Er; [|lia| |lia|lia].
    + destruct (varint_ref (S n) _ r) as [[v c]|]; cbn [mbind option_bind]; [|done]. f_equal. f_equal; lia.
    + split; [lia|]. apply Z.le_lt_trans with (acc * 128 + 127); [lia|].
      assert ((acc + 1) * 128 <= 2 ^ (56 - 7 * Z.of_nat (S n))); [|lia].
      replace (56 - 7 * Z.of_nat (S n)) with (56 - 7 * Z.of_nat (S (S n)) + 7) by lia. rewrite Z.pow_add_r by lia. lia.
Qed.

(** The comment of [btreeParseCellPtr]: the block that reads the key is equivalent to
    [getVarint]. *)
Lemma read_key_getVarint d i : bytes_ok d -> 0 <= i ->
  read_key d i = match sqlite3GetVarint (drop (Z.to_nat i) d) with None => UB | Some (v, c) => Done (i + c, v) end.
Proof.
  intros Hd Hi. rewrite getVarint_spec by (by apply Forall_drop). unfold read_key, varint_spec. rewrite (rd_drop d i) by done.
  destruct (drop (Z.to_nat i) d) as [|b r] eqn:E; [done|]. cbn [mbind outcome_bind]. rewrite varint_ref_S.
  pose proof (drop_bytes _ _ _ _ Hd E) as Hb. change 0x80 with 128. rewrite is_byte_low by done.
  destruct (Z.ltb_spec b 128) as [Hlt|Hge].
  - by rewrite (proj2 (Z.leb_gt _ b)) by lia.
  - unfold is_byte in Hb. rewrite (proj2 (Z.leb_le _ b)) by lia. replace (i + 7) with (i + Z.of_nat 7) by lia. rewrite (key_loop_spec d Hd 7 i (b - 128) Hi) by lia.
    rewrite drop_next, E by done. cbn [tail]. replace (0 * 128 + (b - 128)) with (b - 128) by lia.
    destruct (varint_ref 7 _ r) as [[v c]|]; cbn [mbind outcome_bind option_bind]; [|done]. f_equal. f_equal; lia.
Qed.

(** ** What the readers depend on *)

(** A reader that ends at [i'] has read the bytes from [i] up to [i']: it gives the same
    on any buffer with these bytes. *)
Lemma skip_loop_local fuel : forall d i e i', skip_loop fuel d i e = Done i' ->
  i < i' <= Z.max e (i + 1) /\
  forall d2 s, (forall j, i <= j < i' -> rd d2 (j + s) = rd d j) -> skip_loop fuel d2 (i + s) (e + s) = Done (i' + s).
Proof.
  induction fuel as [|fuel IH]; intros d i e i' H; [done|]. rewrite skip_loop_S in H.
  destruct (rd d i) as [b| |] eqn:Eb; cbn [mbind outcome_bind] in H; try done.
  destruct (negb (b .& 0x80 =? 0) && (i + 1 <? e)) eqn:Ec.
  - apply andb_true_iff in Ec as [Ec1 Ec2]. destruct (IH _ _ _ _ H) as [Hr Hl]. split; [lia|]. intros d2 s Hs.
    rewrite skip_loop_S, (Hs i), Eb by lia. cbn [mbind outcome_bind]. rewrite Ec1, (proj2 (Z.ltb_lt (i + s + 1) _)) by lia. cbn [andb].
    replace (i + s + 1) with (i + 1 + s) by lia. apply Hl. intros j ?. apply Hs. lia.
  - injection H as <-. split; [lia|]. intros d2 s Hs. rewrite skip_loop_S, (Hs i), Eb by lia. cbn [mbind outcome_bind].
    replace (i + s + 1 <? e + s) with (i + 1 <? e) by (destruct (Z.ltb_spec (i + 1) e), (Z.ltb_spec (i + s + 1) (e + s)); lia || done).
    rewrite Ec. f_equal. lia.
Qed.

Lemma add_group32 v b : 0 <= u32 (v << 7) .| (b .& 0x7f) < 2 ^ 32.
Proof.
  apply lor_bound; [apply u32_range|]. change 0x7f with (2 ^ 7 - 1). rewrite land_ones_mod by lia.
  pose proof (Z.mod_pos_bound b (2 ^ 7)). lia.
Qed.

Lemma payload_loop_local fuel : forall d i e v i' v', payload_loop fuel d i e v = Done (i', v') ->
  i < i' <= Z.max e (i + 1) /\ 0 <= v' < 2 ^ 32 /\
  forall d2 s, (forall j, i < j <= i' -> rd d2 (j + s) = rd d j) -> payload_loop fuel d2 (i + s) (e + s) v = Done (i' + s, v').
Proof.
  induction fuel as [|fuel IH]; intros d i e v i' v' H; [done|]. rewrite payload_loop_S in H.
  destruct (rd d (i + 1)) as [b| |] eqn:Eb; cbn [mbind outcome_bind] in H; try done. cbv zeta in H.
  assert (forall s, (i + s + 1 <? e + s) = (i + 1 <? e)) as Es
    by (intros s; destruct (Z.ltb_spec (i + 1) e), (Z.ltb_spec (i + s + 1) (e + s)); lia || done).
  destruct ((0x80 <=? b) && (i + 1 <? e)) eqn:Ec.
  - destruct (IH _ _ _ _ _ _ H) as (Hr & Hv & Hl). split; [lia|]. split; [done|]. intros d2 s Hs.
    rewrite payload_loop_S. replace (i + s + 1) with (i + 1 + s) by lia. rewrite (Hs (i + 1)), Eb by lia. cbn [mbind outcome_bind]. cbv zeta.
    replace (i + 1 + s) with (i + s + 1) by lia. rewrite Es, Ec. replace (i + s + 1) with (i + 1 + s) by lia. apply Hl. intros j ?. apply Hs. lia.
  - injection H as <- <-. split; [lia|]. split; [apply add_group32|]. intros d2 s Hs.
    rewrite payload_loop_S. replace (i + s + 1) with (i + 1 + s) by lia. rewrite (Hs (i + 1)), Eb by lia. cbn [mbind outcome_bind]. cbv zeta.
    replace (i + 1 + s) with (i + s + 1) by lia. rewrite Es, Ec. done.
Qed.

Lemma read_payload_local d i i' v : bytes_ok d -> read_payload d i = Done (i', v) ->
  i < i' <= i + 9 /\ 0 <= v < 2 ^ 32 /\
  forall d2 s, (forall j, i <= j < i' -> rd d2 (j + s) = rd d j) -> read_payload d2 (i + s) = Done (i' + s, v).
Proof.
  intros Hd H. unfold read_payload in *. destruct (rd d i) as [b| |] eqn:Eb; cbn [mbind outcome_bind] in H; try done.
  assert (is_byte b) as Hb.
  { unfold rd in Eb. destruct (_ && _); [|done]. injection Eb as <-. by apply ld_ok. }
  unfold is_byte in Hb. destruct (0x80 <=? b) eqn:Ec.
  - destruct (payload_loop 8 d i (i + 8) (b .& 0x7f)) as [[i2 v2]| |] eqn:El; cbn [mbind outcome_bind] in H; try done. injection H as <- <-.
    destruct (payload_loop_local _ _ _ _ _ _ _ El) as (Hr & Hv & Hl). split; [lia|]. split; [done|]. intros d2 s Hs.
    rewrite (Hs i), Eb by lia. cbn [mbind outcome_bind]. rewrite Ec. replace (i + s + 8) with (i + 8 + s) by lia.
    rewrite (Hl d2 s) by (intros j ?; apply Hs; lia). cbn [mbind outcome_bind]. do 2 f_equal. lia.
  - injection H as <- <-. split; [lia|]. split; [lia|]. intros d2 s Hs. rewrite (Hs i), Eb by lia. cbn [mbind outcome_bind]. rewrite Ec.
    cbn [mbind outcome_bind]. do 2 f_equal. lia.
Qed.

(** * The kinds of pages *)

Record kind_ok (usable : Z) (k : PageKind) : Prop := {
  kind_usable : 480 <= usable <= 65536;
  kind_local : 0 <= minLocal k <= maxLocal k /\ maxLocal k <= usable - 35;
  kind_methods : match xParseCell_fn k with
                 | btreeParseCellPtr_fn => xCellSize_fn k = cellSizePtr_fn /\ kChildPtrSize k = 0 /\ intKey k = true
                 | btreeParseCellPtrNoPayload_fn => xCellSize_fn k = cellSizePtrNoPayload_fn /\ kChildPtrSize k = 4 /\ intKey k = true
                 | btreeParseCellPtrIndex_fn => xCellSize_fn k = cellSizePtr_fn /\ (kChildPtrSize k = 0 \/ kChildPtrSize k = 4) /\ intKey k = false
                 end
}.

Lemma kind_child usable k : kind_ok usable k -> kChildPtrSize k = 0 \/ kChildPtrSize k = 4.
Proof. intros [_ _ H]. destruct (xParseCell_fn k); intuition. Qed.

Lemma flags_accepted f : 0 <= f < 256 ->
  (f .& 0xfffffff7 =? (PTF_LEAFDATA .| PTF_INTKEY)) || (f .& 0xfffffff7 =? PTF_ZERODATA) = bool_decide (f ∈ [2; 5; 10; 13]).
Proof.
  intros Hf.
  assert (forallb (fun f => eqb ((f .& 0xfffffff7 =? (PTF_LEAFDATA .| PTF_INTKEY)) || (f .& 0xfffffff7 =? PTF_ZERODATA))
    (bool_decide (f ∈ [2; 5; 10; 13]))) (seqZ 0 256) = true) as H by (vm_compute; done).
  rewrite forallb_forall in H. apply eqb_prop, H, list_elem_of_In, elem_of_seqZ. lia.
Qed.

(** The flags [decodeFlags] accepts: one of the four kinds of the file format, with the
    limits of [lockBtree]. *)
Lemma decodeFlags_ok usable k0 k flagByte : 480 <= usable <= 65536 -> 0 <= flagByte < 256 ->
  decodeFlags (lockBtree_limits usable) k0 flagByte = (SQLITE_OK, k) -> kind_ok usable k /\ flagByte ∈ [2; 5; 10; 13].
Proof.
  intros Hu Hf H. pose proof (flags_accepted flagByte Hf) as Ha.
  assert (0 <= (usable - 12) * 32 / 255 - 23 <= (usable - 12) * 64 / 255 - 23 /\ (usable - 12) * 64 / 255 - 23 <= usable - 35) as Hm
    by (Z.to_euclidean_division_equations; lia).
  assert (flagByte ∈ [2; 5; 10; 13]) as Hin.
  { eapply bool_decide_eq_true_1. rewrite <- Ha. unfold decodeFlags in H. destruct (_ =? _) in H |- *; [done|]. by destruct (_ =? _) in H |- *. }
  split; [|done]. rewrite !elem_of_cons in Hin.
  destruct Hin as [->|[->|[->|[->|[]%not_elem_of_nil]]]]; injection H as <-;
    (split; [done| |cbn; auto]); cbn; unfold u16; rewrite !Z.mod_small by lia; lia.
Qed.

(** * Parsing and sizes *)

Lemma overflow_size usable k n p i : kind_ok usable k -> 0 <= n < 2 ^ 32 -> p < i <= p + 22 -> maxLocal k < n ->
  let info := btreeParseCellAdjustSizeForOverflow usable k p (mk_info 0 i n 0 0) in
  let local := btreePayloadToLocal usable k n in
  nLocal info = local /\ nSize info = i - p + local + 4 /\ minLocal k <= local <= maxLocal k /\
  (local = minLocal k \/ (n - local) mod (usable - 4) = 0) /\
  u16 (u32 ((let m := u32 (minLocal k + u32 (n - minLocal k) mod u32 (usable - 4)) in if maxLocal k <? m then minLocal k else m) + (4 + u16 (i - p)))) = nSize info.
Proof.
  intros [Hu Hl _] Hn Hi Hlt. cbn. unfold btreePayloadToLocal. rewrite (proj2 (Z.leb_gt n _)) by lia.
  assert (u32 (n - minLocal k) = n - minLocal k) as -> by (apply u32_id; lia). rewrite (u32_id (usable - 4)) by lia.
  rewrite Z.rem_mod_nonneg by lia. pose proof (Z.mod_pos_bound (n - minLocal k) (usable - 4) ltac:(lia)) as Hm.
  set (s := (n - minLocal k) mod (usable - 4)) in *. rewrite (u32_id (minLocal k + s)) by lia.
  assert (i32 (minLocal k + s) = minLocal k + s) as ->.
  { unfold i32, swrap. rewrite Z.mod_small by lia. lia. }
  unfold u16, u32. destruct (Z.leb_spec (minLocal k + s) (maxLocal k)).
  - rewrite (proj2 (Z.ltb_ge (maxLocal k) _)) by lia. rewrite !(Z.mod_small (i - p)), !(Z.mod_small (minLocal k + s)), !(Z.mod_small (i + (minLocal k + s) - p)),
      !(Z.mod_small (i + (minLocal k + s) - p + 4)), !(Z.mod_small (minLocal k + s + (4 + (i - p)))) by lia.
    split; [done|]. split; [lia|]. split; [lia|]. split; [|lia]. right. unfold s.
    pose proof (Z.div_mod (n - minLocal k) (usable - 4) ltac:(lia)).
    replace (n - (minLocal k + (n - minLocal k) mod (usable - 4))) with ((n - minLocal k) / (usable - 4) * (usable - 4)) by lia.
    apply Z.mod_mul. lia.
  - rewrite (proj2 (Z.ltb_lt (maxLocal k) _)) by lia. rewrite !(Z.mod_small (i - p)), !(Z.mod_small (minLocal k)), !(Z.mod_small (i + minLocal k - p)),
      !(Z.mod_small (i + minLocal k - p + 4)), !(Z.mod_small (minLocal k + (4 + (i - p)))) by lia.
    split; [done|]. split; [lia|]. split; [lia|]. split; [by left|lia].
Qed.

(** The outcome of the two functions on the part they share. *)
Lemma local_size usable k p i n key : kind_ok usable k -> 0 <= n < 2 ^ 32 -> p < i <= p + 22 ->
  nSize (local_info usable k p i n key) =
    u16 (if n <=? maxLocal k then (if u32 (n + u32 (i - p)) <? 4 then 4 else u32 (n + u32 (i - p)))
         else u32 ((let m := u32 (minLocal k + u32 (n - minLocal k) mod u32 (usable - 4)) in if maxLocal k <? m then minLocal k else m) + (4 + u16 (i - p)))).
Proof.
  intros Hk Hn Hi. unfold local_info. destruct (Z.leb_spec n (maxLocal k)) as [Hle|Hgt].
  - cbn. pose proof (kind_local _ _ Hk). pose proof (kind_usable _ _ Hk). unfold u16, u32.
    rewrite !(Z.mod_small (i - p)), !(Z.mod_small (n + (i - p))) by lia.
    destruct (Z.ltb_spec (n + (i - p)) 4); [done|]. by rewrite Z.mod_small by lia.
  - destruct (overflow_size usable k n p i Hk Hn Hi Hgt) as (_ & _ & _ & _ & E). symmetry. exact E.
Qed.

Lemma varint_ref_count n acc r v c : varint_ref n acc r = Some (v, c) -> 1 <= c <= Z.of_nat n + 1.
Proof.
  revert acc r v c. induction n as [|n IH]; intros acc r v c; (destruct r as [|b r]; [done|]); cbn [varint_ref].
  - intros [= <- <-]. lia.
  - destruct (b <? 128); [intros [= <- <-]; lia|]. destruct (varint_ref n _ r) as [[v' c']|] eqn:E; cbn; [|done].
    apply IH in E. intros [= <- <-]. lia.
Qed.

Lemma read_payload_throw d i s : read_payload d i <> Throw s.
Proof.
  unfold read_payload. unfold rd at 1. destruct (_ && _); cbn [mbind outcome_bind]; [|done]. destruct (0x80 <=? _); cbn [mbind outcome_bind]; [|done].
  assert (forall fuel i e v s, payload_loop fuel d i e v <> Throw s) as H.
  { clear. intros fuel. induction fuel as [|fuel IH]; intros i e v s; [done|]. rewrite payload_loop_S. unfold rd.
    destruct (_ && _); cbn; [|done]. destruct (_ && _); [apply IH|done]. }
  match goal with |- context [mbind _ ?o] => destruct o as [[? ?]|t|] eqn:E end; cbn [mbind outcome_bind]; try done. by apply H in E.
Qed.

Lemma cell_sizes_agree usable k d p : kind_ok usable k -> bytes_ok d -> 0 <= p ->
  page_xCellSize usable k d p = (info ← page_xParseCell usable k d p; Done (nSize info)).
Proof.
  intros Hk Hd Hp. pose proof (kind_methods _ _ Hk) as Hm. unfold page_xCellSize, page_xParseCell.
  destruct (xParseCell_fn k); destruct Hm as (-> & Hc & Hi).
  - unfold cellSizePtr, btreeParseCellPtr. rewrite Hc, Hi, Z.add_0_r.
    destruct (read_payload d p) as [[i n]|s|] eqn:E; cbn [mbind outcome_bind]; [|by apply read_payload_throw in E|done].
    destruct (read_payload_local _ _ _ _ Hd E) as (Hr & Hn & _). rewrite read_key_getVarint, getVarint_spec by (lia || by apply Forall_drop || done).
    replace (i + 9) with (i + Z.of_nat 8 + 1) by lia. rewrite (skip_loop_spec d Hd 8 i 0) by lia. unfold varint_spec.
    destruct (varint_ref 8 0 _) as [[v c]|] eqn:Ev; cbn [mbind outcome_bind]; [|done]. apply varint_ref_count in Ev.
    rewrite local_size by (done || lia). by destruct (n <=? maxLocal k).
  - unfold cellSizePtrNoPayload, btreeParseCellPtrNoPayload. rewrite getVarint_spec by (by apply Forall_drop).
    replace (p + 4 + 9) with (p + 4 + Z.of_nat 8 + 1) by lia. rewrite (skip_loop_spec d Hd 8 (p + 4) 0) by lia. unfold varint_spec.
    destruct (varint_ref 8 0 _) as [[v c]|] eqn:Ev; cbn [mbind outcome_bind nSize]; [|done]. do 2 f_equal. lia.
  - unfold cellSizePtr, btreeParseCellPtrIndex. rewrite Hi.
    destruct (read_payload d (p + kChildPtrSize k)) as [[i n]|s|] eqn:E; cbn [mbind outcome_bind]; [|by apply read_payload_throw in E|done].
    destruct (read_payload_local _ _ _ _ Hd E) as (Hr & Hn & _). rewrite local_size by (done || lia). by destruct (n <=? maxLocal k).
Qed.

(** * The size of a cell depends on its bytes alone *)

Lemma size_covers usable k p i n : kind_ok usable k -> 0 <= n < 2 ^ 32 -> p < i <= p + 22 -> i - p <= nSize (local_info usable k p i n 0).
Proof.
  intros Hk Hn Hi. pose proof (kind_local _ _ Hk). pose proof (kind_usable _ _ Hk). unfold local_info. destruct (Z.leb_spec n (maxLocal k)) as [Hle|Hgt].
  - cbn. unfold u16. rewrite !(Z.mod_small (i - p)), !(Z.mod_small (n + (i - p))) by lia. destruct (Z.ltb_spec (n + (i - p)) 4); lia.
  - destruct (overflow_size usable k n p i Hk Hn Hi Hgt) as (_ & -> & ? & _). lia.
Qed.

Definition page_format (usable : Z) (k : PageKind) : CellFormat := page_xCellSize usable k.

Lemma page_format_laws usable k : kind_ok usable k -> @CellFormatLaws (page_format usable k).
Proof.
  intros Hk d d' a a' n Hd Hd' Ha Hl Ha' Hl' H Hsame. unfold xCellSize, page_format in *. set (s := a' - a).
  assert (forall j, a <= j < a + n -> rd d' (j + s) = rd d j) as Hrd.
  { intros j Hj. unfold rd. rewrite !(proj2 (Z.leb_le _ _)), !(proj2 (Z.ltb_lt _ _)) by lia. cbn [andb].
    specialize (Hsame (j - a) ltac:(lia)). replace (a' + (j - a)) with (j + s) in Hsame by lia. rewrite Hsame. do 2 f_equal. lia. }
  replace a' with (a + s) by lia. unfold page_xCellSize in *. destruct (xCellSize_fn k).
  - unfold cellSizePtr in *. pose proof (kind_child _ _ Hk) as Hc. set (c := kChildPtrSize k) in *.
    destruct (read_payload d (a + c)) as [[i m]|?|] eqn:Ep; cbn [mbind outcome_bind] in H; try done.
    destruct (read_payload_local _ _ _ _ Hd Ep) as (Hr & Hm & Hlocal).
    assert (exists i2, (if intKey k then skip_loop 9 d i (i + 9) else Done i) = Done i2 /\ i <= i2 <= i + 9 /\
      forall d2 t, (forall j, i <= j < i2 -> rd d2 (j + t) = rd d j) -> (if intKey k then skip_loop 9 d2 (i + t) (i + t + 9) else Done (i + t)) = Done (i2 + t)) as (i2 & E2 & Hr2 & Hl2).
    { destruct (intKey k).
      - destruct (skip_loop 9 d i (i + 9)) as [i2|?|] eqn:Es; cbn [mbind outcome_bind] in H; try done.
        destruct (skip_loop_local _ _ _ _ _ Es) as [Hr2 Hl2]. exists i2. split; [done|]. split; [lia|]. intros d2 t Ht.
        replace (i + t + 9) with (i + 9 + t) by lia. by apply Hl2.
      - exists i. split; [done|]. split; [lia|done]. }
    rewrite E2 in H. cbn [mbind outcome_bind] in H.
    pose proof (size_covers usable k a i2 m Hk Hm ltac:(lia)) as Hcov. rewrite local_size in Hcov by (done || lia).
    assert (i2 <= a + n) as Hin by (destruct (m <=? maxLocal k); injection H as H; cbv zeta in *; lia).
    replace (a + s + c) with (a + c + s) by lia. rewrite (Hlocal d' s) by (intros j ?; apply Hrd; lia). cbn [mbind outcome_bind].
    rewrite Hl2 by (intros j ?; apply Hrd; lia). cbn [mbind outcome_bind]. by replace (i2 + s - (a + s)) with (i2 - a) by lia.
  - unfold cellSizePtrNoPayload in *. destruct (skip_loop 9 d (a + 4) (a + 4 + 9)) as [i2|?|] eqn:Es; cbn [mbind outcome_bind] in H; try done.
    destruct (skip_loop_local _ _ _ _ _ Es) as [Hr Hlocal]. injection H as H. unfold u16 in H. rewrite Z.mod_small in H by lia.
    replace (a + s + 4) with (a + 4 + s) by lia. replace (a + 4 + s + 9) with (a + 4 + 9 + s) by lia.
    rewrite (Hlocal d' s) by (intros j ?; apply Hrd; lia). cbn [mbind outcome_bind]. replace (i2 + s - (a + s)) with (i2 - a) by lia.
    unfold u16. by rewrite Z.mod_small, H by lia.
Qed.

(** * The theorems *)

(** C22. Parsing a cell and measuring it agree.  On a page of any kind [decodeFlags] accepts,
    for the bytes of any buffer, corrupt ones included: [xCellSize] returns the [nSize] of
    [xParseCell], and one reads outside the buffer exactly when the other does: the
    assertions of the debug build hold without their exception for corrupt databases. *)
Theorem cellSize_parse usable flags k0 k d pCell :
  480 <= usable <= 65536 -> 0 <= flags < 256 -> decodeFlags (lockBtree_limits usable) k0 flags = (SQLITE_OK, k) ->
  bytes_ok d -> 0 <= pCell ->
  page_xCellSize usable k d pCell = (info ← page_xParseCell usable k d pCell; Done (nSize info)).
Proof. intros Hu Hf Hk Hd Hp. destruct (decodeFlags_ok _ _ _ _ Hu Hf Hk) as [Hkind _]. by apply cell_sizes_agree. Qed.

(** ** Witnesses *)

Definition no_kind : PageKind := mk_kind 0 false false 0 0 0 0 cellSizePtr_fn btreeParseCellPtr_fn.
Definition sample_kind : PageKind := snd (decodeFlags (lockBtree_limits 512) no_kind 13).
Definition sample_format : CellFormat := page_format 512 sample_kind.

Lemma sample_laws : @CellFormatLaws sample_format.
Proof. apply page_format_laws. apply (decodeFlags_ok 512 no_kind sample_kind 13); done. Qed.

Lemma cellSize_parse_witness : page_xCellSize 512 sample_kind [0x83; 0x00; 0x05] 0 = Done 387 /\
  page_xCellSize 512 sample_kind [0x83; 0x00; 0x05] 0 =
    (info ← page_xParseCell 512 sample_kind [0x83; 0x00; 0x05] 0; Done (nSize info)).
Proof.
  split; [by vm_compute|]. apply (cellSize_parse 512 13 no_kind); try done. repeat constructor; done.
Defined.

Definition sample_cells : list (Z * Z) := [(16, 5); (25, 7)].

Lemma sample_listed : @listed sample_format sample_page sample_cells.
Proof.
  split; [done| |].
  - intros [|[|i]] a n [= <- <-]; done.
  - intros a n Hin. unfold sample_cells in Hin. rewrite !elem_of_cons in Hin.
    destruct Hin as [[= -> ->]|[[= -> ->]|[]%not_elem_of_nil]]; by vm_compute.
Qed.

Lemma sample_bytes : bytes_ok (aData sample_page).
Proof. repeat constructor; done. Qed.

Lemma defragmentPage_correct_witness :
  exists pg', @defragmentPage sample_format (aData sample_page) sample_page 0 = Done (SQLITE_OK, pg') /\ g2 (aData pg') 1 = 0 /\ g2 (aData pg') 5 = 20.
Proof.
  destruct (@defragmentPage_correct sample_format sample_laws (aData sample_page) 0 sample_page 16 ([Cell 5; Free 4] ++ [Cell 7]) sample_cells)
    as (pg' & E & _); [apply sample_page_ok|apply sample_listed|done|apply sample_bytes|done|].
  exists pg'. assert (E' := E). vm_compute in E'. injection E' as <-. by split.
Defined.

Lemma allocateSpace_correct_witness :
  exists pg', @allocateSpace sample_format (aData sample_page) sample_page 6 = Done (SQLITE_OK, Some 14, pg').
Proof.
  destruct (@allocateSpace_correct sample_format sample_laws (aData sample_page) 6 sample_page 16 ([Cell 5; Free 4] ++ [Cell 7]) sample_cells)
    as (a & pg' & E & _); [apply sample_page_ok|apply sample_listed|done|apply sample_bytes|done|done|done|].
  exists pg'. assert (E' := E). vm_compute in E'. injection E' as <- <-. exact E.
Defined.
