(* ===== verification/PageEdit.v ===== *)
(** * PageEdit: inserting and dropping cells (btree.c of src/src/db/sqlite3/core/sqlite3.c)

    [insertCell] and [dropCell], the operations of a b-tree page that the balancing of
    the tree is built on, and [zeroPage].  The specification is a list of byte strings,
    the cells of the page in key order: the operations insert into it and delete from it
    ([page_holds]). *)

From Stdlib Require Import Sorted.
From stdpp Require Import sorting.
From S2P Require Import Prelude CType Varint ByteMem PageHeap PageAlloc PageDefrag PageFast PageCell.

Definition put4byte (d : bytes) (p v : Z) : outcome bytes :=
  match blk_write d p (sqlite3Put4byte v) with Some d => Done d | None => UB end.

Definition with_nCell (pg : MemPage) (n : Z) : MemPage :=
  mk_page (aData pg) (hdrOffset pg) (childPtrSize pg) (cellOffset pg) n (nFree pg) (usableSize pg) (fast_secure pg).

(** A page with its overflow cells: [aiOvfl] and what [apOvfl] points to. *)
Record EditPage := mk_edit { ePage : MemPage; eOvfl : list (Z * bytes) }.

Section edit.
Context `{CellFormat}.

(** What the function calls: the scratch page of the pager, the result of
    [sqlite3PagerWrite] and, for an auto-vacuum database, of [ptrmapPutOvflPtr]. *)
Context (temp0 : bytes) (PagerWrite_rc : Z) (autoVacuum : bool) (ptrmapPutOvflPtr_rc : Z).

(** The part that places the cell on the page; [idx] is the space allocated. *)
Definition insert_at (pPage : MemPage) (i : Z) (pCell : bytes) (sz iChild idx : Z) : outcome MemPage :=
  let data := aData pPage in
  let hdr := hdrOffset pPage in
  data ← (if negb (iChild =? 0) then
            data ← memcpy data (idx + 4) pCell 4 (sz - 4);
            put4byte data idx iChild
          else memcpy data idx pCell 0 sz);
  let pIns := cellOffset pPage + i * 2 in
  data ← memmove data (pIns + 2) pIns (2 * (nCell pPage - i));
  data ← put2byte data pIns idx;
  b ← rd data (hdr + 4);
  data ← wr data (hdr + 4) (u8 (b + 1));
  data ← (if u8 (b + 1) =? 0 then b ← rd data (hdr + 3); wr data (hdr + 3) (u8 (b + 1)) else Done data);
  Done (with_nCell (with_data pPage data) (u16 (nCell pPage + 1))).

Definition insertCell (e : EditPage) (i : Z) (pCell : bytes) (sz : Z) (pTemp : option bytes) (iChild : Z) : outcome (Z * EditPage) :=
  let pPage := ePage e in
  if negb (len (eOvfl e) =? 0) || (nFree pPage <? sz + 2) then
    pCell ← match pTemp with Some t => memcpy t 0 pCell 0 sz | None => Done pCell end;
    pCell ← (if negb (iChild =? 0) then put4byte pCell 0 iChild else Done pCell);
    Done (SQLITE_OK, mk_edit pPage (eOvfl e ++ [(u16 i, pCell)]))
  else if negb (PagerWrite_rc =? SQLITE_OK) then Done (PagerWrite_rc, e)
  else
    '(rc, idx, pPage) ← allocateSpace temp0 pPage sz;
    if negb (rc =? SQLITE_OK) then Done (rc, mk_edit pPage (eOvfl e))
    else
      let pPage := with_nFree pPage (nFree pPage - u16 (2 + sz)) in
      pPage ← insert_at pPage i pCell sz iChild (default 0 idx);
      Done (if autoVacuum then ptrmapPutOvflPtr_rc else SQLITE_OK, mk_edit pPage (eOvfl e)).

(** The result is [*pRC]; [rc0] is its value before. *)
Definition dropCell (pPage : MemPage) (idx sz rc0 : Z) : outcome (Z * MemPage) :=
  if negb (rc0 =? SQLITE_OK) then Done (rc0, pPage)
  else
    let ptr := cellOffset pPage + 2 * idx in
    pc ← get2byte (aData pPage) ptr;
    let hdr := hdrOffset pPage in
    if usableSize pPage <? pc + sz then Done (SQLITE_CORRUPT, pPage)
    else
      '(rc, pPage) ← freeSpace pPage (u16 pc) (u16 sz);
      if negb (rc =? SQLITE_OK) then Done (rc, pPage)
      else
        let pPage := with_nCell pPage (u16 (nCell pPage - 1)) in
        if nCell pPage =? 0 then
          data ← memset (aData pPage) (hdr + 1) 0 4;
          data ← wr data (hdr + 7) 0;
          data ← put2byte data (hdr + 5) (usableSize pPage);
          Done (SQLITE_OK, with_nFree (with_data pPage data) (usableSize pPage - hdrOffset pPage - childPtrSize pPage - 8))
        else
          data ← memmove (aData pPage) ptr (ptr + 2) (2 * (nCell pPage - idx));
          data ← put2byte data (hdr + 3) (nCell pPage);
          Done (SQLITE_OK, with_nFree (with_data pPage data) (nFree pPage + 2)).
End edit.

(** * The page as a list of cells *)

(** The bytes [c] are at [a]. *)
Definition stored (d : bytes) (a : Z) (c : bytes) : Prop := forall j, 0 <= j < len c -> d.[a + j] = c.[j].

Definition cell_holds (d : bytes) (p : Z * Z) (c : bytes) : Prop := snd p = len c /\ stored d (fst p) c.

(** The page is sound and its cells are [cs], in the order of the pointers. *)
Definition page_holds `{CellFormat} (pg : MemPage) (cs : list bytes) : Prop :=
  exists top l ps, page_ok pg top l /\ listed pg ps /\ ps ≡ₚ cells top l /\
    g2 (aData pg) (hdrOffset pg + 3) = nCell pg /\ Forall2 (cell_holds (aData pg)) ps cs.

(** The cell that [insertCell] stores. *)
Definition cell_content (pCell : bytes) (sz iChild : Z) : bytes :=
  if iChild =? 0 then take (Z.to_nat sz) pCell else sqlite3Put4byte iChild ++ drop 4 (take (Z.to_nat sz) pCell).

(** ** Lemmas *)

Lemma cell_split l : forall a b n, (b, n) ∈ cells a l -> exists l1 l2, l = l1 ++ Cell n :: l2 /\ b = a + total l1.
Proof.
  induction l as [|s l IH]; intros a b n; cbn [cells]; [by intros ?%not_elem_of_nil|].
  assert ((b, n) ∈ cells (a + seg_size s) l -> exists l1 l2, s :: l = l1 ++ Cell n :: l2 /\ b = a + total l1) as Hgo.
  { intros Hin. destruct (IH _ _ _ Hin) as (l1 & l2 & -> & ->). exists (s :: l1), l2. cbn [app total]. split; [done|lia]. }
  destruct s as [m|m|m]; [|apply Hgo|apply Hgo]. intros [[= -> ->]|Hin]%elem_of_cons; [|by apply Hgo].
  exists [], l. cbn. split; [done|lia].
Qed.

(** Two cells do not overlap. *)
Lemma cells_sorted l : Forall seg_ok l -> forall a, StronglySorted (fun x y => fst x + snd x <= fst y) (cells a l).
Proof.
  induction 1 as [|s l Hs Hl IH]; intros a; cbn [cells]; [constructor|].
  destruct s as [n|n|n]; cbn [seg_size]; try apply IH. constructor; [apply IH|]. apply Forall_forall. intros [b m] Hin.
  apply (cells_in l Hl) in Hin. cbn. lia.
Qed.

Lemma cells_apart l a (ps : list (Z * Z)) b n c m : Forall seg_ok l -> cells a l ≡ₚ (b, n) :: ps -> (c, m) ∈ ps -> c + m <= b \/ b + n <= c.
Proof.
  intros Hl Hp Hin. destruct (Permutation_vs_cons_inv Hp) as (c1 & c2 & E). rewrite E in Hp.
  assert (ps ≡ₚ c1 ++ c2) as Hp' by (apply (Permutation_cons_inv (a := (b, n))); rewrite <- Hp; by rewrite Permutation_middle).
  pose proof (cells_sorted l Hl a) as Hs. rewrite E in Hs. rewrite Hp', elem_of_app in Hin. destruct Hin as [Hin|Hin].
  - left. apply (StronglySorted_app_1_elem_of _ _ _ (c, m) (b, n)) in Hs; [done|done|by left].
  - right. rewrite (cons_middle (b, n)), app_assoc in Hs. apply (StronglySorted_app_1_elem_of _ _ _ (b, n) (c, m)) in Hs; [done| |done].
    apply elem_of_app. right. by left.
Qed.

(** A page is sound whatever its cells, its pointers and its count hold. *)
Lemma page_ok_frame pg top l d' n' nFree' : page_ok pg top l -> bytes_ok d' -> length d' = length (aData pg) ->
  (forall j, 0 <= j -> hdrOffset pg + 1 <= j < hdrOffset pg + 3 \/ hdrOffset pg + 5 <= j < hdrOffset pg + 8 \/
     (exists a n, (a, n) ∈ blocks top l /\ a <= j < a + 4) -> d'.[j] = (aData pg).[j]) ->
  0 <= n' -> cellOffset pg + 2 * n' <= top -> nFree' - nFree pg = 2 * (nCell pg - n') ->
  page_ok (with_nFree (with_nCell (with_data pg d') n') nFree') top l.
Proof.
  intros Hpg B L F Hn Hgap HnF. destruct (page_nums pg top l (aData pg) Hpg) as (Hh & _).
  destruct Hpg as [Hb Hl Hu Hhdr Hg Ht Htot Hs Hf Hfar Hfrag Hc HnF0].
  split; cbn; try done; try lia.
  - unfold top_of, g2 in *. rewrite !F by lia. done.
  - etrans; [apply F; lia|done].
  - eapply free_chain_frame; [| |exact Hc]; [intros j Hj; apply F; lia|].
    intros a n j Hin Hj. pose proof (blocks_in l Hs _ _ _ Hin). apply F; [lia|]. right. right. by exists a, n.
Qed.

Lemma put4byte_ok d p v : bytes_ok d -> 0 <= p -> p + 4 <= len d ->
  exists d', put4byte d p v = Done d' /\ same_outside d d' p (p + 4) /\ stored d' p (sqlite3Put4byte v).
Proof.
  intros Hd Hp Hl. change (put4byte d p v) with (memcpy d p (sqlite3Put4byte v) 0 4).
  destruct (memcpy_ok d p (sqlite3Put4byte v) 0 4 Hd) as (d' & E & S & C); try done; try lia.
  { repeat constructor; apply u8_range. }
  exists d'. split; [done|]. split; [done|]. intros j Hj. rewrite C by done. done.
Qed.

Lemma cell_content_length pCell sz iChild : 4 <= sz <= len pCell -> len (cell_content pCell sz iChild) = sz.
Proof.
  intros Hs. unfold cell_content. destruct (iChild =? 0); [rewrite length_take; lia|].
  rewrite length_app, length_drop, length_take. change (length (sqlite3Put4byte iChild)) with 4%nat. lia.
Qed.

(** The bytes of the cell. *)
Lemma cell_write d idx pCell sz iChild : bytes_ok d -> bytes_ok pCell -> 4 <= sz <= len pCell -> 0 <= idx -> idx + sz <= len d ->
  exists d', (if negb (iChild =? 0) then d ← memcpy d (idx + 4) pCell 4 (sz - 4); put4byte d idx iChild else memcpy d idx pCell 0 sz) = Done d' /\
    same_outside d d' idx (idx + sz) /\ stored d' idx (cell_content pCell sz iChild).
Proof.
  intros Hd Hc Hs Hi Hl. unfold stored. rewrite cell_content_length by done. unfold cell_content. destruct (iChild =? 0); cbn [negb].
  - destruct (memcpy_ok d idx pCell 0 sz Hd Hc) as (d' & -> & S & C); try lia. exists d'. split; [done|]. split; [done|].
    intros j Hj. rewrite C, ld_take by lia. done.
  - destruct (memcpy_ok d (idx + 4) pCell 4 (sz - 4) Hd Hc) as (d1 & -> & (L1 & B1 & F1) & C1); try lia. cbn [mbind outcome_bind].
    destruct (put4byte_ok d1 idx iChild B1) as (d2 & -> & (L2 & B2 & F2) & C2); try lia. exists d2. split; [done|].
    split; [split; [congruence|split; [done|]]; intros j ? ?; rewrite F2, F1 by lia; done|].
    intros j Hj. rewrite ld_app by lia. change (len (sqlite3Put4byte iChild)) with 4. destruct (Z.ltb_spec j 4).
    + apply C2. cbn [length sqlite3Put4byte]. lia.
    + rewrite F2 by lia. change 4%nat with (Z.to_nat 4). rewrite ld_drop, ld_take by lia. specialize (C1 (j - 4) ltac:(lia)).
      replace (idx + 4 + (j - 4)) with (idx + j) in C1 by lia. exact C1.
Qed.

(** The pointers behind the [i]-th move up by one place. *)
Lemma pointer_insert d off n i idx : bytes_ok d -> 0 <= off -> 0 <= i <= n -> off + 2 * n + 2 <= len d -> 0 <= idx < 65536 ->
  exists d', (d ← memmove d (off + i * 2 + 2) (off + i * 2) (2 * (n - i)); put2byte d (off + i * 2) idx) = Done d' /\
    same_outside d d' (off + 2 * i) (off + 2 * n + 2) /\ g2 d' (off + 2 * i) = idx /\
    forall k, i <= k < n -> g2 d' (off + 2 * (k + 1)) = g2 d (off + 2 * k).
Proof.
  intros Hd Hoff Hi Hl Hidx.
  destruct (memcpy_ok d (off + i * 2 + 2) d (off + i * 2) (2 * (n - i)) Hd Hd) as (d1 & E1 & (L1 & B1 & F1) & C1); try lia.
  unfold memmove. rewrite E1. cbn [mbind outcome_bind].
  destruct (put2byte_ok d1 (off + i * 2) idx B1) as (d2 & -> & (L2 & B2 & F2) & G2); try lia. exists d2. split; [done|].
  split; [split; [congruence|split; [done|]]; intros j ? ?; rewrite F2, F1 by lia; done|].
  split; [replace (off + 2 * i) with (off + i * 2) by lia; rewrite G2; by apply Z.mod_small|].
  intros k Hk. unfold g2. rewrite !F2 by lia. pose proof (C1 (2 * (k - i)) ltac:(lia)) as E2. pose proof (C1 (2 * (k - i) + 1) ltac:(lia)) as E3.
  replace (off + i * 2 + 2 + 2 * (k - i)) with (off + 2 * (k + 1)) in E2 by lia.
  replace (off + i * 2 + 2 + (2 * (k - i) + 1)) with (off + 2 * (k + 1) + 1) in E3 by lia. rewrite E2, E3.
  replace (off + i * 2 + 2 * (k - i)) with (off + 2 * k) by lia. by replace (off + i * 2 + (2 * (k - i) + 1)) with (off + 2 * k + 1) by lia.
Qed.

(** The count in the header. *)
Lemma count_up d hdr n : bytes_ok d -> 0 <= hdr -> hdr + 8 <= len d -> g2 d (hdr + 3) = n -> n + 1 < 65536 ->
  exists d', (b ← rd d (hdr + 4); d ← wr d (hdr + 4) (u8 (b + 1));
              if u8 (b + 1) =? 0 then b ← rd d (hdr + 3); wr d (hdr + 3) (u8 (b + 1)) else Done d) = Done d' /\
    same_outside d d' (hdr + 3) (hdr + 5) /\ g2 d' (hdr + 3) = n + 1.
Proof.
  intros Hd Hh Hl Hn Hlt. rewrite rd_ok by lia. cbn [mbind outcome_bind].
  pose proof (ld_ok d (hdr + 4) Hd) as H4. pose proof (ld_ok d (hdr + 3) Hd) as H3.
  destruct (wr_ok d (hdr + 4) (u8 (d.[hdr + 4] + 1)) Hd) as (d1 & -> & (L1 & B1 & F1) & G1); [apply u8_range|lia|]. cbn [mbind outcome_bind].
  unfold g2 in Hn. replace (hdr + 3 + 1) with (hdr + 4) in Hn by lia. unfold u8 in *.
  destruct (Z.eqb_spec ((d.[hdr + 4] + 1) mod 2 ^ 8) 0) as [E|E].
  - rewrite rd_ok by lia. cbn [mbind outcome_bind].
    assert (d.[hdr + 4] = 255) as E4 by (Z.to_euclidean_division_equations; lia).
    destruct (wr_ok d1 (hdr + 3) ((d1.[hdr + 3] + 1) mod 2 ^ 8) B1) as (d2 & -> & (L2 & B2 & F2) & G2); [apply (u8_range (d1.[hdr + 3] + 1))|lia|].
    exists d2. split; [done|]. split; [split; [congruence|split; [done|]]; intros j ? ?; rewrite F2, F1 by lia; done|].
    unfold g2. replace (hdr + 3 + 1) with (hdr + 4) by lia. rewrite (F2 (hdr + 4)) by lia. rewrite G1, G2, F1, E by lia.
    rewrite Z.mod_small by lia. lia.
  - exists d1. split; [done|]. split; [split; [done|split; [done|]]; intros j ? ?; apply F1; lia|].
    unfold g2. replace (hdr + 3 + 1) with (hdr + 4) by lia. rewrite F1, G1 by lia.
    destruct (Z.eq_dec d.[hdr + 4] 255) as [E5|E5]; [rewrite E5 in E; done|]. rewrite Z.mod_small by lia. lia.
Qed.

(** ** insertCell *)

(** What [insert_at] does to the data [d]. *)
Record inserted (pg : MemPage) (i idx : Z) (c d' : bytes) : Prop := {
  ins_data : bytes_ok d' /\ length d' = length (aData pg);
  ins_cell : stored d' idx c;
  ins_count : g2 d' (hdrOffset pg + 3) = nCell pg + 1;
  ins_pointer : g2 d' (cellOffset pg + 2 * i) = idx;
  ins_before : forall k, 0 <= k < i -> g2 d' (cellOffset pg + 2 * k) = g2 (aData pg) (cellOffset pg + 2 * k);
  ins_after : forall k, i <= k < nCell pg -> g2 d' (cellOffset pg + 2 * (k + 1)) = g2 (aData pg) (cellOffset pg + 2 * k);
  ins_frame : forall j, 0 <= j -> ~ (hdrOffset pg + 3 <= j < hdrOffset pg + 5) -> ~ (cellOffset pg <= j < cellOffset pg + 2 * nCell pg + 2) ->
    ~ (idx <= j < idx + len c) -> d'.[j] = (aData pg).[j]
}.

Lemma insert_at_ok pg i pCell sz iChild idx top :
  bytes_ok (aData pg) -> bytes_ok pCell -> 0 <= hdrOffset pg -> hdrOffset pg + 8 <= cellOffset pg -> 0 <= i <= nCell pg ->
  cellOffset pg + 2 * nCell pg + 2 <= top -> top <= idx -> idx + sz <= usableSize pg -> usableSize pg <= len (aData pg) -> usableSize pg <= 65536 ->
  4 <= sz <= len pCell -> g2 (aData pg) (hdrOffset pg + 3) = nCell pg ->
  exists d', insert_at pg i pCell sz iChild idx = Done (with_nCell (with_data pg d') (nCell pg + 1)) /\
    inserted pg i idx (cell_content pCell sz iChild) d'.
Proof.
  intros Hd Hc Hh Ho Hi Hg Htop Hend Hl Hu Hs Hcount. unfold insert_at.
  destruct (cell_write (aData pg) idx pCell sz iChild Hd Hc Hs) as (d1 & -> & (L1 & B1 & F1) & C1); try lia. cbn [mbind outcome_bind].
  destruct (pointer_insert d1 (cellOffset pg) (nCell pg) i idx B1) as (d2 & E2 & (L2 & B2 & F2) & G2 & A2); try lia.
  destruct (count_up d2 (hdrOffset pg) (nCell pg) B2) as (d3 & E3 & (L3 & B3 & F3) & G3); try lia.
  { rewrite <- Hcount. unfold g2. rewrite !F2, !F1 by lia. done. }
  destruct (memmove d1 _ _ _) as [m| |] eqn:Em; cbn [mbind outcome_bind] in E2; try done. cbn [mbind outcome_bind]. rewrite E2. cbn [mbind outcome_bind].
  destruct (rd d2 (hdrOffset pg + 4)) as [b| |] eqn:Eb; cbn [mbind outcome_bind] in E3; try done. cbn [mbind outcome_bind].
  destruct (wr d2 _ _) as [d2'| |] eqn:Ew; cbn [mbind outcome_bind] in E3; try done. cbn [mbind outcome_bind]. rewrite E3. cbn [mbind outcome_bind].
  unfold u16. rewrite Z.mod_small by lia. exists d3. split; [done|].
  split; try (rewrite ?cell_content_length by done).
  - split; [done|congruence].
  - intros j Hj. rewrite cell_content_length in Hj by done. rewrite F3, F2 by lia. apply C1. by rewrite cell_content_length.
  - exact G3.
  - rewrite <- G2. unfold g2. rewrite !F3 by lia. done.
  - intros k Hk. unfold g2. rewrite !F3, !F2, !F1 by lia. done.
  - intros k Hk. specialize (A2 k Hk). unfold g2 in *. rewrite !F3 by lia. rewrite A2, !F1 by lia. done.
  - intros j Hj H1 H2 H3. rewrite F3, F2, F1 by lia. done.
Qed.

Section ops.
Context {CF : CellFormat} {CL : CellFormatLaws}.

Lemma cell_holds_moved d ps d' ps' cs : moved d ps d' ps' -> Forall2 (cell_holds d) ps cs -> Forall2 (cell_holds d') ps' cs.
Proof.
  unfold moved. intros Hm. revert cs. induction Hm as [|[a n] [a' n'] ps ps' [-> Hm] _ IH]; intros cs Hc.
  - by apply Forall2_nil_inv_l in Hc as ->.
  - apply Forall2_cons_inv_l in Hc as (c & cs' & [Hn Hs] & Hc & ->). constructor; [|by apply IH]. cbn in *. split; [done|].
    intros j Hj. cbn. rewrite Hm by lia. by apply Hs.
Qed.

Lemma cell_holds_frame d d' ps cs : Forall2 (cell_holds d) ps cs ->
  (forall a n, (a, n) ∈ ps -> forall j, a <= j < a + n -> d'.[j] = d.[j]) -> Forall2 (cell_holds d') ps cs.
Proof.
  intros Hc F. apply (cell_holds_moved d ps d' ps); [|done]. apply Forall_Forall2_diag, Forall_forall. intros [a n] Hin.
  split; [done|]. intros j Hj. apply (F a n Hin). lia.
Qed.

Lemma page_holds_length pg cs : page_holds pg cs -> len cs = nCell pg.
Proof. intros (top & l & ps & _ & Hls & _ & _ & H). apply Forall2_length in H. pose proof (listed_length _ _ Hls). lia. Qed.

(** The pointers after the insertion. *)
Lemma inserted_listed pg pg1 i idx c d' (ps : list (Z * Z)) :
  inserted pg1 i idx c d' -> len ps = nCell pg1 -> 0 <= i <= nCell pg1 ->
  (forall k a n, ps !! k = Some (a, n) -> g2 (aData pg1) (cellOffset pg1 + 2 * Z.of_nat k) = a) ->
  aData pg = d' -> cellOffset pg = cellOffset pg1 -> nCell pg = nCell pg1 + 1 ->
  (forall a n, (a, n) ∈ (idx, len c) :: ps -> xCellSize d' a = Done n) ->
  listed pg (take (Z.to_nat i) ps ++ (idx, len c) :: drop (Z.to_nat i) ps).
Proof.
  intros [_ _ _ Hp Hb Ha _] Hlen Hi Hptr Ed Eo En Hsz. split.
  - rewrite length_app. cbn [length]. rewrite length_take, length_drop. lia.
  - intros k a n Hk. rewrite Ed, Eo. apply lookup_app_Some in Hk as [Hk|[Hge Hk]].
    + apply lookup_take_Some in Hk as [Hk Hlt]. rewrite Hb by lia. by eapply Hptr.
    + rewrite length_take in *. replace (Z.to_nat i `min` length ps)%nat with (Z.to_nat i) in * by lia.
      destruct (k - Z.to_nat i)%nat as [|k'] eqn:Ek.
      * injection Hk as <- <-. replace (Z.of_nat k) with i by lia. exact Hp.
      * change (drop (Z.to_nat i) ps !! k' = Some (a, n)) in Hk. rewrite lookup_drop in Hk. replace (Z.of_nat k) with (Z.of_nat (Z.to_nat i + k') + 1) by lia.
        apply lookup_lt_Some in Hk as Hlt. rewrite Ha by lia. by eapply Hptr.
  - intros a n Hin. rewrite Ed. apply Hsz. rewrite <- (take_drop (Z.to_nat i) ps). rewrite elem_of_app, elem_of_cons in Hin.
    rewrite elem_of_cons, elem_of_app. naive_solver.
Qed.
Lemma cell_content_bytes pCell sz iChild : bytes_ok pCell -> bytes_ok (cell_content pCell sz iChild).
Proof.
  intros Hc. unfold cell_content. destruct (iChild =? 0); [by apply Forall_take|]. apply Forall_app. split; [|by apply Forall_drop, Forall_take].
  repeat constructor; apply u8_range.
Qed.

Lemma insertCell_ok temp0 autoVacuum ptrmap_rc pg cs i pCell sz pTemp iChild :
  page_holds pg cs -> bytes_ok temp0 -> usableSize pg <= len temp0 -> bytes_ok pCell -> 4 <= sz <= len pCell -> 0 <= i <= len cs ->
  sz + 2 <= nFree pg -> xCellSize (cell_content pCell sz iChild) 0 = Done sz ->
  exists pg', insertCell temp0 SQLITE_OK autoVacuum ptrmap_rc (mk_edit pg []) i pCell sz pTemp iChild =
      Done (if autoVacuum then ptrmap_rc else SQLITE_OK, mk_edit pg' []) /\
    page_holds pg' (take (Z.to_nat i) cs ++ cell_content pCell sz iChild :: drop (Z.to_nat i) cs) /\
    nFree pg' = nFree pg - (sz + 2) /\ usableSize pg' = usableSize pg /\ cellOffset pg' = cellOffset pg.
Proof.
  intros Hholds Bt Lt Bc Hsz Hi Hfree Hsize. pose proof (page_holds_length _ _ Hholds) as Hlen.
  destruct Hholds as (top & l & ps & Hpg & Hls & Hperm & Hcount & Hcs).
  destruct (page_nums pg top l (aData pg) Hpg) as (Hh & Hnc & Ho & Hg & Ht0 & Hl & Hu & Hp & Hb).
  pose proof (cell_content_length pCell sz iChild Hsz) as Hclen. pose proof (cell_content_bytes pCell sz iChild Bc) as Hcb.
  set (c := cell_content pCell sz iChild) in *.
  unfold insertCell. cbn [ePage eOvfl length]. change (Z.of_nat 0 =? 0) with true. rewrite (proj2 (Z.ltb_ge _ _)) by lia. cbn [negb orb].
  change (SQLITE_OK =? SQLITE_OK) with true. cbn [negb].
  destruct (allocateSpace_ok temp0 sz ltac:(lia) pg top l ps Hpg Hls Hperm Bt Lt Hfree) as (a & pg1 & -> & d1 & top1 & l1 & ps1 & -> & Hpg1 & Hgap & Hcells & Hls1 & Hm1 & F1).
  cbn [mbind outcome_bind]. change (SQLITE_OK =? SQLITE_OK) with true. cbn [negb default].
  pose proof (ok_segs _ _ _ Hpg1) as Hs1. pose proof (ok_total _ _ _ Hpg1) as Ht1. cbn in Ht1.
  assert (forall b m, (b, m) ∈ (a, sz) :: ps1 -> top1 <= b /\ b + m <= usableSize pg /\ 4 <= m) as Hin.
  { intros b m Hbm. rewrite <- Hcells in Hbm. apply (cells_in l1 Hs1) in Hbm. lia. }
  pose proof (Hin a sz ltac:(by left)) as (Ha1 & Ha2 & _).
  assert (u16 (2 + sz) = 2 + sz) as Hu16.
  { pose proof (ok_nFree _ _ _ Hpg). pose proof (frags_bound l (ok_segs _ _ _ Hpg)). unfold u16. apply Z.mod_small. lia. }
  set (pgN := with_nFree (with_data pg d1) (nFree (with_data pg d1) - u16 (2 + sz))).
  pose proof (ok_bytes _ _ _ Hpg1) as B1. pose proof (ok_len _ _ _ Hpg1) as L1. cbn in B1, L1.
  destruct (insert_at_ok pgN i pCell sz iChild a top1) as (d2 & E2 & Hins); cbn; try done; try lia.
  { rewrite <- Hcount. unfold g2. rewrite !F1 by lia. done. }
  rewrite E2. cbn [mbind outcome_bind]. fold c in Hins. eexists. split; [done|]. pose proof Hins as [[B2 L2] Hst Hcnt _ _ _ F2]. cbn in L2, Hcnt, F2.
  assert (forall b m, (b, m) ∈ ps1 -> forall j, b <= j < b + m -> d2.[j] = d1.[j]) as Hsame.
  { intros b m Hbm j Hj. pose proof (cells_apart l1 top1 ps1 a sz b m Hs1 Hcells Hbm). specialize (Hin b m ltac:(by right)). apply F2; lia. }
  split; [|split; [cbn; lia|by split]].
  exists top1, l1, (take (Z.to_nat i) ps1 ++ (a, sz) :: drop (Z.to_nat i) ps1). split; [|split; [|split; [|split]]].
  - apply (page_ok_frame (with_nFree (with_data pg d1) (nFree pg - sz)) top1 l1 d2 (nCell pg + 1) (nFree pg - u16 (2 + sz)) Hpg1); cbn; try done; try lia.
    intros j Hj Hk. destruct Hk as [Hk|[Hk|(b & m & Hbm & Hk)]]; [apply F2; lia|apply F2; lia|].
    assert ((a, sz) ∈ cells top1 l1) as Hain by (rewrite Hcells; by left).
    pose proof (cells_blocks l1 Hs1 top1 a sz b m Hain Hbm). apply (blocks_in l1 Hs1) in Hbm. apply F2; lia.
  - rewrite <- Hclen. pose proof (listed_length _ _ Hls1) as Hlen1. cbn in Hlen1. eapply (inserted_listed _ pgN i a c d2 ps1 Hins); try done; try lia.
    + cbn. lia.
    + apply (listed_pointer _ _ Hls1).
    + intros b m Hbm. rewrite Hclen in Hbm. pose proof (Hin b m Hbm). rewrite elem_of_cons in Hbm. destruct Hbm as [[= -> ->]|Hbm].
      * apply (cell_local c d2 0 a sz); try done; try lia. intros j Hj. rewrite Z.add_0_l. apply Hst. lia.
      * apply (cell_local d1 d2 b b m); try done; try lia; [by apply (listed_size _ _ Hls1)|]. intros j Hj. apply (Hsame b m Hbm). lia.
  - rewrite Hcells, <- Permutation_middle, take_drop. done.
  - exact Hcnt.
  - pose proof (cell_holds_frame d1 d2 ps1 cs (cell_holds_moved _ _ _ _ _ Hm1 Hcs) Hsame) as H2.
    apply Forall2_app; [by apply Forall2_take|]. constructor; [|by apply Forall2_drop]. split; [cbn; lia|done].
Qed.
End ops.

(** ** dropCell *)

(** The pointers behind the [i]-th move down by one place. *)
Lemma pointer_delete d off n i : bytes_ok d -> 0 <= off -> 0 <= i < n -> off + 2 * n <= len d ->
  exists d', memmove d (off + 2 * i) (off + 2 * i + 2) (2 * (n - 1 - i)) = Done d' /\
    same_outside d d' (off + 2 * i) (off + 2 * n - 2) /\
    forall k, i <= k < n - 1 -> g2 d' (off + 2 * k) = g2 d (off + 2 * (k + 1)).
Proof.
  intros Hd Hoff Hi Hl.
  destruct (memcpy_ok d (off + 2 * i) d (off + 2 * i + 2) (2 * (n - 1 - i)) Hd Hd) as (d1 & E1 & (L1 & B1 & F1) & C1); try lia.
  exists d1. split; [exact E1|]. split; [split; [done|split; [done|]]; intros j ? ?; apply F1; lia|].
  intros k Hk. unfold g2. pose proof (C1 (2 * (k - i)) ltac:(lia)) as E2. pose proof (C1 (2 * (k - i) + 1) ltac:(lia)) as E3.
  replace (off + 2 * i + 2 * (k - i)) with (off + 2 * k) in E2 by lia. replace (off + 2 * i + (2 * (k - i) + 1)) with (off + 2 * k + 1) in E3 by lia.
  rewrite E2, E3. replace (off + 2 * i + 2 + 2 * (k - i)) with (off + 2 * (k + 1)) by lia.
  by replace (off + 2 * i + 2 + (2 * (k - i) + 1)) with (off + 2 * (k + 1) + 1) by lia.
Qed.

Section drop.
Context {CF : CellFormat} {CL : CellFormatLaws}.

(** The page after [freeSpace], before the count goes down. *)
Record freed (pg : MemPage) (ps : list (Z * Z)) (cs : list bytes) (idx : nat) (n : Z) (d1 : bytes) : Prop := {
  freed_page : exists top' l', page_ok (with_nFree (with_data pg d1) (nFree pg + n)) top' l' /\ cellOffset pg + 2 * nCell pg <= top' /\
    delete idx ps ≡ₚ cells top' l';
  freed_holds : Forall2 (cell_holds d1) (delete idx ps) (delete idx cs);
  freed_pointers : forall k a m, ps !! k = Some (a, m) -> g2 d1 (cellOffset pg + 2 * Z.of_nat k) = a;
  freed_sizes : forall a m, (a, m) ∈ delete idx ps -> xCellSize d1 a = Done m
}.

Lemma freeSpace_freed pg cs top l ps (idx : nat) a n : page_ok pg top l -> listed pg ps -> ps ≡ₚ cells top l ->
  Forall2 (cell_holds (aData pg)) ps cs -> ps !! idx = Some (a, n) ->
  exists d1, freeSpace pg a n = Done (SQLITE_OK, with_nFree (with_data pg d1) (nFree pg + n)) /\ freed pg ps cs idx n d1.
Proof.
  intros Hpg Hls Hperm Hcs Hidx. destruct (page_nums pg top l (aData pg) Hpg) as (Hh & Hnc & Ho & Hg & Ht0 & Hl & Hu & Hp & Hb).
  assert ((a, n) ∈ cells top l) as Hin by (rewrite <- Hperm; by eapply list_elem_of_lookup_2).
  destruct (cell_split l top a n Hin) as (l1 & l2 & -> & ->).
  destruct (freeSpace_ok pg top l1 n l2 Hpg) as (d1 & top' & l' & E & Hpg' & Htop & Hcells & F). exists d1. split; [done|].
  assert (delete idx ps ≡ₚ cells top' l') as Hperm'.
  { rewrite Hcells. apply (Permutation_cons_inv (a := (top + total l1, n))).
    rewrite <- (delete_Permutation ps idx _ Hidx), Hperm, cells_app. cbn [cells seg_size]. by rewrite Permutation_middle. }
  assert (forall b m, (b, m) ∈ delete idx ps -> top <= b /\ b + m <= usableSize pg /\ forall j, b <= j < b + m -> d1.[j] = (aData pg).[j]) as Hsame.
  { intros b m Hbm. rewrite Hperm', Hcells in Hbm.
    assert ((b, m) ∈ cells top (l1 ++ Cell n :: l2)) as Hbm'.
    { rewrite cells_app. cbn [cells seg_size]. rewrite elem_of_app, elem_of_cons in *. tauto. }
    apply (cells_in _ (ok_segs _ _ _ Hpg)) in Hbm'. split; [lia|]. split; [lia|]. intros j Hj. apply F; [lia|].
    unfold kept. right. right. right. right. exists b, m. done. }
  split.
  - exists top', l'. split; [done|]. split; [lia|done].
  - apply (cell_holds_frame (aData pg)); [by apply Forall2_delete|]. intros b m Hbm. by apply Hsame.
  - intros k b m Hk. rewrite <- (listed_pointer _ _ Hls k b m Hk). pose proof (listed_length _ _ Hls). apply lookup_lt_Some in Hk.
    unfold g2. rewrite !F; try done; try lia; unfold kept; lia.
  - intros b m Hbm. destruct (Hsame b m Hbm) as (H1 & H2 & H3).
    pose proof (ok_bytes _ _ _ Hpg') as B1. pose proof (ok_len _ _ _ Hpg') as L1. cbn in B1, L1.
    assert (xCellSize (aData pg) b = Done m) as Hs.
    { apply (listed_size _ _ Hls). by eapply list_elem_of_delete_inv. }
    apply (cell_local (aData pg) d1 b b m); try done; try lia. intros j Hj. apply H3. lia.
Qed.
(** The last cell is gone. *)
Lemma drop_last pg d1 n : bytes_ok d1 -> usableSize pg <= len d1 -> usableSize pg <= 65536 -> 0 <= hdrOffset pg -> 0 <= childPtrSize pg ->
  cellOffset pg = hdrOffset pg + 8 + childPtrSize pg -> cellOffset pg <= usableSize pg ->
  exists d2, (data ← memset d1 (hdrOffset pg + 1) 0 4; data ← wr data (hdrOffset pg + 7) 0; put2byte data (hdrOffset pg + 5) (usableSize pg)) = Done d2 /\
    page_ok (mk_page d2 (hdrOffset pg) (childPtrSize pg) (cellOffset pg) 0 (usableSize pg - hdrOffset pg - childPtrSize pg - 8) (usableSize pg) n)
      (usableSize pg) [] /\ g2 d2 (hdrOffset pg + 3) = 0.
Proof.
  intros B1 Hl Hu Hh Hch Ho Hg.
  destruct (memset_ok d1 (hdrOffset pg + 1) 0 4 B1) as (d2 & E2 & (L2 & B2 & F2)); [unfold is_byte; lia|lia|lia|lia|].
  pose proof (memset_fills d1 (hdrOffset pg + 1) 0 4 d2 ltac:(lia) ltac:(lia) ltac:(lia) E2) as C2. rewrite E2. cbn [mbind outcome_bind].
  destruct (wr_ok d2 (hdrOffset pg + 7) 0 B2) as (d3 & -> & (L3 & B3 & F3) & G3); [unfold is_byte; lia|lia|]. cbn [mbind outcome_bind].
  destruct (put2byte_ok d3 (hdrOffset pg + 5) (usableSize pg) B3) as (d4 & -> & (L4 & B4 & F4) & G4); [lia|lia|]. exists d4. split; [done|].
  assert (forall j, hdrOffset pg + 1 <= j < hdrOffset pg + 5 -> d4.[j] = 0) as Hz by (intros j Hj; rewrite F4, F3, C2 by lia; done).
  split.
  - split; cbn; try done; try lia.
    + unfold top_of. rewrite G4. destruct (Z.eqb_spec (usableSize pg mod 65536) 0); Z.to_euclidean_division_equations; lia.
    + etrans; [apply F4; lia|exact G3].
    + split; [|done]. unfold g2. rewrite !Hz by lia. done.
  - unfold g2. rewrite !Hz by lia. done.
Qed.

Lemma dropCell_ok pg cs (idx : nat) c : page_holds pg cs -> cs !! idx = Some c ->
  exists pg', dropCell pg (Z.of_nat idx) (len c) SQLITE_OK = Done (SQLITE_OK, pg') /\ page_holds pg' (delete idx cs) /\
    nFree pg' = nFree pg + len c + 2 /\ usableSize pg' = usableSize pg /\ cellOffset pg' = cellOffset pg.
Proof.
  intros (top & l & ps & Hpg & Hls & Hperm & Hcount & Hcs) Hc.
  destruct (page_nums pg top l (aData pg) Hpg) as (Hh & Hnc & Ho & Hg & Ht0 & Hl & Hu & Hp & Hb).
  destruct (Forall2_lookup_r _ _ _ _ _ Hcs Hc) as ([a n] & Hidx & Hn & Hst). cbn in Hn, Hst. subst n.
  pose proof (listed_length _ _ Hls) as Hlen. pose proof (lookup_lt_Some _ _ _ Hidx) as Hlt.
  destruct (ps_in pg top l ps (aData pg) Hpg Hperm a (len c)) as (Ha1 & Ha2 & Ha3); [by eapply list_elem_of_lookup_2|].
  unfold dropCell. change (SQLITE_OK =? SQLITE_OK) with true. cbn [negb]. rewrite get2byte_ok by (done || lia). cbn [mbind outcome_bind].
  rewrite (listed_pointer _ _ Hls idx a _ Hidx). rewrite (proj2 (Z.ltb_ge _ (a + len c))) by lia.
  assert (u16 a = a /\ u16 (len c) = len c) as [-> ->] by (unfold u16; rewrite !Z.mod_small by lia; done).
  destruct (freeSpace_freed pg cs top l ps idx a (len c) Hpg Hls Hperm Hcs Hidx) as (d1 & -> & [(top' & l' & Hpg1 & Htop' & Hperm1) Hcs1 Hptr1 Hsz1]).
  cbn [mbind outcome_bind]. change (SQLITE_OK =? SQLITE_OK) with true. cbn [negb].
  pose proof (ok_bytes _ _ _ Hpg1) as B1. pose proof (ok_len _ _ _ Hpg1) as L1. cbn in B1, L1.
  assert (u16 (nCell pg - 1) = nCell pg - 1) as Hu16 by (unfold u16; apply Z.mod_small; lia).
  cbn [nCell with_nCell with_nFree with_data hdrOffset aData usableSize childPtrSize cellOffset nFree]. rewrite Hu16.
  destruct (Z.eqb_spec (nCell pg - 1) 0) as [Hz|Hz].
  - destruct (drop_last pg d1 (fast_secure pg) B1) as (d2 & E2 & Hpg2 & Hz2); try lia; try apply (ok_hdr _ _ _ Hpg).
    destruct (memset d1 _ _ _) as [x| |]; cbn [mbind outcome_bind] in E2 |- *; try done.
    destruct (wr x _ _) as [y| |]; cbn [mbind outcome_bind] in E2 |- *; try done. rewrite E2. cbn [mbind outcome_bind].
    eexists. split; [done|]. cbn [usableSize nFree with_nFree with_data with_nCell hdrOffset childPtrSize aData cellOffset nCell fast_secure].
    assert (ps = [(a, len c)]) as Eps by (destruct ps as [|x1 [|x2 ps']]; cbn [length] in *; try lia; by apply list_lookup_singleton_Some in Hidx as [_ ->]).
    assert (cs = [c] /\ idx = 0%nat) as [-> ->].
    { rewrite Eps in Hcs. apply Forall2_cons_inv_l in Hcs as (c' & cs' & _ & Hcs & ->). apply Forall2_nil_inv_l in Hcs as ->.
      apply list_lookup_singleton_Some in Hc as [-> ->]. done. }
    split; [|split; [|by split]].
    + exists (usableSize pg), [], []. unfold with_nFree, with_data, with_nCell. cbn [usableSize nFree hdrOffset childPtrSize aData cellOffset nCell fast_secure].
      rewrite Hz. split; [exact Hpg2|]. split; [split; [done|done|by intros ? ? ?%not_elem_of_nil]|]. split; [done|]. split; [done|constructor].
    + pose proof (ok_nFree _ _ _ Hpg) as Hf. pose proof (ps_sum top l ps Hperm) as Hsum. rewrite Eps in Hsum. cbn in Hsum.
      pose proof (ok_hdr _ _ _ Hpg). lia.
  - destruct (pointer_delete d1 (cellOffset pg) (nCell pg) (Z.of_nat idx) B1) as (d2 & E2 & (L2 & B2 & F2) & A2); try lia.
    rewrite E2. cbn [mbind outcome_bind].
    destruct (put2byte_ok d2 (hdrOffset pg + 3) (nCell pg - 1) B2) as (d3 & -> & (L3 & B3 & F3) & G3); [lia|lia|]. cbn [mbind outcome_bind].
    eexists. split; [done|]. split; [|split; [cbn; lia|by split]].
    assert (forall b m, (b, m) ∈ delete idx ps -> top <= b /\ b + m <= usableSize pg) as Hin.
    { intros b m Hbm. apply list_elem_of_delete_inv in Hbm. apply (ps_in pg top l ps (aData pg) Hpg Hperm) in Hbm. lia. }
    exists top', l', (delete idx ps). split; [|split; [|split; [done|split]]].
    + apply (page_ok_frame (with_nFree (with_data pg d1) (nFree pg + len c)) top' l' d3 (nCell pg - 1) _ Hpg1); cbn; try done; try lia.
      intros j Hj Hk. destruct Hk as [Hk|[Hk|(b & m & Hbm & Hk)]].
      * rewrite F3, F2 by lia. done.
      * rewrite F3, F2 by lia. done.
      * apply (blocks_in l' (ok_segs _ _ _ Hpg1)) in Hbm. rewrite F3, F2 by lia. done.
    + split; cbn.
      * pose proof (length_delete ps idx (ex_intro _ _ Hidx)). lia.
      * intros k b m Hk. destruct (decide (k < idx)%nat) as [Hki|Hki].
        -- rewrite list_lookup_delete_lt in Hk by done. rewrite <- (Hptr1 k b m Hk). unfold g2. rewrite !F3, !F2 by lia. done.
        -- rewrite list_lookup_delete_ge in Hk by lia. rewrite <- (Hptr1 (S k) b m Hk). apply lookup_lt_Some in Hk.
           replace (Z.of_nat (S k)) with (Z.of_nat k + 1) by lia. rewrite <- (A2 (Z.of_nat k)) by lia. unfold g2. rewrite !F3 by lia. done.
      * intros b m Hbm. specialize (Hin b m Hbm) as Hb2. apply (cell_local d1 d3 b b m); try done; try lia; [by apply Hsz1|].
        intros j Hj. rewrite F3, F2 by lia. done.
    + cbn. rewrite G3. apply Z.mod_small. lia.
    + apply (cell_holds_frame d1); [done|]. intros b m Hbm j Hj. apply Hin in Hbm. etrans; [apply F3; lia|apply F2; lia].
Qed.
End drop.

(** * An edited page is a list of cells *)

(** [zeroPage] makes a page without cells. *)
Lemma zeroPage_ok `{CellFormat} pg flags isLeaf : bytes_ok (aData pg) -> 0 <= hdrOffset pg -> hdrOffset pg + 12 < usableSize pg ->
  usableSize pg <= len (aData pg) -> usableSize pg <= 65536 ->
  exists pg', zeroPage pg flags isLeaf = Done pg' /\ page_holds pg' [] /\ usableSize pg' = usableSize pg /\
    cellOffset pg' = hdrOffset pg + (if isLeaf then 8 else 12).
Proof.
  intros Hb Hh Hg Hl Hu. unfold zeroPage.
  assert (exists d0, (if fast_secure pg then memset (aData pg) (hdrOffset pg) 0 (usableSize pg - hdrOffset pg) else Done (aData pg)) = Done d0 /\
    bytes_ok d0 /\ length d0 = length (aData pg)) as (d0 & -> & B0 & L0).
  { destruct (fast_secure pg); [|by exists (aData pg)].
    destruct (memset_ok (aData pg) (hdrOffset pg) 0 (usableSize pg - hdrOffset pg) Hb) as (d0 & E & (L & B & _)); try lia; [unfold is_byte; lia|]. by exists d0. }
  cbn [mbind outcome_bind].
  destruct (wr_ok d0 (hdrOffset pg) (u8 flags) B0) as (d1 & -> & (L1 & B1 & F1) & _); [apply u8_range|lia|]. cbn [mbind outcome_bind].
  set (child := if isLeaf then 0 else 4). set (first := hdrOffset pg + (if isLeaf then 8 else 12)).
  assert (first = hdrOffset pg + 8 + child /\ 0 <= child /\ first < usableSize pg) as (Ef & Hc & Hf) by (unfold first, child; destruct isLeaf; lia).
  assert (u16 first = first /\ u16 (usableSize pg - first) = usableSize pg - first) as [-> ->] by (unfold u16; rewrite !Z.mod_small by lia; done).
  destruct (drop_last (mk_page (aData pg) (hdrOffset pg) child first 0 0 (usableSize pg) (fast_secure pg)) d1 (fast_secure pg) B1)
    as (d2 & E2 & Hpg2 & Hz); cbn [usableSize hdrOffset childPtrSize cellOffset] in *; try lia.
  destruct (memset d1 _ _ _) as [x| |]; cbn [mbind outcome_bind] in E2 |- *; try done.
  destruct (wr x _ _) as [y| |]; cbn [mbind outcome_bind] in E2 |- *; try done. rewrite E2. cbn [mbind outcome_bind].
  eexists. split; [done|]. cbn [usableSize cellOffset]. split; [|done].
  exists (usableSize pg), [], []. replace (usableSize pg - hdrOffset pg - child - 8) with (usableSize pg - first) in Hpg2 by lia.
  split; [exact Hpg2|]. split; [split; [done|done|by intros ? ? ?%not_elem_of_nil]|]. split; [done|]. split; [done|constructor].
Qed.

(** The bytes the cells and their pointers take. *)
Definition cells_space (cs : list bytes) : Z := foldr (fun c s => len c + 2 + s) 0 cs.

Lemma holds_nFree `{CellFormat} pg cs : page_holds pg cs -> nFree pg = usableSize pg - cellOffset pg - cells_space cs.
Proof.
  intros (top & l & ps & Hpg & Hls & Hperm & _ & Hcs). pose proof (ok_nFree _ _ _ Hpg). pose proof (ok_total _ _ _ Hpg).
  pose proof (ps_sum top l ps Hperm) as Hsum. pose proof (listed_length _ _ Hls) as Hlen.
  enough (cells_space cs = foldr (fun c s => snd c + s) 0 ps + 2 * len ps) by lia. clear -Hcs.
  unfold cells_space. induction Hcs as [|[a n] c ps cs [Hn _] _ IH]; [done|]. cbn [foldr snd length] in *. lia.
Qed.

(** Edits of a page, and what they mean on the list. *)
Inductive page_op := InsertOp (i : nat) (c : bytes) | DropOp (i : nat).

Section run.
Context {CF : CellFormat} {CL : CellFormatLaws}.
Context (temp0 : bytes).

Definition run_op (pg : MemPage) (op : page_op) : outcome (Z * EditPage) :=
  match op with
  | InsertOp i c => insertCell temp0 SQLITE_OK false SQLITE_OK (mk_edit pg []) (Z.of_nat i) c (len c) None 0
  | DropOp i =>
      pc ← get2byte (aData pg) (cellOffset pg + 2 * Z.of_nat i);
      sz ← xCellSize (aData pg) pc;
      '(rc, pg) ← dropCell pg (Z.of_nat i) sz SQLITE_OK;
      Done (rc, mk_edit pg [])
  end.

Fixpoint run_ops (pg : MemPage) (ops : list page_op) : outcome (Z * EditPage) :=
  match ops with
  | [] => Done (SQLITE_OK, mk_edit pg [])
  | op :: ops =>
      '(rc, e) ← run_op pg op;
      if negb (rc =? SQLITE_OK) || negb (len (eOvfl e) =? 0) then Done (rc, e) else run_ops (ePage e) ops
  end.

(** [room] is what the cells and pointers may take. *)
Definition list_op (room : Z) (cs : list bytes) (op : page_op) : option (list bytes) :=
  match op with
  | InsertOp i c => if bool_decide (i <= length cs)%nat && (cells_space cs + len c + 2 <=? room) then Some (take i cs ++ c :: drop i cs) else None
  | DropOp i => if bool_decide (i < length cs)%nat then Some (delete i cs) else None
  end.

Fixpoint list_ops (room : Z) (cs : list bytes) (ops : list page_op) : option (list bytes) :=
  match ops with [] => Some cs | op :: ops => cs ← list_op room cs op; list_ops room cs ops end.

(** A cell of the format. *)
Definition cell_ok (op : page_op) : Prop :=
  match op with InsertOp _ c => bytes_ok c /\ 4 <= len c /\ xCellSize c 0 = Done (len c) | DropOp _ => True end.

Lemma run_op_ok pg cs op cs' : page_holds pg cs -> bytes_ok temp0 -> usableSize pg <= len temp0 -> cell_ok op ->
  list_op (usableSize pg - cellOffset pg) cs op = Some cs' ->
  exists pg', run_op pg op = Done (SQLITE_OK, mk_edit pg' []) /\ page_holds pg' cs' /\ usableSize pg' = usableSize pg /\ cellOffset pg' = cellOffset pg.
Proof using CL.
  intros Hholds Bt Lt Hok Hop. pose proof (holds_nFree _ _ Hholds) as HnF. pose proof (page_holds_length _ _ Hholds) as Hlen.
  destruct op as [i c|i]; cbn [list_op] in Hop.
  - destruct Hok as (Bc & Hc4 & Hcs). case_bool_decide as Hi; [|done]. destruct (Z.leb_spec (cells_space cs + len c + 2) (usableSize pg - cellOffset pg)); [|done].
    cbn [andb] in Hop. injection Hop as <-.
    assert (cell_content c (len c) 0 = c) as Ec by (unfold cell_content; cbn; rewrite Nat2Z.id; by apply firstn_all).
    destruct (insertCell_ok temp0 false SQLITE_OK pg cs (Z.of_nat i) c (len c) None 0 Hholds Bt Lt Bc) as (pg' & E & Hh' & _ & Hu' & Ho');
      rewrite ?Ec; try done; try lia.
    exists pg'. rewrite Ec, Nat2Z.id in Hh'. done.
  - case_bool_decide as Hi; [|done]. injection Hop as <-. destruct (lookup_lt_is_Some_2 cs i Hi) as [c Hc].
    pose proof Hholds as (top & l & ps & Hpg & Hls & Hperm & _ & Hcs). destruct (Forall2_lookup_r _ _ _ _ _ Hcs Hc) as ([a n] & Hidx & Hn & _).
    cbn in Hn. subst n. destruct (page_nums pg top l (aData pg) Hpg) as (Hh & Hnc & Ho & Hg & Ht0 & Hl & Hu & Hp & Hb).
    cbn [run_op]. rewrite get2byte_ok by (done || lia). cbn [mbind outcome_bind]. rewrite (listed_pointer _ _ Hls i a _ Hidx).
    rewrite (listed_size _ _ Hls a (len c)) by (by eapply list_elem_of_lookup_2). cbn [mbind outcome_bind].
    destruct (dropCell_ok pg cs i c Hholds Hc) as (pg' & -> & Hh' & _ & Hu' & Ho'). cbn [mbind outcome_bind]. by exists pg'.
Qed.

Lemma run_ops_ok ops : forall pg cs cs', page_holds pg cs -> bytes_ok temp0 -> usableSize pg <= len temp0 -> Forall cell_ok ops ->
  list_ops (usableSize pg - cellOffset pg) cs ops = Some cs' ->
  exists pg', run_ops pg ops = Done (SQLITE_OK, mk_edit pg' []) /\ page_holds pg' cs' /\
    nFree pg' = usableSize pg - cellOffset pg - cells_space cs'.
Proof using CL.
  induction ops as [|op ops IH]; intros pg cs cs' Hh Bt Lt Hok Hops; cbn [list_ops run_ops] in *.
  - injection Hops as <-. exists pg. split; [done|]. split; [done|by apply holds_nFree].
  - apply Forall_cons in Hok as [Ho Hok]. destruct (list_op _ cs op) as [cs1|] eqn:E; cbn [mbind option_bind] in Hops; [|done].
    destruct (run_op_ok pg cs op cs1 Hh Bt Lt Ho E) as (pg1 & -> & Hh1 & Eu & Eo). cbn [mbind outcome_bind].
    change (negb (SQLITE_OK =? SQLITE_OK) || negb (len (eOvfl (mk_edit pg1 [])) =? 0)) with false. cbn [ePage].
    rewrite <- Eu, <- Eo. apply (IH pg1 cs1 cs'); try done; rewrite ?Eu, ?Eo; done.
Qed.
End run.

(** ** The theorems *)

Lemma take_ld (l l' : bytes) n : (n <= length l)%nat -> (n <= length l')%nat -> (forall j, 0 <= j < Z.of_nat n -> l.[j] = l'.[j]) ->
  take n l = take n l'.
Proof.
  intros H1 H2 H. apply (nth_ext _ _ 0 0); [rewrite !length_take; lia|]. intros j Hj. rewrite length_take in Hj.
  specialize (H (Z.of_nat j) ltac:(lia)). unfold ld in H. rewrite Nat2Z.id in H. rewrite !nth_lookup in *. by rewrite !lookup_take_lt by lia.
Qed.

(** The buffer of an overflow cell. *)
Lemma overflow_content c pCell sz iChild : 4 <= sz <= len pCell -> sz <= len c -> (forall j, 0 <= j < sz -> c.[j] = pCell.[j]) ->
  exists c', (if negb (iChild =? 0) then put4byte c 0 iChild else Done c) = Done c' /\ take (Z.to_nat sz) c' = cell_content pCell sz iChild.
Proof.
  intros Hs Hl Hc. assert (take (Z.to_nat sz) c = take (Z.to_nat sz) pCell) as E by (apply take_ld; [lia|lia|]; intros j Hj; apply Hc; lia).
  unfold cell_content. destruct (iChild =? 0); cbn [negb]; [by exists c|]. unfold put4byte.
  rewrite blk_write_Some by (change (length (sqlite3Put4byte iChild)) with 4%nat; lia). eexists. split; [done|].
  change (take (Z.to_nat 0) c) with (@nil Z). change (Z.to_nat 0 + length (sqlite3Put4byte iChild))%nat with 4%nat. cbn [app].
  replace (Z.to_nat sz) with (length (sqlite3Put4byte iChild) + (Z.to_nat sz - 4))%nat by (change (length (sqlite3Put4byte iChild)) with 4%nat; lia).
  rewrite take_app_add. f_equal. change (length (sqlite3Put4byte iChild) + (Z.to_nat sz - 4))%nat with (4 + (Z.to_nat sz - 4))%nat.
  rewrite take_drop_commute. replace (4 + (Z.to_nat sz - 4))%nat with (Z.to_nat sz) by lia. by rewrite E.
Qed.

(** C18. Editing a page is editing a list.  On a page of any size and kind that SQLite
    admits, made empty by [zeroPage], where the pager lets the page be written and the database
    has no auto-vacuum: every sequence of [insertCell] and [dropCell] whose
    cells fit (by the bytes of the cells and two for each pointer alone, however the
    deletions have scattered the free space) succeeds without an overflow cell, a
    corruption report or an access outside the page; in the end the page is sound and
    holds exactly the byte strings that the same insertions and deletions on a list give,
    in order, and [nFree] is what they leave. *)
Theorem page_edits_refine temp0 pg flags k0 k ops cs :
  bytes_ok (aData pg) -> 480 <= usableSize pg <= 65536 -> usableSize pg <= len (aData pg) -> 0 <= hdrOffset pg <= 100 ->
  bytes_ok temp0 -> usableSize pg <= len temp0 -> 0 <= flags < 256 ->
  decodeFlags (lockBtree_limits (usableSize pg)) k0 flags = (SQLITE_OK, k) ->
  Forall (@cell_ok (page_format (usableSize pg) k)) ops ->
  let first := hdrOffset pg + (if negb (leaf k =? 0) then 8 else 12) in
  list_ops (usableSize pg - first) [] ops = Some cs ->
  exists pg0 pg', zeroPage pg flags (negb (leaf k =? 0)) = Done pg0 /\
    @run_ops (page_format (usableSize pg) k) temp0 pg0 ops = Done (SQLITE_OK, mk_edit pg' []) /\
    @page_holds (page_format (usableSize pg) k) pg' cs /\ nFree pg' = usableSize pg - first - cells_space cs.
Proof.
  intros Hb Hu Hl Hh Bt Lt Hf Hk Hok first Hops. destruct (decodeFlags_ok _ _ _ _ Hu Hf Hk) as [Hkind _].
  pose proof (page_format_laws _ _ Hkind) as CL. set (CF := page_format (usableSize pg) k) in *.
  destruct (zeroPage_ok pg flags (negb (leaf k =? 0)) Hb) as (pg0 & E0 & H0 & Eu & Eo); try lia. fold first in Eo.
  destruct (run_ops_ok temp0 ops pg0 [] cs H0 Bt) as (pg' & E & Hh' & Hn); rewrite ?Eu, ?Eo; try done.
  exists pg0, pg'. split; [done|]. split; [done|]. split; [done|]. by rewrite Hn, Eu, Eo.
Qed.

(** [insertCell], every way through.  On a sound page with the cells [cs]: a cell that
    fits is stored, with its first four bytes replaced by [iChild] when that is not zero,
    as the [i]-th of the list; a cell that does not fit, or that follows one that did not,
    leaves the page as it is and becomes the last overflow cell; and when the page cannot
    be made writable the pager's error is returned and nothing changes. *)
Theorem insertCell_correct `{CF : CellFormat, CL : !CellFormatLaws} temp0 rcW autoVacuum ptrmap_rc pg cs ov i pCell sz pTemp iChild :
  page_holds pg cs -> bytes_ok temp0 -> usableSize pg <= len temp0 -> bytes_ok pCell -> 4 <= sz <= len pCell ->
  0 <= i <= len cs + len ov -> len cs + len ov < 65536 -> xCellSize (cell_content pCell sz iChild) 0 = Done sz ->
  match pTemp with Some t => bytes_ok t /\ sz <= len t | None => True end ->
  if negb (len ov =? 0) || (nFree pg <? sz + 2) then
    exists c, insertCell temp0 rcW autoVacuum ptrmap_rc (mk_edit pg ov) i pCell sz pTemp iChild = Done (SQLITE_OK, mk_edit pg (ov ++ [(i, c)])) /\
      take (Z.to_nat sz) c = cell_content pCell sz iChild
  else if rcW =? SQLITE_OK then
    exists pg', insertCell temp0 rcW autoVacuum ptrmap_rc (mk_edit pg ov) i pCell sz pTemp iChild =
        Done (if autoVacuum then ptrmap_rc else SQLITE_OK, mk_edit pg' ov) /\
      page_holds pg' (take (Z.to_nat i) cs ++ cell_content pCell sz iChild :: drop (Z.to_nat i) cs) /\ nFree pg' = nFree pg - (sz + 2)
  else insertCell temp0 rcW autoVacuum ptrmap_rc (mk_edit pg ov) i pCell sz pTemp iChild = Done (rcW, mk_edit pg ov).
Proof.
  intros Hh Bt Lt Bc Hsz Hi Hlt Hsize HT. destruct (negb (len ov =? 0) || (nFree pg <? sz + 2)) eqn:E1.
  - unfold insertCell. cbn [ePage eOvfl]. rewrite E1.
    assert (u16 i = i) as -> by (unfold u16; apply Z.mod_small; lia).
    assert (exists c, match pTemp with Some t => memcpy t 0 pCell 0 sz | None => Done pCell end = Done c /\ bytes_ok c /\ sz <= len c /\
      forall j, 0 <= j < sz -> c.[j] = pCell.[j]) as (c & -> & B & L & Hc).
    { destruct pTemp as [t|]; [|exists pCell; split; [done|]; split; [done|]; split; [lia|done]]. destruct HT as [Bt' Lt'].
      destruct (memcpy_ok t 0 pCell 0 sz Bt' Bc) as (c & -> & (L & B & _) & C); try lia. exists c. split; [done|]. split; [done|]. split; [lia|].
      intros j Hj. apply (C j Hj). }
    cbn [mbind outcome_bind].
    assert (exists c', (if negb (iChild =? 0) then put4byte c 0 iChild else Done c) = Done c' /\ take (Z.to_nat sz) c' = cell_content pCell sz iChild) as (c' & -> & Hc').
    { by apply overflow_content. }
    cbn [mbind outcome_bind]. by exists c'.
  - apply orb_false_iff in E1 as [E1 E2]. apply negb_false_iff, Z.eqb_eq in E1. apply Z.ltb_ge in E2.
    destruct ov as [|]; [|cbn in E1; lia]. cbn [length] in *. destruct (Z.eqb_spec rcW SQLITE_OK) as [->|Hne].
    + destruct (insertCell_ok temp0 autoVacuum ptrmap_rc pg cs i pCell sz pTemp iChild Hh Bt Lt Bc Hsz) as (pg' & E & H1 & H2 & _); try done; try lia.
      by exists pg'.
    + unfold insertCell. cbn [ePage eOvfl length]. rewrite (proj2 (Z.ltb_ge _ _)) by lia. cbn [negb orb Z.eqb].
      by rewrite (proj2 (Z.eqb_neq _ _) Hne).
Qed.

(** ** Witnesses *)

Lemma page_edits_refine_witness :
  let ops := [InsertOp 0 [3; 1; 97; 98; 99]; InsertOp 1 [5; 2; 1; 2; 3; 4; 5]; DropOp 0] in
  exists pg0 pg', zeroPage (mk_page (replicate 512 0) 0 0 0 0 0 512 false) 13 true = Done pg0 /\
    @run_ops sample_format (replicate 512 0) pg0 ops = Done (SQLITE_OK, mk_edit pg' []) /\
    @page_holds sample_format pg' [[5; 2; 1; 2; 3; 4; 5]] /\ nFree pg' = 495.
Proof.
  apply (page_edits_refine (replicate 512 0) (mk_page (replicate 512 0) 0 0 0 0 0 512 false) 13 no_kind sample_kind); try done.
  - by apply Forall_replicate.
  - by apply Forall_replicate.
  - repeat constructor; done.
Defined.

Lemma insertCell_correct_witness :
  exists pg', @insertCell sample_format (aData sample_page) SQLITE_OK false SQLITE_OK (mk_edit sample_page []) 1 [3; 9; 7; 7; 7] 5 None 0 =
    Done (SQLITE_OK, mk_edit pg' []) /\
    @page_holds sample_format pg' [[3; 1; 97; 98; 99]; [3; 9; 7; 7; 7]; [5; 2; 1; 2; 3; 4; 5]].
Proof.
  destruct (@insertCell_correct sample_format sample_laws (aData sample_page) SQLITE_OK false SQLITE_OK sample_page
    [[3; 1; 97; 98; 99]; [5; 2; 1; 2; 3; 4; 5]] [] 1 [3; 9; 7; 7; 7] 5 None 0) as (pg' & E & H & _); try done.
  - exists 16, ([Cell 5; Free 4] ++ [Cell 7]), sample_cells. split; [apply sample_page_ok|]. split; [apply sample_listed|]. split; [done|].
    split; [done|]. constructor; [|constructor; [|done]]; (split; [done|]); intros j Hj; cbn in Hj |- *.
    + assert (j = 0 \/ j = 1 \/ j = 2 \/ j = 3 \/ j = 4) as [->|[->|[->|[->| ->]]]] by lia; done.
    + assert (j = 0 \/ j = 1 \/ j = 2 \/ j = 3 \/ j = 4 \/ j = 5 \/ j = 6) as [->|[->|[->|[->|[->|[->| ->]]]]]] by lia; done.
  - apply sample_bytes.
  - repeat constructor; done.
  - exists pg'. by split.
Defined.
