(* ===== verification/LogSink.v ===== *)
(** * LogSink: log messages and their sinks (include/log/, src/logger/)

    [ConsoleSink::Log], and [FileSink] with [LogFile]: writing, and the rotation of the
    log files by renaming.  The directory of a file sink is a map from file names to
    contents; fmt and the Win32 console are outside: [format_line] makes the line of a
    message, the console is the list of what it is told.  [io] answers whether the next
    operation on a file succeeds (an exhausted list goes on answering true). *)

From Stdlib Require Import Sorted.
From stdpp Require Import sorting fin_maps.
From S2P Require Import Prelude.

(** ** Messages *)

Inductive LogLevel := Trace | TraceError | Debug | Info | Warn | Error | Fatal.
#[export] Instance LogLevel_eq : EqDecision LogLevel.
Proof. solve_decision. Defined.

(** [static_cast<int>(lvl)] *)
Definition level_int (l : LogLevel) : Z :=
  match l with Trace => 0 | TraceError => 1 | Debug => 2 | Info => 3 | Warn => 4 | Error => 5 | Fatal => 6 end.

Record Message := mk_message {
  _lvl : LogLevel;
  _time : Z;
  _thread : Z;
  _module : option bytes;    (* a null pointer is [None] *)
  _msg : bytes
}.

(** A log line: the time stamp, the thread, the name of the level, the module and the
    content, put together by fmt. *)
Class LineFormat := format_line : Message -> string -> bytes.

(** What the logger asks of a sink. *)
Class Sink (S : Type) := {
  sink_Init : S -> bool * S;
  sink_Log : LogLevel -> Message -> S -> bool * S;
  sink_Uninit : S -> S
}.

(** ** ConsoleSink *)

Inductive console_op := SetColor (attr : Z) | Print (s : string) | PrintMsg (msg : Message).

Record ConsoleSink := mk_console { color : bool; console : list console_op }.

Definition WORD_blue : Z := 1.
Definition WORD_green : Z := 2.
Definition WORD_red : Z := 4.
Definition WORD_yellow : Z := WORD_red .| WORD_green.
Definition WORD_magenta : Z := WORD_red .| WORD_blue.
Definition WORD_white : Z := WORD_red .| WORD_green .| WORD_blue.

(** The color and the name that the [switch] gives a level. *)
Definition console_level (l : LogLevel) : Z * string :=
  match l with
  | Debug => (WORD_green, "DEBUG")
  | Info => (WORD_blue, "INFO")
  | Warn => (WORD_yellow, "WARN")
  | Error => (WORD_red, "ERROR")
  | Fatal => (WORD_red, "FATAL")
  | Trace => (WORD_magenta, "TRACE")
  | TraceError => (WORD_red, "TRACE ERROR")
  end%string.

(** [PrintMsg] stands for the prefix, the module and the content around the name. *)
Definition console_Log (lvl : LogLevel) (msg : Message) (s : ConsoleSink) : bool * ConsoleSink :=
  if level_int (_lvl msg) <? level_int lvl then (true, s)
  else
    let '(attr, name) := console_level (_lvl msg) in
    (true, mk_console (color s) (console s ++
      (if color s then [SetColor attr] else []) ++ [Print name] ++ (if color s then [SetColor WORD_white] else []) ++ [PrintMsg msg])).

#[export] Instance console_sink : Sink ConsoleSink := {
  sink_Init s := (true, s);
  sink_Log := console_Log;
  sink_Uninit s := s
}.

(** ** LogFile *)

(** [app.log] is [None], [app.n.log] is [Some n]. *)
Definition log_path (index : nat) : option nat := match index with O => None | _ => Some index end.

Record Disk := mk_disk { files : gmap (option nat) bytes; io : list bool }.

Definition io_next (d : Disk) : bool * Disk :=
  match io d with [] => (true, d) | b :: l => (b, mk_disk (files d) l) end.

Record LogFile := mk_logfile {
  is_open : bool;
  _cur_size : Z;
  _index : nat
}.

Definition logfile_new (index : nat) : LogFile := mk_logfile false 0 index.

(** [Open] returns true also when the file cannot be opened; [tellp] is then -1. *)
Definition Open (trunc : bool) (f : LogFile) (d : Disk) : bool * LogFile * Disk :=
  if is_open f then (true, f, d)
  else
    let '(ok, d) := io_next d in
    if ok then
      let content := if trunc then [] else default [] (files d !! log_path (_index f)) in
      (true, mk_logfile true (len content) (_index f), mk_disk (<[log_path (_index f) := content]> (files d)) (io d))
    else (true, mk_logfile false (u64 (-1)) (_index f), d).

Definition Close (f : LogFile) : LogFile := mk_logfile false (_cur_size f) (_index f).

Definition Write (data : bytes) (f : LogFile) (d : Disk) : LogFile * Disk :=
  if negb (is_open f) then (f, d)
  else
    (mk_logfile true (u64 (_cur_size f + len data)) (_index f),
     mk_disk (<[log_path (_index f) := default [] (files d !! log_path (_index f)) ++ data ++ [10]]> (files d)) (io d)).

(** [std::filesystem::rename] replaces a file that has the new name. *)
Definition rename (old_path new_path : option nat) (d : Disk) : bool * Disk :=
  let '(ok, d) := io_next d in
  match files d !! old_path with
  | Some content => if ok then (true, mk_disk (<[new_path := content]> (delete old_path (files d))) (io d)) else (false, d)
  | None => (false, d)
  end.

Definition RenameIndex (index : nat) (f : LogFile) (d : Disk) : bool * LogFile * Disk :=
  let '(ok, d) := rename (log_path (_index f)) (log_path index) d in
  if ok then (true, mk_logfile (is_open f) (_cur_size f) index, d) else (false, f, d).

(** ** FileSink *)

Record FileSink := mk_filesink {
  max_file_size : Z;
  max_file_count : Z;
  mode_truncate : bool;
  dir_exists : bool;          (* [std::filesystem::exists(log_dir)] *)
  dir_created : bool;         (* the result of [create_directories(log_dir)] *)
  _file : option LogFile;
  disk : Disk
}.

Definition with_file (s : FileSink) (f : option LogFile) (d : Disk) : FileSink :=
  mk_filesink (max_file_size s) (max_file_count s) (mode_truncate s) (dir_exists s) (dir_created s) f d.

Definition FileSink_Init (s : FileSink) : bool * FileSink :=
  if negb (dir_exists s) && dir_created s then (false, s)
  else
    let '(_, f, d) := Open (mode_truncate s) (logfile_new 0) (disk s) in
    (is_open f, with_file s (Some f) d).

Definition FileSink_Uninit (s : FileSink) : FileSink :=
  match _file s with
  | None => s
  | Some f => if negb (is_open f) then s else with_file s (Some (Close f)) (disk s)
  end.

(** A name [app.n.log] gives the entry [n] of the map. *)
Definition ListLogs (d : Disk) : gmap nat LogFile :=
  list_to_map (omap (fun x => match fst x with Some n => Some (n, logfile_new n) | None => None end) (map_to_list (files d))).

(** The keys of a [std::map], in order. *)
Definition sorted_keys (logs : gmap nat LogFile) : list nat := merge_sort Nat.le (fst <$> map_to_list logs).

(** The loop from the last log to the first: [index] counts down. *)
Fixpoint rename_loop (keys : list nat) (index : nat) (logs : gmap nat LogFile) (d : Disk) : bool * gmap nat LogFile * Disk :=
  match keys with
  | [] => (true, logs, d)
  | k :: keys =>
      match logs !! k with
      | None => (false, logs, d)
      | Some f =>
          let '(ok, f, d) := RenameIndex index f d in
          if ok then rename_loop keys (index - 1) (<[k := f]> logs) d else (false, logs, d)
      end
  end.

Definition RoutingLogs (s : FileSink) : bool * FileSink :=
  match _file s with
  | None => (false, s)
  | Some f =>
      let f := Close f in
      if max_file_count s =? 1 then let '(r, f, d) := Open true f (disk s) in (r, with_file s (Some f) d)
      else
        let logs := ListLogs (disk s) in
        let logs := match logs !! 0%nat with None => <[0%nat := f]> logs | Some _ => logs end in
        let '(ok, logs, d) := rename_loop (reverse (sorted_keys logs)) (size logs) logs (disk s) in
        if negb ok then (false, with_file s None d)
        else if Z.of_nat (size logs) <? max_file_count s then
          let '(_, f, d) := Open true (logfile_new 0) d in (is_open f, with_file s (Some f) d)
        else
          match last (sorted_keys logs) ≫= (logs !!.) with
          | None => (false, with_file s None d)
          | Some f =>
              let '(ok, f, d) := RenameIndex 0 f d in
              if negb ok then (false, with_file s (Some f) d)
              else let '(r, f, d) := Open true f d in (r, with_file s (Some f) d)
          end
  end.

(** The [switch] of [FileSink::Log]: [Fatal] and [Trace] have no [break]. *)
Definition file_level (l : LogLevel) : string :=
  match l with
  | Debug => "DEBUG" | Info => "INFO" | Warn => "WARN" | Error => "ERROR"
  | Fatal | Trace | TraceError => "TRACE ERROR"
  end.

Definition FileSink_Log `{LineFormat} (lvl : LogLevel) (msg : Message) (s : FileSink) : bool * FileSink :=
  match _file s with
  | None => (false, s)
  | Some f =>
      if negb (is_open f) then (false, s)
      else if level_int (_lvl msg) <? level_int lvl then (true, s)
      else
        let '(f, d) := Write (format_line msg (file_level (_lvl msg))) f (disk s) in
        if (max_file_size s =? 0) || (_cur_size f <? max_file_size s) then (true, with_file s (Some f) d)
        else RoutingLogs (with_file s (Some (Close f)) d)
  end.

#[export] Instance file_sink `{LineFormat} : Sink FileSink := {
  sink_Init := FileSink_Init;
  sink_Log := FileSink_Log;
  sink_Uninit := FileSink_Uninit
}.

(** * The files of a sink *)

(** The directory holds [app.log] with the content [cur], and [app.1.log], [app.2.log],
    ... with the contents [h], the newest first. *)
Definition dir_holds (d : Disk) (cur : bytes) (h : list bytes) : Prop :=
  files d !! None = Some cur /\ files d !! Some 0%nat = None /\ forall i, files d !! Some (S i) = h !! i.

Lemma ListLogs_lookup d n : ListLogs d !! n = match files d !! Some n with Some _ => Some (logfile_new n) | None => None end.
Proof.
  unfold ListLogs. destruct (files d !! Some n) as [c|] eqn:E.
  - apply elem_of_list_to_map_1'.
    + intros y Hy. apply list_elem_of_omap in Hy as ([[k|] c'] & _ & Hk); [|done]. by injection Hk as -> <-.
    + apply list_elem_of_omap. exists (Some n, c). split; [by apply elem_of_map_to_list|done].
  - apply not_elem_of_list_to_map_1. intros Hin. apply list_elem_of_fmap in Hin as ([k f] & -> & Hin).
    apply list_elem_of_omap in Hin as ([[k'|] c'] & Hin & Hk); [|done]. injection Hk as -> <-.
    apply elem_of_map_to_list in Hin. cbn in E. congruence.
Qed.

(** The keys of a map with the keys [0 .. n-1]. *)
Lemma sorted_keys_seq (logs : gmap nat LogFile) n : (forall k, is_Some (logs !! k) <-> (k < n)%nat) -> sorted_keys logs = seq 0 n.
Proof.
  intros Hk. unfold sorted_keys. apply (StronglySorted_unique Nat.le).
  - apply StronglySorted_merge_sort; apply _.
  - clear. assert (forall m, StronglySorted Nat.le (seq m n)) as H; [|apply H]. induction n as [|n IH]; intros m; cbn; constructor; [apply IH|].
    apply Forall_forall. intros x [? ?]%elem_of_seq. unfold Nat.le. lia.
  - rewrite merge_sort_Permutation. apply NoDup_Permutation; [apply NoDup_fst_map_to_list|apply NoDup_seq|].
    intros k. rewrite elem_of_seq, list_elem_of_fmap. split.
    + intros ([k' f] & -> & Hin%elem_of_map_to_list). cbn. assert (k' < n)%nat by (apply Hk; by exists f). lia.
    + intros Hin. destruct (proj2 (Hk k)) as [f Hf]; [lia|]. exists (k, f). split; [done|]. by apply elem_of_map_to_list.
Qed.

Lemma size_keys (logs : gmap nat LogFile) n : (forall k, is_Some (logs !! k) <-> (k < n)%nat) -> size logs = n.
Proof.
  intros Hk. apply sorted_keys_seq in Hk as E. apply (f_equal length) in E. unfold sorted_keys in E.
  rewrite (Permutation_length (merge_sort_Permutation _ _)), length_fmap, length_seq in E. by rewrite <- length_map_to_list.
Qed.

Lemma log_path_inj i j : log_path i = log_path j -> i = j.
Proof. destruct i, j; cbn; congruence. Qed.

(** The loop moves every log up by one. *)
Lemma rename_loop_ok m : forall logs d, io d = [] ->
  (forall k, (k < m)%nat -> exists f, logs !! k = Some f /\ _index f = k /\ is_open f = false) ->
  (forall k, (k < m)%nat -> is_Some (files d !! log_path k)) -> files d !! log_path m = None ->
  exists logs' d', rename_loop (reverse (seq 0 m)) m logs d = (true, logs', d') /\ io d' = [] /\
    (forall k, (k < m)%nat -> exists f, logs' !! k = Some f /\ _index f = S k /\ is_open f = false) /\
    (forall k, (m <= k)%nat -> logs' !! k = logs !! k) /\
    files d' !! log_path 0 = None /\ (forall k, (k < m)%nat -> files d' !! log_path (S k) = files d !! log_path k) /\
    (forall p, (forall k, (k <= m)%nat -> p <> log_path k) -> files d' !! p = files d !! p).
Proof.
  induction m as [|m IH]; intros logs d Hio Hlogs Hfiles Hfree.
  { exists logs, d. repeat split; try done; lia. }
  rewrite seq_S, reverse_snoc. cbn [rename_loop Nat.add].
  destruct (Hlogs m ltac:(lia)) as (f & Ef & Ei & Eo). destruct (Hfiles m ltac:(lia)) as [c Ec].
  rewrite Ef.
  unfold RenameIndex, rename, io_next. rewrite Hio, Ei, Ec.
  set (d1 := mk_disk (<[log_path (S m):=c]> (delete (log_path m) (files d))) (io d)).
  assert (forall p, p <> log_path m -> p <> log_path (S m) -> files d1 !! p = files d !! p) as F1.
  { intros p H1 H2. unfold d1. cbn [files]. by rewrite lookup_insert_ne, lookup_delete_ne by congruence. }
  assert (forall i j, (i < j)%nat -> log_path i <> log_path j) as Hne by (intros i j Hij E; apply log_path_inj in E; lia).
  destruct (IH (<[m:=mk_logfile (is_open f) (_cur_size f) (S m)]> logs) d1) as (logs' & d' & E & Hio' & Hl1 & Hl2 & H0 & Hs & Hp).
  - done.
  - intros k Hk. rewrite lookup_insert_ne by lia. apply Hlogs. lia.
  - intros k Hk. rewrite F1 by (apply Hne; lia). apply Hfiles. lia.
  - unfold d1. cbn [files]. rewrite lookup_insert_ne by (apply not_eq_sym, Hne; lia). apply lookup_delete_eq.
  - replace (S m - 1)%nat with m by lia. exists logs', d'. split; [exact E|]. split; [done|]. split; [|split; [|split; [done|split]]].
    + intros k Hk. destruct (decide (k = m)) as [->|]; [|apply Hl1; lia].
      rewrite Hl2 by lia. rewrite lookup_insert_eq. eexists. split; [done|]. by split.
    + intros k Hk. rewrite Hl2 by lia. apply lookup_insert_ne. lia.
    + intros k Hk. destruct (decide (k = m)) as [->|].
      * rewrite Hp by (intros j Hj; apply not_eq_sym, Hne; lia). unfold d1. cbn [files]. by rewrite lookup_insert_eq.
      * rewrite Hs by lia. apply F1; apply Hne; lia.
    + intros p Hk. rewrite Hp by (intros k ?; apply Hk; lia). apply F1; apply Hk; lia.
Qed.

(** ** Rotation *)

(** The sink has [app.log] open, with [cur] in it; older logs are [h]. *)
Definition sink_holds (s : FileSink) (cur : bytes) (h : list bytes) : Prop :=
  io (disk s) = [] /\ dir_holds (disk s) cur h /\ exists f, _file s = Some f /\ is_open f = true /\ _index f = 0%nat.

(** What a rotation makes of the closed logs. *)
Definition rotated (max_count : Z) (cur : bytes) (h : list bytes) : list bytes :=
  if max_count =? 1 then h
  else if Z.of_nat (S (length h)) <? max_count then cur :: h
  else take (length h) (cur :: h).

Lemma path_lookup d cur h k : dir_holds d cur h -> files d !! log_path k = (cur :: h) !! k.
Proof. intros (H0 & _ & Hh). destruct k as [|k]; [done|]. apply Hh. Qed.

Lemma RoutingLogs_ok s cur h f : io (disk s) = [] -> dir_holds (disk s) cur h -> _file s = Some f -> is_open f = false -> _index f = 0%nat ->
  exists s', RoutingLogs s = (true, s') /\ sink_holds s' [] (rotated (max_file_count s) cur h) /\
    (exists f', _file s' = Some f' /\ _cur_size f' = 0) /\ s' = with_file s (_file s') (disk s').
Proof.
  intros Hio Hdir Ef Eo Ei. unfold RoutingLogs. rewrite Ef. unfold rotated. set (n := S (length h)).
  assert (forall k, is_Some ((cur :: h) !! k) <-> (k < n)%nat) as Hn by (intros k; apply (lookup_lt_is_Some (cur :: h) k)).
  destruct (Z.eqb_spec (max_file_count s) 1) as [E1|E1].
  { unfold Open, Close, io_next. cbn [is_open]. rewrite Hio. cbn [_index files io]. rewrite Ei. eexists. split; [done|].
    destruct Hdir as (H0 & H1 & Hh). split; [|split; [by eexists|done]]. split; [done|]. split; [|by eexists].
    unfold dir_holds. cbn [disk with_file files log_path]. split; [apply lookup_insert_eq|]. rewrite lookup_insert_ne by done. split; [done|].
    intros i. by rewrite lookup_insert_ne. }
  assert (forall k, files (disk s) !! Some (S k) = h !! k) as Hh by apply Hdir.
  assert (files (disk s) !! Some 0%nat = None) as H0 by apply Hdir.
  rewrite (ListLogs_lookup (disk s) 0), H0. set (logs := <[0%nat := Close f]> (ListLogs (disk s))).
  assert (forall k, (k < n)%nat -> exists f', logs !! k = Some f' /\ _index f' = k /\ is_open f' = false) as Hlogs.
  { intros [|k] Hk; unfold logs; [rewrite lookup_insert_eq; by eexists|]. rewrite lookup_insert_ne, ListLogs_lookup, Hh by done.
    destruct (proj2 (Hn (S k)) Hk) as [c Hc]. change (h !! k = Some c) in Hc. rewrite Hc. by eexists. }
  assert (forall k, is_Some (logs !! k) <-> (k < n)%nat) as Hkeys.
  { intros k. split; [|intros Hk; destruct (Hlogs k Hk) as (f' & ? & _); by exists f']. destruct k as [|k]; [unfold n; lia|].
    unfold logs. rewrite lookup_insert_ne, ListLogs_lookup, Hh by done. intros Hs. apply (Hn (S k)). change (is_Some (h !! k)). destruct (h !! k); [by eexists|by destruct Hs]. }
  rewrite (sorted_keys_seq logs n Hkeys), (size_keys logs n Hkeys).
  destruct (rename_loop_ok n logs (disk s) Hio Hlogs) as (logs' & d' & E & Hio' & Hl1 & Hl2 & Hp0 & Hps & Hpo).
  { intros k Hk. rewrite (path_lookup _ _ _ _ Hdir). by apply Hn. }
  { rewrite (path_lookup _ _ _ _ Hdir). apply lookup_ge_None. done. }
  rewrite E. cbn [negb].
  assert (forall k, is_Some (logs' !! k) <-> (k < n)%nat) as Hkeys'.
  { intros k. destruct (decide (k < n)%nat) as [Hk|Hk]; [destruct (Hl1 k Hk) as (f' & -> & _); split; [done|by eexists]|].
    rewrite Hl2 by lia. apply Hkeys. }
  rewrite (sorted_keys_seq logs' n Hkeys'), (size_keys logs' n Hkeys').
  assert (forall k, files d' !! Some (S k) = (cur :: h) !! k) as Hd'.
  { intros k. destruct (decide (k < n)%nat) as [Hk|Hk]; [change (Some (S k)) with (log_path (S k)); rewrite Hps by done; by apply path_lookup|].
    rewrite Hpo by (intros [|j] ? [= ?]; lia). rewrite Hh. apply eq_trans with (@None bytes); [|symmetry]; apply lookup_ge_None; cbn; lia. }
  assert (files d' !! Some 0%nat = None) as Hz by (rewrite Hpo by (intros [|k] ?; done); done).
  destruct (Z.ltb_spec (Z.of_nat n) (max_file_count s)) as [Hlt|Hge].
  - unfold Open, logfile_new, io_next. cbn [is_open]. rewrite Hio'. cbn [_index files io]. eexists. split; [done|].
    split; [|split; [by eexists|done]]. split; [done|]. split; [|by eexists]. unfold dir_holds.
    cbn [disk with_file files log_path]. split; [apply lookup_insert_eq|]. rewrite lookup_insert_ne by done. split; [done|].
    intros i. by rewrite lookup_insert_ne.
  - assert (last (seq 0 n) = Some (length h)) as -> by (unfold n; rewrite seq_S, last_snoc; done). cbn [mbind option_bind].
    destruct (Hl1 (length h) ltac:(unfold n; lia)) as (fl & Efl & Eil & Eol). rewrite Efl.
    unfold RenameIndex, rename, io_next. rewrite Hio', Eil. change (log_path (S (length h))) with (Some (S (length h))). rewrite Hd'.
    destruct ((cur :: h) !! length h) as [c|] eqn:Ec; [|apply lookup_ge_None in Ec; cbn in Ec; lia].
    unfold Open. cbn [is_open negb]. rewrite Eol. unfold io_next. cbn [io files _index]. rewrite Hio'. eexists. split; [done|].
    split; [|split; [by eexists|done]]. split; [done|]. split; [|by eexists]. unfold dir_holds.
    cbn [disk with_file files log_path]. split; [apply lookup_insert_eq|]. split; [rewrite lookup_insert_ne, lookup_insert_ne, lookup_delete_ne by done; done|].
    intros i. rewrite !lookup_insert_ne by done. destruct (decide (i < length h)%nat) as [Hi|Hi].
    + rewrite lookup_delete_ne by (intros [= ?]; lia). rewrite Hd'. by rewrite lookup_take_lt.
    + rewrite (lookup_ge_None_2 (take _ _)) by (rewrite length_take; cbn; lia).
      destruct (decide (i = length h)) as [->|]; [apply lookup_delete_eq|]. rewrite lookup_delete_ne by congruence. rewrite Hd'.
      apply lookup_ge_None. cbn. lia.
Qed.

(** ** Logging to files *)

Section file_sink.
Context {LF : LineFormat}.

(** What a message adds to the log. *)
Definition file_line (msg : Message) : bytes := format_line msg (file_level (_lvl msg)) ++ [10].
Definition wanted (lvl : LogLevel) (msg : Message) : bool := level_int lvl <=? level_int (_lvl msg).
Definition lines_of (lvl : LogLevel) (msgs : list Message) : bytes := concat (map file_line (List.filter (wanted lvl) msgs)).

(** The text of the logs, the oldest first. *)
Definition log_text (cur : bytes) (h : list bytes) : bytes := concat (reverse h) ++ cur.

Fixpoint sink_logs {S} `{Sink S} (lvl : LogLevel) (msgs : list Message) (s : S) : bool * S :=
  match msgs with
  | [] => (true, s)
  | msg :: msgs => let '(r, s) := sink_Log lvl msg s in let '(r', s) := sink_logs lvl msgs s in (r && r', s)
  end.

Lemma rotated_text max_count cur h : (max_count = 1 -> h = []) ->
  exists dropped, log_text cur h = dropped ++ log_text [] (rotated max_count cur h) /\
    Z.of_nat (S (length (rotated max_count cur h))) <= Z.max max_count (Z.of_nat (S (length h))) /\
    (length h <= length (rotated max_count cur h))%nat /\
    (dropped <> [] -> max_count <= Z.of_nat (S (length (rotated max_count cur h)))).
Proof.
  intros H1. unfold rotated, log_text. destruct (Z.eqb_spec max_count 1) as [E|E].
  - rewrite (H1 E). exists cur. cbn. rewrite app_nil_r. split; [done|]. split; [lia|]. split; [done|]. lia.
  - destruct (Z.ltb_spec (Z.of_nat (S (length h))) max_count) as [Hlt|Hge].
    + exists []. rewrite reverse_cons, concat_app. cbn. rewrite !app_nil_r. split; [done|]. split; [lia|]. split; [lia|done].
    + destruct (exists_last (l := cur :: h)) as (l & x & El); [done|]. pose proof (f_equal length El) as Hl.
      rewrite length_app in Hl. cbn in Hl. assert (length h = length l) as Hlen by lia. exists x.
      rewrite El, Hlen, take_app_length. rewrite app_nil_r. split; [|lia].
      transitivity (concat (reverse (cur :: h))); [by rewrite reverse_cons, concat_app; cbn; rewrite app_nil_r|].
      by rewrite El, reverse_snoc.
Qed.

Lemma FileSink_Log_ok lvl msg s cur h : sink_holds s cur h -> (max_file_count s = 1 -> h = []) ->
  exists s' cur' h' dropped, FileSink_Log lvl msg s = (true, s') /\ sink_holds s' cur' h' /\ max_file_count s' = max_file_count s /\
    log_text cur h ++ lines_of lvl [msg] = dropped ++ log_text cur' h' /\
    Z.of_nat (S (length h')) <= Z.max (max_file_count s) (Z.of_nat (S (length h))) /\ (length h <= length h')%nat /\
    (dropped <> [] -> max_file_count s <= Z.of_nat (S (length h'))).
Proof.
  intros (Hio & Hdir & f & Ef & Eo & Ei) H1. unfold FileSink_Log, lines_of. rewrite Ef, Eo. cbn [negb List.filter map concat]. unfold wanted.
  destruct (Z.ltb_spec (level_int (_lvl msg)) (level_int lvl)) as [Hlt|Hge].
  { rewrite (proj2 (Z.leb_gt _ _)) by lia. exists s, cur, h, []. cbn. rewrite app_nil_r. split; [done|].
    split; [split; [done|split; [done|by exists f]]|]. repeat (split; [done || lia|]). done. }
  rewrite (proj2 (Z.leb_le _ _)) by lia. unfold Write. rewrite Eo, Ei. cbn [negb log_path].
  destruct Hdir as (H0 & Hz & Hh). rewrite H0. cbn [default map concat]. rewrite app_nil_r.
  set (line := format_line msg (file_level (_lvl msg))) in *.
  set (d1 := mk_disk (<[None := cur ++ line ++ [10]]> (files (disk s))) (io (disk s))).
  assert (dir_holds d1 (cur ++ file_line msg) h) as Hdir1.
  { unfold dir_holds, d1. cbn [files]. split; [apply lookup_insert_eq|]. rewrite lookup_insert_ne by done. split; [done|].
    intros i. by rewrite lookup_insert_ne. }
  destruct ((max_file_size s =? 0) || _).
  - eexists _, (cur ++ file_line msg), h, []. split; [done|]. split; [split; [done|split; [exact Hdir1|by eexists]]|].
    split; [done|]. unfold log_text. rewrite <- app_assoc. split; [done|]. split; [lia|]. split; [lia|done].
  - destruct (RoutingLogs_ok (with_file s (Some (Close (mk_logfile true (u64 (_cur_size f + len line)) 0))) d1) (cur ++ file_line msg) h
      (Close (mk_logfile true (u64 (_cur_size f + len line)) 0))) as (s' & E & Hs' & _ & Hw); try done.
    destruct (rotated_text (max_file_count s) (cur ++ file_line msg) h H1) as (dropped & Et & Hb & Hl & Hd).
    exists s', [], (rotated (max_file_count s) (cur ++ file_line msg) h), dropped. split; [exact E|]. split; [exact Hs'|].
    split; [rewrite Hw; done|]. split; [|done]. rewrite <- Et. unfold log_text. by rewrite <- app_assoc.
Qed.

Lemma lines_of_cons lvl msg msgs : lines_of lvl (msg :: msgs) = lines_of lvl [msg] ++ lines_of lvl msgs.
Proof. unfold lines_of. cbn [List.filter]. destruct (wanted lvl msg); cbn; by rewrite ?app_nil_r. Qed.

Lemma sink_logs_ok lvl msgs : forall s cur h, sink_holds s cur h -> (max_file_count s = 1 -> h = []) ->
  exists s' cur' h' dropped, sink_logs lvl msgs s = (true, s') /\ sink_holds s' cur' h' /\
    log_text cur h ++ lines_of lvl msgs = dropped ++ log_text cur' h' /\
    Z.of_nat (S (length h')) <= Z.max (max_file_count s) (Z.of_nat (S (length h))) /\ (length h <= length h')%nat /\
    (dropped <> [] -> max_file_count s <= Z.of_nat (S (length h'))).
Proof.
  induction msgs as [|msg msgs IH]; intros s cur h Hs H1; cbn [sink_logs].
  - exists s, cur, h, []. cbn. rewrite app_nil_r. repeat (split; [done || lia|]). done.
  - destruct (FileSink_Log_ok lvl msg s cur h Hs H1) as (s1 & cur1 & h1 & dr1 & E1 & Hs1 & Em & Et1 & Hb1 & Hl1 & Hd1).
    destruct (IH s1 cur1 h1 Hs1) as (s2 & cur2 & h2 & dr2 & E2 & Hs2 & Et2 & Hb2 & Hl2 & Hd2).
    { intros E. rewrite Em in E. specialize (H1 E). subst h. destruct h1; [done|]. cbn in *. lia. }
    change (sink_Log lvl msg s) with (FileSink_Log lvl msg s). rewrite E1, E2. exists s2, cur2, h2, (dr1 ++ dr2).
    split; [done|]. split; [done|]. rewrite Em in *.
    split; [by rewrite lines_of_cons, app_assoc, Et1, <- app_assoc, Et2, app_assoc|]. split; [lia|]. split; [lia|].
    intros Hne. destruct (decide (dr1 = [])) as [E|E]; [|specialize (Hd1 E); lia]. subst dr1. by apply Hd2.
Qed.
End file_sink.


(** ** Witness *)

Definition plain_format : LineFormat := fun msg _ => _msg msg.
Definition sample_sink : FileSink :=
  mk_filesink 4 2 false true false (Some (mk_logfile true 2 0))
    (mk_disk (<[None := [97; 10]]> (<[Some 1%nat := [98; 10]]> ∅)) []).
Definition sample_messages : list Message :=
  [mk_message Info 0 0 None [99; 99]; mk_message Debug 0 0 None [100]; mk_message Fatal 0 0 None [101]].

