(* ===== verification/Logger.v ===== *)
(** * Logger: the logger and its thread (include/log/log.h, src/logger/logger.cpp)

    [Logger] owns a blocking queue of messages, its sinks, and a thread that gives each
    message of the queue to every sink.  Any thread may log, and may call [Init] and
    [Uninit], which hold no lock: they are state machines with one step for each access to
    shared data, interleaved with each other and with the threads [Init] has made.  Where
    one of them changes the sinks while a thread, or another call, goes through them, or two
    threads do, the behaviour is undefined ([l_undef]), and an execution may end.  The queue is used through
    its interface [TaskQueue], the sinks through [Sink]. *)

From S2P Require Import Prelude SyncQueue LogSink.

(** Where a thread of the logger is. *)
Inductive logger_pc :=
| LLoop                   (* evaluates [token.stop_requested()] *)
| LPop                    (* in [_queue.Pop()] *)
| LHave (msg : Message)   (* has a message, goes through the sinks *)
| LExited
| LCrash.

(** A thread and its stop source. *)
Record lthread := mk_lthread { lt_pc : logger_pc; lt_stop : bool }.

(** A call of [Init] or [Uninit]: what it does next. *)
Inductive lcall (S : Type) :=
| LInit (lvl : LogLevel) (sinks : list S)    (* [if (sinks.empty())] *)
| LSinks (lvl : LogLevel) (sinks : list S)   (* [_sinks = ] *)
| LLevel (lvl : LogLevel)                    (* [_lvl = ] *)
| LInitSink (i : nat) (all_success : bool)   (* [sink->Init()] of the sink at [i] *)
| LCreate                                    (* makes the new thread *)
| LSwap (new : nat)                          (* [_thread = ] it, as in libstdc++: swap, *)
| LStopOld (old : nat)                       (* stop and join the old one *)
| LJoinOld (old : nat)
| LUninit                                    (* [_queue.Stop()] *)
| LRequest                                   (* [_thread.request_stop()] *)
| LJoin                                      (* [_thread.join()] *)
| LUninitSink (i : nat)                      (* [sink->Uninit()] of the sink at [i] *)
| LDone (r : outcome bool).                  (* has returned, or thrown *)
Arguments LInit {S}.
Arguments LSinks {S}.
Arguments LLevel {S}.
Arguments LInitSink {S}.
Arguments LCreate {S}.
Arguments LSwap {S}.
Arguments LStopOld {S}.
Arguments LJoinOld {S}.
Arguments LUninit {S}.
Arguments LRequest {S}.
Arguments LJoin {S}.
Arguments LUninitSink {S}.
Arguments LDone {S}.

Section logger.
Context {Q : Type -> Type} `{!TaskQueue Q} {S : Type} `{!Sink S}.

Record Logger := mk_logger {
  _queue : Q Message;
  _sinks : list S;
  l_lvl : LogLevel;
  l_thread : option nat;        (* the joinable thread in [_thread] *)
  l_threads : list lthread;     (* all threads made *)
  l_calls : list (lcall S);     (* all calls of [Init] and [Uninit] *)
  l_undef : bool;
  l_mixed : bool;               (* sinks, level or thread were replaced while a thread ran *)
  (* history *)
  l_posted : list Message;      (* messages given to [LogIt] *)
  l_handled : list Message;     (* messages the sinks have got *)
  l_gen : list Message;         (* of these, the ones since the last thread was made *)
  l_first : list S              (* the sinks as they were then *)
}.

Definition logger_new : Logger := mk_logger tq_empty [] Trace None [] [] false false [] [] [] [].

Definition with_queue (lg : Logger) (q : Q Message) (ts : list lthread) : Logger :=
  mk_logger q (_sinks lg) (l_lvl lg) (l_thread lg) ts (l_calls lg) (l_undef lg) (l_mixed lg)
    (l_posted lg) (l_handled lg) (l_gen lg) (l_first lg).
Definition with_thread (lg : Logger) (th : option nat) (ts : list lthread) : Logger :=
  mk_logger (_queue lg) (_sinks lg) (l_lvl lg) th ts (l_calls lg) (l_undef lg) (l_mixed lg)
    (l_posted lg) (l_handled lg) (l_gen lg) (l_first lg).
Definition with_calls (lg : Logger) (cs : list (lcall S)) (undef : bool) : Logger :=
  mk_logger (_queue lg) (_sinks lg) (l_lvl lg) (l_thread lg) (l_threads lg) cs undef (l_mixed lg)
    (l_posted lg) (l_handled lg) (l_gen lg) (l_first lg).

(** Some thread of the logger has not ended. *)
Definition exited (t : lthread) : bool := match lt_pc t with LExited => true | _ => false end.
Definition runs (lg : Logger) : bool := existsb (fun t => negb (exited t)) (l_threads lg).

Definition with_sinks (lg : Logger) (sinks : list S) (lvl : LogLevel) : Logger :=
  mk_logger (_queue lg) sinks lvl (l_thread lg) (l_threads lg) (l_calls lg) (l_undef lg) (l_mixed lg || runs lg)
    (l_posted lg) (l_handled lg) (l_gen lg) (l_first lg).

(** A new thread, at the top of its loop. *)
Definition new_thread (lg : Logger) : Logger :=
  mk_logger (_queue lg) (_sinks lg) (l_lvl lg) (l_thread lg) (l_threads lg ++ [mk_lthread LLoop false]) (l_calls lg)
    (l_undef lg) (l_mixed lg || runs lg) (l_posted lg) (l_handled lg) [] (_sinks lg).

Definition LogIt (msg : Message) (lg : Logger) : Logger :=
  mk_logger (tq_push msg (_queue lg)) (_sinks lg) (l_lvl lg) (l_thread lg) (l_threads lg) (l_calls lg)
    (l_undef lg) (l_mixed lg) (l_posted lg ++ [msg]) (l_handled lg) (l_gen lg) (l_first lg).

Definition request_stop (i : nat) (ts : list lthread) : list lthread :=
  match ts !! i with Some t => <[i := mk_lthread (lt_pc t) true]> ts | None => ts end.
Definition has_exited (i : nat) (ts : list lthread) : bool :=
  match ts !! i with Some t => exited t | None => false end.

(** ** Init and Uninit *)

(** One step of a call of [Init]; [None] where it waits.  Every sink is initialised, also
    behind one that fails. *)
Definition Init (lg : Logger) (c : lcall S) : option (Logger * lcall S) :=
  match c with
  | LInit lvl sinks => Some (lg, match sinks with [] => LDone (Done false) | _ => LSinks lvl sinks end)
  | LSinks lvl sinks => Some (with_sinks lg sinks (l_lvl lg), LLevel lvl)
  | LLevel lvl => Some (with_sinks lg (_sinks lg) lvl, LInitSink 0 true)
  | LInitSink i all_success =>
      match _sinks lg !! i with
      | Some s =>
          let '(ok, s) := sink_Init s in
          Some (with_sinks lg (<[i := s]> (_sinks lg)) (l_lvl lg), LInitSink (i + 1) (all_success && ok))
      | None => Some (lg, if all_success then LCreate else LDone (Done false))
      end
  | LCreate => Some (new_thread lg, LSwap (length (l_threads lg)))
  | LSwap new => Some (with_thread lg (Some new) (l_threads lg),
                       match l_thread lg with Some old => LStopOld old | None => LDone (Done true) end)
  | LStopOld old => Some (with_thread lg (l_thread lg) (request_stop old (l_threads lg)), LJoinOld old)
  | LJoinOld old => if has_exited old (l_threads lg) then Some (lg, LDone (Done true)) else None
  | _ => None
  end.

(** And of [Uninit]; [join] throws where there is no thread. *)
Definition Uninit (lg : Logger) (c : lcall S) : option (Logger * lcall S) :=
  match c with
  | LUninit => Some (with_queue lg (tq_stop (_queue lg)) (l_threads lg), LRequest)
  | LRequest =>
      Some (match l_thread lg with Some i => with_thread lg (l_thread lg) (request_stop i (l_threads lg)) | None => lg end, LJoin)
  | LJoin =>
      match l_thread lg with
      | Some i => if has_exited i (l_threads lg) then Some (with_thread lg None (l_threads lg), LUninitSink 0) else None
      | None => Some (lg, LDone (Throw "invalid_argument"))
      end
  | LUninitSink i =>
      match _sinks lg !! i with
      | Some s => Some (with_sinks lg (<[i := sink_Uninit s]> (_sinks lg)) (l_lvl lg), LUninitSink (i + 1))
      | None => Some (lg, LDone (Done true))
      end
  | _ => None
  end.

Definition lcall_step (lg : Logger) (c : lcall S) : option (Logger * lcall S) :=
  match c with
  | LUninit | LRequest | LJoin | LUninitSink _ => Uninit lg c
  | _ => Init lg c
  end.

(** The next access of a call is to [_sinks], to [_lvl]; a thread that has a message
    reads both. *)
Definition at_sinks (c : lcall S) : bool := match c with LSinks _ _ | LInitSink _ _ | LUninitSink _ => true | _ => false end.
Definition at_lvl (c : lcall S) : bool := match c with LLevel _ => true | _ => false end.
Definition logs (t : lthread) : bool := match lt_pc t with LHave _ => true | _ => false end.

(** The access of the call [k], which is at [c], races with another one. *)
Definition races (lg : Logger) (k : nat) (c : lcall S) : Prop :=
  (at_sinks c = true /\ exists k' c', k' <> k /\ l_calls lg !! k' = Some c' /\ at_sinks c' = true) \/
  (at_lvl c = true /\ exists k' c', k' <> k /\ l_calls lg !! k' = Some c' /\ at_lvl c' = true) \/
  ((at_sinks c = true \/ at_lvl c = true) /\ existsb logs (l_threads lg) = true).

(** ** The thread *)

Definition set_pc (t : lthread) (pc : logger_pc) : lthread := mk_lthread pc (lt_stop t).

Definition logger_loop (i : nat) (t : lthread) (lg : Logger) : Logger :=
  with_thread lg (l_thread lg) (<[i := set_pc t (if lt_stop t then LExited else LPop)]> (l_threads lg)).

Definition logger_pop (i : nat) (t : lthread) (lg : Logger) : Logger :=
  match tq_pop (_queue lg) with
  | Done (None, q) => with_queue lg q (<[i := set_pc t LLoop]> (l_threads lg))
  | Done (Some msg, q) => with_queue lg q (<[i := set_pc t (LHave msg)]> (l_threads lg))
  | _ => with_thread lg (l_thread lg) (<[i := set_pc t LCrash]> (l_threads lg))
  end.

Definition log_to (lvl : LogLevel) (msg : Message) (sinks : list S) : list S := map (fun s => snd (sink_Log lvl msg s)) sinks.

Definition logger_handle (msg : Message) (i : nat) (t : lthread) (lg : Logger) : Logger :=
  mk_logger (_queue lg) (log_to (l_lvl lg) msg (_sinks lg)) (l_lvl lg) (l_thread lg)
    (<[i := set_pc t LLoop]> (l_threads lg)) (l_calls lg) (l_undef lg) (l_mixed lg)
    (l_posted lg) (l_handled lg ++ [msg]) (l_gen lg ++ [msg]) (l_first lg).

(** ** Executions *)

Inductive lstep : Logger -> Logger -> Prop :=
| l_logit lg msg : l_undef lg = false -> lstep lg (LogIt msg lg)
| l_call lg c :
    l_undef lg = false -> (exists lvl sinks, c = LInit lvl sinks) \/ c = LUninit ->
    lstep lg (with_calls lg (l_calls lg ++ [c]) false)
| l_next lg k c lg' c' :
    l_undef lg = false -> l_calls lg !! k = Some c -> lcall_step lg c = Some (lg', c') ->
    lstep lg (with_calls lg' (<[k := c']> (l_calls lg')) false)
| l_race lg k c :
    l_undef lg = false -> l_calls lg !! k = Some c -> races lg k c -> lstep lg (with_calls lg (l_calls lg) true)
| l_race_log lg i j t t' :
    l_undef lg = false -> i <> j -> l_threads lg !! i = Some t -> l_threads lg !! j = Some t' ->
    logs t = true -> logs t' = true -> lstep lg (with_calls lg (l_calls lg) true)
| l_loop lg i t : l_undef lg = false -> l_threads lg !! i = Some t -> lt_pc t = LLoop -> lstep lg (logger_loop i t lg)
| l_pop lg i t :
    l_undef lg = false -> l_threads lg !! i = Some t -> lt_pc t = LPop -> tq_ready false (_queue lg) = true ->
    lstep lg (logger_pop i t lg)
| l_handle lg i t msg :
    l_undef lg = false -> l_threads lg !! i = Some t -> lt_pc t = LHave msg -> lstep lg (logger_handle msg i t lg).

Definition lreach : Logger -> Prop := rtc lstep logger_new.
End logger.

Arguments Logger : clear implicits.

(** * Theorems *)

Section proofs.
Context {Q : Type -> Type} `{!TaskQueue Q} `{!TaskQueueLaws Q} {S : Type} `{!Sink S}.
Implicit Types lg : Logger Q S.

(** The messages the threads have taken and not yet given to the sinks. *)
Definition l_in_hand (t : lthread) : list Message := if lt_pc t is LHave msg then [msg] else [].
Definition l_hands (ts : list lthread) : list Message := ts ≫= l_in_hand.
#[local] Arguments l_hands : simpl never.

Definition crashed (ts : list lthread) : Prop := exists i t, ts !! i = Some t /\ lt_pc t = LCrash.

(** One thread at most has not ended. *)
Definition single (ts : list lthread) : Prop :=
  forall i j t t', ts !! i = Some t -> ts !! j = Some t' -> exited t = false -> exited t' = false -> i = j.

Record logger_inv lg : Prop := {
  linv_items : l_posted lg ≡ₚ l_handled lg ++ l_hands (l_threads lg) ++ tq_items (_queue lg);
  linv_safe : ~ crashed (l_threads lg);
  linv_gen : exists old, l_handled lg = old ++ l_gen lg;
  linv_single : l_mixed lg = false -> single (l_threads lg);
  linv_order : l_mixed lg = false -> l_posted lg = l_handled lg ++ l_hands (l_threads lg) ++ tq_items (_queue lg);
  linv_sinks : l_mixed lg = false -> runs lg = true ->
    _sinks lg = foldl (fun ss m => log_to (l_lvl lg) m ss) (l_first lg) (l_gen lg)
}.

Lemma runs_lookup lg : runs lg = true <-> exists i t, l_threads lg !! i = Some t /\ exited t = false.
Proof.
  unfold runs. rewrite existsb_exists. split.
  - intros (t & Ht & He). apply list_elem_of_In, list_elem_of_lookup in Ht as [i Hi]. exists i, t. by rewrite negb_true_iff in He.
  - intros (i & t & Hi & He). exists t. rewrite negb_true_iff. split; [|done]. by eapply list_elem_of_In, list_elem_of_lookup_2.
Qed.

(** The thread [t] at [i] becomes [t']. *)
Lemma single_update (ts : list lthread) i t t' : ts !! i = Some t -> exited t = false -> single ts -> single (<[i := t']> ts).
Proof.
  intros Hi He Hs j k tj tk [(<- & <- & _)|[? Hj]]%list_lookup_insert_Some [(<- & <- & _)|[? Hk]]%list_lookup_insert_Some Hej Hek; eauto.
Qed.

Lemma single_request i ts : single ts -> single (request_stop i ts).
Proof.
  intros Hs. unfold request_stop. destruct (ts !! i) as [t|] eqn:Hi; [|done].
  intros j k tj tk [(<- & <- & _)|[? Hj]]%list_lookup_insert_Some [(<- & <- & _)|[? Hk]]%list_lookup_insert_Some Hej Hek; eauto.
Qed.

Lemma l_hands_request i ts : l_hands (request_stop i ts) = l_hands ts.
Proof. unfold request_stop. destruct (ts !! i) eqn:E; [|done]. by eapply bind_insert_same. Qed.

Lemma l_hands_new ts : l_hands (ts ++ [mk_lthread LLoop false]) = l_hands ts.
Proof. unfold l_hands. rewrite bind_app. cbn. by rewrite app_nil_r. Qed.

Lemma l_hands_single ts i t : single ts -> ts !! i = Some t -> exited t = false -> l_hands ts = l_in_hand t.
Proof.
  intros Hs Hi He. apply (bind_single _ _ i t Hi). intros j tj Hj Hne. unfold l_in_hand.
  destruct (lt_pc tj) eqn:E; try done. destruct Hne. apply (Hs j i tj t); try done. unfold exited. by rewrite E.
Qed.

Lemma crashed_update ts i t' : lt_pc t' <> LCrash -> crashed (<[i := t']> ts) -> crashed ts.
Proof. intros Ht' (j & t & [(<- & <- & _)|[_ Hj]]%list_lookup_insert_Some & Hc); [done|by exists j, t]. Qed.

Lemma crashed_request ts i : crashed (request_stop i ts) -> crashed ts.
Proof.
  unfold request_stop. destruct (ts !! i) as [ti|] eqn:Hi; [|done].
  intros (j & t & [(<- & <- & _)|[_ Hj]]%list_lookup_insert_Some & Hc); [by exists i, ti|by exists j, t].
Qed.

Lemma runs_request lg i : runs (with_thread lg (l_thread lg) (request_stop i (l_threads lg))) = true -> runs lg = true.
Proof.
  rewrite !runs_lookup. cbn. unfold request_stop. destruct (l_threads lg !! i) as [ti|] eqn:Hi; [|done].
  intros (j & t & [(<- & <- & _)|[_ Hj]]%list_lookup_insert_Some & Hc); eauto.
Qed.

(** Steps that leave the messages and the running threads alone. *)
Lemma logger_inv_same lg lg' :
  l_posted lg' = l_posted lg -> l_handled lg' = l_handled lg -> tq_items (_queue lg') = tq_items (_queue lg) ->
  l_hands (l_threads lg') = l_hands (l_threads lg) -> (crashed (l_threads lg') -> crashed (l_threads lg)) ->
  l_gen lg' = l_gen lg -> l_first lg' = l_first lg -> (l_mixed lg' = false -> l_mixed lg = false) ->
  (single (l_threads lg) -> single (l_threads lg')) ->
  (l_mixed lg' = false -> runs lg' = true -> runs lg = true /\ _sinks lg' = _sinks lg /\ l_lvl lg' = l_lvl lg) ->
  logger_inv lg -> logger_inv lg'.
Proof.
  intros E1 E2 E3 E4 Hcr E5 E6 Hm Hs Hr [H1 H2 H3 H4 H5 H6]. split; rewrite ?E1, ?E2, ?E3, ?E4, ?E5, ?E6; auto.
  intros Hmix Hrun. destruct (Hr Hmix Hrun) as (Hrun' & -> & ->). auto.
Qed.

Lemma logger_inv_sinks lg sinks lvl : logger_inv lg -> logger_inv (with_sinks lg sinks lvl).
Proof.
  apply logger_inv_same; try done; cbn.
  - by intros [? _]%orb_false_iff.
  - intros [_ Hr]%orb_false_iff. unfold runs in *. cbn. intros ?. congruence.
Qed.

Lemma logger_inv_new lg : logger_inv lg -> logger_inv (new_thread lg).
Proof.
  intros [H1 H2 H3 H4 H5 H6]. split; cbn; rewrite ?l_hands_new; try done.
  - intros (i & t & [Hi|[_ [_ <-]%list_lookup_singleton_Some]]%lookup_app_Some & Hc); [by apply H2; exists i, t|done].
  - exists (l_handled lg). by rewrite app_nil_r.
  - intros [_ Hr]%orb_false_iff. assert (forall i t, l_threads lg !! i = Some t -> exited t = false -> False) as Hall.
    { intros i t Hi He. assert (runs lg = true) by (apply runs_lookup; eauto). congruence. }
    intros i j t t' [Hi|[? Hi]]%lookup_app_Some [Hj|[? Hj]]%lookup_app_Some He He'; try by exfalso; eauto.
    apply list_lookup_singleton_Some in Hi as [? _], Hj as [? _]. lia.
  - intros [? _]%orb_false_iff. auto.
Qed.

Lemma logger_inv_calls lg cs b : logger_inv lg -> logger_inv (with_calls lg cs b).
Proof. by apply logger_inv_same. Qed.

Lemma logger_inv_call lg c lg' c' : lcall_step lg c = Some (lg', c') -> logger_inv lg -> logger_inv lg'.
Proof.
  intros E Hi. assert (forall i th, logger_inv (with_thread lg th (request_stop i (l_threads lg)))) as Hreq.
  { intros i th. revert Hi. apply logger_inv_same; try done; cbn;
      [apply l_hands_request|apply crashed_request|apply single_request|].
    intros _ Hr. split; [|done]. by apply (runs_request lg i). }
  destruct c; cbn in E; repeat match type of E with context [match ?x with _ => _ end] => destruct x eqn:? end; simplify_eq;
    auto using logger_inv_sinks, logger_inv_new.
  - by revert Hi; apply logger_inv_same.
  - by revert Hi; apply logger_inv_same.
  - revert Hi; apply logger_inv_same; try done. cbn. by rewrite tq_items_stop.
  - by revert Hi; apply logger_inv_same.
Qed.

Lemma logger_inv_pop lg i t :
  l_threads lg !! i = Some t -> lt_pc t = LPop -> tq_ready false (_queue lg) = true -> logger_inv lg -> logger_inv (logger_pop i t lg).
Proof.
  intros Hi Ht Hr Hinv. assert (exited t = false) as He by (unfold exited; by rewrite Ht).
  assert (l_in_hand t = []) as Hh by (unfold l_in_hand; by rewrite Ht).
  assert (runs lg = true) as Hrun by (apply runs_lookup; eauto). unfold logger_pop.
  destruct (tq_stopped (_queue lg)) eqn:Es.
  - rewrite tq_pop_stopped by done. revert Hinv. apply logger_inv_same; try done; cbn.
    + eapply bind_insert_same; [exact Hi|by rewrite Hh].
    + by apply crashed_update.
    + by eapply single_update.
  - destruct (tq_items (_queue lg)) as [|m l] eqn:Ei; [apply tq_ready_iff in Hr; destruct Hr as [?|[?|?]]; congruence|].
    destruct (tq_pop_item _ (_queue lg) m l Es Ei) as (q' & -> & Ei' & _). destruct Hinv as [H1 H2 H3 H4 H5 H6].
    pose proof (bind_insert_perm l_in_hand _ _ _ (set_pc t (LHave m)) Hi) as Hp. rewrite Hh, app_nil_r in Hp.
    split; cbn; auto.
    + rewrite H1, Ei, Ei'. unfold l_hands. rewrite Hp. cbn. solve_Permutation.
    + intros Hc. by apply H2, (crashed_update _ i (set_pc t (LHave m))).
    + intros Hm. eapply single_update; eauto.
    + intros Hm. rewrite (H5 Hm), Ei, Ei', (l_hands_single _ _ _ (H4 Hm) Hi He), Hh.
      rewrite (l_hands_single _ i (set_pc t (LHave m))); [done|by eapply single_update; eauto|by apply list_lookup_insert_eq; eapply lookup_lt_Some|done].
Qed.

Lemma logger_inv_handle lg i t m :
  l_threads lg !! i = Some t -> lt_pc t = LHave m -> logger_inv lg -> logger_inv (logger_handle m i t lg).
Proof.
  intros Hi Ht [H1 H2 [old Hg] H4 H5 H6]. assert (exited t = false) as He by (unfold exited; by rewrite Ht).
  assert (l_in_hand t = [m]) as Hh by (unfold l_in_hand; by rewrite Ht).
  assert (runs lg = true) as Hrun by (apply runs_lookup; eauto).
  pose proof (bind_insert_perm l_in_hand _ _ _ (set_pc t LLoop) Hi) as Hp. rewrite Hh in Hp. cbn in Hp. rewrite app_nil_r in Hp.
  split; cbn.
  - rewrite H1. unfold l_hands. rewrite <- Hp. solve_Permutation.
  - intros Hc. by apply H2, (crashed_update _ i (set_pc t LLoop)).
  - exists old. by rewrite Hg, app_assoc.
  - intros Hm. eapply single_update; eauto.
  - intros Hm. rewrite (H5 Hm), (l_hands_single _ _ _ (H4 Hm) Hi He), Hh.
    rewrite (l_hands_single _ i (set_pc t LLoop)); [by rewrite <- app_assoc|by eapply single_update; eauto|by apply list_lookup_insert_eq; eapply lookup_lt_Some|done].
  - intros Hm _. rewrite foldl_snoc. by rewrite <- H6.
Qed.

Lemma logger_inv_step lg lg' : logger_inv lg -> lstep lg lg' -> logger_inv lg'.
Proof.
  intros Hi Hs. destruct Hs as [lg msg _|lg c _ Hc|lg k c lg' c' _ Hk E|lg k c _ Hk Hr|lg i j t t' _ _ _ _ _ _|lg i t _ Ht Hpc|lg i t _ Ht Hpc Hr|lg i t msg _ Ht Hpc];
    try by apply logger_inv_calls.
  - destruct Hi as [H1 H2 H3 H4 H5 H6]. split; cbn; auto; rewrite tq_items_push.
    + rewrite H1. solve_Permutation.
    + intros Hm. by rewrite (H5 Hm), !app_assoc.
  - apply logger_inv_calls. by eapply logger_inv_call.
  - assert (exited t = false) as He by (unfold exited; by rewrite Hpc). revert Hi. apply logger_inv_same; try done; cbn.
    + eapply bind_insert_same; [exact Ht|]. unfold l_in_hand. cbn. rewrite Hpc. by destruct (lt_stop t).
    + apply crashed_update. by destruct (lt_stop t).
    + by eapply single_update.
    + intros _ _. split; [|done]. apply runs_lookup; eauto.
  - by apply logger_inv_pop.
  - by apply logger_inv_handle.
Qed.

Lemma logger_inv_reach lg : lreach lg -> logger_inv lg.
Proof.
  intros H. apply (rtc_invariant lstep logger_inv logger_new lg); [apply logger_inv_step|exact H|].
  split; cbn; unfold l_hands; cbn; rewrite ?tq_items_empty; try done; [by intros (i & t & ? & _)|by exists []].
Qed.

(** C7. Messages reach every sink once and in order.  In every reachable state of the logger,
    with any threads logging and calling [Init] and [Uninit] in any interleaving with the
    logger's own threads: the messages given to [LogIt] are those handled, those a thread
    holds and those in the queue, each in one of these places only, and no thread takes
    from an empty queue.  Unless an [Init] or [Uninit] has replaced the sinks, the level or
    the thread while a thread ran, one thread at most is running; the messages handled, the
    one it holds and those in the queue are in the order of [LogIt]; and while it runs, the
    sinks are in the state that logging the messages handled since it was made, one after
    the other at the logger's level, leaves those in that [Init] had then. *)
Theorem logger_in_order lg :
  lreach lg ->
  l_posted lg ≡ₚ l_handled lg ++ l_hands (l_threads lg) ++ tq_items (_queue lg) /\
  (forall i t, l_threads lg !! i = Some t -> lt_pc t <> LCrash) /\
  (exists old, l_handled lg = old ++ l_gen lg) /\
  (l_mixed lg = false ->
    single (l_threads lg) /\
    l_posted lg = l_handled lg ++ l_hands (l_threads lg) ++ tq_items (_queue lg) /\
    (runs lg = true -> _sinks lg = foldl (fun ss m => log_to (l_lvl lg) m ss) (l_first lg) (l_gen lg))).
Proof.
  intros H. destruct (logger_inv_reach lg H) as [H1 H2 H3 H4 H5 H6]. split; [done|]. split; [|auto].
  intros i t Hi Hc. apply H2. by exists i, t.
Qed.

(** No thread gets a message from a stopped queue. *)
Lemma stopped_step lg lg' : tq_stopped (_queue lg) = true -> lstep lg lg' ->
  tq_stopped (_queue lg') = true /\
  exists l, l_handled lg' = l_handled lg ++ l /\ l ++ l_hands (l_threads lg') ≡ₚ l_hands (l_threads lg).
Proof.
  intros Es Hs. destruct Hs as [lg msg _|lg c _ Hc|lg k c lg' c' _ Hk E|lg k c _ Hk Hr|lg i j t t' _ _ _ _ _ _|lg i t _ Ht Hpc|lg i t _ Ht Hpc Hr|lg i t msg _ Ht Hpc];
    cbn; rewrite ?tq_stopped_push; try by (split; [done|exists []; by rewrite app_nil_r]).
  - destruct c; cbn in E; repeat match type of E with context [match ?x with _ => _ end] => destruct x eqn:? end; simplify_eq; cbn;
      rewrite ?tq_stopped_stop, ?l_hands_request, ?l_hands_new; (split; [done|exists []; by rewrite app_nil_r]).
  - split; [done|]. exists []. rewrite app_nil_r. split; [done|]. cbn. erewrite (bind_insert_same l_in_hand); [done|exact Ht|].
    unfold l_in_hand. cbn. rewrite Hpc. by destruct (lt_stop t).
  - unfold logger_pop. rewrite tq_pop_stopped by done. split; [done|]. exists []. rewrite app_nil_r. split; [done|]. cbn.
    erewrite (bind_insert_same l_in_hand); [done|exact Ht|]. unfold l_in_hand. cbn. by rewrite Hpc.
  - split; [done|]. exists [msg]. split; [done|]. pose proof (bind_insert_perm l_in_hand _ _ _ (set_pc t LLoop) Ht) as Hp.
    unfold l_in_hand in Hp at 2 4. cbn in Hp. rewrite Hpc, app_nil_r in Hp. unfold l_hands. rewrite <- Hp. solve_Permutation.
Qed.

(** What is in the queue when [Uninit] stops it is never logged.  From a state in which
    the queue has been stopped, whatever is logged and however often the logger is
    initialised again, the messages handled are at most those the threads already had:
    the rest of the queue and every later message are lost. *)
Theorem logger_dead_after_uninit lg lg' :
  tq_stopped (_queue lg) = true -> rtc lstep lg lg' ->
  exists l, l_handled lg' = l_handled lg ++ l /\ l ⊆+ l_hands (l_threads lg).
Proof.
  intros Es Hr.
  assert (tq_stopped (_queue lg') = true /\
    exists l, l_handled lg' = l_handled lg ++ l /\ l ++ l_hands (l_threads lg') ≡ₚ l_hands (l_threads lg)) as (_ & l & Hl & Hp).
  - induction Hr as [lg|lg lg1 lg' Hs Hr IH]; [split; [done|]; exists []; by rewrite app_nil_r|].
    destruct (stopped_step lg lg1 Es Hs) as (E1 & l1 & E2 & P1). destruct (IH E1) as (E3 & l2 & E4 & P2).
    split; [done|]. exists (l1 ++ l2). split; [by rewrite E4, E2, app_assoc|]. rewrite <- P1, <- P2. by rewrite app_assoc.
  - exists l. split; [done|]. rewrite <- Hp. by apply submseteq_inserts_r.
Qed.
End proofs.

(** ** Init without interference *)

Section init.
Context {Q : Type -> Type} `{!TaskQueue Q} {S : Type} `{!Sink S}.

Definition lnext (x y : Logger Q S * lcall S) : Prop := lcall_step (fst x) (snd x) = Some y.

(** The loop over the sinks, from the one at [i] on. *)
Lemma init_loop post : forall pre (lg : Logger Q S) ok, _sinks lg = pre ++ post ->
  exists lg', rtc lnext (lg, LInitSink (length pre) ok) (lg', LInitSink (length (pre ++ post)) (ok && forallb (fun s => fst (sink_Init s)) post)) /\
    _sinks lg' = pre ++ map (fun s => snd (sink_Init s)) post /\ l_lvl lg' = l_lvl lg /\ l_threads lg' = l_threads lg.
Proof.
  induction post as [|s post IH]; intros pre lg ok Hs; cbn [forallb map].
  - exists lg. rewrite app_nil_r, andb_true_r in *. split; [apply rtc_refl|done].
  - set (lg1 := with_sinks lg (<[length pre := snd (sink_Init s)]> (_sinks lg)) (l_lvl lg)).
    destruct (IH (pre ++ [snd (sink_Init s)]) lg1 (ok && fst (sink_Init s))) as (lg' & Hr & Hs' & Hl & Ht).
    { unfold lg1. cbn. by rewrite Hs, insert_app_r_alt, Nat.sub_diag, <- app_assoc by done. }
    exists lg'. rewrite length_app in Hr. cbn in Hr. rewrite <- !app_assoc in *. split; [|by rewrite Hs', Hl, Ht].
    eapply rtc_l; [|rewrite andb_assoc; rewrite !length_app in *; exact Hr].
    unfold lnext. cbn. rewrite Hs, lookup_app_r, Nat.sub_diag by done. cbn. unfold lg1. rewrite Hs. by destruct (sink_Init s).
Qed.

(** [Init] replaces sinks and level and initialises every sink, also behind one that
    fails; it makes a thread only if none did. *)
Theorem Init_alone (lg : Logger Q S) lvl sinks : sinks <> [] ->
  exists lg', rtc lnext (lg, LInit lvl sinks)
      (lg', if forallb (fun s => fst (sink_Init s)) sinks then LCreate else LDone (Done false)) /\
    _sinks lg' = map (fun s => snd (sink_Init s)) sinks /\ l_lvl lg' = lvl /\ l_threads lg' = l_threads lg.
Proof.
  intros Hne. set (lg1 := with_sinks (with_sinks lg sinks (l_lvl lg)) sinks lvl).
  destruct (init_loop sinks [] lg1 true eq_refl) as (lg' & Hr & Hs & Hl & Ht). exists lg'. split; [|done].
  apply (rtc_l _ _ (lg, LSinks lvl sinks)); [unfold lnext; cbn; by destruct sinks|]. eapply rtc_l; [done|]. eapply rtc_l; [done|].
  eapply rtc_r; [exact Hr|]. unfold lnext. cbn in *. rewrite lookup_ge_None_2 by (rewrite Hs, length_map; lia).
  by destruct (forallb _ sinks).
Qed.
End init.

(** ** Concrete runs *)

Definition one_message : Message := mk_message Info 0 0 None [99].
Definition console0 : ConsoleSink := mk_console false [].

(** What happens next: a call of [Init] or [Uninit] begins or goes on, a thread goes on, a
    message is logged. *)
Inductive lact := ACall (c : lcall ConsoleSink) | ANext (k : nat) | AThread (i : nat) | ALog (msg : Message).

Definition do_lact (lg : Logger sync_queue ConsoleSink) (a : lact) : option (Logger sync_queue ConsoleSink) :=
  if l_undef lg then None else
  match a with
  | ACall (LInit _ _ as c) | ACall (LUninit as c) => Some (with_calls lg (l_calls lg ++ [c]) false)
  | ACall _ => None
  | ANext k => c ← l_calls lg !! k; '(lg', c') ← lcall_step lg c; Some (with_calls lg' (<[k := c']> (l_calls lg')) false)
  | AThread i =>
      t ← l_threads lg !! i;
      match lt_pc t with
      | LLoop => Some (logger_loop i t lg)
      | LPop => if tq_ready false (_queue lg) then Some (logger_pop i t lg) else None
      | LHave msg => Some (logger_handle msg i t lg)
      | _ => None
      end
  | ALog msg => Some (LogIt msg lg)
  end.

Fixpoint do_lacts (lg : Logger sync_queue ConsoleSink) (l : list lact) : option (Logger sync_queue ConsoleSink) :=
  match l with [] => Some lg | a :: l => lg' ← do_lact lg a; do_lacts lg' l end.

Lemma do_lact_step lg a lg' : do_lact lg a = Some lg' -> lstep lg lg'.
Proof.
  unfold do_lact. destruct (l_undef lg) eqn:Hu; [done|]. destruct a as [c|k|i|m].
  - destruct c; try done; intros [= <-]; apply l_call; eauto.
  - destruct (l_calls lg !! k) as [c|] eqn:Hk; [|done]. cbn. destruct (lcall_step lg c) as [[lg1 c1]|] eqn:E; [|done].
    intros [= <-]. by eapply l_next.
  - destruct (l_threads lg !! i) as [t|] eqn:Hi; [|done]. cbn. destruct (lt_pc t) eqn:E; try done.
    + intros [= <-]. by apply l_loop.
    + destruct (sq_ready false (_queue lg)) eqn:Hr; [|done]. intros [= <-]. by apply l_pop.
    + intros [= <-]. by apply l_handle.
  - intros [= <-]. by apply l_logit.
Qed.

Lemma do_lacts_reach l : forall lg lg', lreach lg -> do_lacts lg l = Some lg' -> lreach lg'.
Proof.
  induction l as [|a l IH]; intros lg lg' Hr; cbn [do_lacts]; [by intros [= <-]|].
  destruct (do_lact lg a) as [lg1|] eqn:E; [|done]. apply IH. eapply rtc_r; [exact Hr|by eapply do_lact_step].
Qed.

(** The logger is started with one sink, and a message is logged. *)
Definition run_logger : list lact := ACall (LInit Trace [console0]) :: replicate 7 (ANext 0) ++ [ALog one_message].

Lemma logger_in_order_witness : exists lg : Logger sync_queue ConsoleSink,
  l_handled lg = [one_message] /\ l_mixed lg = false /\ runs lg = true /\
  l_posted lg ≡ₚ l_handled lg ++ l_hands (l_threads lg) ++ tq_items (_queue lg) /\
  _sinks lg = log_to Trace one_message [console0].
Proof.
  assert (exists lg, do_lacts logger_new (run_logger ++ replicate 3 (AThread 0)) = Some lg) as [lg E] by (vm_compute; eauto).
  assert (lreach lg) as Hr by (by eapply do_lacts_reach; [apply rtc_refl|]).
  assert (l_handled lg = [one_message] /\ l_mixed lg = false /\ runs lg = true /\ l_lvl lg = Trace /\ l_first lg = [console0] /\ l_gen lg = [one_message])
    as (E1 & E2 & E3 & E4 & E5 & E6) by (vm_compute in E; by injection E as <-).
  exists lg. do 3 (split; [done|]). destruct (logger_in_order lg Hr) as (H1 & _ & _ & H2). split; [exact H1|].
  destruct (H2 E2) as (_ & _ & H3). by rewrite (H3 E3), E4, E5, E6.
Defined.

(** The queue is stopped before the thread takes the message. *)
Lemma logger_dead_after_uninit_witness : exists lg : Logger sync_queue ConsoleSink,
  lreach lg /\ l_posted lg = [one_message] /\ forall lg', rtc lstep lg lg' -> l_handled lg' = [].
Proof.
  assert (exists lg, do_lacts logger_new (run_logger ++ [ACall LUninit; ANext 1]) = Some lg) as [lg E] by (vm_compute; eauto).
  assert (lreach lg) as Hr by (by eapply do_lacts_reach; [apply rtc_refl|]).
  assert (tq_stopped (_queue lg) = true /\ l_posted lg = [one_message] /\ l_handled lg = [] /\ l_hands (l_threads lg) = [])
    as (Es & Hp & Hh & Hi) by (vm_compute in E; by injection E as <-).
  exists lg. split; [done|]. split; [done|]. intros lg' Hr'.
  destruct (logger_dead_after_uninit lg lg' Es Hr') as (l & Hl & Hsub). rewrite Hi in Hsub. apply submseteq_nil_r in Hsub. by rewrite Hl, Hh, Hsub.
Defined.

(** [Init] on a logger that runs makes a second thread, and the messages the two have
    taken can reach the sinks in the other order. *)
Definition two_message : Message := mk_message Info 1 0 None [100].

Lemma logger_two_inits : exists lg : Logger sync_queue ConsoleSink,
  lreach lg /\ l_posted lg = [one_message; two_message] /\ l_handled lg = [two_message; one_message].
Proof.
  assert (exists lg, do_lacts logger_new
    (run_logger ++ [ALog two_message; ACall (LInit Trace [console0])] ++ replicate 6 (ANext 1) ++
     [AThread 0; AThread 0; AThread 1; AThread 1; AThread 1; AThread 0]) = Some lg) as [lg E] by (vm_compute; eauto).
  exists lg. split; [by eapply do_lacts_reach; [apply rtc_refl|]|]. vm_compute in E. by injection E as <-.
Qed.
