(* ===== verification/SqliteWrapper.v ===== *)
(** * SqliteWrapper: the database class (include/db/sqlite3/sqlite3.h, src/db/sqlite3/sqlite3_impl.cpp)

    [Sqlite3cpp::Impl] over the C API of SQLite, which is the interface [SqliteApi]: each
    call gives its result and the next state of the library.  What the model adds is the
    life of the objects: [Error] passes the connection to [sqlite3_free], and a call on a
    connection that has been freed, or on a statement that is not live or whose connection
    has been freed, is [UB].  The loop of [Exec] has no fuel of its own to run out of:
    [None] means that the given number of turns was not enough. *)

From S2P Require Import Prelude.

Definition SQLITE_OK : Z := 0.
Definition SQLITE_BUSY : Z := 5.
Definition SQLITE_LOCKED : Z := 6.
Definition SQLITE_ROW : Z := 100.
Definition SQLITE_DONE : Z := 101.
Definition SQLITE_INTEGER : Z := 1.
Definition SQLITE_FLOAT : Z := 2.
Definition SQLITE_TEXT : Z := 3.
Definition SQLITE_BLOB : Z := 4.
Definition SQLITE_NULL : Z := 5.

(** [data] is [None] for the null pointer. *)
Record Sqlite3Blob := mk_blob { data : option bytes; size : Z }.

(** [std::variant<long long, double, std::string, Sqlite3Blob, Sqlite3Null>]; a double is
    its bits. *)
Inductive Sqlite3Value :=
| VInt (v : Z)
| VDouble (bits : Z)
| VText (s : bytes)
| VBlob (b : Sqlite3Blob)
| VNull.

(** A default constructed variant holds its first alternative. *)
Definition value_default : Sqlite3Value := VInt 0.

Definition Sqlite3Columns : Type := gmap (list Z) Sqlite3Value.
Definition Sqlite3Result : Type := bool * bytes.

(** The calls; handles of connections and statements are numbers, [W] is everything the
    library keeps.  [None] of an accessor is a null pointer. *)
Class SqliteApi (W : Type) := {
  sqlite3_open_v2 : bytes -> Z -> W -> Z * option nat * W;
  sqlite3_close_v2 : nat -> W -> W;
  sqlite3_errcode : nat -> W -> Z;
  sqlite3_errstr : Z -> bytes;
  sqlite3_exec : nat -> bytes -> W -> Z * W;
  sqlite3_prepare_v2 : option nat -> bytes -> W -> Z * option nat * W;
  sqlite3_step : option nat -> W -> Z * W;
  sqlite3_finalize : nat -> W -> Z * W;
  sqlite3_column_count : nat -> W -> nat;
  sqlite3_column_name : nat -> nat -> W -> option bytes;
  sqlite3_column_type : nat -> nat -> W -> Z;
  sqlite3_column_int64 : nat -> nat -> W -> Z;
  sqlite3_column_double : nat -> nat -> W -> Z;
  sqlite3_column_text : nat -> nat -> W -> option bytes;
  sqlite3_column_blob : nat -> nat -> W -> bytes;
  sqlite3_bind_int64 : nat -> Z -> Z -> W -> Z * W;
  sqlite3_bind_double : nat -> Z -> Z -> W -> Z * W;
  sqlite3_bind_text : nat -> Z -> bytes -> W -> Z * W;
  sqlite3_bind_blob : nat -> Z -> Sqlite3Blob -> W -> Z * W;
  sqlite3_bind_null : nat -> Z -> W -> Z * W;
  malloc_ok : Z -> W -> bool
}.

(** [std::string] of a C string: up to the first zero byte. *)
Fixpoint c_str (s : bytes) : bytes :=
  match s with [] => [] | c :: s => if c =? 0 then [] else c :: c_str s end.

Section wrapper.
Context {W : Type} `{!SqliteApi W}.

Record Impl := mk_impl {
  db_ : option nat;
  freed : gset nat;            (* connections given to [sqlite3_free] *)
  stmts : gmap nat (option nat); (* live statements and their connection *)
  world : W
}.

Definition impl_new (w : W) : Impl := mk_impl None ∅ ∅ w.

Definition with_world (s : Impl) (w : W) : Impl := mk_impl (db_ s) (freed s) (stmts s) w.

(** Use of a connection, and of a statement ([None] is the null pointer, which the calls
    accept). *)
Definition conn_ok (s : Impl) (db : option nat) : bool :=
  if db is Some h then negb (bool_decide (h ∈ freed s)) else true.
Definition stmt_ok (s : Impl) (st : nat) : bool :=
  if stmts s !! st is Some db then conn_ok s db else false.
Definition guard {A} (b : bool) (m : outcome A) : outcome A := if b then m else UB.

(** [sqlite3_free(db_)]; [db_] keeps its value. *)
Definition free_db (h : nat) (s : Impl) : Impl := mk_impl (db_ s) ({[h]} ∪ freed s) (stmts s) (world s).

Definition Error (s : Impl) : outcome (bytes * Impl) :=
  match db_ s with
  | None => Done ([], s)
  | Some h => guard (conn_ok s (Some h)) (
      let code := sqlite3_errcode h (world s) in
      if SQLITE_OK =? code then Done ([], s)
      else Done (sqlite3_errstr code, free_db h s))
  end.

(** [SQLITE_OK == code ? {true, ""} : {false, Error()}] *)
Definition result_of (code : Z) (s : Impl) : outcome (Sqlite3Result * Impl) :=
  if SQLITE_OK =? code then Done ((true, []), s)
  else '(error, s) ← Error s; Done ((false, error), s).

(** A new connection object may have the address of a freed one. *)
Definition Open (db : bytes) (flags : Z) (s : Impl) : outcome (Sqlite3Result * Impl) :=
  match db with
  | [] => Done ((false, [105; 110; 118; 97; 108; 105; 100; 32; 102; 105; 108; 101]), s)
  | _ =>
      let '(code, h, w) := sqlite3_open_v2 db flags (world s) in
      result_of code (mk_impl h (if h is Some h then freed s ∖ {[h]} else freed s) (stmts s) w)
  end.

Definition Close (s : Impl) : outcome Impl :=
  match db_ s with
  | None => Done s
  | Some h => guard (conn_ok s (Some h)) (Done (mk_impl None (freed s) (stmts s) (sqlite3_close_v2 h (world s))))
  end.

Definition invalid_db : bytes := [105; 110; 118; 97; 108; 105; 100; 32; 100; 98].
Definition invalid_sql : bytes := [105; 110; 118; 97; 108; 105; 100; 32; 115; 113; 108].
Definition invalid_context : bytes := [105; 110; 118; 97; 108; 105; 100; 32; 99; 111; 110; 116; 101; 120; 116].

Definition exec_command (sql : bytes) (s : Impl) : outcome (Sqlite3Result * Impl) :=
  match db_ s with
  | None => Done ((false, invalid_db), s)
  | Some h => guard (conn_ok s (Some h)) (
      let '(code, w) := sqlite3_exec h sql (world s) in result_of code (with_world s w))
  end.

(** "BEGIN", "COMMIT", "ROLLBACK" *)
Definition Begin := exec_command [66; 69; 71; 73; 78].
Definition Commit := exec_command [67; 79; 77; 77; 73; 84].
Definition Rollback := exec_command [82; 79; 76; 76; 66; 65; 67; 75].

(** One column of the current row. *)
Definition read_column (st i : nat) (w : W) : outcome Sqlite3Value :=
  let column_type := sqlite3_column_type st i w in
  if column_type =? SQLITE_INTEGER then Done (VInt (sqlite3_column_int64 st i w))
  else if column_type =? SQLITE_FLOAT then Done (VDouble (sqlite3_column_double st i w))
  else if column_type =? SQLITE_TEXT then
    (if sqlite3_column_text st i w is Some text then Done (VText (c_str text)) else UB)
  else if column_type =? SQLITE_BLOB then
    (let blob := sqlite3_column_blob st i w in
     if (0 <? len blob) && malloc_ok (len blob) w then Done (VBlob (mk_blob (Some blob) (len blob)))
     else Done (VBlob (mk_blob None (len blob))))
  else if column_type =? SQLITE_NULL then Done VNull
  else Done value_default.

(** The loop over the columns, from column [i] on, [n] of them. *)
Fixpoint read_columns (st i n : nat) (w : W) (columns : Sqlite3Columns) : outcome Sqlite3Columns :=
  match n with
  | O => Done columns
  | S n =>
      match sqlite3_column_name st i w with
      | None => UB
      | Some column_name =>
          value ← read_column st i w;
          read_columns st (S i) n w (<[c_str column_name := value]> columns)
      end
  end.

Definition read_row (st : nat) (w : W) : outcome Sqlite3Columns :=
  read_columns st 0 (sqlite3_column_count st w) w ∅.

Definition add_stmt (s : Impl) (st : option nat) (w : W) : Impl :=
  mk_impl (db_ s) (freed s) (if st is Some st then <[st := db_ s]> (stmts s) else stmts s) w.
Definition drop_stmt (s : Impl) (st : nat) (w : W) : Impl :=
  mk_impl (db_ s) (freed s) (delete st (stmts s)) w.

(** The loop of [Exec]; [code] is set once, before it.  A null statement finalises to a
    no-op. *)
Fixpoint exec_loop (fuel : nat) (code : Z) (stmt : option nat) (rows : list Sqlite3Columns) (s : Impl) : option (outcome (list Sqlite3Columns * Impl)) :=
  match fuel with
  | O => None
  | S fuel =>
      if (SQLITE_LOCKED =? code) || (SQLITE_BUSY =? code) then exec_loop fuel code stmt rows s
      else if SQLITE_DONE =? code then
        Some (match stmt with
              | None => Done (rows, s)
              | Some st => guard (stmt_ok s st) (Done (rows, drop_stmt s st (snd (sqlite3_finalize st (world s)))))
              end)
      else if SQLITE_ROW =? code then
        match stmt with
        | None => Some UB
        | Some st =>
            match guard (stmt_ok s st) (read_row st (world s)) with
            | Done columns => exec_loop fuel code stmt (rows ++ [columns]) s
            | _ => Some UB
            end
        end
      else exec_loop fuel code stmt rows s
  end.

Definition Exec (fuel : nat) (sql : bytes) (rows : list Sqlite3Columns) (s : Impl) : option (outcome (Sqlite3Result * list Sqlite3Columns * Impl)) :=
  match sql, db_ s with
  | [], _ => Some (Done ((false, invalid_sql), rows, s))
  | _, None => Some (Done ((false, invalid_db), rows, s))
  | _, Some h =>
      if negb (conn_ok s (Some h)) then Some UB
      else
        let '(code, stmt, w) := sqlite3_prepare_v2 (Some h) sql (world s) in
        let s := add_stmt s stmt w in
        if negb (code =? SQLITE_OK) then
          Some ('(error, s) ← Error s; Done ((false, error), rows, s))
        else
          let '(code, w) := sqlite3_step stmt (world s) in
          match exec_loop fuel code stmt [] (with_world s w) with
          | None => None
          | Some r => Some ('(rows, s) ← r; Done ((true, []), rows, s))
          end
  end.

(** The statement of a [Sqlite3Context] is [ctx]. *)
Definition Prepare (sql : bytes) (ctx : option nat) (s : Impl) : outcome (Sqlite3Result * option nat * Impl) :=
  match sql with
  | [] => Done ((false, invalid_sql), ctx, s)
  | _ => guard (conn_ok s (db_ s)) (
      let '(code, stmt, w) := sqlite3_prepare_v2 (db_ s) sql (world s) in
      '(r, s) ← result_of code (add_stmt s stmt w); Done (r, stmt, s))
  end.

Definition BindValue (ctx : option nat) (value : Sqlite3Value) (s : Impl) : outcome (Sqlite3Result * Impl) :=
  match ctx with
  | None => Done ((false, invalid_context), s)
  | Some st => guard (stmt_ok s st) (
      let '(code, w) :=
        match value with
        | VInt v => sqlite3_bind_int64 st 1 v (world s)
        | VDouble v => sqlite3_bind_double st 1 v (world s)
        | VText str => sqlite3_bind_text st 1 str (world s)
        | VBlob blob => sqlite3_bind_blob st 1 blob (world s)
        | VNull => sqlite3_bind_null st 1 (world s)
        end in
      result_of code (with_world s w))
  end.

Fixpoint BindValues (ctx : option nat) (values : list Sqlite3Value) (s : Impl) : outcome (Sqlite3Result * Impl) :=
  match values with
  | [] => Done ((true, []), s)
  | v :: values =>
      '(result, s) ← BindValue ctx v s;
      if negb (fst result) then Done (result, s) else BindValues ctx values s
  end.

(** [cols] is cleared once the context has been checked. *)
Definition Step (ctx : option nat) (cols : Sqlite3Columns) (s : Impl) : outcome (Sqlite3Result * Sqlite3Columns * Impl) :=
  match ctx with
  | None => Done ((false, invalid_context), cols, s)
  | Some st => guard (stmt_ok s st) (
      let '(code, w) := sqlite3_step (Some st) (world s) in
      let s := with_world s w in
      if negb (code =? SQLITE_ROW) then
        '(error, s) ← Error s; Done ((false, error), ∅, s)
      else cols ← read_row st w; Done ((true, []), cols, s))
  end.

Definition Finalize (ctx : option nat) (s : Impl) : outcome (Sqlite3Result * option nat * Impl) :=
  match ctx with
  | None => Done ((false, invalid_context), ctx, s)
  | Some st => guard (stmt_ok s st) (
      let '(code, w) := sqlite3_finalize st (world s) in
      '(r, s) ← result_of code (drop_stmt s st w); Done (r, None, s))
  end.
End wrapper.

Arguments Impl : clear implicits.

(** * Theorems *)

Section proofs.
Context {W : Type} `{!SqliteApi W}.
Implicit Types s : Impl W.

Lemma conn_ok_add s stmt w db : conn_ok (add_stmt s stmt w) db = conn_ok s db.
Proof. done. Qed.

Lemma add_stmt_ok s st w h : db_ s = Some h -> conn_ok s (Some h) = true -> forall w', stmt_ok (with_world (add_stmt s (Some st) w) w') st = true.
Proof. intros Hdb Hc w'. unfold stmt_ok. cbn. rewrite lookup_insert_eq, Hdb. exact Hc. Qed.

Lemma exec_loop_spins stmt s code :
  code <> SQLITE_DONE ->
  (code = SQLITE_ROW -> exists st columns, stmt = Some st /\ stmt_ok s st = true /\ read_row st (world s) = Done columns) ->
  forall fuel rows, exec_loop fuel code stmt rows s = None.
Proof.
  intros Hd Hr fuel. induction fuel as [|fuel IH]; intros rows; [done|]. cbn [exec_loop].
  destruct (_ || _); [apply IH|]. destruct (Z.eqb_spec SQLITE_DONE code); [congruence|].
  destruct (Z.eqb_spec SQLITE_ROW code) as [<-|]; [|apply IH].
  destruct (Hr eq_refl) as (st & columns & -> & Hs & Hrow). unfold guard. rewrite Hs, Hrow. apply IH.
Qed.

(** C39. [Exec] returns exactly when the first call of [sqlite3_step] answers SQLITE_DONE,
    and then without rows: the code is not updated inside the loop, so a query with a row,
    a busy database or an error, and a text without a statement, keep it running. *)
Theorem Exec_returns_iff_done s h sql rows stmt w code w' :
  db_ s = Some h -> conn_ok s (Some h) = true -> sql <> [] ->
  sqlite3_prepare_v2 (Some h) sql (world s) = (SQLITE_OK, stmt, w) ->
  sqlite3_step stmt w = (code, w') ->
  (code = SQLITE_DONE -> forall fuel, exists s', Exec (S fuel) sql rows s = Some (Done ((true, []), [], s')) /\ db_ s' = Some h /\ freed s' = freed s) /\
  (code <> SQLITE_DONE ->
   (code = SQLITE_ROW -> exists st columns, stmt = Some st /\ read_row st w' = Done columns) ->
   forall fuel, Exec fuel sql rows s = None).
Proof.
  intros Hdb Hc Hsql Hp Hstep.
  assert (forall fuel, Exec fuel sql rows s =
    match exec_loop fuel code stmt [] (with_world (add_stmt s stmt w) w') with
    | None => None
    | Some r => Some ('(rows, s) ← r; Done ((true, []), rows, s))
    end) as E.
  { intros fuel. unfold Exec. destruct sql; [done|]. rewrite Hdb, Hc, Hp. cbn. by rewrite Hstep. }
  split.
  - intros -> fuel. rewrite E. cbn [exec_loop]. change (_ || _) with false. rewrite Z.eqb_refl. cbn iota.
    destruct stmt as [st|].
    + unfold guard. rewrite (add_stmt_ok s st w h Hdb Hc w'). by eexists.
    + by eexists.
  - intros Hd Hr fuel. rewrite E, (exec_loop_spins stmt _ code Hd); [done|].
    intros Hrow. destruct (Hr Hrow) as (st & columns & -> & Hread).
    exists st, columns. eauto using add_stmt_ok.
Qed.

(** C40. A command that fails (BEGIN, COMMIT or ROLLBACK, with an error code left in the
    connection) frees the connection and keeps the pointer.  From there on, as long as no
    [Open] replaces it, all that uses the connection is undefined: [Close], which the
    destructor calls, [Error], the three commands, [Exec] and [Prepare] (which, for empty SQL,
    return before they use it), and, on every live statement of the connection, [Step],
    [Finalize], [BindValue] and [BindValues] of one value or more. *)
Theorem failed_command_poisons s h command error s' :
  db_ s = Some h -> exec_command command s = Done ((false, error), s') -> sqlite3_errcode h (world s') <> SQLITE_OK ->
  db_ s' = Some h /\ Close s' = UB /\ Error s' = UB /\ Begin s' = UB /\ Commit s' = UB /\ Rollback s' = UB /\
  (forall fuel sql rows, sql <> [] -> Exec fuel sql rows s' = Some UB) /\
  (forall sql ctx, sql <> [] -> Prepare sql ctx s' = UB) /\
  (forall st cols, stmts s' !! st = Some (Some h) -> Step (Some st) cols s' = UB /\ Finalize (Some st) s' = UB) /\
  (forall st v values, stmts s' !! st = Some (Some h) ->
    BindValue (Some st) v s' = UB /\ BindValues (Some st) (v :: values) s' = UB).
Proof.
  intros Hdb He Hcode. unfold exec_command in He. rewrite Hdb in He. unfold guard in He.
  destruct (conn_ok s (Some h)) eqn:Hc; [|done].
  destruct (sqlite3_exec h command (world s)) as [code w]. unfold result_of in He.
  destruct (SQLITE_OK =? code); [done|]. unfold Error in He. change (db_ (with_world s w)) with (db_ s) in He. rewrite Hdb in He. unfold guard in He.
  change (conn_ok (with_world s w) (Some h)) with (conn_ok s (Some h)) in He. rewrite Hc in He. cbn zeta in He. change (world (with_world s w)) with w in He.
  destruct (Z.eqb_spec SQLITE_OK (sqlite3_errcode h w)) as [E|_]; cbn in He; injection He as <- <-; cbn in Hcode; [congruence|].
  set (s1 := free_db h (with_world s w)).
  assert (db_ s1 = Some h) as D by exact Hdb.
  assert (conn_ok s1 (Some h) = false) as N.
  { unfold conn_ok, s1, free_db. cbn. rewrite bool_decide_eq_true_2 by set_solver. done. }
  split_and!; [done| | | | | | | | |].
  - unfold Close. by rewrite D, N.
  - unfold Error. by rewrite D, N.
  - unfold Begin, exec_command. by rewrite D, N.
  - unfold Commit, exec_command. by rewrite D, N.
  - unfold Rollback, exec_command. by rewrite D, N.
  - intros fuel [|c sql] rows ?; [done|]. unfold Exec. by rewrite D, N.
  - intros [|c sql] ctx ?; [done|]. unfold Prepare. by rewrite D, N.
  - intros st cols Hst. unfold Step, Finalize, stmt_ok. by rewrite Hst, N.
  - intros st v values Hst. assert (BindValue (Some st) v s1 = UB) as Hb by (unfold BindValue, stmt_ok; by rewrite Hst, N).
    split; [exact Hb|]. cbn [BindValues]. by rewrite Hb.
Qed.

(** What binding promises: [param] is the value a statement's parameter has. *)
Class SqliteBindLaws := {
  param : W -> nat -> Z -> option Sqlite3Value;
  bind_of (st : nat) (v : Sqlite3Value) (w : W) : Z * W :=
    match v with
    | VInt v => sqlite3_bind_int64 st 1 v w
    | VDouble v => sqlite3_bind_double st 1 v w
    | VText str => sqlite3_bind_text st 1 str w
    | VBlob blob => sqlite3_bind_blob st 1 blob w
    | VNull => sqlite3_bind_null st 1 w
    end;
  bind_sets st v w w' : bind_of st v w = (SQLITE_OK, w') ->
    forall st' i, param w' st' i = if decide (st' = st /\ i = 1) then Some v else param w st' i
}.

(** Binding a list of values leaves the last one as the first parameter and every other
    parameter as it was. *)
Lemma BindValues_first_only `{!SqliteBindLaws} st values s s' v :
  BindValues (Some st) (values ++ [v]) s = Done ((true, []), s') ->
  forall st' i, param (world s') st' i = if decide (st' = st /\ i = 1) then Some v else param (world s) st' i.
Proof.
  assert (forall s s' v e, BindValue (Some st) v s = Done ((true, e), s') ->
    forall st' i, param (world s') st' i = if decide (st' = st /\ i = 1) then Some v else param (world s) st' i) as B.
  { intros t t' u e Hb. unfold BindValue, guard in Hb. destruct (stmt_ok t st); [|done].
    change (match u with VInt _ => _ | _ => _ end) with (bind_of st u (world t)) in Hb.
    destruct (bind_of st u (world t)) as [code w] eqn:Eb. unfold result_of in Hb.
    destruct (Z.eqb_spec SQLITE_OK code) as [<-|].
    - injection Hb as <- <-. by apply bind_sets.
    - cbn in Hb. destruct (Error _) as [[? ?]| |]; done. }
  revert s. induction values as [|u values IH]; intros s Hb st' i; cbn [app BindValues] in Hb.
  - destruct (BindValue (Some st) v s) as [[[r e] t]| |] eqn:E; [|done|done]. cbn in Hb.
    destruct r; cbn in H; [|done]. injection Hb as <-. by apply (B _ _ _ _ E).
  - destruct (BindValue (Some st) u s) as [[[r e] t]| |] eqn:E; [|done|done]. cbn in Hb.
    destruct r; cbn in H; [|done]. rewrite (IH t Hb). destruct (decide _) as [|N]; [done|].
    rewrite (B _ _ _ _ E). by rewrite decide_False.
Qed.
End proofs.

(** ** A concrete library for the witnesses

    The world is the list of the codes that the next calls return, and the parameters that
    have been bound; there is one connection and one statement, with one column. *)
Definition toy_world : Type := list Z * list (nat * Z * Sqlite3Value).
Definition toy_code (w : toy_world) : Z * toy_world :=
  match fst w with [] => (SQLITE_OK, w) | c :: cs => (c, (cs, snd w)) end.
Definition toy_bind (st : nat) (i : Z) (v : Sqlite3Value) (w : toy_world) : Z * toy_world :=
  (SQLITE_OK, (fst w, (st, i, v) :: snd w)).

Definition toy_api : SqliteApi toy_world := {|
  sqlite3_open_v2 _ _ w := let (c, w) := toy_code w in (c, Some 0%nat, w);
  sqlite3_close_v2 _ w := w;
  sqlite3_errcode _ _ := 1;
  sqlite3_errstr _ := [101];
  sqlite3_exec _ _ w := toy_code w;
  sqlite3_prepare_v2 _ _ w := let (c, w) := toy_code w in (c, Some 1%nat, w);
  sqlite3_step _ w := toy_code w;
  sqlite3_finalize _ w := (SQLITE_OK, w);
  sqlite3_column_count _ _ := 1%nat;
  sqlite3_column_name _ _ _ := Some [97];
  sqlite3_column_type _ _ _ := SQLITE_INTEGER;
  sqlite3_column_int64 _ _ _ := 7;
  sqlite3_column_double _ _ _ := 0;
  sqlite3_column_text _ _ _ := None;
  sqlite3_column_blob _ _ _ := [];
  sqlite3_bind_int64 st i v w := toy_bind st i (VInt v) w;
  sqlite3_bind_double st i v w := toy_bind st i (VDouble v) w;
  sqlite3_bind_text st i v w := toy_bind st i (VText v) w;
  sqlite3_bind_blob st i v w := toy_bind st i (VBlob v) w;
  sqlite3_bind_null st i w := toy_bind st i VNull w;
  malloc_ok _ _ := true
|}.

Definition toy_open (codes : list Z) : Impl toy_world := mk_impl (Some 0%nat) ∅ ∅ (codes, []).

Lemma Exec_returns_iff_done_witness :
  (exists s', @Exec _ toy_api 1 [66] [] (toy_open [SQLITE_OK; SQLITE_DONE]) = Some (Done ((true, []), [], s'))) /\
  (forall fuel, @Exec _ toy_api fuel [66] [] (toy_open [SQLITE_OK; SQLITE_ROW]) = None).
Proof.
  split.
  - destruct (@Exec_returns_iff_done _ toy_api (toy_open [SQLITE_OK; SQLITE_DONE]) 0%nat [66] [] (Some 1%nat) ([SQLITE_DONE], []) SQLITE_DONE ([], [])
      ltac:(reflexivity) ltac:(vm_compute; reflexivity) ltac:(discriminate) ltac:(reflexivity) ltac:(reflexivity)) as [H _].
    destruct (H eq_refl 0%nat) as (s' & E & _). by exists s'.
  - refine (proj2 (@Exec_returns_iff_done _ toy_api (toy_open [SQLITE_OK; SQLITE_ROW]) 0%nat [66] [] (Some 1%nat) ([SQLITE_ROW], []) SQLITE_ROW ([], [])
      ltac:(reflexivity) ltac:(vm_compute; reflexivity) ltac:(discriminate) ltac:(reflexivity) ltac:(reflexivity)) _ _).
    + discriminate.
    + intros _. eexists _, _. split; reflexivity.
Defined.

Lemma failed_command_poisons_witness :
  exists s', @Begin _ toy_api (toy_open [5]) = Done ((false, [101]), s') /\ @Close _ toy_api s' = UB.
Proof.
  eexists. split; [vm_compute; reflexivity|].
  refine (proj1 (proj2 (@failed_command_poisons _ toy_api (toy_open [5]) 0%nat [66; 69; 71; 73; 78] [101] _
    ltac:(reflexivity) ltac:(vm_compute; reflexivity) ltac:(discriminate)))).
Defined.
