(* ===== verification/OsFile.v ===== *)
(** * OsFile: files (sqlite3.c, os.c and memdb.c)

    The interface [OsFile] is what the rest of the program asks of a file: the methods of
    [sqlite3_io_methods], with [os_data] the content of the file.  [OsFileLaws] is what it
    relies on: a call that answers SQLITE_OK has done its work, and one that answers an
    error has left the file as it is, but for a write, which may have been carried out in
    part.

    Two kinds of files implement it: [FaultyFile], a file whose calls fail as a list of
    answers says, and the in-memory file of memdb.c, [MemStore]. *)

From S2P Require Import Prelude CType ByteMem.

Definition SQLITE_OK : Z := 0.
Definition SQLITE_ERROR : Z := 1.
Definition SQLITE_BUSY : Z := 5.
Definition SQLITE_NOMEM : Z := 7.
Definition SQLITE_READONLY : Z := 8.
Definition SQLITE_INTERRUPT : Z := 9.
Definition SQLITE_IOERR : Z := 10.
Definition SQLITE_CORRUPT : Z := 11.
Definition SQLITE_FULL : Z := 13.
Definition SQLITE_CANTOPEN : Z := 14.
Definition SQLITE_IOERR_SHORT_READ : Z := SQLITE_IOERR .| (2 << 8).
Definition SQLITE_IOERR_WRITE : Z := SQLITE_IOERR .| (3 << 8).
Definition SQLITE_IOERR_NOMEM : Z := SQLITE_IOERR .| (12 << 8).

Class OsFile (F : Type) := {
  os_data : F -> bytes;
  sqlite3OsRead : F -> Z -> Z -> Z * bytes * F;        (* amount, offset *)
  sqlite3OsWrite : F -> bytes -> Z -> Z * F;
  sqlite3OsTruncate : F -> Z -> Z * F;
  sqlite3OsSync : F -> Z -> Z * F;
  sqlite3OsFileSize : F -> Z * Z * F
}.

(** ** The content of a file *)

(** [n] bytes of [d] from [off] on. *)
Definition sub (d : bytes) (off n : Z) : bytes := take (Z.to_nat n) (drop (Z.to_nat off) d).

(** [b] written at [off]; a gap before it is filled with zeros. *)
Definition write_at (d : bytes) (off : Z) (b : bytes) : bytes :=
  take (Z.to_nat off) (d ++ replicate (Z.to_nat (off - len d)) 0) ++ b ++ drop (Z.to_nat off + length b) d.

Definition resize (d : bytes) (sz : Z) : bytes := take (Z.to_nat sz) d ++ replicate (Z.to_nat (sz - len d)) 0.

(** A call answering an error may have written the first bytes. *)
Definition write_result (d d' : bytes) (off : Z) (b : bytes) (rc : Z) : Prop :=
  if rc =? SQLITE_OK then d' = write_at d off b
  else d' = d \/ exists k, (0 < k <= length b)%nat /\ d' = write_at d off (take k b).

(** [os_ok]: the representation is in order; [os_fine f n]: no call on [f] fails as long as
    the file stays within [n] bytes. *)
Class OsFileLaws (F : Type) `{OsFile F} := {
  os_ok : F -> Prop;
  os_fine : F -> Z -> Prop;
  os_bytes f : os_ok f -> bytes_ok (os_data f);
  os_read f amt off : os_ok f -> 0 <= amt -> 0 <= off -> off + amt < 2 ^ 62 -> exists rc b f', sqlite3OsRead f amt off = (rc, b, f') /\ os_ok f' /\
    os_data f' = os_data f /\ len b = amt /\ bytes_ok b /\
    (rc = SQLITE_OK -> off + amt <= len (os_data f) /\ b = sub (os_data f) off amt) /\
    (forall n, os_fine f n -> os_fine f' n /\ (off + amt <= len (os_data f) -> rc = SQLITE_OK));
  os_write f b off : os_ok f -> 0 <= off -> off + len b < 2 ^ 62 -> bytes_ok b -> b <> [] -> exists rc f', sqlite3OsWrite f b off = (rc, f') /\ os_ok f' /\
    write_result (os_data f) (os_data f') off b rc /\
    (forall n, os_fine f n -> off + len b <= n -> rc = SQLITE_OK /\ os_fine f' n);
  os_truncate f sz : os_ok f -> 0 <= sz -> exists rc f', sqlite3OsTruncate f sz = (rc, f') /\ os_ok f' /\
    os_data f' = (if rc =? SQLITE_OK then resize (os_data f) sz else os_data f) /\
    (forall n, os_fine f n -> os_fine f' n /\ (sz <= len (os_data f) -> rc = SQLITE_OK));
  os_sync f flags : os_ok f -> exists rc f', sqlite3OsSync f flags = (rc, f') /\ os_ok f' /\ os_data f' = os_data f /\
    (forall n, os_fine f n -> rc = SQLITE_OK /\ os_fine f' n);
  os_size f : os_ok f -> exists rc sz f', sqlite3OsFileSize f = (rc, sz, f') /\ os_ok f' /\ os_data f' = os_data f /\
    (rc = SQLITE_OK -> sz = len (os_data f)) /\ (forall n, os_fine f n -> rc = SQLITE_OK /\ os_fine f' n)
}.

(** ** A file with the answers of its calls

    An answer is a code and, for a write that fails, the number of bytes written.  When the
    list is exhausted every call succeeds. *)

Record FaultyFile := mk_file { ff_data : bytes; ff_answers : list (Z * nat) }.

Definition next_answer (f : FaultyFile) : Z * nat * list (Z * nat) :=
  match ff_answers f with [] => (SQLITE_OK, 0%nat, []) | (rc, k) :: l => (rc, k, l) end.

#[export] Instance FaultyFile_OsFile : OsFile FaultyFile := {
  os_data := ff_data;
  sqlite3OsRead f amt off :=
    let '(rc, _, l) := next_answer f in
    let zeros := replicate (Z.to_nat amt) 0 in
    if negb (rc =? SQLITE_OK) then (rc, zeros, mk_file (ff_data f) l)
    else if len (ff_data f) <? off + amt then (SQLITE_IOERR_SHORT_READ, zeros, mk_file (ff_data f) l)
    else (SQLITE_OK, sub (ff_data f) off amt, mk_file (ff_data f) l);
  sqlite3OsWrite f b off :=
    let '(rc, k, l) := next_answer f in
    (rc, mk_file (if rc =? SQLITE_OK then write_at (ff_data f) off b
                  else if bool_decide (0 < k <= length b)%nat then write_at (ff_data f) off (take k b) else ff_data f) l);
  sqlite3OsTruncate f sz :=
    let '(rc, _, l) := next_answer f in
    (rc, mk_file (if rc =? SQLITE_OK then resize (ff_data f) sz else ff_data f) l);
  sqlite3OsSync f flags := let '(rc, _, l) := next_answer f in (rc, mk_file (ff_data f) l);
  sqlite3OsFileSize f := let '(rc, _, l) := next_answer f in (rc, len (ff_data f), mk_file (ff_data f) l)
}.

(** * Lemmas on contents *)

Lemma sub_length d off n : 0 <= off -> 0 <= n -> off + n <= len d -> len (sub d off n) = n.
Proof. intros. unfold sub. rewrite length_take, length_drop. lia. Qed.

Lemma sub_ok d off n : bytes_ok d -> bytes_ok (sub d off n).
Proof. intros. by apply Forall_take, Forall_drop. Qed.

Lemma write_at_ok d off b : bytes_ok d -> bytes_ok b -> bytes_ok (write_at d off b).
Proof.
  intros. apply Forall_app. split; [apply Forall_take, Forall_app; split; [done|by apply Forall_replicate]|].
  apply Forall_app. split; [done|by apply Forall_drop].
Qed.

Lemma write_at_length d off b : 0 <= off -> len (write_at d off b) = Z.max (off + len b) (len d).
Proof. intros. unfold write_at. rewrite !length_app, length_take, length_app, length_replicate, length_drop. lia. Qed.

Lemma resize_ok d sz : bytes_ok d -> bytes_ok (resize d sz).
Proof. intros. apply Forall_app. split; [by apply Forall_take|by apply Forall_replicate]. Qed.

Lemma resize_length d sz : 0 <= sz -> len (resize d sz) = sz.
Proof. intros. unfold resize. rewrite length_app, length_take, length_replicate. lia. Qed.

Lemma ld_zeros n j : (replicate n 0).[j] = 0.
Proof. unfold ld. rewrite nth_lookup. destruct (replicate n 0 !! Z.to_nat j) eqn:E; [|done]. by apply lookup_replicate in E as [-> _]. Qed.

(** A content as a function of the offset; beyond its end it reads as zero. *)
Lemma ld_sub d off n j : 0 <= off -> 0 <= j < n -> (sub d off n).[j] = d.[off + j].
Proof. intros. unfold sub. rewrite ld_take by lia. by rewrite ld_drop by lia. Qed.

Lemma ld_write_at d off b j : 0 <= off -> 0 <= j -> (write_at d off b).[j] = if decide (off <= j < off + len b) then b.[j - off] else d.[j].
Proof.
  intros Ho Hj. unfold write_at.
  assert (len (take (Z.to_nat off) (d ++ replicate (Z.to_nat (off - len d)) 0)) = off) as El by (rewrite length_take, length_app, length_replicate; lia).
  rewrite ld_app, El by done. destruct (Z.ltb_spec j off) as [Hlt|Hge].
  - rewrite decide_False by lia. rewrite ld_take by lia. rewrite ld_app by lia. destruct (Z.ltb_spec j (len d)); [done|]. by rewrite ld_zeros, ld_beyond by lia.
  - rewrite ld_app by lia. destruct (Z.ltb_spec (j - off) (len b)); [by rewrite decide_True by lia|]. rewrite decide_False by lia.
    replace (Z.to_nat off + length b)%nat with (Z.to_nat (off + len b)) by lia. rewrite ld_drop by lia. f_equal. lia.
Qed.

Lemma bytes_ext (a b : bytes) : length a = length b -> (forall j, 0 <= j < len a -> a.[j] = b.[j]) -> a = b.
Proof.
  intros El H. apply list_eq. intros i. destruct (Nat.lt_ge_cases i (length a)) as [Hi|Hi].
  - specialize (H (Z.of_nat i) ltac:(lia)). unfold ld in H. rewrite !nth_lookup, Nat2Z.id in H.
    destruct (lookup_lt_is_Some_2 a i Hi) as [x Hx], (lookup_lt_is_Some_2 b i ltac:(lia)) as [y Hy]. rewrite Hx, Hy in *. cbn in H. congruence.
  - by rewrite !lookup_ge_None_2 by lia.
Qed.

(** Reading back, and reading next to a write. *)
Lemma sub_write_same d off b : 0 <= off -> sub (write_at d off b) off (len b) = b.
Proof.
  intros Ho. pose proof (write_at_length d off b Ho). pose proof (sub_length (write_at d off b) off (len b) Ho ltac:(lia) ltac:(lia)) as L. apply bytes_ext; [lia|].
  intros j Hj. rewrite ld_sub, ld_write_at by lia. rewrite decide_True by lia. f_equal. lia.
Qed.

Lemma sub_write_other d off b o n : 0 <= off -> 0 <= o -> 0 <= n -> o + n <= len d -> o + n <= off \/ off + len b <= o ->
  sub (write_at d off b) o n = sub d o n.
Proof.
  intros. pose proof (write_at_length d off b ltac:(lia)). apply bytes_ext; [apply Nat2Z.inj; rewrite !sub_length by lia; done|].
  intros j Hj. rewrite sub_length in Hj by lia. rewrite !ld_sub, ld_write_at by lia. by rewrite decide_False by lia.
Qed.

#[export] Program Instance FaultyFile_laws : OsFileLaws FaultyFile := {
  os_ok f := bytes_ok (ff_data f);
  os_fine f n := ff_answers f = []
}.
Next Obligation. done. Qed.
Next Obligation.
  intros [d l] amt off Hok Ha Ho _. cbn in *. assert (len (replicate (Z.to_nat amt) 0) = amt) as Lz by (rewrite length_replicate; lia).
  assert (bytes_ok (replicate (Z.to_nat amt) 0)) as Bz by by apply Forall_replicate.
  unfold next_answer. cbn. destruct l as [|[rc k] l]; cbn.
  - destruct (Z.ltb_spec (len d) (off + amt)) as [Hlt|Hge].
    + eexists _, _, _. split; [done|]. cbn. split_and!; try done. intros _ _. split; [done|lia].
    + eexists _, _, _. split; [done|]. cbn. split_and!; try done; [by apply sub_length; lia|by apply sub_ok].
  - destruct (Z.eqb_spec rc SQLITE_OK) as [->|Hrc]; cbn [negb]; [destruct (Z.ltb_spec (len d) (off + amt)) as [Hlt|Hge]|].
    all: eexists _, _, _; split; [done|]; cbn; split_and!; try done.
    + by apply sub_length; lia.
    + by apply sub_ok.
Qed.
Next Obligation.
  intros [d l] b off Hok Ho _ Hb Hne. cbn in *. unfold next_answer, write_result. cbn. destruct l as [|[rc k] l]; cbn.
  - eexists _, _. split; [done|]. cbn. split; [by apply write_at_ok|]. done.
  - eexists _, _. split; [done|]. cbn. destruct (Z.eqb_spec rc SQLITE_OK) as [->|Hrc].
    + split; [by apply write_at_ok|]. done.
    + case_bool_decide as Hk; (split; [|split; [|done]]); [apply write_at_ok; [done|by apply Forall_take]| |done|by left].
      right. by exists k.
Qed.
Next Obligation.
  intros [d l] sz Hok Hsz. cbn in *. unfold next_answer. cbn. destruct l as [|[rc k] l]; cbn; (eexists _, _; split; [done|]; cbn); [by split; [apply resize_ok|]|].
  destruct (rc =? SQLITE_OK); (split; [|done]); [by apply resize_ok|done].
Qed.
Next Obligation. intros [d l] flags Hok. cbn in *. unfold next_answer. cbn. by destruct l as [|[rc k] l]; cbn; (eexists _, _; split; [done|]; cbn). Qed.
Next Obligation. intros [d l] Hok. cbn in *. unfold next_answer. cbn. by destruct l as [|[rc k] l]; cbn; (eexists _, _, _; split; [done|]; cbn). Qed.

(** ** Writes in a row *)

Lemma write_at_app d off a b : 0 <= off -> write_at (write_at d off a) (off + len a) b = write_at d off (a ++ b).
Proof.
  intros Ho. pose proof (write_at_length d off a Ho) as L1. pose proof (write_at_length (write_at d off a) (off + len a) b ltac:(lia)) as L2.
  pose proof (write_at_length d off (a ++ b) Ho) as L3. rewrite length_app in L3. apply bytes_ext; [lia|].
  intros j Hj. rewrite !ld_write_at by lia. rewrite length_app. repeat case_decide; try lia.
  - rewrite ld_app_r by lia. f_equal. lia.
  - by rewrite ld_app_l by lia.
Qed.

Lemma write_result_app d d1 d2 off a b rc : 0 <= off -> a <> [] -> write_result d d1 off a SQLITE_OK -> write_result d1 d2 (off + len a) b rc ->
  write_result d d2 off (a ++ b) rc.
Proof.
  intros Ho Ha H1 H2. unfold write_result in *. cbn in H1. subst d1. destruct (rc =? SQLITE_OK).
  - subst d2. by apply write_at_app.
  - right. destruct H2 as [->|(k & Hk & ->)].
    + exists (length a). rewrite take_app_length, length_app. destruct a; [done|]. split; [cbn; lia|done].
    + exists (length a + k)%nat. rewrite length_app. split; [lia|]. rewrite write_at_app by done. f_equal. by rewrite take_app_add.
Qed.

Lemma write_result_more d d1 off a b rc : rc <> SQLITE_OK -> write_result d d1 off a rc -> write_result d d1 off (a ++ b) rc.
Proof.
  intros Hrc H. unfold write_result in *. rewrite (proj2 (Z.eqb_neq _ _) Hrc) in *. destruct H as [->|(k & Hk & ->)]; [by left|right].
  exists k. rewrite length_app. split; [lia|]. by rewrite take_app_le by lia.
Qed.

Lemma write_result_ok d d1 off a rc : bytes_ok d -> bytes_ok a -> write_result d d1 off a rc -> bytes_ok d1.
Proof.
  intros Hd Ha H. unfold write_result in H. destruct (rc =? SQLITE_OK); [subst; by apply write_at_ok|].
  destruct H as [->|(k & _ & ->)]; [done|]. apply write_at_ok; [done|by apply Forall_take].
Qed.
