(* ===== verification/Memdb.v ===== *)
(** * Memdb: files in memory (sqlite3.c, memdb.c)

    A [MemStore] is a file whose content is a block of memory; several open files share a
    store that has a name.  The operations on one store come first, with the proof that a
    store is a file in the sense of [OsFileLaws]; then the locks, and the registry of the
    named stores with [memdbOpen] and [memdbClose].

    The answers of [sqlite3Realloc] are part of the store: [None] is a failure, [Some g]
    gives new memory that holds [g].  An access outside the block is [UB]. *)

From S2P Require Import Prelude CType ByteMem OsFile.

Definition SQLITE_DESERIALIZE_FREEONCLOSE : Z := 1.
Definition SQLITE_DESERIALIZE_RESIZEABLE : Z := 2.
Definition SQLITE_DESERIALIZE_READONLY : Z := 4.

Record MemStore := mk_store {
  sz : Z;
  szAlloc : Z;
  szMax : Z;
  aData : bytes;
  nMmap : Z;
  mFlags : Z;
  nRdLock : Z;
  nWrLock : Z;
  nRef : Z;
  zFName : option bytes;
  m_realloc : list (option bytes)
}.

Definition with_content (p : MemStore) (sz' : Z) (data : bytes) : MemStore :=
  mk_store sz' (szAlloc p) (szMax p) data (nMmap p) (mFlags p) (nRdLock p) (nWrLock p) (nRef p) (zFName p) (m_realloc p).

(** ** Reading and writing *)

Definition memdbRead (p : MemStore) (iAmt iOfst : Z) : outcome (Z * bytes * MemStore) :=
  if sz p <? iOfst + iAmt then
    zBuf ← memset (replicate (Z.to_nat iAmt) 0) 0 0 iAmt;
    zBuf ← (if iOfst <? sz p then memcpy zBuf 0 (aData p) iOfst (sz p - iOfst) else Done zBuf);
    Done (SQLITE_IOERR_SHORT_READ, zBuf, p)
  else
    zBuf ← memcpy (replicate (Z.to_nat iAmt) 0) 0 (aData p) iOfst iAmt;
    Done (SQLITE_OK, zBuf, p).

(** [sqlite3Realloc]: the old bytes, and behind them what the new memory holds.  It never
    gives 2 GB. *)
Definition sqlite3Realloc (p : MemStore) (newSz : Z) : option bytes * list (option bytes) :=
  if 0x7fffff00 <=? newSz then (None, m_realloc p) else
  let '(a, l) := match m_realloc p with [] => (Some [], []) | a :: l => (a, l) end in
  (g ← a; Some (take (Z.to_nat newSz) (aData p ++ map u8 g ++ replicate (Z.to_nat newSz) 0)), l).

Definition memdbEnlarge (p : MemStore) (newSz : Z) : outcome (Z * MemStore) :=
  if (mFlags p .& SQLITE_DESERIALIZE_RESIZEABLE =? 0) || (0 <? nMmap p) then Done (SQLITE_FULL, p)
  else if szMax p <? newSz then Done (SQLITE_FULL, p)
  else if LARGEST_INT64 <? newSz * 2 then UB
  else
    let newSz := newSz * 2 in
    let newSz := if szMax p <? newSz then szMax p else newSz in
    let '(pNew, l) := sqlite3Realloc p newSz in
    let set alloc data := mk_store (sz p) alloc (szMax p) data (nMmap p) (mFlags p) (nRdLock p) (nWrLock p) (nRef p) (zFName p) l in
    match pNew with
    | None => Done (SQLITE_IOERR_NOMEM, set (szAlloc p) (aData p))
    | Some pNew => Done (SQLITE_OK, set newSz pNew)
    end.

Definition memdbWrite (p : MemStore) (z : bytes) (iOfst : Z) : outcome (Z * MemStore) :=
  let iAmt := len z in
  if negb (mFlags p .& SQLITE_DESERIALIZE_READONLY =? 0) then Done (SQLITE_IOERR_WRITE, p)
  else
    '(rc, p) ← (if sz p <? iOfst + iAmt then
                  '(rc, p) ← (if szAlloc p <? iOfst + iAmt then memdbEnlarge p (iOfst + iAmt) else Done (SQLITE_OK, p));
                  if negb (rc =? SQLITE_OK) then Done (rc, p)
                  else
                    data ← (if sz p <? iOfst then memset (aData p) (sz p) 0 (iOfst - sz p) else Done (aData p));
                    Done (SQLITE_OK, with_content p (iOfst + iAmt) data)
                else Done (SQLITE_OK, p));
    if negb (rc =? SQLITE_OK) then Done (rc, p)
    else data ← memcpy (aData p) iOfst z 0 iAmt; Done (SQLITE_OK, with_content p (sz p) data).

Definition memdbTruncate (p : MemStore) (size : Z) : Z * MemStore :=
  if sz p <? size then (SQLITE_CORRUPT, p) else (SQLITE_OK, with_content p size (aData p)).

Definition memdbSync (p : MemStore) (flags : Z) : Z * MemStore := (SQLITE_OK, p).

Definition memdbFileSize (p : MemStore) : Z * Z * MemStore := (SQLITE_OK, sz p, p).

(** [SQLITE_FCNTL_SIZE_LIMIT] of [memdbFileControl]: the new limit is given back. *)
Definition memdb_size_limit (p : MemStore) (iLimit : Z) : Z * MemStore :=
  let iLimit := if iLimit <? sz p then (if iLimit <? 0 then szMax p else sz p) else iLimit in
  (iLimit, mk_store (sz p) (szAlloc p) iLimit (aData p) (nMmap p) (mFlags p) (nRdLock p) (nWrLock p) (nRef p) (zFName p) (m_realloc p)).

Definition with_mmap (p : MemStore) (n : Z) : MemStore :=
  mk_store (sz p) (szAlloc p) (szMax p) (aData p) n (mFlags p) (nRdLock p) (nWrLock p) (nRef p) (zFName p) (m_realloc p).

(** A pointer into the content, as its offset. *)
Definition memdbFetch (p : MemStore) (iOfst iAmt : Z) : option Z * MemStore :=
  if (sz p <? iOfst + iAmt) || negb (mFlags p .& SQLITE_DESERIALIZE_RESIZEABLE =? 0) then (None, p)
  else (Some iOfst, with_mmap p (nMmap p + 1)).

Definition memdbUnfetch (p : MemStore) : MemStore := with_mmap p (nMmap p - 1).

(** ** A store is a file *)

Definition done_or {A} (o : outcome A) (d : A) : A := match o with Done a => a | _ => d end.

#[export] Instance MemStore_OsFile : OsFile MemStore := {
  os_data p := take (Z.to_nat (sz p)) (aData p);
  sqlite3OsRead p amt off := done_or (memdbRead p amt off) (SQLITE_IOERR, [], p);
  sqlite3OsWrite p b off := done_or (memdbWrite p b off) (SQLITE_IOERR, p);
  sqlite3OsTruncate := memdbTruncate;
  sqlite3OsSync := memdbSync;
  sqlite3OsFileSize := memdbFileSize
}.

Record store_ok (p : MemStore) : Prop := {
  so_sz : 0 <= sz p <= szAlloc p;
  so_alloc : len (aData p) = szAlloc p;
  so_bytes : bytes_ok (aData p);
  so_max : szMax p <= 2 ^ 62
}.

Lemma blk_read_sub d off n : 0 <= off -> 0 <= n -> off + n <= len d -> blk_read d off n = Some (sub d off n).
Proof. intros. rewrite blk_read_Some by lia. done. Qed.

Lemma memcpy_into d p s q n : 0 <= p -> 0 <= q -> 0 <= n -> q + n <= len s -> p + n <= len d ->
  memcpy d p s q n = Done (write_at d p (sub s q n)).
Proof.
  intros. unfold memcpy. rewrite blk_read_sub by lia. pose proof (sub_length s q n ltac:(lia) ltac:(lia) ltac:(lia)).
  rewrite blk_write_Some by lia. unfold write_at. rewrite take_app_le by lia. done.
Qed.

Lemma sub_all b : sub b 0 (len b) = b.
Proof. unfold sub. rewrite drop_0. apply take_ge. lia. Qed.

Lemma memdbRead_ok p amt off : store_ok p -> 0 <= amt -> 0 <= off -> exists rc b,
  memdbRead p amt off = Done (rc, b, p) /\ len b = amt /\ bytes_ok b /\
  (if off + amt <=? sz p then rc = SQLITE_OK /\ b = sub (os_data p) off amt else rc = SQLITE_IOERR_SHORT_READ).
Proof.
  intros [Hsz Hal Hb Hmax] Ha Ho. unfold memdbRead. assert (len (replicate (Z.to_nat amt) 0) = amt) as Lz by (rewrite length_replicate; lia).
  assert (bytes_ok (replicate (Z.to_nat amt) 0)) as Bz by by apply Forall_replicate.
  destruct (Z.ltb_spec (sz p) (off + amt)) as [Hlt|Hge].
  - rewrite (proj2 (Z.leb_gt _ _)) by lia. destruct (memset_ok _ 0 0 amt Bz ltac:(done) ltac:(lia) ltac:(lia) ltac:(lia)) as (z & -> & Lz' & Bz' & _). cbn [mbind outcome_bind].
    destruct (Z.ltb_spec off (sz p)) as [Ho'|Ho'].
    + rewrite memcpy_into by lia. cbn [mbind outcome_bind]. pose proof (sub_length (aData p) off (sz p - off) ltac:(lia) ltac:(lia) ltac:(lia)).
      eexists _, _. split; [done|]. rewrite write_at_length by lia. split; [lia|]. split; [|done]. apply write_at_ok; [done|by apply sub_ok].
    + cbn [mbind outcome_bind]. eexists _, _. split; [done|]. split; [lia|done].
  - rewrite (proj2 (Z.leb_le _ _)) by lia. rewrite memcpy_into by lia. cbn [mbind outcome_bind].
    pose proof (sub_length (aData p) off amt ltac:(lia) ltac:(lia) ltac:(lia)) as Ls.
    assert (write_at (replicate (Z.to_nat amt) 0) 0 (sub (aData p) off amt) = sub (aData p) off amt) as ->.
    { unfold write_at. rewrite take_0, drop_ge by (rewrite length_replicate; lia). by rewrite app_nil_r. }
    eexists _, _. split; [done|]. split; [done|]. split; [by apply sub_ok|]. split; [done|]. cbn. unfold sub.
    apply bytes_ext.
    + rewrite !length_take, !length_drop, length_take. lia.
    + intros j Hj. rewrite length_take, length_drop in Hj. rewrite !ld_take by lia. rewrite !ld_drop by lia. by rewrite ld_take by lia.
Qed.

(** Enlarging keeps the content; it fails only for a file that must not grow, for its limit
    or for lack of memory. *)
Lemma memdbEnlarge_ok p n : store_ok p -> szAlloc p < n < 2 ^ 62 -> exists rc p', memdbEnlarge p n = Done (rc, p') /\ store_ok p' /\
  sz p' = sz p /\ szMax p' = szMax p /\ mFlags p' = mFlags p /\ nMmap p' = nMmap p /\ os_data p' = os_data p /\ (rc = SQLITE_OK -> n <= szAlloc p') /\
  (mFlags p .& SQLITE_DESERIALIZE_RESIZEABLE <> 0 -> nMmap p <= 0 -> n <= szMax p < 0x7fffff00 -> m_realloc p = [] -> rc = SQLITE_OK /\ m_realloc p' = []).
Proof.
  intros Hok Hn. pose proof Hok as [Hsz Hal Hb Hmax]. unfold memdbEnlarge.
  destruct (Z.eqb_spec (mFlags p .& SQLITE_DESERIALIZE_RESIZEABLE) 0) as [Hf|Hf]; cbn [orb].
  { eexists _, _. split; [done|]. split; [done|]. by split_and!. }
  destruct (Z.ltb_spec 0 (nMmap p)).
  { eexists _, _. split; [done|]. split; [done|]. split_and!; try done. lia. }
  destruct (Z.ltb_spec (szMax p) n).
  { eexists _, _. split; [done|]. split; [done|]. split_and!; try done. lia. }
  destruct (Z.ltb_spec LARGEST_INT64 (n * 2)); [unfold LARGEST_INT64 in *; lia|].
  set (m := if szMax p <? n * 2 then _ else _). assert (n <= m <= szMax p) as Hm by (unfold m; destruct (Z.ltb_spec (szMax p) (n * 2)); lia).
  unfold sqlite3Realloc. destruct (Z.leb_spec 0x7fffff00 m) as [Hbig|Hbig].
  { eexists _, _. split; [done|]. split; [by split|]. cbn. split_and!; done || lia. }
  destruct (m_realloc p) as [|[g|] l] eqn:El; cbn [mbind option_bind].
  3: { eexists _, _. split; [done|]. split; [by split|]. cbn. by split_and!. }
  1: set (g := @nil Z). all: set (data := take (Z.to_nat m) _).
  all: assert (len data = m) as Ld by (unfold data; rewrite length_take, !length_app, length_replicate; lia).
  all: eexists _, _; split; [done|]; split; [split; cbn; try done; [lia|]|].
  1, 3: apply Forall_take, Forall_app; split; [done|]; apply Forall_app; split; [|by apply Forall_replicate]; apply Forall_map, Forall_forall; intros; apply u8_range.
  all: cbn; split_and!; try done; try lia.
  all: unfold data; rewrite take_take; rewrite take_app_le by lia; f_equal; lia.
Qed.

Lemma os_data_length p : store_ok p -> len (os_data p) = sz p.
Proof. intros []. cbn. rewrite length_take. lia. Qed.

(** The content after a write within the allocated space. *)
Lemma content_write p z off : store_ok p -> 0 <= off -> 0 < len z -> off + len z <= szAlloc p ->
  let sz' := Z.max (sz p) (off + len z) in
  forall data, len data = szAlloc p -> (forall j, 0 <= j -> data.[j] = if decide (sz p <= j < off) then 0 else (aData p).[j]) ->
  take (Z.to_nat sz') (write_at data off z) = write_at (os_data p) off z.
Proof.
  intros [Hsz Hal Hb Hmax] Ho Hz Hoz sz' data Ld Hd. pose proof (write_at_length data off z Ho). pose proof (write_at_length (os_data p) off z Ho) as Lw.
  assert (len (os_data p) = sz p) as Lp by (cbn; rewrite length_take; lia). unfold sz'.
  apply bytes_ext; [apply Nat2Z.inj; rewrite length_take; lia|]. intros j Hj. rewrite length_take in Hj. rewrite ld_take by lia.
  rewrite !ld_write_at by lia. case_decide; [done|]. rewrite Hd by lia. change (os_data p) with (take (Z.to_nat (sz p)) (aData p)). case_decide as Hg.
  - by rewrite ld_beyond by (rewrite length_take; lia).
  - by rewrite ld_take by lia.
Qed.

(** The gap before a write behind the end is zeroed. *)
Lemma zero_gap p off : store_ok p -> off <= szAlloc p ->
  exists data, (if sz p <? off then memset (aData p) (sz p) 0 (off - sz p) else Done (aData p)) = Done data /\ len data = szAlloc p /\ bytes_ok data /\
    (forall j, 0 <= j -> data.[j] = if decide (sz p <= j < off) then 0 else (aData p).[j]).
Proof.
  intros [Hsz Hal Hb Hmax] Hoff. destruct (Z.ltb_spec (sz p) off).
  - unfold memset. rewrite (proj2 (Z.ltb_ge _ _)) by lia. pose proof (length_replicate (Z.to_nat (off - sz p)) 0) as Lr.
    rewrite blk_write_Some by lia. pose proof (write_at_length (aData p) (sz p) (replicate (Z.to_nat (off - sz p)) 0) ltac:(lia)) as Lw.
    rewrite <- (take_app_le (aData p) (replicate (Z.to_nat (sz p - len (aData p))) 0)) by lia. fold (write_at (aData p) (sz p) (replicate (Z.to_nat (off - sz p)) 0)).
    eexists. split; [done|]. split; [lia|]. split; [by apply write_at_ok; [|apply Forall_replicate]|]. intros j Hj. rewrite ld_write_at by lia.
    repeat case_decide; try lia; done || apply ld_zeros.
  - eexists. split; [done|]. split; [done|]. split; [done|]. intros j Hj. by rewrite decide_False by lia.
Qed.

Lemma memdbWrite_ok p z off : store_ok p -> 0 <= off -> off + len z < 2 ^ 62 -> bytes_ok z -> z <> [] -> exists rc p',
  memdbWrite p z off = Done (rc, p') /\ store_ok p' /\ szMax p' = szMax p /\ mFlags p' = mFlags p /\ nMmap p' = nMmap p /\
  os_data p' = (if rc =? SQLITE_OK then write_at (os_data p) off z else os_data p) /\
  (mFlags p .& SQLITE_DESERIALIZE_READONLY = 0 -> mFlags p .& SQLITE_DESERIALIZE_RESIZEABLE <> 0 -> nMmap p <= 0 -> off + len z <= szMax p < 0x7fffff00 -> m_realloc p = [] ->
     rc = SQLITE_OK /\ m_realloc p' = []).
Proof.
  intros Hok Ho Hlim Hbz Hne. assert (0 < len z) as Hz by (destruct z; [done|cbn; lia]). unfold memdbWrite.
  destruct (Z.eqb_spec (mFlags p .& SQLITE_DESERIALIZE_READONLY) 0) as [Hro|Hro]; cbn [negb].
  2: { exists SQLITE_IOERR_WRITE, p. by split_and!. }
  assert (exists rc p1, (if szAlloc p <? off + len z then memdbEnlarge p (off + len z) else Done (SQLITE_OK, p)) = Done (rc, p1) /\ store_ok p1 /\
    sz p1 = sz p /\ szMax p1 = szMax p /\ mFlags p1 = mFlags p /\ nMmap p1 = nMmap p /\ os_data p1 = os_data p /\ (rc = SQLITE_OK -> off + len z <= szAlloc p1) /\
    (mFlags p .& SQLITE_DESERIALIZE_RESIZEABLE <> 0 -> nMmap p <= 0 -> off + len z <= szMax p < 0x7fffff00 -> m_realloc p = [] -> rc = SQLITE_OK /\ m_realloc p1 = []))
    as (rc & p1 & Een & Hok1 & E1 & E2 & E3 & E4 & E5 & Hroom & Hgood).
  { destruct (Z.ltb_spec (szAlloc p) (off + len z)); [by apply memdbEnlarge_ok|]. exists SQLITE_OK, p. by split_and!. }
  pose proof Hok as [Hsz Hal _ _]. destruct (Z.ltb_spec (sz p) (off + len z)) as [Hgrow|Hin].
  - rewrite Een. cbn [mbind outcome_bind]. destruct (Z.eqb_spec rc SQLITE_OK) as [->|Hrc]; cbn [negb mbind outcome_bind].
    2: { rewrite (proj2 (Z.eqb_neq _ _) Hrc). cbn [negb]. exists rc, p1. rewrite (proj2 (Z.eqb_neq _ _) Hrc). by split_and!. }
    specialize (Hroom eq_refl). pose proof Hok1 as [Hsz1 Hal1 Hb1 Hmax1].
    destruct (zero_gap p1 off Hok1 ltac:(lia)) as (data & -> & Ld & Bd & Hd).
    cbn [mbind outcome_bind negb Z.eqb SQLITE_OK]. cbn [aData with_content sz]. rewrite memcpy_into by lia. rewrite sub_all. cbn [mbind outcome_bind].
    pose proof (write_at_length data off z Ho). eexists _, _. split; [done|]. split; [split; cbn; try lia; by apply write_at_ok|].
    split; [done|]. split; [done|]. split; [done|]. split; [|intros _ Hr Hm Hx Hl; by destruct (Hgood Hr Hm Hx Hl)].
    rewrite <- E5. pose proof (content_write p1 z off Hok1 Ho Hz Hroom data Ld Hd) as C. cbn in C |- *. rewrite <- C. do 2 f_equal. lia.
  - cbn [mbind outcome_bind negb Z.eqb SQLITE_OK]. rewrite memcpy_into by lia. rewrite sub_all. cbn [mbind outcome_bind].
    pose proof (write_at_length (aData p) off z Ho). eexists _, _. split; [done|]. pose proof Hok as [_ _ Hb Hmax]. split; [split; cbn; try lia; by apply write_at_ok|].
    split; [done|]. split; [done|]. split; [done|]. split; [|done].
    pose proof (content_write p z off Hok Ho Hz ltac:(lia) (aData p) Hal) as C. cbn in C |- *. rewrite <- C; [do 2 f_equal; lia|]. intros j Hj. by rewrite decide_False by lia.
Qed.

#[export] Program Instance MemStore_laws : OsFileLaws MemStore := {
  os_ok := store_ok;
  os_fine p n := mFlags p .& SQLITE_DESERIALIZE_READONLY = 0 /\ mFlags p .& SQLITE_DESERIALIZE_RESIZEABLE <> 0 /\ nMmap p <= 0 /\ n <= szMax p < 0x7fffff00 /\ m_realloc p = []
}.
Next Obligation. intros p [Hsz Hal Hb Hmax]. cbn. by apply Forall_take. Qed.
Next Obligation.
  intros p amt off Hok Ha Ho _. cbn [sqlite3OsRead MemStore_OsFile]. destruct (memdbRead_ok p amt off Hok Ha Ho) as (rc & b & -> & Lb & Bb & H). cbn [done_or].
  rewrite (os_data_length p Hok). exists rc, b, p. split; [done|]. split; [done|]. split; [done|]. split; [done|]. split; [done|].
  destruct (Z.leb_spec (off + amt) (sz p)) as [Hle|Hgt]; [by destruct H as [-> ->]|]. subst rc. split; [done|]. intros n Hn. split; [done|lia].
Qed.
Next Obligation.
  intros p b off Hok Ho Hl Hb Hne. cbn [sqlite3OsWrite MemStore_OsFile]. destruct (memdbWrite_ok p b off Hok Ho Hl Hb Hne) as (rc & p' & -> & Hok' & E1 & E2 & E3 & Ed & Hg). cbn [done_or].
  exists rc, p'. split; [done|]. split; [done|]. split.
  - unfold write_result. rewrite Ed. destruct (rc =? SQLITE_OK); [done|by left].
  - intros n (F1 & F2 & F3 & F4 & F5) Hn. destruct Hg as [-> E]; try done; [lia|]. rewrite E1, E2, E3. done.
Qed.
Next Obligation.
  intros p size Hok Hsz. pose proof (os_data_length p Hok) as L. cbn [sqlite3OsTruncate MemStore_OsFile]. unfold memdbTruncate. rewrite L.
  destruct (Z.ltb_spec (sz p) size) as [Hlt|Hge].
  - exists SQLITE_CORRUPT, p. split; [done|]. split; [done|]. split; [done|]. intros n Hn. split; [done|lia].
  - pose proof Hok as [Hs Hal Hb Hmax]. eexists _, _. split; [done|]. split; [split; cbn; done || lia|]. split; [|done].
    cbn. unfold resize. rewrite take_take. rewrite (Nat.min_l) by lia. rewrite length_take. replace (Z.to_nat (size - _)) with 0%nat by lia. by rewrite app_nil_r.
Qed.
Next Obligation. intros p flags Hok. by exists SQLITE_OK, p. Qed.
Next Obligation. intros p Hok. exists SQLITE_OK, (sz p), p. rewrite (os_data_length p Hok). done. Qed.

(** ** Locks

    A connection is a [MemFile] on the store; its lock is [eLock]. *)

Definition SQLITE_LOCK_NONE : Z := 0.
Definition SQLITE_LOCK_SHARED : Z := 1.

Definition with_locks (p : MemStore) (rd wr : Z) : MemStore :=
  mk_store (sz p) (szAlloc p) (szMax p) (aData p) (nMmap p) (mFlags p) rd wr (nRef p) (zFName p) (m_realloc p).

(** The code, the store, and the lock of the connection afterwards. *)
Definition memdbLock (p : MemStore) (this_eLock eLock : Z) : Z * MemStore * Z :=
  if eLock =? this_eLock then (SQLITE_OK, p, this_eLock)
  else
    let '(rc, p) :=
      if SQLITE_LOCK_SHARED <? eLock then
        (if negb (mFlags p .& SQLITE_DESERIALIZE_READONLY =? 0) then (SQLITE_READONLY, p)
         else if this_eLock <=? SQLITE_LOCK_SHARED then
           (if negb (nWrLock p =? 0) then (SQLITE_BUSY, p) else (SQLITE_OK, with_locks p (nRdLock p) 1))
         else (SQLITE_OK, p))
      else if eLock =? SQLITE_LOCK_SHARED then
        (if SQLITE_LOCK_SHARED <? this_eLock then (SQLITE_OK, with_locks p (nRdLock p) 0)
         else if negb (nWrLock p =? 0) then (SQLITE_BUSY, p)
         else (SQLITE_OK, with_locks p (nRdLock p + 1) (nWrLock p)))
      else
        let p := if SQLITE_LOCK_SHARED <? this_eLock then with_locks p (nRdLock p) 0 else p in
        (SQLITE_OK, with_locks p (nRdLock p - 1) (nWrLock p)) in
    (rc, p, if rc =? SQLITE_OK then eLock else this_eLock).

(** The connections of one store: their locks. *)
Definition mem_lock (p : MemStore) (conns : list Z) (i : nat) (eLock : Z) : Z * MemStore * list Z :=
  match conns !! i with
  | Some this => let '(rc, p, l) := memdbLock p this eLock in (rc, p, <[i := l]> conns)
  | None => (SQLITE_OK, p, conns)
  end.

(** What the pager asks for: from no lock to a shared one, up from there, and down again. *)
Definition lock_request (this eLock : Z) : Prop := 0 <= eLock <= 4 /\ (this = SQLITE_LOCK_NONE -> eLock <= SQLITE_LOCK_SHARED).

Inductive lock_reach : MemStore -> list Z -> Prop :=
| lk_open p conns : nRdLock p = 0 -> nWrLock p = 0 -> Forall (fun l => l = SQLITE_LOCK_NONE) conns -> lock_reach p conns
| lk_step p conns i this eLock rc p' conns' : lock_reach p conns -> conns !! i = Some this -> lock_request this eLock ->
    mem_lock p conns i eLock = (rc, p', conns') -> lock_reach p' conns'.

Definition holders (lo : Z) (conns : list Z) : nat := length (filter (fun l => lo <= l) conns).

Record locks_ok (p : MemStore) (conns : list Z) : Prop := {
  lo_range : Forall (fun l => 0 <= l <= 4) conns;
  lo_readers : nRdLock p = Z.of_nat (holders 1 conns);
  lo_writers : nWrLock p = Z.of_nat (holders 2 conns);
  lo_one : nWrLock p <= 1
}.

Lemma holders_insert lo conns i this new : conns !! i = Some this ->
  Z.of_nat (holders lo (<[i := new]> conns)) = Z.of_nat (holders lo conns) + (if lo <=? new then 1 else 0) - (if lo <=? this then 1 else 0).
Proof.
  intros Hi. unfold holders. rewrite (count_insert _ _ _ this) by done. destruct (Z.leb_spec lo new), (Z.leb_spec lo this); repeat case_decide; lia.
Qed.

Lemma holders_none lo conns : 0 < lo -> Forall (fun l => l = SQLITE_LOCK_NONE) conns -> holders lo conns = 0%nat.
Proof. intros Hlo. induction 1 as [|x l -> _ IH]; [done|]. unfold holders in *. rewrite filter_cons. by rewrite decide_False by (unfold SQLITE_LOCK_NONE; lia). Qed.

Lemma memdbLock_ok p this eLock rc p' l : 0 <= this <= 4 -> lock_request this eLock -> memdbLock p this eLock = (rc, p', l) ->
  (this > SQLITE_LOCK_SHARED -> nWrLock p = 1) -> 0 <= nWrLock p <= 1 ->
  0 <= l <= 4 /\ l = (if rc =? SQLITE_OK then eLock else this) /\
  nRdLock p' = nRdLock p + (if 1 <=? l then 1 else 0) - (if 1 <=? this then 1 else 0) /\
  nWrLock p' = nWrLock p + (if 2 <=? l then 1 else 0) - (if 2 <=? this then 1 else 0) /\ nWrLock p' <= 1.
Proof.
  intros Hthis [Hreq Hup] E Hw Hw1. unfold memdbLock, SQLITE_LOCK_SHARED, SQLITE_LOCK_NONE in *.
  destruct (Z.eqb_spec eLock this) as [->|Hne]; [injection E as <- <- <-; cbn; lia|].
  repeat match type of E with
  | context [if negb (?a =? ?b) then _ else _] => destruct (Z.eqb_spec a b); cbn [negb] in E
  | context [if ?a <? ?b then _ else _] => destruct (Z.ltb_spec a b)
  | context [if ?a <=? ?b then _ else _] => destruct (Z.leb_spec a b)
  | context [if eLock =? ?b then _ else _] => destruct (Z.eqb_spec eLock b)
  end; injection E as <- <- <-; cbn; repeat match goal with |- context [?a <=? ?b] => destruct (Z.leb_spec a b) end; lia.
Qed.

Lemma lock_reach_ok p conns : lock_reach p conns -> locks_ok p conns.
Proof.
  induction 1 as [p conns Hr Hw Hn|p conns i this eLock rc p' conns' _ [Hrange Hrd Hwr Hone] Hi Hreq E].
  - split; [|by rewrite holders_none|by rewrite holders_none|lia]. eapply Forall_impl; [exact Hn|]. intros l ->. unfold SQLITE_LOCK_NONE. lia.
  - unfold mem_lock in E. rewrite Hi in E. destruct (memdbLock p this eLock) as [[rc1 p1] l] eqn:El. injection E as <- <- <-.
    pose proof (proj1 (Forall_lookup _ _) Hrange i this Hi) as Ht. cbn in Ht.
    destruct (memdbLock_ok p this eLock rc1 p1 l Ht Hreq El) as (Hl & _ & Er & Ew & H1).
    { intros Hgt. pose proof (holders_insert 2 conns i this 0 Hi) as Hh. rewrite (proj2 (Z.leb_le 2 this)) in Hh by (unfold SQLITE_LOCK_SHARED in Hgt; lia). cbn in Hh. lia. }
    { lia. }
    split; [by apply Forall_insert|by rewrite (holders_insert 1 _ _ this) by done; lia|by rewrite (holders_insert 2 _ _ this) by done; lia|done].
Qed.

(** C31. The locks of an in-memory file: whatever the connections ask for within the pager's protocol
    (a connection without a lock asks only for a shared one, [lock_request]), in any order, the store counts its readers and its writer exactly, at most one connection
    holds more than a shared lock, a second one that wants it is told SQLITE_BUSY and keeps what it has, as is a connection that asks for its shared lock meanwhile. *)
Theorem memdb_one_writer p conns : lock_reach p conns ->
  nRdLock p = Z.of_nat (holders 1 conns) /\ nWrLock p = Z.of_nat (holders 2 conns) /\ (holders 2 conns <= 1)%nat /\
  (forall i j this other eLock, conns !! i = Some this -> conns !! j = Some other -> i <> j -> SQLITE_LOCK_SHARED < other -> lock_request this eLock -> this < eLock ->
     this <= SQLITE_LOCK_SHARED /\
     mem_lock p conns i eLock = (if (SQLITE_LOCK_SHARED <? eLock) && negb (mFlags p .& SQLITE_DESERIALIZE_READONLY =? 0) then SQLITE_READONLY else SQLITE_BUSY, p, conns)).
Proof.
  intros [Hrange Hrd Hwr Hone]%lock_reach_ok. split; [done|]. split; [done|]. split; [lia|]. intros i j this other eLock Hi Hj Hne Ho Hreq Hlt.
  unfold SQLITE_LOCK_SHARED in *.
  pose proof (holders_insert 2 conns i this 0 Hi) as H1. pose proof (holders_insert 2 (<[i := 0]> conns) j other 0) as H2.
  rewrite list_lookup_insert_ne in H2 by done. specialize (H2 Hj). rewrite (proj2 (Z.leb_le 2 other)) in H2 by lia. cbn in H1, H2.
  assert (this <= 1) as Ht by (destruct (Z.leb_spec 2 this); lia). split; [done|]. rewrite (proj2 (Z.leb_gt 2 this)) in H1 by lia.
  pose proof (proj1 (Forall_lookup _ _) Hrange i this Hi) as Hr. cbn in Hr. destruct Hreq as [Hreq Hup].
  unfold mem_lock. rewrite Hi. unfold memdbLock, SQLITE_LOCK_SHARED. rewrite (proj2 (Z.eqb_neq eLock this)) by lia. rewrite (proj2 (Z.leb_le this 1)) by lia.
  rewrite (proj2 (Z.eqb_neq (nWrLock p) 0)) by lia. rewrite (proj2 (Z.ltb_ge 1 this)) by lia. cbn [negb].
  destruct (Z.ltb_spec 1 eLock); cbn [andb].
  - destruct (Z.eqb_spec (mFlags p .& SQLITE_DESERIALIZE_READONLY) 0); cbn [negb]; cbn; by rewrite list_insert_id.
  - rewrite (proj2 (Z.eqb_eq eLock 1)) by lia. cbn. by rewrite list_insert_id.
Qed.

Definition store0 : MemStore := mk_store 0 0 1000 [] 0 3 0 0 1 (Some [47; 97]) [].

Lemma memdb_one_writer_witness : exists p conns, lock_reach p conns /\ conns = [3; 1; 0] /\ holders 2 conns = 1%nat /\
  mem_lock p conns 1 4 = (SQLITE_BUSY, p, conns) /\ mem_lock p conns 2 1 = (SQLITE_BUSY, p, conns).
Proof.
  assert (lock_reach store0 [0; 0; 0]) as H0 by (apply lk_open; [done|done|by repeat constructor]).
  assert (lock_request 0 1 /\ lock_request 1 3) as [R1 R2] by (split; split; unfold SQLITE_LOCK_SHARED, SQLITE_LOCK_NONE; lia).
  pose proof (lk_step _ _ 0%nat _ _ _ _ _ H0 eq_refl R1 eq_refl) as H1. pose proof (lk_step _ _ 1%nat _ _ _ _ _ H1 eq_refl R1 eq_refl) as H2.
  pose proof (lk_step _ _ 0%nat _ _ _ _ _ H2 eq_refl R2 eq_refl) as H3. eexists _, _. split; [exact H3|]. split; [reflexivity|].
  destruct (memdb_one_writer _ _ H3) as (_ & _ & _ & Hbusy). split; [reflexivity|]. split.
  - by apply (Hbusy 1%nat 0%nat 1 3 4 eq_refl eq_refl).
  - by apply (Hbusy 2%nat 0%nat 0 3 1 eq_refl eq_refl).
Defined.

(** ** The registry of the stores

    [memdb_g] with the stores that exist; a store is a number, its address. *)

Definition SQLITE_OPEN_MEMORY : Z := 0x80.

Record MemFS := mk_fs { stores : gmap nat MemStore; apMemStore : list nat; fs_next : nat }.

Definition with_ref (p : MemStore) (n : Z) : MemStore :=
  mk_store (sz p) (szAlloc p) (szMax p) (aData p) (nMmap p) (mFlags p) (nRdLock p) (nWrLock p) n (zFName p) (m_realloc p).

(** The store that has the name, by [strcmp] along the array. *)
Fixpoint find_store (fs : MemFS) (l : list nat) (zName : bytes) : outcome (option nat) :=
  match l with
  | [] => Done None
  | a :: l =>
      match stores fs !! a with
      | Some p => match zFName p with Some n => if bool_decide (n = zName) then Done (Some a) else find_store fs l zName | None => UB end
      | None => UB
      end
  end.

Definition new_store (mxMemdbSize : Z) (zFName : option bytes) (ref : Z) : MemStore :=
  mk_store 0 0 mxMemdbSize [] 0 (SQLITE_DESERIALIZE_RESIZEABLE .| SQLITE_DESERIALIZE_FREEONCLOSE) 0 0 ref zFName [].

(** [ok1], [ok2], [ok3]: whether the store, the array and the mutex are allocated. *)
Definition memdbOpen (mxMemdbSize : Z) (ok1 ok2 ok3 : bool) (zName : bytes) (flags : Z) (fs : MemFS) : outcome (Z * option (nat * Z) * MemFS) :=
  if (1 <? len zName) && (zName.[0] =? 47) then
    found ← find_store fs (apMemStore fs) zName;
    match found with
    | None =>
        if negb (ok1 && ok2 && ok3) then Done (SQLITE_NOMEM, None, fs)
        else
          let a := fs_next fs in
          let fs := mk_fs (<[a := new_store mxMemdbSize (Some zName) 1]> (stores fs)) (apMemStore fs ++ [a]) (S a) in
          Done (SQLITE_OK, Some (a, flags .| SQLITE_OPEN_MEMORY), fs)
    | Some a =>
        match stores fs !! a with
        | Some p => Done (SQLITE_OK, Some (a, flags .| SQLITE_OPEN_MEMORY), mk_fs (<[a := with_ref p (nRef p + 1)]> (stores fs)) (apMemStore fs) (fs_next fs))
        | None => UB
        end
    end
  else if negb ok1 then Done (SQLITE_NOMEM, None, fs)
  else
    let a := fs_next fs in
    Done (SQLITE_OK, Some (a, flags .| SQLITE_OPEN_MEMORY), mk_fs (<[a := new_store mxMemdbSize None 0]> (stores fs)) (apMemStore fs) (S a)).

(** [apMemStore[i] = apMemStore[--nMemStore]] for the entry [p]. *)
Fixpoint find_index (l : list nat) (p : nat) : option nat :=
  match l with [] => None | a :: l => if bool_decide (a = p) then Some 0%nat else S <$> find_index l p end.

Definition unregister (l : list nat) (p : nat) : list nat :=
  match find_index l p with
  | Some i => take (length l - 1) (<[i := default p (last l)]> l)
  | None => l
  end.

Definition memdbClose (a : nat) (fs : MemFS) : outcome (Z * MemFS) :=
  match stores fs !! a with
  | None => UB
  | Some p =>
      let l := match zFName p with
               | Some _ => if nRef p =? 1 then unregister (apMemStore fs) a else apMemStore fs
               | None => apMemStore fs
               end in
      let p := with_ref p (nRef p - 1) in
      Done (SQLITE_OK, mk_fs (if nRef p <=? 0 then delete a (stores fs) else <[a := p]> (stores fs)) l (fs_next fs))
  end.

Lemma find_index_split l p : p ∈ l -> exists l1 l2, l = l1 ++ p :: l2 /\ find_index l p = Some (length l1).
Proof.
  induction l as [|a l IH]; intros Hin; [by apply elem_of_nil in Hin|]. cbn [find_index]. case_bool_decide as E.
  - subst. by exists [], l.
  - apply elem_of_cons in Hin as [->|Hin]; [done|]. destruct (IH Hin) as (l1 & l2 & -> & ->). by exists (a :: l1), l2.
Qed.

Lemma unregister_perm l p : p ∈ l -> l ≡ₚ p :: unregister l p.
Proof.
  intros Hin. destruct (find_index_split l p Hin) as (l1 & l2 & El & Ei). unfold unregister. rewrite Ei. subst l.
  destruct l2 as [|z l2' _] using rev_ind.
  - rewrite last_snoc. cbn [default]. rewrite list_insert_id by by rewrite lookup_app_r, Nat.sub_diag by lia.
    rewrite length_app. cbn [length]. rewrite take_app_le, take_ge by lia. by rewrite Permutation_app_comm.
  - rewrite app_comm_cons, app_assoc, last_snoc. cbn [default]. rewrite insert_app_l by (rewrite length_app; cbn; lia). rewrite insert_app_r_alt, Nat.sub_diag by lia. cbn [list_insert insert].
    rewrite !length_app. cbn [length]. rewrite take_app_le by (rewrite length_app; cbn; lia). rewrite take_ge by (rewrite length_app; cbn; lia).
    rewrite <- (Permutation_middle l1 l2' z), (Permutation_app_comm _ [z]), <- (Permutation_middle l1 l2' p). cbn. apply perm_swap.
Qed.

(** The open files: the store of each. *)
Definition refs (a : nat) (handles : list nat) : Z := Z.of_nat (length (filter (fun b => b = a) handles)).

Inductive fs_reach (mx : Z) : MemFS -> list nat -> Prop :=
| fr_start : fs_reach mx (mk_fs ∅ [] 0) []
| fr_open fs handles ok1 ok2 ok3 zName flags a out fs' : fs_reach mx fs handles ->
    memdbOpen mx ok1 ok2 ok3 zName flags fs = Done (SQLITE_OK, Some (a, out), fs') -> fs_reach mx fs' (a :: handles)
| fr_close fs handles i a rc fs' : fs_reach mx fs handles -> handles !! i = Some a -> memdbClose a fs = Done (rc, fs') -> fs_reach mx fs' (delete i handles).

Record fs_ok (fs : MemFS) (handles : list nat) : Prop := {
  fo_nodup : NoDup (apMemStore fs);
  fo_listed a : a ∈ apMemStore fs <-> exists p n, stores fs !! a = Some p /\ zFName p = Some n;
  fo_named a p n : stores fs !! a = Some p -> zFName p = Some n -> nRef p = refs a handles;
  fo_private a p : stores fs !! a = Some p -> zFName p = None -> nRef p = 0 /\ refs a handles = 1;
  fo_open a : 0 < refs a handles <-> is_Some (stores fs !! a);
  fo_names a b p q n : stores fs !! a = Some p -> stores fs !! b = Some q -> zFName p = Some n -> zFName q = Some n -> a = b;
  fo_next a : is_Some (stores fs !! a) -> (a < fs_next fs)%nat
}.

Lemma find_store_ok fs handles zName : fs_ok fs handles ->
  exists r, find_store fs (apMemStore fs) zName = Done r /\
    match r with
    | Some a => exists p, stores fs !! a = Some p /\ zFName p = Some zName
    | None => forall a p, stores fs !! a = Some p -> zFName p <> Some zName
    end.
Proof.
  intros Hok.
  assert (forall l, (forall a, a ∈ l -> a ∈ apMemStore fs) -> exists r, find_store fs l zName = Done r /\
    match r with
    | Some a => exists p, stores fs !! a = Some p /\ zFName p = Some zName
    | None => forall a p, a ∈ l -> stores fs !! a = Some p -> zFName p <> Some zName
    end) as G.
  { induction l as [|a l IH]; intros Hl; cbn [find_store].
    - exists None. split; [done|]. by intros a p ?%elem_of_nil.
    - destruct (proj1 (fo_listed _ _ Hok a)) as (p & n & Hp & En); [apply Hl; by left|]. rewrite Hp, En. case_bool_decide as E.
      + exists (Some a). subst n. split; [done|]. by exists p.
      + destruct IH as (r & -> & Hr); [intros b Hb; apply Hl; by right|]. exists r. split; [done|]. destruct r; [done|].
        intros b q [->|Hb]%elem_of_cons Hq; [|by apply (Hr b)]. rewrite Hp in Hq. injection Hq as <-. rewrite En. congruence. }
  destruct (G (apMemStore fs) ltac:(done)) as (r & -> & Hr). exists r. split; [done|]. destruct r; [done|].
  intros a p Hp E. apply (Hr a p); [|done|done]. apply (fo_listed _ _ Hok). by exists p, zName.
Qed.

Lemma refs_cons a b handles : refs a (b :: handles) = refs a handles + (if decide (b = a) then 1 else 0).
Proof. unfold refs. rewrite filter_cons. case_decide; cbn [length]; lia. Qed.

Lemma refs_delete a i b handles : handles !! i = Some b -> refs a (delete i handles) = refs a handles - (if decide (b = a) then 1 else 0).
Proof.
  intros Hi. rewrite <- (take_drop_middle handles i b Hi) at 2. rewrite delete_take_drop. unfold refs.
  rewrite !filter_app, filter_cons, !length_app. case_decide; cbn [length]; lia.
Qed.

Lemma refs_nonneg a handles : 0 <= refs a handles.
Proof. unfold refs. lia. Qed.

(** A new store, with one file open on it. *)
Lemma fs_ok_new fs handles l p : fs_ok fs handles ->
  (forall n, zFName p = Some n -> nRef p = 1 /\ l = apMemStore fs ++ [fs_next fs] /\ forall a q, stores fs !! a = Some q -> zFName q <> Some n) ->
  (zFName p = None -> nRef p = 0 /\ l = apMemStore fs) ->
  fs_ok (mk_fs (<[fs_next fs := p]> (stores fs)) l (S (fs_next fs))) (fs_next fs :: handles).
Proof.
  intros Hok Hnamed Hpriv. set (x := fs_next fs) in *.
  assert (stores fs !! x = None) as Hx by (destruct (stores fs !! x) eqn:E; [|done]; pose proof (fo_next _ _ Hok x ltac:(by rewrite E)); unfold x in *; lia).
  assert (refs x handles = 0) as Rx.
  { pose proof (refs_nonneg x handles). destruct (Z.lt_ge_cases 0 (refs x handles)) as [H0|]; [|lia]. apply (fo_open _ _ Hok) in H0 as [? H0]. congruence. }
  assert (x ∉ apMemStore fs) as Nx by (intros (q & n & Hq & _)%(fo_listed _ _ Hok); congruence).
  split; cbn [stores apMemStore fs_next].
  - destruct (zFName p) as [n|]; [|by destruct (Hpriv eq_refl) as [_ ->]; apply Hok]. destruct (Hnamed n eq_refl) as (_ & -> & _).
    apply NoDup_app. split; [apply Hok|]. split; [|apply NoDup_singleton]. by intros a Ha ->%list_elem_of_singleton.
  - intros a. destruct (decide (a = x)) as [->|Hne].
    + rewrite lookup_insert_eq. destruct (zFName p) as [n|] eqn:En.
      * destruct (Hnamed n eq_refl) as (_ & -> & _). split; [intros _; by exists p, n|]. intros _. apply elem_of_app. right. by left.
      * destruct (Hpriv eq_refl) as [_ ->]. split; [done|]. intros (q & n & [= <-] & ?). congruence.
    + rewrite lookup_insert_ne by done. rewrite <- (fo_listed _ _ Hok a). destruct (zFName p) as [n|].
      * destruct (Hnamed n eq_refl) as (_ & -> & _). rewrite elem_of_app, list_elem_of_singleton. naive_solver.
      * by destruct (Hpriv eq_refl) as [_ ->].
  - intros a q n Hq Hn. rewrite refs_cons. destruct (decide (a = x)) as [->|Hne].
    + rewrite lookup_insert_eq in Hq. injection Hq as <-. rewrite decide_True by done. destruct (Hnamed n Hn) as (-> & _). lia.
    + rewrite lookup_insert_ne in Hq by done. rewrite decide_False by done. rewrite (fo_named _ _ Hok a q n Hq Hn). lia.
  - intros a q Hq Hn. rewrite refs_cons. destruct (decide (a = x)) as [->|Hne].
    + rewrite lookup_insert_eq in Hq. injection Hq as <-. rewrite decide_True by done. destruct (Hpriv Hn) as [-> _]. lia.
    + rewrite lookup_insert_ne in Hq by done. rewrite decide_False by done. destruct (fo_private _ _ Hok a q Hq Hn). lia.
  - intros a. rewrite refs_cons. destruct (decide (a = x)) as [->|Hne].
    + rewrite lookup_insert_eq, decide_True by done. split; [done|lia].
    + rewrite lookup_insert_ne, decide_False by done. rewrite <- (fo_open _ _ Hok a). by rewrite Z.add_0_r.
  - intros a b q r n Hq Hr Hnq Hnr. destruct (decide (a = x)) as [->|Ha], (decide (b = x)) as [->|Hb]; [done| | |].
    + rewrite lookup_insert_eq in Hq. injection Hq as <-. rewrite lookup_insert_ne in Hr by done. destruct (Hnamed n Hnq) as (_ & _ & H). by destruct (H b r Hr).
    + rewrite lookup_insert_eq in Hr. injection Hr as <-. rewrite lookup_insert_ne in Hq by done. destruct (Hnamed n Hnr) as (_ & _ & H). by destruct (H a q Hq).
    + rewrite lookup_insert_ne in Hq, Hr by done. by apply (fo_names _ _ Hok a b q r n).
  - intros a Ha. destruct (decide (a = x)) as [->|Hne]; [lia|]. rewrite lookup_insert_ne in Ha by done. pose proof (fo_next _ _ Hok a Ha). unfold x. lia.
Qed.

(** Another file on a store, or one less. *)
Lemma fs_ok_ref fs handles handles' a p d : fs_ok fs handles -> stores fs !! a = Some p -> is_Some (zFName p) ->
  (forall b, refs b handles' = refs b handles + (if decide (a = b) then d else 0)) -> 0 < refs a handles + d ->
  fs_ok (mk_fs (<[a := with_ref p (nRef p + d)]> (stores fs)) (apMemStore fs) (fs_next fs)) handles'.
Proof.
  intros Hok Ha [n0 Hn0] Hr Hd.
  assert (forall b q, <[a := with_ref p (nRef p + d)]> (stores fs) !! b = Some q -> exists q0, stores fs !! b = Some q0 /\ zFName q = zFName q0 /\
    nRef q = nRef q0 + (if decide (a = b) then d else 0)) as L.
  { intros b q Hq. destruct (decide (a = b)) as [->|Hne]; [rewrite lookup_insert_eq in Hq; injection Hq as <-; by exists p|].
    rewrite lookup_insert_ne in Hq by done. exists q. split; [done|]. split; [done|lia]. }
  assert (forall b, is_Some (<[a := with_ref p (nRef p + d)]> (stores fs) !! b) <-> is_Some (stores fs !! b)) as LS.
  { intros b. destruct (decide (a = b)) as [->|Hne]; [rewrite lookup_insert_eq, Ha; by split|by rewrite lookup_insert_ne]. }
  split; cbn [stores apMemStore fs_next].
  - apply Hok.
  - intros b. rewrite (fo_listed _ _ Hok b). split.
    + intros (q & n & Hq & Hn). destruct (decide (a = b)) as [->|Hne].
      * rewrite lookup_insert_eq. eexists _, n. split; [done|]. cbn. congruence.
      * rewrite lookup_insert_ne by done. by exists q, n.
    + intros (q & n & Hq & Hn). destruct (L b q Hq) as (q0 & Hq0 & En & _). exists q0, n. split; [done|congruence].
  - intros b q n Hq Hn. destruct (L b q Hq) as (q0 & Hq0 & En & ->). rewrite Hr, (fo_named _ _ Hok b q0 n); [done|done|congruence].
  - intros b q Hq Hn. destruct (L b q Hq) as (q0 & Hq0 & En & E). destruct (fo_private _ _ Hok b q0 Hq0 ltac:(congruence)) as [E0 E1].
    destruct (decide (a = b)) as [->|Hne]; [congruence|]. rewrite Hr, decide_False by done. lia.
  - intros b. rewrite LS, <- (fo_open _ _ Hok b), Hr. case_decide as E; [subst b|by rewrite Z.add_0_r]. split; [|lia]. intros _.
    apply (fo_open _ _ Hok). by rewrite Ha.
  - intros b c q r n Hq Hr' Hnq Hnr. destruct (L b q Hq) as (q0 & Hq0 & En & _), (L c r Hr') as (r0 & Hr0 & En' & _). apply (fo_names _ _ Hok b c q0 r0 n); congruence.
  - intros b Hb%LS. by apply Hok.
Qed.

(** The last file of a store is closed. *)
Lemma fs_ok_gone fs handles handles' a p : fs_ok fs handles -> stores fs !! a = Some p ->
  (forall b, refs b handles' = refs b handles - (if decide (a = b) then 1 else 0)) -> refs a handles = 1 ->
  fs_ok (mk_fs (delete a (stores fs)) (match zFName p with Some _ => unregister (apMemStore fs) a | None => apMemStore fs end) (fs_next fs)) handles'.
Proof.
  intros Hok Ha Hr H1. set (l := match zFName p with Some _ => _ | None => _ end).
  assert (NoDup l /\ forall b, b ∈ l <-> b ∈ apMemStore fs /\ b <> a) as [Hnd Hl].
  { unfold l. destruct (zFName p) as [n|] eqn:En.
    - assert (a ∈ apMemStore fs) as Hin by (apply (fo_listed _ _ Hok); by exists p, n). pose proof (unregister_perm _ _ Hin) as Hp.
      pose proof (fo_nodup _ _ Hok) as Hnd. pose proof (NoDup_Permutation_proper _ _ Hp) as Hnp. apply Hnp in Hnd. apply NoDup_cons in Hnd as [Hna Hnd]. split; [done|].
      intros b. assert (b ∈ apMemStore fs <-> b ∈ a :: unregister (apMemStore fs) a) as -> by (split; apply elem_of_Permutation_proper; [by symmetry|done]). rewrite elem_of_cons. split; [intros Hb; split; [by right|]; by intros ->|]. by intros [[->|?] ?].
    - split; [apply Hok|]. intros b. split; [|by intros [? _]]. intros Hb. split; [done|]. intros ->.
      apply (fo_listed _ _ Hok) in Hb as (q & n & Hq & ?). congruence. }
  assert (forall b q, delete a (stores fs) !! b = Some q -> a <> b /\ stores fs !! b = Some q) as L by (intros b q Hq; by apply lookup_delete_Some in Hq).
  split; cbn [stores apMemStore fs_next].
  - done.
  - intros b. rewrite Hl, (fo_listed _ _ Hok b). split.
    + intros [(q & n & Hq & Hn) Hne]. exists q, n. by rewrite lookup_delete_ne by done.
    + intros (q & n & [Hne Hq]%L & Hn). split; [by exists q, n|done].
  - intros b q n [Hne Hq]%L Hn. rewrite Hr, decide_False by done. rewrite (fo_named _ _ Hok b q n Hq Hn). lia.
  - intros b q [Hne Hq]%L Hn. rewrite Hr, decide_False by done. destruct (fo_private _ _ Hok b q Hq Hn). lia.
  - intros b. rewrite Hr. case_decide as E.
    + subst b. rewrite lookup_delete_eq. split; [lia|by intros []].
    + rewrite lookup_delete_ne, <- (fo_open _ _ Hok b) by done. by rewrite Z.sub_0_r.
  - intros b c q r n [_ Hq]%L [_ Hr']%L. by apply (fo_names _ _ Hok).
  - intros b [q [_ Hq]%L]. apply Hok. by rewrite Hq.
Qed.

Lemma memdbOpen_ok mx ok1 ok2 ok3 zName flags fs handles : fs_ok fs handles ->
  exists rc h fs', memdbOpen mx ok1 ok2 ok3 zName flags fs = Done (rc, h, fs') /\
    match h with
    | None => rc = SQLITE_NOMEM /\ fs' = fs /\ ok1 && ok2 && ok3 = false
    | Some (a, out) => rc = SQLITE_OK /\ fs_ok fs' (a :: handles) /\ (exists p', stores fs' !! a = Some p' /\
        (zFName p' = if (1 <? len zName) && (zName.[0] =? 47) then Some zName else None)) /\
        (forall b q, stores fs !! b = Some q -> exists q', stores fs' !! b = Some q' /\ aData q' = aData q /\ sz q' = sz q)
    end.
Proof.
  intros Hok. unfold memdbOpen. destruct ((1 <? len zName) && (zName.[0] =? 47)).
  - destruct (find_store_ok fs handles zName Hok) as (r & -> & Hr). cbn [mbind outcome_bind]. destruct r as [a|].
    + destruct Hr as (p & Hp & Hn). rewrite Hp. eexists _, (Some (a, _)), _. split; [done|]. split; [done|]. split; [|split].
      * apply (fs_ok_ref fs handles (a :: handles) a p 1 Hok Hp); [by rewrite Hn|intros b; apply refs_cons|pose proof (refs_nonneg a handles); lia].
      * cbn. rewrite lookup_insert_eq. by eexists.
      * intros b q Hq. cbn. destruct (decide (a = b)) as [->|Hne]; [|rewrite lookup_insert_ne by done; by exists q].
        rewrite lookup_insert_eq. rewrite Hp in Hq. injection Hq as <-. by eexists.
    + destruct (ok1 && ok2 && ok3); cbn [negb]; [|by eexists _, None, _].
      eexists _, (Some (_, _)), _. split; [done|]. split; [done|]. split; [|split].
      * apply fs_ok_new; [done| |done]. intros n [= <-]. done.
      * cbn. rewrite lookup_insert_eq. by eexists.
      * intros b q Hq. cbn. pose proof (fo_next _ _ Hok b ltac:(by rewrite Hq)). rewrite lookup_insert_ne by lia. by exists q.
  - destruct ok1; cbn [negb]; [|by eexists _, None, _].
    eexists _, (Some (_, _)), _. split; [done|]. split; [done|]. split; [|split].
    + apply fs_ok_new; [done|done|done].
    + cbn. rewrite lookup_insert_eq. by eexists.
    + intros b q Hq. cbn. pose proof (fo_next _ _ Hok b ltac:(by rewrite Hq)). rewrite lookup_insert_ne by lia. by exists q.
Qed.

Lemma memdbClose_ok fs handles i a : fs_ok fs handles -> handles !! i = Some a ->
  exists fs', memdbClose a fs = Done (SQLITE_OK, fs') /\ fs_ok fs' (delete i handles) /\ (is_Some (stores fs' !! a) <-> a ∈ delete i handles).
Proof.
  intros Hok Hi.
  assert (forall b, refs b (delete i handles) = refs b handles + (if decide (a = b) then -1 else 0)) as Hr by (intros b; rewrite (refs_delete _ _ a) by done; case_decide; lia).
  assert (forall b, 0 < refs b (delete i handles) <-> b ∈ delete i handles) as Hin.
  { intros b. unfold refs. split.
    - intros Hp. destruct (filter _ _) as [|c l] eqn:E; [cbn in Hp; lia|]. assert (c ∈ filter (fun c => c = b) (delete i handles)) as Hc by (rewrite E; by left).
      by apply list_elem_of_filter in Hc as [-> ?].
    - intros Hb. assert (b ∈ filter (fun c => c = b) (delete i handles)) as Hc by by apply list_elem_of_filter.
      destruct (filter _ _); [by apply elem_of_nil in Hc|cbn; lia]. }
  assert (0 < refs a handles) as Hpos.
  { pose proof (refs_nonneg a (delete i handles)) as Hnn. rewrite Hr, decide_True in Hnn by done. lia. }
  destruct (proj1 (fo_open _ _ Hok a) Hpos) as [p Hp]. unfold memdbClose. rewrite Hp. cbn [nRef with_ref].
  assert (nRef p - 1 <= 0 <-> refs a handles = 1) as Hlast.
  { destruct (zFName p) as [n|] eqn:En; [rewrite (fo_named _ _ Hok a p n Hp En); lia|]. destruct (fo_private _ _ Hok a p Hp En) as [-> ->]. lia. }
  destruct (Z.leb_spec (nRef p - 1) 0) as [Hle|Hgt].
  - apply Hlast in Hle as H1. pose proof (fs_ok_gone fs handles (delete i handles) a p Hok Hp) as G.
    assert ((match zFName p with Some _ => if nRef p =? 1 then unregister (apMemStore fs) a else apMemStore fs | None => apMemStore fs end) =
      (match zFName p with Some _ => unregister (apMemStore fs) a | None => apMemStore fs end)) as ->.
    { destruct (zFName p) as [n|] eqn:En; [|done]. rewrite (fo_named _ _ Hok a p n Hp En), H1. done. }
    eexists. split; [done|]. assert (fs_ok _ (delete i handles)) as Hok' by (apply G; [intros b; rewrite Hr; case_decide; lia|done]).
    split; [exact Hok'|]. by rewrite <- (fo_open _ _ Hok' a).
  - assert (refs a handles <> 1) by (intros E; apply Hlast in E; lia).
    destruct (zFName p) as [n|] eqn:En; [|destruct (fo_private _ _ Hok a p Hp En); lia].
    rewrite (proj2 (Z.eqb_neq _ _)) by (rewrite (fo_named _ _ Hok a p n Hp En); done).
    eexists. split; [done|]. assert (fs_ok _ (delete i handles)) as Hok' by (apply (fs_ok_ref fs handles (delete i handles) a p (-1) Hok Hp); [by rewrite En|done|lia]).
    split; [exact Hok'|]. by rewrite <- (fo_open _ _ Hok' a).
Qed.

Lemma fs_reach_ok mx fs handles : fs_reach mx fs handles -> fs_ok fs handles.
Proof.
  induction 1 as [|fs handles ok1 ok2 ok3 zName flags a out fs' _ IH E|fs handles i a rc fs' _ IH Hi E].
  - split; cbn; try done.
    + apply NoDup_nil_2.
    + intros a. split; [by intros ?%elem_of_nil|by intros (p & n & ? & _)].
    + intros a. split; [unfold refs; cbn; lia|by intros []].
    + by intros a [].
  - destruct (memdbOpen_ok mx ok1 ok2 ok3 zName flags fs handles IH) as (rc & h & fs1 & E1 & H). rewrite E in E1. injection E1 as <- <- <-. apply H.
  - destruct (memdbClose_ok fs handles i a IH Hi) as (fs1 & E1 & H & _). rewrite E in E1. by injection E1 as -> <-.
Qed.

(** [memdbOpen] and [memdbClose]: after any opening and closing of in-memory files, with any allocations failing, neither call ever touches a store that is gone;
    a name belongs to one store, so that files opened by the same name share one; opening leaves the content of the stores alone; and a store exists
    exactly as long as a file is open on it. *)
Theorem memdb_registry mx fs handles : fs_reach mx fs handles ->
  (forall a b p q n, stores fs !! a = Some p -> stores fs !! b = Some q -> zFName p = Some n -> zFName q = Some n -> a = b) /\
  (forall a, is_Some (stores fs !! a) <-> 0 < refs a handles) /\
  (forall ok1 ok2 ok3 zName flags, exists rc h fs', memdbOpen mx ok1 ok2 ok3 zName flags fs = Done (rc, h, fs') /\
     match h with
     | None => rc = SQLITE_NOMEM /\ fs' = fs /\ ok1 && ok2 && ok3 = false
     | Some (a, _) => rc = SQLITE_OK /\
         (forall b q, stores fs !! b = Some q -> zFName q = Some zName -> 1 < len zName -> zName.[0] = 47 -> a = b) /\
         (forall b q, stores fs !! b = Some q -> exists q', stores fs' !! b = Some q' /\ aData q' = aData q /\ sz q' = sz q)
     end) /\
  (forall i a, handles !! i = Some a -> exists fs', memdbClose a fs = Done (SQLITE_OK, fs') /\ (is_Some (stores fs' !! a) <-> a ∈ delete i handles)).
Proof.
  intros Hok%fs_reach_ok. split; [apply Hok|]. split; [by intros a; rewrite (fo_open _ _ Hok a)|]. split.
  - intros ok1 ok2 ok3 zName flags. destruct (memdbOpen_ok mx ok1 ok2 ok3 zName flags fs handles Hok) as (rc & h & fs' & E & H). exists rc, h, fs'. split; [done|].
    destruct h as [[a out]|]; [|done]. destruct H as (-> & Hok' & (p' & Hp' & Hn') & Hkeep). split; [done|]. split; [|done].
    intros b q Hq Hn Hl H0. rewrite (proj2 (Z.ltb_lt _ _)), H0, Z.eqb_refl in Hn' by done. unfold memdbOpen in E.
    rewrite (proj2 (Z.ltb_lt _ _)), H0, Z.eqb_refl in E by done. cbn [andb] in E. destruct (find_store_ok fs handles zName Hok) as (r & Er & Hr).
    rewrite Er in E. cbn [mbind outcome_bind] in E. destruct r as [c|]; [|by destruct (Hr b q Hq)].
    destruct Hr as (r & Hc & Hnc). rewrite Hc in E. injection E as <- <-. by apply (fo_names _ _ Hok c b r q zName).
  - intros i a Hi. destruct (memdbClose_ok fs handles i a Hok Hi) as (fs' & E & _ & H). by exists fs'.
Qed.

Lemma memdb_registry_witness : exists fs handles, fs_reach 100 fs handles /\ handles = [0%nat; 1%nat; 0%nat] /\
  exists fs', memdbClose 0 fs = Done (SQLITE_OK, fs') /\ is_Some (stores fs' !! 0%nat).
Proof.
  pose proof (fr_start 100) as R0. pose proof (fr_open 100 _ _ true true true [47; 97] 6 _ _ _ R0 eq_refl) as R1.
  pose proof (fr_open 100 _ _ true true true [97] 6 _ _ _ R1 eq_refl) as R2. pose proof (fr_open 100 _ _ true true true [47; 97] 6 _ _ _ R2 eq_refl) as R3.
  eexists _, _. split; [exact R3|]. split; [reflexivity|].
  destruct (memdb_registry _ _ _ R3) as (_ & _ & _ & Hclose). destruct (Hclose 0%nat 0%nat eq_refl) as (fs' & E & H). exists fs'. split; [exact E|].
  apply H. right. by left.
Defined.
