(* ===== verification/WalCksum.v ===== *)
(** * WalCksum: the headers and checksums of the write-ahead log (sqlite3.c, wal.c)

    [WalIndexHdr] with its bytes in memory, [walChecksumBytes] and the 4-byte integers of
    the log.  The machine is little-endian ([SQLITE_BIGENDIAN] is 0): a native word is read
    low byte first, [BYTESWAP32] makes the other order of it. *)

From S2P Require Import Prelude CType ByteMem Varint.

Definition SQLITE_BIGENDIAN : Z := 0.

Record WalIndexHdr := mk_hdr {
  iVersion : Z;
  iChange : Z;
  isInit : Z;
  bigEndCksum : Z;
  h_szPage : Z;
  mxFrame : Z;
  nPage : Z;
  aFrameCksum : Z * Z;
  aSalt : bytes;              (* 8 bytes *)
  aCksum : Z * Z
}.

(** A 32-bit word in memory. *)
Definition le32 (v : Z) : bytes := [u8 v; u8 (v >> 8); u8 (v >> 16); u8 (v >> 24)].

(** The 40 bytes before [aCksum]; the padding word stays 0. *)
Definition hdr_bytes (h : WalIndexHdr) : bytes :=
  le32 (iVersion h) ++ le32 0 ++ le32 (iChange h) ++ [u8 (isInit h); u8 (bigEndCksum h); u8 (h_szPage h); u8 (h_szPage h >> 8)] ++
  le32 (mxFrame h) ++ le32 (nPage h) ++ le32 (fst (aFrameCksum h)) ++ le32 (snd (aFrameCksum h)) ++ aSalt h.

Definition BYTESWAP32 (x : Z) : Z :=
  u32 (u32 (u32 (u32 ((x .& 0x000000FF) << 24) + u32 ((x .& 0x0000FF00) << 8)) + ((x .& 0x00FF0000) >> 8)) + ((x .& 0xFF000000) >> 24)).

(** [*(u32* )&a[p]] *)
Definition load32 (a : bytes) (p : Z) : outcome Z :=
  b0 ← rd a p; b1 ← rd a (p + 1); b2 ← rd a (p + 2); b3 ← rd a (p + 3);
  Done (b0 .| (b1 << 8) .| (b2 << 16) .| (b3 << 24)).

(** The [do]-[while] loop from [aData] to [aEnd]. *)
Fixpoint cksum_loop (fuel : nat) (nativeCksum : bool) (a : bytes) (aData aEnd s1 s2 : Z) : outcome (Z * Z) :=
  match fuel with
  | O => UB
  | S fuel =>
      d0 ← load32 a aData; d1 ← load32 a (aData + 4);
      let d0 := if nativeCksum then d0 else BYTESWAP32 d0 in
      let d1 := if nativeCksum then d1 else BYTESWAP32 d1 in
      let s1 := u32 (s1 + u32 (d0 + s2)) in
      let s2 := u32 (s2 + u32 (d1 + s1)) in
      if aData + 8 <? aEnd then cksum_loop fuel nativeCksum a (aData + 8) aEnd s1 s2 else Done (s1, s2)
  end.

(** [aIn] is [None] for the null pointer. *)
Definition walChecksumBytes (nativeCksum : bool) (a : bytes) (nByte : Z) (aIn : option (Z * Z)) : outcome (Z * Z) :=
  let '(s1, s2) := match aIn with Some s => s | None => (0, 0) end in
  cksum_loop (S (Z.to_nat nByte)) nativeCksum a 0 nByte s1 s2.

(** [sqlite3Get4byte] at an offset of a buffer. *)
Definition get4byte (a : bytes) (p : Z) : outcome Z :=
  match sqlite3Get4byte (drop (Z.to_nat p) a) with Some v => Done v | None => UB end.

(** * The checksum as a function of the words *)

(** The value of a word of [a] at [p]. *)
Definition word (nativeCksum : bool) (a : bytes) (p : Z) : Z :=
  if nativeCksum then a.[p] + 256 * a.[p + 1] + 65536 * a.[p + 2] + 16777216 * a.[p + 3]
  else a.[p + 3] + 256 * a.[p + 2] + 65536 * a.[p + 1] + 16777216 * a.[p].

Definition cksum_pair (nativeCksum : bool) (a : bytes) (p : Z) (s : Z * Z) : Z * Z :=
  let s1 := (fst s + word nativeCksum a p + snd s) mod 2 ^ 32 in
  (s1, (snd s + word nativeCksum a (p + 4) + s1) mod 2 ^ 32).

(** Over [n] pairs of words. *)
Fixpoint cksum_spec (nativeCksum : bool) (a : bytes) (p : Z) (n : nat) (s : Z * Z) : Z * Z :=
  match n with O => s | S n => cksum_spec nativeCksum a (p + 8) n (cksum_pair nativeCksum a p s) end.

Lemma load32_ok a p : bytes_ok a -> 0 <= p -> p + 4 <= len a -> load32 a p = Done (word true a p).
Proof.
  intros Ha Hp Hl. unfold load32. rewrite !rd_ok by lia. cbn [mbind outcome_bind]. f_equal. unfold word.
  pose proof (ld_ok a p Ha). pose proof (ld_ok a (p + 1) Ha). pose proof (ld_ok a (p + 2) Ha). pose proof (ld_ok a (p + 3) Ha).
  rewrite (Z.lor_comm _ (a.[p + 3] << 24)), (Z.lor_comm _ (a.[p + 2] << 16)), (Z.lor_comm _ (a.[p + 1] << 8)).
  rewrite !shl_lor_add; [lia|lia|lia|lia| |lia|].
  - rewrite shl_lor_add by lia. lia.
  - rewrite !shl_lor_add by (rewrite ?shl_lor_add; lia). lia.
Qed.

Lemma word_range n a p : bytes_ok a -> 0 <= word n a p < 2 ^ 32.
Proof.
  intros Ha. unfold word. pose proof (ld_ok a p Ha). pose proof (ld_ok a (p + 1) Ha). pose proof (ld_ok a (p + 2) Ha). pose proof (ld_ok a (p + 3) Ha).
  destruct n; lia.
Qed.

Lemma BYTESWAP32_word a p : bytes_ok a -> BYTESWAP32 (word true a p) = word false a p.
Proof.
  intros Ha. unfold word. pose proof (ld_ok a p Ha). pose proof (ld_ok a (p + 1) Ha). pose proof (ld_ok a (p + 2) Ha). pose proof (ld_ok a (p + 3) Ha).
  assert (forall k, 0 <= k -> (word true a p) .& ((2 ^ 8 - 1) << k) = (word true a p / 2 ^ k mod 2 ^ 8) * 2 ^ k) as F by (intros; apply land_field; lia).
  unfold word in F. set (x := a.[p] + 256 * a.[p + 1] + 65536 * a.[p + 2] + 16777216 * a.[p + 3]) in *.
  pose proof (F 0 ltac:(lia)) as F0. pose proof (F 8 ltac:(lia)) as F8. pose proof (F 16 ltac:(lia)) as F16. pose proof (F 24 ltac:(lia)) as F24.
  change ((2 ^ 8 - 1) << 0) with 0x000000FF in F0. change ((2 ^ 8 - 1) << 8) with 0x0000FF00 in F8.
  change ((2 ^ 8 - 1) << 16) with 0x00FF0000 in F16. change ((2 ^ 8 - 1) << 24) with 0xFF000000 in F24.
  assert (x / 2 ^ 0 mod 2 ^ 8 = a.[p] /\ x / 2 ^ 8 mod 2 ^ 8 = a.[p + 1] /\ x / 2 ^ 16 mod 2 ^ 8 = a.[p + 2] /\ x / 2 ^ 24 mod 2 ^ 8 = a.[p + 3]) as (E0 & E8 & E16 & E24).
  { unfold x. change (2 ^ 0) with 1. change (2 ^ 8) with 256. change (2 ^ 16) with 65536. change (2 ^ 24) with 16777216. Z.to_euclidean_division_equations. lia. }
  unfold BYTESWAP32. rewrite F0, F8, F16, F24, E0, E8, E16, E24.
  rewrite !Z.shiftl_mul_pow2, !Z.shiftr_div_pow2 by lia. change (2 ^ 0) with 1. change (2 ^ 8) with 256. change (2 ^ 16) with 65536. change (2 ^ 24) with 16777216.
  replace (a.[p + 2] * 65536 / 256) with (a.[p + 2] * 256) by (Z.to_euclidean_division_equations; lia).
  rewrite Z.div_mul by lia. repeat match goal with |- context [u32 ?t] => lazymatch t with context [u32 _] => fail | _ => rewrite (u32_id t) by lia end end. lia.
Qed.

Lemma cksum_loop_ok native a : bytes_ok a -> forall n fuel p s1 s2, 0 <= p -> p + 8 * (Z.of_nat n + 1) <= len a -> (S n <= fuel)%nat ->
  cksum_loop fuel native a p (p + 8 * (Z.of_nat n + 1)) s1 s2 = Done (cksum_spec native a p (S n) (s1, s2)).
Proof.
  intros Ha n. induction n as [|n IH]; intros [|fuel] p s1 s2 Hp Hl Hf; try lia; cbn [cksum_loop].
  all: rewrite !load32_ok by (done || lia); cbn [mbind outcome_bind].
  all: assert (forall q, (if native then word true a q else BYTESWAP32 (word true a q)) = word native a q) as Ew by (intros q; destruct native; [done|by apply BYTESWAP32_word]).
  all: rewrite !Ew.
  all: assert (u32 (s1 + u32 (word native a p + s2)) = fst (cksum_pair native a p (s1, s2)) /\
    u32 (s2 + u32 (word native a (p + 4) + u32 (s1 + u32 (word native a p + s2)))) = snd (cksum_pair native a p (s1, s2))) as [E1 E2]
    by (unfold cksum_pair; cbn [fst snd]; unfold u32; rewrite !Zplus_mod_idemp_r; split; [f_equal; lia|];
        rewrite Z.add_assoc, Zplus_mod_idemp_r; rewrite !Z.add_assoc; f_equal; lia).
  - destruct (Z.ltb_spec (p + 8) (p + 8 * (Z.of_nat 0 + 1))); [lia|]. cbn [cksum_spec]. rewrite E2, E1. by destruct (cksum_pair _ _ _ _).
  - destruct (Z.ltb_spec (p + 8) (p + 8 * (Z.of_nat (S n) + 1))); [|lia]. rewrite E2, E1.
    replace (p + 8 * (Z.of_nat (S n) + 1)) with (p + 8 + 8 * (Z.of_nat n + 1)) by lia. rewrite IH by lia.
    cbn [cksum_spec]. by destruct (cksum_pair native a p (s1, s2)).
Qed.

Lemma walChecksumBytes_ok native a n aIn : bytes_ok a -> 8 * Z.of_nat (S n) <= len a ->
  walChecksumBytes native a (8 * Z.of_nat (S n)) aIn = Done (cksum_spec native a 0 (S n) (match aIn with Some s => s | None => (0, 0) end)).
Proof.
  intros Ha Hl. unfold walChecksumBytes. destruct (match aIn with Some s => s | None => (0, 0) end) as [s1 s2].
  replace (8 * Z.of_nat (S n)) with (0 + 8 * (Z.of_nat n + 1)) by lia. apply cksum_loop_ok; [done|lia|lia|lia].
Qed.

Lemma cksum_pair_range native a p s : 0 <= fst (cksum_pair native a p s) < 2 ^ 32 /\ 0 <= snd (cksum_pair native a p s) < 2 ^ 32.
Proof. unfold cksum_pair. cbn [fst snd]. split; apply Z.mod_pos_bound; lia. Qed.

Lemma cksum_spec_range native a n : forall p s, 0 <= fst s < 2 ^ 32 -> 0 <= snd s < 2 ^ 32 ->
  0 <= fst (cksum_spec native a p n s) < 2 ^ 32 /\ 0 <= snd (cksum_spec native a p n s) < 2 ^ 32.
Proof.
  induction n as [|n IH]; intros p s H1 H2; cbn [cksum_spec]; [done|]. apply IH; apply cksum_pair_range.
Qed.

(** The checksum looks only at its bytes. *)
Lemma cksum_spec_ext native a b n : forall p s, (forall j, p <= j < p + 8 * Z.of_nat n -> a.[j] = b.[j]) ->
  cksum_spec native a p n s = cksum_spec native b p n s.
Proof.
  induction n as [|n IH]; intros p s H; cbn [cksum_spec]; [done|].
  assert (cksum_pair native a p s = cksum_pair native b p s) as ->.
  { unfold cksum_pair, word. rewrite !H by lia. done. }
  apply IH. intros j Hj. apply H. lia.
Qed.

(** ** The four bytes of an integer *)

Lemma get4byte_put v a p g : 0 <= p -> drop (Z.to_nat p) a = sqlite3Put4byte v ++ g -> get4byte a p = Done (u32 v).
Proof.
  intros Hp E. unfold get4byte. rewrite E. unfold sqlite3Get4byte, sqlite3Put4byte. cbn -[u8]. f_equal.
  apply bits_ext_64; [each_bit 64%nat; bit_simpl; first [reflexivity|btauto]|intros i Hi; bit_high].
Qed.

Lemma put4byte_bytes v : bytes_ok (sqlite3Put4byte v).
Proof. unfold sqlite3Put4byte. repeat constructor; apply u8_range. Qed.

Lemma le32_bytes v : bytes_ok (le32 v).
Proof. unfold le32. repeat constructor; apply u8_range. Qed.

Lemma hdr_bytes_ok h : bytes_ok (aSalt h) -> bytes_ok (hdr_bytes h).
Proof. intros Hs. unfold hdr_bytes. rewrite !Forall_app. split_and!; try apply le32_bytes; [|done]. repeat constructor; apply u8_range. Qed.

Lemma hdr_bytes_length h : len (hdr_bytes h) = 32 + len (aSalt h).
Proof. unfold hdr_bytes. rewrite !length_app. cbn -[Z.of_nat]. lia. Qed.
