(* ===== verification/WalIndex.v ===== *)
(** * WalIndex: the index of the write-ahead log (sqlite3.c, wal.c)

    The wal-index maps database pages to frames of the log.  It is shared memory in pages
    of 32KB; a page holds the page numbers of 4096 frames (4062 on the first page, behind
    the headers) and a hash table of 8192 slots with linear probing.  [WiPage] is such a
    page; the headers at the start of the first one are kept as records in [Shm], not as
    words.  [Shm] is what all connections share, [Wal] is one connection.

    Mapping a page calls the operating system; the answers are the list [vfs] of result
    codes (an exhausted list goes on answering SQLITE_OK).  A dereferenced null pointer
    or an index outside a page is [UB]. *)

From S2P Require Import Prelude CType ByteMem OsFile WalCksum.

Definition WAL_NREADER : Z := 5.
Definition READMARK_NOT_USED : Z := 0xffffffff.
Definition WAL_HEAPMEMORY_MODE : Z := 2.
Definition WAL_SHM_RDONLY : Z := 2.

Definition HASHTABLE_NPAGE : Z := 4096.
Definition HASHTABLE_HASH_1 : Z := 383.
Definition HASHTABLE_NSLOT : Z := HASHTABLE_NPAGE * 2.
(** [sizeof(WalIndexHdr)*2+sizeof(WalCkptInfo)] *)
Definition WALINDEX_HDR_SIZE : Z := 48 * 2 + 40.
Definition HASHTABLE_NPAGE_ONE : Z := HASHTABLE_NPAGE - WALINDEX_HDR_SIZE / 4.

Record WalCkptInfo := mk_ckpt {
  nBackfill : Z;
  aReadMark : list Z;
  nBackfillAttempted : Z
}.

(** The 4096 words of a page before its hash table, and the table. *)
Record WiPage := mk_wipage { wi_words : list Z; wi_slots : list Z }.

Definition zero_page : WiPage :=
  mk_wipage (replicate (Z.to_nat HASHTABLE_NPAGE) 0) (replicate (Z.to_nat HASHTABLE_NSLOT) 0).

Record Shm := mk_shm {
  s_hdr0 : WalIndexHdr;       (* the two copies of the header *)
  s_hdr1 : WalIndexHdr;
  s_ckpt : WalCkptInfo;
  s_pages : list WiPage
}.

Record Wal := mk_wal {
  w_mapped : gset Z;          (* the pages [iPage] with [apWiData[iPage]!=0] *)
  w_vfs : list Z;
  pDbFd : nat;                (* the connection, for its locks *)
  iCallback : Z;
  mxWalSize : Z;
  szPage : Z;
  readLock : Z;
  exclusiveMode : Z;
  writeLock : bool;
  ckptLock : bool;
  readOnly : Z;
  truncateOnCommit : bool;
  syncHeader : bool;
  padToSectorBoundary : bool;
  bShmUnreliable : bool;
  hdr : WalIndexHdr;
  minFrame : Z;
  iReCksum : Z;
  nCkpt : Z
}.

Definition with_mapped (w : Wal) (mapped : gset Z) (vfs : list Z) (ro : Z) : Wal :=
  mk_wal mapped vfs (pDbFd w) (iCallback w) (mxWalSize w) (szPage w) (readLock w) (exclusiveMode w) (writeLock w) (ckptLock w) ro (truncateOnCommit w) (syncHeader w) (padToSectorBoundary w) (bShmUnreliable w) (hdr w) (minFrame w) (iReCksum w) (nCkpt w).
Definition with_hdr (w : Wal) (h : WalIndexHdr) : Wal :=
  mk_wal (w_mapped w) (w_vfs w) (pDbFd w) (iCallback w) (mxWalSize w) (szPage w) (readLock w) (exclusiveMode w) (writeLock w) (ckptLock w) (readOnly w) (truncateOnCommit w) (syncHeader w) (padToSectorBoundary w) (bShmUnreliable w) h (minFrame w) (iReCksum w) (nCkpt w).
Definition with_callback (w : Wal) (cb : Z) : Wal :=
  mk_wal (w_mapped w) (w_vfs w) (pDbFd w) cb (mxWalSize w) (szPage w) (readLock w) (exclusiveMode w) (writeLock w) (ckptLock w) (readOnly w) (truncateOnCommit w) (syncHeader w) (padToSectorBoundary w) (bShmUnreliable w) (hdr w) (minFrame w) (iReCksum w) (nCkpt w).
Definition with_log (w : Wal) (size ck : Z) : Wal :=
  mk_wal (w_mapped w) (w_vfs w) (pDbFd w) (iCallback w) (mxWalSize w) size (readLock w) (exclusiveMode w) (writeLock w) (ckptLock w) (readOnly w) (truncateOnCommit w) (syncHeader w) (padToSectorBoundary w) (bShmUnreliable w) (hdr w) (minFrame w) (iReCksum w) ck.
Definition with_recksum (w : Wal) (f : Z) : Wal :=
  mk_wal (w_mapped w) (w_vfs w) (pDbFd w) (iCallback w) (mxWalSize w) (szPage w) (readLock w) (exclusiveMode w) (writeLock w) (ckptLock w) (readOnly w) (truncateOnCommit w) (syncHeader w) (padToSectorBoundary w) (bShmUnreliable w) (hdr w) (minFrame w) f (nCkpt w).
Definition with_truncate (w : Wal) (b : bool) : Wal :=
  mk_wal (w_mapped w) (w_vfs w) (pDbFd w) (iCallback w) (mxWalSize w) (szPage w) (readLock w) (exclusiveMode w) (writeLock w) (ckptLock w) (readOnly w) b (syncHeader w) (padToSectorBoundary w) (bShmUnreliable w) (hdr w) (minFrame w) (iReCksum w) (nCkpt w).
Definition with_readLock (w : Wal) (k : Z) : Wal :=
  mk_wal (w_mapped w) (w_vfs w) (pDbFd w) (iCallback w) (mxWalSize w) (szPage w) k (exclusiveMode w) (writeLock w) (ckptLock w) (readOnly w) (truncateOnCommit w) (syncHeader w) (padToSectorBoundary w) (bShmUnreliable w) (hdr w) (minFrame w) (iReCksum w) (nCkpt w).
Definition with_minFrame (w : Wal) (f : Z) : Wal :=
  mk_wal (w_mapped w) (w_vfs w) (pDbFd w) (iCallback w) (mxWalSize w) (szPage w) (readLock w) (exclusiveMode w) (writeLock w) (ckptLock w) (readOnly w) (truncateOnCommit w) (syncHeader w) (padToSectorBoundary w) (bShmUnreliable w) (hdr w) f (iReCksum w) (nCkpt w).
Definition with_writeLock (w : Wal) (b : bool) : Wal :=
  mk_wal (w_mapped w) (w_vfs w) (pDbFd w) (iCallback w) (mxWalSize w) (szPage w) (readLock w) (exclusiveMode w) b (ckptLock w) (readOnly w) (truncateOnCommit w) (syncHeader w) (padToSectorBoundary w) (bShmUnreliable w) (hdr w) (minFrame w) (iReCksum w) (nCkpt w).
Definition with_ckptLock (w : Wal) (b : bool) : Wal :=
  mk_wal (w_mapped w) (w_vfs w) (pDbFd w) (iCallback w) (mxWalSize w) (szPage w) (readLock w) (exclusiveMode w) (writeLock w) b (readOnly w) (truncateOnCommit w) (syncHeader w) (padToSectorBoundary w) (bShmUnreliable w) (hdr w) (minFrame w) (iReCksum w) (nCkpt w).
Definition with_mode (w : Wal) (excl : Z) (unreliable : bool) : Wal :=
  mk_wal (w_mapped w) (w_vfs w) (pDbFd w) (iCallback w) (mxWalSize w) (szPage w) (readLock w) excl (writeLock w) (ckptLock w) (readOnly w) (truncateOnCommit w) (syncHeader w) (padToSectorBoundary w) unreliable (hdr w) (minFrame w) (iReCksum w) (nCkpt w).
Definition with_pages (s : Shm) (pages : list WiPage) : Shm := mk_shm (s_hdr0 s) (s_hdr1 s) (s_ckpt s) pages.

(** ** Pages of the index *)

(** A page that is asked for is created, zeroed, by the writer and in heap memory. *)
Definition extend_pages (pages : list WiPage) (iPage : Z) : list WiPage :=
  pages ++ replicate (Z.to_nat (iPage + 1 - len pages)) zero_page.

(** The first answer is that of [sqlite3Realloc] or, with it, of the mapping: a code other
    than SQLITE_OK leaves the pointer null, but for SQLITE_READONLY, where the page is
    mapped if it exists. *)
Definition walIndexPageRealloc (w : Wal) (iPage : Z) (s : Shm) : Z * Wal * Shm :=
  let '(rc, vfs) := match w_vfs w with [] => (SQLITE_OK, []) | rc :: vfs => (rc, vfs) end in
  if exclusiveMode w =? WAL_HEAPMEMORY_MODE then
    (if rc =? SQLITE_OK then (SQLITE_OK, with_mapped w ({[iPage]} ∪ w_mapped w) vfs (readOnly w), with_pages s (extend_pages (s_pages s) iPage))
     else (SQLITE_NOMEM, with_mapped w (w_mapped w) vfs (readOnly w), s))
  else if rc =? SQLITE_OK then
    let s := if writeLock w then with_pages s (extend_pages (s_pages s) iPage) else s in
    (SQLITE_OK, with_mapped w (if iPage <? len (s_pages s) then {[iPage]} ∪ w_mapped w else w_mapped w) vfs (readOnly w), s)
  else if rc .& 0xff =? SQLITE_READONLY then
    (if rc =? SQLITE_READONLY then SQLITE_OK else rc,
     with_mapped w (if iPage <? len (s_pages s) then {[iPage]} ∪ w_mapped w else w_mapped w) vfs (readOnly w .| WAL_SHM_RDONLY), s)
  else (rc, with_mapped w (w_mapped w) vfs (readOnly w), s).

Definition walIndexPage (w : Wal) (iPage : Z) (s : Shm) : Z * Wal * Shm :=
  if bool_decide (iPage ∈ w_mapped w) then (SQLITE_OK, w, s) else walIndexPageRealloc w iPage s.

(** ** Hash tables *)

Definition walHash (iPage : Z) : Z := u32 (iPage * HASHTABLE_HASH_1) .& (HASHTABLE_NSLOT - 1).
Definition walNextHash (iPriorHash : Z) : Z := (iPriorHash + 1) .& (HASHTABLE_NSLOT - 1).

(** [aPgno] and [aHash] are the page [hl_page], with [aPgno] at the word [hl_base]. *)
Record WalHashLoc := mk_loc { hl_page : Z; hl_base : Z; iZero : Z }.

Definition walHashGet (w : Wal) (iHash : Z) (s : Shm) : Z * WalHashLoc * Wal * Shm :=
  let '(rc, w, s) := walIndexPage w iHash s in
  let loc := if iHash =? 0 then mk_loc iHash (WALINDEX_HDR_SIZE / 4) 0
             else mk_loc iHash 0 (u32 (HASHTABLE_NPAGE_ONE + (iHash - 1) * HASHTABLE_NPAGE)) in
  if bool_decide (iHash ∈ w_mapped w) then (rc, loc, w, s)
  else (if rc =? SQLITE_OK then SQLITE_ERROR else rc, loc, w, s).

(** Access through [aPgno] and [aHash]. *)
Definition get_page (s : Shm) (loc : WalHashLoc) : outcome WiPage :=
  match s_pages s !! Z.to_nat (hl_page loc) with Some pg => Done pg | None => UB end.
Definition put_page (s : Shm) (loc : WalHashLoc) (pg : WiPage) : Shm :=
  with_pages s (<[Z.to_nat (hl_page loc) := pg]> (s_pages s)).
Definition rd_pgno (pg : WiPage) (loc : WalHashLoc) (i : Z) : outcome Z := rd (wi_words pg) (hl_base loc + i).

Definition walFramePage (iFrame : Z) : Z :=
  i32 (u64 (u32 (iFrame + HASHTABLE_NPAGE) - HASHTABLE_NPAGE_ONE - 1) / HASHTABLE_NPAGE).

(** Reads through [apWiData] without asking for the page. *)
Definition walFramePgno (w : Wal) (iFrame : Z) (s : Shm) : outcome Z :=
  let iHash := walFramePage iFrame in
  if negb (bool_decide (iHash ∈ w_mapped w)) then UB
  else
    pg ← get_page s (mk_loc iHash 0 0);
    if iHash =? 0 then rd (wi_words pg) (WALINDEX_HDR_SIZE / 4 + iFrame - 1)
    else rd (wi_words pg) (u64 (u32 (iFrame - 1) - HASHTABLE_NPAGE_ONE) mod HASHTABLE_NPAGE).

(** The entries above [iLimit] of a page are set to zero. *)
Definition cleanup_page (pg : WiPage) (loc : WalHashLoc) (iLimit : Z) : outcome WiPage :=
  let slots := map (fun v => if iLimit <? v then 0 else v) (wi_slots pg) in
  words ← memset (wi_words pg) (hl_base loc + iLimit) 0 (HASHTABLE_NPAGE - (hl_base loc + iLimit));
  Done (mk_wipage words slots).

Definition walCleanupHash (w : Wal) (s : Shm) : outcome (Wal * Shm) :=
  if mxFrame (hdr w) =? 0 then Done (w, s)
  else
    let '(i, sLoc, w, s) := walHashGet w (walFramePage (mxFrame (hdr w))) s in
    if negb (i =? SQLITE_OK) then Done (w, s)
    else
      pg ← get_page s sLoc;
      pg ← cleanup_page pg sLoc (i32 (u32 (mxFrame (hdr w) - iZero sLoc)));
      Done (w, put_page s sLoc pg).

(** The slot for a new entry; [None] is SQLITE_CORRUPT.  The loop counts [nCollide] down. *)
Fixpoint free_slot (fuel : nat) (aHash : list Z) (iKey nCollide : Z) : outcome (option Z) :=
  match fuel with
  | O => UB
  | S fuel =>
      v ← rd aHash iKey;
      if v =? 0 then Done (Some iKey)
      else if nCollide =? 0 then Done None
      else free_slot fuel aHash (walNextHash iKey) (nCollide - 1)
  end.

(** Zero the page numbers and the hash table. *)
Definition clear_page (pg : WiPage) (loc : WalHashLoc) : outcome WiPage :=
  words ← memset (wi_words pg) (hl_base loc) 0 (HASHTABLE_NPAGE - hl_base loc);
  Done (mk_wipage words (replicate (length (wi_slots pg)) 0)).

Definition walIndexAppend (w : Wal) (iFrame iPage : Z) (s : Shm) : outcome (Z * Wal * Shm) :=
  let '(rc, sLoc, w, s) := walHashGet w (walFramePage iFrame) s in
  if negb (rc =? SQLITE_OK) then Done (rc, w, s)
  else
    let idx := i32 (u32 (iFrame - iZero sLoc)) in
    pg ← get_page s sLoc;
    pg ← (if idx =? 1 then clear_page pg sLoc else Done pg);
    let s := put_page s sLoc pg in
    v ← rd_pgno pg sLoc (idx - 1);
    '(w, s) ← (if negb (v =? 0) then walCleanupHash w s else Done (w, s));
    pg ← get_page s sLoc;
    iKey ← free_slot (S (S (Z.to_nat idx))) (wi_slots pg) (walHash iPage) idx;
    match iKey with
    | None => Done (SQLITE_CORRUPT, w, s)
    | Some iKey =>
        words ← wr (wi_words pg) (hl_base sLoc + (idx - 1)) iPage;
        slots ← wr (wi_slots pg) iKey (u16 idx);
        Done (SQLITE_OK, w, put_page s sLoc (mk_wipage words slots))
    end.

(** ** Searching *)

(** One hash table; [None] is SQLITE_CORRUPT. *)
Fixpoint find_loop (fuel : nat) (pg : WiPage) (loc : WalHashLoc) (pgno iLast minF iKey nCollide iRead : Z) : outcome (option Z) :=
  match fuel with
  | O => UB
  | S fuel =>
      iH ← rd (wi_slots pg) iKey;
      if iH =? 0 then Done (Some iRead)
      else
        let iFrame := u32 (iH + iZero loc) in
        iRead ← (if (iFrame <=? iLast) && (minF <=? iFrame) then
                   v ← rd_pgno pg loc (iH - 1); Done (if v =? pgno then iFrame else iRead)
                 else Done iRead);
        if nCollide =? 0 then Done None
        else find_loop fuel pg loc pgno iLast minF (walNextHash iKey) (nCollide - 1) iRead
  end.

(** The tables from [iHash] down to [iMinHash], [n] of them. *)
Fixpoint find_tables (n : nat) (w : Wal) (s : Shm) (pgno iLast iHash : Z) : outcome (Z * Z * Wal * Shm) :=
  match n with
  | O => Done (SQLITE_OK, 0, w, s)
  | S n =>
      let '(rc, sLoc, w, s) := walHashGet w iHash s in
      if negb (rc =? SQLITE_OK) then Done (rc, 0, w, s)
      else
        pg ← get_page s sLoc;
        r ← find_loop (S (S (Z.to_nat HASHTABLE_NSLOT))) pg sLoc pgno iLast (minFrame w) (walHash pgno) HASHTABLE_NSLOT 0;
        match r with
        | None => Done (SQLITE_CORRUPT, 0, w, s)
        | Some iRead => if negb (iRead =? 0) then Done (SQLITE_OK, iRead, w, s) else find_tables n w s pgno iLast (iHash - 1)
        end
  end.

Definition sqlite3WalFindFrame (w : Wal) (pgno : Z) (s : Shm) : outcome (Z * Z * Wal * Shm) :=
  let iLast := mxFrame (hdr w) in
  if (iLast =? 0) || ((readLock w =? 0) && negb (bShmUnreliable w)) then Done (SQLITE_OK, 0, w, s)
  else
    let iMinHash := walFramePage (minFrame w) in
    let iHash := walFramePage iLast in
    find_tables (Z.to_nat (iHash + 1 - iMinHash)) w s pgno iLast iHash.

(** ** The headers *)

Definition WALINDEX_MAX_VERSION : Z := 3007000.

Definition set_frames (h : WalIndexHdr) (szPage mx : Z) (iChange' nPage' : Z) : WalIndexHdr :=
  mk_hdr (iVersion h) iChange' (isInit h) (bigEndCksum h) szPage mx nPage' (aFrameCksum h) (aSalt h) (aCksum h).
Definition hdr_init (h : WalIndexHdr) (cksum : Z * Z) : WalIndexHdr :=
  mk_hdr WALINDEX_MAX_VERSION (iChange h) 1 (bigEndCksum h) (h_szPage h) (mxFrame h) (nPage h) (aFrameCksum h) (aSalt h) cksum.

(** The header pages are reached through [apWiData[0]]. *)
Definition walIndexHdr (w : Wal) (s : Shm) : outcome WalIndexHdr :=
  if bool_decide (0 ∈ w_mapped w) then Done (s_hdr0 s) else UB.

Definition walIndexWriteHdr (w : Wal) (s : Shm) : outcome (Wal * Shm) :=
  _ ← walIndexHdr w s;
  aCksum ← walChecksumBytes true (hdr_bytes (hdr_init (hdr w) (0, 0))) 40 None;
  let h := hdr_init (hdr w) aCksum in
  Done (with_hdr w h, mk_shm h h (s_ckpt s) (s_pages s)).

(** The end of [sqlite3WalFrames]: the frames are entered in the index, and the header is
    brought up to date.  [pages] are the page numbers of the frames that have been written
    behind [mxFrame]. *)
Fixpoint append_loop (pages : list Z) (w : Wal) (iFrame : Z) (s : Shm) : outcome (Z * Z * Wal * Shm) :=
  match pages with
  | [] => Done (SQLITE_OK, iFrame, w, s)
  | pgno :: pages =>
      let iFrame := u32 (iFrame + 1) in
      '(rc, w, s) ← walIndexAppend w iFrame pgno s;
      if negb (rc =? SQLITE_OK) then Done (rc, iFrame, w, s) else append_loop pages w iFrame s
  end.

Definition frames_index (pages : list Z) (szPage nTruncate : Z) (isCommit : bool) (w : Wal) (s : Shm) : outcome (Z * Wal * Shm) :=
  '(rc, iFrame, w, s) ← append_loop pages w (mxFrame (hdr w)) s;
  if negb (rc =? SQLITE_OK) then Done (rc, w, s)
  else
    let h := hdr w in
    let sz := u16 ((szPage .& 0xff00) .| (szPage >> 16)) in
    let w := with_hdr w (if isCommit then set_frames h sz iFrame (u32 (iChange h + 1)) nTruncate else set_frames h sz iFrame (iChange h) (nPage h)) in
    if isCommit then '(w, s) ← walIndexWriteHdr w s; Done (rc, with_callback w iFrame, s) else Done (rc, w, s).

(** ** Moving back *)

Definition set_mxFrame (h : WalIndexHdr) (mx : Z) (cksum : Z * Z) : WalIndexHdr :=
  mk_hdr (iVersion h) (iChange h) (isInit h) (bigEndCksum h) (h_szPage h) mx (nPage h) cksum (aSalt h) (aCksum h).

(** [xUndo] for the frames from [iFrame] on, [n] of them, while it answers SQLITE_OK; the
    last code, and the pages it was called with. *)
Fixpoint undo_loop (n : nat) (w : Wal) (s : Shm) (xUndo : Z -> Z) (iFrame rc : Z) : outcome (Z * list Z) :=
  match n with
  | O => Done (rc, [])
  | S n =>
      if negb (rc =? SQLITE_OK) then Done (rc, [])
      else
        pgno ← walFramePgno w iFrame s;
        '(rc, called) ← undo_loop n w s xUndo (iFrame + 1) (xUndo pgno);
        Done (rc, pgno :: called)
  end.

Definition sqlite3WalUndo (w : Wal) (xUndo : Z -> Z) (s : Shm) : outcome (Z * list Z * Wal * Shm) :=
  if negb (writeLock w) then Done (SQLITE_OK, [], w, s)
  else
    let iMax := mxFrame (hdr w) in
    live ← walIndexHdr w s;
    let w := with_hdr w live in
    '(rc, called) ← undo_loop (Z.to_nat (iMax - mxFrame (hdr w))) w s xUndo (mxFrame (hdr w) + 1) SQLITE_OK;
    '(w, s) ← (if negb (iMax =? mxFrame (hdr w)) then walCleanupHash w s else Done (w, s));
    Done (rc, called, w, s).

(** [aWalData]: [mxFrame], the frame checksum and the checkpoint counter. *)
Definition sqlite3WalSavepoint (w : Wal) : Z * (Z * Z) * Z := (mxFrame (hdr w), aFrameCksum (hdr w), nCkpt w).

(** The array is brought up to date when the log has been restarted since. *)
Definition sqlite3WalSavepointUndo (w : Wal) (aWalData : Z * (Z * Z) * Z) (s : Shm) : outcome (Z * (Z * (Z * Z) * Z) * Wal * Shm) :=
  let '(mx, cksum, ck) := aWalData in
  let mx := if negb (ck =? nCkpt w) then 0 else mx in
  let ck := if negb (ck =? nCkpt w) then nCkpt w else ck in
  '(w, s) ← (if mx <? mxFrame (hdr w) then walCleanupHash (with_hdr w (set_mxFrame (hdr w) mx cksum)) s else Done (w, s));
  Done (SQLITE_OK, (mx, cksum, ck), w, s).

(** * One hash table *)

(** The slot at distance [d] of [h], in the order of probing. *)
Definition probe (h d : Z) : Z := (h + d) mod HASHTABLE_NSLOT.

Record table_ok (base : Z) (l : list Z) (pg : WiPage) : Prop := {
  t_words : length (wi_words pg) = Z.to_nat HASHTABLE_NPAGE;
  t_slots : length (wi_slots pg) = Z.to_nat HASHTABLE_NSLOT;
  t_base : 0 <= base;
  t_len : base + len l <= HASHTABLE_NPAGE;
  t_pos : Forall (fun p => 0 < p < 2 ^ 32) l;
  t_pgno : forall i, 0 <= i -> base + i < HASHTABLE_NPAGE -> (wi_words pg).[base + i] = l.[i];
  t_val : forall j, 0 <= j < HASHTABLE_NSLOT -> 0 <= (wi_slots pg).[j] <= len l;
  t_inj : forall j j', 0 <= j < HASHTABLE_NSLOT -> 0 <= j' < HASHTABLE_NSLOT ->
    (wi_slots pg).[j] = (wi_slots pg).[j'] -> (wi_slots pg).[j] <> 0 -> j = j';
  t_chain : forall i, 0 <= i < len l -> exists d, 0 <= d < HASHTABLE_NSLOT /\
    (wi_slots pg).[probe (walHash l.[i]) d] = i + 1 /\
    forall e, 0 <= e < d -> 0 < (wi_slots pg).[probe (walHash l.[i]) e] <= i
}.

Lemma probe_range h d : 0 <= probe h d < HASHTABLE_NSLOT.
Proof. apply Z.mod_pos_bound. done. Qed.

Lemma probe_inj h d e : 0 <= d < HASHTABLE_NSLOT -> 0 <= e < HASHTABLE_NSLOT -> probe h d = probe h e -> d = e.
Proof. unfold probe. change HASHTABLE_NSLOT with 8192. intros ? ? H. Z.to_euclidean_division_equations. lia. Qed.

Lemma walHash_range p : 0 <= walHash p < HASHTABLE_NSLOT.
Proof. unfold walHash. change (HASHTABLE_NSLOT - 1) with (2 ^ 13 - 1). rewrite land_ones_mod by lia. by apply Z.mod_pos_bound. Qed.

Lemma probe_0 p : probe (walHash p) 0 = walHash p.
Proof. unfold probe. rewrite Z.add_0_r. apply Z.mod_small, walHash_range. Qed.

Lemma walNextHash_probe h d : walNextHash (probe h d) = probe h (d + 1).
Proof.
  unfold walNextHash, probe. change (HASHTABLE_NSLOT - 1) with (2 ^ 13 - 1). rewrite land_ones_mod by lia.
  change (2 ^ 13) with HASHTABLE_NSLOT. rewrite Z.add_mod_idemp_l by done. f_equal. lia.
Qed.

Section table.
Context {base : Z} {l : list Z} {pg : WiPage} (T : table_ok base l pg).

Lemma rd_slot h d : rd (wi_slots pg) (probe h d) = Done (wi_slots pg).[probe h d].
Proof. apply rd_ok. rewrite (t_slots _ _ _ T). pose proof (probe_range h d). lia. Qed.

(** There are no more entries than page numbers, so that a run of used slots ends. *)
Lemma run_short h n : (forall e, 0 <= e < n -> (wi_slots pg).[probe h e] <> 0) -> n <= HASHTABLE_NSLOT -> n <= len l.
Proof.
  intros Hrun Hn. destruct (Z.le_gt_cases n 0); [lia|].
  set (vs := map (fun e => (wi_slots pg).[probe h (Z.of_nat e)]) (seq 0 (Z.to_nat n))).
  assert (NoDup vs) as Hd.
  { apply NoDup_fmap_2_strong; [|apply NoDup_seq]. intros x y [? Hx]%elem_of_seq [? Hy]%elem_of_seq E.
    apply (t_inj _ _ _ T) in E; [|apply probe_range|apply probe_range|apply Hrun; lia].
    apply probe_inj in E; lia. }
  assert (vs ⊆ map (fun k => Z.of_nat k + 1) (seq 0 (length l))) as Hs.
  { intros v. unfold vs. rewrite !list_elem_of_fmap. intros (e & -> & [? He]%elem_of_seq).
    pose proof (Hrun (Z.of_nat e) ltac:(lia)). pose proof (t_val _ _ _ T (probe h (Z.of_nat e)) (probe_range _ _)).
    exists (Z.to_nat ((wi_slots pg).[probe h (Z.of_nat e)] - 1)). split; [lia|apply elem_of_seq; lia]. }
  apply NoDup_submseteq, submseteq_length in Hs; [|done]. unfold vs in Hs. rewrite !length_map, !length_seq in Hs. lia.
Qed.

Lemma first_zero h : exists d, 0 <= d <= len l /\ (wi_slots pg).[probe h d] = 0 /\ forall e, 0 <= e < d -> (wi_slots pg).[probe h e] <> 0.
Proof.
  pose proof (t_len _ _ _ T). pose proof (t_base _ _ _ T).
  assert (forall n : nat, (exists d, 0 <= d < Z.of_nat n /\ (wi_slots pg).[probe h d] = 0 /\ forall e, 0 <= e < d -> (wi_slots pg).[probe h e] <> 0) \/
    (forall e, 0 <= e < Z.of_nat n -> (wi_slots pg).[probe h e] <> 0)) as F.
  { induction n as [|n [(d & ? & ?)|IH]]; [right; lia|left; exists d; split; [lia|done]|].
    destruct (decide ((wi_slots pg).[probe h (Z.of_nat n)] = 0)) as [E|E].
    - left. exists (Z.of_nat n). split; [lia|]. done.
    - right. intros e He. destruct (decide (e = Z.of_nat n)) as [->|]; [done|apply IH; lia]. }
  destruct (F (S (length l))) as [(d & ? & ?)|Hrun].
  - exists d. split; [lia|done].
  - apply run_short in Hrun; [lia|]. change HASHTABLE_NPAGE with 4096 in *. change HASHTABLE_NSLOT with 8192. lia.
Qed.

Lemma free_slot_ok h d fuel : (forall e, 0 <= e < d -> (wi_slots pg).[probe h e] <> 0) -> (wi_slots pg).[probe h d] = 0 ->
  forall e nCollide, 0 <= e <= d -> d - e <= nCollide -> d - e < Z.of_nat fuel -> free_slot fuel (wi_slots pg) (probe h e) nCollide = Done (Some (probe h d)).
Proof.
  intros Hrun Hz. induction fuel as [|fuel IH]; intros e nCollide He Hc Hf; [lia|]. cbn [free_slot].
  rewrite rd_slot. cbn [mbind outcome_bind]. destruct (decide (e = d)) as [->|].
  - by rewrite Hz.
  - rewrite (proj2 (Z.eqb_neq _ _)) by (apply Hrun; lia). rewrite (proj2 (Z.eqb_neq _ _)) by lia.
    rewrite walNextHash_probe. apply IH; lia.
Qed.

(** An entry's slot is at its own distance, and the entries before it in a run are older. *)
Lemma chain_at i d : 0 <= i < len l -> 0 <= d < HASHTABLE_NSLOT -> (wi_slots pg).[probe (walHash l.[i]) d] = i + 1 ->
  forall e, 0 <= e < d -> 0 < (wi_slots pg).[probe (walHash l.[i]) e] <= i.
Proof.
  intros Hi Hd E. destruct (t_chain _ _ _ T i Hi) as (d' & Hd' & E' & Hc).
  assert (d = d') as ->; [|done]. apply (probe_inj (walHash l.[i])); [done|done|].
  apply (t_inj _ _ _ T); [apply probe_range|apply probe_range|congruence|lia].
Qed.
End table.

Lemma ld_app_at (l : list Z) p i : (l ++ [p]).[i] = if decide (0 <= i < len l) then l.[i] else if decide (i = len l) then p else if decide (i < 0) then (l ++ [p]).[0] else 0.
Proof.
  unfold ld. repeat case_decide.
  - by rewrite app_nth1 by lia.
  - subst. rewrite Nat2Z.id, nth_lookup, lookup_app_r by lia. by rewrite Nat.sub_diag.
  - f_equal. lia.
  - rewrite nth_overflow; [done|]. rewrite length_app. simpl. lia.
Qed.

Lemma ld_app_old (l : list Z) p i : 0 <= i < len l -> (l ++ [p]).[i] = l.[i].
Proof. intros Hi. rewrite ld_app_at. by rewrite decide_True. Qed.

Lemma ld_app_new (l : list Z) p i : i = len l -> (l ++ [p]).[i] = p.
Proof. intros ->. rewrite ld_app_at. rewrite decide_False by lia. by rewrite decide_True. Qed.

(** A new entry, in the slot where its run ends. *)
Lemma table_insert base l pg p d words slots :
  table_ok base l pg -> base + len l < HASHTABLE_NPAGE -> 0 < p < 2 ^ 32 -> 0 <= d < HASHTABLE_NSLOT ->
  (wi_slots pg).[probe (walHash p) d] = 0 -> (forall e, 0 <= e < d -> (wi_slots pg).[probe (walHash p) e] <> 0) ->
  words = <[Z.to_nat (base + len l) := p]> (wi_words pg) -> slots = <[Z.to_nat (probe (walHash p) d) := len l + 1]> (wi_slots pg) ->
  table_ok base (l ++ [p]) (mk_wipage words slots).
Proof.
  intros T Hl Hp Hd Hz Hrun -> ->. pose proof T as [Tw Ts Tb Tl Tp Tg Tv Ti Tc].
  assert (len (l ++ [p]) = len l + 1) as El by (rewrite length_app; simpl; lia).
  set (k := probe (walHash p) d) in *. pose proof (probe_range (walHash p) d) as Hk. fold k in Hk.
  assert (forall j, 0 <= j < HASHTABLE_NSLOT -> (<[Z.to_nat k := len l + 1]> (wi_slots pg)).[j] = if decide (k = j) then len l + 1 else (wi_slots pg).[j]) as S.
  { intros j Hj. apply ld_insert; lia. }
  split; cbn [wi_words wi_slots].
  - by rewrite length_insert.
  - by rewrite length_insert.
  - done.
  - lia.
  - apply Forall_app. split; [done|]. by apply Forall_singleton.
  - intros i Hi Hb. rewrite ld_insert by lia. case_decide as E.
    + by rewrite ld_app_new by lia.
    + rewrite Tg by done. destruct (decide (i < len l)); [by rewrite ld_app_old by lia|]. rewrite !ld_beyond by lia. done.
  - intros j Hj. rewrite S by done. rewrite El. case_decide; [lia|]. specialize (Tv j Hj). lia.
  - intros j j' Hj Hj'. rewrite !S by done. pose proof (Tv j Hj). pose proof (Tv j' Hj'). repeat case_decide; intros; try congruence; try lia. by apply Ti.
  - intros i Hi. rewrite El in Hi. destruct (decide (i = len l)) as [->|Hn].
    + exists d. rewrite ld_app_new by done. split; [done|]. rewrite S by apply probe_range. rewrite decide_True by done.
      split; [lia|]. intros e He. rewrite S by apply probe_range. case_decide as E.
      * apply probe_inj in E; lia.
      * pose proof (Tv _ (probe_range (walHash p) e)). specialize (Hrun e He). lia.
    + destruct (Tc i ltac:(lia)) as (d' & Hd' & E' & Hc). exists d'. rewrite ld_app_old by lia. split; [done|].
      assert (forall e, 0 <= e <= d' -> probe (walHash l.[i]) e <> k) as Hne.
      { intros e He E. destruct (decide (e = d')) as [->|]; [rewrite E in E'; lia|]. specialize (Hc e ltac:(lia)). rewrite E in Hc. lia. }
      split.
      * rewrite S by apply probe_range. rewrite decide_False by (apply not_eq_sym, Hne; lia). done.
      * intros e He. rewrite S by apply probe_range. rewrite decide_False by (apply not_eq_sym, Hne; lia). by apply Hc.
Qed.

Lemma ld_firstn (l : list Z) n i : 0 <= i -> (take n l).[i] = if decide (i < Z.of_nat n) then l.[i] else 0.
Proof.
  intros Hi. case_decide.
  - unfold ld. rewrite !nth_lookup, lookup_take_lt by lia. done.
  - apply ld_beyond. rewrite length_take. lia.
Qed.

(** [memset] to zero of the end of the words. *)
Lemma words_zeroed words a : 0 <= a <= HASHTABLE_NPAGE -> length words = Z.to_nat HASHTABLE_NPAGE ->
  exists words', memset words a 0 (HASHTABLE_NPAGE - a) = Done words' /\ length words' = length words /\
    forall j, 0 <= j < HASHTABLE_NPAGE -> words'.[j] = if decide (j < a) then words.[j] else 0.
Proof.
  intros Ha Hl. unfold memset. rewrite (proj2 (Z.ltb_ge _ _)) by lia.
  rewrite blk_write_Some by (rewrite ?length_replicate; lia). eexists. split; [done|]. rewrite length_replicate. split.
  - rewrite !length_app, length_take, length_replicate, length_drop. lia.
  - intros j Hj. unfold ld. rewrite !nth_lookup. case_decide.
    + rewrite lookup_app_l by (rewrite length_take; lia). by rewrite lookup_take_lt by lia.
    + rewrite lookup_app_r by (rewrite length_take; lia). rewrite lookup_app_l by (rewrite length_take, length_replicate; lia).
      rewrite lookup_replicate_2; [done|]. rewrite length_take. lia.
Qed.

(** Removing the newest entries. *)
Lemma cleanup_page_ok base l pg loc n : table_ok base l pg -> hl_base loc = base -> 0 <= n -> n <= len l ->
  exists pg', cleanup_page pg loc n = Done pg' /\ table_ok base (take (Z.to_nat n) l) pg'.
Proof.
  intros T Hb Hn Hl. pose proof T as [Tw Ts Tb Tl Tp Tg Tv Ti Tc]. unfold cleanup_page. rewrite Hb.
  destruct (words_zeroed (wi_words pg) (base + n)) as (words & -> & Lw & W); [lia|done|]. cbn [mbind outcome_bind].
  eexists. split; [done|].
  assert (len (take (Z.to_nat n) l) = n) as El by (rewrite length_take; lia).
  assert (forall j, 0 <= j < HASHTABLE_NSLOT -> (map (fun v => if n <? v then 0 else v) (wi_slots pg)).[j] = if decide ((wi_slots pg).[j] <= n) then (wi_slots pg).[j] else 0) as S.
  { intros j Hj. rewrite ld_map by lia. case_decide; [by rewrite (proj2 (Z.ltb_ge _ _))|by rewrite (proj2 (Z.ltb_lt _ _)) by lia]. }
  split; cbn [wi_words wi_slots].
  - congruence.
  - by rewrite length_map.
  - done.
  - lia.
  - by apply Forall_take.
  - intros i Hi Hbi. rewrite W, ld_firstn by lia. rewrite Tg by done. repeat case_decide; try lia; done.
  - intros j Hj. rewrite S by done. specialize (Tv j Hj). case_decide; lia.
  - intros j j' Hj Hj'. rewrite !S by done. repeat case_decide; try congruence. intros. by apply Ti.
  - intros i Hi. rewrite El in Hi. destruct (Tc i ltac:(lia)) as (d & Hd & E & Hc). exists d. rewrite ld_firstn, decide_True by lia.
    split; [done|]. split.
    + rewrite S by apply probe_range. by rewrite decide_True by lia.
    + intros e He. rewrite S by apply probe_range. specialize (Hc e He). by rewrite decide_True by lia.
Qed.

(** A page whose words and slots have the right number, whatever they hold. *)
Definition page_wf (pg : WiPage) : Prop :=
  length (wi_words pg) = Z.to_nat HASHTABLE_NPAGE /\ length (wi_slots pg) = Z.to_nat HASHTABLE_NSLOT.

Lemma clear_page_ok base loc pg : page_wf pg -> hl_base loc = base -> 0 <= base < HASHTABLE_NPAGE ->
  exists pg', clear_page pg loc = Done pg' /\ table_ok base [] pg'.
Proof.
  intros [Hw Hs] Hb Hbase. unfold clear_page. rewrite Hb.
  destruct (words_zeroed (wi_words pg) base) as (words & -> & Lw & W); [lia|done|]. cbn [mbind outcome_bind].
  eexists. split; [done|]. 
  assert (forall j, 0 <= j < HASHTABLE_NSLOT -> (replicate (length (wi_slots pg)) 0).[j] = 0) as S.
  { intros j Hj. unfold ld. rewrite nth_lookup, lookup_replicate_2 by lia. done. }
  split; cbn [wi_words wi_slots]; try done.
  - congruence.
  - by rewrite length_replicate.
  - lia.
  - simpl. lia.
  - intros i Hi Hbi. rewrite W by lia. rewrite decide_False by lia. by rewrite ld_beyond.
  - intros j Hj. rewrite S by done. simpl. lia.
  - intros j j' Hj Hj' _. rewrite S by done. done.
  - simpl. lia.
Qed.

(** ** Searching one table *)

(** Entry [v] of the table, frame [z + v], is one of those looked for. *)
Definition wanted (l : list Z) (z p lo hi v : Z) : Prop := 1 <= v <= len l /\ lo <= v + z <= hi /\ l.[v - 1] = p.

Section search.
Context {base : Z} {l : list Z} {pg : WiPage} (T : table_ok base l pg) (loc : WalHashLoc) (p lo hi : Z).
Hypothesis Hbase : hl_base loc = base.
Hypothesis Hzero : 0 <= iZero loc /\ iZero loc + len l < 2 ^ 32.

Let slot e := (wi_slots pg).[probe (walHash p) e].

(** [r] is the best of the slots up to distance [e]. *)
Definition best (e r : Z) : Prop :=
  (forall e', 0 <= e' < e -> wanted l (iZero loc) p lo hi (slot e') -> slot e' + iZero loc <= r) /\
  (r = 0 \/ exists e', 0 <= e' < e /\ wanted l (iZero loc) p lo hi (slot e') /\ r = slot e' + iZero loc).

Lemma best_step e r : 0 <= e < HASHTABLE_NSLOT -> slot e <> 0 -> best e r ->
  (wanted l (iZero loc) p lo hi (slot e) -> best (e + 1) (slot e + iZero loc)) /\
  (~ wanted l (iZero loc) p lo hi (slot e) -> best (e + 1) r).
Proof.
  intros He Hne [Hmax Hsome]. split; intros Hw.
  - split; [|right; exists e; split; [lia|done]].
    intros e' He' Hw'. destruct (decide (e' = e)) as [->|]; [done|].
    destruct Hw as ((Hv & _) & _ & Hp). destruct (t_val _ _ _ T _ (probe_range (walHash p) e)) as [_ Hle].
    fold (slot e) in Hle. pose proof (chain_at T (slot e - 1) e) as C. rewrite Hp in C. fold (slot e) in C.
    specialize (C ltac:(lia) ltac:(lia) ltac:(lia) e' ltac:(lia)). fold (slot e') in C. lia.
  - split.
    + intros e' He' Hw'. destruct (decide (e' = e)) as [->|]; [done|]. apply Hmax; [lia|done].
    + destruct Hsome as [?|(e' & ? & ?)]; [by left|]. right. exists e'. split; [lia|done].
Qed.

Lemma find_loop_run d fuel : d <= len l -> slot d = 0 -> (forall e, 0 <= e < d -> slot e <> 0) ->
  forall e nCollide r, 0 <= e <= d -> d - e <= nCollide -> d - e < Z.of_nat fuel -> best e r ->
  exists r', find_loop fuel pg loc p hi lo (probe (walHash p) e) nCollide r = Done (Some r') /\ best d r'.
Proof.
  intros Hdl Hz Hrun. pose proof (t_len _ _ _ T) as Tl. pose proof (t_base _ _ _ T) as Tb.
  change HASHTABLE_NPAGE with 4096 in Tl.
  induction fuel as [|fuel IH]; intros e nCollide r He Hc Hf Hb; [lia|]. cbn [find_loop].
  rewrite (rd_slot T). cbn [mbind outcome_bind]. fold (slot e). destruct (decide (e = d)) as [->|Hed].
  - rewrite Hz. by exists r.
  - rewrite (proj2 (Z.eqb_neq _ _)) by (apply Hrun; lia).
    destruct (t_val _ _ _ T _ (probe_range (walHash p) e)) as [Hv0 Hv1]. fold (slot e) in Hv0, Hv1.
    pose proof (Hrun e ltac:(lia)) as Hne. rewrite u32_id by lia.
    assert (0 <= e < HASHTABLE_NSLOT) as Her by (change HASHTABLE_NSLOT with 8192; lia).
    destruct (best_step e r Her Hne Hb) as [By Bn].
    assert (exists r', (if (slot e + iZero loc <=? hi) && (lo <=? slot e + iZero loc)
       then v ← rd_pgno pg loc (slot e - 1); Done (if v =? p then slot e + iZero loc else r) else Done r) = Done r' /\ best (e + 1) r') as (r' & -> & Hb').
    { destruct (_ && _) eqn:Er.
      - apply andb_true_iff in Er as [?%Z.leb_le ?%Z.leb_le]. unfold rd_pgno. rewrite Hbase, rd_ok.
        2: { rewrite (t_words _ _ _ T). change HASHTABLE_NPAGE with 4096. lia. }
        cbn [mbind outcome_bind]. rewrite (t_pgno _ _ _ T) by (change HASHTABLE_NPAGE with 4096; lia). eexists. split; [done|].
        destruct (Z.eqb_spec l.[slot e - 1] p); [apply By|apply Bn; intros (_ & _ & ?); done]. split; [lia|]. split; [lia|done].
      - exists r. split; [done|]. apply Bn. intros (_ & ? & _). apply andb_false_iff in Er as [?%Z.leb_gt|?%Z.leb_gt]; lia. }
    cbn [mbind outcome_bind]. rewrite (proj2 (Z.eqb_neq _ _)) by lia. rewrite walNextHash_probe. apply IH; [lia|lia|lia|done].
Qed.

(** The search of a table finds the newest entry that is wanted. *)
Lemma find_loop_ok fuel nCollide : len l < nCollide -> len l < Z.of_nat fuel ->
  exists r, find_loop fuel pg loc p hi lo (walHash p) nCollide 0 = Done (Some r) /\
    (forall v, wanted l (iZero loc) p lo hi v -> v + iZero loc <= r) /\
    (r = 0 \/ wanted l (iZero loc) p lo hi (r - iZero loc)).
Proof.
  intros Hc Hf. destruct (first_zero T (walHash p)) as (d & Hd & Hz & Hrun).
  destruct (find_loop_run d fuel ltac:(lia) Hz Hrun 0 nCollide 0 ltac:(lia) ltac:(lia) ltac:(lia)) as (r & E & [Hmax Hsome]).
  { split; [lia|by left]. }
  rewrite probe_0 in E. exists r. split; [done|]. split.
  - intros v Hw. pose proof Hw as (Hv & _ & Hp). destruct (t_chain _ _ _ T (v - 1) ltac:(lia)) as (e & He & Es & Hce).
    rewrite Hp in Es, Hce. replace (v - 1 + 1) with v in Es by lia. change ((wi_slots pg).[_]) with (slot e) in Es.
    destruct (Z.lt_ge_cases e d).
    + rewrite <- Es. apply Hmax; [lia|]. by rewrite Es.
    + exfalso. change ((wi_slots pg).[probe (walHash p) d] = 0) with (slot d = 0) in Hz. destruct (decide (e = d)) as [->|]; [lia|].
      specialize (Hce d ltac:(lia)). change ((wi_slots pg).[_]) with (slot d) in Hce. lia.
  - destruct Hsome as [?|(e & _ & Hw & ->)]; [by left|]. right. by rewrite Z.add_simpl_r.
Qed.
End search.
