(* ===== verification/WalFrame.v ===== *)
(** * WalFrame: the frames of the write-ahead log (sqlite3.c, wal.c)

    The log file is a header of 32 bytes and frames, each a header of 24 bytes and a page.
    [walEncodeFrame], [walDecodeFrame] and the writing of a frame, over any [OsFile]; then
    what a log file means: the list of its valid frames ([valid_frames]).

    The checksum of a frame goes on from that of the frame before: [aFrameCksum] of the
    connection's header is the running value. *)

From S2P Require Import Prelude CType ByteMem Varint OsFile WalCksum WalIndex.

Definition WAL_MAX_VERSION : Z := 3007000.
Definition WAL_FRAME_HDRSIZE : Z := 24.
Definition WAL_HDRSIZE : Z := 32.
Definition WAL_MAGIC : Z := 0x377f0682.
Definition walFrameOffset (iFrame szPage : Z) : Z := WAL_HDRSIZE + u32 (iFrame - 1) * (szPage + WAL_FRAME_HDRSIZE).
Definition WAL_SYNC_FLAGS (X : Z) : Z := X .& 0x03.
Definition CKPT_SYNC_FLAGS (X : Z) : Z := (X >> 2) .& 0x03.

Definition set_cksum (h : WalIndexHdr) (c : Z * Z) : WalIndexHdr :=
  mk_hdr (iVersion h) (iChange h) (isInit h) (bigEndCksum h) (h_szPage h) (mxFrame h) (nPage h) c (aSalt h) (WalCksum.aCksum h).
Definition with_cksum (w : Wal) (c : Z * Z) : Wal := with_hdr w (set_cksum (hdr w) c).

(** ** One frame *)

(** The header of the frame; the running checksum goes on over it and the page. *)
Definition walEncodeFrame (w : Wal) (iPage nTruncate : Z) (aData : bytes) : outcome (bytes * Wal) :=
  let aFrame := sqlite3Put4byte iPage ++ sqlite3Put4byte nTruncate in
  if iReCksum w =? 0 then
    let aFrame := aFrame ++ aSalt (hdr w) in
    let nativeCksum := bigEndCksum (hdr w) =? SQLITE_BIGENDIAN in
    aCksum ← walChecksumBytes nativeCksum aFrame 8 (Some (aFrameCksum (hdr w)));
    aCksum ← walChecksumBytes nativeCksum aData (szPage w) (Some aCksum);
    Done (aFrame ++ sqlite3Put4byte (fst aCksum) ++ sqlite3Put4byte (snd aCksum), with_cksum w aCksum)
  else Done (aFrame ++ replicate 16 0, w).

(** [memcmp] of the salt with the bytes of the frame from [p] on. *)
Definition same_bytes (a : bytes) (p : Z) (s : bytes) : outcome bool :=
  match blk_read a p (len s) with Some l => Done (bool_decide (l = s)) | None => UB end.

(** The page number and the database size of a valid frame. *)
Definition walDecodeFrame (w : Wal) (aData aFrame : bytes) : outcome (option (Z * Z) * Wal) :=
  same ← same_bytes aFrame 8 (aSalt (hdr w));
  if negb same then Done (None, w)
  else
    pgno ← get4byte aFrame 0;
    if pgno =? 0 then Done (None, w)
    else
      let nativeCksum := bigEndCksum (hdr w) =? SQLITE_BIGENDIAN in
      aCksum ← walChecksumBytes nativeCksum aFrame 8 (Some (aFrameCksum (hdr w)));
      aCksum ← walChecksumBytes nativeCksum aData (szPage w) (Some aCksum);
      let w := with_cksum w aCksum in
      c0 ← get4byte aFrame 16; c1 ← get4byte aFrame 20;
      if negb (fst aCksum =? c0) || negb (snd aCksum =? c1) then Done (None, w)
      else nTruncate ← get4byte aFrame 4; Done (Some (pgno, nTruncate), w).

(** ** Writing *)

Record WalWriter := mk_writer { iSyncPoint : Z; ww_syncFlags : Z; ww_szPage : Z }.

Section write.
Context {F : Type} `{OsFile F}.

Definition walWriteToLog (p : WalWriter) (pContent : bytes) (iOffset : Z) (fd : F) : Z * F :=
  let iAmt := len pContent in
  if (iOffset <? iSyncPoint p) && (iSyncPoint p <=? iOffset + iAmt) then
    let iFirstAmt := i32 (iSyncPoint p - iOffset) in
    let '(rc, fd) := sqlite3OsWrite fd (take (Z.to_nat iFirstAmt) pContent) iOffset in
    if negb (rc =? SQLITE_OK) then (rc, fd)
    else
      let '(rc, fd) := sqlite3OsSync fd (WAL_SYNC_FLAGS (ww_syncFlags p)) in
      if (iAmt - iFirstAmt =? 0) || negb (rc =? SQLITE_OK) then (rc, fd)
      else sqlite3OsWrite fd (drop (Z.to_nat iFirstAmt) pContent) (iOffset + iFirstAmt)
  else sqlite3OsWrite fd pContent iOffset.

(** The page [pPage]: its number and its content, of [szPage] bytes. *)
Definition walWriteOneFrame (p : WalWriter) (w : Wal) (pgno : Z) (pData : bytes) (nTruncate iOffset : Z) (fd : F) : outcome (Z * Wal * F) :=
  '(aFrame, w) ← walEncodeFrame w pgno nTruncate pData;
  let '(rc, fd) := walWriteToLog p aFrame iOffset fd in
  if negb (rc =? SQLITE_OK) then Done (rc, w, fd)
  else let '(rc, fd) := walWriteToLog p (take (Z.to_nat (ww_szPage p)) pData) (iOffset + len aFrame) fd in Done (rc, w, fd).
End write.

(** * The meaning of a log file *)

Record Frame := mk_frame { f_pgno : Z; f_trunc : Z; f_page : bytes }.

Definition frame_ok (szPage : Z) (f : Frame) : Prop :=
  0 < f_pgno f < 2 ^ 32 /\ 0 <= f_trunc f < 2 ^ 32 /\ len (f_page f) = szPage /\ bytes_ok (f_page f).

Definition page_size_ok (szPage : Z) : Prop := 0 < szPage <= 65536 /\ szPage mod 8 = 0.

Definition cksum_of (native : bool) (a : bytes) (n : Z) (s : Z * Z) : Z * Z := cksum_spec native a 0 (Z.to_nat (n / 8)) s.

Definition cksum_range (s : Z * Z) : Prop := 0 <= fst s < 2 ^ 32 /\ 0 <= snd s < 2 ^ 32.

(** The first eight bytes of a frame, and the checksum after it. *)
Definition frame_head (f : Frame) : bytes := sqlite3Put4byte (f_pgno f) ++ sqlite3Put4byte (f_trunc f).
Definition frame_cksum (native : bool) (szPage : Z) (s : Z * Z) (f : Frame) : Z * Z :=
  cksum_of native (f_page f) szPage (cksum_of native (frame_head f) 8 s).

Definition put_cksum (s : Z * Z) : bytes := sqlite3Put4byte (fst s) ++ sqlite3Put4byte (snd s).

(** The bytes of a frame after the checksum [s], and of a list of frames. *)
Definition frame_bytes (native : bool) (salt : bytes) (szPage : Z) (s : Z * Z) (f : Frame) : bytes :=
  frame_head f ++ salt ++ put_cksum (frame_cksum native szPage s f) ++ f_page f.

Fixpoint log_bytes (native : bool) (salt : bytes) (szPage : Z) (s : Z * Z) (fs : list Frame) : bytes :=
  match fs with
  | [] => []
  | f :: fs => frame_bytes native salt szPage s f ++ log_bytes native salt szPage (frame_cksum native szPage s f) fs
  end.

Definition log_cksum (native : bool) (szPage : Z) (s : Z * Z) (fs : list Frame) : Z * Z := fold_left (frame_cksum native szPage) fs s.

(** A four-byte number of a file. *)
Definition be32 (d : bytes) (p : Z) : Z := d.[p] * 2 ^ 24 + d.[p + 1] * 2 ^ 16 + d.[p + 2] * 2 ^ 8 + d.[p + 3].

(** The frame that the bytes [d] begin with, if it is valid after [s]. *)
Definition first_frame (native : bool) (salt : bytes) (szPage : Z) (s : Z * Z) (d : bytes) : option Frame :=
  let f := mk_frame (be32 d 0) (be32 d 4) (sub d 24 szPage) in
  let c := frame_cksum native szPage s f in
  if (24 + szPage <=? len d) && bool_decide (sub d 8 8 = salt) && negb (be32 d 0 =? 0) && (be32 d 16 =? fst c) && (be32 d 20 =? snd c) then Some f else None.

(** All the valid frames, in order. *)
Fixpoint valid_frames (fuel : nat) (native : bool) (salt : bytes) (szPage : Z) (s : Z * Z) (d : bytes) : list Frame :=
  match fuel with
  | O => []
  | S fuel =>
      match first_frame native salt szPage s d with
      | Some f => f :: valid_frames fuel native salt szPage (frame_cksum native szPage s f) (drop (Z.to_nat (24 + szPage)) d)
      | None => []
      end
  end.

(** ** Lemmas *)

Lemma put4byte_length v : len (sqlite3Put4byte v) = 4.
Proof. done. Qed.

Lemma be32_put a v g : bytes_ok a -> be32 (a ++ sqlite3Put4byte v ++ g) (len a) = u32 v.
Proof.
  intros Ha. unfold be32. rewrite !(ld_app_r a) by lia.
  replace (len a - len a) with 0 by lia. replace (len a + 1 - len a) with 1 by lia. replace (len a + 2 - len a) with 2 by lia. replace (len a + 3 - len a) with 3 by lia. rewrite !ld_app_l by (rewrite put4byte_length; lia).
  unfold sqlite3Put4byte, ld. change (Z.to_nat 0) with 0%nat. change (Z.to_nat 1) with 1%nat. change (Z.to_nat 2) with 2%nat. change (Z.to_nat 3) with 3%nat.
  cbn [nth app]. unfold u8, u32. rewrite !Z.shiftr_div_pow2 by lia.
  change (2 ^ 24) with (2 ^ 8 * 2 ^ 8 * 2 ^ 8). change (2 ^ 16) with (2 ^ 8 * 2 ^ 8). change (2 ^ 32) with (2 ^ 8 * 2 ^ 8 * 2 ^ 8 * 2 ^ 8).
  rewrite <- !Zdiv_Zdiv by lia. rewrite !Z.rem_mul_r by lia. rewrite <- !Zdiv_Zdiv by lia. change (2 ^ 8) with 256. lia.
Qed.

Lemma get4byte_be32 d p : bytes_ok d -> 0 <= p -> p + 4 <= len d -> get4byte d p = Done (be32 d p).
Proof.
  intros Hd Hp Hl. unfold get4byte, sqlite3Get4byte, be32. rewrite !lookup_drop.
  assert (forall i : nat, (i < 4)%nat -> d !! (Z.to_nat p + i)%nat = Some d.[p + Z.of_nat i]) as L.
  { intros i Hi. unfold ld. rewrite nth_lookup. replace (Z.to_nat (p + Z.of_nat i)) with (Z.to_nat p + i)%nat by lia.
    destruct (lookup_lt_is_Some_2 d (Z.to_nat p + i) ltac:(lia)) as [x ->]. done. }
  rewrite (L 0%nat), (L 1%nat), (L 2%nat), (L 3%nat) by lia. cbn [mbind option_bind]. f_equal.
  change (Z.of_nat 0) with 0. change (Z.of_nat 1) with 1. change (Z.of_nat 2) with 2. change (Z.of_nat 3) with 3. rewrite Z.add_0_r.
  pose proof (ld_ok d p Hd). pose proof (ld_ok d (p + 1) Hd). pose proof (ld_ok d (p + 2) Hd). pose proof (ld_ok d (p + 3) Hd).
  rewrite <- !Z.lor_assoc. rewrite (shl_lor_add d.[p + 2]) by lia. rewrite (shl_lor_add d.[p + 1]) by lia. rewrite (shl_lor_add d.[p]) by lia. lia.
Qed.

Lemma be32_range d p : bytes_ok d -> 0 <= be32 d p < 2 ^ 32.
Proof.
  intros Hd. unfold be32. pose proof (ld_ok d p Hd). pose proof (ld_ok d (p + 1) Hd). pose proof (ld_ok d (p + 2) Hd). pose proof (ld_ok d (p + 3) Hd). lia.
Qed.

Lemma walChecksumBytes_of native a n s : bytes_ok a -> 0 < n <= len a -> n mod 8 = 0 -> walChecksumBytes native a n (Some s) = Done (cksum_of native a n s).
Proof.
  intros Ha Hn Hm. pose proof (Z_div_mod_eq_full n 8) as E. replace n with (8 * Z.of_nat (S (Z.to_nat (n / 8 - 1)))) at 1 by lia.
  rewrite walChecksumBytes_ok by (done || lia). unfold cksum_of. do 2 f_equal. lia.
Qed.

Lemma cksum_of_range native a n s : cksum_range s -> cksum_range (cksum_of native a n s).
Proof. intros [? ?]. by apply cksum_spec_range. Qed.

Lemma frame_cksum_range native szPage s f : cksum_range s -> cksum_range (frame_cksum native szPage s f).
Proof. intros. by apply cksum_of_range, cksum_of_range. Qed.

Lemma frame_bytes_length native salt szPage s f : len salt = 8 -> len (f_page f) = szPage -> len (frame_bytes native salt szPage s f) = 24 + szPage.
Proof. intros Hs Hp. unfold frame_bytes, frame_head, put_cksum. rewrite !length_app. pose proof (put4byte_length 0). cbn in *. lia. Qed.

Lemma frame_bytes_ok native salt szPage s f : bytes_ok salt -> bytes_ok (f_page f) -> bytes_ok (frame_bytes native salt szPage s f).
Proof. intros. unfold frame_bytes, frame_head, put_cksum. rewrite !Forall_app. by split_and!; try apply put4byte_bytes. Qed.

Lemma put4byte_be32 d p : bytes_ok d -> 0 <= p -> p + 4 <= len d -> sqlite3Put4byte (be32 d p) = sub d p 4.
Proof.
  intros Hd Hp Hl. pose proof (ld_ok d p Hd). pose proof (ld_ok d (p + 1) Hd). pose proof (ld_ok d (p + 2) Hd). pose proof (ld_ok d (p + 3) Hd).
  pose proof (sub_length d p 4 Hp ltac:(lia) Hl) as L. apply bytes_ext; [cbn; lia|]. intros j Hj. rewrite put4byte_length in Hj. rewrite ld_sub by lia.
  unfold sqlite3Put4byte, be32, u8. rewrite !Z.shiftr_div_pow2 by lia. change (2 ^ 24) with 16777216. change (2 ^ 16) with 65536. change (2 ^ 8) with 256.
  assert (j = 0 \/ j = 1 \/ j = 2 \/ j = 3) as [-> | [-> | [-> | ->]]] by lia; unfold ld at 1; change (Z.to_nat 0) with 0%nat; change (Z.to_nat 1) with 1%nat; change (Z.to_nat 2) with 2%nat; change (Z.to_nat 3) with 3%nat; cbn [nth].
  - rewrite Z.add_0_r. Z.to_euclidean_division_equations. lia.
  - Z.to_euclidean_division_equations. lia.
  - Z.to_euclidean_division_equations. lia.
  - Z.to_euclidean_division_equations. lia.
Qed.

(** [native], the salt and the checksum of a connection. *)
Definition wal_native (w : Wal) : bool := bigEndCksum (hdr w) =? SQLITE_BIGENDIAN.
Definition wal_salt (w : Wal) : bytes := aSalt (hdr w).

Record wal_frames_ok (w : Wal) : Prop := {
  wf_size : page_size_ok (szPage w);
  wf_salt : len (wal_salt w) = 8 /\ bytes_ok (wal_salt w);
  wf_cksum : cksum_range (aFrameCksum (hdr w))
}.

Lemma with_cksum_ok w c : wal_frames_ok w -> cksum_range c -> wal_frames_ok (with_cksum w c).
Proof. intros [] Hc. by split. Qed.

Lemma frame_head_ok f : bytes_ok (frame_head f) /\ len (frame_head f) = 8.
Proof. split; [unfold frame_head; apply Forall_app; split; apply put4byte_bytes|done]. Qed.

Lemma walEncodeFrame_ok w f : wal_frames_ok w -> iReCksum w = 0 -> frame_ok (szPage w) f ->
  let s := frame_cksum (wal_native w) (szPage w) (aFrameCksum (hdr w)) f in
  walEncodeFrame w (f_pgno f) (f_trunc f) (f_page f) = Done (frame_head f ++ wal_salt w ++ put_cksum s, with_cksum w s).
Proof.
  intros [[Hs1 Hs2] [Hl Hb] Hc] Hre (Hp & Ht & Hlen & Hbp) s. unfold walEncodeFrame. rewrite Hre. cbn [Z.eqb].
  fold (frame_head f). fold (wal_salt w). fold (wal_native w). destruct (frame_head_ok f) as [Bh Lh].
  rewrite walChecksumBytes_of; [|by apply Forall_app|rewrite length_app; lia|done]. cbn [mbind outcome_bind].
  rewrite walChecksumBytes_of by (done || lia). cbn [mbind outcome_bind].
  assert (cksum_of (wal_native w) (frame_head f ++ wal_salt w) 8 (aFrameCksum (hdr w)) = cksum_of (wal_native w) (frame_head f) 8 (aFrameCksum (hdr w))) as E.
  { apply cksum_spec_ext. intros j Hj. apply ld_app_l. change (Z.to_nat (8 / 8)) with 1%nat in Hj. lia. }
  rewrite E. fold (frame_cksum (wal_native w) (szPage w) (aFrameCksum (hdr w)) f). fold s. unfold put_cksum. by rewrite <- app_assoc.
Qed.

(** Of a buffer with a frame the decoder accepts exactly the valid frames. *)
Lemma walDecodeFrame_ok w buf : wal_frames_ok w -> bytes_ok buf -> len buf = 24 + szPage w ->
  exists c, cksum_range c /\
    walDecodeFrame w (drop 24 buf) buf = Done (f ← first_frame (wal_native w) (wal_salt w) (szPage w) (aFrameCksum (hdr w)) buf; Some (f_pgno f, f_trunc f), with_cksum w c) /\
    forall f, first_frame (wal_native w) (wal_salt w) (szPage w) (aFrameCksum (hdr w)) buf = Some f -> c = frame_cksum (wal_native w) (szPage w) (aFrameCksum (hdr w)) f.
Proof.
  intros [[Hs1 Hs2] [Hl Hb] Hc] Hbuf Hlen. set (s := aFrameCksum (hdr w)) in *.
  assert (with_cksum w s = w) as Ew by (unfold with_cksum, set_cksum, with_hdr; destruct w as [? ? ? ? ? ? ? ? ? ? ? ? ? ? ? h ? ? ?]; by destruct h).
  unfold walDecodeFrame, first_frame, same_bytes. fold (wal_salt w). rewrite blk_read_Some, Hl by lia. fold (sub buf 8 8). cbn [mbind outcome_bind].
  rewrite (proj2 (Z.leb_le _ _)) by lia. cbn [andb]. case_bool_decide as Esalt; cbn [andb negb].
  2: { exists s. split; [done|]. cbn [mbind option_bind]. by rewrite Ew. }
  rewrite !get4byte_be32 by (done || lia). cbn [mbind outcome_bind]. destruct (Z.eqb_spec (be32 buf 0) 0) as [E0|N0]; cbn [negb andb].
  { exists s. split; [done|]. cbn [mbind option_bind]. by rewrite Ew. }
  fold (wal_native w). rewrite walChecksumBytes_of by (done || lia). cbn [mbind outcome_bind].
  assert (drop 24 buf = sub buf 24 (szPage w)) as Ed by (unfold sub; rewrite take_ge; [done|rewrite length_drop; lia]).
  rewrite Ed. pose proof (sub_length buf 24 (szPage w) ltac:(lia) ltac:(lia) ltac:(lia)) as Ls.
  rewrite walChecksumBytes_of by (lia || done || by apply sub_ok). cbn [mbind outcome_bind].
  set (f := mk_frame (be32 buf 0) (be32 buf 4) (sub buf 24 (szPage w))).
  assert (cksum_of (wal_native w) (sub buf 24 (szPage w)) (szPage w) (cksum_of (wal_native w) buf 8 s) = frame_cksum (wal_native w) (szPage w) s f) as Ec.
  { unfold frame_cksum. f_equal. apply cksum_spec_ext. intros j Hj. change (Z.to_nat (8 / 8)) with 1%nat in Hj. unfold frame_head. cbn [f_pgno f_trunc f].
    rewrite !put4byte_be32 by (done || lia). pose proof (sub_length buf 0 4 ltac:(lia) ltac:(lia) ltac:(lia)) as L0.
    rewrite ld_app by lia. destruct (Z.ltb_spec j (len (sub buf 0 4))); rewrite ld_sub by lia; f_equal; lia. }
  fold s. rewrite Ec. set (c := frame_cksum _ _ _ _). rewrite !(Z.eqb_sym (fst c)), !(Z.eqb_sym (snd c)).
  exists c. split; [by apply frame_cksum_range|]. destruct (be32 buf 16 =? fst c); cbn [negb orb andb]; [|by split].
  destruct (be32 buf 20 =? snd c); cbn [negb]; [|by split]. cbn [mbind outcome_bind option_bind]. split; [done|]. by intros f' [= <-].
Qed.

(** ** Writing a frame *)

Section writing.
Context {F : Type} `{OsFileLaws F}.

Lemma walWriteToLog_ok p b off (fd : F) : os_ok fd -> 0 <= off -> off + len b < 2 ^ 62 -> len b < 2 ^ 31 -> bytes_ok b -> b <> [] ->
  exists rc fd', walWriteToLog p b off fd = (rc, fd') /\ os_ok fd' /\ write_result (os_data fd) (os_data fd') off b rc /\
    (forall n, os_fine fd n -> off + len b <= n -> rc = SQLITE_OK /\ os_fine fd' n).
Proof.
  intros Hok Ho Hlim Hlb Hb Hne. unfold walWriteToLog.
  destruct (Z.ltb_spec off (iSyncPoint p)) as [H1|H1]; cbn [andb]; [|by apply os_write].
  destruct (Z.leb_spec (iSyncPoint p) (off + len b)) as [H2|H2]; [|by apply os_write].
  rewrite (swrap_id 32) by (unfold in_i; lia). set (k := iSyncPoint p - off). 
  pose proof (take_drop (Z.to_nat k) b) as Eb. assert (len (take (Z.to_nat k) b) = k) as Lk by (rewrite length_take; lia).
  assert (take (Z.to_nat k) b <> []) as Hk by (intros E; rewrite E in Lk; cbn in Lk; lia).
  destruct (os_write fd (take (Z.to_nat k) b) off Hok Ho ltac:(lia) ltac:(by apply Forall_take) Hk) as (rc1 & fd1 & -> & Hok1 & Hw1 & Hf1).
  destruct (Z.eqb_spec rc1 SQLITE_OK) as [->|Hrc1]; cbn [negb].
  2: { exists rc1, fd1. split; [done|]. split; [done|]. split; [rewrite <- Eb; by apply write_result_more|].
       intros n Hn Hl. by destruct (Hf1 n Hn ltac:(lia)). }
  destruct (os_sync fd1 (WAL_SYNC_FLAGS (ww_syncFlags p)) Hok1) as (rc2 & fd2 & -> & Hok2 & E2 & Hf2).
  destruct (Z.eqb_spec (len b - k) 0) as [E0|N0]; cbn [orb].
  { exists rc2, fd2. split; [done|]. split; [done|]. rewrite E2. split.
    - rewrite take_ge in Hw1 by lia. unfold write_result in *. cbn in Hw1. destruct (rc2 =? SQLITE_OK); [done|]. right. exists (length b). rewrite take_ge by lia. split; [lia|done].
    - intros n Hn Hl. apply Hf2. by apply Hf1; [|lia]. }
  destruct (Z.eqb_spec rc2 SQLITE_OK) as [->|Hrc2]; cbn [negb].
  2: { exists rc2, fd2. split; [done|]. split; [done|]. rewrite E2. split.
       - unfold write_result in *. cbn in Hw1. rewrite (proj2 (Z.eqb_neq _ _) Hrc2). right. exists (Z.to_nat k). split; [lia|done].
       - intros n Hn Hl. destruct (Hf1 n Hn ltac:(lia)) as [_ H1']. by destruct (Hf2 n H1'). }
  assert (len (drop (Z.to_nat k) b) = len b - k) as Ld by (rewrite length_drop; lia).
  destruct (os_write fd2 (drop (Z.to_nat k) b) (off + k) Hok2 ltac:(lia) ltac:(lia) ltac:(by apply Forall_drop)) as (rc3 & fd3 & -> & Hok3 & Hw3 & Hf3).
  { intros E. rewrite E in Ld. cbn in Ld. lia. }
  exists rc3, fd3. split; [done|]. split; [done|]. split.
  - rewrite <- Eb. rewrite E2 in Hw3. apply write_result_app with (d1 := os_data fd1); [done|done|done|by rewrite Lk].
  - intros n Hn Hl. apply Hf3; [|lia]. apply Hf2. by apply Hf1; [|lia].
Qed.

(** A frame header and a page, whatever the header is. *)
Lemma walWriteOneFrame_two p w w' pgno pData nTruncate a off (fd : F) : walEncodeFrame w pgno nTruncate pData = Done (a, w') -> len a = 24 -> bytes_ok a ->
  0 < len pData <= 65536 -> ww_szPage p = len pData -> bytes_ok pData -> os_ok fd -> 0 <= off < 2 ^ 60 ->
  exists rc fd', walWriteOneFrame p w pgno pData nTruncate off fd = Done (rc, w', fd') /\ os_ok fd' /\
    write_result (os_data fd) (os_data fd') off (a ++ pData) rc /\
    (forall n, os_fine fd n -> off + 24 + len pData <= n -> rc = SQLITE_OK /\ os_fine fd' n).
Proof.
  intros E La Ba Hlen Hsz Hbp Hok Ho. unfold walWriteOneFrame. rewrite E. cbn [mbind outcome_bind].
  destruct (walWriteToLog_ok p a off fd Hok ltac:(lia) ltac:(lia) ltac:(lia) Ba) as (rc1 & fd1 & -> & Hok1 & Hw1 & Hf1); [by destruct a|].
  destruct (Z.eqb_spec rc1 SQLITE_OK) as [->|Hrc1]; cbn [negb].
  2: { exists rc1, fd1. split; [done|]. split; [done|]. split; [by apply write_result_more|]. intros n Hn Hle. by destruct (Hf1 n Hn ltac:(lia)). }
  rewrite Hsz, take_ge by lia.
  destruct (walWriteToLog_ok p pData (off + len a) fd1 Hok1 ltac:(lia) ltac:(lia) ltac:(lia) Hbp) as (rc2 & fd2 & -> & Hok2 & Hw2 & Hf2); [intros ->; cbn in Hlen; lia|].
  exists rc2, fd2. split; [done|]. split; [done|]. split.
  - eapply write_result_app; [lia|by destruct a|exact Hw1|done].
  - intros n Hn Hle. apply Hf2; [|lia]. by apply Hf1; [|lia].
Qed.

Lemma walWriteOneFrame_ok p w f off (fd : F) : wal_frames_ok w -> iReCksum w = 0 -> ww_szPage p = szPage w -> frame_ok (szPage w) f ->
  os_ok fd -> 0 <= off < 2 ^ 60 ->
  exists rc fd', walWriteOneFrame p w (f_pgno f) (f_page f) (f_trunc f) off fd =
      Done (rc, with_cksum w (frame_cksum (wal_native w) (szPage w) (aFrameCksum (hdr w)) f), fd') /\ os_ok fd' /\
    write_result (os_data fd) (os_data fd') off (frame_bytes (wal_native w) (wal_salt w) (szPage w) (aFrameCksum (hdr w)) f) rc /\
    (forall n, os_fine fd n -> off + 24 + szPage w <= n -> rc = SQLITE_OK /\ os_fine fd' n).
Proof.
  intros Hw Hre Hsz Hf Hok Ho. pose proof Hw as [[Hs1 Hs2] [Hl Hb] Hc]. pose proof Hf as (Hp & Ht & Hlen & Hbp). destruct (frame_head_ok f) as [Bh Lh].
  set (s := frame_cksum (wal_native w) (szPage w) (aFrameCksum (hdr w)) f). set (a := frame_head f ++ wal_salt w ++ put_cksum s).
  assert (len a = 24) as La by (unfold a, put_cksum; rewrite !length_app; pose proof (put4byte_length 0); cbn in *; lia).
  assert (bytes_ok a) as Ba by (unfold a, put_cksum; rewrite !Forall_app; split_and!; try apply put4byte_bytes; done).
  assert (frame_bytes (wal_native w) (wal_salt w) (szPage w) (aFrameCksum (hdr w)) f = a ++ f_page f) as -> by (unfold frame_bytes, a; by rewrite <- !app_assoc).
  replace (off + 24 + szPage w) with (off + 24 + len (f_page f)) by lia.
  apply (walWriteOneFrame_two p w _ _ _ _ a); [by apply walEncodeFrame_ok|done|done|lia|lia|done|done|done].
Qed.
End writing.

(** ** Reading the log back *)

Lemma sub_app_l a b n : n = len a -> sub (a ++ b) 0 n = a.
Proof. intros ->. unfold sub. rewrite drop_0, take_app_le by lia. apply take_ge. lia. Qed.

Lemma sub_app_r a b off n : len a <= off -> sub (a ++ b) off n = sub b (off - len a) n.
Proof. intros Ho. unfold sub. rewrite drop_app_ge by lia. do 2 f_equal. lia. Qed.

Lemma frame_eta f : mk_frame (f_pgno f) (f_trunc f) (f_page f) = f.
Proof. by destruct f. Qed.

Section parse.
Context (native : bool) (salt : bytes) (szPage : Z).
Hypothesis Hsalt : len salt = 8 /\ bytes_ok salt.
Hypothesis Hsize : page_size_ok szPage.

Lemma first_frame_bytes s f tail : frame_ok szPage f -> cksum_range s -> first_frame native salt szPage s (frame_bytes native salt szPage s f ++ tail) = Some f.
Proof.
  intros (Hp & Ht & Hlen & Hbp) Hs. destruct Hsalt as [Hl Hb]. pose proof (frame_cksum_range native szPage s f Hs) as [R1 R2]. set (c := frame_cksum native szPage s f) in *.
  set (a := sqlite3Put4byte (f_pgno f) ++ sqlite3Put4byte (f_trunc f)).
  assert (frame_bytes native salt szPage s f ++ tail = sqlite3Put4byte (f_pgno f) ++ sqlite3Put4byte (f_trunc f) ++ salt ++ sqlite3Put4byte (fst c) ++ sqlite3Put4byte (snd c) ++ f_page f ++ tail) as E.
  { unfold frame_bytes, frame_head, put_cksum. fold c. by rewrite <- !app_assoc. }
  pose proof (put4byte_bytes (f_pgno f)) as B1. pose proof (put4byte_bytes (f_trunc f)) as B2. pose proof (put4byte_bytes (fst c)) as B3.
  assert (be32 (frame_bytes native salt szPage s f ++ tail) 0 = f_pgno f) as E0.
  { rewrite E. pose proof (be32_put [] (f_pgno f)) as G. cbn [app length] in G. change (Z.of_nat 0) with 0 in G. rewrite G by constructor. apply u32_id; lia. }
  assert (be32 (frame_bytes native salt szPage s f ++ tail) 4 = f_trunc f) as E4.
  { rewrite E. pose proof (be32_put _ (f_trunc f) (salt ++ sqlite3Put4byte (fst c) ++ sqlite3Put4byte (snd c) ++ f_page f ++ tail) B1) as G. rewrite put4byte_length in G. rewrite G. apply u32_id; lia. }
  assert (be32 (frame_bytes native salt szPage s f ++ tail) 16 = fst c) as E16.
  { rewrite E. assert (bytes_ok (sqlite3Put4byte (f_pgno f) ++ sqlite3Put4byte (f_trunc f) ++ salt)) as Bq by (rewrite !Forall_app; done).
    pose proof (be32_put _ (fst c) (sqlite3Put4byte (snd c) ++ f_page f ++ tail) Bq) as G. rewrite !length_app in G. rewrite <- !app_assoc in G.
    replace (Z.of_nat _) with 16 in G by (cbn; lia). rewrite G. apply u32_id; lia. }
  assert (be32 (frame_bytes native salt szPage s f ++ tail) 20 = snd c) as E20.
  { rewrite E. assert (bytes_ok (sqlite3Put4byte (f_pgno f) ++ sqlite3Put4byte (f_trunc f) ++ salt ++ sqlite3Put4byte (fst c))) as Bq by (rewrite !Forall_app; done).
    pose proof (be32_put _ (snd c) (f_page f ++ tail) Bq) as G. rewrite !length_app in G. rewrite <- !app_assoc in G.
    replace (Z.of_nat _) with 20 in G by (cbn; lia). rewrite G. apply u32_id; lia. }
  assert (sub (frame_bytes native salt szPage s f ++ tail) 24 szPage = f_page f) as Ep.
  { rewrite E. rewrite !sub_app_r by (rewrite ?put4byte_length; lia). rewrite !put4byte_length, Hl. apply sub_app_l. lia. }
  assert (sub (frame_bytes native salt szPage s f ++ tail) 8 8 = salt) as Es.
  { rewrite E. rewrite !(sub_app_r (sqlite3Put4byte _)) by (rewrite ?put4byte_length; lia). rewrite !put4byte_length. apply sub_app_l. lia. }
  unfold first_frame. rewrite E0, E4, E16, E20, Ep, Es, frame_eta. fold c. rewrite length_app. pose proof (frame_bytes_length native salt szPage s f Hl Hlen).
  rewrite (proj2 (Z.leb_le _ _)) by lia. rewrite bool_decide_eq_true_2 by done. rewrite (proj2 (Z.eqb_neq _ _)) by lia. by rewrite !Z.eqb_refl.
Qed.

(** The valid frames of a log that was written, and what follows. *)
Lemma valid_frames_log fs : forall s fuel tail, Forall (frame_ok szPage) fs -> cksum_range s ->
  valid_frames (length fs + fuel) native salt szPage s (log_bytes native salt szPage s fs ++ tail) = fs ++ valid_frames fuel native salt szPage (log_cksum native szPage s fs) tail.
Proof.
  induction fs as [|f fs IH]; intros s fuel tail Hf Hs; [done|]. apply Forall_cons in Hf as [Hf Hfs]. cbn [log_bytes length Nat.add valid_frames app].
  rewrite <- app_assoc, first_frame_bytes by done. f_equal. pose proof Hf as (_ & _ & Hlen & _). pose proof (frame_bytes_length native salt szPage s f (proj1 Hsalt) Hlen).
  destruct Hsize. rewrite drop_app_ge by lia. replace (Z.to_nat (24 + szPage) - _)%nat with 0%nat by lia. rewrite drop_0.
  rewrite IH; [done|done|by apply frame_cksum_range].
Qed.

Lemma log_bytes_length fs : forall s, Forall (frame_ok szPage) fs -> len (log_bytes native salt szPage s fs) = len fs * (24 + szPage).
Proof.
  induction fs as [|f fs IH]; intros s Hf; [done|]. apply Forall_cons in Hf as [(_ & _ & Hlen & _) Hfs]. cbn [log_bytes length]. rewrite length_app, Nat2Z.inj_add.
  rewrite IH by done. rewrite frame_bytes_length by (done || apply Hsalt). lia.
Qed.

Lemma log_bytes_ok fs : forall s, Forall (frame_ok szPage) fs -> bytes_ok (log_bytes native salt szPage s fs).
Proof.
  induction fs as [|f fs IH]; intros s Hf; [constructor|]. apply Forall_cons in Hf as [(_ & _ & _ & Hb) Hfs]. cbn [log_bytes]. apply Forall_app.
  split; [apply frame_bytes_ok; [apply Hsalt|done]|by apply IH].
Qed.

Lemma log_bytes_app fs gs : forall s, log_bytes native salt szPage s (fs ++ gs) = log_bytes native salt szPage s fs ++ log_bytes native salt szPage (log_cksum native szPage s fs) gs.
Proof. induction fs as [|f fs IH]; intros s; [done|]. cbn [log_bytes app]. rewrite IH. by rewrite <- app_assoc. Qed.

Lemma log_cksum_range fs : forall s, cksum_range s -> cksum_range (log_cksum native szPage s fs).
Proof. induction fs as [|f fs IH]; intros s Hs; [done|]. cbn. apply IH. by apply frame_cksum_range. Qed.

(** More fuel than frames that fit changes nothing. *)
Lemma valid_frames_fuel n : forall m s d, len d < (Z.of_nat n + 1) * (24 + szPage) -> (n <= m)%nat ->
  valid_frames m native salt szPage s d = valid_frames n native salt szPage s d.
Proof.
  destruct Hsize as [Hs _]. induction n as [|n IH]; intros m s d Hd Hm.
  - destruct m as [|m]; [done|]. cbn [valid_frames]. unfold first_frame. rewrite (proj2 (Z.leb_gt _ _)) by lia. done.
  - destruct m as [|m]; [lia|]. cbn [valid_frames]. destruct (first_frame native salt szPage s d) as [f|] eqn:E; [|done]. f_equal. apply IH; [|lia].
    rewrite length_drop. lia.
Qed.

Lemma valid_frames_ok n : forall s d, bytes_ok d -> Forall (frame_ok szPage) (valid_frames n native salt szPage s d).
Proof.
  destruct Hsize as [Hs _]. induction n as [|n IH]; intros s d Hd; [constructor|]. cbn [valid_frames]. unfold first_frame. destruct (_ && _) eqn:E; [|constructor].
  rewrite !andb_true_iff in E. destruct E as ((((El%Z.leb_le & _) & E0) & _) & _). constructor; [|apply IH; by apply Forall_drop].
  pose proof (be32_range d 0 Hd). pose proof (be32_range d 4 Hd). split; [|split; [done|split; [apply sub_length; lia|by apply sub_ok]]].
  cbn [f_pgno]. apply negb_true_iff, Z.eqb_neq in E0. lia.
Qed.
End parse.
