(* ===== verification/WalLock.v ===== *)
(** * WalLock: the locks of the shared memory (sqlite3.c, wal.c and os_unix.c)

    Eight locks, each free, shared by some connections or exclusive to one.  [ShmLocks] is
    the method [xShmLock] of a file, with [lk_holds], who holds what; [ShmLocksLaws] is what
    the write-ahead log relies on.  A connection is a number.

    [walLockShared] and its like are the only users.  [UnixShm] is the table of os_unix.c,
    with [unixShmLock]; [lk_answers] are the answers of the operating system, which stands
    for the other processes. *)

From S2P Require Import Prelude CType ByteMem OsFile WalCksum WalIndex.

Definition SQLITE_SHM_UNLOCK : Z := 1.
Definition SQLITE_SHM_LOCK : Z := 2.
Definition SQLITE_SHM_SHARED : Z := 4.
Definition SQLITE_SHM_EXCLUSIVE : Z := 8.
Definition SQLITE_SHM_NLOCK : Z := 8.

Definition WAL_WRITE_LOCK : Z := 0.
Definition WAL_ALL_BUT_WRITE : Z := 1.
Definition WAL_CKPT_LOCK : Z := 1.
Definition WAL_RECOVER_LOCK : Z := 2.
Definition WAL_READ_LOCK (i : Z) : Z := 3 + i.

Class ShmLocks (L : Type) := {
  sqlite3OsShmLock : nat -> Z -> Z -> Z -> L -> Z * L;     (* offset, number, flags *)
  lk_holds : L -> nat -> Z -> option bool                  (* shared: [Some false], exclusive: [Some true] *)
}.

(** Nobody else's locks change, nor one's own outside [i] to [i + n]. *)
Definition lk_same_but {L} `{ShmLocks L} (l l' : L) (c : nat) (i n : Z) : Prop :=
  forall c' j, c' <> c \/ ~ (i <= j < i + n) -> lk_holds l' c' j = lk_holds l c' j.
Definition lk_same {L} `{ShmLocks L} (l l' : L) : Prop := forall c j, lk_holds l' c j = lk_holds l c j.

(** [lk_open]: the connection is one of the table; [lk_fine]: the operating system grants what the table grants. *)
Class ShmLocksLaws (L : Type) `{ShmLocks L} := {
  lk_ok : L -> Prop;
  lk_fine : L -> Prop;
  lk_open : L -> nat -> Prop;
  lk_one l c c' i : lk_ok l -> lk_holds l c i = Some true -> c' <> c -> lk_holds l c' i = None;
  lk_shared l c i : lk_ok l -> lk_open l c -> 0 <= i < SQLITE_SHM_NLOCK -> lk_holds l c i = None ->
    exists rc l', sqlite3OsShmLock c i 1 (SQLITE_SHM_LOCK .| SQLITE_SHM_SHARED) l = (rc, l') /\ lk_ok l' /\ (forall c', lk_open l c' -> lk_open l' c') /\ (lk_fine l -> lk_fine l') /\
      if rc =? SQLITE_OK then lk_holds l' c i = Some false /\ (forall c', lk_holds l c' i <> Some true) /\ lk_same_but l l' c i 1
      else lk_same l l' /\ (lk_fine l -> rc = SQLITE_BUSY /\ exists c', c' <> c /\ lk_holds l c' i = Some true);
  lk_exclusive l c i n : lk_ok l -> lk_open l c -> 0 <= i -> 1 <= n -> i + n <= SQLITE_SHM_NLOCK -> (forall j, i <= j < i + n -> lk_holds l c j = None) ->
    exists rc l', sqlite3OsShmLock c i n (SQLITE_SHM_LOCK .| SQLITE_SHM_EXCLUSIVE) l = (rc, l') /\ lk_ok l' /\ (forall c', lk_open l c' -> lk_open l' c') /\ (lk_fine l -> lk_fine l') /\
      if rc =? SQLITE_OK then (forall j, i <= j < i + n -> lk_holds l' c j = Some true) /\ (forall c' j, i <= j < i + n -> lk_holds l c' j = None) /\ lk_same_but l l' c i n
      else lk_same l l' /\ (lk_fine l -> rc = SQLITE_BUSY /\ exists c' j, i <= j < i + n /\ c' <> c /\ lk_holds l c' j <> None);
  lk_unlock_shared l c i : lk_ok l -> lk_open l c -> 0 <= i < SQLITE_SHM_NLOCK -> lk_holds l c i = Some false ->
    exists rc l', sqlite3OsShmLock c i 1 (SQLITE_SHM_UNLOCK .| SQLITE_SHM_SHARED) l = (rc, l') /\ lk_ok l' /\ (forall c', lk_open l c' -> lk_open l' c') /\ (lk_fine l -> lk_fine l' /\ rc = SQLITE_OK) /\
      if rc =? SQLITE_OK then lk_holds l' c i = None /\ lk_same_but l l' c i 1 else lk_same l l';
  lk_unlock_exclusive l c i n : lk_ok l -> lk_open l c -> 0 <= i -> 1 <= n -> i + n <= SQLITE_SHM_NLOCK -> (forall j, i <= j < i + n -> lk_holds l c j = Some true) ->
    exists rc l', sqlite3OsShmLock c i n (SQLITE_SHM_UNLOCK .| SQLITE_SHM_EXCLUSIVE) l = (rc, l') /\ lk_ok l' /\ (forall c', lk_open l c' -> lk_open l' c') /\ (lk_fine l -> lk_fine l' /\ rc = SQLITE_OK) /\
      if rc =? SQLITE_OK then (forall j, i <= j < i + n -> lk_holds l' c j = None) /\ lk_same_but l l' c i n else lk_same l l'
}.

(** ** The users of the locks

    In exclusive mode nothing is locked. *)

Section locks.
Context {L : Type} `{ShmLocks L}.

Definition walLockShared (w : Wal) (lockIdx : Z) (l : L) : Z * L :=
  if negb (exclusiveMode w =? 0) then (SQLITE_OK, l) else sqlite3OsShmLock (pDbFd w) lockIdx 1 (SQLITE_SHM_LOCK .| SQLITE_SHM_SHARED) l.

Definition walUnlockShared (w : Wal) (lockIdx : Z) (l : L) : L :=
  if negb (exclusiveMode w =? 0) then l else snd (sqlite3OsShmLock (pDbFd w) lockIdx 1 (SQLITE_SHM_UNLOCK .| SQLITE_SHM_SHARED) l).

Definition walLockExclusive (w : Wal) (lockIdx n : Z) (l : L) : Z * L :=
  if negb (exclusiveMode w =? 0) then (SQLITE_OK, l) else sqlite3OsShmLock (pDbFd w) lockIdx n (SQLITE_SHM_LOCK .| SQLITE_SHM_EXCLUSIVE) l.

Definition walUnlockExclusive (w : Wal) (lockIdx n : Z) (l : L) : L :=
  if negb (exclusiveMode w =? 0) then l else snd (sqlite3OsShmLock (pDbFd w) lockIdx n (SQLITE_SHM_UNLOCK .| SQLITE_SHM_EXCLUSIVE) l).

(** The answers of the busy handler are the list [xBusy]; [None] is the null pointer. *)
Fixpoint walBusyLock_loop (answers : list bool) (w : Wal) (lockIdx n : Z) (l : L) : Z * list bool * L :=
  let '(rc, l) := walLockExclusive w lockIdx n l in
  if rc =? SQLITE_BUSY then
    match answers with
    | true :: answers => walBusyLock_loop answers w lockIdx n l
    | _ => (rc, tl answers, l)
    end
  else (rc, answers, l).

Definition walBusyLock (xBusy : option (list bool)) (w : Wal) (lockIdx n : Z) (l : L) : Z * option (list bool) * L :=
  match xBusy with
  | None => let '(rc, l) := walLockExclusive w lockIdx n l in (rc, None, l)
  | Some answers => let '(rc, answers, l) := walBusyLock_loop answers w lockIdx n l in (rc, Some answers, l)
  end.
End locks.

(** ** The table of os_unix.c *)

(** A connection has the masks of its shared and its exclusive locks. *)
Record unixShm := mk_shm_conn { sharedMask : Z; exclMask : Z }.

Record UnixShm := mk_table { aLock : list Z; conns : list unixShm; lk_answers : list Z }.

Definition unixShmSystemLock (t : UnixShm) : Z * UnixShm :=
  match lk_answers t with [] => (SQLITE_OK, t) | rc :: l => (rc, mk_table (aLock t) (conns t) l) end.

Definition set_conn (t : UnixShm) (c : nat) (p : unixShm) (a : list Z) : UnixShm := mk_table a (<[c := p]> (conns t)) (lk_answers t).

(** [aLock[ofst]] to [aLock[ofst+n-1]] *)
Definition set_range (a : list Z) (ofst n v : Z) : list Z := take (Z.to_nat ofst) a ++ replicate (Z.to_nat n) v ++ drop (Z.to_nat (ofst + n)) a.

Definition unixShmLock (c : nat) (ofst n flags : Z) (t : UnixShm) : Z * UnixShm :=
  match conns t !! c with
  | None => (SQLITE_ERROR, t)
  | Some p =>
      let mask := u16 ((1 << (ofst + n)) - (1 << ofst)) in
      let bits := seqZ ofst n in
      if negb (flags .& SQLITE_SHM_UNLOCK =? 0) then
        if negb ((exclMask p .| sharedMask p) .& mask =? 0) then
          let bUnlock := forallb (fun ii => negb ((if Z.testbit (sharedMask p) ii then 1 else 0) <? (aLock t).[ii])) bits in
          let '(rc, t) :=
            if bUnlock then
              let '(rc, t) := unixShmSystemLock t in
              (rc, if rc =? SQLITE_OK then mk_table (set_range (aLock t) ofst n 0) (conns t) (lk_answers t) else t)
            else if Z.testbit (sharedMask p) ofst then (SQLITE_OK, mk_table (set_range (aLock t) ofst 1 ((aLock t).[ofst] - 1)) (conns t) (lk_answers t))
            else (SQLITE_OK, t) in
          (rc, if rc =? SQLITE_OK then set_conn t c (mk_shm_conn (Z.ldiff (sharedMask p) mask) (Z.ldiff (exclMask p) mask)) (aLock t) else t)
        else (SQLITE_OK, t)
      else if negb (flags .& SQLITE_SHM_SHARED =? 0) then
        if sharedMask p .& mask =? 0 then
          let '(rc, t) := if (aLock t).[ofst] <? 0 then (SQLITE_BUSY, t) else if (aLock t).[ofst] =? 0 then unixShmSystemLock t else (SQLITE_OK, t) in
          (rc, if rc =? SQLITE_OK then set_conn t c (mk_shm_conn (sharedMask p .| mask) (exclMask p)) (set_range (aLock t) ofst 1 ((aLock t).[ofst] + 1)) else t)
        else (SQLITE_OK, t)
      else if existsb (fun ii => negb (Z.testbit (exclMask p) ii) && negb ((aLock t).[ii] =? 0)) bits then (SQLITE_BUSY, t)
      else
        let '(rc, t) := unixShmSystemLock t in
        (rc, if rc =? SQLITE_OK then set_conn t c (mk_shm_conn (sharedMask p) (exclMask p .| mask)) (set_range (aLock t) ofst n (-1)) else t)
  end.

#[export] Instance UnixShm_ShmLocks : ShmLocks UnixShm := {
  sqlite3OsShmLock := unixShmLock;
  lk_holds t c i :=
    match conns t !! c with
    | Some p => if (i <? 0) || (SQLITE_SHM_NLOCK <=? i) then None else if Z.testbit (exclMask p) i then Some true else if Z.testbit (sharedMask p) i then Some false else None
    | None => None
    end
}.

(** ** The table keeps the laws *)

Lemma mask_bit o n j : 0 <= o -> 1 <= n -> o + n <= SQLITE_SHM_NLOCK -> 0 <= j -> Z.testbit (u16 ((1 << (o + n)) - (1 << o))) j = (o <=? j) && (j <? o + n).
Proof.
  intros Ho Hn Hl Hj. unfold SQLITE_SHM_NLOCK in *. rewrite !Z.shiftl_1_l. rewrite Z.pow_add_r by lia.
  assert (0 < 2 ^ o /\ 0 < 2 ^ n) as [P1 P2] by (split; apply Z.pow_pos_nonneg; lia).
  assert (2 ^ o * 2 ^ n <= 2 ^ 8) by (rewrite <- Z.pow_add_r by lia; apply Z.pow_le_mono_r; lia).
  unfold u16. rewrite Z.mod_small by nia. replace (2 ^ o * 2 ^ n - 2 ^ o) with (Z.ones n << o) by (rewrite Z.ones_equiv, Z.shiftl_mul_pow2 by lia; nia).
  rewrite Z.shiftl_spec by lia. destruct (Z.leb_spec o j); cbn [andb]; [|apply Z.testbit_neg_r; lia].
  destruct (Z.ltb_spec j (o + n)); [apply Z.ones_spec_low; lia|apply Z.ones_spec_high; lia].
Qed.

Lemma land_zero a m : (a .& m =? 0) = true <-> forall j, 0 <= j -> Z.testbit m j = true -> Z.testbit a j = false.
Proof.
  rewrite Z.eqb_eq. split.
  - intros E j Hj Hm. assert (Z.testbit (a .& m) j = false) as B by (rewrite E; apply Z.testbit_0_l). rewrite Z.land_spec, Hm, andb_true_r in B. done.
  - intros H. apply Z.bits_inj'. intros j Hj. rewrite Z.land_spec, Z.testbit_0_l. destruct (Z.testbit m j) eqn:E; [by rewrite H|apply andb_false_r].
Qed.

Definition sharers (t : UnixShm) (i : Z) : Z := Z.of_nat (length (filter (fun p => Z.testbit (sharedMask p) i = true) (conns t))).

Definition free_excl (t : UnixShm) (i : Z) : Prop := forall c p, conns t !! c = Some p -> Z.testbit (exclMask p) i = false.
Definition one_excl (t : UnixShm) (i : Z) (c : nat) : Prop :=
  (exists p, conns t !! c = Some p /\ Z.testbit (exclMask p) i = true) /\
  (forall c' p, conns t !! c' = Some p -> Z.testbit (sharedMask p) i = false /\ (c' <> c -> Z.testbit (exclMask p) i = false)).

Record table_wf (t : UnixShm) : Prop := {
  tw_len : length (aLock t) = 8%nat;
  tw_lock i : 0 <= i < 8 -> ((aLock t).[i] = sharers t i /\ free_excl t i) \/ ((aLock t).[i] = -1 /\ exists c, one_excl t i c)
}.

Lemma sharers_none t i : sharers t i = 0 <-> forall c p, conns t !! c = Some p -> Z.testbit (sharedMask p) i = false.
Proof.
  unfold sharers. split.
  - intros E c p Hp. destruct (Z.testbit (sharedMask p) i) eqn:B; [|done]. assert (p ∈ filter (fun p => Z.testbit (sharedMask p) i = true) (conns t)) as Hin.
    { apply list_elem_of_filter. split; [done|by eapply list_elem_of_lookup_2]. }
    destruct (filter _ _); [by apply elem_of_nil in Hin|cbn in E; lia].
  - intros H. destruct (filter _ _) as [|p l] eqn:E; [done|]. assert (p ∈ filter (fun p => Z.testbit (sharedMask p) i = true) (conns t)) as Hin by (rewrite E; by left).
    apply list_elem_of_filter in Hin as [B [c Hc]%list_elem_of_lookup]. rewrite (H c p Hc) in B. done.
Qed.

Lemma ld_range a o n v j : 0 <= o -> 0 <= n -> o + n <= len a -> 0 <= j -> (set_range a o n v).[j] = if decide (o <= j < o + n) then v else a.[j].
Proof.
  intros Ho Hn Hl Hj. unfold set_range. assert (len (take (Z.to_nat o) a) = o) as L by (rewrite length_take; lia). rewrite ld_app, L by done.
  destruct (Z.ltb_spec j o); [rewrite ld_take by lia; by rewrite decide_False by lia|]. rewrite ld_app, length_replicate by lia.
  destruct (Z.ltb_spec (j - o) (Z.of_nat (Z.to_nat n))).
  - rewrite decide_True by lia. unfold ld. rewrite nth_lookup, lookup_replicate_2 by lia. done.
  - rewrite decide_False by lia. rewrite ld_drop by lia. f_equal. lia.
Qed.

Lemma range_length a o n v : 0 <= o -> 0 <= n -> o + n <= len a -> length (set_range a o n v) = length a.
Proof. intros. unfold set_range. rewrite !length_app, length_take, length_replicate, length_drop. lia. Qed.

Lemma unix_holds t c p i : conns t !! c = Some p -> 0 <= i < 8 ->
  lk_holds t c i = if Z.testbit (exclMask p) i then Some true else if Z.testbit (sharedMask p) i then Some false else None.
Proof. intros Hp Hi. cbn. rewrite Hp. rewrite (proj2 (Z.ltb_ge _ _)), (proj2 (Z.leb_gt _ _)) by (unfold SQLITE_SHM_NLOCK; lia). done. Qed.

Lemma unix_holds_none t c p i : conns t !! c = Some p -> 0 <= i < 8 -> lk_holds t c i = None ->
  Z.testbit (exclMask p) i = false /\ Z.testbit (sharedMask p) i = false.
Proof. intros Hp Hi E. rewrite (unix_holds t c p i Hp Hi) in E. by destruct (Z.testbit (exclMask p) i), (Z.testbit (sharedMask p) i). Qed.

(** One connection changes its bits from [o] to [o + n], and the table its entries there. *)
Section update.
Context (t : UnixShm) (c : nat) (p p' : unixShm) (a ans : list Z) (o n : Z).
Hypothesis Hp : conns t !! c = Some p.
Hypothesis Hout : forall j, 0 <= j < 8 -> ~ (o <= j < o + n) ->
  Z.testbit (sharedMask p') j = Z.testbit (sharedMask p) j /\ Z.testbit (exclMask p') j = Z.testbit (exclMask p) j /\ a.[j] = (aLock t).[j].
Let t' : UnixShm := mk_table a (<[c := p']> (conns t)) ans.

Lemma update_conn c' q : conns t' !! c' = Some q -> (c' = c /\ q = p') \/ (c' <> c /\ conns t !! c' = Some q).
Proof.
  cbn. destruct (decide (c' = c)) as [->|Hne].
  - rewrite list_lookup_insert_eq by by eapply lookup_lt_Some. intros [= <-]. by left.
  - rewrite list_lookup_insert_ne by done. by right.
Qed.

Lemma update_back c' q : conns t !! c' = Some q -> exists q', conns t' !! c' = Some q' /\ (c' = c -> q' = p') /\ (c' <> c -> q' = q).
Proof.
  intros Hq. cbn. destruct (decide (c' = c)) as [->|Hne].
  - exists p'. rewrite list_lookup_insert_eq by by eapply lookup_lt_Some. done.
  - exists q. rewrite list_lookup_insert_ne by done. done.
Qed.

Lemma update_sharers j : sharers t' j = sharers t j + (if Z.testbit (sharedMask p') j then 1 else 0) - (if Z.testbit (sharedMask p) j then 1 else 0).
Proof. unfold sharers, t'. cbn [conns]. rewrite (count_insert _ _ _ p) by done. destruct (Z.testbit (sharedMask p') j), (Z.testbit (sharedMask p) j); repeat case_decide; done || lia. Qed.

Lemma update_wf : table_wf t -> length a = 8%nat ->
  (forall j, 0 <= j < 8 -> o <= j < o + n -> (a.[j] = sharers t' j /\ free_excl t' j) \/ (a.[j] = -1 /\ exists c, one_excl t' j c)) -> table_wf t'.
Proof.
  intros [Hlen Hl] Hla Hin. split; [done|]. intros j Hj. destruct (decide (o <= j < o + n)) as [Hr|Hr]; [by apply Hin|].
  destruct (Hout j Hj Hr) as (Es & Ee & Ea). cbn [aLock t']. rewrite Ea. destruct (Hl j Hj) as [[E F]|[E (d & (q & Hq & B) & One)]].
  - left. rewrite E, update_sharers, Es. split; [lia|]. intros c' q [[-> ->]|[Hne Hq]]%update_conn; [rewrite Ee; by apply (F c)|by apply (F c')].
  - right. split; [done|]. exists d. destruct (update_back d q Hq) as (q' & Hq' & H1 & H2). split.
    + exists q'. split; [done|]. destruct (decide (d = c)) as [->|Hne]; [rewrite (H1 eq_refl), Ee; rewrite Hp in Hq; by injection Hq as <-|by rewrite (H2 Hne)].
    + intros c' r [[-> ->]|[Hne Hr']]%update_conn; [rewrite Es, Ee; by apply One|by apply One].
Qed.

Lemma update_same_but : lk_same_but t t' c o n.
Proof.
  intros c' j Hj. cbn. destruct (decide (c' = c)) as [->|Hne]; [|by rewrite list_lookup_insert_ne].
  rewrite list_lookup_insert_eq by by eapply lookup_lt_Some. rewrite Hp. destruct (Z.ltb_spec j 0); [done|]. destruct (Z.leb_spec SQLITE_SHM_NLOCK j); [done|]. cbn [orb].
  destruct Hj as [|Hj]; [done|]. unfold SQLITE_SHM_NLOCK in *. destruct (Hout j ltac:(lia) Hj) as (-> & -> & _). done.
Qed.

Lemma update_holds j : 0 <= j < 8 -> lk_holds t' c j = if Z.testbit (exclMask p') j then Some true else if Z.testbit (sharedMask p') j then Some false else None.
Proof. intros Hj. apply unix_holds; [|done]. cbn. apply list_lookup_insert_eq. by eapply lookup_lt_Some. Qed.

Lemma update_open c' : is_Some (conns t !! c') -> is_Some (conns t' !! c').
Proof. intros [q Hq]. destruct (update_back c' q Hq) as (q' & -> & _). done. Qed.
End update.

Lemma unix_one t c c' i : table_wf t -> lk_holds t c i = Some true -> c' <> c -> lk_holds t c' i = None.
Proof.
  intros [_ Hl] E Hne. cbn in E |- *. destruct (conns t !! c) as [p|] eqn:Hp; [|done]. destruct (Z.ltb_spec i 0); [done|]. destruct (Z.leb_spec SQLITE_SHM_NLOCK i); [done|].
  cbn [orb] in *. unfold SQLITE_SHM_NLOCK in *. destruct (conns t !! c') as [q|] eqn:Hq; [|done].
  assert (Z.testbit (exclMask p) i = true) as B by by destruct (Z.testbit (exclMask p) i), (Z.testbit (sharedMask p) i).
  destruct (Hl i ltac:(lia)) as [[_ F]|[_ (d & _ & One)]]; [by rewrite (F c p Hp) in B|].
  assert (c = d) as <-. { destruct (decide (c = d)); [done|]. destruct (One c p Hp) as [_ G]. rewrite G in B by done. done. }
  destruct (One c' q Hq) as [-> G]. by rewrite G.
Qed.

Lemma system_lock_ok t : exists rc ans, unixShmSystemLock t = (rc, mk_table (aLock t) (conns t) ans) /\ (lk_answers t = [] -> rc = SQLITE_OK /\ ans = []).
Proof.
  unfold unixShmSystemLock. destruct (lk_answers t) as [|rc ans] eqn:E.
  - exists SQLITE_OK, []. split; [|done]. rewrite <- E. by destruct t.
  - by exists rc, ans.
Qed.

Lemma unix_shared t c i : table_wf t -> is_Some (conns t !! c) -> 0 <= i < SQLITE_SHM_NLOCK -> lk_holds t c i = None ->
  exists rc t', unixShmLock c i 1 (SQLITE_SHM_LOCK .| SQLITE_SHM_SHARED) t = (rc, t') /\ table_wf t' /\ (forall c', is_Some (conns t !! c') -> is_Some (conns t' !! c')) /\
    (lk_answers t = [] -> lk_answers t' = []) /\
    if rc =? SQLITE_OK then lk_holds t' c i = Some false /\ (forall c', lk_holds t c' i <> Some true) /\ lk_same_but t t' c i 1
    else lk_same t t' /\ (lk_answers t = [] -> rc = SQLITE_BUSY /\ exists c', c' <> c /\ lk_holds t c' i = Some true).
Proof.
  intros Hwf [p Hp] Hi Hn. unfold SQLITE_SHM_NLOCK in Hi. destruct (unix_holds_none t c p i Hp Hi Hn) as [Be Bs]. pose proof Hwf as [Hlen Hl].
  unfold unixShmLock. rewrite Hp. cbn zeta.
  change ((SQLITE_SHM_LOCK .| SQLITE_SHM_SHARED) .& SQLITE_SHM_UNLOCK =? 0) with true. change ((SQLITE_SHM_LOCK .| SQLITE_SHM_SHARED) .& SQLITE_SHM_SHARED =? 0) with false. cbn [negb].
  assert (forall j, 0 <= j -> Z.testbit (u16 ((1 << (i + 1)) - (1 << i))) j = (i <=? j) && (j <? i + 1)) as Hm by (intros; apply mask_bit; unfold SQLITE_SHM_NLOCK; lia).
  set (mask := u16 _) in *. clearbody mask.
  rewrite (proj2 (land_zero _ _)). 2: { intros j Hj. rewrite Hm by done. intros [?%Z.leb_le ?%Z.ltb_lt]%andb_true_iff. by replace j with i by lia. }
  destruct (Z.ltb_spec (aLock t).[i] 0) as [Hneg|Hpos].
  { exists SQLITE_BUSY, t. split; [done|]. split; [done|]. split; [done|]. split; [done|]. split; [done|]. intros _. split; [done|].
    destruct (Hl i Hi) as [[E _]|[_ (d & (q & Hq & B) & _)]]; [unfold sharers in E; lia|]. exists d.
    split; [intros ->; rewrite Hp in Hq; injection Hq as <-; congruence|]. by rewrite (unix_holds t d q i Hq Hi), B. }
  destruct (Hl i Hi) as [[E F]|[E _]]; [|lia].
  assert (exists rc ans, (if (aLock t).[i] =? 0 then unixShmSystemLock t else (SQLITE_OK, t)) = (rc, mk_table (aLock t) (conns t) ans) /\
    (lk_answers t = [] -> rc = SQLITE_OK /\ ans = [])) as (rc & ans & -> & Hans).
  { destruct ((aLock t).[i] =? 0); [apply system_lock_ok|]. exists SQLITE_OK, (lk_answers t). split; [by destruct t|done]. }
  destruct (Z.eqb_spec rc SQLITE_OK) as [->|Hrc].
  2: { exists rc, (mk_table (aLock t) (conns t) ans). split; [done|]. split; [by split|]. split; [done|]. split; [by intros [_ ->]%Hans|]. rewrite (proj2 (Z.eqb_neq _ _) Hrc).
       split; [done|]. by intros [? _]%Hans. }
  unfold set_conn. cbn [aLock conns lk_answers]. set (p' := mk_shm_conn _ _).
  assert (Z.testbit (sharedMask p') i = true /\ Z.testbit (exclMask p') i = false) as [Bs' Be'].
  { unfold p'. cbn [sharedMask exclMask]. rewrite Z.lor_spec, Hm by lia. rewrite (proj2 (Z.leb_le i i)), (proj2 (Z.ltb_lt i (i + 1))) by lia. by rewrite orb_true_r. }
  assert (forall j, 0 <= j < 8 -> ~ (i <= j < i + 1) -> Z.testbit (sharedMask p') j = Z.testbit (sharedMask p) j /\ Z.testbit (exclMask p') j = Z.testbit (exclMask p) j /\
    (set_range (aLock t) i 1 ((aLock t).[i] + 1)).[j] = (aLock t).[j]) as Hout.
  { intros j Hj Hr. rewrite ld_range, decide_False by lia. unfold p'. cbn [sharedMask exclMask]. rewrite Z.lor_spec, Hm by lia. split; [|done].
    destruct (Z.leb_spec i j), (Z.ltb_spec j (i + 1)); try lia; by rewrite orb_false_r. }
  eexists _, _. split; [done|]. split; [|split; [|split; [by intros [_ ->]%Hans|]]].
  - apply (update_wf t c p p' _ _ i 1 Hp Hout Hwf); [by rewrite range_length by lia|]. intros j Hj Hr. assert (j = i) as -> by lia. left.
    rewrite ld_range, decide_True by lia. split.
    + rewrite (update_sharers t c p p' _ _ Hp), Bs, Bs', E. lia.
    + intros c' q [[-> ->]|[Hne Hq]]%(update_conn t c p p' _ _ Hp); [done|by apply (F c')].
  - intros c' Hc'. by eapply update_open.
  - cbn [Z.eqb SQLITE_OK]. split; [|split].
    + rewrite (update_holds t c p p' _ _ Hp i Hi), Be', Bs'. done.
    + intros c' Hc'. cbn in Hc'. destruct (conns t !! c') as [q|] eqn:Hq; [|done]. rewrite (F c' q Hq) in Hc'. destruct (_ || _); [done|]. by destruct (Z.testbit (sharedMask q) i).
    + by apply (update_same_but t c p p' _ _ i 1 Hp).
Qed.

Lemma unix_exclusive t c i n : table_wf t -> is_Some (conns t !! c) -> 0 <= i -> 1 <= n -> i + n <= SQLITE_SHM_NLOCK -> (forall j, i <= j < i + n -> lk_holds t c j = None) ->
  exists rc t', unixShmLock c i n (SQLITE_SHM_LOCK .| SQLITE_SHM_EXCLUSIVE) t = (rc, t') /\ table_wf t' /\ (forall c', is_Some (conns t !! c') -> is_Some (conns t' !! c')) /\
    (lk_answers t = [] -> lk_answers t' = []) /\
    if rc =? SQLITE_OK then (forall j, i <= j < i + n -> lk_holds t' c j = Some true) /\ (forall c' j, i <= j < i + n -> lk_holds t c' j = None) /\ lk_same_but t t' c i n
    else lk_same t t' /\ (lk_answers t = [] -> rc = SQLITE_BUSY /\ exists c' j, i <= j < i + n /\ c' <> c /\ lk_holds t c' j <> None).
Proof.
  intros Hwf [p Hp] Hi Hn Hl Hnone. pose proof Hwf as [Hlen Htab]. unfold SQLITE_SHM_NLOCK in Hl.
  assert (forall j, i <= j < i + n -> Z.testbit (exclMask p) j = false /\ Z.testbit (sharedMask p) j = false) as Hclear by (intros; eapply unix_holds_none; [done|lia|by apply Hnone]).
  unfold unixShmLock. rewrite Hp. cbn zeta.
  change ((SQLITE_SHM_LOCK .| SQLITE_SHM_EXCLUSIVE) .& SQLITE_SHM_UNLOCK =? 0) with true. change ((SQLITE_SHM_LOCK .| SQLITE_SHM_EXCLUSIVE) .& SQLITE_SHM_SHARED =? 0) with true. cbn [negb].
  assert (forall j, 0 <= j -> Z.testbit (u16 ((1 << (i + n)) - (1 << i))) j = (i <=? j) && (j <? i + n)) as Hm by (intros; apply mask_bit; unfold SQLITE_SHM_NLOCK; lia).
  set (mask := u16 _) in *. clearbody mask. destruct (existsb _ _) eqn:Ebusy.
  { apply existsb_exists in Ebusy as (j & Hj & Hb). apply list_elem_of_In, elem_of_seqZ in Hj. apply andb_true_iff in Hb as [_ Hb%negb_true_iff%Z.eqb_neq].
    exists SQLITE_BUSY, t. split; [done|]. split; [done|]. split; [done|]. split; [done|]. split; [done|]. intros _. split; [done|].
    destruct (Htab j ltac:(lia)) as [[E F]|[_ (d & (q & Hq & B) & _)]].
    - assert (exists d q, conns t !! d = Some q /\ Z.testbit (sharedMask q) j = true) as (d & q & Hq & B).
      { destruct (filter (fun p => Z.testbit (sharedMask p) j = true) (conns t)) as [|q l] eqn:Ef; [unfold sharers in E; rewrite Ef in E; cbn in E; lia|].
        assert (q ∈ filter (fun p => Z.testbit (sharedMask p) j = true) (conns t)) as Hin by (rewrite Ef; by left).
        apply list_elem_of_filter in Hin as [B [d Hd]%list_elem_of_lookup]. by exists d, q. }
      exists d, j. split; [lia|]. split; [intros ->; rewrite Hp in Hq; injection Hq as <-; destruct (Hclear j ltac:(lia)); congruence|].
      rewrite (unix_holds t d q j Hq ltac:(lia)), B. by destruct (Z.testbit (exclMask q) j).
    - exists d, j. split; [lia|]. split; [intros ->; rewrite Hp in Hq; injection Hq as <-; destruct (Hclear j ltac:(lia)); congruence|].
      by rewrite (unix_holds t d q j Hq ltac:(lia)), B. }
  assert (forall j, i <= j < i + n -> (aLock t).[j] = 0) as Hzero.
  { intros j Hj. destruct (Z.eq_dec (aLock t).[j] 0) as [|Hnz]; [done|]. exfalso. assert (existsb (fun ii => negb (Z.testbit (exclMask p) ii) && negb ((aLock t).[ii] =? 0)) (seqZ i n) = true) as Et; [|congruence].
    apply existsb_exists. exists j. split; [apply list_elem_of_In, elem_of_seqZ; lia|]. destruct (Hclear j Hj) as [-> _]. cbn. by rewrite (proj2 (Z.eqb_neq _ _)). }
  assert (forall j, i <= j < i + n -> free_excl t j /\ sharers t j = 0) as Hfree.
  { intros j Hj. destruct (Htab j ltac:(lia)) as [[E F]|[E _]]; rewrite Hzero in E by done; [by split|lia]. }
  destruct (system_lock_ok t) as (rc & ans & -> & Hans). destruct (Z.eqb_spec rc SQLITE_OK) as [->|Hrc].
  2: { exists rc, (mk_table (aLock t) (conns t) ans). split; [done|]. split; [by split|]. split; [done|]. split; [by intros [_ ->]%Hans|]. rewrite (proj2 (Z.eqb_neq _ _) Hrc).
       split; [done|]. by intros [? _]%Hans. }
  unfold set_conn. cbn [aLock conns lk_answers]. set (p' := mk_shm_conn _ _).
  assert (forall j, 0 <= j -> Z.testbit (exclMask p') j = Z.testbit (exclMask p) j || ((i <=? j) && (j <? i + n))) as Be' by (intros; unfold p'; cbn [exclMask]; by rewrite Z.lor_spec, Hm).
  assert (forall j, 0 <= j < 8 -> ~ (i <= j < i + n) -> Z.testbit (sharedMask p') j = Z.testbit (sharedMask p) j /\ Z.testbit (exclMask p') j = Z.testbit (exclMask p) j /\
    (set_range (aLock t) i n (-1)).[j] = (aLock t).[j]) as Hout.
  { intros j Hj Hr. rewrite ld_range, decide_False by lia. rewrite Be' by lia. split; [done|]. split; [|done].
    destruct (Z.leb_spec i j), (Z.ltb_spec j (i + n)); try lia; by rewrite orb_false_r. }
  assert (forall j, i <= j < i + n -> Z.testbit (exclMask p') j = true /\ Z.testbit (sharedMask p') j = false) as Hset.
  { intros j Hj. rewrite Be', (proj2 (Z.leb_le _ _)), (proj2 (Z.ltb_lt _ _)) by lia. rewrite orb_true_r. split; [done|]. by apply Hclear. }
  eexists _, _. split; [done|]. split; [|split; [|split; [by intros [_ ->]%Hans|]]].
  - apply (update_wf t c p p' _ _ i n Hp Hout Hwf); [by rewrite range_length by lia|]. intros j Hj Hr. right. rewrite ld_range, decide_True by lia. split; [done|].
    exists c. split; [exists p'; split; [cbn; apply list_lookup_insert_eq; by eapply lookup_lt_Some|by apply Hset]|].
    intros c' q [[-> ->]|[Hne Hq]]%(update_conn t c p p' _ _ Hp); [split; [by apply Hset|done]|]. destruct (Hfree j Hr) as [Fr Sh].
    split; [by apply (proj1 (sharers_none t j) Sh c')|intros _; by apply (Fr c')].
  - intros c' Hc'. by eapply update_open.
  - cbn [Z.eqb SQLITE_OK]. split; [|split].
    + intros j Hj. rewrite (update_holds t c p p' _ _ Hp j ltac:(lia)). by destruct (Hset j Hj) as [-> _].
    + intros c' j Hj. cbn. destruct (conns t !! c') as [q|] eqn:Hq; [|done]. destruct (Hfree j Hj) as [Fr Sh]. rewrite (Fr c' q Hq), (proj1 (sharers_none t j) Sh c' q Hq). by destruct (_ || _).
    + by apply (update_same_but t c p p' _ _ i n Hp).
Qed.

Lemma unix_unlock_shared t c i : table_wf t -> is_Some (conns t !! c) -> 0 <= i < SQLITE_SHM_NLOCK -> lk_holds t c i = Some false ->
  exists rc t', unixShmLock c i 1 (SQLITE_SHM_UNLOCK .| SQLITE_SHM_SHARED) t = (rc, t') /\ table_wf t' /\ (forall c', is_Some (conns t !! c') -> is_Some (conns t' !! c')) /\
    (lk_answers t = [] -> lk_answers t' = [] /\ rc = SQLITE_OK) /\
    if rc =? SQLITE_OK then lk_holds t' c i = None /\ lk_same_but t t' c i 1 else lk_same t t'.
Proof.
  intros Hwf [p Hp] Hi Hh. unfold SQLITE_SHM_NLOCK in Hi. rewrite (unix_holds t c p i Hp Hi) in Hh. pose proof Hwf as [Hlen Htab].
  assert (Z.testbit (exclMask p) i = false /\ Z.testbit (sharedMask p) i = true) as [Be Bs] by (destruct (Z.testbit (exclMask p) i), (Z.testbit (sharedMask p) i); done).
  unfold unixShmLock. rewrite Hp. cbn zeta. change ((SQLITE_SHM_UNLOCK .| SQLITE_SHM_SHARED) .& SQLITE_SHM_UNLOCK =? 0) with false. cbn [negb].
  assert (forall j, 0 <= j -> Z.testbit (u16 ((1 << (i + 1)) - (1 << i))) j = (i <=? j) && (j <? i + 1)) as Hm by (intros; apply mask_bit; unfold SQLITE_SHM_NLOCK; lia).
  set (mask := u16 _) in *. clearbody mask.
  assert (Z.testbit mask i = true) as Hmi by (rewrite Hm, (proj2 (Z.leb_le i i)), (proj2 (Z.ltb_lt i (i + 1))) by lia; done).
  destruct ((exclMask p .| sharedMask p) .& mask =? 0) eqn:Em; cbn [negb].
  { exfalso. pose proof (proj1 (land_zero _ _) Em i ltac:(lia) Hmi) as B. rewrite Z.lor_spec, Bs, orb_true_r in B. done. }
  destruct (Htab i Hi) as [[E F]|[_ (d & _ & One)]]; [|destruct (One c p Hp); congruence].
  assert (1 <= sharers t i) as H1.
  { destruct (Z.lt_ge_cases (sharers t i) 1) as [Hlt|]; [|done]. assert (sharers t i = 0) as E0 by (unfold sharers in *; lia). by rewrite (proj1 (sharers_none t i) E0 c p Hp) in Bs. }
  assert (seqZ i 1 = [i]) as -> by (unfold seqZ; cbn; f_equal; lia). cbn [forallb]. rewrite Bs, andb_true_r.
  assert (exists rc ans, (if negb (1 <? (aLock t).[i]) then let '(rc, t) := unixShmSystemLock t in (rc, if rc =? SQLITE_OK then mk_table (set_range (aLock t) i 1 0) (conns t) (lk_answers t) else t)
      else (SQLITE_OK, mk_table (set_range (aLock t) i 1 ((aLock t).[i] - 1)) (conns t) (lk_answers t))) =
      (rc, mk_table (if rc =? SQLITE_OK then set_range (aLock t) i 1 ((aLock t).[i] - 1) else aLock t) (conns t) ans) /\
    (lk_answers t = [] -> rc = SQLITE_OK /\ ans = [])) as (rc & ans & -> & Hans).
  { destruct (Z.ltb_spec 1 (aLock t).[i]); cbn [negb]; [by exists SQLITE_OK, (lk_answers t)|]. replace ((aLock t).[i] - 1) with 0 by lia.
    destruct (system_lock_ok t) as (rc & ans & -> & Hans). exists rc, ans. split; [|done]. by destruct (rc =? SQLITE_OK). }
  destruct (Z.eqb_spec rc SQLITE_OK) as [->|Hrc].
  2: { exists rc, (mk_table (aLock t) (conns t) ans). split; [done|]. split; [by split|]. split; [done|]. split; [by intros [? ->]%Hans|]. by rewrite (proj2 (Z.eqb_neq _ _) Hrc). }
  unfold set_conn. cbn [aLock conns lk_answers]. set (p' := mk_shm_conn _ _).
  assert (forall j, 0 <= j -> Z.testbit (exclMask p') j = Z.testbit (exclMask p) j && negb ((i <=? j) && (j <? i + 1)) /\
    Z.testbit (sharedMask p') j = Z.testbit (sharedMask p) j && negb ((i <=? j) && (j <? i + 1))) as B' by (intros; unfold p'; cbn [exclMask sharedMask]; by rewrite !Z.ldiff_spec, Hm).
  assert (Z.testbit (sharedMask p') i = false /\ Z.testbit (exclMask p') i = false) as [Bs' Be'].
  { destruct (B' i ltac:(lia)) as [-> ->]. rewrite (proj2 (Z.leb_le i i)), (proj2 (Z.ltb_lt i (i + 1))) by lia. by rewrite !andb_false_r. }
  assert (forall j, 0 <= j < 8 -> ~ (i <= j < i + 1) -> Z.testbit (sharedMask p') j = Z.testbit (sharedMask p) j /\ Z.testbit (exclMask p') j = Z.testbit (exclMask p) j /\
    (set_range (aLock t) i 1 ((aLock t).[i] - 1)).[j] = (aLock t).[j]) as Hout.
  { intros j Hj Hr. rewrite ld_range, decide_False by lia. destruct (B' j ltac:(lia)) as [-> ->].
    destruct (Z.leb_spec i j), (Z.ltb_spec j (i + 1)); try lia; by rewrite !andb_true_r. }
  eexists _, _. split; [done|]. split; [|split; [|split; [by intros [_ ->]%Hans|]]].
  - apply (update_wf t c p p' _ _ i 1 Hp Hout Hwf); [by rewrite range_length by lia|]. intros j Hj Hr. assert (j = i) as -> by lia. left.
    rewrite ld_range, decide_True by lia. split.
    + rewrite (update_sharers t c p p' _ _ Hp), Bs, Bs', E. lia.
    + intros c' q [[-> ->]|[Hne Hq]]%(update_conn t c p p' _ _ Hp); [done|by apply (F c')].
  - intros c' Hc'. by eapply update_open.
  - cbn [Z.eqb SQLITE_OK]. split.
    + rewrite (update_holds t c p p' _ _ Hp i Hi), Be', Bs'. done.
    + by apply (update_same_but t c p p' _ _ i 1 Hp).
Qed.

Lemma unix_unlock_exclusive t c i n : table_wf t -> is_Some (conns t !! c) -> 0 <= i -> 1 <= n -> i + n <= SQLITE_SHM_NLOCK -> (forall j, i <= j < i + n -> lk_holds t c j = Some true) ->
  exists rc t', unixShmLock c i n (SQLITE_SHM_UNLOCK .| SQLITE_SHM_EXCLUSIVE) t = (rc, t') /\ table_wf t' /\ (forall c', is_Some (conns t !! c') -> is_Some (conns t' !! c')) /\
    (lk_answers t = [] -> lk_answers t' = [] /\ rc = SQLITE_OK) /\
    if rc =? SQLITE_OK then (forall j, i <= j < i + n -> lk_holds t' c j = None) /\ lk_same_but t t' c i n else lk_same t t'.
Proof.
  intros Hwf [p Hp] Hi Hn Hl Hh. unfold SQLITE_SHM_NLOCK in Hl. pose proof Hwf as [Hlen Htab].
  assert (forall j, i <= j < i + n -> Z.testbit (exclMask p) j = true /\ (aLock t).[j] = -1 /\ one_excl t j c) as Hex.
  { intros j Hj. pose proof (Hh j Hj) as E. rewrite (unix_holds t c p j Hp ltac:(lia)) in E.
    assert (Z.testbit (exclMask p) j = true) as B by by destruct (Z.testbit (exclMask p) j), (Z.testbit (sharedMask p) j). split; [done|].
    destruct (Htab j ltac:(lia)) as [[_ F]|[E1 (d & Hd & One)]]; [by rewrite (F c p Hp) in B|]. split; [done|].
    assert (c = d) as ->; [|by split]. destruct (decide (c = d)); [done|]. destruct (One c p Hp) as [_ G]. rewrite G in B by done. done. }
  unfold unixShmLock. rewrite Hp. cbn zeta. change ((SQLITE_SHM_UNLOCK .| SQLITE_SHM_EXCLUSIVE) .& SQLITE_SHM_UNLOCK =? 0) with false. cbn [negb].
  assert (forall j, 0 <= j -> Z.testbit (u16 ((1 << (i + n)) - (1 << i))) j = (i <=? j) && (j <? i + n)) as Hm by (intros; apply mask_bit; unfold SQLITE_SHM_NLOCK; lia).
  set (mask := u16 _) in *. clearbody mask. destruct (Hex i ltac:(lia)) as (Bi & _).
  assert (Z.testbit mask i = true) as Hmi by (rewrite Hm, (proj2 (Z.leb_le i i)), (proj2 (Z.ltb_lt i (i + n))) by lia; done).
  destruct ((exclMask p .| sharedMask p) .& mask =? 0) eqn:Em; cbn [negb].
  { exfalso. pose proof (proj1 (land_zero _ _) Em i ltac:(lia) Hmi) as B. rewrite Z.lor_spec, Bi in B. done. }
  rewrite (proj2 (forallb_forall _ _)).
  2: { intros j Hj. apply list_elem_of_In, elem_of_seqZ in Hj. destruct (Hex j ltac:(lia)) as (_ & -> & _). by destruct (Z.testbit (sharedMask p) j). }
  destruct (system_lock_ok t) as (rc & ans & -> & Hans). destruct (Z.eqb_spec rc SQLITE_OK) as [->|Hrc].
  2: { exists rc, (mk_table (aLock t) (conns t) ans). split; [done|]. split; [by split|]. split; [done|]. split; [by intros [? ->]%Hans|]. by rewrite (proj2 (Z.eqb_neq _ _) Hrc). }
  unfold set_conn. cbn [aLock conns lk_answers]. set (p' := mk_shm_conn _ _).
  assert (forall j, 0 <= j -> Z.testbit (exclMask p') j = Z.testbit (exclMask p) j && negb ((i <=? j) && (j <? i + n)) /\
    Z.testbit (sharedMask p') j = Z.testbit (sharedMask p) j && negb ((i <=? j) && (j <? i + n))) as B' by (intros; unfold p'; cbn [exclMask sharedMask]; by rewrite !Z.ldiff_spec, Hm).
  assert (forall j, i <= j < i + n -> Z.testbit (sharedMask p') j = false /\ Z.testbit (exclMask p') j = false) as Hcl.
  { intros j Hj. destruct (B' j ltac:(lia)) as [-> ->]. rewrite (proj2 (Z.leb_le _ _)), (proj2 (Z.ltb_lt _ _)) by lia. by rewrite !andb_false_r. }
  assert (forall j, 0 <= j < 8 -> ~ (i <= j < i + n) -> Z.testbit (sharedMask p') j = Z.testbit (sharedMask p) j /\ Z.testbit (exclMask p') j = Z.testbit (exclMask p) j /\
    (set_range (aLock t) i n 0).[j] = (aLock t).[j]) as Hout.
  { intros j Hj Hr. rewrite ld_range, decide_False by lia. destruct (B' j ltac:(lia)) as [-> ->].
    destruct (Z.leb_spec i j), (Z.ltb_spec j (i + n)); try lia; by rewrite !andb_true_r. }
  eexists _, _. split; [done|]. split; [|split; [|split; [by intros [_ ->]%Hans|]]].
  - apply (update_wf t c p p' _ _ i n Hp Hout Hwf); [by rewrite range_length by lia|]. intros j Hj Hr. left. rewrite ld_range, decide_True by lia.
    destruct (Hex j Hr) as (_ & _ & _ & One). destruct (Hcl j Hr) as [Cs Ce]. split.
    + symmetry. apply sharers_none. intros c' q [[-> ->]|[Hne Hq]]%(update_conn t c p p' _ _ Hp); [done|by apply (One c')].
    + intros c' q [[-> ->]|[Hne Hq]]%(update_conn t c p p' _ _ Hp); [done|by apply (One c')].
  - intros c' Hc'. by eapply update_open.
  - cbn [Z.eqb SQLITE_OK]. split.
    + intros j Hj. rewrite (update_holds t c p p' _ _ Hp j ltac:(lia)). by destruct (Hcl j Hj) as [-> ->].
    + by apply (update_same_but t c p p' _ _ i n Hp).
Qed.

#[export] Instance UnixShm_laws : ShmLocksLaws UnixShm := {
  lk_ok := table_wf;
  lk_fine t := lk_answers t = [];
  lk_open t c := is_Some (conns t !! c);
  lk_one := unix_one;
  lk_shared := unix_shared;
  lk_exclusive := unix_exclusive;
  lk_unlock_shared := unix_unlock_shared;
  lk_unlock_exclusive := unix_unlock_exclusive
}.

(** * Locking by a connection *)

Section use.
Context {L : Type} `{ShmLocksLaws L}.

Definition locks_ok (w : Wal) (l : L) : Prop := exclusiveMode w = 0 -> lk_ok l /\ lk_open l (pDbFd w).
Definition locks_fine (w : Wal) (l : L) : Prop := exclusiveMode w = 0 -> lk_fine l.

(** The connection holds none of the locks from [i] on, all of them exclusively, or nobody
    else holds one. *)
Definition locks_free (w : Wal) (l : L) (i n : Z) : Prop := exclusiveMode w = 0 -> forall j, i <= j < i + n -> lk_holds l (pDbFd w) j = None.
Definition locks_mine (w : Wal) (l : L) (i n : Z) : Prop := exclusiveMode w = 0 -> forall j, i <= j < i + n -> lk_holds l (pDbFd w) j = Some true.
Definition locks_unused (w : Wal) (l : L) (i n : Z) : Prop := exclusiveMode w = 0 -> forall c j, i <= j < i + n -> c <> pDbFd w -> lk_holds l c j = None.

Lemma same_but_refl (l : L) c i n : lk_same_but l l c i n.
Proof. done. Qed.

Lemma same_same_but (l l' : L) c i n : lk_same l l' -> lk_same_but l l' c i n.
Proof. intros Hs c' j _. apply Hs. Qed.

Lemma walLockExclusive_ok w i n (l : L) : locks_ok w l -> 0 <= i -> 1 <= n -> i + n <= SQLITE_SHM_NLOCK -> locks_free w l i n ->
  exists rc l', walLockExclusive w i n l = (rc, l') /\ locks_ok w l' /\ (locks_fine w l -> locks_fine w l') /\ lk_same_but l l' (pDbFd w) i n /\
    (rc <> SQLITE_OK -> lk_same l l') /\ (rc = SQLITE_OK -> locks_mine w l' i n /\ locks_unused w l i n) /\
    (locks_fine w l -> locks_unused w l i n -> rc = SQLITE_OK).
Proof.
  intros Hok Hi Hn Hin Hfree. unfold walLockExclusive. destruct (Z.eqb_spec (exclusiveMode w) 0) as [E|E]; cbn [negb].
  2: { exists SQLITE_OK, l. repeat split; try done; intros ?; congruence. }
  destruct (Hok E) as [Hl Ho]. destruct (lk_exclusive l (pDbFd w) i n Hl Ho Hi Hn Hin (Hfree E)) as (rc & l' & Elk & Hl' & Ho' & Hf & Hres).
  exists rc, l'. split; [done|]. split; [intros _; split; [done|by apply Ho']|]. split; [intros F _; by apply Hf, F|].
  destruct (Z.eqb_spec rc SQLITE_OK) as [->|Hrc].
  - destruct Hres as (R1 & R2 & R3). split; [done|]. split; [done|]. split; [|done]. intros _. split; [by intros _|]. intros _ c j Hj Hne. by apply R2.
  - destruct Hres as [R1 R2]. split; [by apply same_same_but|]. split; [done|]. split; [done|]. intros F U.
    destruct (R2 (F E)) as (_ & c & j & Hj & Hne & Hh). destruct Hh. by apply U.
Qed.

Lemma walUnlockExclusive_ok w i n (l : L) : locks_ok w l -> 0 <= i -> 1 <= n -> i + n <= SQLITE_SHM_NLOCK -> locks_mine w l i n ->
  let l' := walUnlockExclusive w i n l in
  locks_ok w l' /\ lk_same_but l l' (pDbFd w) i n /\ (locks_fine w l -> locks_fine w l' /\ locks_free w l' i n).
Proof.
  intros Hok Hi Hn Hin Hmine. unfold walUnlockExclusive. destruct (Z.eqb_spec (exclusiveMode w) 0) as [E|E]; cbn [negb].
  2: { repeat split; try done; intros ?; congruence. }
  destruct (Hok E) as [Hl Ho]. destruct (lk_unlock_exclusive l (pDbFd w) i n Hl Ho Hi Hn Hin (Hmine E)) as (rc & l' & -> & Hl' & Ho' & Hf & Hres).
  cbn [snd]. split; [intros _; split; [done|by apply Ho']|]. destruct (Z.eqb_spec rc SQLITE_OK) as [->|Hrc].
  - destruct Hres as [R1 R2]. split; [done|]. intros F. split; [intros _; by apply Hf, F|by intros _].
  - split; [by apply same_same_but|]. intros F. by destruct (Hf (F E)).
Qed.

(** Taken and given back, nothing has changed. *)
Lemma lock_unlock_same w (l l1 l2 : L) i n : exclusiveMode w = 0 -> locks_free w l i n -> lk_same_but l l1 (pDbFd w) i n -> lk_same_but l1 l2 (pDbFd w) i n ->
  locks_free w l2 i n -> lk_same l l2.
Proof.
  intros E F S1 S2 F2 c j. destruct (decide (c = pDbFd w /\ i <= j < i + n)) as [[-> Hj]|Hn].
  - by rewrite (F E j Hj), (F2 E j Hj).
  - assert (c <> pDbFd w \/ ~ (i <= j < i + n)) as Hn' by (destruct (decide (c = pDbFd w)); [right; tauto|by left]). by rewrite S2, S1.
Qed.

(** Nobody holds anything else than before, and the operating system still grants. *)
Definition calm (w : Wal) (l l' : L) : Prop := locks_ok w l' /\ locks_fine w l' /\ lk_same l l'.

Lemma calm_refl w l : locks_ok w l -> locks_fine w l -> calm w l l.
Proof. done. Qed.

Lemma calm_trans w l l1 l2 : calm w l l1 -> calm w l1 l2 -> calm w l l2.
Proof. intros (_ & _ & S1) (O2 & F2 & S2). split; [done|]. split; [done|]. intros c j. by rewrite S2, S1. Qed.

Lemma calm_free w l l' i n : calm w l l' -> locks_free w l i n -> locks_free w l' i n.
Proof. intros (_ & _ & Hs) Hf E j Hj. rewrite Hs. by apply Hf. Qed.

Lemma calm_unused w l l' i n : calm w l l' -> locks_unused w l' i n <-> locks_unused w l i n.
Proof. intros (_ & _ & Hs). split; intros Hu E c j Hj Hc; [rewrite <- Hs|rewrite Hs]; by apply Hu. Qed.

(** An exclusive lock is granted if nobody else holds one; given back, all is as before. *)
Lemma lock_unlock_calm w i n (l : L) : locks_ok w l -> locks_fine w l -> 0 <= i -> 1 <= n -> i + n <= SQLITE_SHM_NLOCK -> locks_free w l i n ->
  exists rc l', walLockExclusive w i n l = (rc, l') /\
    (rc = SQLITE_OK /\ locks_unused w l i n /\ calm w l (walUnlockExclusive w i n l') \/ rc = SQLITE_BUSY /\ ~ locks_unused w l i n /\ calm w l l').
Proof.
  intros Hok Hf Hi Hn Hin Hfree. destruct (walLockExclusive_ok w i n l Hok Hi Hn Hin Hfree) as (rc & l' & E & Hok' & Hf' & Hs & Hbad & Hgot & Hget).
  exists rc, l'. split; [done|]. destruct (decide (rc = SQLITE_OK)) as [->|Hrc].
  - left. destruct (Hgot eq_refl) as [Hm Hu]. split; [done|]. split; [done|].
    destruct (walUnlockExclusive_ok w i n l' Hok' Hi Hn Hin Hm) as (Hok2 & Hs2 & Hf2). destruct (Hf2 (Hf' Hf)) as [Hf3 Hfree3]. split; [done|]. split; [done|].
    destruct (decide (exclusiveMode w = 0)) as [Ex|Ex]; [by eapply lock_unlock_same|]. clear - E Ex. intros c j. unfold walLockExclusive, walUnlockExclusive in *.
    rewrite (proj2 (Z.eqb_neq _ _) Ex) in *. cbn [negb] in *. by injection E as <-.
  - right. assert (~ locks_unused w l i n) as Hnu by (intros Hu; by apply Hrc, Hget). split; [|split; [done|split; [done|split; [by apply Hf'|by apply Hbad]]]].
    unfold walLockExclusive in E. destruct (Z.eqb_spec (exclusiveMode w) 0) as [Ex|Ex]; cbn [negb] in E; [|injection E as <- _; done].
    destruct (Hok Ex) as [Hl Ho]. destruct (lk_exclusive l (pDbFd w) i n Hl Ho Hi Hn Hin (Hfree Ex)) as (rc1 & l1 & E1 & _ & _ & _ & Hres).
    rewrite E1 in E. injection E as -> ->. rewrite (proj2 (Z.eqb_neq _ _) Hrc) in Hres. apply Hres. by apply Hf.
Qed.

Lemma walBusyLock_ok xBusy w i n (l : L) : locks_ok w l -> locks_fine w l -> 0 <= i -> 1 <= n -> i + n <= SQLITE_SHM_NLOCK -> locks_free w l i n ->
  exists rc xBusy' l', walBusyLock xBusy w i n l = (rc, xBusy', l') /\
    (rc = SQLITE_OK /\ locks_unused w l i n /\ calm w l (walUnlockExclusive w i n l') \/ rc = SQLITE_BUSY /\ ~ locks_unused w l i n /\ calm w l l').
Proof.
  intros Hok Hf Hi Hn Hin Hfree. destruct xBusy as [answers|]; cbn [walBusyLock].
  2: { destruct (lock_unlock_calm w i n l Hok Hf Hi Hn Hin Hfree) as (rc & l' & -> & Hres). by exists rc, None, l'. }
  assert (exists rc answers' l', walBusyLock_loop answers w i n l = (rc, answers', l') /\
    (rc = SQLITE_OK /\ locks_unused w l i n /\ calm w l (walUnlockExclusive w i n l') \/ rc = SQLITE_BUSY /\ ~ locks_unused w l i n /\ calm w l l')) as (rc & answers' & l' & -> & Hres).
  2: by exists rc, (Some answers'), l'.
  revert l Hok Hf Hfree. induction answers as [|b answers IH]; intros l Hok Hf Hfree; cbn [walBusyLock_loop];
    destruct (lock_unlock_calm w i n l Hok Hf Hi Hn Hin Hfree) as (rc & l' & -> & [(-> & Hu & Hc)|(-> & Hnu & Hc)]); cbn [Z.eqb SQLITE_OK SQLITE_BUSY Pos.eqb].
  - exists SQLITE_OK, [], l'. split; [done|]. by left.
  - exists SQLITE_BUSY, [], l'. split; [done|]. by right.
  - exists SQLITE_OK, (b :: answers), l'. split; [done|]. by left.
  - destruct b; [|exists SQLITE_BUSY, answers, l'; split; [done|by right]].
    destruct (IH l' (proj1 Hc) (proj1 (proj2 Hc)) (calm_free _ _ _ _ _ Hc Hfree)) as (rc & answers' & l2 & -> & Hres). exists rc, answers', l2. split; [done|].
    rewrite (calm_unused _ _ _ _ _ Hc) in Hres. destruct Hres as [(? & ? & ?)|(? & ? & ?)]; [left|right]; (split; [done|split; [done|by eapply calm_trans]]).
Qed.
End use.
