(* ===== verification/WalIndexRefine.v ===== *)
(** * WalIndexRefine: the index of the write-ahead log refines the list of its frames

    The invariant of the whole index ([index_holds], [writer_ok]) over the hash tables of
    WalIndex, every operation of a writer, and searching by readers. *)

From S2P Require Import Prelude CType ByteMem OsFile WalCksum WalIndex.

(** * The whole index *)

(** Frames [z + 1] to [z + cap] are on page [h]. *)
Definition page_base (h : Z) : Z := if h =? 0 then WALINDEX_HDR_SIZE / 4 else 0.
Definition page_zero (h : Z) : Z := if h =? 0 then 0 else HASHTABLE_NPAGE_ONE + (h - 1) * HASHTABLE_NPAGE.
Definition page_cap (h : Z) : Z := HASHTABLE_NPAGE - page_base h.

(** The page numbers of the frames on page [h]; [log] has those of all frames. *)
Definition seg (h : Z) (log : list Z) : list Z := take (Z.to_nat (page_cap h)) (drop (Z.to_nat (page_zero h)) log).

Definition on_page (s : Shm) (h : Z) (l : list Z) : Prop :=
  exists pg, s_pages s !! Z.to_nat h = Some pg /\ table_ok (page_base h) l pg.

(** Each page in use has its frames first; a rolled back or dead writer may have left more
    behind them. *)
Definition index_holds (s : Shm) (log : list Z) : Prop :=
  forall h, 0 <= h -> page_zero h < len log -> exists l, on_page s h l /\ seg h log `prefix_of` l.

(** Nothing is left behind the last frame on its page. *)
Definition index_exact (s : Shm) (log : list Z) : Prop :=
  forall h, 0 <= h -> page_zero h < len log -> len log <= page_zero h + page_cap h -> on_page s h (seg h log).

Lemma page_numbers h : 0 <= h ->
  0 <= page_base h <= 34 /\ 4062 <= page_cap h <= 4096 /\ 0 <= page_zero h /\ page_zero h = (if h =? 0 then 0 else 4062 + (h - 1) * 4096) /\
  page_cap h = (if h =? 0 then 4062 else 4096) /\ page_base h + page_cap h = 4096.
Proof.
  intros Hh. unfold page_cap, page_base, page_zero. change (WALINDEX_HDR_SIZE / 4) with 34.
  change HASHTABLE_NPAGE with 4096. change HASHTABLE_NPAGE_ONE with 4062. destruct (Z.eqb_spec h 0); lia.
Qed.

Lemma walFramePage_spec f : 0 <= f < 2 ^ 31 ->
  0 <= walFramePage f < 2 ^ 20 /\ page_zero (walFramePage f) <= f <= page_zero (walFramePage f) + page_cap (walFramePage f) /\
  (0 < f -> page_zero (walFramePage f) < f).
Proof.
  intros Hf. unfold walFramePage. change HASHTABLE_NPAGE with 4096. change HASHTABLE_NPAGE_ONE with 4062.
  rewrite u32_id by lia. rewrite u64_id by lia.
  assert (0 <= (f + 4096 - 4062 - 1) / 4096 < 2 ^ 20) as Hd by (split; [apply Z.div_pos; lia|apply Z.div_lt_upper_bound; lia]).
  assert (i32 ((f + 4096 - 4062 - 1) / 4096) = (f + 4096 - 4062 - 1) / 4096) as -> by (apply swrap_id; unfold in_i; lia).
  set (h := (f + 4096 - 4062 - 1) / 4096) in *. destruct (page_numbers h ltac:(lia)) as (? & ? & ? & Ez & Ec & ?).
  rewrite Ez, Ec. split; [done|]. assert (4096 * h <= f + 33 < 4096 * h + 4096) as Hh by (unfold h; Z.to_euclidean_division_equations; lia).
  destruct (Z.eqb_spec h 0); lia.
Qed.

Lemma page_unique h h' f : 0 <= h -> 0 <= h' -> page_zero h < f <= page_zero h + page_cap h -> page_zero h' < f <= page_zero h' + page_cap h' -> h = h'.
Proof.
  intros Hh Hh' H1 H2. destruct (page_numbers h Hh) as (_ & _ & _ & Ez & Ec & _). destruct (page_numbers h' Hh') as (_ & _ & _ & Ez' & Ec' & _).
  rewrite Ez, Ec in H1. rewrite Ez', Ec' in H2. destruct (Z.eqb_spec h 0); destruct (Z.eqb_spec h' 0); lia.
Qed.

Lemma page_order h h' : 0 <= h -> h < h' -> page_zero h + page_cap h <= page_zero h'.
Proof.
  intros Hh Hh'. destruct (page_numbers h Hh) as (_ & _ & _ & Ez & Ec & _). destruct (page_numbers h' ltac:(lia)) as (_ & _ & _ & Ez' & Ec' & _).
  rewrite Ez, Ec, Ez'. destruct (Z.eqb_spec h 0); destruct (Z.eqb_spec h' 0); lia.
Qed.

Lemma seg_ld h log i : 0 <= h -> 0 <= i < page_cap h -> (seg h log).[i] = log.[page_zero h + i].
Proof.
  intros Hh Hi. destruct (page_numbers h Hh) as (_ & _ & ? & _ & _ & _). unfold seg. rewrite ld_firstn by lia. rewrite decide_True by lia.
  unfold ld. rewrite !nth_lookup, lookup_drop. do 2 f_equal. lia.
Qed.

Lemma seg_length h log : 0 <= h -> len (seg h log) = Z.max 0 (Z.min (page_cap h) (len log - page_zero h)).
Proof. intros Hh. destruct (page_numbers h Hh) as (_ & ? & ? & _ & _ & _). unfold seg. rewrite length_take, length_drop. lia. Qed.

Lemma seg_full h log log' : 0 <= h -> page_zero h + page_cap h <= len log -> log `prefix_of` log' -> seg h log' = seg h log.
Proof.
  intros Hh Hl [k ->]. destruct (page_numbers h Hh) as (_ & ? & ? & _ & _ & _). unfold seg.
  rewrite drop_app_le by lia. rewrite take_app_le; [done|]. rewrite length_drop. lia.
Qed.

Lemma seg_snoc h log p : 0 <= h -> page_zero h <= len log < page_zero h + page_cap h -> seg h (log ++ [p]) = seg h log ++ [p].
Proof.
  intros Hh Hl. destruct (page_numbers h Hh) as (_ & ? & ? & _ & _ & _). unfold seg.
  rewrite drop_app_le by lia. rewrite (take_ge (drop _ log)) by (rewrite length_drop; lia).
  rewrite take_ge; [done|]. rewrite length_app, length_drop. simpl. lia.
Qed.

Lemma seg_take h log n : seg h (take n log) `prefix_of` seg h log.
Proof.
  unfold seg. rewrite skipn_firstn_comm, firstn_firstn, Nat.min_comm, <- firstn_firstn. apply prefix_take.
Qed.

(** ** Mapping *)

(** What mapping pages changes: nothing but the mapping, and zeroed pages at the end. *)
Definition remap (w : Wal) (s : Shm) (w' : Wal) (s' : Shm) : Prop :=
  (exists m v ro, w' = with_mapped w m v ro) /\ (exists n, s' = with_pages s (s_pages s ++ replicate n zero_page)) /\
    w_mapped w ⊆ w_mapped w' /\ (w_vfs w = [] -> w_vfs w' = []).

(** Mapped pages exist and have their size. *)
Definition mapping_ok (w : Wal) (s : Shm) : Prop :=
  (forall h, h ∈ w_mapped w -> 0 <= h < len (s_pages s)) /\ Forall page_wf (s_pages s).

Definition loc_of (h : Z) : WalHashLoc := mk_loc h (page_base h) (page_zero h).

Lemma zero_page_wf : page_wf zero_page.
Proof. split; apply length_replicate. Qed.

Lemma remap_refl w s : remap w s w s.
Proof.
  split; [exists (w_mapped w), (w_vfs w), (readOnly w); by destruct w|]. split; [|done].
  exists 0%nat. rewrite app_nil_r. by destruct s.
Qed.

Lemma remap_trans w s w1 s1 w2 s2 : remap w s w1 s1 -> remap w1 s1 w2 s2 -> remap w s w2 s2.
Proof.
  intros ((m & v & ro & ->) & (n & ->) & Hm & Hv) ((m' & v' & ro' & ->) & (n' & ->) & Hm' & Hv'). split; [|split; [|split]].
  - by exists m', v', ro'.
  - exists (n + n')%nat. unfold with_pages. cbn. by rewrite replicate_add, app_assoc.
  - by etransitivity.
  - auto.
Qed.

Lemma mapping_extend w s m v ro n : mapping_ok w s -> (forall h, h ∈ m -> h ∈ w_mapped w \/ 0 <= h < len (s_pages s) + Z.of_nat n) ->
  mapping_ok (with_mapped w m v ro) (with_pages s (s_pages s ++ replicate n zero_page)).
Proof.
  intros [Hm Hp] Hh. split.
  - intros h Hin. cbn in *. rewrite length_app, length_replicate. destruct (Hh h Hin) as [Hin'|]; [|lia]. specialize (Hm h Hin'). lia.
  - cbn. apply Forall_app. split; [done|]. apply Forall_replicate, zero_page_wf.
Qed.

Lemma mapping_same w s m v ro : mapping_ok w s -> (forall h, h ∈ m -> h ∈ w_mapped w \/ 0 <= h < len (s_pages s)) ->
  mapping_ok (with_mapped w m v ro) s.
Proof.
  intros Hw Hh. replace s with (with_pages s (s_pages s ++ replicate 0 zero_page)) at 1 by (destruct s; cbn; by rewrite app_nil_r).
  apply mapping_extend; [done|]. intros h Hin. destruct (Hh h Hin); [by left|right; lia].
Qed.

Lemma walIndexPage_ok w h s : mapping_ok w s -> 0 <= h ->
  exists rc w' s', walIndexPage w h s = (rc, w', s') /\ mapping_ok w' s' /\ remap w s w' s' /\
    (h ∈ w_mapped w -> rc = SQLITE_OK) /\
    (w_vfs w = [] -> writeLock w = true \/ h < len (s_pages s) -> rc = SQLITE_OK /\ h ∈ w_mapped w').
Proof.
  intros Hok Hh. unfold walIndexPage. case_bool_decide as Hin.
  { exists SQLITE_OK, w, s. split; [done|]. split; [done|]. split; [apply remap_refl|done]. }
  unfold walIndexPageRealloc. set (a := match w_vfs w with [] => (SQLITE_OK, []) | rc :: vfs => (rc, vfs) end).
  assert (w_vfs w = [] -> a = (SQLITE_OK, [])) as Ha by (intros E; unfold a; by rewrite E).
  clearbody a. destruct a as [rc vfs].
  assert (Hsame : forall m ro, (forall k, k ∈ m -> k ∈ w_mapped w \/ 0 <= k < len (s_pages s)) -> w_mapped w ⊆ m ->
    mapping_ok (with_mapped w m vfs ro) s /\ remap w s (with_mapped w m vfs ro) s).
  { intros m ro Hm Hsub. split; [by apply mapping_same|]. split; [by eexists _, _, _|]. split.
    - exists 0%nat. rewrite app_nil_r. by destruct s.
    - split; [done|]. cbn. intros E. apply Ha in E. by injection E. }
  assert (Hext : forall ro, mapping_ok (with_mapped w ({[h]} ∪ w_mapped w) vfs ro) (with_pages s (extend_pages (s_pages s) h)) /\
    remap w s (with_mapped w ({[h]} ∪ w_mapped w) vfs ro) (with_pages s (extend_pages (s_pages s) h))).
  { intros ro. split.
    - apply mapping_extend; [done|]. intros k Hk. apply elem_of_union in Hk as [->%elem_of_singleton|]; [right; lia|by left].
    - split; [by eexists _, _, _|]. split; [by eexists|]. split; [set_solver|]. cbn. intros E. apply Ha in E. by injection E. }
  assert (Hadd : forall k, k ∈ (if h <? len (s_pages s) then {[h]} ∪ w_mapped w else w_mapped w) -> k ∈ w_mapped w \/ 0 <= k < len (s_pages s)).
  { intros k. destruct (Z.ltb_spec h (len (s_pages s))); [|by left]. intros [->%elem_of_singleton|]%elem_of_union; [right; lia|by left]. }
  assert (Hsub : w_mapped w ⊆ (if h <? len (s_pages s) then {[h]} ∪ w_mapped w else w_mapped w)).
  { destruct (h <? len (s_pages s)); set_solver. }
  assert (Hno : h ∉ w_mapped w) by done.
  destruct (exclusiveMode w =? WAL_HEAPMEMORY_MODE) eqn:Em.
  { destruct (Z.eqb_spec rc SQLITE_OK) as [->|Hrc].
    - eexists _, _, _. split; [done|]. destruct (Hext (readOnly w)). split; [done|]. split; [done|]. split; [done|]. intros _ _. split; [done|]. cbn. set_solver.
    - eexists _, _, _. split; [done|]. destruct (Hsame (w_mapped w) (readOnly w) ltac:(by left) ltac:(done)). split; [done|]. split; [done|]. split; [done|].
      intros E. apply Ha in E. congruence. }
  destruct (Z.eqb_spec rc SQLITE_OK) as [->|Hrc].
  { destruct (writeLock w).
    - eexists _, _, _. split; [done|]. cbn [s_pages with_pages].
      assert (h < len (extend_pages (s_pages s) h)) as Hl by (unfold extend_pages; rewrite length_app, length_replicate; lia).
      rewrite (proj2 (Z.ltb_lt _ _) Hl). destruct (Hext (readOnly w)). split; [done|]. split; [done|]. split; [done|]. intros _ _. split; [done|]. cbn. set_solver.
    - eexists _, _, _. split; [done|]. destruct (Hsame _ (readOnly w) Hadd Hsub). split; [done|]. split; [done|]. split; [done|].
      intros _ [?|Hl]; [done|]. split; [done|]. cbn. rewrite (proj2 (Z.ltb_lt _ _) Hl). set_solver. }
  destruct (rc .& 0xff =? SQLITE_READONLY).
  - eexists _, _, _. split; [done|]. destruct (Hsame _ (readOnly w .| WAL_SHM_RDONLY) Hadd Hsub). split; [done|]. split; [done|]. split; [done|].
    intros E. apply Ha in E. congruence.
  - eexists _, _, _. split; [done|]. destruct (Hsame (w_mapped w) (readOnly w) ltac:(by left) ltac:(done)). split; [done|]. split; [done|]. split; [done|].
    intros E. apply Ha in E. congruence.
Qed.

Lemma loc_of_u32 h : 0 <= h < 2 ^ 20 ->
  (if h =? 0 then mk_loc h (WALINDEX_HDR_SIZE / 4) 0 else mk_loc h 0 (u32 (HASHTABLE_NPAGE_ONE + (h - 1) * HASHTABLE_NPAGE))) = loc_of h.
Proof.
  intros Hh. unfold loc_of, page_base, page_zero. destruct (Z.eqb_spec h 0); [done|]. f_equal.
  change HASHTABLE_NPAGE_ONE with 4062. change HASHTABLE_NPAGE with 4096. apply u32_id. lia.
Qed.

Lemma walHashGet_mapped w h s : 0 <= h < 2 ^ 20 -> h ∈ w_mapped w -> walHashGet w h s = (SQLITE_OK, loc_of h, w, s).
Proof.
  intros Hh Hin. unfold walHashGet, walIndexPage. rewrite bool_decide_eq_true_2 by done.
  rewrite bool_decide_eq_true_2 by done. by rewrite loc_of_u32.
Qed.

Lemma walHashGet_ok w h s : mapping_ok w s -> 0 <= h < 2 ^ 20 ->
  exists rc w' s', walHashGet w h s = (rc, loc_of h, w', s') /\ mapping_ok w' s' /\ remap w s w' s' /\
    (rc = SQLITE_OK -> h ∈ w_mapped w') /\
    (w_vfs w = [] -> writeLock w = true \/ h < len (s_pages s) -> rc = SQLITE_OK).
Proof.
  intros Hok Hh. destruct (walIndexPage_ok w h s Hok ltac:(lia)) as (rc & w' & s' & E & Hok' & Hr & _ & Hv).
  unfold walHashGet. rewrite E, loc_of_u32 by done. case_bool_decide as Hin.
  - exists rc, w', s'. split; [done|]. split; [done|]. split; [done|]. split; [done|]. intros A B. by apply Hv.
  - eexists _, w', s'. split; [done|]. split; [done|]. split; [done|]. split.
    + destruct (Z.eqb_spec rc SQLITE_OK); done.
    + intros A B. destruct (Hv A B). done.
Qed.

Lemma on_page_remap w s w' s' h l : remap w s w' s' -> on_page s h l -> on_page s' h l.
Proof. intros (_ & (n & ->) & _) (pg & Hpg & T). exists pg. split; [|done]. cbn. by apply lookup_app_l_Some. Qed.

Lemma holds_remap w s w' s' log : remap w s w' s' -> index_holds s log -> index_holds s' log.
Proof. intros Hr Hs h H1 H2. destruct (Hs h H1 H2) as (l & ? & ?). exists l. split; [by eapply on_page_remap|done]. Qed.

Lemma exact_remap w s w' s' log : remap w s w' s' -> index_exact s log -> index_exact s' log.
Proof. intros Hr Hs h H1 H2 H3. eapply on_page_remap; eauto. Qed.

Lemma remap_hdr w s w' s' : remap w s w' s' ->
  hdr w' = hdr w /\ minFrame w' = minFrame w /\ writeLock w' = writeLock w /\ readLock w' = readLock w /\ bShmUnreliable w' = bShmUnreliable w /\
  len (s_pages s) <= len (s_pages s') /\ s_hdr0 s' = s_hdr0 s /\ s_hdr1 s' = s_hdr1 s /\ s_ckpt s' = s_ckpt s.
Proof. intros ((m & v & ro & ->) & (n & ->) & _). cbn. rewrite length_app. repeat split; lia. Qed.

Lemma get_page_ok s h pg : s_pages s !! Z.to_nat h = Some pg -> get_page s (loc_of h) = Done pg.
Proof. unfold get_page. cbn. by intros ->. Qed.

Lemma on_page_wf s h l : on_page s h l -> exists pg, s_pages s !! Z.to_nat h = Some pg /\ page_wf pg.
Proof. intros (pg & Hpg & T). exists pg. split; [done|]. split; apply T. Qed.

(** Writing one page. *)
Lemma put_page_mapping w s h pg : mapping_ok w s -> page_wf pg -> mapping_ok w (put_page s (loc_of h) pg).
Proof. intros [Hm Hp] Hw. split; cbn; [intros k Hk; rewrite length_insert; by apply Hm|by apply Forall_insert]. Qed.

Lemma put_page_same s h l pg' : 0 <= h < len (s_pages s) -> table_ok (page_base h) l pg' -> on_page (put_page s (loc_of h) pg') h l.
Proof. intros Hh T. exists pg'. split; [|done]. cbn. apply list_lookup_insert_eq. lia. Qed.

Lemma put_page_other s h h' l pg' : 0 <= h -> 0 <= h' -> h <> h' -> on_page s h' l -> on_page (put_page s (loc_of h) pg') h' l.
Proof. intros Hh Hh' Hn (pg & Hpg & T). exists pg. split; [|done]. cbn. rewrite list_lookup_insert_ne by lia. done. Qed.

Lemma put_page_twice s h a b : put_page (put_page s (loc_of h) a) (loc_of h) b = put_page s (loc_of h) b.
Proof. unfold put_page, with_pages. cbn. by rewrite list_insert_insert_eq. Qed.

Lemma lookup_put_page s h pg : 0 <= h < len (s_pages s) -> s_pages (put_page s (loc_of h) pg) !! Z.to_nat h = Some pg.
Proof. intros Hh. cbn. apply list_lookup_insert_eq. lia. Qed.

(** ** Appending *)

(** The index of a writer: [log] are the page numbers of the frames in the log, of which
    [mxFrame] are in its header; those behind the [mxFrame] of the shared header it has
    appended itself. *)
Record writer_ok (w : Wal) (s : Shm) (log : list Z) : Prop := {
  wr_map : mapping_ok w s;
  wr_holds : index_holds s log;
  wr_lock : writeLock w = true;
  wr_mx : 0 <= mxFrame (hdr w) <= len log;
  wr_exact : mxFrame (hdr w) = len log \/ index_exact s log;
  wr_pages : Forall (fun p => 0 < p < 2 ^ 32) log;
  wr_committed : 0 <= mxFrame (s_hdr0 s) <= mxFrame (hdr w);
  wr_mine : forall f, mxFrame (s_hdr0 s) < f <= len log -> walFramePage f ∈ w_mapped w;
  wr_zero : 0 ∈ w_mapped w;
  wr_salt : bytes_ok (aSalt (hdr w)) /\ length (aSalt (hdr w)) = 8%nat /\ bytes_ok (aSalt (s_hdr0 s)) /\ length (aSalt (s_hdr0 s)) = 8%nat
}.

(** The part of it that appending needs. *)
Record appender_ok (w : Wal) (s : Shm) (log : list Z) : Prop := {
  ap_map : mapping_ok w s;
  ap_holds : index_holds s log;
  ap_lock : writeLock w = true;
  ap_mx : 0 <= mxFrame (hdr w) <= len log;
  ap_exact : mxFrame (hdr w) = len log \/ index_exact s log;
  ap_pages : Forall (fun p => 0 < p < 2 ^ 32) log
}.

Lemma writer_app w s log : writer_ok w s log -> appender_ok w s log.
Proof. intros []. by split. Qed.

(** The page [h] of the next frame, when it has come to its place: cleared if the frame is
    the first on it, and without leftovers. *)
Lemma append_place w s log h : appender_ok w s log -> h = walFramePage (len log + 1) -> h ∈ w_mapped w -> len log + 1 < 2 ^ 31 ->
  let idx := len log + 1 - page_zero h in
  exists pg pg1 v s2,
    get_page s (loc_of h) = Done pg /\ (if idx =? 1 then clear_page pg (loc_of h) else Done pg) = Done pg1 /\
    rd_pgno pg1 (loc_of h) (idx - 1) = Done v /\
    (if negb (v =? 0) then walCleanupHash w (put_page s (loc_of h) pg1) else Done (w, put_page s (loc_of h) pg1)) = Done (w, s2) /\
    exists pg2, s2 = put_page s (loc_of h) pg2 /\ table_ok (page_base h) (seg h log) pg2.
Proof.
  intros [Hmap Hh Hl Hmx Hex Hpos] -> Hin Hb idx. set (h := walFramePage (len log + 1)) in *.
  destruct (walFramePage_spec (len log + 1) ltac:(lia)) as (Hr & Hz & Hz'). fold h in Hr, Hz, Hz'. specialize (Hz' ltac:(lia)).
  destruct (page_numbers h ltac:(lia)) as (Pb & Pc & Pz & _ & _ & Pbc).
  destruct Hmap as [Hm Hp]. pose proof (Hm h Hin) as Hhl.
  destruct (lookup_lt_is_Some_2 (s_pages s) (Z.to_nat h) ltac:(lia)) as [pg Hpg].
  pose proof (proj1 (Forall_lookup _ _) Hp _ _ Hpg) as Hwf. exists pg.
  unfold rd_pgno. change (hl_base (loc_of h)) with (page_base h).
  pose proof (seg_length h log ltac:(lia)) as Ls. rewrite Z.min_r, Z.max_r in Ls by lia.
  destruct (Z.eqb_spec idx 1) as [E1|N1].
  - destruct (clear_page_ok (page_base h) (loc_of h) pg Hwf eq_refl ltac:(change HASHTABLE_NPAGE with 4096; lia)) as (pg1 & Ec & T).
    assert (seg h log = []) as Es by (apply length_zero_iff_nil; lia).
    exists pg1, 0, (put_page s (loc_of h) pg1). rewrite rd_ok by (rewrite (t_words _ _ _ T); change HASHTABLE_NPAGE with 4096; lia).
    rewrite (t_pgno _ _ _ T) by (change HASHTABLE_NPAGE with 4096; lia). rewrite ld_beyond by (simpl; lia).
    split; [by apply get_page_ok|]. split; [done|]. split; [done|]. split; [done|]. exists pg1. by rewrite Es.
  - destruct (Hh h ltac:(lia) ltac:(lia)) as (l & (pg' & Hpg' & T) & Hpre). rewrite Hpg in Hpg'. injection Hpg' as <-.
    pose proof (prefix_length _ _ Hpre). pose proof (t_len _ _ _ T) as Tl. change HASHTABLE_NPAGE with 4096 in Tl.
    exists pg, l.[idx - 1]. rewrite rd_ok by (rewrite (t_words _ _ _ T); change HASHTABLE_NPAGE with 4096; lia).
    rewrite (t_pgno _ _ _ T) by (change HASHTABLE_NPAGE with 4096; lia).
    assert (get_page s (loc_of h) = Done pg) as Hget by by apply get_page_ok.
    destruct (decide (idx - 1 < len l)) as [Hlt|Hge].
    + assert (0 < l.[idx - 1]) as Hv.
      { destruct (lookup_lt_is_Some_2 l (Z.to_nat (idx - 1)) ltac:(lia)) as [x Hx]. unfold ld. rewrite nth_lookup, Hx. cbn.
        pose proof (proj1 (Forall_lookup _ _) (t_pos _ _ _ T) _ _ Hx). simpl in *. lia. }
      assert (mxFrame (hdr w) = len log) as Em.
      { destruct Hex as [|Hex]; [done|]. destruct (Hex h ltac:(lia) ltac:(lia) ltac:(lia)) as (pg' & Hpg' & T').
        rewrite Hpg in Hpg'. injection Hpg' as <-. pose proof (t_pgno _ _ _ T (idx - 1) ltac:(lia) ltac:(change HASHTABLE_NPAGE with 4096; lia)) as G.
        rewrite (t_pgno _ _ _ T') in G by (change HASHTABLE_NPAGE with 4096; lia). rewrite ld_beyond in G by lia. lia. }
      rewrite (proj2 (Z.eqb_neq _ _)) by lia. cbn [negb]. unfold walCleanupHash. rewrite (proj2 (Z.eqb_neq _ _)) by lia. rewrite Em.
      assert (walFramePage (len log) = h) as Eh.
      { destruct (walFramePage_spec (len log) ltac:(lia)) as (R & Z1 & Z2). apply (page_unique _ _ (len log)); lia. }
      rewrite Eh, walHashGet_mapped by (lia || done). cbn [iZero loc_of].
      change (negb (SQLITE_OK =? SQLITE_OK)) with false. cbn iota.
      rewrite Em, u32_id by lia. replace (i32 (len log - page_zero h)) with (len log - page_zero h) by (symmetry; apply swrap_id; unfold in_i; lia).
      rewrite (get_page_ok (put_page s (loc_of h) pg) h pg) by (by apply lookup_put_page). cbn [mbind outcome_bind].
      destruct (cleanup_page_ok (page_base h) l pg (loc_of h) (len log - page_zero h) T eq_refl ltac:(lia) ltac:(lia)) as (pg2 & Ec & T2).
      rewrite Ec. cbn [mbind outcome_bind]. eexists. rewrite put_page_twice. split; [done|]. split; [done|]. split; [done|]. split; [done|].
      exists pg2. split; [done|]. destruct Hpre as [k Hk]. rewrite Hk, take_app_le, take_ge in T2 by lia. done.
    + rewrite ld_beyond by lia. change (negb (0 =? 0)) with false. cbn iota. eexists. split; [done|]. split; [done|]. split; [done|]. split; [done|].
      exists pg. split; [done|]. destruct Hpre as [k ->]. rewrite length_app in Hge. assert (k = []) as -> by (apply length_zero_iff_nil; lia).
      by rewrite app_nil_r in T.
Qed.

(** After the frame has been put on its page, every other page is as it was. *)
Lemma append_holds s log h pg p : index_holds s log -> h = walFramePage (len log + 1) -> len log + 1 < 2 ^ 31 -> 0 <= h < len (s_pages s) ->
  table_ok (page_base h) (seg h log ++ [p]) pg ->
  index_holds (put_page s (loc_of h) pg) (log ++ [p]) /\ index_exact (put_page s (loc_of h) pg) (log ++ [p]).
Proof.
  intros Hh -> Hb Hl T. set (h := walFramePage (len log + 1)) in *.
  destruct (walFramePage_spec (len log + 1) ltac:(lia)) as (Hr & Hz & Hz'). fold h in Hr, Hz, Hz'. specialize (Hz' ltac:(lia)).
  assert (len (log ++ [p]) = len log + 1) as El by (rewrite length_app; simpl; lia).
  assert (on_page (put_page s (loc_of h) pg) h (seg h (log ++ [p]))) as Hon.
  { rewrite seg_snoc by lia. by apply put_page_same. }
  assert (forall h', 0 <= h' -> page_zero h' < len log + 1 -> h' <> h -> page_zero h' + page_cap h' <= len log) as Hold.
  { intros h' Hh' Hz'' Hne. destruct (Z.lt_trichotomy h' h) as [|[?|?]]; [|done|].
    - pose proof (page_order h' h ltac:(lia) ltac:(lia)). lia.
    - pose proof (page_order h h' ltac:(lia) ltac:(lia)). lia. }
  split; intros h' Hh' Hz''; rewrite El in Hz''.
  - destruct (decide (h' = h)) as [->|Hne]; [eexists; by split|]. specialize (Hold h' Hh' Hz'' Hne).
    destruct (page_numbers h' Hh') as (_ & ? & _).
    destruct (Hh h' Hh' ltac:(lia)) as (l & Hon' & Hpre). exists l. split; [by apply put_page_other; [lia..|]|].
    rewrite (seg_full h' log (log ++ [p])); [done|done|lia|by apply prefix_app_r].
  - rewrite El. intros Hlast. destruct (decide (h' = h)) as [->|Hne]; [done|]. specialize (Hold h' Hh' Hz'' Hne). lia.
Qed.

(** What an operation on the index leaves alone: of the connection all but the mapping, of
    the shared memory the headers. *)
Definition touched (w : Wal) (s : Shm) (w' : Wal) (s' : Shm) : Prop :=
  (exists m v ro, w' = with_mapped w m v ro) /\ (exists pages, s' = with_pages s pages) /\ (w_vfs w = [] -> w_vfs w' = []).

Lemma remap_touched w s w' s' : remap w s w' s' -> touched w s w' s'.
Proof. intros (H & (n & ->) & _ & Hv). split; [done|]. split; [by eexists|done]. Qed.

Lemma touched_put w s w' s' loc pg : touched w s w' s' -> touched w s w' (put_page s' loc pg).
Proof. intros (H & (pages & ->) & Hv). split; [done|]. split; [by eexists|done]. Qed.

Lemma touched_hdr w s w' s' : touched w s w' s' ->
  hdr w' = hdr w /\ minFrame w' = minFrame w /\ writeLock w' = writeLock w /\ readLock w' = readLock w /\
  s_hdr0 s' = s_hdr0 s /\ s_hdr1 s' = s_hdr1 s /\ s_ckpt s' = s_ckpt s.
Proof. intros ((m & v & ro & ->) & (pages & ->) & _). done. Qed.

Lemma appender_remap w s w' s' log : appender_ok w s log -> remap w s w' s' -> mapping_ok w' s' -> appender_ok w' s' log.
Proof.
  intros [Hmap Hh Hl Hmx Hex Hpos] Hr Hm. destruct (remap_hdr _ _ _ _ Hr) as (E1 & _ & E3 & _). split; rewrite ?E1, ?E3; try done.
  - by eapply holds_remap.
  - destruct Hex; [by left|right; by eapply exact_remap].
Qed.

(** With the page mapped. *)
Lemma walIndexAppend_mapped w s log p : appender_ok w s log -> len log + 1 < 2 ^ 31 -> 0 < p < 2 ^ 32 -> walFramePage (len log + 1) ∈ w_mapped w ->
  exists pg, let s' := put_page s (loc_of (walFramePage (len log + 1))) pg in
    walIndexAppend w (len log + 1) p s = Done (SQLITE_OK, w, s') /\ page_wf pg /\ appender_ok w s' (log ++ [p]).
Proof.
  intros Hw Hb Hp Hin. pose proof (ap_map _ _ _ Hw) as Hm. unfold walIndexAppend.
  destruct (walFramePage_spec (len log + 1) ltac:(lia)) as (Hr & Hz & Hz'). specialize (Hz' ltac:(lia)).
  rewrite walHashGet_mapped by done. rewrite Z.eqb_refl. cbn [negb]. set (h := walFramePage (len log + 1)) in *.
  destruct (page_numbers h ltac:(lia)) as (Pb & Pc & Pz & _ & _ & Pbc). cbn [iZero loc_of].
  rewrite u32_id by lia. replace (i32 (len log + 1 - page_zero h)) with (len log + 1 - page_zero h) by (symmetry; apply swrap_id; unfold in_i; lia).
  destruct (append_place w s log h Hw eq_refl Hin Hb) as (pg & pg1 & v & s2 & -> & E1 & E2 & E3 & pg2 & -> & T).
  cbn [mbind outcome_bind]. rewrite E1. cbn [mbind outcome_bind]. rewrite E2. cbn [mbind outcome_bind]. rewrite E3. cbn [mbind outcome_bind].
  pose proof (proj1 Hm h Hin) as Hhl. rewrite (get_page_ok _ _ pg2) by (by apply lookup_put_page). cbn [mbind outcome_bind].
  pose proof (seg_length h log ltac:(lia)) as Ls. rewrite Z.min_r, Z.max_r in Ls by lia.
  destruct (first_zero T (walHash p)) as (d & Hd & Hzd & Hrun).
  pose proof (free_slot_ok T (walHash p) d (S (S (Z.to_nat (len log + 1 - page_zero h)))) Hrun Hzd 0 (len log + 1 - page_zero h) ltac:(lia) ltac:(lia) ltac:(lia)) as Ef.
  rewrite probe_0 in Ef. rewrite Ef. cbn [mbind outcome_bind hl_base loc_of].
  unfold wr. rewrite (t_words _ _ _ T), (t_slots _ _ _ T). change (Z.of_nat (Z.to_nat HASHTABLE_NPAGE)) with 4096. change (Z.of_nat (Z.to_nat HASHTABLE_NSLOT)) with HASHTABLE_NSLOT.
  rewrite (proj2 (Z.leb_le 0 (page_base h + (len log + 1 - page_zero h - 1)))), (proj2 (Z.ltb_lt (page_base h + (len log + 1 - page_zero h - 1)) 4096)) by lia. cbn [andb mbind outcome_bind].
  pose proof (probe_range (walHash p) d) as Hk. rewrite (proj2 (Z.leb_le 0 (probe (walHash p) d))), (proj2 (Z.ltb_lt (probe (walHash p) d) HASHTABLE_NSLOT)) by lia. cbn [andb mbind outcome_bind].
  rewrite put_page_twice. eexists. split; [done|].
  assert (table_ok (page_base h) (seg h log ++ [p]) (mk_wipage (<[Z.to_nat (page_base h + (len log + 1 - page_zero h - 1)) := p]> (wi_words pg2))
    (<[Z.to_nat (probe (walHash p) d) := u16 (len log + 1 - page_zero h)]> (wi_slots pg2)))) as T'.
  { eapply table_insert; [exact T| |exact Hp| |exact Hzd|exact Hrun| |].
    - change HASHTABLE_NPAGE with 4096. lia.
    - change HASHTABLE_NSLOT with 8192. lia.
    - do 2 f_equal. lia.
    - f_equal. rewrite Ls. unfold u16. rewrite Z.mod_small by lia. lia. }
  destruct (append_holds s log h _ p (ap_holds _ _ _ Hw) eq_refl Hb Hhl T') as [Hh' He'].
  split; [split; apply T'|]. split.
  - apply put_page_mapping; [done|]. split; apply T'.
  - done.
  - apply Hw.
  - rewrite length_app. pose proof (ap_mx _ _ _ Hw). simpl. lia.
  - by right.
  - apply Forall_app. split; [apply Hw|by apply Forall_singleton].
Qed.

Lemma walIndexAppend_app w s log p : appender_ok w s log -> len log + 1 < 2 ^ 31 -> 0 < p < 2 ^ 32 ->
  exists rc w' s', walIndexAppend w (len log + 1) p s = Done (rc, w', s') /\ touched w s w' s' /\ w_mapped w ⊆ w_mapped w' /\
    (w_vfs w = [] -> rc = SQLITE_OK) /\ (rc <> SQLITE_OK -> appender_ok w' s' log) /\
    (rc = SQLITE_OK -> appender_ok w' s' (log ++ [p]) /\ walFramePage (len log + 1) ∈ w_mapped w').
Proof.
  intros Hw Hb Hp. destruct (walFramePage_spec (len log + 1) ltac:(lia)) as (Hr & _ & _).
  destruct (walHashGet_ok w (walFramePage (len log + 1)) s (ap_map _ _ _ Hw) Hr) as (rc & w1 & s1 & Eg & Hm1 & Hre & Hin & Hv).
  pose proof (appender_remap _ _ _ _ _ Hw Hre Hm1) as Hw1. pose proof (remap_touched _ _ _ _ Hre) as Ht1.
  destruct (Z.eqb_spec rc SQLITE_OK) as [->|Hrc].
  - destruct (walIndexAppend_mapped w1 s1 log p Hw1 Hb Hp (Hin eq_refl)) as (pg & E & _ & Happ).
    exists SQLITE_OK, w1, (put_page s1 (loc_of (walFramePage (len log + 1))) pg). split.
    + rewrite <- E. unfold walIndexAppend. rewrite Eg. by rewrite walHashGet_mapped by auto.
    + split; [by apply touched_put|]. split; [apply Hre|]. split; [done|]. split; [done|]. auto.
  - exists rc, w1, s1. unfold walIndexAppend. rewrite Eg, (proj2 (Z.eqb_neq _ _) Hrc). cbn [negb]. split; [done|]. split; [done|]. split; [apply Hre|].
    split; [intros E; apply Hv; [done|left; apply Hw]|]. done.
Qed.

Lemma walIndexAppend_ok w s log p : writer_ok w s log -> len log + 1 < 2 ^ 31 -> 0 < p < 2 ^ 32 ->
  exists rc w' s', walIndexAppend w (len log + 1) p s = Done (rc, w', s') /\ touched w s w' s' /\ (w_vfs w = [] -> rc = SQLITE_OK) /\
    (rc <> SQLITE_OK -> writer_ok w' s' log) /\
    (rc = SQLITE_OK -> writer_ok w' s' (log ++ [p])).
Proof.
  intros Hw Hb Hp. destruct (walIndexAppend_app w s log p (writer_app _ _ _ Hw) Hb Hp) as (rc & w' & s' & E & Ht & Hsub & Hv & Hbad & Hok).
  exists rc, w', s'. split; [done|]. split; [done|]. split; [done|]. destruct (touched_hdr _ _ _ _ Ht) as (E1 & _ & E3 & _ & E0 & _).
  pose proof Hw as [Hmap Hh Hl Hmx Hex Hpos Hc Hmine H0 Hsalt]. split.
  - intros Hrc. destruct (Hbad Hrc). split; try done; rewrite ?E0, ?E1; try done; [|exact (Hsub _ H0)]. intros f Hf. exact (Hsub _ (Hmine f Hf)).
  - intros Hrc. destruct (Hok Hrc) as [[] Hin]. split; try done; rewrite ?E0, ?E1; try done; [|exact (Hsub _ H0)]. intros f Hf. rewrite length_app in Hf. cbn in Hf.
    destruct (decide (f = len log + 1)) as [->|]; [done|]. apply (Hsub _ (Hmine f ltac:(lia))).
Qed.

(** ** Finding a frame *)

(** The newest frame of page [pgno] among the frames [lo] to [n], and 0 without one. *)
Fixpoint last_in (log : list Z) (pgno lo : Z) (n : nat) : Z :=
  match n with
  | O => 0
  | S n' => if (lo <=? Z.of_nat n) && (log.[Z.of_nat n'] =? pgno) then Z.of_nat n else last_in log pgno lo n'
  end.
Definition last_frame (log : list Z) (pgno lo hi : Z) : Z := last_in log pgno lo (Z.to_nat hi).

Lemma last_frame_is log pgno lo hi r : 0 <= hi ->
  (forall f, 1 <= f <= hi -> lo <= f -> log.[f - 1] = pgno -> f <= r) ->
  r = 0 \/ (1 <= r <= hi /\ lo <= r /\ log.[r - 1] = pgno) -> last_frame log pgno lo hi = r.
Proof.
  intros Hhi Hmax Hr. unfold last_frame.
  assert (forall n : nat, Z.of_nat n <= hi -> r <= Z.of_nat n -> last_in log pgno lo n = r) as G; [|apply G; lia].
  induction n as [|n IH]; intros Hn Hrn; cbn [last_in].
  - destruct Hr; lia.
  - destruct (_ && _) eqn:E.
    + apply andb_true_iff in E as [?%Z.leb_le ?%Z.eqb_eq]. apply Z.le_antisymm; [apply Hmax; [lia|done|]|done].
      replace (Z.of_nat (S n) - 1) with (Z.of_nat n) by lia. done.
    + apply IH; [lia|]. destruct (decide (r = Z.of_nat (S n))) as [->|]; [|lia]. exfalso.
      destruct Hr as [?|(_ & ? & Hp)]; [lia|]. replace (Z.of_nat (S n) - 1) with (Z.of_nat n) in Hp by lia.
      rewrite Hp, Z.eqb_refl, (proj2 (Z.leb_le _ _)) in E by done. done.
Qed.

Lemma find_tables_ok pgno iLast log lo n : 0 <= lo -> 1 <= iLast <= len log -> iLast < 2 ^ 31 -> forall w s h,
  mapping_ok w s -> index_holds s log -> minFrame w = lo -> 0 <= h < 2 ^ 20 -> Z.of_nat n <= h + 1 ->
  (0 < Z.of_nat n -> page_zero h < iLast) ->
  (forall f, 1 <= f <= iLast -> lo <= f -> log.[f - 1] = pgno -> f <= page_zero h + page_cap h) ->
  (forall f, f <= page_zero (h + 1 - Z.of_nat n) -> f < lo \/ f <= 0) ->
  exists rc r w' s', find_tables n w s pgno iLast h = Done (rc, r, w', s') /\ remap w s w' s' /\ mapping_ok w' s' /\ (w_vfs w = [] -> rc = SQLITE_OK) /\
    (rc = SQLITE_OK -> r = last_frame log pgno lo iLast).
Proof.
  intros Hlo Hlast Hb. induction n as [|n IH]; intros w s h Hmap Hh Hmin Hr Hn Hz Hup Hlow; cbn [find_tables].
  - exists SQLITE_OK, 0, w, s. split; [done|]. split; [apply remap_refl|]. split; [done|]. split; [done|]. intros _. symmetry.
    apply last_frame_is; [lia| |by left]. intros f Hf1 Hf2 Hf3. exfalso. specialize (Hup f Hf1 Hf2 Hf3).
    destruct (Hlow f); [|lia|lia]. replace (h + 1 - Z.of_nat 0) with (h + 1) by lia.
    pose proof (page_order h (h + 1) ltac:(lia) ltac:(lia)). lia.
  - specialize (Hz ltac:(lia)).
    destruct (walHashGet_ok w h s Hmap Hr) as (rc & w1 & s1 & -> & Hm1 & Hre & Hin & Hv).
    destruct (Hh h ltac:(lia) ltac:(lia)) as (l & Hon & Hpre).
    destruct (Z.eqb_spec rc SQLITE_OK) as [->|Hrc]; cbn [negb].
    2: { exists rc, 0, w1, s1. split; [done|]. split; [done|]. split; [done|]. split; [|done]. intros E. apply Hv; [done|]. right.
         destruct Hon as (pg & Hpg%lookup_lt_Some & _). lia. }
    pose proof (holds_remap _ _ _ _ _ Hre Hh) as Hh1. destruct (remap_hdr _ _ _ _ Hre) as (_ & Em & _).
    destruct (on_page_remap _ _ _ _ _ _ Hre Hon) as (pg & Hpg & T). rewrite (get_page_ok _ _ pg Hpg). cbn [mbind outcome_bind].
    destruct (page_numbers h ltac:(lia)) as (Pb & Pc & Pz & Ez & _ & Pbc).
    pose proof (t_len _ _ _ T) as Tl. change HASHTABLE_NPAGE with 4096 in Tl.
    rewrite Em, Hmin. destruct (find_loop_ok T (loc_of h) pgno lo iLast eq_refl) with (fuel := S (S (Z.to_nat HASHTABLE_NSLOT))) (nCollide := HASHTABLE_NSLOT)
      as (r & -> & Hmax & Hsome); [cbn; destruct (h =? 0); lia|change HASHTABLE_NSLOT with 8192; lia|change HASHTABLE_NSLOT with 8192; lia|].
    cbn [mbind outcome_bind iZero loc_of] in *.
    assert (Hseg : forall f, page_zero h < f <= page_zero h + page_cap h -> f <= iLast -> f - page_zero h <= len l /\ l.[f - page_zero h - 1] = log.[f - 1]).
    { intros f Hf Hfl. pose proof (prefix_length _ _ Hpre) as Hpl. pose proof (seg_length h log ltac:(lia)) as Ls. split; [lia|].
      destruct Hpre as [k ->]. unfold ld at 1. rewrite nth_lookup, lookup_app_l by lia. rewrite <- nth_lookup.
      change (nth _ _ 0) with ((seg h log).[f - page_zero h - 1]). rewrite seg_ld by lia. f_equal. lia. }
    assert (Hcand : forall f, 1 <= f <= iLast -> lo <= f -> log.[f - 1] = pgno -> page_zero h < f -> f <= r).
    { intros f Hf1 Hf2 Hf3 Hf4. specialize (Hup f Hf1 Hf2 Hf3). destruct (Hseg f ltac:(lia) ltac:(lia)) as [? El].
      specialize (Hmax (f - page_zero h)). replace (f - page_zero h + page_zero h) with f in Hmax by lia. apply Hmax.
      split; [lia|]. split; [lia|congruence]. }
    destruct (Z.eqb_spec r 0) as [->|Hr0]; cbn [negb].
    + destruct (decide (Z.of_nat n = 0)) as [E0|E0].
      * destruct n; [|lia]. cbn [find_tables]. exists SQLITE_OK, 0, w1, s1. split; [done|]. split; [done|]. split; [done|]. split; [done|]. intros _. symmetry.
        apply last_frame_is; [lia| |by left]. intros f Hf1 Hf2 Hf3. destruct (Z.lt_ge_cases (page_zero h) f); [by apply Hcand|].
        replace (h + 1 - Z.of_nat 1) with h in Hlow by lia. destruct (Hlow f ltac:(lia)); lia.
      * pose proof (page_order (h - 1) h ltac:(lia) ltac:(lia)).
        destruct (page_numbers (h - 1) ltac:(lia)) as (_ & Pc' & Pz' & Ez' & Ec' & _).
        destruct (IH w1 s1 (h - 1) Hm1 Hh1 ltac:(congruence) ltac:(lia) ltac:(lia)) as (rc & r & w2 & s2 & E & Hre2 & Hm2 & Hv2 & Hres).
        -- lia.
        -- intros f Hf1 Hf2 Hf3. destruct (Z.lt_ge_cases (page_zero h) f); [specialize (Hcand f Hf1 Hf2 Hf3 ltac:(lia)); lia|].
           rewrite Ez', Ec'. rewrite Ez in *. destruct (Z.eqb_spec h 0); [lia|]. destruct (Z.eqb_spec (h - 1) 0); lia.
        -- intros f Hf. apply Hlow. replace (h + 1 - Z.of_nat (S n)) with (h - 1 + 1 - Z.of_nat n) by lia. done.
        -- exists rc, r, w2, s2. split; [done|]. split; [by eapply remap_trans|]. split; [done|]. split; [|done]. intros Hvf. apply Hv2. apply Hre, Hvf.
    + exists SQLITE_OK, r, w1, s1. split; [done|]. split; [done|]. split; [done|]. split; [done|]. intros _. symmetry.
      destruct Hsome as [?|(Hv1 & Hv2 & Hv3)]; [done|].
      destruct (Hseg r ltac:(lia) ltac:(lia)) as [_ El]. apply last_frame_is; [lia| |].
      * intros f Hf1 Hf2 Hf3. destruct (Z.lt_ge_cases (page_zero h) f); [by apply Hcand|lia].
      * right. split; [lia|]. split; [lia|congruence].
Qed.

(** Searching uses only the frames up to the reader's [mxFrame]: the log may be longer. *)
Lemma WalFindFrame_ok w s log pgno : mapping_ok w s -> index_holds s log ->
  0 <= mxFrame (hdr w) <= len log -> mxFrame (hdr w) < 2 ^ 31 -> 0 <= minFrame w < 2 ^ 31 ->
  exists rc r w' s', sqlite3WalFindFrame w pgno s = Done (rc, r, w', s') /\ remap w s w' s' /\ mapping_ok w' s' /\ (w_vfs w = [] -> rc = SQLITE_OK) /\
    (rc = SQLITE_OK -> r = if (readLock w =? 0) && negb (bShmUnreliable w) then 0 else last_frame log pgno (minFrame w) (mxFrame (hdr w))).
Proof.
  intros Hmap Hh Hmx Hb Hmin. unfold sqlite3WalFindFrame.
  destruct (Z.eqb_spec (mxFrame (hdr w)) 0) as [E|E]; cbn [orb].
  { exists SQLITE_OK, 0, w, s. split; [done|]. split; [apply remap_refl|]. split; [done|]. split; [done|]. intros _. rewrite E. by destruct (_ && _). }
  destruct (_ && _).
  { exists SQLITE_OK, 0, w, s. split; [done|]. split; [apply remap_refl|]. done. }
  destruct (walFramePage_spec (mxFrame (hdr w)) ltac:(lia)) as (R & Z1 & Z2). destruct (walFramePage_spec (minFrame w) ltac:(lia)) as (R' & Z1' & Z2').
  specialize (Z2 ltac:(lia)).
  apply find_tables_ok; try done; try lia.
  intros f Hf. destruct (decide (walFramePage (mxFrame (hdr w)) + 1 - walFramePage (minFrame w) <= 0)) as [Hn|Hn].
    + replace (walFramePage (mxFrame (hdr w)) + 1 - Z.of_nat (Z.to_nat (walFramePage (mxFrame (hdr w)) + 1 - walFramePage (minFrame w)))) with (walFramePage (mxFrame (hdr w)) + 1) in Hf by lia.
      left. destruct (decide (minFrame w = 0)) as [E0|]; [|specialize (Z2' ltac:(lia))].
      * rewrite E0 in Hn. change (walFramePage 0) with 0 in Hn. lia.
      * destruct (decide (walFramePage (mxFrame (hdr w)) + 1 = walFramePage (minFrame w))) as [Ep|]; [rewrite Ep in Hf; lia|].
        pose proof (page_order (walFramePage (mxFrame (hdr w)) + 1) (walFramePage (minFrame w)) ltac:(lia) ltac:(lia)).
        destruct (page_numbers (walFramePage (mxFrame (hdr w)) + 1) ltac:(lia)) as (_ & ? & _). lia.
    + replace (walFramePage (mxFrame (hdr w)) + 1 - Z.of_nat (Z.to_nat (walFramePage (mxFrame (hdr w)) + 1 - walFramePage (minFrame w)))) with (walFramePage (minFrame w)) in Hf by lia.
      destruct (decide (minFrame w = 0)) as [E0|]; [|specialize (Z2' ltac:(lia)); lia].
      rewrite E0 in Hf. change (page_zero (walFramePage 0)) with 0 in Hf. lia.
Qed.

(** ** Moving back *)

Lemma walCleanupHash_ok w s log : mapping_ok w s -> index_holds s log -> mxFrame (hdr w) = len log -> len log < 2 ^ 31 ->
  exists w' s', walCleanupHash w s = Done (w', s') /\ touched w s w' s' /\ mapping_ok w' s' /\ index_holds s' log /\ w_mapped w ⊆ w_mapped w'.
Proof.
  intros Hmap Hh Hmx Hb. unfold walCleanupHash. rewrite Hmx.
  destruct (Z.eqb_spec (len log) 0) as [E|E].
  { exists w, s. split; [done|]. split; [apply remap_touched, remap_refl|]. done. }
  destruct (walFramePage_spec (len log) ltac:(lia)) as (R & Z1 & Z2). specialize (Z2 ltac:(lia)). set (h := walFramePage (len log)) in *.
  destruct (walHashGet_ok w h s Hmap R) as (rc & w1 & s1 & -> & Hm1 & Hre & Hin & _).
  pose proof (holds_remap _ _ _ _ _ Hre Hh) as Hh1.
  destruct (Z.eqb_spec rc SQLITE_OK) as [->|Hrc]; cbn [negb].
  2: { exists w1, s1. split; [done|]. split; [by apply remap_touched|]. split; [done|]. split; [done|apply Hre]. }
  destruct (Hh1 h ltac:(lia) ltac:(lia)) as (l & (pg & Hpg & T) & Hpre). rewrite (get_page_ok _ _ pg Hpg). cbn [mbind outcome_bind iZero loc_of].
  destruct (remap_hdr _ _ _ _ Hre) as (Eh & _). rewrite Eh, Hmx, u32_id by (destruct (page_numbers h); lia).
  destruct (page_numbers h ltac:(lia)) as (Pb & Pc & Pz & _ & _ & Pbc).
  replace (i32 (len log - page_zero h)) with (len log - page_zero h) by (symmetry; apply swrap_id; unfold in_i; lia).
  pose proof (prefix_length _ _ Hpre) as Hpl. pose proof (seg_length h log ltac:(lia)) as Ls.
  destruct (cleanup_page_ok (page_base h) l pg (loc_of h) (len log - page_zero h) T eq_refl ltac:(lia) ltac:(lia)) as (pg' & -> & T'). cbn [mbind outcome_bind].
  eexists _, _. split; [done|]. split; [by apply touched_put, remap_touched|]. split; [apply put_page_mapping; [done|split; apply T']|].
  split; [|apply Hre]. intros h' Hh' Hz'. destruct (decide (h' = h)) as [->|Hne].
  - exists (take (Z.to_nat (len log - page_zero h)) l). split; [apply put_page_same; [by apply (proj1 Hm1), Hin|done]|].
    destruct Hpre as [k ->]. rewrite take_app_ge by lia. by apply prefix_app_r.
  - destruct (Hh1 h' Hh' Hz') as (l' & Hon & Hp'). exists l'. split; [by apply put_page_other; [lia..|]|done].
Qed.

Lemma holds_take s log n : index_holds s log -> index_holds s (take n log).
Proof.
  intros Hh h H1 H2. rewrite length_take in H2. destruct (Hh h H1 ltac:(lia)) as (l & Hon & Hpre). exists l. split; [done|].
  etransitivity; [apply seg_take|done].
Qed.

Lemma walFramePgno_ok w s log f : mapping_ok w s -> index_holds s log -> 1 <= f <= len log -> f < 2 ^ 31 -> walFramePage f ∈ w_mapped w ->
  walFramePgno w f s = Done log.[f - 1].
Proof.
  intros Hmap Hh Hf Hb Hin. unfold walFramePgno. rewrite bool_decide_eq_true_2 by done. cbn [negb].
  destruct (walFramePage_spec f ltac:(lia)) as (R & Z1 & Z2). specialize (Z2 ltac:(lia)). set (h := walFramePage f) in *.
  destruct (Hh h ltac:(lia) ltac:(lia)) as (l & (pg & Hpg & T) & Hpre). unfold get_page. cbn [hl_page]. rewrite Hpg. cbn [mbind outcome_bind].
  destruct (page_numbers h ltac:(lia)) as (Pb & Pc & Pz & Ez & Ec & Pbc).
  pose proof (t_words _ _ _ T) as Tw. change HASHTABLE_NPAGE with 4096 in Tw.
  assert (rd (wi_words pg) (page_base h + (f - page_zero h - 1)) = Done log.[f - 1]) as Hrd.
  { rewrite rd_ok by lia. rewrite (t_pgno _ _ _ T) by (change HASHTABLE_NPAGE with 4096; lia).
    pose proof (prefix_length _ _ Hpre) as Hpl. pose proof (seg_length h log ltac:(lia)) as Ls.
    destruct Hpre as [k ->]. unfold ld at 1. rewrite nth_lookup, lookup_app_l by lia. rewrite <- nth_lookup.
    change (nth _ _ 0) with ((seg h log).[f - page_zero h - 1]). rewrite seg_ld by lia. do 2 f_equal. lia. }
  rewrite <- Hrd. unfold page_base in *. destruct (Z.eqb_spec h 0) as [E|E].
  - f_equal. lia.
  - f_equal. change HASHTABLE_NPAGE_ONE with 4062. change HASHTABLE_NPAGE with 4096. rewrite u32_id, u64_id by lia.
    rewrite (Z.mod_eq _ 4096) by lia. replace ((f - 1 - 4062) / 4096) with (h - 1); [lia|].
    apply (Z.div_unique _ _ _ (f - page_zero h - 1)); lia.
Qed.

Lemma undo_loop_ok w s log xUndo c n : mapping_ok w s -> index_holds s log -> (forall p, xUndo p = SQLITE_OK) ->
  0 <= c -> c + Z.of_nat n <= len log -> len log < 2 ^ 31 -> (forall f, c < f <= len log -> walFramePage f ∈ w_mapped w) ->
  undo_loop n w s xUndo (c + 1) SQLITE_OK = Done (SQLITE_OK, take n (drop (Z.to_nat c) log)).
Proof.
  intros Hmap Hh Hx. revert c. induction n as [|n IH]; intros c Hc Hl Hb Hin; cbn [undo_loop]; [done|].
  change (negb (SQLITE_OK =? SQLITE_OK)) with false. cbn iota.
  rewrite (walFramePgno_ok w s log) by (done || lia || (apply Hin; lia)). cbn [mbind outcome_bind]. rewrite Hx, IH by (lia || (intros; apply Hin; lia)).
  cbn [mbind outcome_bind]. do 2 f_equal. replace (c + 1 - 1) with c by lia.
  destruct (lookup_lt_is_Some_2 log (Z.to_nat c) ltac:(lia)) as [x Hxl]. rewrite (drop_S _ _ _ Hxl). cbn [take]. f_equal.
  - unfold ld. by rewrite nth_lookup, Hxl.
  - do 2 f_equal. lia.
Qed.

(** ** A writer and its readers *)

(** The log as its users see it: the page numbers of the committed frames, and those of the
    transaction that is being written. *)
Record wal_log := mk_log { committed : list Z; pending : list Z }.
Definition log_frames (a : wal_log) : list Z := committed a ++ pending a.

Inductive wal_op :=
| OpFrames (pages : list Z) (szPage nTruncate : Z) (isCommit : bool)
| OpUndo
| OpSavepointUndo (aWalData : Z * (Z * Z) * Z).

Definition wal_step (op : wal_op) (w : Wal) (s : Shm) : outcome (Z * Wal * Shm) :=
  match op with
  | OpFrames pages szPage nTruncate isCommit => frames_index pages szPage nTruncate isCommit w s
  | OpUndo => '(rc, _, w, s) ← sqlite3WalUndo w (fun _ => SQLITE_OK) s; Done (rc, w, s)
  | OpSavepointUndo aWalData => '(rc, _, w, s) ← sqlite3WalSavepointUndo w aWalData s; Done (rc, w, s)
  end.

(** What an operation that returned [rc] does to the log.  A failure leaves it as it was. *)
Definition log_step (op : wal_op) (rc : Z) (a : wal_log) : wal_log :=
  match op with
  | OpFrames pages _ _ isCommit =>
      if negb (rc =? SQLITE_OK) then a
      else if isCommit then mk_log (log_frames a ++ pages) [] else mk_log (committed a) (pending a ++ pages)
  | OpUndo => mk_log (committed a) []
  | OpSavepointUndo (mx, _, _) => mk_log (committed a) (take (Z.to_nat mx - length (committed a)) (pending a))
  end.

(** Page numbers are 32-bit and not 0; the log has less than 2^31 frames; a savepoint of the
    transaction is not before it, nor behind a restart of the log. *)
Definition op_ok (op : wal_op) (w : Wal) (a : wal_log) : Prop :=
  match op with
  | OpFrames pages _ _ _ => Forall (fun p => 0 < p < 2 ^ 32) pages /\ len (log_frames a) + len pages < 2 ^ 31
  | OpUndo => True
  | OpSavepointUndo (mx, _, ck) => len (committed a) <= mx /\ ck = nCkpt w
  end.

Record log_rel (w : Wal) (s : Shm) (a : wal_log) : Prop := {
  lr_writer : writer_ok w s (log_frames a);
  lr_mx : mxFrame (hdr w) = len (log_frames a);
  lr_committed : mxFrame (s_hdr0 s) = len (committed a);
  lr_bound : len (log_frames a) < 2 ^ 31
}.

Lemma append_loop_ok pages : forall w s log, writer_ok w s log -> len log + len pages < 2 ^ 31 -> Forall (fun p => 0 < p < 2 ^ 32) pages ->
  exists rc iFrame w' s' done, append_loop pages w (len log) s = Done (rc, iFrame, w', s') /\ touched w s w' s' /\ (w_vfs w = [] -> rc = SQLITE_OK) /\
    writer_ok w' s' (log ++ done) /\ (rc = SQLITE_OK -> done = pages /\ iFrame = len log + len pages).
Proof.
  induction pages as [|p pages IH]; intros w s log Hw Hb Hp; cbn [append_loop].
  - exists SQLITE_OK, (len log), w, s, []. rewrite app_nil_r. split; [done|]. split; [apply remap_touched, remap_refl|]. split; [done|]. split; [done|]. intros _. split; [done|]. simpl. lia.
  - apply Forall_cons in Hp as [Hp1 Hp2]. cbn [length] in Hb. rewrite u32_id by lia.
    destruct (walIndexAppend_ok w s log p Hw ltac:(lia) Hp1) as (rc & w1 & s1 & -> & Ht & Hv & Hbad & Hok). cbn [mbind outcome_bind].
    destruct (Z.eqb_spec rc SQLITE_OK) as [->|Hrc]; cbn [negb].
    + specialize (Hok eq_refl). assert (len (log ++ [p]) = len log + 1) as El by (rewrite length_app; simpl; lia).
      destruct (IH w1 s1 (log ++ [p]) Hok ltac:(lia) Hp2) as (rc & iF & w2 & s2 & dn & E & Ht2 & Hv2 & Hw2 & Hres). rewrite El in E.
      exists rc, iF, w2, s2, (p :: dn). rewrite E. split; [done|]. split.
      { destruct Ht as ((m & v & ro & ->) & (pg & ->) & A), Ht2 as ((m' & v' & ro' & ->) & (pg' & ->) & B). split; [by eexists _, _, _|]. split; [by eexists|auto]. }
      split; [intros Hn; apply Hv2, Ht, Hn|]. split; [by rewrite <- app_assoc in Hw2|]. intros Hr. destruct (Hres Hr) as [-> ->]. split; [done|]. cbn [length]. lia.
    + exists rc, (len log + 1), w1, s1, []. rewrite app_nil_r. split; [done|]. split; [done|]. split; [done|]. split; [by apply Hbad|done].
Qed.

(** A writer may forget frames that are not in its header. *)
Lemma writer_cut w s log done : writer_ok w s (log ++ done) -> mxFrame (hdr w) = len log -> writer_ok w s log.
Proof.
  intros [Hmap Hh Hl Hmx Hex Hpos Hc Hmine H0 Hsalt] E. split; try done.
  - rewrite <- (take_app_length log done). by apply holds_take.
  - lia.
  - by left.
  - by apply Forall_app in Hpos as [? _].
  - intros f Hf. apply Hmine. rewrite length_app. lia.
Qed.

Lemma writer_hdr w s log k h h0 h1 : writer_ok w s (log ++ k) -> mxFrame h = len log -> mxFrame (s_hdr0 s) <= mxFrame h0 <= len log ->
  bytes_ok (aSalt h) /\ length (aSalt h) = 8%nat /\ bytes_ok (aSalt h0) /\ length (aSalt h0) = 8%nat ->
  writer_ok (with_hdr w h) (mk_shm h0 h1 (s_ckpt s) (s_pages s)) log.
Proof.
  intros [Hmap Hh Hl Hmx Hex Hpos Hc Hmine H0 Hsalt] E Hle Hs.
  assert (index_holds s log) as Hh' by (rewrite <- (take_app_length log k); by apply holds_take).
  split; cbn; try done.
  - lia.
  - by left.
  - by apply Forall_app in Hpos as [? _].
  - lia.
  - intros f Hf. apply Hmine. rewrite length_app. lia.
Qed.

Lemma writer_callback w s log cb : writer_ok w s log -> writer_ok (with_callback w cb) s log.
Proof. intros []. by split. Qed.

Lemma writer_cleanup w s log : writer_ok w s log -> mxFrame (hdr w) = len log -> len log < 2 ^ 31 ->
  exists w' s', walCleanupHash w s = Done (w', s') /\ writer_ok w' s' log /\ touched w s w' s'.
Proof.
  intros Hw E Hb. pose proof Hw as [Hmap Hh Hl Hmx Hex Hpos Hc Hmine H0 Hsalt].
  destruct (walCleanupHash_ok w s log Hmap Hh E Hb) as (w' & s' & Ec & Ht & Hm & Hh' & Hsub). exists w', s'. split; [done|]. split; [|done].
  destruct (touched_hdr _ _ _ _ Ht) as (E1 & _ & E3 & _ & E0 & _). split; rewrite ?E0, ?E1, ?E3; try done.
  - by left.
  - intros f Hf. by apply Hsub, Hmine.
  - by apply Hsub.
Qed.

Lemma frames_index_ok w s a pages szP nTruncate isCommit : log_rel w s a -> op_ok (OpFrames pages szP nTruncate isCommit) w a ->
  exists rc w' s', frames_index pages szP nTruncate isCommit w s = Done (rc, w', s') /\ (w_vfs w = [] -> rc = SQLITE_OK) /\
    log_rel w' s' (log_step (OpFrames pages szP nTruncate isCommit) rc a).
Proof.
  intros [Hw Hmx Hcm Hb] [Hp Hlen]. unfold frames_index. rewrite Hmx.
  destruct (append_loop_ok pages w s (log_frames a) Hw Hlen Hp) as (rc & iF & w1 & s1 & dn & -> & Ht & Hv & Hw1 & Hres). cbn [mbind outcome_bind].
  destruct (touched_hdr _ _ _ _ Ht) as (E1 & _ & _ & _ & E0 & _). cbn [log_step].
  destruct (Z.eqb_spec rc SQLITE_OK) as [->|Hrc]; cbn [negb].
  2: { exists rc, w1, s1. split; [done|]. split; [done|]. rewrite (proj2 (Z.eqb_neq _ _) Hrc). cbn [negb]. split; [|by rewrite E1|by rewrite E0|done]. eapply writer_cut; [done|by rewrite E1]. }
  destruct (Hres eq_refl) as [-> ->]. set (sz := u16 _). clearbody sz.
  pose proof (wr_salt _ _ _ Hw1) as Hs. pose proof (wr_committed _ _ _ Hw1) as Hc1. rewrite E1, Hmx in Hc1.
  assert (len (log_frames a ++ pages) = len (log_frames a) + len pages) as El by (rewrite length_app; lia).
  destruct isCommit.
  - unfold walIndexWriteHdr, walIndexHdr. cbn [w_mapped with_hdr hdr]. rewrite bool_decide_eq_true_2 by apply Hw1. cbn [mbind outcome_bind].
    set (h := set_frames (hdr w1) _ _ _ _). change 40 with (8 * Z.of_nat 5).
    rewrite walChecksumBytes_ok by (apply hdr_bytes_ok, Hs || (rewrite hdr_bytes_length; cbn; destruct Hs as (_ & -> & _); lia)). cbn [mbind outcome_bind].
    eexists _, _, _. split; [done|]. split; [done|]. rewrite Z.eqb_refl. cbn [negb]. set (h' := hdr_init h _).
    assert (log_frames (mk_log (log_frames a ++ pages) []) = log_frames a ++ pages) as Ef by (unfold log_frames at 1; cbn; by rewrite app_nil_r).
    split.
    + rewrite Ef. apply writer_callback. change (writer_ok (with_hdr w1 h') (mk_shm h' h' (s_ckpt s1) (s_pages s1)) (log_frames a ++ pages)).
      apply writer_hdr with (k := []); [by rewrite app_nil_r|cbn; lia|cbn; rewrite El; lia|]. cbn. tauto.
    + rewrite Ef, El. done.
    + cbn [committed]. rewrite El. done.
    + rewrite Ef. lia.
  - eexists _, _, _. split; [done|]. split; [done|]. rewrite Z.eqb_refl. cbn [negb]. set (h := set_frames (hdr w1) _ _ _ _).
    assert (log_frames (mk_log (committed a) (pending a ++ pages)) = log_frames a ++ pages) as Ef by (unfold log_frames; cbn; by rewrite app_assoc).
    split; rewrite ?Ef; [|cbn; lia|cbn; congruence|lia].
    replace s1 with (mk_shm (s_hdr0 s1) (s_hdr1 s1) (s_ckpt s1) (s_pages s1)) by by destruct s1.
    apply writer_hdr with (k := []); [by rewrite app_nil_r|cbn; lia|rewrite El; lia|]. cbn. tauto.
Qed.

Lemma log_frames_cut a n : log_frames a = log_frames (mk_log (committed a) (take n (pending a))) ++ drop n (pending a).
Proof. unfold log_frames. cbn. by rewrite <- app_assoc, take_drop. Qed.

Lemma undo_ok w s a : log_rel w s a ->
  exists w' s', sqlite3WalUndo w (fun _ => SQLITE_OK) s = Done (SQLITE_OK, pending a, w', s') /\ log_rel w' s' (mk_log (committed a) []) /\
    touched (with_hdr w (s_hdr0 s)) s w' s'.
Proof.
  intros [Hw Hmx Hcm Hb]. unfold sqlite3WalUndo, walIndexHdr. rewrite (wr_lock _ _ _ Hw). cbn [negb].
  rewrite bool_decide_eq_true_2 by apply Hw. cbn [mbind outcome_bind].
  assert (len (log_frames a) = len (committed a) + len (pending a)) as El by (unfold log_frames; rewrite length_app; lia).
  cbn [hdr with_hdr]. rewrite Hmx, Hcm.
  rewrite (undo_loop_ok (with_hdr w (s_hdr0 s)) s (log_frames a)); [|apply Hw|apply Hw|done|lia|lia|done|rewrite <- Hcm; apply Hw]. cbn [mbind outcome_bind].
  replace (take _ (drop _ (log_frames a))) with (pending a).
  2: { rewrite Nat2Z.id, El. unfold log_frames. rewrite drop_app_length. symmetry. apply take_ge. lia. }
  pose proof (wr_salt _ _ _ Hw) as Hs.
  assert (writer_ok (with_hdr w (s_hdr0 s)) s (committed a)) as Hw'.
  { replace s with (mk_shm (s_hdr0 s) (s_hdr1 s) (s_ckpt s) (s_pages s)) at 2 by by destruct s.
    apply writer_hdr with (k := pending a); [done|done|lia|tauto]. }
  assert (log_frames (mk_log (committed a) []) = committed a) as Ef by (unfold log_frames; cbn; by rewrite app_nil_r).
  destruct (negb _) eqn:Ec.
  - destruct (writer_cleanup _ s (committed a) Hw') as (w1 & s1 & -> & Hw1 & Ht); [done|lia|]. cbn [mbind outcome_bind].
    destruct (touched_hdr _ _ _ _ Ht) as (E1 & _ & _ & _ & E0 & _). cbn in E1.
    exists w1, s1. split; [done|]. split; [|exact Ht]. split; rewrite ?Ef; [done|congruence|cbn; congruence|lia].
  - eexists _, _. split; [done|]. split; [|apply remap_touched, remap_refl]. split; rewrite ?Ef; [done|done|done|lia].
Qed.

Lemma savepoint_undo_ok w s a d : log_rel w s a -> op_ok (OpSavepointUndo d) w a ->
  exists d' w' s', sqlite3WalSavepointUndo w d s = Done (SQLITE_OK, d', w', s') /\ log_rel w' s' (log_step (OpSavepointUndo d) SQLITE_OK a) /\ (w_vfs w = [] -> w_vfs w' = []).
Proof.
  intros [Hw Hmx Hcm Hb]. destruct d as [[mx ck] nc]. intros [Hge ->]. unfold sqlite3WalSavepointUndo. rewrite Z.eqb_refl. cbn [negb log_step].
  set (n := (Z.to_nat mx - length (committed a))%nat). pose proof (log_frames_cut a n) as Ecut. set (a' := mk_log (committed a) (take n (pending a))) in *.
  assert (len (log_frames a) = len (committed a) + len (pending a)) as El by (unfold log_frames; rewrite length_app; lia).
  assert (len (log_frames a') = len (committed a) + Z.min (mx - len (committed a)) (len (pending a))) as El' by (unfold log_frames, a'; cbn; rewrite length_app, length_take; lia).
  rewrite Hmx. destruct (Z.ltb_spec mx (len (log_frames a))).
  - pose proof (wr_salt _ _ _ Hw) as Hs. set (h := set_mxFrame _ _ _).
    assert (writer_ok (with_hdr w h) s (log_frames a')) as Hw'.
    { replace s with (mk_shm (s_hdr0 s) (s_hdr1 s) (s_ckpt s) (s_pages s)) at 1 by by destruct s.
      apply writer_hdr with (k := drop n (pending a)); [by rewrite <- Ecut|change (mx = len (log_frames a')); lia|lia|cbn; tauto]. }
    destruct (writer_cleanup _ s (log_frames a') Hw') as (w1 & s1 & -> & Hw1 & Ht); [change (mx = len (log_frames a')); lia|lia|]. cbn [mbind outcome_bind].
    destruct (touched_hdr _ _ _ _ Ht) as (E1 & _ & _ & _ & E0 & _). cbn in E1.
    eexists _, w1, s1. split; [done|]. split; [|apply Ht]. split; [done| |cbn; congruence|lia]. rewrite E1. change (mx = len (log_frames a')). lia.
  - assert (a' = a) as ->. { unfold a'. rewrite take_ge by lia. by destruct a. }
    cbn [mbind outcome_bind]. eexists _, w, s. split; [done|]. split; [|done]. by split.
Qed.

(** A writer before its first frame; what the pages of the index hold does not matter. *)
Record wal_start (w : Wal) (s : Shm) : Prop := {
  ws_map : mapping_ok w s;
  ws_lock : writeLock w = true;
  ws_mx : mxFrame (hdr w) = 0 /\ mxFrame (s_hdr0 s) = 0;
  ws_zero : 0 ∈ w_mapped w;
  ws_salt : bytes_ok (aSalt (hdr w)) /\ length (aSalt (hdr w)) = 8%nat /\ bytes_ok (aSalt (s_hdr0 s)) /\ length (aSalt (s_hdr0 s)) = 8%nat
}.

Inductive wal_reach : Wal -> Shm -> wal_log -> Prop :=
| wr_start w s : wal_start w s -> wal_reach w s (mk_log [] [])
| wr_step w s a op rc w' s' : wal_reach w s a -> op_ok op w a -> wal_step op w s = Done (rc, w', s') -> wal_reach w' s' (log_step op rc a).

Lemma wal_step_ok op w s a : log_rel w s a -> op_ok op w a ->
  exists rc w' s', wal_step op w s = Done (rc, w', s') /\ (w_vfs w = [] -> rc = SQLITE_OK) /\ log_rel w' s' (log_step op rc a).
Proof.
  intros Hr Hok. destruct op as [pages sz nT c| |d]; cbn [wal_step].
  - by apply frames_index_ok.
  - destruct (undo_ok w s a Hr) as (w' & s' & -> & ? & _). by eexists _, _, _.
  - destruct (savepoint_undo_ok w s a d Hr Hok) as (d' & w' & s' & -> & ? & _). by eexists _, _, _.
Qed.

Lemma wal_reach_rel w s a : wal_reach w s a -> log_rel w s a.
Proof.
  induction 1 as [w s [Hmap Hl [Hm Hm0] H0 Hs]|w s a op rc w' s' _ IH Hok E].
  - split; [|done|done|cbn; lia]. split; try done; try (cbn; lia).
    intros h Hh Hz. cbn in Hz. destruct (page_numbers h Hh) as (_ & _ & ? & _). lia.
  - destruct (wal_step_ok op w s a IH Hok) as (rc1 & w1 & s1 & E1 & _ & Hr). rewrite E in E1. by injection E1 as -> -> ->.
Qed.

(** Every reader finds for each page the newest frame of its snapshot; 0 if there is none. *)
Definition readers_find (s : Shm) (log : list Z) : Prop :=
  forall r pgno, mapping_ok r s -> 0 <= mxFrame (hdr r) <= len log -> 0 <= minFrame r < 2 ^ 31 -> readLock r <> 0 ->
    exists rc f r' s', sqlite3WalFindFrame r pgno s = Done (rc, f, r', s') /\ (w_vfs r = [] -> rc = SQLITE_OK) /\
      (rc = SQLITE_OK -> f = last_frame log pgno (minFrame r) (mxFrame (hdr r))).

Lemma log_rel_finds w s a : log_rel w s a -> readers_find s (log_frames a).
Proof.
  intros Hr r pgno Hm Hmx Hmin Hl. pose proof (lr_bound _ _ _ Hr).
  destruct (WalFindFrame_ok r s (log_frames a) pgno Hm (wr_holds _ _ _ (lr_writer _ _ _ Hr)) Hmx ltac:(lia) Hmin) as (rc & f & r' & s' & E & _ & _ & Hv & Hf).
  exists rc, f, r', s'. split; [done|]. split; [done|]. intros Hrc. rewrite (Hf Hrc). by rewrite (proj2 (Z.eqb_neq _ _)).
Qed.

(** C14. The index refines the list of frames.  Whatever a writer has done (appended frames,
    committed, failed on a mapping, rolled back a transaction or a savepoint, on top of any
    leftovers in the shared memory), its next operation is defined and fails only when a
    mapping fails; and any reader, at any snapshot of the log, finds for each page the
    newest frame of its snapshot, over all hash tables. *)
Theorem wal_index_refines w s a : wal_reach w s a ->
  (forall op, op_ok op w a -> exists rc w' s', wal_step op w s = Done (rc, w', s') /\ (w_vfs w = [] -> rc = SQLITE_OK)) /\
  readers_find s (log_frames a).
Proof.
  intros Hreach. pose proof (wal_reach_rel w s a Hreach) as Hr. split.
  - intros op Hok. destruct (wal_step_ok op w s a Hr Hok) as (rc & w' & s' & ? & ? & _). by eexists _, _, _.
  - by eapply log_rel_finds.
Qed.

(** ** A concrete run *)

Definition hdr0 : WalIndexHdr := mk_hdr 0 0 0 0 0 0 0 (0, 0) (replicate 8 0) (0, 0).
Definition wal0 (mx : Z) (write : bool) : Wal :=
  mk_wal {[0]} [] 0%nat 0 0 4096 1 0 write false 0 false true true false (set_mxFrame hdr0 mx (0, 0)) 1 0 0.
Definition shm0 : Shm := mk_shm hdr0 hdr0 (mk_ckpt 0 [0; 0; 0; 0; 0] 0) [zero_page].

Lemma wal0_mapping mx b : mapping_ok (wal0 mx b) shm0.
Proof. split; [cbn [w_mapped wal0]; intros h ->%elem_of_singleton; cbn; lia|]. apply Forall_singleton, zero_page_wf. Qed.

Lemma wal0_start : wal_start (wal0 0 true) shm0.
Proof. split; try done; [apply wal0_mapping|]. cbn. split_and!; try done; by repeat constructor. Qed.

Lemma wal_index_refines_witness : exists w s a,
  wal_reach w s a /\ log_frames a = [7; 390; 7; 5] /\
  exists f r' s', sqlite3WalFindFrame (wal0 3 false) 7 s = Done (SQLITE_OK, f, r', s') /\ f = 3.
Proof.
  assert (exists w s, wal_step (OpFrames [7; 390; 7; 5] 4096 9 true) (wal0 0 true) shm0 = Done (SQLITE_OK, w, s) /\ length (s_pages s) = 1%nat) as (w & s & E & Hl).
  { eexists _, _. split; [vm_compute; reflexivity|]. vm_compute. reflexivity. }
  assert (op_ok (OpFrames [7; 390; 7; 5] 4096 9 true) (wal0 0 true) (mk_log [] [])) as Hop by (split; [repeat constructor; lia|cbn; lia]).
  pose proof (wr_step _ _ _ _ _ _ _ (wr_start _ _ wal0_start) Hop E) as R.
  eexists w, s, _. split; [exact R|]. split; [reflexivity|].
  assert (mapping_ok (wal0 3 false) s) as Hm.
  { split; [cbn [w_mapped wal0]; intros h ->%elem_of_singleton; lia|]. apply (wr_map _ _ _ (lr_writer _ _ _ (wal_reach_rel _ _ _ R))). }
  destruct (proj2 (wal_index_refines _ _ _ R) (wal0 3 false) 7 Hm ltac:(cbn; lia) ltac:(cbn; lia) ltac:(discriminate)) as (rc & f & r' & s' & Ef & Hv & Hf).
  rewrite (Hv eq_refl) in Ef. exists f, r', s'. split; [exact Ef|]. rewrite (Hf (Hv eq_refl)). reflexivity.
Defined.
