(* ===== verification/WalIter.v ===== *)
(** * WalIter: the pages of the write-ahead log in order (sqlite3.c, wal.c)

    [walMerge], [walMergesort] and the iterator of the checkpointer, which gives each page
    of the log once, in ascending order, with its newest frame.

    The arrays of [ht_slot] are slices of one array [aList]; a slice is its offset and its
    length.  [aContent] is read from the words of an index page, from the word [base] on. *)

From Stdlib Require Import Sorted.
From S2P Require Import Prelude CType ByteMem OsFile WalCksum WalIndex.

(** [struct Sublist]: offset and length. *)
Abbreviation Sublist := (Z * Z)%type.

(** ** Merging *)

Section merge.
Variables (words : list Z) (base nTmp : Z).

Definition aContent (i : Z) : outcome Z := rd words (base + i).

(** The loop; [aTmp] is what has been put out, a buffer of [nTmp] entries. *)
Fixpoint merge_loop (fuel : nat) (aList : list Z) (aLeft nLeft aRight nRight iLeft iRight : Z) (aTmp : list Z) : outcome (list Z) :=
  if negb ((iRight <? nRight) || (iLeft <? nLeft)) then Done aTmp
  else
    match fuel with
    | O => UB
    | S fuel =>
        fromLeft ← (if negb (iLeft <? nLeft) then Done false
                else if nRight <=? iRight then Done true
                else l ← rd aList (aLeft + iLeft); r ← rd aList (aRight + iRight); cl ← aContent l; cr ← aContent r; Done (cl <? cr));
        logpage ← rd aList (if fromLeft : bool then aLeft + iLeft else aRight + iRight);
        let '(iLeft, iRight) := if fromLeft : bool then (iLeft + 1, iRight) else (iLeft, iRight + 1) in
        dbpage ← aContent logpage;
        if negb (len aTmp <? nTmp) then UB
        else
          let aTmp := aTmp ++ [logpage] in
          skip ← (if iLeft <? nLeft then l ← rd aList (aLeft + iLeft); cl ← aContent l; Done (cl =? dbpage) else Done false);
          merge_loop fuel aList aLeft nLeft aRight nRight (if skip : bool then iLeft + 1 else iLeft) iRight aTmp
    end.

(** The result is at [aLeft]: the array and the new length. *)
Definition walMerge (aList : list Z) (aLeft nLeft aRight nRight : Z) : outcome (list Z * Z) :=
  aTmp ← merge_loop (Z.to_nat (nLeft + nRight)) aList aLeft nLeft aRight nRight 0 0 [];
  aList ← memcpy aList aLeft aTmp 0 (len aTmp);
  Done (aList, len aTmp).

(** ** Sorting *)

Definition get_sub (aSub : list Sublist) (i : nat) : outcome Sublist := match aSub !! i with Some p => Done p | None => UB end.

(** The merges of item [iList]: while the bits of [iList] from [iSub] on are set. *)
Fixpoint sub_loop (fuel : nat) (iList : Z) (iSub : nat) (aSub : list Sublist) (aList : list Z) (aMerge nMerge : Z) : outcome (nat * list Z * Z * Z) :=
  if negb (Z.testbit iList (Z.of_nat iSub)) then Done (iSub, aList, aMerge, nMerge)
  else
    match fuel with
    | O => UB
    | S fuel =>
        p ← get_sub aSub iSub;
        '(aList, nMerge) ← walMerge aList (fst p) (snd p) aMerge nMerge;
        sub_loop fuel iList (S iSub) aSub aList (fst p) nMerge
    end.

(** The items from [iList] on, [n] of them. *)
Fixpoint sort_loop (n : nat) (iList : Z) (iSub : nat) (aSub : list Sublist) (aList : list Z) (aMerge nMerge : Z) : outcome (nat * list Sublist * list Z * Z * Z) :=
  match n with
  | O => Done (iSub, aSub, aList, aMerge, nMerge)
  | S n =>
      '(iSub, aList, aMerge, nMerge) ← sub_loop 32 iList 0 aSub aList iList 1;
      if negb (bool_decide (iSub < length aSub)%nat) then UB
      else sort_loop n (iList + 1) iSub (<[iSub := (aMerge, nMerge)]> aSub) aList aMerge nMerge
  end.

(** The rest of the sublists, from [iSub] on, [n] of them. *)
Fixpoint rest_loop (n : nat) (nList : Z) (iSub : nat) (aSub : list Sublist) (aList : list Z) (aMerge nMerge : Z) : outcome (list Z * Z * Z) :=
  match n with
  | O => Done (aList, aMerge, nMerge)
  | S n =>
      if Z.testbit nList (Z.of_nat iSub) then
        p ← get_sub aSub iSub;
        '(aList, nMerge) ← walMerge aList (fst p) (snd p) aMerge nMerge;
        rest_loop n nList (S iSub) aSub aList (fst p) nMerge
      else rest_loop n nList (S iSub) aSub aList aMerge nMerge
  end.

(** The sorted list is at the beginning of the array. *)
Definition walMergesort (aList : list Z) (nList : Z) : outcome (list Z * Z) :=
  '(iSub, aSub, aList, aMerge, nMerge) ← sort_loop (Z.to_nat nList) 0 0 (replicate 13 (0, 0)) aList 0 0;
  '(aList, _, nMerge) ← rest_loop (13 - S iSub) nList (S iSub) aSub aList aMerge nMerge;
  Done (aList, nMerge).
End merge.

(** ** The iterator *)

Record WalSegment := mk_segment {
  iNext : Z;
  aIndex : list Z;
  seg_loc : WalHashLoc;        (* where [aPgno] points *)
  nEntry : Z;
  seg_iZero : Z
}.
Definition segment_empty : WalSegment := mk_segment 0 [] (mk_loc 0 0 0) 0 0.

Record WalIterator := mk_iterator { iPrior : Z; aSegment : list WalSegment }.

(** The entries of segment [i]; the slots of the iterator are an array of [iLast]. *)
Definition init_segment (nSegment iLast i : Z) (sLoc : WalHashLoc) (s : Shm) : outcome WalSegment :=
  let nEntry := if i + 1 =? nSegment then i32 (u32 (iLast - iZero sLoc)) else HASHTABLE_NPAGE - hl_base sLoc in
  if negb (iZero sLoc + nEntry <=? iLast) then UB
  else
    pg ← get_page s sLoc;
    '(aIndex, n) ← walMergesort (wi_words pg) (hl_base sLoc) (if HASHTABLE_NPAGE <? iLast then HASHTABLE_NPAGE else iLast) (seqZ 0 nEntry) nEntry;
    Done (mk_segment 0 aIndex sLoc n (iZero sLoc + 1)).

(** The segments from [i] on, [n] of them. *)
Fixpoint init_loop (n : nat) (nSegment iLast i : Z) (w : Wal) (s : Shm) (segs : list WalSegment) : outcome (Z * list WalSegment * Wal * Shm) :=
  match n with
  | O => Done (SQLITE_OK, segs, w, s)
  | S n =>
      let '(rc, sLoc, w, s) := walHashGet w i s in
      if negb (rc =? SQLITE_OK) then Done (rc, segs, w, s)
      else
        seg ← init_segment nSegment iLast i sLoc s;
        init_loop n nSegment iLast (i + 1) w s (<[Z.to_nat i := seg]> segs)
  end.

(** [ok1], [ok2]: whether the two allocations succeed. *)
Definition walIteratorInit (ok1 ok2 : bool) (nBackfill : Z) (w : Wal) (s : Shm) : outcome (Z * option WalIterator * Wal * Shm) :=
  let iLast := mxFrame (hdr w) in
  let nSegment := walFramePage iLast + 1 in
  if negb ok1 then Done (SQLITE_NOMEM, None, w, s)
  else
    let segs := replicate (Z.to_nat nSegment) segment_empty in
    if negb ok2 then Done (SQLITE_NOMEM, None, w, s)
    else
      let i := walFramePage (u32 (nBackfill + 1)) in
      '(rc, segs, w, s) ← init_loop (Z.to_nat (nSegment - i)) nSegment iLast i w s segs;
      Done (rc, if rc =? SQLITE_OK then Some (mk_iterator 0 segs) else None, w, s).

(** Skip the entries of a segment up to page [iMin]: the next page, or [None]. *)
Fixpoint segment_next (fuel : nat) (pSegment : WalSegment) (pg : WiPage) (iMin : Z) : outcome (option Z * WalSegment) :=
  if negb (iNext pSegment <? nEntry pSegment) then Done (None, pSegment)
  else
    match fuel with
    | O => UB
    | S fuel =>
        idx ← rd (aIndex pSegment) (iNext pSegment);
        iPg ← rd_pgno pg (seg_loc pSegment) idx;
        if iMin <? iPg then Done (Some iPg, pSegment)
        else segment_next fuel (mk_segment (iNext pSegment + 1) (aIndex pSegment) (seg_loc pSegment) (nEntry pSegment) (seg_iZero pSegment)) pg iMin
    end.

(** The segments from the last one on; [iRet] and the frame found so far. *)
Fixpoint next_loop (n : nat) (segs : list WalSegment) (s : Shm) (iMin iRet piFrame : Z) : outcome (Z * Z * list WalSegment) :=
  match n with
  | O => Done (iRet, piFrame, segs)
  | S n =>
      match segs !! n with
      | None => UB
      | Some pSegment =>
          pg ← (if nEntry pSegment =? 0 then Done zero_page else get_page s (seg_loc pSegment));
          '(found, pSegment) ← segment_next (Z.to_nat (nEntry pSegment)) pSegment pg iMin;
          let segs := <[n := pSegment]> segs in
          match found with
          | Some iPg =>
              if iPg <? iRet then
                idx ← rd (aIndex pSegment) (iNext pSegment);
                next_loop n segs s iMin iPg (u32 (seg_iZero pSegment + idx))
              else next_loop n segs s iMin iRet piFrame
          | None => next_loop n segs s iMin iRet piFrame
          end
      end
  end.

(** The result is 1 when there is no further page. *)
Definition walIteratorNext (p : WalIterator) (piFrame : Z) (s : Shm) : outcome (Z * Z * Z * WalIterator) :=
  let iMin := iPrior p in
  '(iRet, piFrame, segs) ← next_loop (length (aSegment p)) (aSegment p) s iMin 0xFFFFFFFF piFrame;
  Done (b2i (iRet =? 0xFFFFFFFF), iRet, piFrame, mk_iterator iRet segs).

(** * Merging two sorted lists *)

(** [l] is in the array [a] at offset [o]. *)
Definition slice (a : list Z) (o : Z) (l : list Z) : Prop :=
  0 <= o /\ o + len l <= len a /\ forall i, 0 <= i < len l -> a.[o + i] = l.[i].

Lemma slice_cons a o x l : slice a o (x :: l) -> rd a o = Done x /\ slice a (o + 1) l.
Proof.
  intros (Ho & Hl & H). cbn [length] in Hl. split.
  - rewrite rd_ok by lia. f_equal. specialize (H 0 ltac:(cbn [length]; lia)). by rewrite Z.add_0_r in H.
  - split; [lia|]. split; [lia|]. intros i Hi. specialize (H (i + 1) ltac:(cbn [length]; lia)). replace (o + 1 + i) with (o + (i + 1)) by lia. rewrite H.
    unfold ld. replace (Z.to_nat (i + 1)) with (S (Z.to_nat i)) by lia. done.
Qed.

Lemma slice_frame a a' o l : slice a o l -> length a' = length a -> (forall j, o <= j < o + len l -> a'.[j] = a.[j]) -> slice a' o l.
Proof. intros (Ho & Hl & H) El Hj. split; [done|]. split; [lia|]. intros i Hi. rewrite Hj by lia. by apply H. Qed.

(** The last index with the content of [u]. *)
Lemma last_with (c : Z -> Z) lo hi u : lo <= u < hi -> exists v, u <= v < hi /\ c v = c u /\ forall x, v < x < hi -> c x <> c u.
Proof.
  intros Hu.
  assert (forall m : nat, exists w, u <= w <= u + Z.of_nat m /\ c w = c u /\ forall x, w < x <= u + Z.of_nat m -> c x <> c u) as G.
  { induction m as [|m (w & Hw & E & Hn)].
    - exists u. split; [lia|]. split; [done|lia].
    - destruct (decide (c (u + Z.of_nat (S m)) = c u)) as [E'|N].
      + exists (u + Z.of_nat (S m)). split; [lia|]. split; [done|lia].
      + exists w. split; [lia|]. split; [done|]. intros x Hx. destruct (decide (x = u + Z.of_nat (S m))) as [->|]; [done|apply Hn; lia]. }
  destruct (G (Z.to_nat (hi - 1 - u))) as (w & Hw & E & Hn). exists w. split; [lia|]. split; [done|]. intros x Hx. apply Hn. lia.
Qed.

Section order.
Variable c : Z -> Z.

(** The head of the left list is dropped if it has the content [d]. *)
Definition skip_eq (d : Z) (l : list Z) : list Z := match l with x :: l' => if c x =? d then l' else l | [] => [] end.

Fixpoint mrg (fuel : nat) (l r : list Z) : list Z :=
  match fuel, l, r with
  | O, _, _ => []
  | S fuel, [], [] => []
  | S fuel, [], y :: r' => y :: mrg fuel [] r'
  | S fuel, x :: l', [] => x :: mrg fuel (skip_eq (c x) l') []
  | S fuel, x :: l', y :: r' => if c x <? c y then x :: mrg fuel (skip_eq (c x) l') r else y :: mrg fuel (skip_eq (c y) l) r'
  end.

Abbreviation increasing := (StronglySorted (fun a b => c a < c b)).

Lemma skip_eq_none d l : Forall (fun v => d < c v) l -> skip_eq d l = l.
Proof. destruct l as [|x l]; [done|]. intros [Hx _]%Forall_cons. cbn. by rewrite (proj2 (Z.eqb_neq _ _)) by lia. Qed.

Lemma mrg_length fuel : forall l r, (length (mrg fuel l r) <= length l + length r)%nat.
Proof.
  assert (forall d l, (length (skip_eq d l) <= length l)%nat) as Hs by (intros d [|x l]; cbn; [lia|destruct (c x =? d); cbn; lia]).
  induction fuel as [|fuel IH]; intros [|x l] [|y r]; cbn [mrg length]; try lia.
  - specialize (IH [] r). cbn in IH. lia.
  - specialize (IH (skip_eq (c x) l) []). specialize (Hs (c x) l). cbn in IH. lia.
  - destruct (c x <? c y); cbn [length].
    + specialize (IH (skip_eq (c x) l) (y :: r)). specialize (Hs (c x) l). cbn [length] in IH. lia.
    + specialize (IH (skip_eq (c y) (x :: l)) r). specialize (Hs (c y) (x :: l)). cbn [length] in Hs. lia.
Qed.

(** The elements of the right list win over those of the left with the same content. *)
Lemma mrg_ok fuel : forall l r, (length l + length r <= fuel)%nat -> increasing l -> increasing r ->
  increasing (mrg fuel l r) /\ forall v, v ∈ mrg fuel l r <-> v ∈ r \/ (v ∈ l /\ Forall (fun y => c y <> c v) r).
Proof.
  induction fuel as [|fuel IH]; intros [|x l] [|y r] Hf Hl Hr; cbn [length] in Hf; try lia; cbn [mrg].
  1,2: split; [constructor|]; intros v; set_solver.
  - apply StronglySorted_inv in Hr as [Hr Hy]. destruct (IH [] r ltac:(cbn; lia) Hl Hr) as [S M]. split.
    + constructor; [done|]. apply Forall_forall. intros v Hv. apply M in Hv as [Hv|[Hv _]]; [|by apply elem_of_nil in Hv].
      rewrite Forall_forall in Hy. by apply Hy.
    + intros v. rewrite elem_of_cons, M. set_solver.
  - apply StronglySorted_inv in Hl as [Hl Hx]. rewrite skip_eq_none by done. destruct (IH l [] ltac:(cbn; lia) Hl Hr) as [S M]. split.
    + constructor; [done|]. apply Forall_forall. intros v Hv. apply M in Hv as [Hv|[Hv _]]; [by apply elem_of_nil in Hv|].
      rewrite Forall_forall in Hx. by apply Hx.
    + intros v. rewrite elem_of_cons, M, elem_of_cons. set_solver.
  - pose proof (StronglySorted_inv Hl) as [Hl' Hx]. pose proof (StronglySorted_inv Hr) as [Hr' Hy].
    rewrite Forall_forall in Hx, Hy. destruct (Z.ltb_spec (c x) (c y)) as [Hlt|Hge].
    + rewrite skip_eq_none by by apply Forall_forall. destruct (IH l (y :: r) ltac:(cbn; lia) Hl' Hr) as [S M]. split.
      * constructor; [done|]. apply Forall_forall. intros v Hv. apply M in Hv as [[->|Hv]%elem_of_cons|[Hv _]]; [done| |by apply Hx].
        specialize (Hy v Hv). cbn in Hy. lia.
      * intros v. rewrite elem_of_cons, M, (elem_of_cons l). split; [|tauto].
        intros [->|[Hv|[Hv Hn]]]; [|tauto|tauto]. right. split; [by left|]. apply Forall_forall.
        intros z [->|Hz]%elem_of_cons; [lia|]. specialize (Hy z Hz). cbn in Hy. lia.
    + assert (exists l2, skip_eq (c y) (x :: l) = l2 /\ increasing l2 /\ (length l2 <= S (length l))%nat /\
        forall v, v ∈ l2 <-> v ∈ x :: l /\ c v <> c y) as (l2 & -> & Hl2 & Hlen & M2).
      { cbn. destruct (Z.eqb_spec (c x) (c y)) as [E|N].
        - exists l. split; [done|]. split; [done|]. split; [lia|]. intros v. rewrite elem_of_cons. split.
          + intros Hv. split; [by right|]. specialize (Hx v Hv). cbn in Hx. lia.
          + intros [[->|Hv] Hn]; [congruence|done].
        - exists (x :: l). split; [done|]. split; [done|]. split; [done|]. intros v. split; [|by intros [? _]]. intros Hv. split; [done|].
          apply elem_of_cons in Hv as [->|Hv]; [done|]. specialize (Hx v Hv). cbn in Hx. lia. }
      destruct (IH l2 r ltac:(cbn; lia) Hl2 Hr') as [S M]. split.
      * constructor; [done|]. apply Forall_forall. intros v Hv. apply M in Hv as [Hv|[Hv _]]; [by apply Hy|].
        apply M2 in Hv as [[->|Hv]%elem_of_cons Hn]; [lia|]. specialize (Hx v Hv). cbn in Hx. lia.
      * intros v. rewrite elem_of_cons, M, M2, (elem_of_cons r), Forall_cons. intuition congruence.
Qed.
End order.

(** ** The loop *)

Section merge_ok.
Context {words : list Z} {base nTmp n : Z}.
Hypothesis Hwords : 0 <= base /\ base + n <= len words.
Let c (i : Z) : Z := words.[base + i].

Lemma aContent_ok i : 0 <= i < n -> aContent words base i = Done (c i).
Proof. intros Hi. unfold aContent. apply rd_ok. lia. Qed.

(** The step after an entry with content [d] has been put out. *)
Lemma skip_ok aList a l i d : slice aList (a + i) l -> Forall (fun v => 0 <= v < n) l ->
  let b := match l with x :: _ => c x =? d | [] => false end in
  let i' := if b then i + 1 else i in
  (if i <? i + len l then l ← rd aList (a + i); cl ← aContent words base l; Done (cl =? d) else Done false) = Done b /\
  slice aList (a + i') (skip_eq c d l) /\ i' + len (skip_eq c d l) = i + len l /\
  Forall (fun v => 0 <= v < n) (skip_eq c d l) /\ (length (skip_eq c d l) <= length l)%nat.
Proof.
  destruct l as [|y l]; intros Hs Hv.
  - cbn [length skip_eq]. rewrite (proj2 (Z.ltb_ge _ _)) by lia. done.
  - pose proof (slice_cons _ _ _ _ Hs) as [Hrd Hs']. apply Forall_cons in Hv as Hv'. destruct Hv' as [Hy Hv'].
    rewrite (proj2 (Z.ltb_lt _ _)) by (cbn [length]; lia). rewrite Hrd. cbn [mbind outcome_bind]. rewrite aContent_ok by done. cbn [mbind outcome_bind skip_eq].
    split; [done|]. destruct (c y =? d); cbn [length].
    + split; [by replace (a + (i + 1)) with (a + i + 1) by lia|]. split; [lia|]. split; [done|]. lia.
    + split; [done|]. split; [lia|]. done.
Qed.

Lemma merge_loop_ok fuel aList aLeft aRight : forall l r iLeft iRight aTmp,
  slice aList (aLeft + iLeft) l -> slice aList (aRight + iRight) r -> (length l + length r <= fuel)%nat ->
  Forall (fun v => 0 <= v < n) l -> Forall (fun v => 0 <= v < n) r -> len aTmp + len l + len r <= nTmp ->
  merge_loop words base nTmp fuel aList aLeft (iLeft + len l) aRight (iRight + len r) iLeft iRight aTmp = Done (aTmp ++ mrg c fuel l r).
Proof.
  induction fuel as [|fuel IH]; intros l r iLeft iRight aTmp Hl Hr Hf Fl Fr Ht.
  { destruct l, r; try (cbn in Hf; lia). cbn [length merge_loop mrg]. rewrite !(proj2 (Z.ltb_ge _ _)) by lia. by rewrite app_nil_r. }
  destruct l as [|x l], r as [|y r]; cbn [merge_loop].
  - cbn [length mrg]. rewrite !(proj2 (Z.ltb_ge _ _)) by lia. by rewrite app_nil_r.
  - destruct (slice_cons _ _ _ _ Hr) as [Hrd Hr']. apply Forall_cons in Fr as [Fy Fr].
    cbn [length] in *. rewrite (proj2 (Z.ltb_lt iRight _)), (proj2 (Z.ltb_ge iLeft _)) by lia. cbn [orb negb mbind outcome_bind].
    rewrite Hrd. cbn [mbind outcome_bind]. rewrite aContent_ok by done. cbn [mbind outcome_bind]. rewrite (proj2 (Z.ltb_lt (len aTmp) nTmp)) by lia. cbn [negb].
    rewrite (proj2 (Z.ltb_ge iLeft _)) by lia. cbn [mbind outcome_bind mrg].
    replace (iRight + Z.of_nat (S (length r))) with (iRight + 1 + len r) by lia. replace (iLeft + Z.of_nat 0) with (iLeft + len (@nil Z)) by (cbn; lia).
    rewrite IH; [by rewrite <- app_assoc|done|by replace (aRight + (iRight + 1)) with (aRight + iRight + 1) by lia|cbn; lia|done|done|rewrite length_app; cbn; lia].
  - destruct (slice_cons _ _ _ _ Hl) as [Hrd Hl']. apply Forall_cons in Fl as [Fx Fl].
    destruct (skip_ok aList aLeft l (iLeft + 1) (c x) ltac:(by replace (aLeft + (iLeft + 1)) with (aLeft + iLeft + 1) by lia) Fl) as (Es & Ss & Els & Fs & Lens).
    cbn [length] in *. rewrite (proj2 (Z.ltb_ge iRight _)), (proj2 (Z.ltb_lt iLeft _)), (proj2 (Z.leb_le _ iRight)) by lia. cbn [orb negb mbind outcome_bind].
    rewrite Hrd. cbn [mbind outcome_bind]. rewrite aContent_ok by done. cbn [mbind outcome_bind]. rewrite (proj2 (Z.ltb_lt (len aTmp) nTmp)) by lia. cbn [negb].
    replace (iLeft + Z.of_nat (S (length l))) with (iLeft + 1 + len l) by lia. rewrite Es. cbn [mbind outcome_bind mrg].
    rewrite <- Els. replace (iRight + Z.of_nat 0) with (iRight + len (@nil Z)) by (cbn; lia).
    rewrite IH; [by rewrite <- app_assoc|done|done|cbn; lia|done|done|rewrite length_app; cbn; lia].
  - destruct (slice_cons _ _ _ _ Hl) as [Hrdl Hl']. destruct (slice_cons _ _ _ _ Hr) as [Hrdr Hr'].
    apply Forall_cons in Fl as Fl'. destruct Fl' as [Fx Fl']. apply Forall_cons in Fr as Fr'. destruct Fr' as [Fy Fr'].
    cbn [length] in *. rewrite (proj2 (Z.ltb_lt iRight _)), (proj2 (Z.ltb_lt iLeft _)), (proj2 (Z.leb_gt _ iRight)) by lia. cbn [orb negb].
    rewrite Hrdl, Hrdr. cbn [mbind outcome_bind]. rewrite !aContent_ok by done. cbn [mbind outcome_bind mrg].
    destruct (c x <? c y).
    + destruct (skip_ok aList aLeft l (iLeft + 1) (c x) ltac:(by replace (aLeft + (iLeft + 1)) with (aLeft + iLeft + 1) by lia) Fl') as (Es & Ss & Els & Fs & Lens).
      rewrite Hrdl. cbn [mbind outcome_bind]. rewrite aContent_ok by done. cbn [mbind outcome_bind]. rewrite (proj2 (Z.ltb_lt (len aTmp) nTmp)) by lia. cbn [negb].
      replace (iLeft + Z.of_nat (S (length l))) with (iLeft + 1 + len l) by lia. rewrite Es. cbn [mbind outcome_bind].
      rewrite <- Els. replace (iRight + Z.of_nat (S (length r))) with (iRight + len (y :: r)) by (cbn [length]; lia).
      rewrite IH; [by rewrite <- app_assoc|done|done|cbn; lia|done|done|rewrite length_app; cbn; lia].
    + destruct (skip_ok aList aLeft (x :: l) iLeft (c y) Hl Fl) as (Es & Ss & Els & Fs & Lens).
      rewrite Hrdr. cbn [mbind outcome_bind]. rewrite aContent_ok by done. cbn [mbind outcome_bind]. rewrite (proj2 (Z.ltb_lt (len aTmp) nTmp)) by lia. cbn [negb].
      replace (iLeft + Z.of_nat (S (length l))) with (iLeft + len (x :: l)) by (cbn [length]; lia). rewrite Es. cbn [mbind outcome_bind].
      rewrite <- Els. replace (iRight + Z.of_nat (S (length r))) with (iRight + 1 + len r) by lia.
      rewrite IH; [by rewrite <- app_assoc|done|by replace (aRight + (iRight + 1)) with (aRight + iRight + 1) by lia|cbn [length] in *; lia|done|done|rewrite length_app; cbn [length] in *; lia].
Qed.

(** [r] are the entries of [lo] up to [hi] whose content does not come again, by content. *)
Definition sorted_range (lo hi : Z) (r : list Z) : Prop :=
  StronglySorted (fun a b => c a < c b) r /\ len r <= hi - lo /\
  forall v, v ∈ r <-> lo <= v < hi /\ forall u, v < u < hi -> c u <> c v.

Lemma range_last lo hi r : sorted_range lo hi r -> forall u, lo <= u < hi -> exists v, v ∈ r /\ c v = c u.
Proof.
  intros (_ & _ & M) u Hu. destruct (last_with c lo hi u Hu) as (v & Hv & E & Hn). exists v. split; [|done]. apply M. split; [lia|].
  intros x Hx. rewrite E. by apply Hn.
Qed.

Lemma range_single k : sorted_range k (k + 1) [k].
Proof.
  split; [by repeat constructor|]. split; [cbn; lia|]. intros v. rewrite list_elem_of_singleton. split; [intros ->; split; [lia|lia]|lia].
Qed.

Lemma range_merge lo mid hi l r fuel : lo <= mid <= hi -> (length l + length r <= fuel)%nat -> sorted_range lo mid l -> sorted_range mid hi r ->
  sorted_range lo hi (mrg c fuel l r).
Proof.
  intros Hm Hf Hl Hr. pose proof Hl as (Sl & Ll & Ml). pose proof Hr as (Sr & Lr & Mr).
  destruct (mrg_ok c fuel l r Hf Sl Sr) as [S M]. split; [done|]. split; [pose proof (mrg_length c fuel l r); lia|].
  intros v. rewrite M, Ml, Mr, Forall_forall. split.
  - intros [[Hv Hn]|[[Hv Hn] Hall]]; [split; [lia|done]|]. split; [lia|]. intros u Hu E. destruct (Z.lt_ge_cases u mid); [by apply (Hn u); [lia|]|].
    destruct (range_last mid hi r Hr u ltac:(lia)) as (w & Hw & Ew). apply (Hall w Hw). congruence.
  - intros [Hv Hn]. destruct (Z.lt_ge_cases v mid); [right|left; split; [lia|done]]. split; [split; [lia|intros u Hu; apply Hn; lia]|].
    intros w Hw%Mr. apply Hn. lia.
Qed.

Lemma range_in lo hi r : 0 <= lo -> hi <= n -> sorted_range lo hi r -> Forall (fun v => 0 <= v < n) r.
Proof. intros Hlo Hhi (_ & _ & M). apply Forall_forall. intros v Hv%M. lia. Qed.

(** A merge of neighbours, in place. *)
Lemma walMerge_ok aList lo mid hi l r : 0 <= lo -> lo <= mid <= hi -> hi <= n -> hi <= len aList -> hi - lo <= nTmp ->
  slice aList lo l -> slice aList mid r -> sorted_range lo mid l -> sorted_range mid hi r ->
  exists aList' m, walMerge words base nTmp aList lo (len l) mid (len r) = Done (aList', len m) /\ sorted_range lo hi m /\ slice aList' lo m /\
    length aList' = length aList /\ forall j, 0 <= j -> ~ (lo <= j < hi) -> aList'.[j] = aList.[j].
Proof.
  intros Hlo Hmid Hhi Hlen Ht Sl Sr Rl Rr. unfold walMerge.
  pose proof Rl as (_ & Ll & _). pose proof Rr as (_ & Lr & _).
  pose proof (merge_loop_ok (Z.to_nat (len l + len r)) aList lo mid l r 0 0 [] ltac:(by rewrite Z.add_0_r) ltac:(by rewrite Z.add_0_r) ltac:(lia)
    ltac:(by apply (range_in lo mid); [lia|lia|]) ltac:(by apply (range_in mid hi); [lia|lia|]) ltac:(cbn; lia)) as E.
  rewrite !Z.add_0_l in E. rewrite E. cbn [mbind outcome_bind app]. set (m := mrg _ _ l r).
  assert (sorted_range lo hi m) as Rm by (apply range_merge with (mid := mid); [done|lia|done|done]).
  pose proof Rm as (_ & Lm & _). unfold memcpy. rewrite blk_read_Some by lia. change (Z.to_nat 0) with 0%nat. rewrite drop_0, Nat2Z.id, take_ge by done.
  rewrite blk_write_Some by lia. cbn [mbind outcome_bind]. eexists _, m. split; [done|]. split; [done|]. split; [|split].
  - split; [done|]. rewrite !length_app, length_take, length_drop. split; [lia|]. intros i Hi. unfold ld. rewrite !nth_lookup.
    rewrite lookup_app_r by (rewrite length_take; lia). rewrite lookup_app_l by (rewrite length_take; lia). do 2 f_equal. rewrite length_take. lia.
  - rewrite !length_app, length_take, length_drop. lia.
  - intros j Hj Hout. unfold ld. rewrite !nth_lookup. destruct (Z.lt_ge_cases j lo).
    + rewrite lookup_app_l by (rewrite length_take; lia). by rewrite lookup_take_lt by lia.
    + rewrite lookup_app_r by (rewrite length_take; lia). rewrite lookup_app_r by (rewrite length_take; lia).
      rewrite lookup_drop, length_take. do 2 f_equal. lia.
Qed.

(** The sublists that are waiting: one for each bit of [q] from bit [i] on, together the
    items before [hi]. *)
Fixpoint waiting (m i : nat) (q hi : Z) (aSub : list Sublist) (aList : list Z) : Prop :=
  match m with
  | O => q = 0 /\ hi = 0
  | S m =>
      if Z.odd q then
        exists r, aSub !! i = Some (hi - 2 ^ Z.of_nat i, len r) /\ slice aList (hi - 2 ^ Z.of_nat i) r /\ sorted_range (hi - 2 ^ Z.of_nat i) hi r /\
          waiting m (S i) (q / 2) (hi - 2 ^ Z.of_nat i) aSub aList
      else waiting m (S i) (q / 2) hi aSub aList
  end.

Lemma waiting_nonneg m : forall i q hi aSub aList, waiting m i q hi aSub aList -> 0 <= hi.
Proof.
  induction m as [|m IH]; intros i q hi aSub aList H; cbn in H; [lia|]. destruct (Z.odd q); [|by eapply IH].
  destruct H as (r & _ & _ & _ & H). apply IH in H. pose proof (Z.pow_nonneg 2 (Z.of_nat i)). lia.
Qed.

Lemma waiting_frame m : forall i q hi aSub aSub' aList aList', waiting m i q hi aSub aList ->
  (forall j, (i <= j)%nat -> aSub' !! j = aSub !! j) -> length aList' = length aList -> (forall j, 0 <= j < hi -> aList'.[j] = aList.[j]) ->
  waiting m i q hi aSub' aList'.
Proof.
  induction m as [|m IH]; intros i q hi aSub aSub' aList aList' H Hs Hl Ha; cbn in *; [done|]. destruct (Z.odd q).
  - destruct H as (r & E & Sr & Rr & H). pose proof (waiting_nonneg _ _ _ _ _ _ H). pose proof (Z.pow_nonneg 2 (Z.of_nat i) ltac:(lia)). exists r.
    rewrite Hs by lia. split; [done|]. split.
    { eapply slice_frame; [done|done|]. intros j Hj. destruct Rr as (_ & ? & _). apply Ha. lia. }
    split; [done|]. eapply IH; [done| |done|]; [intros j Hj; apply Hs; lia|intros j Hj; apply Ha; lia].
  - eapply IH; [done| |done|done]. intros j Hj. apply Hs. lia.
Qed.

Lemma odd_half q : 0 <= q -> q = 2 * (q / 2) + (if Z.odd q then 1 else 0).
Proof. intros Hq. rewrite <- Z.div2_div. pose proof (Z.div2_odd q). destruct (Z.odd q); cbn in *; lia. Qed.

Lemma testbit_odd k i : 0 <= k -> Z.testbit k (Z.of_nat i) = Z.odd (k / 2 ^ Z.of_nat i).
Proof. intros Hk. rewrite Z.testbit_odd, Z.shiftr_div_pow2 by lia. done. Qed.

Lemma div_pow_S k i : k / 2 ^ Z.of_nat (S i) = k / 2 ^ Z.of_nat i / 2.
Proof. rewrite Nat2Z.inj_succ, Z.pow_succ_r by lia. rewrite Z.mul_comm, Z.div_div by lia. done. Qed.

Lemma waiting_hi m : forall i q hi aSub aList, 0 <= q -> waiting m i q hi aSub aList -> hi = q * 2 ^ Z.of_nat i.
Proof.
  induction m as [|m IH]; intros i q hi aSub aList Hq H; cbn in H; [lia|].
  pose proof (odd_half q Hq) as Ho. assert (2 ^ Z.of_nat (S i) = 2 * 2 ^ Z.of_nat i) as Ep by (rewrite Nat2Z.inj_succ, Z.pow_succ_r by lia; done).
  destruct (Z.odd q).
  - destruct H as (r & _ & _ & _ & H). apply IH in H; [|lia]. rewrite Ep in H. rewrite Ho. lia.
  - apply IH in H; [|lia]. rewrite Ep in H. rewrite Ho. lia.
Qed.

(** Item [k] is merged with the sublists of the low bits of [k]; with the result stored,
    the sublists are those of [k + 1]. *)
Lemma sub_loop_ok k aSub : 0 <= k < 4096 -> k + 1 <= n -> k + 1 <= nTmp -> length aSub = 13%nat -> forall m fuel i hi aList r,
  (i + m = 13)%nat -> (m <= fuel)%nat -> waiting m i (k / 2 ^ Z.of_nat i) hi aSub aList -> hi + 2 ^ Z.of_nat i = k + 1 -> k + 1 <= len aList ->
  slice aList hi r -> sorted_range hi (k + 1) r ->
  exists t aList' hi' r', sub_loop words base nTmp fuel k i aSub aList hi (len r) = Done (t, aList', hi', len r') /\ (t < 13)%nat /\
    sorted_range hi' (k + 1) r' /\ slice aList' hi' r' /\ length aList' = length aList /\ (forall j, k + 1 <= j -> aList'.[j] = aList.[j]) /\
    waiting (13 - S t) (S t) (k / 2 ^ Z.of_nat (S t)) hi' aSub aList' /\
    (k + 1) / 2 ^ Z.of_nat (S t) = k / 2 ^ Z.of_nat (S t) /\
    waiting m i (k / 2 ^ Z.of_nat i + 1) (k + 1) (<[t := (hi', len r')]> aSub) aList'.
Proof.
  intros Hk Hn Ht Hlen. induction m as [|m IH]; intros fuel i hi aList r Him Hfuel Hw Hhi Hl Sr Rr.
  { exfalso. cbn in Hw. destruct Hw as [_ ->]. replace i with 13%nat in Hhi by lia. change (2 ^ Z.of_nat 13) with 8192 in Hhi. lia. }
  pose proof (Z.div_pos k (2 ^ Z.of_nat i) ltac:(lia) ltac:(apply Z.pow_pos_nonneg; lia)) as Hq.
  pose proof (odd_half _ Hq) as Ho. pose proof (waiting_nonneg _ _ _ _ _ _ Hw) as Hhi0. pose proof (waiting_hi _ _ _ _ _ _ Hq Hw) as Ehi.
  assert (0 < 2 ^ Z.of_nat i) by (apply Z.pow_pos_nonneg; lia).
  cbn [waiting] in Hw. destruct fuel as [|fuel]; [lia|]. cbn [sub_loop]. rewrite testbit_odd by lia. rewrite <- div_pow_S in Hw, Ho.
  destruct (Z.odd (k / 2 ^ Z.of_nat i)) eqn:Eo; cbn [negb].
  - destruct Hw as (l & Es & Sl & Rl & Hw). pose proof (waiting_nonneg _ _ _ _ _ _ Hw) as Hlo.
    unfold get_sub. rewrite Es. cbn [mbind outcome_bind fst snd].
    destruct (walMerge_ok aList (hi - 2 ^ Z.of_nat i) hi (k + 1) l r Hlo ltac:(lia) Hn Hl ltac:(lia) Sl Sr Rl Rr) as (aList1 & r1 & -> & Rm & Sm & Lm & Fm).
    cbn [mbind outcome_bind].
    assert (2 ^ Z.of_nat (S i) = 2 * 2 ^ Z.of_nat i) as Ep by (rewrite Nat2Z.inj_succ, Z.pow_succ_r by lia; done).
    destruct (IH fuel (S i) (hi - 2 ^ Z.of_nat i) aList1 r1) as (t & aList2 & hi2 & r2 & E & Htl & R2 & S2 & L2 & F2 & W2 & D2 & N2).
    + lia.
    + lia.
    + eapply waiting_frame; [exact Hw|done|done|]. intros j Hj. apply Fm; lia.
    + lia.
    + lia.
    + done.
    + done.
    + exists t, aList2, hi2, r2. split; [exact E|]. split; [done|]. split; [done|]. split; [done|]. split; [congruence|].
      split; [intros j Hj; rewrite F2 by done; apply Fm; lia|]. split; [done|]. split; [done|].
      cbn [waiting]. assert (Z.odd (k / 2 ^ Z.of_nat i + 1) = false) as -> by (rewrite Z.odd_add, Eo; done).
      replace ((k / 2 ^ Z.of_nat i + 1) / 2) with (k / 2 ^ Z.of_nat (S i) + 1); [done|].
      apply (Z.div_unique _ 2 _ 0); lia.
  - exists i, aList, hi, r. split; [done|]. split; [lia|]. split; [done|]. split; [done|]. split; [done|]. split; [done|].
    split; [by replace (13 - S i)%nat with m by lia|]. split.
    { rewrite !div_pow_S. rewrite <- Hhi, Ehi. replace ((k / 2 ^ Z.of_nat i * 2 ^ Z.of_nat i + 2 ^ Z.of_nat i) / 2 ^ Z.of_nat i) with (k / 2 ^ Z.of_nat i + 1).
      - rewrite div_pow_S in Ho. symmetry. apply (Z.div_unique _ 2 _ 1); lia.
      - apply (Z.div_unique _ _ _ 0); lia. }
    cbn [waiting]. assert (Z.odd (k / 2 ^ Z.of_nat i + 1) = true) as -> by (rewrite Z.odd_add, Eo; done).
    replace ((k / 2 ^ Z.of_nat i + 1) / 2) with (k / 2 ^ Z.of_nat (S i)) by (apply (Z.div_unique _ 2 _ 1); lia).
    exists r. replace (k + 1 - 2 ^ Z.of_nat i) with hi by lia. rewrite list_lookup_insert_eq by lia. split; [done|]. split; [done|]. split; [done|].
    eapply waiting_frame; [exact Hw| |done|done]. intros j Hj. by rewrite list_lookup_insert_ne by lia.
Qed.

Lemma sort_loop_ok m : forall k iSub aSub aList aM nM, 0 <= k -> (0 < m)%nat -> k + Z.of_nat m <= 4096 -> k + Z.of_nat m <= n -> k + Z.of_nat m <= nTmp ->
  k + Z.of_nat m <= len aList -> length aSub = 13%nat -> waiting 13 0 k k aSub aList -> (forall j, k <= j < k + Z.of_nat m -> aList.[j] = j) ->
  exists t aSub' aList' hi r, sort_loop words base nTmp m k iSub aSub aList aM nM = Done (t, aSub', aList', hi, len r) /\ (t < 13)%nat /\
    sorted_range hi (k + Z.of_nat m) r /\ slice aList' hi r /\ length aList' = length aList /\
    waiting (13 - S t) (S t) ((k + Z.of_nat m) / 2 ^ Z.of_nat (S t)) hi aSub' aList'.
Proof.
  induction m as [|m IH]; intros k iSub aSub aList aM nM Hk Hm Hb Hn Ht Hl Hs Hw Hid; [lia|]. cbn [sort_loop].
  assert (slice aList k [k]) as Sk.
  { split; [done|]. split; [cbn; lia|]. intros i Hi. cbn in Hi. replace i with 0 by lia. rewrite Z.add_0_r. rewrite Hid by lia. done. }
  destruct (sub_loop_ok k aSub ltac:(lia) ltac:(lia) ltac:(lia) Hs 13 32 0 k aList [k]) as (t & aList1 & hi1 & r1 & E & Htl & R1 & S1 & L1 & F1 & W1 & D1 & N1); try done; try lia.
  { cbn [Z.of_nat]. rewrite Z.pow_0_r, Z.div_1_r. done. }
  { apply range_single. }
  change (len [k]) with 1 in E. rewrite E. cbn [mbind outcome_bind]. rewrite bool_decide_eq_true_2 by lia. cbn [negb].
  change (2 ^ Z.of_nat 0) with 1 in N1. rewrite Z.div_1_r in N1.
  destruct m as [|m].
  - cbn [sort_loop]. exists t, (<[t := (hi1, len r1)]> aSub), aList1, hi1, r1. split; [done|]. split; [done|]. replace (k + Z.of_nat 1) with (k + 1) by lia.
    split; [done|]. split; [done|]. split; [done|]. rewrite D1. eapply waiting_frame; [exact W1| |done|done]. intros j Hj. by rewrite list_lookup_insert_ne by lia.
  - destruct (IH (k + 1) t (<[t := (hi1, len r1)]> aSub) aList1 hi1 (len r1)) as (t' & aSub' & aList' & hi & r & E' & ?); try lia; try done.
    + by rewrite length_insert.
    + intros j Hj. rewrite F1 by lia. apply Hid. lia.
    + exists t', aSub', aList', hi, r. replace (k + Z.of_nat (S (S m))) with (k + 1 + Z.of_nat (S m)) by lia. rewrite <- L1. done.
Qed.

Lemma rest_loop_ok nList N aSub : 0 <= nList -> N <= n -> N <= nTmp -> forall m i hi aList r, waiting m i (nList / 2 ^ Z.of_nat i) hi aSub aList ->
  hi <= N -> N <= len aList -> slice aList hi r -> sorted_range hi N r ->
  exists aList' r', rest_loop words base nTmp m nList i aSub aList hi (len r) = Done (aList', 0, len r') /\ sorted_range 0 N r' /\ slice aList' 0 r' /\ length aList' = length aList.
Proof.
  intros Hnl HN Ht. induction m as [|m IH]; intros i hi aList r Hw Hhi Hl Sr Rr.
  { cbn in Hw. destruct Hw as [_ ->]. by exists aList, r. }
  pose proof (waiting_nonneg _ _ _ _ _ _ Hw). cbn [waiting] in Hw. cbn [rest_loop]. rewrite testbit_odd by lia. rewrite <- div_pow_S in Hw.
  destruct (Z.odd (nList / 2 ^ Z.of_nat i)); [|by apply IH].
  destruct Hw as (l & Es & Sl & Rl & Hw). unfold get_sub. rewrite Es. cbn [mbind outcome_bind fst snd].
  pose proof (waiting_nonneg _ _ _ _ _ _ Hw). assert (0 < 2 ^ Z.of_nat i) by (apply Z.pow_pos_nonneg; lia).
  destruct (walMerge_ok aList (hi - 2 ^ Z.of_nat i) hi N l r ltac:(lia) ltac:(lia) HN Hl ltac:(lia) Sl Sr Rl Rr) as (aList1 & r1 & -> & Rm & Sm & Lm & Fm).
  cbn [mbind outcome_bind]. destruct (IH (S i) (hi - 2 ^ Z.of_nat i) aList1 r1) as (aList' & r' & E & ? & ? & L'); try lia; try done.
  - eapply waiting_frame; [exact Hw|done|done|]. intros j Hj. apply Fm; lia.
  - exists aList', r'. rewrite <- Lm. done.
Qed.

(** The sort leaves, by page number, the last entry of each page. *)
Lemma walMergesort_ok nList : 1 <= nList <= 4096 -> nList <= n -> nList <= nTmp ->
  exists aList r, walMergesort words base nTmp (seqZ 0 nList) nList = Done (aList, len r) /\ sorted_range 0 nList r /\ slice aList 0 r /\ len aList = nList.
Proof.
  intros Hb Hn Ht. unfold walMergesort.
  destruct (sort_loop_ok (Z.to_nat nList) 0 0 (replicate 13 (0, 0)) (seqZ 0 nList) 0 0) as (t & aSub & aList & hi & r & -> & Htl & R & Sl & L & W); try lia; try done.
  - rewrite length_seqZ. lia.
  - intros j Hj. unfold ld. rewrite nth_lookup, lookup_seqZ_lt by lia. cbn. lia.
  - cbn [mbind outcome_bind]. replace (0 + Z.of_nat (Z.to_nat nList)) with nList in * by lia.
    rewrite length_seqZ in L. pose proof R as (_ & Lr & _).
    destruct (rest_loop_ok nList nList aSub ltac:(lia) Hn Ht (13 - S t) (S t) hi aList r W ltac:(lia) ltac:(lia) Sl R) as (aList' & r' & E & R' & S' & L').
    rewrite E. cbn [mbind outcome_bind]. exists aList', r'. split; [done|]. split; [done|]. split; [done|]. lia.
Qed.
End merge_ok.
