(* ===== verification/WalPages.v ===== *)
(** * WalPages: the iterator gives every page of the log once, with its newest frame

    [walIteratorInit] and [walIteratorNext] of WalIter on an index that holds a log
    ([index_holds] of WalIndexRefine). *)

From Stdlib Require Import Sorted.
From S2P Require Import Prelude CType ByteMem OsFile WalCksum WalIndex WalIndexRefine WalIter.

(** The pages that are still to come, each with its frame, until the iterator ends. *)
Fixpoint iter_pages (fuel : nat) (p : WalIterator) (s : Shm) : outcome (list (Z * Z)) :=
  match fuel with
  | O => UB
  | S fuel =>
      '(fin, iDbpage, iFrame, p) ← walIteratorNext p 0 s;
      if negb (fin =? 0) then Done [] else rest ← iter_pages fuel p s; Done ((iDbpage, iFrame) :: rest)
  end.

Lemma elem_ld r i : 0 <= i < len r -> r.[i] ∈ r.
Proof. intros Hi. destruct (lookup_lt_is_Some_2 r (Z.to_nat i) ltac:(lia)) as [x Hx]. unfold ld. rewrite nth_lookup, Hx. by eapply list_elem_of_lookup_2. Qed.

Lemma ld_elem v r : v ∈ r -> exists i, 0 <= i < len r /\ r.[i] = v.
Proof.
  intros [i Hi]%list_elem_of_lookup. exists (Z.of_nat i). pose proof (lookup_lt_Some _ _ _ Hi). split; [lia|].
  unfold ld. by rewrite nth_lookup, Nat2Z.id, Hi.
Qed.

Lemma sorted_ld (c : Z -> Z) r : StronglySorted (fun a b => c a < c b) r -> forall i k, 0 <= i < k -> k < len r -> c r.[i] < c r.[k].
Proof.
  induction 1 as [|x r Hs IH Hx]; intros i k Hi Hk; cbn [length] in Hk; [lia|].
  assert (forall j, 0 < j -> (x :: r).[j] = r.[j - 1]) as Sh by (intros j ?; unfold ld; by replace (Z.to_nat j) with (S (Z.to_nat (j - 1))) by lia).
  rewrite (Sh k) by lia. destruct (decide (i = 0)) as [->|].
  - rewrite Forall_forall in Hx. apply Hx. apply elem_ld. lia.
  - rewrite (Sh i) by lia. apply IH; lia.
Qed.

(** The pages above [P] that are still in the log bound the number of steps. *)
Lemma filter_shrinks (P P' : Z) l : P < P' -> P' ∈ l -> (length (filter (fun x => P' < x)%Z l) < length (filter (fun x => P < x)%Z l))%nat.
Proof.
  intros HP. assert (forall l, length (filter (fun x => P' < x)%Z l) <= length (filter (fun x => P < x)%Z l))%nat as Hle.
  { clear l. induction l as [|x l IH]; [done|]. rewrite !filter_cons. repeat case_decide; cbn; lia. }
  induction l as [|x l IH]; intros Hin; [set_solver|]. specialize (Hle l). rewrite !filter_cons.
  apply elem_of_cons in Hin as [<-|Hin]; [|specialize (IH Hin)]; repeat case_decide; cbn; lia.
Qed.

Section pages.
Context (log : list Z) (N h0 : Z).
Hypothesis HN : 1 <= N <= len log /\ N < 2 ^ 31.
Hypothesis Hpages : Forall (fun p => 0 < p < 0xFFFFFFFF) log.
Hypothesis Hh0 : 0 <= h0.

Let hN : Z := walFramePage N.

(** Frames on page [h] up to [N], and their pages by index. *)
Definition seg_count (h : Z) : Z := Z.min (page_cap h) (N - page_zero h).
Definition content (h j : Z) : Z := log.[page_zero h + j].

(** A segment of the iterator: its entries sorted, those before [iNext] not above [P]. *)
Record segment_ok (h P : Z) (g : WalSegment) : Prop := {
  so_loc : seg_loc g = loc_of h;
  so_zero : seg_iZero g = page_zero h + 1;
  so_entries : exists r, nEntry g = len r /\ slice (aIndex g) 0 r /\
    StronglySorted (fun a b => content h a < content h b) r /\
    (forall v, v ∈ r <-> 0 <= v < seg_count h /\ forall u, v < u < seg_count h -> content h u <> content h v) /\
    0 <= iNext g <= len r /\ forall i, 0 <= i < iNext g -> content h r.[i] <= P
}.

Definition segments_ok (P : Z) (segs : list WalSegment) : Prop :=
  len segs = hN + 1 /\ forall h, 0 <= h <= hN -> exists g, segs !! Z.to_nat h = Some g /\
    (h < h0 -> nEntry g = 0 /\ iNext g = 0) /\ (h0 <= h -> segment_ok h P g).

Lemma hN_range : 0 <= hN < 2 ^ 20 /\ page_zero hN < N <= page_zero hN + page_cap hN.
Proof. destruct (walFramePage_spec N ltac:(lia)) as (R & Z1 & Z2). specialize (Z2 ltac:(lia)). unfold hN. lia. Qed.

Lemma seg_count_pos h : 0 <= h <= hN -> 1 <= seg_count h <= page_cap h.
Proof.
  intros Hh. pose proof hN_range. destruct (page_numbers h ltac:(lia)) as (_ & ? & _). unfold seg_count.
  destruct (decide (h = hN)) as [->|]; [lia|]. pose proof (page_order h hN ltac:(lia) ltac:(lia)). lia.
Qed.

(** The frames of the segments are the frames behind [page_zero h0]. *)
Lemma frame_segment f : page_zero h0 < f <= N -> h0 <= walFramePage f <= hN /\
  0 <= f - 1 - page_zero (walFramePage f) < seg_count (walFramePage f) /\ content (walFramePage f) (f - 1 - page_zero (walFramePage f)) = log.[f - 1].
Proof.
  intros Hf. destruct (page_numbers h0 Hh0) as (_ & Pc & Pz & _). destruct (walFramePage_spec f ltac:(lia)) as (R & Z1 & Z2). specialize (Z2 ltac:(lia)).
  pose proof hN_range. set (h := walFramePage f) in *. split; [split|].
  - destruct (Z.lt_ge_cases h h0); [|done]. pose proof (page_order h h0 ltac:(lia) ltac:(lia)). lia.
  - destruct (Z.lt_ge_cases hN h); [|done]. pose proof (page_order hN h ltac:(lia) ltac:(lia)). lia.
  - unfold seg_count, content. split; [lia|]. f_equal. lia.
Qed.

Lemma segment_frame h j : h0 <= h <= hN -> 0 <= j < seg_count h ->
  page_zero h0 < page_zero h + 1 + j <= N /\ content h j = log.[page_zero h + 1 + j - 1] /\ walFramePage (page_zero h + 1 + j) = h.
Proof.
  intros Hh Hj. unfold seg_count, content in *. destruct (page_numbers h ltac:(lia)) as (_ & Pc & Pz & _).
  assert (page_zero h0 <= page_zero h).
  { destruct (decide (h0 = h)) as [->|]; [done|]. pose proof (page_order h0 h ltac:(lia) ltac:(lia)). destruct (page_numbers h0 Hh0) as (_ & ? & _). lia. }
  split; [lia|]. split; [f_equal; lia|].
  destruct (walFramePage_spec (page_zero h + 1 + j) ltac:(lia)) as (R & Z1 & Z2). apply (page_unique _ _ (page_zero h + 1 + j)); lia.
Qed.

Lemma log_page f : 1 <= f <= N -> 0 < log.[f - 1] < 0xFFFFFFFF.
Proof.
  intros Hf. destruct (lookup_lt_is_Some_2 log (Z.to_nat (f - 1)) ltac:(lia)) as [x Hx]. unfold ld. rewrite nth_lookup, Hx. cbn.
  apply (proj1 (Forall_lookup _ _) Hpages _ _ Hx).
Qed.

(** ** One segment *)

Lemma on_page_content s h : 0 <= h <= hN -> index_holds s log ->
  exists pg, s_pages s !! Z.to_nat h = Some pg /\ page_base h + page_cap h = len (wi_words pg) /\
    forall j, 0 <= j < seg_count h -> (wi_words pg).[page_base h + j] = content h j.
Proof.
  intros Hh Hs. pose proof (seg_count_pos h Hh) as Hc. pose proof hN_range. destruct (page_numbers h ltac:(lia)) as (Pb & Pc & Pz & _ & _ & Pbc).
  assert (page_zero h < N) by (unfold seg_count in Hc; lia).
  destruct (Hs h ltac:(lia) ltac:(lia)) as (l & (pg & Hpg & T) & Hpre). exists pg. split; [done|].
  split; [rewrite (t_words _ _ _ T); change HASHTABLE_NPAGE with 4096; lia|]. intros j Hj.
  rewrite (t_pgno _ _ _ T) by (change HASHTABLE_NPAGE with 4096; lia). unfold content.
  pose proof (prefix_length _ _ Hpre) as Hpl. pose proof (seg_length h log ltac:(lia)) as Ls. unfold seg_count in *.
  destruct Hpre as [k ->]. unfold ld at 1. rewrite nth_lookup, lookup_app_l by lia. rewrite <- nth_lookup.
  change (nth _ _ 0) with ((seg h log).[j]). apply seg_ld; lia.
Qed.

(** Sortedness depends only on the content of the elements. *)
Lemma sorted_ext (c c' : Z -> Z) r : (forall v, v ∈ r -> c v = c' v) -> StronglySorted (fun a b => c a < c b) r -> StronglySorted (fun a b => c' a < c' b) r.
Proof.
  intros E. induction 1 as [|x r Hs IH Hx]; [constructor|]. constructor; [apply IH; intros v Hv; apply E; by right|].
  rewrite Forall_forall in Hx |- *. intros y Hy. rewrite <- !E by (by left || by right). by apply Hx.
Qed.

Lemma init_segment_ok s h : h0 <= h <= hN -> index_holds s log ->
  exists g, init_segment (hN + 1) N h (loc_of h) s = Done g /\ segment_ok h 0 g.
Proof.
  intros Hh Hs. destruct (on_page_content s h ltac:(lia) Hs) as (pg & Hpg & Hlen & Hc).
  pose proof (seg_count_pos h ltac:(lia)) as Hcnt. pose proof hN_range as HhN. destruct (page_numbers h ltac:(lia)) as (Pb & Pc & Pz & _ & _ & Pbc).
  assert ((if h + 1 =? hN + 1 then i32 (u32 (N - iZero (loc_of h))) else HASHTABLE_NPAGE - hl_base (loc_of h)) = seg_count h) as En.
  { cbn [iZero hl_base loc_of]. change HASHTABLE_NPAGE with 4096. unfold seg_count. destruct (Z.eqb_spec (h + 1) (hN + 1)) as [E|E].
    - assert (h = hN) as -> by lia. rewrite u32_id by lia. rewrite Z.min_r by lia. apply swrap_id; unfold in_i; lia.
    - pose proof (page_order h hN ltac:(lia) ltac:(lia)). lia. }
  unfold init_segment. rewrite En. cbn [iZero hl_base loc_of]. unfold seg_count in Hcnt. rewrite (proj2 (Z.leb_le _ _)) by (unfold seg_count; lia). cbn [negb].
  rewrite (get_page_ok _ _ pg Hpg). cbn [mbind outcome_bind].
  destruct (@walMergesort_ok (wi_words pg) (page_base h) (if HASHTABLE_NPAGE <? N then HASHTABLE_NPAGE else N) (page_cap h) ltac:(lia) (seg_count h)) as (aL & r & -> & (Ss & _ & M) & Sl & _).
  { unfold seg_count. lia. }
  { unfold seg_count. lia. }
  { change HASHTABLE_NPAGE with 4096. unfold seg_count. destruct (Z.ltb_spec 4096 N); lia. }
  cbn [mbind outcome_bind]. eexists. split; [done|].
  assert (forall v, v ∈ r -> 0 <= v < seg_count h) as Hr by (intros v Hv%M; apply Hv).
  split; cbn; [done|done|]. exists r. split; [done|]. split; [done|]. split; [|split; [|split; [lia|intros; lia]]].
  - eapply sorted_ext; [|exact Ss]. intros v Hv. apply Hc. by apply Hr.
  - intros v. rewrite M. split; intros [Hv Hn]; (split; [done|]); intros u Hu.
    + rewrite <- !Hc by lia. by apply Hn.
    + rewrite !Hc by lia. by apply Hn.
Qed.

(** ** All the segments *)

(** The segments made so far: those of the pages from [h0] to before [h]. *)
Definition segments_upto (h : Z) (segs : list WalSegment) : Prop :=
  len segs = hN + 1 /\ forall i, 0 <= i <= hN -> exists g, segs !! Z.to_nat i = Some g /\
    (i < h0 \/ h <= i -> g = segment_empty) /\ (h0 <= i < h -> segment_ok i 0 g).

Lemma init_loop_ok : forall n h w s segs, h0 <= h -> h + Z.of_nat n = hN + 1 -> mapping_ok w s -> index_holds s log -> segments_upto h segs ->
  exists rc segs' w' s', init_loop n (hN + 1) N h w s segs = Done (rc, segs', w', s') /\ mapping_ok w' s' /\ remap w s w' s' /\
    (w_vfs w = [] -> rc = SQLITE_OK) /\ (rc = SQLITE_OK -> segments_upto (hN + 1) segs').
Proof.
  induction n as [|n IH]; intros h w s segs Hh Hn Hm Hs Hg; cbn [init_loop].
  { exists SQLITE_OK, segs, w, s. split; [done|]. split; [done|]. split; [apply remap_refl|]. split; [done|]. intros _. by replace (hN + 1) with h by lia. }
  pose proof hN_range as HhN. destruct (walHashGet_ok w h s Hm ltac:(lia)) as (rc & w1 & s1 & -> & Hm1 & Hr & _ & Hv).
  destruct (on_page_content s h ltac:(lia) Hs) as (pg & Hpg%lookup_lt_Some & _ & _). pose proof (holds_remap _ _ _ _ _ Hr Hs) as Hs1.
  destruct (Z.eqb_spec rc SQLITE_OK) as [->|Hrc]; cbn [negb].
  2: { exists rc, segs, w1, s1. split; [done|]. split; [done|]. split; [done|]. split; [|done]. intros E. apply Hv; [done|right; lia]. }
  destruct (init_segment_ok s1 h ltac:(lia) Hs1) as (g & -> & Hgok). cbn [mbind outcome_bind].
  destruct (IH (h + 1) w1 s1 (<[Z.to_nat h := g]> segs)) as (rc' & segs' & w' & s' & E & Hm' & Hr' & Hv' & Hf); try lia; try done.
  - destruct Hg as [Hl Hg]. split; [by rewrite length_insert|]. intros i Hi. destruct (decide (i = h)) as [->|Hne].
    + exists g. rewrite list_lookup_insert_eq by lia. split; [done|]. split; [lia|done].
    + destruct (Hg i Hi) as (g' & Hg' & He & Ho). exists g'. rewrite list_lookup_insert_ne by lia. split; [done|].
      split; intros ?; [apply He|apply Ho]; lia.
  - exists rc', segs', w', s'. split; [done|]. split; [done|]. split; [by eapply remap_trans|]. split; [|done].
    intros Ev. apply Hv'. by apply Hr.
Qed.

(** ** Taking the next page *)

(** Of the contents above [P] the entry at [iNext] has the least. *)
Lemma segment_least h P r i : StronglySorted (fun a b => content h a < content h b) r ->
  (forall v, v ∈ r <-> 0 <= v < seg_count h /\ forall u, v < u < seg_count h -> content h u <> content h v) ->
  0 <= i <= len r -> (forall k, 0 <= k < i -> content h r.[k] <= P) -> forall j, 0 <= j < seg_count h -> P < content h j ->
  i < len r /\ content h r.[i] <= content h j.
Proof.
  intros So M Hi Hlow j Hj HP. destruct (last_with (content h) 0 (seg_count h) j Hj) as (v & Hv & E & Hn).
  destruct (ld_elem v r) as (k & Hk & Ek). { apply M. split; [lia|]. intros u Hu. rewrite E. by apply Hn. }
  assert (i <= k) as Hik. { destruct (Z.lt_ge_cases k i) as [Hki|]; [|done]. specialize (Hlow k ltac:(lia)). rewrite Ek, E in Hlow. lia. }
  split; [lia|]. rewrite <- E, <- Ek. destruct (decide (i = k)) as [->|]; [lia|]. pose proof (sorted_ld (content h) r So i k ltac:(lia) ltac:(lia)). lia.
Qed.

Lemma segment_next_ok h P pg : 0 <= h <= hN -> (forall j, 0 <= j < seg_count h -> (wi_words pg).[page_base h + j] = content h j) ->
  page_base h + page_cap h = len (wi_words pg) -> forall fuel g, segment_ok h P g -> nEntry g - iNext g <= Z.of_nat fuel ->
  exists found g', segment_next fuel g pg P = Done (found, g') /\ segment_ok h P g' /\
    match found with
    | None => forall j, 0 <= j < seg_count h -> content h j <= P
    | Some p => P < p /\ (forall j, 0 <= j < seg_count h -> P < content h j -> p <= content h j) /\
        exists v, rd (aIndex g') (iNext g') = Done v /\ 0 <= v < seg_count h /\ content h v = p /\ forall u, v < u < seg_count h -> content h u <> p
    end.
Proof.
  intros Hh Hc Hlen. pose proof (seg_count_pos h ltac:(lia)) as Hcnt. destruct (page_numbers h ltac:(lia)) as (Pb & _).
  induction fuel as [|fuel IH]; intros g Hg Hf; pose proof Hg as [Hl Hz (r & En & Sr & So & M & Hi & Hlow)]; cbn [segment_next]; rewrite En in *.
  - rewrite (proj2 (Z.ltb_ge _ _)) by lia. exists None, g. split; [done|]. split; [done|]. intros j Hj.
    destruct (Z.le_gt_cases (content h j) P); [done|]. destruct (segment_least h P r (iNext g) So M Hi Hlow j Hj); lia.
  - destruct (Z.ltb_spec (iNext g) (len r)) as [Hlt|Hge]; cbn [negb].
    2: { exists None, g. split; [done|]. split; [done|]. intros j Hj.
         destruct (Z.le_gt_cases (content h j) P); [done|]. destruct (segment_least h P r (iNext g) So M Hi Hlow j Hj); lia. }
    pose proof Sr as (_ & Hal & Hrd). pose proof (elem_ld r (iNext g) ltac:(lia)) as [Hv Hn]%M.
    assert (rd (aIndex g) (iNext g) = Done r.[iNext g]) as Er by (rewrite rd_ok by lia; by rewrite <- (Hrd (iNext g)) by lia).
    rewrite Er. cbn [mbind outcome_bind]. unfold rd_pgno. rewrite Hl. cbn [hl_base loc_of]. rewrite rd_ok by lia.
    cbn [mbind outcome_bind]. rewrite Hc by lia. destruct (Z.ltb_spec P (content h r.[iNext g])) as [HP|HP].
    + exists (Some (content h r.[iNext g])), g. split; [done|]. split; [done|]. split; [done|]. split; [|by exists r.[iNext g]].
      intros j Hj HPj. apply (segment_least h P r (iNext g)); done.
    + rewrite <- Hl. apply IH; [|cbn; lia]. split; cbn; [done|done|]. exists r. split; [done|]. split; [done|]. split; [done|]. split; [done|].
      split; [lia|]. intros i Hii. destruct (decide (i = iNext g)) as [->|]; [done|apply Hlow; lia].
Qed.

(** Frame [f] is the newest one of page [p], of those behind [page_zero h0]. *)
Definition newest (p f : Z) : Prop := page_zero h0 < f <= N /\ log.[f - 1] = p /\ forall u, f < u <= N -> log.[u - 1] <> p.

(** [iRet] is the least page above [P] of the frames on the pages from [n] on, or 0xFFFFFFFF. *)
Definition least_from (n P iRet fr : Z) : Prop :=
  (forall f, page_zero h0 < f <= N -> n <= walFramePage f -> P < log.[f - 1] -> iRet <= log.[f - 1]) /\
  (iRet = 0xFFFFFFFF \/ P < iRet < 0xFFFFFFFF /\ newest iRet fr).

(** An entry of a segment is its page's newest frame if the page is in no later segment. *)
Lemma newest_entry h v p iRet fr P : h0 <= h <= hN -> 0 <= v < seg_count h -> content h v = p -> (forall u, v < u < seg_count h -> content h u <> p) ->
  least_from (h + 1) P iRet fr -> P < p < iRet -> newest p (page_zero h + 1 + v).
Proof.
  intros Hh Hv Ev Hn [Hle _] Hp. destruct (segment_frame h v Hh Hv) as (Hf & E & Ew). split; [done|]. split; [congruence|].
  intros u Hu Eu. destruct (frame_segment u ltac:(lia)) as (Hw & Hj & Ec).
  destruct (decide (walFramePage u = h)) as [Eh|Ne].
  - rewrite Eh in *. apply (Hn (u - 1 - page_zero h)); [lia|congruence].
  - assert (h < walFramePage u) as Hlt.
    { destruct (Z.lt_ge_cases (walFramePage u) h) as [Hlt|]; [|lia]. pose proof (page_order (walFramePage u) h ltac:(lia) ltac:(lia)).
      destruct (page_numbers (walFramePage u) ltac:(lia)) as (_ & ? & _). unfold seg_count in Hj. lia. }
    specialize (Hle u ltac:(lia) ltac:(lia) ltac:(lia)). lia.
Qed.

(** The frames on page [h] and behind it. *)
Lemma least_split h (Q : Z -> Prop) : h0 <= h <= hN -> (forall j, 0 <= j < seg_count h -> Q (content h j)) ->
  (forall f, page_zero h0 < f <= N -> h + 1 <= walFramePage f -> Q log.[f - 1]) ->
  forall f, page_zero h0 < f <= N -> h <= walFramePage f -> Q log.[f - 1].
Proof.
  intros Hh Hq Hl f Hf Hw. destruct (decide (walFramePage f = h)) as [<-|]; [|apply Hl; lia].
  destruct (frame_segment f Hf) as (_ & Hj & <-). by apply Hq.
Qed.

Lemma least_none h P iRet fr : h0 <= h <= hN -> (forall j, 0 <= j < seg_count h -> content h j <= P) -> least_from (h + 1) P iRet fr -> least_from h P iRet fr.
Proof.
  intros Hh Hn [Hl Hr]. split; [|done]. apply (least_split h (fun x => P < x -> iRet <= x)); [done| |done].
  intros j Hj. specialize (Hn j Hj). lia.
Qed.

Lemma least_keep h P p iRet fr : h0 <= h <= hN -> (forall j, 0 <= j < seg_count h -> P < content h j -> p <= content h j) -> iRet <= p ->
  least_from (h + 1) P iRet fr -> least_from h P iRet fr.
Proof.
  intros Hh Hn Hp [Hl Hr]. split; [|done]. apply (least_split h (fun x => P < x -> iRet <= x)); [done| |done].
  intros j Hj Hx. specialize (Hn j Hj Hx). lia.
Qed.

Lemma least_new h P p iRet fr v : h0 <= h <= hN -> P < p < iRet -> (forall j, 0 <= j < seg_count h -> P < content h j -> p <= content h j) ->
  0 <= v < seg_count h -> content h v = p -> (forall u, v < u < seg_count h -> content h u <> p) ->
  least_from (h + 1) P iRet fr -> least_from h P p (page_zero h + 1 + v).
Proof.
  intros Hh Hp Hle Hv Ev Hn Hr. split; [apply (least_split h (fun x => P < x -> p <= x)); [done|done|]|right; split].
  - intros f Hf Hw Hx. destruct Hr as [Hl _]. specialize (Hl f Hf Hw Hx). lia.
  - destruct (segment_frame h v Hh Hv) as (Hf & E & _). pose proof (log_page (page_zero h + 1 + v) ltac:(destruct (page_numbers h0 Hh0) as (_ & _ & ? & _); lia)). lia.
  - by eapply newest_entry.
Qed.

Lemma next_loop_ok s P : index_holds s log -> 0 <= P -> forall n segs iRet fr, Z.of_nat n <= hN + 1 -> segments_ok P segs -> least_from (Z.of_nat n) P iRet fr ->
  exists iRet' fr' segs', next_loop n segs s P iRet fr = Done (iRet', fr', segs') /\ segments_ok P segs' /\ least_from 0 P iRet' fr'.
Proof.
  intros Hs HP. induction n as [|n IH]; intros segs iRet fr Hn Hg Hr; cbn [next_loop]; [by exists iRet, fr, segs|].
  pose proof Hg as [Hlen Hgs]. destruct (Hgs (Z.of_nat n) ltac:(lia)) as (g & Eg & Hlo & Hhi). rewrite Nat2Z.id in Eg. rewrite Eg.
  destruct (Z.lt_ge_cases (Z.of_nat n) h0) as [Hlt|Hge].
  - destruct (Hlo Hlt) as [E0 E1]. rewrite E0. assert (segment_next (Z.to_nat 0) g zero_page P = Done (None, g)) as Esn by (destruct g; cbn in *; by subst).
    cbn [Z.eqb mbind outcome_bind]. rewrite Esn. cbn [mbind outcome_bind]. apply IH; [lia| |].
    + by rewrite list_insert_id.
    + destruct Hr as [Hr Hr']. split; [|done]. intros f Hf Hw. apply Hr; [done|]. destruct (frame_segment f Hf). lia.
  - specialize (Hhi Hge). destruct (on_page_content s (Z.of_nat n) ltac:(lia) Hs) as (pg & Hpg & Hpl & Hc).
    pose proof Hhi as [Hl Hz (r & En & Sr & So & M & Hi & Hlow)].
    assert ((if nEntry g =? 0 then Done zero_page else get_page s (seg_loc g)) = Done pg \/ nEntry g = 0) as [->|H0].
    { destruct (Z.eqb_spec (nEntry g) 0); [by right|left]. rewrite Hl. by apply get_page_ok. }
    2: { exfalso. pose proof (seg_count_pos (Z.of_nat n) ltac:(lia)). destruct (last_with (content (Z.of_nat n)) 0 (seg_count (Z.of_nat n)) 0 ltac:(lia)) as (v & Hv & E & Hv').
         assert (v ∈ r) as [k Hk]%ld_elem by (apply M; split; [lia|]; intros u Hu; rewrite E; by apply Hv'). lia. }
    cbn [mbind outcome_bind]. destruct (segment_next_ok (Z.of_nat n) P pg ltac:(lia) Hc ltac:(lia) (Z.to_nat (nEntry g)) g Hhi ltac:(lia)) as (found & g' & -> & Hg' & Hfound).
    cbn [mbind outcome_bind].
    assert (segments_ok P (<[n:=g']> segs)) as Hgs'.
    { split; [by rewrite length_insert|]. intros i Hi'. destruct (decide (i = Z.of_nat n)) as [->|Hne].
      - exists g'. rewrite Nat2Z.id, list_lookup_insert_eq by lia. split; [done|]. split; [lia|done].
      - rewrite list_lookup_insert_ne by lia. by apply Hgs. }
    assert (least_from (Z.of_nat n + 1) P iRet fr) as Hr1 by by replace (Z.of_nat n + 1) with (Z.of_nat (S n)) by lia.
    destruct found as [p|].
    2: { apply IH; [lia|done|]. apply least_none; done || lia. }
    destruct Hfound as (Hp & Hle & v & Er & Hv & Ev & Hvn). destruct (Z.ltb_spec p iRet) as [Hlt|Hnl].
    2: { apply IH; [lia|done|]. apply (least_keep _ _ p); done || lia. }
    rewrite Er. cbn [mbind outcome_bind]. apply IH; [lia|done|]. destruct Hg' as [_ -> _].
    rewrite u32_id by (destruct (segment_frame (Z.of_nat n) v ltac:(lia) Hv); destruct (page_numbers h0 Hh0) as (_ & _ & ? & _); lia). apply (least_new _ _ _ iRet fr); done || lia.
Qed.

Lemma segment_ok_mono h P P' g : P <= P' -> segment_ok h P g -> segment_ok h P' g.
Proof.
  intros HP [Hl Hz (r & ? & ? & ? & ? & ? & Hlow)]. split; [done|done|]. exists r. split; [done|]. split; [done|]. split; [done|]. split; [done|].
  split; [done|]. intros i Hi. specialize (Hlow i Hi). lia.
Qed.

Lemma segments_ok_mono P P' segs : P <= P' -> segments_ok P segs -> segments_ok P' segs.
Proof.
  intros HP [Hl Hg]. split; [done|]. intros h Hh. destruct (Hg h Hh) as (g & ? & ? & Ho). exists g. split; [done|]. split; [done|].
  intros Hge. eapply segment_ok_mono; [exact HP|by apply Ho].
Qed.

(** The next page is the least one above the last, with its newest frame. *)
Lemma walIteratorNext_ok s p fr0 : index_holds s log -> 0 <= iPrior p -> segments_ok (iPrior p) (aSegment p) ->
  exists fin pg fr p', walIteratorNext p fr0 s = Done (fin, pg, fr, p') /\ iPrior p' = pg /\ segments_ok (iPrior p) (aSegment p') /\
    (fin = 0 \/ fin = 1) /\ (fin = 1 -> forall f, page_zero h0 < f <= N -> log.[f - 1] <= iPrior p) /\
    (fin = 0 -> iPrior p < pg < 0xFFFFFFFF /\ newest pg fr /\ forall f, page_zero h0 < f <= N -> iPrior p < log.[f - 1] -> pg <= log.[f - 1]).
Proof.
  intros Hs HP Hg. unfold walIteratorNext. pose proof Hg as [Hlen _].
  destruct (next_loop_ok s (iPrior p) Hs HP (length (aSegment p)) (aSegment p) 0xFFFFFFFF fr0) as (iRet & fr & segs & -> & Hg' & Hl & Hr); [lia|done| |].
  { split; [|by left]. intros f Hf Hw. pose proof (frame_segment f Hf). lia. }
  cbn [mbind outcome_bind]. exists (b2i (iRet =? 0xFFFFFFFF)), iRet, fr, (mk_iterator iRet segs). split; [done|]. split; [done|]. split; [done|].
  assert (forall f, page_zero h0 < f <= N -> 0 <= walFramePage f) as Hw by (intros f Hf; destruct (frame_segment f Hf); pose proof Hh0; lia).
  destruct (Z.eqb_spec iRet 0xFFFFFFFF) as [->|Hne].
  - split; [by right|]. split; [|done]. intros _ f Hf. destruct (Z.le_gt_cases (log.[f - 1]) (iPrior p)); [done|]. specialize (Hl f Hf (Hw f Hf) ltac:(lia)).
    pose proof (log_page f ltac:(destruct (page_numbers h0 Hh0) as (_ & _ & ? & _); lia)). lia.
  - split; [by left|]. split; [done|]. intros _. destruct Hr as [|[Hr Hn]]; [done|]. split; [done|]. split; [done|]. intros f Hf. apply Hl; auto.
Qed.

Lemma iter_pages_ok s : index_holds s log -> forall fuel p, (length (filter (fun x => iPrior p < x)%Z (take (Z.to_nat N) log)) < fuel)%nat -> 0 <= iPrior p -> segments_ok (iPrior p) (aSegment p) ->
  exists l, iter_pages fuel p s = Done l /\ StronglySorted (fun a b => fst a < fst b) l /\ forall pg fr, (pg, fr) ∈ l <-> iPrior p < pg /\ newest pg fr.
Proof.
  intros Hs. induction fuel as [|fuel IH]; intros p Hf HP Hg; [lia|]. cbn [iter_pages].
  destruct (walIteratorNext_ok s p 0 Hs HP Hg) as (fin & pg & fr & p' & -> & Ep & Hg' & Hfin & H1 & H0). cbn [mbind outcome_bind].
  destruct Hfin as [-> | ->]; cbn [Z.eqb negb].
  - destruct (H0 eq_refl) as (Hpg & Hn & Hle). destruct (IH p') as (l & -> & Sl & Ml).
    + rewrite Ep. assert (pg ∈ take (Z.to_nat N) log) as Hin; [|pose proof (filter_shrinks (iPrior p) pg _ ltac:(lia) Hin); lia].
      destruct Hn as (Hfr & <- & _). destruct (page_numbers h0 Hh0) as (_ & _ & ? & _).
      replace (log.[fr - 1]) with ((take (Z.to_nat N) log).[fr - 1]) by (rewrite ld_firstn by lia; by rewrite decide_True by lia). apply elem_ld. rewrite length_take. lia.
    + lia.
    + rewrite Ep. eapply segments_ok_mono; [|exact Hg']. lia.
    + cbn [mbind outcome_bind]. exists ((pg, fr) :: l). split; [done|]. rewrite Ep in Ml. split.
      * constructor; [done|]. apply Forall_forall. intros [pg' fr'] [Hlt _]%Ml. done.
      * intros pg' fr'. rewrite elem_of_cons, Ml. split.
        -- intros [[= -> ->]|[Hlt Hn']]; [split; [lia|done]|split; [lia|done]].
        -- intros [Hlt Hn']. destruct (Z.eq_dec pg' pg) as [->|Hne].
           ++ left. f_equal. destruct Hn as (F1 & E1 & N1), Hn' as (F2 & E2 & N2). destruct (Z.lt_trichotomy fr' fr) as [Hl|[Hl|Hl]]; [|done|].
              ** destruct (N2 fr); [lia|done].
              ** destruct (N1 fr'); [lia|done].
           ++ right. split; [|done]. destruct Hn' as (F2 & <- & _). specialize (Hle fr' F2 ltac:(lia)). lia.
  - exists []. split; [done|]. split; [constructor|]. intros pg' fr'. split; [by intros ?%elem_of_nil|]. intros [Hlt (Hf' & <- & _)].
    specialize (H1 eq_refl fr' Hf'). lia.
Qed.
End pages.

(** * The theorem *)

(** A new iterator: none of its pages has been given. *)
Lemma walIteratorInit_ok log w s nBackfill : mapping_ok w s -> index_holds s log -> 1 <= mxFrame (hdr w) <= len log -> mxFrame (hdr w) < 2 ^ 31 ->
  0 <= nBackfill < mxFrame (hdr w) ->
  exists (rc : Z) (pIter : option WalIterator) (w' : Wal) (s' : Shm), walIteratorInit true true nBackfill w s = Done (rc, pIter, w', s') /\ mapping_ok w' s' /\ remap w s w' s' /\ (w_vfs w = [] -> rc = SQLITE_OK) /\
    match pIter with
    | None => rc <> SQLITE_OK
    | Some p => rc = SQLITE_OK /\ iPrior p = 0 /\ segments_ok log (mxFrame (hdr w)) (walFramePage (nBackfill + 1)) 0 (aSegment p)
    end.
Proof.
  intros Hm Hs Hmx Hb Hn. set (N := mxFrame (hdr w)) in *. set (h0 := walFramePage (nBackfill + 1)).
  destruct (walFramePage_spec (nBackfill + 1) ltac:(lia)) as (Hh0 & Z1 & Z2). specialize (Z2 ltac:(lia)). fold h0 in Hh0, Z1, Z2.
  destruct (walFramePage_spec N ltac:(lia)) as (HhN & Y1 & Y2). specialize (Y2 ltac:(lia)).
  assert (h0 <= walFramePage N) as Hle.
  { destruct (Z.lt_ge_cases (walFramePage N) h0); [|done]. pose proof (page_order (walFramePage N) h0 ltac:(lia) ltac:(lia)). lia. }
  unfold walIteratorInit. cbn [negb]. fold N. rewrite u32_id by lia. fold h0.
  destruct (init_loop_ok log N h0 (conj Hmx Hb) (proj1 Hh0) (Z.to_nat (walFramePage N + 1 - h0)) h0 w s (replicate (Z.to_nat (walFramePage N + 1)) segment_empty))
    as (rc & segs & w' & s' & -> & Hm' & Hr & Hv & Hsegs); [lia|lia|done|done| |].
  { split; [rewrite length_replicate; lia|]. intros i Hi. exists segment_empty. rewrite lookup_replicate_2 by lia. split; [done|]. split; [done|lia]. }
  cbn [mbind outcome_bind]. eexists rc, _, w', s'. split; [done|]. split; [done|]. split; [done|]. split; [done|].
  destruct (Z.eqb_spec rc SQLITE_OK) as [->|Hrc]; [|done]. split; [done|]. split; [done|]. cbn [aSegment].
  destruct (Hsegs eq_refl) as [Hl Hg]. split; [done|]. intros h Hh. destruct (Hg h Hh) as (g & Eg & He & Ho). exists g. split; [done|].
  split; [|intros; apply Ho; lia]. intros Hlt. by rewrite He by lia.
Qed.

(** The iterator of a new checkpoint and all its pages. *)
Definition iterate (nBackfill : Z) (w : Wal) (s : Shm) : outcome (Z * list (Z * Z)) :=
  '(rc, p, w, s) ← walIteratorInit true true nBackfill w s;
  match p with
  | None => Done (rc, [])
  | Some p => l ← iter_pages (S (Z.to_nat (mxFrame (hdr w)))) p s; Done (rc, l)
  end.

Lemma iterate_ok log w s nBackfill : mapping_ok w s -> index_holds s log -> 1 <= mxFrame (hdr w) <= len log -> mxFrame (hdr w) < 2 ^ 31 ->
  Forall (fun p => 0 < p < 0xFFFFFFFF) log -> 0 <= nBackfill < mxFrame (hdr w) ->
  exists rc l, iterate nBackfill w s = Done (rc, l) /\ (w_vfs w = [] -> rc = SQLITE_OK) /\
    (rc = SQLITE_OK -> StronglySorted (fun a b => fst a < fst b) l /\
       forall pg fr, (pg, fr) ∈ l <-> newest log (mxFrame (hdr w)) (walFramePage (nBackfill + 1)) pg fr).
Proof.
  intros Hm Hs Hmx Hb Hp Hn. destruct (walIteratorInit_ok log w s nBackfill Hm Hs Hmx Hb Hn) as (rc & pIter & w' & s' & E & Hm' & Hr & Hv & Hit).
  set (N := mxFrame (hdr w)) in *. set (h0 := walFramePage (nBackfill + 1)) in *. unfold iterate. rewrite E. cbn [mbind outcome_bind].
  destruct (walFramePage_spec (nBackfill + 1) ltac:(lia)) as (Hh0 & _ & _). fold h0 in Hh0.
  destruct pIter as [p|]; [|by exists rc, []]. destruct Hit as (-> & Ep & Hsegs).
  destruct (iter_pages_ok log N h0 (conj Hmx Hb) Hp (proj1 Hh0) s' (holds_remap _ _ _ _ _ Hr Hs) (S (Z.to_nat N)) p) as (l & El & Sl & Ml).
  - pose proof (length_filter (fun x => iPrior p < x)%Z (take (Z.to_nat N) log)). rewrite length_take in *. lia.
  - lia.
  - by rewrite Ep.
  - assert (mxFrame (hdr w') = N) as -> by (destruct Hr as ((m & v & ro & ->) & _); done). rewrite El. cbn [mbind outcome_bind].
    exists SQLITE_OK, l. split; [done|]. split; [done|]. intros _. split; [done|]. intros pg fr. rewrite Ml, Ep. split; [by intros [_ ?]|].
    intros Hnw. split; [|done]. destruct Hnw as (Hf & <- & _).
    destruct (page_numbers h0 (proj1 Hh0)) as (_ & _ & ? & _). by destruct (log_page log N (conj Hmx Hb) Hp fr ltac:(lia)).
Qed.

(** C15. [walIteratorInit] and [walIteratorNext]: on a wal-index that the log's writer has built (any run of frames, rollbacks and savepoints),
    the iterator of a checkpoint never accesses a page out of its bounds, gives each page number of the frames behind [nBackfill] exactly once, in ascending order,
    each with its newest frame up to [mxFrame], and ends. *)
Theorem wal_iterates_newest w s a nBackfill : wal_reach w s a -> Forall (fun p => p < 0xFFFFFFFF) (log_frames a) -> 0 <= nBackfill < mxFrame (hdr w) ->
  exists rc l, iterate nBackfill w s = Done (rc, l) /\ (w_vfs w = [] -> rc = SQLITE_OK) /\
    (rc = SQLITE_OK ->
       StronglySorted (fun a b => fst a < fst b) l /\
       (forall pg fr, (pg, fr) ∈ l -> last_frame (log_frames a) pg 0 (mxFrame (hdr w)) = fr) /\
       (forall f, nBackfill < f <= mxFrame (hdr w) -> exists fr, ((log_frames a).[f - 1], fr) ∈ l)).
Proof.
  intros Hreach Hp Hn. destruct (wal_reach_rel w s a Hreach) as [Hw Hmx _ Hb].
  destruct (iterate_ok (log_frames a) w s nBackfill) as (rc & l & E & Hv & Hok); [apply Hw|apply Hw|lia|lia| |done|].
  { apply Forall_forall. intros p Hin. pose proof (proj1 (Forall_forall _ _) (wr_pages _ _ _ Hw) p Hin). pose proof (proj1 (Forall_forall _ _) Hp p Hin). cbn in *. lia. }
  exists rc, l. split; [done|]. split; [done|]. intros Hrc. destruct (Hok Hrc) as [Sl Ml]. split; [done|]. split.
  - intros pg fr (Hf & Ef & Hnw)%Ml. destruct (page_numbers _ (proj1 (proj1 (walFramePage_spec (nBackfill + 1) ltac:(lia))))) as (_ & _ & ? & _).
    apply last_frame_is; [lia| |right; split; [lia|split; [lia|done]]]. intros g Hg _ Eg. destruct (Z.lt_ge_cases fr g); [|done]. by destruct (Hnw g ltac:(lia)).
  - intros f Hf. destruct (last_with (fun x => (log_frames a).[x - 1]) 0 (mxFrame (hdr w) + 1) f ltac:(lia)) as (fr & Hfr & E' & Hl).
    exists fr. apply Ml. destruct (walFramePage_spec (nBackfill + 1) ltac:(lia)) as (_ & _ & Z2). specialize (Z2 ltac:(lia)).
    split; [lia|]. split; [done|]. intros u Hu. apply Hl. lia.
Qed.

Lemma wal_iterates_newest_witness : exists w s a, wal_reach w s a /\ log_frames a = [7; 390; 7; 5] /\
  exists l, iterate 1 w s = Done (SQLITE_OK, l) /\ l = [(5, 4); (7, 3); (390, 2)] /\ forall f, 1 < f <= 4 -> exists fr, ([7; 390; 7; 5].[f - 1], fr) ∈ l.
Proof.
  assert (exists w s, wal_step (OpFrames [7; 390; 7; 5] 4096 9 true) (wal0 0 true) shm0 = Done (SQLITE_OK, w, s) /\
    mxFrame (hdr w) = 4 /\ iterate 1 w s = Done (SQLITE_OK, [(5, 4); (7, 3); (390, 2)])) as (w & s & E & Em & Ei).
  { eexists _, _. split; [vm_compute; reflexivity|]. split; vm_compute; reflexivity. }
  assert (op_ok (OpFrames [7; 390; 7; 5] 4096 9 true) (wal0 0 true) (mk_log [] [])) as Hop by (split; [repeat constructor; lia|cbn; lia]).
  pose proof (wr_step _ _ _ _ _ _ _ (wr_start _ _ wal0_start) Hop E) as R.
  eexists w, s, _. split; [exact R|]. split; [reflexivity|]. eexists. split; [exact Ei|]. split; [done|].
  destruct (wal_iterates_newest _ _ _ 1 R) as (rc & l & Ei' & _ & Hok); [repeat constructor; lia|lia|].
  rewrite Ei in Ei'. injection Ei' as <- <-. rewrite Em in Hok. by apply Hok.
Defined.
