(* ===== verification/WalRecover.v ===== *)
(** * WalRecover: recovery of the index (sqlite3.c, wal.c)

    [walIndexRecover] rebuilds the index from the bytes of the log.  The meaning of those
    bytes is [log_frames_of]: the valid frames behind a valid header; what counts is
    [upto_commit], the frames up to the last commit.

    The frames of one page of the index are entered in private memory, which takes the
    place of the page in [apWiData] meanwhile; [aPrivate] is that memory, with what
    [sqlite3_malloc64] left in it, or [None] if there is none. *)

From S2P Require Import Prelude Varint CType ByteMem OsFile WalCksum WalIndex WalFrame WalLock WalIndexRefine.

Definition SQLITE_MAX_PAGE_SIZE : Z := 65536.

Definition hdr_zero : WalIndexHdr := mk_hdr 0 0 0 0 0 0 0 (0, 0) (replicate 8 0) (0, 0).
Definition log_hdr (h : WalIndexHdr) (bigEnd : Z) (salt : bytes) : WalIndexHdr :=
  mk_hdr (iVersion h) (iChange h) (isInit h) bigEnd (h_szPage h) (mxFrame h) (nPage h) (aFrameCksum h) salt (aCksum h).
Definition with_ckpt (s : Shm) (c : WalCkptInfo) : Shm := mk_shm (s_hdr0 s) (s_hdr1 s) c (s_pages s).

(** ** The header of the log *)

(** The code, and the page size when there are frames to read. *)
Definition recover_header (w : Wal) (aBuf : bytes) : outcome (Z * option Z * Wal) :=
  magic ← get4byte aBuf 0;
  v ← get4byte aBuf 8;
  let szPage := i32 v in
  if negb (magic .& 0xFFFFFFFE =? WAL_MAGIC) then Done (SQLITE_OK, None, w)
  else if szPage =? - 2 ^ 31 then UB
  else if negb (szPage .& (szPage - 1) =? 0) || (SQLITE_MAX_PAGE_SIZE <? szPage) || (szPage <? 512) then Done (SQLITE_OK, None, w)
  else
    ck ← get4byte aBuf 12;
    match blk_read aBuf 16 8 with
    | None => UB
    | Some salt =>
        let w := with_hdr (with_log w szPage ck) (log_hdr (hdr w) (magic .& 1) salt) in
        aCksum ← walChecksumBytes (bigEndCksum (hdr w) =? SQLITE_BIGENDIAN) aBuf (WAL_HDRSIZE - 2 * 4) None;
        let w := with_cksum w aCksum in
        c0 ← get4byte aBuf 24; c1 ← get4byte aBuf 28;
        if negb (fst aCksum =? c0) || negb (snd aCksum =? c1) then Done (SQLITE_OK, None, w)
        else
          version ← get4byte aBuf 4;
          Done (if negb (version =? WAL_MAX_VERSION) then (SQLITE_CANTOPEN, None, w) else (SQLITE_OK, Some szPage, w))
    end.

Section recover.
Context {F L : Type} `{OsFile F} `{ShmLocks L}.

(** ** The frames

    The frames from [iFrame] on, [n] of them at most: the code, the frame at which the loop
    ended, and the checksum of the last commit. *)
Fixpoint recover_frames (n : nat) (rc szPage iFrame : Z) (w : Wal) (s : Shm) (fd : F) (cks : Z * Z) : outcome (Z * Z * Wal * Shm * F * (Z * Z)) :=
  match n with
  | O => Done (rc, iFrame, w, s, fd, cks)
  | S n =>
      let '(rc, aFrame, fd) := sqlite3OsRead fd (szPage + WAL_FRAME_HDRSIZE) (walFrameOffset iFrame szPage) in
      if negb (rc =? SQLITE_OK) then Done (rc, iFrame, w, s, fd, cks)
      else
        '(isValid, w) ← walDecodeFrame w (drop (Z.to_nat WAL_FRAME_HDRSIZE) aFrame) aFrame;
        match isValid with
        | None => Done (rc, iFrame, w, s, fd, cks)
        | Some (pgno, nTruncate) =>
            '(rc, w, s) ← walIndexAppend w iFrame pgno s;
            if negb (rc =? SQLITE_OK) then Done (rc, iFrame, w, s, fd, cks)
            else if negb (nTruncate =? 0) then
              let w := with_hdr w (set_frames (hdr w) (u16 ((szPage .& 0xff00) .| (szPage >> 16))) iFrame (iChange (hdr w)) nTruncate) in
              recover_frames n rc szPage (u32 (iFrame + 1)) w s fd (aFrameCksum (hdr w))
            else recover_frames n rc szPage (u32 (iFrame + 1)) w s fd cks
        end
  end.

(** The private copy is copied back, but for the headers of the first page. *)
Definition copy_private (nHdr32 : Z) (aShare aPrivate : WiPage) : WiPage :=
  mk_wipage (take (Z.to_nat nHdr32) (wi_words aShare) ++ drop (Z.to_nat nHdr32) (wi_words aPrivate)) (wi_slots aPrivate).

(** The pages of the index from [iPg] on, [n] of them. *)
Fixpoint recover_pages (n : nat) (rc szPage iLastFrame iPg : Z) (aPrivate : WiPage) (w : Wal) (s : Shm) (fd : F) (cks : Z * Z) : outcome (Z * Wal * Shm * F * (Z * Z)) :=
  match n with
  | O => Done (rc, w, s, fd, cks)
  | S n =>
      let iLast := u32 (Z.min iLastFrame (HASHTABLE_NPAGE_ONE + u32 (iPg * HASHTABLE_NPAGE))) in
      let iFirst := u32 (1 + if iPg =? 0 then 0 else HASHTABLE_NPAGE_ONE + u32 (u32 (iPg - 1) * HASHTABLE_NPAGE)) in
      let '(rc, w, s) := walIndexPage w iPg s in
      if negb (bool_decide (iPg ∈ w_mapped w)) then Done (rc, w, s, fd, cks)
      else
        let loc := mk_loc iPg 0 0 in
        aShare ← get_page s loc;
        '(rc, iFrame, w, s, fd, cks) ← recover_frames (Z.to_nat (iLast + 1 - iFirst)) rc szPage iFirst w (put_page s loc aPrivate) fd cks;
        aPrivate ← get_page s loc;
        let nHdr := if iPg =? 0 then WALINDEX_HDR_SIZE else 0 in
        let s := put_page s loc (copy_private (nHdr / 4) aShare aPrivate) in
        if iFrame <=? iLast then Done (rc, w, s, fd, cks)
        else recover_pages n rc szPage iLastFrame (u32 (iPg + 1)) aPrivate w s fd cks
  end.

(** Up to the label [finished]. *)
Definition recover_log (aPrivate : option WiPage) (nSize : Z) (w : Wal) (s : Shm) (fd : F) : outcome (Z * Wal * Shm * F * (Z * Z)) :=
  if negb (WAL_HDRSIZE <? nSize) then Done (SQLITE_OK, w, s, fd, (0, 0))
  else
    let '(rc, aBuf, fd) := sqlite3OsRead fd WAL_HDRSIZE 0 in
    if negb (rc =? SQLITE_OK) then Done (rc, w, s, fd, (0, 0))
    else
      '(rc, szPage, w) ← recover_header w aBuf;
      match szPage with
      | None => Done (rc, w, s, fd, (0, 0))
      | Some szPage =>
          match aPrivate with
          | None => Done (SQLITE_NOMEM, w, s, fd, (0, 0))
          | Some aPrivate =>
              let iLastFrame := u32 ((nSize - WAL_HDRSIZE) / (szPage + WAL_FRAME_HDRSIZE)) in
              recover_pages (Z.to_nat (u32 (walFramePage iLastFrame) + 1)) rc szPage iLastFrame 0 aPrivate w s fd (0, 0)
          end
      end.

Definition recover_read (aPrivate : option WiPage) (w : Wal) (s : Shm) (fd : F) : outcome (Z * Wal * Shm * F * (Z * Z)) :=
  let '(rc, nSize, fd) := sqlite3OsFileSize fd in
  if negb (rc =? SQLITE_OK) then Done (rc, w, s, fd, (0, 0)) else recover_log aPrivate nSize w s fd.

(** ** The end: the header, and the marks of the readers *)

(** The marks from [i] on, [n] of them; a mark whose lock is taken stays as it is. *)
Fixpoint reset_marks (n : nat) (i rc : Z) (w : Wal) (marks : list Z) (l : L) : Z * list Z * L :=
  match n with
  | O => (rc, marks, l)
  | S n =>
      let '(rc, l) := walLockExclusive w (WAL_READ_LOCK i) 1 l in
      if rc =? SQLITE_OK then
        let marks := <[Z.to_nat i := if (i =? 1) && negb (mxFrame (hdr w) =? 0) then mxFrame (hdr w) else READMARK_NOT_USED]> marks in
        reset_marks n (i + 1) rc w marks (walUnlockExclusive w (WAL_READ_LOCK i) 1 l)
      else if negb (rc =? SQLITE_BUSY) then (rc, marks, l)
      else reset_marks n (i + 1) rc w marks l
  end.

Definition recover_finish (rc : Z) (cks : Z * Z) (w : Wal) (s : Shm) (l : L) : outcome (Z * Wal * Shm * L) :=
  if negb (rc =? SQLITE_OK) then Done (rc, w, s, l)
  else
    '(w, s) ← walIndexWriteHdr (with_cksum w cks) s;
    let marks := <[0%nat := 0]> (aReadMark (s_ckpt s)) in
    let '(rc, marks, l) := reset_marks (Z.to_nat (WAL_NREADER - 1)) 1 rc w marks l in
    Done (rc, w, with_ckpt s (mk_ckpt 0 marks (mxFrame (hdr w))), l).

Definition walIndexRecover (aPrivate : option WiPage) (w : Wal) (s : Shm) (fd : F) (l : L) : outcome (Z * Wal * Shm * F * L) :=
  let iLock := WAL_ALL_BUT_WRITE + (if ckptLock w then 1 else 0) in
  let '(rc, l) := walLockExclusive w iLock (WAL_READ_LOCK 0 - iLock) l in
  if negb (rc =? SQLITE_OK) then Done (rc, w, s, fd, l)
  else
    '(rc, w, s, fd, cks) ← recover_read aPrivate (with_hdr w hdr_zero) s fd;
    '(rc, w, s, l) ← recover_finish rc cks w s l;
    Done (rc, w, s, fd, walUnlockExclusive w iLock (WAL_READ_LOCK 0 - iLock) l).
End recover.

(** * The meaning of the bytes of a log *)

(** The byte order of the checksums, the salt, the page size and the checksum of a valid header. *)
Definition log_header (d : bytes) : option (bool * bytes * Z * (Z * Z)) :=
  let native := be32 d 0 mod 2 =? 0 in
  let szPage := be32 d 8 in
  let c := cksum_of native d 24 (0, 0) in
  if (32 <? len d) && (be32 d 0 .& 0xFFFFFFFE =? WAL_MAGIC) && ((512 <=? szPage) && (szPage <=? 65536) && (szPage .& (szPage - 1) =? 0)) &&
     (be32 d 24 =? fst c) && (be32 d 28 =? snd c)
  then Some (native, sub d 16 8, szPage, c) else None.

Definition log_frames_of (d : bytes) : list Frame :=
  match log_header d with
  | Some (native, salt, szPage, c) => valid_frames (Z.to_nat ((len d - 32) / (24 + szPage))) native salt szPage c (drop 32 d)
  | None => []
  end.

(** The frames up to the last commit. *)
Fixpoint upto_commit (fs : list Frame) : list Frame :=
  match fs with
  | [] => []
  | f :: fs => match upto_commit fs with [] => if f_trunc f =? 0 then [] else [f] | l => f :: l end
  end.

(** ** Commits *)

Lemma upto_commit_snoc fs f : upto_commit (fs ++ [f]) = if f_trunc f =? 0 then upto_commit fs else fs ++ [f].
Proof.
  induction fs as [|g fs IH]; cbn [app upto_commit]; [by destruct (f_trunc f =? 0)|]. rewrite IH. destruct (f_trunc f =? 0); [done|]. by destruct fs.
Qed.

Lemma upto_commit_take fs : exists n, upto_commit fs = take n fs /\ (n <= length fs)%nat.
Proof.
  induction fs as [|f fs (n & E & Hn)]; [by exists 0%nat|]. cbn [upto_commit]. destruct (upto_commit fs) as [|g l] eqn:Eu.
  - destruct (f_trunc f =? 0); [exists 0%nat|exists 1%nat]; cbn; (split; [|lia]); [done|by rewrite take_0].
  - exists (S n). cbn. rewrite <- E. split; [done|lia].
Qed.

(** The size of the database and the checksum after the frames [fs]. *)
Definition commit_size (fs : list Frame) : Z := match last fs with Some f => f_trunc f | None => 0 end.

(** ** Private copies of a page *)

Lemma on_page_copy s h h' l pg pg' : 0 <= h -> wi_slots pg' = wi_slots pg -> length (wi_words pg') = length (wi_words pg) ->
  (forall i, page_base h <= i -> (wi_words pg').[i] = (wi_words pg).[i]) ->
  0 <= h' -> on_page (put_page s (loc_of h) pg) h' l -> on_page (put_page s (loc_of h) pg') h' l.
Proof.
  intros Hh Es El Ew Hh' (q & Hq & T). cbn [put_page with_pages s_pages loc_of hl_page] in Hq.
  apply list_lookup_insert_Some in Hq as [(Ei & -> & Hlt)|[Hne Hq]].
  - assert (h' = h) as -> by lia. exists pg'. split; [cbn; by apply list_lookup_insert_eq|]. destruct T. split; rewrite ?Es; try done; [by rewrite El|].
    intros i Hi Hb. rewrite Ew by lia. by apply t_pgno.
  - exists q. split; [cbn; by rewrite list_lookup_insert_ne|done].
Qed.

Lemma appender_copy w s log h pg pg' : 0 <= h -> page_wf pg' -> wi_slots pg' = wi_slots pg -> length (wi_words pg') = length (wi_words pg) ->
  (forall i, page_base h <= i -> (wi_words pg').[i] = (wi_words pg).[i]) ->
  appender_ok w (put_page s (loc_of h) pg) log -> appender_ok w (put_page s (loc_of h) pg') log.
Proof.
  intros Hh Hwf Es El Ew [[Hm Hp] Hho Hl Hmx Hex Hpos]. split; try done.
  - rewrite <- (put_page_twice s h pg pg'). by apply put_page_mapping.
  - intros k Hk Hz. destruct (Hho k Hk Hz) as (l & Hon & Hpre). exists l. split; [|done]. by eapply on_page_copy.
  - destruct Hex as [|Hex]; [by left|right]. intros k Hk Hz Hc. by eapply on_page_copy, Hex.
Qed.

(** A page behind the log may hold anything. *)
Lemma appender_private w s log h pg : 0 <= h -> page_wf pg -> len log <= page_zero h ->
  appender_ok w s log -> appender_ok w (put_page s (loc_of h) pg) log.
Proof.
  intros Hh Hwf Hz [Hm Hho Hl Hmx Hex Hpos]. split; try done.
  - by apply put_page_mapping.
  - intros k Hk Hk'. destruct (Hho k Hk Hk') as (l & Hon & Hpre). exists l. split; [|done]. apply put_page_other; [done..|intros ->; lia|done].
  - destruct Hex as [|Hex]; [by left|right]. intros k Hk Hk' Hc. apply put_page_other; [done..|intros ->; lia|by apply Hex].
Qed.

Lemma copy_private_ok h aShare aPrivate : 0 <= h -> page_wf aShare -> page_wf aPrivate ->
  let pg := copy_private (page_base h) aShare aPrivate in
  page_wf pg /\ wi_slots pg = wi_slots aPrivate /\ length (wi_words pg) = length (wi_words aPrivate) /\
  (forall i, page_base h <= i -> (wi_words pg).[i] = (wi_words aPrivate).[i]).
Proof.
  intros Hh [S1 S2] [P1 P2] pg. destruct (page_numbers h Hh) as (? & ? & _). change (Z.to_nat HASHTABLE_NPAGE) with 4096%nat in *.
  assert (length (wi_words pg) = 4096%nat) as Lp by (cbn; rewrite length_app, length_take, length_drop; lia).
  split; [by split|]. split; [done|]. split; [by rewrite Lp|]. intros i Hi. unfold pg, copy_private. cbn [wi_words].
  assert (len (take (Z.to_nat (page_base h)) (wi_words aShare)) = page_base h) as L by (rewrite length_take; lia).
  rewrite ld_app_r by lia. rewrite ld_drop by lia. f_equal. lia.
Qed.

(** ** The frames of a log *)

Lemma first_frame_take native salt szPage s d n : 0 <= szPage -> n = Z.to_nat (24 + szPage) -> 24 + szPage <= len d ->
  first_frame native salt szPage s (take n d) = first_frame native salt szPage s d.
Proof.
  intros Hs -> Hl. unfold first_frame. set (n := Z.to_nat (24 + szPage)).
  assert (forall p, 0 <= p -> p + 4 <= 24 -> be32 (take n d) p = be32 d p) as B by (intros p Hp Hp'; unfold be32, n; by rewrite !ld_take by lia).
  assert (forall o k, 0 <= o -> 0 <= k -> o + k <= 24 + szPage -> sub (take n d) o k = sub d o k) as S.
  { intros o k Ho Hk Hok. unfold sub. rewrite skipn_firstn_comm, take_take. f_equal. lia. }
  rewrite !B, !S by lia. rewrite length_take, Nat.min_l by lia. rewrite (proj2 (Z.leb_le (24 + szPage) (Z.of_nat n))) by lia. by rewrite (proj2 (Z.leb_le _ _)).
Qed.

Lemma first_frame_ok native salt szPage s d f : page_size_ok szPage -> bytes_ok d -> first_frame native salt szPage s d = Some f -> frame_ok szPage f.
Proof. intros Hs Hd E. pose proof (valid_frames_ok native salt szPage Hs 1 s d Hd) as V. cbn [valid_frames] in V. rewrite E in V. by inversion V. Qed.

Section frames.
Context {F : Type} `{OsFileLaws F}.
Context (native : bool) (salt : bytes) (szP : Z) (c0 : Z * Z) (d : bytes).
Hypothesis Hsalt : len salt = 8 /\ bytes_ok salt.
Hypothesis Hsize : page_size_ok szP.
Hypothesis Hc0 : cksum_range c0.
Hypothesis Hd : bytes_ok d /\ 32 < len d < 2 ^ 40.
Hypothesis Hbig : 512 <= szP.

Local Abbreviation nF := ((len d - 32) / (24 + szP)).
Local Abbreviation cks_of := (log_cksum native szP c0).

(** The valid frames behind the frames [fs]. *)
Definition rest (fs : list Frame) : list Frame :=
  valid_frames (Z.to_nat nF - length fs) native salt szP (cks_of fs) (drop (Z.to_nat (32 + len fs * (24 + szP))) d).

Lemma nF_bound : 0 <= nF < 2 ^ 31.
Proof.
  destruct Hd as [_ Hl], Hsize as [Hs _]. split; [apply Z.div_pos; lia|]. apply Z.div_lt_upper_bound; [lia|].
  apply Z.lt_le_trans with (2 ^ 31 * 536); [lia|]. nia.
Qed.

Lemma frame_fits k : 0 <= k < nF -> 32 + k * (24 + szP) + (24 + szP) <= len d.
Proof. intros Hk. destruct Hsize as [Hs _]. pose proof (Z.mul_div_le (len d - 32) (24 + szP) ltac:(lia)). nia. Qed.

Lemma rest_step fs buf : len fs < nF -> buf = sub d (32 + len fs * (24 + szP)) (24 + szP) ->
  rest fs = match first_frame native salt szP (cks_of fs) buf with Some f => f :: rest (fs ++ [f]) | None => [] end.
Proof.
  intros Hl ->. pose proof (frame_fits (len fs) ltac:(lia)) as Hfit. destruct Hsize as [Hs _]. unfold rest, sub.
  replace (Z.to_nat nF - length fs)%nat with (S (Z.to_nat nF - (length fs + 1))) by lia. cbn [valid_frames].
  rewrite first_frame_take by (rewrite ?length_drop; lia).
  destruct (first_frame native salt szP (cks_of fs) _) as [f|]; [|done]. f_equal. rewrite length_app. cbn [length]. f_equal.
  - unfold log_cksum. by rewrite fold_left_app.
  - rewrite drop_drop. f_equal. lia.
Qed.

(** What the loops keep: the index holds the frames [fs], the header the last commit. *)
Record rec_inv (w : Wal) (s : Shm) (fs : list Frame) (cks : Z * Z) : Prop := {
  ri_app : appender_ok w s (map f_pgno fs);
  ri_szPage : szPage w = szP;
  ri_native : wal_native w = native;
  ri_salt : wal_salt w = salt;
  ri_range : cksum_range (aFrameCksum (hdr w));
  ri_mx : mxFrame (hdr w) = len (upto_commit fs);
  ri_nPage : nPage (hdr w) = commit_size (upto_commit fs);
  ri_cks : cks = match upto_commit fs with [] => (0, 0) | cs => cks_of cs end;
  ri_frames : Forall (frame_ok szP) fs
}.

Lemma rec_inv_hdr w s fs cks h : rec_inv w s fs cks -> mxFrame h = mxFrame (hdr w) -> nPage h = nPage (hdr w) -> bigEndCksum h = bigEndCksum (hdr w) ->
  aSalt h = aSalt (hdr w) -> cksum_range (aFrameCksum h) -> rec_inv (with_hdr w h) s fs cks.
Proof.
  intros [Ha E1 E2 E3 Hr E4 E5 E6 Hf] M1 M2 M3 M4 Hc. split; try done.
  - destruct Ha as [[Hm Hp] Hho Hl Hmx Hex Hpos]. split; cbn [hdr with_hdr]; rewrite ?M1; done.
  - unfold wal_native. cbn [hdr with_hdr]. by rewrite M3.
  - unfold wal_salt. cbn [hdr with_hdr]. by rewrite M4.
  - cbn [hdr with_hdr]. by rewrite M1.
  - cbn [hdr with_hdr]. by rewrite M2.
Qed.

(** A frame that has been read and entered. *)
Lemma rec_inv_frame w s fs cks f pg h : rec_inv w s fs cks -> aFrameCksum (hdr w) = cks_of (fs ++ [f]) -> frame_ok szP f -> len fs + 1 < 2 ^ 31 ->
  appender_ok w (put_page s (loc_of h) pg) (map f_pgno (fs ++ [f])) ->
  let w' := if f_trunc f =? 0 then w else with_hdr w (set_frames (hdr w) (u16 ((szP .& 0xff00) .| (szP >> 16))) (len fs + 1) (iChange (hdr w)) (f_trunc f)) in
  rec_inv w' (put_page s (loc_of h) pg) (fs ++ [f]) (if f_trunc f =? 0 then cks else aFrameCksum (hdr w')) /\ aFrameCksum (hdr w') = cks_of (fs ++ [f]).
Proof.
  intros [Ha E1 E2 E3 Hr E4 E5 E6 Hf] Ec Hok Hb Ha' w'. pose proof (upto_commit_snoc fs f) as Hs. unfold w'.
  destruct (f_trunc f =? 0).
  - split; [|done]. split; rewrite ?Hs; try done. by apply Forall_app_2, Forall_singleton.
  - split; [|done]. destruct Ha' as [Hm Hho Hl Hmx Hex Hpos]. split; rewrite ?Hs; try done.
    + split; try done; cbn [hdr with_hdr set_frames mxFrame]; rewrite length_map, length_app; cbn [length]; [lia|left; lia].
    + cbn [hdr with_hdr set_frames mxFrame]. rewrite length_app. cbn [length]. lia.
    + cbn [hdr with_hdr set_frames nPage]. unfold commit_size. by rewrite last_snoc.
    + cbn [hdr with_hdr set_frames aFrameCksum]. rewrite Ec. by destruct fs.
    + by apply Forall_app_2, Forall_singleton.
Qed.
Lemma rec_inv_decode w s fs cks : rec_inv w s fs cks -> wal_frames_ok w.
Proof. intros []. split; [by rewrite ri_szPage0|by rewrite ri_salt0|done]. Qed.

(** The next frame: a failure of the file, or what the frame is. *)
Lemma read_frame_ok w s fs cks (fd : F) : rec_inv w s fs cks -> aFrameCksum (hdr w) = cks_of fs -> len fs < nF -> os_ok fd -> os_data fd = d ->
  exists rc buf fd', sqlite3OsRead fd (szP + WAL_FRAME_HDRSIZE) (walFrameOffset (len fs + 1) szP) = (rc, buf, fd') /\ os_ok fd' /\ os_data fd' = d /\
    (forall m, os_fine fd m -> os_fine fd' m /\ rc = SQLITE_OK) /\
    (rc = SQLITE_OK -> exists c, cksum_range c /\
       walDecodeFrame w (drop (Z.to_nat WAL_FRAME_HDRSIZE) buf) buf = Done ((fun f => (f_pgno f, f_trunc f)) <$> head (rest fs), with_cksum w c) /\
       match head (rest fs) with
       | Some f => frame_ok szP f /\ c = cks_of (fs ++ [f]) /\ rest fs = f :: rest (fs ++ [f])
       | None => rest fs = []
       end).
Proof.
  intros Hri Ec Hn Hok Hdata. pose proof nF_bound as HnF. destruct Hsize as [Hs1 Hs2]. destruct Hd as [Hbd Hld].
  pose proof (frame_fits (len fs) ltac:(lia)) as Hfit. unfold walFrameOffset. rewrite u32_id by lia.
  change WAL_HDRSIZE with 32. change WAL_FRAME_HDRSIZE with 24. replace (len fs + 1 - 1) with (len fs) by lia.
  replace (32 + len fs * (szP + 24)) with (32 + len fs * (24 + szP)) by lia. replace (szP + 24) with (24 + szP) by lia.
  set (off := 32 + len fs * (24 + szP)) in *. assert (0 <= off) as Hoff by (unfold off; nia).
  destruct (os_read fd (24 + szP) off Hok ltac:(lia) Hoff ltac:(lia)) as (rc1 & buf & fd1 & -> & Hok1 & Hd1 & Lb & Bb & Hbuf & Hfine).
  rewrite Hdata in Hbuf, Hfine, Hd1. exists rc1, buf, fd1. split; [done|]. split; [done|]. split; [done|].
  split; [intros m Hm; destruct (Hfine m Hm) as [? G]; split; [done|apply G; lia]|]. intros Hr. destruct (Hbuf Hr) as [_ Eb].
  pose proof (rec_inv_decode _ _ _ _ Hri) as Hwf. pose proof Hri as [_ E1 E2 E3 _ _ _ _ _].
  destruct (walDecodeFrame_ok w buf Hwf Bb ltac:(rewrite E1; lia)) as (c & Hc & Edec & Hcf). rewrite E1, E2, E3, Ec in Edec, Hcf.
  exists c. split; [done|]. change (Z.to_nat 24) with 24%nat. rewrite Edec, (rest_step fs buf ltac:(lia) Eb).
  destruct (first_frame native salt szP (cks_of fs) buf) as [f|] eqn:Ef; [|by split]. split; [done|]. cbn [head].
  split; [by eapply first_frame_ok; [exact Hsize|exact Bb|exact Ef]|]. split; [|done]. rewrite (Hcf f eq_refl). unfold log_cksum. by rewrite fold_left_app.
Qed.

(** The frames of one page: all of them, or up to the first one that is not valid or
    cannot be read. *)
Lemma recover_frames_ok n : forall rc w s (fd : F) fs cks h,
  rec_inv w s fs cks -> aFrameCksum (hdr w) = cks_of fs -> len fs + Z.of_nat n <= nF -> 0 <= h -> h ∈ w_mapped w ->
  (forall k, len fs < k <= len fs + Z.of_nat n -> walFramePage k = h) -> os_ok fd -> os_data fd = d ->
  exists rc' iF w' s' fd' cks' fs', recover_frames n rc szP (len fs + 1) w s fd cks = Done (rc', iF, w', s', fd', cks') /\
    rec_inv w' s' fs' cks' /\ (exists hd, w' = with_hdr w hd) /\ (s' = s \/ exists pg, page_wf pg /\ s' = put_page s (loc_of h) pg) /\
    os_ok fd' /\ os_data fd' = d /\ (forall m, os_fine fd m -> os_fine fd' m) /\
    (if iF <=? len fs + Z.of_nat n then (rc' = SQLITE_OK -> fs ++ rest fs = fs') /\ (forall m, os_fine fd m -> rc' = SQLITE_OK)
     else len fs' = len fs + Z.of_nat n /\ aFrameCksum (hdr w') = cks_of fs' /\ fs ++ rest fs = fs' ++ rest fs' /\
       rc' = (if (n =? 0)%nat then rc else SQLITE_OK)).
Proof.
  pose proof nF_bound as HnF.
  induction n as [|n IH]; intros rc w s fd fs cks h Hri Ec Hn Hh Hin Hpage Hok Hdata; cbn [recover_frames].
  { exists rc, (len fs + 1), w, s, fd, cks, fs. split; [done|]. split; [done|]. split; [exists (hdr w); by destruct w|]. split; [by left|].
    rewrite (proj2 (Z.leb_gt _ _)) by lia. by rewrite Z.add_0_r. }
  destruct (read_frame_ok w s fs cks fd Hri Ec ltac:(lia) Hok Hdata) as (rc1 & buf & fd1 & -> & Hok1 & Hd1 & Hfine & Hdec).
  assert (exists hd, w = with_hdr w hd) as Hself by (exists (hdr w); by destruct w).
  destruct (Z.eqb_spec rc1 SQLITE_OK) as [->|Hrc]; cbn [negb].
  2: { exists rc1, (len fs + 1), w, s, fd1, cks, fs. split; [done|]. split; [done|]. split; [done|]. split; [by left|]. split; [done|]. split; [done|].
       split; [intros m Hm; by apply Hfine|]. rewrite (proj2 (Z.leb_le _ _)) by lia. split; [done|]. intros m Hm. by apply (Hfine m). }
  destruct (Hdec eq_refl) as (c & Hc & -> & Hhead). cbn [mbind outcome_bind]. destruct (head (rest fs)) as [f|] eqn:Ef; cbn [fmap option_fmap option_map].
  2: { exists SQLITE_OK, (len fs + 1), (with_cksum w c), s, fd1, cks, fs. split; [done|]. split; [by apply rec_inv_hdr|]. split; [by eexists|]. split; [by left|]. split; [done|].
       split; [done|]. split; [intros m Hm; by apply Hfine|]. rewrite (proj2 (Z.leb_le _ _)) by lia. split; [|done]. intros _. by rewrite Hhead, app_nil_r. }
  destruct Hhead as (Hfok & Ec' & Hrest). assert (rec_inv (with_cksum w c) s fs cks) as Hri' by by apply rec_inv_hdr.
  assert (len (map f_pgno fs) = len fs) as Lm by (by rewrite length_map).
  pose proof (walIndexAppend_mapped (with_cksum w c) s (map f_pgno fs) (f_pgno f) (ri_app _ _ _ _ Hri')) as Happ. rewrite Lm in Happ.
  rewrite (Hpage (len fs + 1) ltac:(lia)) in Happ. destruct (Happ ltac:(lia) ltac:(apply Hfok) Hin) as (pg & E & Hpg & Ha').
  cbn zeta in E. rewrite E. cbn [mbind outcome_bind]. change (negb (SQLITE_OK =? SQLITE_OK)) with false. cbn iota.
  replace (map f_pgno fs ++ [f_pgno f]) with (map f_pgno (fs ++ [f])) in Ha' by by rewrite map_app.
  destruct (rec_inv_frame (with_cksum w c) s fs cks f pg h Hri' Ec' Hfok ltac:(lia) Ha') as [Hri2 Ec2].
  set (w2 := if f_trunc f =? 0 then with_cksum w c else _) in Hri2, Ec2.
  assert (exists hd, w2 = with_hdr w hd) as [hd2 Ew2] by (unfold w2; destruct (f_trunc f =? 0); by eexists).
  assert (len (fs ++ [f]) = len fs + 1) as Lf by (rewrite length_app; cbn; lia).
  destruct (IH SQLITE_OK w2 (put_page s (loc_of h) pg) fd1 (fs ++ [f]) _ h Hri2 Ec2 ltac:(lia) Hh ltac:(by rewrite Ew2) ltac:(intros k Hk; apply Hpage; lia) Hok1 Hd1)
    as (rc' & iF & w' & s' & fd' & cks' & fs' & Er & Hri3 & [hd3 Ew3] & Hs3 & Hok3 & Hd3 & Hfine3 & Hres).
  exists rc', iF, w', s', fd', cks', fs'. rewrite Lf in Er, Hres. rewrite u32_id by lia.
  split; [rewrite <- Er; unfold w2; by destruct (f_trunc f =? 0)|]. split; [done|]. split; [exists hd3; by rewrite Ew3, Ew2|].
  split; [right; destruct Hs3 as [->|(pg' & Hpg' & ->)]; [by exists pg|exists pg'; by rewrite put_page_twice]|].
  split; [done|]. split; [done|]. split; [intros m Hm; by apply Hfine3, Hfine|].
  rewrite Hrest. change (f :: rest (fs ++ [f])) with ([f] ++ rest (fs ++ [f])). rewrite app_assoc.
  replace (len fs + Z.of_nat (S n)) with (len fs + 1 + Z.of_nat n) by lia. destruct (iF <=? len fs + 1 + Z.of_nat n).
  - destruct Hres as [H1 H2]. split; [done|]. intros m Hm. apply (H2 m), Hfine, Hm.
  - destruct Hres as (H1 & H2 & H3 & H4). split; [done|]. split; [done|]. split; [done|]. cbn [Nat.eqb]. rewrite H4. by destruct n.
Qed.
(** ** The pages of the index *)

Definition rec_frame (w : Wal) (s : Shm) (w' : Wal) (s' : Shm) : Prop :=
  (exists m v ro hd, w' = with_hdr (with_mapped w m v ro) hd /\ w_mapped w ⊆ m) /\ (exists pages, s' = with_pages s pages).

Lemma rec_frame_trans w s w1 s1 w2 s2 : rec_frame w s w1 s1 -> rec_frame w1 s1 w2 s2 -> rec_frame w s w2 s2.
Proof.
  intros ((m & v & ro & hd & -> & Hm) & pages & ->) ((m' & v' & ro' & hd' & -> & Hm') & pages' & ->). split; [|by eexists].
  exists m', v', ro', hd'. split; [done|]. by etransitivity.
Qed.

(** A writer is not told that the shared memory is read-only. *)
Definition no_readonly (vfs : list Z) : Prop := Forall (fun rc => rc <> SQLITE_READONLY) vfs.

Lemma walIndexPage_answers w h s rc w' s' : walIndexPage w h s = (rc, w', s') -> writeLock w = true -> no_readonly (w_vfs w) ->
  no_readonly (w_vfs w') /\ (rc = SQLITE_OK -> h ∈ w_mapped w').
Proof.
  unfold walIndexPage, walIndexPageRealloc. intros E Hl Hv. case_bool_decide as Hin; [by injection E as <- <- <-|].
  set (a := match w_vfs w with [] => (SQLITE_OK, []) | rc :: vfs => (rc, vfs) end) in E.
  assert (fst a <> SQLITE_READONLY /\ no_readonly (snd a)) as [Ha Ha'] by (unfold a; destruct (w_vfs w); [split; [done|constructor]|by apply Forall_cons in Hv]).
  destruct a as [rc1 vfs]. cbn [fst snd] in Ha, Ha'. destruct (exclusiveMode w =? WAL_HEAPMEMORY_MODE).
  { destruct (rc1 =? SQLITE_OK); injection E as <- <- <-; (split; [done|]); [intros _; cbn; set_solver|done]. }
  destruct (Z.eqb_spec rc1 SQLITE_OK) as [->|Hrc].
  - rewrite Hl in E. injection E as <- <- <-. split; [done|]. intros _. cbn [s_pages with_pages w_mapped with_mapped].
    assert (h < len (extend_pages (s_pages s) h)) as L by (unfold extend_pages; rewrite length_app, length_replicate; lia).
    rewrite (proj2 (Z.ltb_lt _ _) L). set_solver.
  - rewrite (proj2 (Z.eqb_neq rc1 SQLITE_READONLY) Ha) in E. destruct (rc1 .& 0xff =? SQLITE_READONLY); injection E as <- <- <-; by split.
Qed.

Lemma rec_inv_app w s s' fs cks : rec_inv w s fs cks -> appender_ok w s' (map f_pgno fs) -> rec_inv w s' fs cks.
Proof. intros [] Ha. by split. Qed.

Lemma rec_inv_remap w s w' s' fs cks : rec_inv w s fs cks -> remap w s w' s' -> mapping_ok w' s' -> rec_inv w' s' fs cks.
Proof.
  intros [Ha E1 E2 E3 Hr E4 E5 E6 Hf] Hre Hm. pose proof (appender_remap _ _ _ _ _ Ha Hre Hm) as Ha'. destruct Hre as ((m & v & ro & ->) & _). by split.
Qed.

Lemma page_start iPg : 0 <= iPg -> iPg <= walFramePage nF -> page_zero iPg <= nF /\ iPg < 2 ^ 20.
Proof.
  pose proof nF_bound as HnF. intros G0 G1. destruct (walFramePage_spec nF HnF) as (R & [Z1 _] & _).
  destruct (decide (iPg = walFramePage nF)) as [->|Hne]; [lia|]. pose proof (page_order iPg (walFramePage nF) G0 ltac:(lia)). destruct (page_numbers iPg G0) as (_ & ? & _). lia.
Qed.

Lemma page_zero_next iPg : 0 <= iPg -> page_zero (iPg + 1) = page_zero iPg + page_cap iPg.
Proof.
  intros G0. destruct (page_numbers iPg G0) as (_ & _ & _ & -> & -> & _). destruct (page_numbers (iPg + 1) ltac:(lia)) as (_ & _ & _ & -> & _).
  rewrite (proj2 (Z.eqb_neq (iPg + 1) 0)) by lia. destruct (Z.eqb_spec iPg 0); lia.
Qed.

(** The bounds of a page as the loop computes them. *)
Lemma page_bounds iPg : 0 <= iPg -> iPg <= walFramePage nF ->
  u32 (Z.min nF (HASHTABLE_NPAGE_ONE + u32 (iPg * HASHTABLE_NPAGE))) = Z.min nF (page_zero iPg + page_cap iPg) /\
  u32 (1 + if iPg =? 0 then 0 else HASHTABLE_NPAGE_ONE + u32 (u32 (iPg - 1) * HASHTABLE_NPAGE)) = page_zero iPg + 1.
Proof.
  intros G0 G1. pose proof nF_bound as HnF. destruct (page_start iPg G0 G1) as [Hz Hp]. destruct (page_numbers iPg G0) as (_ & _ & _ & Ez & Ec & _).
  change HASHTABLE_NPAGE_ONE with 4062. change HASHTABLE_NPAGE with 4096. rewrite Ez, Ec in *. destruct (Z.eqb_spec iPg 0) as [->|Hn].
  - rewrite (u32_id (0 * 4096)) by lia. rewrite !u32_id by lia. split; [f_equal|]; lia.
  - rewrite (u32_id (iPg - 1)), (u32_id (iPg * 4096)) by lia. rewrite (u32_id ((iPg - 1) * 4096)) by lia. rewrite !u32_id by lia. split; [f_equal|]; lia.
Qed.

(** One page: mapped, filled in private, and copied back. *)
Lemma recover_page_ok iPg rc w s (fd : F) fs cks priv aShare : rec_inv w s fs cks -> aFrameCksum (hdr w) = cks_of fs -> 0 <= iPg -> iPg <= walFramePage nF ->
  len fs = page_zero iPg -> page_wf priv -> os_ok fd -> os_data fd = d -> iPg ∈ w_mapped w -> s_pages s !! Z.to_nat iPg = Some aShare ->
  let iLast := Z.min nF (page_zero iPg + page_cap iPg) in
  exists rc' iF w' s' fd' cks' fs' priv', recover_frames (Z.to_nat (iLast + 1 - (page_zero iPg + 1))) rc szP (page_zero iPg + 1) w (put_page s (loc_of iPg) priv) fd cks = Done (rc', iF, w', s', fd', cks') /\
    get_page s' (loc_of iPg) = Done priv' /\ page_wf priv' /\
    (exists s2, put_page s' (loc_of iPg) (copy_private (page_base iPg) aShare priv') = s2 /\ rec_inv w' s2 fs' cks' /\ rec_frame w s w' s2 /\ w_vfs w' = w_vfs w) /\
    os_ok fd' /\ os_data fd' = d /\ (forall m, os_fine fd m -> os_fine fd' m) /\
    (if iF <=? iLast then (rc' = SQLITE_OK -> fs ++ rest fs = fs') /\ (forall m, os_fine fd m -> rc' = SQLITE_OK)
     else len fs' = iLast /\ aFrameCksum (hdr w') = cks_of fs' /\ fs ++ rest fs = fs' ++ rest fs' /\ (rc = SQLITE_OK -> rc' = SQLITE_OK)).
Proof.
  intros Hri Ec G0 G1 Hl Hwp Hok Hdata Hin Hsh iLast. pose proof nF_bound as HnF. destruct (page_start iPg G0 G1) as [Hz Hp20].
  destruct (page_numbers iPg G0) as (_ & Hcap & Hz0 & _). pose proof (ri_app _ _ _ _ Hri) as Ha. destruct (ap_map _ _ _ Ha) as [Hm Hpg].
  pose proof (Hm iPg Hin) as Hrange. pose proof (proj1 (Forall_lookup _ _) Hpg _ _ Hsh) as Hshwf.
  assert (rec_inv w (put_page s (loc_of iPg) priv) fs cks) as Hri1.
  { eapply rec_inv_app; [done|]. apply appender_private; [done|done|rewrite length_map; lia|done]. }
  set (n := Z.to_nat (iLast + 1 - (page_zero iPg + 1))). assert (len fs + Z.of_nat n = iLast) as En by (unfold n, iLast; lia).
  destruct (recover_frames_ok n rc w (put_page s (loc_of iPg) priv) fd fs cks iPg Hri1 Ec ltac:(unfold iLast in *; lia) G0 Hin) as
    (rc' & iF & w' & s' & fd' & cks' & fs' & E & Hri2 & [hd Ew] & Hs' & Hok' & Hd' & Hfine & Hres); [|done|done|].
  { intros k Hk. destruct (walFramePage_spec k ltac:(unfold iLast in *; lia)) as (R & Z1 & Z2). apply (page_unique _ _ k); unfold iLast in *; lia. }
  assert (exists pg, page_wf pg /\ s' = put_page s (loc_of iPg) pg) as (pg & Hpgwf & ->).
  { destruct Hs' as [->|(pg & Hpgwf & ->)]; [by exists priv|exists pg; by rewrite put_page_twice]. }
  rewrite Hl in E. exists rc', iF, w', (put_page s (loc_of iPg) pg), fd', cks', fs', pg. split; [done|]. split; [by apply get_page_ok, lookup_put_page|]. split; [done|].
  destruct (copy_private_ok iPg aShare pg G0 Hshwf Hpgwf) as (C1 & C2 & C3 & C4). split.
  { eexists. split; [done|]. rewrite put_page_twice. split; [eapply rec_inv_app; [done|]; by eapply appender_copy, Hri2|]. subst w'. split; [|done]. split; [|by eexists].
    exists (w_mapped w), (w_vfs w), (readOnly w), hd. by destruct w. }
  split; [done|]. split; [done|]. split; [done|]. rewrite En in Hres. destruct (iF <=? iLast); [done|]. destruct Hres as (R1 & R2 & R3 & R4).
  split; [done|]. split; [done|]. split; [done|]. rewrite R4. intros ->. by destruct (n =? 0)%nat.
Qed.
Lemma recover_pages_ok n : forall iPg rc w s (fd : F) fs cks priv,
  rec_inv w s fs cks -> aFrameCksum (hdr w) = cks_of fs -> iPg + Z.of_nat n = walFramePage nF + 1 -> 0 <= iPg -> len fs = Z.min nF (page_zero iPg) ->
  page_wf priv -> no_readonly (w_vfs w) -> os_ok fd -> os_data fd = d ->
  exists rc' w' s' fd' cks' fs', recover_pages n rc szP nF iPg priv w s fd cks = Done (rc', w', s', fd', cks') /\
    rec_inv w' s' fs' cks' /\ rec_frame w s w' s' /\ os_ok fd' /\ os_data fd' = d /\ (forall m, os_fine fd m -> os_fine fd' m) /\
    (rc' = SQLITE_OK -> fs ++ rest fs = fs') /\ (w_vfs w = [] -> rc = SQLITE_OK -> forall m, os_fine fd m -> rc' = SQLITE_OK).
Proof.
  pose proof nF_bound as HnF. induction n as [|n IH]; intros iPg rc w s fd fs cks priv Hri Ec Hn G0 Hl Hwp Hro Hok Hdata; cbn [recover_pages].
  { exists rc, w, s, fd, cks, fs. split; [done|]. split; [done|]. split; [split; [exists (w_mapped w), (w_vfs w), (readOnly w), (hdr w)|exists (s_pages s)]; [by destruct w|by destruct s]|].
    split; [done|]. split; [done|]. split; [done|]. split; [|done]. intros _. destruct (walFramePage_spec nF HnF) as (R0 & [_ Z1] & _).
    rewrite <- (page_zero_next (walFramePage nF)) in Z1 by lia. replace (walFramePage nF + 1) with iPg in Z1 by lia.
    unfold rest. replace (Z.to_nat nF - length fs)%nat with 0%nat by lia. apply app_nil_r. }
  destruct (page_start iPg G0 ltac:(lia)) as [Hz Hp20]. destruct (page_bounds iPg G0 ltac:(lia)) as [-> ->].
  pose proof (ri_app _ _ _ _ Hri) as Ha. destruct (walIndexPage_ok w iPg s (ap_map _ _ _ Ha) G0) as (rc1 & w1 & s1 & E1 & Hm1 & Hre & _ & Hv1).
  destruct (walIndexPage_answers w iPg s rc1 w1 s1 E1 (ap_lock _ _ _ Ha) Hro) as [Hro1 Hmapped]. rewrite E1.
  pose proof (rec_inv_remap _ _ _ _ _ _ Hri Hre Hm1) as Hri1. destruct (remap_hdr _ _ _ _ Hre) as (Eh & _).
  assert (rec_frame w s w1 s1) as Hfr1.
  { destruct Hre as ((m & v & ro & ->) & (k & ->) & Hsub & _). split; [exists m, v, ro, (hdr w); by destruct w|by eexists]. }
  case_bool_decide as Hin; cbn [negb].
  2: { exists rc1, w1, s1, fd, cks, fs. split; [done|]. split; [done|]. split; [done|]. split; [done|]. split; [done|]. split; [done|].
       split; [intros E; by apply Hmapped in E|]. intros Hnil _ m _. destruct (Hv1 Hnil (or_introl (ap_lock _ _ _ Ha))). done. }
  pose proof (proj1 Hm1 iPg Hin) as Hrange. destruct (lookup_lt_is_Some_2 (s_pages s1) (Z.to_nat iPg) ltac:(lia)) as [aShare Hsh].
  destruct (recover_page_ok iPg rc1 w1 s1 fd fs cks priv aShare Hri1 ltac:(by rewrite Eh) G0 ltac:(lia) ltac:(lia) Hwp Hok Hdata Hin Hsh)
    as (rc2 & iF & w2 & s2 & fd2 & cks2 & fs2 & priv2 & E2 & Eg & Hwp2 & (s3 & E3 & Hri3 & Hfr3 & Evfs) & Hok2 & Hd2 & Hfine2 & Hres).
  change (get_page s1 (mk_loc iPg 0 0)) with (get_page s1 (loc_of iPg)). rewrite (get_page_ok s1 iPg aShare Hsh). cbn [mbind outcome_bind].
  change (put_page s1 (mk_loc iPg 0 0) priv) with (put_page s1 (loc_of iPg) priv). rewrite E2. cbn [mbind outcome_bind].
  change (get_page s2 (mk_loc iPg 0 0)) with (get_page s2 (loc_of iPg)). rewrite Eg. cbn [mbind outcome_bind].
  assert ((if iPg =? 0 then WALINDEX_HDR_SIZE else 0) / 4 = page_base iPg) as -> by (unfold page_base; by destruct (iPg =? 0)).
  change (put_page s2 (mk_loc iPg 0 0)) with (put_page s2 (loc_of iPg)). rewrite E3. pose proof (rec_frame_trans _ _ _ _ _ _ Hfr1 Hfr3) as Hfr.
  destruct (iF <=? Z.min nF (page_zero iPg + page_cap iPg)).
  { exists rc2, w2, s3, fd2, cks2, fs2. destruct Hres as [R1 R2]. split; [done|]. split; [done|]. split; [done|]. split; [done|]. split; [done|]. split; [done|]. split; [done|].
    intros _ _ m Hm. by apply (R2 m). }
  destruct Hres as (R1 & R2 & R3 & R4). rewrite u32_id by lia.
  destruct (IH (iPg + 1) rc2 w2 s3 fd2 fs2 cks2 priv2 Hri3 R2 ltac:(lia) ltac:(lia) ltac:(rewrite page_zero_next by lia; lia) Hwp2 ltac:(by rewrite Evfs) Hok2 Hd2)
    as (rc4 & w4 & s4 & fd4 & cks4 & fs4 & E4 & Hri4 & Hfr4 & Hok4 & Hd4 & Hfine4 & Hres4 & Hlive4).
  exists rc4, w4, s4, fd4, cks4, fs4. split; [done|]. split; [done|]. split; [by eapply rec_frame_trans|]. split; [done|]. split; [done|].
  split; [auto|]. split; [intros E; rewrite R3; by apply Hres4|]. intros Hnil _ m Hm.
  destruct (Hv1 Hnil (or_introl (ap_lock _ _ _ Ha))) as [Erc1 _]. apply (Hlive4 ltac:(rewrite Evfs; by apply Hre) (R4 Erc1) m), Hfine2, Hm.
Qed.
End frames.

(** ** The header *)

Lemma power_of_two_size n : 512 <= n <= 65536 -> n .& (n - 1) = 0 -> page_size_ok n.
Proof.
  intros Hn E. split; [lia|]. destruct (decide (n mod 8 = 0)) as [|Hm]; [done|]. exfalso.
  assert (Z.shiftr (n .& (n - 1)) 3 = n / 8) as G.
  { rewrite Z.shiftr_land, !Z.shiftr_div_pow2 by lia. change (2 ^ 3) with 8.
    pose proof (Z.mod_pos_bound n 8 ltac:(lia)). pose proof (Z.div_mod n 8 ltac:(lia)).
    assert (n / 8 = (n - 1) / 8) as <- by (apply Z.div_unique with (n mod 8 - 1); lia). apply Z.land_diag. }
  rewrite E in G. change (Z.shiftr 0 3) with 0 in G. pose proof (Z.div_mod n 8 ltac:(lia)). pose proof (Z.mod_pos_bound n 8 ltac:(lia)). lia.
Qed.

Lemma log_header_ok d native salt szP c : bytes_ok d -> log_header d = Some (native, salt, szP, c) ->
  len salt = 8 /\ bytes_ok salt /\ page_size_ok szP /\ 512 <= szP /\ cksum_range c.
Proof.
  intros Hd. unfold log_header. destruct (_ && _) eqn:E; [|done]. intros [= <- <- <- <-]. rewrite !andb_true_iff in E.
  destruct E as ((((L%Z.ltb_lt & _) & (H1%Z.leb_le & H2%Z.leb_le) & H3%Z.eqb_eq) & _) & _).
  split; [apply sub_length; lia|]. split; [by apply sub_ok|]. split; [by apply power_of_two_size|]. split; [done|]. by apply cksum_of_range.
Qed.

Lemma be32_sub d off n k : 0 <= off -> 0 <= k -> k + 4 <= n -> be32 (sub d off n) k = be32 d (off + k).
Proof. intros. unfold be32. rewrite !ld_sub by lia. by rewrite !Z.add_assoc. Qed.

Lemma land_1_mod a : a .& 1 = a mod 2.
Proof. change 1 with (2 ^ 1 - 1). by rewrite land_ones_mod. Qed.

(** The page size that the conversion to [int] makes the least number; subtracting 1 from
    it is undefined. *)
Definition header_defined (d : bytes) : Prop := be32 d 0 .& 0xFFFFFFFE = WAL_MAGIC -> be32 d 8 <> 2 ^ 31.

(** The tests of the page size, of the number as an [int]. *)
Lemma page_size_test v : 0 <= v < 2 ^ 32 -> v <> 2 ^ 31 -> let szPage := i32 v in let ok := (512 <=? v) && (v <=? 65536) && (v .& (v - 1) =? 0) in
  (szPage =? - 2 ^ 31) = false /\ negb (szPage .& (szPage - 1) =? 0) || (SQLITE_MAX_PAGE_SIZE <? szPage) || (szPage <? 512) = negb ok /\ (ok = true -> szPage = v).
Proof.
  intros Hv Hne szPage ok. change SQLITE_MAX_PAGE_SIZE with 65536. assert (szPage = if v <? 2 ^ 31 then v else v - 2 ^ 32) as ->.
  { unfold szPage. destruct (Z.ltb_spec v (2 ^ 31)); [apply swrap_id; unfold in_i; lia|].
    unfold i32, swrap. change (32 - 1) with 31. replace (v + 2 ^ 31) with (v - 2 ^ 31 + 1 * 2 ^ 32) by lia. rewrite Z_mod_plus_full, Z.mod_small; lia. }
  unfold ok. destruct (Z.ltb_spec v (2 ^ 31)) as [Hs|Hs]; (split; [apply Z.eqb_neq; lia|]).
  - split; [|done]. rewrite !negb_andb, <- Z.ltb_antisym, <- Z.ltb_antisym. btauto.
  - rewrite (proj2 (Z.ltb_lt (v - 2 ^ 32) 512)), (proj2 (Z.leb_gt v 65536)) by lia. rewrite orb_true_r, andb_false_r. done.
Qed.

(** Connections that differ in what the header of the log says. *)
Lemma recover_header_ok w d : bytes_ok d -> 32 < len d -> header_defined d ->
  exists rc o sz ck h, recover_header w (sub d 0 32) = Done (rc, o, with_hdr (with_log w sz ck) h) /\ mxFrame h = mxFrame (hdr w) /\ nPage h = nPage (hdr w) /\
    (len (aSalt (hdr w)) = 8 /\ bytes_ok (aSalt (hdr w)) -> len (aSalt h) = 8 /\ bytes_ok (aSalt h)) /\
    match log_header d with
    | Some (native, salt, szP, c) =>
        if be32 d 4 =? WAL_MAX_VERSION then rc = SQLITE_OK /\ o = Some szP /\ sz = szP /\ (bigEndCksum h =? SQLITE_BIGENDIAN) = native /\ aSalt h = salt /\ aFrameCksum h = c
        else rc = SQLITE_CANTOPEN /\ o = None
    | None => rc = SQLITE_OK /\ o = None
    end.
Proof.
  intros Hd Hl Hdef. assert (w = with_hdr (with_log w (szPage w) (nCkpt w)) (hdr w)) as Ew by by destruct w.
  pose proof (sub_length d 0 32 ltac:(lia) ltac:(lia) ltac:(lia)) as Ls. pose proof (sub_ok d 0 32 Hd) as Bs.
  unfold recover_header. rewrite !get4byte_be32 by (done || lia). rewrite !be32_sub by lia. rewrite !Z.add_0_l. cbn [mbind outcome_bind].
  pose proof (be32_range d 8 Hd) as R8. unfold log_header. rewrite (proj2 (Z.ltb_lt 32 (len d)) Hl). cbn [andb].
  destruct (Z.eqb_spec (be32 d 0 .& 4294967294) WAL_MAGIC) as [Em|Em]; cbn [negb andb].
  2: { eexists _, _, (szPage w), (nCkpt w), (hdr w). by rewrite <- Ew. }
  destruct (page_size_test (be32 d 8) R8 (Hdef Em)) as (-> & -> & Esz).
  destruct ((512 <=? be32 d 8) && (be32 d 8 <=? 65536) && (be32 d 8 .& (be32 d 8 - 1) =? 0)); cbn [negb andb].
  2: { eexists _, _, (szPage w), (nCkpt w), (hdr w). by rewrite <- Ew. }
  rewrite (Esz eq_refl).
  rewrite blk_read_Some by lia. fold (sub (sub d 0 32) 16 8).
  assert (sub (sub d 0 32) 16 8 = sub d 16 8) as Es.
  { pose proof (sub_length (sub d 0 32) 16 8 ltac:(lia) ltac:(lia) ltac:(lia)). pose proof (sub_length d 16 8 ltac:(lia) ltac:(lia) ltac:(lia)).
    apply bytes_ext; [lia|]. intros j Hj. by rewrite !ld_sub by lia. }
  rewrite Es. change (WAL_HDRSIZE - 2 * 4) with 24. cbn [hdr with_hdr log_hdr bigEndCksum].
  change (walChecksumBytes (be32 d 0 .& 1 =? SQLITE_BIGENDIAN) (sub d 0 32) 24 None) with (walChecksumBytes (be32 d 0 .& 1 =? SQLITE_BIGENDIAN) (sub d 0 32) 24 (Some (0, 0))).
  rewrite walChecksumBytes_of by (done || lia). cbn [mbind outcome_bind]. rewrite land_1_mod. change SQLITE_BIGENDIAN with 0. set (native := be32 d 0 mod 2 =? 0).
  assert (cksum_of native (sub d 0 32) 24 (0, 0) = cksum_of native d 24 (0, 0)) as ->.
  { apply cksum_spec_ext. intros j Hj. change (Z.to_nat (24 / 8)) with 3%nat in Hj. by rewrite ld_sub by lia. }
  set (c := cksum_of native d 24 (0, 0)). rewrite (Z.eqb_sym (fst c)), (Z.eqb_sym (snd c)).
  pose proof (sub_length d 16 8 ltac:(lia) ltac:(lia) ltac:(lia)) as L8. pose proof (sub_ok d 16 8 Hd) as B8.
  eexists (if (be32 d 24 =? fst c) && (be32 d 28 =? snd c) && negb (be32 d 4 =? WAL_MAX_VERSION) then SQLITE_CANTOPEN else SQLITE_OK),
    (if (be32 d 24 =? fst c) && (be32 d 28 =? snd c) && (be32 d 4 =? WAL_MAX_VERSION) then Some (be32 d 8) else None), (be32 d 8), (be32 d 12), _.
  split; [|split; [|split; [|split]]].
  - destruct (be32 d 24 =? fst c), (be32 d 28 =? snd c), (be32 d 4 =? WAL_MAX_VERSION); reflexivity.
  - done.
  - done.
  - intros _. by split.
  - destruct (be32 d 24 =? fst c), (be32 d 28 =? snd c), (be32 d 4 =? WAL_MAX_VERSION); done.
Qed.

(** ** The log as a whole *)

Lemma valid_frames_length n native salt szP : forall s d, (length (valid_frames n native salt szP s d) <= n)%nat.
Proof. induction n as [|n IH]; intros s d; [done|]. cbn [valid_frames]. destruct (first_frame _ _ _ _ _); cbn [length]; [|lia]. specialize (IH (frame_cksum native szP s f) (drop (Z.to_nat (24 + szP)) d)). lia. Qed.

Lemma log_frames_length d : bytes_ok d -> len d < 2 ^ 40 -> len (log_frames_of d) < 2 ^ 31.
Proof.
  intros Hd Hl. unfold log_frames_of. destruct (log_header d) as [[[[native salt] szP] c]|] eqn:E; [|done].
  destruct (log_header_ok d native salt szP c Hd E) as (_ & _ & Hs & Hb & _).
  assert (32 < len d) as H32. { unfold log_header in E. destruct (Z.ltb_spec 32 (len d)); [done|]. by cbn [andb] in E. }
  pose proof (nF_bound salt szP d Hs (conj Hd (conj H32 Hl)) Hb). pose proof (valid_frames_length (Z.to_nat ((len d - 32) / (24 + szP))) native salt szP c (drop 32 d)). lia.
Qed.

(** The checksum of the last commit. *)
Definition last_cksum (d : bytes) : Z * Z :=
  match log_header d with
  | Some (native, salt, szP, c) => match upto_commit (log_frames_of d) with [] => (0, 0) | fs => log_cksum native szP c fs end
  | None => (0, 0)
  end.

(** What is known when the frames have been entered. *)
Record rec_done (w : Wal) (s : Shm) (fs : list Frame) : Prop := {
  rd_app : appender_ok w s (map f_pgno fs);
  rd_mx : mxFrame (hdr w) = len (upto_commit fs);
  rd_nPage : nPage (hdr w) = commit_size (upto_commit fs);
  rd_salt : len (aSalt (hdr w)) = 8 /\ bytes_ok (aSalt (hdr w))
}.

(** The connection has the byte order, the salt and the page size of the log. *)
Definition same_log (w : Wal) (d : bytes) : Prop :=
  match log_header d with Some (native, salt, szP, _) => wal_native w = native /\ wal_salt w = salt /\ szPage w = szP | None => True end.

(** What recovery changes of a connection and of the shared memory. *)
Definition rec_change (w : Wal) (s : Shm) (w' : Wal) (s' : Shm) : Prop :=
  (exists m v ro sz ck hd, w' = with_hdr (with_log (with_mapped w m v ro) sz ck) hd /\ w_mapped w ⊆ m) /\ (exists pages, s' = with_pages s pages).

Lemma rec_change_refl w s hd : rec_change w s (with_hdr w hd) s.
Proof. split; [exists (w_mapped w), (w_vfs w), (readOnly w), (szPage w), (nCkpt w), hd; by destruct w|exists (s_pages s); by destruct s]. Qed.

Lemma appender_zero w s : mapping_ok w s -> writeLock w = true -> mxFrame (hdr w) = 0 -> appender_ok w s [].
Proof.
  intros Hm Hl Hx. split; try done; [|cbn; lia|by left]. intros h Hh Hz. cbn in Hz. destruct (page_numbers h Hh) as (_ & _ & ? & _). lia.
Qed.

Section log.
Context {F : Type} `{OsFileLaws F}.

Lemma recover_log_ok aPrivate w s (fd : F) : mapping_ok w s -> writeLock w = true -> no_readonly (w_vfs w) -> hdr w = hdr_zero ->
  (forall pg, aPrivate = Some pg -> page_wf pg) -> os_ok fd -> len (os_data fd) < 2 ^ 40 -> header_defined (os_data fd) ->
  exists rc w' s' fd' cks fs, recover_log aPrivate (len (os_data fd)) w s fd = Done (rc, w', s', fd', cks) /\
    rec_change w s w' s' /\ rec_done w' s' fs /\ os_ok fd' /\ os_data fd' = os_data fd /\
    (rc = SQLITE_OK -> (fs = log_frames_of (os_data fd) /\ cks = last_cksum (os_data fd)) /\ same_log w' (os_data fd)) /\
    (forall m, w_vfs w = [] -> aPrivate <> None -> os_fine fd m -> (is_Some (log_header (os_data fd)) -> be32 (os_data fd) 4 = WAL_MAX_VERSION) -> rc = SQLITE_OK).
Proof.
  intros Hm Hl Hro Hz Hpriv Hok Hlen Hdef. set (d := os_data fd) in *. pose proof (os_bytes fd Hok : bytes_ok d) as Bd. unfold recover_log.
  assert (forall h, mxFrame h = 0 -> nPage h = 0 -> len (aSalt h) = 8 /\ bytes_ok (aSalt h) -> forall sz ck, rec_done (with_hdr (with_log w sz ck) h) s []) as Hdone0.
  { intros h E1 E2 E3 sz ck. split; [by apply appender_zero|done..]. }
  assert (forall sz ck h, rec_change w s (with_hdr (with_log w sz ck) h) s) as Hch0.
  { intros sz ck h. split; [exists (w_mapped w), (w_vfs w), (readOnly w), sz, ck, h; by destruct w|exists (s_pages s); by destruct s]. }
  assert (w = with_hdr (with_log w (szPage w) (nCkpt w)) hdr_zero) as Ew by (rewrite <- Hz; by destruct w).
  assert (rec_change w s w s /\ rec_done w s []) as [Hch Hdone].
  { split; [rewrite Ew at 2; apply Hch0|rewrite Ew; apply Hdone0; try done; by split; [|apply Forall_replicate]]. }
  change WAL_HDRSIZE with 32. destruct (Z.ltb_spec 32 (len d)) as [H32|H32]; cbn [negb].
  2: { exists SQLITE_OK, w, s, fd, (0, 0), []. split; [done|]. split; [done|]. split; [done|]. split; [done|]. split; [done|]. split; [|done]. intros _.
       unfold same_log, last_cksum, log_frames_of, log_header. by rewrite (proj2 (Z.ltb_ge _ _)) by lia. }
  destruct (os_read fd 32 0 Hok ltac:(lia) ltac:(lia) ltac:(lia)) as (rc1 & buf & fd1 & -> & Hok1 & Hd1 & Lb & Bb & Hbuf & Hfine). fold d in Hd1, Hbuf, Hfine.
  destruct (Z.eqb_spec rc1 SQLITE_OK) as [->|Hrc]; cbn [negb].
  2: { exists rc1, w, s, fd1, (0, 0), []. split; [done|]. split; [done|]. split; [done|]. split; [done|]. split; [done|]. split; [done|].
       intros m _ _ Hm' _. destruct (Hfine m Hm') as [_ G]. apply G. lia. }
  destruct (Hbuf eq_refl) as [_ ->]. clear Hbuf. destruct (recover_header_ok w d Bd H32 Hdef) as (rc & o & sz & ck & h & -> & E1 & E2 & E3 & Hres). cbn [mbind outcome_bind].
  rewrite Hz in E1, E2, E3. specialize (E3 ltac:(by split; [|apply Forall_replicate])).
  destruct (log_header d) as [[[[native salt] szP] c]|] eqn:Eh.
  2: { destruct Hres as [-> ->]. eexists SQLITE_OK, _, s, fd1, (0, 0), []. split; [done|]. split; [done|]. split; [by apply Hdone0|]. split; [done|]. split; [done|]. split; [|done].
       intros _. unfold same_log, last_cksum, log_frames_of. by rewrite Eh. }
  destruct (Z.eqb_spec (be32 d 4) WAL_MAX_VERSION) as [Ev|Ev].
  2: { destruct Hres as [-> ->]. eexists SQLITE_CANTOPEN, _, s, fd1, (0, 0), []. split; [done|]. split; [done|]. split; [by apply Hdone0|]. split; [done|]. split; [done|]. split; [done|].
       intros m _ _ _ G. by destruct Ev; apply G. }
  destruct Hres as (-> & -> & -> & En & Es & Ec). destruct (log_header_ok d native salt szP c Bd Eh) as (L8 & B8 & Hsize & Hbig & Hc).
  destruct aPrivate as [pg|].
  2: { eexists SQLITE_NOMEM, _, s, fd1, (0, 0), []. split; [done|]. split; [done|]. split; [by apply Hdone0|]. split; [done|]. split; [done|]. split; [done|]. done. }
  change WAL_FRAME_HDRSIZE with 24. replace (szP + 24) with (24 + szP) by lia.
  pose proof (nF_bound salt szP d Hsize (conj Bd (conj H32 Hlen)) Hbig) as HnF. rewrite (u32_id ((len d - 32) / _)) by lia. set (nF := (len d - 32) / (24 + szP)) in *.
  destruct (walFramePage_spec nF HnF) as (RF & _ & _). rewrite u32_id by lia. set (w1 := with_hdr (with_log w szP ck) h).
  assert (rec_inv native salt szP c w1 s [] (0, 0)) as Hri by (split; try done; [by apply appender_zero|cbn [hdr with_hdr w1]; by rewrite Ec]).
  destruct (recover_pages_ok native salt szP c d (conj L8 B8) Hsize Hc (conj Bd (conj H32 Hlen)) Hbig (Z.to_nat (walFramePage nF + 1)) 0 SQLITE_OK w1 s fd1 [] (0, 0) pg Hri Ec)
    as (rc' & w' & s' & fd' & cks' & fs' & E & Hri' & ((m & v & ro & hd & -> & Hsub) & pages & ->) & Hok' & Hd' & Hfine' & Hgood & Hlive); [fold nF; lia|lia|cbn; fold nF; lia|by apply Hpriv|done|done|done|].
  fold nF in E. rewrite E. eexists rc', _, _, fd', cks', fs'. split; [done|]. split.
  { split; [exists m, v, ro, szP, ck, hd; split; [by destruct w|done]|by eexists]. }
  split; [destruct Hri' as [Ra _ _ Rs _ Rm Rp _ _]; unfold wal_salt in Rs; split; [done..|]; by rewrite Rs|]. split; [done|]. split; [by rewrite Hd'|]. split.
  - intros Hr. assert (log_frames_of d = fs') as Ef.
    { unfold log_frames_of. rewrite Eh. fold nF. rewrite <- (Hgood Hr). unfold rest. fold nF. cbn [app length log_cksum fold_left]. by rewrite Nat.sub_0_r. }
    split; [split; [done|]|].
    + unfold last_cksum. rewrite Eh, Ef. by destruct Hri'.
    + unfold same_log. rewrite Eh. by destruct Hri'.
  - intros k Hnil _ Hk _. apply (Hlive Hnil eq_refl k). by apply Hfine.
Qed.
End log.

(** ** The end *)

Lemma walIndexWriteHdr_ok w s : 0 ∈ w_mapped w -> len (aSalt (hdr w)) = 8 -> bytes_ok (aSalt (hdr w)) ->
  exists c, let h := hdr_init (hdr w) c in walIndexWriteHdr w s = Done (with_hdr w h, mk_shm h h (s_ckpt s) (s_pages s)).
Proof.
  intros Hz Hl Hb. unfold walIndexWriteHdr, walIndexHdr. rewrite bool_decide_eq_true_2 by done. cbn [mbind outcome_bind]. change 40 with (8 * Z.of_nat 5).
  rewrite walChecksumBytes_ok; [|by apply hdr_bytes_ok|rewrite hdr_bytes_length; cbn in *; lia]. cbn [mbind outcome_bind]. by eexists.
Qed.

(** The index after recovery, as a writer's. *)
Lemma rec_done_rel w s fs c : rec_done w s fs -> 0 ∈ w_mapped w -> len fs < 2 ^ 31 ->
  let h := hdr_init (hdr w) c in log_rel (with_hdr w h) (mk_shm h h (s_ckpt s) (s_pages s)) (mk_log (map f_pgno (upto_commit fs)) []).
Proof.
  intros [[Hm Hho Hl Hmx Hex Hpos] Ex En [Ls Bs]] Hz Hb h. destruct (upto_commit_take fs) as (n & Et & Hn).
  assert (len (map f_pgno (upto_commit fs)) = len (upto_commit fs)) as Lm by by rewrite length_map.
  assert (len (upto_commit fs) <= len fs) as Lu by (rewrite Et, length_take; lia).
  assert (map f_pgno (upto_commit fs) = take n (map f_pgno fs)) as Em by by rewrite Et, firstn_map.
  unfold h. split; unfold log_frames; cbn [committed pending]; rewrite ?app_nil_r; cbn [hdr with_hdr hdr_init mxFrame s_hdr0]; try lia.
  split; cbn [hdr with_hdr hdr_init mxFrame s_hdr0 aSalt]; try done.
  - rewrite Em. by apply holds_take.
  - lia.
  - left. lia.
  - rewrite Em. by apply Forall_take.
  - lia.
  - intros f Hf. lia.
  - split_and!; done || lia.
Qed.

Section finish.
Context {L : Type} `{ShmLocksLaws L}.

Definition new_mark (w : Wal) (i : Z) : Z := if (i =? 1) && negb (mxFrame (hdr w) =? 0) then mxFrame (hdr w) else READMARK_NOT_USED.

(** The locks are back where they were; no other connection's mark is touched. *)
Lemma reset_marks_ok w n : forall i rc marks (l : L), 0 <= i -> i + Z.of_nat n <= 5 -> locks_ok w l -> locks_free w l (3 + i) (Z.of_nat n) -> len marks = 5 ->
  exists rc' marks' l', reset_marks n i rc w marks l = (rc', marks', l') /\ locks_ok w l' /\ lk_same_but l l' (pDbFd w) (3 + i) (Z.of_nat n) /\ len marks' = 5 /\
    (forall j c, 0 <= j < 5 -> exclusiveMode w = 0 -> c <> pDbFd w -> lk_holds l c (3 + j) <> None -> marks'.[j] = marks.[j]) /\
    (locks_fine w l -> locks_fine w l' /\ locks_free w l' (3 + i) (Z.of_nat n)) /\
    (locks_fine w l -> locks_unused w l (3 + i) (Z.of_nat n) -> (rc = SQLITE_OK -> rc' = SQLITE_OK) /\ (forall j, i <= j < i + Z.of_nat n -> marks'.[j] = new_mark w j) /\ (forall j, 0 <= j < i -> marks'.[j] = marks.[j])).
Proof.
  induction n as [|n IH]; intros i rc marks l Hi Hn Hok Hfree Hlen; cbn [reset_marks].
  { exists rc, marks, l. split; [done|]. split; [done|]. split; [done|]. split; [done|]. split; [done|]. split; [done|]. intros _ _. split; [done|]. split; [lia|done]. }
  unfold WAL_READ_LOCK. assert (forall l0 : L, locks_free w l0 (3 + i) (Z.of_nat (S n)) -> locks_free w l0 (3 + i) 1 /\ locks_free w l0 (3 + (i + 1)) (Z.of_nat n)) as Hsplit.
  { intros l0 F. split; intros E j Hj; apply F; done || lia. }
  assert (forall l0 l1 : L, locks_free w l0 (3 + (i + 1)) (Z.of_nat n) -> lk_same_but l0 l1 (pDbFd w) (3 + i) 1 -> locks_free w l1 (3 + (i + 1)) (Z.of_nat n)) as Hkeep.
  { intros l0 l1 F S E j Hj. rewrite S by (right; lia). by apply F. }
  destruct (Hsplit l Hfree) as [Hf1 Hfn].
  destruct (walLockExclusive_ok w (3 + i) 1 l Hok ltac:(lia) ltac:(lia) ltac:(change SQLITE_SHM_NLOCK with 8; lia) Hf1) as (rc1 & l1 & -> & Hok1 & Hfi1 & Hs1 & Hbad & Hgood & Hlive).
  pose proof (Hkeep l l1 Hfn Hs1) as Hfn1.
  destruct (Z.eqb_spec rc1 SQLITE_OK) as [->|Hrc].
  - destruct (Hgood eq_refl) as [Hmine Hun]. destruct (walUnlockExclusive_ok w (3 + i) 1 l1 Hok1 ltac:(lia) ltac:(lia) ltac:(change SQLITE_SHM_NLOCK with 8; lia) Hmine) as (Hok2 & Hs2 & Hfi2).
    set (l2 := walUnlockExclusive w (3 + i) 1 l1) in *. fold (new_mark w i). set (marks1 := <[Z.to_nat i := new_mark w i]> marks).
    assert (len marks1 = 5) as L1 by (unfold marks1; by rewrite length_insert).
    assert (forall j, 0 <= j < 5 -> marks1.[j] = if decide (j = i) then new_mark w i else marks.[j]) as Hm1.
    { intros j Hj. unfold marks1, ld. rewrite !nth_lookup. case_decide as Ej; [subst; by rewrite list_lookup_insert_eq by lia|by rewrite list_lookup_insert_ne by lia]. }
    assert (lk_same_but l l2 (pDbFd w) (3 + i) 1) as Hs12 by (intros c j Hcj; by rewrite Hs2, Hs1).
    destruct (IH (i + 1) SQLITE_OK marks1 l2 ltac:(lia) ltac:(lia) Hok2 (Hkeep l1 l2 Hfn1 Hs2) L1) as (rc' & marks' & l' & -> & Hok' & Hs' & L' & Hmk & Hfi' & Hall).
    exists rc', marks', l'. split; [done|]. split; [done|]. split; [intros c j Hcj; rewrite Hs', Hs12 by (destruct Hcj; [by left|right; lia]); done|]. split; [done|]. split; [|split].
    + intros j c Hj E Hc Hh. assert (j <> i) as Hji by (intros ->; apply Hh, Hun; done || lia).
      rewrite (Hmk j c) by (done || (by rewrite Hs12 by by left)). rewrite Hm1 by done. by rewrite decide_False.
    + intros F. destruct (Hfi2 (Hfi1 F)) as [F2 Fr2]. destruct (Hfi' F2) as [F3 Fr3]. split; [done|]. intros E j Hj.
      destruct (decide (j = 3 + i)) as [->|]; [rewrite Hs' by (right; lia); apply Fr2; done || lia|apply Fr3; done || lia].
    + intros F U. destruct (Hfi2 (Hfi1 F)) as [F2 _].
      destruct (Hall F2) as (A1 & A2 & A3). { intros E c j Hj Hc. rewrite Hs12 by by left. apply U; done || lia. }
      split; [by intros _; apply A1|]. split; intros j Hj.
      * destruct (decide (j = i)) as [->|]; [rewrite A3, Hm1 by lia; by rewrite decide_True|apply A2; lia].
      * rewrite A3, Hm1 by lia. by rewrite decide_False by lia.
  - assert (lk_same l l1) as Hsame by by apply Hbad.
    assert (locks_fine w l -> locks_unused w l (3 + i) (Z.of_nat (S n)) -> False) as Hno.
    { intros F U. apply Hrc, Hlive; [done|]. intros E c j Hj Hc. apply U; done || lia. }
    destruct (Z.eqb_spec rc1 SQLITE_BUSY) as [->|Hb]; cbn [negb].
    + destruct (IH (i + 1) SQLITE_BUSY marks l1 ltac:(lia) ltac:(lia) Hok1 Hfn1 Hlen) as (rc' & marks' & l' & -> & Hok' & Hs' & L' & Hmk & Hfi' & _).
      exists rc', marks', l'. split; [done|]. split; [done|]. split; [intros c j Hcj; rewrite Hs' by (destruct Hcj; [by left|right; lia]); apply Hsame|]. split; [done|].
      split; [intros j c Hj E Hc Hh; apply (Hmk j c); done || by rewrite Hsame|]. split; [|intros F U; by destruct (Hno F U)].
      intros F. destruct (Hfi' (Hfi1 F)) as [F3 Fr3]. split; [done|]. intros E j Hj.
      destruct (decide (j = 3 + i)) as [->|]; [rewrite Hs' by (right; lia); rewrite Hsame; apply Hf1; done || lia|apply Fr3; done || lia].
    + exists rc1, marks, l1. split; [done|]. split; [done|]. split; [by apply same_same_but|]. split; [done|]. split; [done|].
      split; [|intros F U; by destruct (Hno F U)]. intros F. split; [by apply Hfi1|]. intros E j Hj. rewrite Hsame. by apply Hfree.
Qed.
End finish.

Section whole.
Context {F L : Type} `{OsFileLaws F} `{ShmLocksLaws L}.

Lemma recover_read_ok aPrivate w s (fd : F) : mapping_ok w s -> writeLock w = true -> no_readonly (w_vfs w) ->
  (forall pg, aPrivate = Some pg -> page_wf pg) -> os_ok fd -> len (os_data fd) < 2 ^ 40 -> header_defined (os_data fd) ->
  exists rc w' s' fd' cks fs, recover_read aPrivate (with_hdr w hdr_zero) s fd = Done (rc, w', s', fd', cks) /\
    rec_change w s w' s' /\ rec_done w' s' fs /\ os_data fd' = os_data fd /\
    (rc = SQLITE_OK -> (fs = log_frames_of (os_data fd) /\ cks = last_cksum (os_data fd)) /\ same_log w' (os_data fd)) /\
    (forall m, w_vfs w = [] -> aPrivate <> None -> os_fine fd m -> (is_Some (log_header (os_data fd)) -> be32 (os_data fd) 4 = WAL_MAX_VERSION) -> rc = SQLITE_OK).
Proof.
  intros Hm Hl Hro Hpriv Hok Hlen Hdef. unfold recover_read. destruct (os_size fd Hok) as (rc1 & sz & fd1 & -> & Hok1 & Hd1 & Hsz & Hfine).
  destruct (Z.eqb_spec rc1 SQLITE_OK) as [->|Hrc]; cbn [negb].
  - rewrite (Hsz eq_refl), <- Hd1.
    destruct (recover_log_ok aPrivate (with_hdr w hdr_zero) s fd1 Hm Hl Hro eq_refl Hpriv Hok1) as (rc & w' & s' & fd' & cks & fs & -> & Hch & Hdone & _ & Hd' & Hgood & Hlive); [by rewrite Hd1..|].
    exists rc, w', s', fd', cks, fs. split; [done|]. split; [|split; [done|split; [done|split; [done|]]]].
    + destruct Hch as ((m & v & ro & sz' & ck & hd & -> & Hsub) & Hp). split; [|done]. by exists m, v, ro, sz', ck, hd.
    + intros m Hn Hp Hf Hv. apply (Hlive m); try done. by apply Hfine.
  - exists rc1, (with_hdr w hdr_zero), s, fd1, (0, 0), []. split; [done|]. split; [apply rec_change_refl|]. split.
    { split; [by apply appender_zero|done|done|]. by split; [|apply Forall_replicate]. }
    split; [done|]. split; [done|]. intros m _ _ Hf _. by destruct (Hfine m Hf).
Qed.

Lemma recover_finish_ok rc cks w s (l : L) fs : rec_done w s fs -> 0 ∈ w_mapped w -> (rc = SQLITE_OK -> len fs < 2 ^ 31) -> locks_ok w l -> locks_free w l 4 4 -> len (aReadMark (s_ckpt s)) = 5 ->
  exists rc' w' s' l', recover_finish rc cks w s l = Done (rc', w', s', l') /\ (exists hd, w' = with_hdr w hd) /\ locks_ok w l' /\ lk_same_but l l' (pDbFd w) 4 4 /\
    (rc' = SQLITE_OK -> rc = SQLITE_OK /\ log_rel w' s' (mk_log (map f_pgno (upto_commit fs)) []) /\ nPage (hdr w') = commit_size (upto_commit fs) /\ aFrameCksum (hdr w') = cks /\
       (s_hdr0 s' = hdr w' /\ s_hdr1 s' = hdr w' /\ nBackfill (s_ckpt s') = 0) /\ wal_native w' = wal_native w /\ wal_salt w' = wal_salt w) /\
    (forall j c, 0 < j < 5 -> exclusiveMode w = 0 -> c <> pDbFd w -> lk_holds l c (3 + j) <> None -> (aReadMark (s_ckpt s')).[j] = (aReadMark (s_ckpt s)).[j]) /\
    (locks_fine w l -> locks_fine w l' /\ locks_free w l' 4 4) /\
    (rc = SQLITE_OK -> locks_fine w l -> locks_unused w l 4 4 -> rc' = SQLITE_OK).
Proof.
  intros Hdone Hz Hb Hok Hfree Hlen. unfold recover_finish. destruct (Z.eqb_spec rc SQLITE_OK) as [->|Hrc]; cbn [negb].
  2: { exists rc, w, s, l. split; [done|]. split; [exists (hdr w); by destruct w|]. by split_and!. }
  assert (rec_done (with_cksum w cks) s fs) as Hdone' by (destruct Hdone as [[Am Ah Al Amx Aex Ap] Ex En Es]; by split).
  destruct (walIndexWriteHdr_ok (with_cksum w cks) s Hz (proj1 (rd_salt _ _ _ Hdone')) (proj2 (rd_salt _ _ _ Hdone'))) as (c & ->). cbn [mbind outcome_bind].
  set (h := hdr_init (hdr (with_cksum w cks)) c). pose proof (rec_done_rel _ _ _ c Hdone' Hz (Hb eq_refl)) as Hrel. cbn zeta in Hrel. fold h in Hrel.
  set (w1 := with_hdr (with_cksum w cks) h) in *. set (marks0 := <[0%nat := 0]> (aReadMark (s_ckpt s))). cbn [s_ckpt]. fold marks0.
  destruct (reset_marks_ok w1 (Z.to_nat (WAL_NREADER - 1)) 1 SQLITE_OK marks0 l ltac:(lia) ltac:(change WAL_NREADER with 5; lia) Hok Hfree ltac:(unfold marks0; by rewrite length_insert))
    as (rc' & marks' & l' & -> & Hok' & Hs' & _ & Hmk & Hfi & Hall).
  exists rc', w1, (with_ckpt (mk_shm h h (s_ckpt s) (s_pages s)) (mk_ckpt 0 marks' (mxFrame (hdr w1)))), l'. split; [done|]. split; [by eexists|]. split; [done|]. split; [done|]. split; [|split; [|split]].
  - intros _. split; [done|]. split; [|split; [apply Hdone'|done]]. destruct Hrel as [[] ? ? ?]. split; [|done..]. by split.
  - intros j c' Hj E Hc Hh. cbn [with_ckpt s_ckpt aReadMark]. rewrite (Hmk j c') by (done || lia). unfold marks0, ld. by rewrite !nth_lookup, list_lookup_insert_ne by lia.
  - done.
  - intros _ Fi U. by apply Hall.
Qed.

(** A connection that may recover: it is the writer, and holds none of the locks that
    recovery takes.  [header_defined]: see there. *)
Record recover_start (aPrivate : option WiPage) (w : Wal) (s : Shm) (fd : F) (l : L) : Prop := {
  rs_map : mapping_ok w s;
  rs_zero : 0 ∈ w_mapped w;
  rs_lock : writeLock w = true;
  rs_vfs : no_readonly (w_vfs w);
  rs_private pg : aPrivate = Some pg -> page_wf pg;
  rs_file : os_ok fd;
  rs_size : len (os_data fd) < 2 ^ 40;
  rs_header : header_defined (os_data fd);
  rs_locks : locks_ok w l;
  rs_free : locks_free w l (WAL_ALL_BUT_WRITE + if ckptLock w then 1 else 0) 7;
  rs_marks : len (aReadMark (s_ckpt s)) = 5
}.

(** Nothing fails, nobody else is there, and the log is of the version this code knows. *)
Record recover_fine (aPrivate : option WiPage) (w : Wal) (fd : F) (l : L) : Prop := {
  rf_vfs : w_vfs w = [];
  rf_memory : aPrivate <> None;
  rf_file : exists m, os_fine fd m;
  rf_version : is_Some (log_header (os_data fd)) -> be32 (os_data fd) 4 = WAL_MAX_VERSION;
  rf_locks : locks_fine w l;
  rf_alone : locks_unused w l 1 7
}.

(** Recovery, with all that is known of the connection. *)
Lemma walIndexRecover_ok aPrivate w s (fd : F) (l : L) : recover_start aPrivate w s fd l ->
  exists rc w' s' fd' l', walIndexRecover aPrivate w s fd l = Done (rc, w', s', fd', l') /\ os_data fd' = os_data fd /\
    (rc = SQLITE_OK -> let fs := upto_commit (log_frames_of (os_data fd)) in
       log_rel w' s' (mk_log (map f_pgno fs) []) /\ readers_find s' (map f_pgno fs) /\ nPage (hdr w') = commit_size fs /\ aFrameCksum (hdr w') = last_cksum (os_data fd) /\
       (s_hdr0 s' = hdr w' /\ s_hdr1 s' = hdr w' /\ nBackfill (s_ckpt s') = 0) /\
       same_log w' (os_data fd) /\ iReCksum w' = iReCksum w /\ minFrame w' = minFrame w) /\
    (forall j c, 0 < j < 5 -> exclusiveMode w = 0 -> c <> pDbFd w -> lk_holds l c (3 + j) <> None -> (aReadMark (s_ckpt s')).[j] = (aReadMark (s_ckpt s)).[j]) /\
    (exclusiveMode w = 0 -> lk_fine l -> lk_same l l') /\
    (recover_fine aPrivate w fd l -> rc = SQLITE_OK).
Proof.
  intros [Hm Hz Hl Hro Hpriv Hok Hlen Hdef Hlk Hfree Hmarks]. set (i := WAL_ALL_BUT_WRITE + _) in *.
  assert (1 <= i <= 2) as Hi by (unfold i, WAL_ALL_BUT_WRITE; destruct (ckptLock w); lia).
  unfold walIndexRecover. fold i. change (WAL_READ_LOCK 0) with 3.
  assert (locks_free w l i (3 - i)) as Hf0 by (intros E j Hj; apply Hfree; done || lia).
  destruct (walLockExclusive_ok w i (3 - i) l Hlk ltac:(lia) ltac:(lia) ltac:(change SQLITE_SHM_NLOCK with 8; lia) Hf0) as (rc1 & l1 & -> & Hok1 & Hfi1 & Hs1 & Hbad & Hgood & Hlive).
  destruct (Z.eqb_spec rc1 SQLITE_OK) as [->|Hrc]; cbn [negb].
  2: { exists rc1, w, s, fd, l1. split; [done|]. split; [done|]. split; [done|]. split; [done|]. split; [intros _ _; by apply Hbad|]. intros []. destruct Hrc. apply Hlive; [done|].
       intros E c j Hj. apply rf_alone0; done || lia. }
  destruct (Hgood eq_refl) as [Hmine _].
  destruct (recover_read_ok aPrivate w s fd Hm Hl Hro Hpriv Hok Hlen Hdef) as (rc & w2 & s2 & fd2 & cks & fs & -> & Hch & Hdone & Hd2 & Hgood2 & Hlive2).
  cbn [mbind outcome_bind]. destruct Hch as ((m & v & ro & sz & ck & hd & -> & Hsub) & pages & ->). set (w2 := with_hdr _ hd) in *.
  assert (locks_free w l1 4 4) as Hf1 by (intros E j Hj; rewrite Hs1 by (right; lia); apply Hfree; done || lia).
  destruct (recover_finish_ok rc cks w2 (with_pages s pages) l1 fs Hdone (Hsub _ Hz)) as (rc' & w3 & s3 & l3 & -> & [hd3 ->] & Hok3 & Hs3 & Hres & Hmk & Hfi3 & Hlive3);
    [intros Hr; destruct (Hgood2 Hr) as [[-> _] _]; apply log_frames_length; [by apply os_bytes|done]|done|done|done|].
  cbn [mbind outcome_bind]. assert (locks_mine w l3 i (3 - i)) as Hm3 by (intros E j Hj; rewrite Hs3 by (right; lia); by apply Hmine).
  destruct (walUnlockExclusive_ok w i (3 - i) l3 Hok3 ltac:(lia) ltac:(lia) ltac:(change SQLITE_SHM_NLOCK with 8; lia) Hm3) as (_ & Hs4 & Hfi4).
  change (walUnlockExclusive (with_hdr w2 hd3) i (3 - i) l3) with (walUnlockExclusive w i (3 - i) l3). set (l4 := walUnlockExclusive w i (3 - i) l3) in *.
  eexists rc', _, s3, fd2, l4. split; [done|]. split; [done|]. split; [|split; [|split]].
  - intros Hr. destruct (Hres Hr) as (Hr2 & R1 & R2 & R3 & R4 & R5 & R6). destruct (Hgood2 Hr2) as [[<- <-] Hsl]. pose proof (log_rel_finds _ _ _ R1) as Hfind. unfold log_frames in Hfind. cbn [committed pending] in Hfind. rewrite app_nil_r in Hfind.
    do 5 (split; [done|]). split; [|done]. unfold same_log in *. rewrite R5, R6. done.
  - intros j c Hj E Hc Hh. apply (Hmk j c Hj E Hc). by rewrite Hs1 by by left.
  - intros E Hlf. assert (locks_fine w l) as Fi by by intros _. destruct (Hfi3 (Hfi1 Fi)) as [Fi3 Fr3]. destruct (Hfi4 Fi3) as [_ Fr4].
    intros c j. destruct (decide (c = pDbFd w)) as [->|Hc]; [|by rewrite Hs4, Hs3, Hs1 by by left].
    destruct (decide (i <= j < 3)) as [Hj|Hj]; [rewrite (Fr4 E) by lia; symmetry; by apply Hfree; [|lia]|]. rewrite Hs4 by (right; lia).
    destruct (decide (4 <= j < 8)) as [Hj'|Hj']; [rewrite (Fr3 E) by lia; symmetry; apply Hfree; done || lia|]. by rewrite Hs3, Hs1 by (right; lia).
  - intros [V M [mm FM] Ver Fi U]. apply Hlive3; [by apply (Hlive2 mm)|by apply Hfi1|]. intros E c j Hj Hc. rewrite Hs1 by by left. apply U; done || lia.
Qed.

(** C9. Recovery finds exactly the committed transactions.  Whatever bytes the log file has
    (a torn last frame, frames of an older log, no header), with less than 2^40 of them and
    no valid magic number in front of the page size 2^31 ([header_defined]; with that,
    [recover_header_overflow], the page size overflows), and whatever the shared memory held: for a
    connection that has the write lock, the index mapped and none of the locks recovery takes
    ([recover_start]), [walIndexRecover] is defined; when it answers SQLITE_OK the index is that of the
    valid frames up to the last commit, so that a reader finds in it the newest committed
    frame of a page, both copies of the header agree on the size and the checksum of that
    commit, and nothing is checkpointed.  The marks of readers that hold their lock are
    kept, the locks are as before.  The answer is SQLITE_OK when no call fails, there is memory,
    nobody else uses the locks, and the version in a valid header of the log is
    WAL_MAX_VERSION ([recover_fine]). *)
Theorem recovery_finds_commits aPrivate w s (fd : F) (l : L) : recover_start aPrivate w s fd l ->
  exists rc w' s' fd' l', walIndexRecover aPrivate w s fd l = Done (rc, w', s', fd', l') /\ os_data fd' = os_data fd /\
    (rc = SQLITE_OK -> let fs := upto_commit (log_frames_of (os_data fd)) in
       log_rel w' s' (mk_log (map f_pgno fs) []) /\ readers_find s' (map f_pgno fs) /\ nPage (hdr w') = commit_size fs /\ aFrameCksum (hdr w') = last_cksum (os_data fd) /\
       s_hdr0 s' = hdr w' /\ s_hdr1 s' = hdr w' /\ nBackfill (s_ckpt s') = 0) /\
    (forall j c, 0 < j < 5 -> exclusiveMode w = 0 -> c <> pDbFd w -> lk_holds l c (3 + j) <> None -> (aReadMark (s_ckpt s')).[j] = (aReadMark (s_ckpt s)).[j]) /\
    (exclusiveMode w = 0 -> lk_fine l -> lk_same l l') /\
    (recover_fine aPrivate w fd l -> rc = SQLITE_OK).
Proof.
  intros Hs. destruct (walIndexRecover_ok aPrivate w s fd l Hs) as (rc & w' & s' & fd' & l' & E & Ed & Hr & Hrest). exists rc, w', s', fd', l'. split; [exact E|]. split; [exact Ed|]. split; [|exact Hrest].
  intros Hrc. destruct (Hr Hrc) as (R1 & R2 & R3 & R4 & R5 & _). by destruct R5 as (? & ? & ?).
Qed.
End whole.

(** ** A concrete run

    A log of three frames of 512 bytes, of which the second commits, with three bytes of a
    torn fourth one. *)

Definition sample_frames : list Frame := [mk_frame 5 0 (replicate 512 7); mk_frame 9 9 (replicate 512 8); mk_frame 5 0 (replicate 512 9)].
Definition sample_head (szP : Z) : bytes :=
  sqlite3Put4byte WAL_MAGIC ++ sqlite3Put4byte WAL_MAX_VERSION ++ sqlite3Put4byte szP ++ sqlite3Put4byte 0 ++ [1; 2; 3; 4; 5; 6; 7; 8].
Definition sample_cksum : Z * Z := cksum_of true (sample_head 512) 24 (0, 0).
Definition sample_log : bytes :=
  sample_head 512 ++ put_cksum sample_cksum ++ log_bytes true [1; 2; 3; 4; 5; 6; 7; 8] 512 sample_cksum sample_frames ++ [1; 2; 3].
Definition sample_locks : UnixShm := mk_table [-1; 0; 0; 0; 0; 0; 0; 0] [mk_shm_conn 0 1] [].
Definition sample_page : WiPage := mk_wipage (replicate (Z.to_nat HASHTABLE_NPAGE) 77) (replicate (Z.to_nat HASHTABLE_NSLOT) 3).

Lemma sample_locks_wf : table_wf sample_locks.
Proof.
  split; [done|]. intros i Hi. destruct (Z.eq_dec i 0) as [->|Hn]; [right|left].
  - split; [done|]. exists 0%nat. split; [by eexists|]. intros [|c] p Hp; [|done]. injection Hp as <-. done.
  - assert (i = 1 \/ i = 2 \/ i = 3 \/ i = 4 \/ i = 5 \/ i = 6 \/ i = 7) as Hc by lia.
    repeat (destruct Hc as [->|Hc]); [..|subst i]; (split; [done|]; intros [|c] p Hp; [injection Hp as <-; done|done]).
Qed.

Lemma sample_page_wf : page_wf sample_page.
Proof. split; apply length_replicate. Qed.

Lemma sample_start : recover_start (Some sample_page) (wal0 0 true) shm0 (mk_file sample_log []) sample_locks.
Proof.
  split.
  - apply wal0_mapping.
  - done.
  - done.
  - constructor.
  - intros pg E. replace pg with sample_page by congruence. apply sample_page_wf.
  - apply (bool_decide_unpack _). vm_compute. done.
  - vm_compute. done.
  - intros _. vm_compute. discriminate.
  - intros _. split; [apply sample_locks_wf|by eexists].
  - intros _ j Hj. change (WAL_ALL_BUT_WRITE + (if ckptLock (wal0 0 true) then 1 else 0)) with 1 in Hj.
    assert (j = 1 \/ j = 2 \/ j = 3 \/ j = 4 \/ j = 5 \/ j = 6 \/ j = 7) as Hc by lia. repeat (destruct Hc as [->|Hc]); [..|subst j]; reflexivity.
  - done.
Qed.

Lemma sample_fine : recover_fine (Some sample_page) (wal0 0 true) (mk_file sample_log []) sample_locks.
Proof.
  split.
  - reflexivity.
  - discriminate.
  - exists 0. reflexivity.
  - intros _. vm_compute. reflexivity.
  - intros _. reflexivity.
  - intros _ c j _ Hc. destruct c as [|c]; [by destruct Hc|]. reflexivity.
Qed.

Lemma recovery_finds_commits_witness : exists w' s' fd' l',
  walIndexRecover (Some sample_page) (wal0 0 true) shm0 (mk_file sample_log []) sample_locks = Done (SQLITE_OK, w', s', fd', l') /\
  mxFrame (hdr w') = 2 /\ nPage (hdr w') = 9.
Proof.
  destruct (recovery_finds_commits (Some sample_page) (wal0 0 true) shm0 (mk_file sample_log []) sample_locks sample_start)
    as (rc & w' & s' & fd' & l' & E & _ & Hok & _ & _ & Hfine).
  pose proof (Hfine sample_fine) as Hrc. rewrite Hrc in E.
  destruct (Hok Hrc) as (R & _ & R2 & _). exists w', s', fd', l'. split; [exact E|]. split; [rewrite (lr_mx _ _ _ R)|rewrite R2]; vm_compute; reflexivity.
Defined.

(** A header with the page size 0x80000000: the program is undefined, whatever follows. *)
Lemma recover_header_overflow w tail : recover_header w (sample_head (2 ^ 31) ++ tail) = UB.
Proof. reflexivity. Qed.
