(* ===== verification/WalRead.v ===== *)
(** * WalRead: transactions on the log (sqlite3.c, wal.c)

    Reading the header of the index, beginning and ending read and write transactions, and
    restarting the log.  A connection that is told that the shared memory cannot be
    initialised because it is read-only goes on with a private index; what it does then is
    the parameter [unreliable] (with the code, whether the header has changed, and the
    state at that point), and [walBeginShmUnreliable] is the rest of it.

    [memcmp] of two headers is equality of the records.  The sleeps between two attempts
    do nothing here. *)

From S2P Require Import Prelude Varint CType ByteMem OsFile WalCksum WalIndex WalFrame WalLock WalIndexRefine WalRecover.

Definition SQLITE_PROTOCOL : Z := 15.
Definition SQLITE_BUSY_RECOVERY : Z := SQLITE_BUSY .| (1 << 8).
Definition SQLITE_BUSY_SNAPSHOT : Z := SQLITE_BUSY .| (2 << 8).
Definition SQLITE_READONLY_RECOVERY : Z := SQLITE_READONLY .| (1 << 8).
Definition SQLITE_READONLY_CANTINIT : Z := SQLITE_READONLY .| (5 << 8).
Definition WAL_RETRY : Z := -1.

#[export] Instance WalIndexHdr_eq_dec : EqDecision WalIndexHdr.
Proof. solve_decision. Defined.

(** [(szPage&0xfe00) + ((szPage&0x0001)<<16)] *)
Definition walPagesize (h : WalIndexHdr) : Z := (h_szPage h .& 0xfe00) + ((h_szPage h .& 0x0001) << 16).

(** Whether the header is bad, whether it has changed. *)
Definition walIndexTryHdr (w : Wal) (s : Shm) : outcome (bool * bool * Wal) :=
  h1 ← walIndexHdr w s;
  let h2 := s_hdr1 s in
  if negb (bool_decide (h1 = h2)) then Done (true, false, w)
  else if isInit h1 =? 0 then Done (true, false, w)
  else
    c ← walChecksumBytes true (hdr_bytes h1) 40 None;
    if negb (fst c =? fst (aCksum h1)) || negb (snd c =? snd (aCksum h1)) then Done (true, false, w)
    else if negb (bool_decide (hdr w = h1)) then Done (false, true, with_log (with_hdr w h1) (walPagesize h1) (nCkpt w))
    else Done (false, false, w).

Section read.
Context {F L : Type} `{OsFile F} `{ShmLocks L}.
Context (unreliable : Z -> bool -> Wal -> Shm -> F -> L -> outcome (Z * bool * Wal * Shm * F * L)).
Context (walBeginShmUnreliable : bool -> Wal -> Shm -> F -> L -> outcome (Z * bool * Wal * Shm * F * L)).
Context (aPrivate : option WiPage).

(** With the writer's lock: once more, and recovery when the header is still bad. *)
Definition read_locked (w : Wal) (s : Shm) (fd : F) (l : L) (pChanged : bool) : outcome (Z * bool * bool * Wal * Shm * F * L) :=
  let '(rc, w, s) := walIndexPage w 0 s in
  if negb (rc =? SQLITE_OK) then Done (rc, true, pChanged, w, s, fd, l)
  else
    '(badHdr, changed, w) ← walIndexTryHdr w s;
    if (badHdr : bool) then '(rc, w, s, fd, l) ← walIndexRecover aPrivate w s fd l; Done (rc, true, true, w, s, fd, l)
    else Done (SQLITE_OK, false, pChanged || changed, w, s, fd, l).

(** The code, whether the header is still bad, and whether it has changed. *)
Definition read_badHdr (w : Wal) (s : Shm) (fd : F) (l : L) (pChanged : bool) : outcome (Z * bool * bool * Wal * Shm * F * L) :=
  if negb (bShmUnreliable w) && negb (readOnly w .& WAL_SHM_RDONLY =? 0) then
    let '(rc, l) := walLockShared w WAL_WRITE_LOCK l in
    Done (if rc =? SQLITE_OK then (SQLITE_READONLY_RECOVERY, true, pChanged, w, s, fd, walUnlockShared w WAL_WRITE_LOCK l)
          else (rc, true, pChanged, w, s, fd, l))
  else
    let bWriteLock := writeLock w in
    let '(rc, l) := if bWriteLock then (SQLITE_OK, l) else walLockExclusive w WAL_WRITE_LOCK 1 l in
    if negb (rc =? SQLITE_OK) then Done (rc, true, pChanged, w, s, fd, l)
    else
      '(rc, badHdr, pChanged, w, s, fd, l) ← read_locked (with_writeLock w true) s fd l pChanged;
      Done (if bWriteLock then (rc, badHdr, pChanged, w, s, fd, l)
            else (rc, badHdr, pChanged, with_writeLock w false, s, fd, walUnlockExclusive (with_writeLock w false) WAL_WRITE_LOCK 1 l)).

Definition walIndexReadHdr (w : Wal) (s : Shm) (fd : F) (l : L) : outcome (Z * bool * Wal * Shm * F * L) :=
  let '(rc, w, s) := walIndexPage w 0 s in
  if rc =? SQLITE_READONLY_CANTINIT then unreliable rc true (with_mode w WAL_HEAPMEMORY_MODE true) s fd l
  else if negb (rc =? SQLITE_OK) then Done (rc, false, w, s, fd, l)
  else
    '(badHdr, pChanged, w) ← (if bool_decide (0 ∈ w_mapped w) then walIndexTryHdr w s else Done (true, false, w));
    '(rc, badHdr, pChanged, w, s, fd, l) ← (if (badHdr : bool) then read_badHdr w s fd l pChanged else Done (SQLITE_OK, false, pChanged, w, s, fd, l));
    let rc := if negb badHdr && negb (iVersion (hdr w) =? WALINDEX_MAX_VERSION) then SQLITE_CANTOPEN else rc in
    if bShmUnreliable w then unreliable rc pChanged w s fd l
    else Done (rc, pChanged, w, s, fd, l).

(** ** Beginning to read *)

(** The largest mark that does not exceed [mxFrame], and its number; the marks from [i] on. *)
Fixpoint best_mark (n : nat) (i : Z) (marks : list Z) (mx mxReadMark mxI : Z) : outcome (Z * Z) :=
  match n with
  | O => Done (mxReadMark, mxI)
  | S n =>
      thisMark ← rd marks i;
      if (mxReadMark <=? thisMark) && (thisMark <=? mx) then best_mark n (i + 1) marks mx thisMark i
      else best_mark n (i + 1) marks mx mxReadMark mxI
  end.

(** Set the first mark that nobody uses; the code, whether the function returns it, the marks
    and the choice. *)
Fixpoint set_mark (n : nat) (i rc : Z) (w : Wal) (marks : list Z) (mx mxReadMark mxI : Z) (l : L) : Z * bool * list Z * Z * Z * L :=
  match n with
  | O => (rc, false, marks, mxReadMark, mxI, l)
  | S n =>
      let '(rc, l) := walLockExclusive w (WAL_READ_LOCK i) 1 l in
      if rc =? SQLITE_OK then (rc, false, <[Z.to_nat i := mx]> marks, mx, i, walUnlockExclusive w (WAL_READ_LOCK i) 1 l)
      else if negb (rc =? SQLITE_BUSY) then (rc, true, marks, mxReadMark, mxI, l)
      else set_mark n (i + 1) rc w marks mx mxReadMark mxI l
  end.

Definition with_marks (s : Shm) (marks : list Z) : Shm := with_ckpt s (mk_ckpt (nBackfill (s_ckpt s)) marks (nBackfillAttempted (s_ckpt s))).

(** A read transaction that uses the log; [rc] is the code so far. *)
Definition begin_marked (rc : Z) (w : Wal) (s : Shm) (l : L) : outcome (Z * Wal * Shm * L) :=
  let mx := mxFrame (hdr w) in
  '(mxReadMark, mxI) ← best_mark (Z.to_nat (WAL_NREADER - 1)) 1 (aReadMark (s_ckpt s)) mx 0 0;
  let '(rc, failed, marks, mxReadMark, mxI, l) :=
    if (readOnly w .& WAL_SHM_RDONLY =? 0) && ((mxReadMark <? mx) || (mxI =? 0))
    then set_mark (Z.to_nat (WAL_NREADER - 1)) 1 rc w (aReadMark (s_ckpt s)) mx mxReadMark mxI l
    else (rc, false, aReadMark (s_ckpt s), mxReadMark, mxI, l) in
  let s := with_marks s marks in
  if failed then Done (rc, w, s, l)
  else if mxI =? 0 then Done (if rc =? SQLITE_BUSY then WAL_RETRY else SQLITE_READONLY_CANTINIT, w, s, l)
  else
    let '(rc, l) := walLockShared w (WAL_READ_LOCK mxI) l in
    if negb (rc =? SQLITE_OK) then Done (if rc =? SQLITE_BUSY then WAL_RETRY else rc, w, s, l)
    else
      let w := with_minFrame w (u32 (nBackfill (s_ckpt s) + 1)) in
      mark ← rd (aReadMark (s_ckpt s)) mxI;
      live ← walIndexHdr w s;
      if negb (mark =? mxReadMark) || negb (bool_decide (live = hdr w)) then Done (WAL_RETRY, w, s, walUnlockShared w (WAL_READ_LOCK mxI) l)
      else Done (rc, with_readLock w mxI, s, l).

(** From [pInfo = walCkptInfo(pWal)] on. *)
Definition begin_locked (useWal : bool) (w : Wal) (s : Shm) (l : L) : outcome (Z * Wal * Shm * L) :=
  live ← walIndexHdr w s;
  if negb useWal && (nBackfill (s_ckpt s) =? mxFrame (hdr w)) then
    let '(rc, l) := walLockShared w (WAL_READ_LOCK 0) l in
    if rc =? SQLITE_OK then
      Done (if negb (bool_decide (live = hdr w)) then (WAL_RETRY, w, s, walUnlockShared w (WAL_READ_LOCK 0) l)
            else (SQLITE_OK, with_readLock w 0, s, l))
    else if negb (rc =? SQLITE_BUSY) then Done (rc, w, s, l)
    else begin_marked rc w s l
  else begin_marked SQLITE_OK w s l.

(** The header, for a connection that does not have it; BUSY is explained. *)
Definition begin_header (w : Wal) (s : Shm) (fd : F) (l : L) : outcome (Z * bool * Wal * Shm * F * L) :=
  '(rc, pChanged, w, s, fd, l) ← (if bShmUnreliable w then Done (SQLITE_OK, false, w, s, fd, l) else walIndexReadHdr w s fd l);
  if rc =? SQLITE_BUSY then
    if negb (bool_decide (0 ∈ w_mapped w)) then Done (WAL_RETRY, pChanged, w, s, fd, l)
    else
      let '(rc, l) := walLockShared w WAL_RECOVER_LOCK l in
      Done (if rc =? SQLITE_OK then (WAL_RETRY, pChanged, w, s, fd, walUnlockShared w WAL_RECOVER_LOCK l)
            else if rc =? SQLITE_BUSY then (SQLITE_BUSY_RECOVERY, pChanged, w, s, fd, l)
            else (rc, pChanged, w, s, fd, l))
  else Done (rc, pChanged, w, s, fd, l).

Definition walTryBeginRead (useWal : bool) (cnt : Z) (w : Wal) (s : Shm) (fd : F) (l : L) : outcome (Z * bool * Wal * Shm * F * L) :=
  if 100 <? cnt then Done (SQLITE_PROTOCOL, false, w, s, fd, l)
  else
    '(rc, pChanged, w, s, fd, l) ← (if useWal then Done (SQLITE_OK, false, w, s, fd, l) else begin_header w s fd l);
    if negb (rc =? SQLITE_OK) then Done (rc, pChanged, w, s, fd, l)
    else if negb useWal && bShmUnreliable w then walBeginShmUnreliable pChanged w s fd l
    else '(rc, w, s, l) ← begin_locked useWal w s l; Done (rc, pChanged, w, s, fd, l).

(** [do ... while( rc==WAL_RETRY )]; [cnt] is the number of the attempt.  The attempt after
    the hundredth answers SQLITE_PROTOCOL, so that 101 are enough. *)
Fixpoint begin_loop (fuel : nat) (useWal : bool) (cnt : Z) (w : Wal) (s : Shm) (fd : F) (l : L) (pChanged : bool) : outcome (Z * bool * Wal * Shm * F * L) :=
  match fuel with
  | O => UB
  | S fuel =>
      '(rc, changed, w, s, fd, l) ← walTryBeginRead useWal cnt w s fd l;
      if rc =? WAL_RETRY then begin_loop fuel useWal (cnt + 1) w s fd l (pChanged || changed)
      else Done (rc, pChanged || changed, w, s, fd, l)
  end.

Definition sqlite3WalBeginReadTransaction (w : Wal) (s : Shm) (fd : F) (l : L) : outcome (Z * bool * Wal * Shm * F * L) :=
  begin_loop 101 false 1 w s fd l false.

(** ** Writing and ending *)

Definition sqlite3WalEndWriteTransaction (w : Wal) (l : L) : Z * Wal * L :=
  if writeLock w then
    let l := walUnlockExclusive w WAL_WRITE_LOCK 1 l in
    (SQLITE_OK, with_truncate (with_recksum (with_writeLock w false) 0) false, l)
  else (SQLITE_OK, w, l).

Definition sqlite3WalEndReadTransaction (w : Wal) (l : L) : Wal * L :=
  let '(_, w, l) := sqlite3WalEndWriteTransaction w l in
  if 0 <=? readLock w then (with_readLock w (-1), walUnlockShared w (WAL_READ_LOCK (readLock w)) l) else (w, l).

Definition sqlite3WalBeginWriteTransaction (w : Wal) (s : Shm) (l : L) : outcome (Z * Wal * L) :=
  if negb (readOnly w =? 0) then Done (SQLITE_READONLY, w, l)
  else
    let '(rc, l) := walLockExclusive w WAL_WRITE_LOCK 1 l in
    if negb (rc =? SQLITE_OK) then Done (rc, w, l)
    else
      let w := with_writeLock w true in
      live ← walIndexHdr w s;
      Done (if negb (bool_decide (hdr w = live)) then (SQLITE_BUSY_SNAPSHOT, with_writeLock w false, walUnlockExclusive w WAL_WRITE_LOCK 1 l)
            else (rc, w, l)).

(** ** Restarting the log *)

(** The marks after a restart. *)
Definition restart_marks (marks : list Z) : list Z := take 1 marks ++ [0] ++ replicate (Z.to_nat (WAL_NREADER - 2)) READMARK_NOT_USED.

Definition walRestartHdr (salt1 : bytes) (w : Wal) (s : Shm) : outcome (Wal * Shm) :=
  let h := hdr w in
  v ← get4byte (aSalt h) 0;
  let salt := sqlite3Put4byte (u32 (1 + v)) ++ salt1 in
  let w := with_hdr (with_log w (szPage w) (u32 (nCkpt w + 1)))
             (mk_hdr (iVersion h) (iChange h) (isInit h) (bigEndCksum h) (h_szPage h) 0 (nPage h) (aFrameCksum h) salt (aCksum h)) in
  '(w, s) ← walIndexWriteHdr w s;
  Done (w, with_ckpt s (mk_ckpt 0 (restart_marks (aReadMark (s_ckpt s))) 0)).

(** [salt1]: the answer of [sqlite3_randomness]. *)
Definition walRestartLog (salt1 : bytes) (w : Wal) (s : Shm) (fd : F) (l : L) : outcome (Z * Wal * Shm * F * L) :=
  if negb (readLock w =? 0) then Done (SQLITE_OK, w, s, fd, l)
  else
    _ ← walIndexHdr w s;
    '(rc, failed, w, s, l) ←
      (if 0 <? nBackfill (s_ckpt s) then
         let '(rc, l) := walLockExclusive w (WAL_READ_LOCK 1) (WAL_NREADER - 1) l in
         if rc =? SQLITE_OK then
           '(w, s) ← walRestartHdr salt1 w s;
           Done (rc, false, w, s, walUnlockExclusive w (WAL_READ_LOCK 1) (WAL_NREADER - 1) l)
         else Done (rc, negb (rc =? SQLITE_BUSY), w, s, l)
       else Done (SQLITE_OK, false, w, s, l));
    if (failed : bool) then Done (rc, w, s, fd, l)
    else
      let l := walUnlockShared w (WAL_READ_LOCK 0) l in
      '(rc, _, w, s, fd, l) ← begin_loop 101 true 1 (with_readLock w (-1)) s fd l false;
      Done (rc, w, s, fd, l).
End read.
