(* ===== verification/WalCkpt.v ===== *)
(** * WalCkpt: the checkpoint (sqlite3.c, wal.c)

    [walCheckpoint] copies frames of the log into the database file, as far as no reader is
    in the way, and [sqlite3WalCheckpoint] takes the locks for it.  Besides the state of the
    other files there is the database file [db].

    [interrupts] are the answers of [db->u1.isInterrupted]; the other parameters of the
    allocator and the random numbers are as in WalIter and WalRead.  The file controls
    (start and end of a checkpoint, the expected size) are hints and change no content. *)

From S2P Require Import Prelude Varint CType ByteMem OsFile WalCksum WalIndex WalFrame WalLock WalIndexRefine WalIter WalPages WalRecover WalRead.

Definition SQLITE_CHECKPOINT_PASSIVE : Z := 0.
Definition SQLITE_CHECKPOINT_RESTART : Z := 2.
Definition SQLITE_CHECKPOINT_TRUNCATE : Z := 3.

Section ckpt.
Context {F L : Type} `{OsFile F} `{ShmLocks L}.

(** How far it is safe to go: the marks from [i] on.  The code, whether it is a failure, the
    busy handler, the marks and the frame. *)
Fixpoint ckpt_marks (n : nat) (i rc : Z) (xBusy : option (list bool)) (w : Wal) (marks : list Z) (mxSafeFrame : Z) (l : L) : outcome (Z * bool * option (list bool) * list Z * Z * L) :=
  match n with
  | O => Done (rc, false, xBusy, marks, mxSafeFrame, l)
  | S n =>
      y ← rd marks i;
      if y <? mxSafeFrame then
        let '(rc, xBusy, l) := walBusyLock xBusy w (WAL_READ_LOCK i) 1 l in
        if rc =? SQLITE_OK then
          ckpt_marks n (i + 1) rc xBusy w (<[Z.to_nat i := if i =? 1 then mxSafeFrame else READMARK_NOT_USED]> marks) mxSafeFrame (walUnlockExclusive w (WAL_READ_LOCK i) 1 l)
        else if rc =? SQLITE_BUSY then ckpt_marks n (i + 1) rc None w marks y l
        else Done (rc, true, xBusy, marks, mxSafeFrame, l)
      else ckpt_marks n (i + 1) rc xBusy w marks mxSafeFrame l
  end.

(** The pages that the iterator gives, while [rc] is SQLITE_OK. *)
Fixpoint backfill_loop (fuel : nat) (pIter : WalIterator) (iFrame : Z) (interrupts : list bool) (mallocFailed : bool) (szPage nBackfill mxSafeFrame mxPage : Z) (s : Shm) (log db : F) : outcome (Z * F * F) :=
  match fuel with
  | O => UB
  | S fuel =>
      '(stop, iDbpage, iFrame, pIter) ← walIteratorNext pIter iFrame s;
      if negb (stop =? 0) then Done (SQLITE_OK, log, db)
      else if default false (head interrupts) then Done (if mallocFailed then SQLITE_NOMEM else SQLITE_INTERRUPT, log, db)
      else if (iFrame <=? nBackfill) || (mxSafeFrame <? iFrame) || (mxPage <? iDbpage) then
        backfill_loop fuel pIter iFrame (tl interrupts) mallocFailed szPage nBackfill mxSafeFrame mxPage s log db
      else
        let '(rc, zBuf, log) := sqlite3OsRead log szPage (walFrameOffset iFrame szPage + WAL_FRAME_HDRSIZE) in
        if negb (rc =? SQLITE_OK) then Done (rc, log, db)
        else
          let '(rc, db) := sqlite3OsWrite db zBuf (u32 (iDbpage - 1) * szPage) in
          if negb (rc =? SQLITE_OK) then Done (rc, log, db)
          else backfill_loop fuel pIter iFrame (tl interrupts) mallocFailed szPage nBackfill mxSafeFrame mxPage s log db
  end.

(** The expected size of the database: whether it can be right. *)
Definition ckpt_size (mxPage szPage : Z) (w : Wal) (db : F) : Z * F :=
  let nReq := mxPage * szPage in
  let '(rc, nSize, db) := sqlite3OsFileSize db in
  ((if (rc =? SQLITE_OK) && (nSize <? nReq) && (nSize + 65536 + mxFrame (hdr w) * szPage <? nReq) then SQLITE_CORRUPT else rc), db).

(** After the pages: the size of the file, a sync, and the new [nBackfill]. *)
Definition ckpt_done (szPage mxSafeFrame sync_flags : Z) (w : Wal) (s : Shm) (db : F) : outcome (Z * Shm * F) :=
  live ← walIndexHdr w s;
  let '(rc, db) :=
    if mxSafeFrame =? mxFrame live then
      let '(rc, db) := sqlite3OsTruncate db (nPage (hdr w) * szPage) in
      if rc =? SQLITE_OK then sqlite3OsSync db (CKPT_SYNC_FLAGS sync_flags) else (rc, db)
    else (SQLITE_OK, db) in
  Done (rc, if rc =? SQLITE_OK then with_ckpt s (mk_ckpt mxSafeFrame (aReadMark (s_ckpt s)) (nBackfillAttempted (s_ckpt s))) else s, db).

(** With the lock of the readers of the database file. *)
Definition ckpt_backfill (pIter : WalIterator) (interrupts : list bool) (mallocFailed : bool) (szPage mxSafeFrame mxPage sync_flags : Z) (w : Wal) (s : Shm) (log db : F) : outcome (Z * Shm * F * F) :=
  let n := nBackfill (s_ckpt s) in
  let s := with_ckpt s (mk_ckpt n (aReadMark (s_ckpt s)) mxSafeFrame) in
  let '(rc, log) := sqlite3OsSync log (CKPT_SYNC_FLAGS sync_flags) in
  let '(rc, db) := if rc =? SQLITE_OK then ckpt_size mxPage szPage w db else (rc, db) in
  '(rc, log, db) ← (if rc =? SQLITE_OK then backfill_loop (S (S (Z.to_nat (mxFrame (hdr w))))) pIter 0 interrupts mallocFailed szPage n mxSafeFrame mxPage s log db
                    else Done (rc, log, db));
  '(rc, s, db) ← (if rc =? SQLITE_OK then ckpt_done szPage mxSafeFrame sync_flags w s db else Done (rc, s, db));
  Done (rc, s, log, db).

(** The part of [walCheckpoint] that copies: the code, the busy handler and the state. *)
Definition ckpt_copy (ok1 ok2 : bool) (interrupts : list bool) (mallocFailed : bool) (xBusy : option (list bool)) (sync_flags : Z) (w : Wal) (s : Shm) (log db : F) (l : L) : outcome (Z * option (list bool) * Wal * Shm * F * F * L) :=
  let szPage := walPagesize (hdr w) in
  let mxPage := nPage (hdr w) in
  '(rc, failed, xBusy, marks, mxSafeFrame, l) ← ckpt_marks (Z.to_nat (WAL_NREADER - 1)) 1 SQLITE_OK xBusy w (aReadMark (s_ckpt s)) (mxFrame (hdr w)) l;
  let s := with_marks s marks in
  if (failed : bool) then Done (rc, xBusy, w, s, log, db, l)
  else
    '(rc, pIter, w, s) ← (if nBackfill (s_ckpt s) <? mxSafeFrame then walIteratorInit ok1 ok2 (nBackfill (s_ckpt s)) w s else Done (rc, None, w, s));
    '(rc, xBusy, s, log, db, l) ←
      match pIter with
      | Some pIter =>
          let '(rc, xBusy, l) := walBusyLock xBusy w (WAL_READ_LOCK 0) 1 l in
          if rc =? SQLITE_OK then
            '(rc, s, log, db) ← ckpt_backfill pIter interrupts mallocFailed szPage mxSafeFrame mxPage sync_flags w s log db;
            Done (rc, xBusy, s, log, db, walUnlockExclusive w (WAL_READ_LOCK 0) 1 l)
          else Done (rc, xBusy, s, log, db, l)
      | None => Done (rc, xBusy, s, log, db, l)
      end;
    Done (if rc =? SQLITE_BUSY then SQLITE_OK else rc, xBusy, w, s, log, db, l).

(** The part for the modes other than PASSIVE. *)
Definition ckpt_restart (eMode : Z) (xBusy : option (list bool)) (salt1 : bytes) (w : Wal) (s : Shm) (log : F) (l : L) : outcome (Z * Wal * Shm * F * L) :=
  if nBackfill (s_ckpt s) <? mxFrame (hdr w) then Done (SQLITE_BUSY, w, s, log, l)
  else if SQLITE_CHECKPOINT_RESTART <=? eMode then
    let '(rc, _, l) := walBusyLock xBusy w (WAL_READ_LOCK 1) (WAL_NREADER - 1) l in
    if rc =? SQLITE_OK then
      '(rc, w, s, log) ←
        (if eMode =? SQLITE_CHECKPOINT_TRUNCATE then
           '(w, s) ← walRestartHdr salt1 w s;
           let '(rc, log) := sqlite3OsTruncate log 0 in Done (rc, w, s, log)
         else Done (rc, w, s, log));
      Done (rc, w, s, log, walUnlockExclusive w (WAL_READ_LOCK 1) (WAL_NREADER - 1) l)
    else Done (rc, w, s, log, l)
  else Done (SQLITE_OK, w, s, log, l).

Definition walCheckpoint (ok1 ok2 : bool) (interrupts : list bool) (mallocFailed : bool) (salt1 : bytes) (eMode : Z) (xBusy : option (list bool)) (sync_flags : Z) (w : Wal) (s : Shm) (log db : F) (l : L) : outcome (Z * Wal * Shm * F * F * L) :=
  _ ← walIndexHdr w s;
  '(rc, xBusy, w, s, log, db, l) ←
    (if nBackfill (s_ckpt s) <? mxFrame (hdr w) then ckpt_copy ok1 ok2 interrupts mallocFailed xBusy sync_flags w s log db l
     else Done (SQLITE_OK, xBusy, w, s, log, db, l));
  if (rc =? SQLITE_OK) && negb (eMode =? SQLITE_CHECKPOINT_PASSIVE) then
    '(rc, w, s, log, l) ← ckpt_restart eMode xBusy salt1 w s log l; Done (rc, w, s, log, db, l)
  else Done (rc, w, s, log, db, l).

(** ** The checkpoint of a connection *)

Context (unreliable : Z -> bool -> Wal -> Shm -> F -> L -> outcome (Z * bool * Wal * Shm * F * L)).
Context (aPrivate : option WiPage).

(** The checkpoint lock, and for the modes other than PASSIVE the writer's lock: the code,
    the mode and the busy handler to go on with. *)
Definition checkpoint_lock (eMode : Z) (xBusy : option (list bool)) (w : Wal) (l : L) : Z * Z * option (list bool) * Wal * L :=
  let '(rc, l) := walLockExclusive w WAL_CKPT_LOCK 1 l in
  if rc =? SQLITE_OK then
    let w := with_ckptLock w true in
    if negb (eMode =? SQLITE_CHECKPOINT_PASSIVE) then
      let '(rc, xBusy, l) := walBusyLock xBusy w WAL_WRITE_LOCK 1 l in
      if rc =? SQLITE_OK then (rc, eMode, xBusy, with_writeLock w true, l)
      else if rc =? SQLITE_BUSY then (SQLITE_OK, SQLITE_CHECKPOINT_PASSIVE, None, w, l)
      else (rc, eMode, xBusy, w, l)
    else (rc, eMode, xBusy, w, l)
  else (rc, eMode, xBusy, w, l).

Definition checkpoint_unlock (w : Wal) (l : L) : Wal * L :=
  let '(_, w, l) := sqlite3WalEndWriteTransaction w l in
  if ckptLock w then (with_ckptLock w false, walUnlockExclusive w WAL_CKPT_LOCK 1 l) else (w, l).

(** The code, [*pnLog] and [*pnCkpt] if they are set, and the state. *)
Definition sqlite3WalCheckpoint (ok1 ok2 : bool) (interrupts : list bool) (mallocFailed : bool) (salt1 : bytes) (eMode : Z) (xBusy : option (list bool)) (sync_flags nBuf : Z) (w : Wal) (s : Shm) (log db : F) (l : L) : outcome (Z * option (Z * Z) * Wal * Shm * F * F * L) :=
  if negb (readOnly w =? 0) then Done (SQLITE_READONLY, None, w, s, log, db, l)
  else
    let '(rc, eMode2, xBusy2, w, l) := checkpoint_lock eMode xBusy w l in
    '(rc, isChanged, w, s, log, l) ← (if rc =? SQLITE_OK then walIndexReadHdr unreliable aPrivate w s log l else Done (rc, false, w, s, log, l));
    '(rc, counts, w, s, log, db, l) ←
      (if rc =? SQLITE_OK then
         '(rc, w, s, log, db, l) ←
           (if negb (mxFrame (hdr w) =? 0) && negb (walPagesize (hdr w) =? nBuf) then Done (SQLITE_CORRUPT, w, s, log, db, l)
            else walCheckpoint ok1 ok2 interrupts mallocFailed salt1 eMode2 xBusy2 sync_flags w s log db l);
         Done (rc, (if (rc =? SQLITE_OK) || (rc =? SQLITE_BUSY) then Some (i32 (mxFrame (hdr w)), i32 (nBackfill (s_ckpt s))) else None), w, s, log, db, l)
       else Done (rc, None, w, s, log, db, l));
    let w := if (isChanged : bool) then with_hdr w hdr_zero else w in
    let '(w, l) := checkpoint_unlock w l in
    Done ((if (rc =? SQLITE_OK) && negb (eMode =? eMode2) then SQLITE_BUSY else rc), counts, w, s, log, db, l).

(** A failure is logged, no more. *)
Definition walLimitSize (nMax : Z) (fd : F) : F :=
  let '(rx, sz, fd) := sqlite3OsFileSize fd in
  if (rx =? SQLITE_OK) && (nMax <? sz) then snd (sqlite3OsTruncate fd nMax) else fd.
End ckpt.
