(* ===== verification/WalBackfill.v ===== *)
(** * WalBackfill: a checkpoint changes no snapshot

    The meaning of a database file and its log: [snapshot_page], the content of a page for
    a reader that uses the frames from [lo] to [hi].  The theorems are about [walCheckpoint]
    of WalCkpt, over any files and locks, in every mode, with readers and writers at work. *)

From Stdlib Require Import Sorted.
From S2P Require Import Prelude Varint CType ByteMem OsFile WalCksum WalIndex WalFrame WalLock WalIndexRefine WalIter WalPages WalRecover WalRead WalCkpt.

(** [n] bytes from [off] on; what is behind the end of the file reads as zero, as in the pager. *)
Definition page_bytes (d : bytes) (off n : Z) : bytes := map (fun j => d.[off + j]) (seqZ 0 n).
Definition db_page (szPage : Z) (d : bytes) (p : Z) : bytes := page_bytes d ((p - 1) * szPage) szPage.
Definition frame_page (szPage : Z) (d : bytes) (f : Z) : bytes := page_bytes d (WAL_HDRSIZE + (f - 1) * (szPage + WAL_FRAME_HDRSIZE) + WAL_FRAME_HDRSIZE) szPage.

Definition snapshot_page (szPage : Z) (frames : list Z) (log db : bytes) (lo hi p : Z) : bytes :=
  let f := last_frame frames p lo hi in if f =? 0 then db_page szPage db p else frame_page szPage log f.

(** ** Pages of a file *)

Lemma page_bytes_ext d d' off n : (forall j, 0 <= j < n -> d'.[off + j] = d.[off + j]) -> page_bytes d' off n = page_bytes d off n.
Proof. intros E. apply map_ext_in. intros j Hj%list_elem_of_In%elem_of_seqZ. apply E. lia. Qed.

Lemma sub_page d off n : 0 <= off -> 0 <= n -> off + n <= len d -> sub d off n = page_bytes d off n.
Proof.
  intros. apply bytes_ext; [pose proof (sub_length d off n); unfold page_bytes; rewrite length_map, length_seqZ; lia|]. intros j Hj. rewrite sub_length in Hj by lia.
  rewrite ld_sub by lia. unfold page_bytes, ld at 2. rewrite nth_lookup. rewrite list_lookup_fmap, lookup_seqZ_lt by lia. cbn. f_equal. lia.
Qed.

Lemma page_write_same szPage d p b : 0 < p -> 0 < szPage -> len b = szPage -> db_page szPage (write_at d ((p - 1) * szPage) b) p = b.
Proof.
  intros Hp Hs Hb. unfold db_page. pose proof (write_at_length d ((p - 1) * szPage) b ltac:(nia)) as L. rewrite <- sub_page by nia. rewrite <- Hb at 3. apply sub_write_same. nia.
Qed.

Lemma page_write_other szPage d d' p q b rc : 0 < p -> 0 < q -> p <> q -> 0 < szPage -> len b = szPage -> write_result d d' ((p - 1) * szPage) b rc ->
  db_page szPage d' q = db_page szPage d q.
Proof.
  intros Hp Hq Hne Hs Hb Hw. apply page_bytes_ext. intros j Hj. assert (0 <= (p - 1) * szPage /\ 0 <= (q - 1) * szPage) as [P1 P2] by nia.
  assert ((q - 1) * szPage + szPage <= (p - 1) * szPage \/ (p - 1) * szPage + szPage <= (q - 1) * szPage) as P3 by nia.
  assert (forall k, ((write_at d ((p - 1) * szPage) (take k b)).[(q - 1) * szPage + j] = d.[(q - 1) * szPage + j])) as E.
  { intros k. rewrite ld_write_at by lia. rewrite decide_False; [done|]. rewrite length_take. lia. }
  unfold write_result in Hw. destruct (rc =? SQLITE_OK); [subst d'; specialize (E (length b)); by rewrite take_ge in E by done|]. destruct Hw as [->|(k & _ & ->)]; [done|apply E].
Qed.

Lemma write_result_length d d' off b rc : 0 <= off -> write_result d d' off b rc -> len d <= len d' /\ (rc = SQLITE_OK -> off + len b <= len d').
Proof.
  intros Ho Hw. unfold write_result in Hw. destruct (Z.eqb_spec rc SQLITE_OK) as [->|Hrc]; [subst d'; pose proof (write_at_length d off b Ho); lia|].
  split; [|done]. destruct Hw as [->|(k & _ & ->)]; [done|]. pose proof (write_at_length d off (take k b) Ho). lia.
Qed.

Lemma page_resize szPage d n p : 0 < szPage -> 0 < p <= n -> db_page szPage (resize d (n * szPage)) p = db_page szPage d p.
Proof.
  intros Hs Hp. apply page_bytes_ext. intros j Hj. unfold resize. assert (0 <= (p - 1) * szPage /\ (p - 1) * szPage + szPage <= n * szPage) as [? ?] by nia.
  rewrite ld_app by lia. rewrite length_take. destruct (Z.ltb_spec ((p - 1) * szPage + j) (Z.min (n * szPage) (len d))) as [Hlt|Hge].
  - rewrite (proj2 (Z.ltb_lt _ _)) by lia. by rewrite ld_take by lia.
  - rewrite (proj2 (Z.ltb_ge _ _)) by lia. rewrite ld_zeros. by rewrite ld_beyond by lia.
Qed.

(** ** Copying *)

Section copy.
Context {F : Type} `{OsFileLaws F}.
Context (frames : list Z) (N nb mxSafe mxPage szPage : Z) (s : Shm).
Hypothesis HN : 1 <= N <= len frames /\ N < 2 ^ 31.
Hypothesis Hpages : Forall (fun p => 0 < p < 0xFFFFFFFF) frames.
Hypothesis Hnb : 0 <= nb < N.
Hypothesis Hsz : page_size_ok szPage.
Hypothesis Hs : index_holds s frames.

Let h0 : Z := walFramePage (nb + 1).

(** Page [p] is to be copied from frame [f]. *)
Definition target (p f : Z) : Prop := newest frames N h0 p f /\ nb < f <= mxSafe /\ p <= mxPage.

Lemma newest_unique p f f' : newest frames N h0 p f -> newest frames N h0 p f' -> f = f'.
Proof.
  intros (F1 & E1 & N1) (F2 & E2 & N2). destruct (Z.lt_trichotomy f f') as [Hl|[Hl|Hl]]; [|done|].
  - by destruct (N1 f' ltac:(lia)).
  - by destruct (N2 f ltac:(lia)).
Qed.

Lemma frame_offset f : 1 <= f <= N -> walFrameOffset f szPage + WAL_FRAME_HDRSIZE = WAL_HDRSIZE + (f - 1) * (szPage + WAL_FRAME_HDRSIZE) + WAL_FRAME_HDRSIZE /\
  0 <= (f - 1) * (szPage + WAL_FRAME_HDRSIZE) < 2 ^ 31 * (2 ^ 16 + 24).
Proof. intros Hf. destruct Hsz. unfold walFrameOffset. rewrite u32_id by lia. change WAL_FRAME_HDRSIZE with 24. split; [lia|nia]. Qed.

(** One page: the others stay as they are, and an answer of SQLITE_OK means that it is copied. *)
Lemma copy_one fr pg (log db : F) : 1 <= fr <= N -> 0 < pg < 2 ^ 32 -> os_ok log -> os_ok db ->
  exists rc zBuf log' rc' db', sqlite3OsRead log szPage (walFrameOffset fr szPage + WAL_FRAME_HDRSIZE) = (rc, zBuf, log') /\
    sqlite3OsWrite db zBuf (u32 (pg - 1) * szPage) = (rc', db') /\ os_ok log' /\ os_ok db' /\ os_data log' = os_data log /\
    (forall p, 0 < p -> p <> pg -> db_page szPage (os_data db') p = db_page szPage (os_data db) p) /\
    len (os_data db) <= len (os_data db') /\
    (rc = SQLITE_OK -> rc' = SQLITE_OK -> db_page szPage (os_data db') pg = frame_page szPage (os_data log) fr /\ pg * szPage <= len (os_data db')) /\
    (forall n m, os_fine log m -> os_fine db n -> WAL_HDRSIZE + N * (szPage + WAL_FRAME_HDRSIZE) <= len (os_data log) -> pg * szPage <= n ->
       rc = SQLITE_OK /\ rc' = SQLITE_OK /\ os_fine log' m /\ os_fine db' n).
Proof.
  intros Hf Hp Hl Hd. pose proof Hsz as [Hs1 _]. destruct (frame_offset fr Hf) as [Eo Bo]. rewrite Eo. set (off := WAL_HDRSIZE + _ + _).
  assert (0 <= off < 2 ^ 60) by (unfold off; change WAL_HDRSIZE with 32; change WAL_FRAME_HDRSIZE with 24 in *; lia).
  destruct (os_read log szPage off Hl ltac:(lia) ltac:(lia) ltac:(lia)) as (rc & b & log' & E1 & Hl' & Ed & Lb & Bb & Hrc & Hfine).
  rewrite u32_id by lia. assert (0 <= (pg - 1) * szPage < 2 ^ 60) by nia.
  destruct (os_write db b ((pg - 1) * szPage) Hd ltac:(lia) ltac:(lia) Bb) as (rc' & db' & E2 & Hd' & Hw & Hfine'); [intros ->; cbn in Lb; lia|].
  destruct (write_result_length _ _ ((pg - 1) * szPage) _ _ ltac:(lia) Hw) as [Hmono Hlong].
  exists rc, b, log', rc', db'. split; [done|]. split; [done|]. split; [done|]. split; [done|]. split; [done|]. split; [|split; [done|split]].
  - intros p Hp0 Hne. apply (page_write_other szPage _ _ pg p b rc'); (done || lia).
  - intros Hr Hr'. specialize (Hlong Hr'). split; [|lia]. destruct (Hrc Hr) as [Hlen ->]. unfold write_result in Hw. subst rc'. cbn [Z.eqb SQLITE_OK] in Hw. rewrite Hw, page_write_same by lia.
    apply sub_page; lia.
  - intros n m Fl Fd Hlen Hn. destruct (Hfine m Fl) as [Fl' Hr]. destruct (Hfine' n Fd) as [Hr' Fd']; [nia|].
    split; [|done]. apply Hr. unfold off. change WAL_HDRSIZE with 32 in *. change WAL_FRAME_HDRSIZE with 24 in *. pose proof (Z.mul_le_mono_nonneg_r fr N (szPage + 24) ltac:(lia) ltac:(lia)). lia.
Qed.

Lemma backfill_loop_ok fuel : forall pIter iFrame interrupts mf (log db : F),
  (length (filter (fun x => iPrior pIter < x)%Z (take (Z.to_nat N) frames)) < fuel)%nat -> 0 <= iPrior pIter -> segments_ok frames N h0 (iPrior pIter) (aSegment pIter) -> os_ok log -> os_ok db ->
  exists rc log' db', backfill_loop fuel pIter iFrame interrupts mf szPage nb mxSafe mxPage s log db = Done (rc, log', db') /\
    os_ok log' /\ os_ok db' /\ os_data log' = os_data log /\
    (forall p, 0 < p -> (forall f, target p f -> p <= iPrior pIter) -> db_page szPage (os_data db') p = db_page szPage (os_data db) p) /\
    len (os_data db) <= len (os_data db') /\
    (rc = SQLITE_OK -> forall p f, target p f -> iPrior pIter < p -> db_page szPage (os_data db') p = frame_page szPage (os_data log) f /\ p * szPage <= len (os_data db')) /\
    (forall n m, os_fine log m -> os_fine db n -> WAL_HDRSIZE + N * (szPage + WAL_FRAME_HDRSIZE) <= len (os_data log) -> mxPage * szPage <= n ->
       Forall (eq false) interrupts -> rc = SQLITE_OK /\ os_fine log' m /\ os_fine db' n).
Proof.
  assert (0 <= h0 /\ page_zero h0 <= nb) as [Hh0 Hz0].
  { destruct (walFramePage_spec (nb + 1) ltac:(lia)) as (? & _ & Hlt). specialize (Hlt ltac:(lia)). unfold h0. lia. }
  induction fuel as [|fuel IH]; intros pIter iFrame ints mf log db Hf HP Hg Hl Hd; [lia|]. cbn [backfill_loop].
  destruct (walIteratorNext_ok frames N h0 HN Hpages Hh0 s pIter iFrame Hs HP Hg) as (fin & pg & fr & p' & -> & Ep & Hg' & Hfin & H1 & H0'). cbn [mbind outcome_bind].
  destruct Hfin as [-> | ->]; cbn [Z.eqb negb].
  2: { exists SQLITE_OK, log, db. split; [done|]. split; [done|]. split; [done|]. split; [done|]. split; [done|]. split; [done|]. split; [|done].
       intros _ p f ((Hf1 & <- & _) & _) Hlt. specialize (H1 eq_refl f Hf1). lia. }
  destruct (H0' eq_refl) as (Hpg & Hnew & Hle).
  destruct (default false (head ints)) eqn:Eint.
  { exists (if mf then SQLITE_NOMEM else SQLITE_INTERRUPT), log, db. split; [done|]. split; [done|]. split; [done|]. split; [done|]. split; [done|]. split; [done|]. split; [by destruct mf|].
    intros n m _ _ _ _ Hint. destruct Hint as [|? ? <-]; done. }
  assert (Forall (eq false) ints -> Forall (eq false) (tl ints)) as Hints by (destruct 1; [constructor|done]).
  assert (length (filter (fun x => iPrior p' < x)%Z (take (Z.to_nat N) frames)) < fuel)%nat as Hf'.
  { rewrite Ep. assert (pg ∈ take (Z.to_nat N) frames) as Hin; [|pose proof (filter_shrinks (iPrior pIter) pg _ ltac:(lia) Hin); lia].
    destruct Hnew as (Hfr & <- & _). destruct (page_numbers h0 Hh0) as (_ & _ & ? & _).
    replace (frames.[fr - 1]) with ((take (Z.to_nat N) frames).[fr - 1]) by (rewrite ld_firstn by lia; by rewrite decide_True by lia). apply elem_ld. rewrite length_take. lia. }
  assert (segments_ok frames N h0 (iPrior p') (aSegment p')) as Hg2 by (rewrite Ep; eapply segments_ok_mono; [|exact Hg']; lia).
  assert (forall p f, target p f -> iPrior pIter < p -> p <> pg -> pg < p) as Hnext.
  { intros p f ((Hf1 & Ef & _) & _) Hlt Hne. specialize (Hle f Hf1). rewrite Ef in Hle. lia. }
  destruct ((fr <=? nb) || (mxSafe <? fr) || (mxPage <? pg)) eqn:Eskip.
  { destruct (IH p' fr (tl ints) mf log db Hf' ltac:(lia) Hg2 Hl Hd) as (rc & log' & db' & -> & Hl' & Hd' & El & Hsame & Hmono & Hcopy & Hfine). rewrite Ep in *.
    exists rc, log', db'. split; [done|]. split; [done|]. split; [done|]. split; [done|]. split; [|split; [lia|split]].
    - intros p Hp Ht. apply Hsame; [done|]. intros f Hf1. specialize (Ht f Hf1). lia.
    - intros Hrc p f Ht Hlt. destruct (decide (p = pg)) as [->|Hne]; [|apply Hcopy; [done|done|by eapply Hnext]]. exfalso.
      rewrite <- (newest_unique _ _ _ (proj1 Ht) Hnew) in Eskip. destruct Ht as (_ & Hr1 & Hr2). rewrite !orb_true_iff, Z.leb_le, !Z.ltb_lt in Eskip. lia.
    - intros n m Fl Fd Hlen Hn Hi. by apply Hfine; auto. }
  rewrite !orb_false_iff, Z.leb_gt, !Z.ltb_ge in Eskip. assert (target pg fr) as Ht by (split; [done|lia]).
  destruct (copy_one fr pg log db ltac:(destruct Hnew; lia) ltac:(lia) Hl Hd) as (rc & b & log1 & rc' & db1 & -> & E2 & Hl1 & Hd1 & El1 & Hoth & Hmono1 & Hgot & Hfine1).
  assert (forall p, 0 < p -> (forall f, target p f -> p <= iPrior pIter) -> p <> pg) as Hnpg by (intros p Hp Hq ->; specialize (Hq fr Ht); lia).
  destruct (Z.eqb_spec rc SQLITE_OK) as [->|Hrc]; cbn [negb].
  2: { exists rc, log1, db. split; [done|]. split; [done|]. split; [done|]. split; [done|]. split; [done|]. split; [done|]. split; [done|].
       intros n m Fl Fd Hlen Hn _. destruct Hsz. destruct (Hfine1 n m Fl Fd Hlen); [nia|done]. }
  rewrite E2. destruct (Z.eqb_spec rc' SQLITE_OK) as [->|Hrc]; cbn [negb].
  2: { exists rc', log1, db1. split; [done|]. split; [done|]. split; [done|]. split; [done|]. split; [intros p Hp Hq; apply Hoth; auto|]. split; [done|]. split; [done|].
       intros n m Fl Fd Hlen Hn _. destruct Hsz. destruct (Hfine1 n m Fl Fd Hlen) as (_ & ? & _); [nia|done]. }
  destruct (IH p' fr (tl ints) mf log1 db1 Hf' ltac:(lia) Hg2 Hl1 Hd1) as (rc & log' & db' & -> & Hl' & Hd' & El & Hsame & Hmono & Hcopy & Hfine). rewrite Ep in *. rewrite El1 in *.
  exists rc, log', db'. split; [done|]. split; [done|]. split; [done|]. split; [done|]. split; [|split; [lia|split]].
  - intros p Hp Hq. rewrite Hsame; [apply Hoth; auto|done|]. intros f Hf1. specialize (Hq f Hf1). lia.
  - intros Hrc p f Hq Hlt. destruct (decide (p = pg)) as [->|Hne]; [|apply Hcopy; [done|done|by eapply Hnext]].
    rewrite Hsame by (done || lia). rewrite (newest_unique _ _ _ (proj1 Hq) Hnew). destruct (Hgot eq_refl eq_refl). split; [done|lia].
  - intros n m Fl Fd Hlen Hn Hi. destruct Hsz. destruct (Hfine1 n m Fl Fd Hlen) as (_ & _ & Fl1 & Fd1); [nia|]. by apply Hfine; auto.
Qed.
End copy.

(** ** The marks of the readers *)

Section marks.
Context {L : Type} `{ShmLocksLaws L}.

(** Another connection holds lock [i]. *)
Definition other_holds (w : Wal) (l : L) (i : Z) : Prop := exclusiveMode w = 0 /\ exists c, c <> pDbFd w /\ lk_holds l c i <> None.

Lemma other_holds_used w l i n j : other_holds w l j -> i <= j < i + n -> ~ locks_unused w l i n.
Proof. intros (E & c & Hc & Hh) Hj Hu. apply Hh. by apply (Hu E c j). Qed.

Lemma other_holds_calm w l l' i : calm w l l' -> other_holds w l i -> other_holds w l' i.
Proof. intros (_ & _ & Hs) (E & c & Hc & Hh). split; [done|]. exists c. by rewrite Hs. Qed.

Lemma free_part w l i n j : locks_free w l i n -> i <= j < i + n -> locks_free w l j 1.
Proof. intros Hf Hj E k Hk. apply Hf; [done|lia]. Qed.

Lemma unused_part w l i n j k : locks_unused w l i n -> i <= j -> j + k <= i + n -> locks_unused w l j k.
Proof. intros Hu Hj Hk E c x Hx Hc. apply Hu; [done|lia|done]. Qed.

(** The marks that a reader holds stay, and none of them is below the result. *)
Lemma ckpt_marks_ok n : forall i rc xBusy w marks mx l, 1 <= i -> i + Z.of_nat n = WAL_NREADER -> len marks = WAL_NREADER -> Forall (Z.le 0) marks -> 0 <= mx ->
  (rc = SQLITE_OK \/ rc = SQLITE_BUSY) -> locks_ok w l -> locks_fine w l -> locks_free w l (WAL_READ_LOCK 0) WAL_NREADER ->
  exists rc' xBusy' marks' mx' l', ckpt_marks n i rc xBusy w marks mx l = Done (rc', false, xBusy', marks', mx', l') /\ calm w l l' /\
    (rc' = SQLITE_OK \/ rc' = SQLITE_BUSY) /\ len marks' = WAL_NREADER /\ Forall (Z.le 0) marks' /\ 0 <= mx' <= mx /\ (forall j, 0 <= j < i -> marks'.[j] = marks.[j]) /\
    (forall j, i <= j < WAL_NREADER -> other_holds w l (WAL_READ_LOCK j) -> marks'.[j] = marks.[j] /\ mx' <= marks.[j]) /\
    (locks_unused w l (WAL_READ_LOCK 0) WAL_NREADER -> mx' = mx /\ (rc = SQLITE_OK -> rc' = SQLITE_OK)).
Proof.
  change WAL_NREADER with 5. change (WAL_READ_LOCK 0) with 3.
  induction n as [|n IH]; intros i rc xBusy w marks mx l Hi Hn Hlen Hpos Hmx Hrc Hok Hfine Hfree; cbn [ckpt_marks].
  { exists rc, xBusy, marks, mx, l. split; [done|]. split; [by apply calm_refl|]. do 3 (split; [done|]). split; [lia|]. split; [done|]. split; [lia|]. by intros _. }
  rewrite rd_ok by lia. cbn [mbind outcome_bind]. assert (0 <= marks.[i]) as Hy.
  { destruct (lookup_lt_is_Some_2 marks (Z.to_nat i) ltac:(lia)) as [y Hy]. unfold ld. rewrite nth_lookup, Hy. by eapply Forall_lookup_1 in Hpos. }
  destruct (Z.ltb_spec marks.[i] mx) as [Hlt|Hge].
  2: { destruct (IH (i + 1) rc xBusy w marks mx l) as (rc' & xb & marks' & mx' & l' & -> & Hc & R1 & R2 & R3 & R4 & R5 & R6 & R7); (done || lia || idtac).
       exists rc', xb, marks', mx', l'. do 6 (split; [done|]). split; [intros j Hj; apply R5; lia|]. split; [|done].
       intros j Hj Ho. destruct (decide (j = i)) as [->|]; [|apply R6; [lia|done]]. split; [apply R5; lia|lia]. }
  destruct (walBusyLock_ok xBusy w (WAL_READ_LOCK i) 1 l Hok Hfine ltac:(unfold WAL_READ_LOCK; lia) ltac:(lia) ltac:(unfold WAL_READ_LOCK, SQLITE_SHM_NLOCK; lia))
    as (rc1 & xb1 & l1 & -> & [(-> & Hu & Hc)|(-> & Hnu & Hc)]); [eapply free_part; [exact Hfree|unfold WAL_READ_LOCK; lia]| |]; cbn [Z.eqb SQLITE_OK SQLITE_BUSY Pos.eqb].
  - set (m := if i =? 1 then mx else READMARK_NOT_USED). assert (0 <= m) as Hm by (unfold m, READMARK_NOT_USED; destruct (i =? 1); lia).
    assert (forall j, 0 <= j -> j <> i -> (<[Z.to_nat i := m]> marks).[j] = marks.[j]) as Hother by (intros j Hj Hne; unfold ld; by rewrite !nth_lookup, list_lookup_insert_ne by lia).
    destruct Hc as (C1 & C2 & C3). set (l2 := walUnlockExclusive _ _ _ _) in *.
    destruct (IH (i + 1) SQLITE_OK xb1 w (<[Z.to_nat i := m]> marks) mx l2) as (rc' & xb & marks' & mx' & l' & -> & Hc & R1 & R2 & R3 & R4 & R5 & R6 & R7);
      [lia|lia|by rewrite length_insert|by apply Forall_insert|done|by left|done|done|by eapply calm_free; [split; [|split]|]|].
    assert (calm w l l2) as Hc0 by done. exists rc', xb, marks', mx', l'. split; [done|]. split; [by eapply calm_trans|]. do 4 (split; [done|]). split; [|split].
    + intros j Hj. rewrite R5 by lia. apply Hother; lia.
    + intros j Hj Ho. destruct (decide (j = i)) as [->|Hne]; [by destruct (other_holds_used w l (WAL_READ_LOCK i) 1 _ Ho ltac:(lia))|].
      rewrite <- Hother by lia. apply R6; [lia|]. by eapply other_holds_calm.
    + intros Hun. destruct R7 as [E1 E2]; [by apply (calm_unused w l l2)|]. split; [done|]. intros _. by apply E2.
  - destruct Hc as (C1 & C2 & C3). destruct (IH (i + 1) SQLITE_BUSY None w marks marks.[i] l1) as (rc' & xb & marks' & mx' & l' & -> & Hc & R1 & R2 & R3 & R4 & R5 & R6 & R7);
      [lia|lia|done|done|done|by right|done|done|by eapply calm_free; [split; [|split]|]|].
    assert (calm w l l1) as Hc0 by done. exists rc', xb, marks', mx', l'. split; [done|]. split; [by eapply calm_trans|]. do 3 (split; [done|]). split; [lia|]. split; [|split].
    + intros j Hj. apply R5; lia.
    + intros j Hj Ho. destruct (decide (j = i)) as [->|Hne]; [split; [apply R5; lia|lia]|]. apply R6; [lia|]. by eapply other_holds_calm.
    + intros Hun. destruct Hnu. eapply unused_part; [exact Hun|unfold WAL_READ_LOCK; lia..].
Qed.
End marks.

(** ** The phases of the checkpoint *)

(** The state of a connection that is to run a checkpoint: it has the index mapped, and its
    header is a state of the log [frames]; others may have gone further. *)
Record ckpt_ready (w : Wal) (s : Shm) (frames : list Z) : Prop := {
  cr_map : mapping_ok w s;
  cr_zero : 0 ∈ w_mapped w;
  cr_holds : index_holds s frames;
  cr_mx : 0 <= mxFrame (hdr w) <= len frames;
  cr_bound : mxFrame (hdr w) < 2 ^ 31;
  cr_live : mxFrame (hdr w) <= mxFrame (s_hdr0 s);
  cr_pages : Forall (fun p => 0 < p < 0xFFFFFFFF) frames;
  cr_backfill : 0 <= nBackfill (s_ckpt s);
  cr_marks : len (aReadMark (s_ckpt s)) = WAL_NREADER /\ Forall (Z.le 0) (aReadMark (s_ckpt s));
  cr_size : page_size_ok (walPagesize (hdr w));
  cr_npage : 0 <= nPage (hdr w) < 2 ^ 32;
  cr_salt : len (aSalt (hdr w)) = 8 /\ bytes_ok (aSalt (hdr w))
}.

Lemma ready_ckpt w s frames marks att : ckpt_ready w s frames -> len marks = WAL_NREADER -> Forall (Z.le 0) marks ->
  ckpt_ready w (with_ckpt s (mk_ckpt (nBackfill (s_ckpt s)) marks att)) frames.
Proof. intros [] ? ?. split; done. Qed.

Lemma ready_remap w s w' s' frames : ckpt_ready w s frames -> remap w s w' s' -> mapping_ok w' s' -> ckpt_ready w' s' frames.
Proof.
  intros [R1 R2 R3 R4 R5 R6 R7 R8 R9 R10 R11 R12] Hr Hm. pose proof (holds_remap _ _ _ _ _ Hr R3) as Hs.
  destruct Hr as ((m & v & ro & ->) & (n & ->) & Hsub & _). split; try done. by apply Hsub.
Qed.

Section phases.
Context {F : Type} `{OsFileLaws F}.
Context (frames : list Z) (w : Wal) (s : Shm) (mxSafe : Z).
Hypothesis Hready : ckpt_ready w s frames.

Let N : Z := mxFrame (hdr w).
Let nb : Z := nBackfill (s_ckpt s).
Let szPage : Z := walPagesize (hdr w).
Let mxPage : Z := nPage (hdr w).
Hypothesis Hsafe : nb < mxSafe <= N.

Abbreviation goal_page := (target frames N nb mxSafe mxPage).

Lemma ckpt_size_ok (db : F) : os_ok db ->
  exists rc db', ckpt_size mxPage szPage w db = (rc, db') /\ os_ok db' /\ os_data db' = os_data db /\
    (forall n, os_fine db n -> mxPage * szPage <= len (os_data db) + 65536 + N * szPage -> rc = SQLITE_OK /\ os_fine db' n).
Proof.
  intros Hd. unfold ckpt_size. destruct (os_size db Hd) as (rc & sz & db' & -> & Hd' & Ed & Hsz & Hf). eexists _, db'. split; [done|]. split; [done|]. split; [done|].
  intros n Fn Hn. destruct (Hf n Fn) as [-> Fn']. rewrite (Hsz eq_refl). fold N. rewrite (proj2 (Z.ltb_ge _ (mxPage * szPage)) Hn). by rewrite andb_false_r.
Qed.

(** The file is cut to the size of the database only when the whole log has been copied. *)
Lemma ckpt_done_ok flags (db : F) : os_ok db ->
  exists rc s' db', ckpt_done szPage mxSafe flags w s db = Done (rc, s', db') /\ os_ok db' /\
    s' = (if rc =? SQLITE_OK then with_ckpt s (mk_ckpt mxSafe (aReadMark (s_ckpt s)) (nBackfillAttempted (s_ckpt s))) else s) /\
    (forall p, 0 < p -> p <= mxPage \/ mxSafe < N -> db_page szPage (os_data db') p = db_page szPage (os_data db) p) /\
    (forall n, os_fine db n -> mxPage * szPage <= len (os_data db) -> rc = SQLITE_OK).
Proof.
  intros Hd. destruct Hready as [_ Hz _ _ _ Hlive _ _ _ [Hs1 _] Hnp _]. fold N in Hlive. fold szPage in Hs1. fold mxPage in Hnp.
  unfold ckpt_done, walIndexHdr. rewrite bool_decide_eq_true_2 by done. cbn [mbind outcome_bind]. fold mxPage. destruct (Z.eqb_spec mxSafe (mxFrame (s_hdr0 s))) as [E|E].
  2: { exists SQLITE_OK. eexists _, db. split; [done|]. done. }
  destruct (os_truncate db (mxPage * szPage) Hd ltac:(nia)) as (rc & db1 & -> & Hd1 & Ed & Hf).
  assert (forall p, 0 < p -> p <= mxPage \/ mxSafe < N -> db_page szPage (os_data db1) p = db_page szPage (os_data db) p) as Hp.
  { intros p Hp Hr. rewrite Ed. destruct (rc =? SQLITE_OK); [|done]. apply page_resize; [lia|]. destruct Hr; lia. }
  destruct (Z.eqb_spec rc SQLITE_OK) as [->|Hrc].
  2: { exists rc. eexists _, db1. split; [done|]. split; [done|]. split; [done|]. split; [done|]. intros n Fn Hn. by apply (Hf n). }
  destruct (os_sync db1 (CKPT_SYNC_FLAGS flags) Hd1) as (rc2 & db2 & -> & Hd2 & Ed2 & Hf2). exists rc2. eexists _, db2. split; [done|]. split; [done|]. split; [done|].
  rewrite Ed2. split; [done|]. intros n Fn Hn. destruct (Hf n Fn) as [Fn1 _]. by apply (Hf2 n).
Qed.

Lemma ckpt_backfill_ok pIter interrupts mf flags (log db : F) : os_ok log -> os_ok db ->
  iPrior pIter = 0 -> segments_ok frames N (walFramePage (nb + 1)) 0 (aSegment pIter) ->
  exists rc s' log' db', ckpt_backfill pIter interrupts mf szPage mxSafe mxPage flags w s log db = Done (rc, s', log', db') /\
    os_ok log' /\ os_ok db' /\ os_data log' = os_data log /\
    (exists n, s' = with_ckpt s (mk_ckpt n (aReadMark (s_ckpt s)) mxSafe) /\ (rc = SQLITE_OK -> n = mxSafe) /\
      (n = nb \/ n = mxSafe /\ forall p f, goal_page p f -> db_page szPage (os_data db') p = frame_page szPage (os_data log) f)) /\
    (forall p, 0 < p -> (forall f, ~ goal_page p f) -> p <= mxPage \/ mxSafe < N -> db_page szPage (os_data db') p = db_page szPage (os_data db) p) /\
    (forall n m, os_fine log m -> os_fine db n -> WAL_HDRSIZE + N * (szPage + WAL_FRAME_HDRSIZE) <= len (os_data log) -> mxPage * szPage <= n -> Forall (eq false) interrupts ->
       mxPage * szPage <= len (os_data db) + 65536 + N * szPage -> mxPage * szPage <= len (os_data db) \/ (exists f, goal_page mxPage f) -> rc = SQLITE_OK).
Proof.
  intros Hl Hd Ep Hg. pose proof Hready as [_ _ Hs Hmx Hb _ Hpg Hnb _ Hsz _ _]. fold N in Hmx, Hb. fold nb in Hnb. fold szPage in Hsz.
  assert (1 <= N <= len frames /\ N < 2 ^ 31) as HN by lia. assert (0 <= nb < N) as Hnb' by lia.
  unfold ckpt_backfill. fold nb. set (s1 := with_ckpt s _).
  destruct (os_sync log (CKPT_SYNC_FLAGS flags) Hl) as (rc1 & log1 & -> & Hl1 & El1 & Hf1).
  assert (exists rc db1, (if rc1 =? SQLITE_OK then ckpt_size mxPage szPage w db else (rc1, db)) = (rc, db1) /\ os_ok db1 /\ os_data db1 = os_data db /\
    (forall n, os_fine db n -> mxPage * szPage <= len (os_data db) + 65536 + N * szPage -> rc1 = SQLITE_OK -> rc = SQLITE_OK /\ os_fine db1 n)) as (rc2 & db1 & -> & Hd1 & Ed1 & Hf2).
  { destruct (Z.eqb_spec rc1 SQLITE_OK) as [->|]; [|by exists rc1, db]. destruct (ckpt_size_ok db Hd) as (rc & db' & -> & ? & ? & Hf). exists rc, db'. split; [done|]. split; [done|]. split; [done|].
    intros n Fn Hn _. by apply Hf. }
  destruct (Z.eqb_spec rc2 SQLITE_OK) as [->|Hrc2]; cbn [mbind outcome_bind].
  2: { rewrite (proj2 (Z.eqb_neq _ _) Hrc2). cbn [mbind outcome_bind]. exists rc2, s1, log1, db1. split; [done|]. split; [done|]. split; [done|]. split; [done|]. split.
       - exists nb. split; [done|]. split; [done|]. by left.
       - rewrite Ed1. split; [done|]. intros n m Fl Fd _ _ _ Hn _. destruct (Hf1 m Fl) as [E1 _]. by apply (Hf2 n Fd Hn E1). }
  destruct (backfill_loop_ok frames N nb mxSafe mxPage szPage s1 HN Hpg Hnb' Hsz Hs (S (S (Z.to_nat (mxFrame (hdr w))))) pIter 0 interrupts mf log1 db1)
    as (rc & log' & db2 & -> & Hl' & Hd2 & El' & Hsame & Hmono & Hcopy & Hf3); [|lia|by rewrite Ep|done|done|].
  { pose proof (length_filter (fun x => iPrior pIter < x)%Z (take (Z.to_nat N) frames)). rewrite length_take in *. fold N. lia. }
  cbn [mbind outcome_bind]. rewrite El1 in *. rewrite Ed1 in *. rewrite Ep in *.
  assert (forall p f, goal_page p f -> 0 < p) as Htp by (intros p f ((Hf & <- & _) & _); destruct (log_page frames N HN Hpg f); [|done]; destruct (page_numbers _ (proj1 (proj1 (walFramePage_spec (nb + 1) ltac:(lia))))) as (_ & _ & ? & _); lia).
  destruct (Z.eqb_spec rc SQLITE_OK) as [->|Hrc]; cbn [mbind outcome_bind].
  2: { exists rc, s1, log', db2. split; [done|]. split; [done|]. split; [done|]. split; [done|]. split; [|split].
       - exists nb. split; [done|]. split; [done|]. by left.
       - intros p Hp Ht _. apply Hsame; [done|]. intros f Hf. by destruct (Ht f).
       - intros n m Fl Fd Hlen Hn Hi Hsize _. destruct (Hf1 m Fl) as [E1 Fl1]. destruct (Hf2 n Fd Hsize E1) as [_ Fd1]. by apply (Hf3 n m). }
  destruct (ckpt_done_ok flags db2 Hd2) as (rc3 & s3 & db3 & Ed & Hd3 & Es3 & Hp3 & Hf4).
  assert (ckpt_done szPage mxSafe flags w s1 db2 = Done (rc3, (if rc3 =? SQLITE_OK then with_ckpt s1 (mk_ckpt mxSafe (aReadMark (s_ckpt s)) mxSafe) else s1), db3)) as ->.
  { clear - Ed Es3. unfold ckpt_done, walIndexHdr in *. destruct (bool_decide _); [|done]. cbn [mbind outcome_bind] in *. change (s_hdr0 s1) with (s_hdr0 s).
    destruct (if mxSafe =? mxFrame (s_hdr0 s) then _ else _) as [r d]. by injection Ed as -> _ ->. }
  cbn [mbind outcome_bind]. eexists rc3, _, log', db3. split; [done|]. split; [done|]. split; [done|]. split; [done|]. split; [|split].
  - exists (if rc3 =? SQLITE_OK then mxSafe else nb). split; [by destruct (rc3 =? SQLITE_OK)|]. split; [by intros ->|]. destruct (rc3 =? SQLITE_OK); [|by left]. right. split; [done|].
    intros p f Ht. rewrite Hp3; [|by eapply Htp|left; apply Ht]. apply Hcopy; [done|done|by eapply Htp].
  - intros p Hp Ht Hr. rewrite Hp3 by done. apply Hsame; [done|]. intros f Hf. by destruct (Ht f).
  - intros n m Fl Fd Hlen Hn Hi Hsize Hbig. destruct (Hf1 m Fl) as [E1 Fl1]. destruct (Hf2 n Fd Hsize E1) as [_ Fd1]. destruct (Hf3 n m Fl1 Fd1 Hlen Hn Hi) as (_ & _ & Fd2).
    apply (Hf4 n Fd2). destruct Hbig as [|[f Hf]]; [lia|]. destruct (Hcopy eq_refl mxPage f Hf ltac:(by eapply Htp)). done.
Qed.
End phases.

(** ** Snapshots *)

Lemma last_frame_spec frames p lo hi : 0 <= hi -> let r := last_frame frames p lo hi in
  (r = 0 \/ (1 <= r <= hi /\ lo <= r /\ frames.[r - 1] = p)) /\ forall f, 1 <= f <= hi -> lo <= f -> frames.[f - 1] = p -> f <= r.
Proof.
  intros Hhi. unfold last_frame. rewrite <- (Z2Nat.id hi Hhi), Nat2Z.id. set (n := Z.to_nat hi). clearbody n. clear hi Hhi. induction n as [|n [IH1 IH2]]; cbn [last_in]; [split; [by left|lia]|].
  destruct ((lo <=? Z.of_nat (S n)) && (frames.[Z.of_nat n] =? p)) eqn:E.
  - apply andb_true_iff in E as [E1%Z.leb_le E2%Z.eqb_eq]. split; [right|intros f Hf; lia]. replace (Z.of_nat (S n) - 1) with (Z.of_nat n) by lia. split; [lia|done].
  - split; [destruct IH1 as [|(? & ? & ?)]; [by left|right; split; [lia|done]]|]. intros f Hf Hlo Ef. destruct (decide (f = Z.of_nat (S n))) as [->|]; [|apply IH2; [lia|done|done]].
    exfalso. replace (Z.of_nat (S n) - 1) with (Z.of_nat n) in Ef by lia. rewrite Ef, Z.eqb_refl, (proj2 (Z.leb_le _ _) Hlo) in E. done.
Qed.

Section snapshots.
Context (frames : list Z) (N nb mxSafe mxPage szPage : Z) (log log' db db' : bytes).
Hypothesis Hnb : 0 <= nb < mxSafe.
Hypothesis Hsafe : mxSafe <= N.
Hypothesis HN : N < 2 ^ 31.
Hypothesis Elog : log' = log.
Abbreviation goal_page := (target frames N nb mxSafe mxPage).
Hypothesis Hsame : forall p, 0 < p -> (forall f, ~ goal_page p f) -> p <= mxPage \/ mxSafe < N -> db_page szPage db' p = db_page szPage db p.

(** A reader from whose mark on nothing has been copied. *)
Lemma snapshot_reader lo hi p : 0 < p -> lo <= nb + 1 -> mxSafe <= hi -> p <= mxPage \/ mxSafe < N ->
  snapshot_page szPage frames log' db' lo hi p = snapshot_page szPage frames log db lo hi p.
Proof.
  intros Hp Hlo Hhi Hr. unfold snapshot_page. rewrite Elog. destruct (last_frame_spec frames p lo hi ltac:(lia)) as [_ Hmax].
  destruct (Z.eqb_spec (last_frame frames p lo hi) 0) as [E0|]; [|done]. rewrite E0 in Hmax. apply Hsame; [done| |lia].
  intros f ((_ & Ef & _) & Hf & _). specialize (Hmax f ltac:(lia) ltac:(lia) Ef). lia.
Qed.

(** The copied frames are no longer needed. *)
Lemma snapshot_copied hi p : (forall p f, goal_page p f -> db_page szPage db' p = frame_page szPage log f) -> 0 < p <= mxPage -> N <= hi ->
  snapshot_page szPage frames log' db' (mxSafe + 1) hi p = snapshot_page szPage frames log db (nb + 1) hi p.
Proof.
  intros Hcopy Hp Hhi. unfold snapshot_page. rewrite Elog. destruct (last_frame_spec frames p (nb + 1) hi ltac:(lia)) as [Hr Hmax]. set (r := last_frame frames p (nb + 1) hi) in *.
  destruct (Z.lt_ge_cases mxSafe r) as [Hlt|Hge].
  - rewrite (last_frame_is frames p (mxSafe + 1) hi r); [by rewrite (proj2 (Z.eqb_neq r 0)) by lia|lia| |right; lia]. intros f Hf Hl Ef. apply Hmax; (done || lia).
  - rewrite (last_frame_is frames p (mxSafe + 1) hi 0); [|lia| |by left].
    2: { intros f Hf Hl Ef. specialize (Hmax f Hf ltac:(lia) Ef). lia. }
    cbn [Z.eqb]. destruct (Z.eqb_spec r 0) as [E0|Hne].
    + apply Hsame; [lia| |left; lia]. intros f ((_ & Ef & _) & Hf & _). specialize (Hmax f ltac:(lia) ltac:(lia) Ef). lia.
    + destruct Hr as [|(Hr1 & Hr2 & Er)]; [lia|]. apply Hcopy. split; [|lia]. destruct (walFramePage_spec (nb + 1) ltac:(lia)) as (_ & _ & Hz). specialize (Hz ltac:(lia)).
      split; [lia|]. split; [done|]. intros u Hu Eu. specialize (Hmax u ltac:(lia) ltac:(lia) Eu). lia.
Qed.
End snapshots.

(** * The theorems *)

(** What the connections see is as before: the database at the end of the log, for the next
    reader; the snapshot of everyone who holds the lock of a mark, up to that mark or a later
    frame, in the pages of its database; the file itself for those that read nothing else. *)
Record same_content {L} `{ShmLocks L} (frames : list Z) (w : Wal) (l : L) (s : Shm) (log db : bytes) (s' : Shm) (log' db' : bytes) : Prop := {
  sc_now p : 0 < p <= nPage (hdr w) ->
    snapshot_page (walPagesize (hdr w)) frames log' db' (nBackfill (s_ckpt s') + 1) (mxFrame (s_hdr0 s')) p =
    snapshot_page (walPagesize (hdr w)) frames log db (nBackfill (s_ckpt s) + 1) (mxFrame (s_hdr0 s)) p;
  sc_readers i : 1 <= i < WAL_NREADER -> other_holds w l (WAL_READ_LOCK i) ->
    (aReadMark (s_ckpt s')).[i] = (aReadMark (s_ckpt s)).[i] /\
    forall lo hi p, lo <= nBackfill (s_ckpt s) + 1 -> (aReadMark (s_ckpt s)).[i] <= hi -> 0 < p -> p <= nPage (hdr w) \/ (aReadMark (s_ckpt s)).[i] < mxFrame (hdr w) ->
      snapshot_page (walPagesize (hdr w)) frames log' db' lo hi p = snapshot_page (walPagesize (hdr w)) frames log db lo hi p;
  sc_file : other_holds w l (WAL_READ_LOCK 0) -> db' = db
}.

(** What a checkpoint needs to copy the whole log: nobody else reads, no call fails, and the
    size of the database can be right. *)
Record can_complete {F L} `{OsFileLaws F} `{ShmLocks L} (frames : list Z) (w : Wal) (s : Shm) (log db : F) (l : L) (interrupts : list bool) : Prop := {
  cc_locks : locks_unused w l (WAL_READ_LOCK 0) WAL_NREADER;
  cc_vfs : w_vfs w = [];
  cc_files m n : os_fine log m /\ os_fine db n;
  cc_log : WAL_HDRSIZE + mxFrame (hdr w) * (walPagesize (hdr w) + WAL_FRAME_HDRSIZE) <= len (os_data log);
  cc_interrupts : Forall (eq false) interrupts;
  cc_size : nPage (hdr w) * walPagesize (hdr w) <= len (os_data db) + 65536 + mxFrame (hdr w) * walPagesize (hdr w);
  cc_last : nPage (hdr w) * walPagesize (hdr w) <= len (os_data db) \/ exists f, nBackfill (s_ckpt s) < f <= mxFrame (hdr w) /\ frames.[f - 1] = nPage (hdr w)
}.

(** The database file is the database up to the end of the log. *)
Definition all_copied (frames : list Z) (w : Wal) (s : Shm) (log db db' : bytes) : Prop := forall p, 0 < p <= nPage (hdr w) ->
  db_page (walPagesize (hdr w)) db' p = snapshot_page (walPagesize (hdr w)) frames log db (nBackfill (s_ckpt s) + 1) (mxFrame (hdr w)) p.

(** No frame is left for a reader of the next snapshot. *)
Lemma snapshot_empty szPage frames log db lo hi p : 0 <= hi -> hi < lo -> snapshot_page szPage frames log db lo hi p = db_page szPage db p.
Proof. intros Hhi Hlo. unfold snapshot_page. by rewrite (last_frame_is frames p lo hi 0) by (lia || by left). Qed.

(** A checkpoint that empties nothing: the index may have got new pages. *)
Definition grown (s s' : Shm) : Prop :=
  s_hdr0 s' = s_hdr0 s /\ s_hdr1 s' = s_hdr1 s /\ (exists k, s_pages s' = s_pages s ++ replicate k zero_page) /\ nBackfill (s_ckpt s) <= nBackfill (s_ckpt s').

Lemma grown_refl s marks n a : nBackfill (s_ckpt s) <= n -> grown s (with_ckpt s (mk_ckpt n marks a)).
Proof. intros Hn. split; [done|]. split; [done|]. split; [exists 0%nat; by rewrite app_nil_r|done]. Qed.

Lemma grown_trans s s1 s2 : grown s s1 -> grown s1 s2 -> grown s s2.
Proof.
  intros (A & B & (k & C) & D) (A' & B' & (k' & C') & D'). split; [congruence|]. split; [congruence|]. split; [|lia]. exists (k + k')%nat. by rewrite C', C, <- app_assoc, <- replicate_add.
Qed.

Section checkpoint.
Context {F L : Type} `{OsFileLaws F} `{ShmLocksLaws L}.
Context (frames : list Z).

Lemma same_content_refl w (l : L) s log db : same_content frames w l s log db s log db.
Proof. by split. Qed.

Lemma iterator_result ok1 ok2 w s : ckpt_ready w s frames -> nBackfill (s_ckpt s) < mxFrame (hdr w) ->
  exists rc pIter w' s', walIteratorInit ok1 ok2 (nBackfill (s_ckpt s)) w s = Done (rc, pIter, w', s') /\ remap w s w' s' /\ mapping_ok w' s' /\
    (ok1 = true -> ok2 = true -> w_vfs w = [] -> rc = SQLITE_OK /\ pIter <> None) /\
    match pIter with
    | None => rc <> SQLITE_OK
    | Some p => iPrior p = 0 /\ segments_ok frames (mxFrame (hdr w)) (walFramePage (nBackfill (s_ckpt s) + 1)) 0 (aSegment p)
    end.
Proof.
  intros [Hm _ Hs Hmx Hb _ _ Hnb _ _ _ _] Hlt. destruct ok1; [destruct ok2|].
  2, 3: exists SQLITE_NOMEM, None, w, s; split; [done|]; split; [apply remap_refl|]; split; [done|]; split; done.
  destruct (walIteratorInit_ok frames w s (nBackfill (s_ckpt s)) Hm Hs ltac:(lia) Hb ltac:(lia)) as (rc & p & w' & s' & E & Hm' & Hr & Hv & Hp).
  exists rc, p, w', s'. split; [done|]. split; [done|]. split; [done|]. split; [|destruct p; [apply Hp|done]].
  intros _ _ Ev. specialize (Hv Ev). split; [done|]. intros ->. by apply Hp.
Qed.

(** The content after the copying: [n] is the new [nBackfill]. *)
Lemma backfilled_content w (l : L) s s' marks mx n (log db db' : bytes) : 0 <= nBackfill (s_ckpt s) < mx -> mx <= mxFrame (hdr w) -> mxFrame (hdr w) < 2 ^ 31 ->
  mxFrame (hdr w) <= mxFrame (s_hdr0 s) -> s_hdr0 s' = s_hdr0 s -> aReadMark (s_ckpt s') = marks -> nBackfill (s_ckpt s') = n ->
  (forall p, 0 < p -> (forall f, ~ target frames (mxFrame (hdr w)) (nBackfill (s_ckpt s)) mx (nPage (hdr w)) p f) -> p <= nPage (hdr w) \/ mx < mxFrame (hdr w) ->
     db_page (walPagesize (hdr w)) db' p = db_page (walPagesize (hdr w)) db p) ->
  (n = nBackfill (s_ckpt s) \/ n = mx /\ forall p f, target frames (mxFrame (hdr w)) (nBackfill (s_ckpt s)) mx (nPage (hdr w)) p f ->
     db_page (walPagesize (hdr w)) db' p = frame_page (walPagesize (hdr w)) log f) ->
  (forall j, 1 <= j < WAL_NREADER -> other_holds w l (WAL_READ_LOCK j) -> marks.[j] = (aReadMark (s_ckpt s)).[j] /\ mx <= (aReadMark (s_ckpt s)).[j]) ->
  ~ other_holds w l (WAL_READ_LOCK 0) -> same_content frames w l s log db s' log db'.
Proof.
  intros Hnb Hmx Hb Hlive E0 Em En Hsame Hn Hmarks Hno. split; [|intros i Hi Ho|done]; rewrite ?E0, ?En, ?Em.
  - intros p Hp. destruct Hn as [->|[-> Hcopy]].
    + eapply snapshot_reader; [exact Hnb|done|exact Hsame|lia..].
    + eapply snapshot_copied; [exact Hnb|exact Hmx|done|done|exact Hsame|exact Hcopy|lia|lia].
  - destruct (Hmarks i Hi Ho) as [-> Hle]. split; [done|]. intros lo hi p Hlo Hhi Hp Hp'. eapply snapshot_reader; [exact Hnb|done|exact Hsame|lia..].
Qed.

(** A page with a frame to copy has a newest one. *)
Lemma some_target N nb mxPage f : 0 <= nb -> N < 2 ^ 31 -> nb < f <= N -> frames.[f - 1] = mxPage -> exists r, target frames N nb N mxPage mxPage r.
Proof.
  intros Hnb HN Hf Ef. destruct (last_frame_spec frames mxPage (nb + 1) N ltac:(lia)) as [Hr Hmax]. set (r := last_frame _ _ _ _) in *.
  specialize (Hmax f ltac:(lia) ltac:(lia) Ef) as Hfr. exists r. destruct Hr as [|(R1 & R2 & R3)]; [lia|].
  destruct (walFramePage_spec (nb + 1) ltac:(lia)) as (_ & _ & Hz). specialize (Hz ltac:(lia)).
  split; [|lia]. split; [lia|]. split; [done|]. intros u Hu Eu. specialize (Hmax u ltac:(lia) ltac:(lia) Eu). lia.
Qed.

(** The copying, with the locks of the readers of the file. *)
Lemma ckpt_copy_ok ok1 ok2 interrupts mf xBusy flags w s (log db : F) (l : L) : ckpt_ready w s frames -> nBackfill (s_ckpt s) < mxFrame (hdr w) ->
  os_ok log -> os_ok db -> locks_ok w l -> locks_fine w l -> locks_free w l (WAL_READ_LOCK 0) WAL_NREADER ->
  exists rc xBusy' w' s' log' db' l', ckpt_copy ok1 ok2 interrupts mf xBusy flags w s log db l = Done (rc, xBusy', w', s', log', db', l') /\
    (exists m v ro, w' = with_mapped w m v ro) /\ ckpt_ready w' s' frames /\ grown s s' /\ calm w l l' /\ os_ok log' /\ os_ok db' /\ os_data log' = os_data log /\
    same_content frames w l s (os_data log) (os_data db) s' (os_data log') (os_data db') /\
    (nBackfill (s_ckpt s') < mxFrame (hdr w) \/ nBackfill (s_ckpt s') = mxFrame (hdr w) /\ all_copied frames w s (os_data log) (os_data db) (os_data db')) /\
    (ok1 = true -> ok2 = true -> can_complete frames w s log db l interrupts -> rc = SQLITE_OK /\ nBackfill (s_ckpt s') = mxFrame (hdr w)).
Proof.
  intros Hr Hlt Hl Hd Hlo Hlf Hfree. pose proof Hr as [_ _ _ Hmx Hb Hlive _ Hnb [Hml Hmp] Hsz _ _]. unfold ckpt_copy.
  destruct (ckpt_marks_ok (Z.to_nat (WAL_NREADER - 1)) 1 SQLITE_OK xBusy w (aReadMark (s_ckpt s)) (mxFrame (hdr w)) l) as (rc1 & xb1 & marks & mx & l1 & -> & Hc1 & _ & M1 & M2 & M3 & M4 & M5 & M6);
    [lia|done|done|done|lia|by left|done|done|done|].
  cbn [mbind outcome_bind]. set (s1 := with_marks s marks). assert (ckpt_ready w s1 frames) as Hr1 by by apply ready_ckpt. assert (grown s s1) as Hg1 by by apply grown_refl.
  assert (forall s' db', s_hdr0 s' = s_hdr0 s -> aReadMark (s_ckpt s') = marks -> nBackfill (s_ckpt s') = nBackfill (s_ckpt s) -> os_data db' = os_data db ->
    same_content frames w l s (os_data log) (os_data db) s' (os_data log) (os_data db')) as Hquiet.
  { intros s' db' E0 Em En Ed. rewrite Ed. split; [by rewrite E0, En| |done]. intros i Hi Ho. rewrite Em. split; [apply M5; [lia|done]|done]. }
  assert (can_complete frames w s log db l interrupts -> mx = mxFrame (hdr w) /\ rc1 = SQLITE_OK) as Hfull by (intros Hcc; destruct (M6 (cc_locks _ _ _ _ _ _ _ Hcc)); auto).
  change (nBackfill (s_ckpt s1)) with (nBackfill (s_ckpt s)). destruct (Z.ltb_spec (nBackfill (s_ckpt s)) mx) as [Hmore|Hless].
  2: { cbn [mbind outcome_bind]. eexists _, xb1, w, s1, log, db, l1. split; [done|]. split; [by exists (w_mapped w), (w_vfs w), (readOnly w); destruct w|]. do 6 (split; [done|]).
       split; [by apply Hquiet|]. split; [by left|]. intros _ _ Hcc. destruct (Hfull Hcc). lia. }
  destruct (iterator_result ok1 ok2 w s1 Hr1 Hlt) as (rc2 & pIter & w2 & s2 & E & Hrm & Hm2 & Hok & Hit). change (nBackfill (s_ckpt s1)) with (nBackfill (s_ckpt s)) in E, Hit.
  rewrite E. cbn [mbind outcome_bind]. clear E.
  pose proof (ready_remap _ _ _ _ _ Hr1 Hrm Hm2) as Hr2. destruct Hrm as (Ew & (k & Es2) & _). destruct Ew as (m & v & ro & Ew).
  assert (grown s s2) as Hg2 by (eapply grown_trans; [exact Hg1|]; rewrite Es2; split; [done|split; [done|split; [by exists k|done]]]).
  destruct pIter as [pIter|]; cbn [mbind outcome_bind].
  2: { eexists _, xb1, w2, s2, log, db, l1. split; [done|]. split; [by exists m, v, ro|]. split; [done|]. subst w2 s2. do 5 (split; [done|]). split; [by apply Hquiet|]. split; [by left|].
       intros E1 E2 Hcc. destruct (Hok E1 E2 (cc_vfs _ _ _ _ _ _ _ Hcc)). done. }
  destruct Hit as [Ep Hg]. assert (locks_free w2 l1 (WAL_READ_LOCK 0) WAL_NREADER) as Hfree2 by (subst w2; exact (calm_free _ _ _ _ _ Hc1 Hfree)).
  destruct (walBusyLock_ok xb1 w2 (WAL_READ_LOCK 0) 1 l1) as (rc3 & xb3 & l3 & -> & Hlk); [by subst w2; apply Hc1|by subst w2; apply Hc1|done|lia|done|eapply free_part; [exact Hfree2|done]|].
  assert (forall l', calm w2 l1 l' -> calm w l l') as Hcalm by (subst w2; intros l' Hl'; by eapply calm_trans).
  destruct Hlk as [(-> & Hu3 & Hc3)|(-> & Hnu & Hc3)]; cbn [Z.eqb SQLITE_OK SQLITE_BUSY Pos.eqb mbind outcome_bind].
  2: { eexists _, xb3, w2, s2, log, db, l3. split; [done|]. split; [by exists m, v, ro|]. split; [done|]. split; [exact Hg2|]. split; [by apply Hcalm|]. do 3 (split; [done|]).
       split; [by subst s2; apply Hquiet|]. split; [by subst s2; left|]. intros _ _ Hcc. destruct Hnu. subst w2. apply (calm_unused w l l1); [done|]. eapply unused_part; [apply (cc_locks _ _ _ _ _ _ _ Hcc)|done..]. }
  assert (walPagesize (hdr w2) = walPagesize (hdr w) /\ nPage (hdr w2) = nPage (hdr w) /\ mxFrame (hdr w2) = mxFrame (hdr w) /\ nBackfill (s_ckpt s2) = nBackfill (s_ckpt s) /\ aReadMark (s_ckpt s2) = marks /\ s_hdr0 s2 = s_hdr0 s)
    as (E1 & E2 & E3 & E4 & E5 & E6) by by subst w2 s2.
  destruct (ckpt_backfill_ok frames w2 s2 mx Hr2 ltac:(lia) pIter interrupts mf flags log db Hl Hd Ep ltac:(by rewrite E3, E4)) as (rc & s3 & log3 & db3 & E & Hl3 & Hd3 & El3 & Hs3 & Hsame & Hfin).
  rewrite E1, E2 in E. rewrite E. cbn [mbind outcome_bind]. clear E. rewrite E1, E2, E3, E4 in *. destruct Hs3 as (n & Es3 & Hn1 & Hn2).
  assert (walUnlockExclusive w2 (WAL_READ_LOCK 0) 1 l3 = walUnlockExclusive w (WAL_READ_LOCK 0) 1 l3) as Eu by by subst w2. rewrite Eu in *.
  eexists _, xb3, w2, s3, log3, db3, _. split; [done|]. split; [by exists m, v, ro|]. split; [|split; [eapply grown_trans; [exact Hg2|]; rewrite Es3; apply grown_refl; rewrite E4; destruct Hn2 as [->|[-> _]]; lia|split; [by apply Hcalm|split; [done|split; [done|split; [done|split; [|split]]]]]]].
  - rewrite Es3. destruct Hr2 as [R1 R2 R3 R4 R5 R6 R7 R8 R9 R10 R11 R12]. split; try done. cbn [with_ckpt s_ckpt nBackfill]. destruct Hn2 as [->|[-> _]]; lia.
  - rewrite El3. apply (backfilled_content w l s s3 marks mx n); [lia|lia|done|done|by rewrite Es3|by rewrite Es3|by rewrite Es3|done|done|intros j Hj; apply M5; lia|].
    intros Ho. apply (other_holds_used w2 l1 (WAL_READ_LOCK 0) 1 (WAL_READ_LOCK 0)); [subst w2; by apply (other_holds_calm w l l1)|lia|done].
  - rewrite Es3. cbn [with_ckpt s_ckpt nBackfill]. destruct Hn2 as [->|[-> Hcopy]]; [by left|]. destruct (Z.lt_ge_cases mx (mxFrame (hdr w))); [by left|right]. split; [lia|].
    replace mx with (mxFrame (hdr w)) in * by lia. intros p Hp. rewrite <- (snapshot_copied frames _ (nBackfill (s_ckpt s)) _ _ _ (os_data log) (os_data log) (os_data db) (os_data db3)) with (5 := Hsame) (6 := Hcopy) by (done || lia).
    by rewrite snapshot_empty by lia.
  - intros T1 T2 Hcc. destruct (Hfull Hcc) as [-> ->]. destruct Hcc as [C1 C2 C3 C4 C5 C6 C7].
    destruct (C3 0 (nPage (hdr w) * walPagesize (hdr w))) as [F1 F2].
    assert (rc = SQLITE_OK) as ->; [|split; [done|]; rewrite Es3; by apply Hn1]. apply (Hfin (nPage (hdr w) * walPagesize (hdr w)) 0); try done.
    destruct C7 as [C7|(f & Hf & Ef)]; [by left|right]. by apply (some_target _ _ _ f).
Qed.
(** A restart empties the log; the pages of the index stay as they are. *)
Lemma walRestartHdr_ok salt1 w s : 0 ∈ w_mapped w -> len (aSalt (hdr w)) = 8 -> bytes_ok (aSalt (hdr w)) -> len salt1 = 4 -> bytes_ok salt1 ->
  exists w' s', walRestartHdr salt1 w s = Done (w', s') /\ exclusiveMode w' = exclusiveMode w /\ pDbFd w' = pDbFd w /\
    mxFrame (s_hdr0 s') = 0 /\ hdr w' = s_hdr0 s' /\ s_hdr1 s' = s_hdr0 s' /\ nBackfill (s_ckpt s') = 0 /\ s_pages s' = s_pages s.
Proof.
  intros Hz Hl Hb Hl1 Hb1. unfold walRestartHdr. rewrite get4byte_be32 by (done || lia). cbn [mbind outcome_bind].
  set (w1 := with_hdr _ _). destruct (walIndexWriteHdr_ok w1 s) as (c & ->).
  - exact Hz.
  - change (aSalt (hdr w1)) with (sqlite3Put4byte (u32 (1 + be32 (aSalt (hdr w)) 0)) ++ salt1). rewrite length_app, Nat2Z.inj_add, put4byte_length. lia.
  - change (aSalt (hdr w1)) with (sqlite3Put4byte (u32 (1 + be32 (aSalt (hdr w)) 0)) ++ salt1). apply Forall_app. split; [apply put4byte_bytes|done].
  - cbn [mbind outcome_bind]. by eexists _, _.
Qed.

Lemma ckpt_restart_ok eMode xBusy salt1 w s (log : F) (l : L) : ckpt_ready w s frames -> os_ok log -> locks_ok w l -> locks_fine w l ->
  locks_free w l (WAL_READ_LOCK 0) WAL_NREADER -> len salt1 = 4 -> bytes_ok salt1 ->
  exists rc w' s' log' l', ckpt_restart eMode xBusy salt1 w s log l = Done (rc, w', s', log', l') /\ os_ok log' /\ calm w l l' /\
    (rc = SQLITE_OK -> mxFrame (hdr w) <= nBackfill (s_ckpt s)) /\
    ((w' = w /\ s' = s /\ os_data log' = os_data log) \/
     (locks_unused w l (WAL_READ_LOCK 1) (WAL_NREADER - 1) /\ mxFrame (hdr w) <= nBackfill (s_ckpt s) /\ mxFrame (s_hdr0 s') = 0 /\ nBackfill (s_ckpt s') = 0)).
Proof.
  intros Hr Hl Hlo Hlf Hfree Hl1 Hb1. unfold ckpt_restart. destruct (Z.ltb_spec (nBackfill (s_ckpt s)) (mxFrame (hdr w))) as [Hlt|Hge].
  { exists SQLITE_BUSY, w, s, log, l. split; [done|]. split; [done|]. split; [by apply calm_refl|]. split; [done|by left]. }
  destruct (SQLITE_CHECKPOINT_RESTART <=? eMode).
  2: { exists SQLITE_OK, w, s, log, l. split; [done|]. split; [done|]. split; [by apply calm_refl|]. split; [done|by left]. }
  destruct (walBusyLock_ok xBusy w (WAL_READ_LOCK 1) (WAL_NREADER - 1) l Hlo Hlf) as (rc & xb & l1 & -> & [(-> & Hu & Hc)|(-> & Hnu & Hc)]);
    [done|done|done|intros E j Hj; apply Hfree; [done|unfold WAL_READ_LOCK, WAL_NREADER in *; lia]| |]; cbn [Z.eqb SQLITE_OK SQLITE_BUSY Pos.eqb mbind outcome_bind].
  2: { exists SQLITE_BUSY, w, s, log, l1. split; [done|]. split; [done|]. split; [done|]. split; [done|by left]. }
  destruct (eMode =? SQLITE_CHECKPOINT_TRUNCATE); cbn [mbind outcome_bind].
  2: { eexists _, w, s, log, _. split; [done|]. split; [done|]. split; [done|]. split; [done|by left]. }
  destruct (walRestartHdr_ok salt1 w s (cr_zero _ _ _ Hr) (proj1 (cr_salt _ _ _ Hr)) (proj2 (cr_salt _ _ _ Hr)) Hl1 Hb1) as (w1 & s1 & -> & Ee & Ep & Em & _ & _ & En & _).
  cbn [mbind outcome_bind]. destruct (os_truncate log 0 Hl ltac:(lia)) as (rc & log1 & -> & Hl2 & _). cbn [mbind outcome_bind].
  eexists rc, w1, s1, log1, _. split; [done|]. split; [done|].
  assert (walUnlockExclusive w1 (WAL_READ_LOCK 1) (WAL_NREADER - 1) l1 = walUnlockExclusive w (WAL_READ_LOCK 1) (WAL_NREADER - 1) l1) as -> by (unfold walUnlockExclusive; by rewrite Ee, Ep).
  split; [done|]. split; [done|]. by right.
Qed.

(** The first part of [walCheckpoint], with and without frames to copy. *)
Lemma checkpoint_copied ok1 ok2 interrupts mf xBusy flags w s (log db : F) (l : L) : ckpt_ready w s frames -> os_ok log -> os_ok db ->
  locks_ok w l -> locks_fine w l -> locks_free w l (WAL_READ_LOCK 0) WAL_NREADER ->
  exists rc xBusy' w' s' log' db' l', (if nBackfill (s_ckpt s) <? mxFrame (hdr w) then ckpt_copy ok1 ok2 interrupts mf xBusy flags w s log db l else Done (SQLITE_OK, xBusy, w, s, log, db, l)) =
      Done (rc, xBusy', w', s', log', db', l') /\
    (exists m v ro, w' = with_mapped w m v ro) /\ ckpt_ready w' s' frames /\ grown s s' /\ calm w l l' /\ os_ok log' /\ os_ok db' /\ os_data log' = os_data log /\
    same_content frames w l s (os_data log) (os_data db) s' (os_data log') (os_data db') /\
    (nBackfill (s_ckpt s') < mxFrame (hdr w) \/ mxFrame (hdr w) <= nBackfill (s_ckpt s') /\ all_copied frames w s (os_data log) (os_data db) (os_data db')) /\
    (ok1 = true -> ok2 = true -> can_complete frames w s log db l interrupts -> rc = SQLITE_OK /\ mxFrame (hdr w) <= nBackfill (s_ckpt s')).
Proof.
  intros Hr Hl Hd Hlo Hlf Hfree. destruct (Z.ltb_spec (nBackfill (s_ckpt s)) (mxFrame (hdr w))) as [Hlt|Hge].
  - destruct (ckpt_copy_ok ok1 ok2 interrupts mf xBusy flags w s log db l Hr Hlt Hl Hd Hlo Hlf Hfree) as (rc & xb & w' & s' & log' & db' & l' & E & R1 & R2 & R3 & R4 & R5 & R6 & R7 & R8 & R9 & R10).
    exists rc, xb, w', s', log', db', l'. do 9 (split; [done|]). split; [destruct R9 as [|[-> ?]]; [by left|by right]|]. intros T1 T2 Hcc. destruct (R10 T1 T2 Hcc) as [-> ->]. done.
  - exists SQLITE_OK, xBusy, w, s, log, db, l. split; [done|]. split; [by exists (w_mapped w), (w_vfs w), (readOnly w); destruct w|]. split; [done|]. split; [split; [done|split; [done|split; [exists 0%nat; by rewrite app_nil_r|done]]]|]. split; [by apply calm_refl|].
    do 3 (split; [done|]). split; [by apply same_content_refl|]. split; [right; split; [done|]|done]. intros p Hp. pose proof (cr_mx _ _ _ Hr). by rewrite snapshot_empty by lia.
Qed.

(** What a checkpoint does; with a reader of the log it empties nothing. *)
Lemma walCheckpoint_ok ok1 ok2 interrupts mf salt1 eMode xBusy flags w s (log db : F) (l : L) : ckpt_ready w s frames -> os_ok log -> os_ok db ->
  locks_ok w l -> locks_fine w l -> locks_free w l (WAL_READ_LOCK 0) WAL_NREADER -> len salt1 = 4 -> bytes_ok salt1 ->
  (eMode <> SQLITE_CHECKPOINT_PASSIVE -> mxFrame (s_hdr0 s) = mxFrame (hdr w)) ->
  exists rc w' s' log' db' l', walCheckpoint ok1 ok2 interrupts mf salt1 eMode xBusy flags w s log db l = Done (rc, w', s', log', db', l') /\ calm w l l' /\
    same_content frames w l s (os_data log) (os_data db) s' (os_data log') (os_data db') /\
    (rc = SQLITE_OK -> eMode <> SQLITE_CHECKPOINT_PASSIVE -> all_copied frames w s (os_data log) (os_data db) (os_data db')) /\
    os_ok log' /\ os_ok db' /\
    (forall i, 1 <= i < WAL_NREADER -> other_holds w l (WAL_READ_LOCK i) -> grown s s' /\ (len (aReadMark (s_ckpt s')) = WAL_NREADER /\ Forall (Z.le 0) (aReadMark (s_ckpt s'))) /\ os_data log' = os_data log).
Proof.
  intros Hr Hl Hd Hlo Hlf Hfree Hl1 Hb1 Hwriter. pose proof Hr as [_ Hz _ Hmx _ _ _ _ _ _ _ _].
  destruct (checkpoint_copied ok1 ok2 interrupts mf xBusy flags w s log db l Hr Hl Hd Hlo Hlf Hfree) as (rc & xb & w1 & s1 & log1 & db1 & l1 & E & (m & v & ro & Ew) & Hr1 & E0 & Hc1 & Ho1 & Ho2 & El & Hsame & Hall & _).
  unfold walCheckpoint, walIndexHdr. rewrite bool_decide_eq_true_2 by done. cbn [mbind outcome_bind]. rewrite E. cbn [mbind outcome_bind]. clear E.
  destruct (Z.eqb_spec rc SQLITE_OK) as [->|Hrc]; cbn [andb].
  2: { eexists rc, w1, s1, log1, db1, l1. do 3 (split; [done|]). split; [done|]. do 2 (split; [done|]). intros _ _ _. split; [done|]. split; [apply Hr1|done]. }
  destruct (Z.eqb_spec eMode SQLITE_CHECKPOINT_PASSIVE) as [->|Hmode]; cbn [negb].
  { eexists SQLITE_OK, w1, s1, log1, db1, l1. do 3 (split; [done|]). split; [done|]. do 2 (split; [done|]). intros _ _ _. split; [done|]. split; [apply Hr1|done]. }
  destruct (ckpt_restart_ok eMode xb salt1 w1 s1 log1 l1 Hr1 Ho1) as (rc2 & w2 & s2 & log2 & l2 & -> & Ho3 & Hc2 & Hrc2 & Hres);
    [by subst w1; apply Hc1|by subst w1; apply Hc1|subst w1; exact (calm_free _ _ _ _ _ Hc1 Hfree)|done|done|]. cbn [mbind outcome_bind].
  assert (mxFrame (hdr w1) = mxFrame (hdr w)) as Em by by subst w1. rewrite Em in *.
  eexists rc2, w2, s2, log2, db1, l2. split; [done|]. split; [by subst w1; eapply calm_trans|]. split; [|split; [|split; [done|split; [done|]]]].
  - destruct Hres as [(-> & -> & El2)|(Hu & Hge & Em2 & En2)]; [by rewrite El2|]. destruct Hall as [|[En1 Hall]]; [lia|]. destruct Hsame as [_ _ Hfile]. split.
    + intros p Hp. rewrite Em2, En2, snapshot_empty by lia. rewrite (Hwriter Hmode). by apply Hall.
    + intros i Hi Ho. destruct (other_holds_used w l (WAL_READ_LOCK 1) (WAL_NREADER - 1) (WAL_READ_LOCK i) Ho); [unfold WAL_READ_LOCK, WAL_NREADER in *; lia|].
      apply (calm_unused w l l1); [done|]. by subst w1.
    + done.
  - intros Hok _. specialize (Hrc2 Hok). destruct Hall as [|[_ Hall]]; [lia|done].
  - intros i Hi Ho. destruct Hres as [(-> & -> & El2)|(Hu & _)]; [rewrite El2; split; [done|]; split; [apply Hr1|done]|].
    destruct (other_holds_used w l (WAL_READ_LOCK 1) (WAL_NREADER - 1) (WAL_READ_LOCK i) Ho); [unfold WAL_READ_LOCK, WAL_NREADER in *; lia|]. apply (calm_unused w l l1); [done|]. by subst w1.
Qed.

(** C16. [walCheckpoint], in any mode and whichever call fails, as one step between the calls of the other
    connections, whoever of them reads or writes: for a connection whose header is of the
    current log, with a last frame at or before the live one ([ckpt_ready]: no writer has
    restarted the log since [sqlite3WalCheckpoint] read that header), it is defined and gives
    back its locks; up to the size [nPage] of that header, the database that the next reader
    finds is the same as before, and no page of a snapshot that somebody reads changes (nor his
    mark); and the file does not change while somebody reads it alone.  A success in another mode than
    PASSIVE means that the file holds the whole database of that header. *)
Theorem checkpoint_keeps_content ok1 ok2 interrupts mf salt1 eMode xBusy flags w s (log db : F) (l : L) : ckpt_ready w s frames -> os_ok log -> os_ok db ->
  locks_ok w l -> locks_fine w l -> locks_free w l (WAL_READ_LOCK 0) WAL_NREADER -> len salt1 = 4 -> bytes_ok salt1 ->
  (eMode <> SQLITE_CHECKPOINT_PASSIVE -> mxFrame (s_hdr0 s) = mxFrame (hdr w)) ->
  exists rc w' s' log' db' l', walCheckpoint ok1 ok2 interrupts mf salt1 eMode xBusy flags w s log db l = Done (rc, w', s', log', db', l') /\ calm w l l' /\
    same_content frames w l s (os_data log) (os_data db) s' (os_data log') (os_data db') /\
    (rc = SQLITE_OK -> eMode <> SQLITE_CHECKPOINT_PASSIVE -> all_copied frames w s (os_data log) (os_data db) (os_data db')).
Proof.
  intros Hr Hl Hd Hlo Hlf Hfree Hl1 Hb1 Hwriter.
  destruct (walCheckpoint_ok ok1 ok2 interrupts mf salt1 eMode xBusy flags w s log db l Hr Hl Hd Hlo Hlf Hfree Hl1 Hb1 Hwriter) as (rc & w' & s' & log' & db' & l' & E & R1 & R2 & R3 & _).
  by exists rc, w', s', log', db', l'.
Qed.

(** C17. [walCheckpoint] does its work: for a header of the current log as in [checkpoint_keeps_content], when
    nobody else reads, no call fails, no interrupt is requested, the log is there in full, and the
    size of the database agrees with the files ([can_complete]: it is not larger than the file and
    the log could make it by more than 64 KB, or else the code reports corruption, and its last
    page is in the file or among the frames to copy), the database file holds, after a
    checkpoint of any mode, the whole database as the log left it. *)
Theorem checkpoint_completes interrupts mf salt1 eMode xBusy flags w s (log db : F) (l : L) : ckpt_ready w s frames -> os_ok log -> os_ok db ->
  locks_ok w l -> locks_fine w l -> locks_free w l (WAL_READ_LOCK 0) WAL_NREADER -> len salt1 = 4 -> bytes_ok salt1 -> can_complete frames w s log db l interrupts ->
  exists rc w' s' log' db' l', walCheckpoint true true interrupts mf salt1 eMode xBusy flags w s log db l = Done (rc, w', s', log', db', l') /\
    all_copied frames w s (os_data log) (os_data db) (os_data db') /\ (eMode = SQLITE_CHECKPOINT_PASSIVE -> rc = SQLITE_OK /\ mxFrame (hdr w) <= nBackfill (s_ckpt s')).
Proof.
  intros Hr Hl Hd Hlo Hlf Hfree Hl1 Hb1 Hcc. pose proof (cr_zero _ _ _ Hr) as Hz.
  destruct (checkpoint_copied true true interrupts mf xBusy flags w s log db l Hr Hl Hd Hlo Hlf Hfree) as (rc & xb & w1 & s1 & log1 & db1 & l1 & E & (m & v & ro & Ew) & Hr1 & E0 & Hc1 & Ho1 & Ho2 & El & _ & Hall & Hfull).
  unfold walCheckpoint, walIndexHdr. rewrite bool_decide_eq_true_2 by done. cbn [mbind outcome_bind]. rewrite E. cbn [mbind outcome_bind]. clear E.
  destruct (Hfull eq_refl eq_refl Hcc) as [-> Hn]. destruct Hall as [|[_ Hall]]; [lia|]. cbn [Z.eqb SQLITE_OK andb]. destruct (Z.eqb_spec eMode SQLITE_CHECKPOINT_PASSIVE) as [->|Hmode]; cbn [negb].
  { eexists SQLITE_OK, w1, s1, log1, db1, l1. split; [done|]. by split. }
  destruct (ckpt_restart_ok eMode xb salt1 w1 s1 log1 l1 Hr1 Ho1) as (rc2 & w2 & s2 & log2 & l2 & -> & _);
    [by subst w1; apply Hc1|by subst w1; apply Hc1|subst w1; exact (calm_free _ _ _ _ _ Hc1 Hfree)|done|done|]. cbn [mbind outcome_bind].
  eexists rc2, w2, s2, log2, db1, l2. split; [done|]. split; [done|]. by intros ->.
Qed.
End checkpoint.

(** ** A concrete checkpoint

    Four frames, of pages 7, 390, 7 and 5; a reader at the second frame, or none. *)

Definition ckpt_shm (marks : list Z) (s : Shm) : Shm := with_ckpt s (mk_ckpt 0 marks 0).
Definition filled (n b : Z) : FaultyFile := mk_file (replicate (Z.to_nat n) b) [].
Definition ckpt_log : FaultyFile := filled (32 + 4 * 4120) 1.
Definition ckpt_db : FaultyFile := filled (9 * 4096) 2.

Lemma filled_ok n b : is_byte b -> os_ok (filled n b).
Proof. intros Hb. by apply Forall_replicate. Qed.
Lemma filled_length n b : 0 <= n -> len (os_data (filled n b)) = n.
Proof. intros Hn. unfold filled. cbn [os_data FaultyFile_OsFile ff_data]. rewrite length_replicate. lia. Qed.
Definition reader_table : UnixShm := mk_table [0; 0; 0; 0; 1; 0; 0; 0] [mk_shm_conn 0 0; mk_shm_conn 16 0] [].
Definition empty_table : UnixShm := mk_table (replicate 8 0) [mk_shm_conn 0 0] [].

Lemma shared_table_wf t : length (aLock t) = 8%nat -> (forall i, 0 <= i < 8 -> (aLock t).[i] = sharers t i) -> Forall (fun p => exclMask p = 0) (conns t) -> table_wf t.
Proof.
  intros Hl Hs He. split; [done|]. intros i Hi. left. split; [by apply Hs|]. intros c p Hp. rewrite (Forall_lookup_1 _ _ _ _ He Hp). apply Z.testbit_0_l.
Qed.

Lemma reader_table_wf : table_wf reader_table.
Proof. apply shared_table_wf; [done| |by repeat constructor]. apply (forall_below 8). repeat constructor. Qed.
Lemma empty_table_wf : table_wf empty_table.
Proof. apply shared_table_wf; [done| |by repeat constructor]. apply (forall_below 8). repeat constructor. Qed.

Lemma ckpt_run marks : len marks = WAL_NREADER -> Forall (Z.le 0) marks -> exists w s, ckpt_ready w (ckpt_shm marks s) [7; 390; 7; 5] /\
  mxFrame (hdr w) = 4 /\ mxFrame (s_hdr0 s) = 4 /\ nPage (hdr w) = 9 /\ walPagesize (hdr w) = 4096 /\ exclusiveMode w = 0 /\ pDbFd w = 0%nat /\ w_vfs w = [].
Proof.
  intros Hm1 Hm2. assert (exists w s, wal_step (OpFrames [7; 390; 7; 5] 4096 9 true) (wal0 0 true) shm0 = Done (SQLITE_OK, w, s) /\ mxFrame (hdr w) = 4 /\ mxFrame (s_hdr0 s) = 4 /\
    nPage (hdr w) = 9 /\ walPagesize (hdr w) = 4096 /\ exclusiveMode w = 0 /\ pDbFd w = 0%nat /\ w_vfs w = [] /\ w_mapped w = {[0]} /\ aSalt (hdr w) = replicate 8 0) as (w & s & E & E1 & E2 & E3 & E4 & E5 & E6 & E7 & E8 & E9).
  { eexists _, _. split; [vm_compute; reflexivity|]. repeat split; vm_compute; reflexivity. }
  assert (op_ok (OpFrames [7; 390; 7; 5] 4096 9 true) (wal0 0 true) (mk_log [] [])) as Hop by (split; [repeat constructor; lia|cbn; lia]).
  pose proof (wal_reach_rel _ _ _ (wr_step _ _ _ _ _ _ _ (wr_start _ _ wal0_start) Hop E)) as [Hw _ _ _]. change (log_frames _) with [7; 390; 7; 5] in Hw.
  pose proof (wr_map _ _ _ Hw) as Hmap. pose proof (wr_holds _ _ _ Hw) as Hholds. clear E Hop Hw.
  exists w, s. split; [|by split_and!]. split.
  - exact Hmap.
  - rewrite E8. set_solver.
  - exact Hholds.
  - rewrite E1. cbn. lia.
  - rewrite E1. lia.
  - cbn [ckpt_shm with_ckpt s_hdr0]. lia.
  - repeat constructor; lia.
  - cbn. lia.
  - by split.
  - rewrite E4. unfold page_size_ok. split; [lia|reflexivity].
  - rewrite E3. lia.
  - rewrite E9. split; [done|]. by apply Forall_replicate.
Qed.

Lemma checkpoint_keeps_content_witness : exists w s, ckpt_ready w (ckpt_shm [0; 2; 0; 0; 0] s) [7; 390; 7; 5] /\ other_holds w reader_table (WAL_READ_LOCK 1) /\
  exists rc w' s' log' db' l', walCheckpoint true true [] false [1; 2; 3; 4] SQLITE_CHECKPOINT_PASSIVE None 0 w (ckpt_shm [0; 2; 0; 0; 0] s) ckpt_log ckpt_db reader_table = Done (rc, w', s', log', db', l') /\
    (aReadMark (s_ckpt s')).[1] = 2 /\
    snapshot_page 4096 [7; 390; 7; 5] (os_data log') (os_data db') 1 2 7 = frame_page 4096 (os_data ckpt_log) 1.
Proof.
  destruct (ckpt_run [0; 2; 0; 0; 0]) as (w & s & Hr & E1 & E2 & E3 & E4 & E5 & E6 & E7); [done|repeat constructor; lia|].
  assert (other_holds w reader_table (WAL_READ_LOCK 1)) as Ho by (split; [done|]; exists 1%nat; split; [by rewrite E6|done]).
  exists w, s. split; [exact Hr|]. split; [exact Ho|].
  destruct (checkpoint_keeps_content [7; 390; 7; 5] true true [] false [1; 2; 3; 4] SQLITE_CHECKPOINT_PASSIVE None 0 w (ckpt_shm [0; 2; 0; 0; 0] s) ckpt_log ckpt_db reader_table Hr)
    as (rc & w' & s' & log' & db' & l' & E & _ & Hsame & _).
  - apply filled_ok. unfold is_byte. lia.
  - apply filled_ok. unfold is_byte. lia.
  - intros _. rewrite E6. split; [apply reader_table_wf|by eexists].
  - done.
  - intros _ j Hj. rewrite E6. cbn. change (exclMask _) with 0. rewrite !Z.testbit_0_l. by destruct (_ || _).
  - done.
  - repeat constructor; lia.
  - done.
  - exists rc, w', s', log', db', l'. split; [exact E|]. destruct (sc_readers _ _ _ _ _ _ _ _ _ Hsame 1 ltac:(unfold WAL_NREADER; lia) Ho) as [Em Hsnap].
    split; [exact Em|]. rewrite E1, E3, E4 in Hsnap. change ((aReadMark _).[1]) with 2 in Hsnap. rewrite (Hsnap 1 2 7) by (cbn; lia). reflexivity.
Defined.

Lemma checkpoint_completes_witness : exists w s, ckpt_ready w (ckpt_shm [0; 4; 0; 0; 0] s) [7; 390; 7; 5] /\
  exists rc w' s' log' db' l', walCheckpoint true true [] false [1; 2; 3; 4] SQLITE_CHECKPOINT_PASSIVE None 0 w (ckpt_shm [0; 4; 0; 0; 0] s) ckpt_log ckpt_db empty_table = Done (rc, w', s', log', db', l') /\
    rc = SQLITE_OK /\ db_page 4096 (os_data db') 7 = frame_page 4096 (os_data ckpt_log) 3.
Proof.
  destruct (ckpt_run [0; 4; 0; 0; 0]) as (w & s & Hr & E1 & E2 & E3 & E4 & E5 & E6 & E7); [done|repeat constructor; lia|].
  exists w, s. split; [exact Hr|].
  destruct (checkpoint_completes [7; 390; 7; 5] [] false [1; 2; 3; 4] SQLITE_CHECKPOINT_PASSIVE None 0 w (ckpt_shm [0; 4; 0; 0; 0] s) ckpt_log ckpt_db empty_table Hr)
    as (rc & w' & s' & log' & db' & l' & E & Hall & Hok).
  - apply filled_ok. unfold is_byte. lia.
  - apply filled_ok. unfold is_byte. lia.
  - intros _. rewrite E6. split; [apply empty_table_wf|by eexists].
  - done.
  - intros _ j Hj. rewrite E6. cbn. rewrite !Z.testbit_0_l. by destruct (_ || _).
  - done.
  - repeat constructor; lia.
  - split.
    + intros _ [|c] j Hj Hc; [by rewrite E6 in Hc|]. done.
    + exact E7.
    + by split.
    + rewrite E1, E4. unfold ckpt_log. rewrite filled_length by lia. unfold WAL_HDRSIZE, WAL_FRAME_HDRSIZE. lia.
    + constructor.
    + rewrite E1, E3, E4. unfold ckpt_db. rewrite filled_length by lia. lia.
    + left. rewrite E3, E4. unfold ckpt_db. rewrite filled_length by lia. lia.
  - exists rc, w', s', log', db', l'. split; [exact E|]. destruct (Hok eq_refl) as [Hrc _]. split; [exact Hrc|].
    pose proof (Hall 7) as H7. rewrite E1, E3, E4 in H7. rewrite H7 by lia. reflexivity.
Defined.
