(* ===== verification/WalWrite.v ===== *)
(** * WalWrite: writing frames into the log (sqlite3.c, wal.c)

    [sqlite3WalFrames] writes the dirty pages of a transaction into the log: a page that the
    same transaction has already written is overwritten, which breaks the checksums behind
    it until [walRewriteChecksums] repairs them before a commit.

    [salt0] and [salt1] are answers of [sqlite3_randomness], [ok] that of an allocation, and
    [sectorSize] that of [sqlite3SectorSize].  The list of the pages is a list: [p->pDirty==0]
    is that nothing follows; [PGHDR_WAL_APPEND] is the list of the pages that the loop has
    appended. *)

From S2P Require Import Prelude Varint CType ByteMem OsFile WalCksum WalIndex WalFrame WalLock WalIndexRefine WalRecover WalRead WalCkpt.

Record PgHdr := mk_page { pgno : Z; pData : bytes }.

Section write.
Context {F : Type} `{OsFile F}.

(** ** Checksums again *)

Fixpoint rewrite_loop (n : nat) (iRead : Z) (w : Wal) (fd : F) : outcome (Z * Wal * F) :=
  match n with
  | O => Done (SQLITE_OK, w, fd)
  | S n =>
      let iOff := walFrameOffset iRead (szPage w) in
      let '(rc, aBuf, fd) := sqlite3OsRead fd (szPage w + WAL_FRAME_HDRSIZE) iOff in
      if rc =? SQLITE_OK then
        iPgno ← get4byte aBuf 0; nDbSize ← get4byte aBuf 4;
        '(aFrame, w) ← walEncodeFrame w iPgno nDbSize (drop (Z.to_nat WAL_FRAME_HDRSIZE) aBuf);
        let '(rc, fd) := sqlite3OsWrite fd aFrame iOff in
        if rc =? SQLITE_OK then rewrite_loop n (u32 (iRead + 1)) w fd else Done (rc, w, fd)
      else Done (rc, w, fd)
  end.

Definition walRewriteChecksums (ok : bool) (w : Wal) (iLast : Z) (fd : F) : outcome (Z * Wal * F) :=
  if negb ok then Done (SQLITE_NOMEM, w, fd)
  else
    let iCksumOff := if iReCksum w =? 1 then 24 else walFrameOffset (u32 (iReCksum w - 1)) (szPage w) + 16 in
    let '(rc, aBuf, fd) := sqlite3OsRead fd 8 iCksumOff in
    c0 ← get4byte aBuf 0; c1 ← get4byte aBuf 4;
    let iRead := iReCksum w in
    let w := with_recksum (with_cksum w (c0, c1)) 0 in
    if rc =? SQLITE_OK then rewrite_loop (Z.to_nat (iLast + 1 - iRead)) iRead w fd else Done (rc, w, fd).

(** ** The header of the log *)

Definition log_head (szPage nCkpt : Z) (salt : bytes) : bytes :=
  sqlite3Put4byte (WAL_MAGIC .| SQLITE_BIGENDIAN) ++ sqlite3Put4byte WAL_MAX_VERSION ++ sqlite3Put4byte szPage ++ sqlite3Put4byte nCkpt ++ salt.

(** Before the first frame: the code, and whether the function returns it. *)
Definition begin_log (salt0 : bytes) (sz sync_flags : Z) (w : Wal) (fd : F) : outcome (Z * Wal * F) :=
  let salt := if nCkpt w =? 0 then salt0 else aSalt (hdr w) in
  let aWalHdr := log_head sz (nCkpt w) salt in
  aCksum ← walChecksumBytes true aWalHdr (WAL_HDRSIZE - 2 * 4) None;
  let w := with_truncate (with_cksum (with_hdr (with_log w sz (nCkpt w)) (log_hdr (hdr w) SQLITE_BIGENDIAN salt)) aCksum) true in
  let '(rc, fd) := sqlite3OsWrite fd (aWalHdr ++ sqlite3Put4byte (fst aCksum) ++ sqlite3Put4byte (snd aCksum)) 0 in
  if negb (rc =? SQLITE_OK) then Done (rc, w, fd)
  else if syncHeader w then let '(rc, fd) := sqlite3OsSync fd (CKPT_SYNC_FLAGS sync_flags) in Done (rc, w, fd)
  else Done (rc, w, fd).

(** ** The frames *)

(** The pages in turn: the code, the last frame and the offset behind it, the pages that have
    been appended. *)
Fixpoint write_pages (pList : list PgHdr) (p : WalWriter) (iFirst nTruncate : Z) (isCommit : bool) (iFrame iOffset : Z) (done : list PgHdr) (w : Wal) (s : Shm) (fd : F) : outcome (Z * Z * Z * list PgHdr * Wal * Shm * F) :=
  match pList with
  | [] => Done (SQLITE_OK, iFrame, iOffset, done, w, s, fd)
  | pg :: pList =>
      let more := negb (bool_decide (pList = [])) in
      '(iWrite, w, s) ← (if negb (iFirst =? 0) && (more || negb isCommit)
                         then '(rc, f, w, s) ← sqlite3WalFindFrame w (pgno pg) s; Done (if rc =? SQLITE_OK then f else 0, w, s)
                         else Done (0, w, s));
      if negb (iFirst =? 0) && (more || negb isCommit) && (iFirst <=? iWrite) then
        let w := if (iReCksum w =? 0) || (iWrite <? iReCksum w) then with_recksum w iWrite else w in
        let '(rc, fd) := sqlite3OsWrite fd (take (Z.to_nat (ww_szPage p)) (pData pg)) (walFrameOffset iWrite (ww_szPage p) + WAL_FRAME_HDRSIZE) in
        if negb (rc =? SQLITE_OK) then Done (rc, iFrame, iOffset, done, w, s, fd)
        else write_pages pList p iFirst nTruncate isCommit iFrame iOffset done w s fd
      else
        let iFrame := u32 (iFrame + 1) in
        '(rc, w, fd) ← walWriteOneFrame p w (pgno pg) (pData pg) (if isCommit && negb more then nTruncate else 0) iOffset fd;
        if negb (rc =? SQLITE_OK) then Done (rc, iFrame, iOffset, done, w, s, fd)
        else write_pages pList p iFirst nTruncate isCommit iFrame (iOffset + (ww_szPage p + WAL_FRAME_HDRSIZE)) (done ++ [pg]) w s fd
  end.

(** The last frame again and again, up to [iSyncPoint]; the number of copies. *)
Fixpoint pad_loop (fuel : nat) (p : WalWriter) (pLast : option PgHdr) (nTruncate iOffset nExtra : Z) (w : Wal) (fd : F) : outcome (Z * Z * Z * Wal * F) :=
  match fuel with
  | O => UB
  | S fuel =>
      if iOffset <? iSyncPoint p then
        match pLast with
        | None => UB
        | Some pg =>
            '(rc, w, fd) ← walWriteOneFrame p w (pgno pg) (pData pg) nTruncate iOffset fd;
            if negb (rc =? SQLITE_OK) then Done (rc, iOffset, nExtra, w, fd)
            else pad_loop fuel p pLast nTruncate (iOffset + (ww_szPage p + WAL_FRAME_HDRSIZE)) (nExtra + 1) w fd
        end
      else Done (SQLITE_OK, iOffset, nExtra, w, fd)
  end.

(** Padding and syncing of a commit: the code, whether the function returns it, the copies. *)
Definition pad_and_sync (sectorSize sync_flags : Z) (p : WalWriter) (pLast : option PgHdr) (nTruncate iOffset : Z) (w : Wal) (fd : F) : outcome (Z * bool * Z * Wal * F) :=
  if padToSectorBoundary w then
    let p := mk_writer (Z.quot (iOffset + sectorSize - 1) sectorSize * sectorSize) (ww_syncFlags p) (ww_szPage p) in
    let bSync := iSyncPoint p =? iOffset in
    '(rc, _, nExtra, w, fd) ← pad_loop (S (Z.to_nat sectorSize)) p pLast nTruncate iOffset 0 w fd;
    if negb (rc =? SQLITE_OK) then Done (rc, true, nExtra, w, fd)
    else if bSync then let '(rc, fd) := sqlite3OsSync fd (WAL_SYNC_FLAGS sync_flags) in Done (rc, false, nExtra, w, fd)
    else Done (rc, false, nExtra, w, fd)
  else let '(rc, fd) := sqlite3OsSync fd (WAL_SYNC_FLAGS sync_flags) in Done (rc, false, 0, w, fd).

Definition limit_log (iFrame nExtra : Z) (p : WalWriter) (w : Wal) (fd : F) : Wal * F :=
  if truncateOnCommit w && (0 <=? mxWalSize w) then
    let off := walFrameOffset (u32 (iFrame + nExtra + 1)) (ww_szPage p) in
    let sz := if mxWalSize w <? off then off else mxWalSize w in
    (with_truncate w false, walLimitSize sz fd)
  else (w, fd).

(** After the pages: the checksums, the padding, the size limit, and the index. *)
Definition finish_frames (ok : bool) (sectorSize sz nTruncate : Z) (isCommit : bool) (sync_flags : Z) (p : WalWriter) (iFrame iOffset : Z) (done : list PgHdr) (w : Wal) (s : Shm) (fd : F) : outcome (Z * Wal * Shm * F) :=
  '(rc, w, fd) ← (if isCommit && negb (iReCksum w =? 0) then walRewriteChecksums ok w iFrame fd else Done (SQLITE_OK, w, fd));
  if negb (rc =? SQLITE_OK) then Done (rc, w, s, fd)
  else
    '(rc, failed, nExtra, w, fd) ←
      (if isCommit && negb (WAL_SYNC_FLAGS sync_flags =? 0) then pad_and_sync sectorSize sync_flags p (last done) nTruncate iOffset w fd
       else Done (rc, false, 0, w, fd));
    if (failed : bool) then Done (rc, w, s, fd)
    else
      let '(w, fd) := if isCommit then limit_log iFrame nExtra p w fd else (w, fd) in
      if rc =? SQLITE_OK then
        let copies := match last done with Some pg => replicate (Z.to_nat nExtra) (pgno pg) | None => [] end in
        '(rc, w, s) ← frames_index (map pgno done ++ copies) sz nTruncate isCommit w s; Done (rc, w, s, fd)
      else Done (rc, w, s, fd).

(** From the header of the log on. *)
Definition write_frames (salt0 : bytes) (ok : bool) (sectorSize sz : Z) (pList : list PgHdr) (nTruncate : Z) (isCommit : bool) (sync_flags iFirst : Z) (w : Wal) (s : Shm) (fd : F) : outcome (Z * Wal * Shm * F) :=
  let iFrame := mxFrame (hdr w) in
  '(rc, w, fd) ← (if iFrame =? 0 then begin_log salt0 sz sync_flags w fd else Done (SQLITE_OK, w, fd));
  if negb (rc =? SQLITE_OK) then Done (rc, w, s, fd)
  else
    let p := mk_writer 0 sync_flags sz in
    '(rc, iFrame, iOffset, done, w, s, fd) ← write_pages pList p iFirst nTruncate isCommit iFrame (walFrameOffset (u32 (iFrame + 1)) sz) [] w s fd;
    if negb (rc =? SQLITE_OK) then Done (rc, w, s, fd)
    else finish_frames ok sectorSize sz nTruncate isCommit sync_flags p iFrame iOffset done w s fd.

(** The first frame that may be overwritten. *)
Definition first_rewritable (w : Wal) (s : Shm) : outcome Z :=
  pLive ← walIndexHdr w s;
  Done (if negb (bool_decide (hdr w = pLive)) then u32 (mxFrame pLive + 1) else 0).

Section frames.
Context {L : Type} `{ShmLocks L}.
Context (unreliable : Z -> bool -> Wal -> Shm -> F -> L -> outcome (Z * bool * Wal * Shm * F * L)).
Context (walBeginShmUnreliable : bool -> Wal -> Shm -> F -> L -> outcome (Z * bool * Wal * Shm * F * L)).
Context (aPrivate : option WiPage).

Definition sqlite3WalFrames (salt0 salt1 : bytes) (ok : bool) (sectorSize sz : Z) (pList : list PgHdr) (nTruncate : Z) (isCommit : bool) (sync_flags : Z) (w : Wal) (s : Shm) (fd : F) (l : L) : outcome (Z * Wal * Shm * F * L) :=
  iFirst ← first_rewritable w s;
  '(rc, w, s, fd, l) ← walRestartLog unreliable walBeginShmUnreliable aPrivate salt1 w s fd l;
  if negb (rc =? SQLITE_OK) then Done (rc, w, s, fd, l)
  else '(rc, w, s, fd) ← write_frames salt0 ok sectorSize sz pList nTruncate isCommit sync_flags iFirst w s fd; Done (rc, w, s, fd, l).
End frames.
End write.

(** ** Reading a page *)

Definition sqlite3WalReadFrame {F} `{OsFile F} (iRead nOut : Z) (w : Wal) (fd : F) : Z * bytes * F :=
  let sz := walPagesize (hdr w) in
  sqlite3OsRead fd (if sz <? nOut then sz else nOut) (walFrameOffset iRead sz + WAL_FRAME_HDRSIZE).

Definition sqlite3WalDbsize (w : Wal) : Z := if 0 <=? readLock w then nPage (hdr w) else 0.
