(* ===== verification/WalDurable.v ===== *)
(** * WalDurable: what has been committed stays in the log

    The bytes of the log while a transaction writes ([log_file], [log_writer]), and the
    theorems about [write_frames] of WalWrite: whichever call fails, and however much of a
    write has been carried out, the committed frames can be recovered; after a success all
    frames of the transaction can. *)

From S2P Require Import Prelude Varint CType ByteMem OsFile WalCksum WalIndex WalFrame WalLock WalIndexRefine WalRecover WalRead WalCkpt WalBackfill WalWrite.

(** ** A piece of a file *)

Definition at_off (d : bytes) (o : Z) (b : bytes) : Prop := 0 <= o /\ o + len b <= len d /\ forall j, 0 <= j < len b -> d.[o + j] = b.[j].

Lemma at_sub d o b : at_off d o b -> sub d o (len b) = b.
Proof.
  intros (Ho & Hl & Hj). pose proof (sub_length d o (len b) Ho ltac:(lia) Hl) as Ls. apply bytes_ext; [lia|]. intros j Hjl. rewrite ld_sub by lia. apply Hj. lia.
Qed.

Lemma sub_at d o n : 0 <= o -> 0 <= n -> o + n <= len d -> at_off d o (sub d o n).
Proof. intros Ho Hn Hl. pose proof (sub_length d o n Ho Hn Hl) as Ls. split; [done|]. split; [lia|]. intros j Hj. by rewrite ld_sub by lia. Qed.

Lemma at_app d o a b : at_off d o (a ++ b) <-> at_off d o a /\ at_off d (o + len a) b.
Proof.
  unfold at_off. rewrite length_app. split.
  - intros (Ho & Hl & H). split; (split; [lia|split; [lia|]]); intros j Hj.
    + rewrite H by lia. by rewrite ld_app_l by lia.
    + rewrite <- Z.add_assoc, H by lia. rewrite ld_app_r by lia. f_equal. lia.
  - intros ((Ho & Hl & H) & (_ & Hl2 & H2)). split; [done|]. split; [lia|]. intros j Hj. rewrite ld_app by lia. destruct (Z.ltb_spec j (len a)); [apply H; lia|].
    rewrite <- H2 by lia. f_equal. lia.
Qed.

Lemma at_write d o b : 0 <= o -> at_off (write_at d o b) o b.
Proof.
  intros Ho. split; [done|]. split; [rewrite write_at_length by done; lia|]. intros j Hj. rewrite ld_write_at by lia. rewrite decide_True by lia. f_equal. lia.
Qed.

Lemma at_write_other d o b o' b' : 0 <= o -> at_off d o' b' -> o' + len b' <= o \/ o + len b <= o' -> at_off (write_at d o b) o' b'.
Proof.
  intros Ho (Ho' & Hl & H) Hd. split; [done|]. split; [rewrite write_at_length by done; lia|]. intros j Hj. rewrite ld_write_at by lia. rewrite decide_False by lia. by apply H.
Qed.

(** A write, complete or not, leaves the rest alone. *)
Lemma at_result_other d d' o b rc o' b' : write_result d d' o b rc -> 0 <= o -> at_off d o' b' -> o' + len b' <= o \/ o + len b <= o' -> at_off d' o' b'.
Proof.
  intros Hw Ho Ha Hd. unfold write_result in Hw. destruct (rc =? SQLITE_OK); [subst d'; by apply at_write_other|].
  destruct Hw as [->|(k & _ & ->)]; [done|]. apply at_write_other; [done|done|]. rewrite length_take. lia.
Qed.

Lemma at_result_same d d' o b : write_result d d' o b SQLITE_OK -> 0 <= o -> at_off d' o b.
Proof. intros Hw Ho. unfold write_result in Hw. cbn in Hw. subst d'. by apply at_write. Qed.

Lemma at_resize d sz o b : at_off d o b -> o + len b <= sz -> at_off (resize d sz) o b.
Proof.
  intros (Ho & Hl & H) Hs. split; [done|]. split; [rewrite resize_length by lia; lia|]. intros j Hj. unfold resize. rewrite ld_app by lia. rewrite length_take.
  rewrite (proj2 (Z.ltb_lt _ _)) by lia. rewrite ld_take by lia. by apply H.
Qed.

(** A four-byte number in it. *)
Lemma at_be32 d o v : at_off d o (sqlite3Put4byte v) -> be32 d o = u32 v.
Proof.
  intros (Ho & _ & H). rewrite put4byte_length in H. pose proof (be32_put [] v [] ltac:(constructor)) as E. cbn [app length] in E. change (Z.of_nat 0) with 0 in E. rewrite app_nil_r in E.
  rewrite <- E. unfold be32. pose proof (H 0 ltac:(lia)) as H0. rewrite Z.add_0_r in H0. rewrite !Z.add_0_l, H0, !H by lia. done.
Qed.

Lemma at_head d o f : 0 < f_pgno f < 2 ^ 32 -> 0 <= f_trunc f < 2 ^ 32 -> at_off d o (frame_head f) -> be32 d o = f_pgno f /\ be32 d (o + 4) = f_trunc f.
Proof. intros Hp Ht [H1 H2]%at_app. rewrite put4byte_length in H2. apply at_be32 in H1 as ->, H2 as ->. rewrite !u32_id by lia. done. Qed.

Lemma at_cksum d o c : cksum_range c -> at_off d o (put_cksum c) -> be32 d o = fst c /\ be32 d (o + 4) = snd c.
Proof. intros [R1 R2] [H1 H2]%at_app. rewrite put4byte_length in H2. apply at_be32 in H1 as ->, H2 as ->. rewrite !u32_id by lia. done. Qed.

(** ** Pages of a list of frames *)

(** The newest page with the number [p]; then that of the pages of a transaction on top. *)
Definition content (fs : list Frame) (p : Z) : option bytes := fold_left (fun c f => if f_pgno f =? p then Some (f_page f) else c) fs None.
Definition updated (c : option bytes) (pList : list PgHdr) (p : Z) : option bytes := fold_left (fun c pg => if pgno pg =? p then Some (pData pg) else c) pList c.

Lemma content_snoc fs f p : content (fs ++ [f]) p = if f_pgno f =? p then Some (f_page f) else content fs p.
Proof. unfold content. by rewrite fold_left_app. Qed.

Lemma content_insert fs j f b p : fs !! j = Some f -> (forall i g, (j < i)%nat -> fs !! i = Some g -> f_pgno g <> f_pgno f) ->
  content (<[j := mk_frame (f_pgno f) (f_trunc f) b]> fs) p = if f_pgno f =? p then Some b else content fs p.
Proof.
  intros Hj Hno. pose proof (lookup_lt_Some _ _ _ Hj) as Hl. rewrite insert_take_drop by done. rewrite <- (take_drop_middle fs j f Hj) at 3. unfold content. rewrite !fold_left_app. cbn [fold_left f_pgno f_page].
  assert (Forall (fun g => f_pgno g <> f_pgno f) (drop (S j) fs)) as Hf.
  { apply Forall_forall. intros g [i Hi]%list_elem_of_lookup. rewrite lookup_drop in Hi. apply (Hno (S j + i)%nat); [lia|done]. }
  destruct (Z.eqb_spec (f_pgno f) p) as [E|E]; [|done]. subst p. generalize (Some b) as c. clear Hno. induction Hf as [|g l Hg _ IH]; intros c; [done|]. cbn [fold_left]. rewrite (proj2 (Z.eqb_neq _ _) Hg). apply IH.
Qed.

(** * The file of a log *)

Section file.
Context (native : bool) (salt : bytes) (sz : Z) (c0 : Z * Z) (hd : bytes).
Hypothesis Hsalt : len salt = 8 /\ bytes_ok salt.
Hypothesis Hsize : page_size_ok sz.
Hypothesis Hc0 : cksum_range c0.
Hypothesis Hhd : len hd = 24.

Definition off (i : Z) : Z := 32 + i * (24 + sz).

(** The header, the frames [fs], and that the checksums of the first [k] of them are right. *)
Record log_file (d : bytes) (fs : list Frame) (k : nat) : Prop := {
  lf_head : at_off d 0 (hd ++ put_cksum c0);
  lf_sum : at_off d 32 (log_bytes native salt sz c0 (take k fs));
  lf_frames i f : fs !! i = Some f -> at_off d (off (Z.of_nat i)) (frame_head f) /\ at_off d (off (Z.of_nat i) + 24) (f_page f);
  lf_ok : Forall (frame_ok sz) fs
}.

Lemma off_frame i : 0 <= i < 2 ^ 31 -> walFrameOffset (i + 1) sz = off i /\ 0 <= off i < 2 ^ 49.
Proof. intros Hi. destruct Hsize. unfold walFrameOffset, off. rewrite u32_id by lia. change WAL_FRAME_HDRSIZE with 24. change WAL_HDRSIZE with 32. split; [lia|nia]. Qed.

Lemma off_mono i j : 0 <= i -> i < j -> off i + 24 + sz <= off j.
Proof. intros Hi Hj. destruct Hsize. unfold off. nia. Qed.

Lemma sum_length fs k : Forall (frame_ok sz) fs -> len (log_bytes native salt sz c0 (take k fs)) = Z.of_nat (length (take k fs)) * (24 + sz).
Proof. intros Hf. apply log_bytes_length; [done|by apply Forall_take]. Qed.

(** The checksums hold up to an earlier frame as well. *)
Lemma log_file_less d fs k k' : (k' <= k)%nat -> log_file d fs k -> log_file d fs k'.
Proof.
  intros Hk [Hh Hs Hf Hok]. split; [done| |done|done]. rewrite <- (take_drop k' (take k fs)) in Hs. rewrite take_take, Nat.min_l in Hs by done.
  rewrite log_bytes_app in Hs. by apply at_app in Hs as [? _].
Qed.

Lemma log_file_take d fs k n : log_file d fs k -> (n <= k)%nat -> log_file d (take n fs) n.
Proof.
  intros Hl Hn. apply (log_file_less _ _ _ n Hn) in Hl. destruct Hl as [Hh Hs Hf Hok]. split; [done|by rewrite take_take, Nat.min_id| |by apply Forall_take].
  intros i f Hi. apply Hf. apply lookup_take_Some in Hi. tauto.
Qed.

(** What is behind the committed frames does not matter. *)
Lemma committed_same d d' fs k n o b rc : log_file d fs k -> (n <= k)%nat -> write_result d d' o b rc -> off (Z.of_nat n) <= o -> log_file d' (take n fs) n.
Proof.
  intros Hl Hn Hw Ho. apply (log_file_take _ _ _ n) in Hl as [Hh Hs Hf Hok]; [|done]. destruct Hsize as [Hs1 _]. assert (0 <= o /\ 32 <= o) as [Ho0 Ho32] by (unfold off in Ho; nia).
  split.
  - eapply at_result_other; [exact Hw|done|exact Hh|left]. rewrite length_app, Nat2Z.inj_add, Hhd. change (len (put_cksum c0)) with 8. lia.
  - eapply at_result_other; [exact Hw|done|exact Hs|left]. rewrite sum_length by done. rewrite !length_take. unfold off in Ho. nia.
  - intros i f Hi. destruct (Hf i f Hi) as [F1 F2]. apply Forall_lookup_1 with (1 := Hok) in Hi as Hf1. destruct Hf1 as (_ & _ & Hlen & _).
    apply lookup_take_Some in Hi as [_ Hi]. pose proof (off_mono (Z.of_nat i) (Z.of_nat n) ltac:(lia) ltac:(lia)) as Hm. destruct (frame_head_ok f) as [_ Lh].
    split; (eapply at_result_other; [exact Hw|done|done|left; lia]).
  - done.
Qed.

(** ** The connection that writes *)

Lemma with_cksum_same w : with_cksum w (aFrameCksum (hdr w)) = w.
Proof. unfold with_cksum, set_cksum, with_hdr. destruct w as [? ? ? ? ? ? ? ? ? ? ? ? ? ? ? h ? ? ?]. by destruct h. Qed.

(** It has written the frames [fs], of which [n] are committed. *)
Record log_writer (w : Wal) (d : bytes) (fs : list Frame) (n : nat) : Prop := {
  lw_ok : wal_frames_ok w;
  lw_native : wal_native w = native;
  lw_salt : wal_salt w = salt;
  lw_size : szPage w = sz;
  lw_n : (n <= length fs)%nat;
  lw_sum : (iReCksum w = 0 /\ aFrameCksum (hdr w) = log_cksum native sz c0 fs /\ log_file d fs (length fs)) \/
           (Z.of_nat n < iReCksum w <= len fs /\ log_file d fs (Z.to_nat (iReCksum w - 1)))
}.

(** How many checksums are right. *)
Lemma lw_summed w d fs n : log_writer w d fs n -> exists k, (n <= k <= length fs)%nat /\ log_file d fs k.
Proof. intros [_ _ _ _ Hn [(_ & _ & Hl)|(Hr & Hl)]]; [by exists (length fs)|]. exists (Z.to_nat (iReCksum w - 1)). split; [lia|done]. Qed.

Lemma log_bytes_snoc fs f : log_bytes native salt sz c0 (fs ++ [f]) = log_bytes native salt sz c0 fs ++ frame_bytes native salt sz (log_cksum native sz c0 fs) f.
Proof. rewrite log_bytes_app. cbn [log_bytes]. by rewrite app_nil_r. Qed.

Lemma log_cksum_snoc fs f : log_cksum native sz c0 (fs ++ [f]) = frame_cksum native sz (log_cksum native sz c0 fs) f.
Proof. unfold log_cksum. by rewrite fold_left_app. Qed.

(** Adding a frame at the end; its checksum may be right or not. *)
Lemma log_file_snoc d d' fs k f a : log_file d fs k -> frame_ok sz f -> len a = 16 -> write_result d d' (off (len fs)) ((frame_head f ++ a) ++ f_page f) SQLITE_OK ->
  (k <= length fs)%nat -> log_file d' (fs ++ [f]) k.
Proof.
  intros [Hh Hs Hf Hok] Hfk La Hw Hk. pose proof Hsize as [Hs1 _]. destruct (frame_head_ok f) as [_ Lh]. assert (0 <= off (len fs) /\ 32 <= off (len fs)) as [Ho Ho32] by (unfold off; nia).
  split.
  - eapply at_result_other; [exact Hw|done|exact Hh|left]. rewrite length_app, Nat2Z.inj_add, Hhd. change (len (put_cksum c0)) with 8. lia.
  - rewrite take_app_le by done. eapply at_result_other; [exact Hw|done|exact Hs|left]. rewrite sum_length by done. rewrite length_take. unfold off. nia.
  - intros i g Hi. destruct (decide (i < length fs)%nat) as [Hlt|Hge].
    + rewrite lookup_app_l in Hi by done. destruct (Hf i g Hi) as [F1 F2]. apply Forall_lookup_1 with (1 := Hok) in Hi. destruct Hi as (_ & _ & Hlen & _).
      pose proof (off_mono (Z.of_nat i) (len fs) ltac:(lia) ltac:(lia)) as Hm. destruct (frame_head_ok g) as [_ Lg].
      split; (eapply at_result_other; [exact Hw|done|done|left; lia]).
    + apply lookup_snoc_Some in Hi as [[? _]|[-> <-]]; [lia|]. pose proof (at_result_same _ _ _ _ Hw Ho) as [H1 H2]%at_app. apply at_app in H1 as [H1 _].
      split; [done|]. rewrite length_app, Nat2Z.inj_add, La, Lh in H2. replace (off (len fs) + 24) with (off (len fs) + (8 + 16)) by lia. done.
  - apply Forall_app. split; [done|by apply Forall_singleton].
Qed.

Context {F : Type} `{OsFileLaws F}.

Lemma append_ok p w (fd : F) fs n f : log_writer w (os_data fd) fs n -> os_ok fd -> frame_ok sz f -> ww_szPage p = sz -> len fs < 2 ^ 31 ->
  exists rc c fd', walWriteOneFrame p w (f_pgno f) (f_page f) (f_trunc f) (off (len fs)) fd = Done (rc, with_cksum w c, fd') /\ os_ok fd' /\
    log_file (os_data fd') (take n fs) n /\ (rc = SQLITE_OK -> log_writer (with_cksum w c) (os_data fd') (fs ++ [f]) n) /\
    (forall m, os_fine fd m -> off (len fs + 1) <= m -> rc = SQLITE_OK /\ os_fine fd' m).
Proof.
  intros Hw Hok Hf Hp Hlen. destruct (off_frame (len fs) ltac:(lia)) as [_ Ho]. destruct (lw_summed _ _ _ _ Hw) as (k & Hk & Hlf).
  assert (forall d' b rc, write_result (os_data fd) d' (off (len fs)) b rc -> log_file d' (take n fs) n) as Hcom.
  { intros d' b rc Hr. eapply committed_same; [exact Hlf|lia|exact Hr|]. unfold off. destruct Hsize. nia. }
  pose proof Hw as [Hwf En Es Ez Hn Hsum]. pose proof Hf as (Hpg & Htr & Hpl & Hpb). destruct Hsize as [Hs1 _]. destruct (frame_head_ok f) as [Bh Lh].
  assert (off (len fs + 1) = off (len fs) + 24 + sz) as Eoff by (unfold off; lia).
  destruct Hsum as [(Er & Ec & Hlf')|(Er & Hlf')].
  - destruct (walWriteOneFrame_ok p w f (off (len fs)) fd Hwf Er ltac:(congruence) ltac:(by rewrite Ez) Hok ltac:(lia)) as (rc & fd' & E & Hok' & Hr & Hfine). rewrite En, Es, Ez, Ec in *.
    eexists rc, _, fd'. split; [exact E|]. split; [done|]. split; [by eapply Hcom|]. split; [|intros m Fm Hm; apply Hfine; [done|lia]].
    intros ->. set (c := frame_cksum _ _ _ _) in *. split.
    + apply with_cksum_ok; [done|]. apply frame_cksum_range. by apply log_cksum_range.
    + done.
    + done.
    + done.
    + rewrite length_app. lia.
    + left. split; [done|]. split; [cbn; by rewrite log_cksum_snoc|].
      assert (log_file (os_data fd') (fs ++ [f]) (length fs)) as Hl1.
      { eapply (log_file_snoc _ _ fs _ f (salt ++ put_cksum c)); [exact Hlf'|done| | |done].
        - rewrite length_app, Nat2Z.inj_add. change (len (put_cksum c)) with 8. lia.
        - unfold frame_bytes in Hr. by rewrite <- !app_assoc. }
      destruct Hl1 as [L1 L2 L3 L4]. split; [done| |done|done]. rewrite take_app_le, take_ge in L2 by lia. rewrite take_ge by done. rewrite log_bytes_snoc. apply at_app. split; [done|].
      rewrite log_bytes_length by (done || by destruct Hlf'). apply (at_result_same _ _ _ _ Hr). lia.
  - assert (walEncodeFrame w (f_pgno f) (f_trunc f) (f_page f) = Done (frame_head f ++ replicate 16 0, w)) as E by (unfold walEncodeFrame; by rewrite (proj2 (Z.eqb_neq _ _)) by lia).
    pose proof (with_cksum_same w) as Ew.
    destruct (walWriteOneFrame_two p w w _ _ _ _ (off (len fs)) fd E) as (rc & fd' & Ef & Hok' & Hr & Hfine); [rewrite length_app, Nat2Z.inj_add, Lh; done| |lia|lia|done|done|lia|].
    { apply Forall_app. split; [done|]. by apply Forall_replicate. }
    exists rc, (aFrameCksum (hdr w)), fd'. rewrite Ew. split; [done|]. split; [done|]. split; [by eapply Hcom|]. split; [|intros m Fm Hm; apply Hfine; [done|lia]].
    intros ->. split; try done; [rewrite length_app; lia|]. right. rewrite length_app. cbn [length]. split; [lia|].
    eapply (log_file_snoc _ _ fs _ f (replicate 16 0)); [exact Hlf'|done|done|exact Hr|lia].
Qed.

(** A frame that is not committed gets a new page. *)
Lemma overwrite_ok w (fd : F) fs n j f b : log_writer w (os_data fd) fs n -> os_ok fd -> fs !! j = Some f -> (n <= j)%nat -> len b = sz -> bytes_ok b -> len fs < 2 ^ 31 ->
  exists rc fd', sqlite3OsWrite fd b (walFrameOffset (Z.of_nat j + 1) sz + WAL_FRAME_HDRSIZE) = (rc, fd') /\ os_ok fd' /\ log_file (os_data fd') (take n fs) n /\
    (rc = SQLITE_OK -> log_writer (if (iReCksum w =? 0) || (Z.of_nat j + 1 <? iReCksum w) then with_recksum w (Z.of_nat j + 1) else w) (os_data fd')
       (<[j := mk_frame (f_pgno f) (f_trunc f) b]> fs) n) /\
    (forall m, os_fine fd m -> off (len fs) <= m -> rc = SQLITE_OK /\ os_fine fd' m).
Proof.
  intros Hw Hok Hj Hnj Lb Bb Hlen. pose proof (lookup_lt_Some _ _ _ Hj) as Hjl. destruct (off_frame (Z.of_nat j) ltac:(lia)) as [-> Ho]. change WAL_FRAME_HDRSIZE with 24. pose proof Hsize as [Hs1 _].
  destruct (os_write fd b (off (Z.of_nat j) + 24) Hok ltac:(lia) ltac:(lia) Bb) as (rc & fd' & E & Hok' & Hr & Hfine); [intros ->; cbn in Lb; lia|].
  destruct (lw_summed _ _ _ _ Hw) as (k & Hk & Hlf). assert (off (Z.of_nat n) <= off (Z.of_nat j)) as Hmn by (unfold off; nia).
  pose proof (off_mono (Z.of_nat j) (len fs) ltac:(lia) ltac:(lia)) as Hend.
  exists rc, fd'. split; [done|]. split; [done|]. split; [eapply committed_same; [exact Hlf|lia|exact Hr|lia]|]. split; [|intros m Fm Hm; apply Hfine; [done|lia]].
  intros ->. set (fs' := <[j := _]> fs).
  assert (forall k', (k' <= j)%nat -> log_file (os_data fd) fs k' -> log_file (os_data fd') fs' k') as Hnew.
  { intros k' Hk' [Hh Hs Hf Hfo]. assert (off 0 <= off (Z.of_nat j)) as H0j by (unfold off; nia). change (off 0) with 32 in H0j. split.
    - eapply at_result_other; [exact Hr|lia|exact Hh|left]. rewrite length_app, Nat2Z.inj_add, Hhd. change (len (put_cksum c0)) with 8. lia.
    - unfold fs'. rewrite take_insert_ge by lia. eapply at_result_other; [exact Hr|lia|exact Hs|left]. rewrite sum_length by done. rewrite length_take. unfold off. nia.
    - intros i g Hi. unfold fs' in Hi. apply list_lookup_insert_Some in Hi as [(<- & <- & _)|[Hne Hi]]; cbn [f_page f_pgno f_trunc].
      + destruct (Hf j f Hj) as [F1 _]. split; [|by apply (at_result_same _ _ _ _ Hr); lia]. change (frame_head _) with (frame_head f). destruct (frame_head_ok f) as [_ Lh].
        eapply at_result_other; [exact Hr|lia|exact F1|left; lia].
      + destruct (Hf i g Hi) as [F1 F2]. pose proof (lookup_lt_Some _ _ _ Hi). apply Forall_lookup_1 with (1 := Hfo) in Hi as (_ & _ & Lg & _). destruct (frame_head_ok g) as [_ Lh].
        assert (off (Z.of_nat i) + 24 + sz <= off (Z.of_nat j) \/ off (Z.of_nat j) + 24 + sz <= off (Z.of_nat i)) as Hd.
        { destruct (decide (i < j)%nat); [left|right]; apply off_mono; lia. }
        split; (eapply at_result_other; [exact Hr|lia|done|lia]).
    - apply Forall_insert; [done|]. apply Forall_lookup_1 with (1 := Hfo) in Hj as (P1 & P2 & _ & _). by split. }
  destruct Hw as [Hwf En Es Ez Hn Hsum]. set (w' := if (iReCksum w =? 0) || (Z.of_nat j + 1 <? iReCksum w) then with_recksum w (Z.of_nat j + 1) else w).
  assert (wal_frames_ok w' /\ wal_native w' = native /\ wal_salt w' = salt /\ szPage w' = sz) as (W1 & W2 & W3 & W4) by (unfold w'; destruct (_ || _); [by destruct Hwf|done]).
  split; [done|done|done|done|unfold fs'; rewrite length_insert; done|]. right. unfold fs'. rewrite length_insert. fold fs'. unfold w'.
  destruct Hsum as [(Er & _ & Hl)|(Er & Hl)].
  - rewrite Er. cbn [Z.eqb orb iReCksum with_recksum]. split; [lia|]. apply Hnew; [lia|]. eapply log_file_less; [|exact Hl]. lia.
  - rewrite (proj2 (Z.eqb_neq (iReCksum w) 0)) by lia. cbn [orb]. destruct (Z.ltb_spec (Z.of_nat j + 1) (iReCksum w)).
    + cbn [iReCksum with_recksum]. split; [lia|]. apply Hnew; [lia|]. eapply log_file_less; [|exact Hl]. lia.
    + split; [lia|]. apply Hnew; [lia|done].
Qed.

(** The checksums of the first [i] frames are right, and the running one with them. *)
Record log_rewriter (w : Wal) (d : bytes) (fs : list Frame) (i : nat) : Prop := {
  rw_ok : wal_frames_ok w;
  rw_native : wal_native w = native;
  rw_salt : wal_salt w = salt;
  rw_size : szPage w = sz;
  rw_re : iReCksum w = 0;
  rw_cksum : aFrameCksum (hdr w) = log_cksum native sz c0 (take i fs);
  rw_file : log_file d fs i
}.

(** One more checksum is right. *)
Lemma log_file_sum d d' fs i f : log_file d fs i -> fs !! i = Some f ->
  let a := frame_head f ++ salt ++ put_cksum (frame_cksum native sz (log_cksum native sz c0 (take i fs)) f) in
  write_result d d' (off (Z.of_nat i)) a SQLITE_OK -> log_file d' fs (S i).
Proof.
  intros [Hh Hs Hf Hok] Hi a Hr. pose proof (lookup_lt_Some _ _ _ Hi) as Hil. destruct (frame_head_ok f) as [_ Lh]. pose proof Hsize as [Hs1 _].
  assert (len a = 24) as La by (unfold a; rewrite !length_app, !Nat2Z.inj_add, Lh; change (len (put_cksum _)) with 8; lia).
  assert (32 <= off (Z.of_nat i)) as Ho by (unfold off; nia). split.
  - eapply at_result_other; [exact Hr|lia|exact Hh|left]. rewrite length_app, Nat2Z.inj_add, Hhd. change (len (put_cksum c0)) with 8. lia.
  - rewrite (take_S_r _ _ _ Hi), log_bytes_snoc. apply at_app. split.
    + eapply at_result_other; [exact Hr|lia|exact Hs|left]. rewrite sum_length by done. rewrite length_take. unfold off. nia.
    + rewrite sum_length by done. rewrite length_take, Nat.min_l by lia. change (32 + Z.of_nat i * (24 + sz)) with (off (Z.of_nat i)). unfold frame_bytes. fold a.
      assert (frame_head f ++ salt ++ put_cksum (frame_cksum native sz (log_cksum native sz c0 (take i fs)) f) ++ f_page f = a ++ f_page f) as -> by (unfold a; by rewrite <- !app_assoc).
      apply at_app. split; [apply (at_result_same _ _ _ _ Hr); lia|]. rewrite La. destruct (Hf i f Hi) as [_ F2]. eapply at_result_other; [exact Hr|lia|exact F2|right; lia].
  - intros j g Hj. destruct (Hf j g Hj) as [F1 F2]. destruct (decide (j = i)) as [->|Hne].
    + rewrite Hi in Hj. injection Hj as <-. split; [|eapply at_result_other; [exact Hr|lia|exact F2|right; lia]].
      pose proof (at_result_same _ _ _ _ Hr ltac:(lia)) as Ha. unfold a in Ha. by apply at_app in Ha as [? _].
    + apply Forall_lookup_1 with (1 := Hok) in Hj as (_ & _ & Lg & _). destruct (frame_head_ok g) as [_ Lg'].
      assert (off (Z.of_nat i) + 24 + sz <= off (Z.of_nat j) \/ off (Z.of_nat j) + 24 + sz <= off (Z.of_nat i)) as Hd.
      { destruct (decide (i < j)%nat); [left|right]; apply off_mono; lia. }
      split; (eapply at_result_other; [exact Hr|lia|done|lia]).
  - done.
Qed.

(** What is read of a frame. *)
Lemma frame_read d fs k i f : log_file d fs k -> bytes_ok d -> fs !! i = Some f -> let buf := sub d (off (Z.of_nat i)) (sz + 24) in off (Z.of_nat i) + (sz + 24) <= len d ->
  get4byte buf 0 = Done (f_pgno f) /\ get4byte buf 4 = Done (f_trunc f) /\ drop 24 buf = f_page f.
Proof.
  intros [_ _ Hf Hok] Hd Hi buf Hl. destruct (Hf i f Hi) as [F1 F2]. apply Forall_lookup_1 with (1 := Hok) in Hi as (P1 & P2 & P3 & _). pose proof Hsize as [Hs1 _].
  assert (0 <= off (Z.of_nat i)) as Ho by (unfold off; nia). destruct (at_head d _ f P1 P2 F1) as [E1 E2]. pose proof (sub_length d (off (Z.of_nat i)) (sz + 24) Ho ltac:(lia) Hl) as Lb.
  assert (bytes_ok buf) as Bb by by apply sub_ok. unfold buf in *. rewrite !get4byte_be32 by (done || lia). rewrite !be32_sub by lia. rewrite Z.add_0_r, E1, E2. split; [done|]. split; [done|].
  rewrite <- (at_sub _ _ _ F2), P3. unfold sub. rewrite skipn_firstn_comm, drop_drop. f_equal; [lia|]. f_equal. lia.
Qed.

Lemma rewrite_loop_ok m : forall i w (fd : F) fs n, (i + m = length fs)%nat -> (n <= i)%nat -> log_rewriter w (os_data fd) fs i -> os_ok fd -> len fs < 2 ^ 31 ->
  exists rc c fd', rewrite_loop m (Z.of_nat i + 1) w fd = Done (rc, with_cksum w c, fd') /\ os_ok fd' /\ log_file (os_data fd') (take n fs) n /\
    (rc = SQLITE_OK -> log_rewriter (with_cksum w c) (os_data fd') fs (length fs)) /\
    (forall k, os_fine fd k -> off (len fs) <= k -> off (len fs) <= len (os_data fd) -> rc = SQLITE_OK /\ os_fine fd' k).
Proof.
  induction m as [|m IH]; intros i w fd fs n Hm Hn Hw Hok Hlen; cbn [rewrite_loop]; pose proof (with_cksum_same w) as Ew.
  { exists SQLITE_OK, (aFrameCksum (hdr w)), fd. rewrite Ew. split; [done|]. split; [done|]. split; [eapply log_file_take; [apply (rw_file _ _ _ _ Hw)|done]|]. split; [|done].
    intros _. by replace (length fs) with i by lia. }
  destruct (lookup_lt_is_Some_2 fs i ltac:(lia)) as [f Hi]. pose proof Hw as [W1 W2 W3 W4 W5 W6 W7]. pose proof Hsize as [Hs1 _]. rewrite W4.
  destruct (off_frame (Z.of_nat i) ltac:(lia)) as [-> Ho]. change WAL_FRAME_HDRSIZE with 24.
  destruct (os_read fd (sz + 24) (off (Z.of_nat i)) Hok ltac:(lia) ltac:(lia) ltac:(lia)) as (rc & buf & fd1 & -> & Hok1 & Ed & _ & _ & Hrc & Hfine).
  pose proof (off_mono (Z.of_nat i) (len fs) ltac:(lia) ltac:(lia)) as Hend.
  destruct (Z.eqb_spec rc SQLITE_OK) as [->|Hne].
  2: { exists rc, (aFrameCksum (hdr w)), fd1. rewrite Ew, Ed. split; [done|]. split; [done|]. split; [by eapply log_file_take|]. split; [done|].
       intros k Fk Hk Hkl. destruct (Hfine k Fk) as [_ Hr]. destruct Hne. apply Hr. lia. }
  destruct (Hrc eq_refl) as [Hl ->]. change (Z.to_nat 24) with 24%nat. destruct (frame_read _ _ _ _ _ W7 (os_bytes _ Hok) Hi Hl) as (-> & -> & ->). cbn [mbind outcome_bind].
  pose proof (lf_ok _ _ _ W7) as Hfo. apply Forall_lookup_1 with (1 := Hfo) in Hi as Hfok.
  rewrite walEncodeFrame_ok by (done || by rewrite W4). rewrite W2, W3, W4, W6. cbn [mbind outcome_bind]. set (c := frame_cksum _ _ _ _). set (a := frame_head f ++ salt ++ put_cksum c).
  assert (bytes_ok a) as Ba by (unfold a, put_cksum; destruct (frame_head_ok f); rewrite !Forall_app; split_and!; try apply put4byte_bytes; (done || apply Hsalt)).
  assert (len a = 24) as La by (destruct (frame_head_ok f) as [_ Lh]; unfold a; rewrite !length_app, !Nat2Z.inj_add, Lh; change (len (put_cksum _)) with 8; lia).
  destruct (os_write fd1 a (off (Z.of_nat i)) Hok1 ltac:(lia) ltac:(lia) Ba) as (rc2 & fd2 & -> & Hok2 & Hr & Hfine2); [intros E; rewrite E in La; done|]. rewrite Ed in Hr.
  destruct (Z.eqb_spec rc2 SQLITE_OK) as [->|Hne].
  2: { exists rc2, c, fd2. split; [done|]. split; [done|]. split; [|split; [done|intros k Fk Hk _; destruct (Hfine k Fk) as [Fk1 _]; by destruct (Hfine2 k Fk1 ltac:(lia))]].
       eapply committed_same; [exact W7|done|exact Hr|]. unfold off. nia. }
  pose proof (log_file_sum _ _ _ _ _ W7 Hi Hr) as Hnew. rewrite u32_id by lia. replace (Z.of_nat i + 1 + 1) with (Z.of_nat (S i) + 1) by lia.
  destruct (IH (S i) (with_cksum w c) fd2 fs n ltac:(lia) ltac:(lia)) as (rc3 & c3 & fd3 & E3 & Hok3 & Hcom & Hgot & Hfine3); [|done|done|].
  { split; try done; [apply with_cksum_ok; [done|]; apply frame_cksum_range; by apply log_cksum_range|]. cbn. by rewrite (take_S_r _ _ _ Hi), log_cksum_snoc. }
  exists rc3, c3, fd3. split; [exact E3|]. split; [done|]. split; [done|]. split; [exact Hgot|].
  intros k Fk Hk Hkl. destruct (Hfine k Fk) as [Fk1 _]. destruct (Hfine2 k Fk1 ltac:(lia)) as [_ Fk2]. apply Hfine3; [done|done|].
  destruct (write_result_length _ _ (off (Z.of_nat i)) _ _ ltac:(lia) Hr). lia.
Qed.

(** Where the checksum of the first [k] frames is. *)
Lemma cksum_at d fs k : log_file d fs k -> (k <= length fs)%nat ->
  at_off d (if decide (k = 0)%nat then 24 else off (Z.of_nat k - 1) + 16) (put_cksum (log_cksum native sz c0 (take k fs))).
Proof.
  intros [Hh Hs Hf Hok] Hk. destruct k as [|k].
  - rewrite decide_True by done. rewrite take_0. cbn [log_cksum fold_left]. apply at_app in Hh as [_ Hh]. by rewrite Hhd in Hh.
  - rewrite decide_False by lia. destruct (lookup_lt_is_Some_2 fs k ltac:(lia)) as [f Hi].
    rewrite (take_S_r _ _ _ Hi) in Hs |- *. rewrite log_bytes_snoc in Hs. rewrite log_cksum_snoc. apply at_app in Hs as [_ Hs]. rewrite sum_length in Hs by done.
    rewrite length_take, Nat.min_l in Hs by lia. unfold frame_bytes in Hs. destruct (frame_head_ok f) as [_ Lh].
    apply at_app in Hs as [_ Hs]. apply at_app in Hs as [_ Hs]. apply at_app in Hs as [Hs _]. rewrite Lh, (proj1 Hsalt) in Hs.
    replace (off (Z.of_nat (S k) - 1) + 16) with (32 + Z.of_nat k * (24 + sz) + 8 + 8) by (unfold off; lia). done.
Qed.

Lemma log_end d fs k : log_file d fs k -> (k <= length fs)%nat -> off (len fs) <= len d.
Proof.
  intros [Hh Hs Hf Hok] Hk. destruct (decide (length fs = 0)%nat) as [E|Hne].
  - rewrite E. destruct Hh as (_ & Hl & _). rewrite length_app, Nat2Z.inj_add, Hhd in Hl. change (len (put_cksum c0)) with 8 in Hl. unfold off. lia.
  - destruct (lookup_lt_is_Some_2 fs (length fs - 1) ltac:(lia)) as [f Hi]. destruct (Hf _ _ Hi) as [_ (_ & Hl & _)]. apply Forall_lookup_1 with (1 := Hok) in Hi as (_ & _ & Lf & _).
    pose proof Hsize as [Hs1 _]. unfold off in *. nia.
Qed.

(** Nothing but the running checksum and the mark of a rewrite. *)
Definition only_cksum (w w' : Wal) : Prop := exists c r, w' = with_recksum (with_cksum w c) r.

Lemma only_cksum_refl w : only_cksum w w.
Proof. exists (aFrameCksum (hdr w)), (iReCksum w). rewrite with_cksum_same. by destruct w. Qed.

Lemma only_cksum_trans w w1 w2 : only_cksum w w1 -> only_cksum w1 w2 -> only_cksum w w2.
Proof. intros (c & r & ->) (c' & r' & ->). by exists c', r'. Qed.

Lemma walRewriteChecksums_ok ok w (fd : F) fs n : log_writer w (os_data fd) fs n -> iReCksum w <> 0 -> os_ok fd -> len fs < 2 ^ 31 ->
  exists rc w' fd', walRewriteChecksums ok w (len fs) fd = Done (rc, w', fd') /\ only_cksum w w' /\ os_ok fd' /\ log_file (os_data fd') (take n fs) n /\
    (rc = SQLITE_OK -> log_writer w' (os_data fd') fs n /\ iReCksum w' = 0) /\
    (forall k, ok = true -> os_fine fd k -> off (len fs) <= k -> rc = SQLITE_OK /\ os_fine fd' k).
Proof.
  intros Hw Hre Hok Hlen. pose proof Hw as [W1 W2 W3 W4 Hn [(Er & _)|(Er & Hlf)]]; [done|]. pose proof Hsize as [Hs1 _]. set (k := Z.to_nat (iReCksum w - 1)) in *.
  unfold walRewriteChecksums. destruct ok; cbn [negb].
  2: { exists SQLITE_NOMEM, w, fd. split; [done|]. split; [apply only_cksum_refl|]. split; [done|]. split; [eapply log_file_take; [exact Hlf|lia]|]. done. }
  rewrite W4. set (o := if decide (k = 0)%nat then 24 else off (Z.of_nat k - 1) + 16).
  assert ((if iReCksum w =? 1 then 24 else walFrameOffset (u32 (iReCksum w - 1)) sz + 16) = o) as ->.
  { unfold o. destruct (Z.eqb_spec (iReCksum w) 1); [by rewrite decide_True by lia|]. rewrite decide_False by lia. rewrite u32_id by lia.
    replace (iReCksum w - 1) with (Z.of_nat k - 1 + 1) by lia. by destruct (off_frame (Z.of_nat k - 1) ltac:(lia)) as [-> _]. }
  pose proof (cksum_at _ _ _ Hlf ltac:(lia)) as Hat. fold o in Hat. pose proof Hat as (Ho & Hol & _). change (len (put_cksum _)) with 8 in Hol.
  assert (o < 2 ^ 50) as Ho2. { unfold o. destruct (decide (k = 0)%nat); [lia|]. destruct (off_frame (Z.of_nat k - 1) ltac:(lia)). lia. }
  destruct (os_read fd 8 o Hok ltac:(lia) Ho ltac:(lia)) as (rc & buf & fd1 & -> & Hok1 & Ed & Lb & Bb & Hrc & Hfine).
  rewrite !get4byte_be32 by (done || lia). cbn [mbind outcome_bind]. set (c := (be32 buf 0, be32 buf 4)).
  destruct (Z.eqb_spec rc SQLITE_OK) as [->|Hne].
  2: { eexists rc, _, fd1. split; [done|]. split; [by eexists c, 0|]. split; [done|]. rewrite Ed. split; [eapply log_file_take; [exact Hlf|lia]|]. split; [done|].
       intros m _ Fm Hm. destruct (Hfine m Fm) as [_ Hr]. destruct Hne. by apply Hr. }
  assert (c = log_cksum native sz c0 (take k fs)) as Ec.
  { destruct (Hrc eq_refl) as [_ ->]. unfold c. rewrite !be32_sub by lia. rewrite Z.add_0_r. destruct (at_cksum _ _ _ (log_cksum_range native sz (take k fs) c0 Hc0) Hat) as [-> ->].
    by destruct (log_cksum _ _ _ _). }
  replace (Z.to_nat (len fs + 1 - iReCksum w)) with (length fs - k)%nat by lia. replace (iReCksum w) with (Z.of_nat k + 1) by lia.
  destruct (rewrite_loop_ok (length fs - k) k (with_recksum (with_cksum w c) 0) fd1 fs n ltac:(lia) ltac:(lia)) as (rc2 & c2 & fd2 & E & Hok2 & Hcom & Hgot & Hf2); [|done|done|].
  { split; try done; [|by rewrite Ed]. destruct W1. split; try done. cbn. rewrite Ec. by apply log_cksum_range. }
  eexists rc2, _, fd2. split; [exact E|]. split; [by eexists c2, 0|]. split; [done|]. split; [done|]. split.
  - intros Hr. destruct (Hgot Hr) as [R1 R2 R3 R4 R5 R6 R7]. split; [|done]. split; try done. left. rewrite firstn_all in R6. done.
  - intros m _ Fm Hm. destruct (Hfine m Fm) as [Fm1 _]. apply Hf2; [done|done|]. rewrite Ed. eapply log_end; [exact Hlf|lia].
Qed.

(** ** The pages of a transaction *)

Definition page_ok (pg : PgHdr) : Prop := 0 < pgno pg < 2 ^ 32 /\ len (pData pg) = sz /\ bytes_ok (pData pg).

(** While the pages are written, the index still has the frames [fs0]. *)
Record writing (w : Wal) (s : Shm) (d : bytes) (a : wal_log) (n : nat) (fs0 fs : list Frame) (done : list PgHdr) : Prop := {
  wg_rel : log_rel w s a;
  wg_index : log_frames a = map f_pgno fs0;
  wg_min : 0 <= minFrame w < 2 ^ 31;
  wg_log : log_writer w d fs n;
  wg_n : (n <= length fs0)%nat;
  wg_pages : map f_pgno fs = map f_pgno fs0 ++ map pgno done
}.

Lemma rel_cksum w w' s a : only_cksum w w' -> log_rel w s a -> log_rel w' s a.
Proof. intros (c & r & ->) [[] ? ? ?]. by split. Qed.

Lemma rel_remap w s w' s' a : log_rel w s a -> remap w s w' s' -> mapping_ok w' s' -> log_rel w' s' a.
Proof.
  intros [[Hm Hh Hl Hmx Hex Hp Hc Hmine Hz Hsl] E1 E2 E3] Hr Hm'. pose proof (holds_remap _ _ _ _ _ Hr Hh) as Hh'. pose proof (exact_remap _ _ _ _ (log_frames a) Hr) as Hex'.
  destruct Hr as ((m & v & ro & ->) & (k & ->) & Hsub & _). split; [|done|done|done]. split; try done.
  - destruct Hex as [|Hex]; [by left|right; by apply Hex'].
  - intros f Hf. by apply Hsub, Hmine.
  - by apply Hsub.
Qed.

Lemma writer_remap_log w s w' s' d fs n : remap w s w' s' -> log_writer w d fs n -> log_writer w' d fs n.
Proof. intros ((m & v & ro & ->) & _) [[] ? ? ? ? ?]. by split. Qed.

(** A frame that the index finds is the newest with its page, and not a committed one. *)
Lemma found_frame w s d a n fs0 fs dn pg iFirst iWrite : writing w s d a n fs0 fs dn -> iFirst = Z.of_nat n + 1 -> iFirst <= iWrite -> ~ pgno pg ∈ map pgno dn ->
  iWrite = 0 \/ iWrite = last_frame (log_frames a) (pgno pg) (minFrame w) (mxFrame (hdr w)) ->
  exists f, fs !! Z.to_nat (iWrite - 1) = Some f /\ (n <= Z.to_nat (iWrite - 1))%nat /\ f_pgno f = pgno pg /\
    forall i g, (Z.to_nat (iWrite - 1) < i)%nat -> fs !! i = Some g -> f_pgno g <> pgno pg.
Proof.
  intros [Hrel Ei Hmin Hlog Hn Ep] EF Hle Hnd [?|EW]; [lia|]. pose proof (lr_mx _ _ _ Hrel) as Hmx. rewrite Ei in EW, Hmx. rewrite length_map in Hmx.
  destruct (last_frame_spec (map f_pgno fs0) (pgno pg) (minFrame w) (mxFrame (hdr w)) ltac:(lia)) as [[Hr|(R1 & R2 & R3)] Hmax]; [lia|]. rewrite <- EW in *. clear EW.
  set (j := Z.to_nat (iWrite - 1)). assert (forall i : nat, (i < length fs0)%nat -> (map f_pgno fs !! i = Some ((map f_pgno fs0).[Z.of_nat i]))) as Hlk.
  { intros i Hi. rewrite Ep, lookup_app_l by (by rewrite length_map). destruct (lookup_lt_is_Some_2 (map f_pgno fs0) i ltac:(by rewrite length_map)) as [x Hx].
    unfold ld. by rewrite nth_lookup, Nat2Z.id, Hx. }
  pose proof (Hlk j ltac:(lia)) as Hj. replace (Z.of_nat j) with (iWrite - 1) in Hj by lia. rewrite R3, list_lookup_fmap in Hj. apply fmap_Some in Hj as (f & Hj & Ef).
  exists f. split; [done|]. split; [lia|]. split; [done|]. intros i g Hi Hg Eg. assert (map f_pgno fs !! i = Some (pgno pg)) as Hig by (rewrite list_lookup_fmap, Hg; cbn; by rewrite Eg).
  destruct (decide (i < length fs0)%nat) as [Hlt|Hge].
  - rewrite Hlk in Hig by done. injection Hig as Hig. specialize (Hmax (Z.of_nat i + 1) ltac:(lia) ltac:(lia)). replace (Z.of_nat i + 1 - 1) with (Z.of_nat i) in Hmax by lia. specialize (Hmax Hig). lia.
  - rewrite Ep, lookup_app_r in Hig by (rewrite length_map; lia). apply Hnd. by eapply list_elem_of_lookup_2.
Qed.

(** The part of a connection that only the begin and the end of a transaction change. *)
Definition conn_of (w : Wal) : Z * nat * Z * Z := (minFrame w, pDbFd w, exclusiveMode w, readLock w).

Lemma conn_parts w w' : conn_of w' = conn_of w -> minFrame w' = minFrame w /\ pDbFd w' = pDbFd w /\ exclusiveMode w' = exclusiveMode w /\ readLock w' = readLock w.
Proof. by intros [= -> -> -> ->]. Qed.

(** What the pages do not change. *)
Definition kept (w : Wal) (s : Shm) (w' : Wal) (s' : Shm) : Prop := szPage w' = szPage w /\ conn_of w' = conn_of w /\ s_hdr0 s' = s_hdr0 s /\ s_ckpt s' = s_ckpt s.

Lemma kept_trans w s w1 s1 w' s' : kept w s w1 s1 -> kept w1 s1 w' s' -> kept w s w' s'.
Proof. intros (A & B & C & D) (A' & B' & C' & D'). unfold kept. by rewrite A', B', C', D'. Qed.

Lemma kept_remap w s w' s' : remap w s w' s' -> kept w s w' s'.
Proof. by intros ((m & v & ro & ->) & (k & ->) & _). Qed.

Lemma kept_cksum w s w' : only_cksum w w' -> kept w s w' s.
Proof. by intros (c & r & ->). Qed.

(** One page: whether it overwrites a frame, and which. *)
Lemma find_page w s d a n fs0 fs dn pg iFirst (more isCommit : bool) : writing w s d a n fs0 fs dn -> (iFirst = 0 \/ iFirst = Z.of_nat n + 1) -> ~ pgno pg ∈ map pgno dn ->
  exists iWrite w' s', (if negb (iFirst =? 0) && (more || negb isCommit)
       then '(rc, f, w, s) ← sqlite3WalFindFrame w (pgno pg) s; Done (if rc =? SQLITE_OK then f else 0, w, s)
       else Done (0, w, s)) = Done (iWrite, w', s') /\ writing w' s' d a n fs0 fs dn /\ kept w s w' s' /\
    (negb (iFirst =? 0) && (more || negb isCommit) && (iFirst <=? iWrite) = true -> more || negb isCommit = true /\
       exists j f, iWrite = Z.of_nat j + 1 /\ fs !! j = Some f /\ (n <= j)%nat /\ f_pgno f = pgno pg /\ forall i g, (j < i)%nat -> fs !! i = Some g -> f_pgno g <> pgno pg).
Proof.
  intros Hwr HF Hnd. destruct (negb (iFirst =? 0) && (more || negb isCommit)) eqn:Eg; cbn [andb]; [|by exists 0, w, s].
  apply andb_true_iff in Eg as [EF%negb_true_iff%Z.eqb_neq Em]. destruct HF as [|HF]; [done|].
  pose proof Hwr as [Hrel Ei Hmin Hlog Hn Ep]. pose proof (lr_writer _ _ _ Hrel) as Hw.
  destruct (WalFindFrame_ok w s (log_frames a) (pgno pg) (wr_map _ _ _ Hw) (wr_holds _ _ _ Hw)) as (rc & r & w' & s' & -> & Hr & Hm & _ & Hfound);
    [rewrite (lr_mx _ _ _ Hrel); lia|rewrite (lr_mx _ _ _ Hrel); apply (lr_bound _ _ _ Hrel)|done|]. cbn [mbind outcome_bind].
  assert (writing w' s' d a n fs0 fs dn) as Hwr'.
  { split; [by eapply rel_remap|done| |by eapply writer_remap_log|done|done]. destruct Hr as ((m & v & ro & ->) & _). done. }
  eexists _, w', s'. split; [done|]. split; [done|]. split; [by apply kept_remap|]. intros Hle%Z.leb_le. split; [done|].
  destruct (found_frame w s d a n fs0 fs dn pg iFirst (if rc =? SQLITE_OK then r else 0) Hwr HF Hle Hnd) as (f & F1 & F2 & F3 & F4).
  { destruct (Z.eqb_spec rc SQLITE_OK) as [Hrc|]; [|by left]. rewrite (Hfound Hrc). destruct (_ && _); [by left|by right]. }
  exists (Z.to_nat ((if rc =? SQLITE_OK then r else 0) - 1)), f. split; [lia|]. done.
Qed.

(** What the pages of the list have done to the frames. *)
Record wrote (n : nat) (isCommit : bool) (nTruncate : Z) (pList : list PgHdr) (fs fs' : list Frame) (dn dn' : list PgHdr) : Prop := {
  wt_nil : pList = [] -> fs' = fs /\ dn' = dn;
  wt_committed : take n fs' = take n fs;
  wt_content q : content fs' q = updated (content fs q) pList q;
  wt_trunc : Forall (fun f => f_trunc f = 0) (drop n fs) ->
    if isCommit then pList = [] \/ exists g pg, fs' = g ++ [mk_frame (pgno pg) nTruncate (pData pg)] /\ last dn' = Some pg /\ page_ok pg /\ (n <= length g)%nat /\ Forall (fun f => f_trunc f = 0) (drop n g)
    else Forall (fun f => f_trunc f = 0) (drop n fs')
}.

Lemma wrote_nil n isCommit nTruncate fs dn : wrote n isCommit nTruncate [] fs fs dn dn.
Proof. split; [done|done|done|]. intros Ht. destruct isCommit; [by left|done]. Qed.

(** A page over the frame [j]. *)
Lemma wrote_over n (isCommit : bool) nTruncate pg pList fs fs' j f dn dn' : fs !! j = Some f -> (n <= j)%nat -> f_pgno f = pgno pg -> (forall i g, (j < i)%nat -> fs !! i = Some g -> f_pgno g <> pgno pg) ->
  negb (bool_decide (pList = [])) || negb isCommit = true -> wrote n isCommit nTruncate pList (<[j := mk_frame (f_pgno f) (f_trunc f) (pData pg)]> fs) fs' dn dn' -> wrote n isCommit nTruncate (pg :: pList) fs fs' dn dn'.
Proof.
  intros Hj Hnj Ef Hlast Hmore. set (fs1 := <[j := _]> fs). intros [R0 R1 R2 R3]. split.
  - done.
  - rewrite R1. unfold fs1. by rewrite take_insert_ge by lia.
  - intros q. rewrite R2. unfold updated. cbn [fold_left]. unfold fs1. rewrite content_insert by (done || by rewrite Ef). by rewrite Ef.
  - intros Ht. assert (Forall (fun f => f_trunc f = 0) (drop n fs1)) as Ht1.
    { unfold fs1. rewrite drop_insert_ge by done. apply Forall_insert; [done|]. cbn. apply Forall_forall with (x := f) in Ht; [done|]. apply list_elem_of_lookup. exists (j - n)%nat. rewrite lookup_drop. by replace (n + (j - n))%nat with j by lia. }
    specialize (R3 Ht1). destruct isCommit; [|done]. destruct R3 as [->|R3]; [|by right]. rewrite bool_decide_eq_true_2 in Hmore by done. done.
Qed.

(** A page behind the frames. *)
Lemma wrote_append n (isCommit : bool) nTruncate pg pList fs fs' dn dn' : (n <= length fs)%nat -> page_ok pg ->
  wrote n isCommit nTruncate pList (fs ++ [mk_frame (pgno pg) (if isCommit && negb (negb (bool_decide (pList = []))) then nTruncate else 0) (pData pg)]) fs' (dn ++ [pg]) dn' -> wrote n isCommit nTruncate (pg :: pList) fs fs' dn dn'.
Proof.
  intros Hn Hpg [R0 R1 R2 R3]. split.
  - done.
  - rewrite R1. by rewrite take_app_le.
  - intros q. by rewrite R2, content_snoc.
  - intros Ht. destruct isCommit; cbn [andb] in *.
    + right. destruct pList as [|pg2 pList].
      * destruct (R0 eq_refl) as [-> ->]. exists fs, pg. split; [done|]. split; [by rewrite last_snoc|]. by split.
      * destruct R3 as [|R3]; [|done|done]. rewrite drop_app_le by done. apply Forall_app. split; [done|by repeat constructor].
    + apply R3. rewrite drop_app_le by done. apply Forall_app. split; [done|by repeat constructor].
Qed.

Lemma write_pages_ok p iFirst nTruncate isCommit n fs0 a : ww_szPage p = sz -> 0 <= nTruncate < 2 ^ 32 -> (iFirst = 0 \/ iFirst = Z.of_nat n + 1) -> forall pList w s (fd : F) fs dn,
  writing w s (os_data fd) a n fs0 fs dn -> os_ok fd -> Forall page_ok pList -> NoDup (map pgno (dn ++ pList)) -> len fs + len pList < 2 ^ 31 ->
  exists rc iFrame iOffset dn' w' s' fd', write_pages pList p iFirst nTruncate isCommit (len fs) (off (len fs)) dn w s fd = Done (rc, iFrame, iOffset, dn', w', s', fd') /\
    os_ok fd' /\ (log_rel w' s' a /\ kept w s w' s') /\ log_file (os_data fd') (take n fs) n /\
    (rc = SQLITE_OK -> exists fs', writing w' s' (os_data fd') a n fs0 fs' dn' /\ iFrame = len fs' /\ iOffset = off (len fs') /\ len fs' <= len fs + len pList /\
       wrote n isCommit nTruncate pList fs fs' dn dn').
Proof.
  intros Hp HnT HF. induction pList as [|pg pList IH]; intros w s fd fs dn Hwr Hok Hpg Hnd Hlen; cbn [write_pages].
  { eexists SQLITE_OK, _, _, dn, w, s, fd. split; [done|]. split; [done|]. split; [split; [apply Hwr|done]|]. destruct (lw_summed _ _ _ _ (wg_log _ _ _ _ _ _ _ _ Hwr)) as (k & Hk & Hl).
    split; [eapply log_file_take; [exact Hl|lia]|]. intros _. exists fs. split; [done|]. split; [done|]. split; [done|]. split; [lia|apply wrote_nil]. }
  apply Forall_cons in Hpg as [Hpg Hpgs]. pose proof Hpg as (P1 & P2 & P3). cbn [length] in Hlen.
  assert (~ pgno pg ∈ map pgno dn) as Hnew.
  { rewrite map_app in Hnd. apply NoDup_app in Hnd as (_ & Hnd & _). intros Hin. apply (Hnd _ Hin). by left. }
  destruct (find_page w s _ a n fs0 fs dn pg iFirst (negb (bool_decide (pList = []))) isCommit Hwr HF Hnew) as (iWrite & w1 & s1 & -> & Hwr1 & Hk1 & Hover). cbn [mbind outcome_bind].
  pose proof Hwr1 as [Hrel Ei Hmin Hlog Hn Ep]. destruct (_ && (iFirst <=? iWrite)) eqn:Eg.
  - destruct (Hover eq_refl) as (Hmore & j & f & -> & Hj & Hnj & Ef & Hlast). rewrite Hp, take_ge by lia. set (w2 := if (iReCksum w1 =? 0) || (Z.of_nat j + 1 <? iReCksum w1) then with_recksum w1 (Z.of_nat j + 1) else w1).
    destruct (overwrite_ok w1 fd fs n j f (pData pg) Hlog Hok Hj Hnj P2 P3 ltac:(lia)) as (rc & fd1 & -> & Hok1 & Hcom & Hgot & _).
    assert (only_cksum w1 w2) as Hoc by (unfold w2; destruct ((iReCksum w1 =? 0) || (Z.of_nat j + 1 <? iReCksum w1)); [exists (aFrameCksum (hdr w1)), (Z.of_nat j + 1); by rewrite with_cksum_same|apply only_cksum_refl]).
    destruct (Z.eqb_spec rc SQLITE_OK) as [->|Hrc]; cbn [negb].
    2: { eexists rc, _, _, dn, w2, s1, fd1. split; [done|]. split; [done|]. split; [split; [by eapply rel_cksum|exact (kept_trans _ _ _ _ _ _ Hk1 (kept_cksum _ _ _ Hoc))]|]. by split. }
    set (fs1 := <[j := mk_frame (f_pgno f) (f_trunc f) (pData pg)]> fs). assert (length fs1 = length fs) as El by apply length_insert.
    assert (take n fs1 = take n fs) as Et by (unfold fs1; by rewrite take_insert_ge by lia).
    assert (map f_pgno fs1 = map f_pgno fs) as Em by (unfold fs1; rewrite list_fmap_insert; apply list_insert_id; by rewrite list_lookup_fmap, Hj).
    assert (writing w2 s1 (os_data fd1) a n fs0 fs1 dn) as Hwr2.
    { split; [by eapply rel_cksum|done| |by apply Hgot|done|by rewrite Em]. by destruct Hoc as (c & r & ->). }
    rewrite <- El. destruct (IH w2 s1 fd1 fs1 dn Hwr2 Hok1 Hpgs) as (rc & iF & iO & dn' & w' & s' & fd' & -> & H1 & [H2 H2k] & H3 & H4); [|lia|].
    { rewrite map_app in Hnd |- *. apply NoDup_app in Hnd as (N1 & N2 & N3). apply NoDup_app. cbn in N2, N3. apply NoDup_cons in N3 as [_ N3]. split; [done|]. split; [|done]. intros x Hx Hx2. apply (N2 x Hx). by right. }
    rewrite Et in H3. exists rc, iF, iO, dn', w', s', fd'. split; [done|]. split; [done|]. split; [split; [done|exact (kept_trans _ _ _ _ _ _ (kept_trans _ _ _ _ _ _ Hk1 (kept_cksum _ _ _ Hoc)) H2k)]|]. split; [done|]. intros Hrc. destruct (H4 Hrc) as (fs' & Q1 & Q2 & Q3 & Q4 & Q5).
    exists fs'. split; [done|]. split; [done|]. split; [done|]. split; [cbn [length]; lia|]. by apply (wrote_over n isCommit nTruncate pg pList fs fs' j f).
  - rewrite u32_id by lia. set (tr := if isCommit && negb (negb (bool_decide (pList = []))) then nTruncate else 0). assert (0 <= tr < 2 ^ 32) as Htr by (unfold tr; destruct isCommit, (bool_decide (pList = [])); cbn; lia). set (f := mk_frame (pgno pg) tr (pData pg)).
    destruct (append_ok p w1 fd fs n f Hlog Hok ltac:(by split) Hp ltac:(lia)) as (rc & c & fd1 & E & Hok1 & Hcom & Hgot & _). cbn [f_pgno f_page f_trunc f] in E. rewrite E. cbn [mbind outcome_bind]. clear E.
    assert (only_cksum w1 (with_cksum w1 c)) as Hoc by (exists c, (iReCksum w1); by destruct w1).
    destruct (Z.eqb_spec rc SQLITE_OK) as [->|Hrc]; cbn [negb].
    2: { eexists rc, _, _, dn, _, s1, fd1. split; [done|]. split; [done|]. split; [split; [by eapply rel_cksum|exact (kept_trans _ _ _ _ _ _ Hk1 (kept_cksum _ _ _ Hoc))]|]. by split. }
    assert (len (fs ++ [f]) = len fs + 1) as El by (rewrite length_app; cbn; lia). rewrite Hp. replace (off (len fs) + (sz + WAL_FRAME_HDRSIZE)) with (off (len (fs ++ [f]))) by (rewrite El; unfold off; change WAL_FRAME_HDRSIZE with 24; lia).
    rewrite <- El. assert (writing (with_cksum w1 c) s1 (os_data fd1) a n fs0 (fs ++ [f]) (dn ++ [pg])) as Hwr2.
    { split; [by eapply rel_cksum|done|done|by apply Hgot|done|]. rewrite !map_app, Ep, <- app_assoc. done. }
    pose proof (lw_n _ _ _ _ Hlog) as Hnl. assert (take n (fs ++ [f]) = take n fs) as Et by by rewrite take_app_le.
    destruct (IH _ s1 fd1 (fs ++ [f]) (dn ++ [pg]) Hwr2 Hok1 Hpgs) as (rc & iF & iO & dn' & w' & s' & fd' & -> & H1 & [H2 H2k] & H3 & H4); [by rewrite <- app_assoc|lia|].
    rewrite Et in H3. exists rc, iF, iO, dn', w', s', fd'. split; [done|]. split; [done|]. split; [split; [done|exact (kept_trans _ _ _ _ _ _ (kept_trans _ _ _ _ _ _ Hk1 (kept_cksum _ _ _ Hoc)) H2k)]|]. split; [done|]. intros Hrc. destruct (H4 Hrc) as (fs' & Q1 & Q2 & Q3 & Q4 & Q5).
    exists fs'. split; [done|]. split; [done|]. split; [done|]. split; [cbn [length]; lia|]. by apply wrote_append.
Qed.

(** ** Padding, and the limit of the size *)

Lemma pad_loop_ok p pg nTruncate n : page_ok pg -> 0 <= nTruncate < 2 ^ 32 -> ww_szPage p = sz -> forall fuel w (fd : F) fs nExtra, log_writer w (os_data fd) fs n -> os_ok fd ->
  iSyncPoint p - off (len fs) < Z.of_nat fuel -> (0 < fuel)%nat -> len fs + Z.of_nat fuel < 2 ^ 31 ->
  exists rc iO k w' fd', pad_loop fuel p (Some pg) nTruncate (off (len fs)) nExtra w fd = Done (rc, iO, nExtra + Z.of_nat k, w', fd') /\ only_cksum w w' /\ iReCksum w' = iReCksum w /\ os_ok fd' /\
    log_file (os_data fd') (take n fs) n /\ (k <= fuel)%nat /\ (rc = SQLITE_OK -> log_writer w' (os_data fd') (fs ++ replicate k (mk_frame (pgno pg) nTruncate (pData pg))) n).
Proof.
  intros (P1 & P2 & P3) HnT Hp. induction fuel as [|fuel IH]; intros w fd fs nExtra Hw Hok Hgap Hf Hlen; [lia|]. cbn [pad_loop].
  destruct (lw_summed _ _ _ _ Hw) as (k & Hk & Hl). pose proof Hsize as [Hs1 _]. destruct (Z.ltb_spec (off (len fs)) (iSyncPoint p)) as [Hlt|Hge].
  2: { exists SQLITE_OK, (off (len fs)), 0%nat, w, fd. rewrite Z.add_0_r. split; [done|]. split; [apply only_cksum_refl|]. split; [done|]. split; [done|]. split; [eapply log_file_take; [exact Hl|lia]|].
       split; [lia|]. intros _. by rewrite app_nil_r. }
  set (f := mk_frame (pgno pg) nTruncate (pData pg)).
  destruct (append_ok p w fd fs n f Hw Hok ltac:(by split) Hp ltac:(lia)) as (rc & c & fd1 & E & Hok1 & Hcom & Hgot & _). cbn [f_pgno f_page f_trunc f] in E. rewrite E. cbn [mbind outcome_bind]. clear E.
  assert (only_cksum w (with_cksum w c)) as Hoc by (exists c, (iReCksum w); by destruct w).
  destruct (Z.eqb_spec rc SQLITE_OK) as [->|Hrc]; cbn [negb].
  2: { eexists rc, _, 0%nat, _, fd1. rewrite Z.add_0_r. split; [done|]. split; [done|]. split; [done|]. split; [done|]. split; [done|]. split; [lia|done]. }
  assert (len (fs ++ [f]) = len fs + 1) as El by (rewrite length_app; cbn; lia). rewrite Hp. replace (off (len fs) + (sz + WAL_FRAME_HDRSIZE)) with (off (len (fs ++ [f]))) by (rewrite El; unfold off; change WAL_FRAME_HDRSIZE with 24; lia).
  pose proof (lw_n _ _ _ _ Hw) as Hn. assert (off (len (fs ++ [f])) = off (len fs) + 24 + sz) as Eo by (rewrite El; unfold off; lia).
  destruct (decide (fuel = 0)%nat) as [->|Hfu].
  { assert (iSyncPoint p - off (len fs) < 1) by lia. lia. }
  destruct (IH (with_cksum w c) fd1 (fs ++ [f]) (nExtra + 1) (Hgot eq_refl) Hok1 ltac:(lia) ltac:(lia) ltac:(lia)) as (rc2 & iO & m & w' & fd' & -> & H1 & H2 & H3 & H4 & H5 & H6).
  exists rc2, iO, (S m), w', fd'. split; [by replace (nExtra + 1 + Z.of_nat m) with (nExtra + Z.of_nat (S m)) by lia|]. split; [exact (only_cksum_trans _ _ _ Hoc H1)|]. split; [done|]. split; [done|]. rewrite take_app_le in H4 by done. split; [done|]. split; [lia|].
  intros Hr. specialize (H6 Hr). by rewrite <- app_assoc in H6.
Qed.

Lemma log_file_resize d fs k s : log_file d fs k -> (k <= length fs)%nat -> off (len fs) <= s -> log_file (resize d s) fs k.
Proof.
  intros [Hh Hs Hf Hok] Hk Hl. pose proof Hsize as [Hs1 _]. split.
  - apply at_resize; [done|]. rewrite length_app, Nat2Z.inj_add, Hhd. change (len (put_cksum c0)) with 8. unfold off in Hl. nia.
  - apply at_resize; [done|]. rewrite sum_length by done. rewrite length_take. unfold off in Hl. nia.
  - intros i f Hi. destruct (Hf i f Hi) as [F1 F2]. pose proof (lookup_lt_Some _ _ _ Hi). apply Forall_lookup_1 with (1 := Hok) in Hi as (_ & _ & Lf & _). destruct (frame_head_ok f) as [_ Lh].
    pose proof (off_mono (Z.of_nat i) (len fs) ltac:(lia) ltac:(lia)). split; (apply at_resize; [done|lia]).
  - done.
Qed.

Lemma walLimitSize_ok nMax (fd : F) fs k : log_file (os_data fd) fs k -> (k <= length fs)%nat -> off (len fs) <= nMax -> os_ok fd ->
  os_ok (walLimitSize nMax fd) /\ log_file (os_data (walLimitSize nMax fd)) fs k.
Proof.
  intros Hl Hk Hm Hok. assert (0 <= off (len fs)) as Ho by (pose proof Hsize as [Hs1 _]; unfold off; nia). unfold walLimitSize.
  destruct (os_size fd Hok) as (rc & s & fd1 & -> & Hok1 & Ed & _). destruct (_ && _); [|by rewrite Ed].
  destruct (os_truncate fd1 nMax Hok1 ltac:(lia)) as (rc2 & fd2 & -> & Hok2 & Ed2 & _). cbn [snd]. split; [done|]. rewrite Ed2, Ed. destruct (rc2 =? SQLITE_OK); [|done]. by apply log_file_resize.
Qed.

(** The index does not touch what the file needs. *)
Lemma writer_same w w' d fs n : log_writer w d fs n -> iReCksum w' = iReCksum w -> szPage w' = szPage w -> aFrameCksum (hdr w') = aFrameCksum (hdr w) -> aSalt (hdr w') = aSalt (hdr w) ->
  bigEndCksum (hdr w') = bigEndCksum (hdr w) -> log_writer w' d fs n.
Proof.
  intros [[A1 A2 A3] E1 E2 E3 E4 E5] I1 I2 I3 I4 I5. unfold wal_native, wal_salt in *.
  split; unfold wal_native, wal_salt; rewrite ?I1, ?I2, ?I3, ?I4, ?I5; try done. split; unfold wal_salt; rewrite ?I1, ?I2, ?I3, ?I4, ?I5; done.
Qed.

Lemma frames_index_same w s a pages szP nTruncate isCommit rc w' s' : log_rel w s a -> op_ok (OpFrames pages szP nTruncate isCommit) w a ->
  frames_index pages szP nTruncate isCommit w s = Done (rc, w', s') ->
  iReCksum w' = iReCksum w /\ szPage w' = szPage w /\ conn_of w' = conn_of w /\ aFrameCksum (hdr w') = aFrameCksum (hdr w) /\ aSalt (hdr w') = aSalt (hdr w) /\
  bigEndCksum (hdr w') = bigEndCksum (hdr w) /\ s_hdr0 s' = (if isCommit && (rc =? SQLITE_OK) then hdr w' else s_hdr0 s) /\ s_ckpt s' = s_ckpt s.
Proof.
  intros [Hw Hmx _ _] [Hp Hlen] E. unfold frames_index in E. rewrite Hmx in E.
  destruct (append_loop_ok pages w s (log_frames a) Hw Hlen Hp) as (rc1 & iF & w1 & s1 & dn & E1 & Ht & _). rewrite E1 in E. cbn [mbind outcome_bind] in E. clear E1.
  destruct Ht as ((m & v & ro & ->) & (pg & ->) & _). destruct (rc1 =? SQLITE_OK) eqn:Erc; cbn [negb] in E; [|injection E as <- <- <-; by rewrite Erc, andb_false_r].
  destruct isCommit; [|by injection E as <- <- <-].
  unfold walIndexWriteHdr in E. destruct (walIndexHdr _ _); try done. cbn [mbind outcome_bind] in E. destruct (walChecksumBytes _ _ _ _); try done. cbn [mbind outcome_bind] in E.
  injection E as <- <- <-. rewrite Erc. done.
Qed.

(** ** The end of the function *)

(** What the end of the function may change before the index. *)
Definition quiet (w w' : Wal) : Prop := exists c r b, w' = with_truncate (with_recksum (with_cksum w c) r) b.

Lemma only_quiet w w' : only_cksum w w' -> quiet w w'.
Proof. intros (c & r & ->). exists c, r, (truncateOnCommit w). by destruct w. Qed.

Lemma quiet_trans w w1 w2 : quiet w w1 -> quiet w1 w2 -> quiet w w2.
Proof. intros (c & r & b & ->) (c' & r' & b' & ->). by exists c', r', b'. Qed.

Lemma quiet_rel w w' s a : quiet w w' -> log_rel w s a -> log_rel w' s a.
Proof. intros (c & r & b & ->) [[] ? ? ?]. by split. Qed.

(** The checksums before a commit. *)
Lemma repair_ok ok w (fd : F) fs n (isCommit : bool) : log_writer w (os_data fd) fs n -> os_ok fd -> len fs < 2 ^ 31 ->
  exists rc w' fd', (if isCommit && negb (iReCksum w =? 0) then walRewriteChecksums ok w (len fs) fd else Done (SQLITE_OK, w, fd)) = Done (rc, w', fd') /\
    quiet w w' /\ os_ok fd' /\ log_file (os_data fd') (take n fs) n /\ (rc = SQLITE_OK -> log_writer w' (os_data fd') fs n /\ (isCommit = true -> iReCksum w' = 0)).
Proof.
  intros Hw Hok Hlen. destruct (isCommit && negb (iReCksum w =? 0)) eqn:E.
  - apply andb_true_iff in E as [_ E%negb_true_iff%Z.eqb_neq]. destruct (walRewriteChecksums_ok ok w fd fs n Hw E Hok Hlen) as (rc & w' & fd' & -> & H1 & H2 & H3 & H4 & _).
    exists rc, w', fd'. split; [done|]. split; [by apply only_quiet|]. split; [done|]. split; [done|]. intros Hr. by destruct (H4 Hr).
  - exists SQLITE_OK, w, fd. split; [done|]. split; [apply only_quiet, only_cksum_refl|]. split; [done|]. destruct (lw_summed _ _ _ _ Hw) as (k & Hk & Hl).
    split; [eapply log_file_take; [exact Hl|lia]|]. intros _. split; [done|]. intros ->. cbn in E. apply negb_false_iff in E. lia.
Qed.

Lemma pad_and_sync_ok sectorSize flags p pg nTruncate w (fd : F) fs n : page_ok pg -> 0 <= nTruncate < 2 ^ 32 -> ww_szPage p = sz -> 0 < sectorSize <= 65536 ->
  log_writer w (os_data fd) fs n -> os_ok fd -> len fs + sectorSize + 1 < 2 ^ 31 ->
  exists rc (failed : bool) k w' fd', pad_and_sync sectorSize flags p (Some pg) nTruncate (off (len fs)) w fd = Done (rc, failed, Z.of_nat k, w', fd') /\
    quiet w w' /\ iReCksum w' = iReCksum w /\ os_ok fd' /\ log_file (os_data fd') (take n fs) n /\ (k <= S (Z.to_nat sectorSize))%nat /\ (failed = true -> rc <> SQLITE_OK) /\
    (failed = false -> log_writer w' (os_data fd') (fs ++ replicate k (mk_frame (pgno pg) nTruncate (pData pg))) n).
Proof.
  intros Hpg HnT Hp Hss Hw Hok Hlen. destruct (lw_summed _ _ _ _ Hw) as (k0 & Hk0 & Hl). assert (log_file (os_data fd) (take n fs) n) as Hl0 by (eapply log_file_take; [exact Hl|lia]).
  unfold pad_and_sync. destruct (padToSectorBoundary w).
  2: { destruct (os_sync fd (WAL_SYNC_FLAGS flags) Hok) as (rc & fd' & -> & Hok' & Ed & _). exists rc, false, 0%nat, w, fd'. rewrite Ed, app_nil_r. split; [done|].
       split; [apply only_quiet, only_cksum_refl|]. do 3 (split; [done|]). split; [lia|done]. }
  set (p' := mk_writer _ _ _). assert (0 <= off (len fs)) as Ho by (pose proof Hsize as [Hs1 _]; unfold off; nia).
  destruct (pad_loop_ok p' pg nTruncate n Hpg HnT Hp (S (Z.to_nat sectorSize)) w fd fs 0 Hw Hok) as (rc & iO & k & w1 & fd1 & -> & H1 & H2 & H3 & H4 & H5 & H6); [|lia|lia|].
  { cbn [iSyncPoint p']. rewrite Z.quot_div_nonneg by lia. pose proof (Z.mul_div_le (off (len fs) + sectorSize - 1) sectorSize ltac:(lia)). lia. }
  cbn [mbind outcome_bind]. rewrite Z.add_0_l. apply only_quiet in H1. destruct (Z.eqb_spec rc SQLITE_OK) as [->|Hrc]; cbn [negb].
  2: { exists rc, true, k, w1, fd1. by split_and!. }
  destruct (iSyncPoint p' =? off (len fs)); [|exists SQLITE_OK, false, k, w1, fd1; split_and!; (done || intros _; by apply H6)].
  destruct (os_sync fd1 (WAL_SYNC_FLAGS flags) H3) as (rc & fd2 & -> & Hok2 & Ed & _). exists rc, false, k, w1, fd2. rewrite Ed. split_and!; (done || intros _; by apply H6).
Qed.

Lemma limit_log_ok p w (fd : F) fs n k k2 : ww_szPage p = sz -> log_file (os_data fd) fs n -> (n <= length fs)%nat -> len fs = Z.of_nat k + Z.of_nat k2 -> len fs < 2 ^ 31 -> os_ok fd ->
  exists w' fd', limit_log (Z.of_nat k) (Z.of_nat k2) p w fd = (w', fd') /\ (w' = with_truncate w (truncateOnCommit w') ) /\ os_ok fd' /\
    (forall fs0 n0, log_file (os_data fd) fs0 n0 -> (n0 <= length fs0)%nat -> len fs0 <= len fs -> log_file (os_data fd') fs0 n0).
Proof.
  intros Hp Hl Hn Hk Hb Hok. unfold limit_log. destruct (truncateOnCommit w && _) eqn:E; [|exists w, fd; split; [done|]; split; [by destruct w|done]].
  rewrite u32_id by lia. rewrite Hp. replace (Z.of_nat k + Z.of_nat k2 + 1) with (len fs + 1) by lia. destruct (off_frame (len fs) ltac:(lia)) as [-> Ho]. set (nMax := if _ <? _ then _ else _).
  assert (off (len fs) <= nMax) as Hm by (unfold nMax; destruct (Z.ltb_spec (mxWalSize w) (off (len fs))); lia).
  destruct (walLimitSize_ok nMax fd fs n Hl Hn Hm Hok) as [Hok' _]. eexists _, _. split; [done|]. split; [done|]. split; [done|]. intros fs0 n0 Hl0 Hn0 Hle.
  apply walLimitSize_ok; [done|done| |done]. pose proof Hsize as [Hs1 _]. unfold off in *. nia.
Qed.

Definition copies (nTruncate : Z) (dn : list PgHdr) (k : nat) : list Frame :=
  match last dn with Some pg => replicate k (mk_frame (pgno pg) nTruncate (pData pg)) | None => [] end.

Lemma map_copies nTruncate dn k : map f_pgno (copies nTruncate dn k) = match last dn with Some pg => replicate k (pgno pg) | None => [] end.
Proof. unfold copies. destruct (last dn); [|done]. induction k; [done|]. cbn. by f_equal. Qed.

(** The padding and the limit of the size, of any transaction. *)
Lemma settle_ok sectorSize flags nTruncate p (isCommit : bool) dn w (fd : F) fs n : 0 <= nTruncate < 2 ^ 32 -> ww_szPage p = sz -> 0 < sectorSize <= 65536 ->
  log_writer w (os_data fd) fs n -> os_ok fd -> len fs + sectorSize + 2 < 2 ^ 31 -> (isCommit = true -> exists pg, last dn = Some pg /\ page_ok pg) ->
  exists rc (failed : bool) k w1 fd1, (if isCommit && negb (WAL_SYNC_FLAGS flags =? 0) then pad_and_sync sectorSize flags p (last dn) nTruncate (off (len fs)) w fd
      else Done (SQLITE_OK, false, 0, w, fd)) = Done (rc, failed, Z.of_nat k, w1, fd1) /\
    quiet w w1 /\ os_ok fd1 /\ log_file (os_data fd1) (take n fs) n /\ (failed = true -> rc <> SQLITE_OK) /\
    (failed = false -> exists w2 fd2, (if isCommit then limit_log (len fs) (Z.of_nat k) p w1 fd1 else (w1, fd1)) = (w2, fd2) /\ quiet w w2 /\ os_ok fd2 /\ iReCksum w2 = iReCksum w /\
       log_file (os_data fd2) (take n fs) n /\ log_writer w2 (os_data fd2) (fs ++ copies nTruncate dn k) n /\ (k <= S (Z.to_nat sectorSize))%nat /\ (isCommit = false -> k = 0%nat)).
Proof.
  intros HnT Hp Hss Hw Hok Hlen Hlast. destruct (lw_summed _ _ _ _ Hw) as (k0 & Hk0 & Hl). assert (log_file (os_data fd) (take n fs) n) as Hl0 by (eapply log_file_take; [exact Hl|lia]).
  assert (quiet w w) as Hq0 by apply only_quiet, only_cksum_refl.
  assert (exists rc (failed : bool) k w1 fd1, (if isCommit && negb (WAL_SYNC_FLAGS flags =? 0) then pad_and_sync sectorSize flags p (last dn) nTruncate (off (len fs)) w fd
      else Done (SQLITE_OK, false, 0, w, fd)) = Done (rc, failed, Z.of_nat k, w1, fd1) /\ quiet w w1 /\ iReCksum w1 = iReCksum w /\ os_ok fd1 /\ log_file (os_data fd1) (take n fs) n /\
      (k <= S (Z.to_nat sectorSize))%nat /\ (failed = true -> rc <> SQLITE_OK) /\ (failed = false -> log_writer w1 (os_data fd1) (fs ++ copies nTruncate dn k) n) /\ (isCommit = false -> k = 0%nat)) as
    (rc & failed & k & w1 & fd1 & E & Q1 & Q2 & Q3 & Q4 & Q5 & Q6 & Q7 & Q8).
  { destruct (isCommit && _) eqn:E.
    - apply andb_true_iff in E as [-> _]. destruct (Hlast eq_refl) as (pg & Ep & Hpg). unfold copies. rewrite Ep.
      destruct (pad_and_sync_ok sectorSize flags p pg nTruncate w fd fs n Hpg HnT Hp Hss Hw Hok ltac:(lia)) as (rc & failed & k & w1 & fd1 & -> & Q1 & Q2 & Q3 & Q4 & Q5 & Q6 & Q7).
      exists rc, failed, k, w1, fd1. by split_and!.
    - exists SQLITE_OK, false, 0%nat, w, fd. unfold copies. cbn [replicate]. split_and!; try done; [lia|]. intros _. by destruct (last dn); rewrite app_nil_r. }
  rewrite E. exists rc, failed, k, w1, fd1. do 5 (split; [done|]). intros Hf. specialize (Q7 Hf). destruct isCommit; [|by exists w1, fd1].
  destruct (lw_summed _ _ _ _ Q7) as (k1 & Hk1 & Hl1). set (fs' := fs ++ copies nTruncate dn k) in *. assert (length fs' = length fs + k)%nat as El.
  { unfold fs', copies. destruct (Hlast eq_refl) as (pg & -> & _). by rewrite length_app, length_replicate. }
  destruct (limit_log_ok p w1 fd1 fs' k1 (length fs) k Hp Hl1 ltac:(lia) ltac:(lia) ltac:(lia) Q3) as (w2 & fd2 & E2 & Ew & Hok2 & Hkeep). exists w2, fd2. split; [done|].
  assert (quiet w1 w2) as Hq by (exists (aFrameCksum (hdr w1)), (iReCksum w1), (truncateOnCommit w2); rewrite with_cksum_same; rewrite Ew at 1; by destruct w1).
  split; [by eapply quiet_trans|]. split; [done|]. split; [rewrite Ew; cbn; done|]. split; [apply Hkeep; [done|rewrite length_take; lia|rewrite length_take; lia]|].
  split; [|by split]. rewrite Ew. destruct Q7 as [A1 A2 A3 A4 A5 A6]. destruct A1. split; try done. destruct A6 as [(B1 & B2 & B3)|(B1 & B2)]; [left; split_and!; [done|done|]|right; split; [done|]]; apply Hkeep; (done || cbn [iReCksum with_truncate]; lia).
Qed.

Lemma finish_frames_ok ok sectorSize nTruncate (isCommit : bool) flags p w s (fd : F) a n fs0 fs dn : 0 <= nTruncate < 2 ^ 32 -> ww_szPage p = sz -> 0 < sectorSize <= 65536 ->
  writing w s (os_data fd) a n fs0 fs dn -> os_ok fd -> len fs + sectorSize + 2 < 2 ^ 31 -> (isCommit = true -> exists pg, last dn = Some pg /\ page_ok pg) ->
  exists rc w' s' fd' k a', finish_frames ok sectorSize sz nTruncate isCommit flags p (len fs) (off (len fs)) dn w s fd = Done (rc, w', s', fd') /\ os_ok fd' /\
    log_file (os_data fd') (take n fs) n /\ szPage w' = sz /\ conn_of w' = conn_of w /\ s_ckpt s' = s_ckpt s /\ log_rel w' s' a' /\ (isCommit = false -> k = 0%nat) /\
    (rc <> SQLITE_OK -> a' = a /\ s_hdr0 s' = s_hdr0 s) /\
    (rc = SQLITE_OK -> log_writer w' (os_data fd') (fs ++ copies nTruncate dn k) n /\ log_frames a' = map f_pgno (fs ++ copies nTruncate dn k) /\
       if isCommit then pending a' = [] /\ iReCksum w' = 0 /\ s_hdr0 s' = hdr w' else committed a' = committed a /\ s_hdr0 s' = s_hdr0 s).
Proof.
  intros HnT Hp Hss [Hrel Ei Hmin Hlog Hn Epg] Hok Hlen Hlast. pose proof (lw_size _ _ _ _ Hlog) as Esz. unfold finish_frames.
  destruct (repair_ok ok w fd fs n isCommit Hlog Hok ltac:(lia)) as (rc & w1 & fd1 & -> & Q1 & Hok1 & Hcom1 & Hgot1). cbn [mbind outcome_bind].
  assert (forall w', quiet w w' -> szPage w' = sz /\ conn_of w' = conn_of w /\ log_rel w' s a) as Hquiet.
  { intros w' Hq. pose proof (quiet_rel _ _ _ _ Hq Hrel). destruct Hq as (c & r & b & ->). done. }
  destruct (Z.eqb_spec rc SQLITE_OK) as [->|Hrc]; cbn [negb].
  2: { destruct (Hquiet _ Q1) as (? & ? & ?). exists rc, w1, s, fd1, 0%nat, a. by split_and!. }
  destruct (Hgot1 eq_refl) as [Hlog1 Hre].
  destruct (settle_ok sectorSize flags nTruncate p isCommit dn w1 fd1 fs n HnT Hp Hss Hlog1 Hok1 Hlen Hlast) as (rc & failed & k & w2 & fd2 & -> & Q2 & Hok2 & Hcom2 & Hf & Hgot2). cbn [mbind outcome_bind].
  pose proof (quiet_trans _ _ _ Q1 Q2) as Q3. destruct failed.
  { destruct (Hquiet _ Q3) as (? & ? & ?). exists rc, w2, s, fd2, 0%nat, a. specialize (Hf eq_refl). by split_and!. }
  destruct (Hgot2 eq_refl) as (w3 & fd3 & -> & Q4 & Hok3 & Er & Hcom3 & Hlog3 & Hk & Hk0). pose proof (quiet_trans _ _ _ Q1 Q4) as Q5. destruct (Hquiet _ Q5) as (S1 & S2 & S3).
  destruct (Z.eqb_spec rc SQLITE_OK) as [->|Hrc]; [|by exists rc, w3, s, fd3, k, a; split_and!].
  rewrite Nat2Z.id. set (pages := map pgno dn ++ _). set (fs' := fs ++ copies nTruncate dn k) in *.
  assert (log_frames a ++ pages = map f_pgno fs') as Ef.
  { unfold pages, fs'. by rewrite Ei, map_app, Epg, <- app_assoc, map_copies. }
  assert (op_ok (OpFrames pages sz nTruncate isCommit) w3 a) as Hop.
  { destruct (lw_summed _ _ _ _ Hlog3) as (k3 & _ & Hl3). pose proof (lf_ok _ _ _ Hl3) as Hfs.
    assert (Forall (fun q => 0 < q < 2 ^ 32) (log_frames a ++ pages)) as Hall by (rewrite Ef; apply Forall_map; eapply Forall_impl; [exact Hfs|]; by intros f (? & _)).
    apply Forall_app in Hall as [_ Hall]. split; [done|]. rewrite <- Nat2Z.inj_add, <- length_app, Ef, length_map. unfold fs', copies. rewrite length_app. destruct (last dn); [rewrite length_replicate|cbn]; lia. }
  destruct (frames_index_ok w3 s a pages sz nTruncate isCommit S3 Hop) as (rc & w4 & s4 & E4 & _ & Hrel4). rewrite E4. cbn [mbind outcome_bind].
  destruct (frames_index_same _ _ _ _ _ _ _ _ _ _ S3 Hop E4) as (F1 & F2 & F3 & F4 & F5 & F6 & F7 & F8).
  exists rc, w4, s4, fd3, k, (log_step (OpFrames pages sz nTruncate isCommit) rc a). split_and!; try done; [congruence|congruence| |].
  - intros Hrc. cbn [log_step]. rewrite (proj2 (Z.eqb_neq _ _) Hrc) in F7 |- *. rewrite andb_false_r in F7. done.
  - intros ->. split; [by apply (writer_same w3)|]. cbn [log_step]. rewrite Z.eqb_refl in F7 |- *. cbn [negb]. rewrite andb_true_r in F7. destruct isCommit.
    + fold fs'. rewrite <- Ef. split; [unfold log_frames at 1; cbn; by rewrite app_nil_r|]. split; [done|]. split; [rewrite F1, Er; by apply Hre|done].
    + split; [|by split]. fold fs'. rewrite <- Ef. unfold log_frames. cbn. by rewrite app_assoc.
Qed.
End file.
