(* ===== verification/WalCommit.v ===== *)
(** * WalCommit: transactions of the write-ahead log

    What a connection that writes and the log file have to do with each other between two
    calls ([log_state]) and after a call that failed ([log_broken]); then that
    [sqlite3WalFrames] and [sqlite3WalUndo] keep it, and that what has been committed is
    found again by a recovery. *)

From S2P Require Import Prelude Varint CType ByteMem OsFile WalCksum WalIndex WalFrame WalLock WalIndexRefine WalRecover WalRead WalCkpt WalBackfill WalWrite WalDurable.

(** ** The header of the log *)

Definition wal_page_size (sz : Z) : Prop := 512 <= sz <= 65536 /\ sz .& (sz - 1) = 0.

(** The first 24 bytes of a valid header, and the checksum that follows. *)
Record head_ok (sz : Z) (native : bool) (salt : bytes) (c0 : Z * Z) (hd : bytes) : Prop := {
  hk_length : len hd = 24;
  hk_bytes : bytes_ok hd;
  hk_magic : be32 hd 0 .& 0xFFFFFFFE = WAL_MAGIC;
  hk_native : (be32 hd 0 mod 2 =? 0) = native;
  hk_size : be32 hd 8 = sz;
  hk_page : wal_page_size sz;
  hk_salt : sub hd 16 8 = salt;
  hk_cksum : cksum_of native hd 24 (0, 0) = c0
}.

Lemma head_parts sz native salt c0 hd : head_ok sz native salt c0 hd -> (len salt = 8 /\ bytes_ok salt) /\ page_size_ok sz /\ cksum_range c0.
Proof.
  intros [H1 H2 _ _ _ [H3 H4] <- <-]. split; [split; [apply sub_length; lia|by apply sub_ok]|]. split; [by apply power_of_two_size|by apply cksum_of_range].
Qed.

Lemma head_header sz native salt c0 hd d : head_ok sz native salt c0 hd -> at_off d 0 (hd ++ put_cksum c0) -> 32 < len d -> log_header d = Some (native, salt, sz, c0).
Proof.
  intros Hk Hat Hl. destruct (head_parts _ _ _ _ _ Hk) as (_ & _ & Hc). destruct Hk as [H1 H2 H3 H4 H5 [H6 H7] H8 H9]. apply at_app in Hat as [Ha Hb]. rewrite H1 in Hb. change (0 + 24) with 24 in Hb.
  destruct (at_cksum _ _ _ Hc Hb) as [C0 C1]. destruct Ha as (_ & _ & Ha). rewrite H1 in Ha.
  assert (forall o, 0 <= o -> o + 4 <= 24 -> be32 d o = be32 hd o) as Eb.
  { intros o Ho Hle. unfold be32. rewrite <- (Ha o), <- (Ha (o + 1)), <- (Ha (o + 2)), <- (Ha (o + 3)) by lia. done. }
  assert (cksum_of native d 24 (0, 0) = c0) as Ec.
  { rewrite <- H9. apply cksum_spec_ext. intros j Hj. change (Z.to_nat (24 / 8)) with 3%nat in Hj. apply (Ha j). lia. }
  assert (sub d 16 8 = salt) as Es.
  { rewrite <- H8. pose proof (sub_length d 16 8 ltac:(lia) ltac:(lia) ltac:(lia)). pose proof (sub_length hd 16 8 ltac:(lia) ltac:(lia) ltac:(lia)).
    apply bytes_ext; [lia|]. intros j Hj. rewrite !ld_sub by lia. rewrite <- (Ha (16 + j)) by lia. done. }
  unfold log_header. change (24 + 4) with 28 in C1. rewrite !Eb, H3, H4, H5, Ec, C0, C1, Es, !Z.eqb_refl, H7 by lia.
  rewrite (proj2 (Z.ltb_lt 32 _)), (proj2 (Z.leb_le 512 _)), (proj2 (Z.leb_le _ 65536)) by lia. done.
Qed.

(** The frames whose checksums are right are what a reader of the file finds first. *)
Lemma log_file_found sz native salt c0 hd d fs : head_ok sz native salt c0 hd -> log_file native salt sz c0 hd d fs (length fs) -> fs `prefix_of` log_frames_of d.
Proof.
  intros Hk [Hh Hs _ Hok]. destruct (head_parts _ _ _ _ _ Hk) as (Hsalt & Hsize & Hc). destruct (decide (fs = [])) as [->|Hne]; [apply prefix_nil|].
  rewrite firstn_all in Hs. pose proof (log_bytes_length native salt sz Hsalt fs c0 Hok) as Ll. pose proof (at_sub _ _ _ Hs) as Es. destruct Hs as (_ & Hle & _).
  assert (0 < len fs) as Hpos by (destruct fs; [done|cbn; lia]). pose proof Hsize as [Hs1 _]. unfold log_frames_of. rewrite (head_header _ _ _ _ _ _ Hk Hh) by nia.
  set (lb := log_bytes native salt sz c0 fs) in *.
  assert (drop 32 d = lb ++ drop (length lb) (drop 32 d)) as ->.
  { rewrite <- (take_drop (length lb) (drop 32 d)) at 1. f_equal. unfold sub in Es. by rewrite Nat2Z.id in Es. }
  assert (len fs <= (len d - 32) / (24 + sz)) as Hdiv by (apply Z.div_le_lower_bound; lia).
  replace (Z.to_nat ((len d - 32) / (24 + sz))) with (length fs + (Z.to_nat ((len d - 32) / (24 + sz)) - length fs))%nat by lia.
  rewrite valid_frames_log by done. by apply prefix_app_r.
Qed.

(** Commits of a prefix. *)
Lemma upto_commit_prefix C fs : C `prefix_of` fs -> upto_commit C = C -> C `prefix_of` upto_commit fs.
Proof.
  intros [D ->] E. rewrite <- E at 1. clear E. induction C as [|f C IH]; [apply prefix_nil|]. cbn [upto_commit app]. destruct (upto_commit C) as [|g l] eqn:Ec.
  - destruct (f_trunc f =? 0); [apply prefix_nil|]. destruct (upto_commit (C ++ D)); by apply prefix_cons, prefix_nil.
  - destruct (upto_commit (C ++ D)) as [|g' l']; [by apply prefix_nil_inv in IH|]. by apply prefix_cons.
Qed.

(** ** Between two calls *)

(** What the shared header says of the committed frames. *)
Definition live_ok (native : bool) (salt : bytes) (sz : Z) (c0 : Z * Z) (s : Shm) (C : list Frame) : Prop :=
  C = [] \/ aFrameCksum (s_hdr0 s) = log_cksum native sz c0 C /\ aSalt (s_hdr0 s) = salt /\ (bigEndCksum (s_hdr0 s) =? SQLITE_BIGENDIAN) = native.

Definition in_index (C P : list Frame) : wal_log := mk_log (map f_pgno C) (map f_pgno P).

(** The committed frames [C] and those [P] of the open transaction.  A log without frames
    may have no header yet. *)
Record log_state (sz : Z) (w : Wal) (s : Shm) (d : bytes) (C P : list Frame) : Prop := {
  ls_index : log_rel w s (in_index C P);
  ls_commit : upto_commit C = C;
  ls_pending : Forall (fun f => f_trunc f = 0) P;
  ls_min : 0 <= minFrame w < 2 ^ 31;
  ls_log : C = [] /\ P = [] /\ iReCksum w = 0 \/
    exists native salt c0 hd, head_ok sz native salt c0 hd /\ log_writer native salt sz c0 hd w d (C ++ P) (length C) /\ live_ok native salt sz c0 s C
}.

(** After a failure: [C] is in order, the frames of the transaction need not be. *)
Record log_broken (sz : Z) (w : Wal) (s : Shm) (d : bytes) (C : list Frame) : Prop := {
  lb_index : exists P, log_rel w s (in_index C P);
  lb_commit : upto_commit C = C;
  lb_min : 0 <= minFrame w < 2 ^ 31;
  lb_log : C = [] \/ szPage w = sz /\ exists native salt c0 hd, head_ok sz native salt c0 hd /\ log_file native salt sz c0 hd d C (length C) /\ live_ok native salt sz c0 s C
}.

Lemma in_index_frames C P : log_frames (in_index C P) = map f_pgno (C ++ P).
Proof. unfold log_frames, in_index. cbn. by rewrite map_app. Qed.

Lemma state_broken sz w s d C P : log_state sz w s d C P -> log_broken sz w s d C.
Proof.
  intros [Hrel Hc _ Hmin Hlog]. split; [by eexists|done|done|]. destruct Hlog as [(-> & _)|(native & salt & c0 & hd & Hk & Hw & Hlive)]; [by left|]. right.
  split; [by apply Hw|]. exists native, salt, c0, hd. split; [done|]. split; [|done]. destruct (lw_summed _ _ _ _ _ _ _ _ _ Hw) as (k & Hk1 & Hl).
  destruct (head_parts _ _ _ _ _ Hk) as (Hsalt & _).
  apply (log_file_take _ _ _ _ _ Hsalt _ _ _ (length C)) in Hl; [|lia]. by rewrite take_app_length in Hl.
Qed.

Lemma broken_found sz w s d C : log_broken sz w s d C -> C `prefix_of` upto_commit (log_frames_of d).
Proof.
  intros [_ Hc _ [->|(_ & native & salt & c0 & hd & Hk & Hl & _)]]; [apply prefix_nil|]. apply upto_commit_prefix; [|done]. by eapply log_file_found.
Qed.

(** The rollback, and the end of the transaction. *)
Lemma rollback_ok sz w s d C : log_broken sz w s d C ->
  exists called w' s', sqlite3WalUndo w (fun _ => SQLITE_OK) s = Done (SQLITE_OK, called, w', s') /\ log_state sz (with_recksum w' 0) s' d C [] /\ conn_of w' = conn_of w /\ s_hdr0 s' = s_hdr0 s /\ s_ckpt s' = s_ckpt s.
Proof.
  intros [[P Hrel] Hc Hmin Hlog]. destruct (undo_ok w s _ Hrel) as (w' & s' & -> & Hrel' & ((m & v & ro & ->) & (pg & ->) & _)). eexists _, _, _. split; [done|]. split; [|done].
  split; [|done|constructor|done|].
  - destruct Hrel' as [[] ? ? ?]. by split.
  - destruct Hlog as [->|(Ez & native & salt & c0 & hd & Hk & Hl & Hlive)]; [by left|]. destruct Hlive as [->|(L1 & L2 & L3)]; [by left|]. right. exists native, salt, c0, hd. split; [done|].
    destruct (head_parts _ _ _ _ _ Hk) as (Hsalt & Hsize & Hc0). rewrite app_nil_r. split; [|by right].
    split; try done.
    + split; [change (page_size_ok (szPage w)); by rewrite Ez|unfold wal_salt; cbn; by rewrite L2|]. cbn. rewrite L1. by apply log_cksum_range.
    + left. by split.
Qed.

(** ** What a recovery starts from *)

Lemma at_drop d o b : 0 <= o <= len d -> at_off (drop (Z.to_nat o) d) 0 b -> at_off d o b.
Proof.
  intros Ho (_ & Hl & Hj). rewrite length_drop in Hl. split; [lia|]. split; [lia|]. intros j Hjl. rewrite <- (Hj j Hjl). by rewrite ld_drop by lia.
Qed.

Lemma header_head d native salt sz c0 : bytes_ok d -> log_header d = Some (native, salt, sz, c0) -> exists hd, head_ok sz native salt c0 hd /\ at_off d 0 (hd ++ put_cksum c0) /\ 32 < len d.
Proof.
  intros Hd Hh. destruct (log_header_ok _ _ _ _ _ Hd Hh) as (_ & _ & _ & _ & Hc). unfold log_header in Hh. destruct (_ && _) eqn:E; [|done]. injection Hh as E1 E2 E3 E4. rewrite !andb_true_iff in E.
  destruct E as ((((L%Z.ltb_lt & M%Z.eqb_eq) & (H1%Z.leb_le & H2%Z.leb_le) & H3%Z.eqb_eq) & C0%Z.eqb_eq) & C1%Z.eqb_eq).
  pose proof (sub_length d 0 24 ltac:(lia) ltac:(lia) ltac:(lia)) as Ls. pose proof (sub_length d 16 8 ltac:(lia) ltac:(lia) ltac:(lia)) as L8. pose proof (sub_length (sub d 0 24) 16 8 ltac:(lia) ltac:(lia) ltac:(lia)) as L8'.
  rewrite E4 in C0, C1. exists (sub d 0 24). split; [split|split; [|done]].
  - done.
  - by apply sub_ok.
  - by rewrite be32_sub by lia.
  - by rewrite be32_sub by lia.
  - by rewrite be32_sub by lia.
  - rewrite <- E3. by split.
  - rewrite <- E2. apply bytes_ext; [lia|]. intros j Hj. by rewrite !ld_sub by lia.
  - rewrite <- E4, <- E1. apply cksum_spec_ext. intros j Hj. change (Z.to_nat (24 / 8)) with 3%nat in Hj. by rewrite ld_sub by lia.
  - apply at_app. split; [apply sub_at; lia|]. rewrite Ls. unfold put_cksum. rewrite <- C0, <- C1, !put4byte_be32 by (done || lia). apply at_app.
    rewrite (sub_length d 24 4) by lia. split; apply sub_at; lia.
Qed.

Section valid.
Context (native : bool) (salt : bytes) (sz : Z).
Hypothesis Hsalt : len salt = 8 /\ bytes_ok salt.
Hypothesis Hsize : page_size_ok sz.

Lemma first_frame_at s d f : bytes_ok d -> first_frame native salt sz s d = Some f -> at_off d 0 (frame_bytes native salt sz s f).
Proof.
  intros Hd. unfold first_frame. destruct (_ && _) eqn:E; [|done]. intros [= <-]. rewrite !andb_true_iff in E. destruct E as ((((L%Z.leb_le & S%bool_decide_eq_true) & _) & C0%Z.eqb_eq) & C1%Z.eqb_eq).
  destruct Hsize as [Hs1 _]. set (f := mk_frame _ _ _) in *. unfold frame_bytes, frame_head, put_cksum. rewrite <- C0, <- C1, <- S. cbn [f f_pgno f_trunc f_page]. rewrite !put4byte_be32 by (done || lia).
  pose proof (sub_length d 8 8 ltac:(lia) ltac:(lia) ltac:(lia)) as L8. pose proof (fun o Ho => sub_length d o 4 Ho ltac:(lia)) as L4.
  rewrite !at_app, !length_app, !Nat2Z.inj_add, L8, !L4 by lia. split_and!; apply sub_at; lia.
Qed.

Lemma valid_frames_at n : forall s d o, bytes_ok d -> 0 <= o <= len d -> at_off d o (log_bytes native salt sz s (valid_frames n native salt sz s (drop (Z.to_nat o) d))).
Proof.
  induction n as [|n IH]; intros s d o Hd Ho; cbn [valid_frames log_bytes]; [split; [lia|]; split; cbn; lia|].
  destruct (first_frame native salt sz s (drop (Z.to_nat o) d)) as [f|] eqn:E; cbn [log_bytes]; [|split; [lia|]; split; cbn; lia].
  pose proof (valid_frames_ok native salt sz Hsize 1 s (drop (Z.to_nat o) d) ltac:(by apply Forall_drop)) as V. cbn [valid_frames] in V. rewrite E in V. apply Forall_cons in V as [(_ & _ & Lf & _) _].
  apply first_frame_at in E; [|by apply Forall_drop]. apply at_drop in E; [|done]. pose proof (frame_bytes_length native salt sz s f (proj1 Hsalt) Lf) as Lb. apply at_app. split; [done|].
  rewrite drop_drop. destruct E as (_ & Hl & _). destruct Hsize as [Hs1 _]. rewrite Lb in *. replace (Z.to_nat o + Z.to_nat (24 + sz))%nat with (Z.to_nat (o + (24 + sz))) by lia. apply IH; [done|lia].
Qed.

(** Each frame of the bytes. *)
Lemma at_frames c0 d fs i f : at_off d 32 (log_bytes native salt sz c0 fs) -> Forall (frame_ok sz) fs -> fs !! i = Some f ->
  at_off d (off sz (Z.of_nat i)) (frame_head f) /\ at_off d (off sz (Z.of_nat i) + 24) (f_page f).
Proof.
  intros Hat Hok Hi. pose proof (lookup_lt_Some _ _ _ Hi) as Hl. rewrite <- (take_drop_middle _ _ _ Hi), log_bytes_app in Hat. cbn [log_bytes] in Hat. apply at_app in Hat as [_ Hat]. apply at_app in Hat as [Hat _].
  rewrite log_bytes_length in Hat by (done || by apply Forall_take). rewrite length_take, Nat.min_l in Hat by lia. destruct (frame_head_ok f) as [_ Lh]. unfold frame_bytes in Hat.
  apply at_app in Hat as [H1 Hat]. apply at_app in Hat as [_ Hat]. apply at_app in Hat as [_ Hat]. rewrite (proj1 Hsalt), Lh in Hat. change (len (put_cksum _)) with 8 in Hat. unfold off. split; [done|].
  replace (32 + Z.of_nat i * (24 + sz) + 24) with (32 + Z.of_nat i * (24 + sz) + 8 + 8 + 8) by lia. done.
Qed.
End valid.

(** Every file with a valid header is the log of its valid frames. *)
Lemma log_file_of d native salt sz c0 : bytes_ok d -> log_header d = Some (native, salt, sz, c0) ->
  exists hd, head_ok sz native salt c0 hd /\ log_file native salt sz c0 hd d (log_frames_of d) (length (log_frames_of d)).
Proof.
  intros Hd Hh. destruct (header_head _ _ _ _ _ Hd Hh) as (hd & Hk & Hat & Hl). destruct (head_parts _ _ _ _ _ Hk) as (Hsalt & Hsize & Hc). exists hd. split; [done|].
  unfold log_frames_of. rewrite Hh. set (fs := valid_frames _ _ _ _ _ _). assert (Forall (frame_ok sz) fs) as Hok by (apply valid_frames_ok; [done|by apply Forall_drop]).
  assert (at_off d 32 (log_bytes native salt sz c0 fs)) as Hs by (apply (valid_frames_at native salt sz Hsalt Hsize _ c0 d 32); [done|lia]).
  split; [done|by rewrite firstn_all| |done]. intros i f Hi. by apply (at_frames native salt sz Hsalt c0 d fs).
Qed.

(** ** Starting the log *)

Section commit.
Context {F : Type} `{OsFileLaws F}.

Lemma log_head_ok sz nCkpt salt : wal_page_size sz -> len salt = 8 -> bytes_ok salt ->
  head_ok sz true salt (cksum_of true (log_head sz nCkpt salt) 24 (0, 0)) (log_head sz nCkpt salt).
Proof.
  intros Hsz Ls Bs. set (hd := log_head sz nCkpt salt). assert (len hd = 24) as Lh by (unfold hd, log_head; rewrite !length_app; pose proof (put4byte_length 0); cbn in *; lia).
  assert (at_off hd 0 hd) as Hat by (split; [lia|]; split; [lia|]; intros j _; by rewrite Z.add_0_l). unfold hd in Hat at 2. unfold log_head in Hat.
  apply at_app in Hat as [A0 Hat]. apply at_app in Hat as [_ Hat]. apply at_app in Hat as [A8 Hat]. apply at_app in Hat as [_ A16]. rewrite !put4byte_length in *.
  apply at_be32 in A0, A8. change (0 + 4 + 4) with 8 in *. change (8 + 4 + 4) with 16 in *. destruct Hsz as [Hs1 Hs2]. rewrite u32_id in A8 by lia.
  split; rewrite ?A0; try done.
  - unfold hd, log_head. rewrite !Forall_app. split_and!; try apply put4byte_bytes. done.
  - rewrite <- Ls at 1. by apply at_sub.
Qed.

Lemma begin_log_ok salt0 sz flags w s (fd : F) : wal_page_size sz -> len salt0 = 8 /\ bytes_ok salt0 -> log_rel w s (in_index [] []) -> iReCksum w = 0 -> os_ok fd ->
  exists rc w' fd', begin_log salt0 sz flags w fd = Done (rc, w', fd') /\ os_ok fd' /\ log_rel w' s (in_index [] []) /\ szPage w' = sz /\ conn_of w' = conn_of w /\
    (rc = SQLITE_OK -> exists salt c0 hd, head_ok sz true salt c0 hd /\ log_writer true salt sz c0 hd w' (os_data fd') [] 0).
Proof.
  intros Hsz Hs0 [Hw Hmx Hcm Hb] Hre Hok. unfold begin_log. set (salt := if nCkpt w =? 0 then salt0 else aSalt (hdr w)).
  assert (len salt = 8 /\ bytes_ok salt) as [Ls Bs] by (destruct (wr_salt _ _ _ Hw) as (B & L & _); unfold salt; destruct (nCkpt w =? 0); [done|split; [lia|done]]).
  pose proof (log_head_ok sz (nCkpt w) salt Hsz Ls Bs) as Hk. set (hd := log_head sz (nCkpt w) salt) in *. pose proof (hk_length _ _ _ _ _ Hk) as Lh. pose proof (hk_bytes _ _ _ _ _ Hk) as Bh.
  change (WAL_HDRSIZE - 2 * 4) with (8 * Z.of_nat 3). rewrite walChecksumBytes_ok by (done || lia). cbn [mbind outcome_bind].
  change (cksum_spec true hd 0 3 (0, 0)) with (cksum_of true hd 24 (0, 0)). set (c0 := cksum_of true hd 24 (0, 0)) in *. destruct (head_parts _ _ _ _ _ Hk) as (Hsalt & Hsize & Hc0).
  fold (put_cksum c0). set (w1 := with_truncate _ true).
  assert (log_rel w1 s (in_index [] [])) as Hrel1.
  { split; [|done|done|done]. destruct Hw as [A1 A2 A3 A4 A5 A6 A7 A8 A9 (B1 & B2 & B3 & B4)]. split; try done. cbn. split; [done|]. split; [lia|done]. }
  destruct (os_write fd (hd ++ put_cksum c0) 0 Hok) as (rc & fd1 & -> & Hok1 & Hr & _); [lia|rewrite length_app; change (length (put_cksum c0)) with 8%nat; lia| |by destruct hd|].
  { apply Forall_app. split; [done|]. apply Forall_app. split; apply put4byte_bytes. }
  assert (rc = SQLITE_OK -> log_writer true salt sz c0 hd w1 (os_data fd1) [] 0) as Hgot.
  { intros ->. pose proof (at_result_same _ _ _ _ Hr ltac:(lia)) as Hat. split; try done. left. split; [done|]. split; [done|]. split; [done| |done|constructor].
    cbn [take log_bytes length]. destruct Hat as (_ & Hl & _). rewrite length_app in Hl. change (length (put_cksum c0)) with 8%nat in Hl. split; [lia|]. split; [cbn; lia|]. cbn. lia. }
  destruct (Z.eqb_spec rc SQLITE_OK) as [->|Hrc]; cbn [negb]; [|by exists rc, w1, fd1; split_and!].
  destruct (syncHeader w1).
  - destruct (os_sync fd1 (CKPT_SYNC_FLAGS flags) Hok1) as (rc2 & fd2 & -> & Hok2 & Ed & _). exists rc2, w1, fd2. split_and!; try done. intros _. rewrite Ed. exists salt, c0, hd. split; [done|by apply Hgot].
  - exists SQLITE_OK, w1, fd1. split_and!; try done. intros _. exists salt, c0, hd. split; [done|by apply Hgot].
Qed.

(** ** The frames of a transaction *)

(** What the frames of a call have become. *)
Record log_extended (sz nTruncate : Z) (isCommit : bool) (pList : list PgHdr) (w : Wal) (s : Shm) (d : bytes) (C P C' P' : list Frame) : Prop := {
  le_state : log_state sz w s d C' P';
  le_prefix : C `prefix_of` C';
  le_more : isCommit = true -> (length C < length C')%nat;
  le_commit : if isCommit then P' = [] /\ commit_size C' = nTruncate else C' = C;
  le_content q : content (C' ++ P') q = updated (content (C ++ P) q) pList q
}.

Lemma content_copies g x k q : content ((g ++ [x]) ++ replicate k x) q = content (g ++ [x]) q.
Proof.
  induction k as [|k IH]; [by rewrite app_nil_r|]. rewrite replicate_S_end, app_assoc, content_snoc, IH, content_snoc. by destruct (f_pgno x =? q).
Qed.

(** After the commit. *)
Lemma extended_commit sz native salt c0 hd w s a d nTruncate pList C P fs g pg dn dn' k : head_ok sz native salt c0 hd -> nTruncate <> 0 -> 0 <= minFrame w < 2 ^ 31 ->
  wrote sz (length C) true nTruncate pList (C ++ P) fs dn dn' -> (length C <= length g)%nat -> fs = g ++ [mk_frame (pgno pg) nTruncate (pData pg)] -> last dn' = Some pg ->
  log_rel w s a -> pending a = [] -> log_frames a = map f_pgno (fs ++ copies nTruncate dn' k) -> iReCksum w = 0 -> s_hdr0 s = hdr w ->
  log_writer native salt sz c0 hd w d (fs ++ copies nTruncate dn' k) (length C) -> log_extended sz nTruncate true pList w s d C P (fs ++ copies nTruncate dn' k) [].
Proof.
  intros Hk HnT Hmin [_ Wc Wq _] Hg Ef El Hrel Hp Hlf Hre Hs0 Hw. unfold copies in *. rewrite El in *. set (x := mk_frame _ _ _) in *. set (fs2 := fs ++ replicate k x) in *.
  rewrite take_app_length in Wc. assert (fs2 = (g ++ replicate k x) ++ [x]) as E2 by (unfold fs2; rewrite Ef, <- !app_assoc; f_equal; by rewrite <- replicate_S_end).
  assert ((f_trunc x =? 0) = false) as Hx by (by apply Z.eqb_neq).
  split.
  - split.
    + destruct a as [cm pd]. cbn in Hp. subst pd. unfold log_frames in Hlf. cbn in Hlf. rewrite app_nil_r in Hlf. by rewrite Hlf in Hrel.
    + by rewrite E2, upto_commit_snoc, Hx.
    + constructor.
    + done.
    + right. exists native, salt, c0, hd. rewrite app_nil_r. destruct Hw as [A1 A2 A3 A4 A5 [(B1 & B2 & B3)|(B1 & B2)]]; [|lia].
      split; [done|]. split; [split; try done; by left|]. right. rewrite Hs0. split; [done|]. by split.
  - rewrite <- Wc. trans fs; [apply prefix_take|by apply prefix_app_r].
  - intros _. rewrite E2, !length_app. cbn. lia.
  - split; [done|]. unfold commit_size. by rewrite E2, last_snoc.
  - intros q. rewrite app_nil_r. unfold fs2. rewrite <- Wq, Ef. apply content_copies.
Qed.

(** After frames that are no commit. *)
Lemma extended_pending sz native salt c0 hd w s a d pList C P fs dn dn' : head_ok sz native salt c0 hd -> 0 <= minFrame w < 2 ^ 31 -> upto_commit C = C -> Forall (fun f => f_trunc f = 0) P ->
  wrote sz (length C) false 0 pList (C ++ P) fs dn dn' -> log_rel w s a -> committed a = map f_pgno C -> log_frames a = map f_pgno fs -> live_ok native salt sz c0 s C ->
  log_writer native salt sz c0 hd w d fs (length C) -> exists P', log_extended sz 0 false pList w s d C P C P'.
Proof.
  intros Hk Hmin Hc HP [_ Wc Wq Wt] Hrel Ecm Hlf Hlive Hw. rewrite drop_app_length in Wt. specialize (Wt HP). rewrite take_app_length in Wc. set (P' := drop (length C) fs) in *.
  assert (fs = C ++ P') as Efs by (rewrite <- Wc at 1; by rewrite <- (take_drop (length C) fs) at 1). exists P'. split; [|done|done|done|].
  - split; try done.
    + destruct a as [cm pd]. cbn in Ecm. subst cm. unfold log_frames in Hlf. cbn in Hlf. rewrite Efs, map_app in Hlf. by apply app_inv_head in Hlf as ->.
    + right. exists native, salt, c0, hd. rewrite <- Efs. done.
  - intros q. by rewrite <- Efs, Wq.
Qed.

(** The pages and what follows, in a log that has its header. *)
Lemma pages_finish_ok sz native salt c0 hd ok sectorSize pList nTruncate (isCommit : bool) flags iFirst w s (fd : F) C P :
  head_ok sz native salt c0 hd -> log_writer native salt sz c0 hd w (os_data fd) (C ++ P) (length C) -> log_rel w s (in_index C P) -> upto_commit C = C -> Forall (fun f => f_trunc f = 0) P ->
  0 <= minFrame w < 2 ^ 31 -> live_ok native salt sz c0 s C -> os_ok fd -> pList <> [] -> Forall (page_ok sz) pList -> NoDup (map pgno pList) -> 0 <= nTruncate < 2 ^ 32 ->
  isCommit = negb (nTruncate =? 0) -> 0 < sectorSize <= 65536 -> len (C ++ P) + len pList + sectorSize + 2 < 2 ^ 31 -> iFirst = 0 \/ iFirst = len C + 1 ->
  let p := mk_writer 0 flags sz in let iFrame := mxFrame (hdr w) in
  exists rc w' s' fd', ('(rc, iFrame, iOffset, done, w, s, fd) ← write_pages pList p iFirst nTruncate isCommit iFrame (walFrameOffset (u32 (iFrame + 1)) sz) [] w s fd;
    if negb (rc =? SQLITE_OK) then Done (rc, w, s, fd) else finish_frames ok sectorSize sz nTruncate isCommit flags p iFrame iOffset done w s fd) = Done (rc, w', s', fd') /\ os_ok fd' /\
    conn_of w' = conn_of w /\ s_ckpt s' = s_ckpt s /\ (isCommit && (rc =? SQLITE_OK) = false -> s_hdr0 s' = s_hdr0 s) /\
    (rc <> SQLITE_OK -> log_broken sz w' s' (os_data fd') C) /\
    (rc = SQLITE_OK -> exists C' P', log_extended sz nTruncate isCommit pList w' s' (os_data fd') C P C' P').
Proof.
  intros Hk Hw Hrel Hc HP Hmin Hlive Hok Hne Hpg Hnd HnT HC Hss Hlen HF p iFrame. destruct (head_parts _ _ _ _ _ Hk) as (Hsalt & Hsize & Hc0). pose proof (hk_length _ _ _ _ _ Hk) as Lh.
  unfold iFrame. rewrite (lr_mx _ _ _ Hrel), in_index_frames, length_map, u32_id by lia. destruct (off_frame salt sz hd Hsize (len (C ++ P)) ltac:(lia)) as [-> _].
  assert (writing native salt sz c0 hd w s (os_data fd) (in_index C P) (length C) (C ++ P) (C ++ P) []) as Hwr.
  { split; try done; [apply in_index_frames|rewrite length_app; lia|by rewrite app_nil_r]. }
  destruct (write_pages_ok native salt sz c0 hd Hsalt Hsize Hc0 Lh p iFirst nTruncate isCommit (length C) (C ++ P) (in_index C P) eq_refl HnT HF pList w s fd (C ++ P) [] Hwr Hok Hpg Hnd ltac:(lia))
    as (rc & iF & iO & dn & w1 & s1 & fd1 & -> & Hok1 & [Hrel1 (K1 & K2 & K3 & K4)] & Hcom1 & Hgot). cbn [mbind outcome_bind]. rewrite take_app_length in Hcom1.
  pose proof (lw_size _ _ _ _ _ _ _ _ _ Hw) as Esz.
  destruct (Z.eqb_spec rc SQLITE_OK) as [->|Hrc]; cbn [negb].
  2: { destruct (conn_parts _ _ K2) as [Km _]. exists rc, w1, s1, fd1. split; [done|]. split; [done|]. split; [done|]. split; [done|]. split; [done|]. split; [|done]. intros _. split; [by eexists|done|lia|]. right. split; [lia|]. exists native, salt, c0, hd. split; [done|]. split; [done|].
       unfold live_ok. by rewrite K3. }
  destruct (Hgot eq_refl) as (fs1 & Hwr1 & -> & -> & Hl1 & Hwrote). pose proof Hwrote as [_ Wc _ Wt]. rewrite take_app_length in Wc. rewrite drop_app_length in Wt. specialize (Wt HP).
  destruct (finish_frames_ok native salt sz c0 hd Hsalt Hsize Hc0 Lh ok sectorSize nTruncate isCommit flags p w1 s1 fd1 (in_index C P) (length C) (C ++ P) fs1 dn HnT eq_refl Hss Hwr1 Hok1 ltac:(lia))
    as (rc & w2 & s2 & fd2 & k & a' & -> & Hok2 & Hcom2 & E1 & E2 & Ec2 & Hrel2 & Hk0 & Hbad & Hgood).
  { intros ->. destruct Wt as [|(g & pg & _ & El & Hpg' & _)]; [done|]. by exists pg. }
  assert (conn_of w2 = conn_of w) as E2' by congruence. destruct (conn_parts _ _ E2') as [Km _]. exists rc, w2, s2, fd2. split; [done|]. split; [done|]. rewrite Wc in Hcom2. split; [done|]. split; [congruence|]. split; [|split].
  - intros Hf. destruct (Z.eqb_spec rc SQLITE_OK) as [Hrc|Hrc]; [|destruct (Hbad Hrc); congruence]. destruct (Hgood Hrc) as (_ & _ & Hrest). destruct isCommit; [done|]. destruct Hrest; congruence.
  - intros Hrc. destruct (Hbad Hrc) as [-> E0]. split; [by eexists|done|lia|]. right. split; [done|]. exists native, salt, c0, hd. split; [done|]. split; [done|]. unfold live_ok. by rewrite E0, K3.
  - intros Hrc. destruct (Hgood Hrc) as (Hw2 & Hlf & Hrest). destruct isCommit.
    + destruct Wt as [|(g & pg & Ef & El & _ & Hg & _)]; [done|]. destruct Hrest as (Hp & Hre & E0). apply eq_sym, negb_true_iff, Z.eqb_neq in HC. eexists _, _.
      eapply (extended_commit sz native salt c0 hd w2 s2 a'); try done. lia.
    + destruct Hrest as (Ecm & E0). apply eq_sym, negb_false_iff, Z.eqb_eq in HC. subst nTruncate. rewrite (Hk0 eq_refl) in *.
      assert (copies 0 dn 0 = []) as Ecp by (unfold copies; by destruct (last dn)). rewrite Ecp, app_nil_r in *. exists C.
      eapply (extended_pending sz native salt c0 hd w2 s2 a'); try done; [lia|]. unfold live_ok. by rewrite E0, K3.
Qed.

Lemma write_frames_ok salt0 ok sectorSize sz pList nTruncate (isCommit : bool) flags iFirst w s (fd : F) C P :
  log_state sz w s (os_data fd) C P -> os_ok fd -> wal_page_size sz -> len salt0 = 8 /\ bytes_ok salt0 -> pList <> [] -> Forall (page_ok sz) pList -> NoDup (map pgno pList) -> 0 <= nTruncate < 2 ^ 32 ->
  isCommit = negb (nTruncate =? 0) -> 0 < sectorSize <= 65536 -> len (C ++ P) + len pList + sectorSize + 2 < 2 ^ 31 -> iFirst = 0 \/ iFirst = len C + 1 ->
  exists rc w' s' fd', write_frames salt0 ok sectorSize sz pList nTruncate isCommit flags iFirst w s fd = Done (rc, w', s', fd') /\ os_ok fd' /\
    conn_of w' = conn_of w /\ s_ckpt s' = s_ckpt s /\ (isCommit && (rc =? SQLITE_OK) = false -> s_hdr0 s' = s_hdr0 s) /\
    (rc <> SQLITE_OK -> log_broken sz w' s' (os_data fd') C) /\
    (rc = SQLITE_OK -> exists C' P', log_extended sz nTruncate isCommit pList w' s' (os_data fd') C P C' P').
Proof.
  intros [Hrel Hc HP Hmin Hlog] Hok Hsz Hs0 Hne Hpg Hnd HnT HC Hss Hlen HF. unfold write_frames. pose proof (lr_mx _ _ _ Hrel) as Hmx. rewrite in_index_frames, length_map in Hmx.
  destruct (Z.eqb_spec (mxFrame (hdr w)) 0) as [E0|N0].
  - assert (C = [] /\ P = []) as [-> ->] by (apply app_nil; destruct (C ++ P); [done|cbn in Hmx; lia]).
    assert (iReCksum w = 0) as Hre.
    { destruct Hlog as [(_ & _ & ?)|(native & salt & c0 & hd & _ & Hw & _)]; [done|]. destruct (lw_sum _ _ _ _ _ _ _ _ _ Hw) as [(? & _)|(? & _)]; [done|cbn in *; lia]. }
    destruct (begin_log_ok salt0 sz flags w s fd Hsz Hs0 Hrel Hre Hok) as (rc & w1 & fd1 & -> & Hok1 & Hrel1 & Ez1 & Em1 & Hgot). cbn [mbind outcome_bind].
    destruct (Z.eqb_spec rc SQLITE_OK) as [->|Hrc]; cbn [negb].
    2: { destruct (conn_parts _ _ Em1) as [Km _]. exists rc, w1, s, fd1. split; [done|]. split; [done|]. split; [done|]. split; [done|]. split; [done|]. split; [|done]. intros _. split; [by eexists|done|lia|by left]. }
    destruct (Hgot eq_refl) as (salt & c0 & hd & Hk & Hw1). pose proof (lr_mx _ _ _ Hrel1) as E1. change (mxFrame (hdr w1) = 0) in E1. replace (mxFrame (hdr w)) with (mxFrame (hdr w1)) by lia.
    rewrite <- Em1. apply conn_parts in Em1 as [Em1 _]. eapply (pages_finish_ok sz true salt c0 hd ok sectorSize pList nTruncate isCommit flags iFirst w1 s fd1 [] []); try done; [lia|by left].
  - destruct Hlog as [(-> & -> & _)|(native & salt & c0 & hd & Hk & Hw & Hlive)]; [cbn in Hmx; lia|]. cbn [mbind outcome_bind]. change (negb (SQLITE_OK =? SQLITE_OK)) with false. cbv iota.
    by eapply (pages_finish_ok sz native salt c0 hd ok sectorSize pList nTruncate isCommit flags iFirst w s fd C P).
Qed.

(** ** The whole function *)

Context {L : Type} `{ShmLocks L}.

(** What a call does to the state. *)
Lemma sqlite3WalFrames_ok unreliable walBeginShmUnreliable aPrivate salt0 salt1 ok sectorSize sz pList nTruncate (isCommit : bool) flags w s (fd : F) (l : L) C P :
  log_state sz w s (os_data fd) C P -> os_ok fd -> readLock w <> 0 -> wal_page_size sz -> len salt0 = 8 /\ bytes_ok salt0 ->
  pList <> [] -> Forall (page_ok sz) pList -> NoDup (map pgno pList) -> 0 <= nTruncate < 2 ^ 32 -> isCommit = negb (nTruncate =? 0) ->
  0 < sectorSize <= 65536 -> len (C ++ P) + len pList + sectorSize + 2 < 2 ^ 31 ->
  exists rc w' s' fd', sqlite3WalFrames unreliable walBeginShmUnreliable aPrivate salt0 salt1 ok sectorSize sz pList nTruncate isCommit flags w s fd l = Done (rc, w', s', fd', l) /\ os_ok fd' /\
    conn_of w' = conn_of w /\ s_ckpt s' = s_ckpt s /\ (isCommit && (rc =? SQLITE_OK) = false -> s_hdr0 s' = s_hdr0 s) /\
    (rc <> SQLITE_OK -> log_broken sz w' s' (os_data fd') C) /\
    (rc = SQLITE_OK -> exists C' P', log_extended sz nTruncate isCommit pList w' s' (os_data fd') C P C' P').
Proof.
  intros Hst Hok Hrd Hsz Hs0 Hne Hpg Hnd HnT HC Hss Hlen. pose proof (ls_index _ _ _ _ _ _ Hst) as Hrel. unfold sqlite3WalFrames, first_rewritable, walIndexHdr.
  rewrite bool_decide_eq_true_2 by apply Hrel. cbn [mbind outcome_bind]. set (iFirst := if negb (bool_decide (hdr w = s_hdr0 s)) then u32 (mxFrame (s_hdr0 s) + 1) else 0).
  assert (iFirst = 0 \/ iFirst = len C + 1) as HF.
  { unfold iFirst. destruct (negb (bool_decide (hdr w = s_hdr0 s))); [right|by left]. rewrite (lr_committed _ _ _ Hrel). cbn [committed in_index]. rewrite length_map. rewrite length_app in Hlen. apply u32_id. lia. }
  unfold walRestartLog. rewrite (proj2 (Z.eqb_neq _ _) Hrd). cbn [negb mbind outcome_bind]. change (negb (SQLITE_OK =? SQLITE_OK)) with false. cbv iota.
  destruct (write_frames_ok salt0 ok sectorSize sz pList nTruncate isCommit flags iFirst w s fd C P Hst Hok Hsz Hs0 Hne Hpg Hnd HnT HC Hss Hlen HF) as (rc & w' & s' & fd' & -> & Hrest).
  cbn [mbind outcome_bind]. by exists rc, w', s', fd'.
Qed.

(** C10. What has been committed stays, and what is committed now can be found.  A connection
    in a write transaction, with the frames [C] of the committed transactions and [P] of its
    own in the log, writes the pages [pList] with [sqlite3WalFrames]; the log is not to be
    restarted ([readLock] is not 0), and the connection's [iReCksum] is 0 or the number of a frame
    of [P] ([log_state], [log_writer]).  So it is when a transaction begins, since
    the end of the one before resets it, and a successful [sqlite3WalFrames] leaves it so; it is not
    so when [sqlite3WalSavepointUndo] has taken back the frame it names, and then a commit that answers SQLITE_OK can be lost
    ([savepoint_undo_loses_commit]).  Whichever call on the file fails, and however much of a write
    was done: the function is defined, and a recovery still finds the frames [C] as committed; if the
    answer is an error, [sqlite3WalUndo] and the end of the transaction make the connection
    again one with the frames [C] and none of its own.  If it is SQLITE_OK, a recovery finds
    the committed frames [C']: after a commit these are all frames, with the pages of the
    transaction ([P] and [pList], of which some have overwritten frames of [P]) and the size
    of the database [nTruncate], and otherwise still [C]; a page then has the content that
    [pList] gives it, or else the one it had. *)
Theorem commits_durable unreliable walBeginShmUnreliable aPrivate salt0 salt1 ok sectorSize sz pList nTruncate (isCommit : bool) flags w s (fd : F) (l : L) C P :
  log_state sz w s (os_data fd) C P -> os_ok fd -> readLock w <> 0 -> wal_page_size sz -> len salt0 = 8 /\ bytes_ok salt0 ->
  pList <> [] -> Forall (page_ok sz) pList -> NoDup (map pgno pList) -> 0 <= nTruncate < 2 ^ 32 -> isCommit = negb (nTruncate =? 0) ->
  0 < sectorSize <= 65536 -> len (C ++ P) + len pList + sectorSize + 2 < 2 ^ 31 ->
  exists rc w' s' fd', sqlite3WalFrames unreliable walBeginShmUnreliable aPrivate salt0 salt1 ok sectorSize sz pList nTruncate isCommit flags w s fd l = Done (rc, w', s', fd', l) /\ os_ok fd' /\
    C `prefix_of` upto_commit (log_frames_of (os_data fd')) /\
    (rc <> SQLITE_OK -> exists called w2 s2, sqlite3WalUndo w' (fun _ => SQLITE_OK) s' = Done (SQLITE_OK, called, w2, s2) /\ log_state sz (with_recksum w2 0) s2 (os_data fd') C []) /\
    (rc = SQLITE_OK -> exists C' P', log_state sz w' s' (os_data fd') C' P' /\ C `prefix_of` C' /\ C' `prefix_of` upto_commit (log_frames_of (os_data fd')) /\
       (if isCommit then P' = [] /\ commit_size C' = nTruncate else C' = C) /\ forall q, content (C' ++ P') q = updated (content (C ++ P) q) pList q).
Proof.
  intros Hst Hok Hrd Hsz Hs0 Hne Hpg Hnd HnT HC Hss Hlen.
  destruct (sqlite3WalFrames_ok unreliable walBeginShmUnreliable aPrivate salt0 salt1 ok sectorSize sz pList nTruncate isCommit flags w s fd l C P Hst Hok Hrd Hsz Hs0 Hne Hpg Hnd HnT HC Hss Hlen)
    as (rc & w' & s' & fd' & E & Hok' & _ & _ & _ & Hbad & Hgood). exists rc, w', s', fd'. split; [exact E|]. split; [exact Hok'|]. destruct (decide (rc = SQLITE_OK)) as [Hrc|Hrc].
  - destruct (Hgood Hrc) as (C' & P' & [Hst' Hpre _ Hcm Hq]). pose proof (broken_found _ _ _ _ _ (state_broken _ _ _ _ _ _ Hst')) as Hfound.
    split; [etrans; [exact Hpre|exact Hfound]|]. split; [done|]. intros _. by exists C', P'.
  - pose proof (Hbad Hrc) as Hb. split; [by eapply broken_found|]. split; [|done]. intros _. destruct (rollback_ok _ _ _ _ _ Hb) as (called & w2 & s2 & E2 & Hst2 & _). by exists called, w2, s2.
Qed.
End commit.

(** ** Crashes *)

Lemma upto_commit_twice fs : upto_commit (upto_commit fs) = upto_commit fs.
Proof.
  induction fs as [|f fs IH]; [done|]. cbn [upto_commit]. destruct (upto_commit fs) as [|g l]; [|cbn [upto_commit] in *; by rewrite IH].
  destruct (f_trunc f =? 0) eqn:E; [done|]. cbn. by rewrite E.
Qed.

(** After a recovery a connection can write. *)
Lemma recovered_state w s d : bytes_ok d -> log_rel w s (in_index (upto_commit (log_frames_of d)) []) -> aFrameCksum (hdr w) = last_cksum d -> s_hdr0 s = hdr w -> same_log w d ->
  iReCksum w = 0 -> 0 <= minFrame w < 2 ^ 31 ->
  exists sz, log_state sz w s d (upto_commit (log_frames_of d)) [] /\ forall native salt sz' c0, log_header d = Some (native, salt, sz', c0) -> sz' = sz.
Proof.
  intros Hd Hrel Hck Hs0 Hsame Hre Hmin. pose proof (upto_commit_twice (log_frames_of d)) as Htw. unfold same_log in Hsame. destruct (log_header d) as [[[[native salt] sz] c0]|] eqn:Eh.
  2: { assert (log_frames_of d = []) as E by (unfold log_frames_of; by rewrite Eh). rewrite E in *. exists 0. split; [|done]. split; try done. by left. }
  exists sz. split; [|by intros ? ? ? ? [= _ _ -> _]]. destruct Hsame as (E1 & E2 & E3). destruct (log_file_of _ _ _ _ _ Hd Eh) as (hd & Hk & Hl). destruct (head_parts _ _ _ _ _ Hk) as (Hsalt & Hsize & Hc0).
  set (fs := log_frames_of d) in *. destruct (decide (upto_commit fs = [])) as [E|Hne]; [rewrite E in *; split; try done; by left|].
  assert (aFrameCksum (hdr w) = log_cksum native sz c0 (upto_commit fs)) as Ec by (rewrite Hck; unfold last_cksum; fold fs; rewrite Eh; by destruct (upto_commit fs)).
  split; try done. right. exists native, salt, c0, hd. split; [done|]. rewrite app_nil_r. split; [|right; rewrite Hs0; by split_and!].
  split; try done; [split; [by rewrite E3|by rewrite E2|rewrite Ec; by apply log_cksum_range]|]. left. split; [done|]. split; [done|].
  destruct (upto_commit_take fs) as (n & En & Hn). rewrite En. rewrite length_take, Nat.min_l by done. by eapply log_file_take.
Qed.

Section crash.
Context {F L : Type} `{OsFileLaws F} `{ShmLocksLaws L}.

(** C11. A crash loses no commit whose frames have right checksums in the log.  A writer stops with the
    committed frames [C] in the log, under right checksums ([log_broken]): so it is in every
    state that [commits_durable] is about, between two calls or after one that failed in the
    midst of a transaction, but not after a commit that has followed a [sqlite3WalSavepointUndo] of
    the frame that [iReCksum] names ([savepoint_undo_loses_commit]).  What it has written is in the
    file, less than 2^40 bytes, with a header that is not the one of [recover_header_overflow].
    Whatever is in the shared memory then, another connection, ready to recover ([recover_start]:
    it has the write lock, the index mapped, and none of the locks recovery takes), finds the
    frames [C] first; when the answer is SQLITE_OK it is a connection that can write, with these
    frames and those of later commits of the log as the committed ones, none of a transaction
    that was not committed, and the page size of the log.  The answer is SQLITE_OK when no call
    fails, there is memory, nobody else uses the locks, and the version in a valid header of the
    log is WAL_MAX_VERSION ([recover_fine]). *)
Theorem crash_keeps_commits sz w0 s0 (fd : F) C aPrivate w s (l : L) : log_broken sz w0 s0 (os_data fd) C -> recover_start aPrivate w s fd l -> iReCksum w = 0 -> 0 <= minFrame w < 2 ^ 31 ->
  exists rc w' s' fd' l', walIndexRecover aPrivate w s fd l = Done (rc, w', s', fd', l') /\ os_data fd' = os_data fd /\
    (rc = SQLITE_OK -> exists sz' C', log_state sz' w' s' (os_data fd') C' [] /\ C `prefix_of` C' /\ (C <> [] -> sz' = sz) /\ nPage (hdr w') = commit_size C') /\
    (recover_fine aPrivate w fd l -> rc = SQLITE_OK).
Proof.
  intros Hb Hs Hre Hmin. pose proof (os_bytes _ (rs_file _ _ _ _ _ Hs)) as Hd. destruct (walIndexRecover_ok aPrivate w s fd l Hs) as (rc & w' & s' & fd' & l' & E & Ed & Hr & _ & _ & Hfine).
  exists rc, w', s', fd', l'. split; [exact E|]. split; [exact Ed|]. split; [|exact Hfine]. intros Hrc. rewrite Ed. destruct (Hr Hrc) as (R1 & _ & R3 & R4 & (R5 & _) & R6 & R7 & R8).
  destruct (recovered_state w' s' (os_data fd) Hd R1 R4 R5 R6) as (sz' & Hst & Hsz); [congruence|lia|]. exists sz', (upto_commit (log_frames_of (os_data fd))). split; [exact Hst|]. split; [by eapply broken_found|]. split; [|exact R3].
  intros Hne. destruct Hb as [_ _ _ [?|(_ & native & salt & c0 & hd & Hk & Hl & _)]]; [done|]. symmetry. apply (Hsz native salt sz c0). apply (head_header _ _ _ _ _ _ Hk (lf_head _ _ _ _ _ _ _ _ Hl)).
  destruct (head_parts _ _ _ _ _ Hk) as (Hsalt & Hsize & Hc0). pose proof (log_end _ _ _ _ _ Hsize (hk_length _ _ _ _ _ Hk) _ _ _ Hl ltac:(lia)) as Hend. destruct Hsize as [Hs1 _]. unfold off in Hend.
  assert (0 < len C) by (destruct C; [done|cbn; lia]). nia.
Qed.
End crash.

(** ** A concrete run *)

(** Nothing is in the log yet. *)
Lemma wal0_log_state : log_state 512 (wal0 0 true) shm0 [] [] [].
Proof.
  split; [|done|constructor|cbn; lia|by left]. exact (wal_reach_rel _ _ _ (wr_start _ _ wal0_start)).
Qed.

Definition page_of (b : Z) : bytes := replicate 512 b.
Definition two_pages : list PgHdr := [mk_page 7 (page_of 1); mk_page 9 (page_of 2)].

Lemma two_pages_ok : Forall (page_ok 512) two_pages.
Proof. repeat constructor; cbn [pgno pData two_pages]; try lia; apply Forall_replicate; unfold is_byte; lia. Qed.

Lemma commits_durable_witness : log_state 512 (wal0 0 true) shm0 [] [] [] /\
  exists w' s' fd' C', sqlite3WalFrames (fun _ _ _ _ _ _ => UB) (fun _ _ _ _ _ => UB) None (replicate 8 5) [] true 512 512 two_pages 9 true 2 (wal0 0 true) shm0 (mk_file [] []) empty_table = Done (SQLITE_OK, w', s', fd', empty_table) /\
    C' `prefix_of` upto_commit (log_frames_of (os_data fd')) /\ commit_size C' = 9 /\ content C' 7 = Some (page_of 1).
Proof.
  split; [exact wal0_log_state|].
  destruct (commits_durable (H := FaultyFile_OsFile) (fun _ _ _ _ _ _ => UB) (fun _ _ _ _ _ => UB) None (replicate 8 5) [] true 512 512 two_pages 9 true 2 (wal0 0 true) shm0 (mk_file [] []) empty_table [] [] wal0_log_state)
    as (rc & w' & s' & fd' & E & _ & _ & _ & Hgot).
  - constructor.
  - discriminate.
  - split; [lia|reflexivity].
  - split; [reflexivity|]. repeat constructor; lia.
  - discriminate.
  - exact two_pages_ok.
  - repeat constructor; set_solver.
  - lia.
  - reflexivity.
  - lia.
  - cbn. lia.
  - assert (rc = SQLITE_OK) as ->.
    { enough (match sqlite3WalFrames (F := FaultyFile) (fun _ _ _ _ _ _ => UB) (fun _ _ _ _ _ => UB) None (replicate 8 5) [] true 512 512 two_pages 9 true 2 (wal0 0 true) shm0 (mk_file [] []) empty_table with Done (rc, _, _, _, _) => rc =? SQLITE_OK | _ => false end = true) as G
        by (rewrite E in G; by apply Z.eqb_eq). vm_compute. reflexivity. }
    destruct (Hgot eq_refl) as (C' & P' & _ & _ & Hf & [-> Hs] & Hq). exists w', s', fd', C'. split; [exact E|]. split; [exact Hf|]. split; [exact Hs|].
    specialize (Hq 7). rewrite app_nil_r in Hq. exact Hq.
Defined.

(** ** A rollback to a savepoint *)

(** The frames of a call, in the log of pages of 512 bytes. *)
Definition spill (pList : list PgHdr) (nTruncate : Z) (r : Z * Wal * Shm * FaultyFile) : outcome (Z * Wal * Shm * FaultyFile) :=
  let '(_, w, s, fd) := r in
  '(rc, w, s, fd, _) ← sqlite3WalFrames (fun _ _ _ _ _ _ => UB) (fun _ _ _ _ _ => UB) None (replicate 8 5) [] true 512 512 pList nTruncate (negb (nTruncate =? 0)) 0 w s fd empty_table;
  Done (rc, w, s, fd).

(** Page 3; a savepoint; the pages 5 and 7, and page 7 again, in its frame; back to the
    savepoint; a commit of page 9.  [back] is what the rollback leaves in [iReCksum]. *)
Definition savepoint_run (back : Z -> Z -> Z) : outcome (Z * Wal * Shm * FaultyFile) :=
  r ← spill [mk_page 3 (page_of 1)] 0 (SQLITE_OK, wal0 0 true, shm0, mk_file [] []);
  let sp := sqlite3WalSavepoint (snd (fst (fst r))) in
  r ← spill [mk_page 5 (page_of 2); mk_page 7 (page_of 3)] 0 r;
  '(_, w, s, fd) ← spill [mk_page 7 (page_of 4)] 0 r;
  '(rc, _, w, s) ← sqlite3WalSavepointUndo w sp s;
  spill [mk_page 9 (page_of 5)] 9 (rc, with_recksum w (back (iReCksum w) (mxFrame (hdr w))), s, fd).

(** The code keeps the number of a frame that the rollback has taken away.  The frames that
    follow are written without checksums, and the repair before the commit begins behind
    them: the commit answers SQLITE_OK, the index has two frames, and a recovery finds no
    commit.  Resetting a number behind the last frame, the commit is found. *)
Lemma savepoint_undo_loses_commit :
  (exists w s fd, savepoint_run (fun r _ => r) = Done (SQLITE_OK, w, s, fd) /\ mxFrame (hdr w) = 2 /\ upto_commit (log_frames_of (os_data fd)) = []) /\
  (exists w s fd, savepoint_run (fun r mx => if mx <? r then 0 else r) = Done (SQLITE_OK, w, s, fd) /\ mxFrame (hdr w) = 2 /\ map f_pgno (upto_commit (log_frames_of (os_data fd))) = [3; 9]).
Proof.
  assert (forall back n k, (match savepoint_run back with Done (rc, w, s, fd) => (rc =? SQLITE_OK) && (mxFrame (hdr w) =? n) && bool_decide (map f_pgno (upto_commit (log_frames_of (os_data fd))) = k) | _ => false end) = true ->
    exists w s fd, savepoint_run back = Done (SQLITE_OK, w, s, fd) /\ mxFrame (hdr w) = n /\ map f_pgno (upto_commit (log_frames_of (os_data fd))) = k) as Hrun.
  { intros back n k. destruct (savepoint_run back) as [[[[rc w] s] fd]| |]; try done. intros G. apply andb_true_iff in G as [G E3%bool_decide_eq_true]. apply andb_true_iff in G as [->%Z.eqb_eq E2%Z.eqb_eq]. by exists w, s, fd. }
  split; [|apply Hrun; vm_compute; reflexivity].
  destruct (Hrun (fun r _ => r) 2 []) as (w & s & fd & E & Hm & Hf); [vm_compute; reflexivity|]. exists w, s, fd. split; [exact E|]. split; [exact Hm|]. by apply map_eq_nil in Hf.
Qed.

(** A writer with the log of WalRecover; then another connection recovers it. *)
Lemma crash_keeps_commits_witness : exists sz w0 s0 C w' s' fd' l', log_broken sz w0 s0 sample_log C /\ map f_pgno C = [5; 9] /\
  walIndexRecover (Some sample_page) (wal0 0 true) shm0 (mk_file sample_log []) sample_locks = Done (SQLITE_OK, w', s', fd', l') /\
  exists C', log_state sz w' s' sample_log C' [] /\ C `prefix_of` C'.
Proof.
  pose proof (os_bytes _ (rs_file _ _ _ _ _ sample_start)) as Hd.
  destruct (walIndexRecover_ok _ _ _ _ _ sample_start) as (rc & w0 & s0 & fd0 & l0 & _ & _ & Hr & _ & _ & Hf). destruct (Hr (Hf sample_fine)) as (R1 & _ & _ & R4 & (R5 & _) & R6 & R7 & R8).
  destruct (recovered_state w0 s0 sample_log Hd R1 R4 R5 R6 R7) as (sz & Hst & _); [rewrite R8; cbn; lia|]. pose proof (state_broken _ _ _ _ _ _ Hst) as Hb. set (C := upto_commit (log_frames_of sample_log)) in *.
  assert (map f_pgno C = [5; 9]) as EC by (vm_compute; reflexivity). clearbody C.
  destruct (crash_keeps_commits (H := FaultyFile_OsFile) sz w0 s0 (mk_file sample_log []) C (Some sample_page) (wal0 0 true) shm0 sample_locks Hb sample_start eq_refl) as (rc1 & w' & s' & fd' & l' & E & Ed & Hgot & Hfine); [cbn; lia|].
  specialize (Hfine sample_fine). subst rc1. destruct (Hgot eq_refl) as (sz' & C' & Hst' & Hpre & Hsz & _).
  exists sz, w0, s0, C, w', s', fd', l'. split; [exact Hb|]. split; [exact EC|]. split; [exact E|]. exists C'. rewrite Ed in Hst'. rewrite Hsz in Hst'; [split; [exact Hst'|exact Hpre]|]. intros EN. rewrite EN in EC. discriminate EC.
Defined.
