(* ===== verification/WalReader.v ===== *)
(** * WalReader: the begin of a read transaction

    [sqlite3WalBeginReadTransaction] of WalRead, for a connection that finds a good header in
    the shared memory: how it chooses a mark, what it holds when the answer is SQLITE_OK
    ([reading]), and that nothing is left behind otherwise. *)

From S2P Require Import Prelude Varint CType ByteMem OsFile WalCksum WalIndex WalFrame WalLock WalIndexRefine WalRecover WalRead WalBackfill.

(** ** Shared locks *)

Section locks.
Context {L : Type} `{ShmLocksLaws L}.

(** A shared lock has been taken. *)
Definition locked_shared (w : Wal) (l l' : L) (i : Z) : Prop :=
  locks_ok w l' /\ locks_fine w l' /\ lk_same_but l l' (pDbFd w) i 1 /\ (exclusiveMode w = 0 -> lk_holds l' (pDbFd w) i = Some false).

Lemma walLockShared_ok w i (l : L) : locks_ok w l -> locks_fine w l -> 0 <= i < SQLITE_SHM_NLOCK -> locks_free w l i 1 ->
  exists rc l', walLockShared w i l = (rc, l') /\
    (rc = SQLITE_OK /\ locked_shared w l l' i \/ rc = SQLITE_BUSY /\ calm w l l' /\ exclusiveMode w = 0 /\ exists c, c <> pDbFd w /\ lk_holds l c i = Some true).
Proof.
  intros Hok Hf Hi Hfree. unfold walLockShared. destruct (Z.eqb_spec (exclusiveMode w) 0) as [E|E]; cbn [negb].
  2: { exists SQLITE_OK, l. split; [done|]. left. by split_and!. }
  destruct (Hok E) as [Hl Ho]. destruct (lk_shared l (pDbFd w) i Hl Ho Hi) as (rc & l' & -> & Hl' & Ho' & Hf' & Hres); [apply Hfree; [done|lia]|].
  assert (locks_ok w l' /\ locks_fine w l') as [Hok' Hfi'] by (split; [intros _; split; [done|by apply Ho']|intros _; by apply Hf', Hf]).
  exists rc, l'. split; [done|]. destruct (Z.eqb_spec rc SQLITE_OK) as [->|Hrc].
  - left. destruct Hres as (R1 & _ & R3). by split_and!.
  - right. destruct Hres as [R1 R2]. destruct (R2 (Hf E)) as [-> Hc]. by split_and!.
Qed.

(** Given back, nothing has changed. *)
Lemma walUnlockShared_ok w i (l l' : L) : locks_free w l i 1 -> 0 <= i < SQLITE_SHM_NLOCK -> locked_shared w l l' i -> (exclusiveMode w <> 0 -> l' = l) -> calm w l (walUnlockShared w i l').
Proof.
  intros Hfree Hi (Hok & Hf & Hs & Hh) He. unfold walUnlockShared. destruct (Z.eqb_spec (exclusiveMode w) 0) as [E|E]; cbn [negb]; [|rewrite He in * by done; by split_and!].
  destruct (Hok E) as [Hl Ho]. destruct (lk_unlock_shared l' (pDbFd w) i Hl Ho Hi (Hh E)) as (rc & l2 & -> & Hl2 & Ho2 & Hf2 & Hres). cbn [snd]. destruct (Hf2 (Hf E)) as [Hf3 ->]. cbn in Hres. destruct Hres as [R1 R2].
  split; [intros _; split; [done|by apply Ho2]|]. split; [by intros _|]. eapply lock_unlock_same; [done|done|exact Hs|exact R2|]. intros _ j Hj. by replace j with i by lia.
Qed.

(** An exclusive lock on one slot for a moment; when it is refused, somebody uses the slot. *)
Lemma slot_lock_ok w i (l : L) : locks_ok w l -> locks_fine w l -> 0 <= i < SQLITE_SHM_NLOCK -> locks_free w l i 1 ->
  exists rc l', walLockExclusive w i 1 l = (rc, l') /\
    (rc = SQLITE_OK /\ locks_unused w l i 1 /\ calm w l (walUnlockExclusive w i 1 l') \/ rc = SQLITE_BUSY /\ other_holds w l i /\ calm w l l').
Proof.
  intros Hok Hf Hi Hfree. destruct (lock_unlock_calm w i 1 l Hok Hf) as (rc & l' & E & [Hres|(-> & Hnu & Hc)]); [lia|lia|lia|done|by exists rc, l'; split; [|left]|].
  exists SQLITE_BUSY, l'. split; [done|]. right. split; [done|]. split; [|done].
  unfold walLockExclusive in E. destruct (Z.eqb_spec (exclusiveMode w) 0) as [Ex|Ex]; cbn [negb] in E; [|done].
  destruct (Hok Ex) as [Hl Ho]. destruct (lk_exclusive l (pDbFd w) i 1 Hl Ho) as (rc1 & l1 & E1 & _ & _ & _ & Hres); [lia|lia|lia|by apply Hfree|].
  rewrite E1 in E. injection E as -> ->. cbn in Hres. destruct Hres as [_ R]. destruct (R (Hf Ex)) as (_ & c & j & Hj & Hc2 & Hh). split; [done|]. exists c. by replace i with j by lia.
Qed.
End locks.

(** ** The marks *)

Lemma best_mark_ok marks mx n : forall i m0 j0, len marks = WAL_NREADER -> 0 <= i -> i + Z.of_nat n = WAL_NREADER ->
  exists m j, best_mark n i marks mx m0 j0 = Done (m, j) /\ (m = m0 /\ j = j0 \/ i <= j < WAL_NREADER /\ marks.[j] = m /\ m <= mx) /\ m0 <= m /\
    (forall k, i <= k < WAL_NREADER -> marks.[k] <= mx -> marks.[k] <= m \/ m < m0) /\ ((exists k, i <= k < WAL_NREADER /\ m0 <= marks.[k] <= mx) -> i <= j < WAL_NREADER).
Proof.
  induction n as [|n IH]; intros i m0 j0 Hl Hi Hn; cbn [best_mark].
  { exists m0, j0. split; [done|]. split; [by left|]. split; [lia|]. split; [lia|]. intros (k & ? & _). lia. }
  rewrite (rd_ok marks i) by lia. cbn [mbind outcome_bind]. fold (marks.[i]).
  destruct ((m0 <=? marks.[i]) && (marks.[i] <=? mx)) eqn:E.
  - apply andb_true_iff in E as [E1%Z.leb_le E2%Z.leb_le]. destruct (IH (i + 1) marks.[i] i Hl ltac:(lia) ltac:(lia)) as (m & j & -> & H1 & H2 & H3 & H4). exists m, j. split; [done|]. split; [|split; [lia|split]].
    + right. destruct H1 as [[-> ->]|(? & ? & ?)]; [lia|]. split; [lia|done].
    + intros k Hk Hmx. destruct (decide (k = i)) as [->|]; [lia|]. destruct (H3 k ltac:(lia) Hmx); lia.
    + intros _. destruct H1 as [[_ ->]|(? & _)]; lia.
  - destruct (IH (i + 1) m0 j0 Hl ltac:(lia) ltac:(lia)) as (m & j & -> & H1 & H2 & H3 & H4). exists m, j. split; [done|]. split; [|split; [lia|split]].
    + destruct H1 as [[-> ->]|(? & ? & ?)]; [by left|right; split; [lia|done]].
    + intros k Hk Hmx. destruct (decide (k = i)) as [->|]; [|apply H3; lia]. destruct (Z.leb_spec m0 marks.[i]); [|lia]. rewrite (proj2 (Z.leb_le _ _)) in E by done. done.
    + intros (k & Hk & Hm). destruct (decide (k = i)) as [->|]; [rewrite !(proj2 (Z.leb_le _ _)) in E by lia; done|]. assert (i + 1 <= j < WAL_NREADER) by (apply H4; exists k; lia). lia.
Qed.

Section begin.
Context {F L : Type} `{OsFileLaws F} `{ShmLocksLaws L}.

(** The marks in use keep their values. *)
Definition marks_kept (w : Wal) (l : L) (marks marks' : list Z) : Prop := len marks' = WAL_NREADER /\ Forall (Z.le 0) marks' /\
  marks'.[0] = marks.[0] /\ forall j, 1 <= j < WAL_NREADER -> other_holds w l (WAL_READ_LOCK j) -> marks'.[j] = marks.[j].

Lemma set_mark_ok w marks mx n : forall i rc m0 j0 l, len marks = WAL_NREADER -> Forall (Z.le 0) marks -> 0 <= mx -> 1 <= i -> i + Z.of_nat n = WAL_NREADER ->
  locks_ok w l -> locks_fine w l -> locks_free w l (WAL_READ_LOCK 0) WAL_NREADER ->
  exists rc' marks' m j l', set_mark n i rc w marks mx m0 j0 l = (rc', false, marks', m, j, l') /\ calm w l l' /\ marks_kept w l marks marks' /\
    (rc' = SQLITE_OK /\ i <= j < WAL_NREADER /\ marks'.[j] = mx /\ m = mx \/
     marks' = marks /\ m = m0 /\ j = j0 /\ (forall k, i <= k < WAL_NREADER -> other_holds w l (WAL_READ_LOCK k)) /\ (rc' = SQLITE_BUSY \/ rc' = rc)).
Proof.
  induction n as [|n IH]; intros i rc m0 j0 l Hl Hp Hmx Hi Hn Hlo Hlf Hfree; cbn [set_mark].
  { exists rc, marks, m0, j0, l. split; [done|]. split; [by apply calm_refl|]. split; [by split|]. right. do 3 (split; [done|]). split; [lia|by right]. }
  assert (locks_free w l (WAL_READ_LOCK i) 1) as Hf1 by (intros E j Hj; apply Hfree; [done|unfold WAL_READ_LOCK, WAL_NREADER in *; lia]).
  destruct (slot_lock_ok w (WAL_READ_LOCK i) l Hlo Hlf) as (rc1 & l1 & -> & [(-> & Hu & Hc)|(-> & Ho & Hc)]); [unfold WAL_READ_LOCK, WAL_NREADER, SQLITE_SHM_NLOCK in *; lia|done| |].
  - cbn [Z.eqb SQLITE_OK]. eexists SQLITE_OK, _, mx, i, _. split; [done|]. split; [done|]. split.
    + split; [by rewrite length_insert|]. split; [by apply Forall_insert|]. split; [unfold ld; rewrite !nth_lookup, list_lookup_insert_ne by lia; done|].
      intros j Hj Ho. unfold ld. rewrite !nth_lookup. destruct (decide (j = i)) as [->|]; [|by rewrite list_lookup_insert_ne by lia].
      destruct (other_holds_used w l (WAL_READ_LOCK i) 1 (WAL_READ_LOCK i) Ho); [lia|done].
    + left. split; [done|]. split; [lia|]. split; [|done]. unfold ld. rewrite nth_lookup, list_lookup_insert_eq by lia. done.
  - cbn [Z.eqb SQLITE_OK SQLITE_BUSY Pos.eqb negb]. destruct (IH (i + 1) SQLITE_BUSY m0 j0 l1 Hl Hp Hmx ltac:(lia) ltac:(lia)) as (rc' & marks' & m & j & l' & -> & Hc2 & Hk & Hres); [apply Hc|apply Hc|by apply (calm_free w l l1)|].
    exists rc', marks', m, j, l'. split; [done|]. split; [by eapply calm_trans|]. split.
    + destruct Hk as (K1 & K2 & K3 & K4). split_and!; try done. intros k Hk Hok. apply K4; [done|]. by apply (other_holds_calm w l l1).
    + destruct Hres as [(-> & R1 & R2 & R3)|(-> & -> & -> & R1 & R2)]; [left; split_and!; (done || lia)|right]. do 3 (split; [done|]). split; [|left; by destruct R2].
      intros k Hkr. destruct (decide (k = i)) as [->|]; [done|]. apply (other_holds_calm w l1 l); [|apply R1; lia]. destruct Hc as (_ & _ & Hs). split; [done|]. split; [done|]. intros c x. by rewrite Hs.
Qed.

(** ** The end of [walTryBeginRead] *)

(** Another connection has nothing that keeps this one from reading. *)
Definition readers_welcome (w : Wal) (s : Shm) (l : L) : Prop := readOnly w .& WAL_SHM_RDONLY = 0 /\
  (forall c j, c <> pDbFd w -> 0 <= j < WAL_NREADER -> lk_holds l c (WAL_READ_LOCK j) <> Some true) /\
  (forall j, 1 <= j < WAL_NREADER -> other_holds w l (WAL_READ_LOCK j) -> (aReadMark (s_ckpt s)).[j] <= mxFrame (s_hdr0 s)).

(** A connection that has just read the header, and has no lock of a mark. *)
Record may_begin (w : Wal) (s : Shm) (l : L) : Prop := {
  mb_zero : 0 ∈ w_mapped w;
  mb_mx : 0 <= mxFrame (s_hdr0 s);
  mb_marks : len (aReadMark (s_ckpt s)) = WAL_NREADER /\ Forall (Z.le 0) (aReadMark (s_ckpt s));
  mb_backfill : 0 <= nBackfill (s_ckpt s) < 2 ^ 31;
  mb_locks : locks_ok w l;
  mb_fine : locks_fine w l;
  mb_free : locks_free w l (WAL_READ_LOCK 0) WAL_NREADER
}.

Lemma begin_marked_ok rc w s (l : L) : may_begin w s l -> hdr w = s_hdr0 s -> rc = SQLITE_OK \/ rc = SQLITE_BUSY ->
  exists rc' w' marks l', begin_marked rc w s l = Done (rc', w', with_marks s marks, l') /\ marks_kept w l (aReadMark (s_ckpt s)) marks /\
    (rc' = SQLITE_OK /\ (exists i, 1 <= i < WAL_NREADER /\ w' = with_readLock (with_minFrame w (nBackfill (s_ckpt s) + 1)) i /\ marks.[i] <= mxFrame (hdr w) /\ locked_shared w l l' (WAL_READ_LOCK i)) \/
     (rc' = WAL_RETRY \/ rc' = SQLITE_READONLY_CANTINIT) /\ w' = w /\ calm w l l') /\
    (readers_welcome w s l -> rc' = SQLITE_OK).
Proof.
  intros [Hz Hmx [Hml Hmp] Hnb Hlo Hlf Hfree] Eh Hrc. unfold begin_marked.
  destruct (best_mark_ok (aReadMark (s_ckpt s)) (mxFrame (hdr w)) (Z.to_nat (WAL_NREADER - 1)) 1 0 0 Hml ltac:(lia) ltac:(done)) as (m & j & -> & Hmj & Hm0 & _ & Hfound). cbn [mbind outcome_bind].
  set (marks := aReadMark (s_ckpt s)) in *.
  assert (exists rc2 marks' m' j' l', (if (readOnly w .& WAL_SHM_RDONLY =? 0) && ((m <? mxFrame (hdr w)) || (j =? 0)) then set_mark (Z.to_nat (WAL_NREADER - 1)) 1 rc w marks (mxFrame (hdr w)) m j l
      else (rc, false, marks, m, j, l)) = (rc2, false, marks', m', j', l') /\ calm w l l' /\ marks_kept w l marks marks' /\ (j' = 0 \/ 1 <= j' < WAL_NREADER /\ marks'.[j'] = m' /\ m' <= mxFrame (hdr w)) /\
      (readers_welcome w s l -> j' <> 0)) as (rc2 & marks' & m' & j' & l1 & -> & Hc1 & Hk & Hj & Hw).
  { assert (j = 0 \/ 1 <= j < WAL_NREADER /\ marks.[j] = m /\ m <= mxFrame (hdr w)) as Hj by (destruct Hmj as [[_ ->]|?]; [by left|by right]).
    destruct (_ && _) eqn:E.
    - destruct (set_mark_ok w marks (mxFrame (hdr w)) (Z.to_nat (WAL_NREADER - 1)) 1 rc m j l Hml Hmp ltac:(by rewrite Eh) ltac:(lia) ltac:(done) Hlo Hlf Hfree) as (rc2 & marks' & m' & j' & l1 & -> & Hc & Hk & Hres).
      exists rc2, marks', m', j', l1. split; [done|]. split; [done|]. split; [done|]. destruct Hres as [(-> & R1 & R2 & ->)|(-> & -> & -> & R1 & _)]; [split; [right; split_and!; (done || lia)|lia]|]. split; [done|].
      intros (_ & _ & Hle). assert (1 <= j < WAL_NREADER); [|lia]. apply Hfound. exists 1. split; [done|]. specialize (Hle 1 ltac:(done) (R1 1 ltac:(done))). fold marks in Hle. rewrite Eh. split; [|done].
      apply Forall_lookup_1 with (1 := Hmp) (i := 1%nat). unfold ld. rewrite nth_lookup. change WAL_NREADER with 5 in Hml. destruct (lookup_lt_is_Some_2 marks (Z.to_nat 1) ltac:(lia)) as [x Hx]. change (Z.to_nat 1) with 1%nat in *. by rewrite Hx.
    - exists rc, marks, m, j, l. split; [done|]. split; [by apply calm_refl|]. split; [by split|]. split; [done|]. intros (Hro & _). rewrite Hro in E. cbn [Z.eqb andb] in E. apply orb_false_iff in E as [_ E%Z.eqb_neq]. done. }
  destruct (Z.eqb_spec j' 0) as [->|Hj0].
  { eexists _, w, marks', l1. split; [done|]. split; [done|]. split; [|by intros ?%Hw]. right. split; [destruct (_ =? _); auto|done]. }
  destruct Hj as [|(Hj & Em & Hle)]; [done|]. assert (locks_free w l1 (WAL_READ_LOCK j') 1) as Hf1.
  { intros E i Hi. apply (calm_free w l l1 _ _ Hc1 Hfree E). unfold WAL_READ_LOCK, WAL_NREADER in *. lia. }
  destruct (walLockShared_ok w (WAL_READ_LOCK j') l1) as (rc3 & l2 & -> & Hres); [apply Hc1|apply Hc1|unfold WAL_READ_LOCK, WAL_NREADER, SQLITE_SHM_NLOCK in *; lia|done|].
  destruct Hres as [(-> & Hlock)|(-> & Hc2 & Ex & c & Hc & Hh)]; cbn [Z.eqb SQLITE_OK SQLITE_BUSY Pos.eqb negb].
  2: { eexists WAL_RETRY, w, marks', l2. split; [done|]. split; [done|]. split; [right; split; [by left|]; split; [done|by eapply calm_trans]|].
       intros (_ & Hno & _). destruct (Hno c j' Hc ltac:(lia)). by rewrite (proj2 (proj2 Hc1)) in Hh. }
  destruct Hk as (K1 & K2 & K3 & K4). change (aReadMark (s_ckpt (with_marks s marks'))) with marks'. rewrite rd_ok by lia. cbn [mbind outcome_bind]. rewrite Em, Z.eqb_refl. cbn [negb orb].
  unfold walIndexHdr. cbn [w_mapped with_minFrame with_marks with_ckpt s_hdr0]. rewrite bool_decide_eq_true_2 by done. cbn [mbind outcome_bind hdr with_minFrame]. rewrite bool_decide_eq_true_2 by done. cbn [negb].
  change (nBackfill (s_ckpt (with_marks s marks'))) with (nBackfill (s_ckpt s)). rewrite u32_id by lia.
  eexists SQLITE_OK, _, marks', l2. split; [done|]. split; [by split_and!|]. split; [|done]. left. split; [done|]. exists j'. split; [lia|]. split; [done|]. split; [lia|].
  destruct Hlock as (A & B & C & D). split_and!; try done. intros c i Hi. by rewrite C, (proj2 (proj2 Hc1)).
Qed.

Lemma other_holds_same w (l l' : L) i : lk_same l l' -> other_holds w l i -> other_holds w l' i.
Proof. intros Hs (E & c & Hc & Hh). split; [done|]. exists c. by rewrite Hs. Qed.

Lemma marks_kept_same w (l l' : L) marks marks' : lk_same l l' -> marks_kept w l' marks marks' -> marks_kept w l marks marks'.
Proof. intros Hs (A & B & C & D). split_and!; try done. intros j Hj Ho. apply D; [done|]. by apply (other_holds_same w l). Qed.

Lemma marks_kept_trans w (l : L) m1 m2 m3 : marks_kept w l m1 m2 -> marks_kept w l m2 m3 -> marks_kept w l m1 m3.
Proof. intros (A & B & C & D) (A' & B' & C' & D'). split_and!; try done; [by rewrite C'|]. intros j Hj Ho. by rewrite D', D. Qed.

Lemma locked_same w (l l1 l' : L) i : lk_same l l1 -> locked_shared w l1 l' i -> locked_shared w l l' i.
Proof. intros Hs (A & B & C & D). split_and!; try done. intros c j Hj. by rewrite C, Hs. Qed.

Lemma with_marks_same s : with_marks s (aReadMark (s_ckpt s)) = s.
Proof. by destruct s as [? ? [? ? ?] ?]. Qed.

(** What the connection [w] has become, that may now read: with a mark, or, when the whole log
    is in the database file, without. *)
Definition begun (w : Wal) (s : Shm) (l : L) (w' : Wal) (marks : list Z) (l' : L) : Prop :=
  (exists i, 1 <= i < WAL_NREADER /\ w' = with_readLock (with_minFrame w (nBackfill (s_ckpt s) + 1)) i /\ marks.[i] <= mxFrame (hdr w) /\ locked_shared w l l' (WAL_READ_LOCK i)) \/
  (nBackfill (s_ckpt s) = mxFrame (hdr w) /\ w' = with_readLock w 0 /\ locked_shared w l l' (WAL_READ_LOCK 0)).

Lemma begin_locked_ok w s (l : L) : may_begin w s l -> hdr w = s_hdr0 s ->
  exists rc w' marks l', begin_locked false w s l = Done (rc, w', with_marks s marks, l') /\ marks_kept w l (aReadMark (s_ckpt s)) marks /\
    (rc = SQLITE_OK /\ begun w s l w' marks l' \/ (rc = WAL_RETRY \/ rc = SQLITE_READONLY_CANTINIT) /\ w' = w /\ calm w l l') /\ (readers_welcome w s l -> rc = SQLITE_OK).
Proof.
  intros Hm Eh. pose proof Hm as [Hz Hmx [Hml Hmp] Hnb Hlo Hlf Hfree]. unfold begin_locked, walIndexHdr. rewrite bool_decide_eq_true_2 by done. cbn [mbind outcome_bind negb andb].
  destruct (Z.eqb_spec (nBackfill (s_ckpt s)) (mxFrame (hdr w))) as [En|Nn].
  - destruct (walLockShared_ok w (WAL_READ_LOCK 0) l Hlo Hlf) as (rc & l1 & -> & Hres); [done|intros E j Hj; apply Hfree; [done|unfold WAL_READ_LOCK, WAL_NREADER in *; lia]|].
    destruct Hres as [(-> & Hlock)|(-> & Hc & Ex & c & Hc2 & Hh)]; cbn [Z.eqb SQLITE_OK SQLITE_BUSY Pos.eqb negb].
    + rewrite bool_decide_eq_true_2 by done. cbn [negb]. exists SQLITE_OK, (with_readLock w 0), (aReadMark (s_ckpt s)), l1. rewrite with_marks_same. split; [done|]. split; [by split|]. split; [|done]. left. split; [done|]. by right.
    + destruct (begin_marked_ok SQLITE_BUSY w s l1) as (rc' & w' & marks & l' & E & Hk & Hres & Hw); [|done|by right|].
      { split; try done; [apply Hc|apply Hc|by apply (calm_free w l l1)]. }
      pose proof (proj2 (proj2 Hc)) as Hs. exists rc', w', marks, l'. split; [exact E|]. split; [by eapply marks_kept_same|]. split.
      * destruct Hres as [(-> & i & Hi & Ew & Hle & Hlock)|(Hrc & -> & Hc')]; [left|right]; (split; [done|]); [left; exists i; split_and!; try done; (lia || by eapply locked_same)|]. split; [done|by eapply calm_trans].
      * intros (_ & Hno & _). by destruct (Hno c 0 Hc2 ltac:(done)).
  - destruct (begin_marked_ok SQLITE_OK w s l Hm Eh (or_introl eq_refl)) as (rc' & w' & marks & l' & E & Hk & Hres & Hw).
    exists rc', w', marks, l'. split; [exact E|]. split; [done|]. split; [|done]. destruct Hres as [(-> & Hb)|?]; [left; split; [done|by left]|by right].
Qed.

(** ** The whole *)

Context (unreliable : Z -> bool -> Wal -> Shm -> F -> L -> outcome (Z * bool * Wal * Shm * F * L)).
Context (walBeginShmUnreliable : bool -> Wal -> Shm -> F -> L -> outcome (Z * bool * Wal * Shm * F * L)).
Context (aPrivate : option WiPage).

(** The two copies of the header agree, and the checksum is right. *)
Record header_good (s : Shm) : Prop := {
  hg_same : s_hdr1 s = s_hdr0 s;
  hg_init : isInit (s_hdr0 s) <> 0;
  hg_cksum : walChecksumBytes true (hdr_bytes (s_hdr0 s)) 40 None = Done (aCksum (s_hdr0 s));
  hg_version : iVersion (s_hdr0 s) = WALINDEX_MAX_VERSION
}.

Lemma walIndexReadHdr_ok w s (fd : F) (l : L) : header_good s -> 0 ∈ w_mapped w -> bShmUnreliable w = false ->
  exists changed sz, walIndexReadHdr unreliable aPrivate w s fd l = Done (SQLITE_OK, changed, with_log (with_hdr w (s_hdr0 s)) sz (nCkpt w), s, fd, l).
Proof.
  intros [Hs Hi Hc Hv] Hz Hu. unfold walIndexReadHdr, walIndexPage. rewrite !bool_decide_eq_true_2 by done. cbn [Z.eqb SQLITE_OK negb].
  change (SQLITE_OK =? SQLITE_READONLY_CANTINIT) with false. cbv iota. unfold walIndexTryHdr, walIndexHdr. rewrite bool_decide_eq_true_2 by done. cbn [mbind outcome_bind]. rewrite Hs, bool_decide_eq_true_2 by done. cbn [negb].
  rewrite (proj2 (Z.eqb_neq _ _)) by done. rewrite Hc. cbn [mbind outcome_bind]. rewrite !Z.eqb_refl. cbn [negb orb].
  destruct (bool_decide (hdr w = s_hdr0 s)) eqn:E; cbn [negb mbind outcome_bind andb].
  - apply bool_decide_eq_true in E. rewrite E, Hv, Hu. exists false, (szPage w). cbn. rewrite <- E. by destruct w.
  - cbn [hdr with_log with_hdr bShmUnreliable]. rewrite Hv, Hu. by eexists true, _.
Qed.

Lemma walTryBeginRead_ok cnt w s (fd : F) (l : L) : cnt <= 100 -> header_good s -> bShmUnreliable w = false -> may_begin w s l ->
  exists rc changed sz w' marks l', let w1 := with_log (with_hdr w (s_hdr0 s)) sz (nCkpt w) in
    walTryBeginRead unreliable walBeginShmUnreliable aPrivate false cnt w s fd l = Done (rc, changed, w', with_marks s marks, fd, l') /\ marks_kept w l (aReadMark (s_ckpt s)) marks /\
    (rc = SQLITE_OK /\ begun w1 s l w' marks l' \/ (rc = WAL_RETRY \/ rc = SQLITE_READONLY_CANTINIT) /\ w' = w1 /\ calm w l l') /\ (readers_welcome w s l -> rc = SQLITE_OK).
Proof.
  intros Hcnt Hg Hu Hm. pose proof Hm as [Hz Hmx Hml Hnb Hlo Hlf Hfree]. unfold walTryBeginRead. rewrite (proj2 (Z.ltb_ge _ _)) by lia. unfold begin_header. rewrite Hu.
  destruct (walIndexReadHdr_ok w s fd l Hg Hz Hu) as (ch & sz & ->). cbn [mbind outcome_bind]. change (SQLITE_OK =? SQLITE_BUSY) with false. cbv iota. cbn [mbind outcome_bind].
  change (negb (SQLITE_OK =? SQLITE_OK)) with false. cbv iota. set (w1 := with_log (with_hdr w (s_hdr0 s)) sz (nCkpt w)). change (bShmUnreliable w1) with (bShmUnreliable w). rewrite Hu. cbn [negb andb].
  destruct (begin_locked_ok w1 s l) as (rc & w' & marks & l' & E & Hk & Hres & Hw); [by split|done|].
  fold w1. rewrite E. cbn [mbind outcome_bind]. by exists rc, ch, sz, w', marks, l'.
Qed.

Lemma marks_again s m1 m2 : with_marks (with_marks s m1) m2 = with_marks s m2.
Proof. done. Qed.

Lemma begin_loop_ok fuel : forall cnt w s (fd : F) (l : L) ch, cnt + Z.of_nat fuel = 102 -> (0 < fuel)%nat -> header_good s -> bShmUnreliable w = false -> may_begin w s l ->
  exists rc ch' w' marks l', begin_loop unreliable walBeginShmUnreliable aPrivate fuel false cnt w s fd l ch = Done (rc, ch', w', with_marks s marks, fd, l') /\ marks_kept w l (aReadMark (s_ckpt s)) marks /\
    (rc = SQLITE_OK /\ (exists sz, begun (with_log (with_hdr w (s_hdr0 s)) sz (nCkpt w)) s l w' marks l') \/ rc <> SQLITE_OK /\ calm w l l') /\ (cnt <= 100 -> readers_welcome w s l -> rc = SQLITE_OK).
Proof.
  induction fuel as [|fuel IH]; intros cnt w s fd l ch Hcnt Hf Hg Hu Hm; [lia|]. cbn [begin_loop]. destruct (Z.lt_ge_cases 100 cnt) as [Hlast|Hmore].
  { unfold walTryBeginRead. rewrite (proj2 (Z.ltb_lt _ _)) by lia. cbn [mbind outcome_bind]. change (SQLITE_PROTOCOL =? WAL_RETRY) with false. cbv iota. pose proof Hm as [_ _ [? ?] _ Hlo Hlf _].
    exists SQLITE_PROTOCOL, (ch || false), w, (aReadMark (s_ckpt s)), l. rewrite with_marks_same. split; [done|]. split; [by split|]. split; [right; split; [done|by apply calm_refl]|lia]. }
  destruct (walTryBeginRead_ok cnt w s fd l Hmore Hg Hu Hm) as (rc & ch1 & sz & w1 & marks & l1 & -> & Hk & Hres & Hw). cbn [mbind outcome_bind]. destruct (Z.eqb_spec rc WAL_RETRY) as [->|Hr].
  - destruct Hres as [[? _]|(_ & -> & Hc)]; [done|]. destruct Hm as [Hz Hmx Hml Hnb Hlo Hlf Hfree]. destruct Hk as (K1 & K2 & K3 & K4).
    destruct (IH (cnt + 1) (with_log (with_hdr w (s_hdr0 s)) sz (nCkpt w)) (with_marks s marks) fd l1 (ch || ch1)) as (rc & ch' & w' & m2 & l' & E & Hk2 & Hres & _); [lia|lia|by destruct Hg|done| |].
    { split; try done; [apply Hc|apply Hc|by apply (calm_free w l l1)]. }
    rewrite marks_again in E. exists rc, ch', w', m2, l'. split; [exact E|]. split; [|split].
    + eapply marks_kept_trans; [by split_and!|]. eapply marks_kept_same; [apply Hc|]. exact Hk2.
    + destruct Hres as [(-> & sz' & Hb)|(Hrc & Hc2)]; [left; split; [done|]|right; split; [done|by eapply calm_trans]]. exists sz'.
      destruct Hb as [(i & Hi & Ew & Hle & Hlock)|(En & Ew & Hlock)]; [left; exists i; split_and!; try done; [lia|lia|]|right; split_and!; try done]; exact (locked_same _ _ _ _ _ (proj2 (proj2 Hc)) Hlock).
    + intros _ Hwel. by specialize (Hw Hwel).
  - exists rc, (ch || ch1), w1, marks, l1. split; [done|]. split; [done|]. split; [|by intros _].
    destruct Hres as [(-> & Hb)|([-> | ->] & _ & Hc)]; [left; split; [done|by exists sz]|done|by right].
Qed.

(** ** Reading *)

(** A connection in a read transaction: it holds the lock of its slot; the mark is not behind its
    snapshot, and no frame that it uses from the log is older than those in the database file. *)
Record reading (w : Wal) (s : Shm) (l : L) : Prop := {
  rg_slot : 0 <= readLock w < WAL_NREADER;
  rg_lock : exclusiveMode w = 0 -> lk_holds l (pDbFd w) (WAL_READ_LOCK (readLock w)) = Some false;
  rg_mx : 0 <= mxFrame (hdr w) <= mxFrame (s_hdr0 s);
  rg_mark : readLock w <> 0 -> (aReadMark (s_ckpt s)).[readLock w] <= mxFrame (hdr w) /\ 0 <= minFrame w < 2 ^ 31 + 1 /\ minFrame w <= nBackfill (s_ckpt s) + 1
}.

(** The page [p] as the reader [w] finds it. *)
Definition reader_page (sz : Z) (frames : list Z) (w : Wal) (log db : bytes) (p : Z) : bytes :=
  if readLock w =? 0 then db_page sz db p else snapshot_page sz frames log db (minFrame w) (mxFrame (hdr w)) p.

Lemma begun_reading sz w s l w' marks (l' : L) : may_begin w s l -> begun (with_log (with_hdr w (s_hdr0 s)) sz (nCkpt w)) s l w' marks l' ->
  hdr w' = s_hdr0 s /\ reading w' (with_marks s marks) l' /\ (exists i m, w' = with_readLock (with_minFrame (with_log (with_hdr w (s_hdr0 s)) sz (nCkpt w)) m) i) /\
  forall szP frames log db p, reader_page szP frames w' log db p = snapshot_page szP frames log db (nBackfill (s_ckpt s) + 1) (mxFrame (s_hdr0 s)) p.
Proof.
  intros [_ Hmx _ Hnb _ _ _] [(i & Hi & -> & Hle & Hlock)|(En & -> & Hlock)]; (split; [done|]).
  - split; [split|split; [by eexists i, _|]].
    + change (0 <= i < WAL_NREADER). lia.
    + intros E. by apply Hlock.
    + change (0 <= mxFrame (s_hdr0 s) <= mxFrame (s_hdr0 s)). lia.
    + intros _. split; [exact Hle|]. change (0 <= nBackfill (s_ckpt s) + 1 < 2 ^ 31 + 1 /\ nBackfill (s_ckpt s) + 1 <= nBackfill (s_ckpt s) + 1). lia.
    + intros szP frames log db p. unfold reader_page. cbn [readLock with_readLock]. rewrite (proj2 (Z.eqb_neq i 0)) by lia. done.
  - split; [split|split; [exists 0, (minFrame w); by destruct w|]].
    + done.
    + intros E. by apply Hlock.
    + change (0 <= mxFrame (s_hdr0 s) <= mxFrame (s_hdr0 s)). lia.
    + done.
    + intros szP frames log db p. unfold reader_page. cbn [readLock with_readLock Z.eqb]. change (hdr (with_log _ _ _)) with (s_hdr0 s) in En. rewrite snapshot_empty by lia. done.
Qed.

(** C13. A read transaction begins at the newest commit.  For a connection that holds no mark and
    finds a good header, [sqlite3WalBeginReadTransaction] is defined: it ends after at most
    101 attempts, with the marks of the other readers as they were.  On SQLITE_OK the
    connection holds its lock, its mark is at most the last frame of its snapshot ([reading]),
    its header is that of the last commit, and the pages it will find, in the log or, if it
    needs no mark, in the file, are those of that commit.  On an error it holds nothing.  The
    answer is SQLITE_OK when the shared memory may be written, nobody holds one of the slots
    exclusively, and the marks in use are not ahead of the header. *)
Theorem read_begins w s (fd : F) (l : L) : header_good s -> bShmUnreliable w = false -> may_begin w s l ->
  exists rc changed w' s' l', sqlite3WalBeginReadTransaction unreliable walBeginShmUnreliable aPrivate w s fd l = Done (rc, changed, w', s', fd, l') /\
    (exists marks, s' = with_marks s marks /\ marks_kept w l (aReadMark (s_ckpt s)) marks) /\
    (rc = SQLITE_OK -> hdr w' = s_hdr0 s /\ pDbFd w' = pDbFd w /\ reading w' s' l' /\
       forall sz frames log db p, reader_page sz frames w' log db p = snapshot_page sz frames log db (nBackfill (s_ckpt s) + 1) (mxFrame (s_hdr0 s)) p) /\
    (rc <> SQLITE_OK -> lk_same l l') /\ (readers_welcome w s l -> rc = SQLITE_OK).
Proof.
  intros Hg Hu Hm. destruct (begin_loop_ok 101 1 w s fd l false ltac:(done) ltac:(lia) Hg Hu Hm) as (rc & ch & w' & marks & l' & E & Hk & Hres & Hw).
  exists rc, ch, w', (with_marks s marks), l'. split; [exact E|]. split; [by exists marks|]. split; [|split; [|by apply Hw]].
  - intros ->. destruct Hres as [(_ & sz & Hb)|[? _]]; [|done]. destruct (begun_reading _ _ _ _ _ _ _ Hm Hb) as (R1 & R2 & (i & m & ->) & R4). done.
  - intros Hrc. destruct Hres as [[? _]|(_ & Hc)]; [done|apply Hc].
Qed.
End begin.

(** ** A concrete begin *)

(** Four frames of one commit; nobody else is there, and no mark is in use. *)
Lemma begin_run : exists w s, header_good s /\ bShmUnreliable w = false /\ may_begin w s empty_table /\ readers_welcome w s empty_table /\ mxFrame (s_hdr0 s) = 4 /\ nPage (s_hdr0 s) = 9.
Proof.
  assert (exists w s, wal_step (OpFrames [7; 390; 7; 5] 4096 9 true) (wal0 0 true) shm0 = Done (SQLITE_OK, w, s) /\ mxFrame (s_hdr0 s) = 4 /\ nPage (s_hdr0 s) = 9 /\ header_good s /\
    pDbFd w = 0%nat /\ w_mapped w = {[0]} /\ s_ckpt s = s_ckpt shm0 /\ readOnly w = 0 /\ bShmUnreliable w = false) as (w & s & _ & E1 & E2 & Hg & E3 & E4 & E5 & E6 & E7).
  { eexists _, _. split; [vm_compute; reflexivity|]. do 2 (split; [vm_compute; reflexivity|]). split; [split; [vm_compute; reflexivity|vm_compute; lia|vm_compute; reflexivity|vm_compute; reflexivity]|]. repeat split; vm_compute; reflexivity. }
  assert (forall c j, 0 <= j < 8 -> lk_holds empty_table c j = None) as Hnone.
  { intros [|c] j Hj; [|done]. cbn. rewrite !Z.testbit_0_l. by destruct (_ || _). }
  exists w, s. split; [done|]. split; [done|]. split; [|split; [|done]].
  - split; [rewrite E4; set_solver|lia|rewrite E5; split; [done|repeat constructor; lia]|rewrite E5; cbn; lia| | |].
    + intros _. rewrite E3. split; [apply empty_table_wf|by eexists].
    + done.
    + intros _ j Hj. apply Hnone. unfold WAL_READ_LOCK, WAL_NREADER in Hj. lia.
  - split; [by rewrite E6|]. split.
    + intros c j _ Hj. rewrite Hnone; [done|unfold WAL_READ_LOCK, WAL_NREADER in *; lia].
    + rewrite E5, E1. change WAL_NREADER with 5. intros j Hj _. assert (j = 1 \/ j = 2 \/ j = 3 \/ j = 4) as Hc by lia. by destruct Hc as [-> | [-> | [-> | ->]]].
Qed.

Lemma read_begins_witness : exists w s, header_good s /\ may_begin w s empty_table /\ mxFrame (s_hdr0 s) = 4 /\
  exists changed w' s' l', sqlite3WalBeginReadTransaction (fun _ _ _ _ _ _ => UB) (fun _ _ _ _ _ => UB) None w s ckpt_log empty_table = Done (SQLITE_OK, changed, w', s', ckpt_log, l') /\
    reading w' s' l' /\ hdr w' = s_hdr0 s.
Proof.
  destruct begin_run as (w & s & Hg & Hu & Hm & Hw & E1 & E2). exists w, s. split; [exact Hg|]. split; [exact Hm|]. split; [exact E1|].
  destruct (read_begins (H := FaultyFile_OsFile) (fun _ _ _ _ _ _ => UB) (fun _ _ _ _ _ => UB) None w s ckpt_log empty_table Hg Hu Hm) as (rc & changed & w' & s' & l' & E & _ & Hr & _ & Hok).
  specialize (Hok Hw). subst rc. destruct (Hr eq_refl) as (Eh & _ & Hrd & _). exists changed, w', s', l'. split; [exact E|]. split; [exact Hrd|exact Eh].
Defined.
