(* ===== verification/WalSnapshot.v ===== *)
(** * WalSnapshot: readers are isolated

    A reader of the log and everything that the other connections may do meanwhile: begin and
    end transactions, write, commit, fail, roll back, checkpoint in any mode, begin and end
    to read.  One step is one of the functions of WalRead, WalWrite, WalCkpt and WalIndex; the
    connections share the wal-index, the two files and the locks ([system]). *)

From S2P Require Import Prelude Varint CType ByteMem OsFile WalCksum WalIndex WalFrame WalLock WalIndexRefine WalRecover WalRead WalCkpt WalBackfill WalWrite WalDurable WalCommit WalReader.

(** ** Without a writer *)

(** The shared part of [log_state], when no write transaction is open. *)
Record log_shared (sz : Z) (s : Shm) (d : bytes) (C : list Frame) : Prop := {
  lh_pages : Forall page_wf (s_pages s);
  lh_index : index_holds s (map f_pgno C);
  lh_mx : mxFrame (s_hdr0 s) = len C;
  lh_bound : len C < 2 ^ 31;
  lh_commit : upto_commit C = C;
  lh_salt : bytes_ok (aSalt (s_hdr0 s)) /\ length (aSalt (s_hdr0 s)) = 8%nat;
  lh_pgno : Forall (fun p => 0 < p < 2 ^ 32) (map f_pgno C);
  lh_log : C = [] \/ exists native salt c0 hd, head_ok sz native salt c0 hd /\ log_file native salt sz c0 hd d C (length C) /\ live_ok native salt sz c0 s C
}.

Lemma broken_shared sz w s d C : log_broken sz w s d C -> log_shared sz s d C.
Proof.
  intros [[P Hrel] Hc Hmin Hlog]. pose proof (lr_writer _ _ _ Hrel) as Hw. pose proof (lr_committed _ _ _ Hrel) as Hcm. cbn in Hcm. rewrite length_map in Hcm. pose proof (lr_bound _ _ _ Hrel) as Hb. rewrite in_index_frames, length_map, length_app in Hb.
  pose proof (wr_holds _ _ _ Hw) as Hh. pose proof (wr_pages _ _ _ Hw) as Hp. rewrite in_index_frames, map_app in Hh, Hp. apply Forall_app in Hp as [Hp _].
  apply (holds_take _ _ (length (map f_pgno C))) in Hh. rewrite take_app_length in Hh. destruct (wr_salt _ _ _ Hw) as (_ & _ & S1 & S2).
  split; try done; [apply (wr_map _ _ _ Hw)|lia|]. destruct Hlog as [|(_ & Hlog)]; [by left|by right].
Qed.

(** A connection that may begin to write: it has read the header. *)
Record write_conn (sz : Z) (w : Wal) (s : Shm) : Prop := {
  wc_map : mapping_ok w s;
  wc_zero : 0 ∈ w_mapped w;
  wc_size : szPage w = sz;
  wc_recksum : iReCksum w = 0;
  wc_min : 0 <= minFrame w < 2 ^ 31
}.

Lemma shared_state sz w s d C : log_shared sz s d C -> write_conn sz w s -> hdr w = s_hdr0 s -> log_state sz (with_writeLock w true) s d C [].
Proof.
  intros [H1 H2 H3 H4 H5 [H6 H6'] H7 H8] [Hm Hz Hsz Hre Hmin] Eh. split; [|done|constructor|done|].
  - assert (len (map f_pgno C) = len C) as El by by rewrite length_map. assert (log_frames (in_index C []) = map f_pgno C) as Ef by (rewrite in_index_frames; by rewrite app_nil_r).
    split; rewrite ?Ef, ?El; cbn [hdr with_writeLock]; rewrite ?Eh; try done; [|cbn; by rewrite El]. split; rewrite ?El; cbn [hdr with_writeLock writeLock]; rewrite ?Eh, ?H3; try done; [lia|by left|lia|].
    intros f Hf. lia.
  - destruct H8 as [->|(native & salt & c0 & hd & Hk & Hl & Hlive)]; [by left|]. destruct Hlive as [->|(L1 & L2 & L3)]; [by left|]. right. exists native, salt, c0, hd. split; [done|]. rewrite app_nil_r. split; [|by right].
    destruct (head_parts _ _ _ _ _ Hk) as (Hsalt & Hsize & Hc0). split; try done.
    + split; [change (page_size_ok (szPage w)); by rewrite Hsz|unfold wal_salt; cbn; by rewrite Eh, L2|]. cbn. rewrite Eh, L1. by apply log_cksum_range.
    + unfold wal_native. cbn. by rewrite Eh.
    + unfold wal_salt. cbn. by rewrite Eh.
    + left. split; [done|]. cbn. by rewrite Eh.
Qed.

(** ** The frames of a snapshot *)

Definition holds_frames (sz : Z) (d : bytes) (K : list Frame) : Prop := forall i f, K !! i = Some f -> frame_page sz d (Z.of_nat i + 1) = f_page f.

Lemma log_file_holds native salt sz c0 hd d fs k : head_ok sz native salt c0 hd -> log_file native salt sz c0 hd d fs k -> holds_frames sz d fs.
Proof.
  intros Hk [_ _ Hf Hok] i f Hi. destruct (head_parts _ _ _ _ _ Hk) as (_ & [Hs1 _] & _). destruct (Hf i f Hi) as [_ Hat]. apply Forall_lookup_1 with (1 := Hok) in Hi as (_ & _ & Lf & _).
  pose proof (at_sub _ _ _ Hat) as E. destruct Hat as (Ho & Hl & _). rewrite Lf in *. unfold frame_page. change WAL_HDRSIZE with 32. change WAL_FRAME_HDRSIZE with 24.
  replace (32 + (Z.of_nat i + 1 - 1) * (sz + 24) + 24) with (off sz (Z.of_nat i) + 24) by (unfold off; lia). rewrite <- sub_page by lia. done.
Qed.

Lemma shared_holds sz s d C : log_shared sz s d C -> holds_frames sz d C.
Proof. intros Hs. destruct (lh_log _ _ _ _ Hs) as [->|(native & salt & c0 & hd & Hk & Hl & _)]; [by intros i f Hi|by eapply log_file_holds]. Qed.

Lemma holds_prefix sz d K C : K `prefix_of` C -> holds_frames sz d C -> holds_frames sz d K.
Proof. intros [D ->] Hh i f Hi. apply Hh. by apply lookup_app_l_Some. Qed.

Lemma last_frame_prefix l m p lo hi : hi <= len l -> 0 <= hi -> last_frame (l ++ m) p lo hi = last_frame l p lo hi.
Proof.
  intros Hhi H0. unfold last_frame. assert (Z.of_nat (Z.to_nat hi) <= len l) as Hn by lia. induction (Z.to_nat hi) as [|n IH]; [done|]. cbn [last_in].
  rewrite (ld_app_l l m) by lia. destruct (_ && _); [done|]. apply IH. lia.
Qed.

(** The pages of a snapshot, in a file with its frames. *)
Lemma snapshot_same_log sz K d d' db p lo : holds_frames sz d K -> holds_frames sz d' K ->
  snapshot_page sz (map f_pgno K) d' db lo (len K) p = snapshot_page sz (map f_pgno K) d db lo (len K) p.
Proof.
  intros Hd Hd'. unfold snapshot_page. destruct (last_frame_spec (map f_pgno K) p lo (len K) ltac:(lia)) as [Hr _]. set (f := last_frame _ _ _ _) in *. destruct (Z.eqb_spec f 0) as [|Hf]; [done|].
  destruct Hr as [|(R1 & _)]; [done|]. destruct (lookup_lt_is_Some_2 K (Z.to_nat (f - 1)) ltac:(lia)) as [x Hx]. specialize (Hd _ _ Hx). specialize (Hd' _ _ Hx).
  replace (Z.of_nat (Z.to_nat (f - 1)) + 1) with f in * by lia. by rewrite Hd, Hd'.
Qed.

(** ** A larger index *)

Lemma grown_index s s' l : grown s s' -> index_holds s l -> index_holds s' l.
Proof.
  intros (_ & _ & (k & Hp) & _) Hh. assert (index_holds (with_pages s (s_pages s ++ replicate k zero_page)) l) as Hh2.
  { eapply (holds_remap (wal0 0 true) s (wal0 0 true)); [|done]. split; [by exists (w_mapped (wal0 0 true)), (w_vfs (wal0 0 true)), (readOnly (wal0 0 true))|]. split; [by eexists|done]. }
  destruct s'. cbn in Hp. subst. exact Hh2.
Qed.

Lemma grown_mapping w s s' : grown s s' -> mapping_ok w s -> mapping_ok w s'.
Proof.
  intros (_ & _ & (k & Hp) & _) [Hm Hw]. split; rewrite Hp.
  - intros h Hh. rewrite length_app. specialize (Hm h Hh). lia.
  - apply Forall_app. split; [done|]. apply Forall_replicate, zero_page_wf.
Qed.

Lemma grown_rel w s s' a : grown s s' -> log_rel w s a -> log_rel w s' a.
Proof.
  intros Hg Hrel. pose proof (grown_mapping w s s' Hg (wr_map _ _ _ (lr_writer _ _ _ Hrel))) as Hm. destruct Hg as (E0 & _ & (k & Hp) & _).
  assert (remap w s w (with_pages s (s_pages s'))) as Hr.
  { split; [exists (w_mapped w), (w_vfs w), (readOnly w); by destruct w|]. split; [exists k; by rewrite Hp|done]. }
  destruct (rel_remap w s w _ a Hrel Hr Hm) as [[A1 A2 A3 A4 A5 A6 A7 A8 A9 A10] B1 B2 B3]. split; [|done|by rewrite E0|done]. split; try done; by rewrite E0.
Qed.

Lemma grown_live native salt sz c0 s s' C : s_hdr0 s' = s_hdr0 s -> live_ok native salt sz c0 s C -> live_ok native salt sz c0 s' C.
Proof. unfold live_ok. by intros ->. Qed.

Lemma grown_state sz w s s' d C P : grown s s' -> log_state sz w s d C P -> log_state sz w s' d C P.
Proof.
  intros Hg [Hrel Hc HP Hmin Hlog]. pose proof (grown_rel _ _ _ _ Hg Hrel). split; try done. destruct Hlog as [|(native & salt & c0 & hd & A & B & D)]; [by left|].
  right. exists native, salt, c0, hd. split; [done|]. split; [done|]. eapply grown_live; [apply Hg|done].
Qed.

Lemma grown_broken sz w s s' d C : grown s s' -> log_broken sz w s d C -> log_broken sz w s' d C.
Proof.
  intros Hg [(P & Hrel) Hc Hmin Hlog]. pose proof (grown_rel _ _ _ _ Hg Hrel). split; [by exists P|done|done|]. destruct Hlog as [|(Ez & native & salt & c0 & hd & A & B & D)]; [by left|].
  right. split; [done|]. exists native, salt, c0, hd. split; [done|]. split; [done|]. eapply grown_live; [apply Hg|done].
Qed.

Lemma grown_shared sz s s' d C : grown s s' -> log_shared sz s d C -> log_shared sz s' d C.
Proof.
  intros Hg [H1 H2 H3 H4 H5 H6 H7 H8]. pose proof (grown_index _ _ _ Hg H2). pose proof (grown_mapping (with_mapped (wal0 0 true) ∅ [] 0) s s' Hg ltac:(by split)) as [_ Hp].
  destruct Hg as (E0 & _ & _). split; try done; rewrite ?E0; try done. destruct H8 as [|(native & salt & c0 & hd & A & B & D)]; [by left|].
  right. exists native, salt, c0, hd. split; [done|]. split; [done|]. by eapply grown_live.
Qed.

Lemma grown_remap w s w' s' : remap w s w' s' -> grown s s'.
Proof. intros (_ & (k & ->) & _). split; [done|]. split; [done|]. split; [by exists k|done]. Qed.

(** ** Pages that no frame has *)

Lemma content_none fs q : content fs q = None <-> Forall (fun f => f_pgno f <> q) fs.
Proof.
  induction fs as [|f fs IH] using rev_ind; [by split|]. rewrite content_snoc, Forall_app. destruct (Z.eqb_spec (f_pgno f) q) as [E|E].
  - split; [done|]. intros [_ [? _]%Forall_cons]. done.
  - rewrite IH. split; [intros ?; split; [done|by repeat constructor]|by intros []].
Qed.

Lemma content_prefix fs fs' q : content (fs ++ fs') q = None -> content fs q = None.
Proof. rewrite !content_none, Forall_app. by intros [? _]. Qed.

Lemma updated_none pList q : Forall (fun pg => pgno pg <> q) pList -> updated None pList q = None.
Proof.
  unfold updated. induction 1 as [|pg pList Hpg _ IH]; [done|]. cbn. by rewrite (proj2 (Z.eqb_neq _ _) Hpg).
Qed.

(** ** The connections together *)

(** The write transaction that is open, if one is; after an error only a rollback follows. *)
Inductive Txn := TxNone | TxOpen (w : Wal) | TxFailed (w : Wal).

Record system (F L : Type) := mk_system { y_txn : Txn; y_shm : Shm; y_log : F; y_db : F; y_locks : L }.
Arguments mk_system {F L}.
Arguments y_txn {F L}.
Arguments y_shm {F L}.
Arguments y_log {F L}.
Arguments y_db {F L}.
Arguments y_locks {F L}.

(** The arguments of a call of [sqlite3WalFrames]. *)
Record frames_args (sz : Z) (salt0 : bytes) (sectorSize : Z) (pList : list PgHdr) (nTruncate : Z) (isCommit : bool) (w : Wal) : Prop := {
  fa_salt : len salt0 = 8 /\ bytes_ok salt0;
  fa_sector : 0 < sectorSize <= 65536;
  fa_some : pList <> [];
  fa_pages : Forall (page_ok sz) pList;
  fa_last : Forall (fun pg => pgno pg <> 0xFFFFFFFF) pList;
  fa_once : NoDup (map pgno pList);
  fa_commit : 0 <= nTruncate < 2 ^ 32 /\ isCommit = negb (nTruncate =? 0);
  fa_bound : mxFrame (hdr w) + len pList + sectorSize + 2 < 2 ^ 31
}.

Section system.
Context {F L : Type} `{OsFileLaws F} `{ShmLocksLaws L}.
Context (unreliable : Z -> bool -> Wal -> Shm -> F -> L -> outcome (Z * bool * Wal * Shm * F * L)).
Context (walBeginShmUnreliable : bool -> Wal -> Shm -> F -> L -> outcome (Z * bool * Wal * Shm * F * L)).
Context (aPrivate : option WiPage).
Context (sz : Z) (r : Wal).

(** A connection other than the reader [r]; what it is and holds otherwise is said where it
    acts.  A writer has read the log, so that it does not restart it. *)
Definition other (w : Wal) (l : L) : Prop := exclusiveMode w = 0 /\ pDbFd w <> pDbFd r /\ lk_open l (pDbFd w).

(** One function of one of the other connections. *)
Inductive sys_step : system F L -> system F L -> Prop :=
| st_begin_write t w s log db l rc w' l' : other w l -> write_conn sz w s -> 0 < readLock w -> lk_holds l (pDbFd w) WAL_WRITE_LOCK = None ->
    sqlite3WalBeginWriteTransaction w s l = Done (rc, w', l') ->
    sys_step (mk_system t s log db l) (mk_system (if rc =? SQLITE_OK then TxOpen w' else t) s log db l')
| st_frames w s log db l salt0 salt1 ok sectorSize pList nTruncate isCommit flags rc w' s' log' l' : frames_args sz salt0 sectorSize pList nTruncate isCommit w ->
    sqlite3WalFrames unreliable walBeginShmUnreliable aPrivate salt0 salt1 ok sectorSize sz pList nTruncate isCommit flags w s log l = Done (rc, w', s', log', l') ->
    sys_step (mk_system (TxOpen w) s log db l) (mk_system (if rc =? SQLITE_OK then TxOpen w' else TxFailed w') s' log' db l')
| st_rollback t w s log db l rc called w1 s' w' l' : t = TxOpen w \/ t = TxFailed w -> lk_open l (pDbFd w) ->
    sqlite3WalUndo w (fun _ => SQLITE_OK) s = Done (rc, called, w1, s') -> sqlite3WalEndWriteTransaction w1 l = (SQLITE_OK, w', l') ->
    sys_step (mk_system t s log db l) (mk_system TxNone s' log db l')
| st_end_write w s log db l w' l' : lk_open l (pDbFd w) -> sqlite3WalEndWriteTransaction w l = (SQLITE_OK, w', l') ->
    sys_step (mk_system (TxOpen w) s log db l) (mk_system TxNone s log db l')
| st_checkpoint t w s log db l ok1 ok2 interrupts mf salt1 eMode xBusy flags rc w' s' log' db' l' : other w l -> mapping_ok w s -> 0 ∈ w_mapped w -> hdr w = s_hdr0 s ->
    walPagesize (hdr w) = sz -> 0 <= nPage (hdr w) < 2 ^ 32 -> locks_free w l (WAL_READ_LOCK 0) WAL_NREADER -> len salt1 = 4 -> bytes_ok salt1 ->
    walCheckpoint ok1 ok2 interrupts mf salt1 eMode xBusy flags w s log db l = Done (rc, w', s', log', db', l') ->
    sys_step (mk_system t s log db l) (mk_system t s' log' db' l')
| st_begin_read t w s log db l rc changed w' s' log' l' : other w l -> header_good s -> bShmUnreliable w = false -> may_begin w s l ->
    sqlite3WalBeginReadTransaction unreliable walBeginShmUnreliable aPrivate w s log l = Done (rc, changed, w', s', log', l') ->
    sys_step (mk_system t s log db l) (mk_system t s' log' db l')
| st_find t w pg s log db l rc f w' s' : mapping_ok w s -> 0 <= mxFrame (hdr w) <= mxFrame (s_hdr0 s) -> 0 <= minFrame w < 2 ^ 31 ->
    sqlite3WalFindFrame w pg s = Done (rc, f, w', s') ->
    sys_step (mk_system t s log db l) (mk_system t s' log db l)
| st_end_read t w s log db l w' l' : other w l -> writeLock w = false -> readLock w < WAL_NREADER -> (0 <= readLock w -> lk_holds l (pDbFd w) (WAL_READ_LOCK (readLock w)) = Some false) ->
    sqlite3WalEndReadTransaction w l = (w', l') ->
    sys_step (mk_system t s log db l) (mk_system t s log db l').

(** ** What holds between the steps *)

Definition txn_conn (w : Wal) (l : L) : Prop := exclusiveMode w = 0 /\ pDbFd w <> pDbFd r /\ 0 < readLock w /\ lk_holds l (pDbFd w) WAL_WRITE_LOCK = Some true.

(** The transaction, when the frames [C] are committed. *)
Definition txn_ok (t : Txn) (s : Shm) (d : bytes) (l : L) (C : list Frame) : Prop :=
  match t with
  | TxNone => log_shared sz s d C
  | TxOpen w => txn_conn w l /\ exists P, log_state sz w s d C P /\ content (C ++ P) 0xFFFFFFFF = None
  | TxFailed w => txn_conn w l /\ log_broken sz w s d C
  end.

(** The snapshot of [r] are the frames [K]. *)
Record isolated (K : list Frame) (y : system F L) : Prop := {
  is_txn : exists C, K `prefix_of` C /\ txn_ok (y_txn y) (y_shm y) (os_data (y_log y)) (y_locks y) C /\ content C 0xFFFFFFFF = None;
  is_npage : len K = mxFrame (s_hdr0 (y_shm y)) -> nPage (hdr r) = nPage (s_hdr0 (y_shm y));
  is_files : os_ok (y_log y) /\ os_ok (y_db y);
  is_locks : lk_ok (y_locks y) /\ lk_fine (y_locks y);
  is_marks : len (aReadMark (s_ckpt (y_shm y))) = WAL_NREADER /\ Forall (Z.le 0) (aReadMark (s_ckpt (y_shm y)));
  is_backfill : 0 <= nBackfill (s_ckpt (y_shm y));
  is_lock : lk_holds (y_locks y) (pDbFd r) (WAL_READ_LOCK (readLock r)) = Some false;
  is_mark : (aReadMark (s_ckpt (y_shm y))).[readLock r] <= len K /\ minFrame r <= nBackfill (s_ckpt (y_shm y)) + 1
}.

Lemma txn_shared t s d l C : txn_ok t s d l C -> log_shared sz s d C.
Proof.
  destruct t as [|w|w]; [done| |]; [intros (_ & P & Hst & _); by eapply broken_shared, state_broken|intros [_ Hb]; by eapply broken_shared].
Qed.

Lemma txn_grown t s s' d l C : grown s s' -> txn_ok t s d l C -> txn_ok t s' d l C.
Proof.
  intros Hg. destruct t as [|w|w]; cbn; [by apply grown_shared| |].
  - intros (Hc & P & Hst & Hn). split; [done|]. exists P. split; [by eapply grown_state|done].
  - intros [Hc Hb]. split; [done|by eapply grown_broken].
Qed.

(** Locks that are not the write lock of the transaction. *)
Lemma txn_locks t s d l l' C : txn_ok t s d l C -> (forall w, txn_conn w l -> lk_holds l' (pDbFd w) WAL_WRITE_LOCK = Some true) -> txn_ok t s d l' C.
Proof.
  intros Ht Hl. destruct t as [|w|w]; cbn in *; [done| |].
  - destruct Ht as (Hc & P & Hst). split; [|by exists P]. pose proof (Hl w Hc). destruct Hc as (? & ? & ? & _). by split_and!.
  - destruct Ht as (Hc & Hb). split; [|done]. pose proof (Hl w Hc). destruct Hc as (? & ? & ? & _). by split_and!.
Qed.

Context (K : list Frame).
Hypothesis Hsz : wal_page_size sz.
Hypothesis HrSlot : 0 < readLock r < WAL_NREADER.

(** The page [p] of the snapshot. *)
Definition page_now (y : system F L) (p : Z) : bytes := snapshot_page sz (map f_pgno K) (os_data (y_log y)) (os_data (y_db y)) (minFrame r) (len K) p.
Definition undisturbed (y y' : system F L) : Prop := isolated K y' /\ forall p, 0 < p <= nPage (hdr r) -> page_now y' p = page_now y p.

(** The lock of the reader, and that of the writer. *)
Definition locks_kept (l l' : L) : Prop := lk_ok l' /\ lk_fine l' /\ lk_holds l' (pDbFd r) (WAL_READ_LOCK (readLock r)) = lk_holds l (pDbFd r) (WAL_READ_LOCK (readLock r)) /\
  forall w, txn_conn w l -> lk_holds l' (pDbFd w) WAL_WRITE_LOCK = Some true.

Lemma calm_kept w (l l' : L) : exclusiveMode w = 0 -> calm w l l' -> locks_kept l l'.
Proof. intros E (A & B & Hs). split; [by apply A|]. split; [by apply B|]. split; [apply Hs|]. intros w2 (_ & _ & _ & Hw). by rewrite Hs. Qed.

(** A step that changes neither file, and of the wal-index only marks that are not in use. *)
Lemma step_shared t s s' log db l l' : isolated K (mk_system t s log db l) -> grown s s' -> len (aReadMark (s_ckpt s')) = WAL_NREADER /\ Forall (Z.le 0) (aReadMark (s_ckpt s')) ->
  (aReadMark (s_ckpt s')).[readLock r] = (aReadMark (s_ckpt s)).[readLock r] -> locks_kept l l' -> undisturbed (mk_system t s log db l) (mk_system t s' log db l').
Proof.
  intros [(C & HK & Ht & Hn) Hp Hf Hl Hm Hb Hlk [Hmk Hmin]] Hg Hm' Em (L1 & L2 & L3 & L4). split; [|done]. cbn in *. pose proof Hg as (E0 & _ & _ & Eb). split; cbn; try done.
  - exists C. split; [done|]. split; [|done]. eapply txn_locks; [by eapply txn_grown|done].
  - by rewrite E0.
  - lia.
  - by rewrite L3.
  - split; [by rewrite Em|lia].
Qed.

(** The reader's lock as another connection sees it. *)
Lemma reader_held w s log db t l : isolated K (mk_system t s log db l) -> other w l -> other_holds w l (WAL_READ_LOCK (readLock r)).
Proof. intros Hi (E & Hc & _). split; [done|]. exists (pDbFd r). split; [done|]. pose proof (is_lock _ _ Hi) as Hl. cbn in Hl. by rewrite Hl. Qed.

Lemma other_locks w t s log db l : isolated K (mk_system t s log db l) -> other w l -> locks_ok w l /\ locks_fine w l.
Proof. intros Hi (E & _ & Ho). destruct (is_locks _ _ Hi) as [Hlk Hlf]. split; [intros _; by split|by intros _]. Qed.

Lemma step_find t s s' log db l : isolated K (mk_system t s log db l) -> (exists w w', remap w s w' s') -> undisturbed (mk_system t s log db l) (mk_system t s' log db l).
Proof.
  intros Hi (w & w' & Hr). pose proof (grown_remap _ _ _ _ Hr) as Hg. destruct Hr as (_ & (k & ->) & _). apply step_shared; try done; [apply (is_marks _ _ Hi)|].
  destruct (is_locks _ _ Hi). split_and!; try done. by intros ? (_ & _ & _ & ?).
Qed.

Lemma step_begin_read t s log db l w rc changed w' s' log' l' : isolated K (mk_system t s log db l) -> other w l -> header_good s -> bShmUnreliable w = false -> may_begin w s l ->
  sqlite3WalBeginReadTransaction unreliable walBeginShmUnreliable aPrivate w s log l = Done (rc, changed, w', s', log', l') -> undisturbed (mk_system t s log db l) (mk_system t s' log' db l').
Proof.
  intros Hi Ho Hg Hu Hm E. destruct (begin_loop_ok unreliable walBeginShmUnreliable aPrivate 101 1 w s log l false ltac:(done) ltac:(lia) Hg Hu Hm) as (rc1 & ch & w1 & marks & l1 & E1 & (K1 & K2 & K3 & K4) & Hres & _).
  unfold sqlite3WalBeginReadTransaction in E. rewrite E1 in E. injection E as <- <- <- <- <- <-. pose proof (reader_held _ _ _ _ _ _ Hi Ho) as Hh. pose proof Ho as (Ew & Hc & _).
  apply step_shared; [done|by apply grown_refl|by split|by apply K4; [lia|]|].
  destruct Hres as [(_ & sz1 & Hb)|(_ & Hcalm)]; [|by eapply calm_kept].
  assert (exists i, 0 <= i /\ locked_shared w l l1 (WAL_READ_LOCK i)) as (i & Hi0 & (A & B & Hs & _)).
  { destruct Hb as [(i & Hi' & _ & _ & Hlk)|(_ & _ & Hlk)]; [exists i; split; [lia|exact Hlk]|exists 0; by split]. }
  split; [by apply A|]. split; [by apply B|]. split; [by apply Hs; left|]. intros w2 (_ & _ & _ & Hw). rewrite Hs; [done|]. right. unfold WAL_WRITE_LOCK, WAL_READ_LOCK. lia.
Qed.

Lemma step_end_read t s log db l w w' l' : isolated K (mk_system t s log db l) -> other w l -> writeLock w = false -> readLock w < WAL_NREADER ->
  (0 <= readLock w -> lk_holds l (pDbFd w) (WAL_READ_LOCK (readLock w)) = Some false) -> sqlite3WalEndReadTransaction w l = (w', l') -> undisturbed (mk_system t s log db l) (mk_system t s log db l').
Proof.
  intros Hi Ho Hw Hn Hh E. pose proof Ho as (Ew & Hc & Hopen). unfold sqlite3WalEndReadTransaction, sqlite3WalEndWriteTransaction in E. rewrite Hw in E. destruct (is_locks _ _ Hi) as [Hl Hf].
  apply step_shared; [done|by split; [|split; [|split; [exists 0%nat; by rewrite app_nil_r|]]]|apply (is_marks _ _ Hi)|done|].
  destruct (Z.leb_spec 0 (readLock w)) as [Hpos|Hneg]; injection E as <- <-; [|split_and!; try done; by intros ? (_ & _ & _ & ?)].
  unfold walUnlockShared. rewrite Ew. cbn [Z.eqb negb]. destruct (lk_unlock_shared l (pDbFd w) (WAL_READ_LOCK (readLock w)) Hl Hopen) as (rc & l1 & -> & A & _ & B & Hres); [unfold WAL_READ_LOCK, SQLITE_SHM_NLOCK, WAL_NREADER in *; lia|by apply Hh|].
  destruct (B Hf) as [B1 ->]. destruct Hres as [_ Hs]. cbn [snd]. split; [done|]. split; [done|]. split; [apply Hs; left; congruence|].
  intros w2 (_ & _ & _ & Hw2). rewrite Hs; [done|]. right. unfold WAL_WRITE_LOCK, WAL_READ_LOCK. lia.
Qed.

Lemma step_locks t s log db l l' : isolated K (mk_system t s log db l) -> locks_kept l l' -> undisturbed (mk_system t s log db l) (mk_system t s log db l').
Proof. intros Hi Hk. apply step_shared; [done| |apply (is_marks _ _ Hi)|done|done]. split; [done|]. split; [done|]. split; [exists 0%nat; by rewrite app_nil_r|done]. Qed.

(** Another transaction, with the same log. *)
Lemma step_txn t t' s s' log db l l' : isolated K (mk_system t s log db l) -> lk_ok l' -> lk_fine l' -> lk_holds l' (pDbFd r) (WAL_READ_LOCK (readLock r)) = Some false ->
  s_hdr0 s' = s_hdr0 s -> s_ckpt s' = s_ckpt s -> (forall C, txn_ok t s (os_data log) l C -> content C 0xFFFFFFFF = None -> txn_ok t' s' (os_data log) l' C) ->
  undisturbed (mk_system t s log db l) (mk_system t' s' log db l').
Proof.
  intros [(C & HK & Ht & Hn) Hp Hf Hl Hm Hb Hlk Hmk] L1 L2 L3 E0 Ec Htx. split; [|done]. cbn in *. split; cbn; rewrite ?E0, ?Ec; try done. exists C. split; [done|]. split; [by apply Htx|done].
Qed.

Lemma step_begin_write t s log db l w rc w' l' : isolated K (mk_system t s log db l) -> other w l -> write_conn sz w s -> 0 < readLock w -> lk_holds l (pDbFd w) WAL_WRITE_LOCK = None ->
  sqlite3WalBeginWriteTransaction w s l = Done (rc, w', l') -> undisturbed (mk_system t s log db l) (mk_system (if rc =? SQLITE_OK then TxOpen w' else t) s log db l').
Proof.
  intros Hi Ho Hw Hrd Hnone E. destruct (other_locks _ _ _ _ _ _ Hi Ho) as [Hlo Hlf]. pose proof Ho as (Ex & Hc & _). unfold sqlite3WalBeginWriteTransaction in E. destruct (is_locks _ _ Hi) as [Hl Hf].
  assert (locks_kept l l) as Hk0 by (split_and!; try done; by intros ? (_ & _ & _ & ?)).
  destruct (readOnly w =? 0); cbn [negb] in E; [|injection E as <- <- <-; by apply step_locks].
  assert (locks_free w l WAL_WRITE_LOCK 1) as Hfree by (intros _ j Hj; unfold WAL_WRITE_LOCK in *; by replace j with 0 by lia).
  destruct (walLockExclusive_ok w WAL_WRITE_LOCK 1 l Hlo) as (rc1 & l1 & E1 & Hok1 & Hf1 & Hs1 & _ & Hgood & _); [done..|].
  destruct (lock_unlock_calm w WAL_WRITE_LOCK 1 l Hlo Hlf) as (rc2 & l2 & E2 & Hcalm); [done..|]. rewrite E1 in E2. injection E2 as <- <-. rewrite E1 in E.
  destruct (Z.eqb_spec rc1 SQLITE_OK) as [->|Hrc]; cbn [negb] in E.
  2: { injection E as <- <- <-. rewrite (proj2 (Z.eqb_neq _ _) Hrc). destruct Hcalm as [[? _]|(_ & _ & Hcalm)]; [done|]. apply step_locks; [done|by eapply calm_kept]. }
  destruct Hcalm as [(_ & _ & Hcalm)|[? _]]; [|done]. destruct (Hgood eq_refl) as [Hmine _]. unfold walIndexHdr in E. rewrite bool_decide_eq_true_2 in E by apply (wc_zero _ _ _ Hw). cbn [mbind outcome_bind hdr with_writeLock] in E.
  destruct (bool_decide (hdr w = s_hdr0 s)) eqn:Eh; cbn [negb] in E; injection E as <- <- <-; [|apply step_locks; [done|by eapply calm_kept]].
  apply bool_decide_eq_true in Eh. change (SQLITE_OK =? SQLITE_OK) with true. cbv iota. apply step_txn; try done; [by apply Hok1|by apply Hf1|rewrite Hs1 by (left; congruence); apply (is_lock _ _ Hi)|].
  intros C Ht Hn. split; [split_and!; try done; by apply Hmine|]. exists []. split; [|by rewrite app_nil_r]. apply shared_state; [by eapply txn_shared|done|done].
Qed.

Lemma end_write_ok w l w' l' : txn_conn w l -> lk_ok l -> lk_fine l -> lk_open l (pDbFd w) -> sqlite3WalEndWriteTransaction w l = (SQLITE_OK, w', l') ->
  lk_ok l' /\ lk_fine l' /\ lk_holds l' (pDbFd r) (WAL_READ_LOCK (readLock r)) = lk_holds l (pDbFd r) (WAL_READ_LOCK (readLock r)).
Proof.
  intros (Ex & Hc & _ & Hh) Hl Hf Ho. unfold sqlite3WalEndWriteTransaction. destruct (writeLock w); intros E; injection E as <- <-; [|done].
  destruct (walUnlockExclusive_ok w WAL_WRITE_LOCK 1 l) as (A & B & D); [by intros _|done..|intros _ j Hj; unfold WAL_WRITE_LOCK in *; by replace j with 0 by lia|].
  destruct (D ltac:(by intros _)) as [D1 _]. split; [by apply A|]. split; [by apply D1|]. apply B. left. congruence.
Qed.

Lemma step_end_write w s log db l w' l' : isolated K (mk_system (TxOpen w) s log db l) -> lk_open l (pDbFd w) -> sqlite3WalEndWriteTransaction w l = (SQLITE_OK, w', l') ->
  undisturbed (mk_system (TxOpen w) s log db l) (mk_system TxNone s log db l').
Proof.
  intros Hi Ho E. destruct (is_locks _ _ Hi) as [Hl Hf]. destruct (is_txn _ _ Hi) as (C & _ & (Hc & _) & _). destruct (end_write_ok w l w' l' Hc Hl Hf Ho E) as (A & B & D).
  apply step_txn; try done; [rewrite D; apply (is_lock _ _ Hi)|]. intros C' Ht _. by apply txn_shared in Ht.
Qed.

Lemma step_rollback t w s log db l rc called w1 s' w' l' : isolated K (mk_system t s log db l) -> t = TxOpen w \/ t = TxFailed w -> lk_open l (pDbFd w) ->
  sqlite3WalUndo w (fun _ => SQLITE_OK) s = Done (rc, called, w1, s') -> sqlite3WalEndWriteTransaction w1 l = (SQLITE_OK, w', l') -> undisturbed (mk_system t s log db l) (mk_system TxNone s' log db l').
Proof.
  intros Hi Htw Ho E Ee. destruct (is_locks _ _ Hi) as [Hl Hf]. assert (forall C, txn_ok t s (os_data log) l C -> txn_conn w l /\ log_broken sz w s (os_data log) C) as Htx.
  { intros C. destruct Htw as [-> | ->]; [intros (Hc & P & Hst & _); split; [done|by eapply state_broken]|by intros [? ?]]. }
  assert (forall C, txn_ok t s (os_data log) l C -> log_shared sz s' (os_data log) C /\ conn_of w1 = conn_of w /\ s_hdr0 s' = s_hdr0 s /\ s_ckpt s' = s_ckpt s) as Hback.
  { intros C Ht. destruct (Htx C Ht) as [_ Hb]. destruct (rollback_ok _ _ _ _ _ Hb) as (called1 & w2 & s2 & E2 & Hst & R1 & R2 & R3). rewrite E in E2. injection E2 as -> -> -> ->.
    split; [by eapply broken_shared, state_broken|done]. }
  destruct (is_txn _ _ Hi) as (C & _ & Ht & _). destruct (Htx C Ht) as [Hc _]. destruct (Hback C Ht) as (_ & Ec & E0 & Ek). destruct (conn_parts _ _ Ec) as (_ & P1 & P2 & P3).
  destruct (end_write_ok w1 l w' l') as (A & B & D); [|done|done|by rewrite P1|done|]. { destruct Hc as (? & ? & ? & ?). unfold txn_conn. by rewrite P1, P2, P3. }
  apply step_txn; try done; [rewrite D; apply (is_lock _ _ Hi)|]. intros C' Ht' _. by apply Hback.
Qed.

Lemma snapshot_prefix C log db lo p : K `prefix_of` C -> snapshot_page sz (map f_pgno C) log db lo (len K) p = snapshot_page sz (map f_pgno K) log db lo (len K) p.
Proof. intros [D ->]. unfold snapshot_page. rewrite map_app, last_frame_prefix; [done|by rewrite length_map|lia]. Qed.

Lemma step_frames w s log db l salt0 salt1 ok sectorSize pList nTruncate isCommit flags rc w' s' log' l' : isolated K (mk_system (TxOpen w) s log db l) -> frames_args sz salt0 sectorSize pList nTruncate isCommit w ->
  sqlite3WalFrames unreliable walBeginShmUnreliable aPrivate salt0 salt1 ok sectorSize sz pList nTruncate isCommit flags w s log l = Done (rc, w', s', log', l') ->
  undisturbed (mk_system (TxOpen w) s log db l) (mk_system (if rc =? SQLITE_OK then TxOpen w' else TxFailed w') s' log' db l').
Proof.
  intros [(C & HK & ((Hc1 & Hc2 & Hc3 & Hc4) & P & Hst & HnP) & Hn) Hp [Hf1 Hf2] Hl Hm Hb Hlk Hmk] [A1 A2 A3 A4 A5 A6 [A7 A8] A9] E. cbn in *.
  pose proof (lr_mx _ _ _ (ls_index _ _ _ _ _ _ Hst)) as Hmx. rewrite in_index_frames, length_map in Hmx. rewrite Hmx in A9.
  destruct (sqlite3WalFrames_ok unreliable walBeginShmUnreliable aPrivate salt0 salt1 ok sectorSize sz pList nTruncate isCommit flags w s log l C P Hst Hf1) as (rc1 & w1 & s1 & log1 & E1 & Hok & Ec & Ek & E0 & Hbad & Hgood); try done; [lia|].
  rewrite E in E1. injection E1 as -> -> -> -> ->. destruct (conn_parts _ _ Ec) as (_ & P1 & P2 & P3).
  assert (txn_conn w1 l) as Htc by (unfold txn_conn; by rewrite P1, P2, P3).
  assert (exists C', C `prefix_of` C' /\ txn_ok (if rc1 =? SQLITE_OK then TxOpen w1 else TxFailed w1) s1 (os_data log1) l C' /\ content C' 0xFFFFFFFF = None /\
    (len K = mxFrame (s_hdr0 s1) -> s_hdr0 s1 = s_hdr0 s)) as (C' & HC & Ht & Hn' & Hsame).
  { destruct (Z.eqb_spec rc1 SQLITE_OK) as [->|Hrc]; [|exists C; split; [done|]; split; [split; [done|by apply Hbad]|]; split; [done|intros _; apply E0; by rewrite andb_false_r]].
    destruct (Hgood eq_refl) as (C' & P' & [Hst' Hpre Hmore _ Hq]). specialize (Hq 0xFFFFFFFF). rewrite HnP, updated_none in Hq by done. exists C'. split; [done|]. split; [split; [done|by exists P']|]. split; [by eapply content_prefix|].
    intros Elen. apply E0. destruct isCommit; [|done]. specialize (Hmore eq_refl). pose proof (lr_committed _ _ _ (ls_index _ _ _ _ _ _ Hst')) as Hcm. cbn in Hcm. rewrite length_map in Hcm. apply prefix_length in HK. lia. }
  assert (K `prefix_of` C') as HK' by by etrans. pose proof (shared_holds _ _ _ _ (txn_shared _ _ _ _ _ Ht)) as Hh'. assert (log_shared sz s (os_data log) C) as Hsh by by eapply broken_shared, state_broken.
  split; [split; cbn; rewrite ?Ek; try done|].
  - by exists C'.
  - intros Elen. specialize (Hsame Elen). rewrite Hsame in *. by apply Hp.
  - intros p _. unfold page_now. cbn. apply snapshot_same_log; [eapply holds_prefix; [exact HK|by eapply shared_holds]|by eapply holds_prefix].
Qed.

Lemma step_checkpoint t w s log db l ok1 ok2 interrupts mf salt1 eMode xBusy flags rc w' s' log' db' l' : isolated K (mk_system t s log db l) -> other w l -> mapping_ok w s -> 0 ∈ w_mapped w -> hdr w = s_hdr0 s ->
  walPagesize (hdr w) = sz -> 0 <= nPage (hdr w) < 2 ^ 32 -> locks_free w l (WAL_READ_LOCK 0) WAL_NREADER -> len salt1 = 4 -> bytes_ok salt1 ->
  walCheckpoint ok1 ok2 interrupts mf salt1 eMode xBusy flags w s log db l = Done (rc, w', s', log', db', l') -> undisturbed (mk_system t s log db l) (mk_system t s' log' db' l').
Proof.
  intros Hi Ho Hmap Hz Eh Esz Hnp Hfree Ls Bs E. destruct (other_locks _ _ _ _ _ _ Hi Ho) as [Hlo Hlf]. pose proof (reader_held _ _ _ _ _ _ Hi Ho) as Hheld. destruct Ho as (Ex & _ & _).
  destruct Hi as [(C & HK & Ht & Hn) Hp [Hf1 Hf2] Hl Hm Hb Hlk [Hmk Hmin]]. cbn in *. pose proof (txn_shared _ _ _ _ _ Ht) as [H1' H2' H3' H4' _ [H6 H6'] H7 _]. pose proof (prefix_length _ _ HK) as Hlen.
  assert (ckpt_ready w s (map f_pgno C)) as Hr.
  { split; try done; rewrite ?Eh, ?H3', ?length_map; try lia.
    - apply content_none in Hn. rewrite Forall_map in H7. apply Forall_map. rewrite Forall_forall in Hn, H7 |- *. intros f Hin. specialize (Hn f Hin). specialize (H7 f Hin). cbn in *. lia.
    - rewrite <- Eh, Esz. destruct Hsz. by apply power_of_two_size.
    - split; [by rewrite H6'|done]. }
  destruct (walCheckpoint_ok (map f_pgno C) ok1 ok2 interrupts mf salt1 eMode xBusy flags w s log db l Hr Hf1 Hf2 Hlo Hlf Hfree Ls Bs) as (rc1 & w1 & s1 & log1 & db1 & l1 & E1 & Hcalm & Hsame & _ & O1 & O2 & Hgr); [by rewrite Eh|].
  rewrite E in E1. injection E1 as -> -> -> -> -> ->. destruct (Hgr (readLock r) ltac:(lia) Hheld) as (Hg & Hm1 & El). destruct (sc_readers _ _ _ _ _ _ _ _ _ Hsame (readLock r) ltac:(lia) Hheld) as [Emk Hsnap].
  pose proof (calm_kept w l l1 Ex Hcalm) as (L1 & L2 & L3 & L4). pose proof Hg as (E0 & _ & _ & Eb). split; [split; cbn; try done|].
  - exists C. split; [done|]. split; [|done]. rewrite El. eapply txn_locks; [by eapply txn_grown|done].
  - by rewrite E0.
  - lia.
  - by rewrite L3.
  - split; [by rewrite Emk|lia].
  - intros p Hpr. unfold page_now. cbn. rewrite <- !(snapshot_prefix C) by done. rewrite Esz in Hsnap. apply Hsnap; [done|done|lia|]. rewrite Eh.
    destruct (decide (len K = mxFrame (s_hdr0 s))) as [Ee|Hne]; [left; rewrite <- Hp by done; lia|right; lia].
Qed.

Lemma step_undisturbed y y' : isolated K y -> sys_step y y' -> undisturbed y y'.
Proof.
  intros Hi Hs. destruct Hs; [by eapply step_begin_write|by eapply step_frames|by eapply step_rollback|by eapply step_end_write|by eapply step_checkpoint|by eapply step_begin_read| |by eapply step_end_read].
  apply step_find; [done|]. destruct (is_txn _ _ Hi) as (C & _ & Ht & _). pose proof (txn_shared _ _ _ _ _ Ht) as [A1 A2 A3 A4 _ _ _ _]. cbn in *.
  destruct (WalFindFrame_ok w s (map f_pgno C) pg) as (rc1 & f1 & w1 & s1 & E1 & Hr & _); [done|done|rewrite length_map; lia|lia|done|].
  exists w, w1. congruence.
Qed.

Lemma steps_undisturbed y y' : isolated K y -> rtc sys_step y y' -> undisturbed y y'.
Proof.
  intros Hi Hs. induction Hs as [y|y y1 y' Hs _ IH]; [done|]. destruct (step_undisturbed _ _ Hi Hs) as [Hi1 Hp1]. destruct (IH Hi1) as [Hi2 Hp2]. split; [done|]. intros p Hp. by rewrite Hp2, Hp1.
Qed.
End system.

(** ** Isolation *)

Section isolation.
Context {F L : Type} `{OsFileLaws F} `{ShmLocksLaws L}.
Context (unreliable : Z -> bool -> Wal -> Shm -> F -> L -> outcome (Z * bool * Wal * Shm * F * L)).
Context (walBeginShmUnreliable : bool -> Wal -> Shm -> F -> L -> outcome (Z * bool * Wal * Shm * F * L)).
Context (aPrivate : option WiPage).

(** The connections when [r] has begun to read; the frames [C] are committed. *)
Record read_begun (sz : Z) (r : Wal) (C : list Frame) (y : system F L) : Prop := {
  rb_txn : txn_ok sz r (y_txn y) (y_shm y) (os_data (y_log y)) (y_locks y) C;
  rb_pages : content C 0xFFFFFFFF = None;
  rb_size : wal_page_size sz;
  rb_files : os_ok (y_log y) /\ os_ok (y_db y);
  rb_locks : lk_ok (y_locks y) /\ lk_fine (y_locks y);
  rb_marks : len (aReadMark (s_ckpt (y_shm y))) = WAL_NREADER /\ Forall (Z.le 0) (aReadMark (s_ckpt (y_shm y)));
  rb_backfill : 0 <= nBackfill (s_ckpt (y_shm y));
  rb_hdr : hdr r = s_hdr0 (y_shm y);
  rb_reading : reading r (y_shm y) (y_locks y);
  rb_slot : exclusiveMode r = 0 /\ readLock r <> 0 /\ minFrame r < 2 ^ 31
}.

Lemma begun_isolated sz r C y : read_begun sz r C y -> isolated sz r C y /\ 0 < readLock r < WAL_NREADER /\ mxFrame (hdr r) = len C.
Proof.
  intros [Ht Hn Hsz Hf Hl Hm Hb Eh [R1 R2 R3 R4] (X1 & X2 & X3)]. destruct (R4 X2) as (M1 & M2 & M3).
  assert (mxFrame (hdr r) = len C) as Emx by (rewrite Eh; exact (lh_mx _ _ _ _ (txn_shared _ _ _ _ _ _ _ Ht))).
  split; [|lia]. split; try done; [by exists C|by rewrite Eh|by apply R2|by rewrite <- Emx].
Qed.

(** C12. Readers are isolated.  The connection [r] has begun to read ([read_begins]), with a mark.  Then
    the other connections, in any order and however often, begin write transactions, write
    frames with success or without, commit, roll back, checkpoint in any mode, begin and end to
    read, and search the index, each call one step; whichever calls on the files fail.  A writer does
    not restart the log (its [readLock] is above 0), and a checkpoint has the current header.
    Whatever page of its database [r] looks up afterwards: [sqlite3WalFindFrame] is defined, and
    the frame that it finds, or the file if it finds none, has the page as it was when [r] began. *)
Theorem snapshot_isolation sz r C y y' p m v ro : read_begun sz r C y -> rtc (sys_step unreliable walBeginShmUnreliable aPrivate sz r) y y' ->
  0 < p <= nPage (hdr r) -> mapping_ok (with_mapped r m v ro) (y_shm y') ->
  exists rc f r' s', sqlite3WalFindFrame (with_mapped r m v ro) p (y_shm y') = Done (rc, f, r', s') /\ (v = [] -> rc = SQLITE_OK) /\
    (rc = SQLITE_OK -> (if f =? 0 then db_page sz (os_data (y_db y')) p else frame_page sz (os_data (y_log y')) f) =
                       reader_page sz (map f_pgno C) r (os_data (y_log y)) (os_data (y_db y)) p).
Proof.
  intros Hbegun Hs Hp Hm. destruct (begun_isolated _ _ _ _ Hbegun) as (Hi & Hslot & Emx). destruct Hbegun as [_ _ Hsz _ _ _ _ _ [_ _ Hmx Hmin] (X1 & X2 & X3)].
  destruct (steps_undisturbed unreliable walBeginShmUnreliable aPrivate sz r C Hsz Hslot y y' Hi Hs) as [Hi' Hpage]. specialize (Hpage p Hp).
  destruct (is_txn _ _ _ _ Hi') as (C' & HK & Ht & _). pose proof (txn_shared _ _ _ _ _ _ _ Ht) as [_ A2 _ A4 _ _ _ _]. pose proof (prefix_length _ _ HK) as Hlen.
  destruct (WalFindFrame_ok (with_mapped r m v ro) (y_shm y') (map f_pgno C') p Hm A2) as (rc & f & r1 & s1 & E & _ & _ & Hv & Hf);
    [rewrite length_map; change (hdr (with_mapped r m v ro)) with (hdr r); lia|change (hdr (with_mapped r m v ro)) with (hdr r); lia|change (0 <= minFrame r < 2 ^ 31); destruct (Hmin X2); lia|].
  exists rc, f, r1, s1. split; [exact E|]. split; [exact Hv|]. intros Hrc. rewrite (Hf Hrc). change (readLock (with_mapped r m v ro)) with (readLock r). rewrite (proj2 (Z.eqb_neq _ _) X2). cbn [andb].
  change (minFrame (with_mapped r m v ro)) with (minFrame r). change (hdr (with_mapped r m v ro)) with (hdr r). rewrite Emx. unfold reader_page. rewrite (proj2 (Z.eqb_neq _ _) X2), Emx.
  unfold page_now in Hpage. rewrite <- Hpage. destruct HK as [D ->]. rewrite map_app, last_frame_prefix by (rewrite ?length_map; lia). done.
Qed.
End isolation.

(** ** A concrete reader

    The log has a commit of the pages 7 and 9; connection 1 reads, with mark 1 at the third
    frame, which is a copy of the second; connection 0
    writes page 7 again and commits. *)

Definition reader1 (h : WalIndexHdr) : Wal := mk_wal {[0]} [] 1%nat 0 0 512 1 0 false false 0 false true true false h 1 0 0.
Definition two_conns : UnixShm := mk_table [-1; 0; 0; 0; 1; 0; 0; 0] [mk_shm_conn 0 1; mk_shm_conn 16 0] [].

Lemma two_conns_wf : table_wf two_conns.
Proof.
  split; [done|]. intros i Hi. destruct (decide (i = 0)) as [->|Hne].
  - right. split; [done|]. exists 0%nat. split; [by eexists|]. intros [|[|c]] p E; [by injection E as <-..|done].
  - left. split; [|intros [|[|c]] p E; [injection E as <-|injection E as <-; by rewrite Z.testbit_0_l|done]].
    + assert (i = 1 \/ i = 2 \/ i = 3 \/ i = 4 \/ i = 5 \/ i = 6 \/ i = 7) as Hc by lia. by destruct Hc as [-> | [-> | [-> | [-> | [-> | [-> | ->]]]]]].
    + destruct i as [|i|i]; [done| |lia]. by destruct i.
Qed.

Definition write_run (pList : list PgHdr) (nTruncate : Z) (w : Wal) (s : Shm) (fd : FaultyFile) : outcome (Z * Wal * Shm * FaultyFile * UnixShm) :=
  sqlite3WalFrames (fun _ _ _ _ _ _ => UB) (fun _ _ _ _ _ => UB) None (replicate 8 5) [] true 512 512 pList nTruncate true 2 w s fd two_conns.

(** What the search finds, when nothing has been copied yet. *)
Lemma snapshot_content sz d db C p b : holds_frames sz d C -> content C p = Some b -> snapshot_page sz (map f_pgno C) d db 1 (len C) p = b.
Proof.
  intros Hh Hb. assert (exists i f, C !! i = Some f /\ f_pgno f = p /\ f_page f = b /\ forall j g, (i < j)%nat -> C !! j = Some g -> f_pgno g <> p) as (i & f & Hi & Ep & Eb & Hlast).
  { clear Hh. induction C as [|x C IH] using rev_ind; [done|]. rewrite content_snoc in Hb. destruct (Z.eqb_spec (f_pgno x) p) as [E|E].
    - exists (length C), x. injection Hb as Hb. split; [by rewrite list_lookup_middle|]. split; [done|]. split; [done|]. intros j g Hj Hg. apply lookup_lt_Some in Hg. rewrite length_app in Hg. cbn in Hg. lia.
    - destruct (IH Hb) as (i & f & Hi & Ep & Eb & Hlast). exists i, f. split; [by apply lookup_app_l_Some|]. split; [done|]. split; [done|]. intros j g Hj Hg. apply lookup_snoc_Some in Hg as [[_ Hg]|[_ <-]]; [by eapply Hlast|done]. }
  pose proof (lookup_lt_Some _ _ _ Hi) as Hl. unfold snapshot_page. rewrite (last_frame_is _ _ _ _ (Z.of_nat i + 1)); [|lia| |].
  - rewrite (proj2 (Z.eqb_neq _ _)) by lia. rewrite <- Eb. by apply Hh.
  - intros g Hg _ Eg. destruct (Z.le_gt_cases g (Z.of_nat i + 1)) as [|Hgt]; [done|]. destruct (lookup_lt_is_Some_2 C (Z.to_nat (g - 1)) ltac:(lia)) as [x Hx].
    destruct (Hlast (Z.to_nat (g - 1)) x ltac:(lia) Hx). unfold ld in Eg. by rewrite nth_lookup, list_lookup_fmap, Hx in Eg.
  - right. split; [lia|]. split; [lia|]. unfold ld. rewrite nth_lookup, list_lookup_fmap. replace (Z.to_nat (Z.of_nat i + 1 - 1)) with i by lia. by rewrite Hi.
Qed.

(** After the first commit. *)
Lemma first_commit : exists w s fd C, write_run two_pages 9 (wal0 0 true) shm0 (mk_file [] []) = Done (SQLITE_OK, w, s, fd, two_conns) /\ log_state 512 w s (os_data fd) C [] /\
  os_ok fd /\ content C 0xFFFFFFFF = None /\ content C 7 = Some (page_of 1) /\ conn_of w = conn_of (wal0 0 true) /\ s_ckpt s = s_ckpt shm0 /\ mxFrame (s_hdr0 s) = 3 /\ nPage (s_hdr0 s) = 9.
Proof.
  destruct (sqlite3WalFrames_ok (H := FaultyFile_OsFile) (fun _ _ _ _ _ _ => UB) (fun _ _ _ _ _ => UB) None (replicate 8 5) [] true 512 512 two_pages 9 true 2 (wal0 0 true) shm0 (mk_file [] []) two_conns [] [] wal0_log_state)
    as (rc & w & s & fd & E & Hok & Hc & Hk & _ & _ & Hgot).
  - constructor.
  - discriminate.
  - split; [lia|reflexivity].
  - split; [reflexivity|]. repeat constructor; lia.
  - discriminate.
  - exact two_pages_ok.
  - repeat constructor; set_solver.
  - lia.
  - reflexivity.
  - lia.
  - cbn. lia.
  - assert (rc = SQLITE_OK /\ mxFrame (s_hdr0 s) = 3 /\ nPage (s_hdr0 s) = 9) as (-> & E1 & E2).
    { enough (match write_run two_pages 9 (wal0 0 true) shm0 (mk_file [] []) with
        Done (rc, _, s, _, _) => (rc =? SQLITE_OK) && (mxFrame (s_hdr0 s) =? 3) && (nPage (s_hdr0 s) =? 9) | _ => false end = true) as G; [|vm_compute; reflexivity].
      unfold write_run in G. rewrite E in G. apply andb_true_iff in G as [G G3%Z.eqb_eq]. apply andb_true_iff in G as [G1%Z.eqb_eq G2%Z.eqb_eq]. exact (conj G1 (conj G2 G3)). }
    destruct (Hgot eq_refl) as (C & P & [Hst _ _ [-> _] Hq]). exists w, s, fd, C. split; [exact E|]. split; [exact Hst|]. split; [exact Hok|].
    pose proof (Hq 0xFFFFFFFF) as Hq1. specialize (Hq 7). rewrite app_nil_r in Hq, Hq1. split; [exact Hq1|]. split; [exact Hq|]. exact (conj Hc (conj Hk (conj E1 E2))).
Qed.

(** The next commit. *)
Lemma next_commit w s fd C : log_state 512 w s (os_data fd) C [] -> os_ok fd -> conn_of w = conn_of (wal0 0 true) -> len C = 3 ->
  exists rc w' s' fd', write_run [mk_page 7 (page_of 3)] 9 w s fd = Done (rc, w', s', fd', two_conns) /\ mapping_ok w' s' /\ 0 ∈ w_mapped w'.
Proof.
  intros Hst Hok Hc Hlen. destruct (conn_parts _ _ Hc) as (_ & _ & _ & P3).
  destruct (sqlite3WalFrames_ok (H := FaultyFile_OsFile) (fun _ _ _ _ _ _ => UB) (fun _ _ _ _ _ => UB) None (replicate 8 5) [] true 512 512 [mk_page 7 (page_of 3)] 9 true 2 w s fd two_conns C [] Hst Hok)
    as (rc & w' & s' & fd' & E & _ & _ & _ & _ & Hbad & Hgot).
  - rewrite P3. discriminate.
  - split; [lia|reflexivity].
  - split; [reflexivity|]. repeat constructor; lia.
  - discriminate.
  - constructor; [|constructor]. pose proof two_pages_ok as [(_ & A & _) _]%Forall_cons. split; [cbn; lia|]. split; [exact A|]. apply Forall_replicate. unfold is_byte. lia.
  - apply NoDup_singleton.
  - lia.
  - reflexivity.
  - lia.
  - rewrite app_nil_r, Hlen. cbn. lia.
  - assert (exists a, log_rel w' s' a) as [a Hrel].
    { destruct (decide (rc = SQLITE_OK)) as [Hrc|Hrc]; [destruct (Hgot Hrc) as (C' & P' & [Hst' _ _ _ _]); exists (in_index C' P'); apply Hst'|destruct (Hbad Hrc) as [[P Hrel] _ _ _]; by exists (in_index C P)]. }
    exists rc, w', s', fd'. split; [exact E|]. split; [exact (wr_map _ _ _ (lr_writer _ _ _ Hrel))|exact (wr_zero _ _ _ (lr_writer _ _ _ Hrel))].
Qed.

Lemma snapshot_isolation_witness : exists y y' r C, read_begun 512 r C y /\
  rtc (sys_step (fun _ _ _ _ _ _ => UB) (fun _ _ _ _ _ => UB) None 512 r) y y' /\
  exists f r' s', sqlite3WalFindFrame r 7 (y_shm y') = Done (SQLITE_OK, f, r', s') /\
    (if f =? 0 then db_page 512 (os_data (F := FaultyFile) (y_db y')) 7 else frame_page 512 (os_data (y_log y')) f) = page_of 1.
Proof.
  destruct first_commit as (w & s & fd & C & _ & Hst & Hok & Hn & H7 & Hc & Hk & Emx & Enp).
  pose proof (lr_mx _ _ _ (ls_index _ _ _ _ _ _ Hst)) as Hlen. rewrite in_index_frames, length_map, app_nil_r in Hlen. pose proof (lr_committed _ _ _ (ls_index _ _ _ _ _ _ Hst)) as Hcm. cbn in Hcm. rewrite length_map, Emx in Hcm.
  destruct (conn_parts _ _ Hc) as (_ & P1 & P2 & P3). set (s1 := with_marks s [0; 3; 0; 0; 0]). assert (grown s s1) as Hg by (apply grown_refl; done).
  pose proof (grown_state _ _ _ _ _ _ _ Hg Hst) as Hst1. set (r := reader1 (s_hdr0 s)). set (y := mk_system (TxOpen w) s1 fd (mk_file [] []) two_conns).
  assert (read_begun 512 r C y) as Hb.
  { split; unfold y, r, s1; cbn [y_txn y_shm y_log y_db y_locks hdr reader1].
    - split; [|exists []; rewrite app_nil_r; split; [exact Hst1|exact Hn]]. split; [rewrite P2; reflexivity|]. split; [rewrite P1; discriminate|]. split; [rewrite P3; reflexivity|]. rewrite P1. reflexivity.
    - exact Hn.
    - split; [lia|reflexivity].
    - split; [exact Hok|constructor].
    - split; [exact two_conns_wf|reflexivity].
    - split; [reflexivity|]. repeat constructor; lia.
    - cbn. rewrite Hk. cbn. lia.
    - reflexivity.
    - split; cbn [readLock exclusiveMode pDbFd hdr minFrame reader1 s_ckpt aReadMark with_marks with_ckpt s_hdr0]; [unfold WAL_NREADER; lia|reflexivity|lia|]. intros _. rewrite Emx, Hk. change (3 <= 3 /\ 0 <= 1 < 2 ^ 31 + 1 /\ 1 <= 0 + 1). lia.
    - split; [reflexivity|]. split; [discriminate|cbn; lia]. }
  destruct (next_commit w s1 fd C Hst1 Hok Hc ltac:(lia)) as (rc & w2 & s2 & fd2 & E & Hm2 & Hz2).
  exists y, (mk_system (if rc =? SQLITE_OK then TxOpen w2 else TxFailed w2) s2 fd2 (mk_file [] []) two_conns), r, C. split; [exact Hb|].
  assert (rtc (sys_step (fun _ _ _ _ _ _ => UB) (fun _ _ _ _ _ => UB) None 512 r) y (mk_system (if rc =? SQLITE_OK then TxOpen w2 else TxFailed w2) s2 fd2 (mk_file [] []) two_conns)) as Hs.
  { apply rtc_once. eapply st_frames; [|exact E]. split; [split; [reflexivity|]; repeat constructor; lia|lia|discriminate| |constructor; [discriminate|constructor]|apply NoDup_singleton|split; [lia|reflexivity]|cbn [length]; lia].
    constructor; [|constructor]. pose proof two_pages_ok as [(_ & A & _) _]%Forall_cons. split; [cbn; lia|]. split; [exact A|]. apply Forall_replicate. unfold is_byte. lia. }
  split; [exact Hs|]. assert (mapping_ok (with_mapped r {[0]} [] 0) s2) as Hmr.
  { split; [|apply Hm2]. intros h Hh. cbn in Hh. apply elem_of_singleton in Hh as ->. by apply Hm2. }
  destruct (snapshot_isolation (H := FaultyFile_OsFile) (fun _ _ _ _ _ _ => UB) (fun _ _ _ _ _ => UB) None 512 r C y _ 7 {[0]} [] 0 Hb Hs) as (rc2 & f & r' & s' & E2 & Hrc & Hpage); [change (0 < 7 <= nPage (s_hdr0 s)); lia|exact Hmr|].
  specialize (Hrc eq_refl). subst rc2. exists f, r', s'. split; [exact E2|]. rewrite (Hpage eq_refl). unfold reader_page. change (readLock r =? 0) with false. cbv iota.
  change (minFrame r) with 1. change (hdr r) with (s_hdr0 s). rewrite Emx, Hcm. apply snapshot_content; [|exact H7]. apply (shared_holds _ s). by eapply broken_shared, state_broken.
Defined.
